(* ===== verification/_CoqProject ===== *)
-Q . S2P
Prelude.v
Text.v
Effects.v
Framing.v
WireBase.v
WirePath.v
Wire.v
CodecPrim.v
Codec.v
Requests.v
Responses.v
Usn.v
UsnPath.v
ActiveRegistry.v
LibraryChange.v
Order.v
Planning.v
PlanningCoverage.v
PlanningOrder.v
NormalPath.v
Reconcile.v
Numerals.v
JournalText.v
JournalBatch.v
JournalEntries.v
JournalRecovery.v
JournalIdentity.v
ChangeQueue.v
JournalState.v
UnionFind.v
VolumeComponents.v
Continuity.v
Handoffs.v
CatchUp.v
CatchUpTrace.v
CatchUpSafety.v
WindowProgress.v
Contracts.v
BrokerChecks.v
AnswerSize.v
Service.v
ServiceVolume.v
ServiceAnswers.v
Constrain.v
RangeRead.v
VolumeSlots.v
VolumeAnswers.v
VolumeTranslation.v
VolumeBarrier.v
VolumeResponse.v
VolumeReply.v
VolumeRead.v
PinnedRoots.v
SemanticEvents.v
NativeJournal.v
SemanticLaws.v
SemanticLimits.v
NativeReads.v
WindowsSecurity.v
WindowsLaws.v
WindowsHost.v
RootBudget.v
RawPages.v
Coalescing.v
JournalIntents.v
QueueStore.v
Enqueue.v
QueueView.v
EnqueueLaws.v
EnqueueWork.v
Leases.v
LeaseLaws.v
LeaseRuns.v
SimilarImages.v
SimilarLaws.v
SimilarGroups.v
SimilarProgress.v
SimilarRuns.v
Reclamation.v
Classification.v
