(* ===== verification/Prelude.v ===== *)
(** * Verification of the Cedarflake Ame core

    Cedarflake Ame keeps a catalog of the images below a set of library roots.  A privileged Windows
    service, the journal broker, reads the NTFS change journal and tells the application, over a
    binary protocol, which files under an authorised root may have changed.  The application turns
    such observations into a small plan of reconciliation work, compares the evidence stored in the
    catalog with what the file system shows, and decides per path what becomes of the data it derived.
    It queues that work durably, groups similar images, keeps what a person decides about their categories, and
    reclaims the space of its database.
    This library models those parts of [src/rust/src] as executable functions and proves the properties
    that make them correct.

    ** The parts and the files

    - [Prelude.v]: Rust's [Result], a state-and-error monad for methods on [&mut self], machine-width
      arithmetic ([checked_add], [saturating_add], [try_from_uint], little-endian bytes, slices), the
      tactics [simplify_result] and others, and the shared lemmas.  [Text.v]: [char], [str], UTF-8
      and UTF-16 with their strict decoders, [split], [join] and the string tests.
    - [Framing.v]: [journal_broker/framing.rs].
    - [WireBase.v]: the constants and errors of [journal_broker/wire.rs] and
      [journal_broker/read_interval.rs].  [Wire.v]: the messages of [wire.rs] with their [validate] and
      [evidence_bytes] methods.  [WirePath.v]: [wire/path.rs] and [windows/name.rs]; the Win32 function
      [CompareStringOrdinal] is a parameter, of which only its documented result codes are used.
    - [CodecPrim.v]: [Writer] and [Reader] of [wire/codec.rs]; the class [Format] states what a writer
      and a reader promise each other, and the messages are verified against it.  [Codec.v]: the
      composite values.  [Requests.v], [Responses.v]: [encode_request], [decode_request],
      [validate_response], [encode_response] and [decode_response].
    - [Usn.v]: [windows_usn/parsing.rs], the decoder of journal buffers.  [UsnPath.v]: [windows_usn.rs],
      the histories of file references and the resolution of historical paths.
    - [ActiveRegistry.v]: [journal_broker/service/active.rs], the registry of active requests: each
      method is a function on the registry state, and a run is a sequence of method calls in any order.
      The registry is behind one mutex, so the calls of concurrent connections interleave exactly as
      such sequences.  The iteration order of a [HashMap] is a parameter, required only to list each
      entry once.
    - [LibraryChange.v]: the types of [domain/library_change.rs].  [Order.v]: [Ordering], [then_with] and
      the stable [sort_by].  [Planning.v]: [plan_library_changes] of
      [application/directory_synchronization.rs] and what it calls; [PlanningCoverage.v],
      [PlanningOrder.v]: its theorems.  [NormalPath.v]: the normal form of relative paths.
      [Reconcile.v]: [reconcile_path_evidence] and what it calls.
    - [Numerals.v]: decimal and hexadecimal texts with their strict parsers.  [JournalText.v]: the scalar
      values of [domain/persistent_journal.rs] and their canonical texts.  [JournalBatch.v]: enrollment
      batches, their validation, the canonical payload they are stored as and its reader; the digest
      BLAKE3 is a parameter.  [JournalEntries.v], [JournalRecovery.v], [JournalIdentity.v]:
      its theorems.  [JournalState.v]: capabilities, checkpoints, baselines,
      failures and volume batches, then [domain/persistent_journal/read_window.rs] and
      [recovery_probe.rs].
    - [UnionFind.v], [VolumeComponents.v], [Continuity.v]: the disjoint sets, the split into atomic
      components and the validation of pages and hand-offs of
      [application/persistent_journal_continuity.rs].  [CatchUp.v]: [catch_up_persistent_journal_volume]
      and the capture window over it.  The class [JournalPorts] states the ports (repository, reader,
      cancellation flag, clock) as operations on an arbitrary world, about which nothing is assumed.
      [Handoffs.v], [CatchUpTrace.v], [CatchUpSafety.v], [WindowProgress.v]: the theorems; the ports of
      a world are wrapped so that they log the calls, and the code is specified by its calls.
    - [Effects.v]: programs over an arbitrary world that return, fail or panic, and the rules of the two
      judgements about them, [yields] (no panic, and the postcondition on success) and [returns].
    - [Contracts.v]: [journal_broker/service/contracts.rs].  [BrokerChecks.v]: the checks and
      conversions of [journal_broker/service.rs] and [service/shared_page_validation.rs].  [Service.v],
      [ServiceVolume.v]: the service itself, [handle_frame], [execute_accepted_read_frame] and what they
      call, over the class [BrokerPorts] (clock, authorizer, journal backend, and the other threads that
      may change the request registry between two steps).  [ServiceAnswers.v] states the contract of the
      ports ([BrokerPortLaws]) and [VolumeSlots.v] that of a shared page ([VolumePortLaws]); both have
      an instance.
    - [AnswerSize.v], [ServiceAnswers.v]: every frame is answered.  [Constrain.v], [RangeRead.v]: range
      reads.  [VolumeSlots.v], [VolumeAnswers.v], [VolumeTranslation.v], [VolumeBarrier.v],
      [VolumeResponse.v], [VolumeReply.v], [VolumeRead.v]: volume reads, loop by loop.
    - [PinnedRoots.v]: the facts [journal_broker/service/windows_security.rs] reads from a
      root's handle and the path functions over them; the Win32 calls are the class [HandlePorts].
      [SemanticEvents.v], [NativeJournal.v]: [journal_broker/windows/usn.rs], from raw buffers to the
      events of a page cut to its limits, over the class [NativePorts] (the two control codes of the
      journal and the paths file references open to).  [WindowsSecurity.v]: the authorizer of
      [windows_security.rs] with its [disclosure.rs] and [caller.rs], over [SecurityPorts],
      then the backend of [journal_broker/windows.rs], and the instance [windows_ports] of [BrokerPorts] that
      the two give.
    - [SemanticLaws.v], [NativeReads.v], [WindowsLaws.v], [WindowsHost.v]: that instance satisfies the two
      law classes of the service, given only that the operating system keeps to its types
      ([NativePortLaws], [SecurityPortLaws]).  [SemanticLimits.v]: the cut of a page.  [RawPages.v]: raw
      reads, and an evaluated page that the service refuses.  [RootBudget.v]: registered roots, their budget
      and their leases.
    - [ChangeQueue.v], [Coalescing.v]: the vocabulary of the durable change queue
      ([domain/library_change_queue.rs]) and the part of
      [adapters/sqlite_catalog/change_queue/coalescing.rs] that does not touch the database.
      [QueueStore.v]: the queue tables as maps and the statements of [change_queue/persistence.rs], each of
      which may fail.  [Enqueue.v]: [enqueue_one].  [Leases.v]: leases, their selection, expiry and settling
      ([lease_matching.rs], [completion.rs], [lease_deferral.rs], [gap_promotion/capacity.rs]).
      [JournalIntents.v], [QueueView.v], [EnqueueLaws.v], [EnqueueWork.v],
      [LeaseLaws.v], [LeaseRuns.v]: the theorems; [QueueView] abstracts
      the tables to a map of unresolved changes, and [queue_step] makes the queue a machine.
    - [SimilarImages.v]: similar images, from [domain/similar_images.rs] with its [matching.rs] and [analysis.rs]
      (hashes, distances, bands) over the tables of [adapters/sqlite_catalog/similar_images.rs] ([evidence.rs],
      [matching.rs], [matching/cursor.rs], [matching/postings.rs], [runs.rs]) to the matching loop of
      [application/similar_images/execution.rs].  Each statement may fail, and a transaction that fails leaves the
      tables as they were.  [SimilarLaws.v]: the laws of distances, bands, windows and statements.
      [SimilarGroups.v], [SimilarProgress.v], [SimilarRuns.v]: the theorems; [similar_step] makes the repository a
      machine.
    - [Reclamation.v]: the registry of the workers that reclaim the space of a catalog
      ([application/catalog_reclamation/operation_registry.rs]), their scheduling, and the thresholds of [policy.rs].
      Threads interleave as sequences of [system_step].
    - [Classification.v]: what a person decides about the category of a group of images
      ([domain/classification/decisions.rs], [decision_policy.rs]), and how decisions are written, read and undone
      ([adapters/sqlite_catalog/classification], [codec.rs], [observations.rs], [operations.rs], [writes.rs],
      [undo.rs]).  The JSON library and the digest are parameters.

    ** How the code is represented

    Integers are [Z], with the width written out where the code converts, adds or multiplies with a
    check; a value of a machine type is bounded by predicates such as [is_u32].  Bytes are lists of
    [Z] below 256, a [String] is the list of its Unicode scalar values.  A struct is a [Record], an enum
    an [Inductive]; their constructors are renamed only where two enums share a name.  A fallible
    function returns [Result]; a method that changes [self] returns the new state, and a [?] is the
    bind of the monad.  A [BTreeMap] whose iteration order matters is a list sorted by key, other maps
    are [gmap].  [usize] is 64 bits wide.  Instants are [Z].

    ** What the theorems show

    - Protocol: framing, requests and responses are total and exact codecs (a valid message has an
      encoding and decodes from it, and a payload that decodes is the only encoding of its message), with one exception
      that the response theorem makes explicit: the evidence of a range response is bounded by the
      decoder only.  Coverage claims are admitted exactly when they make progress inside the
      requested interval, and a path is placed under a root only when it is below it.
    - Journal: parsing terminates on every buffer, inverts the documented layout and admits only
      well-formed records; historical paths are resolved along the recorded ancestry, in bounded depth.
    - Registry: bounds hold in every reachable state, every started request is answered at most once
      and is only forgotten when its connection is closed, cancellation is final whatever follows, an accepted read is executed at most once, and a
      closing connection starts nothing.
    - Planning: no observation is lost, the plan does not depend on the arrival order, its size is
      bounded, and a root counts as synchronized exactly when there is neither a change nor a doubt.
    - Reconciliation: derived data is kept exactly for the same file in the same known state, a file is
      removed only on authoritative evidence of its own absence, decisions are consistent, and
      reconciliation converges.
    - Stored journal batches: canonical texts, entries and payloads are exact, a stored batch gives back
      all it was written with if its entries are distinct, matches only its own range, and carry identifiers identify renames (as
      far as the digest does not collide).
    - Catching up: whatever the ports do, no panic; only pages that continue a requested checkpoint
      without a gap are published, together with both owners of every hand-off; the split into
      components is exactly the one the hand-offs require; a report without failures, of a run that was not cancelled,
      accounts for every root; a read window has a fixed end and is read to it.
    - Serving requests: every frame gets an answer the client decodes; the answers of range and volume
      reads stay inside the request, tell only what lies below an authorised root, and hold on the wire;
      a volume read answers every root, and a rename is told only if its ends are accounted for, or if it continues
      one that the request carried.
    - The Windows host: it implements the ports the service theorems assume, for every behaviour of the
      operating system; a page is cut to a prefix of its events, with everything left out above the
      covered position; raw reads of an orderly buffer are exact and progress; the shared budget counts exactly the
      registered roots; a root is only granted on a current lease with its capability.
    - The change queue: queueing an intent loses no work (if queued renames and leases do not conflict), stays within the bound and nests at most once; the
      reduction of a journal batch loses no work of a flat batch; a lease recovers what has expired and hands
      out exactly the changes that are due, soonest first, and along every run of the queue a lease is settled at most once; retries back off as the
      policy says.
    - Similar images: once no work is left, the groups are exactly those that the distances of the hashes determine,
      although only bands that nearly agree are ever compared; the matching loop ends unless it is suspended for ever, and no statement of it
      violates a constraint; every analysis gets exactly one outcome.
    - Catalog reclamation: at most one worker runs for a catalog, what is displayed agrees with it, and the last
      request accepted is never lost.
    - Classification: after a decision every group reads what was decided, and deciding the same again changes
      nothing; an undo gives back what a group read before, except for a deferral that was restored from an archive
      while another record of the group had no review, which an evaluated example shows to be lost.

    ** Bounds and fuel

    Some loops are not structural.  [decode_records] gets the length of the buffer as fuel, which is
    enough because each iteration consumes a record of at least 60 bytes ([decode_records_fuel]).
    [resolve_reference_path_with] gets 257, which is enough because each nested call adds a reference
    to a set whose size the code bounds by 256 ([resolve_reference_path_total]).  In these, running out
    of fuel is [None], and the totality theorems exclude it.
    [find_root] and [compress_path] get the number of pages, which is enough because the indices on the
    way to a representative are distinct ([root_at_depth]); running out would be a panic of the model,
    which [partition_atomic_components] excludes.  [digits] gets 20, the number of digits of [u64::MAX].
    [final_path_from] gets one call per capacity from 512 to 32767, which is enough because each retry asks for
    a larger buffer and more than 32767 is refused; running out would be a panic of the model, which
    [windows_host_lawful] excludes.
    [enqueue_one] gets two nested calls, which is enough by [enqueue_one_nests_once].
    [match_remaining] and [await_admission] get a number of rounds and of waits; [matching_ends] shows that for every
    behaviour of the clocks and the statements some number is enough.

    ** What is not modelled

    The operating system (named pipes, services, tokens, device control calls), the SQL engine, image
    decoding and inference, generated bindings and the user interface.  The poisoned state of the registry's
    mutex, in which its methods return an error without touching the state.  Display texts of errors.
    Of the Windows host, the operating system calls are ports ([DeviceIoControl] with its overlapped wait and the
    abort at its drain deadline, [OpenFileById], handles and their closing), and the capture of a caller's token and process, the pipe host and the service entry
    points are left out.  Of the durable change queue, root generations, gap promotion, the retirement
    of terminal rows and the metrics are left out; the tables that the selection of a lease reads besides those of
    the queue are given as values, and the query that lets a caller skip a lease for which nothing is ready is left out; a lease
    generation grows without the bound of 64 bits, and the random row ids that SQLite tries above the largest one are an error.  Of similar images,
    decoding images, the choice of sources and the review of groups are left out, of the constraints of its tables
    those on keys, references and distances are modelled; of reclamation, the loop that vacuums the catalog; of
    classification, predictions, archives and the tables that give the records of a group.  Other SQL is not modelled,
    nor are the client of the broker and the readers that turn broker responses into journal pages, which
    wrap threads, pipes and handles around the codec.  The order in which [HashMap]s are iterated is a
    parameter; a [Duration] is a number of nanoseconds.
*)

From stdpp Require Export base list numbers strings gmap.
From Stdlib Require Export ZArith Lia.

#[export] Set Default Goal Selector "!".
#[global] Open Scope Z_scope.

(** ** Results and the state-and-error monad *)

(** Rust's [Result<A, E>]. *)
Inductive Result (E A : Type) : Type :=
| Ok (value : A)
| Err (error : E).
Arguments Ok {E A} _.
Arguments Err {E A} _.

#[export] Instance result_ret E : MRet (Result E) := λ A, Ok.
#[export] Instance result_bind E : MBind (Result E) := λ A B f r,
  match r with Ok a => f a | Err e => Err e end.
#[export] Instance result_map E : FMap (Result E) := λ A B f r,
  match r with Ok a => Ok (f a) | Err e => Err e end.

#[export] Instance result_eq_dec {E A} `{EqDecision E} `{EqDecision A} : EqDecision (Result E A).
Proof. solve_decision. Defined.

#[export] Instance Ok_inj {E A} : Inj (=) (=) (@Ok E A).
Proof. by intros ?? [= ->]. Qed.
#[export] Instance Err_inj {E A} : Inj (=) (=) (@Err E A).
Proof. by intros ?? [= ->]. Qed.

(** [if cond { return Err(e); }] *)
Definition fail_if {E} (cond : bool) (e : E) : Result E unit :=
  if cond then Err e else Ok ().

(** [option.ok_or(e)?] *)
Definition ok_or {E A} (o : option A) (e : E) : Result E A :=
  match o with Some a => Ok a | None => Err e end.

(** [result.map_err(f)] *)
Definition map_err {E F A} (f : E → F) (r : Result E A) : Result F A :=
  match r with Ok a => Ok a | Err e => Err (f e) end.

Definition is_ok {E A} (r : Result E A) : bool :=
  match r with Ok _ => true | Err _ => false end.

(** [for x in l { f(x)?; }] over an accumulator. *)
Fixpoint result_foldl {E A S} (f : S → A → Result E S) (s : S) (l : list A) : Result E S :=
  match l with
  | [] => Ok s
  | x :: l => s' ← f s x; result_foldl f s' l
  end.

(** [for x in l { f(x)?; }] *)
Fixpoint result_iter {E A} (f : A → Result E unit) (l : list A) : Result E unit :=
  match l with
  | [] => Ok ()
  | x :: l => f x;; result_iter f l
  end.

(** A method on [&mut self] that may return early with an error; the state of a failed call is
    dropped together with the call. *)
Definition ST (E S A : Type) : Type := S → Result E (A * S).

#[export] Instance st_ret E S : MRet (ST E S) := λ A a s, Ok (a, s).
#[export] Instance st_bind E S : MBind (ST E S) := λ A B f m s,
  match m s with Ok (a, s') => f a s' | Err e => Err e end.

Definition st_lift {E S A} (r : Result E A) : ST E S A := λ s,
  match r with Ok a => Ok (a, s) | Err e => Err e end.

Lemma result_bind_Ok {E A B} (r : Result E A) (f : A → Result E B) b :
  r ≫= f = Ok b ↔ ∃ a, r = Ok a ∧ f a = Ok b.
Proof. destruct r; unfold mbind, result_bind; naive_solver. Qed.

Lemma result_seq_Ok {E B} (r : Result E unit) (k : Result E B) b :
  (r;; k) = Ok b ↔ r = Ok () ∧ k = Ok b.
Proof. destruct r as [[]|]; unfold mbind, result_bind; naive_solver. Qed.

Lemma fail_if_Ok {E} c (e : E) u : fail_if c e = Ok u ↔ c = false.
Proof. destruct u, c; unfold fail_if; naive_solver. Qed.

Lemma ok_or_Ok {E A} (o : option A) (e : E) a : ok_or o e = Ok a ↔ o = Some a.
Proof. destruct o; unfold ok_or; naive_solver. Qed.

Lemma result_iter_Ok {E A} (f : A → Result E unit) l u :
  result_iter f l = Ok u ↔ Forall (λ x, f x = Ok ()) l.
Proof.
  destruct u; induction l as [|x l IH]; simpl; [split; [by constructor|done]|].
  rewrite result_seq_Ok, Forall_cons, IH. done.
Qed.

Lemma st_bind_Ok {E S A B} (m : ST E S A) (f : A → ST E S B) s b s' :
  (m ≫= f) s = Ok (b, s') ↔ ∃ a s0, m s = Ok (a, s0) ∧ f a s0 = Ok (b, s').
Proof. unfold mbind, st_bind. destruct (m s) as [[a s0]|e]; naive_solver. Qed.

Lemma st_ret_Ok {E S A} (a b : A) (s s' : S) :
  (mret a : ST E S A) s = Ok (b, s') ↔ b = a ∧ s' = s.
Proof. unfold mret, st_ret. naive_solver. Qed.

Lemma st_lift_Ok {E S A} (r : Result E A) (a : A) (s s' : S) :
  st_lift r s = Ok (a, s') ↔ r = Ok a ∧ s' = s.
Proof. destruct r; unfold st_lift; naive_solver. Qed.

(** [simplify_result] opens every successful monadic step among the hypotheses. *)
Ltac simplify_result :=
  repeat match goal with
  | H : Err _ = Ok _ |- _ => discriminate H
  | H : Ok _ = Err _ |- _ => discriminate H
  | H : Ok _ = Ok _ |- _ => injection H as H; try subst
  | H : Err _ = Err _ |- _ => injection H as H; try subst
  | H : (_ ≫= _) _ = Ok (_, _) |- _ => apply st_bind_Ok in H as (? & ? & ? & H)
  | H : mret _ _ = Ok (_, _) |- _ =>
    first [ apply st_ret_Ok in H as [-> ->] | apply st_ret_Ok in H as [H ->]; inversion H; clear H; subst ]
  | H : st_lift _ _ = Ok (_, _) |- _ => apply st_lift_Ok in H as [H ->]
  | H : (_;; _) = Ok _ |- _ => apply result_seq_Ok in H as [? H]
  | H : _ ≫= _ = Ok _ |- _ => apply result_bind_Ok in H as (? & ? & H)
  | H : fail_if _ _ = Ok _ |- _ => apply fail_if_Ok in H
  | H : ok_or _ _ = Ok _ |- _ => apply ok_or_Ok in H
  | H : _ ∧ _ |- _ => destruct H
  end.

Lemma map_err_Ok {E F A} (f : E → F) (r : Result E A) a : map_err f r = Ok a ↔ r = Ok a.
Proof. destruct r; simpl; naive_solver. Qed.

(** What a loop of validations that threads a set establishes of every element. *)
Lemma result_foldl_Forall {E A S} (f : S → A → Result E S) (P : A → Prop) l s s' :
  (∀ s a s', f s a = Ok s' → P a) → result_foldl f s l = Ok s' → Forall P l.
Proof.
  intros Hf. revert s. induction l as [|x l IH]; intros s H; simpl in H; simplify_result; eauto.
Qed.

Lemma Forall_iff_on {A} (P Q R : A → Prop) l :
  (∀ x, R x → P x ↔ Q x) → Forall R l → Forall P l ↔ Forall Q l.
Proof. intros H. induction 1; rewrite ?Forall_nil, ?Forall_cons; naive_solver. Qed.

(** ** Machine integers

    An integer of width [w] is a [Z] in the range of its type; every operation that can leave the
    range is written with its wrap-around, its check or its saturation. *)

Definition is_uint (w z : Z) : Prop := 0 ≤ z < 2 ^ w.
Definition is_sint (w z : Z) : Prop := - 2 ^ (w - 1) ≤ z < 2 ^ (w - 1).
Abbreviation is_u8 := (is_uint 8).
Abbreviation is_u16 := (is_uint 16).
Abbreviation is_u32 := (is_uint 32).
Abbreviation is_u64 := (is_uint 64).
Abbreviation is_usize := (is_uint 64).
Abbreviation is_i64 := (is_sint 64).

#[export] Instance is_uint_dec w z : Decision (is_uint w z).
Proof. unfold is_uint. apply _. Defined.
#[export] Instance is_sint_dec w z : Decision (is_sint w z).
Proof. unfold is_sint. apply _. Defined.

Definition U32_MAX : Z := 2 ^ 32 - 1.
Definition U64_MAX : Z := 2 ^ 64 - 1.
Definition USIZE_MAX : Z := 2 ^ 64 - 1.

(** [T::try_from(z)] for an unsigned target of width [w]. *)
Definition try_from_uint {E} (w z : Z) (e : E) : Result E Z :=
  if (0 <=? z) && (z <? 2 ^ w) then Ok z else Err e.

Definition checked_add (max a b : Z) : option Z :=
  if a + b <=? max then Some (a + b) else None.
Definition checked_mul (max a b : Z) : option Z :=
  if a * b <=? max then Some (a * b) else None.
Definition saturating_add (max a b : Z) : Z := Z.min max (a + b).
Definition saturating_sub (a b : Z) : Z := Z.max 0 (a - b).

(** [(lo..=hi).contains(&z)] *)
Definition in_range (lo hi z : Z) : bool := (lo <=? z) && (z <=? hi).

Lemma in_range_true lo hi z : in_range lo hi z = true ↔ lo ≤ z ≤ hi.
Proof. unfold in_range. lia. Qed.

(** Two's complement view of an unsigned value. *)
Definition to_signed (w z : Z) : Z := if z <? 2 ^ (w - 1) then z else z - 2 ^ w.

Lemma to_signed_wrap w z : 0 < w → is_sint w z → to_signed w (z mod 2 ^ w) = z.
Proof.
  unfold to_signed, is_sint. intros Hw Hz.
  assert (2 ^ w = 2 * 2 ^ (w - 1)) as Hp.
  { rewrite <-Z.pow_succ_r by lia. f_equal. lia. }
  pose proof (Z.pow_pos_nonneg 2 (w - 1) ltac:(lia) ltac:(lia)).
  destruct (Z.ltb_spec z 0).
  - rewrite <-(Z.mod_add z 1), Z.mod_small by lia.
    destruct (Z.ltb_spec (z + 1 * 2 ^ w) (2 ^ (w - 1))); lia.
  - rewrite Z.mod_small by lia. destruct (Z.ltb_spec z (2 ^ (w - 1))); lia.
Qed.

Lemma to_signed_range w z : 0 < w → is_uint w z →
  is_sint w (to_signed w z) ∧ to_signed w z mod 2 ^ w = z.
Proof.
  unfold to_signed, is_sint, is_uint. intros Hw Hz.
  assert (2 ^ w = 2 * 2 ^ (w - 1)) as Hp.
  { rewrite <-Z.pow_succ_r by lia. f_equal. lia. }
  destruct (Z.ltb_spec z (2 ^ (w - 1))).
  - rewrite Z.mod_small by lia. lia.
  - split; [lia|]. rewrite <-(Z.mod_add _ 1), Z.mod_small by lia. lia.
Qed.

(** ** Lists, slices and little-endian bytes *)

Abbreviation bytes := (list Z).

Definition is_empty {A} (l : list A) : bool := match l with [] => true | _ => false end.

Definition zlen {A} (l : list A) : Z := Z.of_nat (length l).

Lemma zlen_nil {A} : zlen (@nil A) = 0.
Proof. done. Qed.
Lemma zlen_cons {A} (x : A) l : zlen (x :: l) = 1 + zlen l.
Proof. unfold zlen. simpl. lia. Qed.
Lemma zlen_app {A} (l k : list A) : zlen (l ++ k) = zlen l + zlen k.
Proof. unfold zlen. rewrite length_app. lia. Qed.
Lemma zlen_nonneg {A} (l : list A) : 0 ≤ zlen l.
Proof. unfold zlen. lia. Qed.
Lemma zlen_map {A B} (f : A → B) l : zlen (f <$> l) = zlen l.
Proof. unfold zlen. by rewrite length_fmap. Qed.
Lemma zlen_zero {A} (l : list A) : zlen l = 0 → l = [].
Proof. unfold zlen. destruct l; simpl; [done|lia]. Qed.
Lemma zlen_replicate {A} n (x : A) : zlen (replicate n x) = Z.of_nat n.
Proof. unfold zlen. by rewrite length_replicate. Qed.

Lemma is_empty_zlen {A} (l : list A) : is_empty l = (zlen l =? 0).
Proof. destruct l; [done|]. symmetry. apply Z.eqb_neq. unfold zlen. simpl. lia. Qed.

Create HintDb zlen.
#[export] Hint Rewrite @zlen_nil @zlen_cons @zlen_app @zlen_map @zlen_replicate : zlen.

(** Normalises lengths, adds that they are nonnegative, and calls [lia]. *)
Ltac len :=
  autorewrite with zlen in *;
  repeat match goal with
  | |- context [zlen ?l] => lazymatch goal with
      | _ : 0 ≤ zlen l |- _ => fail | _ => pose proof (zlen_nonneg l) end
  | _ : context [zlen ?l] |- _ => lazymatch goal with
      | _ : 0 ≤ zlen l |- _ => fail | _ => pose proof (zlen_nonneg l) end
  end; lia.

(** [slice.get(lo..hi)] *)
Definition slice_get {A} (l : list A) (lo hi : Z) : option (list A) :=
  if (0 <=? lo) && (lo <=? hi) && (hi <=? zlen l)
  then Some (take (Z.to_nat (hi - lo)) (drop (Z.to_nat lo) l))
  else None.

Lemma slice_get_app {A} (pre mid post : list A) lo hi :
  lo = zlen pre → hi = zlen pre + zlen mid →
  slice_get (pre ++ mid ++ post) lo hi = Some mid.
Proof.
  intros -> ->. unfold slice_get.
  replace (_ && _ && _) with true by len. f_equal.
  replace (Z.to_nat (zlen pre + zlen mid - zlen pre)) with (length mid) by (unfold zlen; lia).
  replace (Z.to_nat (zlen pre)) with (length pre) by (unfold zlen; lia).
  by rewrite drop_app_length, take_app_length.
Qed.

Lemma slice_get_prefix {A} (mid post : list A) hi :
  hi = zlen mid → slice_get (mid ++ post) 0 hi = Some mid.
Proof. intros ->. by apply (slice_get_app [] mid post). Qed.

Lemma slice_get_Some {A} (l : list A) lo hi m :
  slice_get l lo hi = Some m ↔
  0 ≤ lo ∧ ∃ pre post, l = pre ++ m ++ post ∧ zlen pre = lo ∧ hi = lo + zlen m.
Proof.
  unfold slice_get. split.
  - destruct (_ && _ && _) eqn:E; intros [= <-].
    assert (0 ≤ lo ≤ hi ∧ hi ≤ zlen l) as [Hr Hl] by lia. unfold zlen in *.
    split; [lia|]. exists (take (Z.to_nat lo) l), (drop (Z.to_nat hi) l).
    rewrite !length_take, length_drop. split_and!; [|lia|lia].
    replace (Z.to_nat hi) with (Z.to_nat lo + Z.to_nat (hi - lo))%nat at 1 by lia.
    by rewrite <-drop_drop, take_drop, take_drop.
  - intros (? & pre & post & -> & <- & ->). fold (slice_get (pre ++ m ++ post) (zlen pre) (zlen pre + zlen m)).
    by apply slice_get_app.
Qed.

Lemma slice_get_join {A} (l : list A) a b c x y :
  slice_get l a b = Some x → slice_get l b c = Some y → slice_get l a c = Some (x ++ y).
Proof.
  rewrite !slice_get_Some. intros (Ha & p1 & q1 & H1 & Hp1 & Hb) (_ & p2 & q2 & H2 & Hp2 & Hc).
  split; [done|]. exists p1, q2. split_and!; [|done|len].
  assert (p2 = p1 ++ x) as ->.
  { rewrite H1, (app_assoc p1) in H2. apply app_inj_1 in H2 as [? _]; [done|].
    rewrite length_app. unfold zlen in *. lia. }
  by rewrite H2, <-!app_assoc.
Qed.

Lemma slice_get_None {A} (l : list A) lo hi :
  0 ≤ lo ≤ hi → slice_get l lo hi = None ↔ zlen l < hi.
Proof. intros. unfold slice_get. destruct (_ && _ && _) eqn:E; naive_solver lia. Qed.

(** [T::to_le_bytes] of an unsigned value and its inverse. *)
Fixpoint le_bytes (n : nat) (z : Z) : bytes :=
  match n with
  | O => []
  | S n => z mod 256 :: le_bytes n (z / 256)
  end.

Fixpoint le_value (l : bytes) : Z :=
  match l with
  | [] => 0
  | b :: l => b + 256 * le_value l
  end.

Lemma length_le_bytes n z : length (le_bytes n z) = n.
Proof. revert z; induction n; intros; simpl; auto. Qed.
Lemma zlen_le_bytes n z : zlen (le_bytes n z) = Z.of_nat n.
Proof. unfold zlen. by rewrite length_le_bytes. Qed.
#[export] Hint Rewrite zlen_le_bytes : zlen.

Lemma le_bytes_u8 n z : Forall is_u8 (le_bytes n z).
Proof.
  revert z; induction n as [|n IH]; intros; simpl; constructor; auto.
  unfold is_uint. pose proof (Z.mod_pos_bound z 256). lia.
Qed.

Lemma le_value_bytes n z : le_value (le_bytes n z) = z mod 256 ^ Z.of_nat n.
Proof.
  revert z; induction n as [|n IH]; intros z; [simpl; by rewrite Z.mod_1_r|].
  simpl le_bytes. simpl le_value. rewrite IH.
  rewrite Nat2Z.inj_succ, Z.pow_succ_r by lia.
  pose proof (Z.pow_pos_nonneg 256 (Z.of_nat n)).
  rewrite Z.rem_mul_r by lia. done.
Qed.

Lemma le_value_range l : Forall is_u8 l → 0 ≤ le_value l < 256 ^ zlen l.
Proof.
  induction 1 as [|b l Hb Hl IH]; [unfold zlen; simpl; lia|].
  pose proof (zlen_nonneg l). rewrite zlen_cons, Z.pow_add_r by lia.
  simpl le_value. change (256 ^ 1) with 256. unfold is_uint in Hb. lia.
Qed.

Lemma le_bytes_value l : Forall is_u8 l → le_bytes (length l) (le_value l) = l.
Proof.
  induction 1 as [|b l Hb Hl IH]; [done|]. simpl. unfold is_uint in Hb.
  rewrite (Z.mul_comm 256), Z.mod_add, Z.mod_small, Z.div_add, Z.div_small by lia.
  rewrite Z.add_0_l. by rewrite IH.
Qed.

Lemma le_bytes_value' n l : Forall is_u8 l → zlen l = Z.of_nat n → le_bytes n (le_value l) = l.
Proof. intros H Hl. replace n with (length l) by (unfold zlen in Hl; lia). by apply le_bytes_value. Qed.

#[global] Opaque le_bytes le_value.
