(* ===== verification/Text.v ===== *)
(** * Rust text: [char], [str], UTF-8 and UTF-16

    A [String]/[&str] is the list of its Unicode scalar values; [as_bytes] gives the UTF-8 bytes the
    Rust value stores and [encode_utf16] its UTF-16 code units.  [from_utf8] and [from_utf16] are
    the strict decoders of the standard library.  The file proves that the two encodings and
    their decoders are mutually inverse, and the laws of [split] and [join] the path code relies on. *)

From S2P Require Import Prelude.

#[local] Ltac Zify.zify_post_hook ::= Z.div_mod_to_equations.

Abbreviation str := (list Z).

(** A Unicode scalar value. *)
Definition is_char (c : Z) : Prop := 0 ≤ c < 0xD800 ∨ 0xE000 ≤ c < 0x110000.
#[export] Instance is_char_dec c : Decision (is_char c).
Proof. unfold is_char. apply _. Defined.

Abbreviation is_str := (Forall is_char).

(** A string literal of the source. *)
Definition lit (s : string) : str :=
  (λ a, Z.of_N (Ascii.N_of_ascii a)) <$> String.list_ascii_of_string s.

(** ** UTF-8 *)

Definition utf8_char (c : Z) : bytes :=
  if c <? 0x80 then [c]
  else if c <? 0x800 then [0xC0 + c / 64; 0x80 + c mod 64]
  else if c <? 0x10000 then [0xE0 + c / 4096; 0x80 + c / 64 mod 64; 0x80 + c mod 64]
  else [0xF0 + c / 262144; 0x80 + c / 4096 mod 64; 0x80 + c / 64 mod 64; 0x80 + c mod 64].

(** [str::as_bytes] *)
Definition as_bytes (s : str) : bytes := s ≫= utf8_char.

(** [str::len]: the number of UTF-8 bytes. *)
Definition str_len (s : str) : Z := zlen (as_bytes s).

Definition is_cont (b : Z) : bool := (0x80 <=? b) && (b <=? 0xBF).

(** The second byte of a three- or four-byte sequence, which excludes overlong forms, surrogates
    and values beyond U+10FFFF. *)
Definition second_of_three (b0 b1 : Z) : bool :=
  if b0 =? 0xE0 then (0xA0 <=? b1) && (b1 <=? 0xBF)
  else if b0 =? 0xED then (0x80 <=? b1) && (b1 <=? 0x9F)
  else is_cont b1.

Definition second_of_four (b0 b1 : Z) : bool :=
  if b0 =? 0xF0 then (0x90 <=? b1) && (b1 <=? 0xBF)
  else if b0 =? 0xF4 then (0x80 <=? b1) && (b1 <=? 0x8F)
  else is_cont b1.

(** [std::str::from_utf8] *)
Fixpoint from_utf8 (bs : bytes) : option str :=
  match bs with
  | [] => Some []
  | b0 :: r0 =>
    if b0 <? 0x80 then cons b0 <$> from_utf8 r0
    else match r0 with
    | [] => None
    | b1 :: r1 =>
      if (0xC2 <=? b0) && (b0 <=? 0xDF) then
        if is_cont b1 then cons ((b0 - 0xC0) * 64 + (b1 - 0x80)) <$> from_utf8 r1 else None
      else match r1 with
      | [] => None
      | b2 :: r2 =>
        if (0xE0 <=? b0) && (b0 <=? 0xEF) then
          if second_of_three b0 b1 && is_cont b2
          then cons ((b0 - 0xE0) * 4096 + (b1 - 0x80) * 64 + (b2 - 0x80)) <$> from_utf8 r2
          else None
        else match r2 with
        | [] => None
        | b3 :: r3 =>
          if (0xF0 <=? b0) && (b0 <=? 0xF4) && second_of_four b0 b1 && is_cont b2 && is_cont b3
          then cons ((b0 - 0xF0) * 262144 + (b1 - 0x80) * 4096 + (b2 - 0x80) * 64 + (b3 - 0x80))
                 <$> from_utf8 r3
          else None
        end
      end
    end
  end.

Lemma as_bytes_cons c s : as_bytes (c :: s) = utf8_char c ++ as_bytes s.
Proof. done. Qed.
Lemma as_bytes_app s t : as_bytes (s ++ t) = as_bytes s ++ as_bytes t.
Proof. apply bind_app. Qed.

#[local] Ltac bool_cases :=
  repeat match goal with
  | |- context [if ?b then _ else _] => let E := fresh "E" in destruct b eqn:E
  | H : context [if ?b then _ else _] |- _ => let E := fresh "E" in destruct b eqn:E
  end.

Lemma from_utf8_char c r :
  is_char c → from_utf8 (utf8_char c ++ r) = cons c <$> from_utf8 r.
Proof.
  unfold is_char, utf8_char. intros Hc.
  bool_cases; simpl; unfold second_of_three, second_of_four, is_cont; bool_cases;
    try (exfalso; lia); repeat f_equal; lia.
Qed.

Lemma from_utf8_as_bytes s : is_str s → from_utf8 (as_bytes s) = Some s.
Proof.
  induction 1 as [|c s Hc Hs IH]; [done|].
  by rewrite as_bytes_cons, from_utf8_char, IH.
Qed.

Lemma utf8_char_u8 c : is_char c → Forall is_u8 (utf8_char c).
Proof.
  unfold is_char, utf8_char, is_uint. intros Hc.
  bool_cases; repeat constructor; lia.
Qed.

Lemma as_bytes_u8 s : is_str s → Forall is_u8 (as_bytes s).
Proof.
  induction 1; [done|]. rewrite as_bytes_cons. apply Forall_app; auto using utf8_char_u8.
Qed.

(** Cases of a successful [from_utf8], one per sequence length. *)
Lemma from_utf8_inv b0 r s :
  is_u8 b0 → Forall is_u8 r → from_utf8 (b0 :: r) = Some s →
  ∃ c r' s', s = c :: s' ∧ is_char c ∧ b0 :: r = utf8_char c ++ r' ∧ from_utf8 r' = Some s'.
Proof.
  unfold is_uint. intros H0 Hr H. simpl in H.
  destruct (b0 <? 0x80) eqn:E0.
  { apply fmap_Some in H as (s' & H & ->). exists b0, r, s'.
    unfold utf8_char, is_char. rewrite E0. split_and!; auto; lia. }
  destruct r as [|b1 r]; [done|]. apply Forall_cons in Hr as [H1 Hr].
  destruct (_ && _) eqn:E1 in H.
  { destruct (is_cont b1) eqn:C1; [|done]. unfold is_cont in C1.
    apply fmap_Some in H as (s' & H & ->). eexists _, r, s'. split_and!; [done| | |done].
    - unfold is_char; lia.
    - unfold utf8_char. bool_cases; try (exfalso; lia). simpl. repeat f_equal; lia. }
  destruct r as [|b2 r]; [done|]. apply Forall_cons in Hr as [H2 Hr].
  destruct (_ && _) eqn:E2 in H.
  { destruct (_ && _) eqn:C1 in H; [|done]. unfold second_of_three, is_cont in C1.
    apply fmap_Some in H as (s' & H & ->). eexists _, r, s'. split_and!; [done| | |done].
    - unfold is_char. bool_cases; lia.
    - unfold utf8_char. bool_cases; try (exfalso; lia). all: simpl; repeat f_equal; lia. }
  destruct r as [|b3 r]; [done|].
  destruct (_ && _) eqn:C1 in H; [|done]. unfold second_of_four, is_cont in C1.
  apply fmap_Some in H as (s' & H & ->). eexists _, r, s'. split_and!; [done| | |done].
  - unfold is_char. bool_cases; lia.
  - unfold utf8_char. bool_cases; try (exfalso; lia). all: simpl; repeat f_equal; lia.
Qed.

Lemma utf8_char_ne c : utf8_char c ≠ [].
Proof. unfold utf8_char. by bool_cases. Qed.

Lemma from_utf8_Some bs s :
  Forall is_u8 bs → from_utf8 bs = Some s → is_str s ∧ as_bytes s = bs.
Proof.
  remember (length bs) as n eqn:Hn. revert bs Hn s.
  induction n as [n IH] using lt_wf_ind. intros [|b0 r] Hn s Hb Hs.
  { by simplify_eq/=. }
  apply Forall_cons in Hb as [H0 Hr].
  destruct (from_utf8_inv b0 r s H0 Hr Hs) as (c & r' & s' & -> & Hc & He & Hs').
  assert (Forall is_u8 r').
  { assert (Forall is_u8 (b0 :: r)) as Ha by by constructor.
    rewrite He in Ha. apply Forall_app in Ha. tauto. }
  edestruct (IH (length r')) as [Hw Hb']; [|done|done|exact Hs'|].
  { rewrite Hn, He, length_app. destruct (utf8_char c) eqn:E; [by apply utf8_char_ne in E|].
    simpl. lia. }
  split; [by constructor|]. by rewrite as_bytes_cons, Hb'.
Qed.

(** ** UTF-16 *)

Definition utf16_char (c : Z) : list Z :=
  if c <? 0x10000 then [c]
  else [0xD800 + (c - 0x10000) / 1024; 0xDC00 + (c - 0x10000) mod 1024].

(** [str::encode_utf16] *)
Definition encode_utf16 (s : str) : list Z := s ≫= utf16_char.

(** [String::from_utf16] *)
Fixpoint from_utf16 (us : list Z) : option str :=
  match us with
  | [] => Some []
  | u :: r =>
    if (u <? 0xD800) || (0xDFFF <? u) then cons u <$> from_utf16 r
    else if 0xDBFF <? u then None
    else match r with
    | [] => None
    | v :: r =>
      if (0xDC00 <=? v) && (v <=? 0xDFFF)
      then cons (0x10000 + (u - 0xD800) * 1024 + (v - 0xDC00)) <$> from_utf16 r
      else None
    end
  end.

Lemma encode_utf16_cons c s : encode_utf16 (c :: s) = utf16_char c ++ encode_utf16 s.
Proof. done. Qed.
Lemma encode_utf16_app s t : encode_utf16 (s ++ t) = encode_utf16 s ++ encode_utf16 t.
Proof. apply bind_app. Qed.

Lemma from_utf16_char c r :
  is_char c → from_utf16 (utf16_char c ++ r) = cons c <$> from_utf16 r.
Proof.
  unfold is_char, utf16_char. intros Hc.
  bool_cases; simpl; bool_cases; try (exfalso; lia); repeat f_equal; lia.
Qed.

Lemma from_utf16_encode s : is_str s → from_utf16 (encode_utf16 s) = Some s.
Proof.
  induction 1 as [|c s Hc Hs IH]; [done|].
  by rewrite encode_utf16_cons, from_utf16_char, IH.
Qed.

Lemma from_utf16_Some us s :
  Forall is_u16 us → from_utf16 us = Some s → is_str s ∧ encode_utf16 s = us.
Proof.
  remember (length us) as n eqn:Hn. revert us Hn s.
  induction n as [n IH] using lt_wf_ind. intros [|u r] Hn s Hu Hs; [by simplify_eq/=|].
  apply Forall_cons in Hu as [H0 Hr]. unfold is_uint in H0. simpl in Hs, Hn.
  destruct (_ || _) eqn:E.
  { apply fmap_Some in Hs as (s' & Hs & ->).
    destruct (IH (length r) ltac:(lia) r eq_refl s' Hr Hs) as [? He].
    rewrite encode_utf16_cons, He. unfold utf16_char.
    split; [constructor; [unfold is_char; lia|done]|]. bool_cases; [done|lia]. }
  destruct (_ <? _) eqn:E1 in Hs; [done|].
  destruct r as [|v r]; [done|]. destruct (_ && _) eqn:E2 in Hs; [|done].
  apply Forall_cons in Hr as [H1 Hr]. apply fmap_Some in Hs as (s' & Hs & ->).
  destruct (IH (length r) ltac:(simpl in Hn; lia) r eq_refl s' Hr Hs) as [? He].
  rewrite encode_utf16_cons, He. unfold utf16_char.
  split; [constructor; [unfold is_char; lia|done]|].
  bool_cases; [lia|]. simpl. repeat f_equal; lia.
Qed.

Lemma encode_utf16_u16 s : is_str s → Forall is_u16 (encode_utf16 s).
Proof.
  induction 1 as [|c s Hc Hs IH]; [done|]. rewrite encode_utf16_cons.
  apply Forall_app; split; [|done]. unfold is_char in Hc. unfold utf16_char, is_uint.
  bool_cases; repeat constructor; lia.
Qed.

(** A UTF-16 code unit accounts for at most three UTF-8 bytes, and a character for at least one
    code unit. *)
Lemma str_len_utf16 s : is_str s → str_len s ≤ 3 * zlen (encode_utf16 s).
Proof.
  unfold str_len. induction 1 as [|c s Hc Hs IH]; [unfold zlen; simpl; lia|].
  rewrite as_bytes_cons, encode_utf16_cons, !zlen_app.
  assert (zlen (utf8_char c) ≤ 3 * zlen (utf16_char c)); [|lia].
  unfold utf8_char, utf16_char, zlen. bool_cases; simpl; lia.
Qed.

Lemma zlen_utf16 s : zlen s ≤ zlen (encode_utf16 s).
Proof.
  induction s as [|c s IH]; [done|]. rewrite encode_utf16_cons, zlen_app, zlen_cons.
  assert (1 ≤ zlen (utf16_char c)); [|lia]. unfold utf16_char, zlen. bool_cases; simpl; lia.
Qed.

(** ** Searching, splitting and joining *)

(** [str::contains(char)] *)
Definition contains (c : Z) (s : str) : bool := existsb (Z.eqb c) s.

(** [str::starts_with(char)] and [str::ends_with(char)] *)
Definition starts_with (c : Z) (s : str) : bool :=
  match s with [] => false | d :: _ => d =? c end.
Definition ends_with (c : Z) (s : str) : bool :=
  match last s with None => false | Some d => d =? c end.

(** [str::starts_with(&str)] and [str::strip_prefix(&str)] *)
Fixpoint strip_prefix (p s : str) : option str :=
  match p, s with
  | [], _ => Some s
  | c :: p, d :: s => if c =? d then strip_prefix p s else None
  | _ :: _, [] => None
  end.
Definition starts_with_str (p s : str) : bool := bool_decide (is_Some (strip_prefix p s)).

Lemma strip_prefix_Some p s r : strip_prefix p s = Some r ↔ s = p ++ r.
Proof.
  revert s. induction p as [|c p IH]; intros s; simpl.
  { split; [by intros [= ->]|by intros ->]. }
  destruct s as [|d s]; [split; [done|by intros ?%(f_equal length)]|].
  destruct (Z.eqb_spec c d) as [->|]; [rewrite IH; naive_solver|naive_solver].
Qed.

(** [str::contains(&str)] *)
Fixpoint contains_str (p s : str) : bool :=
  starts_with_str p s || match s with [] => false | _ :: s => contains_str p s end.

(** Code points with the Unicode property [White_Space], as used by [str::trim]. *)
Definition is_whitespace (c : Z) : bool :=
  ((0x09 <=? c) && (c <=? 0x0D)) || (c =? 0x20) || (c =? 0x85) || (c =? 0xA0) || (c =? 0x1680)
  || ((0x2000 <=? c) && (c <=? 0x200A)) || (c =? 0x2028) || (c =? 0x2029) || (c =? 0x202F)
  || (c =? 0x205F) || (c =? 0x3000).

(** [str::trim] *)
Fixpoint trim_start (s : str) : str :=
  match s with
  | [] => []
  | c :: r => if is_whitespace c then trim_start r else s
  end.
Definition trim (s : str) : str := reverse (trim_start (reverse (trim_start s))).

(** [str::split(char)]: always at least one piece. *)
Fixpoint split_on (sep : Z) (s : str) : list str :=
  match s with
  | [] => [[]]
  | c :: s =>
    if c =? sep then [] :: split_on sep s
    else match split_on sep s with [] => [[c]] | w :: ws => (c :: w) :: ws end
  end.

(** [slice.join(sep)] *)
Fixpoint join (sep : str) (ws : list str) : str :=
  match ws with
  | [] => []
  | [w] => w
  | w :: ws => w ++ sep ++ join sep ws
  end.

(** Byte-wise comparison of strings; on valid UTF-8 it agrees with the comparison of scalar values. *)
Fixpoint lex_compare (s t : list Z) : comparison :=
  match s, t with
  | [], [] => Eq
  | [], _ => Lt
  | _, [] => Gt
  | c :: s, d :: t => match c ?= d with Eq => lex_compare s t | o => o end
  end.

Lemma contains_false c s : contains c s = false ↔ c ∉ s.
Proof.
  unfold contains. rewrite <-not_true_iff_false, existsb_exists.
  setoid_rewrite Z.eqb_eq. setoid_rewrite list_elem_of_In. naive_solver.
Qed.

Lemma contains_true c s : contains c s = true ↔ c ∈ s.
Proof.
  destruct (contains c s) eqn:E; [|apply contains_false in E; naive_solver].
  split; [|done]. intros _. destruct (decide (c ∈ s)) as [|H]; [done|].
  apply contains_false in H. congruence.
Qed.

Lemma split_on_ne sep s : split_on sep s ≠ [].
Proof. destruct s; simpl; [done|]. repeat case_match; done. Qed.

Lemma join_cons sep w ws : ws ≠ [] → join sep (w :: ws) = w ++ sep ++ join sep ws.
Proof. by destruct ws. Qed.

Lemma join_split sep s : join [sep] (split_on sep s) = s.
Proof.
  induction s as [|c s IH]; [done|]. simpl.
  pose proof (split_on_ne sep s). destruct (Z.eqb_spec c sep) as [->|].
  - rewrite join_cons by done. simpl. by rewrite IH.
  - destruct (split_on sep s) as [|w [|w' ws]] eqn:E; [done| |].
    + simpl in *. by rewrite IH.
    + rewrite join_cons in * by done. simpl in *. by rewrite <-IH.
Qed.

Lemma split_on_free sep s : Forall (λ w, sep ∉ w) (split_on sep s).
Proof.
  induction s as [|c s IH]; simpl; [repeat constructor; set_solver|].
  destruct (Z.eqb_spec c sep) as [->|]; [constructor; [set_solver|done]|].
  destruct (split_on sep s) as [|w ws]; [repeat constructor; set_solver|].
  apply Forall_cons in IH as [? ?]. constructor; set_solver.
Qed.

Lemma split_on_single sep w : sep ∉ w → split_on sep w = [w].
Proof.
  induction w as [|c w IH]; [done|]. intros H. simpl.
  destruct (Z.eqb_spec c sep); [set_solver|]. rewrite IH by set_solver. done.
Qed.

Lemma split_on_app sep w s : sep ∉ w → split_on sep (w ++ sep :: s) = w :: split_on sep s.
Proof.
  induction w as [|c w IH]; simpl; intros H; [by rewrite Z.eqb_refl|].
  destruct (Z.eqb_spec c sep); [set_solver|]. rewrite IH by set_solver. done.
Qed.

Lemma split_join sep ws :
  ws ≠ [] → Forall (λ w, sep ∉ w) ws → split_on sep (join [sep] ws) = ws.
Proof.
  intros Hne H. induction H as [|w ws Hw Hws IH]; [done|].
  destruct ws as [|w' ws]; [by apply split_on_single|].
  rewrite join_cons by done. change ([sep] ++ ?t) with (sep :: t).
  rewrite split_on_app by done. by rewrite IH.
Qed.

Lemma elem_of_split sep s c w : c ∈ w → w ∈ split_on sep s → c ∈ s.
Proof.
  revert w. induction s as [|d s IH]; simpl; intros w Hc Hw.
  { by apply list_elem_of_singleton in Hw as ->. }
  destruct (Z.eqb_spec d sep).
  - apply elem_of_cons in Hw as [->|Hw]; [by apply not_elem_of_nil in Hc|]. right. eauto.
  - destruct (split_on sep s) as [|v ws] eqn:E.
    + by apply split_on_ne in E.
    + apply elem_of_cons in Hw as [->|Hw].
      * apply elem_of_cons in Hc as [->|Hc]; [left|right]. apply (IH v); set_solver.
      * right. apply (IH w); set_solver.
Qed.

Lemma is_str_split sep s : is_str s → Forall is_str (split_on sep s).
Proof.
  intros H. apply Forall_forall. intros w Hw. apply Forall_forall. intros c Hc.
  rewrite Forall_forall in H. eauto using elem_of_split.
Qed.

Lemma is_str_join sep ws : is_str sep → Forall is_str ws → is_str (join sep ws).
Proof.
  intros Hs H. induction H as [|w ws Hw Hws IH]; [constructor|].
  destruct ws; [done|]. rewrite join_cons by done. rewrite !Forall_app. done.
Qed.
