(* ===== verification/Effects.v ===== *)
(** * Effects: operations on a world that can fail or panic

    The monad in which the parts that call ports are written: a run takes a world, leaves a world
    behind, also when it fails, and stops early with an error or with a panic. *)

From S2P Require Import Prelude.

(** How a run stops early: with an error it returns, or with a panic. *)
Inductive Halt (E : Type) := Failed (error : E) | Panicked.
Arguments Failed {E} _.
Arguments Panicked {E}.

Definition Run (E W A : Type) : Type := W → Result (Halt E) A * W.

#[export] Instance eff_ret E W : MRet (Run E W) := λ A a w, (Ok a, w).
#[export] Instance eff_bind E W : MBind (Run E W) := λ A B f m w,
  match m w with
  | (Ok a, w) => f a w
  | (Err h, w) => (Err h, w)
  end.

(** [operation()?] for an operation of a port, and for a pure check. *)
Definition call {E W A : Type} (m : W → Result E A * W) : Run E W A := λ w,
  let '(r, w) := m w in (map_err Failed r, w).
Definition check {E W A : Type} (r : Result E A) : Run E W A := λ w, (map_err Failed r, w).
(** An operation whose result is inspected, not propagated. *)
Definition attempt {F W E A : Type} (m : W → Result E A * W) : Run F W (Result E A) := λ w,
  let '(r, w) := m w in (Ok r, w).
Definition observe {E W A : Type} (m : W → A * W) : Run E W A := λ w, let '(a, w) := m w in (Ok a, w).
(** [map[&key]], [vec[index]]: a panic when there is nothing. *)
Definition expect {E W A : Type} (o : option A) : Run E W A := λ w, (ok_or o Panicked, w).

(** [(|| { ... })()]: a block whose error becomes a value; a panic still unwinds. *)
Definition capture {F E W A : Type} (m : Run E W A) : Run F W (Result E A) := λ w,
  match m w with
  | (Ok a, w) => (Ok (Ok a), w)
  | (Err (Failed e), w) => (Ok (Err e), w)
  | (Err Panicked, w) => (Err Panicked, w)
  end.

(** [for x in l { state = f(state, x)?; }] *)
Fixpoint run_foldl {E W A S : Type} (f : S → A → Run E W S) (s : S) (l : list A) : Run E W S :=
  match l with
  | [] => mret s
  | x :: l => s ← f s x; run_foldl f s l
  end.

(** ** Specifications

    [yields m post]: from every world, [m] does not panic, and what it returns satisfies [post]. *)

Definition settles {E A : Type} (r : Result (Halt E) A) (post : A → Prop) : Prop :=
  match r with Ok a => post a | Err h => h ≠ Panicked end.

Definition yields {E W A : Type} (m : Run E W A) (post : A → Prop) : Prop := ∀ w, settles (m w).1 post.

(** [returns m post]: from every world, [m] returns a value, and the value satisfies [post]. *)
Definition returns {E W A : Type} (m : Run E W A) (post : A → Prop) : Prop :=
  ∀ w, ∃ a, (m w).1 = Ok a ∧ post a.

Section Yields.
Context {E W : Type}.

Lemma returns_mono {A : Type} (m : Run E W A) (P Q : A → Prop) :
  returns m P → (∀ a, P a → Q a) → returns m Q.
Proof. intros H HPQ w. destruct (H w) as (a & ? & ?). eauto. Qed.

Lemma returns_ret {A : Type} (a : A) (P : A → Prop) : P a → returns (mret a : Run E W A) P.
Proof. intros H w. by exists a. Qed.

Lemma returns_bind {A B : Type} (m : Run E W A) (f : A → Run E W B) (P : A → Prop) (Q : B → Prop) :
  returns m P → (∀ a, P a → returns (f a) Q) → returns (m ≫= f) Q.
Proof.
  intros Hm Hf w. destruct (Hm w) as (a & Ha & HP). unfold mbind, eff_bind.
  destruct (m w) as [r w']; cbn in Ha; subst. by apply Hf.
Qed.

Lemma returns_check {A : Type} (r : Result E A) a : r = Ok a → returns (check r : Run E W A) (λ b, b = a).
Proof. intros -> w. by exists a. Qed.

Lemma returns_attempt {F A : Type} (m : W → Result F A * W) (P : Result F A → Prop) :
  (∀ w, P (m w).1) → returns (attempt m : Run E W _) P.
Proof. intros H w. specialize (H w). unfold attempt. destruct (m w) as [r ?]. by exists r. Qed.

Lemma returns_observe {A : Type} (m : W → A * W) (P : A → Prop) :
  (∀ w, P (m w).1) → returns (observe m : Run E W A) P.
Proof. intros H w. specialize (H w). unfold observe. destruct (m w) as [r ?]. by exists r. Qed.

Lemma returns_capture {F A : Type} (m : Run F W A) (P : A → Prop) :
  yields m P → returns (capture m : Run E W _) (λ r, ∀ a, r = Ok a → P a).
Proof.
  intros H w. specialize (H w). unfold capture.
  destruct (m w) as [[a|[e|]] ?]; cbn in *; [exists (Ok a)|exists (Err e)|done]; split; try done; by intros ? [= <-].
Qed.

Lemma yields_mono {A : Type} (m : Run E W A) (P Q : A → Prop) :
  yields m P → (∀ a, P a → Q a) → yields m Q.
Proof. intros H HPQ w. specialize (H w). destruct (m w) as [[a|h] ?]; cbn in *; auto. Qed.

Lemma yields_ret {A : Type} (a : A) (P : A → Prop) : P a → yields (mret a : Run E W A) P.
Proof. intros H w. exact H. Qed.

Lemma yields_bind {A B : Type} (m : Run E W A) (f : A → Run E W B) (P : A → Prop) (Q : B → Prop) :
  yields m P → (∀ a, P a → yields (f a) Q) → yields (m ≫= f) Q.
Proof.
  intros Hm Hf w. specialize (Hm w). unfold mbind, eff_bind.
  destruct (m w) as [[a|h] w']; cbn in *; [by apply Hf|done].
Qed.

Lemma yields_check {A : Type} (r : Result E A) : yields (check r : Run E W A) (λ a, r = Ok a).
Proof. intros w. by destruct r. Qed.

Lemma yields_expect {A : Type} (o : option A) :
  is_Some o → yields (expect o : Run E W A) (λ a, o = Some a).
Proof. by intros [a ->] w. Qed.

Lemma yields_call {A : Type} (m : W → Result E A * W) (P : A → Prop) :
  (∀ w a, (m w).1 = Ok a → P a) → yields (call m) P.
Proof. intros H w. specialize (H w). unfold call. destruct (m w) as [[a|e] ?]; cbn in *; auto. Qed.

Lemma yields_attempt {F A : Type} (m : W → Result F A * W) (P : Result F A → Prop) :
  (∀ w, P (m w).1) → yields (attempt m : Run E W _) P.
Proof. intros H w. specialize (H w). unfold attempt. by destruct (m w) as [? ?]. Qed.

Lemma yields_observe {A : Type} (m : W → A * W) (P : A → Prop) :
  (∀ w, P (m w).1) → yields (observe m : Run E W A) P.
Proof. intros H w. specialize (H w). unfold observe. by destruct (m w) as [? ?]. Qed.

Lemma yields_capture {F A : Type} (m : Run F W A) (P : A → Prop) :
  yields m P → yields (capture m : Run E W _) (λ r, ∀ a, r = Ok a → P a).
Proof.
  intros H w. specialize (H w). unfold capture.
  destruct (m w) as [[a|[e|]] ?]; cbn in *; [by intros ? [= <-]|done|done].
Qed.

(** A loop keeps an invariant that may mention the elements already seen. *)
Lemma yields_foldl {A S : Type} (f : S → A → Run E W S) (I : list A → S → Prop) l s :
  I [] s → (∀ done s x, done ++ [x] `prefix_of` l → I done s → yields (f s x) (I (done ++ [x]))) →
  yields (run_foldl f s l) (I l).
Proof.
  intros Hi Hf.
  assert (∀ todo seen s, seen ++ todo = l → I seen s → yields (run_foldl f s todo) (I l)) as Hgen;
    [|by apply (Hgen l [])].
  induction todo as [|x todo IH]; intros seen s' Hl Hs; cbn [run_foldl].
  - rewrite app_nil_r in Hl. subst. by apply yields_ret.
  - assert ((seen ++ [x]) ++ todo = l) as Hl' by (by rewrite <-app_assoc).
    eapply yields_bind; [apply Hf; [by exists todo|done]|]. intros s'' Hs''. by eapply IH.
Qed.

(** The common case: the invariant does not mention the elements. *)
Lemma yields_foldl_inv {A S : Type} (f : S → A → Run E W S) (I : S → Prop) l s :
  I s → (∀ s x, x ∈ l → I s → yields (f s x) I) → yields (run_foldl f s l) I.
Proof.
  intros Hi Hf. apply (yields_foldl f (λ _, I)); [done|].
  intros seen s' x [rest ->] Hs. apply Hf; [|done]. set_solver.
Qed.
End Yields.

(** ** Pure blocks that may stop early *)

Section Settles.
Context {E : Type}.

Lemma settles_mono {A : Type} (r : Result (Halt E) A) (P Q : A → Prop) :
  settles r P → (∀ a, P a → Q a) → settles r Q.
Proof. destruct r; cbn; auto. Qed.

Lemma settles_ret {A : Type} (a : A) (P : A → Prop) : P a → settles (E := E) (Ok a) P.
Proof. done. Qed.

Lemma settles_bind {A B : Type} (r : Result (Halt E) A) (f : A → Result (Halt E) B) (P : A → Prop) (Q : B → Prop) :
  settles r P → (∀ a, P a → settles (f a) Q) → settles (r ≫= f) Q.
Proof. destruct r; cbn; auto. Qed.

Lemma settles_failed {A : Type} (r : Result E A) : settles (map_err Failed r) (λ a, r = Ok a).
Proof. by destruct r. Qed.

Lemma settles_foldl {A S : Type} (f : S → A → Result (Halt E) S) (I : S → Prop) l s :
  I s → (∀ s x, x ∈ l → I s → settles (f s x) I) → settles (result_foldl f s l) I.
Proof.
  revert s. induction l as [|x l IH]; intros s Hs Hf; cbn [result_foldl]; [done|].
  eapply settles_bind; [apply Hf; [by left|done]|]. intros s' Hs'. apply IH; [done|].
  intros s'' y Hy. apply Hf. by right.
Qed.
End Settles.
