(* ===== verification/Framing.v ===== *)
(** * Broker frames: the length-prefixed envelope of every pipe message

    Models [journal_broker/framing.rs]: a frame is a little-endian [u32] length, nonzero and at most
    one MiB, followed by exactly that many payload bytes. *)

From S2P Require Import Prelude.

Module Framing.

Definition MAX_FRAME_BYTES : Z := 1024 * 1024.

Inductive BrokerFrameError :=
| LengthRejected
| LengthOverflow
| Truncated
| TrailingBytes.

#[export] Instance BrokerFrameError_eq_dec : EqDecision BrokerFrameError.
Proof. solve_decision. Defined.

Definition encode_frame (payload : bytes) : Result BrokerFrameError bytes :=
  if is_empty payload || (MAX_FRAME_BYTES <? zlen payload) then Err LengthRejected
  else
    length ← try_from_uint 32 (zlen payload) LengthOverflow;
    Ok (le_bytes 4 length ++ payload).

(** The header argument is the array [[u8; 4]]. *)
Definition decode_frame_length (header : bytes) : Result BrokerFrameError Z :=
  length ← try_from_uint 64 (le_value header) LengthOverflow;
  if (length =? 0) || (MAX_FRAME_BYTES <? length) then Err LengthRejected else Ok length.

Definition decode_frame (frame : bytes) : Result BrokerFrameError bytes :=
  length_bytes ← ok_or (slice_get frame 0 4) Truncated;
  length ← decode_frame_length length_bytes;
  end_ ← ok_or (checked_add USIZE_MAX 4 length) LengthOverflow;
  payload ← ok_or (slice_get frame 4 end_) Truncated;
  if negb (end_ =? zlen frame) then Err TrailingBytes else Ok payload.

(** What a frame is: the specification both functions implement. *)
Definition is_frame (frame payload : bytes) : Prop :=
  frame = le_bytes 4 (zlen payload) ++ payload ∧ 0 < zlen payload ≤ MAX_FRAME_BYTES.

Lemma encode_frame_spec payload frame :
  encode_frame payload = Ok frame ↔ is_frame frame payload.
Proof.
  unfold encode_frame, is_frame, try_from_uint, MAX_FRAME_BYTES.
  rewrite is_empty_zlen. pose proof (zlen_nonneg payload).
  destruct (_ || _) eqn:E; [split; [done|lia]|].
  replace (_ && _) with true by lia. simpl. split; [intros [= <-]; split; [done|lia]|].
  by intros [-> _].
Qed.

Lemma decode_frame_length_spec header length :
  Forall is_u8 header → zlen header = 4 →
  decode_frame_length header = Ok length ↔ le_value header = length ∧ 0 < length ≤ MAX_FRAME_BYTES.
Proof.
  intros H8 H4. pose proof (le_value_range header H8) as Hr. rewrite H4 in Hr.
  unfold decode_frame_length, try_from_uint, MAX_FRAME_BYTES.
  replace (_ && _) with true by lia. simpl.
  destruct (_ || _) eqn:E; split; intros H; [done|lia|naive_solver lia|f_equal; lia].
Qed.

Lemma decode_frame_spec frame payload :
  Forall is_u8 frame → decode_frame frame = Ok payload ↔ is_frame frame payload.
Proof.
  intros H8. unfold decode_frame, is_frame. split.
  - intros H. simplify_result.
    match goal with H : slice_get frame 0 4 = Some ?h |- _ => rename h into hd; rename H into Hh end.
    apply slice_get_Some in Hh as (_ & pre & post & He & Hp & Hl).
    apply zlen_zero in Hp as ->. simpl in He. subst frame.
    apply Forall_app in H8 as [Hh8 _].
    match goal with H : decode_frame_length hd = Ok _ |- _ =>
      apply decode_frame_length_spec in H as [<- Hr]; [|done|lia] end.
    unfold checked_add in *. case_match; simplify_eq. case_match; simplify_eq/=. simplify_result.
    match goal with H : slice_get _ 4 _ = Some _ |- _ =>
      apply slice_get_Some in H as (_ & pre & post' & He & Hp & Hl') end.
    apply app_inj_1 in He as [-> ->]; [|unfold zlen in *; lia].
    match goal with H : negb _ = false |- _ => rename H into Hend end.
    assert (post' = []) as -> by (apply zlen_zero; len).
    rewrite app_nil_r in *. split; [|lia].
    assert (le_bytes 4 (le_value pre) = pre) as Hpre.
    { replace 4%nat with (length pre) by (unfold zlen in *; lia). by apply le_bytes_value. }
    replace (zlen payload) with (le_value pre) by lia. by rewrite Hpre.
  - intros [-> Hr]. unfold MAX_FRAME_BYTES in Hr. apply Forall_app in H8 as [Hh8 _].
    rewrite (slice_get_app [] (le_bytes 4 (zlen payload)) payload) by len. simpl.
    assert (decode_frame_length (le_bytes 4 (zlen payload)) = Ok (zlen payload)) as ->.
    { apply decode_frame_length_spec; [done|len|]. rewrite le_value_bytes, Z.mod_small by lia.
      unfold MAX_FRAME_BYTES. lia. }
    simpl. unfold checked_add, USIZE_MAX. replace (_ <=? _) with true by lia. simpl.
    pose proof (slice_get_app (le_bytes 4 (zlen payload)) payload [] 4 (4 + zlen payload)) as Hs.
    rewrite app_nil_r in Hs. rewrite Hs by len. simpl.
    rewrite zlen_app, zlen_le_bytes, Z.eqb_refl. done.
Qed.

(** Framing is a bijection between payloads of 1 byte to 1 MiB and well-formed frames: a frame
    decodes to a payload exactly when that payload encodes to the frame, so no frame has two
    readings, no payload two encodings, and truncated, oversized or over-long input never decodes. *)
Theorem frame_roundtrip frame payload :
  Forall is_u8 frame →
  encode_frame payload = Ok frame ↔ decode_frame frame = Ok payload.
Proof. intros H. by rewrite encode_frame_spec, decode_frame_spec. Qed.

Lemma frame_roundtrip_witness :
  Forall is_u8 [3; 0; 0; 0; 7; 0; 255] ∧
  decode_frame [3; 0; 0; 0; 7; 0; 255] = Ok [7; 0; 255].
Proof.
  assert (Forall is_u8 [3; 0; 0; 0; 7; 0; 255]) as H
    by (repeat constructor; unfold is_uint; lia).
  split; [exact H|]. apply (frame_roundtrip _ _ H). vm_compute. reflexivity.
Defined.

Example decode_frame_truncated : decode_frame [3; 0; 0; 0; 7; 0] = Err Truncated.
Proof. vm_compute. reflexivity. Qed.
Example decode_frame_trailing : decode_frame [1; 0; 0; 0; 7; 0] = Err TrailingBytes.
Proof. vm_compute. reflexivity. Qed.
Example decode_frame_zero : decode_frame [0; 0; 0; 0] = Err LengthRejected.
Proof. vm_compute. reflexivity. Qed.

End Framing.
