(* ===== verification/WireBase.v ===== *)
(** * Protocol constants, errors and read intervals of the journal broker

    Models the constants, [WireError] and the scalar validators of [journal_broker/wire.rs], and
    [journal_broker/read_interval.rs]. *)

From S2P Require Import Prelude Text.

Definition PROTOCOL_VERSION : Z := 5.

(** [*b"AMEJNL<n>\0"] *)
Definition magic (n : Z) : bytes := lit "AMEJNL" ++ [48 + n; 0].
Definition PROTOCOL_MAGIC : bytes := magic 5.
Definition LEGACY_PROTOCOL_MAGIC_V1 : bytes := magic 1.
Definition LEGACY_PROTOCOL_MAGIC_V2 : bytes := magic 2.
Definition LEGACY_PROTOCOL_MAGIC_V3 : bytes := magic 3.
Definition LEGACY_PROTOCOL_MAGIC_V4 : bytes := magic 4.

Definition MAX_ROOT_ID_BYTES : Z := 256.
Definition MAX_VOLUME_ID_BYTES : Z := 512.
Definition MAX_PATH_UTF16_UNITS : Z := 32767.
Definition MAX_PATH_DEPTH : Z := 256.
Definition MAX_RECORDS : Z := 1024.
Definition MAX_EVIDENCE_BYTES : Z := 512 * 1024.
Definition MAX_TIMEOUT_MS : Z := 10000.
Definition MAX_SHARED_ROOTS : Z := 8.
Definition MAX_SHARED_HANDOFFS : Z := 1024.
Definition MAX_SHARED_PENDING_RENAMES : Z := 1024.

Inductive WireError :=
| InvalidMagic
| UnsupportedVersion (version : Z)
| UnknownKind (kind : Z)
| UnexpectedEnd
| TrailingBytes
| LengthExceeded
| LengthOverflow
| InvalidUtf8
| InvalidUtf16
| InvalidValue (name : string)
| NameComparisonUnavailable.

#[export] Instance WireError_eq_dec : EqDecision WireError.
Proof. solve_decision. Defined.

Abbreviation WireResult := (Result WireError).

Definition validate_identifier (value : str) (maximum : Z) : WireResult unit :=
  fail_if (is_empty value || (maximum <? str_len value) || contains 0 value)
          (InvalidValue "identifier").

Definition validate_timeout (timeout_ms : Z) : WireResult unit :=
  fail_if (negb (in_range 1 MAX_TIMEOUT_MS timeout_ms)) (InvalidValue "timeout_ms").

Lemma validate_identifier_len value maximum u :
  validate_identifier value maximum = Ok u → str_len value ≤ maximum.
Proof. unfold validate_identifier. rewrite fail_if_Ok. lia. Qed.

(** ** Read intervals *)

Record JournalReadInterval := { interval_start_usn : Z; interval_end_usn : Z }.

Definition JournalReadInterval_new (start_usn end_usn : Z) : option JournalReadInterval :=
  if (start_usn <? 0) || (end_usn <? start_usn) then None
  else Some {| interval_start_usn := start_usn; interval_end_usn := end_usn |}.

Definition JournalReadInterval_is_empty (self : JournalReadInterval) : bool :=
  interval_start_usn self =? interval_end_usn self.

Definition JournalReadInterval_admits_coverage (self : JournalReadInterval)
    (covered_until_usn : Z) (is_complete : bool) : bool :=
  if (covered_until_usn <? interval_start_usn self) || (interval_end_usn self <? covered_until_usn)
  then false
  else if JournalReadInterval_is_empty self
  then (covered_until_usn =? interval_end_usn self) && is_complete
  else (interval_start_usn self <? covered_until_usn)
       && Bool.eqb is_complete (covered_until_usn =? interval_end_usn self).

Lemma JournalReadInterval_new_Some s e i :
  JournalReadInterval_new s e = Some i ↔
  i = {| interval_start_usn := s; interval_end_usn := e |} ∧ 0 ≤ s ≤ e.
Proof. unfold JournalReadInterval_new. destruct (_ || _) eqn:E; naive_solver lia. Qed.

(** An interval the broker opened admits a covered position exactly when the position lies in
    it, completion is claimed exactly at the end, and an incomplete read made progress: no page is
    admitted that covers nothing yet leaves work, nor one that claims completion short of the end. *)
Theorem admits_coverage_spec start_usn end_usn i covered complete :
  JournalReadInterval_new start_usn end_usn = Some i →
  JournalReadInterval_admits_coverage i covered complete = true ↔
  start_usn ≤ covered ≤ end_usn ∧ (complete = true ↔ covered = end_usn) ∧
  (complete = false → start_usn < covered).
Proof.
  intros [-> Hv]%JournalReadInterval_new_Some.
  unfold JournalReadInterval_admits_coverage, JournalReadInterval_is_empty. simpl.
  destruct (_ || _) eqn:E1; [split; [done|lia]|].
  destruct (_ =? _) eqn:E2; destruct complete; destruct (covered =? end_usn) eqn:E3; simpl;
    rewrite ?andb_true_r, ?andb_false_r, ?Z.ltb_lt; naive_solver lia.
Qed.

Lemma admits_coverage_spec_witness :
  JournalReadInterval_admits_coverage
    {| interval_start_usn := 10; interval_end_usn := 20 |} 15 false = true.
Proof.
  apply (admits_coverage_spec 10 20 _ 15 false eq_refl). naive_solver lia.
Defined.
