(* ===== verification/WirePath.v ===== *)
(** * Windows paths on the broker wire

    Models [journal_broker/wire/path.rs] and [journal_broker/windows/name.rs].  The Win32 function
    [CompareStringOrdinal] is a parameter of the comparison.  The main result is that a scope the
    broker derives for a path below a root is always a relative path the wire accepts, and names the
    path's components below the root. *)

From S2P Require Import Prelude Text WireBase.

Module WirePath.

Definition SLASH : Z := 47.
Definition BACKSLASH : Z := 92.
Definition DOT : Z := 46.
Definition COLON : Z := 58.
Definition SPACE : Z := 32.

Inductive NameComparisonSemantics := OrdinalCaseSensitive | WindowsOrdinalIgnoreCase.

Record PathComponent := { display : str; utf16 : list Z }.

Record NormalizedWindowsPath := { drive_key : Z; components : list PathComponent }.

Inductive RootRelativeScope := Root | Relative (path : str).

(** ** Component validation *)

Definition ascii_lower (c : Z) : Z := if (65 <=? c) && (c <=? 90) then c + 32 else c.
Definition eq_ignore_ascii_case (s t : str) : bool :=
  bool_decide (ascii_lower <$> s = ascii_lower <$> t).

Definition is_reserved_device_name (component : str) : bool :=
  let base := default component (head (split_on DOT component)) in
  if existsb (eq_ignore_ascii_case base) [lit "CON"; lit "PRN"; lit "AUX"; lit "NUL"] then true
  else
    let bytes := as_bytes base in
    let byte_is i c := ascii_lower (nth i bytes 0) =? ascii_lower c in
    (zlen bytes =? 4)
    && ((byte_is 0%nat 67 && byte_is 1%nat 79 && byte_is 2%nat 77)
        || (byte_is 0%nat 76 && byte_is 1%nat 80 && byte_is 2%nat 84))
    && in_range 49 57 (nth 3 bytes 0).

Definition is_forbidden_char (c : Z) : bool := (c <? SPACE) || contains c (lit "<>:" ++ [34] ++ lit "|?*").

Definition validate_component (component : str) : WireResult unit :=
  fail_if
    (is_empty component
     || bool_decide (component = lit ".") || bool_decide (component = lit "..")
     || (ends_with SPACE component || ends_with DOT component)
     || existsb is_forbidden_char component
     || is_reserved_device_name component)
    (InvalidValue "path_component").

(** The loop of [validate_relative_path] over the components. *)
Fixpoint validate_components (cs : list str) (depth : Z) : WireResult unit :=
  match cs with
  | [] => Ok ()
  | c :: cs =>
    validate_component c;;
    depth ← ok_or (checked_add USIZE_MAX depth 1) LengthOverflow;
    if MAX_PATH_DEPTH <? depth then Err LengthExceeded else validate_components cs depth
  end.

Definition validate_relative_path (path : str) : WireResult unit :=
  if is_empty path
     || (MAX_PATH_UTF16_UNITS <? zlen (encode_utf16 path))
     || starts_with SLASH path
     || ends_with SLASH path
     || contains_str (lit "//") path
     || contains BACKSLASH path
  then Err (InvalidValue "relative_path")
  else validate_components (split_on SLASH path) 0.

(** ** Absolute paths *)

Fixpoint collect_components (raw : list str) : WireResult (list PathComponent) :=
  match raw with
  | [] => Ok []
  | component :: raw =>
    validate_component component;;
    rest ← collect_components raw;
    Ok ({| display := component; utf16 := encode_utf16 component |} :: rest)
  end.

Definition normalize_absolute_path (path : list Z) : WireResult NormalizedWindowsPath :=
  if is_empty path || (MAX_PATH_UTF16_UNITS <? zlen path) then Err LengthExceeded
  else
    decoded ← ok_or (from_utf16 path) InvalidUtf16;
    if contains 0 decoded || contains SLASH decoded then Err (InvalidValue "absolute_path")
    else
      drive ← ok_or (match head decoded with
                     | Some c => if in_range 65 90 c || in_range 97 122 c then Some c else None
                     | None => None
                     end) (InvalidValue "drive_designator");
      if negb (bool_decide (decoded !! 1%nat = Some COLON))
         || negb (bool_decide (decoded !! 2%nat = Some BACKSLASH))
      then Err (InvalidValue "absolute_path")
      else
        let remainder := drop 3 decoded in
        if starts_with BACKSLASH remainder || ends_with BACKSLASH remainder
        then Err (InvalidValue "absolute_path")
        else
          components ←
            (if is_empty remainder then Ok []
             else
               let raw := split_on BACKSLASH remainder in
               if existsb is_empty raw || (MAX_PATH_DEPTH <? zlen raw)
               then Err (InvalidValue "absolute_path")
               else collect_components raw);
          Ok {| drive_key := if in_range 97 122 drive then drive - 32 else drive;
                components := components |}.

Definition validate_root_path := normalize_absolute_path.
Definition normalize_backend_path := normalize_absolute_path.
Definition component_count (p : NormalizedWindowsPath) : Z := zlen (components p).

(** ** Comparison below a root *)

Section Comparison.
(** The Win32 call on two counted UTF-16 strings and the ignore-case flag: 0 on failure, else
    1 (less), 2 (equal) or 3 (greater). *)
Context (CompareStringOrdinal : list Z → list Z → Z → Z).

Definition CSTR_EQUAL : Z := 2.

Definition ordinal_equals (left right : list Z) (ignore_case : bool) : WireResult bool :=
  (if zlen left <? 2 ^ 31 then Ok () else Err LengthOverflow);;
  (if zlen right <? 2 ^ 31 then Ok () else Err LengthOverflow);;
  let result := CompareStringOrdinal left right (if ignore_case then 1 else 0) in
  if result =? 0 then Err NameComparisonUnavailable else Ok (result =? CSTR_EQUAL).

Definition component_equals (left right : list Z) (comparison : NameComparisonSemantics)
    : WireResult bool :=
  match comparison with
  | OrdinalCaseSensitive => Ok (bool_decide (left = right))
  | WindowsOrdinalIgnoreCase => ordinal_equals left right true
  end.

(** The loop of [scope_under_root]: false is the early [return Ok(None)]. *)
Fixpoint prefix_matches (candidate root : list PathComponent)
    (comparisons : list NameComparisonSemantics) : WireResult bool :=
  match candidate, root, comparisons with
  | c :: candidate, r :: root, comparison :: comparisons =>
    equal ← component_equals (utf16 c) (utf16 r) comparison;
    if negb equal then Ok false else prefix_matches candidate root comparisons
  | _, _, _ => Ok true
  end.

Definition scope_under_root (path root : NormalizedWindowsPath)
    (root_component_comparisons : list NameComparisonSemantics)
    : WireResult (option RootRelativeScope) :=
  if negb (zlen root_component_comparisons =? zlen (components root))
  then Err NameComparisonUnavailable
  else if negb (drive_key path =? drive_key root)
          || (zlen (components path) <? zlen (components root))
  then Ok None
  else
    matches ← prefix_matches (components path) (components root) root_component_comparisons;
    if negb matches then Ok None
    else if zlen (components path) =? zlen (components root) then Ok (Some Root)
    else Ok (Some (Relative (join [SLASH]
           (display <$> drop (length (components root)) (components path))))).

End Comparison.

(** ** Specification of relative paths *)

Definition valid_component (c : str) : Prop := validate_component c = Ok ().

Record valid_relative (path : str) : Prop := {
  vr_units : zlen (encode_utf16 path) ≤ MAX_PATH_UTF16_UNITS;
  vr_backslash : BACKSLASH ∉ path;
  vr_components : Forall valid_component (split_on SLASH path);
  vr_depth : zlen (split_on SLASH path) ≤ MAX_PATH_DEPTH;
}.

Lemma valid_component_ne c : valid_component c → c ≠ [].
Proof. intros H ->. discriminate H. Qed.

Lemma validate_components_spec cs depth :
  0 ≤ depth ≤ MAX_PATH_DEPTH →
  validate_components cs depth = Ok () ↔
  Forall valid_component cs ∧ depth + zlen cs ≤ MAX_PATH_DEPTH.
Proof.
  unfold MAX_PATH_DEPTH. revert depth. induction cs as [|c cs IH]; intros depth Hd; simpl.
  { split; [|done]. intros _. split; [constructor|len]. }
  rewrite result_seq_Ok, Forall_cons, zlen_cons. unfold checked_add, USIZE_MAX, MAX_PATH_DEPTH.
  replace (_ <=? _) with true by lia. simpl. pose proof (zlen_nonneg cs).
  destruct (256 <? depth + 1) eqn:E; [split; [intros [_ [=]]|lia]|].
  unfold valid_component at 1. rewrite IH by lia. naive_solver lia.
Qed.

(** A path whose components are all nonempty neither starts nor ends with a separator nor doubles
    one. *)
Lemma split_nonempty_starts sep s : [] ∉ split_on sep s → starts_with sep s = false.
Proof. destruct s as [|c s]; [done|]. simpl. destruct (c =? sep); [set_solver|done]. Qed.

Lemma split_nonempty_tail sep s :
  [] ∉ tail (split_on sep s) → contains_str [sep; sep] s = false ∧ ends_with sep s = false.
Proof.
  induction s as [|c s IH]; intros H.
  { split; reflexivity. }
  assert (starts_with_str [sep; sep] (c :: s) = false ∧ [] ∉ tail (split_on sep s) ∧
          (s = [] → c ≠ sep)) as (H1 & H2 & H3).
  { unfold starts_with_str. rewrite bool_decide_eq_false. simpl in *.
    destruct (Z.eqb_spec c sep) as [->|Hc].
    - simpl in H. pose proof (split_nonempty_starts sep s H) as Hs. split_and!.
      + rewrite Z.eqb_refl. destruct s as [|d s]; [intros [? [=]]|].
        simpl in Hs. rewrite Z.eqb_sym, Hs. intros [? [=]].
      + destruct (split_on sep s); set_solver.
      + intros ->. simpl in H. set_solver.
    - rewrite (proj2 (Z.eqb_neq sep c)) by done. split_and!; [intros [? [=]]| |done].
      destruct (split_on sep s); set_solver. }
  destruct (IH H2) as [IH1 IH2]. split.
  - change (contains_str [sep; sep] (c :: s)) with
      (starts_with_str [sep; sep] (c :: s) || contains_str [sep; sep] s). by rewrite H1, IH1.
  - destruct s as [|d s]; [unfold ends_with; simpl; apply Z.eqb_neq; auto|]. exact IH2.
Qed.

Lemma validate_relative_path_spec path :
  validate_relative_path path = Ok () ↔ valid_relative path.
Proof.
  unfold validate_relative_path. split.
  - intros H. destruct (_ || _) eqn:E in H; [done|].
    apply validate_components_spec in H as [Hc Hd]; [|unfold MAX_PATH_DEPTH; lia].
    repeat rewrite orb_false_iff in E. destruct E as (((((_ & Hu) & _) & _) & _) & Hb).
    apply contains_false in Hb. constructor; [lia|done|done|lia].
  - intros [Hu Hb Hc Hd].
    assert ([] ∉ split_on SLASH path) as Hne.
    { intros Hin. rewrite Forall_forall in Hc. by apply (valid_component_ne [] (Hc _ Hin)). }
    rewrite (split_nonempty_starts _ _ Hne). change (lit "//") with [SLASH; SLASH].
    destruct (split_nonempty_tail SLASH path) as [-> ->].
    { destruct (split_on SLASH path); set_solver. }
    rewrite (proj2 (contains_false _ _) Hb).
    replace (is_empty path) with false.
    2: { destruct path; [|done]. simpl in Hne. set_solver. }
    replace (_ <? _) with false by lia. simpl.
    apply validate_components_spec; [unfold MAX_PATH_DEPTH; lia|]. split; [done|lia].
Qed.

(** ** Normalized absolute paths *)

Record normalized (size : Z) (p : NormalizedWindowsPath) : Prop := {
  nz_valid : Forall (λ c, valid_component (display c)) (components p);
  nz_free : Forall (λ c, SLASH ∉ display c ∧ BACKSLASH ∉ display c) (components p);
  nz_str : Forall (λ c, is_str (display c)) (components p);
  nz_units : Forall (λ c, utf16 c = encode_utf16 (display c)) (components p);
  nz_depth : zlen (components p) ≤ MAX_PATH_DEPTH;
  nz_size : zlen (encode_utf16 (join [BACKSLASH] (display <$> components p))) + 3 ≤ size;
  nz_max : size ≤ MAX_PATH_UTF16_UNITS;
}.

Lemma collect_components_spec raw cs :
  collect_components raw = Ok cs →
  display <$> cs = raw ∧ Forall valid_component raw ∧
  Forall (λ c, utf16 c = encode_utf16 (display c)) cs.
Proof.
  revert cs. induction raw as [|w raw IH]; simpl; intros cs H; simplify_result.
  { split_and!; [done|constructor..]. }
  match goal with H : collect_components raw = Ok _ |- _ => apply IH in H as (<- & ? & ?) end.
  simpl. split_and!; [done|by constructor|by constructor].
Qed.

Lemma normalize_absolute_path_normalized path p :
  Forall is_u16 path → normalize_absolute_path path = Ok p → normalized (zlen path) p.
Proof.
  unfold normalize_absolute_path. intros H16 H.
  destruct (_ || _) eqn:E1 in H; [done|]. simplify_result.
  rename x into decoded. match goal with H : from_utf16 _ = _ |- _ => rename H into Hd end.
  apply from_utf16_Some in Hd as [Hstr <-]; [|done].
  destruct (_ || _) eqn:E2 in H; [done|]. simplify_result.
  destruct (_ || _) eqn:E3 in H; [done|]. destruct (_ || _) eqn:E4 in H; [done|]. simplify_result.
  apply orb_false_iff in E2 as [_ Hs%contains_false].
  assert (zlen (encode_utf16 (drop 3 decoded)) + 3 ≤ zlen (encode_utf16 decoded)) as Hsize.
  { destruct decoded as [|a [|b [|c r]]];
      try (apply orb_false_iff in E3 as [E3 E3']; rewrite negb_false_iff, bool_decide_eq_true in *;
           simpl in *; congruence).
    cbn [drop]. rewrite drop_0. pose proof (zlen_utf16 [a; b; c]).
    change (a :: b :: c :: r) with ([a; b; c] ++ r). rewrite encode_utf16_app. len. }
  assert (zlen (encode_utf16 decoded) ≤ MAX_PATH_UTF16_UNITS) by (apply orb_false_iff in E1 as [_ E1]; lia).
  match goal with H : (if is_empty _ then _ else _) = Ok _ |- _ => rename H into Hc end.
  destruct (is_empty (drop 3 decoded)) eqn:Ee; simplify_result.
  { split; cbn [components]; first [apply Forall_nil_2 | done | vm_compute; discriminate | idtac].
    change (zlen (encode_utf16 (join [BACKSLASH] (display <$> [])))) with 0. len. }
  destruct (_ || _) eqn:E5 in Hc; [done|].
  apply collect_components_spec in Hc as (Hraw & Hv & H16').
  assert (Forall (λ w, SLASH ∉ w ∧ BACKSLASH ∉ w ∧ is_str w) (display <$> x0)) as Hw.
  { rewrite Hraw. apply Forall_forall. intros w Hw. split_and!.
    - intros Hin. apply Hs. eapply elem_of_split in Hw; [|done].
      rewrite <-(take_drop 3 decoded). apply elem_of_app. by right.
    - pose proof (split_on_free BACKSLASH (drop 3 decoded)) as Hf.
      rewrite Forall_forall in Hf. by apply Hf.
    - pose proof (is_str_split BACKSLASH (drop 3 decoded) (Forall_drop _ _ _ Hstr)) as Hf.
      rewrite Forall_forall in Hf. by apply Hf. }
  rewrite Forall_fmap in Hw. split; simpl; [| | |done| | |done].
  - rewrite <-Hraw, Forall_fmap in Hv. done.
  - eapply Forall_impl; [done|]. simpl. tauto.
  - eapply Forall_impl; [done|]. simpl. tauto.
  - rewrite <-Hraw in E5. rewrite zlen_map in E5. lia.
  - by rewrite Hraw, join_split.
Qed.

(** ** Scopes *)

Lemma elem_of_join sep ws c : c ∈ join sep ws → c ∈ sep ∨ ∃ w, w ∈ ws ∧ c ∈ w.
Proof.
  induction ws as [|w ws IH]; [simpl; set_solver|].
  destruct ws as [|w' ws]; [simpl; intros; right; set_solver|].
  rewrite join_cons by done. rewrite !elem_of_app. intros [H|[H|H]].
  - right. exists w. set_solver.
  - by left.
  - destruct (IH H) as [?|(v & ? & ?)]; [by left|right; exists v; set_solver].
Qed.

Lemma utf16_join_drop a b ws k :
  a < 0x10000 → b < 0x10000 →
  zlen (encode_utf16 (join [a] (drop k ws))) ≤ zlen (encode_utf16 (join [b] ws)).
Proof.
  intros Ha Hb.
  assert (∀ x, x < 0x10000 → zlen (encode_utf16 [x]) = 1) as H1.
  { intros x Hx. unfold encode_utf16, utf16_char. simpl. by rewrite (proj2 (Z.ltb_lt _ _) Hx). }
  assert (∀ ws, zlen (encode_utf16 (join [a] ws)) = zlen (encode_utf16 (join [b] ws))) as Hj.
  { clear ws k. induction ws as [|w [|w' ws] IH]; [done..|].
    rewrite (join_cons [a] w), (join_cons [b] w) by done.
    rewrite !encode_utf16_app, !zlen_app, !H1, IH by done. done. }
  revert k. induction ws as [|w ws IH]; intros k; [by rewrite drop_nil|].
  destruct k as [|k]; [rewrite drop_0, Hj; lia|]. simpl drop.
  etrans; [apply IH|]. destruct ws as [|w' ws]; [simpl; len|].
  rewrite (join_cons [b] w), !encode_utf16_app by done. len.
Qed.

Lemma join_components_valid cs :
  cs ≠ [] →
  Forall (λ c, valid_component (display c)) cs →
  Forall (λ c, SLASH ∉ display c ∧ BACKSLASH ∉ display c) cs →
  zlen cs ≤ MAX_PATH_DEPTH →
  zlen (encode_utf16 (join [SLASH] (display <$> cs))) ≤ MAX_PATH_UTF16_UNITS →
  valid_relative (join [SLASH] (display <$> cs)).
Proof.
  intros Hne Hv Hf Hd Hu.
  assert (split_on SLASH (join [SLASH] (display <$> cs)) = display <$> cs) as Hs.
  { apply split_join; [by destruct cs|]. rewrite Forall_fmap.
    eapply Forall_impl; [done|]. simpl. tauto. }
  constructor; [done| |rewrite Hs; by rewrite Forall_fmap|rewrite Hs; by rewrite zlen_map].
  intros Hin. apply elem_of_join in Hin as [Hin|(w & Hw & Hin)].
  - apply list_elem_of_singleton in Hin. discriminate Hin.
  - apply list_elem_of_fmap in Hw as (c & -> & Hc). rewrite Forall_forall in Hf.
    destruct (Hf _ Hc) as [_ Hb]. done.
Qed.

Section Scopes.
Context (CompareStringOrdinal : list Z → list Z → Z → Z).

(** A path component equals a root component under the comparison that component uses. *)
Definition component_matches (c : PathComponent) (rk : PathComponent * NameComparisonSemantics)
    : Prop :=
  component_equals CompareStringOrdinal (utf16 c) (utf16 rk.1) rk.2 = Ok true.

Lemma prefix_matches_true cs rs ks :
  length rs = length ks → (length rs ≤ length cs)%nat →
  prefix_matches CompareStringOrdinal cs rs ks = Ok true →
  Forall2 component_matches (take (length rs) cs) (zip rs ks).
Proof.
  revert rs ks. induction cs as [|c cs IH]; intros [|r rs] [|k ks]; simpl; intros Hl Hle H;
    try lia; try (by constructor).
  simplify_result. match goal with H : component_equals _ _ _ _ = Ok ?b |- _ => destruct b end;
    [|done].
  constructor; [done|]. apply IH; [lia|lia|done].
Qed.

Lemma scope_under_root_spec path np nr ks s :
  Forall is_u16 path →
  normalize_backend_path path = Ok np →
  scope_under_root CompareStringOrdinal np nr ks = Ok (Some (Relative s)) →
  (validate_relative_path s = Ok () ∧ is_str s ∧ zlen (encode_utf16 s) + 3 ≤ zlen path) ∧
  drive_key np = drive_key nr ∧
  ∃ above below, components np = above ++ below ∧ s = join [SLASH] (display <$> below) ∧
    Forall2 component_matches above (zip (components nr) ks).
Proof.
  intros H16 Hp H. apply normalize_absolute_path_normalized in Hp as [Hv Hf Hstr _ Hd Hu Hmax]; [|done].
  unfold scope_under_root in H.
  destruct (negb _) eqn:E1 in H; [done|]. destruct (_ || _) eqn:E2 in H; [done|]. simplify_result.
  match goal with H : prefix_matches _ _ _ _ = Ok ?b |- _ => destruct b; [|done] end. simpl in H.
  destruct (_ =? _) eqn:E3 in H; simplify_result; simplify_eq.
  match goal with H : prefix_matches _ _ _ _ = Ok _ |- _ => rename H into Hm end.
  apply prefix_matches_true in Hm; [|unfold zlen in *; lia..].
  assert (zlen (encode_utf16 (join [SLASH] (display <$> drop (length (components nr)) (components np)))) + 3
            ≤ zlen path) as Hsize.
  { rewrite fmap_drop. pose proof (utf16_join_drop SLASH BACKSLASH (display <$> components np)
      (length (components nr)) ltac:(done) ltac:(done)). lia. }
  split; [|split; [lia|]].
  - split_and!; [|apply is_str_join; [repeat constructor; unfold SLASH; lia|by apply Forall_fmap, Forall_drop]|done].
    apply validate_relative_path_spec, join_components_valid.
    + intros Hnil%(f_equal length). rewrite length_drop in Hnil. unfold zlen in *. simpl in Hnil. lia.
    + by apply Forall_drop.
    + by apply Forall_drop.
    + etrans; [|exact Hd]. unfold zlen. rewrite length_drop. lia.
    + lia.
  - eexists (take _ _), (drop _ _). split_and!; [by rewrite take_drop|done|done].
Qed.

Lemma scope_under_root_root np nr ks :
  scope_under_root CompareStringOrdinal np nr ks = Ok (Some Root) →
  drive_key np = drive_key nr ∧ Forall2 component_matches (components np) (zip (components nr) ks).
Proof.
  unfold scope_under_root. intros H.
  destruct (negb _) eqn:E1 in H; [done|]. destruct (_ || _) eqn:E2 in H; [done|]. simplify_result.
  match goal with H : prefix_matches _ _ _ _ = Ok ?b |- _ => destruct b; [|done] end. simpl in H.
  destruct (_ =? _) eqn:E3 in H; simplify_result; simplify_eq. split; [lia|].
  match goal with H : prefix_matches _ _ _ _ = Ok _ |- _ => apply prefix_matches_true in H as Hm end;
    [|unfold zlen in *; lia..].
  by rewrite take_ge in Hm by (unfold zlen in *; lia).
Qed.

Lemma prefix_matches_false cs rs ks above below :
  prefix_matches CompareStringOrdinal cs rs ks = Ok false → cs = above ++ below →
  ¬ Forall2 component_matches above (zip rs ks).
Proof.
  intros Hm -> Hf. revert ks Hm Hf. revert rs. induction above as [|c above IH]; intros rs ks Hm Hf.
  - apply Forall2_nil_inv_l in Hf. destruct below, rs, ks; done.
  - apply Forall2_cons_inv_l in Hf as ([r k] & rest & Hc & Hf & Hz). destruct rs as [|r' rs], ks as [|k' ks]; simplify_eq/=.
    unfold component_matches in Hc. cbn in Hc. rewrite Hc in Hm. cbn in Hm. by eapply IH.
Qed.

Lemma scope_under_root_none np nr ks above below :
  scope_under_root CompareStringOrdinal np nr ks = Ok None → drive_key np = drive_key nr → components np = above ++ below →
  ¬ Forall2 component_matches above (zip (components nr) ks).
Proof.
  unfold scope_under_root. intros H Hd Hc Hf. destruct (negb _) eqn:E1 in H; [done|].
  pose proof (Forall2_length _ _ _ Hf) as Hl. rewrite length_zip in Hl.
  assert (zlen (components np) = zlen above + zlen below) as Hn by (rewrite Hc; unfold zlen; rewrite length_app; lia).
  destruct (_ || _) eqn:E2 in H; [unfold zlen in *; lia|]. simplify_result.
  match goal with H : prefix_matches _ _ _ _ = Ok ?b |- _ => destruct b; [|by eapply prefix_matches_false] end.
  simpl in H. by destruct (_ =? _) in H.
Qed.

(** C21: where the broker places a journal path relative to a registered root. A path with a relative scope is on the
    drive of the root and starts with components that match those of the root one by one, each under its own comparison;
    the scope spells exactly the components that follow, and passes the wire's own path validation. A path that is placed
    at the root matches it in all its components. A path that is not placed is on another drive or has no prefix that
    matches the root. *)
Theorem scope_under_root_confined path root np nr ks placed :
  Forall is_u16 path →
  normalize_backend_path path = Ok np →
  validate_root_path root = Ok nr →
  scope_under_root CompareStringOrdinal np nr ks = Ok placed →
  match placed with
  | Some (Relative s) =>
    validate_relative_path s = Ok () ∧ drive_key np = drive_key nr ∧
    ∃ above below, components np = above ++ below ∧ s = join [SLASH] (display <$> below) ∧
      Forall2 component_matches above (zip (components nr) ks)
  | Some Root => drive_key np = drive_key nr ∧ Forall2 component_matches (components np) (zip (components nr) ks)
  | None => drive_key np ≠ drive_key nr ∨
    ∀ above below, components np = above ++ below → ¬ Forall2 component_matches above (zip (components nr) ks)
  end.
Proof.
  intros H16 Hp _ H. destruct placed as [[|s]|].
  - by apply scope_under_root_root.
  - destruct (scope_under_root_spec _ _ _ _ _ H16 Hp H) as ((? & _ & _) & ?). done.
  - destruct (decide (drive_key np = drive_key nr)) as [Hd|Hd]; [right|by left]. intros above below. by apply scope_under_root_none.
Qed.

End Scopes.

(** An ASCII-only stand-in for the Win32 comparison, for the witness. *)
Definition ascii_compare (l r : list Z) (ignore : Z) : Z :=
  if (if ignore =? 1 then eq_ignore_ascii_case l r else bool_decide (l = r)) then 2 else 1.

Lemma scope_under_root_confined_witness :
  validate_relative_path (lit "Trip/a.jpg") = Ok ().
Proof.
  refine (proj1 (scope_under_root_confined ascii_compare
    (lit "c:\PHOTOS\Trip\a.jpg") (lit "C:\Photos") _ _ [WindowsOrdinalIgnoreCase]
    (Some (Relative (lit "Trip/a.jpg"))) _ _ _ _)).
  - vm_compute. repeat constructor; discriminate.
  - vm_compute. reflexivity.
  - vm_compute. reflexivity.
  - vm_compute. reflexivity.
Defined.

End WirePath.
