(* ===== verification/Wire.v ===== *)
(** * Messages of the journal broker protocol

    Models [journal_broker/wire.rs]: the requests and responses exchanged with the privileged
    broker, and the validators each side runs before encoding and after decoding.  The [wf_*]
    predicates state what Rust's types already guarantee (integer widths, array lengths, strings of
    Unicode scalar values); the validators are the program's own checks on top of them. *)

From S2P Require Import Prelude Text WireBase WirePath.
Import WirePath(validate_root_path, validate_relative_path, component_count).

(** [[u8; N]] and [Vec<u8>] *)
Definition is_array (n : Z) (b : bytes) : Prop := Forall is_u8 b ∧ zlen b = n.
Definition is_vec (b : bytes) : Prop := Forall is_u8 b ∧ is_usize (zlen b).

Definition all_zero (b : bytes) : bool := forallb (λ x, x =? 0) b.

(** [matches!(v.len(), 8 | 16)] *)
Definition is_reference_len (b : bytes) : bool := (zlen b =? 8) || (zlen b =? 16).

(** ** Caller, root and capability *)

Record CallerClaim := {
  caller_process_id : Z;
  caller_session_id : Z;
  caller_client_instance : bytes;
}.

Definition wf_caller (c : CallerClaim) : Prop :=
  is_u32 (caller_process_id c) ∧ is_u32 (caller_session_id c) ∧
  is_array 16 (caller_client_instance c).

Definition CallerClaim_validate (self : CallerClaim) : WireResult unit :=
  fail_if ((caller_process_id self =? 0) || all_zero (caller_client_instance self))
          (InvalidValue "caller_claim").

Record RootAuthorization := {
  root_root_id : str;
  root_root_generation : Z;
  root_volume_id : str;
  root_root_identity : bytes;
  root_canonical_root_utf16 : list Z;
}.

Definition wf_root (r : RootAuthorization) : Prop :=
  is_str (root_root_id r) ∧ is_u64 (root_root_generation r) ∧ is_str (root_volume_id r) ∧
  Forall is_u8 (root_root_identity r) ∧ Forall is_u16 (root_canonical_root_utf16 r).

Definition RootAuthorization_validate (self : RootAuthorization) : WireResult unit :=
  validate_identifier (root_root_id self) MAX_ROOT_ID_BYTES;;
  validate_identifier (root_volume_id self) MAX_VOLUME_ID_BYTES;;
  fail_if ((root_root_generation self =? 0) || negb (is_reference_len (root_root_identity self)))
          (InvalidValue "root_authorization");;
  path ← validate_root_path (root_canonical_root_utf16 self);
  fail_if (component_count path =? 0) (InvalidValue "volume_root").

Record RootCapability := { capability_bytes : bytes }.

Definition wf_capability (c : RootCapability) : Prop := is_array 32 (capability_bytes c).

Definition RootCapability_validate (self : RootCapability) : WireResult unit :=
  fail_if (bool_decide (capability_bytes self = replicate 32 0)) (InvalidValue "root_capability").

(** ** Requests *)

Record RegisterRootRequest := {
  rr_caller : CallerClaim;
  rr_root : RootAuthorization;
  rr_client_root_handle : Z;
  rr_timeout_ms : Z;
}.

Definition RegisterRootRequest_validate (self : RegisterRootRequest) : WireResult unit :=
  CallerClaim_validate (rr_caller self);;
  RootAuthorization_validate (rr_root self);;
  fail_if ((rr_client_root_handle self =? 0)
           || negb (zlen (root_root_identity (rr_root self)) =? 16))
          (InvalidValue "root_registration");;
  validate_timeout (rr_timeout_ms self).

Record QueryJournalRequest := {
  qj_caller : CallerClaim;
  qj_root : RootAuthorization;
  qj_root_capability : RootCapability;
  qj_timeout_ms : Z;
}.

Definition QueryJournalRequest_validate (self : QueryJournalRequest) : WireResult unit :=
  CallerClaim_validate (qj_caller self);;
  RootAuthorization_validate (qj_root self);;
  RootCapability_validate (qj_root_capability self);;
  validate_timeout (qj_timeout_ms self).

Record ReadJournalRangeRequest := {
  rd_caller : CallerClaim;
  rd_root : RootAuthorization;
  rd_root_capability : RootCapability;
  rd_journal_id : Z;
  rd_start_usn : Z;
  rd_end_usn : Z;
  rd_max_records : Z;
  rd_max_evidence_bytes : Z;
  rd_timeout_ms : Z;
}.

Definition ReadJournalRangeRequest_validate (self : ReadJournalRangeRequest) : WireResult unit :=
  CallerClaim_validate (rd_caller self);;
  RootAuthorization_validate (rd_root self);;
  RootCapability_validate (rd_root_capability self);;
  fail_if ((rd_journal_id self =? 0) || (rd_start_usn self <? 0)
           || (rd_end_usn self <=? rd_start_usn self)) (InvalidValue "journal_range");;
  fail_if (negb (in_range 1 MAX_RECORDS (rd_max_records self))) (InvalidValue "max_records");;
  fail_if (negb (in_range 1 MAX_EVIDENCE_BYTES (rd_max_evidence_bytes self)))
          (InvalidValue "max_evidence_bytes");;
  validate_timeout (rd_timeout_ms self).

Record SharedJournalRootRequest := {
  sr_root : RootAuthorization;
  sr_root_capability : RootCapability;
  sr_start_usn : Z;
}.

Definition SharedJournalRootRequest_validate (self : SharedJournalRootRequest) : WireResult unit :=
  RootAuthorization_validate (sr_root self);;
  RootCapability_validate (sr_root_capability self);;
  fail_if (sr_start_usn self <? 0) (InvalidValue "journal_start").

Record SharedJournalPendingRenameRequest := {
  sp_carry_id : str;
  sp_source_range_id : str;
  sp_root : RootAuthorization;
  sp_root_capability : option RootCapability;
  sp_file_reference : bytes;
  sp_old_usn : Z;
  sp_previous_relative_path : str;
  sp_is_directory : bool;
}.

Definition SharedJournalPendingRenameRequest_validate (self : SharedJournalPendingRenameRequest)
    (volume_id : str) (journal_id requested_end_usn : Z) : WireResult unit :=
  validate_identifier (sp_carry_id self) 512;;
  validate_identifier (sp_source_range_id self) 512;;
  RootAuthorization_validate (sp_root self);;
  match sp_root_capability self with
  | Some capability => RootCapability_validate capability
  | None => Ok ()
  end;;
  validate_relative_path (sp_previous_relative_path self);;
  fail_if (negb (bool_decide (root_volume_id (sp_root self) = volume_id))
           || (journal_id =? 0)
           || negb (is_reference_len (sp_file_reference self))
           || (sp_old_usn self <? 0)
           || (requested_end_usn <=? sp_old_usn self))
          (InvalidValue "shared_pending_rename").

Record ReadJournalVolumeRequest := {
  rv_caller : CallerClaim;
  rv_roots : list SharedJournalRootRequest;
  rv_pending_renames : list SharedJournalPendingRenameRequest;
  rv_journal_id : Z;
  rv_end_usn : Z;
  rv_max_records : Z;
  rv_max_evidence_bytes : Z;
  rv_timeout_ms : Z;
}.

(** [BTreeSet::insert]: whether the key was new, and the grown set. *)
Definition set_insert {A} `{EqDecision A} (seen : list A) (key : A) : bool * list A :=
  if bool_decide (key ∈ seen) then (false, seen) else (true, key :: seen).

(** One iteration of the root loop of [ReadJournalVolumeRequest::validate]. *)
Definition validate_shared_root (volume_id : str) (end_usn : Z) (identities : list (str * Z))
    (root : SharedJournalRootRequest) : WireResult (list (str * Z)) :=
  SharedJournalRootRequest_validate root;;
  let '(is_new, identities') :=
    set_insert identities (root_root_id (sr_root root), root_root_generation (sr_root root)) in
  if negb (bool_decide (root_volume_id (sr_root root) = volume_id))
     || negb (bool_decide (is_Some (JournalReadInterval_new (sr_start_usn root) end_usn)))
     || negb is_new
  then Err (InvalidValue "shared_root_set") else Ok identities'.

Definition validate_shared_pending (volume_id : str) (journal_id end_usn : Z)
    (carry_ids : list str) (pending : SharedJournalPendingRenameRequest)
    : WireResult (list str) :=
  SharedJournalPendingRenameRequest_validate pending volume_id journal_id end_usn;;
  let '(is_new, carry_ids') := set_insert carry_ids (sp_carry_id pending) in
  if negb is_new then Err (InvalidValue "shared_pending_rename_set") else Ok carry_ids'.

Definition ReadJournalVolumeRequest_validate (self : ReadJournalVolumeRequest) : WireResult unit :=
  CallerClaim_validate (rv_caller self);;
  fail_if ((rv_journal_id self =? 0)
           || negb (in_range 1 MAX_SHARED_ROOTS (zlen (rv_roots self)))
           || negb (in_range 1 MAX_RECORDS (rv_max_records self))
           || negb (in_range 1 MAX_EVIDENCE_BYTES (rv_max_evidence_bytes self)))
          (InvalidValue "shared_journal_range");;
  let volume_id := match rv_roots self with
                   | root :: _ => root_volume_id (sr_root root)
                   | [] => []
                   end in
  _ ← result_foldl (validate_shared_root volume_id (rv_end_usn self)) [] (rv_roots self);
  fail_if (MAX_SHARED_PENDING_RENAMES <? zlen (rv_pending_renames self))
          (InvalidValue "shared_pending_rename_count");;
  _ ← result_foldl (validate_shared_pending volume_id (rv_journal_id self) (rv_end_usn self)) []
        (rv_pending_renames self);
  validate_timeout (rv_timeout_ms self).

(** [minimum_start_usn]; [None] is the [expect] on an empty root list. *)
Definition minimum_start_usn (self : ReadJournalVolumeRequest) : option Z :=
  match sr_start_usn <$> rv_roots self with
  | [] => None
  | u :: us => Some (foldl Z.min u us)
  end.

Inductive BrokerRequest :=
| ReqRegisterRoot (request_id : Z) (request : RegisterRootRequest)
| ReqQueryJournal (request_id : Z) (request : QueryJournalRequest)
| ReqReadRange (request_id : Z) (request : ReadJournalRangeRequest)
| ReqReadVolume (request_id : Z) (request : ReadJournalVolumeRequest)
| ReqCancel (request_id : Z) (caller : CallerClaim) (target_request_id : Z).

Definition BrokerRequest_request_id (self : BrokerRequest) : Z :=
  match self with
  | ReqRegisterRoot request_id _ | ReqQueryJournal request_id _ | ReqReadRange request_id _
  | ReqReadVolume request_id _ | ReqCancel request_id _ _ => request_id
  end.

(** ** Responses *)

Record ResponseBinding := {
  binding_client_instance : bytes;
  binding_root_id : str;
  binding_root_generation : Z;
  binding_volume_id : str;
}.

#[export] Instance ResponseBinding_eq_dec : EqDecision ResponseBinding.
Proof. solve_decision. Defined.

Definition ResponseBinding_from_request (caller : CallerClaim) (root : RootAuthorization)
    : ResponseBinding :=
  {| binding_client_instance := caller_client_instance caller;
     binding_root_id := root_root_id root;
     binding_root_generation := root_root_generation root;
     binding_volume_id := root_volume_id root |}.

Definition ResponseBinding_validate (self : ResponseBinding) : WireResult unit :=
  fail_if (all_zero (binding_client_instance self) || (binding_root_generation self =? 0))
          (InvalidValue "response_binding");;
  validate_identifier (binding_root_id self) MAX_ROOT_ID_BYTES;;
  validate_identifier (binding_volume_id self) MAX_VOLUME_ID_BYTES.

Inductive JournalCapability := Supported | LiveOnly.
Inductive CandidateKind := KindPath | KindSubtree | KindRename.
Inductive CandidateScope := ScopeRoot | ScopeRelativePath (path : str).

#[export] Instance CandidateKind_eq_dec : EqDecision CandidateKind.
Proof. solve_decision. Defined.

Definition CandidateScope_validate (self : CandidateScope) : WireResult unit :=
  match self with
  | ScopeRoot => Ok ()
  | ScopeRelativePath path => validate_relative_path path
  end.

Definition CandidateScope_evidence_bytes (self : CandidateScope) : option Z :=
  match self with
  | ScopeRoot => Some 1
  | ScopeRelativePath path => checked_mul USIZE_MAX (zlen (encode_utf16 path)) 2
  end.

Definition is_root_scope (s : CandidateScope) : bool :=
  match s with ScopeRoot => true | ScopeRelativePath _ => false end.

Record BrokerCandidate := {
  cand_scope : CandidateScope;
  cand_previous_scope : option CandidateScope;
  cand_file_reference : bytes;
  cand_usn : Z;
  cand_kind : CandidateKind;
  cand_is_directory : bool;
}.

Definition BrokerCandidate_validate (self : BrokerCandidate) : WireResult unit :=
  CandidateScope_validate (cand_scope self);;
  match cand_previous_scope self with
  | Some previous =>
    CandidateScope_validate previous;;
    fail_if (is_root_scope previous) (InvalidValue "previous_root_candidate")
  | None => Ok ()
  end;;
  let is_rename := bool_decide (cand_kind self = KindRename) in
  fail_if (negb (is_reference_len (cand_file_reference self))
           || (cand_usn self <? 0)
           || negb (Bool.eqb (bool_decide (is_Some (cand_previous_scope self))) is_rename)
           || (bool_decide (cand_kind self = KindSubtree) && negb (cand_is_directory self))
           || (is_root_scope (cand_scope self) && negb (cand_is_directory self)))
          (InvalidValue "candidate");;
  fail_if (is_root_scope (cand_scope self) && negb (bool_decide (cand_kind self = KindSubtree)))
          (InvalidValue "root_candidate").

Definition BrokerCandidate_evidence_bytes (self : BrokerCandidate) : option Z :=
  previous_bytes ← match cand_previous_scope self with
                   | Some scope => CandidateScope_evidence_bytes scope
                   | None => Some 0
                   end;
  scope_bytes ← CandidateScope_evidence_bytes (cand_scope self);
  sum ← checked_add USIZE_MAX scope_bytes previous_bytes;
  checked_add USIZE_MAX sum (zlen (cand_file_reference self)).

Inductive BrokerFailureCode :=
| ProtocolMismatch | MalformedFrame | RequestTooLarge | CallerRejected | RootUnauthorized
| RootIdentityMismatch | VolumeMismatch | JournalUnavailable | JournalDiscontinuous
| RecordUnsupported | EvidenceLimitExceeded | TimedOut | Cancelled | RequestNotActive
| ActiveLimitExceeded | TerminalDeliveryBackpressure | BackendUnavailable | Internal.

#[export] Instance BrokerFailureCode_eq_dec : EqDecision BrokerFailureCode.
Proof. solve_decision. Defined.

Record BrokerFailure := { failure_failure_code : BrokerFailureCode }.

Record SharedJournalRootOutcome := {
  out_binding : ResponseBinding;
  out_requested_start_usn : Z;
  out_covered_until_usn : option Z;
  out_is_complete : bool;
  out_candidates : list BrokerCandidate;
  out_failure : option BrokerFailure;
}.

(** The candidate loop shared by the two range validators: candidates are valid, lie in the covered
    range and have strictly increasing positions. *)
Fixpoint validate_candidates (start covered : Z) (last_usn : option Z)
    (candidates : list BrokerCandidate) : WireResult unit :=
  match candidates with
  | [] => Ok ()
  | candidate :: candidates =>
    BrokerCandidate_validate candidate;;
    fail_if ((cand_usn candidate <? start)
             || (covered <=? cand_usn candidate)
             || match last_usn with Some previous => cand_usn candidate <=? previous | None => false end)
            (InvalidValue "candidate_usn");;
    validate_candidates start covered (Some (cand_usn candidate)) candidates
  end.

Definition SharedJournalRootOutcome_validate (self : SharedJournalRootOutcome)
    (requested_end_usn maximum_records : Z) : WireResult unit :=
  ResponseBinding_validate (out_binding self);;
  interval ← ok_or (JournalReadInterval_new (out_requested_start_usn self) requested_end_usn)
                   (InvalidValue "shared_root_range");
  match out_covered_until_usn self, out_failure self with
  | Some covered, None =>
    fail_if (negb (JournalReadInterval_admits_coverage interval covered (out_is_complete self))
             || (maximum_records <? zlen (out_candidates self)))
            (InvalidValue "shared_root_proof");;
    validate_candidates (out_requested_start_usn self) covered None (out_candidates self)
  | None, Some _ =>
    if negb (out_is_complete self) && is_empty (out_candidates self) then Ok ()
    else Err (InvalidValue "shared_root_outcome")
  | _, _ => Err (InvalidValue "shared_root_outcome")
  end.

Record SharedJournalHandoff := {
  ho_previous_binding : ResponseBinding;
  ho_current_binding : ResponseBinding;
  ho_file_reference : bytes;
  ho_usn : Z;
  ho_previous_relative_path : str;
  ho_current_relative_path : str;
  ho_is_directory : bool;
  ho_previous_carry_id : option str;
}.

Definition SharedJournalHandoff_validate (self : SharedJournalHandoff)
    (client_instance : bytes) (volume_id : str) (requested_end_usn : Z) : WireResult unit :=
  ResponseBinding_validate (ho_previous_binding self);;
  ResponseBinding_validate (ho_current_binding self);;
  validate_relative_path (ho_previous_relative_path self);;
  validate_relative_path (ho_current_relative_path self);;
  match ho_previous_carry_id self with
  | Some carry_id => validate_identifier carry_id 512
  | None => Ok ()
  end;;
  let previous := ho_previous_binding self in
  let current := ho_current_binding self in
  fail_if (negb (bool_decide (binding_client_instance previous = client_instance))
           || negb (bool_decide (binding_client_instance current = client_instance))
           || negb (bool_decide (binding_volume_id previous = volume_id))
           || negb (bool_decide (binding_volume_id current = volume_id))
           || bool_decide ((binding_root_id previous, binding_root_generation previous)
                           = (binding_root_id current, binding_root_generation current))
           || negb (is_reference_len (ho_file_reference self))
           || (ho_usn self <? 0)
           || (requested_end_usn <=? ho_usn self))
          (InvalidValue "shared_handoff").

Definition SharedJournalHandoff_evidence_bytes (self : SharedJournalHandoff) : option Z :=
  previous ← checked_mul USIZE_MAX (zlen (encode_utf16 (ho_previous_relative_path self))) 2;
  current ← checked_mul USIZE_MAX (zlen (encode_utf16 (ho_current_relative_path self))) 2;
  paths ← checked_add USIZE_MAX previous current;
  size ← checked_add USIZE_MAX paths (zlen (ho_file_reference self));
  match ho_previous_carry_id self with
  | None => Some size
  | Some carry_id => checked_add USIZE_MAX size (str_len carry_id)
  end.

Record SharedJournalPendingRename := {
  pr_binding : ResponseBinding;
  pr_file_reference : bytes;
  pr_old_usn : Z;
  pr_previous_relative_path : str;
  pr_is_directory : bool;
}.

Definition SharedJournalPendingRename_validate (self : SharedJournalPendingRename)
    (client_instance : bytes) (volume_id : str) (requested_end_usn : Z) : WireResult unit :=
  ResponseBinding_validate (pr_binding self);;
  validate_relative_path (pr_previous_relative_path self);;
  fail_if (negb (bool_decide (binding_client_instance (pr_binding self) = client_instance))
           || negb (bool_decide (binding_volume_id (pr_binding self) = volume_id))
           || negb (is_reference_len (pr_file_reference self))
           || (pr_old_usn self <? 0)
           || (requested_end_usn <=? pr_old_usn self))
          (InvalidValue "shared_pending_rename").

Definition SharedJournalPendingRename_evidence_bytes (self : SharedJournalPendingRename)
    : option Z :=
  path ← checked_mul USIZE_MAX (zlen (encode_utf16 (pr_previous_relative_path self))) 2;
  checked_add USIZE_MAX path (zlen (pr_file_reference self)).

Inductive BrokerResponse :=
| RespRootRegistered (request_id : Z) (binding : ResponseBinding) (root_capability : RootCapability)
| RespJournal (request_id : Z) (binding : ResponseBinding) (capability : JournalCapability)
    (journal_id first_usn next_usn : option Z)
| RespReadRangeAccepted (request_id : Z) (binding : ResponseBinding)
    (journal_id requested_start_usn requested_end_usn max_records max_evidence_bytes : Z)
| RespReadVolumeAccepted (request_id : Z) (client_instance : bytes) (volume_id : str)
    (journal_id requested_start_usn requested_end_usn root_count max_records
     max_evidence_bytes : Z)
| RespReadVolume (request_id : Z) (client_instance : bytes) (volume_id : str)
    (journal_id requested_end_usn max_records max_evidence_bytes : Z)
    (outcomes : list SharedJournalRootOutcome) (handoffs : list SharedJournalHandoff)
    (pending_renames : list SharedJournalPendingRename)
| RespReadRange (request_id : Z) (binding : ResponseBinding)
    (journal_id requested_start_usn requested_end_usn max_records max_evidence_bytes
     covered_until_usn : Z) (is_complete : bool) (candidates : list BrokerCandidate)
| RespCancelled (request_id : Z) (client_instance : bytes) (target_request_id : Z)
| RespFailure (request_id : Z) (client_instance : option bytes) (failure : BrokerFailure).

Definition BrokerResponse_request_id (self : BrokerResponse) : Z :=
  match self with
  | RespRootRegistered request_id _ _ | RespJournal request_id _ _ _ _ _
  | RespReadRangeAccepted request_id _ _ _ _ _ _
  | RespReadVolumeAccepted request_id _ _ _ _ _ _ _ _
  | RespReadVolume request_id _ _ _ _ _ _ _ _ _
  | RespReadRange request_id _ _ _ _ _ _ _ _ _
  | RespCancelled request_id _ _ | RespFailure request_id _ _ => request_id
  end.

Record InspectedRequestHeader := {
  header_request_id : Z;
  header_version : Z;
  header_is_current_magic : bool;
}.
