(* ===== verification/CodecPrim.v ===== *)
(** * Writer and Reader of the wire codec

    Models the [Writer] and [Reader] of [journal_broker/wire/codec.rs] operation by operation.  The
    class [Format] is the interface between the primitives and the messages: a pair of a writer and
    a reader that agree on one byte representation in both directions.  Messages are verified against
    this interface only. *)

From S2P Require Import Prelude Text WireBase Wire.

(** ** Writer *)

(** The writer's state is the vector of bytes written so far. *)
Abbreviation W := (ST WireError bytes).

Definition w_bytes (value : bytes) : W unit := λ w, Ok ((), w ++ value).
Definition w_u8 (value : Z) : W unit := w_bytes [value].
Definition w_u16 (value : Z) : W unit := w_bytes (le_bytes 2 value).
Definition w_u32 (value : Z) : W unit := w_bytes (le_bytes 4 value).
Definition w_u64 (value : Z) : W unit := w_bytes (le_bytes 8 value).
Definition w_i64 (value : Z) : W unit := w_bytes (le_bytes 8 (value mod 2 ^ 64)).
Definition w_boolean (value : bool) : W unit := w_u8 (if value then 1 else 0).

Definition w_byte_vec (value : bytes) : W unit :=
  length ← st_lift (try_from_uint 32 (zlen value) LengthOverflow);
  w_u32 length;;
  w_bytes value.

Definition w_string (value : str) : W unit := w_byte_vec (as_bytes value).

(** [for x in l { f(x)?; }] *)
Fixpoint w_each {A} (f : A → W unit) (l : list A) : W unit :=
  match l with
  | [] => mret ()
  | x :: l => f x;; w_each f l
  end.

Definition w_utf16 (value : list Z) : W unit :=
  length ← st_lift (try_from_uint 32 (zlen value) LengthOverflow);
  w_u32 length;;
  w_each w_u16 value.

(** [self.boolean(v.is_some()); if let Some(v) = v { f(v); }] *)
Definition w_optional {A} (f : A → W unit) (value : option A) : W unit :=
  w_boolean (bool_decide (is_Some value));;
  match value with Some value => f value | None => mret () end.

Definition w_optional_u64 (value : option Z) : W unit := w_optional w_u64 value.
Definition w_optional_i64 (value : option Z) : W unit := w_optional w_i64 value.

Definition w_header (kind request_id : Z) : W unit :=
  w_bytes PROTOCOL_MAGIC;;
  w_u16 PROTOCOL_VERSION;;
  w_u16 kind;;
  w_u64 request_id.

(** [Writer::new] ... [finish] *)
Definition run_writer (m : W unit) : WireResult bytes := '(_, w) ← m []; Ok w.

(** ** Reader *)

Record Reader := { rd_payload : bytes; rd_cursor : Z; rd_kind : Z }.

Abbreviation R := (ST WireError Reader).

Definition advance (rd : Reader) (n : Z) : Reader :=
  {| rd_payload := rd_payload rd; rd_cursor := rd_cursor rd + n; rd_kind := rd_kind rd |}.

Definition r_fail {A} (e : WireError) : R A := λ _, Err e.

Definition r_take (length : Z) : R bytes := λ rd,
  end_ ← ok_or (checked_add USIZE_MAX (rd_cursor rd) length) LengthOverflow;
  value ← ok_or (slice_get (rd_payload rd) (rd_cursor rd) end_) UnexpectedEnd;
  Ok (value, {| rd_payload := rd_payload rd; rd_cursor := end_; rd_kind := rd_kind rd |}).

Definition r_u8 : R Z := b ← r_take 1; mret (nth 0 b 0).
Definition r_u16 : R Z := b ← r_take 2; mret (le_value b).
Definition r_u32 : R Z := b ← r_take 4; mret (le_value b).
Definition r_u64 : R Z := b ← r_take 8; mret (le_value b).
Definition r_i64 : R Z := b ← r_take 8; mret (to_signed 64 (le_value b)).
Definition r_array_16 : R bytes := r_take 16.
Definition r_array_32 : R bytes := r_take 32.

Definition r_boolean : R bool :=
  b ← r_u8;
  if b =? 0 then mret false else if b =? 1 then mret true else r_fail (InvalidValue "boolean").

Definition r_byte_vec (maximum : Z) : R bytes :=
  n ← r_u32;
  length ← st_lift (try_from_uint 64 n LengthOverflow);
  if maximum <? length then r_fail LengthExceeded else r_take length.

Definition r_string (maximum : Z) : R str :=
  b ← r_byte_vec maximum;
  st_lift (ok_or (from_utf8 b) InvalidUtf8).

(** [bytes.chunks_exact(2)] read as little-endian units. *)
Fixpoint le_units (b : bytes) : list Z :=
  match b with
  | x :: y :: b => le_value [x; y] :: le_units b
  | _ => []
  end.

Definition r_utf16 (maximum : Z) : R (list Z) :=
  n ← r_u32;
  length ← st_lift (try_from_uint 64 n LengthOverflow);
  if maximum <? length then r_fail LengthExceeded
  else
    byte_length ← st_lift (ok_or (checked_mul USIZE_MAX length 2) LengthOverflow);
    b ← r_take byte_length;
    mret (le_units b).

(** [self.boolean()?.then(|| f()).transpose()?] *)
Definition r_then {A} (f : R A) : R (option A) :=
  present ← r_boolean;
  if (present : bool) then (a ← f; mret (Some a)) else mret None.

Definition r_optional_u64 : R (option Z) := r_then r_u64.
Definition r_optional_i64 : R (option Z) := r_then r_i64.

(** [for _ in 0..count { v.push(f()?); }] *)
Fixpoint r_each {A} (count : nat) (f : R A) : R (list A) :=
  match count with
  | O => mret []
  | S count => a ← f; l ← r_each count f; mret (a :: l)
  end.

(** The same loop threading a local variable of the caller, as the running totals of
    [decode_response] are. *)
Fixpoint r_each_with {A T} (count : nat) (f : T → R (A * T)) (t : T) : R (list A * T) :=
  match count with
  | O => mret ([], t)
  | S count => p ← f t; q ← r_each_with count f p.2; mret (p.1 :: q.1, q.2)
  end.

Definition r_finish : R unit := λ rd,
  if rd_cursor rd =? zlen (rd_payload rd) then Ok ((), rd) else Err TrailingBytes.

Definition read_u16_at (payload : bytes) (offset : Z) : WireResult Z :=
  b ← ok_or (slice_get payload offset (offset + 2)) UnexpectedEnd; Ok (le_value b).
Definition read_u64_at (payload : bytes) (offset : Z) : WireResult Z :=
  b ← ok_or (slice_get payload offset (offset + 8)) UnexpectedEnd; Ok (le_value b).

Definition Reader_after_header (payload : bytes) : WireResult Reader :=
  kind ← read_u16_at payload 10;
  Ok {| rd_payload := payload; rd_cursor := 20; rd_kind := kind |}.

Definition inspect_request_header (payload : bytes) : WireResult InspectedRequestHeader :=
  magic ← ok_or (slice_get payload 0 8) InvalidMagic;
  let is_current_magic := bool_decide (magic = PROTOCOL_MAGIC) in
  if negb is_current_magic
     && negb (bool_decide (magic = LEGACY_PROTOCOL_MAGIC_V1))
     && negb (bool_decide (magic = LEGACY_PROTOCOL_MAGIC_V2))
     && negb (bool_decide (magic = LEGACY_PROTOCOL_MAGIC_V3))
     && negb (bool_decide (magic = LEGACY_PROTOCOL_MAGIC_V4))
  then Err InvalidMagic
  else
    version ← read_u16_at payload 8;
    request_id ← read_u64_at payload 12;
    Ok {| header_request_id := request_id;
          header_version := version;
          header_is_current_magic := is_current_magic |}.

(** ** Specifications of writers and readers *)

(** The writer appends exactly [bs]. *)
Definition writes (m : W unit) (bs : bytes) : Prop := ∀ w, m w = Ok ((), w ++ bs).

(** The bytes a reader has not consumed. *)
Definition rest (rd : Reader) : bytes := drop (Z.to_nat (rd_cursor rd)) (rd_payload rd).

Record reader_ok (rd : Reader) : Prop := {
  ok_bytes : Forall is_u8 (rd_payload rd);
  ok_cursor : 0 ≤ rd_cursor rd ≤ zlen (rd_payload rd);
  ok_usize : zlen (rd_payload rd) ≤ USIZE_MAX;
}.

(** The reader, in front of [bs], returns [a] and stops right after [bs]. *)
Definition reads {A} (m : R A) (bs : bytes) (a : A) : Prop :=
  ∀ rd r, reader_ok rd → rest rd = bs ++ r → m rd = Ok (a, advance rd (zlen bs)).

(** From [rd] to [rd'] exactly the bytes [bs] were consumed. *)
Record consumed (rd rd' : Reader) (bs : bytes) : Prop := {
  con_advance : rd' = advance rd (zlen bs);
  con_rest : rest rd = bs ++ rest rd';
  con_ok : reader_ok rd';
}.

(** Whatever the reader returns satisfies [wf], and it consumed exactly its representation. *)
Definition sound {A} (m : R A) (wf : A → Prop) (repr : A → bytes) : Prop :=
  ∀ rd a rd', reader_ok rd → m rd = Ok (a, rd') → wf a ∧ consumed rd rd' (repr a).

(** A value format: writer and reader agree on [fmt_repr] for every value in [fmt_wf], and the
    reader accepts nothing else. *)
Class Format {A} (enc : A → W unit) (dec : R A) := {
  fmt_wf : A → Prop;
  fmt_repr : A → bytes;
  fmt_writes a : fmt_wf a → writes (enc a) (fmt_repr a);
  fmt_reads a : fmt_wf a → reads dec (fmt_repr a) a;
  fmt_sound : sound dec fmt_wf fmt_repr;
}.

Lemma advance_0 rd : advance rd 0 = rd.
Proof. destruct rd. unfold advance. simpl. by rewrite Z.add_0_r. Qed.
Lemma advance_advance rd a b : advance (advance rd a) b = advance rd (a + b).
Proof. unfold advance. simpl. by rewrite Z.add_assoc. Qed.

Lemma rest_advance rd bs r :
  reader_ok rd → rest rd = bs ++ r → rest (advance rd (zlen bs)) = r ∧ reader_ok (advance rd (zlen bs)).
Proof.
  intros [H8 Hc Hu] Hr. unfold rest, advance in *. simpl in *.
  assert (length (rd_payload rd) = (Z.to_nat (rd_cursor rd) + length bs + length r)%nat) as Hl.
  { apply (f_equal length) in Hr. rewrite length_drop, length_app in Hr. unfold zlen in *. lia. }
  split.
  - replace (Z.to_nat (rd_cursor rd + zlen bs)) with (Z.to_nat (rd_cursor rd) + length bs)%nat
      by (unfold zlen; lia).
    rewrite <-drop_drop, Hr, drop_app_length. done.
  - split; simpl; [done| |done]. unfold zlen in *. lia.
Qed.

Lemma rest_u8 rd : reader_ok rd → Forall is_u8 (rest rd).
Proof. intros [H8 _ _]. by apply Forall_drop. Qed.

(** *** Writers compose *)

Lemma writes_bytes bs : writes (w_bytes bs) bs.
Proof. done. Qed.
Lemma writes_ret : writes (mret ()) [].
Proof. intros w. unfold mret, st_ret. by rewrite app_nil_r. Qed.
Lemma writes_seq m k a b : writes m a → writes k b → writes (m;; k) (a ++ b).
Proof. intros Hm Hk w. unfold mbind, st_bind. rewrite Hm, Hk. by rewrite app_assoc. Qed.
Lemma writes_seq_ret m a : writes m a → writes (m;; mret ()) a.
Proof. intros Hm w. unfold mbind, st_bind. by rewrite Hm. Qed.
Lemma writes_lift {A} (r : WireResult A) (k : A → W unit) a bs :
  r = Ok a → writes (k a) bs → writes (st_lift r ≫= k) bs.
Proof. intros -> Hk w. unfold mbind, st_bind, st_lift. apply Hk. Qed.
Lemma run_writer_writes m bs : writes m bs → run_writer m = Ok bs.
Proof. intros H. unfold run_writer. rewrite H. done. Qed.
Lemma writes_inj m a b : writes m a → writes m b → a = b.
Proof. intros Ha Hb. specialize (Ha []). specialize (Hb []). rewrite Ha in Hb. by injection Hb. Qed.

Lemma writes_each {A} (f : A → W unit) (g : A → bytes) l :
  Forall (λ x, writes (f x) (g x)) l → writes (w_each f l) (l ≫= g).
Proof.
  induction 1; simpl; [apply writes_ret|]. by apply writes_seq.
Qed.

(** *** Readers compose *)

Lemma reads_ret {A} (a : A) : reads (mret a) [] a.
Proof. intros rd r _ _. by rewrite zlen_nil, advance_0. Qed.

Lemma reads_bind {A B} (m : R A) (k : A → R B) a b ba bb :
  reads m ba a → reads (k a) bb b → reads (m ≫= k) (ba ++ bb) b.
Proof.
  intros Hm Hk rd r Hok Hr. unfold mbind, st_bind. rewrite <-app_assoc in Hr.
  rewrite (Hm rd (bb ++ r) Hok Hr). destruct (rest_advance _ _ _ Hok Hr) as [Hr' Hok'].
  rewrite (Hk _ r Hok' Hr'), advance_advance, zlen_app. done.
Qed.

Lemma reads_map {A B} (m : R A) (f : A → B) a bs :
  reads m bs a → reads (x ← m; mret (f x)) bs (f a).
Proof. intros Hm rd r Hok Hr. unfold mbind, st_bind. by rewrite (Hm rd r Hok Hr). Qed.

Lemma reads_last {A B} (m : R A) (k : A → R B) a b bs :
  reads m bs a → k a = mret b → reads (m ≫= k) bs b.
Proof. intros Hm Hk rd r Hok Hr. unfold mbind, st_bind. by rewrite (Hm rd r Hok Hr), Hk. Qed.

Lemma reads_lift {A B} (x : WireResult A) (k : A → R B) a b bs :
  x = Ok a → reads (k a) bs b → reads (st_lift x ≫= k) bs b.
Proof. intros -> Hk rd r. unfold mbind, st_bind, st_lift. apply Hk. Qed.

Lemma reads_bind_lift {A B} (m : R A) (f : A → WireResult B) a b bs :
  reads m bs a → f a = Ok b → reads (x ← m; st_lift (f x)) bs b.
Proof.
  intros Hm Hf rd r Hok Hr. unfold mbind, st_bind, st_lift. by rewrite (Hm rd r Hok Hr), Hf.
Qed.

Lemma reads_each {A} (m : R A) (g : A → bytes) l :
  Forall (λ a, reads m (g a) a) l → reads (r_each (length l) m) (l ≫= g) l.
Proof.
  induction 1 as [|a l Ha Hl IH]; simpl; [apply reads_ret|].
  eapply reads_bind; [done|]. by apply reads_map.
Qed.

(** *** Soundness composes *)

Lemma consumed_refl rd : reader_ok rd → consumed rd rd [].
Proof. intros. split; [by rewrite zlen_nil, advance_0|done|done]. Qed.

Lemma consumed_trans rd rd1 rd2 a b :
  consumed rd rd1 a → consumed rd1 rd2 b → consumed rd rd2 (a ++ b).
Proof.
  intros [-> H1 _] [-> H2 ?]. split; [by rewrite advance_advance, zlen_app| |done].
  by rewrite H1, H2, app_assoc.
Qed.

Lemma reads_eq {A} (m : R A) b b' a : reads m b a → b = b' → reads m b' a.
Proof. by intros ? ->. Qed.
Lemma writes_eq m b b' : writes m b → b = b' → writes m b'.
Proof. by intros ? ->. Qed.

(** *** The automation for composite formats *)

(** Runs a writer made of formats in sequence; leaves the well-formedness of the parts. *)
Ltac solve_writes :=
  eapply writes_eq;
  [ repeat first
      [ eapply writes_seq; [first [eapply writes_bytes | eapply fmt_writes; shelve] |]
      | eapply writes_bytes
      | eapply fmt_writes; shelve ]
  | try reflexivity ].

Ltac solve_reads :=
  eapply reads_eq;
  [ repeat first
      [ eapply reads_map; eapply fmt_reads; shelve
      | eapply reads_bind; [eapply fmt_reads; shelve|]
      | eapply fmt_reads; shelve ]
  | try reflexivity ].

(** The well-formedness goals [solve_writes] and [solve_reads] shelve. *)
Ltac solve_wf := simpl in *; destruct_and?; auto; try done.

(** Opens a successful run of a reader made of formats: every step contributes the
    well-formedness of its value and the bytes it consumed. *)
Ltac sound_steps :=
  repeat match goal with
  | Hok : reader_ok ?rd, H : ?m ?rd = Ok (?a, ?rd') |- _ =>
    let Hw := fresh "Hw" in let Hc := fresh "Hc" in
    destruct (fmt_sound (dec := m) rd a rd' Hok H) as [Hw Hc]; clear H;
    pose proof (con_ok _ _ _ Hc); simpl in Hw
  end.

(** Chains the consumed pieces from the first reader to the last. *)
Ltac solve_consumed :=
  repeat first [eassumption | apply consumed_refl; assumption
               | eapply consumed_trans; [eassumption|]].

(** ** Formats of the primitives *)

Lemma reads_take bs n : n = zlen bs → reads (r_take n) bs bs.
Proof.
  intros -> rd r Hok Hr. destruct (rest_advance _ _ _ Hok Hr) as [_ [_ Hc Hu]].
  destruct Hok as [_ Hc' _]. unfold r_take, checked_add. simpl in *.
  replace (_ <=? _) with true by lia. simpl.
  assert (rd_payload rd = take (Z.to_nat (rd_cursor rd)) (rd_payload rd) ++ bs ++ r) as He
    by (rewrite <-Hr; unfold rest; by rewrite take_drop).
  rewrite He at 1. rewrite slice_get_app; [done|..].
  all: unfold zlen in *; rewrite length_take; lia.
Qed.

Lemma sound_take n : sound (r_take n) (is_array n) (λ b, b).
Proof.
  intros rd b rd' [H8 Hc Hu] H. unfold r_take in H. simplify_result. simplify_eq.
  match goal with H : checked_add _ _ _ = Some ?x |- _ => rename x into end_; rename H into Ha end.
  match goal with H : slice_get _ _ _ = Some _ |- _ => rename H into Hs end.
  unfold checked_add in Ha. case_match; simplify_eq.
  apply slice_get_Some in Hs as (_ & pre & post & He & Hp & Hl).
  assert (n = zlen b) as -> by lia.
  assert (rest rd = b ++ post) as Hr.
  { unfold rest. rewrite He, <-Hp. unfold zlen. by rewrite Nat2Z.id, drop_app_length. }
  destruct (rest_advance rd b post) as [Hr' Hok']; [by split|done|].
  split; [split; [|done]|split; [done|by rewrite Hr, <-Hr'|done]].
  rewrite He in H8. apply Forall_app in H8 as [_ H8]. by apply Forall_app in H8 as [? _].
Qed.

(** Reading through an injection of the raw bytes. *)
Lemma sound_map {A B} (m : R A) (f : A → B) wfa repra (wf : B → Prop) repr :
  sound m wfa repra → (∀ a, wfa a → wf (f a) ∧ repr (f a) = repra a) →
  sound (x ← m; mret (f x)) wf repr.
Proof.
  intros Hm Hf rd b rd' Hok H. simplify_result.
  match goal with H : m rd = Ok _ |- _ => destruct (Hm _ _ _ Hok H) as [Hw Hc] end.
  destruct (Hf _ Hw) as [? ->]. done.
Qed.

Lemma reads_uint n w z :
  w = 8 * Z.of_nat n → is_uint w z →
  reads (b ← r_take (Z.of_nat n); mret (le_value b)) (le_bytes n z) z.
Proof.
  intros -> Hz. replace z with (le_value (le_bytes n z)) at 2.
  { apply (reads_map _ le_value), reads_take. by rewrite zlen_le_bytes. }
  rewrite le_value_bytes, Z.mod_small; [done|]. unfold is_uint in Hz.
  by rewrite (Z.pow_mul_r 2 8) in Hz by lia.
Qed.

Lemma sound_uint n w :
  w = 8 * Z.of_nat n → sound (b ← r_take (Z.of_nat n); mret (le_value b)) (is_uint w) (le_bytes n).
Proof.
  intros ->. eapply sound_map; [apply sound_take|]. intros b [H8 Hl]. simpl. split.
  - unfold is_uint. rewrite Z.pow_mul_r, <-Hl by lia. by apply le_value_range.
  - replace n with (length b) by (unfold zlen in Hl; lia). by apply le_bytes_value.
Qed.

#[export] Instance fmt_array_16 : Format w_bytes r_array_16 := {|
  fmt_wf := is_array 16;
  fmt_repr b := b;
  fmt_writes b _ := writes_bytes b;
  fmt_reads b H := reads_take b 16 (eq_sym (proj2 H));
  fmt_sound := sound_take 16;
|}.
#[export] Instance fmt_array_32 : Format w_bytes r_array_32 := {|
  fmt_wf := is_array 32;
  fmt_repr b := b;
  fmt_writes b _ := writes_bytes b;
  fmt_reads b H := reads_take b 32 (eq_sym (proj2 H));
  fmt_sound := sound_take 32;
|}.
#[export] Instance fmt_u16 : Format w_u16 r_u16 := {|
  fmt_wf := is_u16;
  fmt_repr := le_bytes 2;
  fmt_writes z _ := writes_bytes _;
  fmt_reads z := reads_uint 2 16 z eq_refl;
  fmt_sound := sound_uint 2 16 eq_refl;
|}.
#[export] Instance fmt_u32 : Format w_u32 r_u32 := {|
  fmt_wf := is_u32;
  fmt_repr := le_bytes 4;
  fmt_writes z _ := writes_bytes _;
  fmt_reads z := reads_uint 4 32 z eq_refl;
  fmt_sound := sound_uint 4 32 eq_refl;
|}.
#[export] Instance fmt_u64 : Format w_u64 r_u64 := {|
  fmt_wf := is_u64;
  fmt_repr := le_bytes 8;
  fmt_writes z _ := writes_bytes _;
  fmt_reads z := reads_uint 8 64 z eq_refl;
  fmt_sound := sound_uint 8 64 eq_refl;
|}.

Lemma reads_u8 z : is_u8 z → reads r_u8 [z] z.
Proof. intros H. apply (reads_map _ (λ b, nth 0 b 0) [z]), reads_take. done. Qed.

Lemma sound_u8 : sound r_u8 is_u8 (λ z, [z]).
Proof.
  eapply sound_map; [apply sound_take|]. intros b [H8 Hl].
  destruct b as [|x [|y b]]; [discriminate Hl| |exfalso; len]. simpl.
  by apply Forall_cons in H8 as [? _].
Qed.

#[export] Instance fmt_u8 : Format w_u8 r_u8 := {|
  fmt_wf := is_u8;
  fmt_repr z := [z];
  fmt_writes z _ := writes_bytes _;
  fmt_reads := reads_u8;
  fmt_sound := sound_u8;
|}.

Lemma reads_i64 z : is_i64 z → reads r_i64 (le_bytes 8 (z mod 2 ^ 64)) z.
Proof.
  intros H. rewrite <-(to_signed_wrap 64 z) at 2 by done.
  pose proof (Z.mod_pos_bound z (2 ^ 64) ltac:(lia)) as Hm.
  replace (z mod 2 ^ 64) with (le_value (le_bytes 8 (z mod 2 ^ 64))) at 2.
  { apply (reads_map _ (λ b, to_signed 64 (le_value b))), reads_take. by rewrite zlen_le_bytes. }
  rewrite le_value_bytes. apply Z.mod_small. lia.
Qed.

Lemma sound_i64 : sound r_i64 is_i64 (λ z, le_bytes 8 (z mod 2 ^ 64)).
Proof.
  eapply sound_map; [apply sound_take|]. intros b [H8 Hl]. simpl.
  pose proof (le_value_range b H8) as Hr. rewrite Hl in Hr.
  destruct (to_signed_range 64 (le_value b)) as [? ->]; [lia|unfold is_uint; lia|].
  split; [done|]. replace 8%nat with (length b) by (unfold zlen in Hl; lia).
  by apply le_bytes_value.
Qed.

#[export] Instance fmt_i64 : Format w_i64 r_i64 := {|
  fmt_wf := is_i64;
  fmt_repr z := le_bytes 8 (z mod 2 ^ 64);
  fmt_writes z _ := writes_bytes _;
  fmt_reads := reads_i64;
  fmt_sound := sound_i64;
|}.

Lemma reads_boolean (v : bool) : reads r_boolean [if v then 1 else 0] v.
Proof.
  rewrite <-(app_nil_r [if v then 1 else 0]). eapply reads_bind; [apply reads_u8; destruct v; by vm_compute|].
  destruct v; apply reads_ret.
Qed.

Lemma sound_boolean : sound r_boolean (λ _, True) (λ v : bool, [if v then 1 else 0]).
Proof.
  intros rd v rd' Hok H. unfold r_boolean in H. simplify_result. sound_steps.
  match goal with H : (if ?x =? 0 then _ else _) _ = _ |- _ => rename x into b; rename H into Hb end.
  split; [done|].
  destruct (Z.eqb_spec b 0) as [->|]; simplify_result; [done|].
  destruct (Z.eqb_spec b 1) as [->|]; simplify_result; done.
Qed.

#[export] Instance fmt_boolean : Format w_boolean r_boolean := {|
  fmt_wf := λ _, True;
  fmt_repr := λ v : bool, [if v then 1 else 0];
  fmt_writes v _ := writes_bytes _;
  fmt_reads v _ := reads_boolean v;
  fmt_sound := sound_boolean;
|}.

Lemma try_from_uint_Ok {E} w z (e : E) : is_uint w z → try_from_uint w z e = Ok z.
Proof. unfold is_uint, try_from_uint. intros. by replace (_ && _) with true by lia. Qed.

Lemma try_from_uint_inv {E} w z (e : E) x : try_from_uint w z e = Ok x → x = z ∧ is_uint w z.
Proof.
  unfold is_uint, try_from_uint. destruct (_ && _) eqn:Hb; intros [= <-]. split; [done|lia].
Qed.

(** A length-prefixed vector of at most [maximum] bytes. *)
Record is_byte_vec (maximum : Z) (b : bytes) : Prop := {
  bv_u8 : Forall is_u8 b;
  bv_max : zlen b ≤ maximum;
  bv_u32 : is_u32 (zlen b);
}.
Definition byte_vec_repr (b : bytes) : bytes := le_bytes 4 (zlen b) ++ b.

Lemma writes_byte_vec maximum b : is_byte_vec maximum b → writes (w_byte_vec b) (byte_vec_repr b).
Proof.
  intros [_ _ H]. eapply writes_lift; [by apply try_from_uint_Ok|].
  by apply writes_seq; apply writes_bytes.
Qed.

Lemma reads_byte_vec maximum b :
  is_byte_vec maximum b → reads (r_byte_vec maximum) (byte_vec_repr b) b.
Proof.
  intros [_ Hm H]. unfold byte_vec_repr.
  eapply reads_bind; [exact (fmt_reads (dec := r_u32) (zlen b) H)|].
  eapply reads_lift; [apply try_from_uint_Ok; unfold is_uint in *; lia|].
  replace (maximum <? zlen b) with false by lia. by apply reads_take.
Qed.

Lemma sound_byte_vec maximum : sound (r_byte_vec maximum) (is_byte_vec maximum) byte_vec_repr.
Proof.
  intros rd b rd' Hok H. unfold r_byte_vec in H. simplify_result. sound_steps.
  match goal with H : try_from_uint _ _ _ = Ok _ |- _ => apply try_from_uint_inv in H as [-> _] end.
  destruct (_ <? _) eqn:E in H; [done|].
  match goal with Hk : reader_ok ?rd, H : r_take _ ?rd = _ |- _ =>
    destruct (sound_take _ _ _ _ Hk H) as [[? Hl] ?] end.
  split; [split; [done|lia|by rewrite Hl]|]. unfold byte_vec_repr. rewrite Hl. solve_consumed.
Qed.

#[export] Instance fmt_byte_vec maximum : Format w_byte_vec (r_byte_vec maximum) := {|
  fmt_wf := is_byte_vec maximum;
  fmt_repr := byte_vec_repr;
  fmt_writes := writes_byte_vec maximum;
  fmt_reads := reads_byte_vec maximum;
  fmt_sound := sound_byte_vec maximum;
|}.

(** A length-prefixed UTF-8 string of at most [maximum] bytes. *)
Record is_wire_str (maximum : Z) (s : str) : Prop := {
  ws_str : is_str s;
  ws_max : str_len s ≤ maximum;
  ws_u32 : is_u32 (str_len s);
}.
Definition string_repr (s : str) : bytes := byte_vec_repr (as_bytes s).

Lemma wire_str_byte_vec maximum s : is_wire_str maximum s → is_byte_vec maximum (as_bytes s).
Proof. intros [? ? ?]. split; [by apply as_bytes_u8|done|done]. Qed.

Lemma writes_string maximum s : is_wire_str maximum s → writes (w_string s) (string_repr s).
Proof. intros H. by eapply writes_byte_vec, wire_str_byte_vec. Qed.

Lemma reads_string maximum s : is_wire_str maximum s → reads (r_string maximum) (string_repr s) s.
Proof.
  intros H. eapply reads_bind_lift; [by apply reads_byte_vec, wire_str_byte_vec|].
  destruct H as [? _ _]. by rewrite from_utf8_as_bytes.
Qed.

Lemma sound_string maximum : sound (r_string maximum) (is_wire_str maximum) string_repr.
Proof.
  intros rd s rd' Hok H. unfold r_string in H. simplify_result. sound_steps.
  match goal with H : is_byte_vec _ _ |- _ => destruct H as [H8 ? ?] end.
  match goal with H : from_utf8 _ = _ |- _ => apply from_utf8_Some in H as [? <-]; [|done] end.
  split; [split; done|]. done.
Qed.

#[export] Instance fmt_string maximum : Format w_string (r_string maximum) := {|
  fmt_wf := is_wire_str maximum;
  fmt_repr := string_repr;
  fmt_writes := writes_string maximum;
  fmt_reads := reads_string maximum;
  fmt_sound := sound_string maximum;
|}.

(** A length-prefixed sequence of UTF-16 code units. *)
Record is_utf16_vec (maximum : Z) (u : list Z) : Prop := {
  uv_u16 : Forall is_u16 u;
  uv_max : zlen u ≤ maximum;
  uv_u32 : is_u32 (zlen u);
}.
Definition utf16_repr (u : list Z) : bytes := le_bytes 4 (zlen u) ++ (u ≫= le_bytes 2).

Lemma zlen_units u : zlen (u ≫= le_bytes 2) = 2 * zlen u.
Proof. induction u as [|x u IH]; [done|]. rewrite bind_cons, zlen_cons. len. Qed.

Lemma le_units_bytes u : Forall is_u16 u → le_units (u ≫= le_bytes 2) = u.
Proof.
  induction 1 as [|x u Hx Hu IH]; [done|]. rewrite bind_cons.
  destruct (le_bytes 2 x) as [|a [|b [|c l]]] eqn:E;
    try (apply (f_equal length) in E; rewrite length_le_bytes in E; discriminate E).
  simpl. rewrite IH, <-E, le_value_bytes, Z.mod_small; [done|]. exact Hx.
Qed.

Lemma le_units_sound b :
  Forall is_u8 b → ∀ n, zlen b = 2 * n →
  Forall is_u16 (le_units b) ∧ le_units b ≫= le_bytes 2 = b ∧ zlen (le_units b) = n.
Proof.
  remember (length b) as k eqn:Hk. revert b Hk. induction k as [k IH] using lt_wf_ind.
  intros [|x [|y b]] Hk H8 n Hn; [|exfalso; len|].
  { simpl. split_and!; [done|done|]. rewrite zlen_nil in *. lia. }
  apply Forall_cons in H8 as [Hx H8]. apply Forall_cons in H8 as [Hy H8].
  destruct (IH (length b) ltac:(simpl in Hk; lia) b eq_refl H8 (n - 1) ltac:(len))
    as (H16 & He & Hz).
  change (le_units (x :: y :: b)) with (le_value [x; y] :: le_units b).
  assert (Forall is_u8 [x; y]) as Hxy by by repeat apply Forall_cons_2.
  split_and!.
  - constructor; [|done]. exact (le_value_range [x; y] Hxy).
  - rewrite bind_cons, He. change 2%nat with (length [x; y]). by rewrite le_bytes_value.
  - rewrite zlen_cons. lia.
Qed.

Lemma writes_utf16 maximum u : is_utf16_vec maximum u → writes (w_utf16 u) (utf16_repr u).
Proof.
  intros [_ _ H]. eapply writes_lift; [by apply try_from_uint_Ok|].
  apply writes_seq; [apply writes_bytes|]. apply writes_each.
  apply Forall_forall. intros x _. apply writes_bytes.
Qed.

Lemma reads_utf16 maximum u :
  is_utf16_vec maximum u → reads (r_utf16 maximum) (utf16_repr u) u.
Proof.
  intros [Hu Hm H]. unfold utf16_repr.
  eapply reads_bind; [exact (fmt_reads (dec := r_u32) (zlen u) H)|].
  eapply reads_lift; [apply try_from_uint_Ok; unfold is_uint in *; lia|].
  replace (maximum <? zlen u) with false by lia.
  eapply reads_lift.
  { unfold checked_mul, USIZE_MAX. unfold is_uint in H. by replace (_ <=? _) with true by lia. }
  pose proof (reads_map (r_take (zlen u * 2)) le_units (u ≫= le_bytes 2) (u ≫= le_bytes 2)) as Hr.
  rewrite le_units_bytes in Hr by done. apply Hr, reads_take. rewrite zlen_units. lia.
Qed.

Lemma sound_utf16 maximum : sound (r_utf16 maximum) (is_utf16_vec maximum) utf16_repr.
Proof.
  intros rd u rd' Hok H. unfold r_utf16 in H. simplify_result. sound_steps.
  match goal with H : try_from_uint _ _ _ = Ok _ |- _ => apply try_from_uint_inv in H as [-> _] end.
  destruct (_ <? _) eqn:E in H; [done|]. simplify_result.
  match goal with H : checked_mul _ _ _ = Some _ |- _ =>
    unfold checked_mul in H; destruct (_ <=? _) in H; simplify_eq end.
  match goal with Hk : reader_ok ?rd, H : r_take _ ?rd = Ok (?b, _) |- _ =>
    destruct (sound_take _ _ _ _ Hk H) as [[H8 Hl] ?] end.
  edestruct (le_units_sound _ H8) as (? & He & Hz); [rewrite Hl; apply Z.mul_comm|].
  split; [split; [done|lia|by rewrite Hz]|]. unfold utf16_repr. rewrite He, Hz. solve_consumed.
Qed.

#[export] Instance fmt_utf16 maximum : Format w_utf16 (r_utf16 maximum) := {|
  fmt_wf := is_utf16_vec maximum;
  fmt_repr := utf16_repr;
  fmt_writes := writes_utf16 maximum;
  fmt_reads := reads_utf16 maximum;
  fmt_sound := sound_utf16 maximum;
|}.

(** ** Optional values and loops *)

Section Combinators.
Context {A : Type} {enc : A → W unit} {dec : R A} `{!Format enc dec}.

Definition option_repr (o : option A) : bytes :=
  match o with Some a => 1 :: fmt_repr a | None => [0] end.

Lemma writes_optional o :
  from_option fmt_wf True o → writes (w_optional enc o) (option_repr o).
Proof.
  intros H. destruct o as [a|]; simpl in *; unfold w_optional.
  - change (1 :: fmt_repr a) with ([1] ++ fmt_repr a).
    apply writes_seq; [apply writes_bytes|by apply fmt_writes].
  - apply writes_seq_ret, writes_bytes.
Qed.

Lemma reads_then o : from_option fmt_wf True o → reads (r_then dec) (option_repr o) o.
Proof.
  intros H. destruct o as [a|]; simpl in *.
  - change (1 :: fmt_repr a) with ([1] ++ fmt_repr a).
    eapply reads_bind; [exact (reads_boolean true)|]. by apply (reads_map _ Some), fmt_reads.
  - rewrite <-(app_nil_r [0]). eapply reads_bind; [exact (reads_boolean false)|]. apply reads_ret.
Qed.

Lemma sound_then : sound (r_then dec) (from_option fmt_wf True) option_repr.
Proof.
  intros rd o rd' Hok H. unfold r_then in H. simplify_result.
  match goal with Hk : reader_ok ?rd, H : r_boolean ?rd = Ok (?b, _) |- _ =>
    destruct (sound_boolean _ _ _ Hk H) as [_ Hc]; pose proof (con_ok _ _ _ Hc);
    destruct b; simplify_result end.
  - sound_steps. split; [done|]. change (option_repr (Some _)) with ([1] ++ fmt_repr x).
    solve_consumed.
  - done.
Qed.

#[export] Instance fmt_option : Format (w_optional enc) (r_then dec) := {|
  fmt_wf := from_option fmt_wf True;
  fmt_repr := option_repr;
  fmt_writes := writes_optional;
  fmt_reads := reads_then;
  fmt_sound := sound_then;
|}.

Definition list_repr (l : list A) : bytes := l ≫= fmt_repr.

Lemma writes_list n l : Forall fmt_wf l ∧ length l = n → writes (w_each enc l) (list_repr l).
Proof.
  intros [H _]. apply writes_each. eapply Forall_impl; [done|]. intros a. apply fmt_writes.
Qed.

Lemma reads_list n l :
  Forall fmt_wf l ∧ length l = n → reads (r_each n dec) (list_repr l) l.
Proof.
  intros [H <-]. apply reads_each. eapply Forall_impl; [done|]. intros a. apply fmt_reads.
Qed.

Lemma sound_list n : sound (r_each n dec) (λ l, Forall fmt_wf l ∧ length l = n) list_repr.
Proof.
  induction n as [|n IH]; intros rd l rd' Hok H; simpl in H; simplify_result.
  - split; [split; [constructor|done]|by apply consumed_refl].
  - sound_steps.
    match goal with Hk : reader_ok ?rd, H : r_each n dec ?rd = Ok (?b, _) |- _ =>
      destruct (IH _ _ _ Hk H) as [[? <-] Hc'] end.
    split; [split; [by constructor|done]|]. unfold list_repr. rewrite bind_cons. solve_consumed.
Qed.

#[export] Instance fmt_list n : Format (w_each enc) (r_each n dec) := {|
  fmt_wf l := Forall fmt_wf l ∧ length l = n;
  fmt_repr := list_repr;
  fmt_writes := writes_list n;
  fmt_reads := reads_list n;
  fmt_sound := sound_list n;
|}.

End Combinators.

#[export] Instance fmt_optional_u64 : Format w_optional_u64 r_optional_u64 :=
  fmt_option (enc := w_u64) (dec := r_u64).
#[export] Instance fmt_optional_i64 : Format w_optional_i64 r_optional_i64 :=
  fmt_option (enc := w_i64) (dec := r_i64).

(** ** The message header *)

Definition header_repr (kind request_id : Z) : bytes :=
  PROTOCOL_MAGIC ++ le_bytes 2 PROTOCOL_VERSION ++ le_bytes 2 kind ++ le_bytes 8 request_id.

Lemma writes_header kind request_id :
  writes (w_header kind request_id) (header_repr kind request_id).
Proof. repeat apply writes_seq; apply writes_bytes. Qed.

Lemma zlen_header kind request_id : zlen (header_repr kind request_id) = 20.
Proof. unfold header_repr. autorewrite with zlen. done. Qed.

Lemma header_slices kind request_id body :
  let payload := header_repr kind request_id ++ body in
  slice_get payload 0 8 = Some PROTOCOL_MAGIC ∧
  slice_get payload 8 (8 + 2) = Some (le_bytes 2 PROTOCOL_VERSION) ∧
  slice_get payload 10 (10 + 2) = Some (le_bytes 2 kind) ∧
  slice_get payload 12 (12 + 8) = Some (le_bytes 8 request_id).
Proof.
  intros payload. unfold payload, header_repr. rewrite <-!app_assoc. split_and!.
  - by apply slice_get_prefix.
  - apply slice_get_app; by autorewrite with zlen.
  - rewrite (app_assoc PROTOCOL_MAGIC). apply slice_get_app; by autorewrite with zlen.
  - rewrite (app_assoc PROTOCOL_MAGIC), (app_assoc _ (le_bytes 2 kind)).
    apply slice_get_app; by autorewrite with zlen.
Qed.

(** A payload that starts with a current header is inspected to its fields. *)
Lemma inspect_header_repr kind request_id body :
  is_u64 request_id →
  inspect_request_header (header_repr kind request_id ++ body) =
  Ok {| header_request_id := request_id; header_version := PROTOCOL_VERSION;
        header_is_current_magic := true |}.
Proof.
  intros Hid. destruct (header_slices kind request_id body) as (H0 & H1 & _ & H3).
  unfold inspect_request_header, read_u16_at, read_u64_at. rewrite H0, H1, H3. simpl.
  rewrite !le_value_bytes, !Z.mod_small; [done|unfold PROTOCOL_VERSION; simpl; lia|exact Hid].
Qed.

Lemma after_header_repr kind request_id body :
  is_u16 kind →
  Reader_after_header (header_repr kind request_id ++ body) =
  Ok {| rd_payload := header_repr kind request_id ++ body; rd_cursor := 20; rd_kind := kind |}.
Proof.
  intros Hk. destruct (header_slices kind request_id body) as (_ & _ & H2 & _).
  unfold Reader_after_header, read_u16_at. rewrite H2. simpl.
  rewrite le_value_bytes, Z.mod_small; [done|exact Hk].
Qed.

Lemma slice_u8 payload lo hi b :
  Forall is_u8 payload → slice_get payload lo hi = Some b → Forall is_u8 b ∧ zlen b = hi - lo.
Proof.
  intros H8 (_ & pre & post & -> & <- & ->)%slice_get_Some.
  apply Forall_app in H8 as [_ [? _]%Forall_app]. split; [done|lia].
Qed.

(** Conversely, a payload inspected as current starts with the header of its fields. *)
Lemma inspect_header_sound payload request_id rd :
  Forall is_u8 payload →
  inspect_request_header payload =
    Ok {| header_request_id := request_id; header_version := PROTOCOL_VERSION;
          header_is_current_magic := true |} →
  Reader_after_header payload = Ok rd →
  is_u64 request_id ∧ is_u16 (rd_kind rd) ∧
  ∃ body, payload = header_repr (rd_kind rd) request_id ++ body ∧
    rd = {| rd_payload := payload; rd_cursor := 20; rd_kind := rd_kind rd |}.
Proof.
  unfold inspect_request_header, Reader_after_header, read_u16_at, read_u64_at.
  intros H8 H Hk. simplify_result.
  destruct (_ && _) in H; [done|]. simplify_result. simplify_eq.
  match goal with H : bool_decide _ = true |- _ => apply bool_decide_eq_true in H; subst end.
  match goal with
  | H1 : slice_get payload 0 8 = Some _, H2 : slice_get payload 8 _ = Some ?v,
    H3 : slice_get payload 10 _ = Some ?k, H4 : slice_get payload 12 _ = Some ?i |- _ =>
    destruct (slice_u8 _ _ _ _ H8 H2) as [Hv8 Hv]; destruct (slice_u8 _ _ _ _ H8 H3) as [Hk8 Hkl];
    destruct (slice_u8 _ _ _ _ H8 H4) as [Hi8 Hi];
    pose proof (slice_get_join _ _ _ _ _ _ H3 H4) as Hj; simpl in H2, Hj;
    pose proof (slice_get_join _ _ _ _ _ _ H2 Hj) as Hj';
    pose proof (slice_get_join _ _ _ _ _ _ H1 Hj') as Hall; rename v into vs, k into ks, i into ids
  end.
  simpl rd_kind. split_and!.
  - pose proof (le_value_range ids Hi8) as Hr. by rewrite Hi in Hr.
  - pose proof (le_value_range ks Hk8) as Hr. by rewrite Hkl in Hr.
  - apply slice_get_Some in Hall as (_ & pre & post & -> & Hp & _). apply zlen_zero in Hp as ->.
    exists post. split; [|done]. unfold header_repr.
    match goal with H : le_value vs = PROTOCOL_VERSION |- _ => rewrite <-H end.
    by rewrite !le_bytes_value'.
Qed.

Lemma header_reader_ok kind request_id body :
  Forall is_u8 (header_repr kind request_id ++ body) →
  zlen (header_repr kind request_id ++ body) ≤ USIZE_MAX →
  let rd := {| rd_payload := header_repr kind request_id ++ body; rd_cursor := 20;
               rd_kind := kind |} in
  reader_ok rd ∧ rest rd = body.
Proof.
  intros H8 Hl. pose proof (zlen_header kind request_id) as Hh. split.
  - split; cbn [rd_payload rd_cursor]; [done| |done]. rewrite zlen_app, Hh. len.
  - unfold rest. cbn [rd_payload rd_cursor]. replace (Z.to_nat 20) with (length (header_repr kind request_id))
      by (unfold zlen in Hh; lia). by rewrite drop_app_length.
Qed.

(** A message is a header and a body.  What a reader of the body reads up to [r_finish] is the whole
    of the payload behind the header, in both directions. *)
Lemma message_reads {A} kind id bs (m : R A) a :
  Forall is_u8 (header_repr kind id ++ bs) → zlen (header_repr kind id ++ bs) ≤ USIZE_MAX →
  reads m bs a →
  ∃ rd', m {| rd_payload := header_repr kind id ++ bs; rd_cursor := 20; rd_kind := kind |}
           = Ok (a, rd') ∧ r_finish rd' = Ok ((), rd').
Proof.
  intros H8 Hl Hm. destruct (header_reader_ok _ _ _ H8 Hl) as [Hok Hr].
  eexists. split; [apply (Hm _ [] Hok); by rewrite Hr, app_nil_r|].
  unfold r_finish, advance. cbn [rd_payload rd_cursor].
  by rewrite zlen_app, zlen_header, Z.eqb_refl.
Qed.

Lemma message_sound payload id rd rd' bs u :
  Forall is_u8 payload → zlen payload ≤ USIZE_MAX →
  inspect_request_header payload =
    Ok {| header_request_id := id; header_version := PROTOCOL_VERSION;
          header_is_current_magic := true |} →
  Reader_after_header payload = Ok rd → r_finish rd' = Ok u →
  (reader_ok rd → consumed rd rd' bs) →
  is_u64 id ∧ payload = header_repr (rd_kind rd) id ++ bs.
Proof.
  intros H8 Hl Hh Ha Hf Hc.
  destruct (inspect_header_sound _ _ _ H8 Hh Ha) as (Hi & Hk & body & -> & Hrd).
  split; [done|]. destruct (header_reader_ok _ _ _ H8 Hl) as [Hok Hr].
  rewrite <-Hrd in Hok, Hr. destruct (Hc Hok) as [-> Hrest [_ Hcur _]]. rewrite Hr in Hrest.
  rewrite Hrest. f_equal.
  unfold r_finish in Hf. destruct (_ =? _) eqn:E in Hf; [|done]. unfold rest.
  rewrite drop_ge; [apply app_nil_r|]. unfold zlen in *. lia.
Qed.

(** ** Enumerations written as codes *)

Section Codes.
Context {A : Type} {enc : Z → W unit} {dec : R Z} `{F : !Format enc dec}.
Context (code : A → Z) (decode : Z → WireResult A).

Definition w_code (a : A) : W unit := enc (code a).
Definition r_code : R A := z ← dec; st_lift (decode z).

(** The two halves of a code table agree. *)
Record code_table : Prop := {
  code_wf a : fmt_wf (code a);
  code_decode a : decode (code a) = Ok a;
  code_sound z a : decode z = Ok a → z = code a;
}.

Lemma writes_code : code_table → ∀ a, True → writes (w_code a) (fmt_repr (code a)).
Proof. intros [Hwf _ _] a _. exact (fmt_writes (code a) (Hwf a)). Qed.
Lemma reads_code : code_table → ∀ a, True → reads r_code (fmt_repr (code a)) a.
Proof. intros [Hwf Hd _] a _. eapply reads_bind_lift; [by apply fmt_reads|done]. Qed.
Lemma sound_code : code_table → sound r_code (λ _, True) (λ a, fmt_repr (code a)).
Proof.
  intros [_ _ Hs] rd a rd' Hok H. unfold r_code in H. simplify_result. sound_steps.
  match goal with H : decode _ = Ok _ |- _ => apply Hs in H as -> end. done.
Qed.

Definition fmt_code (T : code_table) : Format w_code r_code := {|
  fmt_wf := λ _, True;
  fmt_repr := λ a, fmt_repr (code a);
  fmt_writes := writes_code T;
  fmt_reads := reads_code T;
  fmt_sound := sound_code T;
|}.

End Codes.

(** ** Newtypes *)

Section Newtype.
Context {A B : Type} {enc : A → W unit} {dec : R A} `{F : !Format enc dec}.
Context (wrap : A → B) (unwrap : B → A).
Context (wrap_unwrap : ∀ b, wrap (unwrap b) = b) (unwrap_wrap : ∀ a, unwrap (wrap a) = a).

Lemma reads_newtype b : fmt_wf (unwrap b) →
  reads (a ← dec; mret (wrap a)) (fmt_repr (unwrap b)) b.
Proof.
  intros H. pose proof (reads_map dec wrap (unwrap b) (fmt_repr (unwrap b))) as Hr.
  rewrite wrap_unwrap in Hr. apply Hr. by apply fmt_reads.
Qed.

Definition fmt_newtype : Format (λ b, enc (unwrap b)) (a ← dec; mret (wrap a)) := {|
  fmt_wf := λ b, fmt_wf (unwrap b);
  fmt_repr := λ b, fmt_repr (unwrap b);
  fmt_writes := λ b, fmt_writes (unwrap b);
  fmt_reads := reads_newtype;
  fmt_sound := sound_map dec wrap fmt_wf fmt_repr _ _ fmt_sound
    (λ a H, conj (eq_rect_r fmt_wf H (unwrap_wrap a)) (f_equal fmt_repr (unwrap_wrap a)));
|}.

End Newtype.
