(* ===== verification/Codec.v ===== *)
(** * Formats of the protocol's composite values

    Models the composite methods of the [Writer] and [Reader] of [journal_broker/wire/codec.rs]
    (callers, roots, bindings, candidates, shared roots, outcomes, hand-offs and pending renames) and
    the code tables, each with its [Format]. *)

From S2P Require Import Prelude Text WireBase WirePath Wire CodecPrim.

(** ** Callers, roots, bindings and capabilities *)

Definition w_caller (caller : CallerClaim) : W unit :=
  w_u32 (caller_process_id caller);;
  w_u32 (caller_session_id caller);;
  w_bytes (caller_client_instance caller).

Definition r_caller : R CallerClaim :=
  process_id ← r_u32;
  session_id ← r_u32;
  client_instance ← r_array_16;
  mret {| caller_process_id := process_id;
          caller_session_id := session_id;
          caller_client_instance := client_instance |}.

Definition caller_repr (c : CallerClaim) : bytes :=
  le_bytes 4 (caller_process_id c) ++ le_bytes 4 (caller_session_id c) ++ caller_client_instance c.

Lemma writes_caller c : wf_caller c → writes (w_caller c) (caller_repr c).
Proof. intros (? & ? & ?). unshelve solve_writes; solve_wf. Qed.
Lemma reads_caller c : wf_caller c → reads r_caller (caller_repr c) c.
Proof. destruct c. intros (? & ? & ?). unshelve solve_reads; solve_wf. Qed.
Lemma sound_caller : sound r_caller wf_caller caller_repr.
Proof.
  intros rd c rd' Hok H. unfold r_caller in H. simplify_result. sound_steps.
  split; [done|]. unfold caller_repr. solve_consumed.
Qed.
#[export] Instance fmt_caller : Format w_caller r_caller := {|
  fmt_wf := wf_caller; fmt_repr := caller_repr;
  fmt_writes := writes_caller; fmt_reads := reads_caller; fmt_sound := sound_caller;
|}.

Definition w_root (root : RootAuthorization) : W unit :=
  w_string (root_root_id root);;
  w_u64 (root_root_generation root);;
  w_string (root_volume_id root);;
  w_byte_vec (root_root_identity root);;
  w_utf16 (root_canonical_root_utf16 root).

Definition r_root : R RootAuthorization :=
  root_id ← r_string MAX_ROOT_ID_BYTES;
  root_generation ← r_u64;
  volume_id ← r_string MAX_VOLUME_ID_BYTES;
  root_identity ← r_byte_vec 16;
  canonical_root_utf16 ← r_utf16 MAX_PATH_UTF16_UNITS;
  mret {| root_root_id := root_id;
          root_root_generation := root_generation;
          root_volume_id := volume_id;
          root_root_identity := root_identity;
          root_canonical_root_utf16 := canonical_root_utf16 |}.

Definition root_fits (r : RootAuthorization) : Prop :=
  is_wire_str MAX_ROOT_ID_BYTES (root_root_id r) ∧ is_u64 (root_root_generation r) ∧
  is_wire_str MAX_VOLUME_ID_BYTES (root_volume_id r) ∧ is_byte_vec 16 (root_root_identity r) ∧
  is_utf16_vec MAX_PATH_UTF16_UNITS (root_canonical_root_utf16 r).

Definition root_repr (r : RootAuthorization) : bytes :=
  string_repr (root_root_id r) ++ le_bytes 8 (root_root_generation r) ++
  string_repr (root_volume_id r) ++ byte_vec_repr (root_root_identity r) ++
  utf16_repr (root_canonical_root_utf16 r).

Lemma writes_root r : root_fits r → writes (w_root r) (root_repr r).
Proof. intros (? & ? & ? & ? & ?). unshelve solve_writes; solve_wf. Qed.
Lemma reads_root r : root_fits r → reads r_root (root_repr r) r.
Proof. destruct r. intros (? & ? & ? & ? & ?). unshelve solve_reads; solve_wf. Qed.
Lemma sound_root : sound r_root root_fits root_repr.
Proof.
  intros rd c rd' Hok H. unfold r_root in H. simplify_result. sound_steps.
  split; [done|]. unfold root_repr. solve_consumed.
Qed.
#[export] Instance fmt_root : Format w_root r_root := {|
  fmt_wf := root_fits; fmt_repr := root_repr;
  fmt_writes := writes_root; fmt_reads := reads_root; fmt_sound := sound_root;
|}.

Definition w_binding (binding : ResponseBinding) : W unit :=
  w_bytes (binding_client_instance binding);;
  w_string (binding_root_id binding);;
  w_u64 (binding_root_generation binding);;
  w_string (binding_volume_id binding).

Definition r_binding : R ResponseBinding :=
  client_instance ← r_array_16;
  root_id ← r_string MAX_ROOT_ID_BYTES;
  root_generation ← r_u64;
  volume_id ← r_string MAX_VOLUME_ID_BYTES;
  mret {| binding_client_instance := client_instance;
          binding_root_id := root_id;
          binding_root_generation := root_generation;
          binding_volume_id := volume_id |}.

Definition binding_fits (b : ResponseBinding) : Prop :=
  is_array 16 (binding_client_instance b) ∧ is_wire_str MAX_ROOT_ID_BYTES (binding_root_id b) ∧
  is_u64 (binding_root_generation b) ∧ is_wire_str MAX_VOLUME_ID_BYTES (binding_volume_id b).

Definition binding_repr (b : ResponseBinding) : bytes :=
  binding_client_instance b ++ string_repr (binding_root_id b) ++
  le_bytes 8 (binding_root_generation b) ++ string_repr (binding_volume_id b).

Lemma writes_binding b : binding_fits b → writes (w_binding b) (binding_repr b).
Proof. intros (? & ? & ? & ?). unshelve solve_writes; solve_wf. Qed.
Lemma reads_binding b : binding_fits b → reads r_binding (binding_repr b) b.
Proof. destruct b. intros (? & ? & ? & ?). unshelve solve_reads; solve_wf. Qed.
Lemma sound_binding : sound r_binding binding_fits binding_repr.
Proof.
  intros rd c rd' Hok H. unfold r_binding in H. simplify_result. sound_steps.
  split; [done|]. unfold binding_repr. solve_consumed.
Qed.
#[export] Instance fmt_binding : Format w_binding r_binding := {|
  fmt_wf := binding_fits; fmt_repr := binding_repr;
  fmt_writes := writes_binding; fmt_reads := reads_binding; fmt_sound := sound_binding;
|}.

Definition w_root_capability (capability : RootCapability) : W unit :=
  w_bytes (capability_bytes capability).
Definition r_root_capability : R RootCapability :=
  b ← r_array_32; mret {| capability_bytes := b |}.

#[export] Instance fmt_root_capability : Format w_root_capability r_root_capability :=
  fmt_newtype (dec := r_array_32) Build_RootCapability capability_bytes
    (λ b, match b with Build_RootCapability _ => eq_refl end) (λ a, eq_refl).

(** ** Code tables *)

Definition capability_code (value : JournalCapability) : Z :=
  match value with Supported => 1 | LiveOnly => 2 end.

Definition decode_capability (value : Z) : WireResult JournalCapability :=
  match value with
  | 1 => Ok Supported
  | 2 => Ok LiveOnly
  | _ => Err (InvalidValue "journal_capability")
  end.

Definition candidate_kind_code (value : CandidateKind) : Z :=
  match value with KindPath => 1 | KindSubtree => 2 | KindRename => 3 end.

Definition decode_candidate_kind (value : Z) : WireResult CandidateKind :=
  match value with
  | 1 => Ok KindPath
  | 2 => Ok KindSubtree
  | 3 => Ok KindRename
  | _ => Err (InvalidValue "candidate_kind")
  end.

Definition failure_code (value : BrokerFailureCode) : Z :=
  match value with
  | ProtocolMismatch => 1
  | MalformedFrame => 2
  | RequestTooLarge => 3
  | CallerRejected => 4
  | RootUnauthorized => 5
  | RootIdentityMismatch => 6
  | VolumeMismatch => 7
  | JournalUnavailable => 8
  | JournalDiscontinuous => 9
  | RecordUnsupported => 10
  | EvidenceLimitExceeded => 11
  | TimedOut => 12
  | Cancelled => 13
  | RequestNotActive => 14
  | ActiveLimitExceeded => 15
  | BackendUnavailable => 16
  | Internal => 17
  | TerminalDeliveryBackpressure => 18
  end.

Definition decode_failure_code (value : Z) : WireResult BrokerFailureCode :=
  match value with
  | 1 => Ok ProtocolMismatch
  | 2 => Ok MalformedFrame
  | 3 => Ok RequestTooLarge
  | 4 => Ok CallerRejected
  | 5 => Ok RootUnauthorized
  | 6 => Ok RootIdentityMismatch
  | 7 => Ok VolumeMismatch
  | 8 => Ok JournalUnavailable
  | 9 => Ok JournalDiscontinuous
  | 10 => Ok RecordUnsupported
  | 11 => Ok EvidenceLimitExceeded
  | 12 => Ok TimedOut
  | 13 => Ok Cancelled
  | 14 => Ok RequestNotActive
  | 15 => Ok ActiveLimitExceeded
  | 16 => Ok BackendUnavailable
  | 17 => Ok Internal
  | 18 => Ok TerminalDeliveryBackpressure
  | _ => Err (InvalidValue "failure_code")
  end.

#[local] Ltac solve_table :=
  split; [intros []; by vm_compute | by intros [] | intros z a; cbv; repeat case_match; congruence].

Lemma capability_table : code_table (enc := w_u8) (dec := r_u8) capability_code decode_capability.
Proof. solve_table. Qed.
Lemma candidate_kind_table :
  code_table (enc := w_u8) (dec := r_u8) candidate_kind_code decode_candidate_kind.
Proof. solve_table. Qed.
Lemma failure_table : code_table (enc := w_u16) (dec := r_u16) failure_code decode_failure_code.
Proof. solve_table. Qed.

Definition w_capability := w_code (enc := w_u8) capability_code.
Definition r_capability := r_code (dec := r_u8) decode_capability.
Definition w_candidate_kind := w_code (enc := w_u8) candidate_kind_code.
Definition r_candidate_kind := r_code (dec := r_u8) decode_candidate_kind.
Definition w_failure_code := w_code (enc := w_u16) failure_code.
Definition r_failure_code := r_code (dec := r_u16) decode_failure_code.

#[export] Instance fmt_capability : Format w_capability r_capability :=
  fmt_code _ _ capability_table.
#[export] Instance fmt_candidate_kind : Format w_candidate_kind r_candidate_kind :=
  fmt_code _ _ candidate_kind_table.
#[export] Instance fmt_failure_code : Format w_failure_code r_failure_code :=
  fmt_code _ _ failure_table.

Definition w_failure (failure : BrokerFailure) : W unit :=
  w_failure_code (failure_failure_code failure).
Definition r_failure : R BrokerFailure :=
  code ← r_failure_code; mret {| failure_failure_code := code |}.
#[export] Instance fmt_failure : Format w_failure r_failure :=
  fmt_newtype (dec := r_failure_code) Build_BrokerFailure failure_failure_code
    (λ b, match b with Build_BrokerFailure _ => eq_refl end) (λ a, eq_refl).

(** ** Scopes and candidates *)

Definition w_scope (scope : CandidateScope) : W unit :=
  match scope with
  | ScopeRoot => w_u8 0
  | ScopeRelativePath path => w_u8 1;; w_string path
  end.

Definition r_scope : R CandidateScope :=
  tag ← r_u8;
  if tag =? 0 then mret ScopeRoot
  else if tag =? 1 then
    path ← r_string (MAX_PATH_UTF16_UNITS * 3); mret (ScopeRelativePath path)
  else r_fail (InvalidValue "candidate_scope").

Definition scope_fits (s : CandidateScope) : Prop :=
  match s with ScopeRoot => True | ScopeRelativePath p => is_wire_str (MAX_PATH_UTF16_UNITS * 3) p end.

Definition scope_repr (s : CandidateScope) : bytes :=
  match s with ScopeRoot => [0] | ScopeRelativePath p => [1] ++ string_repr p end.

Lemma writes_scope s : scope_fits s → writes (w_scope s) (scope_repr s).
Proof.
  destruct s as [|p]; simpl; intros H; [apply writes_bytes|].
  change (1 :: string_repr p) with ([1] ++ string_repr p).
  apply writes_seq; [apply writes_bytes|by eapply writes_string].
Qed.
Lemma reads_scope s : scope_fits s → reads r_scope (scope_repr s) s.
Proof.
  destruct s as [|p]; unfold scope_repr; intros H.
  - rewrite <-(app_nil_r [0]). eapply reads_bind; [by apply reads_u8|apply reads_ret].
  - eapply reads_bind; [by apply reads_u8|]. by apply (reads_map _ ScopeRelativePath), reads_string.
Qed.
Lemma sound_scope : sound r_scope scope_fits scope_repr.
Proof.
  intros rd s rd' Hok H. unfold r_scope in H. simplify_result.
  match goal with H : (if ?t =? 0 then _ else _) _ = _ |- _ =>
    destruct (Z.eqb_spec t 0) as [->|]; [|destruct (Z.eqb_spec t 1) as [->|]; [|done]] end;
    simplify_result; sound_steps; (split; [done|]); [done|].
  unfold scope_repr. solve_consumed.
Qed.
#[export] Instance fmt_scope : Format w_scope r_scope := {|
  fmt_wf := scope_fits; fmt_repr := scope_repr;
  fmt_writes := writes_scope; fmt_reads := reads_scope; fmt_sound := sound_scope;
|}.

Definition w_candidate (candidate : BrokerCandidate) : W unit :=
  w_scope (cand_scope candidate);;
  w_optional w_scope (cand_previous_scope candidate);;
  w_byte_vec (cand_file_reference candidate);;
  w_i64 (cand_usn candidate);;
  w_candidate_kind (cand_kind candidate);;
  w_boolean (cand_is_directory candidate).

Definition r_candidate : R BrokerCandidate :=
  scope ← r_scope;
  previous_scope ← r_then r_scope;
  file_reference ← r_byte_vec 16;
  usn ← r_i64;
  kind ← r_candidate_kind;
  is_directory ← r_boolean;
  mret {| cand_scope := scope;
          cand_previous_scope := previous_scope;
          cand_file_reference := file_reference;
          cand_usn := usn;
          cand_kind := kind;
          cand_is_directory := is_directory |}.

Definition candidate_fits (c : BrokerCandidate) : Prop :=
  scope_fits (cand_scope c) ∧ from_option scope_fits True (cand_previous_scope c) ∧
  is_byte_vec 16 (cand_file_reference c) ∧ is_i64 (cand_usn c).

Definition candidate_repr (c : BrokerCandidate) : bytes :=
  scope_repr (cand_scope c) ++ option_repr (cand_previous_scope c) ++
  byte_vec_repr (cand_file_reference c) ++ le_bytes 8 (cand_usn c mod 2 ^ 64) ++
  [candidate_kind_code (cand_kind c)] ++ [if cand_is_directory c then 1 else 0].

Lemma writes_candidate c : candidate_fits c → writes (w_candidate c) (candidate_repr c).
Proof. intros (? & ? & ? & ?). unshelve solve_writes; solve_wf. Qed.
Lemma reads_candidate c : candidate_fits c → reads r_candidate (candidate_repr c) c.
Proof. destruct c. intros (? & ? & ? & ?). unshelve solve_reads; solve_wf. Qed.
Lemma sound_candidate : sound r_candidate candidate_fits candidate_repr.
Proof.
  intros rd c rd' Hok H. unfold r_candidate in H. simplify_result. sound_steps.
  split; [done|]. unfold candidate_repr. solve_consumed.
Qed.
#[export] Instance fmt_candidate : Format w_candidate r_candidate := {|
  fmt_wf := candidate_fits; fmt_repr := candidate_repr;
  fmt_writes := writes_candidate; fmt_reads := reads_candidate; fmt_sound := sound_candidate;
|}.

(** ** Shared roots and pending renames of a volume request *)

Definition w_shared_root (root : SharedJournalRootRequest) : W unit :=
  w_root (sr_root root);;
  w_root_capability (sr_root_capability root);;
  w_i64 (sr_start_usn root).

Definition r_shared_root : R SharedJournalRootRequest :=
  root ← r_root;
  root_capability ← r_root_capability;
  start_usn ← r_i64;
  mret {| sr_root := root; sr_root_capability := root_capability; sr_start_usn := start_usn |}.

Definition shared_root_fits (r : SharedJournalRootRequest) : Prop :=
  root_fits (sr_root r) ∧ wf_capability (sr_root_capability r) ∧ is_i64 (sr_start_usn r).

Definition shared_root_repr (r : SharedJournalRootRequest) : bytes :=
  root_repr (sr_root r) ++ capability_bytes (sr_root_capability r) ++
  le_bytes 8 (sr_start_usn r mod 2 ^ 64).

Lemma writes_shared_root r : shared_root_fits r → writes (w_shared_root r) (shared_root_repr r).
Proof. intros (? & ? & ?). unshelve solve_writes; solve_wf. Qed.
Lemma reads_shared_root r : shared_root_fits r → reads r_shared_root (shared_root_repr r) r.
Proof. destruct r. intros (? & ? & ?). unshelve solve_reads; solve_wf. Qed.
Lemma sound_shared_root : sound r_shared_root shared_root_fits shared_root_repr.
Proof.
  intros rd c rd' Hok H. unfold r_shared_root in H. simplify_result. sound_steps.
  split; [done|]. unfold shared_root_repr. solve_consumed.
Qed.
#[export] Instance fmt_shared_root : Format w_shared_root r_shared_root := {|
  fmt_wf := shared_root_fits; fmt_repr := shared_root_repr;
  fmt_writes := writes_shared_root; fmt_reads := reads_shared_root;
  fmt_sound := sound_shared_root;
|}.

Definition w_pending_request (pending : SharedJournalPendingRenameRequest) : W unit :=
  w_string (sp_carry_id pending);;
  w_string (sp_source_range_id pending);;
  w_root (sp_root pending);;
  w_optional w_root_capability (sp_root_capability pending);;
  w_byte_vec (sp_file_reference pending);;
  w_i64 (sp_old_usn pending);;
  w_string (sp_previous_relative_path pending);;
  w_boolean (sp_is_directory pending).

Definition r_pending_request : R SharedJournalPendingRenameRequest :=
  carry_id ← r_string 512;
  source_range_id ← r_string 512;
  root ← r_root;
  root_capability ← r_then r_root_capability;
  file_reference ← r_byte_vec 16;
  old_usn ← r_i64;
  previous_relative_path ← r_string (MAX_PATH_UTF16_UNITS * 4);
  is_directory ← r_boolean;
  mret {| sp_carry_id := carry_id;
          sp_source_range_id := source_range_id;
          sp_root := root;
          sp_root_capability := root_capability;
          sp_file_reference := file_reference;
          sp_old_usn := old_usn;
          sp_previous_relative_path := previous_relative_path;
          sp_is_directory := is_directory |}.

Definition pending_request_fits (p : SharedJournalPendingRenameRequest) : Prop :=
  is_wire_str 512 (sp_carry_id p) ∧ is_wire_str 512 (sp_source_range_id p) ∧
  root_fits (sp_root p) ∧ from_option wf_capability True (sp_root_capability p) ∧
  is_byte_vec 16 (sp_file_reference p) ∧ is_i64 (sp_old_usn p) ∧
  is_wire_str (MAX_PATH_UTF16_UNITS * 4) (sp_previous_relative_path p).

Definition pending_request_repr (p : SharedJournalPendingRenameRequest) : bytes :=
  string_repr (sp_carry_id p) ++ string_repr (sp_source_range_id p) ++ root_repr (sp_root p) ++
  option_repr (sp_root_capability p) ++ byte_vec_repr (sp_file_reference p) ++
  le_bytes 8 (sp_old_usn p mod 2 ^ 64) ++ string_repr (sp_previous_relative_path p) ++
  [if sp_is_directory p then 1 else 0].

Lemma writes_pending_request p :
  pending_request_fits p → writes (w_pending_request p) (pending_request_repr p).
Proof. intros (? & ? & ? & ? & ? & ? & ?). unshelve solve_writes; solve_wf. Qed.
Lemma reads_pending_request p :
  pending_request_fits p → reads r_pending_request (pending_request_repr p) p.
Proof. destruct p. intros (? & ? & ? & ? & ? & ? & ?). unshelve solve_reads; solve_wf. Qed.
Lemma sound_pending_request : sound r_pending_request pending_request_fits pending_request_repr.
Proof.
  intros rd c rd' Hok H. unfold r_pending_request in H. simplify_result. sound_steps.
  split; [done|]. unfold pending_request_repr. solve_consumed.
Qed.
#[export] Instance fmt_pending_request : Format w_pending_request r_pending_request := {|
  fmt_wf := pending_request_fits; fmt_repr := pending_request_repr;
  fmt_writes := writes_pending_request; fmt_reads := reads_pending_request;
  fmt_sound := sound_pending_request;
|}.

(** ** Hand-offs and pending renames of a volume response *)

Definition w_handoff (handoff : SharedJournalHandoff) : W unit :=
  w_binding (ho_previous_binding handoff);;
  w_binding (ho_current_binding handoff);;
  w_byte_vec (ho_file_reference handoff);;
  w_i64 (ho_usn handoff);;
  w_string (ho_previous_relative_path handoff);;
  w_string (ho_current_relative_path handoff);;
  w_boolean (ho_is_directory handoff);;
  w_optional w_string (ho_previous_carry_id handoff).

Definition r_handoff : R SharedJournalHandoff :=
  previous_binding ← r_binding;
  current_binding ← r_binding;
  file_reference ← r_byte_vec 16;
  usn ← r_i64;
  previous_relative_path ← r_string (MAX_PATH_UTF16_UNITS * 4);
  current_relative_path ← r_string (MAX_PATH_UTF16_UNITS * 4);
  is_directory ← r_boolean;
  previous_carry_id ← r_then (r_string 512);
  mret {| ho_previous_binding := previous_binding;
          ho_current_binding := current_binding;
          ho_file_reference := file_reference;
          ho_usn := usn;
          ho_previous_relative_path := previous_relative_path;
          ho_current_relative_path := current_relative_path;
          ho_is_directory := is_directory;
          ho_previous_carry_id := previous_carry_id |}.

Definition handoff_fits (h : SharedJournalHandoff) : Prop :=
  binding_fits (ho_previous_binding h) ∧ binding_fits (ho_current_binding h) ∧
  is_byte_vec 16 (ho_file_reference h) ∧ is_i64 (ho_usn h) ∧
  is_wire_str (MAX_PATH_UTF16_UNITS * 4) (ho_previous_relative_path h) ∧
  is_wire_str (MAX_PATH_UTF16_UNITS * 4) (ho_current_relative_path h) ∧
  from_option (is_wire_str 512) True (ho_previous_carry_id h).

Definition handoff_repr (h : SharedJournalHandoff) : bytes :=
  binding_repr (ho_previous_binding h) ++ binding_repr (ho_current_binding h) ++
  byte_vec_repr (ho_file_reference h) ++ le_bytes 8 (ho_usn h mod 2 ^ 64) ++
  string_repr (ho_previous_relative_path h) ++ string_repr (ho_current_relative_path h) ++
  [if ho_is_directory h then 1 else 0] ++
  option_repr (dec := r_string 512) (ho_previous_carry_id h).

Lemma writes_handoff h : handoff_fits h → writes (w_handoff h) (handoff_repr h).
Proof.
  intros (? & ? & ? & ? & ? & ? & ?). unfold w_handoff, handoff_repr.
  repeat first [ apply writes_seq; [first [ by apply writes_binding
                   | by eapply writes_byte_vec | by eapply writes_string | apply writes_bytes ]|]
               | by apply (writes_optional (dec := r_string 512)) ].
Qed.
Lemma reads_handoff h : handoff_fits h → reads r_handoff (handoff_repr h) h.
Proof. destruct h. intros (? & ? & ? & ? & ? & ? & ?). unshelve solve_reads; solve_wf. Qed.
Lemma sound_handoff : sound r_handoff handoff_fits handoff_repr.
Proof.
  intros rd c rd' Hok H. unfold r_handoff in H. simplify_result. sound_steps.
  split; [done|]. unfold handoff_repr. solve_consumed.
Qed.
#[export] Instance fmt_handoff : Format w_handoff r_handoff := {|
  fmt_wf := handoff_fits; fmt_repr := handoff_repr;
  fmt_writes := writes_handoff; fmt_reads := reads_handoff; fmt_sound := sound_handoff;
|}.

Definition w_pending (pending : SharedJournalPendingRename) : W unit :=
  w_binding (pr_binding pending);;
  w_byte_vec (pr_file_reference pending);;
  w_i64 (pr_old_usn pending);;
  w_string (pr_previous_relative_path pending);;
  w_boolean (pr_is_directory pending).

Definition r_pending : R SharedJournalPendingRename :=
  binding ← r_binding;
  file_reference ← r_byte_vec 16;
  old_usn ← r_i64;
  previous_relative_path ← r_string (MAX_PATH_UTF16_UNITS * 4);
  is_directory ← r_boolean;
  mret {| pr_binding := binding;
          pr_file_reference := file_reference;
          pr_old_usn := old_usn;
          pr_previous_relative_path := previous_relative_path;
          pr_is_directory := is_directory |}.

Definition pending_fits (p : SharedJournalPendingRename) : Prop :=
  binding_fits (pr_binding p) ∧ is_byte_vec 16 (pr_file_reference p) ∧ is_i64 (pr_old_usn p) ∧
  is_wire_str (MAX_PATH_UTF16_UNITS * 4) (pr_previous_relative_path p).

Definition pending_repr (p : SharedJournalPendingRename) : bytes :=
  binding_repr (pr_binding p) ++ byte_vec_repr (pr_file_reference p) ++
  le_bytes 8 (pr_old_usn p mod 2 ^ 64) ++ string_repr (pr_previous_relative_path p) ++
  [if pr_is_directory p then 1 else 0].

Lemma writes_pending p : pending_fits p → writes (w_pending p) (pending_repr p).
Proof. intros (? & ? & ? & ?). unshelve solve_writes; solve_wf. Qed.
Lemma reads_pending p : pending_fits p → reads r_pending (pending_repr p) p.
Proof. destruct p. intros (? & ? & ? & ?). unshelve solve_reads; solve_wf. Qed.
Lemma sound_pending : sound r_pending pending_fits pending_repr.
Proof.
  intros rd c rd' Hok H. unfold r_pending in H. simplify_result. sound_steps.
  split; [done|]. unfold pending_repr. solve_consumed.
Qed.
#[export] Instance fmt_pending : Format w_pending r_pending := {|
  fmt_wf := pending_fits; fmt_repr := pending_repr;
  fmt_writes := writes_pending; fmt_reads := reads_pending; fmt_sound := sound_pending;
|}.

(** ** Validated values fit their formats

    The readers bound every length they accept.  These lemmas show that the validators are at least
    as strict: on a validated value the bounds of the format ([*_fits]) say no more than Rust's
    types do ([wf_*]), so a side that validates before it encodes never sends what the other side
    cannot read. *)

Definition wf_shared_root (r : SharedJournalRootRequest) : Prop :=
  wf_root (sr_root r) ∧ wf_capability (sr_root_capability r) ∧ is_i64 (sr_start_usn r).
Definition wf_pending_request (p : SharedJournalPendingRenameRequest) : Prop :=
  is_str (sp_carry_id p) ∧ is_str (sp_source_range_id p) ∧ wf_root (sp_root p) ∧
  from_option wf_capability True (sp_root_capability p) ∧ Forall is_u8 (sp_file_reference p) ∧
  is_i64 (sp_old_usn p) ∧ is_str (sp_previous_relative_path p).
Definition wf_binding (b : ResponseBinding) : Prop :=
  is_array 16 (binding_client_instance b) ∧ is_str (binding_root_id b) ∧
  is_u64 (binding_root_generation b) ∧ is_str (binding_volume_id b).
Definition wf_scope (s : CandidateScope) : Prop :=
  match s with ScopeRoot => True | ScopeRelativePath p => is_str p end.
Definition wf_candidate (c : BrokerCandidate) : Prop :=
  wf_scope (cand_scope c) ∧ from_option wf_scope True (cand_previous_scope c) ∧
  Forall is_u8 (cand_file_reference c) ∧ is_i64 (cand_usn c).
Definition wf_handoff (h : SharedJournalHandoff) : Prop :=
  wf_binding (ho_previous_binding h) ∧ wf_binding (ho_current_binding h) ∧
  Forall is_u8 (ho_file_reference h) ∧ is_i64 (ho_usn h) ∧
  is_str (ho_previous_relative_path h) ∧ is_str (ho_current_relative_path h) ∧
  from_option is_str True (ho_previous_carry_id h).
Definition wf_pending (p : SharedJournalPendingRename) : Prop :=
  wf_binding (pr_binding p) ∧ Forall is_u8 (pr_file_reference p) ∧ is_i64 (pr_old_usn p) ∧
  is_str (pr_previous_relative_path p).

Lemma identifier_fits maximum s :
  maximum < 2 ^ 32 → validate_identifier s maximum = Ok () → is_wire_str maximum s ↔ is_str s.
Proof.
  intros Hm Hv%validate_identifier_len. split; [by intros []|]. intros H.
  assert (0 ≤ str_len s) by apply zlen_nonneg. split; [done|done|unfold is_uint; lia].
Qed.

Lemma relative_path_fits k s :
  3 ≤ k ≤ 4 → WirePath.validate_relative_path s = Ok () →
  is_wire_str (MAX_PATH_UTF16_UNITS * k) s ↔ is_str s.
Proof.
  intros Hk [Hu _ _ _]%WirePath.validate_relative_path_spec. split; [by intros []|]. intros H.
  pose proof (str_len_utf16 s H). assert (0 ≤ str_len s) by apply zlen_nonneg.
  unfold MAX_PATH_UTF16_UNITS in *. split; [done|lia|unfold is_uint; lia].
Qed.

Lemma reference_fits b : is_reference_len b = true → is_byte_vec 16 b ↔ Forall is_u8 b.
Proof.
  unfold is_reference_len. intros Hl. split; [by intros []|]. intros H.
  assert (zlen b = 8 ∨ zlen b = 16) as Hl' by lia.
  split; [done|destruct Hl' as [-> | ->]; lia|destruct Hl' as [-> | ->]; unfold is_uint; lia].
Qed.

Lemma root_path_fits u p :
  WirePath.validate_root_path u = Ok p → is_utf16_vec MAX_PATH_UTF16_UNITS u ↔ Forall is_u16 u.
Proof.
  unfold WirePath.validate_root_path, WirePath.normalize_absolute_path. intros Hp.
  destruct (_ || _) eqn:E in Hp; [done|]. split; [by intros []|]. intros H.
  apply orb_false_iff in E as [_ E]. unfold MAX_PATH_UTF16_UNITS in *. pose proof (zlen_nonneg u).
  split; [done|lia|unfold is_uint; lia].
Qed.

Create HintDb fits.
#[export] Hint Resolve identifier_fits relative_path_fits reference_fits root_path_fits : fits.
#[export] Hint Extern 1 (_ < _) => (unfold MAX_ROOT_ID_BYTES, MAX_VOLUME_ID_BYTES; lia) : fits.
#[export] Hint Extern 1 (_ ≤ _ ≤ _) => lia : fits.

Lemma and_iff_compat_both (A B C D : Prop) : (A ↔ C) → (B ↔ D) → (A ∧ B) ↔ (C ∧ D).
Proof. tauto. Qed.

(** Splits a validated record into its fields and closes each by the lemma of its format. *)
Ltac solve_fits :=
  repeat rewrite ?orb_false_iff, ?negb_false_iff in *; destruct_and?;
  repeat match goal with |- (_ ∧ _) ↔ (_ ∧ _) => apply and_iff_compat_both end;
  try reflexivity; eauto with fits.

Lemma root_valid_fits r : RootAuthorization_validate r = Ok () → root_fits r ↔ wf_root r.
Proof. unfold RootAuthorization_validate, root_fits, wf_root. intros H. simplify_result. solve_fits. Qed.
#[export] Hint Resolve root_valid_fits : fits.

Lemma binding_valid_fits b : ResponseBinding_validate b = Ok () → binding_fits b ↔ wf_binding b.
Proof. unfold ResponseBinding_validate, binding_fits, wf_binding. intros H. simplify_result. solve_fits. Qed.
#[export] Hint Resolve binding_valid_fits : fits.

Lemma scope_valid_fits s : CandidateScope_validate s = Ok () → scope_fits s ↔ wf_scope s.
Proof. destruct s; simpl; intros; [done|]. apply relative_path_fits; [lia|done]. Qed.
#[export] Hint Resolve scope_valid_fits : fits.

Lemma candidate_valid_fits c : BrokerCandidate_validate c = Ok () → candidate_fits c ↔ wf_candidate c.
Proof.
  unfold BrokerCandidate_validate, candidate_fits, wf_candidate. intros H. simplify_result. solve_fits.
  destruct (cand_previous_scope c); simpl; [|done]. simplify_result. eauto with fits.
Qed.
#[export] Hint Resolve candidate_valid_fits : fits.

Lemma shared_root_valid_fits r :
  SharedJournalRootRequest_validate r = Ok () → shared_root_fits r ↔ wf_shared_root r.
Proof.
  unfold SharedJournalRootRequest_validate, shared_root_fits, wf_shared_root.
  intros H. simplify_result. solve_fits.
Qed.

Lemma pending_request_valid_fits p v j e :
  SharedJournalPendingRenameRequest_validate p v j e = Ok () →
  pending_request_fits p ↔ wf_pending_request p.
Proof.
  unfold SharedJournalPendingRenameRequest_validate, pending_request_fits, wf_pending_request.
  intros H. simplify_result. solve_fits.
Qed.

Lemma handoff_valid_fits h i v e :
  SharedJournalHandoff_validate h i v e = Ok () → handoff_fits h ↔ wf_handoff h.
Proof.
  unfold SharedJournalHandoff_validate, handoff_fits, wf_handoff. intros H. simplify_result.
  solve_fits. destruct (ho_previous_carry_id h); simpl; [|done]. apply identifier_fits; [lia|done].
Qed.

Lemma pending_valid_fits p i v e :
  SharedJournalPendingRename_validate p i v e = Ok () → pending_fits p ↔ wf_pending p.
Proof.
  unfold SharedJournalPendingRename_validate, pending_fits, wf_pending. intros H. simplify_result.
  solve_fits.
Qed.

(** ** Every encoding is a list of bytes *)

Create HintDb u8.
Lemma u8_app (a b : bytes) : Forall is_u8 a → Forall is_u8 b → Forall is_u8 (a ++ b).
Proof. intros. by apply Forall_app. Qed.
Lemma u8_byte (b : Z) : 0 ≤ b < 256 → Forall is_u8 [b].
Proof. intros. repeat constructor; unfold is_uint; lia. Qed.
Lemma u8_cons (b : Z) l : 0 ≤ b < 256 → Forall is_u8 l → Forall is_u8 (b :: l).
Proof. intros. constructor; [unfold is_uint; lia|done]. Qed.
Lemma u8_array n b : is_array n b → Forall is_u8 b.
Proof. by intros []. Qed.
Lemma u8_byte_vec m b : is_byte_vec m b → Forall is_u8 (byte_vec_repr b).
Proof. intros []. apply u8_app; [apply le_bytes_u8|done]. Qed.
Lemma u8_string m s : is_wire_str m s → Forall is_u8 (string_repr s).
Proof. intros []. apply u8_app; [apply le_bytes_u8|by apply as_bytes_u8]. Qed.
#[export] Hint Resolve u8_app u8_byte u8_cons u8_array u8_byte_vec u8_string le_bytes_u8 : u8.

Lemma u8_bind {A : Type} (f : A → bytes) (P : A → Prop) l :
  (∀ x, P x → Forall is_u8 (f x)) → Forall P l → Forall is_u8 (l ≫= f).
Proof. intros Hf. induction 1; [constructor|]. cbn. by apply u8_app; auto. Qed.
Lemma u8_option {A : Type} {enc : A → W unit} {dec : R A} `{F : !Format enc dec} (o : option A) :
  from_option fmt_wf True o → (∀ a, fmt_wf a → Forall is_u8 (fmt_repr a)) → Forall is_u8 (option_repr o).
Proof. destruct o; cbn; intros; apply u8_cons; [lia|auto|lia|constructor]. Qed.

Ltac u8s := repeat lazymatch goal with
  | |- Forall is_u8 (_ ++ _) => apply u8_app
  | |- Forall is_u8 (le_bytes _ _) => apply le_bytes_u8
  | |- Forall is_u8 (string_repr _) => eapply u8_string; eassumption
  | |- Forall is_u8 (byte_vec_repr _) => eapply u8_byte_vec; eassumption
  | |- Forall is_u8 [if _ then _ else _] => apply u8_byte; case_match; lia
  | |- Forall is_u8 [_] => apply u8_byte; lia
  | |- Forall is_u8 (_ :: _) => apply u8_cons; [lia|]
  | H : is_array _ ?b |- Forall is_u8 ?b => exact (u8_array _ _ H)
  | H : wf_capability ?c |- Forall is_u8 (capability_bytes ?c) => exact (u8_array _ _ H)
  end.

Lemma u8_binding b : binding_fits b → Forall is_u8 (binding_repr b).
Proof. intros (? & ? & ? & ?). unfold binding_repr. u8s. Qed.

Lemma u8_scope s : scope_fits s → Forall is_u8 (scope_repr s).
Proof. destruct s; intros H; unfold scope_repr in *; cbn [app scope_fits] in *; u8s. Qed.

Lemma u8_candidate c : candidate_fits c → Forall is_u8 (candidate_repr c).
Proof.
  intros (? & ? & ? & ?). unfold candidate_repr. u8s; [by apply u8_scope| |].
  - apply u8_option; [done|]. apply u8_scope.
  - apply u8_byte. destruct (cand_kind c); cbn; lia.
Qed.

Lemma u8_handoff h : handoff_fits h → Forall is_u8 (handoff_repr h).
Proof.
  intros (? & ? & ? & ? & ? & ? & ?). unfold handoff_repr. u8s; try by apply u8_binding.
  apply u8_option; [done|]. exact (u8_string 512).
Qed.

Lemma u8_pending p : pending_fits p → Forall is_u8 (pending_repr p).
Proof. intros (? & ? & ? & ?). unfold pending_repr. u8s. by apply u8_binding. Qed.

Lemma u8_utf16 u : Forall is_u8 (utf16_repr u).
Proof. apply u8_app; [apply le_bytes_u8|]. induction u; cbn; [constructor|]. by apply u8_app; [apply le_bytes_u8|]. Qed.

Lemma u8_caller c : wf_caller c → Forall is_u8 (caller_repr c).
Proof. intros (? & ? & ?). unfold caller_repr. u8s. Qed.

Lemma u8_root r : root_fits r → Forall is_u8 (root_repr r).
Proof. intros (? & ? & ? & ? & ?). unfold root_repr. u8s. apply u8_utf16. Qed.

Lemma u8_shared_root r : shared_root_fits r → Forall is_u8 (shared_root_repr r).
Proof. intros (? & ? & ?). unfold shared_root_repr. u8s. by apply u8_root. Qed.

Lemma u8_pending_request p : pending_request_fits p → Forall is_u8 (pending_request_repr p).
Proof.
  intros (? & ? & ? & ? & ? & ? & ?). unfold pending_request_repr. u8s; [by apply u8_root|].
  apply u8_option; [done|]. intros a Ha. exact (u8_array _ _ Ha).
Qed.

Lemma u8_header kind request_id : Forall is_u8 (header_repr kind request_id).
Proof. unfold header_repr. u8s. apply (bool_decide_unpack _). by vm_compute. Qed.
#[export] Hint Resolve u8_binding u8_candidate u8_handoff u8_pending u8_caller u8_root u8_shared_root u8_pending_request : u8.
