(* ===== verification/Requests.v ===== *)
(** * Encoding and decoding of broker requests

    Models [encode_request] and [decode_request] of [journal_broker/wire/codec.rs] and proves that
    they are inverse to each other: what one side sends is what the other side reads, and no two
    byte strings decode to the same request. *)

From S2P Require Import Prelude Text WireBase WirePath Wire CodecPrim Codec.

Definition REGISTER_ROOT_REQUEST : Z := 4.
Definition READ_VOLUME_REQUEST : Z := 5.
Definition QUERY_REQUEST : Z := 1.
Definition READ_REQUEST : Z := 2.
Definition CANCEL_REQUEST : Z := 3.

(** ** Bodies *)

Definition w_register_root (request : RegisterRootRequest) : W unit :=
  w_caller (rr_caller request);;
  w_root (rr_root request);;
  w_u64 (rr_client_root_handle request);;
  w_u32 (rr_timeout_ms request).

Definition r_register_root : R RegisterRootRequest :=
  caller ← r_caller;
  root ← r_root;
  client_root_handle ← r_u64;
  timeout_ms ← r_u32;
  mret {| rr_caller := caller; rr_root := root; rr_client_root_handle := client_root_handle;
          rr_timeout_ms := timeout_ms |}.

Definition w_query (request : QueryJournalRequest) : W unit :=
  w_caller (qj_caller request);;
  w_root (qj_root request);;
  w_root_capability (qj_root_capability request);;
  w_u32 (qj_timeout_ms request).

Definition r_query : R QueryJournalRequest :=
  caller ← r_caller;
  root ← r_root;
  root_capability ← r_root_capability;
  timeout_ms ← r_u32;
  mret {| qj_caller := caller; qj_root := root; qj_root_capability := root_capability;
          qj_timeout_ms := timeout_ms |}.

Definition w_read_range (request : ReadJournalRangeRequest) : W unit :=
  w_caller (rd_caller request);;
  w_root (rd_root request);;
  w_root_capability (rd_root_capability request);;
  w_u64 (rd_journal_id request);;
  w_i64 (rd_start_usn request);;
  w_i64 (rd_end_usn request);;
  w_u32 (rd_max_records request);;
  w_u32 (rd_max_evidence_bytes request);;
  w_u32 (rd_timeout_ms request).

Definition r_read_range : R ReadJournalRangeRequest :=
  caller ← r_caller;
  root ← r_root;
  root_capability ← r_root_capability;
  journal_id ← r_u64;
  start_usn ← r_i64;
  end_usn ← r_i64;
  max_records ← r_u32;
  max_evidence_bytes ← r_u32;
  timeout_ms ← r_u32;
  mret {| rd_caller := caller; rd_root := root; rd_root_capability := root_capability;
          rd_journal_id := journal_id; rd_start_usn := start_usn; rd_end_usn := end_usn;
          rd_max_records := max_records; rd_max_evidence_bytes := max_evidence_bytes;
          rd_timeout_ms := timeout_ms |}.

Definition w_read_volume (request : ReadJournalVolumeRequest) : W unit :=
  w_caller (rv_caller request);;
  root_count ← st_lift (try_from_uint 8 (zlen (rv_roots request)) LengthOverflow);
  w_u8 root_count;;
  w_each w_shared_root (rv_roots request);;
  pending_count ← st_lift (try_from_uint 16 (zlen (rv_pending_renames request)) LengthOverflow);
  w_u16 pending_count;;
  w_each w_pending_request (rv_pending_renames request);;
  w_u64 (rv_journal_id request);;
  w_i64 (rv_end_usn request);;
  w_u32 (rv_max_records request);;
  w_u32 (rv_max_evidence_bytes request);;
  w_u32 (rv_timeout_ms request).

Definition r_read_volume : R ReadJournalVolumeRequest :=
  caller ← r_caller;
  count ← r_u8;
  if negb (in_range 1 MAX_SHARED_ROOTS count) then r_fail LengthExceeded
  else
    roots ← r_each (Z.to_nat count) r_shared_root;
    pending_count ← r_u16;
    if MAX_SHARED_PENDING_RENAMES <? pending_count then r_fail LengthExceeded
    else
      pending_renames ← r_each (Z.to_nat pending_count) r_pending_request;
      journal_id ← r_u64;
      end_usn ← r_i64;
      max_records ← r_u32;
      max_evidence_bytes ← r_u32;
      timeout_ms ← r_u32;
      mret {| rv_caller := caller; rv_roots := roots; rv_pending_renames := pending_renames;
              rv_journal_id := journal_id; rv_end_usn := end_usn; rv_max_records := max_records;
              rv_max_evidence_bytes := max_evidence_bytes; rv_timeout_ms := timeout_ms |}.

Definition w_cancel (c : CallerClaim * Z) : W unit := w_caller c.1;; w_u64 c.2.

Definition r_cancel : R (CallerClaim * Z) :=
  caller ← r_caller;
  target_request_id ← r_u64;
  mret (caller, target_request_id).

(** ** The two functions *)

Definition encode_request (request : BrokerRequest) : WireResult bytes :=
  let request_id := BrokerRequest_request_id request in
  if request_id =? 0 then Err (InvalidValue "request_id")
  else match request with
  | ReqRegisterRoot _ request =>
    RegisterRootRequest_validate request;;
    run_writer (w_header REGISTER_ROOT_REQUEST request_id;; w_register_root request)
  | ReqQueryJournal _ request =>
    QueryJournalRequest_validate request;;
    run_writer (w_header QUERY_REQUEST request_id;; w_query request)
  | ReqReadRange _ request =>
    ReadJournalRangeRequest_validate request;;
    run_writer (w_header READ_REQUEST request_id;; w_read_range request)
  | ReqReadVolume _ request =>
    ReadJournalVolumeRequest_validate request;;
    run_writer (w_header READ_VOLUME_REQUEST request_id;; w_read_volume request)
  | ReqCancel _ caller target_request_id =>
    CallerClaim_validate caller;;
    fail_if (target_request_id =? 0) (InvalidValue "target_request_id");;
    run_writer (w_header CANCEL_REQUEST request_id;; w_cancel (caller, target_request_id))
  end.

(** The match on the kind in [decode_request]. *)
Definition r_request (kind request_id : Z) : R BrokerRequest :=
  if kind =? REGISTER_ROOT_REQUEST then
    request ← r_register_root; mret (ReqRegisterRoot request_id request)
  else if kind =? QUERY_REQUEST then
    request ← r_query; mret (ReqQueryJournal request_id request)
  else if kind =? READ_REQUEST then
    request ← r_read_range; mret (ReqReadRange request_id request)
  else if kind =? READ_VOLUME_REQUEST then
    request ← r_read_volume; mret (ReqReadVolume request_id request)
  else if kind =? CANCEL_REQUEST then
    c ← r_cancel; mret (ReqCancel request_id c.1 c.2)
  else r_fail (UnknownKind kind).

(** The second match of [decode_request]. *)
Definition validate_request (request : BrokerRequest) : WireResult unit :=
  match request with
  | ReqRegisterRoot _ request => RegisterRootRequest_validate request
  | ReqQueryJournal _ request => QueryJournalRequest_validate request
  | ReqReadRange _ request => ReadJournalRangeRequest_validate request
  | ReqReadVolume _ request => ReadJournalVolumeRequest_validate request
  | ReqCancel _ caller target_request_id =>
    CallerClaim_validate caller;;
    fail_if (target_request_id =? 0) (InvalidValue "target_request_id")
  end.

Definition decode_request (payload : bytes) : WireResult BrokerRequest :=
  header ← inspect_request_header payload;
  if negb (header_is_current_magic header) then Err (UnsupportedVersion (header_version header))
  else if header_request_id header =? 0 then Err (InvalidValue "request_id")
  else if negb (header_version header =? PROTOCOL_VERSION)
  then Err (UnsupportedVersion (header_version header))
  else
    reader ← Reader_after_header payload;
    '(request, reader) ← r_request (rd_kind reader) (header_request_id header) reader;
    _ ← r_finish reader;
    validate_request request;;
    Ok request.

(** ** Formats of the bodies *)

Definition register_root_fits (q : RegisterRootRequest) : Prop :=
  wf_caller (rr_caller q) ∧ root_fits (rr_root q) ∧ is_u64 (rr_client_root_handle q) ∧
  is_u32 (rr_timeout_ms q).
Definition register_root_repr (q : RegisterRootRequest) : bytes :=
  caller_repr (rr_caller q) ++ root_repr (rr_root q) ++ le_bytes 8 (rr_client_root_handle q) ++
  le_bytes 4 (rr_timeout_ms q).

Lemma writes_register_root q :
  register_root_fits q → writes (w_register_root q) (register_root_repr q).
Proof. intros (? & ? & ? & ?). unshelve solve_writes; solve_wf. Qed.
Lemma reads_register_root q :
  register_root_fits q → reads r_register_root (register_root_repr q) q.
Proof. destruct q. intros (? & ? & ? & ?). unshelve solve_reads; solve_wf. Qed.
Lemma sound_register_root : sound r_register_root register_root_fits register_root_repr.
Proof.
  intros rd q rd' Hok H. unfold r_register_root in H. simplify_result. sound_steps.
  split; [done|]. unfold register_root_repr. solve_consumed.
Qed.
#[export] Instance fmt_register_root : Format w_register_root r_register_root := {|
  fmt_wf := register_root_fits; fmt_repr := register_root_repr;
  fmt_writes := writes_register_root; fmt_reads := reads_register_root;
  fmt_sound := sound_register_root;
|}.

Definition query_fits (q : QueryJournalRequest) : Prop :=
  wf_caller (qj_caller q) ∧ root_fits (qj_root q) ∧ wf_capability (qj_root_capability q) ∧
  is_u32 (qj_timeout_ms q).
Definition query_repr (q : QueryJournalRequest) : bytes :=
  caller_repr (qj_caller q) ++ root_repr (qj_root q) ++ capability_bytes (qj_root_capability q) ++
  le_bytes 4 (qj_timeout_ms q).

Lemma writes_query q : query_fits q → writes (w_query q) (query_repr q).
Proof. intros (? & ? & ? & ?). unshelve solve_writes; solve_wf. Qed.
Lemma reads_query q : query_fits q → reads r_query (query_repr q) q.
Proof. destruct q. intros (? & ? & ? & ?). unshelve solve_reads; solve_wf. Qed.
Lemma sound_query : sound r_query query_fits query_repr.
Proof.
  intros rd q rd' Hok H. unfold r_query in H. simplify_result. sound_steps.
  split; [done|]. unfold query_repr. solve_consumed.
Qed.
#[export] Instance fmt_query : Format w_query r_query := {|
  fmt_wf := query_fits; fmt_repr := query_repr;
  fmt_writes := writes_query; fmt_reads := reads_query; fmt_sound := sound_query;
|}.

Definition read_range_fits (q : ReadJournalRangeRequest) : Prop :=
  wf_caller (rd_caller q) ∧ root_fits (rd_root q) ∧ wf_capability (rd_root_capability q) ∧
  is_u64 (rd_journal_id q) ∧ is_i64 (rd_start_usn q) ∧ is_i64 (rd_end_usn q) ∧
  is_u32 (rd_max_records q) ∧ is_u32 (rd_max_evidence_bytes q) ∧ is_u32 (rd_timeout_ms q).
Definition read_range_repr (q : ReadJournalRangeRequest) : bytes :=
  caller_repr (rd_caller q) ++ root_repr (rd_root q) ++ capability_bytes (rd_root_capability q) ++
  le_bytes 8 (rd_journal_id q) ++ le_bytes 8 (rd_start_usn q mod 2 ^ 64) ++
  le_bytes 8 (rd_end_usn q mod 2 ^ 64) ++ le_bytes 4 (rd_max_records q) ++
  le_bytes 4 (rd_max_evidence_bytes q) ++ le_bytes 4 (rd_timeout_ms q).

Lemma writes_read_range q : read_range_fits q → writes (w_read_range q) (read_range_repr q).
Proof. intros (? & ? & ? & ? & ? & ? & ? & ? & ?). unshelve solve_writes; solve_wf. Qed.
Lemma reads_read_range q : read_range_fits q → reads r_read_range (read_range_repr q) q.
Proof. destruct q. intros (? & ? & ? & ? & ? & ? & ? & ? & ?). unshelve solve_reads; solve_wf. Qed.
Lemma sound_read_range : sound r_read_range read_range_fits read_range_repr.
Proof.
  intros rd q rd' Hok H. unfold r_read_range in H. simplify_result. sound_steps.
  split; [split_and!; done|]. unfold read_range_repr. solve_consumed.
Qed.
#[export] Instance fmt_read_range : Format w_read_range r_read_range := {|
  fmt_wf := read_range_fits; fmt_repr := read_range_repr;
  fmt_writes := writes_read_range; fmt_reads := reads_read_range; fmt_sound := sound_read_range;
|}.

Definition read_volume_fits (q : ReadJournalVolumeRequest) : Prop :=
  wf_caller (rv_caller q) ∧ 1 ≤ zlen (rv_roots q) ≤ MAX_SHARED_ROOTS ∧
  Forall shared_root_fits (rv_roots q) ∧
  zlen (rv_pending_renames q) ≤ MAX_SHARED_PENDING_RENAMES ∧
  Forall pending_request_fits (rv_pending_renames q) ∧
  is_u64 (rv_journal_id q) ∧ is_i64 (rv_end_usn q) ∧ is_u32 (rv_max_records q) ∧
  is_u32 (rv_max_evidence_bytes q) ∧ is_u32 (rv_timeout_ms q).
Definition read_volume_repr (q : ReadJournalVolumeRequest) : bytes :=
  caller_repr (rv_caller q) ++ [zlen (rv_roots q)] ++ list_repr (rv_roots q) ++
  le_bytes 2 (zlen (rv_pending_renames q)) ++ list_repr (rv_pending_renames q) ++
  le_bytes 8 (rv_journal_id q) ++ le_bytes 8 (rv_end_usn q mod 2 ^ 64) ++
  le_bytes 4 (rv_max_records q) ++ le_bytes 4 (rv_max_evidence_bytes q) ++
  le_bytes 4 (rv_timeout_ms q).

Lemma writes_read_volume q : read_volume_fits q → writes (w_read_volume q) (read_volume_repr q).
Proof.
  unfold read_volume_fits, MAX_SHARED_ROOTS, MAX_SHARED_PENDING_RENAMES.
  intros (? & ? & ? & ? & ? & ? & ? & ? & ? & ?). unfold w_read_volume, read_volume_repr.
  apply writes_seq; [by apply writes_caller|].
  eapply writes_lift; [apply try_from_uint_Ok; unfold is_uint; lia|].
  apply writes_seq; [apply writes_bytes|]. apply writes_seq; [by eapply writes_list|].
  eapply writes_lift; [apply try_from_uint_Ok; pose proof (zlen_nonneg (rv_pending_renames q)); unfold is_uint; lia|].
  apply writes_seq; [apply writes_bytes|]. apply writes_seq; [by eapply writes_list|].
  repeat apply writes_seq; apply writes_bytes.
Qed.

Lemma reads_read_volume q : read_volume_fits q → reads r_read_volume (read_volume_repr q) q.
Proof.
  unfold read_volume_fits, MAX_SHARED_ROOTS, MAX_SHARED_PENDING_RENAMES.
  destruct q as [caller roots pending journal_id end_usn mr me tm].
  intros (? & Hr & ? & Hp & ? & ? & ? & ? & ? & ?). unfold r_read_volume, read_volume_repr.
  cbn [rv_caller rv_roots rv_pending_renames rv_journal_id rv_end_usn rv_max_records
       rv_max_evidence_bytes rv_timeout_ms] in *.
  eapply reads_bind; [by apply reads_caller|].
  eapply reads_bind; [apply reads_u8; unfold is_uint; lia|].
  unfold in_range, MAX_SHARED_ROOTS, MAX_SHARED_PENDING_RENAMES.
  replace (negb _) with false by lia.
  eapply reads_bind; [apply reads_list; split; [done|unfold zlen; by rewrite Nat2Z.id]|].
  eapply reads_bind; [apply (reads_uint 2 16 _ eq_refl); pose proof (zlen_nonneg pending); unfold is_uint; lia|].
  replace (_ <? _) with false by lia.
  eapply reads_bind; [apply reads_list; split; [done|unfold zlen; by rewrite Nat2Z.id]|].
  unshelve solve_reads; solve_wf.
Qed.

Lemma sound_read_volume : sound r_read_volume read_volume_fits read_volume_repr.
Proof.
  intros rd q rd' Hok H. unfold r_read_volume in H. simplify_result.
  destruct (negb _) eqn:E1 in H; [done|]. simplify_result.
  destruct (_ <? _) eqn:E2 in H; [done|]. simplify_result. sound_steps.
  unfold in_range, MAX_SHARED_ROOTS in E1. unfold MAX_SHARED_PENDING_RENAMES in E2.
  repeat match goal with
  | H : Forall _ ?l ∧ length ?l = Z.to_nat ?n |- _ =>
    destruct H as [? Hl]; assert (n = zlen l) as -> by (unfold zlen; unfold is_uint in *; lia); clear Hl
  end.
  split; [split_and!; simpl; try done; unfold MAX_SHARED_ROOTS, MAX_SHARED_PENDING_RENAMES; lia|].
  unfold read_volume_repr. solve_consumed.
Qed.
#[export] Instance fmt_read_volume : Format w_read_volume r_read_volume := {|
  fmt_wf := read_volume_fits; fmt_repr := read_volume_repr;
  fmt_writes := writes_read_volume; fmt_reads := reads_read_volume;
  fmt_sound := sound_read_volume;
|}.

Definition cancel_fits (c : CallerClaim * Z) : Prop := wf_caller c.1 ∧ is_u64 c.2.
Definition cancel_repr (c : CallerClaim * Z) : bytes := caller_repr c.1 ++ le_bytes 8 c.2.

Lemma writes_cancel c : cancel_fits c → writes (w_cancel c) (cancel_repr c).
Proof. intros [? ?]. unshelve solve_writes; solve_wf. Qed.
Lemma reads_cancel c : cancel_fits c → reads r_cancel (cancel_repr c) c.
Proof. destruct c. intros [? ?]. unshelve solve_reads; solve_wf. Qed.
Lemma sound_cancel : sound r_cancel cancel_fits cancel_repr.
Proof.
  intros rd c rd' Hok H. unfold r_cancel in H. simplify_result. sound_steps.
  split; [done|]. unfold cancel_repr. solve_consumed.
Qed.
#[export] Instance fmt_cancel : Format w_cancel r_cancel := {|
  fmt_wf := cancel_fits; fmt_repr := cancel_repr;
  fmt_writes := writes_cancel; fmt_reads := reads_cancel; fmt_sound := sound_cancel;
|}.

(** ** Requests as one format *)

Definition request_kind (r : BrokerRequest) : Z :=
  match r with
  | ReqRegisterRoot _ _ => REGISTER_ROOT_REQUEST
  | ReqQueryJournal _ _ => QUERY_REQUEST
  | ReqReadRange _ _ => READ_REQUEST
  | ReqReadVolume _ _ => READ_VOLUME_REQUEST
  | ReqCancel _ _ _ => CANCEL_REQUEST
  end.

Definition request_fits (r : BrokerRequest) : Prop :=
  match r with
  | ReqRegisterRoot _ q => register_root_fits q
  | ReqQueryJournal _ q => query_fits q
  | ReqReadRange _ q => read_range_fits q
  | ReqReadVolume _ q => read_volume_fits q
  | ReqCancel _ caller target => cancel_fits (caller, target)
  end.

Definition request_repr (r : BrokerRequest) : bytes :=
  match r with
  | ReqRegisterRoot _ q => register_root_repr q
  | ReqQueryJournal _ q => query_repr q
  | ReqReadRange _ q => read_range_repr q
  | ReqReadVolume _ q => read_volume_repr q
  | ReqCancel _ caller target => cancel_repr (caller, target)
  end.

(** What Rust's types guarantee of a request. *)
Definition wf_request (r : BrokerRequest) : Prop :=
  is_u64 (BrokerRequest_request_id r) ∧
  match r with
  | ReqRegisterRoot _ q =>
    wf_caller (rr_caller q) ∧ wf_root (rr_root q) ∧ is_u64 (rr_client_root_handle q) ∧
    is_u32 (rr_timeout_ms q)
  | ReqQueryJournal _ q =>
    wf_caller (qj_caller q) ∧ wf_root (qj_root q) ∧ wf_capability (qj_root_capability q) ∧
    is_u32 (qj_timeout_ms q)
  | ReqReadRange _ q =>
    wf_caller (rd_caller q) ∧ wf_root (rd_root q) ∧ wf_capability (rd_root_capability q) ∧
    is_u64 (rd_journal_id q) ∧ is_i64 (rd_start_usn q) ∧ is_i64 (rd_end_usn q) ∧
    is_u32 (rd_max_records q) ∧ is_u32 (rd_max_evidence_bytes q) ∧ is_u32 (rd_timeout_ms q)
  | ReqReadVolume _ q =>
    wf_caller (rv_caller q) ∧ Forall wf_shared_root (rv_roots q) ∧
    Forall wf_pending_request (rv_pending_renames q) ∧
    is_u64 (rv_journal_id q) ∧ is_i64 (rv_end_usn q) ∧ is_u32 (rv_max_records q) ∧
    is_u32 (rv_max_evidence_bytes q) ∧ is_u32 (rv_timeout_ms q)
  | ReqCancel _ caller target => wf_caller caller ∧ is_u64 target
  end.

Lemma read_volume_valid_fits q :
  ReadJournalVolumeRequest_validate q = Ok () →
  read_volume_fits q ↔
  wf_caller (rv_caller q) ∧ Forall wf_shared_root (rv_roots q) ∧
  Forall wf_pending_request (rv_pending_renames q) ∧
  is_u64 (rv_journal_id q) ∧ is_i64 (rv_end_usn q) ∧ is_u32 (rv_max_records q) ∧
  is_u32 (rv_max_evidence_bytes q) ∧ is_u32 (rv_timeout_ms q).
Proof.
  unfold ReadJournalVolumeRequest_validate, read_volume_fits. intros H. simplify_result.
  assert (Forall shared_root_fits (rv_roots q) ↔ Forall wf_shared_root (rv_roots q)) as ->.
  { eapply Forall_iff_on; [exact shared_root_valid_fits|]. eapply result_foldl_Forall; [|done].
    intros s a s' Ha. unfold validate_shared_root in Ha. by simplify_result. }
  assert (Forall pending_request_fits (rv_pending_renames q) ↔
          Forall wf_pending_request (rv_pending_renames q)) as ->.
  { eapply (Forall_iff_on _ _
      (λ p, ∃ v j e, SharedJournalPendingRenameRequest_validate p v j e = Ok ())).
    - intros p (v & j & e & Hp). by eapply pending_request_valid_fits.
    - eapply result_foldl_Forall; [|done].
      intros s a s' Ha. unfold validate_shared_pending in Ha. simplify_result. eauto. }
  unfold in_range in *. naive_solver lia.
Qed.

Lemma request_valid_fits r :
  validate_request r = Ok () →
  is_u64 (BrokerRequest_request_id r) ∧ request_fits r ↔ wf_request r.
Proof.
  unfold wf_request. intros H. apply and_iff_compat_l. revert H.
  destruct r as [i q|i q|i q|i q|i c t]; simpl; [..|done]; intros H.
  4: by apply read_volume_valid_fits.
  1: unfold RegisterRootRequest_validate in H.
  2: unfold QueryJournalRequest_validate in H.
  3: unfold ReadJournalRangeRequest_validate in H.
  all: simplify_result; unfold register_root_fits, query_fits, read_range_fits; solve_fits.
Qed.

Lemma encode_request_fits r :
  request_fits r → BrokerRequest_request_id r ≠ 0 → validate_request r = Ok () →
  encode_request r = Ok (header_repr (request_kind r) (BrokerRequest_request_id r) ++ request_repr r).
Proof.
  intros Hf Hid Hv. unfold encode_request. rewrite (proj2 (Z.eqb_neq _ _)) by done.
  destruct r; cbn [validate_request request_kind request_repr BrokerRequest_request_id] in Hv |- *;
    simplify_result.
  all: repeat match goal with H : _ = Ok () |- _ => rewrite H; clear H end;
    cbn [mbind result_bind].
  5: match goal with H : (?t =? 0) = false |- _ => rewrite H end.
  all: apply run_writer_writes, writes_seq; [apply writes_header|].
  all: first [ by apply writes_register_root | by apply writes_query | by apply writes_read_range
             | by apply writes_read_volume | by apply writes_cancel ].
Qed.

Lemma encode_request_valid r payload :
  encode_request r = Ok payload →
  BrokerRequest_request_id r ≠ 0 ∧ validate_request r = Ok ().
Proof.
  unfold encode_request. destruct (Z.eqb_spec (BrokerRequest_request_id r) 0); [done|].
  destruct r; intros H; simplify_result; simpl; (split; [done|]); try done.
  apply result_seq_Ok. split; [done|]. by apply fail_if_Ok.
Qed.

Lemma reads_request r :
  request_fits r →
  reads (r_request (request_kind r) (BrokerRequest_request_id r)) (request_repr r) r.
Proof.
  destruct r as [i q|i q|i q|i q|i c t]; intros Hf; simpl; unfold r_request; simpl.
  - by apply (reads_map _ (ReqRegisterRoot i)), reads_register_root.
  - by apply (reads_map _ (ReqQueryJournal i)), reads_query.
  - by apply (reads_map _ (ReqReadRange i)), reads_read_range.
  - by apply (reads_map _ (ReqReadVolume i)), reads_read_volume.
  - by apply (reads_map _ (λ c, ReqCancel i c.1 c.2) (c, t)), reads_cancel.
Qed.

Lemma r_request_sound kind id rd r rd' :
  reader_ok rd → r_request kind id rd = Ok (r, rd') →
  request_kind r = kind ∧ BrokerRequest_request_id r = id ∧ request_fits r ∧
  consumed rd rd' (request_repr r).
Proof.
  intros Hok H. unfold r_request in H.
  repeat match goal with
  | H : (if ?k =? ?c then _ else _) _ = _ |- _ => destruct (Z.eqb_spec k c) as [->|]
  end; [..|done]; simplify_result; sound_steps; try done.
Qed.

Lemma decode_request_sound payload r :
  Forall is_u8 payload → zlen payload ≤ USIZE_MAX → decode_request payload = Ok r →
  wf_request r ∧ encode_request r = Ok payload.
Proof.
  intros H8 Hl H. unfold decode_request in H. simplify_result. destruct x as [id v [|]]; [|done].
  cbn in H. destruct (Z.eqb_spec id 0) as [|Hid]; [done|].
  destruct (Z.eqb_spec v PROTOCOL_VERSION) as [->|]; [|done]. cbn in H. simplify_result.
  destruct x0 as [q rd']. simplify_result.
  match goal with
  | Hh : inspect_request_header _ = _, Ha : Reader_after_header _ = _, Hm : r_request _ _ ?rd = _,
    Hf : r_finish _ = _, Hv : validate_request _ = _ |- _ =>
    pose proof (λ Hok, r_request_sound _ _ rd r _ Hok Hm) as Hs;
    destruct (message_sound payload id rd rd' (request_repr r) _
                H8 Hl Hh Ha Hf) as [Hi ->]; [naive_solver|];
    destruct (inspect_header_sound _ _ _ H8 Hh Ha) as (_ & _ & body & _ & Hrd);
    destruct Hs as (<- & <- & Hfit & _);
      [rewrite Hrd; by eapply header_reader_ok|]
  end.
  split; [by apply request_valid_fits|]. by apply encode_request_fits.
Qed.

Lemma decode_request_complete payload r :
  Forall is_u8 payload → zlen payload ≤ USIZE_MAX → wf_request r → encode_request r = Ok payload →
  decode_request payload = Ok r.
Proof.
  intros H8 Hl Hwf He. destruct (encode_request_valid _ _ He) as [Hid Hv].
  apply (request_valid_fits _ Hv) in Hwf as [Hi Hf].
  rewrite (encode_request_fits _ Hf Hid Hv) in He.
  assert (payload = header_repr (request_kind r) (BrokerRequest_request_id r) ++ request_repr r)
    as -> by congruence. clear He.
  destruct (message_reads _ _ _ _ _ H8 Hl (reads_request _ Hf)) as (rd' & Hm & Hfin).
  unfold decode_request. rewrite inspect_header_repr by done.
  cbn [mbind result_bind header_is_current_magic header_request_id header_version negb].
  rewrite (proj2 (Z.eqb_neq _ _)) by done. rewrite Z.eqb_refl. cbn [negb].
  rewrite after_header_repr by (destruct r; vm_compute; split; congruence).
  cbn [mbind result_bind rd_kind]. rewrite Hm. cbn [mbind result_bind]. rewrite Hfin. by rewrite Hv.
Qed.

Lemma u8_request r : request_fits r → Forall is_u8 (request_repr r).
Proof.
  destruct r; cbn [request_fits request_repr]; unfold register_root_fits, query_fits, read_range_fits, read_volume_fits, cancel_fits,
    register_root_repr, query_repr, read_range_repr, read_volume_repr, cancel_repr; cbn [fst snd]; intros; destruct_and?; u8s; eauto with u8.
  - apply u8_byte. unfold MAX_SHARED_ROOTS in *. lia.
  - by eapply u8_bind; [exact u8_shared_root|].
  - by eapply u8_bind; [exact u8_pending_request|].
Qed.

(** What validation accepts is encoded and read back. *)
Lemma encode_request_total r :
  wf_request r → BrokerRequest_request_id r ≠ 0 → validate_request r = Ok () →
  ∃ payload, encode_request r = Ok payload ∧ Forall is_u8 payload ∧ (zlen payload ≤ USIZE_MAX → decode_request payload = Ok r).
Proof.
  intros Hw Hid Hv. destruct (proj2 (request_valid_fits r Hv) Hw) as [_ Hfit]. pose proof (encode_request_fits r Hfit Hid Hv) as He.
  eexists. split; [exact He|]. assert (Forall is_u8 (header_repr (request_kind r) (BrokerRequest_request_id r) ++ request_repr r)) as H8
    by (apply u8_app; [apply u8_header|by apply u8_request]).
  split; [done|]. intros Hl. by apply decode_request_complete.
Qed.

(** C12: the request codec is total and exact.  Every request with a nonzero id that passes validation is encoded, and its
    bytes decode to it.  A byte string decodes to [r] if and only if encoding [r] gives
    that byte string: a request has one encoding, so no second payload can be mistaken for it.  [wf_request] states only
    what Rust's types guarantee; every length bound of the reader follows from validation. *)
Theorem request_roundtrip :
  (∀ r, wf_request r → BrokerRequest_request_id r ≠ 0 → validate_request r = Ok () →
     ∃ payload, encode_request r = Ok payload ∧ Forall is_u8 payload ∧
       (zlen payload ≤ USIZE_MAX → decode_request payload = Ok r)) ∧
  (∀ payload r, Forall is_u8 payload → zlen payload ≤ USIZE_MAX →
     decode_request payload = Ok r ↔ wf_request r ∧ encode_request r = Ok payload).
Proof.
  split; [exact encode_request_total|]. intros payload r H8 Hl. split; [by apply decode_request_sound|].
  intros []. by apply decode_request_complete.
Qed.

(** A cancellation of request 7 by process 42, and its 52 bytes. *)
Definition sample_request : BrokerRequest :=
  ReqCancel 9 {| caller_process_id := 42; caller_session_id := 1;
                 caller_client_instance := replicate 16 5 |} 7.
Definition sample_payload : bytes :=
  PROTOCOL_MAGIC ++ [5; 0; 3; 0; 9; 0; 0; 0; 0; 0; 0; 0; 42; 0; 0; 0; 1; 0; 0; 0]
  ++ replicate 16 5 ++ [7; 0; 0; 0; 0; 0; 0; 0].

Lemma request_roundtrip_witness : decode_request sample_payload = Ok sample_request.
Proof.
  assert (Forall is_u8 sample_payload) as H8 by (apply (bool_decide_unpack _); vm_compute; exact I).
  apply (proj2 request_roundtrip sample_payload sample_request H8); [vm_compute; discriminate|].
  split; [|vm_compute; reflexivity].
  split; [vm_compute; split; congruence|]. split; [|vm_compute; split; congruence].
  repeat split; try (vm_compute; congruence). apply (bool_decide_unpack _). vm_compute. exact I.
Defined.
