(* ===== verification/Responses.v ===== *)
(** * Encoding, decoding and validation of broker responses

    Models [validate_response], [encode_response] and [decode_response] of
    [journal_broker/wire/codec.rs].  The decoder meters what it reads: running totals of records and
    evidence bytes are checked after every element, so a hostile response is cut off early.  The
    theorems show that the meters never reject what validation accepts, with one exception made
    explicit, and that the response codec is exact. *)

From S2P Require Import Prelude Text WireBase WirePath Wire CodecPrim Codec.

Definition JOURNAL_RESPONSE : Z := 0x8001.
Definition READ_RESPONSE : Z := 0x8002.
Definition CANCEL_RESPONSE : Z := 0x8003.
Definition READ_ACCEPTED_RESPONSE : Z := 0x8004.
Definition ROOT_REGISTERED_RESPONSE : Z := 0x8005.
Definition READ_VOLUME_RESPONSE : Z := 0x8006.
Definition READ_VOLUME_ACCEPTED_RESPONSE : Z := 0x8007.
Definition FAILURE_RESPONSE : Z := 0x8fff.

(** ** Validation *)

Definition validate_identifier_for_codec (value : str) (maximum : Z) : WireResult unit :=
  fail_if (is_empty value || (maximum <? str_len value) || contains 0 value)
          (InvalidValue "identifier").

(** [total = total.checked_add(amount)?] *)
Definition add_amount (total : Z) (amount : option Z) : WireResult Z :=
  amount ← ok_or amount LengthOverflow;
  ok_or (checked_add USIZE_MAX total amount) LengthOverflow.

Definition add_evidence (total : Z) (candidate : BrokerCandidate) : WireResult Z :=
  add_amount total (BrokerCandidate_evidence_bytes candidate).

(** The running totals of the volume loops: records and evidence bytes. *)
Record Totals := { total_records : Z; total_evidence : Z }.

(** The totals part of one iteration of the outcome loop of [validate_response]. *)
Definition count_outcome (t : Totals) (outcome : SharedJournalRootOutcome) : WireResult Totals :=
  records ← add_amount (total_records t) (Some (zlen (out_candidates outcome)));
  evidence ← result_foldl add_evidence (total_evidence t) (out_candidates outcome);
  Ok {| total_records := records; total_evidence := evidence |}.

Definition count_pending (t : Totals) (pending : SharedJournalPendingRename) : WireResult Totals :=
  records ← add_amount (total_records t) (Some 1);
  evidence ← add_amount (total_evidence t) (SharedJournalPendingRename_evidence_bytes pending);
  Ok {| total_records := records; total_evidence := evidence |}.

(** One iteration of the outcome loop. *)
Definition validate_outcome_step (client_instance : bytes) (volume_id : str)
    (requested_end_usn max_records : Z) (state : list (str * Z) * Totals)
    (outcome : SharedJournalRootOutcome) : WireResult (list (str * Z) * Totals) :=
  let '(bindings, t) := state in
  SharedJournalRootOutcome_validate outcome requested_end_usn max_records;;
  let binding := out_binding outcome in
  let '(is_new, bindings') :=
    set_insert bindings (binding_root_id binding, binding_root_generation binding) in
  if negb (bool_decide (binding_client_instance binding = client_instance))
     || negb (bool_decide (binding_volume_id binding = volume_id))
     || negb is_new
  then Err (InvalidValue "shared_response_binding")
  else t' ← count_outcome t outcome; Ok (bindings', t').

(** The outcome a hand-off or pending rename is bound to. *)
Definition find_outcome (outcomes : list SharedJournalRootOutcome) (binding : ResponseBinding)
    : option SharedJournalRootOutcome :=
  find (λ outcome,
    bool_decide (binding_root_id (out_binding outcome) = binding_root_id binding)
    && (binding_root_generation (out_binding outcome) =? binding_root_generation binding)
    && bool_decide (binding_client_instance (out_binding outcome) = binding_client_instance binding)
    && bool_decide (binding_volume_id (out_binding outcome) = binding_volume_id binding)) outcomes.

(** [outcome.covered_until_usn.filter(|_| outcome.failure.is_none())] *)
Definition covered_without_failure (outcome : SharedJournalRootOutcome) : option Z :=
  match out_failure outcome with None => out_covered_until_usn outcome | Some _ => None end.

Definition validate_endpoint (outcomes : list SharedJournalRootOutcome) (binding : ResponseBinding)
    (usn : Z) (endpoint_error range_error : WireError) : WireResult unit :=
  outcome ← ok_or (find_outcome outcomes binding) endpoint_error;
  covered ← ok_or (covered_without_failure outcome) endpoint_error;
  fail_if ((usn <? out_requested_start_usn outcome) || (covered <=? usn)) range_error.

Definition validate_handoff_step (client_instance : bytes) (volume_id : str)
    (requested_end_usn : Z) (outcomes : list SharedJournalRootOutcome) (t : Totals)
    (handoff : SharedJournalHandoff) : WireResult Totals :=
  records ← add_amount (total_records t) (Some 1);
  SharedJournalHandoff_validate handoff client_instance volume_id requested_end_usn;;
  let endpoints :=
    if bool_decide (is_Some (ho_previous_carry_id handoff))
    then [ho_current_binding handoff]
    else [ho_previous_binding handoff; ho_current_binding handoff] in
  result_iter (λ endpoint, validate_endpoint outcomes endpoint (ho_usn handoff)
                 (InvalidValue "shared_handoff_endpoint") (InvalidValue "shared_handoff_range"))
              endpoints;;
  evidence ← add_amount (total_evidence t) (SharedJournalHandoff_evidence_bytes handoff);
  Ok {| total_records := records; total_evidence := evidence |}.

Definition validate_pending_step (client_instance : bytes) (volume_id : str)
    (requested_end_usn : Z) (outcomes : list SharedJournalRootOutcome) (t : Totals)
    (pending : SharedJournalPendingRename) : WireResult Totals :=
  SharedJournalPendingRename_validate pending client_instance volume_id requested_end_usn;;
  validate_endpoint outcomes (pr_binding pending) (pr_old_usn pending)
    (InvalidValue "shared_pending_rename_endpoint") (InvalidValue "shared_pending_rename_range");;
  count_pending t pending.

Definition validate_read_volume (client_instance : bytes) (volume_id : str)
    (journal_id requested_end_usn max_records max_evidence_bytes : Z)
    (outcomes : list SharedJournalRootOutcome) (handoffs : list SharedJournalHandoff)
    (pending_renames : list SharedJournalPendingRename) : WireResult unit :=
  fail_if (all_zero client_instance
           || negb (is_ok (validate_identifier_for_codec volume_id MAX_VOLUME_ID_BYTES))
           || (journal_id =? 0)
           || (requested_end_usn <? 0)
           || negb (in_range 1 MAX_RECORDS max_records)
           || negb (in_range 1 MAX_EVIDENCE_BYTES max_evidence_bytes)
           || negb (in_range 1 MAX_SHARED_ROOTS (zlen outcomes))
           || (MAX_SHARED_HANDOFFS <? zlen handoffs)
           || (MAX_SHARED_PENDING_RENAMES <? zlen pending_renames))
          (InvalidValue "shared_range");;
  state ← result_foldl (validate_outcome_step client_instance volume_id requested_end_usn max_records)
            ([], {| total_records := 0; total_evidence := 0 |}) outcomes;
  t ← result_foldl (validate_handoff_step client_instance volume_id requested_end_usn outcomes)
        state.2 handoffs;
  t ← result_foldl (validate_pending_step client_instance volume_id requested_end_usn outcomes)
        t pending_renames;
  fail_if ((max_records <? total_records t) || (max_evidence_bytes <? total_evidence t))
          LengthExceeded.

Definition validate_read_range (binding : ResponseBinding)
    (journal_id requested_start_usn requested_end_usn max_records max_evidence_bytes
     covered_until_usn : Z) (is_complete : bool) (candidates : list BrokerCandidate)
    : WireResult unit :=
  ResponseBinding_validate binding;;
  fail_if ((journal_id =? 0)
           || (requested_start_usn <? 0)
           || (requested_end_usn <=? requested_start_usn)
           || negb (in_range 1 MAX_RECORDS max_records)
           || negb (in_range 1 MAX_EVIDENCE_BYTES max_evidence_bytes)
           || (covered_until_usn <=? requested_start_usn)
           || (requested_end_usn <? covered_until_usn)
           || negb (Bool.eqb is_complete (covered_until_usn =? requested_end_usn))
           || (MAX_RECORDS <? zlen candidates))
          (InvalidValue "covered_range");;
  validate_candidates requested_start_usn covered_until_usn None candidates.

(** [o.is_none_or(f)] *)
Definition is_none_or {A} (f : A → bool) (o : option A) : bool :=
  match o with Some a => f a | None => true end.

(** [a.zip(b)] *)
Definition option_zip {A B} (a : option A) (b : option B) : option (A * B) :=
  match a, b with Some a, Some b => Some (a, b) | _, _ => None end.

Definition is_failure_response (response : BrokerResponse) : bool :=
  match response with RespFailure _ _ _ => true | _ => false end.

Definition validate_response (response : BrokerResponse) : WireResult unit :=
  fail_if ((BrokerResponse_request_id response =? 0) && negb (is_failure_response response))
          (InvalidValue "request_id");;
  match response with
  | RespRootRegistered _ binding root_capability =>
    ResponseBinding_validate binding;;
    RootCapability_validate root_capability
  | RespJournal _ binding capability journal_id first_usn next_usn =>
    ResponseBinding_validate binding;;
    match capability with
    | Supported =>
      fail_if (is_none_or (λ v, v =? 0) journal_id
               || is_none_or (λ v, v <? 0) first_usn
               || is_none_or (λ p, p.1 <? p.2) (option_zip next_usn first_usn))
              (InvalidValue "journal_metadata")
    | LiveOnly =>
      fail_if (bool_decide (is_Some journal_id) || bool_decide (is_Some first_usn)
               || bool_decide (is_Some next_usn))
              (InvalidValue "live_only_metadata")
    end
  | RespReadRange _ binding journal_id requested_start_usn requested_end_usn max_records
      max_evidence_bytes covered_until_usn is_complete candidates =>
    validate_read_range binding journal_id requested_start_usn requested_end_usn max_records
      max_evidence_bytes covered_until_usn is_complete candidates
  | RespReadRangeAccepted _ binding journal_id requested_start_usn requested_end_usn max_records
      max_evidence_bytes =>
    ResponseBinding_validate binding;;
    fail_if ((journal_id =? 0)
             || (requested_start_usn <? 0)
             || (requested_end_usn <=? requested_start_usn)
             || negb (in_range 1 MAX_RECORDS max_records)
             || negb (in_range 1 MAX_EVIDENCE_BYTES max_evidence_bytes))
            (InvalidValue "accepted_range")
  | RespReadVolumeAccepted _ client_instance volume_id journal_id requested_start_usn
      requested_end_usn root_count max_records max_evidence_bytes =>
    fail_if (all_zero client_instance
             || negb (is_ok (validate_identifier_for_codec volume_id MAX_VOLUME_ID_BYTES))
             || (journal_id =? 0)
             || negb (bool_decide (is_Some (JournalReadInterval_new requested_start_usn
                                              requested_end_usn)))
             || negb (in_range 1 MAX_SHARED_ROOTS root_count)
             || negb (in_range 1 MAX_RECORDS max_records)
             || negb (in_range 1 MAX_EVIDENCE_BYTES max_evidence_bytes))
            (InvalidValue "accepted_shared_range")
  | RespReadVolume _ client_instance volume_id journal_id requested_end_usn max_records
      max_evidence_bytes outcomes handoffs pending_renames =>
    validate_read_volume client_instance volume_id journal_id requested_end_usn max_records
      max_evidence_bytes outcomes handoffs pending_renames
  | RespCancelled _ client_instance target_request_id =>
    fail_if (all_zero client_instance || (target_request_id =? 0))
            (InvalidValue "cancelled_response")
  | RespFailure _ client_instance _ =>
    fail_if (match client_instance with Some v => all_zero v | None => false end)
            (InvalidValue "failure_binding")
  end.

(** ** Writing *)

(** [writer.u32(u32::try_from(l.len())?); for x in l { f(x)?; }] *)
Definition w_counted {A} (f : A → W unit) (l : list A) : W unit :=
  count ← st_lift (try_from_uint 32 (zlen l) LengthOverflow);
  w_u32 count;;
  w_each f l.

Definition w_outcome (outcome : SharedJournalRootOutcome) : W unit :=
  w_binding (out_binding outcome);;
  w_i64 (out_requested_start_usn outcome);;
  w_boolean (bool_decide (is_Some (out_failure outcome)));;
  match out_failure outcome with
  | Some failure => w_failure failure
  | None =>
    covered ← st_lift (ok_or (out_covered_until_usn outcome) (InvalidValue "shared_root_proof"));
    w_i64 covered;;
    w_boolean (out_is_complete outcome);;
    w_counted w_candidate (out_candidates outcome)
  end.

Definition w_response (response : BrokerResponse) : W unit :=
  match response with
  | RespRootRegistered request_id binding root_capability =>
    w_header ROOT_REGISTERED_RESPONSE request_id;;
    w_binding binding;;
    w_root_capability root_capability
  | RespJournal request_id binding capability journal_id first_usn next_usn =>
    w_header JOURNAL_RESPONSE request_id;;
    w_binding binding;;
    w_capability capability;;
    w_optional_u64 journal_id;;
    w_optional_i64 first_usn;;
    w_optional_i64 next_usn
  | RespReadRange request_id binding journal_id requested_start_usn requested_end_usn max_records
      max_evidence_bytes covered_until_usn is_complete candidates =>
    w_header READ_RESPONSE request_id;;
    w_binding binding;;
    w_u64 journal_id;;
    w_i64 requested_start_usn;;
    w_i64 requested_end_usn;;
    w_u32 max_records;;
    w_u32 max_evidence_bytes;;
    w_i64 covered_until_usn;;
    w_boolean is_complete;;
    w_counted w_candidate candidates
  | RespReadRangeAccepted request_id binding journal_id requested_start_usn requested_end_usn
      max_records max_evidence_bytes =>
    w_header READ_ACCEPTED_RESPONSE request_id;;
    w_binding binding;;
    w_u64 journal_id;;
    w_i64 requested_start_usn;;
    w_i64 requested_end_usn;;
    w_u32 max_records;;
    w_u32 max_evidence_bytes
  | RespReadVolumeAccepted request_id client_instance volume_id journal_id requested_start_usn
      requested_end_usn root_count max_records max_evidence_bytes =>
    w_header READ_VOLUME_ACCEPTED_RESPONSE request_id;;
    w_bytes client_instance;;
    w_string volume_id;;
    w_u64 journal_id;;
    w_i64 requested_start_usn;;
    w_i64 requested_end_usn;;
    w_u8 root_count;;
    w_u32 max_records;;
    w_u32 max_evidence_bytes
  | RespReadVolume request_id client_instance volume_id journal_id requested_end_usn max_records
      max_evidence_bytes outcomes handoffs pending_renames =>
    w_header READ_VOLUME_RESPONSE request_id;;
    w_bytes client_instance;;
    w_string volume_id;;
    w_u64 journal_id;;
    w_i64 requested_end_usn;;
    w_u32 max_records;;
    w_u32 max_evidence_bytes;;
    count ← st_lift (try_from_uint 8 (zlen outcomes) LengthOverflow);
    w_u8 count;;
    w_each w_outcome outcomes;;
    w_counted w_handoff handoffs;;
    w_counted w_pending pending_renames
  | RespCancelled request_id client_instance target_request_id =>
    w_header CANCEL_RESPONSE request_id;;
    w_bytes client_instance;;
    w_u64 target_request_id
  | RespFailure request_id client_instance failure =>
    w_header FAILURE_RESPONSE request_id;;
    w_optional w_bytes client_instance;;
    w_failure failure
  end.

Definition encode_response (response : BrokerResponse) : WireResult bytes :=
  validate_response response;;
  run_writer (w_response response).

(** ** Metered reading *)

Definition limit_evidence (total : Z) (amount : option Z) : WireResult Z :=
  total ← add_amount total amount;
  if MAX_EVIDENCE_BYTES <? total then Err LengthExceeded else Ok total.

Definition limit_records (total : Z) (amount : Z) : WireResult Z :=
  total ← add_amount total (Some amount);
  if MAX_RECORDS <? total then Err LengthExceeded else Ok total.

(** [let candidate = reader.candidate()?;] and the evidence check that follows it. *)
Definition r_metered_candidate (evidence : Z) : R (BrokerCandidate * Z) :=
  candidate ← r_candidate;
  evidence ← st_lift (limit_evidence evidence (BrokerCandidate_evidence_bytes candidate));
  mret (candidate, evidence).

Definition r_outcome (t : Totals) : R (SharedJournalRootOutcome * Totals) :=
  binding ← r_binding;
  requested_start_usn ← r_i64;
  has_failure ← r_boolean;
  if (has_failure : bool) then
    failure ← r_failure;
    mret ({| out_binding := binding; out_requested_start_usn := requested_start_usn;
             out_covered_until_usn := None; out_is_complete := false; out_candidates := [];
             out_failure := Some failure |}, t)
  else
    covered ← r_i64;
    is_complete ← r_boolean;
    count ← r_u32;
    candidate_count ← st_lift (try_from_uint 64 count LengthOverflow);
    records ← st_lift (limit_records (total_records t) candidate_count);
    p ← r_each_with (Z.to_nat candidate_count) r_metered_candidate (total_evidence t);
    mret ({| out_binding := binding; out_requested_start_usn := requested_start_usn;
             out_covered_until_usn := Some covered; out_is_complete := is_complete;
             out_candidates := p.1; out_failure := None |},
          {| total_records := records; total_evidence := p.2 |}).

(** The evidence and record checks after a hand-off or a pending rename. *)
Definition limit_totals (t : Totals) (amount : option Z) : WireResult Totals :=
  evidence ← limit_evidence (total_evidence t) amount;
  records ← limit_records (total_records t) 1;
  Ok {| total_records := records; total_evidence := evidence |}.

Definition r_metered_handoff (t : Totals) : R (SharedJournalHandoff * Totals) :=
  handoff ← r_handoff;
  t ← st_lift (limit_totals t (SharedJournalHandoff_evidence_bytes handoff));
  mret (handoff, t).

Definition r_metered_pending (t : Totals) : R (SharedJournalPendingRename * Totals) :=
  pending ← r_pending;
  t ← st_lift (limit_totals t (SharedJournalPendingRename_evidence_bytes pending));
  mret (pending, t).

(** A [u32] count bounded by [maximum], then that many metered elements. *)
Definition r_counted {A T} (maximum : Z) (f : T → R (A * T)) (t : T) : R (list A * T) :=
  n ← r_u32;
  count ← st_lift (try_from_uint 64 n LengthOverflow);
  if maximum <? count then r_fail LengthExceeded else r_each_with (Z.to_nat count) f t.

Definition r_read_range_response (request_id : Z) : R BrokerResponse :=
  binding ← r_binding;
  journal_id ← r_u64;
  requested_start_usn ← r_i64;
  requested_end_usn ← r_i64;
  max_records ← r_u32;
  max_evidence_bytes ← r_u32;
  covered_until_usn ← r_i64;
  is_complete ← r_boolean;
  p ← r_counted MAX_RECORDS r_metered_candidate 0;
  mret (RespReadRange request_id binding journal_id requested_start_usn requested_end_usn max_records
          max_evidence_bytes covered_until_usn is_complete p.1).

Definition r_read_volume_response (request_id : Z) : R BrokerResponse :=
  client_instance ← r_array_16;
  volume_id ← r_string MAX_VOLUME_ID_BYTES;
  journal_id ← r_u64;
  requested_end_usn ← r_i64;
  max_records ← r_u32;
  max_evidence_bytes ← r_u32;
  count ← r_u8;
  if negb (in_range 1 MAX_SHARED_ROOTS count) then r_fail LengthExceeded
  else
    outcomes ← r_each_with (Z.to_nat count) r_outcome {| total_records := 0; total_evidence := 0 |};
    handoffs ← r_counted MAX_SHARED_HANDOFFS r_metered_handoff outcomes.2;
    pending ← r_counted MAX_SHARED_PENDING_RENAMES r_metered_pending handoffs.2;
    mret (RespReadVolume request_id client_instance volume_id journal_id requested_end_usn max_records
            max_evidence_bytes outcomes.1 handoffs.1 pending.1).

(** The match on the kind in [decode_response]. *)
Definition r_response (kind request_id : Z) : R BrokerResponse :=
  if kind =? ROOT_REGISTERED_RESPONSE then
    binding ← r_binding;
    root_capability ← r_root_capability;
    mret (RespRootRegistered request_id binding root_capability)
  else if kind =? JOURNAL_RESPONSE then
    binding ← r_binding;
    capability ← r_capability;
    journal_id ← r_optional_u64;
    first_usn ← r_optional_i64;
    next_usn ← r_optional_i64;
    mret (RespJournal request_id binding capability journal_id first_usn next_usn)
  else if kind =? READ_RESPONSE then r_read_range_response request_id
  else if kind =? READ_ACCEPTED_RESPONSE then
    binding ← r_binding;
    journal_id ← r_u64;
    requested_start_usn ← r_i64;
    requested_end_usn ← r_i64;
    max_records ← r_u32;
    max_evidence_bytes ← r_u32;
    mret (RespReadRangeAccepted request_id binding journal_id requested_start_usn requested_end_usn
            max_records max_evidence_bytes)
  else if kind =? READ_VOLUME_ACCEPTED_RESPONSE then
    client_instance ← r_array_16;
    volume_id ← r_string MAX_VOLUME_ID_BYTES;
    journal_id ← r_u64;
    requested_start_usn ← r_i64;
    requested_end_usn ← r_i64;
    root_count ← r_u8;
    max_records ← r_u32;
    max_evidence_bytes ← r_u32;
    mret (RespReadVolumeAccepted request_id client_instance volume_id journal_id requested_start_usn
            requested_end_usn root_count max_records max_evidence_bytes)
  else if kind =? READ_VOLUME_RESPONSE then r_read_volume_response request_id
  else if kind =? CANCEL_RESPONSE then
    client_instance ← r_array_16;
    target_request_id ← r_u64;
    mret (RespCancelled request_id client_instance target_request_id)
  else if kind =? FAILURE_RESPONSE then
    client_instance ← r_then r_array_16;
    failure ← r_failure;
    mret (RespFailure request_id client_instance failure)
  else r_fail (UnknownKind kind).

Definition decode_response (payload : bytes) : WireResult BrokerResponse :=
  header ← inspect_request_header payload;
  if negb (header_is_current_magic header) then Err (UnsupportedVersion (header_version header))
  else if negb (header_version header =? PROTOCOL_VERSION)
  then Err (UnsupportedVersion (header_version header))
  else
    reader ← Reader_after_header payload;
    '(response, reader) ← r_response (rd_kind reader) (header_request_id header) reader;
    _ ← r_finish reader;
    validate_response response;;
    Ok response.

(** ** Metered formats

    [dec t] reads a value and advances the running total from [t] by [meter]. *)

Section Metered.
Context {A T : Type}.
Context (dec : T → R (A * T)) (wf : A → Prop) (repr : A → bytes) (meter : T → A → WireResult T).

Record metered : Prop := {
  met_reads t a t' : wf a → meter t a = Ok t' → reads (dec t) (repr a) (a, t');
  met_sound t rd a t' rd' : reader_ok rd → dec t rd = Ok ((a, t'), rd') →
    wf a ∧ meter t a = Ok t' ∧ consumed rd rd' (repr a);
}.

Lemma metered_each_reads t l t' :
  metered → Forall wf l → result_foldl meter t l = Ok t' →
  reads (r_each_with (length l) dec t) (l ≫= repr) (l, t').
Proof.
  intros [Hr _] Hl. revert t. induction Hl as [|a l Ha Hl IH]; intros t Hm; simpl in *.
  { injection Hm as ->. apply reads_ret. }
  simplify_result. eapply reads_bind; [by eapply Hr|]. simpl.
  by eapply (reads_map _ (λ q, (a :: q.1, q.2)) (l, t')), IH.
Qed.

Lemma metered_each_sound n t rd l t' rd' :
  metered → reader_ok rd → r_each_with n dec t rd = Ok ((l, t'), rd') →
  length l = n ∧ Forall wf l ∧ result_foldl meter t l = Ok t' ∧ consumed rd rd' (l ≫= repr).
Proof.
  intros [_ Hs]. revert t rd l. induction n as [|n IH]; intros t rd l Hok H; simpl in H;
    simplify_result; simplify_eq.
  { split_and!; [done|constructor|done|by apply consumed_refl]. }
  destruct x as [a t1], x1 as [l t2]. cbn [fst snd] in *.
  match goal with H : dec _ _ = _ |- _ => apply Hs in H as (? & Hm & Hc); [|done] end.
  match goal with H : r_each_with _ _ _ _ = _ |- _ =>
    apply IH in H as (<- & ? & ? & ?); [|by eapply con_ok] end.
  split_and!; [done|by constructor|simpl; by rewrite Hm|]. rewrite bind_cons. by eapply consumed_trans.
Qed.

Definition counted_repr (l : list A) : bytes := le_bytes 4 (zlen l) ++ (l ≫= repr).

Lemma metered_counted_reads maximum t l t' :
  metered → maximum < 2 ^ 32 → zlen l ≤ maximum → Forall wf l → result_foldl meter t l = Ok t' →
  reads (r_counted maximum dec t) (counted_repr l) (l, t').
Proof.
  intros HM Hmax Hl Hw Hf. pose proof (zlen_nonneg l).
  assert (is_u32 (zlen l)) as Hu by (unfold is_uint; lia).
  eapply reads_bind; [exact (fmt_reads (dec := r_u32) (zlen l) Hu)|].
  eapply reads_lift; [apply try_from_uint_Ok; unfold is_uint; lia|].
  replace (maximum <? zlen l) with false by lia. unfold zlen. rewrite Nat2Z.id.
  by apply metered_each_reads.
Qed.

Lemma metered_counted_sound maximum t rd l t' rd' :
  metered → reader_ok rd → r_counted maximum dec t rd = Ok ((l, t'), rd') →
  zlen l ≤ maximum ∧ is_u32 (zlen l) ∧ Forall wf l ∧ result_foldl meter t l = Ok t' ∧
  consumed rd rd' (counted_repr l).
Proof.
  intros HM Hok H. unfold r_counted in H. simplify_result. sound_steps.
  match goal with H : try_from_uint _ _ _ = Ok _ |- _ => apply try_from_uint_inv in H as [-> _] end.
  destruct (_ <? _) eqn:E in H; [done|].
  eapply metered_each_sound in H as (Hn & ? & ? & ?); [|done|done].
  match goal with H : is_u32 ?x |- _ => assert (x = zlen l) as -> by (unfold zlen, is_uint in *; lia) end.
  split_and!; [lia|done|done|done|]. unfold counted_repr. solve_consumed.
Qed.

End Metered.

(** A plain format followed by a check of the total is metered. *)
Lemma format_metered {A T} {enc : A → W unit} {dec : R A} `{F : !Format enc dec}
    (meter : T → A → WireResult T) :
  metered (λ t, a ← dec; t ← st_lift (meter t a); mret (a, t)) fmt_wf fmt_repr meter.
Proof.
  split.
  - intros t a t' Hw Hm. rewrite <-(app_nil_r (fmt_repr a)).
    eapply reads_bind; [by apply fmt_reads|]. eapply reads_lift; [done|]. apply reads_ret.
  - intros t rd a t' rd' Hok H. simplify_result. simplify_eq. sound_steps. done.
Qed.

Definition meter_candidate (evidence : Z) (candidate : BrokerCandidate) : WireResult Z :=
  limit_evidence evidence (BrokerCandidate_evidence_bytes candidate).
Definition meter_handoff (t : Totals) (handoff : SharedJournalHandoff) : WireResult Totals :=
  limit_totals t (SharedJournalHandoff_evidence_bytes handoff).
Definition meter_pending (t : Totals) (pending : SharedJournalPendingRename) : WireResult Totals :=
  limit_totals t (SharedJournalPendingRename_evidence_bytes pending).

Lemma candidate_metered : metered r_metered_candidate candidate_fits candidate_repr meter_candidate.
Proof. exact (format_metered (dec := r_candidate) meter_candidate). Qed.
Lemma handoff_metered : metered r_metered_handoff handoff_fits handoff_repr meter_handoff.
Proof. exact (format_metered (dec := r_handoff) meter_handoff). Qed.
Lemma pending_metered : metered r_metered_pending pending_fits pending_repr meter_pending.
Proof. exact (format_metered (dec := r_pending) meter_pending). Qed.

(** *** Outcomes *)

(** An outcome is either proof of coverage or a failure, never a mixture. *)
Definition outcome_shape (o : SharedJournalRootOutcome) : Prop :=
  match out_failure o with
  | Some _ => out_covered_until_usn o = None ∧ out_is_complete o = false ∧ out_candidates o = []
  | None => ∃ covered, out_covered_until_usn o = Some covered ∧ is_i64 covered
  end.

Definition outcome_fits (o : SharedJournalRootOutcome) : Prop :=
  binding_fits (out_binding o) ∧ is_i64 (out_requested_start_usn o) ∧ outcome_shape o ∧
  Forall candidate_fits (out_candidates o) ∧ is_u32 (zlen (out_candidates o)).

Definition outcome_repr (o : SharedJournalRootOutcome) : bytes :=
  binding_repr (out_binding o) ++ le_bytes 8 (out_requested_start_usn o mod 2 ^ 64) ++
  match out_failure o with
  | Some failure => [1] ++ le_bytes 2 (failure_code (failure_failure_code failure))
  | None =>
    [0] ++ le_bytes 8 (default 0 (out_covered_until_usn o) mod 2 ^ 64) ++
    [if out_is_complete o then 1 else 0] ++ counted_repr candidate_repr (out_candidates o)
  end.

Definition meter_outcome (t : Totals) (o : SharedJournalRootOutcome) : WireResult Totals :=
  match out_failure o with
  | Some _ => Ok t
  | None =>
    records ← limit_records (total_records t) (zlen (out_candidates o));
    evidence ← result_foldl meter_candidate (total_evidence t) (out_candidates o);
    Ok {| total_records := records; total_evidence := evidence |}
  end.

Lemma writes_counted {A} {enc : A → W unit} {dec : R A} `{F : !Format enc dec} l :
  Forall fmt_wf l → is_u32 (zlen l) → writes (w_counted enc l) (counted_repr fmt_repr l).
Proof.
  intros Hw Hl. eapply writes_lift; [by apply try_from_uint_Ok|].
  apply writes_seq; [apply writes_bytes|]. by eapply (writes_list (length l)).
Qed.

Lemma writes_outcome o : outcome_fits o → writes (w_outcome o) (outcome_repr o).
Proof.
  intros (? & ? & Hs & ? & ?). unfold w_outcome, outcome_repr, outcome_shape in *.
  apply writes_seq; [by apply writes_binding|]. apply writes_seq; [apply writes_bytes|].
  destruct (out_failure o) as [f|].
  - apply writes_seq; [apply writes_bytes|]. exact (fmt_writes (dec := r_failure) f I).
  - destruct Hs as (c & -> & ?). apply writes_seq; [apply writes_bytes|].
    eapply writes_lift; [done|]. apply writes_seq; [apply writes_bytes|].
    apply writes_seq; [apply writes_bytes|]. 
    by eapply (writes_counted (F := fmt_candidate)).
Qed.

Lemma outcome_metered : metered r_outcome outcome_fits outcome_repr meter_outcome.
Proof.
  split.
  - intros t [b s c ic cs f] t' (Hb & Hs & Hsh & Hc & Hl) Hm.
    unfold r_outcome, outcome_repr, outcome_shape, meter_outcome in *. simpl in Hb, Hs, Hsh, Hc, Hl, Hm.
    cbn [out_binding out_requested_start_usn out_covered_until_usn out_is_complete out_candidates
         out_failure].
    eapply reads_bind; [by apply reads_binding|]. eapply reads_bind; [by apply reads_i64|].
    destruct f as [f|].
    + destruct Hsh as (-> & -> & ->). injection Hm as ->.
      eapply reads_bind; [exact (reads_boolean true)|].
      eapply reads_last; [exact (fmt_reads (dec := r_failure) f I)|done].
    + destruct Hsh as (covered & -> & Hcov). simplify_result.
      eapply reads_bind; [exact (reads_boolean false)|].
      eapply reads_bind; [by apply reads_i64|]. eapply reads_bind; [apply reads_boolean|].
      eapply reads_bind; [exact (fmt_reads (dec := r_u32) (zlen cs) Hl)|].
      eapply reads_lift; [apply try_from_uint_Ok; unfold is_uint in *; lia|].
      eapply reads_lift; [done|]. unfold zlen at 1. rewrite Nat2Z.id.
      eapply reads_last; [by eapply metered_each_reads; [apply candidate_metered|..]|done].
  - intros t rd o t' rd' Hok H. unfold r_outcome in H. simplify_result.
    sound_steps.
    match goal with H : (if ?b then _ else _) _ = _ |- _ => destruct b end; simplify_result; simplify_eq;
      sound_steps.
    + split_and!; [|done|].
      * split_and!; [done|done|done|constructor|by vm_compute].
      * unfold outcome_repr. cbn [out_binding out_requested_start_usn out_failure]. solve_consumed.
    + match goal with H : r_each_with _ _ _ _ = Ok (?p, _) |- _ => destruct p as [cs e] end.
      cbn [fst snd] in *.
      match goal with H : try_from_uint _ _ _ = Ok _ |- _ => apply try_from_uint_inv in H as [-> _] end.
      match goal with H : r_each_with _ _ _ _ = _ |- _ =>
        eapply metered_each_sound in H as (Hn & ? & Hm & ?); [|apply candidate_metered|done] end.
      match goal with H : is_u32 ?x |- _ =>
        assert (x = zlen cs) as -> by (unfold zlen, is_uint in *; lia) end.
      split_and!.
      * split_and!; [done|done|by eexists|done|done].
      * unfold meter_outcome. simpl. rewrite Hm.
        match goal with H : limit_records _ _ = _ |- _ => by rewrite H end.
      * unfold outcome_repr, counted_repr.
        cbn [out_binding out_requested_start_usn out_failure out_covered_until_usn out_is_complete
             out_candidates default]. solve_consumed.
Qed.

(** ** The meters accept what validation accepts *)

(** A step that fails only where it leaves a downward closed set agrees with its unlimited version
    as long as the final value is in the set. *)
Lemma limited_foldl {E A S} (le : relation S) `{!PreOrder le} (ok : S → Prop)
    (f g : S → A → Result E S) l :
  (∀ s s', le s s' → ok s' → ok s) →
  Forall (λ a, ∀ s s', f s a = Ok s' → le s s' ∧ (ok s' → g s a = Ok s')) l →
  ∀ s s', result_foldl f s l = Ok s' → le s s' ∧ (ok s' → result_foldl g s l = Ok s').
Proof.
  intros Hd. induction 1 as [|a l Ha _ IH]; intros s s' H; simpl in *; simplify_result.
  { done. }
  match goal with H : f s a = Ok ?x |- _ => apply Ha in H as [H1 H2]; rename x into y end.
  apply IH in H as [H3 H4]. split; [by transitivity y|]. intros Hok.
  rewrite H2; [by apply H4|]. by eapply Hd.
Qed.

Lemma add_amount_Ok total amount t :
  add_amount total amount = Ok t ↔
  ∃ a, amount = Some a ∧ t = total + a ∧ total + a ≤ USIZE_MAX.
Proof.
  unfold add_amount, checked_add. destruct amount as [a|]; cbn [ok_or mbind result_bind].
  - destruct (_ <=? _) eqn:E; cbn [ok_or]; split; [|naive_solver lia|done|naive_solver lia].
    intros [= <-]. exists a. split_and!; [done|done|lia].
  - naive_solver.
Qed.

Lemma limit_evidence_Ok total amount t :
  add_amount total amount = Ok t → t ≤ MAX_EVIDENCE_BYTES → limit_evidence total amount = Ok t.
Proof. intros H Ht. unfold limit_evidence. rewrite H. cbn. by replace (_ <? t) with false by lia. Qed.
Lemma limit_records_Ok total amount t :
  add_amount total (Some amount) = Ok t → t ≤ MAX_RECORDS → limit_records total amount = Ok t.
Proof. intros H Ht. unfold limit_records. rewrite H. cbn. by replace (_ <? t) with false by lia. Qed.

Lemma checked_add_Some m a b c : checked_add m a b = Some c → c = a + b.
Proof. unfold checked_add. by destruct (_ <=? _); intros [= <-]. Qed.
Lemma checked_mul_Some m a b c : checked_mul m a b = Some c → c = a * b.
Proof. unfold checked_mul. by destruct (_ <=? _); intros [= <-]. Qed.

(** Evidence sizes are sums of lengths. *)
#[local] Ltac solve_size :=
  repeat match goal with
  | H : _ ≫= _ = Some _ |- _ => apply bind_Some in H as (? & ? & H)
  | H : checked_add _ _ _ = Some _ |- _ => apply checked_add_Some in H
  | H : checked_mul _ _ _ = Some _ |- _ => apply checked_mul_Some in H
  end; simplify_eq; len.

Lemma scope_size_nonneg s e : CandidateScope_evidence_bytes s = Some e → 0 ≤ e.
Proof. destruct s; simpl; intros H; solve_size. Qed.

Lemma candidate_size_nonneg c e : BrokerCandidate_evidence_bytes c = Some e → 0 ≤ e.
Proof.
  unfold BrokerCandidate_evidence_bytes. intros H.
  apply bind_Some in H as (p & Hp & H). apply bind_Some in H as (s & Hs%scope_size_nonneg & H).
  assert (0 ≤ p) by (destruct (cand_previous_scope c); simplify_eq; by eauto using scope_size_nonneg).
  solve_size.
Qed.

Lemma handoff_size_nonneg h e : SharedJournalHandoff_evidence_bytes h = Some e → 0 ≤ e.
Proof.
  unfold SharedJournalHandoff_evidence_bytes, str_len. intros H.
  destruct (ho_previous_carry_id h); solve_size.
Qed.

Lemma pending_size_nonneg p e : SharedJournalPendingRename_evidence_bytes p = Some e → 0 ≤ e.
Proof. unfold SharedJournalPendingRename_evidence_bytes. intros H. solve_size. Qed.

Definition totals_le (t t' : Totals) : Prop :=
  total_records t ≤ total_records t' ∧ total_evidence t ≤ total_evidence t'.
Definition totals_ok (t : Totals) : Prop :=
  total_records t ≤ MAX_RECORDS ∧ total_evidence t ≤ MAX_EVIDENCE_BYTES.

#[local] Instance totals_le_preorder : PreOrder totals_le.
Proof. split; [intros t; split; lia|]. intros ??? [] []. split; lia. Qed.
Lemma totals_ok_le t t' : totals_le t t' → totals_ok t' → totals_ok t.
Proof. unfold totals_le, totals_ok. lia. Qed.

Lemma candidates_meter l e e' :
  result_foldl add_evidence e l = Ok e' →
  e ≤ e' ∧ (e' ≤ MAX_EVIDENCE_BYTES → result_foldl meter_candidate e l = Ok e').
Proof.
  apply (limited_foldl Z.le (λ e, e ≤ MAX_EVIDENCE_BYTES)); [lia|].
  apply Forall_forall. intros c _ s s' H. split.
  - apply add_amount_Ok in H as (a & Ha%candidate_size_nonneg & -> & _). lia.
  - by apply limit_evidence_Ok.
Qed.

Lemma outcome_meter o t t' :
  (out_failure o ≠ None → out_candidates o = []) → count_outcome t o = Ok t' →
  totals_le t t' ∧ (totals_ok t' → meter_outcome t o = Ok t').
Proof.
  intros Hf H. unfold count_outcome in H. simplify_result.
  match goal with H : add_amount _ _ = _ |- _ => rename H into Hr end.
  match goal with H : result_foldl _ _ _ = _ |- _ => apply candidates_meter in H as [He Hm] end.
  unfold totals_le, totals_ok, meter_outcome. simpl.
  pose proof (proj1 (add_amount_Ok _ _ _) Hr) as (n & [= <-] & -> & _).
  pose proof (zlen_nonneg (out_candidates o)). split; [lia|]. intros [Hr' He'].
  specialize (Hm He').
  destruct (out_failure o) as [f|].
  - rewrite Hf in Hm |- * by done. simpl in Hm. injection Hm as <-. rewrite zlen_nil, Z.add_0_r.
    by destruct t.
  - by rewrite (limit_records_Ok _ _ _ Hr Hr'), Hm.
Qed.

Lemma limit_totals_Ok records evidence t amount :
  add_amount (total_records t) (Some 1) = Ok records →
  add_amount (total_evidence t) amount = Ok evidence → from_option (λ a, 0 ≤ a) True amount →
  let t' := {| total_records := records; total_evidence := evidence |} in
  totals_le t t' ∧ (totals_ok t' → limit_totals t amount = Ok t').
Proof.
  intros Hr He Ha t'. split.
  - apply add_amount_Ok in Hr as (? & [= <-] & -> & _). apply add_amount_Ok in He as (a & -> & -> & _).
    simpl in Ha. split; simpl; lia.
  - intros [Hr' He']. unfold limit_totals.
    by rewrite (limit_evidence_Ok _ _ _ He He'), (limit_records_Ok _ _ _ Hr Hr').
Qed.

Lemma handoff_meter i v e os t h t' :
  validate_handoff_step i v e os t h = Ok t' →
  totals_le t t' ∧ (totals_ok t' → meter_handoff t h = Ok t').
Proof.
  unfold validate_handoff_step. intros H. simplify_result. apply limit_totals_Ok; [done|done|].
  destruct (SharedJournalHandoff_evidence_bytes h) eqn:E; [by eapply handoff_size_nonneg|done].
Qed.

Lemma pending_meter i v e os t p t' :
  validate_pending_step i v e os t p = Ok t' →
  totals_le t t' ∧ (totals_ok t' → meter_pending t p = Ok t').
Proof.
  unfold validate_pending_step, count_pending. intros H. simplify_result.
  apply limit_totals_Ok; [done|done|].
  destruct (SharedJournalPendingRename_evidence_bytes p) eqn:E; [by eapply pending_size_nonneg|done].
Qed.

(** What validation establishes of one outcome. *)
Definition outcome_valid (o : SharedJournalRootOutcome) : Prop :=
  ∃ e m, SharedJournalRootOutcome_validate o e m = Ok ().

Lemma outcome_steps i v e m os b t b' t' :
  result_foldl (validate_outcome_step i v e m) (b, t) os = Ok (b', t') →
  Forall outcome_valid os ∧ result_foldl count_outcome t os = Ok t'.
Proof.
  revert b t. induction os as [|o os IH]; intros b t H; cbn [result_foldl] in H; simplify_result.
  { simplify_eq. by split; [constructor|]. }
  match goal with H : validate_outcome_step _ _ _ _ _ _ = _ |- _ => rename H into Hs end.
  unfold validate_outcome_step in Hs. simplify_result.
  destruct (set_insert _ _) as [n bs]. destruct (_ || _) in Hs; [done|]. simplify_result.
  apply IH in H as [? ?]. split; [constructor; [by eexists _, _|done]|].
  cbn [result_foldl]. match goal with H : count_outcome t o = _ |- _ => by rewrite H end.
Qed.

Lemma outcome_valid_failure o : outcome_valid o → out_failure o ≠ None → out_candidates o = [].
Proof.
  intros (e & m & H) Hf. unfold SharedJournalRootOutcome_validate in H. simplify_result.
  destruct (out_covered_until_usn o), (out_failure o); try done.
  destruct (_ && _) eqn:E; [|done]. apply andb_true_iff in E as [_ E]. by destruct (out_candidates o).
Qed.

(** Validation of a volume response implies every limit the decoder checks on the way. *)
Lemma read_volume_meters i v j e mr me os hs ps :
  validate_read_volume i v j e mr me os hs ps = Ok () →
  ∃ t1 t2 t3,
    result_foldl meter_outcome {| total_records := 0; total_evidence := 0 |} os = Ok t1 ∧
    result_foldl meter_handoff t1 hs = Ok t2 ∧ result_foldl meter_pending t2 ps = Ok t3.
Proof.
  unfold validate_read_volume. intros H. simplify_result.
  match goal with H : result_foldl (validate_outcome_step _ _ _ _) _ _ = Ok ?s |- _ =>
    destruct s as [b t1]; apply outcome_steps in H as [Hv Ho] end. cbn [snd] in *.
  match goal with H : result_foldl (validate_handoff_step _ _ _ _) _ _ = Ok ?s |- _ =>
    rename s into t2, H into Hh end.
  match goal with H : result_foldl (validate_pending_step _ _ _ _) _ _ = Ok ?s |- _ =>
    rename s into t3, H into Hp end.
  eapply (limited_foldl totals_le totals_ok _ meter_outcome) in Ho as [Ho1 Ho2];
    [|exact totals_ok_le|eapply Forall_impl; [exact Hv|]; intros o Hov s s'; apply outcome_meter;
      by apply outcome_valid_failure].
  eapply (limited_foldl totals_le totals_ok _ meter_handoff) in Hh as [Hh1 Hh2];
    [|exact totals_ok_le|apply Forall_forall; intros ? _ ? ?; apply handoff_meter].
  eapply (limited_foldl totals_le totals_ok _ meter_pending) in Hp as [Hp1 Hp2];
    [|exact totals_ok_le|apply Forall_forall; intros ? _ ? ?; apply pending_meter].
  assert (totals_ok t3) as H3.
  { unfold totals_ok. unfold in_range in *. lia. }
  exists t1, t2, t3. split_and!; [|by eauto using totals_ok_le..].
  apply Ho2. eapply totals_ok_le; [exact Hh1|]. by eapply totals_ok_le.
Qed.

(** ** Responses as one format *)

Definition response_kind (r : BrokerResponse) : Z :=
  match r with
  | RespRootRegistered _ _ _ => ROOT_REGISTERED_RESPONSE
  | RespJournal _ _ _ _ _ _ => JOURNAL_RESPONSE
  | RespReadRangeAccepted _ _ _ _ _ _ _ => READ_ACCEPTED_RESPONSE
  | RespReadVolumeAccepted _ _ _ _ _ _ _ _ _ => READ_VOLUME_ACCEPTED_RESPONSE
  | RespReadVolume _ _ _ _ _ _ _ _ _ _ => READ_VOLUME_RESPONSE
  | RespReadRange _ _ _ _ _ _ _ _ _ _ => READ_RESPONSE
  | RespCancelled _ _ _ => CANCEL_RESPONSE
  | RespFailure _ _ _ => FAILURE_RESPONSE
  end.

(** The part of a response that is not its identifier, with the bounds the reader checks. *)
Definition response_fits (r : BrokerResponse) : Prop :=
  match r with
  | RespRootRegistered _ b c => binding_fits b ∧ wf_capability c
  | RespJournal _ b _ j f n =>
    binding_fits b ∧ from_option is_u64 True j ∧ from_option is_i64 True f ∧
    from_option is_i64 True n
  | RespReadRange _ b j s e mr me c _ cs =>
    binding_fits b ∧ is_u64 j ∧ is_i64 s ∧ is_i64 e ∧ is_u32 mr ∧ is_u32 me ∧ is_i64 c ∧
    zlen cs ≤ MAX_RECORDS ∧ Forall candidate_fits cs ∧ is_ok (result_foldl meter_candidate 0 cs) = true
  | RespReadRangeAccepted _ b j s e mr me =>
    binding_fits b ∧ is_u64 j ∧ is_i64 s ∧ is_i64 e ∧ is_u32 mr ∧ is_u32 me
  | RespReadVolumeAccepted _ i v j s e n mr me =>
    is_array 16 i ∧ is_wire_str MAX_VOLUME_ID_BYTES v ∧ is_u64 j ∧ is_i64 s ∧ is_i64 e ∧ is_u8 n ∧
    is_u32 mr ∧ is_u32 me
  | RespReadVolume _ i v j e mr me os hs ps =>
    is_array 16 i ∧ is_wire_str MAX_VOLUME_ID_BYTES v ∧ is_u64 j ∧ is_i64 e ∧ is_u32 mr ∧ is_u32 me ∧
    (1 ≤ zlen os ≤ MAX_SHARED_ROOTS ∧ Forall outcome_fits os) ∧
    (zlen hs ≤ MAX_SHARED_HANDOFFS ∧ Forall handoff_fits hs) ∧
    (zlen ps ≤ MAX_SHARED_PENDING_RENAMES ∧ Forall pending_fits ps) ∧
    ∃ t1 t2 t3,
      result_foldl meter_outcome {| total_records := 0; total_evidence := 0 |} os = Ok t1 ∧
      result_foldl meter_handoff t1 hs = Ok t2 ∧ result_foldl meter_pending t2 ps = Ok t3
  | RespCancelled _ i t => is_array 16 i ∧ is_u64 t
  | RespFailure _ i _ => from_option (is_array 16) True i
  end.

Definition response_repr (r : BrokerResponse) : bytes :=
  match r with
  | RespRootRegistered _ b c => binding_repr b ++ capability_bytes c
  | RespJournal _ b c j f n =>
    binding_repr b ++ [capability_code c] ++ option_repr (dec := r_u64) j ++
    option_repr (dec := r_i64) f ++ option_repr (dec := r_i64) n
  | RespReadRange _ b j s e mr me c ic cs =>
    binding_repr b ++ le_bytes 8 j ++ le_bytes 8 (s mod 2 ^ 64) ++ le_bytes 8 (e mod 2 ^ 64) ++
    le_bytes 4 mr ++ le_bytes 4 me ++ le_bytes 8 (c mod 2 ^ 64) ++ [if ic then 1 else 0] ++
    counted_repr candidate_repr cs
  | RespReadRangeAccepted _ b j s e mr me =>
    binding_repr b ++ le_bytes 8 j ++ le_bytes 8 (s mod 2 ^ 64) ++ le_bytes 8 (e mod 2 ^ 64) ++
    le_bytes 4 mr ++ le_bytes 4 me
  | RespReadVolumeAccepted _ i v j s e n mr me =>
    i ++ string_repr v ++ le_bytes 8 j ++ le_bytes 8 (s mod 2 ^ 64) ++ le_bytes 8 (e mod 2 ^ 64) ++
    [n] ++ le_bytes 4 mr ++ le_bytes 4 me
  | RespReadVolume _ i v j e mr me os hs ps =>
    i ++ string_repr v ++ le_bytes 8 j ++ le_bytes 8 (e mod 2 ^ 64) ++ le_bytes 4 mr ++
    le_bytes 4 me ++ [zlen os] ++ (os ≫= outcome_repr) ++ counted_repr handoff_repr hs ++
    counted_repr pending_repr ps
  | RespCancelled _ i t => i ++ le_bytes 8 t
  | RespFailure _ i f =>
    option_repr (dec := r_array_16) i ++ le_bytes 2 (failure_code (failure_failure_code f))
  end.

Lemma small_u32 {A} (l : list A) m : zlen l ≤ m → m < 2 ^ 32 → is_u32 (zlen l).
Proof. pose proof (zlen_nonneg l). unfold is_uint. lia. Qed.

Lemma writes_response r :
  response_fits r →
  writes (w_response r)
    (header_repr (response_kind r) (BrokerResponse_request_id r) ++ response_repr r).
Proof.
  destruct r; unfold response_fits; intros H; destruct_and? H;
    (eapply writes_seq; [apply writes_header|]); unfold response_repr.
  - unshelve solve_writes; done.
  - apply writes_seq; [by apply writes_binding|]. apply writes_seq; [apply writes_bytes|].
    apply writes_seq; [by apply (writes_optional (dec := r_u64))|].
    by apply writes_seq; apply (writes_optional (dec := r_i64)).
  - unshelve solve_writes; done.
  - do 7 (apply writes_seq; [first [by eapply writes_string|apply writes_bytes]|]). apply writes_bytes.
  - do 6 (apply writes_seq; [first [by eapply writes_string|apply writes_bytes]|]).
    eapply writes_lift; [apply try_from_uint_Ok; unfold is_uint, MAX_SHARED_ROOTS in *; lia|].
    apply writes_seq; [apply writes_bytes|].
    apply writes_seq; [apply writes_each; eapply Forall_impl; [done|apply writes_outcome]|].
    apply writes_seq.
    + eapply (writes_counted (F := fmt_handoff)); [done|by eapply small_u32].
    + eapply (writes_counted (F := fmt_pending)); [done|by eapply small_u32].
  - apply writes_seq; [by apply writes_binding|].
    do 7 (apply writes_seq; [apply writes_bytes|]).
    eapply (writes_counted (F := fmt_candidate)); [done|by eapply small_u32].
  - apply writes_seq; apply writes_bytes.
  - apply writes_seq; [by apply (writes_optional (dec := r_array_16))|].
    exact (fmt_writes (dec := r_failure) _ I).
Qed.

#[local] Ltac read_field :=
  first [ by apply reads_binding | by apply reads_string | by apply reads_i64 | apply reads_boolean
        | by apply (reads_uint 8 64 _ eq_refl) | by apply (reads_uint 4 32 _ eq_refl)
        | apply (reads_take _ 16); by match goal with H : is_array 16 _ |- _ => destruct H end ].

Lemma reads_response r :
  response_fits r →
  reads (r_response (response_kind r) (BrokerResponse_request_id r)) (response_repr r) r.
Proof.
  destruct r; unfold response_fits; intros H; destruct_and? H;
    unfold r_response, response_repr; cbn [response_kind BrokerResponse_request_id Z.eqb Pos.eqb
      ROOT_REGISTERED_RESPONSE JOURNAL_RESPONSE READ_RESPONSE READ_ACCEPTED_RESPONSE
      READ_VOLUME_ACCEPTED_RESPONSE READ_VOLUME_RESPONSE CANCEL_RESPONSE FAILURE_RESPONSE].
  - unshelve solve_reads; done.
  - unshelve solve_reads; done.
  - unshelve solve_reads; done.
  - unshelve solve_reads; done.
  - unfold r_read_volume_response. destruct_and?.
    match goal with H : ∃ _, _ |- _ => destruct H as (t1 & t2 & t3 & ? & ? & ?) end.
    do 6 (eapply reads_bind; [read_field|]).
    eapply reads_bind; [apply reads_u8; unfold is_uint, MAX_SHARED_ROOTS in *; lia|].
    replace (negb _) with false by (unfold in_range; lia).
    eapply reads_bind.
    { unfold zlen. rewrite Nat2Z.id. by eapply metered_each_reads; [apply outcome_metered|..]. }
    eapply reads_bind; [by eapply metered_counted_reads; [apply handoff_metered|..]|].
    eapply reads_last; [by eapply metered_counted_reads; [apply pending_metered|..]|done].
  - unfold r_read_range_response.
    destruct (result_foldl meter_candidate 0 _) eqn:E; [|done].
    do 8 (eapply reads_bind; [read_field|]).
    eapply reads_last; [by eapply metered_counted_reads; [apply candidate_metered|..]|done].
  - unshelve solve_reads; done.
  - unshelve solve_reads; done.
Qed.

(** [fmt_sound] at the metered loops. *)
#[local] Ltac metered_steps :=
  repeat match goal with
  | Hok : reader_ok ?rd, H : r_counted _ ?d _ ?rd = Ok (?p, _) |- _ =>
    destruct p; first
      [ apply (metered_counted_sound _ _ _ _ _ _ _ _ _ _ candidate_metered Hok) in H
      | apply (metered_counted_sound _ _ _ _ _ _ _ _ _ _ handoff_metered Hok) in H
      | apply (metered_counted_sound _ _ _ _ _ _ _ _ _ _ pending_metered Hok) in H ];
    destruct H as (? & ? & ? & ? & ?)
  | Hok : reader_ok ?rd, H : r_each_with _ r_outcome _ ?rd = Ok (?p, _) |- _ =>
    destruct p; apply (metered_each_sound _ _ _ _ _ _ _ _ _ _ outcome_metered Hok) in H;
    destruct H as (? & ? & ? & ?)
  | H : consumed _ ?rd _ |- _ =>
    lazymatch goal with _ : reader_ok rd |- _ => fail | _ => pose proof (con_ok _ _ _ H) end
  end.

Lemma r_response_sound kind id rd r rd' :
  reader_ok rd → r_response kind id rd = Ok (r, rd') →
  response_kind r = kind ∧ BrokerResponse_request_id r = id ∧ response_fits r ∧
  consumed rd rd' (response_repr r).
Proof.
  intros Hok H. unfold r_response in H.
  repeat match goal with
  | H : (if ?k =? ?c then _ else _) _ = _ |- _ => destruct (Z.eqb_spec k c) as [->|]
  end; [..|done]; unfold r_read_range_response, r_read_volume_response in H; simplify_result.
  6: destruct (negb _) eqn:E in H; [done|]; simplify_result.
  all: sound_steps; metered_steps; (split; [done|]; split; [done|]); cbn [fst snd] in *.
  6: match goal with H : length ?l = Z.to_nat ?n |- _ =>
       assert (n = zlen l) as -> by (unfold zlen, is_uint in *; lia) end.
  all: unfold response_fits, response_repr, in_range in *.
  all: split; [try split_and!; try done; try lia|solve_consumed].
  - by match goal with H : result_foldl _ _ _ = Ok _ |- _ => rewrite H end.
  - by eexists _, _, _.
Qed.

(** What Rust's types guarantee of a response. *)
Definition wf_outcome (o : SharedJournalRootOutcome) : Prop :=
  wf_binding (out_binding o) ∧ is_i64 (out_requested_start_usn o) ∧
  from_option is_i64 True (out_covered_until_usn o) ∧ Forall wf_candidate (out_candidates o).

Definition wf_response (r : BrokerResponse) : Prop :=
  is_u64 (BrokerResponse_request_id r) ∧
  match r with
  | RespRootRegistered _ b c => wf_binding b ∧ wf_capability c
  | RespJournal _ b _ j f n =>
    wf_binding b ∧ from_option is_u64 True j ∧ from_option is_i64 True f ∧ from_option is_i64 True n
  | RespReadRange _ b j s e mr me c _ cs =>
    wf_binding b ∧ is_u64 j ∧ is_i64 s ∧ is_i64 e ∧ is_u32 mr ∧ is_u32 me ∧ is_i64 c ∧
    Forall wf_candidate cs
  | RespReadRangeAccepted _ b j s e mr me =>
    wf_binding b ∧ is_u64 j ∧ is_i64 s ∧ is_i64 e ∧ is_u32 mr ∧ is_u32 me
  | RespReadVolumeAccepted _ i v j s e n mr me =>
    is_array 16 i ∧ is_str v ∧ is_u64 j ∧ is_i64 s ∧ is_i64 e ∧ is_u8 n ∧ is_u32 mr ∧ is_u32 me
  | RespReadVolume _ i v j e mr me os hs ps =>
    is_array 16 i ∧ is_str v ∧ is_u64 j ∧ is_i64 e ∧ is_u32 mr ∧ is_u32 me ∧
    Forall wf_outcome os ∧ Forall wf_handoff hs ∧ Forall wf_pending ps
  | RespCancelled _ i t => is_array 16 i ∧ is_u64 t
  | RespFailure _ i _ => from_option (is_array 16) True i
  end.

(** The limit that [decode_response] places on a range response and [validate_response] does not:
    the evidence of all candidates together. *)
Definition evidence_bounded (r : BrokerResponse) : Prop :=
  match r with
  | RespReadRange _ _ _ _ _ _ _ _ _ cs =>
    ∃ evidence, result_foldl add_evidence 0 cs = Ok evidence ∧ evidence ≤ MAX_EVIDENCE_BYTES
  | _ => True
  end.

Lemma candidates_meter_inv l e e' :
  result_foldl meter_candidate e l = Ok e' →
  result_foldl add_evidence e l = Ok e' ∧ (e ≤ MAX_EVIDENCE_BYTES → e' ≤ MAX_EVIDENCE_BYTES).
Proof.
  revert e. induction l as [|c l IH]; intros e H; cbn [result_foldl] in *; simplify_result; [done|].
  match goal with H : meter_candidate _ _ = _ |- _ => unfold meter_candidate, limit_evidence in H end.
  simplify_result. case_match; [done|]. simplify_result.
  change (add_evidence e c) with (add_amount e (BrokerCandidate_evidence_bytes c)).
  match goal with H : add_amount _ _ = _ |- _ => rewrite H end. cbn [mbind result_bind].
  apply IH in H as [? ?]. split; [done|]. intros _. lia.
Qed.

Lemma meter_evidence_bounded cs :
  is_ok (result_foldl meter_candidate 0 cs) = true ↔
  ∃ evidence, result_foldl add_evidence 0 cs = Ok evidence ∧ evidence ≤ MAX_EVIDENCE_BYTES.
Proof.
  split.
  - destruct (result_foldl meter_candidate 0 cs) eqn:E; [|done]. intros _.
    apply candidates_meter_inv in E as [? Hm]. eexists. split; [done|]. apply Hm. done.
  - intros (e & H & He). apply candidates_meter in H as [_ H]. by rewrite H.
Qed.

Lemma validate_candidates_valid s c u cs :
  validate_candidates s c u cs = Ok () → Forall (λ c, BrokerCandidate_validate c = Ok ()) cs.
Proof.
  revert u. induction cs as [|x cs IH]; intros u H; simpl in H; simplify_result; eauto.
Qed.

Lemma candidates_valid_fits s c u cs :
  validate_candidates s c u cs = Ok () → Forall candidate_fits cs ↔ Forall wf_candidate cs.
Proof.
  intros H%validate_candidates_valid. induction H; rewrite ?Forall_nil, ?Forall_cons; [done|].
  apply and_iff_compat_both; [by apply candidate_valid_fits|done].
Qed.

Lemma outcome_valid_fits o :
  outcome_valid o → zlen (out_candidates o) < 2 ^ 32 → outcome_fits o ↔ wf_outcome o.
Proof.
  intros (e & m & H) Hl. unfold SharedJournalRootOutcome_validate in H. simplify_result.
  unfold outcome_fits, wf_outcome, outcome_shape. pose proof (zlen_nonneg (out_candidates o)).
  rewrite binding_valid_fits by done. unfold is_uint.
  destruct (out_covered_until_usn o) as [c|], (out_failure o) as [f|]; try done; simplify_result.
  - match goal with H : validate_candidates _ _ _ _ = _ |- _ => rewrite (candidates_valid_fits _ _ _ _ H) end.
    naive_solver lia.
  - destruct (_ && _) eqn:E; [|done]. apply andb_true_iff in E as [Ei Ec].
    destruct (out_candidates o); [|done]. rewrite !Forall_nil. rewrite negb_true_iff in Ei.
    naive_solver lia.
Qed.

Lemma volume_id_fits v :
  is_ok (validate_identifier_for_codec v MAX_VOLUME_ID_BYTES) = true →
  is_wire_str MAX_VOLUME_ID_BYTES v ↔ is_str v.
Proof.
  intros H. apply identifier_fits; [done|].
  change (validate_identifier v MAX_VOLUME_ID_BYTES) with
    (validate_identifier_for_codec v MAX_VOLUME_ID_BYTES).
  by destruct (validate_identifier_for_codec v MAX_VOLUME_ID_BYTES) as [[]|].
Qed.
#[local] Hint Resolve volume_id_fits : fits.

Lemma read_volume_valid_lists i v j e mr me os hs ps :
  validate_read_volume i v j e mr me os hs ps = Ok () →
  (Forall outcome_fits os ↔ Forall wf_outcome os) ∧
  (Forall handoff_fits hs ↔ Forall wf_handoff hs) ∧ (Forall pending_fits ps ↔ Forall wf_pending ps).
Proof.
  unfold validate_read_volume. intros H. simplify_result.
  assert (mr ≤ MAX_RECORDS) as Hmr by (unfold in_range in *; lia). split_and!.
  - apply (Forall_iff_on _ _ (λ o, SharedJournalRootOutcome_validate o e mr = Ok ())).
    + intros o Ho. apply outcome_valid_fits; [by eexists _, _|].
      unfold SharedJournalRootOutcome_validate in Ho. simplify_result. unfold MAX_RECORDS in Hmr.
      destruct (out_covered_until_usn o), (out_failure o); try done; simplify_result; [lia|].
      destruct (_ && _) eqn:E; [|done]. apply andb_true_iff in E as [_ E].
      destruct (out_candidates o); [by vm_compute|done].
    + eapply result_foldl_Forall; [|done]. intros [b t] o s Ho.
      unfold validate_outcome_step in Ho. by simplify_result.
  - apply (Forall_iff_on _ _ (λ h, SharedJournalHandoff_validate h i v e = Ok ())).
    + intros h Hh. by eapply handoff_valid_fits.
    + eapply result_foldl_Forall; [|done]. intros t h s Hh.
      unfold validate_handoff_step in Hh. by simplify_result.
  - apply (Forall_iff_on _ _ (λ p, SharedJournalPendingRename_validate p i v e = Ok ())).
    + intros p Hp. by eapply pending_valid_fits.
    + eapply result_foldl_Forall; [|done]. intros t p s Hp.
      unfold validate_pending_step in Hp. by simplify_result.
Qed.

Lemma response_valid_fits r :
  validate_response r = Ok () →
  is_u64 (BrokerResponse_request_id r) ∧ response_fits r ↔ wf_response r ∧ evidence_bounded r.
Proof.
  unfold validate_response. intros H. simplify_result.
  match goal with H : (_ && _) = false |- _ => clear H end.
  unfold wf_response. rewrite <-(assoc and). apply and_iff_compat_l.
  destruct r; unfold response_fits, evidence_bounded; rewrite ?(right_id True and).
  1,2,3,7,8: simplify_result; repeat case_match; simplify_result; solve_fits.
  - simplify_result. solve_fits.
  - destruct (read_volume_meters _ _ _ _ _ _ _ _ _ H) as (t1 & t2 & t3 & Ht).
    destruct (read_volume_valid_lists _ _ _ _ _ _ _ _ _ H) as (-> & -> & ->).
    unfold validate_read_volume in H. simplify_result.
    repeat rewrite ?orb_false_iff, ?negb_false_iff, ?in_range_true in *. destruct_and?.
    rewrite volume_id_fits by done. split; [tauto|].
    intros. destruct_and?. split_and!; try done; try lia. by exists t1, t2, t3.
  - unfold validate_read_range in H. simplify_result.
    rewrite binding_valid_fits, (candidates_valid_fits _ _ _ _ H), meter_evidence_bounded by done.
    assert (zlen candidates ≤ MAX_RECORDS) by lia. tauto.
Qed.

Lemma encode_response_fits r payload :
  response_fits r →
  encode_response r = Ok payload ↔
  validate_response r = Ok () ∧
  payload = header_repr (response_kind r) (BrokerResponse_request_id r) ++ response_repr r.
Proof.
  intros Hf. unfold encode_response. rewrite result_seq_Ok.
  rewrite (run_writer_writes _ _ (writes_response _ Hf)). naive_solver.
Qed.

Lemma decode_response_sound payload r :
  Forall is_u8 payload → zlen payload ≤ USIZE_MAX → decode_response payload = Ok r →
  wf_response r ∧ evidence_bounded r ∧ encode_response r = Ok payload.
Proof.
  intros H8 Hl H. unfold decode_response in H. simplify_result. destruct x as [id v [|]]; [|done].
  cbn in H. destruct (Z.eqb_spec v PROTOCOL_VERSION) as [->|]; [|done]. cbn in H. simplify_result.
  destruct x0 as [q rd']. simplify_result.
  match goal with
  | Hh : inspect_request_header _ = _, Ha : Reader_after_header _ = _, Hm : r_response _ _ ?rd = _,
    Hf : r_finish _ = _ |- _ =>
    pose proof (λ Hok, r_response_sound _ _ rd r _ Hok Hm) as Hs;
    destruct (message_sound payload id rd rd' (response_repr r) _ H8 Hl Hh Ha Hf) as [Hi ->];
      [naive_solver|];
    destruct (inspect_header_sound _ _ _ H8 Hh Ha) as (_ & _ & body & _ & Hrd);
    destruct Hs as (<- & <- & Hfit & _); [rewrite Hrd; by eapply header_reader_ok|]
  end.
  rewrite (assoc and). split; [by apply response_valid_fits|]. by apply encode_response_fits.
Qed.

Lemma decode_response_complete payload r :
  Forall is_u8 payload → zlen payload ≤ USIZE_MAX → wf_response r → evidence_bounded r →
  encode_response r = Ok payload → decode_response payload = Ok r.
Proof.
  intros H8 Hl Hwf Hev He.
  assert (validate_response r = Ok ()) as Hv by (unfold encode_response in He; by simplify_result).
  destruct (proj2 (response_valid_fits _ Hv) (conj Hwf Hev)) as [Hi Hf].
  apply encode_response_fits in He as [_ ->]; [|done].
  destruct (message_reads _ _ _ _ _ H8 Hl (reads_response _ Hf)) as (rd' & Hm & Hfin).
  unfold decode_response. rewrite inspect_header_repr by done.
  cbn [mbind result_bind header_is_current_magic header_request_id header_version negb].
  rewrite Z.eqb_refl. cbn [negb].
  rewrite after_header_repr by (destruct r; vm_compute; split; congruence).
  cbn [mbind result_bind rd_kind]. rewrite Hm. cbn [mbind result_bind]. rewrite Hfin. by rewrite Hv.
Qed.

(** ** Every encoding is a list of bytes *)

Lemma u8_counted {A : Type} (f : A → bytes) (P : A → Prop) l :
  (∀ x, P x → Forall is_u8 (f x)) → Forall P l → Forall is_u8 (counted_repr f l).
Proof. intros. apply u8_app; [apply le_bytes_u8|by eapply u8_bind]. Qed.

Lemma u8_outcome o : outcome_fits o → Forall is_u8 (outcome_repr o).
Proof.
  intros (? & ? & ? & ? & ?). unfold outcome_repr. u8s; [by apply u8_binding|].
  case_match; u8s. by eapply u8_counted; [exact u8_candidate|].
Qed.

#[local] Hint Resolve u8_outcome : u8.

Lemma u8_response r : response_fits r → Forall is_u8 (response_repr r).
Proof.
  destruct r; cbn [response_fits response_repr]; intros; destruct_and?; u8s; eauto with u8.
  all: try (eapply u8_counted; [|done]; by eauto with u8).
  all: try (eapply u8_bind; [|done]; by eauto with u8).
  all: try (apply u8_option; [done|]; intros; apply le_bytes_u8).
  - apply u8_byte. destruct capability; cbn; lia.
  - apply u8_byte. unfold MAX_SHARED_ROOTS in *. lia.
  - apply u8_option; [done|]. intros a Ha. exact (u8_array _ _ Ha).
Qed.

(** What validation accepts is encoded and read back. *)
Lemma encode_response_total r :
  wf_response r → evidence_bounded r → validate_response r = Ok () →
  ∃ payload, encode_response r = Ok payload ∧ Forall is_u8 payload ∧ (zlen payload ≤ USIZE_MAX → decode_response payload = Ok r).
Proof.
  intros Hw Hev Hv. destruct (proj2 (response_valid_fits r Hv) (conj Hw Hev)) as [_ Hfit].
  pose proof (proj2 (encode_response_fits r _ Hfit) (conj Hv eq_refl)) as He.
  eexists. split; [exact He|]. assert (Forall is_u8 (header_repr (response_kind r) (BrokerResponse_request_id r) ++ response_repr r)) as H8
    by (apply u8_app; [apply u8_header|by apply u8_response]).
  split; [done|]. intros Hl. by apply decode_response_complete.
Qed.

(** C11: the response codec is total and exact.  Every response that passes validation is encoded, and its bytes
    decode to it, for every response but a range response whose candidates carry more evidence
    than the protocol's limit: that one the broker can encode and the client refuses.  A byte string decodes to [r] if and
    only if encoding [r] gives that byte string, so a response has one encoding.  [wf_response] states only what Rust's types
    guarantee; for volume responses the limits the decoder checks after every element all follow from validation. *)
Theorem response_roundtrip :
  (∀ r, wf_response r → evidence_bounded r → validate_response r = Ok () →
     ∃ payload, encode_response r = Ok payload ∧ Forall is_u8 payload ∧
       (zlen payload ≤ USIZE_MAX → decode_response payload = Ok r)) ∧
  (∀ payload r, Forall is_u8 payload → zlen payload ≤ USIZE_MAX →
     decode_response payload = Ok r ↔ wf_response r ∧ evidence_bounded r ∧ encode_response r = Ok payload).
Proof.
  split; [exact encode_response_total|]. intros payload r H8 Hl. split; [by apply decode_response_sound|].
  intros (? & ? & ?). by apply decode_response_complete.
Qed.

(** A journal range read up to position 12 with one candidate at position 10, and its bytes. *)
Definition sample_binding : ResponseBinding :=
  {| binding_client_instance := replicate 16 5; binding_root_id := lit "r";
     binding_root_generation := 1; binding_volume_id := lit "v" |}.
Definition sample_response : BrokerResponse :=
  RespReadRange 9 sample_binding 3 10 20 8 4096 12 false
    [{| cand_scope := ScopeRelativePath (lit "a/b"); cand_previous_scope := None;
        cand_file_reference := replicate 8 1; cand_usn := 10; cand_kind := KindPath;
        cand_is_directory := false |}].
Definition sample_response_payload : bytes :=
  PROTOCOL_MAGIC ++ [5; 0; 2; 128; 9; 0; 0; 0; 0; 0; 0; 0] ++ replicate 16 5
  ++ [1; 0; 0; 0; 114; 1; 0; 0; 0; 0; 0; 0; 0; 1; 0; 0; 0; 118]
  ++ [3; 0; 0; 0; 0; 0; 0; 0; 10; 0; 0; 0; 0; 0; 0; 0; 20; 0; 0; 0; 0; 0; 0; 0]
  ++ [8; 0; 0; 0; 0; 16; 0; 0; 12; 0; 0; 0; 0; 0; 0; 0; 0; 1; 0; 0; 0]
  ++ [1; 3; 0; 0; 0; 97; 47; 98; 0; 8; 0; 0; 0] ++ replicate 8 1
  ++ [10; 0; 0; 0; 0; 0; 0; 0; 1; 0].

Lemma response_roundtrip_witness :
  wf_response sample_response ∧ evidence_bounded sample_response ∧
  encode_response sample_response = Ok sample_response_payload.
Proof.
  assert (Forall is_u8 sample_response_payload) as H8
    by (apply (bool_decide_unpack _); vm_compute; exact I).
  apply (proj2 response_roundtrip sample_response_payload sample_response H8); vm_compute;
    [discriminate|reflexivity].
Defined.
