(* ===== verification/Usn.v ===== *)
(** * Parsing of the NTFS change journal

    Models [windows_usn/parsing.rs] and the data of [windows_usn.rs]: the decoder of the buffers
    Windows returns for a journal read (record versions 2 and 3).  The theorems are totality, the
    inversion of the documented layout, and what an admitted record guarantees. *)

From S2P Require Import Prelude Text Wire CodecPrim.

(** ** Data *)

Inductive FileReference := V2 (value : bytes) | V3 (value : bytes).

#[export] Instance FileReference_eq_dec : EqDecision FileReference.
Proof. solve_decision. Defined.
#[export] Program Instance FileReference_countable : Countable FileReference :=
  inj_countable' (λ r, match r with V2 b => inl b | V3 b => inr b end)
                 (λ s, match s with inl b => V2 b | inr b => V3 b end) _.
Next Obligation. by intros []. Qed.

Definition FileReference_bytes (self : FileReference) : bytes :=
  match self with V2 value | V3 value => value end.

Record ParsedUsnRecord := {
  usn_file_reference : FileReference;
  usn_parent_reference : FileReference;
  usn_usn : Z;
  usn_timestamp_100ns : Z;
  usn_reason : Z;
  usn_file_attributes : Z;
  usn_name : str;
}.

Inductive UsnParseError := BufferMalformed | RecordMalformed | VersionUnsupported | NameInvalid.

Record DecodedUsnRecord := {
  dec_file_reference : FileReference;
  dec_parent_reference : FileReference;
  dec_usn : Z;
  dec_timestamp_100ns : Z;
  dec_reason : Z;
  dec_file_attributes : Z;
  dec_name : option str;
}.

(** ** Field readers *)

Definition read_array (n : Z) (buffer : bytes) (offset : Z) : Result UsnParseError bytes :=
  ok_or (value ← slice_get buffer offset (saturating_add USIZE_MAX offset n);
         if zlen value =? n then Some value else None) RecordMalformed.

Definition read_u16 (buffer : bytes) (offset : Z) : Result UsnParseError Z :=
  b ← read_array 2 buffer offset; Ok (le_value b).
Definition read_u32 (buffer : bytes) (offset : Z) : Result UsnParseError Z :=
  b ← read_array 4 buffer offset; Ok (le_value b).
Definition read_i64 (buffer : bytes) (offset : Z) : Result UsnParseError Z :=
  b ← read_array 8 buffer offset; Ok (to_signed 64 (le_value b)).

Definition is_multiple_of (a b : Z) : bool := a mod b =? 0.

(** ** Records *)

Definition decode_name (b : bytes) : Result UsnParseError (option str) :=
  if is_empty b then Ok None
  else
    name ← ok_or (from_utf16 (le_units b)) NameInvalid;
    if bool_decide (name = lit ".") || bool_decide (name = lit "..")
       || contains 92 name || contains 47 name || contains 0 name
    then Err NameInvalid else Ok (Some name).

(** The tuple the match on the version builds. *)
Record UsnLayout := {
  lay_file_reference : FileReference;
  lay_parent_reference : FileReference;
  lay_usn_offset : Z;
  lay_timestamp_offset : Z;
  lay_reason_offset : Z;
  lay_attributes_offset : Z;
  lay_name_length_offset : Z;
  lay_name_offset_offset : Z;
  lay_minimum_length : Z;
}.

Definition usn_layout (record : bytes) (version : Z) : Result UsnParseError UsnLayout :=
  if version =? 2 then
    file ← read_array 8 record 8;
    parent ← read_array 8 record 16;
    Ok {| lay_file_reference := V2 file; lay_parent_reference := V2 parent;
          lay_usn_offset := 24; lay_timestamp_offset := 32; lay_reason_offset := 40;
          lay_attributes_offset := 52; lay_name_length_offset := 56;
          lay_name_offset_offset := 58; lay_minimum_length := 60 |}
  else if version =? 3 then
    file ← read_array 16 record 8;
    parent ← read_array 16 record 24;
    Ok {| lay_file_reference := V3 file; lay_parent_reference := V3 parent;
          lay_usn_offset := 40; lay_timestamp_offset := 48; lay_reason_offset := 56;
          lay_attributes_offset := 68; lay_name_length_offset := 72;
          lay_name_offset_offset := 74; lay_minimum_length := 76 |}
  else Err VersionUnsupported.

Definition decode_usn_record (record : bytes) : Result UsnParseError DecodedUsnRecord :=
  version ← read_u16 record 4;
  layout ← usn_layout record version;
  if zlen record <? lay_minimum_length layout then Err RecordMalformed
  else
    name_length ← read_u16 record (lay_name_length_offset layout);
    name_offset ← read_u16 record (lay_name_offset_offset layout);
    if negb (is_multiple_of name_length 2) || negb (is_multiple_of name_offset 2)
       || (name_offset <? lay_minimum_length layout)
    then Err RecordMalformed
    else
      name_end ← ok_or (checked_add USIZE_MAX name_offset name_length) RecordMalformed;
      name_bytes ← ok_or (slice_get record name_offset name_end) RecordMalformed;
      name ← decode_name name_bytes;
      usn ← read_i64 record (lay_usn_offset layout);
      if usn <? 0 then Err RecordMalformed
      else
        timestamp ← read_i64 record (lay_timestamp_offset layout);
        reason ← read_u32 record (lay_reason_offset layout);
        attributes ← read_u32 record (lay_attributes_offset layout);
        Ok {| dec_file_reference := lay_file_reference layout;
              dec_parent_reference := lay_parent_reference layout;
              dec_usn := usn; dec_timestamp_100ns := timestamp; dec_reason := reason;
              dec_file_attributes := attributes; dec_name := name |}.

(** ** Buffers *)

Section Decode.
Context {Record_ S : Type}.
(** The closure [admit_record], a [FnMut] with captured state [S]. *)
Context (admit_record : DecodedUsnRecord → ST UsnParseError S Record_).

(** One iteration of the [while] loop: the admitted record and the next offset. *)
Definition decode_next (buffer : bytes) (offset : Z) (s : S)
    : Result UsnParseError (Record_ * S * Z) :=
  remaining ← ok_or (slice_get buffer offset (zlen buffer)) BufferMalformed;
  if zlen remaining <? 8 then Err BufferMalformed
  else
    record_length ← read_u32 remaining 0;
    if (record_length <? 60) || negb (is_multiple_of record_length 8)
       || (zlen remaining <? record_length)
    then Err RecordMalformed
    else
      bytes ← ok_or (slice_get remaining 0 record_length) RecordMalformed;
      record ← decode_usn_record bytes;
      admitted ← admit_record record s;
      offset ← ok_or (checked_add USIZE_MAX offset record_length) RecordMalformed;
      Ok (admitted, offset).

(** The [while] loop; [None] means that [fuel] iterations were not enough. *)
Fixpoint decode_records (fuel : nat) (buffer : bytes) (offset : Z) (s : S)
    : option (Result UsnParseError (list Record_ * S)) :=
  if zlen buffer <=? offset then Some (Ok ([], s))
  else
    match fuel with
    | O => None
    | Datatypes.S fuel =>
      match decode_next buffer offset s with
      | Err e => Some (Err e)
      | Ok (admitted, s, offset) =>
        option_map (λ r, '(records, s) ← r; Ok (admitted :: records, s))
                   (decode_records fuel buffer offset s)
      end
    end.

Definition decode_journal_buffer (fuel : nat) (buffer : bytes) (s : S)
    : option (Result UsnParseError (Z * list Record_ * S)) :=
  if zlen buffer <? 8 then Some (Err BufferMalformed)
  else
    match map_err (λ _, BufferMalformed) (read_i64 buffer 0) with
    | Err e => Some (Err e)
    | Ok next_usn =>
      option_map (λ r, '(records, s) ← r; Ok (next_usn, records, s)) (decode_records fuel buffer 8 s)
    end.

End Decode.

Definition admit_named (record : DecodedUsnRecord) : ST UsnParseError unit ParsedUsnRecord := λ s,
  name ← ok_or (dec_name record) NameInvalid;
  Ok ({| usn_file_reference := dec_file_reference record;
         usn_parent_reference := dec_parent_reference record;
         usn_usn := dec_usn record;
         usn_timestamp_100ns := dec_timestamp_100ns record;
         usn_reason := dec_reason record;
         usn_file_attributes := dec_file_attributes record;
         usn_name := name |}, s).

(** Every record is at least 60 bytes long, so a buffer never holds more than its length. *)
Definition parse_journal_buffer (buffer : bytes)
    : option (Result UsnParseError (Z * list ParsedUsnRecord)) :=
  option_map (λ r, '(next_usn, records, _) ← r; Ok (next_usn, records))
    (decode_journal_buffer admit_named (length buffer) buffer ()).

(** ** Termination of the decoder *)

Lemma read_u32_range b o z : Forall is_u8 b → read_u32 b o = Ok z → is_u32 z.
Proof.
  unfold read_u32, read_array. intros H8 H. simplify_result.
  match goal with H : _ ≫= _ = Some _ |- _ => apply bind_Some in H as (v & Hs & Hv) end.
  destruct (_ =? _) eqn:E in Hv; simplify_eq. apply slice_u8 in Hs as [Hs _]; [|done].
  pose proof (le_value_range _ Hs) as Hr. apply Z.eqb_eq in E. by rewrite E in Hr.
Qed.

Section Termination.
Context {Record_ S : Type} (admit_record : DecodedUsnRecord → ST UsnParseError S Record_).

Lemma decode_next_progress buffer offset s a o :
  decode_next admit_record buffer offset s = Ok (a, o) → offset + 60 ≤ o.
Proof.
  unfold decode_next. intros E. simplify_result. destruct (_ <? _) in E; [done|]. simplify_result.
  destruct (_ || _) eqn:E2 in E; [done|]. simplify_result. simplify_eq.
  match goal with H : checked_add _ _ _ = Some _ |- _ =>
    unfold checked_add in H; destruct (_ <=? _) in H; simplify_eq end. lia.
Qed.

Lemma decode_records_fuel fuel buffer offset s :
  zlen buffer - offset ≤ Z.of_nat fuel → is_Some (decode_records admit_record fuel buffer offset s).
Proof.
  revert offset s. induction fuel as [|fuel IH]; intros offset s Hf; cbn [decode_records].
  { replace (_ <=? _) with true by lia. by eexists. }
  destruct (_ <=? _); [by eexists|].
  destruct (decode_next _ _ _ _) as [[[a s'] o]|e] eqn:E; [|by eexists].
  apply decode_next_progress in E. destruct (IH o s') as [r ->]; [lia|]. by eexists.
Qed.

End Termination.

Lemma parsing_total buffer : is_Some (parse_journal_buffer buffer).
Proof.
  unfold parse_journal_buffer, decode_journal_buffer. destruct (_ <? _); [by eexists|].
  destruct (map_err _ _); [|by eexists].
  destruct (decode_records_fuel admit_named (length buffer) buffer 8 ()) as [r ->]; [unfold zlen; lia|].
  by eexists.
Qed.

(** Parsing a journal buffer always terminates with a result: the loop makes progress by at least
    one record of 60 bytes, whatever the record lengths in the buffer claim. *)
Theorem parse_journal_buffer_total buffer : is_Some (parse_journal_buffer buffer).
Proof. apply parsing_total. Qed.

(** ** Reference serialization

    The record layout Windows documents, written from the fields; the decoder must invert it. *)

Definition name_bytes_of (name : str) : bytes := encode_utf16 name ≫= le_bytes 2.

Definition usn_version (r : FileReference) : Z := match r with V2 _ => 2 | V3 _ => 3 end.
Definition usn_fixed_length (r : FileReference) : Z := match r with V2 _ => 60 | V3 _ => 76 end.

Definition usn_record_length (r : ParsedUsnRecord) : Z :=
  8 * ((usn_fixed_length (usn_file_reference r) + zlen (name_bytes_of (usn_name r)) + 7) / 8).

Definition usn_record_fields (r : ParsedUsnRecord) : list bytes :=
  let fixed := usn_fixed_length (usn_file_reference r) in
  let name := name_bytes_of (usn_name r) in
  [ le_bytes 4 (usn_record_length r); le_bytes 2 (usn_version (usn_file_reference r));
    le_bytes 2 0; FileReference_bytes (usn_file_reference r);
    FileReference_bytes (usn_parent_reference r); le_bytes 8 (usn_usn r);
    le_bytes 8 (usn_timestamp_100ns r mod 2 ^ 64); le_bytes 4 (usn_reason r); le_bytes 4 0;
    le_bytes 4 0; le_bytes 4 (usn_file_attributes r); le_bytes 2 (zlen name); le_bytes 2 fixed;
    name; replicate (Z.to_nat (usn_record_length r - fixed - zlen name)) 0 ].

Definition encode_usn_record (r : ParsedUsnRecord) : bytes := concat (usn_record_fields r).

Definition encode_journal_buffer (next_usn : Z) (records : list ParsedUsnRecord) : bytes :=
  le_bytes 8 (next_usn mod 2 ^ 64) ++ concat (encode_usn_record <$> records).

Definition same_version (a b : FileReference) : Prop :=
  match a, b with
  | V2 a, V2 b => is_array 8 a ∧ is_array 8 b
  | V3 a, V3 b => is_array 16 a ∧ is_array 16 b
  | _, _ => False
  end.

Record journal_name (name : str) : Prop := {
  jn_str : is_str name;
  jn_ne : name ≠ [];
  jn_dot : name ≠ lit "." ∧ name ≠ lit "..";
  jn_separator : 92 ∉ name ∧ 47 ∉ name ∧ 0 ∉ name;
}.

(** The records the decoder admits. *)
Record wf_usn_record (r : ParsedUsnRecord) : Prop := {
  wu_references : same_version (usn_file_reference r) (usn_parent_reference r);
  wu_usn : 0 ≤ usn_usn r < 2 ^ 63;
  wu_timestamp : is_i64 (usn_timestamp_100ns r);
  wu_reason : is_u32 (usn_reason r);
  wu_attributes : is_u32 (usn_file_attributes r);
  wu_name : journal_name (usn_name r);
  wu_name_size : is_u16 (zlen (name_bytes_of (usn_name r)));
}.

(** Reading one field of a concatenation. *)
Lemma slice_field (fs : list bytes) i f lo hi :
  fs !! i = Some f → lo = zlen (concat (take i fs)) → hi = lo + zlen f →
  slice_get (concat fs) lo hi = Some f.
Proof.
  intros Hi -> ->. rewrite <-(take_drop_middle fs i f Hi) at 1. rewrite concat_app. simpl.
  by apply slice_get_app.
Qed.

Lemma read_field (fs : list bytes) i f n lo :
  fs !! i = Some f → lo = zlen (concat (take i fs)) → n = zlen f → lo + n ≤ USIZE_MAX →
  read_array n (concat fs) lo = Ok f.
Proof.
  intros Hi Hlo -> Hu. unfold read_array, saturating_add.
  rewrite (slice_field fs i f) by (done || lia). simpl. by rewrite Z.eqb_refl.
Qed.

Lemma decode_name_ok name : journal_name name → decode_name (name_bytes_of name) = Ok (Some name).
Proof.
  intros [Hs Hne [Hd Hdd] (Hb & Hf & H0)]. unfold decode_name, name_bytes_of.
  rewrite is_empty_zlen, zlen_units.
  replace (_ =? 0) with false.
  2: { destruct name; [done|]. pose proof (zlen_utf16 (z :: name)). rewrite zlen_cons in *.
       pose proof (zlen_nonneg name). lia. }
  rewrite le_units_bytes by by apply encode_utf16_u16. rewrite from_utf16_encode by done. simpl.
  rewrite !bool_decide_eq_false_2 by done.
  by rewrite !(proj2 (contains_false _ _)) by done.
Qed.

Lemma name_bytes_even name : is_multiple_of (zlen (name_bytes_of name)) 2 = true.
Proof.
  unfold is_multiple_of, name_bytes_of. rewrite zlen_units, Z.mul_comm, Z.mod_mul by lia. done.
Qed.

Lemma usn_record_length_bounds r :
  wf_usn_record r →
  let n := usn_fixed_length (usn_file_reference r) + zlen (name_bytes_of (usn_name r)) in
  n ≤ usn_record_length r < n + 8 ∧ is_multiple_of (usn_record_length r) 8 = true ∧
  60 ≤ usn_record_length r < 2 ^ 32.
Proof.
  intros [_ _ _ _ _ _ Hn]. unfold usn_record_length, is_multiple_of, is_uint in *.
  rewrite (Z.mul_comm 8), Z.mod_mul by lia.
  pose proof (Z.div_mod (usn_fixed_length (usn_file_reference r) +
    zlen (name_bytes_of (usn_name r)) + 7) 8 ltac:(lia)).
  pose proof (Z.mod_pos_bound (usn_fixed_length (usn_file_reference r) +
    zlen (name_bytes_of (usn_name r)) + 7) 8 ltac:(lia)).
  assert (60 ≤ usn_fixed_length (usn_file_reference r) ≤ 76) by (destruct (usn_file_reference r); simpl; lia).
  lia.
Qed.

Lemma zlen_encode_usn_record r : wf_usn_record r → zlen (encode_usn_record r) = usn_record_length r.
Proof.
  intros Hw. pose proof (usn_record_length_bounds r Hw) as (Hb & _ & _). destruct Hw as [Hr _ _ _ _ _ _].
  unfold encode_usn_record, usn_record_fields. cbn [concat]. autorewrite with zlen.
  destruct (usn_file_reference r), (usn_parent_reference r); simpl in *; try done;
    destruct Hr as [[_ ->] [_ ->]]; lia.
Qed.

(** The fields of an encoded record at their offsets, for references of [w] bytes. *)
Lemma usn_record_reads r w :
  let e := encode_usn_record r in
  let name := name_bytes_of (usn_name r) in
  0 ≤ w ≤ 16 → zlen (FileReference_bytes (usn_file_reference r)) = w →
  zlen (FileReference_bytes (usn_parent_reference r)) = w →
  read_array 2 e 4 = Ok (le_bytes 2 (usn_version (usn_file_reference r))) ∧
  read_array w e 8 = Ok (FileReference_bytes (usn_file_reference r)) ∧
  read_array w e (8 + w) = Ok (FileReference_bytes (usn_parent_reference r)) ∧
  read_array 8 e (8 + 2 * w) = Ok (le_bytes 8 (usn_usn r)) ∧
  read_array 8 e (16 + 2 * w) = Ok (le_bytes 8 (usn_timestamp_100ns r mod 2 ^ 64)) ∧
  read_array 4 e (24 + 2 * w) = Ok (le_bytes 4 (usn_reason r)) ∧
  read_array 4 e (36 + 2 * w) = Ok (le_bytes 4 (usn_file_attributes r)) ∧
  read_array 2 e (40 + 2 * w) = Ok (le_bytes 2 (zlen name)) ∧
  read_array 2 e (42 + 2 * w) = Ok (le_bytes 2 (usn_fixed_length (usn_file_reference r))) ∧
  slice_get e (44 + 2 * w) (44 + 2 * w + zlen name) = Some name.
Proof.
  intros e name Hw Hf Hp. unfold e, encode_usn_record.
  assert (∀ i f n lo, usn_record_fields r !! i = Some f →
    lo = zlen (concat (take i (usn_record_fields r))) → n = zlen f → lo + n ≤ 2 ^ 17 →
    read_array n (concat (usn_record_fields r)) lo = Ok f) as Hread.
  { intros. eapply read_field; [done..|]. unfold USIZE_MAX. lia. }
  split_and!.
  all: first [ eapply (Hread 1%nat); [reflexivity|..] | eapply (Hread 3%nat); [reflexivity|..]
             | eapply (Hread 4%nat); [reflexivity|..] | eapply (Hread 5%nat); [reflexivity|..]
             | eapply (Hread 6%nat); [reflexivity|..] | eapply (Hread 7%nat); [reflexivity|..]
             | eapply (Hread 10%nat); [reflexivity|..] | eapply (Hread 11%nat); [reflexivity|..]
             | eapply (Hread 12%nat); [reflexivity|..] | eapply (slice_field _ 13); [reflexivity|..] ].
  all: cbn [usn_record_fields take concat]; autorewrite with zlen; rewrite ?Hf, ?Hp; lia.
Qed.

Lemma le_value_uint n z : is_uint (8 * Z.of_nat n) z → le_value (le_bytes n z) = z.
Proof.
  intros H. rewrite le_value_bytes. apply Z.mod_small. unfold is_uint in H.
  by rewrite (Z.pow_mul_r 2 8) in H by lia.
Qed.

Lemma to_signed_small w z : z < 2 ^ (w - 1) → to_signed w z = z.
Proof. unfold to_signed. intros. by replace (_ <? _) with true by lia. Qed.

#[local] Ltac eval_offsets H :=
  repeat match type of H with
  | context [Z.mul (Zpos ?a) (Zpos ?b)] =>
    let c := eval vm_compute in (Zpos a * Zpos b) in change (Zpos a * Zpos b) with c in H
  | context [Z.add (Zpos ?a) (Zpos ?b)] =>
    let c := eval vm_compute in (Zpos a + Zpos b) in change (Zpos a + Zpos b) with c in H
  end.

Lemma decode_encode_usn_record r :
  wf_usn_record r →
  decode_usn_record (encode_usn_record r) =
  Ok {| dec_file_reference := usn_file_reference r; dec_parent_reference := usn_parent_reference r;
        dec_usn := usn_usn r; dec_timestamp_100ns := usn_timestamp_100ns r;
        dec_reason := usn_reason r; dec_file_attributes := usn_file_attributes r;
        dec_name := Some (usn_name r) |}.
Proof.
  intros Hw. pose proof (usn_record_length_bounds r Hw) as (Hb & _ & _).
  pose proof (zlen_encode_usn_record r Hw) as Hl. destruct Hw as [Hr Hu Ht Hre Ha Hn Hns].
  pose proof (usn_record_reads r (match usn_file_reference r with V2 _ => 8 | V3 _ => 16 end)) as H.
  unfold decode_usn_record, usn_layout, read_u16, read_u32, read_i64.
  destruct (usn_file_reference r) as [fb|fb], (usn_parent_reference r) as [pb|pb]; try done;
    destruct Hr as [[Hf8 Hf] [Hp8 Hp]]; cbn [FileReference_bytes usn_version usn_fixed_length] in H, Hb;
    eval_offsets H;
    destruct H as (H1 & H2 & H3 & H4 & H5 & H6 & H7 & H8 & H9 & H10); try done; try lia.
  all: rewrite H1; cbn [mbind result_bind]; rewrite le_value_uint by (vm_compute; split; congruence);
    cbn [Z.eqb Pos.eqb]; rewrite H2; cbn [mbind result_bind]; rewrite H3;
    cbn [mbind result_bind lay_minimum_length lay_name_length_offset lay_name_offset_offset
         lay_usn_offset lay_timestamp_offset lay_reason_offset lay_attributes_offset
         lay_file_reference lay_parent_reference].
  all: rewrite Hl; replace (_ <? _) with false by len; rewrite H8; cbn [mbind result_bind];
    rewrite H9; cbn [mbind result_bind]; rewrite (le_value_uint 2) by exact Hns;
    rewrite le_value_uint by (vm_compute; split; congruence); rewrite name_bytes_even;
    match goal with |- context [negb true || negb (is_multiple_of ?a 2) || (?b <? ?c)] =>
      change (negb true || negb (is_multiple_of a 2) || (b <? c)) with false end;
    cbv iota.
  all: unfold checked_add, is_uint, USIZE_MAX in *; replace (_ <=? _) with true by lia;
    cbn [ok_or mbind result_bind]; rewrite H10; cbn [ok_or mbind result_bind];
    rewrite decode_name_ok by done; cbn [mbind result_bind]; rewrite H4; cbn [mbind result_bind];
    rewrite (le_value_uint 8) by (unfold is_uint; lia);
    rewrite (to_signed_small 64 (usn_usn r)) by exact (proj2 Hu);
    replace (usn_usn r <? 0) with false by lia; rewrite H5; cbn [mbind result_bind];
    rewrite (le_value_uint 8) by (apply Z.mod_pos_bound; lia); rewrite to_signed_wrap by done;
    rewrite H6; cbn [mbind result_bind]; rewrite (le_value_uint 4) by exact Hre; rewrite H7;
    cbn [mbind result_bind]; by rewrite (le_value_uint 4) by exact Ha.
Qed.

(** One iteration of the decoder at an encoded record. *)
Lemma decode_next_encoded pre r post :
  wf_usn_record r → zlen (pre ++ encode_usn_record r ++ post) ≤ USIZE_MAX →
  decode_next admit_named (pre ++ encode_usn_record r ++ post) (zlen pre) () =
  Ok (r, (), zlen pre + zlen (encode_usn_record r)).
Proof.
  intros Hw Hsize. pose proof (zlen_encode_usn_record r Hw) as Hl.
  pose proof (usn_record_length_bounds r Hw) as (_ & Hm & Hb).
  unfold decode_next. rewrite <-(app_nil_r (encode_usn_record r ++ post)) at 1.
  rewrite (slice_get_app pre _ []) by (autorewrite with zlen; lia). cbn [ok_or mbind result_bind].
  pose proof (zlen_nonneg post). rewrite zlen_app, Hl. replace (_ <? 8) with false by lia.
  assert (read_u32 (encode_usn_record r ++ post) 0 = Ok (usn_record_length r)) as ->.
  { unfold read_u32, read_array, encode_usn_record, saturating_add. cbn [usn_record_fields concat].
    rewrite <-app_assoc, slice_get_prefix by (autorewrite with zlen; done).
    cbn [mbind option_bind]. rewrite zlen_le_bytes. simpl. rewrite (le_value_uint 4); [done|].
    unfold is_uint. lia. }
  cbn [mbind result_bind]. rewrite Hm. replace (_ || _) with false by (simpl; lia).
  rewrite slice_get_prefix by done. cbn [ok_or mbind result_bind].
  rewrite decode_encode_usn_record by done. cbn [mbind result_bind].
  unfold admit_named. cbn [ok_or dec_name mbind result_bind]. unfold checked_add.
  rewrite !zlen_app, Hl in Hsize.
  replace (_ <=? _) with true by lia. simpl. by destruct r.
Qed.

Lemma decode_records_encoded fuel pre rs :
  Forall wf_usn_record rs → zlen (pre ++ concat (encode_usn_record <$> rs)) ≤ USIZE_MAX →
  (length rs ≤ fuel)%nat →
  decode_records admit_named fuel (pre ++ concat (encode_usn_record <$> rs)) (zlen pre) () =
  Some (Ok (rs, ())).
Proof.
  intros Hrs. revert fuel pre. induction Hrs as [|r rs Hr Hrs IH]; intros fuel pre Hsize Hf.
  { simpl. rewrite app_nil_r. unfold decode_records. destruct fuel; by rewrite Z.leb_refl. }
  destruct fuel as [|fuel]; [simpl in Hf; lia|]. rewrite fmap_cons in *. cbn [concat] in *.
  cbn [decode_records]. pose proof (usn_record_length_bounds r Hr) as (_ & _ & Hb).
  rewrite <-(zlen_encode_usn_record r Hr) in Hb.
  replace (_ <=? zlen pre) with false by len.
  rewrite decode_next_encoded by done. rewrite <-zlen_app, app_assoc, IH.
  - done.
  - by rewrite <-app_assoc.
  - simpl in Hf. lia.
Qed.

(** C28: the journal parser inverts the documented record layout.  A buffer holding any sequence of
    well-formed version 2 and version 3 records parses to exactly these records, in order, with the
    position the read continues from. *)
Theorem usn_roundtrip next_usn records :
  is_i64 next_usn → Forall wf_usn_record records →
  zlen (encode_journal_buffer next_usn records) ≤ USIZE_MAX →
  parse_journal_buffer (encode_journal_buffer next_usn records) = Some (Ok (next_usn, records)).
Proof.
  intros Hn Hrs Hsize. unfold parse_journal_buffer, decode_journal_buffer.
  pose proof (zlen_nonneg (concat (encode_usn_record <$> records))).
  unfold encode_journal_buffer in *. rewrite zlen_app, zlen_le_bytes at 1.
  rewrite (proj2 (Z.ltb_ge _ 8)) by lia.
  assert (read_i64 (le_bytes 8 (next_usn mod 2 ^ 64) ++ concat (encode_usn_record <$> records)) 0 =
          Ok next_usn) as ->.
  { unfold read_i64, read_array, saturating_add. rewrite slice_get_prefix by (autorewrite with zlen; done).
    cbn [mbind option_bind]. rewrite zlen_le_bytes. simpl.
    rewrite (le_value_uint 8) by (apply Z.mod_pos_bound; lia). by rewrite to_signed_wrap. }
  cbn [map_err].
  replace 8 with (zlen (le_bytes 8 (next_usn mod 2 ^ 64))) at 3 by by rewrite zlen_le_bytes.
  rewrite decode_records_encoded; [done|done|done|].
  rewrite length_app. transitivity (length (concat (encode_usn_record <$> records))); [|lia].
  clear Hsize H. induction Hrs as [|r rs Hr Hrs IH]; [done|]. rewrite fmap_cons. cbn [concat].
  rewrite length_app. pose proof (usn_record_length_bounds r Hr) as (_ & _ & Hb).
  rewrite <-(zlen_encode_usn_record r Hr) in Hb. unfold zlen in Hb. simpl. lia.
Qed.

Definition sample_record : ParsedUsnRecord :=
  {| usn_file_reference := V2 [1; 0; 0; 0; 0; 0; 1; 0];
     usn_parent_reference := V2 [5; 0; 0; 0; 0; 0; 5; 0];
     usn_usn := 4096; usn_timestamp_100ns := -7; usn_reason := 0x100; usn_file_attributes := 32;
     usn_name := lit "a.png" |}.

Lemma sample_record_wf : wf_usn_record sample_record.
Proof.
  split; try (vm_compute; split; congruence).
  - repeat split; apply (bool_decide_unpack _); vm_compute; exact I.
  - split; try (apply (bool_decide_unpack _); vm_compute; exact I).
Qed.

Lemma usn_roundtrip_witness :
  parse_journal_buffer (encode_journal_buffer 8192 [sample_record]) =
  Some (Ok (8192, [sample_record])).
Proof.
  apply (usn_roundtrip 8192 [sample_record]).
  - vm_compute. split; congruence.
  - apply Forall_cons. split; [exact sample_record_wf|constructor].
  - vm_compute. congruence.
Defined.

(** ** What the parser admits *)

Lemma read_array_sound n b o v :
  Forall is_u8 b → read_array n b o = Ok v → is_array n v.
Proof.
  unfold read_array. intros H8 H. simplify_result.
  match goal with H : _ ≫= _ = Some _ |- _ => apply bind_Some in H as (w & Hs & Hv) end.
  destruct (_ =? _) eqn:E in Hv; simplify_eq. apply slice_u8 in Hs as [Hs _]; [|done].
  split; [done|lia].
Qed.

Lemma read_i64_sound b o z : Forall is_u8 b → read_i64 b o = Ok z → is_i64 z.
Proof.
  unfold read_i64. intros H8 H. simplify_result.
  match goal with H : read_array _ _ _ = _ |- _ => apply read_array_sound in H as [Hv Hl]; [|done] end.
  apply to_signed_range; [lia|]. pose proof (le_value_range _ Hv) as Hr. rewrite Hl in Hr. exact Hr.
Qed.

Lemma usn_layout_sound b v l :
  Forall is_u8 b → usn_layout b v = Ok l →
  same_version (lay_file_reference l) (lay_parent_reference l).
Proof.
  unfold usn_layout. intros H8 H.
  destruct (_ =? 2); [|destruct (_ =? 3); [|done]]; simplify_result;
    repeat match goal with H : read_array _ _ _ = _ |- _ => apply read_array_sound in H; [|done] end;
    by simpl.
Qed.

Lemma decode_name_sound b name :
  Forall is_u8 b → zlen b mod 2 = 0 → decode_name b = Ok (Some name) →
  journal_name name ∧ name_bytes_of name = b.
Proof.
  unfold decode_name. intros H8 He H. destruct (is_empty b) eqn:Eb; [done|]. simplify_result.
  destruct (_ || _) eqn:E in H; [done|]. simplify_result. simplify_eq.
  rewrite !orb_false_iff, !bool_decide_eq_false, !contains_false in E.
  match goal with H : from_utf16 _ = _ |- _ => rename H into Hu end.
  destruct (le_units_sound b H8 (zlen b / 2)) as (H16 & Hb & _).
  { pose proof (Z.div_mod (zlen b) 2). lia. }
  apply from_utf16_Some in Hu as [Hs Hu]; [|done].
  split; [split; [done| |tauto|tauto]|by unfold name_bytes_of; rewrite Hu].
  intros ->. simpl in Hu. rewrite <-Hu in Hb. by destruct b.
Qed.

Lemma decode_usn_record_sound b r name :
  Forall is_u8 b → decode_usn_record b = Ok r → dec_name r = Some name →
  same_version (dec_file_reference r) (dec_parent_reference r) ∧ 0 ≤ dec_usn r < 2 ^ 63 ∧
  is_i64 (dec_timestamp_100ns r) ∧ is_u32 (dec_reason r) ∧ is_u32 (dec_file_attributes r) ∧
  journal_name name ∧ is_u16 (zlen (name_bytes_of name)).
Proof.
  unfold decode_usn_record. intros H8 H Hname. simplify_result.
  destruct (_ <? _) in H; [done|]. simplify_result.
  destruct (_ || _) eqn:E in H; [done|]. simplify_result.
  destruct (_ <? 0) eqn:E0 in H; [done|]. simplify_result. simpl in *. simplify_eq.
  repeat match goal with
  | H : usn_layout _ _ = _ |- _ => apply usn_layout_sound in H; [|done]
  | H : read_i64 _ _ = _ |- _ => apply read_i64_sound in H; [|done]
  | H : read_u32 _ _ = _ |- _ => apply read_u32_range in H; [|done]
  | H : slice_get _ _ _ = Some _ |- _ => apply slice_u8 in H as [? ?]; [|done]
  | H : checked_add _ _ _ = Some _ |- _ =>
    unfold checked_add in H; destruct (_ <=? _) in H; simplify_eq
  end.
  assert (is_u16 x1) as Hx1.
  { match goal with H : read_u16 _ _ = Ok x1 |- _ => unfold read_u16 in H; simplify_result;
      match goal with H : read_array _ _ _ = _ |- _ => apply read_array_sound in H as [Hv Hl]; [|done] end;
      pose proof (le_value_range _ Hv) as Hr; rewrite Hl in Hr; exact Hr end. }
  match goal with H : decode_name _ = _ |- _ => apply decode_name_sound in H as [? Hb]; [|done|] end.
  - unfold is_sint in *. split_and!; try done; try lia. rewrite Hb.
    match goal with H : zlen _ = _ |- _ => rewrite H end. by replace (_ + _ - _) with x1 by lia.
  - match goal with H : zlen _ = _ |- _ => rewrite H end. replace (_ + _ - _) with x1 by lia.
    unfold is_multiple_of in E. lia.
Qed.

Lemma decode_next_sound buffer offset s r s' o :
  Forall is_u8 buffer → decode_next admit_named buffer offset s = Ok (r, s', o) → wf_usn_record r.
Proof.
  unfold decode_next, admit_named. intros H8 E. simplify_result. destruct (_ <? _) in E; [done|].
  simplify_result. destruct (_ || _) in E; [done|]. simplify_result. simplify_eq.
  match goal with H : slice_get buffer _ _ = _ |- _ => apply slice_u8 in H as [? _]; [|done] end.
  match goal with H : slice_get _ 0 _ = _ |- _ => apply slice_u8 in H as [? _]; [|done] end.
  match goal with H : decode_usn_record _ = _, Hn : dec_name _ = _ |- _ =>
    eapply decode_usn_record_sound in H; [|done|exact Hn] end.
  destruct_and?. by split.
Qed.

Lemma decode_records_sound fuel buffer offset s rs s' :
  Forall is_u8 buffer → decode_records admit_named fuel buffer offset s = Some (Ok (rs, s')) →
  Forall wf_usn_record rs.
Proof.
  intros H8. revert offset s rs. induction fuel as [|fuel IH]; intros offset s rs H;
    cbn [decode_records] in H; (destruct (_ <=? _); [simplify_eq; constructor|]); [done|].
  destruct (decode_next _ _ _ _) as [[[r s1] o]|e] eqn:E; [|done].
  destruct (decode_records admit_named fuel buffer o s1) as [[[rs1 s2]|]|] eqn:E1; simplify_eq/=.
  constructor; [by eapply decode_next_sound|by eapply IH].
Qed.

Lemma parsed_wf buffer next_usn records :
  Forall is_u8 buffer → parse_journal_buffer buffer = Some (Ok (next_usn, records)) →
  Forall wf_usn_record records.
Proof.
  unfold parse_journal_buffer, decode_journal_buffer. intros H8 H. destruct (_ <? _); [done|].
  destruct (map_err _ _); [|done].
  destruct (decode_records _ _ _ _ _) as [[[rs s]|]|] eqn:E; simplify_eq/=.
  by eapply decode_records_sound.
Qed.

(** Whatever bytes the journal read returned, the records the parser admits are well formed:
    both references have the record's version and width, positions are not negative, and names are
    nonempty, valid UTF-16, and neither a dot entry nor able to name anything but a direct child. *)
Theorem parse_journal_buffer_sound buffer next_usn records :
  Forall is_u8 buffer → parse_journal_buffer buffer = Some (Ok (next_usn, records)) →
  Forall wf_usn_record records.
Proof. apply parsed_wf. Qed.

Lemma parse_journal_buffer_sound_witness :
  Forall wf_usn_record [sample_record].
Proof.
  apply (parse_journal_buffer_sound (encode_journal_buffer 8192 [sample_record]) 8192).
  - apply (bool_decide_unpack _). vm_compute. exact I.
  - vm_compute. reflexivity.
Defined.
