(* ===== verification/UsnPath.v ===== *)
(** * Historical paths of journal records

    Models [reference_histories], [historical_parent_record] and [resolve_reference_path_with] of
    [windows_usn.rs]: a file reference is resolved to the path it had at a journal position by
    following, record by record, the parent its history names, until a reference without history is
    opened. *)

From Stdlib Require Import Sorted.
From S2P Require Import Prelude Text Usn.

Abbreviation ReferenceHistories := (gmap FileReference (list nat)).

(** The [for] loop of [reference_histories] from position [index] on. *)
Fixpoint extend_histories (histories : ReferenceHistories) (index : nat)
    (records : list ParsedUsnRecord) : ReferenceHistories :=
  match records with
  | [] => histories
  | record :: records =>
    let reference := usn_file_reference record in
    extend_histories
      (<[reference := default [] (histories !! reference) ++ [index]]> histories)
      (S index) records
  end.

Definition reference_histories (records : list ParsedUsnRecord) : ReferenceHistories :=
  extend_histories ∅ 0 records.

Definition USN_REASON_FILE_DELETE : Z := 0x200.
Definition USN_REASON_RENAME_OLD_NAME : Z := 0x1000.

Definition historical_parent_record (indices : list nat) (records : list ParsedUsnRecord)
    (before_usn : Z) : option ParsedUsnRecord :=
  match find (λ record, usn_usn record <? before_usn)
             (omap (λ index, records !! index) (reverse indices)) with
  | Some record => Some record
  | None =>
    find (λ record, (before_usn <=? usn_usn record)
            && negb (Z.land (usn_reason record)
                       (Z.lor USN_REASON_FILE_DELETE USN_REASON_RENAME_OLD_NAME) =? 0))
         (omap (λ index, records !! index) indices)
  end.

Inductive ReferenceResolutionError (CallbackError : Type) :=
| CycleOrDepth
| Callback (e : CallbackError).
Arguments CycleOrDepth {_}.
Arguments Callback {_} e.

Section Resolve.
Context {Path CallbackError : Type}.
Context (records : list ParsedUsnRecord) (histories : ReferenceHistories).
Context (open_reference : FileReference → Result CallbackError Path).
Context (append_name : Path → str → Result CallbackError Path).

(** The record that names the parent of [reference] as of [before_usn]. *)
Definition historical (reference : FileReference) (before_usn : Z) : option ParsedUsnRecord :=
  indices ← histories !! reference; historical_parent_record indices records before_usn.

(** The set [visiting] is shared by the recursive calls: it is returned with every result.  [None]
    means that [fuel] nested calls were not enough. *)
Fixpoint resolve_reference_path_with (fuel : nat) (reference : FileReference) (before_usn : Z)
    (visiting : gset FileReference)
    : option (Result (ReferenceResolutionError CallbackError) Path * gset FileReference) :=
  match fuel with
  | O => None
  | S fuel =>
    let is_new := bool_decide (reference ∉ visiting) in
    let visiting := {[ reference ]} ∪ visiting in
    if negb is_new || (256 <? Z.of_nat (size visiting)) then Some (Err CycleOrDepth, visiting)
    else
      match historical reference before_usn with
      | Some parent_record =>
        '(parent, visiting) ← resolve_reference_path_with fuel
            (usn_parent_reference parent_record) (usn_usn parent_record) visiting;
        match parent with
        | Err e => Some (Err e, visiting)
        | Ok parent =>
          Some (map_err Callback (append_name parent (usn_name parent_record)),
                visiting ∖ {[ reference ]})
        end
      | None => Some (map_err Callback (open_reference reference), visiting ∖ {[ reference ]})
      end
  end.

End Resolve.


(** ** Histories *)

(** The positions, from [index] on, of the records of [reference]. *)
Fixpoint positions (reference : FileReference) (index : nat) (records : list ParsedUsnRecord)
    : list nat :=
  match records with
  | [] => []
  | r :: rs =>
    (if decide (usn_file_reference r = reference) then [index] else []) ++
    positions reference (S index) rs
  end.

Lemma extend_histories_lookup h index records reference :
  extend_histories h index records !! reference =
  match positions reference index records with
  | [] => h !! reference
  | ps => Some (default [] (h !! reference) ++ ps)
  end.
Proof.
  revert h index. induction records as [|r rs IH]; intros h index; [done|].
  cbn [extend_histories positions]. rewrite IH.
  destruct (decide (usn_file_reference r = reference)) as [->|Hne]; simpl.
  - rewrite lookup_insert_eq. simpl.
    destruct (positions reference (S index) rs); [done|]. by rewrite <-app_assoc.
  - rewrite lookup_insert_ne by done. done.
Qed.

Lemma reference_histories_lookup records reference :
  reference_histories records !! reference =
  match positions reference 0 records with [] => None | ps => Some ps end.
Proof.
  unfold reference_histories. rewrite extend_histories_lookup, lookup_empty.
  by destruct (positions reference 0 records).
Qed.

(** The records of [reference], in journal order. *)
Abbreviation records_of reference records :=
  (filter (λ r, usn_file_reference r = reference) records).

Lemma positions_records reference pre records :
  omap (λ i, (pre ++ records) !! i) (positions reference (length pre) records) =
  records_of reference records.
Proof.
  revert pre. induction records as [|r rs IH]; intros pre; [done|]. cbn [positions].
  rewrite omap_app, filter_cons. specialize (IH (pre ++ [r])).
  rewrite <-app_assoc, length_app, Nat.add_1_r in IH. simpl in IH. rewrite IH.
  destruct (decide (usn_file_reference r = reference)); simpl; [|done].
  by rewrite list_lookup_middle.
Qed.

Lemma omap_reverse {A B} (f : A → option B) l : omap f (reverse l) = reverse (omap f l).
Proof.
  induction l as [|x l IH]; [done|]. rewrite reverse_cons, omap_app, IH. simpl.
  destruct (f x); simpl; [by rewrite reverse_cons|by rewrite app_nil_r].
Qed.

(** [historical] over the histories of the same records only looks at the records of the reference:
    the last one before the position, or else the first removal at or after it. *)
Lemma historical_records_of records reference before_usn :
  historical records (reference_histories records) reference before_usn =
  match find (λ r, usn_usn r <? before_usn) (reverse (records_of reference records)) with
  | Some r => Some r
  | None =>
    find (λ r, (before_usn <=? usn_usn r)
            && negb (Z.land (usn_reason r)
                       (Z.lor USN_REASON_FILE_DELETE USN_REASON_RENAME_OLD_NAME) =? 0))
         (records_of reference records)
  end.
Proof.
  unfold historical. rewrite reference_histories_lookup.
  pose proof (positions_records reference [] records) as Hp. simpl in Hp.
  destruct (positions reference 0 records) as [|p ps] eqn:E.
  { simpl in Hp. by rewrite <-Hp. }
  cbn [mbind option_bind]. unfold historical_parent_record. by rewrite omap_reverse, Hp.
Qed.

Definition is_removal (r : ParsedUsnRecord) : Prop :=
  Z.land (usn_reason r) (Z.lor USN_REASON_FILE_DELETE USN_REASON_RENAME_OLD_NAME) ≠ 0.

(** Journal records come in the order of their positions. *)
Definition journal_ordered (records : list ParsedUsnRecord) : Prop :=
  StronglySorted (λ a b, usn_usn a < usn_usn b) records.

Lemma find_Some_split {A} (f : A → bool) l x :
  find f l = Some x → f x = true ∧ ∃ l1 l2, l = l1 ++ x :: l2 ∧ Forall (λ y, f y = false) l1.
Proof.
  induction l as [|y l IH]; simpl; [done|]. destruct (f y) eqn:E.
  - intros [= ->]. split; [done|]. exists [], l. by split; [|constructor].
  - intros H. destruct (IH H) as (? & l1 & l2 & -> & ?). split; [done|].
    exists (y :: l1), l2. by split; [|constructor].
Qed.

Lemma find_None_Forall {A} (f : A → bool) l : find f l = None → Forall (λ y, f y = false) l.
Proof. induction l as [|y l IH]; simpl; [constructor|]. destruct (f y) eqn:E; [done|]. auto. Qed.

Lemma ordered_split l1 x l2 y :
  journal_ordered (l1 ++ x :: l2) → y ∈ l1 ++ x :: l2 →
  (y ∈ l1 ∧ usn_usn y < usn_usn x) ∨ y = x ∨ (y ∈ l2 ∧ usn_usn x < usn_usn y).
Proof.
  intros Ho Hy. apply elem_of_app in Hy as [Hy|Hy].
  - left. split; [done|]. induction l1 as [|z l1 IH]; [by apply elem_of_nil in Hy|].
    inversion Ho as [|? ? Ho' Hall]; subst. apply elem_of_cons in Hy as [->|Hy]; [|by apply IH].
    rewrite Forall_forall in Hall. apply Hall. set_solver.
  - apply elem_of_cons in Hy as [->|Hy]; [by right; left|]. right; right. split; [done|].
    induction l1 as [|z l1 IH]; inversion Ho as [|? ? Ho' Hall]; subst; [|by apply IH].
    rewrite Forall_forall in Hall. by apply Hall.
Qed.

Lemma ordered_filter reference records :
  journal_ordered records → journal_ordered (records_of reference records).
Proof.
  induction 1 as [|r rs _ IH Hall]; [constructor|]. rewrite filter_cons.
  case_decide; [|done]. constructor; [done|]. rewrite Forall_forall in *.
  intros x [_ Hx]%list_elem_of_filter. by apply Hall.
Qed.

(** The parent of a reference as of a position is taken from the latest record of that reference
    before the position; if there is none, from the earliest record that shows where the entry was
    when it was removed or renamed away; and no record is used only when neither exists. *)
Theorem historical_parent_correct records reference before_usn :
  journal_ordered records →
  match historical records (reference_histories records) reference before_usn with
  | Some r =>
    r ∈ records_of reference records ∧
    ((usn_usn r < before_usn ∧
      ∀ r', r' ∈ records_of reference records → usn_usn r' < before_usn → usn_usn r' ≤ usn_usn r) ∨
     ((∀ r', r' ∈ records_of reference records → before_usn ≤ usn_usn r') ∧ is_removal r ∧
      ∀ r', r' ∈ records_of reference records → is_removal r' → usn_usn r ≤ usn_usn r'))
  | None =>
    ∀ r', r' ∈ records_of reference records → before_usn ≤ usn_usn r' ∧ ¬ is_removal r'
  end.
Proof.
  intros Ho%(ordered_filter reference). rewrite historical_records_of.
  set (rs := records_of reference records) in *. clearbody rs. unfold is_removal.
  destruct (find _ (reverse rs)) as [r|] eqn:E1.
  - apply find_Some_split in E1 as (Hb & l1 & l2 & Hr & Hl1).
    apply (f_equal reverse) in Hr. rewrite reverse_involutive, reverse_app, reverse_cons, <-app_assoc in Hr.
    simpl in Hr. rewrite Hr in *. split; [set_solver|]. left. split; [lia|]. intros r' Hr' Hu.
    destruct (ordered_split _ _ _ _ Ho Hr') as [[_ ?]|[->|[Hin _]]]; [lia|lia|].
    rewrite Forall_forall in Hl1. specialize (Hl1 r'). rewrite elem_of_reverse in Hin. apply Hl1 in Hin. lia.
  - apply find_None_Forall in E1. rewrite Forall_reverse, Forall_forall in E1.
    destruct (find _ rs) as [r|] eqn:E2.
    + apply find_Some_split in E2 as (Hb & l1 & l2 & Hr & Hl1). rewrite Hr in *.
      split; [set_solver|]. right. split_and!; [intros r' Hr'; specialize (E1 r' Hr'); lia|lia|].
      intros r' Hr' Hrem. pose proof (E1 _ Hr').
      destruct (ordered_split _ _ _ _ Ho Hr') as [[Hin _]|[->|[_ ?]]]; [|lia|lia].
      rewrite Forall_forall in Hl1. specialize (Hl1 r' Hin). lia.
    + apply find_None_Forall in E2. rewrite Forall_forall in E2. intros r' Hr'.
      specialize (E1 _ Hr'). specialize (E2 _ Hr'). lia.
Qed.

Lemma historical_parent_correct_witness :
  historical [sample_record] (reference_histories [sample_record])
    (usn_file_reference sample_record) 5000 = Some sample_record ∧
  (∀ r', r' ∈ records_of (usn_file_reference sample_record) [sample_record] →
     usn_usn r' < 5000 → usn_usn r' ≤ 4096).
Proof.
  assert (journal_ordered [sample_record]) as Ho by repeat constructor.
  split; [vm_compute; reflexivity|].
  pose proof (historical_parent_correct [sample_record] (usn_file_reference sample_record) 5000 Ho) as H.
  replace (historical _ _ _ _) with (Some sample_record) in H by (vm_compute; reflexivity).
  destruct H as [Hin [[_ H]|[H _]]]; [exact H|].
  specialize (H _ Hin). exfalso. vm_compute in H. by apply H.
Defined.

(** ** Resolution *)

Section Resolution.
Context {Path CallbackError : Type}.
Context (records : list ParsedUsnRecord) (histories : ReferenceHistories).
Context (open_reference : FileReference → Result CallbackError Path).
Context (append_name : Path → str → Result CallbackError Path).

Abbreviation resolve := (resolve_reference_path_with records histories open_reference append_name).
Abbreviation parent_of := (historical records histories).

(** From [reference] at a position, the references passed on the way up with the names they had, and
    the first reference without history. *)
Inductive ancestry : FileReference → Z → list (FileReference * str) → FileReference → Prop :=
| ancestry_open reference before_usn :
    parent_of reference before_usn = None → ancestry reference before_usn [] reference
| ancestry_step reference before_usn record steps anchor :
    parent_of reference before_usn = Some record →
    ancestry (usn_parent_reference record) (usn_usn record) steps anchor →
    ancestry reference before_usn ((reference, usn_name record) :: steps) anchor.

(** The references [resolve] has open at the same time. *)
Definition visited (steps : list (FileReference * str)) (anchor : FileReference)
    : list FileReference := steps.*1 ++ [anchor].

(** The path of [anchor] extended by the names below it, outermost first. *)
Definition path_along (steps : list (FileReference * str)) (anchor : FileReference)
    : Result CallbackError Path :=
  p ← open_reference anchor; result_foldl append_name p (reverse steps.*2).

Lemma resolve_fuel fuel reference before_usn visiting :
  (1 ≤ fuel)%nat → (257 ≤ fuel + size visiting)%nat →
  is_Some (resolve fuel reference before_usn visiting).
Proof.
  revert reference before_usn visiting.
  induction fuel as [|fuel IH]; intros reference before_usn visiting H1 H2; [lia|].
  cbn [resolve_reference_path_with]. destruct (_ || _) eqn:E; [by eexists|].
  apply orb_false_iff in E as [En Es]. rewrite negb_false_iff, bool_decide_eq_true in En.
  rewrite size_union, size_singleton in Es by set_solver. apply Z.ltb_ge in Es.
  destruct (parent_of reference before_usn) as [r|]; [|by eexists].
  assert (is_Some (resolve fuel (usn_parent_reference r) (usn_usn r) ({[reference]} ∪ visiting)))
    as [[[p|e] v] Hr]; [|rewrite Hr; simpl; by eexists..].
  apply IH; [|rewrite size_union, size_singleton by set_solver]; lia.
Qed.

Lemma result_foldl_snoc {E A S} (f : S → A → Result E S) s l x :
  result_foldl f s (l ++ [x]) = (s' ← result_foldl f s l; f s' x).
Proof.
  revert s. induction l as [|y l IH]; intros s; simpl.
  - unfold mbind, result_bind. by destruct (f s x).
  - unfold mbind, result_bind in *. destruct (f s y); [apply IH|done].
Qed.

Lemma path_along_cons reference name steps anchor :
  path_along ((reference, name) :: steps) anchor = (p ← path_along steps anchor; append_name p name).
Proof.
  unfold path_along. rewrite fmap_cons, reverse_cons. unfold mbind, result_bind.
  destruct (open_reference anchor); [|done]. by rewrite result_foldl_snoc.
Qed.

Lemma ancestry_anchor reference before_usn steps anchor :
  ancestry reference before_usn steps anchor → head (visited steps anchor) = Some reference.
Proof. by destruct 1. Qed.

Lemma resolve_sound fuel reference before_usn visiting path v :
  resolve fuel reference before_usn visiting = Some (Ok path, v) →
  v = visiting ∧ ∃ steps anchor,
    ancestry reference before_usn steps anchor ∧ NoDup (visited steps anchor) ∧
    (∀ r, r ∈ visited steps anchor → r ∉ visiting) ∧
    (length (visited steps anchor) + size visiting ≤ 256)%nat ∧ path_along steps anchor = Ok path.
Proof.
  revert reference before_usn visiting path v.
  induction fuel as [|fuel IH]; intros reference before_usn visiting path v H; [done|].
  cbn [resolve_reference_path_with] in H. destruct (_ || _) eqn:E in H; [done|].
  apply orb_false_iff in E as [En Es]. rewrite negb_false_iff, bool_decide_eq_true in En.
  rewrite size_union, size_singleton in Es by set_solver. apply Z.ltb_ge in Es.
  destruct (parent_of reference before_usn) as [r|] eqn:Ep.
  - apply bind_Some in H as ([[p|e] v1] & Hr & H); simplify_eq/=.
    apply IH in Hr as (-> & steps & anchor & Ha & Hnd & Hdis & Hsz & Hpath).
    apply map_err_Ok in H.
    split; [set_solver|]. exists ((reference, usn_name r) :: steps), anchor.
    unfold visited in *. rewrite fmap_cons. simpl. split_and!.
    + by econstructor.
    + apply NoDup_cons. split; [|done]. intros Hin. apply (Hdis _ Hin). set_solver.
    + intros x [->|Hx]%elem_of_cons; [done|]. specialize (Hdis _ Hx). set_solver.
    + rewrite size_union, size_singleton in Hsz by set_solver. lia.
    + rewrite path_along_cons, Hpath. done.
  - injection H as H <-. apply map_err_Ok in H. split; [set_solver|].
    exists [], reference. unfold visited, path_along. simpl. split_and!.
    + by constructor.
    + apply NoDup_singleton.
    + set_solver.
    + lia.
    + by rewrite H.
Qed.

Lemma resolve_complete steps anchor fuel reference before_usn visiting path :
  ancestry reference before_usn steps anchor → NoDup (visited steps anchor) →
  (∀ r, r ∈ visited steps anchor → r ∉ visiting) →
  (length (visited steps anchor) + size visiting ≤ 256)%nat →
  (length (visited steps anchor) ≤ fuel)%nat → path_along steps anchor = Ok path →
  resolve fuel reference before_usn visiting = Some (Ok path, visiting).
Proof.
  intros Ha. revert fuel visiting path. induction Ha as [ref before Hn|ref before r steps anchor Hr Ha IH];
    intros fuel visiting path Hnd Hdis Hsz Hf Hp; unfold visited in *;
    rewrite ?fmap_cons in *; rewrite ?fmap_nil in *; cbn [fst app length] in *.
  all: destruct fuel as [|fuel]; [lia|]; cbn [resolve_reference_path_with].
  all: assert (ref ∉ visiting) as Hnew by set_solver.
  all: rewrite bool_decide_eq_true_2 by done; rewrite size_union, size_singleton by set_solver;
    rewrite (proj2 (Z.ltb_ge _ _)) by lia; cbn [negb orb].
  - rewrite Hn. unfold path_along in Hp. simpl in Hp. simplify_result.
    match goal with H : open_reference _ = _ |- _ => rewrite H end. simpl. do 2 f_equal. set_solver.
  - rewrite Hr. apply NoDup_cons in Hnd as [Hx Hnd]. rewrite path_along_cons in Hp. simplify_result.
    rewrite (IH fuel ({[ref]} ∪ visiting) x); [|done| |rewrite size_union, size_singleton by set_solver; lia
      |lia|done].
    + simpl. rewrite Hp. simpl. do 2 f_equal. set_solver.
    + intros y Hy. specialize (Hdis y). set_solver.
Qed.

End Resolution.

Section ResolutionTheorems.
Context {Path CallbackError : Type}.
Context (records : list ParsedUsnRecord) (histories : ReferenceHistories).
Context (open_reference : FileReference → Result CallbackError Path).
Context (append_name : Path → str → Result CallbackError Path).

(** C38: path resolution terminates for every journal, cyclic ones included: 257 nested calls always
    suffice, because the set of references being resolved grows with every call and is bounded. *)
Theorem resolve_reference_path_total reference before_usn visiting :
  is_Some (resolve_reference_path_with records histories open_reference append_name 257
             reference before_usn visiting).
Proof. apply resolve_fuel; lia. Qed.

(** C32: path resolution is exact.  A reference resolves to [path] if and only if the chain of its
    historical parents visits at most 256 different references, none twice, ends at a reference
    without history that can be opened, and [path] is the opened path extended by the names recorded
    along the chain, outermost first.  The set of references being resolved is left as it was. *)
Theorem resolve_reference_path_exact reference before_usn path v :
  resolve_reference_path_with records histories open_reference append_name 257
    reference before_usn ∅ = Some (Ok path, v) ↔
  v = ∅ ∧ ∃ steps anchor,
    ancestry records histories reference before_usn steps anchor ∧
    NoDup (visited steps anchor) ∧ (length (visited steps anchor) ≤ 256)%nat ∧
    path_along open_reference append_name steps anchor = Ok path.
Proof.
  split.
  - intros (-> & steps & anchor & ? & ? & _ & Hs & ?)%resolve_sound. split; [done|].
    exists steps, anchor. rewrite size_empty in Hs. split_and!; [done|done|lia|done].
  - intros (-> & steps & anchor & ? & ? & Hs & ?). eapply resolve_complete; [done|done|..].
    + set_solver.
    + rewrite size_empty. lia.
    + lia.
    + done.
Qed.

End ResolutionTheorems.
