(* ===== verification/ActiveRegistry.v ===== *)
(** * The registry of active broker requests

    Models [journal_broker/service/active.rs]: per connection, the requests in progress, the control
    requests in progress and the queue of terminals that still have to be delivered.  Every method of
    [ActiveRequestRegistry] is a function from the registry state to a result and the next state; the
    state is changed also by some calls that fail.  The mutex makes the methods atomic, so a run of the
    service is a sequence of calls: the step relation at the end of the file. *)

From S2P Require Import Prelude Text Wire.

Definition MAX_ACTIVE_REQUESTS_PER_CONNECTION : Z := 8.
Definition MAX_CONTROL_REQUESTS_PER_CONNECTION : Z := 2.
Definition MAX_RECORDED_TERMINALS_PER_CONNECTION : Z := 16.

(** ** Data *)

Record ActiveRequestKey := {
  key_connection_id : bytes;
  key_connection_generation : Z;
  key_authentication_namespace : bytes;
  key_client_instance : bytes;
  key_request_id : Z;
}.

#[export] Instance ActiveRequestKey_eq_dec : EqDecision ActiveRequestKey.
Proof. solve_decision. Defined.

Record RequestNamespace := {
  ns_authentication_namespace : bytes;
  ns_client_instance : bytes;
  ns_request_id : Z;
}.

#[export] Instance RequestNamespace_eq_dec : EqDecision RequestNamespace.
Proof. solve_decision. Defined.
#[export] Program Instance RequestNamespace_countable : Countable RequestNamespace :=
  inj_countable' (λ n, (ns_authentication_namespace n, ns_client_instance n, ns_request_id n))
    (λ p, {| ns_authentication_namespace := p.1.1; ns_client_instance := p.1.2;
             ns_request_id := p.2 |}) _.
Next Obligation. by intros []. Qed.

Definition RequestNamespace_from (key : ActiveRequestKey) : RequestNamespace :=
  {| ns_authentication_namespace := key_authentication_namespace key;
     ns_client_instance := key_client_instance key;
     ns_request_id := key_request_id key |}.

Inductive ActiveRequestError :=
| AlreadyActive | LimitExceeded | NotActive | ConnectionNotOpen | ConnectionGenerationMismatch
| DeliveryBackpressure | RequestCancelled | RequestTimedOut.

Inductive RequestTerminal := TerminalCompleted | TerminalCancelled | TerminalTimedOut | TerminalAborted.

#[export] Instance RequestTerminal_eq_dec : EqDecision RequestTerminal.
Proof. solve_decision. Defined.

Record RecordedTerminal := { rt_key : ActiveRequestKey; rt_terminal : RequestTerminal }.

Record TerminalDrain := { drain_terminals : list RecordedTerminal; drain_must_close : bool }.

Inductive AcceptedJournalRead :=
| ReadRoot (request : ReadJournalRangeRequest)
| ReadVolume (request : ReadJournalVolumeRequest).

Record AcceptedRead := { ar_request : AcceptedJournalRead; ar_deadline : Z }.

Record ActiveRequest := {
  act_deadline : Z;
  act_is_cancelled : bool;
  act_accepted_read : option AcceptedJournalRead;
}.

Record ConnectionLifecycle := {
  cl_generation : Z;
  cl_requests : gmap RequestNamespace ActiveRequest;
  cl_active_controls : Z;
  cl_recorded_terminals : list RecordedTerminal;
  cl_must_close : bool;
}.

Abbreviation RegistryState := (gmap bytes ConnectionLifecycle).

(** The order in which a [HashMap] of requests is iterated is unspecified: a parameter. *)
Abbreviation RequestIter :=
  (gmap RequestNamespace ActiveRequest → list (RequestNamespace * ActiveRequest)).

Definition ConnectionLifecycle_new (generation : Z) : ConnectionLifecycle :=
  {| cl_generation := generation; cl_requests := ∅; cl_active_controls := 0;
     cl_recorded_terminals := []; cl_must_close := false |}.

(** Field updates. *)
Definition set_requests (c : ConnectionLifecycle) (requests : gmap RequestNamespace ActiveRequest) :=
  {| cl_generation := cl_generation c; cl_requests := requests;
     cl_active_controls := cl_active_controls c;
     cl_recorded_terminals := cl_recorded_terminals c; cl_must_close := cl_must_close c |}.
Definition set_controls (c : ConnectionLifecycle) (controls : Z) :=
  {| cl_generation := cl_generation c; cl_requests := cl_requests c;
     cl_active_controls := controls;
     cl_recorded_terminals := cl_recorded_terminals c; cl_must_close := cl_must_close c |}.
Definition set_terminals (c : ConnectionLifecycle) (terminals : list RecordedTerminal)
    (must_close : bool) :=
  {| cl_generation := cl_generation c; cl_requests := cl_requests c;
     cl_active_controls := cl_active_controls c;
     cl_recorded_terminals := terminals; cl_must_close := must_close |}.

(** [ConnectionLifecycle::record] *)
Definition ConnectionLifecycle_record (self : ConnectionLifecycle) (key : ActiveRequestKey)
    (terminal : RequestTerminal) : Result ActiveRequestError unit * ConnectionLifecycle :=
  if zlen (cl_recorded_terminals self) =? MAX_RECORDED_TERMINALS_PER_CONNECTION
  then (Err DeliveryBackpressure, set_terminals self (cl_recorded_terminals self) true)
  else
    let terminals := cl_recorded_terminals self ++ [{| rt_key := key; rt_terminal := terminal |}] in
    (Ok (), set_terminals self terminals
              (if zlen terminals =? MAX_RECORDED_TERMINALS_PER_CONNECTION then true
               else cl_must_close self)).

(** ** Looking up a connection *)

Definition connection_ref (state : RegistryState) (key : ActiveRequestKey)
    : Result ActiveRequestError ConnectionLifecycle :=
  connection ← ok_or (state !! key_connection_id key) ConnectionNotOpen;
  if negb (cl_generation connection =? key_connection_generation key)
  then Err ConnectionGenerationMismatch else Ok connection.

(** [connection_mut] followed by changes through the reference it returns. *)
Definition connection_mut {A : Type} (state : RegistryState) (key : ActiveRequestKey)
    (body : ConnectionLifecycle → Result ActiveRequestError A * ConnectionLifecycle)
    : Result ActiveRequestError A * RegistryState :=
  match connection_ref state key with
  | Err e => (Err e, state)
  | Ok connection =>
    let '(result, connection') := body connection in
    (result, <[key_connection_id key := connection']> state)
  end.

(** The terminal of an accepted request that nobody executes any more. *)
Definition stale_terminal (now : Z) (request : ActiveRequest) : option RequestTerminal :=
  match act_accepted_read request with
  | None => None
  | Some _ =>
    if act_is_cancelled request then Some TerminalCancelled
    else if act_deadline request <=? now then Some TerminalTimedOut
    else None
  end.

Definition key_of (connection_id : bytes) (connection_generation : Z) (namespace : RequestNamespace)
    : ActiveRequestKey :=
  {| key_connection_id := connection_id;
     key_connection_generation := connection_generation;
     key_authentication_namespace := ns_authentication_namespace namespace;
     key_client_instance := ns_client_instance namespace;
     key_request_id := ns_request_id namespace |}.

(** The second loop of [reap_accepted_locked]. *)
Fixpoint reap_stale (connection_id : bytes) (connection_generation : Z)
    (stale : list (RequestNamespace * RequestTerminal)) (connection : ConnectionLifecycle)
    : list RecordedTerminal * ConnectionLifecycle :=
  match stale with
  | [] => ([], connection)
  | (namespace, terminal) :: stale =>
    let key := key_of connection_id connection_generation namespace in
    match ConnectionLifecycle_record connection key terminal with
    | (Err _, connection) => ([], connection)
    | (Ok _, connection) =>
      let connection := set_requests connection (delete namespace (cl_requests connection)) in
      let '(recorded, connection) :=
        reap_stale connection_id connection_generation stale connection in
      ({| rt_key := key; rt_terminal := terminal |} :: recorded, connection)
    end
  end.

(** ** The methods *)

Definition open_connection (state : RegistryState) (connection_id : bytes) (generation : Z)
    : Result ActiveRequestError unit * RegistryState :=
  if bool_decide (connection_id = replicate 16 0) || (generation =? 0)
  then (Err ConnectionNotOpen, state)
  else
    match state !! connection_id with
    | Some connection =>
      if cl_generation connection =? generation then (Ok (), state)
      else (Err ConnectionGenerationMismatch, state)
    | None => (Ok (), <[connection_id := ConnectionLifecycle_new generation]> state)
    end.

Section Registry.
Context (iter : RequestIter).

Definition reap_accepted_locked (connection : ConnectionLifecycle) (connection_id : bytes)
    (connection_generation now : Z) : list RecordedTerminal * ConnectionLifecycle :=
  let stale := omap (λ '(namespace, request),
                 terminal ← stale_terminal now request; Some (namespace, terminal))
                 (iter (cl_requests connection)) in
  reap_stale connection_id connection_generation stale connection.

Definition register (state : RegistryState) (key : ActiveRequestKey) (deadline : Z)
    (accepted_read : option AcceptedJournalRead) (now : Z)
    : Result ActiveRequestError unit * RegistryState :=
  connection_mut state key (λ connection,
    let connection :=
      (reap_accepted_locked connection (key_connection_id key) (key_connection_generation key) now).2 in
    if cl_must_close connection then (Err DeliveryBackpressure, connection)
    else
      let namespace := RequestNamespace_from key in
      if bool_decide (is_Some (cl_requests connection !! namespace))
      then (Err AlreadyActive, connection)
      else if MAX_ACTIVE_REQUESTS_PER_CONNECTION <=? Z.of_nat (size (cl_requests connection))
      then (Err LimitExceeded, connection)
      else (Ok (), set_requests connection
                     (<[namespace := {| act_deadline := deadline; act_is_cancelled := false;
                                        act_accepted_read := accepted_read |}]>
                      (cl_requests connection)))).

Definition begin_query state key deadline now := register state key deadline None now.
Definition accept_read state key deadline request now :=
  register state key deadline (Some (ReadRoot request)) now.
Definition accept_volume_read state key deadline request now :=
  register state key deadline (Some (ReadVolume request)) now.

Definition begin_control (state : RegistryState) (key : ActiveRequestKey)
    : Result ActiveRequestError unit * RegistryState :=
  connection_mut state key (λ connection,
    if MAX_CONTROL_REQUESTS_PER_CONNECTION <=? cl_active_controls connection
    then (Err LimitExceeded, connection)
    else (Ok (), set_controls connection (cl_active_controls connection + 1))).

Definition begin_execution (state : RegistryState) (key : ActiveRequestKey) (now : Z)
    : Result ActiveRequestError AcceptedRead * RegistryState :=
  connection_mut state key (λ connection,
    let namespace := RequestNamespace_from key in
    match cl_requests connection !! namespace with
    | None => (Err NotActive, connection)
    | Some request =>
      if act_is_cancelled request
      then (Err RequestCancelled,
            set_requests connection (delete namespace (cl_requests connection)))
      else if act_deadline request <=? now
      then (Err RequestTimedOut,
            set_requests connection (delete namespace (cl_requests connection)))
      else
        match act_accepted_read request with
        | None => (Err NotActive, connection)
        | Some accepted =>
          (Ok {| ar_request := accepted; ar_deadline := act_deadline request |},
           set_requests connection
             (<[namespace := {| act_deadline := act_deadline request;
                                act_is_cancelled := act_is_cancelled request;
                                act_accepted_read := None |}]> (cl_requests connection)))
        end
    end).

Definition abort_accepted (state : RegistryState) (key : ActiveRequestKey) (now : Z)
    : Result ActiveRequestError RecordedTerminal * RegistryState :=
  connection_mut state key (λ connection,
    let namespace := RequestNamespace_from key in
    match cl_requests connection !! namespace with
    | None => (Err NotActive, connection)
    | Some request =>
      match act_accepted_read request with
      | None => (Err NotActive, connection)
      | Some _ =>
        let terminal :=
          if act_is_cancelled request then TerminalCancelled
          else if act_deadline request <=? now then TerminalTimedOut
          else TerminalAborted in
        (Ok {| rt_key := key; rt_terminal := terminal |},
         set_requests connection (delete namespace (cl_requests connection)))
      end
    end).

Definition reap_accepted (state : RegistryState) (connection_id : bytes)
    (connection_generation now : Z) : Result ActiveRequestError TerminalDrain * RegistryState :=
  let key := {| key_connection_id := connection_id;
                key_connection_generation := connection_generation;
                key_authentication_namespace := replicate 32 0;
                key_client_instance := replicate 16 0;
                key_request_id := 0 |} in
  connection_mut state key (λ connection,
    let connection :=
      (reap_accepted_locked connection connection_id connection_generation now).2 in
    (Ok {| drain_terminals := cl_recorded_terminals connection;
           drain_must_close := cl_must_close connection |},
     set_terminals connection [] (cl_must_close connection))).

Definition cancel (state : RegistryState) (key : ActiveRequestKey)
    : Result ActiveRequestError unit * RegistryState :=
  connection_mut state key (λ connection,
    let namespace := RequestNamespace_from key in
    match cl_requests connection !! namespace with
    | None => (Err NotActive, connection)
    | Some request =>
      (Ok (), set_requests connection
                (<[namespace := {| act_deadline := act_deadline request;
                                   act_is_cancelled := true;
                                   act_accepted_read := act_accepted_read request |}]>
                 (cl_requests connection)))
    end).

Definition check_request (state : RegistryState) (key : ActiveRequestKey) (now : Z)
    : Result ActiveRequestError unit :=
  connection ← connection_ref state key;
  request ← ok_or (cl_requests connection !! RequestNamespace_from key) NotActive;
  if act_is_cancelled request then Err RequestCancelled
  else if act_deadline request <=? now then Err RequestTimedOut
  else Ok ().

Definition finish (state : RegistryState) (key : ActiveRequestKey) (now : Z)
    : Result ActiveRequestError RequestTerminal * RegistryState :=
  connection_mut state key (λ connection,
    let namespace := RequestNamespace_from key in
    match cl_requests connection !! namespace with
    | None => (Err NotActive, connection)
    | Some request =>
      (Ok (if act_is_cancelled request then TerminalCancelled
           else if act_deadline request <=? now then TerminalTimedOut
           else TerminalCompleted),
       set_requests connection (delete namespace (cl_requests connection)))
    end).

Definition disconnect (state : RegistryState) (connection_id : bytes) (generation : Z)
    : RegistryState :=
  match state !! connection_id with
  | Some connection =>
    if cl_generation connection =? generation then delete connection_id state else state
  | None => state
  end.

(** Called when an [ActiveControlGuard] is dropped. *)
Definition finish_control (state : RegistryState) (connection_id : bytes) (generation : Z)
    : RegistryState :=
  match state !! connection_id with
  | Some connection =>
    if cl_generation connection =? generation
    then <[connection_id := set_controls connection
                              (saturating_sub (cl_active_controls connection) 1)]> state
    else state
  | None => state
  end.
End Registry.

(** ** The step relation *)

(** What a call shows to the clients: the requests it started, the requests whose terminal it handed
    out, and the connection it closed. *)
Record Label := {
  lb_started : list ActiveRequestKey;
  lb_delivered : list ActiveRequestKey;
  lb_closed : option bytes;
}.

Definition silent : Label := {| lb_started := []; lb_delivered := []; lb_closed := None |}.
Definition starts (l : list ActiveRequestKey) : Label :=
  {| lb_started := l; lb_delivered := []; lb_closed := None |}.
Definition delivers (l : list ActiveRequestKey) : Label :=
  {| lb_started := []; lb_delivered := l; lb_closed := None |}.

Section Steps.
Context (iter : RequestIter).

Inductive registry_step : RegistryState → Label → RegistryState → Prop :=
| step_open s id g r s' :
    open_connection s id g = (r, s') → registry_step s silent s'
| step_register s k deadline accepted now r s' :
    register iter s k deadline accepted now = (r, s') →
    registry_step s (starts (if is_ok r then [k] else [])) s'
| step_begin_control s k r s' :
    begin_control s k = (r, s') → registry_step s silent s'
| step_begin_execution s k now r s' :
    begin_execution s k now = (r, s') →
    registry_step s
      (delivers (match r with Err RequestCancelled | Err RequestTimedOut => [k] | _ => [] end)) s'
| step_abort_accepted s k now r s' :
    abort_accepted s k now = (r, s') →
    registry_step s (delivers (match r with Ok t => [rt_key t] | Err _ => [] end)) s'
| step_reap_accepted s id g now r s' :
    reap_accepted iter s id g now = (r, s') →
    registry_step s
      (delivers (match r with Ok d => rt_key <$> drain_terminals d | Err _ => [] end)) s'
| step_cancel s k r s' :
    cancel s k = (r, s') → registry_step s silent s'
| step_finish s k now r s' :
    finish s k now = (r, s') → registry_step s (delivers (if is_ok r then [k] else [])) s'
| step_disconnect s id g :
    registry_step s {| lb_started := []; lb_delivered := []; lb_closed := Some id |}
      (disconnect s id g)
| step_finish_control s id g :
    registry_step s silent (finish_control s id g).

(** Runs of the service from the empty registry, with everything the clients saw. *)
Inductive registry_run : list Label → RegistryState → Prop :=
| run_start : registry_run [] ∅
| run_step ls s l s' : registry_run ls s → registry_step s l s' → registry_run (ls ++ [l]) s'.
End Steps.

(** ** The invariant *)

Record connection_ok (id : bytes) (c : ConnectionLifecycle) : Prop := {
  co_generation : cl_generation c ≠ 0;
  co_requests : Z.of_nat (size (cl_requests c)) ≤ MAX_ACTIVE_REQUESTS_PER_CONNECTION;
  co_controls : 0 ≤ cl_active_controls c ≤ MAX_CONTROL_REQUESTS_PER_CONNECTION;
  co_terminals : zlen (cl_recorded_terminals c) ≤ MAX_RECORDED_TERMINALS_PER_CONNECTION;
  co_must_close :
    zlen (cl_recorded_terminals c) = MAX_RECORDED_TERMINALS_PER_CONNECTION → cl_must_close c = true;
  co_keys : Forall (λ t, key_connection_id (rt_key t) = id ∧
                         key_connection_generation (rt_key t) = cl_generation c ∧
                         (rt_terminal t = TerminalCancelled ∨ rt_terminal t = TerminalTimedOut))
              (cl_recorded_terminals c);
}.

Definition registry_ok (s : RegistryState) : Prop :=
  map_Forall (λ id c, id ≠ replicate 16 0 ∧ connection_ok id c) s.

Lemma connection_ref_Ok s k c :
  connection_ref s k = Ok c ↔
  s !! key_connection_id k = Some c ∧ cl_generation c = key_connection_generation k.
Proof.
  unfold connection_ref. destruct (s !! key_connection_id k) as [c'|]; simpl; [|naive_solver].
  destruct (Z.eqb_spec (cl_generation c') (key_connection_generation k)); naive_solver.
Qed.

(** A call on a connection either fails without any effect or changes that connection only. *)
Lemma connection_mut_inv {A : Type} s k (body : _ → Result ActiveRequestError A * _) r s' :
  connection_mut s k body = (r, s') →
  (∃ e, r = Err e ∧ s' = s ∧ connection_ref s k = Err e) ∨
  ∃ c c', s !! key_connection_id k = Some c ∧ cl_generation c = key_connection_generation k ∧
    body c = (r, c') ∧ s' = <[key_connection_id k := c']> s.
Proof.
  unfold connection_mut. destruct (connection_ref s k) as [c|e] eqn:E.
  - apply connection_ref_Ok in E as [? ?]. destruct (body c) as [r1 c'] eqn:Eb. intros [= -> <-].
    right. by exists c, c'.
  - intros [= <- <-]. left. by exists e.
Qed.

Lemma registry_ok_insert s id c c' :
  registry_ok s → s !! id = Some c → (connection_ok id c → connection_ok id c') →
  registry_ok (<[id := c']> s).
Proof.
  intros Hs Hc Hk. apply map_Forall_insert_2; [|done]. destruct (Hs _ _ Hc). auto.
Qed.

Lemma connection_mut_ok {A : Type} s k (body : _ → Result ActiveRequestError A * _) r s' :
  (∀ c r c', cl_generation c = key_connection_generation k → body c = (r, c') →
     connection_ok (key_connection_id k) c → connection_ok (key_connection_id k) c') →
  connection_mut s k body = (r, s') → registry_ok s → registry_ok s'.
Proof.
  intros Hb [(e & -> & -> & _)|(c & c' & Hc & Hg & Hbc & ->)]%connection_mut_inv Hs; [done|].
  eapply registry_ok_insert; [done|done|]. by eapply Hb.
Qed.

Lemma record_ok id c ns t r c' :
  ConnectionLifecycle_record c (key_of id (cl_generation c) ns) t = (r, c') →
  t = TerminalCancelled ∨ t = TerminalTimedOut → connection_ok id c → connection_ok id c'.
Proof.
  unfold ConnectionLifecycle_record. intros H Ht [Hg Hr Hc Hn Hm Hk].
  destruct (Z.eqb_spec (zlen (cl_recorded_terminals c)) MAX_RECORDED_TERMINALS_PER_CONNECTION) as [E|E];
    simplify_eq; split; simpl; try done.
  - rewrite zlen_app. change (zlen [_]) with 1. lia.
  - intros ->. by rewrite Z.eqb_refl.
  - apply Forall_app. split; [done|]. apply Forall_singleton. done.
Qed.

Lemma requests_ok id c m :
  (size m ≤ size (cl_requests c))%nat → connection_ok id c → connection_ok id (set_requests c m).
Proof. intros Hm []. split; simpl; try done. lia. Qed.

Lemma record_requests c k t r c' :
  ConnectionLifecycle_record c k t = (r, c') →
  cl_requests c' = cl_requests c ∧ cl_generation c' = cl_generation c ∧
  cl_active_controls c' = cl_active_controls c.
Proof. unfold ConnectionLifecycle_record. destruct (_ =? _); intros; by simplify_eq. Qed.

Lemma size_delete_le {V : Type} (m : gmap RequestNamespace V) i : (size (delete i m) ≤ size m)%nat.
Proof. rewrite map_size_delete. destruct (m !! i); [apply Nat.le_pred_l|done]. Qed.

Lemma reap_stale_ok id stale c rec c' :
  reap_stale id (cl_generation c) stale c = (rec, c') →
  Forall (λ p, p.2 = TerminalCancelled ∨ p.2 = TerminalTimedOut) stale →
  connection_ok id c → connection_ok id c'.
Proof.
  revert c rec. induction stale as [|[ns t] stale IH]; intros c rec H Hs Hc; simpl in H; [by simplify_eq|].
  apply Forall_cons in Hs as [Ht Hs].
  destruct (ConnectionLifecycle_record _ _ _) as [[u|e] c1] eqn:E.
  - destruct (record_requests _ _ _ _ _ E) as (Hr & Hg & _).
    destruct (reap_stale _ _ _ _) as [rec2 c2] eqn:E2. simplify_eq. rewrite <-Hg in E2.
    eapply (IH _ _ E2); [done|]. apply requests_ok; [apply size_delete_le|]. by eapply record_ok.
  - simplify_eq. by eapply record_ok.
Qed.

Lemma stale_terminals (iter : RequestIter) now m :
  Forall (λ p : RequestNamespace * RequestTerminal,
            p.2 = TerminalCancelled ∨ p.2 = TerminalTimedOut)
    (omap (λ '(namespace, request),
       terminal ← stale_terminal now request; Some (namespace, terminal)) (iter m)).
Proof.
  apply Forall_forall. intros [ns t] ([ns' q] & _ & H)%list_elem_of_omap.
  apply bind_Some in H as (t' & Ht & [= _ <-]). simpl. unfold stale_terminal in Ht.
  repeat case_match; simplify_eq; auto.
Qed.

Lemma reap_locked_ok iter id c now :
  connection_ok id c →
  connection_ok id (reap_accepted_locked iter c id (cl_generation c) now).2.
Proof.
  unfold reap_accepted_locked. intros Hc. destruct (reap_stale _ _ _ _) as [rec c'] eqn:E.
  eapply reap_stale_ok; [done|apply stale_terminals|done].
Qed.

Lemma registry_step_ok iter s l s' : registry_step iter s l s' → registry_ok s → registry_ok s'.
Proof.
  destruct 1 as [s id g r s' H|s k d a now r s' H|s k r s' H|s k now r s' H|s k now r s' H
                |s id g now r s' H|s k r s' H|s k now r s' H|s id g|s id g]; intros Hs.
  - unfold open_connection in H. destruct (_ || _) eqn:E; simplify_eq; [done|].
    apply orb_false_iff in E as [Eid Eg%Z.eqb_neq]. apply bool_decide_eq_false in Eid.
    repeat (case_match; simplify_eq; try done). apply map_Forall_insert_2; [|done].
    split; [done|]. split; simpl; try done.
  - eapply connection_mut_ok; [|exact H|exact Hs]. intros c r1 c' Hg Hb Hc. cbv beta zeta in Hb.
    apply (reap_locked_ok iter _ _ now) in Hc. rewrite Hg in Hc.
    set (c1 := (reap_accepted_locked _ _ _ _ _).2) in *. clearbody c1.
    destruct (cl_must_close c1); simplify_eq; [done|]. case_bool_decide; simplify_eq; [done|].
    destruct (_ <=? _) eqn:E in Hb; simplify_eq; [done|]. destruct Hc. split; simpl; try done.
    rewrite map_size_insert_None by by apply eq_None_not_Some. lia.
  - eapply connection_mut_ok; [|exact H|exact Hs]. intros c r1 c' Hg Hb []. cbv beta in Hb.
    destruct (_ <=? _) eqn:E in Hb; simplify_eq; split; simpl; try done. lia.
  - eapply connection_mut_ok; [|exact H|exact Hs]. intros c r1 c' Hg Hb Hc. cbv beta zeta in Hb.
    destruct (cl_requests c !! _) eqn:E; [|by simplify_eq].
    repeat (case_match; simplify_eq; try done); apply requests_ok; try done; try apply size_delete_le.
    by rewrite map_size_insert_Some by by eexists.
  - eapply connection_mut_ok; [|exact H|exact Hs]. intros c r1 c' Hg Hb Hc. cbv beta zeta in Hb.
    repeat (case_match; simplify_eq; try done); apply requests_ok; try done; apply size_delete_le.
  - eapply connection_mut_ok; [|exact H|exact Hs]. intros c r1 c' Hg Hb Hc. cbn in Hg, Hb.
    apply (reap_locked_ok iter _ _ now) in Hc. rewrite Hg in Hc. simplify_eq.
    destruct Hc. split; simpl; try done.
  - eapply connection_mut_ok; [|exact H|exact Hs]. intros c r1 c' Hg Hb Hc. cbv beta zeta in Hb.
    destruct (cl_requests c !! _) eqn:E; simplify_eq; [|done]. apply requests_ok; [|done].
    by rewrite map_size_insert_Some by by eexists.
  - eapply connection_mut_ok; [|exact H|exact Hs]. intros c r1 c' Hg Hb Hc. cbv beta zeta in Hb.
    repeat (case_match; simplify_eq; try done); apply requests_ok; try done; apply size_delete_le.
  - unfold disconnect. repeat (case_match; try done). by apply map_Forall_delete.
  - unfold finish_control. repeat (case_match; try done). eapply registry_ok_insert; [done|done|].
    intros []. split; simpl; try done. unfold saturating_sub. lia.
Qed.

(** C27: in every run of the broker service, whatever the clients send and in whatever order, each
    connection holds at most 8 active requests, at most 2 control requests and at most 16 undelivered
    terminals; a full terminal queue has marked the connection for closing; and queued terminals belong
    to the connection and generation that queues them. *)
Theorem registry_run_invariant iter ls s : registry_run iter ls s → registry_ok s.
Proof.
  induction 1 as [|ls s l s' _ IH Hs]; [apply map_Forall_empty|]. by eapply registry_step_ok.
Qed.

Definition sample_id : bytes := replicate 16 7.
Definition sample_key : ActiveRequestKey :=
  {| key_connection_id := sample_id; key_connection_generation := 1;
     key_authentication_namespace := replicate 32 1; key_client_instance := replicate 16 2;
     key_request_id := 5 |}.
Definition sample_open : RegistryState := {[ sample_id := ConnectionLifecycle_new 1 ]}.
Definition sample_active : RegistryState :=
  {[ sample_id :=
       set_requests (ConnectionLifecycle_new 1)
         {[ RequestNamespace_from sample_key :=
              {| act_deadline := 100; act_is_cancelled := false; act_accepted_read := None |} ]} ]}.

Lemma sample_run :
  registry_run map_to_list ([] ++ [silent] ++ [starts [sample_key]]) sample_active.
Proof.
  rewrite app_assoc. eapply run_step.
  - eapply run_step; [apply run_start|]. eapply (step_open _ _ sample_id 1). reflexivity.
  - apply (step_register _ _ sample_key 100 None 0 (Ok ())). reflexivity.
Qed.

Lemma registry_run_invariant_witness : registry_ok sample_active.
Proof. exact (registry_run_invariant map_to_list _ _ sample_run). Defined.

(** ** Every request is answered exactly once *)

Definition occurrences (k : ActiveRequestKey) (l : list ActiveRequestKey) : nat :=
  length (filter (eq k) l).

Lemma occurrences_app k l1 l2 : occurrences k (l1 ++ l2) = (occurrences k l1 + occurrences k l2)%nat.
Proof. unfold occurrences. by rewrite filter_app, length_app. Qed.
Lemma occurrences_one k k' : occurrences k [k'] = if decide (k = k') then 1%nat else 0%nat.
Proof. unfold occurrences. rewrite filter_cons, filter_nil. by case_decide. Qed.

(** Whether the request is in progress, and how often a terminal of it waits for delivery. *)
Definition is_active (k : ActiveRequestKey) (c : ConnectionLifecycle) : bool :=
  (cl_generation c =? key_connection_generation k) &&
  bool_decide (is_Some (cl_requests c !! RequestNamespace_from k)).

Definition owed (k : ActiveRequestKey) (c : ConnectionLifecycle) : nat :=
  (Nat.b2n (is_active k c) + occurrences k (rt_key <$> cl_recorded_terminals c))%nat.

(** The answers the registry still owes for [k]. *)
Definition outstanding (k : ActiveRequestKey) (s : RegistryState) : nat :=
  match s !! key_connection_id k with Some c => owed k c | None => 0%nat end.

Lemma outstanding_insert k s id c :
  outstanding k (<[id := c]> s) = if decide (key_connection_id k = id) then owed k c else outstanding k s.
Proof.
  unfold outstanding. case_decide as E; [subst; by rewrite lookup_insert_eq|].
  by rewrite lookup_insert_ne.
Qed.

(** What was owed and what was started is what is still owed and what was delivered. *)
Definition balanced (k : ActiveRequestKey) (s : RegistryState)
    (started delivered : list ActiveRequestKey) (s' : RegistryState) : Prop :=
  (outstanding k s + occurrences k started = outstanding k s' + occurrences k delivered)%nat.

(** The balance of one call, seen from its connection. *)
Lemma connection_mut_balance {A : Type} s k0 (body : _ → Result ActiveRequestError A * _) r s'
    (started delivered : Result ActiveRequestError A → list ActiveRequestKey) k :
  (∀ e, connection_ref s k0 = Err e → started (Err e) = [] ∧ delivered (Err e) = []) →
  (∀ c r c', cl_generation c = key_connection_generation k0 → body c = (r, c') →
     if decide (key_connection_id k = key_connection_id k0)
     then (owed k c + occurrences k (started r) = owed k c' + occurrences k (delivered r))%nat
     else occurrences k (started r) = 0%nat ∧ occurrences k (delivered r) = 0%nat) →
  connection_mut s k0 body = (r, s') → balanced k s (started r) (delivered r) s'.
Proof.
  unfold balanced.
  intros He Hb [(e & -> & -> & Hr)|(c & c' & Hc & Hg & Hbc & ->)]%connection_mut_inv.
  { by destruct (He e Hr) as [-> ->]. }
  rewrite outstanding_insert. specialize (Hb _ _ _ Hg Hbc). case_decide as E.
  - unfold outstanding. by rewrite E, Hc.
  - destruct Hb as [-> ->]. lia.
Qed.

Lemma key_of_from k : key_of (key_connection_id k) (key_connection_generation k) (RequestNamespace_from k) = k.
Proof. by destruct k. Qed.
Lemma from_key_of id g ns : RequestNamespace_from (key_of id g ns) = ns.
Proof. by destruct ns. Qed.

Lemma same_key k k0 :
  key_connection_id k = key_connection_id k0 →
  key_connection_generation k = key_connection_generation k0 →
  RequestNamespace_from k = RequestNamespace_from k0 ↔ k = k0.
Proof.
  intros Hi Hg. split; [|by intros ->]. intros Hn.
  by rewrite <-(key_of_from k), <-(key_of_from k0), Hi, Hg, Hn.
Qed.

(** Removing, adding or replacing the request of [k0]. *)
Lemma owed_delete k k0 c :
  key_connection_id k = key_connection_id k0 → cl_generation c = key_connection_generation k0 →
  is_Some (cl_requests c !! RequestNamespace_from k0) →
  owed k c = (owed k (set_requests c (delete (RequestNamespace_from k0) (cl_requests c)))
              + occurrences k [k0])%nat.
Proof.
  intros Hi Hg Hs. unfold owed, is_active. simpl. rewrite occurrences_one.
  destruct (Z.eqb_spec (cl_generation c) (key_connection_generation k)) as [Hgk|Hgk]; simpl.
  - pose proof (same_key k k0 Hi ltac:(congruence)) as Hk. case_decide as E.
    + subst. rewrite lookup_delete_eq. rewrite bool_decide_eq_true_2 by done. simpl. lia.
    + rewrite lookup_delete_ne by (intros Hn; by apply E, Hk). lia.
  - rewrite decide_False; [lia|]. intros ->. done.
Qed.

Lemma owed_insert k k0 c q :
  key_connection_id k = key_connection_id k0 → cl_generation c = key_connection_generation k0 →
  (owed k (set_requests c (<[RequestNamespace_from k0 := q]> (cl_requests c)))
   + if bool_decide (is_Some (cl_requests c !! RequestNamespace_from k0))
     then occurrences k [k0] else 0)%nat
  = (owed k c + occurrences k [k0])%nat.
Proof.
  intros Hi Hg. unfold owed, is_active. simpl. rewrite occurrences_one.
  destruct (Z.eqb_spec (cl_generation c) (key_connection_generation k)) as [Hgk|Hgk]; simpl.
  - pose proof (same_key k k0 Hi ltac:(congruence)) as Hk. case_decide as E.
    + subst. rewrite lookup_insert_eq, (bool_decide_eq_true_2 (is_Some (Some q))) by by eexists.
      destruct (bool_decide (is_Some (cl_requests c !! _))); simpl; lia.
    + rewrite lookup_insert_ne by (intros Hn; by apply E, Hk).
      destruct (bool_decide (is_Some (cl_requests c !! RequestNamespace_from k0))); lia.
  - rewrite decide_False by (intros ->; done).
    destruct (bool_decide (is_Some (cl_requests c !! RequestNamespace_from k0))); lia.
Qed.

Lemma reap_stale_owed k stale c rec c' :
  NoDup stale.*1 → Forall (λ p, is_Some (cl_requests c !! p.1)) stale →
  reap_stale (key_connection_id k) (cl_generation c) stale c = (rec, c') →
  owed k c' = owed k c ∧ cl_generation c' = cl_generation c.
Proof.
  revert c rec. induction stale as [|[ns t] stale IH]; intros c rec Hnd Hin H; simpl in H;
    [by simplify_eq|].
  rewrite fmap_cons in Hnd. apply NoDup_cons in Hnd as [Hns Hnd]. apply Forall_cons in Hin as [Hn Hin].
  simpl in Hns, Hn.
  set (k0 := key_of (key_connection_id k) (cl_generation c) ns) in *.
  unfold ConnectionLifecycle_record in H. destruct (_ =? _); [by simplify_eq|].
  destruct (reap_stale _ _ _ _) as [rec2 c2] eqn:E2. simplify_eq.
  match type of E2 with reap_stale _ _ _ ?c1 = _ =>
    destruct (λ Hf, IH c1 rec2 Hnd Hf E2) as [-> ->] end.
  - simpl. rewrite Forall_forall in Hin |- *. intros [ns' t'] Hp. specialize (Hin _ Hp). simpl in *.
    rewrite lookup_delete_ne; [done|]. intros <-. apply Hns.
    apply list_elem_of_fmap. by exists (ns, t').
  - split; [|done]. assert (RequestNamespace_from k0 = ns) as Hk0 by apply from_key_of.
    rewrite (owed_delete k k0 c eq_refl eq_refl) by by rewrite Hk0.
    unfold owed, is_active. simpl. rewrite fmap_app, occurrences_app, Hk0. simpl. lia.
Qed.

Section Balance.
Context (iter : RequestIter) (iter_perm : ∀ m, iter m ≡ₚ map_to_list m).

Lemma reap_locked_owed k c now :
  owed k (reap_accepted_locked iter c (key_connection_id k) (cl_generation c) now).2 = owed k c ∧
  cl_generation (reap_accepted_locked iter c (key_connection_id k) (cl_generation c) now).2
    = cl_generation c.
Proof.
  unfold reap_accepted_locked. destruct (reap_stale _ _ _ _) as [rec c'] eqn:E. simpl.
  assert (NoDup (iter (cl_requests c)).*1) as Hnd.
  { rewrite iter_perm. apply NoDup_fst_map_to_list. }
  assert (Forall (λ p, is_Some (cl_requests c !! p.1)) (iter (cl_requests c))) as Hin.
  { rewrite iter_perm. apply Forall_forall. intros [ns q] H%elem_of_map_to_list. by eexists. }
  apply reap_stale_owed in E; [done|..]; clear E.
  all: induction (iter (cl_requests c)) as [|[ns q] l IH]; [constructor|].
  all: rewrite fmap_cons in Hnd; apply NoDup_cons in Hnd as [Hns Hnd]; apply Forall_cons in Hin as [Hn Hin].
  all: csimpl in *; destruct (stale_terminal now q); csimpl; [constructor|]; auto.
  intros ([ns' t'] & Heq & Hel)%list_elem_of_fmap. simpl in Heq. subst.
  apply list_elem_of_omap in Hel as ([ns2 q2] & Hel & Hb).
  apply bind_Some in Hb as (t2 & _ & [= -> _]). apply Hns. apply list_elem_of_fmap. by exists (ns', q2).
Qed.

Lemma occurrences_other k k0 :
  key_connection_id k ≠ key_connection_id k0 → occurrences k [k0] = 0%nat.
Proof. intros H. rewrite occurrences_one, decide_False; [done|]. by intros ->. Qed.

(** A call on a connection that changes nothing owed. *)
Lemma owed_controls k c n : owed k (set_controls c n) = owed k c.
Proof. done. Qed.

(** The bodies of the calls, one balance each. *)
Lemma register_balance s k0 d a now r s' k :
  register iter s k0 d a now = (r, s') →
  balanced k s (if is_ok r then [k0] else []) [] s'.
Proof.
  apply (connection_mut_balance s k0 _ r s' (λ r, if is_ok r then [k0] else []) (λ _, [])); [done|].
  intros c r1 c' Hg Hb. cbv beta zeta in Hb. case_decide as Ek.
  - destruct (reap_locked_owed k c now) as [Ho Hgc]. rewrite Ek, Hg in Ho, Hgc.
    set (c1 := (reap_accepted_locked _ _ _ _ _).2) in *. clearbody c1. rewrite <-Ho. clear Ho.
    destruct (cl_must_close c1); simplify_eq; [done|].
    pose proof (owed_insert k k0 c1 {| act_deadline := d; act_is_cancelled := false;
                                       act_accepted_read := a |} Ek Hgc) as Hi.
    case_bool_decide; simplify_eq; [done|]. destruct (_ <=? _) in Hb; simplify_eq; [done|]. simpl in *.
    change (occurrences k []) with 0%nat. lia.
  - split; [|done]. destruct (is_ok r1); [by apply occurrences_other|done].
Qed.

Lemma begin_execution_balance s k0 now r s' k :
  begin_execution s k0 now = (r, s') →
  balanced k s [] (match r with Err RequestCancelled | Err RequestTimedOut => [k0] | _ => [] end) s'.
Proof.
  apply (connection_mut_balance s k0 _ r s' (λ _, [])
    (λ r, match r with Err RequestCancelled | Err RequestTimedOut => [k0] | _ => [] end)).
  - intros e He. split; [done|]. unfold connection_ref in He.
    destruct (s !! _); simpl in He; [destruct (_ =? _); simpl in He|]; by simplify_eq.
  - clear. intros c r1 c' Hg Hb. cbv beta zeta in Hb. case_decide as Ek.
    + destruct (cl_requests c !! _) as [q|] eqn:Eq; [|by simplify_eq].
      pose proof (owed_delete k k0 c Ek Hg ltac:(by eexists)) as Hd.
      change (occurrences k []) with 0%nat.
      destruct (act_is_cancelled q); [simplify_eq; lia|].
      destruct (_ <=? _) in Hb; [simplify_eq; lia|].
      destruct (act_accepted_read q); simplify_eq; [|done].
      match goal with |- context [<[_ := ?q']> _] => pose proof (owed_insert k k0 c q' Ek Hg) as Hi end.
      rewrite Eq, bool_decide_eq_true_2 in Hi by by eexists.
      change (occurrences k []) with 0%nat. lia.
    + split; [done|]. repeat case_match; simplify_eq; try done; by apply occurrences_other.
Qed.

Lemma abort_accepted_balance s k0 now r s' k :
  abort_accepted s k0 now = (r, s') →
  balanced k s [] (match r with Ok t => [rt_key t] | Err _ => [] end) s'.
Proof.
  apply (connection_mut_balance s k0 _ r s' (λ _, [])
    (λ r, match r with Ok t => [rt_key t] | Err _ => [] end)); [done|].
  intros c r1 c' Hg Hb. cbv beta zeta in Hb. case_decide as Ek.
  - destruct (cl_requests c !! _) as [q|] eqn:Eq; [|by simplify_eq].
    pose proof (owed_delete k k0 c Ek Hg ltac:(by eexists)) as Hd.
    destruct (act_accepted_read q); simplify_eq; [|done]. cbn [rt_key].
    change (occurrences k []) with 0%nat. lia.
  - split; [done|]. repeat (case_match; simplify_eq; try done); by apply occurrences_other.
Qed.

Lemma finish_balance s k0 now r s' k :
  finish s k0 now = (r, s') →
  balanced k s [] (if is_ok r then [k0] else []) s'.
Proof.
  apply (connection_mut_balance s k0 _ r s' (λ _, []) (λ r, if is_ok r then [k0] else [])); [done|].
  intros c r1 c' Hg Hb. cbv beta zeta in Hb. case_decide as Ek.
  - destruct (cl_requests c !! _) as [q|] eqn:Eq; simplify_eq; [|done].
    pose proof (owed_delete k k0 c Ek Hg ltac:(by eexists)) as Hd. cbn [is_ok].
    change (occurrences k []) with 0%nat. lia.
  - split; [done|]. destruct (is_ok r1); [by apply occurrences_other|done].
Qed.

Lemma cancel_balance s k0 r s' k : cancel s k0 = (r, s') → balanced k s [] [] s'.
Proof.
  apply (connection_mut_balance s k0 _ r s' (λ _, []) (λ _, []) k); [done|].
  intros c r1 c' Hg Hb. cbv beta zeta in Hb. case_decide as Ek; [|done].
  destruct (cl_requests c !! _) as [q|] eqn:Eq; simplify_eq; [|done].
  match goal with |- context [<[_ := ?q']> _] => pose proof (owed_insert k k0 c q' Ek Hg) as Hi end.
  rewrite Eq, bool_decide_eq_true_2 in Hi by by eexists. change (occurrences k []) with 0%nat. lia.
Qed.

Lemma begin_control_balance s k0 r s' k :
  begin_control s k0 = (r, s') → balanced k s [] [] s'.
Proof.
  apply (connection_mut_balance s k0 _ r s' (λ _, []) (λ _, []) k); [done|].
  intros c r1 c' Hg Hb. cbv beta in Hb. case_decide as Ek; [|done].
  destruct (_ <=? _) in Hb; by simplify_eq.
Qed.

Lemma occurrences_foreign k id c :
  connection_ok id c → key_connection_id k ≠ id →
  occurrences k (rt_key <$> cl_recorded_terminals c) = 0%nat.
Proof.
  intros [_ _ _ _ _ Hk] Hne. unfold occurrences.
  induction Hk as [|t ts (Hid & _) _ IH]; [done|]. rewrite fmap_cons, filter_cons, decide_False; [done|].
  by intros ->.
Qed.

Lemma reap_accepted_balance s id g now r s' k :
  registry_ok s → reap_accepted iter s id g now = (r, s') →
  balanced k s [] (match r with Ok d => rt_key <$> drain_terminals d | Err _ => [] end) s'.
Proof.
  intros Hs [(e & -> & -> & _)|(c & c' & Hc & Hg & Hb & ->)]%connection_mut_inv; [done|].
  cbn in Hc, Hg, Hb. destruct (Hs _ _ Hc) as [_ Hok]. apply (reap_locked_ok iter _ _ now) in Hok.
  rewrite Hg in Hok. simplify_eq. unfold balanced. cbn [drain_terminals key_connection_id].
  rewrite outstanding_insert. change (occurrences k []) with 0%nat.
  case_decide as Ek.
  - subst id. destruct (reap_locked_owed k c now) as [Ho _].
    unfold outstanding. rewrite Hc, <-Ho. unfold owed, is_active. simpl.
    change (occurrences k []) with 0%nat. lia.
  - rewrite (occurrences_foreign k id) by done. lia.
Qed.

Lemma registry_step_balance s l s' k :
  registry_ok s → registry_step iter s l s' → lb_closed l ≠ Some (key_connection_id k) →
  balanced k s (lb_started l) (lb_delivered l) s'.
Proof.
  intros Hs Hstep Hcl.
  destruct Hstep as [s id g r s' H|s k0 d a now r s' H|s k0 r s' H|s k0 now r s' H|s k0 now r s' H
                    |s id g now r s' H|s k0 r s' H|s k0 now r s' H|s id g|s id g];
    cbn [lb_started lb_delivered silent starts delivers lb_closed] in *.
  - unfold open_connection in H. unfold balanced. repeat (case_match; simplify_eq; try done).
    rewrite outstanding_insert. destruct (decide (key_connection_id k = id)) as [E|]; [|done]. subst id.
    unfold outstanding at 1. match goal with H : s !! _ = None |- _ => rewrite H end.
    unfold owed, is_active, ConnectionLifecycle_new. simpl. by rewrite lookup_empty, andb_false_r.
  - by eapply register_balance.
  - by eapply begin_control_balance.
  - by eapply begin_execution_balance.
  - by eapply abort_accepted_balance.
  - by eapply reap_accepted_balance.
  - by eapply cancel_balance.
  - by eapply finish_balance.
  - unfold disconnect, balanced. repeat (case_match; try done). unfold outstanding.
    rewrite lookup_delete_ne; [done|congruence].
  - unfold finish_control, balanced. destruct (s !! id) as [c|] eqn:E; [|done]. case_match; [|done].
    rewrite outstanding_insert. case_decide; [|done]. subst id. unfold outstanding at 1. by rewrite E.
Qed.
End Balance.

Definition all_started (ls : list Label) : list ActiveRequestKey := ls ≫= lb_started.
Definition all_delivered (ls : list Label) : list ActiveRequestKey := ls ≫= lb_delivered.

(** A call never makes more answers than it was asked for, closing a connection included. *)
Lemma registry_step_bound iter s l s' k :
  (∀ m, iter m ≡ₚ map_to_list m) → registry_ok s → registry_step iter s l s' →
  (outstanding k s' + occurrences k (lb_delivered l) ≤ outstanding k s + occurrences k (lb_started l))%nat.
Proof.
  intros Hiter Hok Hstep. destruct (decide (lb_closed l = Some (key_connection_id k))) as [Hc|Hc].
  - destruct Hstep; try done. cbn in *. change (occurrences k []) with 0%nat. unfold disconnect.
    destruct (s !! id) as [c|] eqn:E; [|lia]. destruct (_ =? _); [|lia]. injection Hc as ->.
    unfold outstanding at 1. rewrite lookup_delete_eq. lia.
  - pose proof (registry_step_balance iter Hiter s l s' k Hok Hstep Hc) as Hb. unfold balanced in Hb. lia.
Qed.

Lemma registry_run_ok iter ls s : registry_run iter ls s → registry_ok s.
Proof. induction 1; [apply map_Forall_empty|]. by eapply registry_step_ok. Qed.

(** C13: the registry neither invents nor loses an answer.  In every run, the terminals handed out for a request and
    the answers still owed to it (it is in progress, or its terminal is queued) are together at most as many as the times it
    was accepted.  They are exactly as many in a run that never closes the connection of the request, which is the only
    way to drop one.  This holds for every iteration order of the request map. *)
Theorem every_request_answered_once iter ls s k :
  (∀ m, iter m ≡ₚ map_to_list m) → registry_run iter ls s →
  (occurrences k (all_delivered ls) + outstanding k s ≤ occurrences k (all_started ls))%nat ∧
  (Forall (λ l, lb_closed l ≠ Some (key_connection_id k)) ls →
   occurrences k (all_started ls) = (occurrences k (all_delivered ls) + outstanding k s)%nat).
Proof.
  intros Hiter Hrun. induction Hrun as [|ls s l s' Hrun [IHle IH] Hstep]; [done|].
  pose proof (registry_run_ok _ _ _ Hrun) as Hok.
  pose proof (registry_step_bound iter s l s' k Hiter Hok Hstep) as Hle.
  unfold all_started, all_delivered in *. rewrite !bind_app, !occurrences_app. cbn [mbind list_bind]. rewrite !app_nil_r.
  split; [lia|]. intros Hopen. apply Forall_app in Hopen as [Hopen Hl]. apply Forall_cons in Hl as [Hl _].
  pose proof (registry_step_balance iter Hiter s l s' k Hok Hstep Hl) as Hb. unfold balanced in Hb.
  rewrite IH by done. lia.
Qed.

Lemma every_request_answered_once_witness :
  occurrences sample_key (all_started ([] ++ [silent] ++ [starts [sample_key]])) =
  (0 + outstanding sample_key sample_active)%nat.
Proof.
  apply (every_request_answered_once map_to_list ([] ++ [silent] ++ [starts [sample_key]])
           sample_active sample_key).
  - reflexivity.
  - exact sample_run.
  - apply (bool_decide_unpack _). vm_compute. exact I.
Defined.

(** ** Cancellation, execution and closing *)

Lemma connection_ref_insert s k c :
  cl_generation c = key_connection_generation k →
  connection_ref (<[key_connection_id k := c]> s) k = Ok c.
Proof. intros Hg. apply connection_ref_Ok. by rewrite lookup_insert_eq. Qed.

(** The steps that follow a state. *)
Inductive registry_steps (iter : RequestIter) (s : RegistryState) : list Label → RegistryState → Prop :=
| steps_none : registry_steps iter s [] s
| steps_next ls s' l s'' :
    registry_steps iter s ls s' → registry_step iter s' l s'' → registry_steps iter s (ls ++ [l]) s''.

(** On its connection the request [k] is not in progress, or is marked as cancelled; terminals of it that were queued
    after [old] say so. *)
Definition revoked (k : ActiveRequestKey) (old : list RecordedTerminal) (c : ConnectionLifecycle) : Prop :=
  cl_generation c = key_connection_generation k →
  (∀ q, cl_requests c !! RequestNamespace_from k = Some q → act_is_cancelled q = true) ∧
  ∀ t, t ∈ cl_recorded_terminals c → rt_key t = k → t ∈ old ∨ rt_terminal t = TerminalCancelled.

Definition revoked_in (k : ActiveRequestKey) (old : list RecordedTerminal) (s : RegistryState) : Prop :=
  ∀ c, s !! key_connection_id k = Some c → revoked k old c.

Lemma revoked_insert k old s id c :
  revoked_in k old s → (key_connection_id k = id → revoked k old c) → revoked_in k old (<[id := c]> s).
Proof. intros Hs Hc c'. intros [[Hid <-]|[_ Hl]]%lookup_insert_Some; [by apply Hc|by apply Hs]. Qed.

Lemma connection_mut_revoked {A : Type} s k0 (body : _ → Result ActiveRequestError A * _) r s' k old :
  (∀ c c', cl_generation c = key_connection_generation k0 → key_connection_id k = key_connection_id k0 →
     body c = (r, c') → revoked k old c → revoked k old c') →
  connection_mut s k0 body = (r, s') → revoked_in k old s → revoked_in k old s'.
Proof.
  intros Hb [(e & -> & -> & _)|(c & c' & Hc & Hg & Hbc & ->)]%connection_mut_inv Hs; [done|].
  apply revoked_insert; [done|]. intros Hid. eapply Hb; [done|done|done|]. apply Hs. by rewrite Hid.
Qed.

Lemma revoked_delete k old c ns : revoked k old c → revoked k old (set_requests c (delete ns (cl_requests c))).
Proof. intros Hc Hg. destruct (Hc Hg) as [Hq Ht]. split; [|done]. intros q. cbn. intros [_ Hl]%lookup_delete_Some. by apply Hq. Qed.

(** Replacing a request keeps it cancelled if the new one is as cancelled as the old one. *)
Lemma revoked_replace k old c ns q q' :
  revoked k old c → cl_requests c !! ns = Some q → (act_is_cancelled q = true → act_is_cancelled q' = true) →
  revoked k old (set_requests c (<[ns := q']> (cl_requests c))).
Proof.
  intros Hc Hns Hq' Hg. destruct (Hc Hg) as [Hq Ht]. split; [|done]. intros q0. cbn.
  intros [[-> <-]|[_ Hl]]%lookup_insert_Some; [auto|by apply Hq].
Qed.

Lemma reap_stale_revoked k old id g stale : ∀ c,
  Forall (λ p, cl_generation c = key_connection_generation k → key_of id g p.1 = k → p.2 = TerminalCancelled) stale →
  revoked k old c → revoked k old (reap_stale id g stale c).2.
Proof.
  induction stale as [|[ns t] stale IH]; intros c Hst Hc; [done|]. apply Forall_cons in Hst as [Ht Hst]. cbn [reap_stale].
  unfold ConnectionLifecycle_record. destruct (_ =? _); [done|].
  match goal with |- context [reap_stale _ _ _ ?c] => set (c1 := c) end.
  assert (revoked k old c1) as Hc1.
  { subst c1. apply (revoked_delete k old (set_terminals _ _ _)). intros Hg. destruct (Hc Hg) as [Hq Hr]. split; [done|]. cbn.
    intros t'. rewrite elem_of_app, list_elem_of_singleton. intros [?| ->] Hk; [by apply Hr|]. right. by apply Ht. }
  specialize (IH c1 Hst Hc1). by destruct (reap_stale _ _ _ c1).
Qed.

Section Revocation.
Context (iter : RequestIter) (iter_perm : ∀ m, iter m ≡ₚ map_to_list m).

Lemma reap_locked_revoked k old c now :
  revoked k old c → revoked k old (reap_accepted_locked iter c (key_connection_id k) (cl_generation c) now).2.
Proof.
  intros Hc. unfold reap_accepted_locked. apply reap_stale_revoked; [|done]. apply Forall_forall.
  intros [ns t] ([ns' q] & Hin & H)%list_elem_of_omap Hg Hk. apply bind_Some in H as (t' & Ht & [= -> ->]).
  rewrite iter_perm in Hin. apply elem_of_map_to_list in Hin. destruct (Hc Hg) as [Hq _].
  assert (act_is_cancelled q = true) as Hcq by (apply Hq; rewrite <-Hk; cbn [fst]; by rewrite from_key_of).
  unfold stale_terminal in Ht. rewrite Hcq in Ht. by destruct (act_accepted_read q); simplify_eq.
Qed.

Lemma reap_locked_generation c id now : cl_generation (reap_accepted_locked iter c id (cl_generation c) now).2 = cl_generation c.
Proof.
  pose proof (reap_locked_owed iter iter_perm (key_of id (cl_generation c) (RequestNamespace_from sample_key)) c now) as [_ H]. exact H.
Qed.

(** Only accepting the request again takes the cancellation back. *)
Lemma registry_step_revoked s l s' k old :
  registry_step iter s l s' → k ∉ lb_started l → revoked_in k old s → revoked_in k old s'.
Proof.
  intros Hstep Hni Hs.
  destruct Hstep as [s id g r s' H|s k0 d a now r s' H|s k0 r s' H|s k0 now r s' H|s k0 now r s' H
                    |s id g now r s' H|s k0 r s' H|s k0 now r s' H|s id g|s id g].
  2,3,4,5,6,7,8: eapply connection_mut_revoked; [|exact H|exact Hs]; cbn [key_connection_id key_connection_generation];
    intros c c' Hg Hid Hb Hc; cbv beta zeta in Hb.
  - unfold open_connection in H. repeat (case_match; simplify_eq; try done). apply revoked_insert; [done|]. intros _ _. split; [done|].
    intros t Ht. by apply not_elem_of_nil in Ht.
  - apply (reap_locked_revoked _ _ _ now) in Hc. pose proof (reap_locked_generation c (key_connection_id k) now) as Hgen.
    rewrite Hid, Hg in Hc, Hgen. set (c1 := (reap_accepted_locked _ _ _ _ _).2) in *. clearbody c1.
    destruct (cl_must_close c1); simplify_eq; [done|]. case_bool_decide; simplify_eq; [done|].
    destruct (_ <=? _) in Hb; simplify_eq; [done|]. intros Hk. destruct (Hc Hk) as [Hq Ht]. split; [|done]. intros q. cbn.
    intros [[Hns _]|[_ Hl]]%lookup_insert_Some; [|by apply Hq]. destruct Hni. cbn.
    rewrite (proj1 (same_key k0 k ltac:(done) ltac:(cbn in Hk; congruence))) by done. by left.
  - by destruct (_ <=? _) in Hb; simplify_eq.
  - destruct (cl_requests c !! _) as [q|] eqn:E; [|by simplify_eq].
    destruct (act_is_cancelled q) eqn:Eq; [simplify_eq; by apply revoked_delete|].
    destruct (_ <=? _) in Hb; [simplify_eq; by apply revoked_delete|].
    destruct (act_accepted_read q); simplify_eq; [|done]. apply (revoked_replace _ _ _ _ q); [done|done|]. by rewrite Eq.
  - repeat (case_match; simplify_eq; try done); by apply revoked_delete.
  - apply (reap_locked_revoked _ _ _ now) in Hc. rewrite Hid, Hg in Hc. simplify_eq. intros Hk. destruct (Hc Hk) as [Hq _].
    split; [exact Hq|]. intros t Ht. by apply not_elem_of_nil in Ht.
  - destruct (cl_requests c !! _) as [q|] eqn:E; simplify_eq; [|done]. by apply (revoked_replace _ _ _ _ q).
  - repeat (case_match; simplify_eq; try done); by apply revoked_delete.
  - unfold disconnect. repeat (case_match; try done). intros c' [_ Hl]%lookup_delete_Some. by apply Hs.
  - unfold finish_control. destruct (s !! id) as [c|] eqn:E; [|done]. case_match; [|done]. apply revoked_insert; [done|].
    intros <-. intros Hk. by apply (Hs c E).
Qed.

Lemma registry_steps_revoked s ls s' k old :
  registry_steps iter s ls s' → k ∉ all_started ls → revoked_in k old s → revoked_in k old s'.
Proof.
  induction 1 as [|ls s' l s'' _ IH Hstep]; intros Hni Hs; [done|]. unfold all_started in *.
  rewrite bind_app, elem_of_app in Hni. cbn [mbind list_bind] in Hni. rewrite app_nil_r in Hni.
  eapply registry_step_revoked; [done|tauto|]. apply IH; tauto.
Qed.
End Revocation.

(** The terminals queued on the connection of a request. *)
Definition queued_terminals (s : RegistryState) (k : ActiveRequestKey) : list RecordedTerminal :=
  match s !! key_connection_id k with Some c => cl_recorded_terminals c | None => [] end.

Lemma cancel_revokes s k s' : cancel s k = (Ok (), s') → revoked_in k (queued_terminals s' k) s'.
Proof.
  intros [(e & [=] & _)|(c & c' & Hc & Hg & Hb & ->)]%connection_mut_inv. cbv beta zeta in Hb.
  destruct (cl_requests c !! _) as [q|] eqn:E; simplify_eq. intros c'. rewrite lookup_insert_eq. intros [= <-] _.
  unfold queued_terminals. rewrite lookup_insert_eq. split; [|by left]. intros q'. cbn. rewrite lookup_insert_eq. by intros [= <-].
Qed.

(** What a request that was revoked can still do. *)
Lemma revoked_calls iter s k old now :
  (∀ m, iter m ≡ₚ map_to_list m) → revoked_in k old s →
  (check_request s k now ≠ Ok () ∧ is_ok (begin_execution s k now).1 = false) ∧
  ((∃ c, connection_ref s k = Ok c ∧ is_active k c = true) →
     check_request s k now = Err RequestCancelled ∧ (begin_execution s k now).1 = Err RequestCancelled ∧
     (finish s k now).1 = Ok TerminalCancelled) ∧
  (∀ terminal, (finish s k now).1 = Ok terminal → terminal = TerminalCancelled) ∧
  (∀ t, (abort_accepted s k now).1 = Ok t → t = {| rt_key := k; rt_terminal := TerminalCancelled |}) ∧
  (∀ drain t, (reap_accepted iter s (key_connection_id k) (key_connection_generation k) now).1 = Ok drain →
     t ∈ drain_terminals drain → rt_key t = k → t ∈ old ∨ rt_terminal t = TerminalCancelled).
Proof.
  intros Hiter Hr. split_and!.
  all: unfold check_request, begin_execution, finish, abort_accepted, reap_accepted, connection_mut.
  6: { intros drain t H Ht Hk. change (connection_ref s {| key_connection_id := _ |}) with (connection_ref s k) in H.
    destruct (connection_ref s k) as [c|e] eqn:Ec; [|done]. apply connection_ref_Ok in Ec as [Hc Hg]. cbn [fst] in H.
    injection H as <-. cbn [drain_terminals] in Ht. rewrite <-Hg in Ht. eapply (reap_locked_revoked iter Hiter k old c now); [by apply Hr| |exact Ht|done].
    by rewrite reap_locked_generation. }
  all: destruct (connection_ref s k) as [c|e] eqn:Ec;
    [apply connection_ref_Ok in Ec as [Hc Hg]; destruct (Hr c Hc Hg) as [Hq _]|try done; by intros (? & [=] & _)].
  - cbn. destruct (cl_requests c !! _) as [q|] eqn:E; cbn; [|done]. by rewrite (Hq q).
  - cbn. destruct (cl_requests c !! _) as [q|] eqn:E; cbn; [|done]. by rewrite (Hq q).
  - intros (c' & [= <-] & [_ [q E]%bool_decide_eq_true]%andb_true_iff). cbn. rewrite E. cbn. by rewrite (Hq q).
  - cbn. destruct (cl_requests c !! _) as [q|] eqn:E; cbn; [|done]. rewrite (Hq q) by done. by intros ? [= <-].
  - cbn. destruct (cl_requests c !! _) as [q|] eqn:E; cbn; [|done]. rewrite (Hq q) by done.
    destruct (act_accepted_read q); cbn; [by intros ? [= <-]|done].
Qed.

(** C37: a cancellation that was accepted is final.  After any sequence of further calls that does not accept the same
    request again, at any time: the request fails its liveness check and is not handed out for execution; if it is still in
    progress, both say that it is cancelled, and finishing it gives the cancelled terminal, even past its deadline; aborting it
    gives the same terminal, and so does reaping it, apart from terminals that were queued for its key before the
    cancellation. *)
Theorem cancel_is_final iter s k s' ls s'' now :
  (∀ m, iter m ≡ₚ map_to_list m) → cancel s k = (Ok (), s') → registry_steps iter s' ls s'' → k ∉ all_started ls →
  (check_request s'' k now ≠ Ok () ∧ is_ok (begin_execution s'' k now).1 = false) ∧
  ((∃ c, connection_ref s'' k = Ok c ∧ is_active k c = true) →
     check_request s'' k now = Err RequestCancelled ∧ (begin_execution s'' k now).1 = Err RequestCancelled ∧
     (finish s'' k now).1 = Ok TerminalCancelled) ∧
  (∀ terminal, (finish s'' k now).1 = Ok terminal → terminal = TerminalCancelled) ∧
  (∀ t, (abort_accepted s'' k now).1 = Ok t → t = {| rt_key := k; rt_terminal := TerminalCancelled |}) ∧
  (∀ drain t, (reap_accepted iter s'' (key_connection_id k) (key_connection_generation k) now).1 = Ok drain →
     t ∈ drain_terminals drain → rt_key t = k → t ∈ queued_terminals s' k ∨ rt_terminal t = TerminalCancelled).
Proof.
  intros Hiter Hcancel%cancel_revokes Hsteps Hni. pose proof (registry_steps_revoked iter Hiter _ _ _ _ _ Hsteps Hni Hcancel) as Hr.
  by apply revoked_calls.
Qed.

Definition sample_cancelled : RegistryState := (cancel sample_active sample_key).2.

Lemma cancel_is_final_witness :
  cancel sample_active sample_key = (Ok (), sample_cancelled) ∧
  (finish (finish_control sample_cancelled sample_id 1) sample_key 1000).1 = Ok TerminalCancelled.
Proof.
  assert (cancel sample_active sample_key = (Ok (), sample_cancelled)) as H by reflexivity.
  split; [exact H|].
  destruct (cancel_is_final map_to_list sample_active sample_key sample_cancelled ([] ++ [silent])
    (finish_control sample_cancelled sample_id 1) 1000 (λ m, reflexivity _) H) as (_ & Hactive & _).
  - apply (steps_next _ _ [] sample_cancelled); [apply steps_none|apply step_finish_control].
  - apply (bool_decide_unpack _). vm_compute. exact I.
  - apply Hactive. eexists. split; reflexivity.
Defined.

(** An accepted read is handed out for execution at most once, and while it executes it can no
    longer be aborted as if it had never started. *)
Theorem executed_at_most_once s k now a s' now' :
  begin_execution s k now = (Ok a, s') →
  is_ok (begin_execution s' k now').1 = false ∧ abort_accepted s' k now' = (Err NotActive, s').
Proof.
  intros [(e & [=] & _)|(c & c' & Hc & Hg & Hb & ->)]%connection_mut_inv. cbv beta zeta in Hb.
  destruct (cl_requests c !! _) as [q|] eqn:E; [|done].
  destruct (act_is_cancelled q) eqn:Ec; [done|]. destruct (_ <=? _) in Hb; [done|].
  destruct (act_accepted_read q) as [r|]; simplify_eq.
  unfold begin_execution, abort_accepted, connection_mut.
  rewrite connection_ref_insert by done. cbn [cl_requests set_requests]. rewrite lookup_insert_eq.
  cbn [act_is_cancelled act_deadline act_accepted_read]. split.
  - by destruct (_ <=? now').
  - by rewrite insert_insert_eq.
Qed.

Definition sample_range : ReadJournalRangeRequest :=
  {| rd_caller := {| caller_process_id := 1; caller_session_id := 1; caller_client_instance := [] |};
     rd_root := {| root_root_id := []; root_root_generation := 1; root_volume_id := [];
                   root_root_identity := []; root_canonical_root_utf16 := [] |};
     rd_root_capability := {| capability_bytes := [] |};
     rd_journal_id := 1; rd_start_usn := 0; rd_end_usn := 1; rd_max_records := 1;
     rd_max_evidence_bytes := 1; rd_timeout_ms := 1 |}.
Definition sample_accepted : RegistryState :=
  (accept_read map_to_list sample_open sample_key 100 sample_range 0).2.
Definition sample_executing : RegistryState := (begin_execution sample_accepted sample_key 5).2.

Lemma executed_at_most_once_witness :
  begin_execution sample_accepted sample_key 5 =
    (Ok {| ar_request := ReadRoot sample_range; ar_deadline := 100 |}, sample_executing) ∧
  is_ok (begin_execution sample_executing sample_key 6).1 = false.
Proof.
  assert (begin_execution sample_accepted sample_key 5 =
    (Ok {| ar_request := ReadRoot sample_range; ar_deadline := 100 |}, sample_executing)) as H
    by reflexivity.
  split; [exact H|]. exact (proj1 (executed_at_most_once _ _ _ _ _ 6 H)).
Defined.

(** The mark for closing survives every change of a connection. *)
Lemma reap_stale_must_close id g stale c rec c' :
  reap_stale id g stale c = (rec, c') → cl_must_close c = true → cl_must_close c' = true.
Proof.
  revert c rec. induction stale as [|[ns t] stale IH]; intros c rec H Hm; simpl in H; [by simplify_eq|].
  unfold ConnectionLifecycle_record in H. destruct (_ =? _) in H; [by simplify_eq|].
  destruct (reap_stale _ _ _ _) as [rec2 c2] eqn:E2. simplify_eq. eapply IH; [exact E2|].
  simpl. rewrite Hm. by case_match.
Qed.

Lemma reap_locked_must_close iter c id g now :
  cl_must_close c = true → cl_must_close (reap_accepted_locked iter c id g now).2 = true.
Proof.
  unfold reap_accepted_locked. destruct (reap_stale _ _ _ _) as [rec c'] eqn:E.
  by apply (reap_stale_must_close _ _ _ _ _ _ E).
Qed.

Lemma connection_mut_must_close {A : Type} s k (body : _ → Result ActiveRequestError A * _) r s' id c :
  (∀ c r c', body c = (r, c') → cl_must_close c = true → cl_must_close c' = true) →
  connection_mut s k body = (r, s') → s !! id = Some c → cl_must_close c = true →
  ∃ c', s' !! id = Some c' ∧ cl_must_close c' = true.
Proof.
  intros Hb [(e & -> & -> & _)|(c0 & c' & Hc & Hg & Hbc & ->)]%connection_mut_inv Hs Hm; [by exists c|].
  destruct (decide (key_connection_id k = id)) as [E|E]; [subst id|].
  - simplify_eq. exists c'. rewrite lookup_insert_eq. split; [done|]. by eapply Hb.
  - exists c. by rewrite lookup_insert_ne.
Qed.

(** Backpressure is enforced until the connection is gone.  Once a connection is marked for
    closing, no call starts a request on it and no call but closing it removes the mark. *)
Theorem closing_connection_accepts_nothing iter s l s' id c :
  registry_step iter s l s' → s !! id = Some c → cl_must_close c = true →
  Forall (λ k, key_connection_id k ≠ id) (lb_started l) ∧
  (lb_closed l = Some id ∨ ∃ c', s' !! id = Some c' ∧ cl_must_close c' = true).
Proof.
  intros Hstep Hs Hm.
  destruct Hstep as [s id0 g r s' H|s k d a now r s' H|s k r s' H|s k now r s' H|s k now r s' H
                    |s id0 g now r s' H|s k r s' H|s k now r s' H|s id0 g|s id0 g].
  2: split; [|right; eapply connection_mut_must_close; [|exact H|exact Hs|exact Hm];
       intros c0 r1 c1 Hb Hm0; cbv beta zeta in Hb;
       rewrite (reap_locked_must_close iter c0 _ _ now Hm0) in Hb; simplify_eq;
       by apply reap_locked_must_close].
  3,4,5,6,7,8: split; [constructor|right; eapply connection_mut_must_close;
       [|exact H|exact Hs|exact Hm]; intros c0 r1 c1 Hb Hm0; cbv beta zeta in Hb].
  - split; [constructor|]. right. unfold open_connection in H.
    repeat (case_match; simplify_eq; try by exists c). exists c. split; [|done].
    by rewrite lookup_insert_ne by congruence.
  - cbn [lb_started starts]. destruct r as [u|e]; [|constructor]. constructor; [|constructor]. intros Hk.
    apply connection_mut_inv in H as [(e & [=] & _)|(c0 & c' & Hc & _ & Hb & _)]. simplify_eq.
    cbv beta zeta in Hb. by rewrite (reap_locked_must_close iter _ _ _ now Hm) in Hb.
  - by destruct (_ <=? _) in Hb; simplify_eq.
  - repeat (case_match; simplify_eq; try done).
  - repeat (case_match; simplify_eq; try done).
  - simplify_eq. simpl. by apply reap_locked_must_close.
  - repeat (case_match; simplify_eq; try done).
  - repeat (case_match; simplify_eq; try done).
  - split; [constructor|]. cbn [lb_closed]. unfold disconnect.
    destruct (decide (id0 = id)) as [->|]; [by left|]. right. exists c.
    repeat (case_match; try done). by rewrite lookup_delete_ne.
  - split; [constructor|]. right. unfold finish_control.
    destruct (s !! id0) as [c0|] eqn:E; [|by exists c]. case_match; [|by exists c].
    destruct (decide (id0 = id)) as [->|].
    + simplify_eq. eexists. by rewrite lookup_insert_eq.
    + exists c. by rewrite lookup_insert_ne.
Qed.

Definition sample_closing : RegistryState :=
  {[ sample_id := set_terminals (ConnectionLifecycle_new 1) [] true ]}.

Lemma closing_connection_accepts_nothing_witness :
  (register map_to_list sample_closing sample_key 100 None 0).1 = Err DeliveryBackpressure ∧
  ∃ c', sample_closing !! sample_id = Some c' ∧ cl_must_close c' = true.
Proof.
  split; [reflexivity|].
  assert (registry_step map_to_list sample_closing (starts []) sample_closing) as Hs.
  { apply (step_register map_to_list sample_closing sample_key 100 None 0
             (Err DeliveryBackpressure)). reflexivity. }
  destruct (closing_connection_accepts_nothing _ _ _ _ sample_id
              (set_terminals (ConnectionLifecycle_new 1) [] true) Hs eq_refl eq_refl)
    as [_ [[=]|H]]. exact H.
Defined.

(** ** Reaping *)

Lemma reap_stale_all id g stale c :
  NoDup stale.*1 →
  zlen (cl_recorded_terminals c) + zlen stale ≤ MAX_RECORDED_TERMINALS_PER_CONNECTION →
  cl_requests (reap_stale id g stale c).2 =
    foldr (λ p m, delete p.1 m) (cl_requests c) (reverse stale) ∧
  cl_recorded_terminals (reap_stale id g stale c).2 =
    cl_recorded_terminals c
      ++ ((λ p, {| rt_key := key_of id g p.1; rt_terminal := p.2 |}) <$> stale).
Proof.
  revert c. induction stale as [|[ns t] stale IH]; intros c Hnd Hl.
  { split; [done|]. by rewrite app_nil_r. }
  cbn [reap_stale].
  rewrite zlen_cons in Hl. rewrite fmap_cons in Hnd. apply NoDup_cons in Hnd as [_ Hnd].
  pose proof (zlen_nonneg stale). unfold ConnectionLifecycle_record.
  destruct (Z.eqb_spec (zlen (cl_recorded_terminals c)) MAX_RECORDED_TERMINALS_PER_CONNECTION); [lia|].
  match goal with |- context [reap_stale _ _ _ ?c1] =>
    specialize (IH c1 Hnd); destruct (reap_stale id g stale c1) as [rec c2] end.
  cbn [snd cl_requests cl_recorded_terminals set_requests set_terminals] in *.
  destruct IH as [IH1 IH2]; [rewrite zlen_app; change (zlen [_]) with 1; lia|].
  rewrite reverse_cons, foldr_app. cbn [foldr fst]. split; [exact IH1|].
  rewrite IH2, <-(assoc_L (++)). by rewrite fmap_cons.
Qed.

Lemma foldr_delete_lookup (l : list (RequestNamespace * RequestTerminal))
    (m : gmap RequestNamespace ActiveRequest) ns :
  foldr (λ p m, delete p.1 m) m l !! ns = if decide (ns ∈ l.*1) then None else m !! ns.
Proof.
  induction l as [|[n t] l IH]; [done|]. rewrite fmap_cons. cbn [foldr fst].
  destruct (decide (n = ns)) as [->|Hne].
  - rewrite lookup_delete_eq, decide_True; [done|]. set_solver.
  - rewrite lookup_delete_ne by done. rewrite IH. repeat case_decide; set_solver.
Qed.

Section ReapAll.
Context (iter : RequestIter) (iter_perm : ∀ m, iter m ≡ₚ map_to_list m).

Definition stale_requests (now : Z) (m : gmap RequestNamespace ActiveRequest)
    : list (RequestNamespace * RequestTerminal) :=
  omap (λ '(namespace, request), terminal ← stale_terminal now request; Some (namespace, terminal))
       (iter m).

Lemma elem_of_stale now m ns :
  ns ∈ (stale_requests now m).*1 ↔ ∃ q, m !! ns = Some q ∧ stale_terminal now q ≠ None.
Proof.
  unfold stale_requests. rewrite list_elem_of_fmap. split.
  - intros ([n t] & -> & ([n' q] & Hin & Hb)%list_elem_of_omap).
    apply bind_Some in Hb as (t' & Ht & [= <- <-]). rewrite iter_perm in Hin.
    apply elem_of_map_to_list in Hin. exists q. by rewrite Ht.
  - intros (q & Hq & Ht). destruct (stale_terminal now q) as [t|] eqn:E; [|done].
    exists (ns, t). split; [done|]. apply list_elem_of_omap. exists (ns, q). rewrite iter_perm.
    split; [by apply elem_of_map_to_list|]. by rewrite E.
Qed.

Lemma stale_requests_NoDup now m : NoDup (stale_requests now m).*1.
Proof.
  unfold stale_requests. assert (NoDup (iter m).*1) as Hnd by (rewrite iter_perm; apply NoDup_fst_map_to_list).
  induction (iter m) as [|[ns q] l IH]; [constructor|]. rewrite fmap_cons in Hnd.
  apply NoDup_cons in Hnd as [Hns Hnd]. csimpl in *.
  destruct (stale_terminal now q); csimpl; [|by apply IH]. apply NoDup_cons. split; [|by apply IH].
  intros ([n' t'] & Heq & Hel)%list_elem_of_fmap. simpl in Heq. subst.
  apply list_elem_of_omap in Hel as ([n2 q2] & Hel & Hb).
  apply bind_Some in Hb as (t2 & _ & [= -> _]). apply Hns. apply list_elem_of_fmap. by exists (n', q2).
Qed.

Lemma zlen_stale now m : zlen (stale_requests now m) ≤ Z.of_nat (size m).
Proof.
  unfold stale_requests, zlen. apply Nat2Z.inj_le. rewrite <-length_map_to_list, <-(iter_perm m).
  induction (iter m) as [|[ns q] l IH]; [done|]. csimpl. destruct (stale_terminal now q); csimpl; lia.
Qed.
End ReapAll.

Lemma elem_of_stale_terminal iter now m ns t :
  (∀ m, iter m ≡ₚ map_to_list m) →
  (ns, t) ∈ stale_requests iter now m ↔ ∃ q, m !! ns = Some q ∧ stale_terminal now q = Some t.
Proof.
  intros Hiter. unfold stale_requests. rewrite list_elem_of_omap. split.
  - intros ([n q] & Hin & (t' & Ht & [= -> ->])%bind_Some). rewrite Hiter in Hin.
    apply elem_of_map_to_list in Hin. by exists q.
  - intros (q & Hq & Ht). exists (ns, q). rewrite Hiter.
    split; [by apply elem_of_map_to_list|]. by rewrite Ht.
Qed.

Lemma reap_stale_drained iter id c now :
  (∀ m, iter m ≡ₚ map_to_list m) → connection_ok id c → cl_recorded_terminals c = [] →
  let stale := stale_requests iter now (cl_requests c) in
  cl_requests (reap_stale id (cl_generation c) stale c).2 =
    foldr (λ p m, delete p.1 m) (cl_requests c) (reverse stale) ∧
  cl_recorded_terminals (reap_stale id (cl_generation c) stale c).2 =
    (λ p, {| rt_key := key_of id (cl_generation c) p.1; rt_terminal := p.2 |}) <$> stale.
Proof.
  intros Hiter Hok Ht stale.
  destruct (reap_stale_all id (cl_generation c) stale c) as [H1 H2];
    [by apply stale_requests_NoDup| |by rewrite Ht in H2].
  rewrite Ht. destruct Hok as [_ Hr _ _ _ _]. pose proof (zlen_stale iter Hiter now (cl_requests c)).
  unfold MAX_ACTIVE_REQUESTS_PER_CONNECTION, MAX_RECORDED_TERMINALS_PER_CONNECTION in *.
  rewrite zlen_nil. unfold stale. lia.
Qed.

(** Reaping is complete.  On a connection whose terminals have been drained, one call reaps every
    accepted request that is cancelled or past its deadline and hands out exactly their terminals, each
    once, and leaves every other request untouched: the queue cannot overflow within one call. *)
Theorem reap_accepted_complete iter s id c now :
  (∀ m, iter m ≡ₚ map_to_list m) → registry_ok s → s !! id = Some c → cl_recorded_terminals c = [] →
  ∃ d c', reap_accepted iter s id (cl_generation c) now = (Ok d, <[id := c']> s) ∧
    (∀ ns, cl_requests c' !! ns =
      match cl_requests c !! ns with
      | Some q => match stale_terminal now q with Some _ => None | None => Some q end
      | None => None
      end) ∧
    NoDup (drain_terminals d) ∧
    (∀ rt, rt ∈ drain_terminals d ↔ ∃ ns q t, cl_requests c !! ns = Some q ∧
       stale_terminal now q = Some t ∧
       rt = {| rt_key := key_of id (cl_generation c) ns; rt_terminal := t |}).
Proof.
  intros Hiter Hs Hc Ht. destruct (Hs _ _ Hc) as [_ Hok].
  destruct (reap_stale_drained iter id c now Hiter Hok Ht) as [Hreq Hterm].
  unfold reap_accepted, connection_mut. rewrite (proj2 (connection_ref_Ok s _ c)) by done.
  eexists _, _. split; [reflexivity|]. cbn [cl_requests set_terminals drain_terminals].
  unfold reap_accepted_locked. fold (stale_requests iter now (cl_requests c)).
  rewrite Hreq, Hterm. split_and!.
  - intros ns. rewrite foldr_delete_lookup, fmap_reverse.
    pose proof (elem_of_stale iter Hiter now (cl_requests c) ns) as Hel.
    destruct (decide _) as [Hin|Hin]; rewrite elem_of_reverse, Hel in Hin.
    + destruct Hin as (q & -> & Hq). by destruct (stale_terminal now q).
    + destruct (cl_requests c !! ns) as [q|]; [|done].
      destruct (stale_terminal now q) eqn:E; [|done]. exfalso. apply Hin. exists q. by rewrite E.
  - apply NoDup_fmap_2; [|by eapply NoDup_fmap_1, stale_requests_NoDup].
    intros [[] t1] [[] t2] [=]. by subst.
  - intros rt. rewrite list_elem_of_fmap. split.
    + intros ([ns t] & -> & (q & Hq & Hst)%elem_of_stale_terminal); [by exists ns, q, t|done].
    + intros (ns & q & t & Hq & Hst & ->). exists (ns, t). split; [done|].
      apply elem_of_stale_terminal; [done|]. by exists q.
Qed.

Lemma reap_accepted_complete_witness :
  ∃ d c', reap_accepted map_to_list sample_active sample_id 1 500 = (Ok d, <[sample_id := c']> sample_active)
    ∧ cl_requests c' !! RequestNamespace_from sample_key =
        Some {| act_deadline := 100; act_is_cancelled := false; act_accepted_read := None |}.
Proof.
  destruct (reap_accepted_complete map_to_list sample_active sample_id
    (set_requests (ConnectionLifecycle_new 1)
         {[ RequestNamespace_from sample_key :=
              {| act_deadline := 100; act_is_cancelled := false; act_accepted_read := None |} ]}) 500)
    as (d & c' & H1 & H2 & _).
  - reflexivity.
  - apply map_Forall_singleton. split; [discriminate|].
    split; try (vm_compute; congruence); try (vm_compute; split; congruence). constructor.
  - reflexivity.
  - reflexivity.
  - exists d, c'. split; [exact H1|]. rewrite H2. reflexivity.
Defined.
