(* ===== verification/LibraryChange.v ===== *)
(** * Library changes: the vocabulary

    Models the types of [domain/library_change.rs] that change planning and reconciliation use, and
    their small operations. *)

From S2P Require Import Prelude Text.

(** [LibraryRootGeneration]: a nonzero [u64]. *)
Record LibraryRootGeneration := { generation_value : Z }.

#[export] Instance LibraryRootGeneration_eq_dec : EqDecision LibraryRootGeneration.
Proof. solve_decision. Defined.

Definition LibraryRootGeneration_initial : LibraryRootGeneration := {| generation_value := 1 |}.

Definition LibraryRootGeneration_new (value : Z) : option LibraryRootGeneration :=
  if value =? 0 then None else Some {| generation_value := value |}.

Definition LibraryRootGeneration_next (self : LibraryRootGeneration)
    : option LibraryRootGeneration :=
  match checked_add U64_MAX (generation_value self) 1 with
  | Some value => Some {| generation_value := value |}
  | None => None
  end.

Inductive LibraryChangeOrigin :=
| LiveNotification | MetadataInventory | StartupCatchUp | UserRefresh | ConsistencyAudit.

Inductive LibraryChangeLane := LaneLive | LaneJournal | LaneRecovery.

Definition LibraryChangeOrigin_lane (self : LibraryChangeOrigin) : LibraryChangeLane :=
  match self with
  | LiveNotification => LaneLive
  | StartupCatchUp => LaneJournal
  | MetadataInventory | ConsistencyAudit | UserRefresh => LaneRecovery
  end.

Inductive LibraryChangeScope := Path | Subtree | Root.

Inductive LibraryChangeObservationKind :=
| Created | Modified | Removed | Renamed (is_reliably_paired : bool) | DirectoryChanged | EvidenceGap.

Record LibraryChangeObservation := {
  ob_root_id : str;
  ob_root_generation : LibraryRootGeneration;
  ob_sequence : Z;
  ob_observed_unix_ms : Z;
  ob_kind : LibraryChangeObservationKind;
  ob_scope : LibraryChangeScope;
  ob_relative_path : str;
  ob_previous_relative_path : option str;
  ob_origin : LibraryChangeOrigin;
}.

Inductive LibraryChangeIntentKind := Reconcile | RenameCandidate | FreshnessUnknown.

Record LibraryChangeIntent := {
  in_root_id : str;
  in_root_generation : LibraryRootGeneration;
  in_kind : LibraryChangeIntentKind;
  in_scope : LibraryChangeScope;
  in_relative_path : str;
  in_previous_relative_path : option str;
  in_origin : LibraryChangeOrigin;
  in_first_observed_unix_ms : Z;
  in_most_recent_observed_unix_ms : Z;
  in_first_sequence : Z;
  in_most_recent_sequence : Z;
  in_coalesced_observation_count : Z;
}.

Inductive LibraryChangeSourceHealth :=
| Healthy | Starting | Degraded | SourceFailed | Stopped | Unsupported.

Inductive CatalogFreshnessState := Synchronized | Updating | NeedsReconciliation | Unavailable.

Inductive CatalogFreshnessCause :=
| NoPendingChanges | PendingChanges | RootUnavailable | ChangeSourceUnhealthyCause
| EvidenceGapCause | BoundedCapacityExceeded.

Inductive LibraryRootAvailability := Unknown | Available | Missing | Inaccessible | Offline.

Record LibraryChangePlanningContext := {
  ctx_root_id : str;
  ctx_root_generation : LibraryRootGeneration;
  ctx_availability : LibraryRootAvailability;
  ctx_source_health : LibraryChangeSourceHealth;
}.

Record LibraryChangePlanningLimits := { max_observations : Z; max_intents : Z }.
Definition MAX_OBSERVATIONS : Z := 4096.
Definition MAX_INTENTS : Z := 1024.

Inductive LibraryChangePlanningIssue :=
| InvalidRelativePath | ObservationLimitExceeded | IntentLimitExceeded | ChangeEvidenceGap
| ChangeSourceUnhealthy.

Record LibraryChangePlanningResult := {
  pl_root_id : str;
  pl_root_generation : LibraryRootGeneration;
  pl_freshness : CatalogFreshnessState;
  pl_freshness_cause : CatalogFreshnessCause;
  pl_intents : list LibraryChangeIntent;
  pl_issues : list LibraryChangePlanningIssue;
  pl_received_observation_count : Z;
  pl_superseded_observation_count : Z;
}.

Record LibraryChangePlanningError := { pe_code : string; pe_message : string }.

Record FileIdentityEvidence := { fi_scheme : str; fi_value : str }.
Record SourceRevisionEvidence := { rev_scheme : str; rev_value : str }.

Record ReconciliationFileEvidence := {
  ev_relative_path : str;
  ev_file_size : Z;
  ev_modified_unix_ms : Z;
  ev_file_identity : option FileIdentityEvidence;
  ev_source_revision : option SourceRevisionEvidence;
  ev_source_generation : Z;
}.

Inductive ReconciliationObservedState :=
| Present (current : ReconciliationFileEvidence)
| MissingPath (relative_path : str) (is_authoritative : bool)
| ObservedRetryableFailure (code : string)
| ObservedTerminalIssue (code : string)
| ObservedSkipped (code : string).

Inductive IncrementalReconciliationOutcome :=
| OutUnchanged | OutAdded | OutModified | OutRenamedOrMoved | OutReplaced | OutRemoved | OutSkipped
| OutRetryableFailure | OutTerminalIssue.

Inductive DerivedEvidenceDisposition :=
| RetainCompatible | InvalidateDerived | NoReusableEvidence | RemoveFromCurrentProjection
| PreserveLastTrustworthy.

Record IncrementalReconciliationDecision := {
  de_outcome : IncrementalReconciliationOutcome;
  de_evidence_disposition : DerivedEvidenceDisposition;
  de_current : option ReconciliationFileEvidence;
  de_issue_code : option string;
}.

#[export] Instance LibraryChangeOrigin_eq_dec : EqDecision LibraryChangeOrigin.
Proof. solve_decision. Defined.
#[export] Instance LibraryChangeScope_eq_dec : EqDecision LibraryChangeScope.
Proof. solve_decision. Defined.
#[export] Instance LibraryChangeObservationKind_eq_dec : EqDecision LibraryChangeObservationKind.
Proof. solve_decision. Defined.
#[export] Instance LibraryChangeObservation_eq_dec : EqDecision LibraryChangeObservation.
Proof. solve_decision. Defined.
#[export] Instance LibraryChangeIntentKind_eq_dec : EqDecision LibraryChangeIntentKind.
Proof. solve_decision. Defined.
#[export] Instance LibraryChangeSourceHealth_eq_dec : EqDecision LibraryChangeSourceHealth.
Proof. solve_decision. Defined.
#[export] Instance LibraryRootAvailability_eq_dec : EqDecision LibraryRootAvailability.
Proof. solve_decision. Defined.
#[export] Instance LibraryChangePlanningIssue_eq_dec : EqDecision LibraryChangePlanningIssue.
Proof. solve_decision. Defined.
#[export] Instance FileIdentityEvidence_eq_dec : EqDecision FileIdentityEvidence.
Proof. solve_decision. Defined.
#[export] Instance SourceRevisionEvidence_eq_dec : EqDecision SourceRevisionEvidence.
Proof. solve_decision. Defined.
#[export] Instance DerivedEvidenceDisposition_eq_dec : EqDecision DerivedEvidenceDisposition.
Proof. solve_decision. Defined.

(** The order [derive(Ord)] gives an enumeration is the order of its constructors. *)
Definition origin_ord (o : LibraryChangeOrigin) : Z :=
  match o with
  | LiveNotification => 0 | MetadataInventory => 1 | StartupCatchUp => 2 | UserRefresh => 3
  | ConsistencyAudit => 4
  end.
Definition scope_ord (s : LibraryChangeScope) : Z :=
  match s with Path => 0 | Subtree => 1 | Root => 2 end.
Definition observation_kind_ord (k : LibraryChangeObservationKind) : Z :=
  match k with
  | Created => 0 | Modified => 1 | Removed => 2 | Renamed false => 3 | Renamed true => 4
  | DirectoryChanged => 5 | EvidenceGap => 6
  end.
Definition issue_ord (i : LibraryChangePlanningIssue) : Z :=
  match i with
  | InvalidRelativePath => 0 | ObservationLimitExceeded => 1 | IntentLimitExceeded => 2
  | ChangeEvidenceGap => 3 | ChangeSourceUnhealthy => 4
  end.
