(* ===== verification/Order.v ===== *)
(** * Comparisons and stable sorting

    [std::cmp::Ordering] as [comparison], the combinators the source builds comparators from, and
    [slice::sort_by].  The class [Comparator] is the contract of a comparator: a total preorder. *)

From Stdlib Require Import Sorted.
From stdpp Require Import sorting.
From S2P Require Import Prelude Text.

(** [a.then_with(|| b)] *)
Definition then_with (a b : comparison) : comparison :=
  match a with Eq => b | o => o end.

(** [f(x).cmp(&f(y))] *)
Definition compare_on {A B} (cmp : B → B → comparison) (f : A → B) (x y : A) : comparison :=
  cmp (f x) (f y).

(** The order of [Option]: [None] first. *)
Definition option_compare {A} (cmp : A → A → comparison) (x y : option A) : comparison :=
  match x, y with
  | None, None => Eq
  | None, Some _ => Lt
  | Some _, None => Gt
  | Some x, Some y => cmp x y
  end.

Class Comparator {A} (cmp : A → A → comparison) : Prop := {
  cmp_opp x y : cmp y x = CompOpp (cmp x y);
  cmp_le_trans x y z : cmp x y ≠ Gt → cmp y z ≠ Gt → cmp x z ≠ Gt;
}.

Section Laws.
Context {A : Type} (cmp : A → A → comparison) `{!Comparator cmp}.

Definition cmp_le (x y : A) : Prop := cmp x y ≠ Gt.

#[export] Instance cmp_le_dec x y : Decision (cmp_le x y).
Proof. unfold cmp_le. destruct (cmp x y); [left|left|right]; congruence. Defined.

Lemma cmp_refl x : cmp x x = Eq.
Proof. pose proof (cmp_opp (cmp := cmp) x x) as H. destruct (cmp x x); done. Qed.
Lemma cmp_total x y : cmp_le x y ∨ cmp_le y x.
Proof. unfold cmp_le. rewrite (cmp_opp (cmp := cmp) x y). destruct (cmp x y); [left|left|right]; done. Qed.
Lemma cmp_le_antisym x y : cmp_le x y → cmp_le y x → cmp x y = Eq.
Proof. unfold cmp_le. rewrite (cmp_opp (cmp := cmp) x y). by destruct (cmp x y). Qed.

#[export] Instance cmp_le_preorder : PreOrder cmp_le.
Proof. split; [intros x; unfold cmp_le; by rewrite cmp_refl|]. intros x y z. apply cmp_le_trans. Qed.

Lemma cmp_eq_trans x y z : cmp x y = Eq → cmp y z = Eq → cmp x z = Eq.
Proof.
  intros H1 H2. apply cmp_le_antisym.
  - eapply (cmp_le_trans (cmp := cmp) x y z); congruence.
  - eapply (cmp_le_trans (cmp := cmp) z y x); [rewrite (cmp_opp (cmp := cmp) y z), H2|rewrite (cmp_opp (cmp := cmp) x y), H1]; done.
Qed.

(** A strict step is not undone by a weak one. *)
Lemma cmp_lt_le_trans x y z : cmp x y = Lt → cmp_le y z → cmp x z = Lt.
Proof.
  intros H1 H2. assert (cmp_le x z) as H3 by (eapply (cmp_le_trans (cmp := cmp) x y z); [congruence|done]).
  unfold cmp_le in H3. destruct (cmp x z) eqn:E; [|done|done].
  exfalso. assert (cmp_le y x) as H4.
  { eapply (cmp_le_trans (cmp := cmp) y z x); [done|]. rewrite (cmp_opp (cmp := cmp) x z), E. done. }
  unfold cmp_le in H4. by rewrite (cmp_opp (cmp := cmp) x y), H1 in H4.
Qed.
Lemma cmp_le_lt_trans x y z : cmp_le x y → cmp y z = Lt → cmp x z = Lt.
Proof.
  intros H1 H2. assert (cmp_le x z) as H3 by (eapply (cmp_le_trans (cmp := cmp) x y z); [done|congruence]).
  unfold cmp_le in H3. destruct (cmp x z) eqn:E; [|done|done].
  exfalso. assert (cmp_le z y) as H4.
  { eapply (cmp_le_trans (cmp := cmp) z x y); [|done]. rewrite (cmp_opp (cmp := cmp) x z), E. done. }
  unfold cmp_le in H4. by rewrite (cmp_opp (cmp := cmp) y z), H2 in H4.
Qed.
End Laws.

#[export] Instance Z_comparator : Comparator Z.compare.
Proof.
  split; [intros x y; apply Z.compare_antisym|]. intros x y z. rewrite !Z.compare_le_iff. lia.
Qed.

#[export] Instance compare_on_comparator {A B} (cmp : B → B → comparison) (f : A → B) :
  Comparator cmp → Comparator (compare_on cmp f).
Proof.
  intros H. unfold compare_on. split; [intros x y; apply cmp_opp|]. intros x y z. apply cmp_le_trans.
Qed.

#[export] Instance then_with_comparator {A} (c1 c2 : A → A → comparison) :
  Comparator c1 → Comparator c2 → Comparator (λ x y, then_with (c1 x y) (c2 x y)).
Proof.
  intros H1 H2. split.
  - intros x y. rewrite (cmp_opp (cmp := c1) x y), (cmp_opp (cmp := c2) x y). by destruct (c1 x y).
  - intros x y z Hxy Hyz. destruct (c1 x y) eqn:E1; destruct (c1 y z) eqn:E2; simpl in *; try done.
    + rewrite (cmp_eq_trans c1 x y z E1 E2). simpl. by eapply (cmp_le_trans (cmp := c2) x y z).
    + rewrite (cmp_le_lt_trans c1 x y z); [done| |done]. unfold cmp_le. by rewrite E1.
    + rewrite (cmp_lt_le_trans c1 x y z); [done|done|]. unfold cmp_le. by rewrite E2.
    + rewrite (cmp_lt_le_trans c1 x y z); [done|done|]. unfold cmp_le. by rewrite E2.
Qed.

#[export] Instance option_comparator {A} (cmp : A → A → comparison) :
  Comparator cmp → Comparator (option_compare cmp).
Proof.
  intros H. split.
  - intros [x|] [y|]; simpl; [apply cmp_opp|done..].
  - intros [x|] [y|] [z|]; simpl; try done. apply cmp_le_trans.
Qed.

Lemma lex_compare_Eq s t : lex_compare s t = Eq ↔ s = t.
Proof.
  revert t. induction s as [|c s IH]; intros [|d t]; simpl; try done.
  destruct (Z.compare_spec c d) as [->|?|?]; [|split; [done|intros [= ? ?]; lia]..].
  rewrite IH. naive_solver.
Qed.

#[export] Instance lex_comparator : Comparator lex_compare.
Proof.
  split.
  - intros x. induction x as [|c x IH]; intros [|d y]; simpl; try done.
    rewrite (Z.compare_antisym c d). destruct (c ?= d); simpl; [apply IH|done|done].
  - intros x. induction x as [|c x IH]; intros [|d y] [|e z]; simpl; try done.
    destruct (Z.compare_spec c d), (Z.compare_spec d e), (Z.compare_spec c e);
      subst; try done; try lia. apply IH.
Qed.

(** ** Sorting *)

(** [v.sort_by(cmp)] keeps the order of equal elements. *)
Fixpoint insert_by {A} (cmp : A → A → comparison) (x : A) (l : list A) : list A :=
  match l with
  | [] => [x]
  | y :: l => match cmp x y with Gt => y :: insert_by cmp x l | _ => x :: y :: l end
  end.

Definition sort_by {A} (cmp : A → A → comparison) (l : list A) : list A :=
  foldr (insert_by cmp) [] l.

Section Sorting.
Context {A : Type} (cmp : A → A → comparison).

Lemma insert_by_perm x l : insert_by cmp x l ≡ₚ x :: l.
Proof.
  induction l as [|y l IH]; simpl; [done|]. destruct (cmp x y); [done|done|].
  rewrite IH. apply Permutation_swap.
Qed.

Lemma sort_by_perm l : sort_by cmp l ≡ₚ l.
Proof. induction l as [|x l IH]; simpl; [done|]. by rewrite insert_by_perm, IH. Qed.

Context `{!Comparator cmp}.

Lemma insert_by_sorted x l : StronglySorted (cmp_le cmp) l → StronglySorted (cmp_le cmp) (insert_by cmp x l).
Proof.
  induction 1 as [|y l Hl IH Hy]; simpl; [repeat constructor|].
  destruct (cmp x y) eqn:E.
  1,2: assert (cmp_le cmp x y) as Hxy by (unfold cmp_le; congruence);
    constructor; [by constructor|]; constructor; [done|];
    eapply Forall_impl; [exact Hy|]; intros z Hz; by transitivity y.
  constructor; [done|]. rewrite Forall_forall in *. intros z Hz.
  rewrite insert_by_perm in Hz. apply elem_of_cons in Hz as [->|Hz]; [|by apply Hy].
  unfold cmp_le. by rewrite (cmp_opp (cmp := cmp) x y), E.
Qed.

Lemma sort_by_sorted l : StronglySorted (cmp_le cmp) (sort_by cmp l).
Proof. induction l; simpl; [constructor|by apply insert_by_sorted]. Qed.

(** Filtering commutes with sorting: sorting is stable and moves nothing it does not compare. *)
Lemma StronglySorted_filter (P : A → Prop) `{∀ x, Decision (P x)} l :
  StronglySorted (cmp_le cmp) l → StronglySorted (cmp_le cmp) (filter P l).
Proof.
  induction 1 as [|x l _ IH Hall]; [constructor|]. rewrite filter_cons.
  case_decide; [|done]. constructor; [done|]. rewrite Forall_forall in *.
  intros y [_ Hy]%list_elem_of_filter. by apply Hall.
Qed.

(** Sorting does not depend on the order of the input, as far as equal elements are equal. *)
Lemma sort_by_filter_unique (P : A → Prop) `{∀ x, Decision (P x)} l1 l2 :
  (∀ x y, P x → P y → cmp x y = Eq → x = y) → l1 ≡ₚ l2 →
  filter P (sort_by cmp l1) = filter P (sort_by cmp l2).
Proof.
  intros Heq Hp. eapply (StronglySorted_unique_strong (cmp_le cmp)).
  - intros x y [Hx _]%list_elem_of_filter [Hy _]%list_elem_of_filter Hxy Hyx.
    apply Heq; [done|done|]. by apply cmp_le_antisym.
  - apply StronglySorted_filter, sort_by_sorted.
  - apply StronglySorted_filter, sort_by_sorted.
  - by rewrite !sort_by_perm, Hp.
Qed.
End Sorting.
