(* ===== verification/Planning.v ===== *)
(** * Planning of library changes

    Models [plan_library_changes] of [application/directory_synchronization.rs] and everything it
    calls: a batch of change observations of one library root becomes a small set of reconciliation
    intents, or one request to reconcile the whole root when the evidence is incomplete. *)

From S2P Require Import Prelude Text LibraryChange Order.

(** ** Paths *)

Definition replace_char (from to : Z) (s : str) : str := (λ c, if c =? from then to else c) <$> s.

(** The segment loop of [normalize_relative_path]. *)
Fixpoint keep_segments (segments : list str) : option (list str) :=
  match segments with
  | [] => Some []
  | segment :: segments =>
    if bool_decide (segment = []) || bool_decide (segment = lit ".") then keep_segments segments
    else if bool_decide (segment = lit "..") then None
    else kept ← keep_segments segments; Some (segment :: kept)
  end.

Definition normalize_relative_path (path : str) : option str :=
  if contains 0 path then None
  else
    let path := replace_char 92 47 path in
    if starts_with 47 path || contains 58 path then None
    else segments ← keep_segments (split_on 47 path); Some (join [47] segments).

Definition normalize_nonempty_relative_path (path : str) : option str :=
  path ← normalize_relative_path path; if is_empty path then None else Some path.

Definition is_within_subtree (path subtree : str) : bool :=
  is_empty subtree || bool_decide (path = subtree)
  || match strip_prefix subtree path with Some suffix => starts_with 47 suffix | None => false end.

(** [path.match_indices('/')] and the prefix before each match. *)
Fixpoint slash_prefixes (before path : str) : list str :=
  match path with
  | [] => []
  | c :: path => (if c =? 47 then [before] else []) ++ slash_prefixes (before ++ [c]) path
  end.

Definition ancestor_paths (path : str) : list str := slash_prefixes [] path ++ [path].

(** ** Observations *)

Definition observation_sort_order (left right : LibraryChangeObservation) : comparison :=
  then_with (ob_sequence left ?= ob_sequence right)
  (then_with (ob_observed_unix_ms left ?= ob_observed_unix_ms right)
  (then_with (origin_ord (ob_origin left) ?= origin_ord (ob_origin right))
  (then_with (observation_kind_ord (ob_kind left) ?= observation_kind_ord (ob_kind right))
  (then_with (scope_ord (ob_scope left) ?= scope_ord (ob_scope right))
  (then_with (lex_compare (ob_relative_path left) (ob_relative_path right))
             (option_compare lex_compare (ob_previous_relative_path left)
                (ob_previous_relative_path right))))))).

Definition origin_rank (origin : LibraryChangeOrigin) : Z :=
  match origin with
  | LiveNotification => 0
  | MetadataInventory => 1
  | StartupCatchUp => 2
  | UserRefresh => 3
  | ConsistencyAudit => 4
  end.

Record ObservationEvidence := { oe_sequence : Z; oe_observed_unix_ms : Z; oe_origin : LibraryChangeOrigin }.

Record ObservationRange := {
  or_first_observed_unix_ms : Z;
  or_most_recent_observed_unix_ms : Z;
  or_first_sequence : Z;
  or_most_recent_sequence : Z;
  or_observation_count : Z;
}.

Definition update_observation_range (range : option ObservationRange)
    (observation : LibraryChangeObservation) : option ObservationRange :=
  let range := default {| or_first_observed_unix_ms := ob_observed_unix_ms observation;
                          or_most_recent_observed_unix_ms := ob_observed_unix_ms observation;
                          or_first_sequence := ob_sequence observation;
                          or_most_recent_sequence := ob_sequence observation;
                          or_observation_count := 0 |} range in
  Some {| or_first_observed_unix_ms :=
            Z.min (or_first_observed_unix_ms range) (ob_observed_unix_ms observation);
          or_most_recent_observed_unix_ms :=
            Z.max (or_most_recent_observed_unix_ms range) (ob_observed_unix_ms observation);
          or_first_sequence := Z.min (or_first_sequence range) (ob_sequence observation);
          or_most_recent_sequence := Z.max (or_most_recent_sequence range) (ob_sequence observation);
          or_observation_count := saturating_add U64_MAX (or_observation_count range) 1 |}.

(** [(a, b, c) > (a', b', c')] *)
Definition triple_gt (l r : Z * Z * Z) : bool :=
  match then_with (l.1.1 ?= r.1.1) (then_with (l.1.2 ?= r.1.2) (l.2 ?= r.2)) with
  | Gt => true | _ => false
  end.

Definition update_latest_origin (latest : option (Z * Z * LibraryChangeOrigin))
    (observation : LibraryChangeObservation) : option (Z * Z * LibraryChangeOrigin) :=
  let candidate := (ob_sequence observation, ob_observed_unix_ms observation, ob_origin observation) in
  if match latest with
     | None => true
     | Some current =>
       triple_gt (candidate.1, origin_rank candidate.2) (current.1, origin_rank current.2)
     end
  then Some candidate else latest.

(** ** Intents *)

Definition new_intent (context : LibraryChangePlanningContext) (observation : LibraryChangeObservation)
    (kind : LibraryChangeIntentKind) (scope : LibraryChangeScope) (relative_path : str)
    (previous_relative_path : option str) : LibraryChangeIntent :=
  {| in_root_id := ctx_root_id context;
     in_root_generation := ctx_root_generation context;
     in_kind := kind;
     in_scope := scope;
     in_relative_path := relative_path;
     in_previous_relative_path := previous_relative_path;
     in_origin := ob_origin observation;
     in_first_observed_unix_ms := ob_observed_unix_ms observation;
     in_most_recent_observed_unix_ms := ob_observed_unix_ms observation;
     in_first_sequence := ob_sequence observation;
     in_most_recent_sequence := ob_sequence observation;
     in_coalesced_observation_count := 1 |}.

Definition normalized_intents (context : LibraryChangePlanningContext)
    (observation : LibraryChangeObservation) (relative_path : str)
    (previous_relative_path : option str) : list LibraryChangeIntent :=
  let scope :=
    if is_empty relative_path || bool_decide (ob_scope observation = Root) then Root
    else match ob_kind observation with DirectoryChanged => Subtree | _ => ob_scope observation end in
  let relative_path := if bool_decide (scope = Root) then [] else relative_path in
  if bool_decide (scope = Root)
  then [new_intent context observation Reconcile Root relative_path None]
  else
    match ob_kind observation with
    | Renamed is_reliably_paired =>
      if bool_decide (previous_relative_path = Some relative_path)
      then [new_intent context observation Reconcile scope relative_path None]
      else if is_reliably_paired && bool_decide (is_Some previous_relative_path)
      then [new_intent context observation RenameCandidate scope relative_path previous_relative_path]
      else
        match previous_relative_path with
        | Some previous => [new_intent context observation Reconcile scope previous None]
        | None => []
        end ++ [new_intent context observation Reconcile scope relative_path None]
    | _ => [new_intent context observation Reconcile scope relative_path None]
    end.

Record IntentKey := {
  ik_kind : Z;
  ik_scope : Z;
  ik_previous_relative_path : str;
  ik_relative_path : str;
}.

#[export] Instance IntentKey_eq_dec : EqDecision IntentKey.
Proof. solve_decision. Defined.

Definition intent_key (intent : LibraryChangeIntent) : IntentKey :=
  {| ik_kind := match in_kind intent with
                | Reconcile => 0 | RenameCandidate => 1 | FreshnessUnknown => 2 end;
     ik_scope := match in_scope intent with Path => 0 | Subtree => 1 | Root => 2 end;
     ik_previous_relative_path := default [] (in_previous_relative_path intent);
     ik_relative_path := in_relative_path intent |}.

(** The derived order of [IntentKey]. *)
Definition intent_key_compare (l r : IntentKey) : comparison :=
  then_with (ik_kind l ?= ik_kind r)
  (then_with (ik_scope l ?= ik_scope r)
  (then_with (lex_compare (ik_previous_relative_path l) (ik_previous_relative_path r))
             (lex_compare (ik_relative_path l) (ik_relative_path r)))).

Record AccumulatedIntent := { acc_intent : LibraryChangeIntent; acc_evidence_ids : gset nat }.

(** The update of an existing entry in [merge_intent]. *)
Definition merge_existing (existing : AccumulatedIntent) (intent : LibraryChangeIntent)
    (evidence_id : nat) : AccumulatedIntent :=
  let e := acc_intent existing in
  let should_replace_origin :=
    triple_gt (in_most_recent_sequence intent, in_most_recent_observed_unix_ms intent,
               origin_rank (in_origin intent))
              (in_most_recent_sequence e, in_most_recent_observed_unix_ms e,
               origin_rank (in_origin e)) in
  {| acc_intent :=
       {| in_root_id := in_root_id e;
          in_root_generation := in_root_generation e;
          in_kind := in_kind e;
          in_scope := in_scope e;
          in_relative_path := in_relative_path e;
          in_previous_relative_path := in_previous_relative_path e;
          in_origin := if should_replace_origin then in_origin intent else in_origin e;
          in_first_observed_unix_ms :=
            Z.min (in_first_observed_unix_ms e) (in_first_observed_unix_ms intent);
          in_most_recent_observed_unix_ms :=
            Z.max (in_most_recent_observed_unix_ms e) (in_most_recent_observed_unix_ms intent);
          in_first_sequence := Z.min (in_first_sequence e) (in_first_sequence intent);
          in_most_recent_sequence :=
            if should_replace_origin then in_most_recent_sequence intent
            else in_most_recent_sequence e;
          in_coalesced_observation_count :=
            saturating_add U32_MAX (in_coalesced_observation_count e)
              (in_coalesced_observation_count intent) |};
     acc_evidence_ids := acc_evidence_ids existing ∪ {[ evidence_id ]} |}.

(** A [BTreeMap] is a list of entries with increasing keys. *)
Abbreviation IntentMap := (list (IntentKey * AccumulatedIntent)).

Fixpoint merge_intent (intents : IntentMap) (intent : LibraryChangeIntent) (evidence_id : nat)
    : IntentMap :=
  let key := intent_key intent in
  let entry := (key, {| acc_intent := intent; acc_evidence_ids := {[ evidence_id ]} |}) in
  match intents with
  | [] => [entry]
  | (k, existing) :: rest =>
    match intent_key_compare key k with
    | Eq => (k, merge_existing existing intent evidence_id) :: rest
    | Lt => entry :: (k, existing) :: rest
    | Gt => (k, existing) :: merge_intent rest intent evidence_id
    end
  end.

(** ** Compaction *)

Definition is_precise_dirty_reconcile (intent : LibraryChangeIntent) : bool :=
  bool_decide (in_kind intent = Reconcile) && bool_decide (in_scope intent = Path)
  && match in_origin intent with LiveNotification | StartupCatchUp => true | _ => false end.

Definition covering_subtree_index (intent_index : nat) (intent : LibraryChangeIntent)
    (subtree_indexes : gmap str nat) : option nat :=
  if bool_decide (in_scope intent = Root) || is_precise_dirty_reconcile intent then None
  else
    '(subtree, covering_index) ←
      find (λ p : str * nat, negb (bool_decide (p.2 = intent_index)))
        (omap (λ path, index ← subtree_indexes !! path; Some (path, index))
              (ancestor_paths (in_relative_path intent)));
    if match in_previous_relative_path intent with
       | None => true
       | Some previous => is_within_subtree previous subtree
       end
    then Some covering_index else None.

Definition is_root_reconcile (a : AccumulatedIntent) : bool :=
  bool_decide (in_kind (acc_intent a) = Reconcile) && bool_decide (in_scope (acc_intent a) = Root).

Definition is_subtree_reconcile (a : AccumulatedIntent) : bool :=
  bool_decide (in_kind (acc_intent a) = Reconcile) && bool_decide (in_scope (acc_intent a) = Subtree).

(** [iter.position(f)] *)
Fixpoint position {A} (f : A → bool) (l : list A) : option nat :=
  match l with
  | [] => None
  | x :: l => if f x then Some O else S <$> position f l
  end.

(** What [Vec::swap_remove(index)] leaves: the last element takes the place of the removed one. *)
Definition swap_remove {A} (l : list A) (index : nat) : list A :=
  match last l with
  | None => []
  | Some x => take (length l - 1) (<[index := x]> l)
  end.

Definition add_evidence_ids (a : AccumulatedIntent) (ids : gset nat) : AccumulatedIntent :=
  {| acc_intent := acc_intent a; acc_evidence_ids := acc_evidence_ids a ∪ ids |}.

Definition subtree_index_map (intents : list AccumulatedIntent) : gmap str nat :=
  foldl (λ m p, <[ p.1 := p.2 ]> m) ∅
    (omap (λ '(index, a), if is_subtree_reconcile a
                          then Some (in_relative_path (acc_intent a), index) else None)
          (imap (λ index a, (index, a)) intents)).

Definition compact_intents (intents : list AccumulatedIntent) : list AccumulatedIntent :=
  match position is_root_reconcile intents with
  | Some root_index =>
    match intents !! root_index with
    | None => []
    | Some root =>
      let '(retained, root) :=
        foldl (λ '(retained, root) intent,
                 if is_precise_dirty_reconcile (acc_intent intent) then (retained ++ [intent], root)
                 else (retained, add_evidence_ids root (acc_evidence_ids intent)))
              ([], root) (swap_remove intents root_index) in
      retained ++ [root]
    end
  | None =>
    let subtree_indexes := subtree_index_map intents in
    let absorbed_by :=
      imap (λ index a, covering_subtree_index index (acc_intent a) subtree_indexes) intents in
    let inherited_evidence :=
      foldl (λ inherited p,
               match p.1 with
               | Some target => alter (λ ids, ids ∪ acc_evidence_ids p.2) target inherited
               | None => inherited
               end) (replicate (length intents) ∅) (zip absorbed_by intents) in
    omap (λ p, match p.1 with
               | Some _ => None
               | None => Some (add_evidence_ids p.2.1 p.2.2)
               end) (zip absorbed_by (zip intents inherited_evidence))
  end.

(** ** Evidence summaries *)

(** One iteration of the loop of [apply_evidence_summary], on (first sequence, first time, last
    sequence, last time, latest). *)
Definition summary_step (s : Z * Z * Z * Z * ObservationEvidence) (item : ObservationEvidence)
    : Z * Z * Z * Z * ObservationEvidence :=
  let '(first_sequence, first_observed, last_sequence, last_observed, latest) := s in
  (Z.min first_sequence (oe_sequence item), Z.min first_observed (oe_observed_unix_ms item),
   Z.max last_sequence (oe_sequence item), Z.max last_observed (oe_observed_unix_ms item),
   if triple_gt (oe_sequence item, oe_observed_unix_ms item, origin_rank (oe_origin item))
        (oe_sequence latest, oe_observed_unix_ms latest, origin_rank (oe_origin latest))
   then item else latest).

Definition apply_evidence_summary (intent : LibraryChangeIntent) (evidence_ids : gset nat)
    (observation_evidence : list ObservationEvidence) : LibraryChangeIntent :=
  match omap (λ id, observation_evidence !! id)
          (sort_by (λ a b, Z.of_nat a ?= Z.of_nat b) (elements evidence_ids)) with
  | [] => intent
  | first :: evidence =>
    let '(first_sequence, first_observed, last_sequence, last_observed, latest) :=
      foldl summary_step
        (oe_sequence first, oe_observed_unix_ms first, oe_sequence first,
         oe_observed_unix_ms first, first) evidence in
    {| in_root_id := in_root_id intent;
       in_root_generation := in_root_generation intent;
       in_kind := in_kind intent;
       in_scope := in_scope intent;
       in_relative_path := in_relative_path intent;
       in_previous_relative_path := in_previous_relative_path intent;
       in_origin := oe_origin latest;
       in_first_observed_unix_ms := first_observed;
       in_most_recent_observed_unix_ms := last_observed;
       in_first_sequence := first_sequence;
       in_most_recent_sequence := last_sequence;
       in_coalesced_observation_count := Z.min U32_MAX (Z.of_nat (size evidence_ids)) |}
  end.

Definition root_freshness_intent (context : LibraryChangePlanningContext)
    (origin : LibraryChangeOrigin) (range : option ObservationRange)
    (overflow_observation_count : option Z) : LibraryChangeIntent :=
  let range := default {| or_first_observed_unix_ms := 0; or_most_recent_observed_unix_ms := 0;
                          or_first_sequence := 0; or_most_recent_sequence := 0;
                          or_observation_count := 1 |} range in
  {| in_root_id := ctx_root_id context;
     in_root_generation := ctx_root_generation context;
     in_kind := FreshnessUnknown;
     in_scope := Root;
     in_relative_path := [];
     in_previous_relative_path := None;
     in_origin := origin;
     in_first_observed_unix_ms := or_first_observed_unix_ms range;
     in_most_recent_observed_unix_ms := or_most_recent_observed_unix_ms range;
     in_first_sequence := or_first_sequence range;
     in_most_recent_sequence := or_most_recent_sequence range;
     in_coalesced_observation_count :=
       Z.min U32_MAX (default (or_observation_count range) overflow_observation_count) |}.

Definition intent_sort_order (left right : LibraryChangeIntent) : comparison :=
  then_with (in_first_sequence left ?= in_first_sequence right)
            (intent_key_compare (intent_key left) (intent_key right)).

Definition project_freshness (context : LibraryChangePlanningContext)
    (intents : list LibraryChangeIntent) (issues : list LibraryChangePlanningIssue)
    (exceeded_observation_limit : bool) : CatalogFreshnessState * CatalogFreshnessCause :=
  if negb (bool_decide (ctx_availability context = Available)) then (Unavailable, RootUnavailable)
  else if exceeded_observation_limit || bool_decide (IntentLimitExceeded ∈ issues)
  then (NeedsReconciliation, BoundedCapacityExceeded)
  else if bool_decide (ChangeEvidenceGap ∈ issues) || bool_decide (InvalidRelativePath ∈ issues)
  then (NeedsReconciliation, EvidenceGapCause)
  else if negb (bool_decide (ctx_source_health context = Healthy))
  then (NeedsReconciliation, ChangeSourceUnhealthyCause)
  else if is_empty intents then (Synchronized, NoPendingChanges)
  else (Updating, PendingChanges).

Definition push_unique_issue (issues : list LibraryChangePlanningIssue)
    (issue : LibraryChangePlanningIssue) : list LibraryChangePlanningIssue :=
  if bool_decide (issue ∈ issues) then issues else issues ++ [issue].

Definition validate_planning_request (context : LibraryChangePlanningContext)
    (limits : LibraryChangePlanningLimits) : Result LibraryChangePlanningError unit :=
  if is_empty (trim (ctx_root_id context)) || contains 0 (ctx_root_id context)
  then Err {| pe_code := "change_root_id_invalid";
              pe_message := "A library root identifier is required for change planning" |}
  else if (max_observations limits =? 0) || (max_intents limits =? 0)
  then Err {| pe_code := "change_planning_limit_invalid";
              pe_message := "Change planning limits must be greater than zero" |}
  else if (MAX_OBSERVATIONS <? max_observations limits) || (MAX_INTENTS <? max_intents limits)
  then Err {| pe_code := "change_planning_limit_exceeded";
              pe_message := "Change planning limits exceed the absolute capacity bound" |}
  else Ok ().

(** ** The observation loop *)

(** The local variables of [plan_library_changes] the loop changes. *)
Record PlanState := {
  ps_issues : list LibraryChangePlanningIssue;
  ps_superseded : Z;
  ps_intents : IntentMap;
  ps_evidence : list ObservationEvidence;
  ps_must_reconcile_root : bool;
  ps_root_gap_origin : option (Z * Z * LibraryChangeOrigin);
  ps_range : option ObservationRange;
}.

(** [must_reconcile_root = true; push_unique_issue(&mut issues, issue); continue;] *)
Definition fall_back_to_root (s : PlanState) (issue : LibraryChangePlanningIssue) : PlanState :=
  {| ps_issues := push_unique_issue (ps_issues s) issue;
     ps_superseded := ps_superseded s;
     ps_intents := ps_intents s;
     ps_evidence := ps_evidence s;
     ps_must_reconcile_root := true;
     ps_root_gap_origin := ps_root_gap_origin s;
     ps_range := ps_range s |}.

Definition is_renamed (kind : LibraryChangeObservationKind) : bool :=
  match kind with Renamed _ => true | _ => false end.

(** The normalized path and previous path of an observation, or the issue that makes it unusable. *)
Definition observation_paths (observation : LibraryChangeObservation)
    : Result LibraryChangePlanningIssue (str * option str) :=
  match normalize_relative_path (ob_relative_path observation) with
  | None => Err InvalidRelativePath
  | Some relative_path =>
    if is_empty relative_path && negb (bool_decide (ob_kind observation = DirectoryChanged))
    then Err InvalidRelativePath
    else
      let should_use_previous_path :=
        is_renamed (ob_kind observation) && negb (bool_decide (ob_scope observation = Root))
        && negb (is_empty relative_path) in
      previous_relative_path ←
        (if should_use_previous_path then
           match ob_previous_relative_path observation with
           | Some path =>
             match normalize_nonempty_relative_path path with
             | Some path => Ok (Some path)
             | None => Err InvalidRelativePath
             end
           | None => Ok None
           end
         else Ok None);
      if is_renamed (ob_kind observation) && negb (bool_decide (ob_scope observation = Root))
         && bool_decide (previous_relative_path = None)
      then Err ChangeEvidenceGap
      else Ok (relative_path, previous_relative_path)
  end.

Definition is_for_context (context : LibraryChangePlanningContext)
    (observation : LibraryChangeObservation) : bool :=
  bool_decide (ob_root_id observation = ctx_root_id context)
  && bool_decide (ob_root_generation observation = ctx_root_generation context).

(** One iteration of the loop. *)
Definition plan_observation (context : LibraryChangePlanningContext) (s : PlanState)
    (observation : LibraryChangeObservation) : PlanState :=
  if negb (is_for_context context observation)
  then {| ps_issues := ps_issues s;
          ps_superseded := saturating_add U64_MAX (ps_superseded s) 1;
          ps_intents := ps_intents s;
          ps_evidence := ps_evidence s;
          ps_must_reconcile_root := ps_must_reconcile_root s;
          ps_root_gap_origin := ps_root_gap_origin s;
          ps_range := ps_range s |}
  else
    let s := {| ps_issues := ps_issues s;
                ps_superseded := ps_superseded s;
                ps_intents := ps_intents s;
                ps_evidence := ps_evidence s;
                ps_must_reconcile_root := ps_must_reconcile_root s;
                ps_root_gap_origin := update_latest_origin (ps_root_gap_origin s) observation;
                ps_range := update_observation_range (ps_range s) observation |} in
    if bool_decide (ob_kind observation = EvidenceGap) then fall_back_to_root s ChangeEvidenceGap
    else
      match observation_paths observation with
      | Err issue => fall_back_to_root s issue
      | Ok (relative_path, previous_relative_path) =>
        let evidence_id := length (ps_evidence s) in
        {| ps_issues := ps_issues s;
           ps_superseded := ps_superseded s;
           ps_intents :=
             foldl (λ intents intent, merge_intent intents intent evidence_id) (ps_intents s)
               (normalized_intents context observation relative_path previous_relative_path);
           ps_evidence :=
             ps_evidence s ++ [{| oe_sequence := ob_sequence observation;
                                  oe_observed_unix_ms := ob_observed_unix_ms observation;
                                  oe_origin := ob_origin observation |}];
           ps_must_reconcile_root := ps_must_reconcile_root s;
           ps_root_gap_origin := ps_root_gap_origin s;
           ps_range := ps_range s |}
      end.

(** The state before the loop. *)
Definition plan_start (context : LibraryChangePlanningContext) (exceeded : bool) : PlanState :=
  let unhealthy := negb (bool_decide (ctx_source_health context = Healthy)) in
  {| ps_issues := (if exceeded then [ObservationLimitExceeded] else [])
                  ++ (if unhealthy then [ChangeSourceUnhealthy] else []);
     ps_superseded := 0;
     ps_intents := [];
     ps_evidence := [];
     ps_must_reconcile_root := exceeded || unhealthy;
     ps_root_gap_origin := None;
     ps_range := None |}.

(** The code after the loop. *)
Definition plan_finish (context : LibraryChangePlanningContext) (limits : LibraryChangePlanningLimits)
    (exceeded : bool) (received : Z) (s : PlanState) : LibraryChangePlanningResult :=
  let compacted :=
    (λ a, apply_evidence_summary (acc_intent a) (acc_evidence_ids a) (ps_evidence s))
      <$> compact_intents (snd <$> ps_intents s) in
  let over_intents := max_intents limits <? zlen compacted in
  let must_reconcile_root := ps_must_reconcile_root s || over_intents in
  let issues := if over_intents then push_unique_issue (ps_issues s) IntentLimitExceeded
                else ps_issues s in
  let planned :=
    if must_reconcile_root then
      [root_freshness_intent context
         (match ps_root_gap_origin s with Some (_, _, origin) => origin | None => LiveNotification end)
         (if exceeded then None else ps_range s)
         (if exceeded then Some received else None)]
    else compacted in
  let issues := sort_by (compare_on Z.compare issue_ord) issues in
  let planned := sort_by intent_sort_order planned in
  let '(freshness, cause) := project_freshness context planned issues exceeded in
  {| pl_root_id := ctx_root_id context;
     pl_root_generation := ctx_root_generation context;
     pl_freshness := freshness;
     pl_freshness_cause := cause;
     pl_intents := planned;
     pl_issues := issues;
     pl_received_observation_count := received;
     pl_superseded_observation_count := ps_superseded s |}.

Definition plan_library_changes (context : LibraryChangePlanningContext)
    (observations : list LibraryChangeObservation) (limits : LibraryChangePlanningLimits)
    : Result LibraryChangePlanningError LibraryChangePlanningResult :=
  validate_planning_request context limits;;
  let received := Z.min U64_MAX (zlen observations) in
  let exceeded := max_observations limits <? zlen observations in
  let bounded := sort_by observation_sort_order (if exceeded then [] else observations) in
  Ok (plan_finish context limits exceeded received
        (foldl (plan_observation context) (plan_start context exceeded) bounded)).
