(* ===== verification/PlanningCoverage.v ===== *)
(** * No observed change is lost by planning

    The coverage theorem of change planning: whatever was observed in the root is covered by an intent
    of the plan, through merging, compaction, the summary of evidence and the fallback to the root. *)

From S2P Require Import Prelude Text LibraryChange Order Planning.

(** ** What an intent covers *)

(** A place whose state has to be reconciled: one path, or everything at and below it. *)
Record Place := { pc_scope : LibraryChangeScope; pc_path : str }.

Definition intent_paths (i : LibraryChangeIntent) : list str :=
  in_relative_path i :: match in_previous_relative_path i with Some p => [p] | None => [] end.

(** Reconciling [i] also reconciles [place]. *)
Definition covers (i : LibraryChangeIntent) (place : Place) : Prop :=
  in_scope i = Root ∨
  (pc_scope place ≠ Root ∧
   ∃ p, p ∈ intent_paths i ∧
     match in_scope i with
     | Subtree => is_within_subtree (pc_path place) p = true
     | _ => pc_scope place = Path ∧ pc_path place = p
     end).

(** The places an observation of this root reports as changed; [None] if it does not say where. *)
Definition changed_places (o : LibraryChangeObservation) : option (list Place) :=
  if bool_decide (ob_kind o = EvidenceGap) then None
  else
    match observation_paths o with
    | Err _ => None
    | Ok (path, previous) =>
      let scope := if is_empty path || bool_decide (ob_scope o = Root) then Root
                   else if bool_decide (ob_kind o = DirectoryChanged) then Subtree
                   else ob_scope o in
      Some ((λ p, {| pc_scope := scope; pc_path := p |}) <$>
              (path :: match previous with Some p => [p] | None => [] end))
    end.

(** ** Subtrees *)

Lemma within_subtree_spec p t :
  is_within_subtree p t = true ↔ t = [] ∨ p = t ∨ ∃ r, p = t ++ 47 :: r.
Proof.
  unfold is_within_subtree. rewrite !orb_true_iff, bool_decide_eq_true.
  assert (is_empty t = true ↔ t = []) as -> by by destruct t.
  assert (match strip_prefix t p with Some suffix => starts_with 47 suffix | None => false end = true
          ↔ ∃ r, p = t ++ 47 :: r) as ->; [|tauto].
  destruct (strip_prefix t p) as [r|] eqn:E.
  - apply strip_prefix_Some in E as ->. destruct r as [|c r]; simpl.
    + split; [done|]. intros [r Hr]. rewrite app_nil_r in Hr.
      apply (f_equal length) in Hr. rewrite length_app in Hr. simpl in Hr. lia.
    + rewrite Z.eqb_eq. split; [intros ->; by exists r|].
      intros [r' Hr]. apply app_inv_head in Hr. by injection Hr.
  - split; [done|]. intros [r Hr]. apply (strip_prefix_Some t p (47 :: r)) in Hr. congruence.
Qed.

Lemma within_subtree_refl p : is_within_subtree p p = true.
Proof. apply within_subtree_spec. auto. Qed.

Lemma within_subtree_trans a b c :
  is_within_subtree a b = true → is_within_subtree b c = true → is_within_subtree a c = true.
Proof.
  rewrite !within_subtree_spec. intros [->|[->|[r ->]]] [->|[->|[r' Hr]]]; auto.
  - by destruct c.
  - right; right. exists r'. done.
  - right; right. by exists r.
  - right; right. exists (r' ++ 47 :: r). rewrite Hr, <-app_assoc. done.
Qed.

(** ** Ancestors *)

Lemma slash_prefixes_spec before p q :
  q ∈ slash_prefixes before p ↔ ∃ a b, p = a ++ 47 :: b ∧ q = before ++ a.
Proof.
  revert before. induction p as [|c p IH]; intros before; simpl.
  { split; [by intros ?%elem_of_nil|]. intros (a & b & H & _). by destruct a. }
  rewrite elem_of_app, IH. split.
  - intros [H|(a & b & -> & ->)].
    + destruct (Z.eqb_spec c 47) as [->|]; [|by apply elem_of_nil in H].
      apply list_elem_of_singleton in H as ->. exists [], p. by rewrite app_nil_r.
    + exists (c :: a), b. by rewrite <-app_assoc.
  - intros (a & b & H & ->). destruct a as [|d a]; simplify_eq/=.
    + left. rewrite app_nil_r. set_solver.
    + right. exists a, b. by rewrite <-app_assoc.
Qed.

Lemma slash_prefixes_app before a b :
  slash_prefixes before (a ++ b) = slash_prefixes before a ++ slash_prefixes (before ++ a) b.
Proof.
  revert before. induction a as [|c a IH]; intros before; simpl; [by rewrite app_nil_r|].
  by rewrite IH, <-!app_assoc.
Qed.

Lemma ancestor_within p q : q ∈ ancestor_paths p → is_within_subtree p q = true.
Proof.
  unfold ancestor_paths. rewrite elem_of_app, list_elem_of_singleton, slash_prefixes_spec.
  intros [(a & b & -> & ->)| ->]; [|apply within_subtree_refl].
  apply within_subtree_spec. right; right. by exists b.
Qed.

Lemma ancestor_length p q : q ∈ ancestor_paths p → (length q ≤ length p)%nat.
Proof.
  unfold ancestor_paths. rewrite elem_of_app, list_elem_of_singleton, slash_prefixes_spec.
  intros [(a & b & -> & ->)| ->]; [|done]. simpl. rewrite length_app. lia.
Qed.

Lemma slash_prefix_shorter p q : q ∈ slash_prefixes [] p → (length q < length p)%nat.
Proof.
  rewrite slash_prefixes_spec. intros (a & b & -> & ->). simpl. rewrite length_app. simpl. lia.
Qed.

(** The ancestors of an ancestor come first among the ancestors. *)
Lemma ancestor_prefix p t :
  t ∈ ancestor_paths p → ∃ r, ancestor_paths p = ancestor_paths t ++ r.
Proof.
  unfold ancestor_paths. rewrite elem_of_app, list_elem_of_singleton, slash_prefixes_spec.
  intros [(a & b & -> & ->)| ->]; [|by exists []; rewrite app_nil_r]. simpl.
  rewrite slash_prefixes_app. simpl. eexists. rewrite <-!app_assoc. simpl. done.
Qed.

(** ** Merging *)

(** Merging and summaries never change what an intent is about. *)
Definition same_shape (i j : LibraryChangeIntent) : Prop :=
  in_kind i = in_kind j ∧ in_scope i = in_scope j ∧ in_relative_path i = in_relative_path j ∧
  in_previous_relative_path i = in_previous_relative_path j.

#[export] Instance same_shape_equiv : Equivalence same_shape.
Proof. unfold same_shape. split; [intros ?|intros ??|intros ???]; naive_solver congruence. Qed.

#[export] Instance covers_proper : Proper (same_shape ==> eq ==> iff) covers.
Proof.
  intros i j (Hk & Hs & Hp & Hv) pl ? <-. unfold covers, intent_paths. by rewrite Hs, Hp, Hv.
Qed.

Lemma intent_key_compare_Eq a b : intent_key_compare a b = Eq ↔ a = b.
Proof.
  destruct a, b. unfold intent_key_compare, then_with. simpl.
  repeat match goal with
  | |- context [?x ?= ?y] => destruct (Z.compare_spec x y) as [->|?|?]; [|naive_solver lia..]
  end.
  match goal with |- context [lex_compare ?x ?y] => pose proof (lex_compare_Eq x y);
    destruct (lex_compare x y) end; [rewrite lex_compare_Eq|..]; naive_solver.
Qed.

Lemma intent_key_shape i j :
  in_previous_relative_path i ≠ Some [] → in_previous_relative_path j ≠ Some [] →
  intent_key i = intent_key j → same_shape i j.
Proof.
  unfold intent_key, same_shape. intros Hi Hj H. injection H as Hk Hs Hv Hp. split_and!.
  - by destruct (in_kind i), (in_kind j).
  - by destruct (in_scope i), (in_scope j).
  - done.
  - destruct (in_previous_relative_path i), (in_previous_relative_path j); simpl in *; congruence.
Qed.

(** An entry is stored under its own key. *)
Definition entry_ok (e : IntentKey * AccumulatedIntent) : Prop :=
  e.1 = intent_key (acc_intent e.2) ∧ in_previous_relative_path (acc_intent e.2) ≠ Some [].

Definition intents_of (m : IntentMap) : list LibraryChangeIntent := (λ e, acc_intent e.2) <$> m.

Lemma merge_existing_shape a i id : same_shape (acc_intent (merge_existing a i id)) (acc_intent a).
Proof. done. Qed.

Lemma merge_intent_ok m i id :
  in_previous_relative_path i ≠ Some [] → Forall entry_ok m →
  Forall entry_ok (merge_intent m i id) ∧
  ∀ x, x ∈ i :: intents_of m → ∃ y, y ∈ intents_of (merge_intent m i id) ∧ same_shape x y.
Proof.
  intros Hi. unfold intents_of. induction 1 as [|[k a] m [Hk Hv] Hm IH]; cbn [merge_intent].
  { split; [by repeat constructor|]. intros x Hx. exists x. split; [done|reflexivity]. }
  simpl in Hk, Hv. destruct (intent_key_compare (intent_key i) k) eqn:E.
  - apply intent_key_compare_Eq in E. split; [by constructor|].
    intros x Hx. rewrite fmap_cons in *. cbn [snd] in *.
    apply elem_of_cons in Hx as [->|[->|Hx]%elem_of_cons].
    + eexists. split; [by apply elem_of_cons; left|].
      apply intent_key_shape; [done|done|]. simpl. by rewrite E, Hk.
    + eexists. split; [by apply elem_of_cons; left|]. done.
    + exists x. split; [by apply elem_of_cons; right|reflexivity].
  - split; [by repeat constructor|]. intros x Hx. exists x. split; [done|reflexivity].
  - destruct IH as [IH1 IH2]. split; [by constructor|]. intros x Hx. rewrite fmap_cons in *.
    cbn [snd] in *. assert (x = acc_intent a ∨ x ∈ i :: ((λ e, acc_intent e.2) <$> m)) as [->|Hx'] by set_solver.
    + exists (acc_intent a). split; [by apply elem_of_cons; left|reflexivity].
    + destruct (IH2 x Hx') as (y & Hy & ?). exists y. split; [by apply elem_of_cons; right|done].
Qed.

Lemma merge_intents_ok m js id :
  Forall (λ i, in_previous_relative_path i ≠ Some []) js → Forall entry_ok m →
  let m' := foldl (λ intents intent, merge_intent intents intent id) m js in
  Forall entry_ok m' ∧
  ∀ x, x ∈ js ++ intents_of m → ∃ y, y ∈ intents_of m' ∧ same_shape x y.
Proof.
  intros Hjs. revert m. induction Hjs as [|i js Hi Hjs IH]; intros m Hm; simpl.
  { split; [done|]. intros x Hx. exists x. split; [done|reflexivity]. }
  destruct (merge_intent_ok m i id Hi Hm) as [Hm1 Hs1].
  destruct (IH _ Hm1) as [Hm2 Hs2]. split; [done|]. intros x Hx.
  assert (x ∈ js ∨ x ∈ i :: intents_of m) as [Hx'|Hx'] by set_solver.
  - apply Hs2. set_solver.
  - destruct (Hs1 x Hx') as (y & Hy & Hxy). destruct (Hs2 y) as (z & Hz & Hyz); [set_solver|].
    exists z. split; [done|]. by transitivity y.
Qed.

(** ** The observation loop *)

Lemma normalize_nonempty_ne p q : normalize_nonempty_relative_path p = Some q → q ≠ [].
Proof.
  unfold normalize_nonempty_relative_path. intros (r & _ & H)%bind_Some. by destruct r; simplify_eq/=.
Qed.

Lemma observation_paths_Ok o path previous :
  observation_paths o = Ok (path, previous) →
  previous ≠ Some [] ∧ (path = [] → previous = None) ∧ (ob_scope o = Root → previous = None) ∧
  (is_renamed (ob_kind o) = false → previous = None).
Proof.
  unfold observation_paths. destruct (normalize_relative_path _) as [p|]; [|done].
  destruct (_ && _) eqn:E1; [done|]. intros H. simplify_result.
  destruct (_ && _) eqn:E2 in H; [done|]. simplify_result. simplify_eq.
  destruct (is_renamed (ob_kind o) && negb (bool_decide (ob_scope o = Root)) && negb (is_empty path)) eqn:E3;
    simplify_result; [|done].
  rewrite !andb_true_iff, !negb_true_iff, bool_decide_eq_false in E3. destruct E3 as [[Hr Hs] He].
  split_and!; [|by intros ->|done|congruence].
  destruct (ob_previous_relative_path o) as [q|]; [|by simplify_result].
  destruct (normalize_nonempty_relative_path q) as [q'|] eqn:Eq; [|done]. simplify_result.
  intros [= ->]. by apply normalize_nonempty_ne in Eq.
Qed.

(** The intents of an observation cover the places it reports. *)
Lemma normalized_intents_cover context o path previous :
  observation_paths o = Ok (path, previous) → ob_kind o ≠ EvidenceGap →
  Forall (λ i, in_previous_relative_path i ≠ Some []) (normalized_intents context o path previous) ∧
  ∀ places place, changed_places o = Some places → place ∈ places →
    ∃ i, i ∈ normalized_intents context o path previous ∧ covers i place.
Proof.
  intros Hp Hk. destruct (observation_paths_Ok _ _ _ Hp) as (Hv & He & Hs & Hr).
  unfold changed_places. rewrite Hp, bool_decide_eq_false_2 by done. unfold normalized_intents.
  set (scope := if is_empty path || bool_decide (ob_scope o = Root) then Root
                else match ob_kind o with DirectoryChanged => Subtree | _ => ob_scope o end).
  assert ((if is_empty path || bool_decide (ob_scope o = Root) then Root
           else if bool_decide (ob_kind o = DirectoryChanged) then Subtree else ob_scope o) = scope) as ->.
  { unfold scope. destruct (_ || _); [done|]. by destruct (ob_kind o). }
  destruct (decide (scope = Root)) as [Hroot|Hroot].
  { rewrite bool_decide_eq_true_2 by done. split; [by constructor|].
    intros places place _ _. eexists. split; [by apply list_elem_of_singleton|]. by left. }
  rewrite bool_decide_eq_false_2 by done.
  assert (∀ k q p pv, q ∈ p :: match pv with Some p => [p] | None => [] end →
            covers (new_intent context o k scope p pv) {| pc_scope := scope; pc_path := q |}) as Hcov.
  { intros k q p pv Hq. right. split; [done|]. exists q. split; [done|]. simpl.
    destruct scope; [done|apply within_subtree_refl|done]. }
  assert (∀ k p, Forall (λ i, in_previous_relative_path i ≠ Some []) [new_intent context o k scope p None])
    as Hnone by (intros; by constructor).
  destruct (is_renamed (ob_kind o)) eqn:Er.
  - destruct (ob_kind o) as [| | |paired| |] eqn:Eo; try done.
    destruct (bool_decide (previous = Some path)) eqn:Eb;
      [|destruct (paired && bool_decide (is_Some previous))].
    + apply bool_decide_eq_true in Eb as ->. split; [done|]. intros places place <-%(inj Some) Hin.
      eexists. split; [by apply list_elem_of_singleton|].
      csimpl in Hin. assert (place = {| pc_scope := scope; pc_path := path |}) as -> by set_solver.
      apply Hcov. set_solver.
    + split; [by constructor|]. intros places place <-%(inj Some) Hin.
      eexists. split; [by apply list_elem_of_singleton|].
      apply list_elem_of_fmap in Hin as (q & -> & Hq). by apply Hcov.
    + split; [destruct previous; by repeat constructor|]. intros places place <-%(inj Some) Hin.
      apply list_elem_of_fmap in Hin as (q & -> & Hq). apply elem_of_cons in Hq as [->|Hq].
      * eexists. split; [apply elem_of_app; right; by apply list_elem_of_singleton|]. apply Hcov. set_solver.
      * destruct previous as [q'|]; [|by apply elem_of_nil in Hq]. apply list_elem_of_singleton in Hq as ->.
        eexists. split; [apply elem_of_app; left; by apply list_elem_of_singleton|]. apply Hcov. set_solver.
  - rewrite Hr by done.
    assert (match ob_kind o with
            | Renamed b => (if bool_decide (@None str = Some path) then _ else _)
            | _ => [new_intent context o Reconcile scope path None] end =
            [new_intent context o Reconcile scope path None]) as -> by by destruct (ob_kind o).
    split; [done|]. intros places place <-%(inj Some) Hin.
    eexists. split; [by apply list_elem_of_singleton|]. csimpl in Hin.
    apply list_elem_of_singleton in Hin as ->. apply Hcov. set_solver.
Qed.

(** An observation is accounted for: it is not about this root, or the whole root is going to be
    reconciled, or an intent covers each of its places. *)
Definition accounted (context : LibraryChangePlanningContext) (must_reconcile_root : bool)
    (planned : list LibraryChangeIntent) (o : LibraryChangeObservation) : Prop :=
  is_for_context context o = false ∨ must_reconcile_root = true ∨
  ∃ places, changed_places o = Some places ∧
    ∀ place, place ∈ places → ∃ i, i ∈ planned ∧ covers i place.

Lemma accounted_shape context root l1 l2 o :
  (∀ x, x ∈ l1 → ∃ y, y ∈ l2 ∧ same_shape x y) →
  accounted context root l1 o → accounted context root l2 o.
Proof.
  intros Hs [H|[H|(places & Hp & H)]]; [by left|by right; left|]. right; right. exists places.
  split; [done|]. intros place Hin. destruct (H _ Hin) as (x & Hx & Hc).
  destruct (Hs x Hx) as (y & Hy & Hxy). exists y. split; [done|]. by rewrite <-Hxy.
Qed.

Lemma plan_observation_ok context s o done_ :
  Forall entry_ok (ps_intents s) →
  Forall (accounted context (ps_must_reconcile_root s) (intents_of (ps_intents s))) done_ →
  let s' := plan_observation context s o in
  Forall entry_ok (ps_intents s') ∧
  Forall (accounted context (ps_must_reconcile_root s') (intents_of (ps_intents s'))) (done_ ++ [o]).
Proof.
  intros Hm Hd. unfold plan_observation. destruct (is_for_context context o) eqn:Ec; simpl.
  2: { split; [done|]. apply Forall_app. split; [done|]. constructor; [by left|constructor]. }
  assert (∀ js l, Forall (accounted context true js) l) as Htrue.
  { intros js l. apply Forall_forall. intros. by right; left. }
  case_bool_decide as Hk; simpl; [split; [done|apply Htrue]|].
  destruct (observation_paths o) as [[path previous]|issue] eqn:Ep; simpl; [|split; [done|apply Htrue]].
  destruct (normalized_intents_cover context o path previous Ep Hk) as [Hv Hcov].
  destruct (merge_intents_ok _ _ (length (ps_evidence s)) Hv Hm) as [Hm' Hs]. split; [done|].
  apply Forall_app. split.
  - eapply Forall_impl; [exact Hd|]. intros x. apply accounted_shape. intros y Hy. apply Hs. set_solver.
  - constructor; [|constructor]. right; right.
    assert (∃ places, changed_places o = Some places) as [places Hpl].
    { unfold changed_places. rewrite Ep, bool_decide_eq_false_2 by done. by eexists. }
    exists places. split; [done|]. intros place Hin.
    destruct (Hcov places place Hpl Hin) as (i & Hi & Hc).
    destruct (Hs i) as (y & Hy & Hiy); [set_solver|]. exists y. split; [done|]. by rewrite <-Hiy.
Qed.

Lemma plan_observations_ok context s os done_ :
  Forall entry_ok (ps_intents s) →
  Forall (accounted context (ps_must_reconcile_root s) (intents_of (ps_intents s))) done_ →
  let s' := foldl (plan_observation context) s os in
  Forall entry_ok (ps_intents s') ∧
  Forall (accounted context (ps_must_reconcile_root s') (intents_of (ps_intents s'))) (done_ ++ os).
Proof.
  revert s done_. induction os as [|o os IH]; intros s done_ Hm Hd; simpl; [by rewrite app_nil_r|].
  destruct (plan_observation_ok context s o done_ Hm Hd) as [Hm' Hd'].
  specialize (IH _ _ Hm' Hd'). by rewrite <-app_assoc in IH.
Qed.

(** ** Compaction *)

Lemma covers_root i place : in_scope i = Root → covers i place.
Proof. by left. Qed.

(** A subtree covers what any intent inside it covers. *)
Lemma covers_subtree i t place :
  in_scope t = Subtree → in_scope i ≠ Root →
  (∀ p, p ∈ intent_paths i → is_within_subtree p (in_relative_path t) = true) →
  covers i place → covers t place.
Proof.
  intros Ht Hi Hw [H|(Hs & p & Hp & H)]; [done|]. right. split; [done|].
  exists (in_relative_path t). split; [by left|]. rewrite Ht. specialize (Hw p Hp).
  destruct (in_scope i); [|by eapply within_subtree_trans|done]. by destruct H as [_ ->].
Qed.

Lemma subtree_index_map_sound intents path index :
  subtree_index_map intents !! path = Some index →
  ∃ a, intents !! index = Some a ∧ is_subtree_reconcile a = true ∧
    in_relative_path (acc_intent a) = path.
Proof.
  unfold subtree_index_map.
  set (l := omap _ _). assert (∀ p n, (p, n) ∈ l → ∃ a, intents !! n = Some a ∧
    is_subtree_reconcile a = true ∧ in_relative_path (acc_intent a) = p) as Hl.
  { intros p n ([n' a] & Hin & H)%list_elem_of_omap. destruct (is_subtree_reconcile a) eqn:E; simplify_eq.
    apply list_elem_of_lookup in Hin as [k Hk]. rewrite list_lookup_imap in Hk.
    destruct (intents !! k) eqn:E'; simplify_eq/=. by exists a. }
  clearbody l. intros H.
  assert (∀ m : gmap str nat, foldl (λ m p, <[p.1:=p.2]> m) m l !! path = Some index →
    m !! path = Some index ∨ (path, index) ∈ l) as Hf.
  { clear. induction l as [|[p n] l IH]; intros m H; simpl in H; [by left|].
    apply IH in H as [H|H]; [|right; by apply elem_of_cons; right].
    apply lookup_insert_Some in H as [[-> ->]|[_ H]]; [right; by apply elem_of_cons; left|by left]. }
  apply Hf in H as [H|H]; [by rewrite lookup_empty in H|]. by apply Hl.
Qed.

Lemma find_omap_Some (m : gmap str nat) index l t n :
  find (λ p : str * nat, negb (bool_decide (p.2 = index)))
    (omap (λ path, index ← m !! path; Some (path, index)) l) = Some (t, n) →
  ∃ l1 l2, l = l1 ++ t :: l2 ∧ m !! t = Some n ∧ n ≠ index ∧
    ∀ s k, s ∈ l1 → m !! s = Some k → k = index.
Proof.
  induction l as [|x l IH]; simpl; [done|]. destruct (m !! x) as [k|] eqn:Ex; simpl.
  - case_bool_decide as Ek; simpl.
    + intros H. destruct (IH H) as (l1 & l2 & -> & ? & ? & Hl1). exists (x :: l1), l2.
      split_and!; [done|done|done|]. intros s k' [->|Hs]%elem_of_cons Hk'; [congruence|by eapply Hl1].
    + intros [= <- <-]. exists [], l. split_and!; [done|done|done|]. by intros s k' ?%elem_of_nil.
  - intros H. destruct (IH H) as (l1 & l2 & -> & ? & ? & Hl1). exists (x :: l1), l2.
    split_and!; [done|done|done|]. intros s k' [->|Hs]%elem_of_cons Hk'; [congruence|by eapply Hl1].
Qed.

(** The subtree that absorbs an intent covers it and is not absorbed itself. *)
Lemma covering_subtree_sound intents index a target :
  intents !! index = Some a →
  covering_subtree_index index (acc_intent a) (subtree_index_map intents) = Some target →
  ∃ t, intents !! target = Some t ∧
    covering_subtree_index target (acc_intent t) (subtree_index_map intents) = None ∧
    ∀ place, covers (acc_intent a) place → covers (acc_intent t) place.
Proof.
  intros Ha H. unfold covering_subtree_index in H at 1. destruct (_ || _) eqn:E1; [done|].
  apply orb_false_iff in E1 as [Er%bool_decide_eq_false _].
  apply bind_Some in H as ([t n] & Hf & H). cbn in H.
  destruct (match in_previous_relative_path _ with Some _ => _ | None => _ end) eqn:Ev in H; simplify_eq.
  apply find_omap_Some in Hf as (l1 & l2 & Hl & Ht & Hne & Hl1).
  destruct (subtree_index_map_sound _ _ _ Ht) as (b & Hb & Hsub & Hbp).
  assert (t ∈ ancestor_paths (in_relative_path (acc_intent a))) as Hin.
  { rewrite Hl. set_solver. }
  exists b. split; [done|]. split.
  - unfold covering_subtree_index. destruct (_ || _); [done|].
    destruct (find _ _) as [[s k]|] eqn:Ef; [|done]. exfalso.
    apply find_omap_Some in Ef as (m1 & m2 & Hm & Hs & Hk & _).
    rewrite Hbp in Hm. destruct (ancestor_prefix _ _ Hin) as [r Hr].
    assert (s ∈ ancestor_paths t) as Hst by (rewrite Hm; set_solver).
    unfold ancestor_paths in Hst. apply elem_of_app in Hst as [Hst|Hst].
    2: { apply list_elem_of_singleton in Hst as ->. congruence. }
    pose proof (slash_prefix_shorter _ _ Hst) as Hlen.
    assert (s ∈ l1) as Hs1.
    { unfold ancestor_paths in Hr at 2. unfold ancestor_paths in Hl.
      fold (ancestor_paths (in_relative_path (acc_intent a))) in Hl.
      rewrite Hl, <-app_assoc in Hr. simpl in Hr.
      apply app_eq_inv in Hr as [(k' & -> & _)|(k' & Hk' & Hr)]; [set_solver|].
      destruct k' as [|x k']; [rewrite app_nil_r in Hk'; by rewrite Hk' in Hst|].
      simpl in Hr. injection Hr as <- _. exfalso.
      assert (t ∈ slash_prefixes [] t) as Htt by (rewrite Hk'; set_solver).
      apply slash_prefix_shorter in Htt. lia. }
    apply (Hl1 s k Hs1) in Hs as Hk2. subst k.
    destruct (subtree_index_map_sound _ _ _ Hs) as (a' & Ha' & _ & Hap). simplify_eq.
    apply ancestor_length in Hin. lia.
  - intros place. unfold is_subtree_reconcile in Hsub. apply andb_true_iff in Hsub as [_ Hsub].
    apply bool_decide_eq_true in Hsub. apply covers_subtree; [done|done|].
    intros p Hp. rewrite Hbp. unfold intent_paths in Hp. apply elem_of_cons in Hp as [->|Hp].
    + by apply ancestor_within.
    + destruct (in_previous_relative_path (acc_intent a)); [|by apply elem_of_nil in Hp].
      by apply list_elem_of_singleton in Hp as ->.
Qed.

Lemma position_Some {A} (f : A → bool) l i : position f l = Some i → ∃ x, l !! i = Some x ∧ f x = true.
Proof.
  revert i. induction l as [|x l IH]; intros i; simpl; [done|]. destruct (f x) eqn:E.
  - intros [= <-]. by exists x.
  - intros (j & Hj & ->)%fmap_Some. apply IH in Hj as (y & Hy & ?). by exists y.
Qed.

Lemma position_None {A} (f : A → bool) l : position f l = None → Forall (λ x, f x = false) l.
Proof.
  induction l as [|x l IH]; simpl; [constructor|]. destruct (f x) eqn:E; [done|].
  intros H. constructor; [done|]. apply IH. by destruct (position f l).
Qed.

(** An intent that is not absorbed is kept, with the evidence it inherits. *)
Lemma compact_kept intents i a :
  position is_root_reconcile intents = None → intents !! i = Some a →
  covering_subtree_index i (acc_intent a) (subtree_index_map intents) = None →
  ∃ ids, add_evidence_ids a ids ∈ compact_intents intents.
Proof.
  intros Hroot Ha Hn. unfold compact_intents. rewrite Hroot.
  set (absorbed := imap _ intents). set (inherited := foldl _ _ _).
  assert (length inherited = length intents) as Hlen.
  { unfold inherited. generalize (zip absorbed intents). intros l.
    rewrite <-(length_replicate (length intents) (∅ : gset nat)) at 2.
    generalize (replicate (length intents) (∅ : gset nat)).
    induction l as [|[[t|] x] l IH]; intros m; simpl; [done| |done]. rewrite IH. apply length_alter. }
  destruct (lookup_lt_is_Some_2 inherited i) as [ids Hids].
  { rewrite Hlen. by eapply lookup_lt_Some. }
  exists ids. apply list_elem_of_omap. exists (None, (a, ids)). split; [|done].
  apply list_elem_of_lookup. exists i.
  assert (absorbed !! i = Some None) as Habs.
  { unfold absorbed. rewrite list_lookup_imap, Ha. simpl. by rewrite Hn. }
  rewrite lookup_zip_with, Habs. simpl. rewrite lookup_zip_with, Ha. simpl. by rewrite Hids.
Qed.

Lemma compact_root intents i root :
  position is_root_reconcile intents = Some i → intents !! i = Some root →
  ∃ ids, {| acc_intent := acc_intent root; acc_evidence_ids := ids |} ∈ compact_intents intents.
Proof.
  intros Hi Hr. unfold compact_intents. rewrite Hi, Hr.
  assert (∀ l kept r, ∃ kept' ids,
    foldl (λ '(retained, root) intent,
             if is_precise_dirty_reconcile (acc_intent intent) then (retained ++ [intent], root)
             else (retained, add_evidence_ids root (acc_evidence_ids intent))) (kept, r) l =
    (kept', {| acc_intent := acc_intent r; acc_evidence_ids := ids |})) as Hf.
  { induction l as [|x l IH]; intros kept r; simpl.
    - exists kept, (acc_evidence_ids r). by destruct r.
    - destruct (is_precise_dirty_reconcile (acc_intent x)); [apply IH|].
      destruct (IH kept (add_evidence_ids r (acc_evidence_ids x))) as (k' & ids & ->). by exists k', ids. }
  destruct (Hf (swap_remove intents i) [] root) as (kept & ids & ->). exists ids. set_solver.
Qed.

Lemma compact_cover intents a :
  a ∈ intents →
  ∃ b, b ∈ compact_intents intents ∧ ∀ place, covers (acc_intent a) place → covers (acc_intent b) place.
Proof.
  intros [i Ha]%list_elem_of_lookup.
  destruct (position is_root_reconcile intents) as [r|] eqn:Er.
  - destruct (position_Some _ _ _ Er) as (root & Hroot & Hf). unfold is_root_reconcile in Hf.
    apply andb_true_iff in Hf as [_ Hf%bool_decide_eq_true].
    destruct (compact_root _ _ _ Er Hroot) as [ids Hin]. eexists. split; [exact Hin|].
    intros place _. by apply covers_root.
  - destruct (covering_subtree_index i (acc_intent a) (subtree_index_map intents)) as [t|] eqn:Et.
    + destruct (covering_subtree_sound _ _ _ _ Ha Et) as (b & Hb & Hn & Hc).
      destruct (compact_kept _ _ _ Er Hb Hn) as [ids Hin]. eexists. split; [exact Hin|]. exact Hc.
    + destruct (compact_kept _ _ _ Er Ha Et) as [ids Hin]. eexists. by split; [exact Hin|].
Qed.

(** ** The plan *)

Lemma apply_evidence_summary_shape i ids ev : same_shape i (apply_evidence_summary i ids ev).
Proof.
  unfold apply_evidence_summary. destruct (omap _ _) as [|f l]; [reflexivity|].
  destruct (foldl _ _ _) as [[[[? ?] ?] ?] ?]. done.
Qed.

Lemma plan_finish_covers context limits exceeded received s o :
  Forall entry_ok (ps_intents s) →
  accounted context (ps_must_reconcile_root s) (intents_of (ps_intents s)) o →
  is_for_context context o = true →
  let plan := plan_finish context limits exceeded received s in
  (∃ i, i ∈ pl_intents plan ∧ in_scope i = Root) ∨
  ∃ places, changed_places o = Some places ∧
    ∀ place, place ∈ places → ∃ i, i ∈ pl_intents plan ∧ covers i place.
Proof.
  intros Hm Hacc Hc plan. unfold plan, plan_finish.
  set (compacted := _ <$> compact_intents _). set (over := _ <? zlen compacted).
  destruct (project_freshness _ _ _ _) as [f fc]. cbn [pl_intents].
  destruct (ps_must_reconcile_root s || over) eqn:Eroot.
  { left. eexists. split; [by apply list_elem_of_singleton|done]. }
  right. apply orb_false_iff in Eroot as [Er _].
  destruct Hacc as [H|[H|(places & Hp & H)]]; [congruence|congruence|].
  exists places. split; [done|]. intros place Hin.
  destruct (H _ Hin) as (i & Hi & Hcov). unfold intents_of in Hi.
  apply list_elem_of_fmap in Hi as ([k a] & -> & Ha).
  destruct (compact_cover (snd <$> ps_intents s) a) as (b & Hb & Hbc).
  { apply list_elem_of_fmap. by exists (k, a). }
  exists (apply_evidence_summary (acc_intent b) (acc_evidence_ids b) (ps_evidence s)). split.
  - rewrite sort_by_perm. unfold compacted. apply list_elem_of_fmap. by exists b.
  - rewrite <-apply_evidence_summary_shape. by apply Hbc.
Qed.

(** C1: planning loses no change.  Whatever batch of observations is planned, every observation about
    the root is accounted for in the plan: either the plan reconciles the whole root, or the
    observation says where it happened and each of its places, for a rename the old and the new one, is
    covered by a planned intent. *)
Theorem plan_covers_every_observation context observations limits plan o :
  plan_library_changes context observations limits = Ok plan →
  o ∈ observations → is_for_context context o = true →
  (∃ i, i ∈ pl_intents plan ∧ in_scope i = Root) ∨
  ∃ places, changed_places o = Some places ∧
    ∀ place, place ∈ places → ∃ i, i ∈ pl_intents plan ∧ covers i place.
Proof.
  unfold plan_library_changes. intros H Ho Hc. simplify_result.
  set (exceeded := max_observations limits <? zlen observations) in *.
  set (os := sort_by observation_sort_order (if exceeded then [] else observations)).
  set (s := foldl (plan_observation context) (plan_start context exceeded) os).
  destruct (plan_observations_ok context (plan_start context exceeded) os [])
    as [Hm Hacc]; [constructor|constructor|]. fold s in Hm, Hacc. simpl in Hacc.
  assert (accounted context (ps_must_reconcile_root s) (intents_of (ps_intents s)) o) as Ha.
  { destruct exceeded eqn:Ee.
    - right; left. unfold s, os. simpl. unfold plan_start. done.
    - rewrite Forall_forall in Hacc. apply Hacc. unfold os. by rewrite sort_by_perm. }
  by apply plan_finish_covers.
Qed.

(** A root with one created file and a rename out of a directory that changed as a whole. *)
Definition sample_context : LibraryChangePlanningContext :=
  {| ctx_root_id := lit "root"; ctx_root_generation := {| generation_value := 1 |};
     ctx_availability := Available; ctx_source_health := Healthy |}.
Definition sample_observation (sequence : Z) (kind : LibraryChangeObservationKind) (path : str)
    (previous : option str) : LibraryChangeObservation :=
  {| ob_root_id := lit "root"; ob_root_generation := {| generation_value := 1 |};
     ob_sequence := sequence; ob_observed_unix_ms := sequence; ob_kind := kind; ob_scope := Path;
     ob_relative_path := path; ob_previous_relative_path := previous;
     ob_origin := MetadataInventory |}.
Definition sample_observations : list LibraryChangeObservation :=
  [ sample_observation 3 (Renamed true) (lit "new/a") (Some (lit "old/a"));
    sample_observation 1 Created (lit "new/b") None;
    sample_observation 2 DirectoryChanged (lit "new") None ].
Definition sample_limits : LibraryChangePlanningLimits := {| max_observations := 10; max_intents := 10 |}.
Definition sample_plan : LibraryChangePlanningResult :=
  match plan_library_changes sample_context sample_observations sample_limits with
  | Ok plan => plan
  | Err _ => plan_finish sample_context sample_limits false 0 (plan_start sample_context false)
  end.

Lemma plan_covers_every_observation_witness :
  plan_library_changes sample_context sample_observations sample_limits = Ok sample_plan ∧
  zlen (pl_intents sample_plan) = 2 ∧
  ∃ places, changed_places (sample_observation 1 Created (lit "new/b") None) = Some places ∧
    ∀ place, place ∈ places → ∃ i, i ∈ pl_intents sample_plan ∧ covers i place.
Proof.
  assert (plan_library_changes sample_context sample_observations sample_limits = Ok sample_plan)
    as H by (vm_compute; reflexivity).
  split; [exact H|]. split; [vm_compute; reflexivity|].
  destruct (plan_covers_every_observation _ _ _ _ (sample_observation 1 Created (lit "new/b") None) H)
    as [(i & Hi & Hs)|Hp].
  - right. left.
  - vm_compute. reflexivity.
  - exfalso. assert (Forall (λ i, in_scope i ≠ Root) (pl_intents sample_plan)) as Hf.
    { apply (bool_decide_unpack _). vm_compute. exact I. }
    rewrite Forall_forall in Hf. exact (Hf i Hi Hs).
  - exact Hp.
Defined.
