(* ===== verification/PlanningOrder.v ===== *)
(** * Planning is independent of delivery order, bounded, and honest about freshness

    The change source delivers observations in no particular order.  The theorems of this file show
    that the plan depends only on which observations arrived, that it respects its limits, and that a
    root is only called synchronized when nothing about it was reported. *)

From S2P Require Import Prelude Text LibraryChange Order Planning PlanningCoverage.

(** ** The comparator of observations *)

#[export] Instance observation_comparator : Comparator observation_sort_order.
Proof.
  unfold observation_sort_order.
  apply (then_with_comparator (compare_on Z.compare ob_sequence)); [apply _|].
  apply (then_with_comparator (compare_on Z.compare ob_observed_unix_ms)); [apply _|].
  apply (then_with_comparator (compare_on Z.compare (λ o, origin_ord (ob_origin o)))); [apply _|].
  apply (then_with_comparator (compare_on Z.compare (λ o, observation_kind_ord (ob_kind o)))); [apply _|].
  apply (then_with_comparator (compare_on Z.compare (λ o, scope_ord (ob_scope o)))); [apply _|].
  apply (then_with_comparator (compare_on lex_compare ob_relative_path)); [apply _|].
  exact (compare_on_comparator (option_compare lex_compare) ob_previous_relative_path _).
Qed.

Lemma then_with_Eq a b : then_with a b = Eq ↔ a = Eq ∧ b = Eq.
Proof. destruct a; simpl; naive_solver. Qed.

Lemma option_lex_Eq a b : option_compare lex_compare a b = Eq ↔ a = b.
Proof. destruct a, b; simpl; rewrite ?lex_compare_Eq; naive_solver. Qed.

(** Observations of one root that compare equal are the same observation. *)
Lemma observation_order_Eq context x y :
  is_for_context context x = true → is_for_context context y = true →
  observation_sort_order x y = Eq → x = y.
Proof.
  unfold is_for_context, observation_sort_order.
  rewrite !andb_true_iff, !bool_decide_eq_true, !then_with_Eq, !Z.compare_eq_iff, lex_compare_Eq,
    option_lex_Eq.
  intros [Hx1 Hx2] [Hy1 Hy2] (H1 & H2 & H3 & H4 & H5 & H6 & H7).
  destruct x as [r g sq tm k sc p v o], y as [r' g' sq' tm' k' sc' p' v' o']. simpl in *.
  assert (o = o') as -> by by destruct o, o'.
  assert (sc = sc') as -> by by destruct sc, sc'.
  assert (k = k') as -> by (destruct k as [| | |[]| |], k' as [| | |[]| |]; done). congruence.
Qed.

(** ** The loop ignores observations of other roots *)

(** The state without the count of superseded observations. *)
Definition without_superseded (s : PlanState) : PlanState :=
  {| ps_issues := ps_issues s; ps_superseded := 0; ps_intents := ps_intents s;
     ps_evidence := ps_evidence s; ps_must_reconcile_root := ps_must_reconcile_root s;
     ps_root_gap_origin := ps_root_gap_origin s; ps_range := ps_range s |}.

Lemma plan_state_eq s1 s2 :
  without_superseded s1 = without_superseded s2 → ps_superseded s1 = ps_superseded s2 → s1 = s2.
Proof.
  destruct s1, s2. unfold without_superseded. cbn. intros H1 H2. injection H1. intros. subst. reflexivity.
Qed.

Lemma plan_observation_foreign context s o :
  is_for_context context o = false →
  without_superseded (plan_observation context s o) = without_superseded s ∧
  ps_superseded (plan_observation context s o) = Z.min U64_MAX (ps_superseded s + 1).
Proof. intros H. unfold plan_observation. by rewrite H. Qed.

Lemma plan_observation_own context s o :
  is_for_context context o = true →
  without_superseded (plan_observation context s o) =
    without_superseded (plan_observation context (without_superseded s) o) ∧
  ps_superseded (plan_observation context s o) = ps_superseded s.
Proof.
  intros H. unfold plan_observation. rewrite H. simpl. case_bool_decide; [done|].
  destruct (observation_paths o) as [[p v]|]; done.
Qed.

Abbreviation own context os := (filter (λ o, is_for_context context o = true) os).

Lemma plan_observation_without context s1 s2 o :
  without_superseded s1 = without_superseded s2 →
  without_superseded (plan_observation context s1 o) = without_superseded (plan_observation context s2 o).
Proof.
  intros H. destruct (is_for_context context o) eqn:E.
  - destruct (plan_observation_own context s1 o E) as [-> _].
    destruct (plan_observation_own context s2 o E) as [-> _]. by rewrite H.
  - destruct (plan_observation_foreign context s1 o E) as [-> _].
    by destruct (plan_observation_foreign context s2 o E) as [-> _].
Qed.

Lemma plan_observations_without context s1 s2 os :
  without_superseded s1 = without_superseded s2 →
  without_superseded (foldl (plan_observation context) s1 os) =
  without_superseded (foldl (plan_observation context) s2 os).
Proof.
  revert s1 s2. induction os as [|o os IH]; intros s1 s2 H; simpl; [done|].
  by apply IH, plan_observation_without.
Qed.

Lemma plan_observations_own context s os :
  without_superseded (foldl (plan_observation context) s os) =
  without_superseded (foldl (plan_observation context) (without_superseded s) (own context os)).
Proof.
  revert s. induction os as [|o os IH]; intros s; [by destruct s|]. rewrite filter_cons.
  cbn [foldl]. rewrite IH. case_decide as E; cbn [foldl]; apply plan_observations_without.
  - by apply (plan_observation_without context s (without_superseded s)).
  - apply not_true_iff_false in E. by destruct (plan_observation_foreign context s o E) as [-> _].
Qed.

Lemma plan_observations_superseded context s os :
  ps_superseded s ≤ U64_MAX →
  ps_superseded (foldl (plan_observation context) s os) =
  Z.min U64_MAX (ps_superseded s + (zlen os - zlen (own context os))).
Proof.
  revert s. induction os as [|o os IH]; intros s Hs; cbn [foldl].
  { change (ps_superseded s = Z.min U64_MAX (ps_superseded s + (0 - 0))). lia. }
  rewrite filter_cons, zlen_cons. case_decide as E.
  - destruct (plan_observation_own context s o E) as [_ Ho].
    rewrite IH by by rewrite Ho. rewrite Ho, zlen_cons. f_equal. lia.
  - apply not_true_iff_false in E. destruct (plan_observation_foreign context s o E) as [_ Ho].
    rewrite IH by (rewrite Ho; lia). rewrite Ho.
    pose proof (length_filter (λ o, is_for_context context o = true) os). unfold U64_MAX, zlen in *. lia.
Qed.

(** C33: the plan does not depend on the order in which the observations were delivered. *)
Theorem plan_order_independent context limits observations observations' :
  observations ≡ₚ observations' →
  plan_library_changes context observations limits = plan_library_changes context observations' limits.
Proof.
  intros Hp. unfold plan_library_changes.
  assert (zlen observations = zlen observations') as Hz by (unfold zlen; by rewrite Hp).
  rewrite <-Hz. destruct (validate_planning_request context limits); [|done].
  cbn [mbind result_bind]. do 2 f_equal. set (exceeded := _ <? zlen observations).
  set (l1 := if exceeded then [] else observations). set (l2 := if exceeded then [] else observations').
  assert (l1 ≡ₚ l2) as Hl by (unfold l1, l2; by destruct exceeded).
  assert (own context (sort_by observation_sort_order l1) = own context (sort_by observation_sort_order l2))
    as Ho by (apply sort_by_filter_unique; [apply _|apply observation_order_Eq|done]).
  apply plan_state_eq.
  - by rewrite plan_observations_own, Ho, <-plan_observations_own.
  - rewrite !plan_observations_superseded by (unfold plan_start, U64_MAX; simpl; lia).
    rewrite Ho. do 3 f_equal. unfold zlen. by rewrite !sort_by_perm, Hl.
Qed.

Lemma plan_order_independent_witness :
  plan_library_changes sample_context (reverse sample_observations) sample_limits = Ok sample_plan.
Proof.
  rewrite (plan_order_independent sample_context sample_limits (reverse sample_observations)
             sample_observations (reverse_Permutation _)). vm_compute. reflexivity.
Defined.

(** ** Bounds *)

Lemma validate_planning_request_Ok context limits :
  validate_planning_request context limits = Ok () →
  max_observations limits ≠ 0 ∧ max_intents limits ≠ 0 ∧
  max_observations limits ≤ MAX_OBSERVATIONS ∧ max_intents limits ≤ MAX_INTENTS.
Proof.
  unfold validate_planning_request. intros H. destruct (_ || _) in H; [done|].
  destruct (_ || _) eqn:E1 in H; [done|]. destruct (_ || _) eqn:E2 in H; [done|]. lia.
Qed.

(** A plan never holds more intents than the caller allowed, and the caller can never allow more
    than 1024; beyond the limit the plan degrades to the one intent that reconciles the root. *)
Theorem plan_bounded context observations limits plan :
  0 ≤ max_intents limits → plan_library_changes context observations limits = Ok plan →
  zlen (pl_intents plan) ≤ max_intents limits ≤ 1024.
Proof.
  unfold plan_library_changes. intros Hpos H. simplify_result.
  match goal with H : validate_planning_request _ _ = _ |- _ =>
    apply validate_planning_request_Ok in H as (_ & Hi & _ & Hm) end.
  unfold MAX_INTENTS in Hm. unfold plan_finish. set (compacted := _ <$> compact_intents _).
  destruct (project_freshness _ _ _ _). cbn [pl_intents]. split; [|done].
  assert (∀ l, zlen (sort_by intent_sort_order l) = zlen l) as -> by (intros; unfold zlen; by rewrite sort_by_perm).
  destruct (ps_must_reconcile_root _ || _) eqn:E; [change (zlen [_]) with 1; lia|].
  apply orb_false_iff in E as [_ E]. lia.
Qed.

Lemma plan_bounded_witness : zlen (pl_intents sample_plan) ≤ 10 ≤ 1024.
Proof.
  apply (plan_bounded sample_context sample_observations sample_limits sample_plan);
    vm_compute; [discriminate|reflexivity].
Defined.

(** ** Freshness *)

Lemma changed_places_ne o places : changed_places o = Some places → places ≠ [].
Proof.
  unfold changed_places. destruct (bool_decide _); [done|].
  destruct (observation_paths o) as [[p v]|]; [|done]. intros <-%(inj Some). done.
Qed.

Lemma plan_all_foreign context s os :
  Forall (λ o, is_for_context context o = false) os →
  without_superseded (foldl (plan_observation context) s os) = without_superseded s.
Proof.
  intros H. rewrite plan_observations_own. replace (own context os) with (@nil LibraryChangeObservation).
  { by destruct s. }
  symmetry. induction H as [|o os Ho _ IH]; [done|]. rewrite filter_cons, decide_False; [done|]. congruence.
Qed.

Lemma plan_finish_without context limits exceeded received s1 s2 :
  without_superseded s1 = without_superseded s2 →
  pl_freshness (plan_finish context limits exceeded received s1) =
  pl_freshness (plan_finish context limits exceeded received s2).
Proof.
  intros H. unfold plan_finish.
  destruct s1, s2. unfold without_superseded in H. cbn in H. injection H. intros. subst.
  cbn [ps_evidence ps_intents ps_issues ps_must_reconcile_root ps_root_gap_origin ps_range].
  by destruct (project_freshness _ _ _ _).
Qed.

Lemma project_freshness_synchronized context intents issues exceeded :
  (project_freshness context intents issues exceeded).1 = Synchronized →
  ctx_availability context = Available ∧ ctx_source_health context = Healthy ∧ exceeded = false ∧
  intents = [].
Proof.
  unfold project_freshness. intros H.
  destruct (bool_decide (ctx_availability context = Available)) eqn:Ea; [|done]. simpl in H.
  destruct exceeded; [done|]. destruct (false || _) in H; [done|]. destruct (_ || _) in H; [done|].
  destruct (bool_decide (ctx_source_health context = Healthy)) eqn:Eh; [|done].
  apply bool_decide_eq_true in Ea, Eh. by destruct intents.
Qed.

Lemma plan_finish_freshness context limits exceeded received s :
  let plan := plan_finish context limits exceeded received s in
  pl_freshness plan = (project_freshness context (pl_intents plan) (pl_issues plan) exceeded).1.
Proof.
  unfold plan_finish. destruct (project_freshness _ _ _ _) as [f c] eqn:E. simpl. by rewrite E.
Qed.

(** A root is reported as synchronized exactly when it is available, its change source is healthy,
    the batch was not cut off, and no observation in it is about this root: planning never claims
    freshness in the presence of a change or of doubt. *)
Theorem synchronized_iff context observations limits plan :
  0 ≤ max_intents limits → plan_library_changes context observations limits = Ok plan →
  pl_freshness plan = Synchronized ↔
  ctx_availability context = Available ∧ ctx_source_health context = Healthy ∧
  zlen observations ≤ max_observations limits ∧
  Forall (λ o, is_for_context context o = false) observations.
Proof.
  unfold plan_library_changes. intros Hpos H. simplify_result.
  match goal with H : validate_planning_request _ _ = _ |- _ =>
    apply validate_planning_request_Ok in H as (_ & Hi & _ & _) end.
  set (exceeded := _ <? zlen observations).
  set (os := sort_by observation_sort_order (if exceeded then [] else observations)).
  split.
  - intros Hf. destruct (plan_observations_ok context (plan_start context exceeded) os [])
      as [Hm Hacc]; [constructor|constructor|].
    set (s := foldl _ _ _) in *.
    assert (∀ o, is_for_context context o = true →
      accounted context (ps_must_reconcile_root s) (intents_of (ps_intents s)) o →
      pl_intents (plan_finish context limits exceeded (Z.min U64_MAX (zlen observations)) s) ≠ []) as Hne.
    { intros o Ho Ha Hnil. destruct (plan_finish_covers context limits exceeded
        (Z.min U64_MAX (zlen observations)) s o Hm Ha Ho) as [(i & Hin & _)|(pl & Hpl & Hcov)];
        rewrite Hnil in *; [by apply elem_of_nil in Hin|].
      apply changed_places_ne in Hpl. destruct pl as [|p pl]; [done|].
      destruct (Hcov p) as (i & Hin & _); [by left|]. by apply elem_of_nil in Hin. }
    rewrite plan_finish_freshness in Hf.
    apply project_freshness_synchronized in Hf as (Hav & Hh & Hex & Hnil).
    split_and!; [done|done|by apply Z.ltb_ge in Hex|]. apply Forall_forall. intros o Ho.
    destruct (is_for_context context o) eqn:Ec; [|done]. exfalso. apply (Hne o Ec); [|done].
    rewrite Forall_forall in Hacc. apply Hacc. unfold os. rewrite Hex. simpl. by rewrite sort_by_perm.
  - intros (Hav & Hh & Hlen & Hall).
    assert (exceeded = false) as Hex by by apply Z.ltb_ge.
    erewrite plan_finish_without; [|apply (plan_all_foreign context _ os)].
    2: { unfold os. rewrite Hex, Forall_forall in *. intros o Ho. rewrite sort_by_perm in Ho. by apply Hall. }
    rewrite Hex. unfold plan_finish, plan_start. rewrite (bool_decide_eq_true_2 _ Hh). cbn.
    rewrite zlen_nil. destruct (max_intents limits <? 0) eqn:E; [lia|]. cbn. unfold project_freshness.
    rewrite (bool_decide_eq_true_2 _ Hav), (bool_decide_eq_true_2 _ Hh). done.
Qed.

Lemma synchronized_iff_witness :
  pl_freshness sample_plan ≠ Synchronized.
Proof.
  assert (plan_library_changes sample_context sample_observations sample_limits = Ok sample_plan) as H
    by (vm_compute; reflexivity).
  intros Hf. apply (synchronized_iff _ _ _ _ ltac:(vm_compute; discriminate) H) in Hf as (_ & _ & _ & Hf).
  apply Forall_cons in Hf as [Hf _]. vm_compute in Hf. discriminate Hf.
Defined.
