(* ===== verification/NormalPath.v ===== *)
(** * Normal relative paths

    [normalize_relative_path] of [application/directory_synchronization.rs] is the gate every path of
    an observation and of reconciliation evidence passes.  The file characterises it: which paths it
    refuses, that what it returns is a normal path (segments separated by [/], none empty, [.] or
    [..], no separator, drive colon or NUL inside), and that it is idempotent. *)

From S2P Require Import Prelude Text Planning.

Definition normal_segment (w : str) : Prop :=
  w ≠ [] ∧ w ≠ lit "." ∧ w ≠ lit ".." ∧ 0 ∉ w ∧ 47 ∉ w ∧ 92 ∉ w ∧ 58 ∉ w.

Definition normal_path (q : str) : Prop := ∃ ws, Forall normal_segment ws ∧ q = join [47] ws.

(** ** Replacing separators *)

Lemma elem_of_replace_char from to s c :
  c ∈ replace_char from to s ↔ (c ∈ s ∧ c ≠ from) ∨ (c = to ∧ from ∈ s).
Proof.
  unfold replace_char. rewrite list_elem_of_fmap. split.
  - intros (d & -> & Hd). destruct (d =? from) eqn:E.
    + apply Z.eqb_eq in E as ->. by right.
    + apply Z.eqb_neq in E. by left.
  - intros [[Hc Hne]|[-> Hf]].
    + exists c. split; [|done]. by apply Z.eqb_neq in Hne as ->.
    + exists from. by rewrite Z.eqb_refl.
Qed.

Lemma replace_char_id from to s : from ∉ s → replace_char from to s = s.
Proof.
  induction s as [|c s IH]; [done|]. rewrite not_elem_of_cons. intros [Hc Hs]. unfold replace_char.
  rewrite fmap_cons. fold (replace_char from to s). rewrite (IH Hs).
  destruct (c =? from) eqn:E; [|done]. apply Z.eqb_eq in E. congruence.
Qed.

Lemma starts_with_replace s :
  starts_with 47 (replace_char 92 47 s) = true ↔ head s = Some 47 ∨ head s = Some 92.
Proof.
  destruct s as [|c s]; [naive_solver|]. unfold replace_char, starts_with. simpl.
  destruct (c =? 92) eqn:E; [apply Z.eqb_eq in E as ->; naive_solver|].
  apply Z.eqb_neq in E. rewrite Z.eqb_eq. naive_solver.
Qed.

(** ** The segment loop *)

Lemma keep_segments_None ws : keep_segments ws = None ↔ lit ".." ∈ ws.
Proof.
  induction ws as [|w ws IH]; [by rewrite elem_of_nil|]. rewrite elem_of_cons, <- IH. cbn [keep_segments].
  assert (lit ".." ≠ [] ∧ lit ".." ≠ lit ".") as [Hn Hd] by (by vm_compute).
  destruct (bool_decide (w = [])) eqn:E1; [apply bool_decide_eq_true in E1 as ->; cbn [orb]; tauto|].
  destruct (bool_decide (w = lit ".")) eqn:E2;
    [apply bool_decide_eq_true in E2 as ->; cbn [orb]; tauto|]. cbn [orb].
  destruct (bool_decide_reflect (w = lit "..")) as [->|E3]; [by split; [left|]|].
  destruct (keep_segments ws) as [k|]; split; [done| |by right|done].
  by intros [Hw|?].
Qed.

Lemma keep_segments_Some ws kept :
  keep_segments ws = Some kept →
  kept = filter (λ w, w ≠ [] ∧ w ≠ lit ".") ws ∧ lit ".." ∉ ws.
Proof.
  intros H. split; [|intros ?%keep_segments_None; congruence].
  revert kept H. induction ws as [|w ws IH]; intros kept H; [by apply (inj Some) in H as <-|].
  rewrite filter_cons. cbn [keep_segments] in H.
  destruct (bool_decide (w = [])) eqn:E1.
  { apply bool_decide_eq_true in E1. rewrite decide_False by tauto. by apply IH. }
  destruct (bool_decide (w = lit ".")) eqn:E2.
  { apply bool_decide_eq_true in E2. rewrite decide_False by tauto. by apply IH. }
  apply bool_decide_eq_false in E1, E2. rewrite decide_True by done. cbn [orb] in H.
  case_bool_decide; [done|]. destruct (keep_segments ws) as [k|]; [|done].
  apply (inj Some) in H as <-. by rewrite (IH k).
Qed.

Lemma keep_segments_id ws : Forall normal_segment ws → keep_segments ws = Some ws.
Proof.
  induction 1 as [|w ws (H1 & H2 & H3 & _) _ IH]; [done|]. cbn [keep_segments].
  rewrite !bool_decide_eq_false_2 by done. cbn [orb]. by rewrite IH.
Qed.

(** ** Normal paths *)

Lemma elem_of_join_slash ws c : c ∈ join [47] ws → c = 47 ∨ ∃ w, w ∈ ws ∧ c ∈ w.
Proof.
  induction ws as [|w ws IH]; [by rewrite elem_of_nil|]. destruct ws as [|w' ws].
  { intros Hc. right. exists w. split; [by left|done]. }
  rewrite join_cons by done. rewrite !elem_of_app, list_elem_of_singleton.
  intros [Hc|[->|Hc]]; [right; exists w; split; [by left|done]|by left|].
  destruct (IH Hc) as [->|(v & Hv & Hcv)]; [by left|]. right. exists v. split; [by right|done].
Qed.

Lemma normal_path_free q c : normal_path q → c ∈ q → c ≠ 0 ∧ c ≠ 92 ∧ c ≠ 58.
Proof.
  intros (ws & Hws & ->) Hc. apply elem_of_join_slash in Hc as [->|(w & Hw & Hc)]; [done|].
  rewrite Forall_forall in Hws. destruct (Hws w Hw) as (_ & _ & _ & H0 & _ & H92 & H58).
  split_and!; congruence.
Qed.

Lemma split_normal ws : Forall normal_segment ws →
  keep_segments (split_on 47 (join [47] ws)) = Some ws.
Proof.
  intros H. destruct ws as [|w ws]; [done|]. rewrite split_join; [by apply keep_segments_id|done|].
  eapply Forall_impl; [exact H|]. unfold normal_segment. tauto.
Qed.

Lemma normal_path_starts q : normal_path q → starts_with 47 q = false.
Proof.
  intros (ws & Hws & ->). destruct Hws as [|w ws (Hne & _ & _ & _ & Hs & _) _]; [done|].
  destruct w as [|c w]; [done|]. rewrite not_elem_of_cons in Hs.
  assert (starts_with 47 (join [47] ((c :: w) :: ws)) = (c =? 47)) as -> by (by destruct ws).
  apply Z.eqb_neq. naive_solver.
Qed.

Lemma normalize_normal q : normal_path q → normalize_relative_path q = Some q.
Proof.
  intros H. assert (∀ c, c = 0 ∨ c = 92 ∨ c = 58 → c ∉ q) as Hfree.
  { intros c Hc Hin. apply (normal_path_free q c H) in Hin. lia. }
  unfold normalize_relative_path. rewrite replace_char_id by (apply Hfree; lia).
  rewrite (normal_path_starts q H).
  rewrite !(proj2 (contains_false _ _)) by (apply Hfree; lia). cbn [orb].
  destruct H as (ws & Hws & ->). by rewrite split_normal.
Qed.

Lemma normalize_Some_normal p q : normalize_relative_path p = Some q → normal_path q.
Proof.
  unfold normalize_relative_path. destruct (contains 0 p) eqn:E0; [done|].
  destruct (starts_with _ _ || contains 58 _) eqn:E1; [done|]. apply orb_false_iff in E1 as [_ E58].
  destruct (keep_segments _) as [ws|] eqn:Ek; [|done]. intros H. apply (inj Some) in H as <-.
  exists ws. split; [|done]. apply keep_segments_Some in Ek as [-> Hdd].
  rewrite contains_false in E0, E58. apply Forall_forall. intros w [[H1 H2] Hw]%list_elem_of_filter.
  assert (∀ c, c ∉ replace_char 92 47 p → c ∉ w) as Hsub.
  { intros c Hc Hin. apply Hc. eapply elem_of_split; [exact Hin|exact Hw]. }
  split_and!; [done|done|congruence|..].
  - apply Hsub. rewrite elem_of_replace_char. naive_solver.
  - pose proof (split_on_free 47 (replace_char 92 47 p)) as Hf. rewrite Forall_forall in Hf. by apply Hf.
  - apply Hsub. rewrite elem_of_replace_char. naive_solver.
  - by apply Hsub.
Qed.

Lemma normalize_None p :
  normalize_relative_path p = None ↔
  0 ∈ p ∨ 58 ∈ p ∨ head p = Some 47 ∨ head p = Some 92 ∨ lit ".." ∈ split_on 47 (replace_char 92 47 p).
Proof.
  unfold normalize_relative_path. rewrite <- keep_segments_None.
  assert (58 ∈ replace_char 92 47 p ↔ 58 ∈ p) as H58 by (rewrite elem_of_replace_char; naive_solver).
  destruct (contains 0 p) eqn:E0; [apply contains_true in E0; naive_solver|].
  apply contains_false in E0.
  destruct (starts_with 47 (replace_char 92 47 p)) eqn:Es.
  { apply starts_with_replace in Es. naive_solver. }
  assert (¬ (head p = Some 47 ∨ head p = Some 92)) by (rewrite <- starts_with_replace; congruence).
  destruct (contains 58 _) eqn:E58; [apply contains_true in E58; naive_solver|].
  apply contains_false in E58. cbn [orb]. destruct (keep_segments _); csimpl; naive_solver.
Qed.

(** Path normalization refuses exactly the paths with a NUL or a colon, the ones that begin with
    a separator and the ones with a [..] component; what it returns is a normal path, and the normal
    paths are exactly its fixed points, so normalizing twice is normalizing once. *)
Theorem normalize_relative_path_spec p :
  (normalize_relative_path p = None ↔
     0 ∈ p ∨ 58 ∈ p ∨ head p = Some 47 ∨ head p = Some 92
     ∨ lit ".." ∈ split_on 47 (replace_char 92 47 p)) ∧
  (normalize_relative_path p = Some p ↔ normal_path p) ∧
  (∀ q, normalize_relative_path p = Some q → normal_path q ∧ normalize_relative_path q = Some q).
Proof.
  split_and!.
  - apply normalize_None.
  - split; [apply normalize_Some_normal|apply normalize_normal].
  - intros q H. apply normalize_Some_normal in H. split; [done|by apply normalize_normal].
Qed.

(** A mixed-separator path and two refused ones. *)
Example normalize_examples :
  normalize_relative_path (lit "a\.\b//c/") = Some (lit "a/b/c") ∧
  normalize_relative_path (lit "a/../b") = None ∧ normalize_relative_path (lit "c:/x") = None.
Proof. vm_compute. auto. Qed.
