(* ===== verification/Reconcile.v ===== *)
(** * Reconciliation of one path

    Models [reconcile_path_evidence] of [application/directory_synchronization.rs] and the functions it
    calls: the evidence the catalog holds about a file is compared with what the file system shows now,
    and the decision says what happened to the file and what becomes of the data derived from it. *)

From S2P Require Import Prelude Text LibraryChange Planning NormalPath.

#[export] Instance IncrementalReconciliationOutcome_eq_dec :
  EqDecision IncrementalReconciliationOutcome.
Proof. solve_decision. Defined.

Definition preserved_decision (outcome : IncrementalReconciliationOutcome) (issue_code : string)
    : IncrementalReconciliationDecision :=
  {| de_outcome := outcome;
     de_evidence_disposition := PreserveLastTrustworthy;
     de_current := None;
     de_issue_code := Some issue_code |}.

Definition invalid_file_identity (identity : FileIdentityEvidence) : bool :=
  is_empty (trim (fi_scheme identity)) || is_empty (trim (fi_value identity))
  || contains 0 (fi_scheme identity) || contains 0 (fi_value identity).

(** [identity.as_ref().is_some_and(invalid_file_identity)] *)
Definition has_invalid_identity (evidence : ReconciliationFileEvidence) : bool :=
  match ev_file_identity evidence with
  | Some identity => invalid_file_identity identity
  | None => false
  end.

Definition is_some {A : Type} (o : option A) : bool := match o with Some _ => true | None => false end.

Definition with_relative_path (e : ReconciliationFileEvidence) (path : str)
    : ReconciliationFileEvidence :=
  {| ev_relative_path := path;
     ev_file_size := ev_file_size e;
     ev_modified_unix_ms := ev_modified_unix_ms e;
     ev_file_identity := ev_file_identity e;
     ev_source_revision := ev_source_revision e;
     ev_source_generation := ev_source_generation e |}.

Definition with_source_generation (e : ReconciliationFileEvidence) (generation : Z)
    : ReconciliationFileEvidence :=
  {| ev_relative_path := ev_relative_path e;
     ev_file_size := ev_file_size e;
     ev_modified_unix_ms := ev_modified_unix_ms e;
     ev_file_identity := ev_file_identity e;
     ev_source_revision := ev_source_revision e;
     ev_source_generation := generation |}.

(** The local booleans of [reconcile_present_path]. *)
Definition has_same_known_revision (prior current : ReconciliationFileEvidence) : bool :=
  is_some (ev_source_revision prior)
  && bool_decide (ev_source_revision prior = ev_source_revision current).

Definition is_same_state (prior current : ReconciliationFileEvidence) : bool :=
  (ev_file_size prior =? ev_file_size current)
  && (ev_modified_unix_ms prior =? ev_modified_unix_ms current)
  && has_same_known_revision prior current.

Definition has_matching_identity (prior current : ReconciliationFileEvidence) : bool :=
  is_some (ev_file_identity prior) && bool_decide (ev_file_identity prior = ev_file_identity current).

Definition has_conflicting_identity (prior current : ReconciliationFileEvidence) : bool :=
  is_some (ev_file_identity prior) && is_some (ev_file_identity current)
  && negb (bool_decide (ev_file_identity prior = ev_file_identity current)).

(** The [if] chain that classifies a present path with a prior. *)
Definition classify_present (matching conflicting same_path same_state : bool)
    : IncrementalReconciliationOutcome * DerivedEvidenceDisposition :=
  if matching && negb same_path
  then (OutRenamedOrMoved, if same_state then RetainCompatible else InvalidateDerived)
  else if matching && same_state then (OutUnchanged, RetainCompatible)
  else if matching then (OutModified, InvalidateDerived)
  else if same_path && conflicting then (OutReplaced, NoReusableEvidence)
  else if same_path && same_state then (OutUnchanged, RetainCompatible)
  else if same_path then (OutReplaced, NoReusableEvidence)
  else (OutAdded, NoReusableEvidence).

Definition reconcile_present_path (prior : option ReconciliationFileEvidence)
    (current : ReconciliationFileEvidence) : IncrementalReconciliationDecision :=
  match normalize_nonempty_relative_path (ev_relative_path current) with
  | None => preserved_decision OutTerminalIssue "current_relative_path_invalid"
  | Some current_relative_path =>
    let current := with_relative_path current current_relative_path in
    if has_invalid_identity current
    then preserved_decision OutTerminalIssue "current_file_identity_invalid"
    else
      match prior with
      | None =>
        {| de_outcome := OutAdded;
           de_evidence_disposition := NoReusableEvidence;
           de_current := Some current;
           de_issue_code := None |}
      | Some prior =>
        match normalize_nonempty_relative_path (ev_relative_path prior) with
        | None => preserved_decision OutTerminalIssue "prior_relative_path_invalid"
        | Some prior_relative_path =>
          if has_invalid_identity prior
          then preserved_decision OutTerminalIssue "prior_file_identity_invalid"
          else
            let is_same_path := bool_decide (prior_relative_path = ev_relative_path current) in
            if is_same_path && is_some (ev_file_identity prior)
               && negb (is_some (ev_file_identity current))
            then preserved_decision OutRetryableFailure "current_file_identity_unavailable"
            else
              let '(outcome, evidence_disposition) :=
                classify_present (has_matching_identity prior current)
                  (has_conflicting_identity prior current) is_same_path
                  (is_same_state prior current) in
              {| de_outcome := outcome;
                 de_evidence_disposition := evidence_disposition;
                 de_current :=
                   Some (with_source_generation current
                     (if bool_decide (evidence_disposition = RetainCompatible)
                      then ev_source_generation prior else 0));
                 de_issue_code := None |}
        end
      end
  end.

Definition reconcile_missing_path (prior : option ReconciliationFileEvidence) (relative_path : str)
    (is_authoritative : bool) : IncrementalReconciliationDecision :=
  match normalize_nonempty_relative_path relative_path with
  | None => preserved_decision OutTerminalIssue "missing_relative_path_invalid"
  | Some relative_path =>
    match match prior with
          | Some prior =>
            match normalize_nonempty_relative_path (ev_relative_path prior) with
            | None => Some (preserved_decision OutTerminalIssue "prior_relative_path_invalid")
            | Some prior_relative_path =>
              if negb (bool_decide (prior_relative_path = relative_path))
              then Some (preserved_decision OutTerminalIssue "missing_relative_path_mismatch")
              else None
            end
          | None => None
          end with
    | Some decision => decision
    | None =>
      if negb is_authoritative
      then preserved_decision OutRetryableFailure "path_absence_not_authoritative"
      else if is_some prior
      then {| de_outcome := OutRemoved;
              de_evidence_disposition := RemoveFromCurrentProjection;
              de_current := None;
              de_issue_code := None |}
      else {| de_outcome := OutUnchanged;
              de_evidence_disposition := NoReusableEvidence;
              de_current := None;
              de_issue_code := None |}
    end
  end.

Definition reconcile_path_evidence (prior : option ReconciliationFileEvidence)
    (observed : ReconciliationObservedState) : IncrementalReconciliationDecision :=
  match observed with
  | Present current => reconcile_present_path prior current
  | MissingPath relative_path is_authoritative =>
    reconcile_missing_path prior relative_path is_authoritative
  | ObservedRetryableFailure code => preserved_decision OutRetryableFailure code
  | ObservedTerminalIssue code => preserved_decision OutTerminalIssue code
  | ObservedSkipped code => preserved_decision OutSkipped code
  end.

(** ** What the decisions mean *)

(** Two pieces of evidence show the same stored state of a file: the same size, the same modification
    time, and the same revision, which must be known. *)
Definition same_state (p c : ReconciliationFileEvidence) : Prop :=
  ev_file_size p = ev_file_size c ∧ ev_modified_unix_ms p = ev_modified_unix_ms c ∧
  ∃ r, ev_source_revision p = Some r ∧ ev_source_revision c = Some r.

(** Two pieces of evidence are about one file: they share a file identity, or neither has a known
    conflict and they are at one path (an identity that was known may not have become unknown). *)
Definition same_file (p c : ReconciliationFileEvidence) (path_p path_c : str) : Prop :=
  (∃ i, ev_file_identity p = Some i ∧ ev_file_identity c = Some i) ∨
  (path_p = path_c ∧ ev_file_identity p = None).

(** Evidence the decision procedure accepts: its path normalizes to [path] and its identity is well
    formed. *)
Definition usable (e : ReconciliationFileEvidence) (path : str) : Prop :=
  normalize_nonempty_relative_path (ev_relative_path e) = Some path ∧ has_invalid_identity e = false.

Lemma is_same_state_iff p c : is_same_state p c = true ↔ same_state p c.
Proof.
  unfold is_same_state, has_same_known_revision, same_state.
  rewrite !andb_true_iff, !Z.eqb_eq, bool_decide_eq_true. split.
  - intros ((Hs & Hm) & Hk & Hr). split_and!; [done|done|].
    destruct (ev_source_revision p) as [r|]; [|done]. by exists r.
  - intros (Hs & Hm & r & Hp & Hc). rewrite Hp, Hc. done.
Qed.

Lemma has_matching_identity_iff p c :
  has_matching_identity p c = true ↔ ∃ i, ev_file_identity p = Some i ∧ ev_file_identity c = Some i.
Proof.
  unfold has_matching_identity. rewrite andb_true_iff, bool_decide_eq_true. split.
  - intros [Hs He]. destruct (ev_file_identity p) as [i|]; [|done]. by exists i.
  - intros (i & -> & ->). done.
Qed.

Lemma has_conflicting_identity_iff p c :
  has_conflicting_identity p c = true ↔
  ∃ i j, ev_file_identity p = Some i ∧ ev_file_identity c = Some j ∧ i ≠ j.
Proof.
  unfold has_conflicting_identity. rewrite !andb_true_iff, negb_true_iff, bool_decide_eq_false.
  destruct (ev_file_identity p) as [i|], (ev_file_identity c) as [j|]; naive_solver.
Qed.

(** The classification when both pieces of evidence are usable, as one equation. *)
Lemma reconcile_present_usable p c path_p path_c :
  usable p path_p → usable c path_c →
  reconcile_present_path (Some p) c =
  let c' := with_relative_path c path_c in
  if bool_decide (path_p = path_c) && is_some (ev_file_identity p) && negb (is_some (ev_file_identity c))
  then preserved_decision OutRetryableFailure "current_file_identity_unavailable"
  else
    let r := classify_present (has_matching_identity p c) (has_conflicting_identity p c)
               (bool_decide (path_p = path_c)) (is_same_state p c) in
    {| de_outcome := r.1;
       de_evidence_disposition := r.2;
       de_current := Some (with_source_generation c'
         (if bool_decide (r.2 = RetainCompatible) then ev_source_generation p else 0));
       de_issue_code := None |}.
Proof.
  intros [Hp Hip] [Hc Hic]. unfold reconcile_present_path. rewrite Hc.
  change (has_invalid_identity (with_relative_path c path_c)) with (has_invalid_identity c).
  rewrite Hic, Hp, Hip. cbv zeta. destruct (_ && _ && _); [done|].
  change (has_matching_identity p (with_relative_path c path_c)) with (has_matching_identity p c).
  change (has_conflicting_identity p (with_relative_path c path_c)) with (has_conflicting_identity p c).
  change (is_same_state p (with_relative_path c path_c)) with (is_same_state p c).
  cbn [ev_relative_path with_relative_path]. by destruct (classify_present _ _ _ _).
Qed.

(** A present path that is compared with a prior at all has usable evidence on both sides. *)
Lemma reconcile_present_unpreserved p c :
  de_issue_code (reconcile_present_path (Some p) c) = None →
  ∃ path_p path_c, usable p path_p ∧ usable c path_c.
Proof.
  unfold reconcile_present_path, usable.
  destruct (normalize_nonempty_relative_path (ev_relative_path c)) as [s|]; [|done].
  change (has_invalid_identity (with_relative_path c s)) with (has_invalid_identity c).
  destruct (has_invalid_identity c); [done|].
  destruct (normalize_nonempty_relative_path (ev_relative_path p)) as [q|]; [|done].
  destruct (has_invalid_identity p); [done|]. by eauto 10.
Qed.

Lemma is_some_true {A : Type} (o : option A) : is_some o = true ↔ is_Some o.
Proof. destruct o; naive_solver. Qed.

(** What a decision without an issue code says about a present path. *)
Lemma reconcile_present_current prior c e :
  de_current (reconcile_present_path prior c) = Some e →
  ∃ path g, usable c path ∧ e = with_source_generation (with_relative_path c path) g ∧
    (g = 0 ∨ g = ev_source_generation c ∧ prior = None ∨
     ∃ p, prior = Some p ∧ g = ev_source_generation p ∧
       de_evidence_disposition (reconcile_present_path prior c) = RetainCompatible).
Proof.
  intros H. destruct prior as [p|].
  - destruct (reconcile_present_unpreserved p c) as (pp & pc & Hp & Hc).
    { revert H. unfold reconcile_present_path. repeat case_match; done. }
    rewrite (reconcile_present_usable p c pp pc) in * by done. cbv zeta in H |- *.
    destruct (_ && _ && _); [done|]. cbn [de_current] in H. apply (inj Some) in H as <-.
    eexists pc, _. split; [done|]. split; [done|]. case_bool_decide as Hr; [|by left].
    right. right. exists p. done.
  - unfold reconcile_present_path, usable in *.
    destruct (normalize_nonempty_relative_path _) as [path|]; [|done].
    change (has_invalid_identity (with_relative_path c path)) with (has_invalid_identity c) in *.
    destruct (has_invalid_identity c); [done|]. cbn [de_current] in H. apply (inj Some) in H as <-.
    exists path, (ev_source_generation c). split; [done|]. split; [done|]. auto.
Qed.

Lemma normalize_nonempty_normal p q :
  normalize_nonempty_relative_path p = Some q → normal_path q ∧ q ≠ [].
Proof.
  unfold normalize_nonempty_relative_path. destruct (normalize_relative_path p) as [r|] eqn:E; [|done].
  cbn. destruct r as [|x r]; [done|]. intros [= <-]. split; [|done]. by eapply normalize_Some_normal.
Qed.

Lemma normalize_nonempty_fixed q :
  normal_path q → q ≠ [] → normalize_nonempty_relative_path q = Some q.
Proof.
  intros Hn Hne. unfold normalize_nonempty_relative_path. rewrite normalize_normal by done.
  by destruct q.
Qed.

Lemma classify_present_retains m x sp ss :
  (classify_present m x sp ss).2 = RetainCompatible ↔
  ss = true ∧ (m = true ∨ sp = true ∧ x = false).
Proof. destruct m, x, sp, ss; cbn; intuition discriminate. Qed.

(** C35: derived data of a file is kept exactly when the new evidence is present and usable, shows the
    same stored state (equal size and modification time and an equal, known revision) and is about the
    same file (a shared file identity, or the same path where no identity was known); the kept evidence
    is the observed one at its normalized path with the generation the catalog had. *)
Theorem retain_compatible_iff prior observed :
  de_evidence_disposition (reconcile_path_evidence prior observed) = RetainCompatible ↔
  ∃ p c path_p path_c,
    prior = Some p ∧ observed = Present c ∧ usable p path_p ∧ usable c path_c ∧
    same_state p c ∧ same_file p c path_p path_c ∧
    de_current (reconcile_path_evidence prior observed) =
      Some (with_source_generation (with_relative_path c path_c) (ev_source_generation p)).
Proof.
  split.
  - destruct observed as [c|r []| | |]; try done; cbn [reconcile_path_evidence].
    2,3: unfold reconcile_missing_path; repeat case_match; simplify_eq; done.
    destruct prior as [p|]; [|unfold reconcile_present_path; repeat case_match; done].
    intros H. destruct (reconcile_present_unpreserved p c) as (pp & pc & Hp & Hc).
    { revert H. unfold reconcile_present_path. repeat case_match; done. }
    rewrite (reconcile_present_usable p c pp pc) in * by done. cbv zeta in *.
    destruct (_ && _ && _) eqn:Eu; [done|]. cbn [de_evidence_disposition de_current] in *.
    exists p, c, pp, pc. rewrite H. split_and!; try done.
    + apply classify_present_retains in H as [H _]. by apply is_same_state_iff.
    + apply classify_present_retains in H as [_ [H|[Hsp Hx]]].
      { left. by apply has_matching_identity_iff. }
      rewrite Hsp in Eu. apply bool_decide_eq_true in Hsp. unfold same_file.
      destruct (ev_file_identity p) as [i|] eqn:Ei; [|by right].
      destruct (ev_file_identity c) as [j|] eqn:Ej; [|done]. left. exists i. split; [done|].
      destruct (decide (i = j)) as [->|Hij]; [done|]. exfalso.
      assert (has_conflicting_identity p c = true); [|congruence].
      apply has_conflicting_identity_iff. eauto.
  - intros (p & c & pp & pc & -> & -> & Hp & Hc & Hs & Hf & _). cbn [reconcile_path_evidence].
    rewrite (reconcile_present_usable p c pp pc) by done. cbv zeta.
    apply is_same_state_iff in Hs. rewrite Hs.
    destruct Hf as [(i & Hi & Hj)|[-> Hn]].
    + rewrite (proj2 (has_matching_identity_iff p c)) by eauto. rewrite Hi, Hj. cbn [is_some negb].
      rewrite andb_false_r. by destruct (bool_decide (pp = pc)).
    + rewrite bool_decide_eq_true_2 by done. unfold has_matching_identity, has_conflicting_identity.
      by rewrite Hn.
Qed.

(** C36: a file leaves the catalog only through an authoritative report that exactly its path is
    absent; in particular an unconfirmed absence and an absence reported for another path remove
    nothing. *)
Theorem removed_iff prior observed :
  let d := reconcile_path_evidence prior observed in
  (de_outcome d = OutRemoved ↔
     ∃ p path reported, prior = Some p ∧ observed = MissingPath reported true ∧
       normalize_nonempty_relative_path reported = Some path ∧
       normalize_nonempty_relative_path (ev_relative_path p) = Some path) ∧
  (de_evidence_disposition d = RemoveFromCurrentProjection ↔ de_outcome d = OutRemoved).
Proof.
  cbv zeta. destruct observed as [c|r a|code|code|code]; cbn [reconcile_path_evidence].
  3-5: split; split; try done; intros (? & ? & ? & ? & ? & _); done.
  - assert (∀ o, o = reconcile_present_path prior c →
      de_outcome o ≠ OutRemoved ∧ de_evidence_disposition o ≠ RemoveFromCurrentProjection) as Hne.
    { intros o ->. unfold reconcile_present_path, classify_present. repeat case_match; simplify_eq; done. }
    destruct (Hne _ eq_refl) as [H1 H2]. split; [|tauto].
    split; [tauto|]. intros (? & ? & ? & _ & ? & _). done.
  - unfold reconcile_missing_path. split.
    + split.
      * destruct (normalize_nonempty_relative_path r) as [q|] eqn:Er; [|done].
        destruct prior as [p|]; [|by destruct a].
        destruct (normalize_nonempty_relative_path (ev_relative_path p)) as [q'|] eqn:Ep; [|done].
        destruct (bool_decide_reflect (q' = q)) as [->|]; [|done].
        destruct a; [|done]. intros _. eauto 10.
      * intros (p & path & r' & -> & [= -> ->] & -> & ->). by rewrite bool_decide_eq_true_2.
    + destruct prior as [p|]; repeat case_match; simplify_eq; done.
Qed.

(** Every decision is consistent.  An issue code, the disposition that preserves the last
    trustworthy data and one of the three failure outcomes come together, and such a decision carries
    no new evidence; evidence a decision does carry is what was observed, at a normal nonempty path,
    and its generation is the catalog's only when data is retained: otherwise it is zero or, for a
    file the catalog did not have, the observation's own. *)
Theorem decision_consistent prior observed :
  let d := reconcile_path_evidence prior observed in
  (de_issue_code d ≠ None ↔ de_evidence_disposition d = PreserveLastTrustworthy) ∧
  (de_issue_code d ≠ None ↔ de_outcome d ∈ [OutSkipped; OutRetryableFailure; OutTerminalIssue]) ∧
  (de_issue_code d ≠ None → de_current d = None) ∧
  (∀ e, de_current d = Some e → ∃ c,
     observed = Present c ∧ normal_path (ev_relative_path e) ∧ ev_relative_path e ≠ [] ∧
     ev_file_size e = ev_file_size c ∧ ev_modified_unix_ms e = ev_modified_unix_ms c ∧
     ev_file_identity e = ev_file_identity c ∧ ev_source_revision e = ev_source_revision c ∧
     (ev_source_generation e = 0 ∨ ev_source_generation e = ev_source_generation c ∧ prior = None ∨
      ∃ p, prior = Some p ∧ ev_source_generation e = ev_source_generation p ∧
        de_evidence_disposition d = RetainCompatible)).
Proof.
  cbv zeta. assert (∀ d, d = reconcile_path_evidence prior observed →
    (de_issue_code d ≠ None ∧ de_evidence_disposition d = PreserveLastTrustworthy ∧
     de_outcome d ∈ [OutSkipped; OutRetryableFailure; OutTerminalIssue] ∧ de_current d = None) ∨
    (de_issue_code d = None ∧ de_evidence_disposition d ≠ PreserveLastTrustworthy ∧
     de_outcome d ∉ [OutSkipped; OutRetryableFailure; OutTerminalIssue])) as Hd.
  { intros d ->. destruct observed; cbn [reconcile_path_evidence];
      unfold reconcile_present_path, reconcile_missing_path, classify_present;
      repeat case_match; simplify_eq;
      (by left; split_and!; [discriminate|done|apply (bool_decide_unpack _); vm_compute; exact I|done])
      || (right; split_and!; [done|discriminate|apply (bool_decide_unpack _); vm_compute; exact I]). }
  destruct (Hd _ eq_refl) as [(H1 & H2 & H3 & H4)|(H1 & H2 & H3)].
  - split_and!; [tauto|tauto|tauto|]. intros e He. congruence.
  - split_and!; [tauto|tauto|tauto|]. intros e He.
    destruct observed as [c|r a| | |]; try done; cbn [reconcile_path_evidence] in *.
    2: { revert He. unfold reconcile_missing_path. repeat case_match; simplify_eq; done. }
    apply reconcile_present_current in He as (path & g & [Hpath _] & -> & Hg).
    exists c. apply normalize_nonempty_normal in Hpath as [Hn Hne].
    split_and!; try done.
Qed.

(** Reconciliation converges.  Once a decision has been published, observing the same file again
    changes nothing: if its revision is known, the evidence the decision carries reconciles with itself
    as unchanged, keeps its derived data and its generation, and is reproduced exactly. *)
Theorem reconcile_converges prior observed e :
  de_current (reconcile_path_evidence prior observed) = Some e → ev_source_revision e ≠ None →
  reconcile_path_evidence (Some e) (Present e) =
  {| de_outcome := OutUnchanged;
     de_evidence_disposition := RetainCompatible;
     de_current := Some e;
     de_issue_code := None |}.
Proof.
  intros He Hr. destruct observed as [c|r a| | |]; try done; cbn [reconcile_path_evidence] in *.
  2: { revert He. unfold reconcile_missing_path. repeat case_match; simplify_eq; done. }
  apply reconcile_present_current in He as (path & g & [Hpath Hid] & -> & _).
  apply normalize_nonempty_normal in Hpath as [Hn Hne].
  set (e := with_source_generation _ _) in *.
  assert (usable e path) as Hu by (split; [by apply normalize_nonempty_fixed|done]).
  rewrite (reconcile_present_usable e e path path) by done. cbv zeta.
  assert (is_same_state e e = true) as ->.
  { apply is_same_state_iff. destruct (ev_source_revision e) as [v|] eqn:E; [|done]. split_and!; eauto. }
  rewrite bool_decide_eq_true_2 by done. unfold has_matching_identity, has_conflicting_identity.
  rewrite bool_decide_eq_true_2 by done. destruct (ev_file_identity e); done.
Qed.

Definition sample_evidence : ReconciliationFileEvidence :=
  {| ev_relative_path := lit "photos\2024/a.jpg";
     ev_file_size := 10;
     ev_modified_unix_ms := 1700000000000;
     ev_file_identity := Some {| fi_scheme := lit "ntfs"; fi_value := lit "42" |};
     ev_source_revision := Some {| rev_scheme := lit "ntfs_change_time"; rev_value := lit "7" |};
     ev_source_generation := 0 |}.

Lemma reconcile_converges_witness :
  let e := with_relative_path sample_evidence (lit "photos/2024/a.jpg") in
  de_evidence_disposition (reconcile_path_evidence (Some e) (Present e)) = RetainCompatible.
Proof.
  cbv zeta. erewrite (reconcile_converges None (Present sample_evidence)); [reflexivity| |discriminate].
  vm_compute. reflexivity.
Defined.
