(* ===== verification/Numerals.v ===== *)
(** * Decimal and hexadecimal text

    [to_string] and [str::parse] of [u64] and [i64], the [{:02x}] and [{:016x}] formats, and
    [u8::from_str_radix(_, 16)], as the persistent journal uses them. *)

From S2P Require Import Prelude Text.

#[local] Ltac Zify.zify_post_hook ::= Z.div_mod_to_equations.

(** The decimal digits of [n]; [fuel] bounds their number. *)
Fixpoint digits (fuel : nat) (n : Z) : str :=
  match fuel with
  | O => []
  | S fuel => if n <? 10 then [48 + n] else digits fuel (n / 10) ++ [48 + n mod 10]
  end.

(** [u64::to_string]: the largest value has 20 digits. *)
Definition show_uint (n : Z) : str := digits 20 n.

(** [i64::to_string] *)
Definition show_int (n : Z) : str := if n <? 0 then 45 :: show_uint (- n) else show_uint n.

Fixpoint parse_digits (acc : Z) (s : str) : option Z :=
  match s with
  | [] => Some acc
  | c :: s => if in_range 48 57 c then parse_digits (10 * acc + (c - 48)) s else None
  end.

(** The digits after an optional sign: at least one is required. *)
Definition parse_magnitude (s : str) : option Z :=
  if is_empty s then None else parse_digits 0 s.

(** [str::parse::<u64>] *)
Definition parse_u64 (s : str) : option Z :=
  v ← parse_magnitude (match s with 43 :: r => r | _ => s end);
  if v <=? U64_MAX then Some v else None.

(** [str::parse::<i64>] *)
Definition parse_i64 (s : str) : option Z :=
  match s with
  | 45 :: r => v ← parse_magnitude r; if v <=? 2 ^ 63 then Some (- v) else None
  | _ =>
    v ← parse_magnitude (match s with 43 :: r => r | _ => s end);
    if v <? 2 ^ 63 then Some v else None
  end.

Definition hex_digit (d : Z) : Z := if d <? 10 then 48 + d else 87 + d.

(** [{:02x}] of a [u8] *)
Definition hex02 (b : Z) : str := [hex_digit (b / 16); hex_digit (b mod 16)].

(** The low [n] hexadecimal digits; [{:016x}] of a [u64] is [hex_padded 16]. *)
Fixpoint hex_padded (n : nat) (z : Z) : str :=
  match n with
  | O => []
  | S n => hex_padded n (z / 16) ++ [hex_digit (z mod 16)]
  end.

(** [char::to_digit(16)] *)
Definition hex_value (c : Z) : option Z :=
  if in_range 48 57 c then Some (c - 48)
  else if in_range 97 102 c then Some (c - 87)
  else if in_range 65 70 c then Some (c - 55)
  else None.

Fixpoint parse_hex (acc : Z) (s : str) : option Z :=
  match s with
  | [] => Some acc
  | c :: s => d ← hex_value c; parse_hex (16 * acc + d) s
  end.

(** [u8::from_str_radix(_, 16)] *)
Definition from_str_radix_16 (s : str) : option Z :=
  let r := match s with 43 :: r => r | _ => s end in
  if is_empty r then None
  else v ← parse_hex 0 r; if v <? 256 then Some v else None.

(** ** Decimal text *)

Definition is_digit (c : Z) : Prop := 48 ≤ c ≤ 57.

Lemma digits_spec fuel n :
  0 ≤ n < 10 ^ Z.of_nat fuel → (0 < fuel)%nat →
  Forall is_digit (digits fuel n) ∧ digits fuel n ≠ [].
Proof.
  revert n. induction fuel as [|fuel IH]; intros n Hn Hf; [lia|]. cbn [digits].
  destruct (Z.ltb_spec n 10) as [Hs|Hs].
  { split; [|done]. constructor; [unfold is_digit; lia|constructor]. }
  destruct (decide (fuel = O)) as [->|Hne]; [change (10 ^ Z.of_nat 1) with 10 in Hn; lia|].
  rewrite Nat2Z.inj_succ, Z.pow_succ_r in Hn by lia.
  destruct (IH (n / 10)) as [Hall _]; [|lia|].
  { split; [apply Z.div_pos; lia|apply Z.div_lt_upper_bound; lia]. }
  split; [|by destruct (digits fuel (n / 10))].
  apply Forall_app. split; [done|]. constructor; [unfold is_digit; lia|constructor].
Qed.

Lemma parse_digits_app acc s t :
  parse_digits acc (s ++ t) = (v ← parse_digits acc s; parse_digits v t).
Proof. revert acc. induction s as [|c s IH]; intros acc; [done|]. simpl. by destruct (in_range 48 57 c). Qed.

Lemma parse_digits_digits fuel n :
  0 ≤ n < 10 ^ Z.of_nat fuel → (0 < fuel)%nat → parse_digits 0 (digits fuel n) = Some n.
Proof.
  revert n. induction fuel as [|fuel IH]; intros n Hn Hf; [lia|]. cbn [digits].
  destruct (Z.ltb_spec n 10) as [Hs|Hs].
  { cbn [parse_digits]. rewrite (proj2 (in_range_true _ _ _)) by lia. f_equal. lia. }
  destruct (decide (fuel = O)) as [->|Hne]; [change (10 ^ Z.of_nat 1) with 10 in Hn; lia|].
  rewrite Nat2Z.inj_succ, Z.pow_succ_r in Hn by lia. rewrite parse_digits_app, IH; [|split| lia].
  - cbn [mbind option_bind parse_digits]. rewrite (proj2 (in_range_true _ _ _)) by lia. f_equal. lia.
  - apply Z.div_pos; lia.
  - apply Z.div_lt_upper_bound; lia.
Qed.

Lemma parse_digits_nonneg acc s v : 0 ≤ acc → parse_digits acc s = Some v → 0 ≤ v.
Proof.
  revert acc. induction s as [|c s IH]; intros acc Ha H; simpl in H; [congruence|].
  destruct (in_range 48 57 c) eqn:E; [|done]. apply in_range_true in E. eapply IH; [|exact H]. lia.
Qed.

Lemma show_uint_spec n : 0 ≤ n < 10 ^ 20 →
  Forall is_digit (show_uint n) ∧ show_uint n ≠ [] ∧ parse_digits 0 (show_uint n) = Some n.
Proof.
  intros Hn. destruct (digits_spec 20 n) as [H1 H2]; [done|lia|].
  split; [done|]. split; [done|]. apply (parse_digits_digits 20 n); [done|lia].
Qed.

Lemma parse_magnitude_show n : 0 ≤ n < 10 ^ 20 → parse_magnitude (show_uint n) = Some n.
Proof.
  intros Hn. destruct (show_uint_spec n Hn) as (_ & Hne & Hp). unfold parse_magnitude.
  by destruct (show_uint n).
Qed.

(** A decimal text starts with a digit, so it has no sign to strip. *)
Lemma digit_no_sign s : Forall is_digit s →
  match s with 43 :: r => r | _ => s end = s ∧ head s ≠ Some 45.
Proof.
  destruct 1 as [|c s Hc _]; [done|]. unfold is_digit in Hc. split; [|simpl; intros [=]; lia].
  repeat case_match; try done; lia.
Qed.

Lemma parse_u64_Some v n : parse_u64 v = Some n → is_u64 n.
Proof.
  unfold parse_u64, parse_magnitude. intros (m & Hm & H)%bind_Some.
  destruct (is_empty _); [done|]. apply parse_digits_nonneg in Hm; [|done].
  destruct (m <=? U64_MAX) eqn:E; [|done]. simplify_eq. unfold is_uint. unfold U64_MAX in E. lia.
Qed.

Lemma parse_i64_Some v n : parse_i64 v = Some n → is_i64 n.
Proof.
  assert (∀ s m, parse_magnitude s = Some m → 0 ≤ m) as Hmag.
  { intros s m. unfold parse_magnitude. destruct (is_empty s); [done|]. by apply parse_digits_nonneg. }
  intros H. assert (∃ m, 0 ≤ m ∧ (n = - m ∧ m ≤ 2 ^ 63 ∨ n = m ∧ m < 2 ^ 63)) as (m & Hm & Hn).
  { unfold parse_i64 in H. destruct v as [|c r]; [done|].
    destruct (decide (c = 45)) as [->|Hc].
    - apply bind_Some in H as (m & Hm & H). exists m. apply Hmag in Hm. split; [done|]. left.
      destruct (m <=? 2 ^ 63) eqn:E; [|done]. simplify_eq. lia.
    - assert (∃ w, (v ← parse_magnitude w; if v <? 2 ^ 63 then Some v else None) = Some n) as (w & Hw).
      { revert H. repeat case_match; try done; eauto. }
      apply bind_Some in Hw as (m & Hm & Hw). exists m. apply Hmag in Hm. split; [done|]. right.
      destruct (m <? 2 ^ 63) eqn:E; [|done]. simplify_eq. lia. }
  change (2 ^ 63) with 9223372036854775808 in Hn. unfold is_sint.
  change (2 ^ (64 - 1)) with 9223372036854775808. lia.
Qed.

Lemma parse_u64_show n : is_u64 n → parse_u64 (show_uint n) = Some n.
Proof.
  unfold is_uint. change (2 ^ 64) with 18446744073709551616. intros Hn.
  destruct (show_uint_spec n) as (Hd & Hne & Hp); [lia|]. unfold parse_u64.
  rewrite (proj1 (digit_no_sign _ Hd)), parse_magnitude_show by lia. cbn [mbind option_bind].
  rewrite (proj2 (Z.leb_le n U64_MAX)); [done|]. unfold U64_MAX. lia.
Qed.

Lemma parse_i64_digits s : Forall is_digit s →
  parse_i64 s = (v ← parse_magnitude s; if v <? 2 ^ 63 then Some v else None).
Proof.
  intros Hd. destruct (digit_no_sign s Hd) as [H1 H2]. unfold parse_i64. rewrite H1.
  destruct s as [|c s]; [done|]. destruct (decide (c = 45)) as [->|Hc]; [done|].
  repeat case_match; try done; congruence.
Qed.

Lemma parse_i64_show n : is_i64 n → parse_i64 (show_int n) = Some n.
Proof.
  unfold is_sint. change (2 ^ (64 - 1)) with 9223372036854775808. intros Hn. unfold show_int.
  destruct (Z.ltb_spec n 0) as [Hneg|Hpos].
  - unfold parse_i64. rewrite parse_magnitude_show by lia. cbn [mbind option_bind].
    change (2 ^ 63) with 9223372036854775808. rewrite (proj2 (Z.leb_le _ _)) by lia. f_equal. lia.
  - rewrite parse_i64_digits by (apply show_uint_spec; lia).
    rewrite parse_magnitude_show by lia. cbn [mbind option_bind].
    change (2 ^ 63) with 9223372036854775808. by rewrite (proj2 (Z.ltb_lt _ _)) by lia.
Qed.

(** ** Canonical decimal text

    [parse_canonical_u64] and [parse_canonical_i64] of [domain/persistent_journal.rs]. *)

Definition parse_canonical_u64 (value : str) : option Z :=
  parsed ← parse_u64 value; if bool_decide (show_uint parsed = value) then Some parsed else None.

Definition parse_canonical_i64 (value : str) : option Z :=
  parsed ← parse_i64 value; if bool_decide (show_int parsed = value) then Some parsed else None.

Lemma parse_canonical_u64_Some value n :
  parse_canonical_u64 value = Some n ↔ is_u64 n ∧ show_uint n = value.
Proof.
  unfold parse_canonical_u64. split.
  - intros (m & Hm & H)%bind_Some. case_bool_decide; simplify_eq. by apply parse_u64_Some in Hm.
  - intros [Hn <-]. rewrite parse_u64_show by done. cbn [mbind option_bind].
    by rewrite bool_decide_eq_true_2.
Qed.

Lemma parse_canonical_i64_Some value n :
  parse_canonical_i64 value = Some n ↔ is_i64 n ∧ show_int n = value.
Proof.
  unfold parse_canonical_i64. split.
  - intros (m & Hm & H)%bind_Some. case_bool_decide; simplify_eq. by apply parse_i64_Some in Hm.
  - intros [Hn <-]. rewrite parse_i64_show by done. cbn [mbind option_bind].
    by rewrite bool_decide_eq_true_2.
Qed.

Lemma show_uint_inj m n : is_u64 m → is_u64 n → show_uint m = show_uint n → m = n.
Proof. intros Hm Hn H. apply parse_u64_show in Hm, Hn. congruence. Qed.
Lemma show_int_inj m n : is_i64 m → is_i64 n → show_int m = show_int n → m = n.
Proof. intros Hm Hn H. apply parse_i64_show in Hm, Hn. congruence. Qed.

(** Decimal text holds digits and a sign only. *)
Lemma elem_of_show_uint c n : is_u64 n → c ∈ show_uint n → 48 ≤ c ≤ 57.
Proof.
  unfold is_uint. change (2 ^ 64) with 18446744073709551616. intros Hn Hc.
  destruct (show_uint_spec n) as (Hd & _); [lia|]. rewrite Forall_forall in Hd. by apply Hd.
Qed.
Lemma elem_of_show_int c n : is_i64 n → c ∈ show_int n → c = 45 ∨ 48 ≤ c ≤ 57.
Proof.
  unfold is_sint. change (2 ^ (64 - 1)) with 9223372036854775808. intros Hn. unfold show_int.
  destruct (Z.ltb_spec n 0).
  - rewrite elem_of_cons. intros [->|Hc]; [by left|]. right. revert Hc. apply elem_of_show_uint.
    unfold is_uint. change (2 ^ 64) with 18446744073709551616. lia.
  - intros Hc. right. revert Hc. apply elem_of_show_uint. unfold is_uint.
    change (2 ^ 64) with 18446744073709551616. lia.
Qed.

(** ** Hexadecimal text *)

(** [byte.is_ascii_hexdigit() && !byte.is_ascii_uppercase()] *)
Definition is_lower_hex (c : Z) : bool := in_range 48 57 c || in_range 97 102 c.

(** [bytes.chunks_exact(2)] *)
Fixpoint chunks_of_2 (b : bytes) : list bytes :=
  match b with
  | x :: y :: b => [x; y] :: chunks_of_2 b
  | _ => []
  end.

Definition hex_text (b : bytes) : str := b ≫= hex02.

Lemma hex_digit_value d : 0 ≤ d < 16 → hex_value (hex_digit d) = Some d ∧ is_lower_hex (hex_digit d) = true.
Proof.
  intros Hd. unfold hex_digit, is_lower_hex, hex_value, in_range.
  destruct (Z.ltb_spec d 10); split; repeat case_match; try f_equal; lia.
Qed.

Lemma hex_value_digit c : is_lower_hex c = true → ∃ d, 0 ≤ d < 16 ∧ hex_value c = Some d ∧ hex_digit d = c.
Proof.
  unfold is_lower_hex, hex_value. destruct (in_range 48 57 c) eqn:E1; intros H.
  - apply in_range_true in E1. exists (c - 48). unfold hex_digit.
    destruct (Z.ltb_spec (c - 48) 10); split_and!; try done; lia.
  - cbn [orb] in H. rewrite H. apply in_range_true in H. exists (c - 87). unfold hex_digit.
    destruct (Z.ltb_spec (c - 87) 10); split_and!; try done; lia.
Qed.

Lemma hex02_value b : is_u8 b → from_str_radix_16 (hex02 b) = Some b ∧ forallb is_lower_hex (hex02 b) = true.
Proof.
  unfold is_uint. change (2 ^ 8) with 256. intros Hb. unfold hex02.
  destruct (hex_digit_value (b / 16)) as [H1 L1]; [lia|].
  destruct (hex_digit_value (b mod 16)) as [H2 L2]; [lia|].
  assert (hex_digit (b / 16) ≠ 43) as Hp.
  { intros E. rewrite E in L1. done. }
  split; [|cbn [forallb]; by rewrite L1, L2]. unfold from_str_radix_16.
  assert (match [hex_digit (b / 16); hex_digit (b mod 16)] with 43 :: r => r
          | _ => [hex_digit (b / 16); hex_digit (b mod 16)] end =
          [hex_digit (b / 16); hex_digit (b mod 16)]) as ->.
  { repeat case_match; done. }
  cbn [is_empty parse_hex]. rewrite H1. cbn [mbind option_bind]. rewrite H2. cbn [mbind option_bind].
  rewrite (proj2 (Z.ltb_lt _ _)) by lia. f_equal. lia.
Qed.

Lemma from_str_radix_hex x y b :
  is_lower_hex x = true → is_lower_hex y = true → from_str_radix_16 [x; y] = Some b →
  is_u8 b ∧ hex02 b = [x; y].
Proof.
  intros Hx Hy. destruct (hex_value_digit x Hx) as (d & Hd & Vx & <-).
  destruct (hex_value_digit y Hy) as (e & He & Vy & <-). intros H.
  assert (b = 16 * d + e) as ->.
  { revert H. unfold from_str_radix_16.
    assert (hex_digit d ≠ 43) by (intros E; rewrite E in Hx; done).
    assert (match [hex_digit d; hex_digit e] with 43 :: r => r | _ => [hex_digit d; hex_digit e] end =
            [hex_digit d; hex_digit e]) as -> by (repeat case_match; done).
    cbn [is_empty parse_hex]. rewrite Vx. cbn [mbind option_bind]. rewrite Vy. cbn [mbind option_bind].
    case_match; [|done]. intros [= <-]. lia. }
  split; [unfold is_uint; change (2 ^ 8) with 256; lia|]. unfold hex02.
  replace ((16 * d + e) / 16) with d by lia. by replace ((16 * d + e) mod 16) with e by lia.
Qed.
