(* ===== verification/JournalText.v ===== *)
(** * Values of the persistent journal and their canonical text

    Models the scalar types of [domain/persistent_journal.rs] ([JournalIdentifier], [JournalUsn],
    [JournalFileReference]), their canonical text and its parsers, and the validation helpers of that
    file.  The catalog stores these values as text, so each text must denote exactly one value. *)

From S2P Require Import Prelude Text Numerals.

#[local] Ltac Zify.zify_post_hook ::= Z.div_mod_to_equations.

(** ** Errors *)

Inductive CatalogReadRetryOperation :=
| SessionValidation | CatalogSnapshot | CatalogSnapshotAroundLocation | CatalogSnapshotAroundAsset
| GalleryTimeline | GalleryLayoutManifest | LibraryFolders | CatalogAssetById
| WatcherGapAuthorityCount | ActiveInventoryRunCount | ActiveWatcherGapAuthority
| IncrementalLocation | CompletedPersistentJournalRange.

Inductive CatalogReadRetryCause := FileLockingProtocolFailed.

Record CatalogReadRetryDetails := {
  retry_operation : CatalogReadRetryOperation;
  retry_attempts : Z;
  retry_elapsed_ms : Z;
  retry_cause : CatalogReadRetryCause;
}.

Record ScanError := {
  se_code : str;
  se_message : str;
  se_retry_details : option CatalogReadRetryDetails;
}.

Definition ScanError_new (code message : string) : ScanError :=
  {| se_code := lit code; se_message := lit message; se_retry_details := None |}.

Definition invalid_value (name : string) : ScanError :=
  ScanError_new "persistent_journal_contract_invalid"
    ("The " ++ name ++ " is outside the lossless persistent journal contract").

Abbreviation ScanResult := (Result ScanError).

(** ** Journal identifiers *)

Record JournalIdentifier := { journal_identifier_value : Z }.

#[export] Instance JournalIdentifier_eq_dec : EqDecision JournalIdentifier.
Proof. solve_decision. Defined.

Definition JournalIdentifier_new (value : Z) : ScanResult JournalIdentifier :=
  if value =? 0 then Err (invalid_value "journal identifier")
  else Ok {| journal_identifier_value := value |}.

Definition JournalIdentifier_to_canonical_text (self : JournalIdentifier) : str :=
  show_uint (journal_identifier_value self).

Definition JournalIdentifier_parse_canonical (value : str) : ScanResult JournalIdentifier :=
  parsed ← ok_or (parse_u64 value) (invalid_value "journal identifier");
  identifier ← JournalIdentifier_new parsed;
  if negb (bool_decide (JournalIdentifier_to_canonical_text identifier = value))
  then Err (invalid_value "journal identifier") else Ok identifier.

(** ** Journal positions *)

Record JournalUsn := { journal_usn_value : Z }.

#[export] Instance JournalUsn_eq_dec : EqDecision JournalUsn.
Proof. solve_decision. Defined.

Definition JournalUsn_new (value : Z) : ScanResult JournalUsn :=
  if value <? 0 then Err (invalid_value "journal USN") else Ok {| journal_usn_value := value |}.

Definition JournalUsn_to_canonical_text (self : JournalUsn) : str := show_int (journal_usn_value self).

Definition JournalUsn_parse_canonical (value : str) : ScanResult JournalUsn :=
  parsed ← ok_or (parse_i64 value) (invalid_value "journal USN");
  usn ← JournalUsn_new parsed;
  if negb (bool_decide (JournalUsn_to_canonical_text usn = value))
  then Err (invalid_value "journal USN") else Ok usn.

(** ** File references *)

Inductive JournalFileReference := RefV2 (reference : bytes) | RefV3 (reference : bytes).

#[export] Instance JournalFileReference_eq_dec : EqDecision JournalFileReference.
Proof. solve_decision. Defined.

Definition JournalFileReference_from_bytes (value : bytes) : ScanResult JournalFileReference :=
  if zlen value =? 8 then Ok (RefV2 value)
  else if zlen value =? 16 then Ok (RefV3 value)
  else Err (invalid_value "journal file reference").

Definition JournalFileReference_as_bytes (self : JournalFileReference) : bytes :=
  match self with RefV2 b | RefV3 b => b end.

Definition JournalFileReference_record_version (self : JournalFileReference) : Z :=
  match self with RefV2 _ => 2 | RefV3 _ => 3 end.

Definition JournalFileReference_to_canonical_text (self : JournalFileReference) : str :=
  match self with
  | RefV2 b => lit "v2" ++ [58] ++ hex_text b
  | RefV3 b => lit "v3" ++ [58] ++ hex_text b
  end.

(** [value.split_once(c)] *)
Fixpoint split_once (c : Z) (s : str) : option (str * str) :=
  match s with
  | [] => None
  | x :: s => if x =? c then Some ([], s) else '(l, r) ← split_once c s; Some (x :: l, r)
  end.

(** The closure of [decode_hex] on one pair of bytes. *)
Definition decode_hex_pair (pair : bytes) : ScanResult Z :=
  encoded ← ok_or (from_utf8 pair) (invalid_value "journal file reference");
  ok_or (from_str_radix_16 encoded) (invalid_value "journal file reference").

(** [iter.map(f).collect::<Result<Vec<_>, _>>()] *)
Fixpoint collect_results {E A B} (f : A → Result E B) (l : list A) : Result E (list B) :=
  match l with
  | [] => Ok []
  | x :: l => y ← f x; ys ← collect_results f l; Ok (y :: ys)
  end.

Definition decode_hex (value : str) : ScanResult bytes :=
  if negb (str_len value mod 2 =? 0) then Err (invalid_value "journal file reference")
  else collect_results decode_hex_pair (chunks_of_2 (as_bytes value)).

Definition JournalFileReference_parse_canonical (value : str) : ScanResult JournalFileReference :=
  '(version, encoded) ← ok_or (split_once 58 value) (invalid_value "journal file reference");
  if negb (forallb is_lower_hex (as_bytes encoded)) then Err (invalid_value "journal file reference")
  else
    bytes ← decode_hex encoded;
    if bool_decide (version = lit "v2") && (zlen bytes =? 8) then JournalFileReference_from_bytes bytes
    else if bool_decide (version = lit "v3") && (zlen bytes =? 16)
    then JournalFileReference_from_bytes bytes
    else Err (invalid_value "journal file reference").

(** ** Validation helpers *)

Definition journal_validate_identifier (value : str) (max_len : Z) (name : string) : ScanResult unit :=
  if is_empty (trim value) || (max_len <? str_len value) || contains 0 value
  then Err (invalid_value name) else Ok ().

Definition validate_canonical_digest (value : str) (name : string) : ScanResult unit :=
  if negb (str_len value =? 64) || existsb (λ byte, negb (is_lower_hex byte)) (as_bytes value)
  then Err (invalid_value name) else Ok ().

Definition journal_validate_relative_path (value : str) : ScanResult unit :=
  if is_empty value || (32767 <? str_len value) || contains 0 value || contains 92 value
     || starts_with 47 value
     || existsb (λ component, is_empty component || bool_decide (component = lit ".")
                              || bool_decide (component = lit "..")) (split_on 47 value)
  then Err (invalid_value "journal relative path") else Ok ().

(** ** Exactness of the canonical texts *)

Definition wf_identifier (i : JournalIdentifier) : Prop :=
  is_u64 (journal_identifier_value i) ∧ journal_identifier_value i ≠ 0.
Definition wf_usn (u : JournalUsn) : Prop := is_i64 (journal_usn_value u) ∧ 0 ≤ journal_usn_value u.
Definition wf_reference (r : JournalFileReference) : Prop :=
  match r with
  | RefV2 b => Forall is_u8 b ∧ zlen b = 8
  | RefV3 b => Forall is_u8 b ∧ zlen b = 16
  end.

Lemma identifier_parse_Ok v i :
  JournalIdentifier_parse_canonical v = Ok i ↔
  wf_identifier i ∧ JournalIdentifier_to_canonical_text i = v.
Proof.
  unfold JournalIdentifier_parse_canonical, JournalIdentifier_new, wf_identifier. split.
  - intros H. simplify_result. destruct (_ =? 0) eqn:E; simplify_result. case_bool_decide; [|done].
    cbn in H. simplify_result.
    match goal with H : parse_u64 _ = _ |- _ => apply parse_u64_Some in H end. cbn. split; [|done].
    split; [done|lia].
  - destruct i as [n]. cbn [journal_identifier_value]. intros [[Hn Hz] <-].
    unfold JournalIdentifier_to_canonical_text. cbn [journal_identifier_value].
    rewrite parse_u64_show by done. cbn [ok_or mbind result_bind].
    rewrite (proj2 (Z.eqb_neq _ _)) by done. cbn [mbind result_bind journal_identifier_value].
    by rewrite bool_decide_eq_true_2.
Qed.

Lemma usn_parse_Ok v u :
  JournalUsn_parse_canonical v = Ok u ↔ wf_usn u ∧ JournalUsn_to_canonical_text u = v.
Proof.
  unfold JournalUsn_parse_canonical, JournalUsn_new, wf_usn. split.
  - intros H. simplify_result. destruct (_ <? 0) eqn:E; simplify_result. case_bool_decide; [|done].
    cbn in H. simplify_result.
    match goal with H : parse_i64 _ = _ |- _ => apply parse_i64_Some in H end. cbn. split; [|done].
    split; [done|lia].
  - destruct u as [n]. cbn [journal_usn_value]. intros [[Hn Hz] <-].
    unfold JournalUsn_to_canonical_text. cbn [journal_usn_value].
    rewrite parse_i64_show by done. cbn [ok_or mbind result_bind].
    rewrite (proj2 (Z.ltb_ge _ _)) by done. cbn [mbind result_bind journal_usn_value].
    by rewrite bool_decide_eq_true_2.
Qed.

(** ASCII text is its own UTF-8 encoding. *)
Definition is_ascii (c : Z) : Prop := 0 ≤ c < 128.

Lemma as_bytes_ascii s : Forall is_ascii s → as_bytes s = s.
Proof.
  induction 1 as [|c s Hc _ IH]; [done|]. rewrite as_bytes_cons, IH. unfold utf8_char, is_ascii in *.
  by rewrite (proj2 (Z.ltb_lt c 128)) by lia.
Qed.

Lemma from_utf8_ascii s : Forall is_ascii s → from_utf8 s = Some s.
Proof.
  intros H. rewrite <-(as_bytes_ascii s H) at 1. apply from_utf8_as_bytes.
  eapply Forall_impl; [exact H|]. unfold is_ascii, is_char. lia.
Qed.

Lemma is_lower_hex_ascii c : is_lower_hex c = true → is_ascii c.
Proof. unfold is_lower_hex, is_ascii, in_range. lia. Qed.

Lemma forallb_Forall {A} (f : A → bool) l : forallb f l = true ↔ Forall (λ x, f x = true) l.
Proof. rewrite forallb_forall, Forall_forall. setoid_rewrite list_elem_of_In. done. Qed.

Lemma lower_hex_bytes s : forallb is_lower_hex (as_bytes s) = true → Forall (λ c, is_lower_hex c = true) s.
Proof.
  induction s as [|c s IH]; [constructor|]. rewrite as_bytes_cons, forallb_app, andb_true_iff.
  intros [Hc Hs]. constructor; [|by apply IH]. revert Hc. unfold utf8_char.
  destruct (Z.ltb_spec c 128); [cbn [forallb]; by rewrite andb_true_r|].
  destruct (Z.ltb_spec c 2048); [|destruct (Z.ltb_spec c 65536)];
    cbn [forallb]; rewrite !andb_true_iff; intros [Hc _]; exfalso; revert Hc;
    unfold is_lower_hex, in_range; pose proof (Z.div_pos c 64 ltac:(lia) ltac:(lia));
    pose proof (Z.div_pos c 4096 ltac:(lia) ltac:(lia));
    pose proof (Z.div_pos c 262144 ltac:(lia) ltac:(lia)); lia.
Qed.

Lemma hex_text_cons b bs : hex_text (b :: bs) = hex02 b ++ hex_text bs.
Proof. done. Qed.

Lemma hex_text_lower b : Forall is_u8 b → Forall (λ c, is_lower_hex c = true) (hex_text b).
Proof.
  induction 1 as [|x b Hx _ IH]; [constructor|]. rewrite hex_text_cons. apply Forall_app. split; [|done].
  apply forallb_Forall. by apply hex02_value.
Qed.

Lemma zlen_hex_text b : zlen (hex_text b) = 2 * zlen b.
Proof. induction b as [|x b IH]; [done|]. rewrite hex_text_cons. unfold hex02. len. Qed.

Lemma lower_hex_as_bytes s : Forall (λ c, is_lower_hex c = true) s → as_bytes s = s.
Proof. intros H. apply as_bytes_ascii. eapply Forall_impl; [exact H|]. apply is_lower_hex_ascii. Qed.

Lemma decode_hex_pair_Ok x y b :
  is_lower_hex x = true → is_lower_hex y = true →
  decode_hex_pair [x; y] = Ok b ↔ is_u8 b ∧ hex02 b = [x; y].
Proof.
  intros Hx Hy. unfold decode_hex_pair.
  rewrite from_utf8_ascii by (repeat constructor; by apply is_lower_hex_ascii).
  cbn [ok_or mbind result_bind]. rewrite ok_or_Ok. split; [by apply from_str_radix_hex|].
  intros [Hb <-]. by apply hex02_value.
Qed.

Lemma collect_pairs s b :
  Forall (λ c, is_lower_hex c = true) s → Nat.even (length s) = true →
  collect_results decode_hex_pair (chunks_of_2 s) = Ok b ↔ Forall is_u8 b ∧ hex_text b = s.
Proof.
  remember (length s) as n eqn:Hn. revert s b Hn.
  induction n as [n IH] using lt_wf_ind. intros s b -> Hs He.
  destruct s as [|x [|y s]]; [| done |].
  { cbn [chunks_of_2 collect_results]. split; [by intros [= <-]|]. intros [_ H].
    destruct b as [|z b]; [done|]. done. }
  rewrite !Forall_cons in Hs. destruct Hs as (Hx & Hy & Hs). cbn [chunks_of_2 collect_results].
  split.
  - intros H. simplify_result.
    match goal with H : decode_hex_pair _ = _ |- _ => apply decode_hex_pair_Ok in H as [Hu Hh]; [|done|done] end.
    match goal with H : collect_results _ _ = _ |- _ =>
      apply (IH (length s)) in H as [Hb Ht]; [|simpl; lia|done|done|exact He] end.
    split; [by constructor|]. by rewrite hex_text_cons, Hh, Ht.
  - intros [Hb Ht]. destruct b as [|z b]; [done|]. apply Forall_cons in Hb as [Hz Hb].
    rewrite hex_text_cons in Ht. unfold hex02 in Ht. cbn [app] in Ht. injection Ht as Hx' Hy' Ht.
    rewrite (proj2 (decode_hex_pair_Ok x y z Hx Hy)) by (split; [done|]; unfold hex02; congruence).
    cbn [mbind result_bind].
    rewrite (proj2 (IH (length s) ltac:(simpl; lia) s b eq_refl Hs He)) by done. done.
Qed.

Lemma decode_hex_Ok s b :
  Forall (λ c, is_lower_hex c = true) s → decode_hex s = Ok b ↔ Forall is_u8 b ∧ hex_text b = s.
Proof.
  intros Hs. unfold decode_hex, str_len. rewrite (lower_hex_as_bytes s Hs).
  destruct (Nat.Even_or_Odd (length s)) as [[k Hk]|[k Hk]].
  - assert (zlen s mod 2 = 0) as -> by (unfold zlen; rewrite Hk; lia). cbn [Z.eqb negb].
    apply collect_pairs; [done|]. rewrite Hk. apply Nat.even_even.
  - assert (zlen s mod 2 = 1) as -> by (unfold zlen; rewrite Hk; lia). cbn [Z.eqb negb].
    split; [done|]. intros [_ Ht]. pose proof (zlen_hex_text b) as Hz. rewrite Ht in Hz.
    unfold zlen in Hz. lia.
Qed.

Lemma split_once_app c l r : c ∉ l → split_once c (l ++ c :: r) = Some (l, r).
Proof.
  induction l as [|x l IH]; [by simpl; rewrite Z.eqb_refl|]. rewrite not_elem_of_cons. intros [Hx Hl].
  simpl. rewrite (proj2 (Z.eqb_neq x c)) by congruence. by rewrite IH.
Qed.

Lemma split_once_Some c s l r : split_once c s = Some (l, r) → s = l ++ c :: r.
Proof.
  revert l. induction s as [|x s IH]; intros l H; [done|]. simpl in H. destruct (Z.eqb_spec x c) as [->|Hne].
  - by simplify_eq.
  - apply bind_Some in H as ([l' r'] & Hs & H). simplify_eq. by rewrite (IH l' Hs).
Qed.

Lemma reference_parse_Ok v r :
  JournalFileReference_parse_canonical v = Ok r ↔
  wf_reference r ∧ JournalFileReference_to_canonical_text r = v.
Proof.
  unfold JournalFileReference_parse_canonical, JournalFileReference_from_bytes. split.
  - intros H. simplify_result. destruct x as [version encoded].
    match goal with H : split_once _ _ = _ |- _ => apply split_once_Some in H as -> end.
    destruct (forallb _ _) eqn:El in H; [|done]. cbn [negb] in H. simplify_result.
    apply lower_hex_bytes in El.
    match goal with H : decode_hex _ = _ |- _ => apply decode_hex_Ok in H as [Hu <-]; [|done] end.
    destruct (bool_decide_reflect (version = lit "v2")) as [->|].
    + destruct (zlen x =? 8) eqn:E8; cbn [andb] in H.
      { simplify_result. apply Z.eqb_eq in E8. done. }
      destruct (bool_decide_reflect (lit "v2" = lit "v3")); done.
    + cbn [andb] in H. destruct (bool_decide_reflect (version = lit "v3")) as [->|]; [|done].
      destruct (zlen x =? 16) eqn:E16; [|done]. cbn [andb] in H. apply Z.eqb_eq in E16. rewrite E16 in H.
      injection H as <-. done.
  - intros [Hr <-].
    assert (∀ b, Forall is_u8 b → forallb is_lower_hex (as_bytes (hex_text b)) = true ∧ decode_hex (hex_text b) = Ok b) as Hb.
    { intros b Hb. pose proof (hex_text_lower b Hb) as Hl. split.
      - rewrite lower_hex_as_bytes by done. by apply forallb_Forall.
      - by apply decode_hex_Ok. }
    destruct r as [b|b]; destruct Hr as [Hu Hz]; destruct (Hb b Hu) as [H1 H2];
      unfold JournalFileReference_to_canonical_text;
      rewrite (split_once_app 58 (lit _) (hex_text b)) by (apply (bool_decide_unpack _); vm_compute; exact I);
      cbn [ok_or mbind result_bind]; rewrite H1, H2; cbn [negb mbind result_bind]; rewrite Hz; done.
Qed.

(** Canonical texts are exact: a stored text parses to a journal identifier, a position or a file
    reference exactly when it is that value's canonical text, so no value has two stored forms and no
    form is read as two values. *)
Theorem canonical_text_exact v :
  (∀ i, JournalIdentifier_parse_canonical v = Ok i ↔
        wf_identifier i ∧ JournalIdentifier_to_canonical_text i = v) ∧
  (∀ u, JournalUsn_parse_canonical v = Ok u ↔ wf_usn u ∧ JournalUsn_to_canonical_text u = v) ∧
  (∀ r, JournalFileReference_parse_canonical v = Ok r ↔
        wf_reference r ∧ JournalFileReference_to_canonical_text r = v).
Proof.
  split_and!; intros; [apply identifier_parse_Ok|apply usn_parse_Ok|apply reference_parse_Ok].
Qed.

(** A leading zero, a sign, an upper-case digit and a wrong width are all refused. *)
Example canonical_text_examples :
  is_ok (JournalIdentifier_parse_canonical (lit "42")) = true ∧
  is_ok (JournalIdentifier_parse_canonical (lit "042")) = false ∧
  is_ok (JournalUsn_parse_canonical (lit "+7")) = false ∧
  is_ok (JournalFileReference_parse_canonical (lit "v2:00000000000000ff")) = true ∧
  is_ok (JournalFileReference_parse_canonical (lit "v2:00000000000000FF")) = false ∧
  is_ok (JournalFileReference_parse_canonical (lit "v3:00000000000000ff")) = false.
Proof. vm_compute. auto 10. Qed.
