(* ===== verification/JournalBatch.v ===== *)
(** * Enrollment batches of the persistent journal

    Models the batch of journal evidence [domain/persistent_journal.rs] stores for a root: its
    types and validation, the canonical payload it is serialized to and identified by, and the reader
    that takes a stored payload apart again. *)

From S2P Require Import Prelude Text LibraryChange Order Numerals JournalText.

Definition PERSISTENT_JOURNAL_CONTRACT_VERSION : Z := 1.
Definition MAX_PERSISTENT_JOURNAL_BATCH_INTENTS : Z := 1024.
Definition MAX_PERSISTENT_JOURNAL_HANDOFFS : Z := 1024.
Definition MAX_PERSISTENT_JOURNAL_PENDING_RENAMES : Z := 1024.

(** ** Data *)

Record PersistentJournalVolumeIdentity := { vol_guid : str; vol_serial : Z }.

#[export] Instance PersistentJournalVolumeIdentity_eq_dec : EqDecision PersistentJournalVolumeIdentity.
Proof. solve_decision. Defined.

Definition PersistentJournalVolumeIdentity_validate (self : PersistentJournalVolumeIdentity)
    : ScanResult unit := journal_validate_identifier (vol_guid self) 512 "volume GUID".

Inductive PersistentJournalRangeState := RangeEnrolled | RangeCheckpointed | RangeSuperseded.

#[export] Instance PersistentJournalRangeState_eq_dec : EqDecision PersistentJournalRangeState.
Proof. solve_decision. Defined.

Record PersistentJournalSourceRange := {
  sr_batch_id : str;
  sr_root_id : str;
  sr_root_generation : LibraryRootGeneration;
  sr_volume : PersistentJournalVolumeIdentity;
  sr_journal_id : JournalIdentifier;
  sr_requested_start_usn : JournalUsn;
  sr_requested_end_usn : JournalUsn;
  sr_covered_until_usn : JournalUsn;
  sr_is_complete : bool;
  sr_protocol_version : Z;
  sr_contract_version : Z;
  sr_state : PersistentJournalRangeState;
  sr_enrolled_unix_ms : Z;
  sr_checkpointed_unix_ms : option Z;
}.

(** [JournalUsn] derives its order from the value. *)
Definition usn_ltb (a b : JournalUsn) : bool := journal_usn_value a <? journal_usn_value b.
Definition usn_leb (a b : JournalUsn) : bool := journal_usn_value a <=? journal_usn_value b.

Definition PersistentJournalSourceRange_validate (self : PersistentJournalSourceRange)
    : ScanResult unit :=
  validate_canonical_digest (sr_batch_id self) "journal batch ID";;
  journal_validate_identifier (sr_root_id self) 256 "root ID";;
  PersistentJournalVolumeIdentity_validate (sr_volume self);;
  fail_if (usn_leb (sr_requested_end_usn self) (sr_requested_start_usn self)
           || usn_leb (sr_covered_until_usn self) (sr_requested_start_usn self)
           || usn_ltb (sr_requested_end_usn self) (sr_covered_until_usn self)
           || negb (Bool.eqb (sr_is_complete self)
                      (bool_decide (sr_covered_until_usn self = sr_requested_end_usn self)))
           || (sr_protocol_version self =? 0)
           || negb (sr_contract_version self =? PERSISTENT_JOURNAL_CONTRACT_VERSION)
           || (sr_enrolled_unix_ms self <? 0)
           || match sr_checkpointed_unix_ms self with Some value => value <? 0 | None => false end
           || negb (Bool.eqb (bool_decide (sr_state self = RangeCheckpointed))
                      (bool_decide (is_Some (sr_checkpointed_unix_ms self)))))
          (invalid_value "persistent journal source range").

Record PersistentJournalPendingRename := {
  pn_carry_id : str;
  pn_source_range_id : str;
  pn_volume : PersistentJournalVolumeIdentity;
  pn_journal_id : JournalIdentifier;
  pn_file_reference : JournalFileReference;
  pn_old_usn : JournalUsn;
  pn_previous_root_id : str;
  pn_previous_root_generation : LibraryRootGeneration;
  pn_previous_relative_path : str;
  pn_is_directory : bool;
  pn_enrolled_unix_ms : Z;
}.

Inductive PersistentJournalLineageState := LineagePending | LineageCompleted | LineageSuperseded.

#[export] Instance PersistentJournalLineageState_eq_dec : EqDecision PersistentJournalLineageState.
Proof. solve_decision. Defined.

Record PersistentJournalCrossRootLineage := {
  ln_lineage_id : str;
  ln_owner_source_range_id : str;
  ln_volume : PersistentJournalVolumeIdentity;
  ln_journal_id : JournalIdentifier;
  ln_file_reference : JournalFileReference;
  ln_old_usn : option JournalUsn;
  ln_new_usn : option JournalUsn;
  ln_previous_carry_id : option str;
  ln_previous_root_id : str;
  ln_previous_root_generation : LibraryRootGeneration;
  ln_previous_relative_path : str;
  ln_current_root_id : str;
  ln_current_root_generation : LibraryRootGeneration;
  ln_current_relative_path : str;
  ln_state : PersistentJournalLineageState;
}.

Definition PersistentJournalCrossRootLineage_validate (self : PersistentJournalCrossRootLineage)
    : ScanResult unit :=
  journal_validate_identifier (ln_lineage_id self) 512 "journal lineage ID";;
  journal_validate_identifier (ln_owner_source_range_id self) 512 "journal lineage source range ID";;
  PersistentJournalVolumeIdentity_validate (ln_volume self);;
  match ln_previous_carry_id self with
  | Some carry_id => validate_canonical_digest carry_id "previous pending rename carry ID"
  | None => Ok ()
  end;;
  journal_validate_identifier (ln_previous_root_id self) 256 "previous root ID";;
  journal_validate_identifier (ln_current_root_id self) 256 "current root ID";;
  journal_validate_relative_path (ln_previous_relative_path self);;
  journal_validate_relative_path (ln_current_relative_path self);;
  let carried_coordinates_are_valid :=
    match ln_previous_carry_id self, ln_old_usn self, ln_new_usn self with
    | None, None, None => true
    | Some _, Some old_usn, Some new_usn => usn_ltb old_usn new_usn
    | _, _, _ => false
    end in
  fail_if (bool_decide (ln_previous_root_id self = ln_current_root_id self)
           || negb carried_coordinates_are_valid)
          (invalid_value "cross-root journal lineage").

Record PersistentJournalDirectoryChange := {
  dc_identity : FileIdentityEvidence;
  dc_previous_relative_paths : list str;
  dc_current_relative_path : option str;
}.

Definition DIRECTORY_IDENTITY_SCHEME : str := lit "windows-file-id-128-v1".

(** The loop over [previous_relative_paths.iter().chain(current_relative_path.iter())]. *)
Definition directory_paths (self : PersistentJournalDirectoryChange) : list str :=
  dc_previous_relative_paths self ++ option_list (dc_current_relative_path self).

Definition PersistentJournalDirectoryChange_validate (self : PersistentJournalDirectoryChange)
    (volume : PersistentJournalVolumeIdentity) : ScanResult unit :=
  let expected_prefix := hex_padded 16 (vol_serial volume) ++ [58] in
  let value := fi_value (dc_identity self) in
  fail_if (negb (bool_decide (fi_scheme (dc_identity self) = DIRECTORY_IDENTITY_SCHEME))
           || negb (str_len value =? 49)
           || negb (starts_with_str expected_prefix value)
           || negb (forallb is_lower_hex (drop 17 (as_bytes value)))
           || (64 <? zlen (dc_previous_relative_paths self)))
          (invalid_value "persistent journal directory identity");;
  result_iter (λ path,
    journal_validate_relative_path path;;
    fail_if (is_empty path) (invalid_value "persistent journal root directory mutation"))
    (directory_paths self).

Record PersistentJournalEnrollmentBatch := {
  eb_range : PersistentJournalSourceRange;
  eb_intents : list LibraryChangeIntent;
  eb_cross_root_lineage : list PersistentJournalCrossRootLineage;
  eb_carried_cross_root_lineage : list PersistentJournalCrossRootLineage;
  eb_pending_renames : list PersistentJournalPendingRename;
  eb_consumed_pending_rename_ids : list str;
  eb_directory_changes : list PersistentJournalDirectoryChange;
}.

(** ** Canonical entries *)

(** [format!] with the fields separated by NUL. *)
Definition entry_of (fields : list str) : str := join [0] fields.

Definition intent_kind_text (kind : LibraryChangeIntentKind) : str :=
  match kind with
  | Reconcile => lit "reconcile"
  | RenameCandidate => lit "rename"
  | FreshnessUnknown => lit "freshness-unknown"
  end.

Definition intent_scope_text (scope : LibraryChangeScope) : str :=
  match scope with Path => lit "path" | Subtree => lit "subtree" | Root => lit "root" end.

Definition intent_origin_text (origin : LibraryChangeOrigin) : str :=
  match origin with
  | LiveNotification => lit "live"
  | MetadataInventory => lit "metadata-inventory"
  | StartupCatchUp => lit "startup"
  | UserRefresh => lit "user-refresh"
  | ConsistencyAudit => lit "audit"
  end.

Definition canonical_intent (intent : LibraryChangeIntent) : str :=
  entry_of
    [ in_root_id intent;
      show_uint (generation_value (in_root_generation intent));
      intent_kind_text (in_kind intent);
      intent_scope_text (in_scope intent);
      in_relative_path intent;
      default [] (in_previous_relative_path intent);
      intent_origin_text (in_origin intent);
      show_int (in_first_observed_unix_ms intent);
      show_int (in_most_recent_observed_unix_ms intent);
      show_uint (in_first_sequence intent);
      show_uint (in_most_recent_sequence intent);
      show_uint (in_coalesced_observation_count intent) ].

Definition lineage_state_text (state : PersistentJournalLineageState) : str :=
  match state with
  | LineagePending => lit "pending"
  | LineageCompleted => lit "completed"
  | LineageSuperseded => lit "superseded"
  end.

Definition canonical_lineage (lineage : PersistentJournalCrossRootLineage) (current_range_id : str)
    : str :=
  entry_of
    [ ln_lineage_id lineage;
      (if bool_decide (ln_owner_source_range_id lineage = current_range_id) then lit "self"
       else ln_owner_source_range_id lineage);
      vol_guid (ln_volume lineage);
      show_uint (vol_serial (ln_volume lineage));
      show_uint (journal_identifier_value (ln_journal_id lineage));
      JournalFileReference_to_canonical_text (ln_file_reference lineage);
      show_int (match ln_old_usn lineage with Some u => journal_usn_value u | None => 0 end);
      show_int (match ln_new_usn lineage with Some u => journal_usn_value u | None => 0 end);
      default [] (ln_previous_carry_id lineage);
      ln_previous_root_id lineage;
      show_uint (generation_value (ln_previous_root_generation lineage));
      ln_previous_relative_path lineage;
      ln_current_root_id lineage;
      show_uint (generation_value (ln_current_root_generation lineage));
      ln_current_relative_path lineage;
      lineage_state_text (ln_state lineage) ].

Definition canonical_pending_rename (pending : PersistentJournalPendingRename) : str :=
  entry_of
    [ pn_carry_id pending;
      lit "self";
      vol_guid (pn_volume pending);
      show_uint (vol_serial (pn_volume pending));
      show_uint (journal_identifier_value (pn_journal_id pending));
      JournalFileReference_to_canonical_text (pn_file_reference pending);
      show_int (journal_usn_value (pn_old_usn pending));
      pn_previous_root_id pending;
      show_uint (generation_value (pn_previous_root_generation pending));
      pn_previous_relative_path pending;
      show_uint (if pn_is_directory pending then 1 else 0);
      show_int (pn_enrolled_unix_ms pending) ].

(** The closure of [persistent_journal_batch_payload] over the directory changes. *)
Definition canonical_directory (change : PersistentJournalDirectoryChange) : str :=
  entry_of
    [ fi_scheme (dc_identity change);
      fi_value (dc_identity change);
      default [] (dc_current_relative_path change);
      join [0] (sort_by lex_compare (dc_previous_relative_paths change)) ].

(** ** The canonical payload *)

(** [CanonicalPayload] is the vector of bytes written so far; [CanonicalDigest] feeds a hasher the
    same bytes, so both share the representation of a field. *)
Definition cp_u64 (payload : bytes) (value : Z) : bytes := payload ++ le_bytes 8 value.
Definition cp_i64 (payload : bytes) (value : Z) : bytes := payload ++ le_bytes 8 (value mod 2 ^ 64).
Definition cp_bool (payload : bytes) (value : bool) : bytes := payload ++ [if value then 1 else 0].
Definition cp_bytes (payload : bytes) (value : bytes) : bytes := cp_u64 payload (zlen value) ++ value.
Definition cp_text (payload : bytes) (value : str) : bytes := cp_bytes payload (as_bytes value).
Definition cp_strings (payload : bytes) (values : list str) : bytes :=
  foldl cp_text (cp_u64 payload (zlen values)) values.

Definition append_source_range_payload (payload : bytes) (range : PersistentJournalSourceRange)
    : bytes :=
  let payload := cp_text payload (sr_root_id range) in
  let payload := cp_u64 payload (generation_value (sr_root_generation range)) in
  let payload := cp_text payload (vol_guid (sr_volume range)) in
  let payload := cp_u64 payload (vol_serial (sr_volume range)) in
  let payload := cp_u64 payload (journal_identifier_value (sr_journal_id range)) in
  let payload := cp_i64 payload (journal_usn_value (sr_requested_start_usn range)) in
  let payload := cp_i64 payload (journal_usn_value (sr_requested_end_usn range)) in
  let payload := cp_i64 payload (journal_usn_value (sr_covered_until_usn range)) in
  let payload := cp_bool payload (sr_is_complete range) in
  let payload := cp_u64 payload (sr_protocol_version range) in
  let payload := cp_u64 payload (sr_contract_version range) in
  cp_i64 payload (sr_enrolled_unix_ms range).

(** The lists of entries of a batch, as they are written. *)
Definition intent_entries (batch : PersistentJournalEnrollmentBatch) : list str :=
  sort_by lex_compare (canonical_intent <$> eb_intents batch).
Definition lineage_entries (batch : PersistentJournalEnrollmentBatch) : list str :=
  sort_by lex_compare
    ((λ lineage, canonical_lineage lineage (sr_batch_id (eb_range batch)))
       <$> eb_cross_root_lineage batch ++ eb_carried_cross_root_lineage batch).
Definition pending_entries (batch : PersistentJournalEnrollmentBatch) : list str :=
  sort_by lex_compare (canonical_pending_rename <$> eb_pending_renames batch).
Definition consumed_entries (batch : PersistentJournalEnrollmentBatch) : list str :=
  sort_by lex_compare (eb_consumed_pending_rename_ids batch).
Definition directory_entries (batch : PersistentJournalEnrollmentBatch) : list str :=
  sort_by lex_compare (canonical_directory <$> eb_directory_changes batch).

Definition DIRECTORY_NAMESPACE : str := lit "directory-namespace-v1".

Definition persistent_journal_batch_payload (batch : PersistentJournalEnrollmentBatch) : bytes :=
  let payload := append_source_range_payload [] (eb_range batch) in
  let payload := cp_strings payload (intent_entries batch) in
  let payload := cp_strings payload (lineage_entries batch) in
  let payload := cp_strings payload (pending_entries batch) in
  let payload := cp_strings payload (consumed_entries batch) in
  if negb (is_empty (eb_directory_changes batch)) then
    cp_strings (cp_text payload DIRECTORY_NAMESPACE) (directory_entries batch)
  else payload.

Definition persistent_journal_source_range_payload_prefix (range : PersistentJournalSourceRange)
    : bytes := append_source_range_payload [] range.

Definition persistent_journal_batch_payload_matches_source_range (payload : bytes)
    (range : PersistentJournalSourceRange) : bool :=
  starts_with_str (persistent_journal_source_range_payload_prefix range) payload.

(** ** The payload reader *)

Record CanonicalPayloadReader := { pr_payload : bytes; pr_offset : Z }.

(** A method that returns [Option]; [None] is [Err ()]. *)
Abbreviation P := (ST unit CanonicalPayloadReader).

Definition p_fixed (length : Z) : P bytes := λ rd,
  end_ ← ok_or (checked_add USIZE_MAX (pr_offset rd) length) ();
  b ← ok_or (slice_get (pr_payload rd) (pr_offset rd) end_) ();
  Ok (b, {| pr_payload := pr_payload rd; pr_offset := end_ |}).

Definition p_u64 : P Z := b ← p_fixed 8; mret (le_value b).
Definition p_i64 : P Z := b ← p_fixed 8; mret (to_signed 64 (le_value b)).

Definition p_bytes : P bytes :=
  length ← p_u64;
  length ← st_lift (try_from_uint 64 length ());
  p_fixed length.

Definition p_text : P str := b ← p_bytes; st_lift (ok_or (from_utf8 b) ()).

(** [for _ in 0..count { values.push(self.text()?); }] *)
Fixpoint p_texts (count : nat) : P (list str) :=
  match count with
  | O => mret []
  | S count => value ← p_text; values ← p_texts count; mret (value :: values)
  end.

Definition p_strings : P (list str) :=
  count ← p_u64;
  count ← st_lift (try_from_uint 64 count ());
  p_texts (Z.to_nat count).

Definition p_bool : P bool := λ rd,
  b ← ok_or (pr_payload rd !! Z.to_nat (pr_offset rd)) ();
  let rd := {| pr_payload := pr_payload rd; pr_offset := pr_offset rd + 1 |} in
  if b =? 0 then Ok (false, rd) else if b =? 1 then Ok (true, rd) else Err ().

Definition p_is_finished : P bool := λ rd, Ok (pr_offset rd =? zlen (pr_payload rd), rd).

(** The checks on one directory entry in [decode_persistent_journal_batch_payload]. *)
Definition directory_entry_ok (entry : str) : bool :=
  let fields := split_on 0 entry in
  negb ((zlen fields <? 4) || (67 <? zlen fields)
        || negb (bool_decide (fields !! 0%nat = Some DIRECTORY_IDENTITY_SCHEME))
        || match fields !! 1%nat with Some value => negb (str_len value =? 49) | None => true end)
  && forallb (λ path, is_empty path || is_ok (journal_validate_relative_path path)) (drop 2 fields).

Record PayloadLists := {
  pls_intents : list str;
  pls_lineage : list str;
  pls_pending : list str;
  pls_consumed : list str;
}.

Definition p_batch : P PayloadLists :=
  p_text;; p_u64;; p_text;; p_u64;; p_u64;; p_i64;; p_i64;; p_i64;; p_bool;; p_u64;; p_u64;; p_i64;;
  intents ← p_strings;
  lineage ← p_strings;
  pending ← p_strings;
  consumed ← p_strings;
  finished ← p_is_finished;
  (if (finished : bool) then mret ()
   else
     namespace ← p_text;
     if negb (bool_decide (namespace = DIRECTORY_NAMESPACE)) then st_lift (Err ())
     else
       directories ← p_strings;
       if is_empty directories || (256 <? zlen directories) then st_lift (Err ())
       else if negb (forallb directory_entry_ok directories) then st_lift (Err ())
       else mret ());;
  finished ← p_is_finished;
  if (finished : bool)
  then mret {| pls_intents := intents; pls_lineage := lineage; pls_pending := pending;
               pls_consumed := consumed |}
  else st_lift (Err ()).

Definition decode_persistent_journal_batch_payload (payload : bytes) : option PayloadLists :=
  match p_batch {| pr_payload := payload; pr_offset := 0 |} with
  | Ok (lists, _) => Some lists
  | Err _ => None
  end.

(** ** Reading entries back *)

Definition parse_intent_kind (text : str) : option LibraryChangeIntentKind :=
  if bool_decide (text = lit "reconcile") then Some Reconcile
  else if bool_decide (text = lit "rename") then Some RenameCandidate
  else if bool_decide (text = lit "freshness-unknown") then Some FreshnessUnknown
  else None.

Definition parse_intent_scope (text : str) : option LibraryChangeScope :=
  if bool_decide (text = lit "path") then Some Path
  else if bool_decide (text = lit "subtree") then Some Subtree
  else if bool_decide (text = lit "root") then Some Root
  else None.

Definition parse_intent_origin (text : str) : option LibraryChangeOrigin :=
  if bool_decide (text = lit "live") then Some LiveNotification
  else if bool_decide (text = lit "metadata-inventory") then Some MetadataInventory
  else if bool_decide (text = lit "startup") then Some StartupCatchUp
  else if bool_decide (text = lit "user-refresh") then Some UserRefresh
  else if bool_decide (text = lit "audit") then Some ConsistencyAudit
  else None.

(** The struct built from the twelve fields. *)
Definition intent_of_fields (fields : list str) : option LibraryChangeIntent :=
  match fields with
  | [f0; f1; f2; f3; f4; f5; f6; f7; f8; f9; f10; f11] =>
    generation ← parse_canonical_u64 f1;
    root_generation ← LibraryRootGeneration_new generation;
    kind ← parse_intent_kind f2;
    scope ← parse_intent_scope f3;
    origin ← parse_intent_origin f6;
    first_observed ← parse_canonical_i64 f7;
    most_recent_observed ← parse_canonical_i64 f8;
    first_sequence ← parse_canonical_u64 f9;
    most_recent_sequence ← parse_canonical_u64 f10;
    count ← parse_canonical_u64 f11;
    count ← (if count <? 2 ^ 32 then Some count else None);
    Some {| in_root_id := f0;
            in_root_generation := root_generation;
            in_kind := kind;
            in_scope := scope;
            in_relative_path := f4;
            in_previous_relative_path := if is_empty f5 then None else Some f5;
            in_origin := origin;
            in_first_observed_unix_ms := first_observed;
            in_most_recent_observed_unix_ms := most_recent_observed;
            in_first_sequence := first_sequence;
            in_most_recent_sequence := most_recent_sequence;
            in_coalesced_observation_count := count |}
  | _ => None
  end.

Definition persistent_journal_intent_from_payload_entry (entry : str) : option LibraryChangeIntent :=
  intent ← intent_of_fields (split_on 0 entry);
  if bool_decide (canonical_intent intent = entry) then Some intent else None.

Record PersistentJournalBatchPayloadChildren := {
  ch_intents : list LibraryChangeIntent;
  ch_lineage : list str;
  ch_pending_renames : list str;
  ch_consumed_pending_rename_ids : list str;
}.

(** [entries.windows(2).all(|pair| pair[0] < pair[1])] *)
Fixpoint strictly_increasing (entries : list str) : bool :=
  match entries with
  | x :: (y :: _) as rest =>
    match lex_compare x y with Lt => strictly_increasing rest | _ => false end
  | _ => true
  end.

Definition persistent_journal_batch_payload_children (payload : bytes)
    : option PersistentJournalBatchPayloadChildren :=
  lists ← decode_persistent_journal_batch_payload payload;
  if existsb (λ entries, negb (strictly_increasing entries))
       [pls_intents lists; pls_lineage lists; pls_pending lists; pls_consumed lists]
  then None
  else
    intents ← mapM persistent_journal_intent_from_payload_entry (pls_intents lists);
    Some {| ch_intents := intents;
            ch_lineage := pls_lineage lists;
            ch_pending_renames := pls_pending lists;
            ch_consumed_pending_rename_ids := pls_consumed lists |}.

Definition with_lineage_state (lineage : PersistentJournalCrossRootLineage)
    (state : PersistentJournalLineageState) : PersistentJournalCrossRootLineage :=
  {| ln_lineage_id := ln_lineage_id lineage;
     ln_owner_source_range_id := ln_owner_source_range_id lineage;
     ln_volume := ln_volume lineage;
     ln_journal_id := ln_journal_id lineage;
     ln_file_reference := ln_file_reference lineage;
     ln_old_usn := ln_old_usn lineage;
     ln_new_usn := ln_new_usn lineage;
     ln_previous_carry_id := ln_previous_carry_id lineage;
     ln_previous_root_id := ln_previous_root_id lineage;
     ln_previous_root_generation := ln_previous_root_generation lineage;
     ln_previous_relative_path := ln_previous_relative_path lineage;
     ln_current_root_id := ln_current_root_id lineage;
     ln_current_root_generation := ln_current_root_generation lineage;
     ln_current_relative_path := ln_current_relative_path lineage;
     ln_state := state |}.

Definition persistent_journal_batch_payload_contains_lineage (payload : bytes)
    (current_range_id : str) (lineage : PersistentJournalCrossRootLineage) : bool :=
  match decode_persistent_journal_batch_payload payload with
  | None => false
  | Some lists =>
    let candidates :=
      canonical_lineage lineage current_range_id ::
      (if negb (bool_decide (ln_state lineage = LineagePending))
       then [canonical_lineage (with_lineage_state lineage LineagePending) current_range_id]
       else []) in
    existsb (λ candidate, existsb (λ entry, bool_decide (entry = candidate)) (pls_lineage lists))
      candidates
  end.

(** The test of one pending entry against the source a lineage names. *)
Definition pending_entry_matches (lineage : PersistentJournalCrossRootLineage) (carry_id : str)
    (old_usn : JournalUsn) (entry : str) : bool :=
  match split_on 0 entry with
  | [f0; f1; f2; f3; f4; f5; f6; f7; f8; f9; f10; f11] =>
    bool_decide (f0 = carry_id)
    && bool_decide (f1 = lit "self")
    && bool_decide (f2 = vol_guid (ln_volume lineage))
    && bool_decide (f3 = show_uint (vol_serial (ln_volume lineage)))
    && bool_decide (f4 = show_uint (journal_identifier_value (ln_journal_id lineage)))
    && bool_decide (f5 = JournalFileReference_to_canonical_text (ln_file_reference lineage))
    && bool_decide (f6 = show_int (journal_usn_value old_usn))
    && bool_decide (f7 = ln_previous_root_id lineage)
    && bool_decide (f8 = show_uint (generation_value (ln_previous_root_generation lineage)))
    && bool_decide (f9 = ln_previous_relative_path lineage)
    && (bool_decide (f10 = lit "0") || bool_decide (f10 = lit "1"))
    && match parse_i64 f11 with Some value => 0 <=? value | None => false end
  | _ => false
  end.

Definition persistent_journal_batch_payload_contains_pending_lineage_source (payload : bytes)
    (lineage : PersistentJournalCrossRootLineage) : bool :=
  match ln_previous_carry_id lineage, ln_old_usn lineage with
  | Some carry_id, Some old_usn =>
    match decode_persistent_journal_batch_payload payload with
    | Some lists => existsb (pending_entry_matches lineage carry_id old_usn) (pls_pending lists)
    | None => false
    end
  | _, _ => false
  end.

Section Blake3.
(** [blake3]: the lower-case hexadecimal digest of the bytes a hasher was fed. *)
Context (blake3_hex : bytes → str).

(** [CanonicalDigest::new(namespace)] *)
Definition CanonicalDigest_new (namespace : str) : bytes := as_bytes namespace ++ [0].
Definition CanonicalDigest_finish (fed : bytes) : str := blake3_hex fed.

(** What [persistent_journal_pending_rename_id] feeds the hasher. *)
Definition pending_rename_digest_input (pending : PersistentJournalPendingRename) : bytes :=
  let fields := CanonicalDigest_new (lit "persistent-journal-pending-rename-v1") in
  let fields := cp_text fields (vol_guid (pn_volume pending)) in
  let fields := cp_u64 fields (vol_serial (pn_volume pending)) in
  let fields := cp_u64 fields (journal_identifier_value (pn_journal_id pending)) in
  let fields := cp_text fields (JournalFileReference_to_canonical_text (pn_file_reference pending)) in
  let fields := cp_i64 fields (journal_usn_value (pn_old_usn pending)) in
  let fields := cp_text fields (pn_previous_root_id pending) in
  let fields := cp_u64 fields (generation_value (pn_previous_root_generation pending)) in
  let fields := cp_text fields (pn_previous_relative_path pending) in
  cp_bool fields (pn_is_directory pending).

Definition persistent_journal_pending_rename_id (pending : PersistentJournalPendingRename) : str :=
  CanonicalDigest_finish (pending_rename_digest_input pending).

Definition persistent_journal_batch_id_from_payload (payload : bytes) : str :=
  CanonicalDigest_finish (cp_bytes (CanonicalDigest_new (lit "persistent-journal-range-v5")) payload).

Definition persistent_journal_batch_id (batch : PersistentJournalEnrollmentBatch) : str :=
  persistent_journal_batch_id_from_payload (persistent_journal_batch_payload batch).

Definition PersistentJournalPendingRename_validate (self : PersistentJournalPendingRename)
    : ScanResult unit :=
  journal_validate_identifier (pn_carry_id self) 512 "pending rename carry ID";;
  journal_validate_identifier (pn_source_range_id self) 512 "pending rename source range ID";;
  PersistentJournalVolumeIdentity_validate (pn_volume self);;
  journal_validate_identifier (pn_previous_root_id self) 256 "pending rename root ID";;
  journal_validate_relative_path (pn_previous_relative_path self);;
  fail_if ((pn_enrolled_unix_ms self <? 0)
           || negb (bool_decide (pn_carry_id self = persistent_journal_pending_rename_id self)))
          (invalid_value "persistent journal pending rename").

(** The struct built from the twelve fields of a pending rename. *)
Definition pending_rename_of_fields (fields : list str) (source_range_id : str)
    : option PersistentJournalPendingRename :=
  match fields with
  | [f0; f1; f2; f3; f4; f5; f6; f7; f8; f9; f10; f11] =>
    if negb (bool_decide (f1 = lit "self")) then None
    else
      volume_serial ← parse_canonical_u64 f3;
      generation ← parse_canonical_u64 f8;
      previous_root_generation ← LibraryRootGeneration_new generation;
      is_directory ← (if bool_decide (f10 = lit "0") then Some false
                      else if bool_decide (f10 = lit "1") then Some true else None);
      enrolled_unix_ms ← parse_i64 f11;
      if (enrolled_unix_ms <? 0) || negb (bool_decide (show_int enrolled_unix_ms = f11)) then None
      else
        match JournalIdentifier_parse_canonical f4, JournalFileReference_parse_canonical f5,
              JournalUsn_parse_canonical f6 with
        | Ok journal_id, Ok file_reference, Ok old_usn =>
          Some {| pn_carry_id := f0;
                  pn_source_range_id := source_range_id;
                  pn_volume := {| vol_guid := f2; vol_serial := volume_serial |};
                  pn_journal_id := journal_id;
                  pn_file_reference := file_reference;
                  pn_old_usn := old_usn;
                  pn_previous_root_id := f7;
                  pn_previous_root_generation := previous_root_generation;
                  pn_previous_relative_path := f9;
                  pn_is_directory := is_directory;
                  pn_enrolled_unix_ms := enrolled_unix_ms |}
        | _, _, _ => None
        end
  | _ => None
  end.

Definition persistent_journal_pending_rename_from_payload_entry (entry source_range_id : str)
    : option PersistentJournalPendingRename :=
  pending ← pending_rename_of_fields (split_on 0 entry) source_range_id;
  if negb (is_ok (PersistentJournalPendingRename_validate pending)) then None
  else if bool_decide (canonical_pending_rename pending = entry) then Some pending else None.

(** ** Validation of a batch *)

(** The queue must own every directory a change names. *)
Definition directory_is_owned (intents : list LibraryChangeIntent) (path : str) : bool :=
  existsb (λ intent,
    bool_decide (in_scope intent = Subtree)
    && (bool_decide (in_relative_path intent = path)
        || (bool_decide (in_kind intent = RenameCandidate)
            && bool_decide (in_previous_relative_path intent = Some path)))) intents.

(** The root of the range is one end of the lineage. *)
Definition lineage_touches_range (lineage : PersistentJournalCrossRootLineage)
    (range : PersistentJournalSourceRange) : bool :=
  (bool_decide (ln_previous_root_id lineage = sr_root_id range)
   && bool_decide (ln_previous_root_generation lineage = sr_root_generation range))
  || (bool_decide (ln_current_root_id lineage = sr_root_id range)
      && bool_decide (ln_current_root_generation lineage = sr_root_generation range)).

Definition validate_batch_lineage (range : PersistentJournalSourceRange)
    (lineage : PersistentJournalCrossRootLineage) : ScanResult unit :=
  PersistentJournalCrossRootLineage_validate lineage;;
  fail_if (negb (bool_decide (ln_volume lineage = sr_volume range))
           || negb (bool_decide (ln_journal_id lineage = sr_journal_id range))
           || negb (bool_decide (ln_owner_source_range_id lineage = sr_batch_id range))
           || negb (lineage_touches_range lineage range))
          (invalid_value "persistent journal enrollment lineage").

Definition validate_carried_lineage (range : PersistentJournalSourceRange)
    (lineage : PersistentJournalCrossRootLineage) : ScanResult unit :=
  PersistentJournalCrossRootLineage_validate lineage;;
  fail_if (negb (bool_decide (ln_volume lineage = sr_volume range))
           || negb (bool_decide (ln_journal_id lineage = sr_journal_id range))
           || bool_decide (ln_owner_source_range_id lineage = sr_batch_id range)
           || negb (lineage_touches_range lineage range)
           || bool_decide (ln_previous_carry_id lineage = None))
          (invalid_value "persistent journal carried lineage").

Definition validate_batch_pending (range : PersistentJournalSourceRange) (pending_ids : list str)
    (pending : PersistentJournalPendingRename) : ScanResult (list str) :=
  PersistentJournalPendingRename_validate pending;;
  fail_if (negb (bool_decide (pn_source_range_id pending = sr_batch_id range))
           || negb (bool_decide (pn_volume pending = sr_volume range))
           || negb (bool_decide (pn_journal_id pending = sr_journal_id range))
           || negb (bool_decide (pn_previous_root_id pending = sr_root_id range))
           || negb (bool_decide (pn_previous_root_generation pending = sr_root_generation range))
           || usn_ltb (pn_old_usn pending) (sr_requested_start_usn range)
           || usn_leb (sr_covered_until_usn range) (pn_old_usn pending)
           || bool_decide (pn_carry_id pending ∈ pending_ids))
          (invalid_value "persistent journal pending rename owner");;
  Ok (pn_carry_id pending :: pending_ids).

Definition validate_consumed (pending_ids : list str) (consumed : list str) (carry_id : str)
    : ScanResult (list str) :=
  journal_validate_identifier carry_id 512 "consumed pending rename carry ID";;
  fail_if (bool_decide (carry_id ∈ pending_ids) || bool_decide (carry_id ∈ consumed))
          (invalid_value "consumed persistent journal pending rename");;
  Ok (carry_id :: consumed).

Definition PersistentJournalEnrollmentBatch_validate (self : PersistentJournalEnrollmentBatch)
    : ScanResult unit :=
  let range := eb_range self in
  PersistentJournalSourceRange_validate range;;
  fail_if (256 <? zlen (eb_directory_changes self))
          (invalid_value "persistent journal directory window");;
  result_iter (λ change,
    PersistentJournalDirectoryChange_validate change (sr_volume range);;
    result_iter (λ path,
      fail_if (negb (directory_is_owned (eb_intents self) path))
              (invalid_value "persistent journal directory queue ownership"))
      (directory_paths change)) (eb_directory_changes self);;
  fail_if ((MAX_PERSISTENT_JOURNAL_BATCH_INTENTS <? zlen (eb_intents self))
           || (MAX_PERSISTENT_JOURNAL_HANDOFFS
               <? saturating_add USIZE_MAX (zlen (eb_cross_root_lineage self))
                    (zlen (eb_carried_cross_root_lineage self)))
           || (MAX_PERSISTENT_JOURNAL_PENDING_RENAMES <? zlen (eb_pending_renames self))
           || (MAX_PERSISTENT_JOURNAL_PENDING_RENAMES <? zlen (eb_consumed_pending_rename_ids self))
           || existsb (λ intent,
                negb (bool_decide (in_root_id intent = sr_root_id range))
                || negb (bool_decide (in_root_generation intent = sr_root_generation range)))
                (eb_intents self))
          (invalid_value "persistent journal enrollment batch");;
  result_iter (validate_batch_lineage range) (eb_cross_root_lineage self);;
  result_iter (validate_carried_lineage range) (eb_carried_cross_root_lineage self);;
  pending_ids ← result_foldl (validate_batch_pending range) [] (eb_pending_renames self);
  _ ← result_foldl (validate_consumed pending_ids) [] (eb_consumed_pending_rename_ids self);
  Ok ().

End Blake3.
