(* ===== verification/JournalEntries.v ===== *)
(** * Entries of the persistent journal payload

    An intent or a pending rename is stored as one text entry whose fields are separated by NUL.  The
    theorems show that the entries are exact: parsing inverts printing, and a stored entry that
    parses is the entry of exactly one value. *)

From Stdlib Require Import Sorted.
From S2P Require Import Prelude Text LibraryChange Order Numerals JournalText JournalBatch.

(** A field of an entry. *)
Definition field_ok (s : str) : Prop := 0 ∉ s.

Lemma split_entry fields : fields ≠ [] → Forall field_ok fields → split_on 0 (entry_of fields) = fields.
Proof. intros Hne H. by apply split_join. Qed.

Lemma entry_split e : entry_of (split_on 0 e) = e.
Proof. apply join_split. Qed.

Lemma field_uint n : is_u64 n → field_ok (show_uint n).
Proof. intros Hn Hc. apply elem_of_show_uint in Hc; [lia|done]. Qed.
Lemma field_int n : is_i64 n → field_ok (show_int n).
Proof. intros Hn Hc. apply elem_of_show_int in Hc; [lia|done]. Qed.
Lemma field_lit (s : str) : bool_decide (0 ∉ s) = true → field_ok s.
Proof. apply bool_decide_eq_true. Qed.
Lemma field_nil : field_ok [].
Proof. apply not_elem_of_nil. Qed.

Lemma field_lower_hex s : Forall (λ c, is_lower_hex c = true) s → field_ok s.
Proof. intros H Hc. rewrite Forall_forall in H. by apply H in Hc. Qed.

Lemma field_reference r : wf_reference r → field_ok (JournalFileReference_to_canonical_text r).
Proof.
  intros Hr. unfold field_ok. destruct r as [b|b]; destruct Hr as [Hb _];
    unfold JournalFileReference_to_canonical_text; rewrite !not_elem_of_app;
    (split_and!; [by apply field_lit|by apply field_lit|]); by apply field_lower_hex, hex_text_lower.
Qed.

Create HintDb entries.
#[export] Hint Resolve field_uint field_int field_nil field_reference : entries.

(** ** Intents *)

Record wf_intent (i : LibraryChangeIntent) : Prop := {
  wfi_root_id : field_ok (in_root_id i);
  wfi_generation : is_u64 (generation_value (in_root_generation i));
  wfi_generation_nonzero : generation_value (in_root_generation i) ≠ 0;
  wfi_relative_path : field_ok (in_relative_path i);
  wfi_previous : match in_previous_relative_path i with
                 | Some p => p ≠ [] ∧ field_ok p | None => True end;
  wfi_first_observed : is_i64 (in_first_observed_unix_ms i);
  wfi_most_recent_observed : is_i64 (in_most_recent_observed_unix_ms i);
  wfi_first_sequence : is_u64 (in_first_sequence i);
  wfi_most_recent_sequence : is_u64 (in_most_recent_sequence i);
  wfi_count : is_u32 (in_coalesced_observation_count i);
}.

Lemma u32_u64 n : is_u32 n → is_u64 n.
Proof. unfold is_uint. change (2 ^ 32) with 4294967296. change (2 ^ 64) with 18446744073709551616. lia. Qed.
#[export] Hint Resolve u32_u64 : entries.

Lemma parse_kind_text k : parse_intent_kind (intent_kind_text k) = Some k.
Proof. by destruct k. Qed.
Lemma parse_scope_text s : parse_intent_scope (intent_scope_text s) = Some s.
Proof. by destruct s. Qed.
Lemma parse_origin_text o : parse_intent_origin (intent_origin_text o) = Some o.
Proof. by destruct o. Qed.
Lemma field_kind k : field_ok (intent_kind_text k).
Proof. destruct k; by apply field_lit. Qed.
Lemma field_scope s : field_ok (intent_scope_text s).
Proof. destruct s; by apply field_lit. Qed.
Lemma field_origin o : field_ok (intent_origin_text o).
Proof. destruct o; by apply field_lit. Qed.
#[export] Hint Resolve field_kind field_scope field_origin : entries.

(** The fields of an entry determine the intent. *)
Lemma split_canonical_intent i : wf_intent i →
  intent_of_fields (split_on 0 (canonical_intent i)) = Some i.
Proof.
  intros [Hr Hg Hg0 Hp Hprev Hfo Hmo Hfs Hms Hc]. unfold canonical_intent.
  assert (field_ok (default [] (in_previous_relative_path i))) as Hpf.
  { destruct (in_previous_relative_path i) as [p|]; [apply Hprev|apply field_nil]. }
  rewrite split_entry by (done || (repeat constructor; eauto with entries)).
  unfold intent_of_fields.
  rewrite (proj2 (parse_canonical_u64_Some _ _) (conj Hg eq_refl)). cbn [mbind option_bind].
  unfold LibraryRootGeneration_new. rewrite (proj2 (Z.eqb_neq _ _) Hg0). cbn [mbind option_bind].
  rewrite parse_kind_text, parse_scope_text, parse_origin_text. cbn [mbind option_bind].
  rewrite (proj2 (parse_canonical_i64_Some _ _) (conj Hfo eq_refl)). cbn [mbind option_bind].
  rewrite (proj2 (parse_canonical_i64_Some _ _) (conj Hmo eq_refl)). cbn [mbind option_bind].
  rewrite (proj2 (parse_canonical_u64_Some _ _) (conj Hfs eq_refl)). cbn [mbind option_bind].
  rewrite (proj2 (parse_canonical_u64_Some _ _) (conj Hms eq_refl)). cbn [mbind option_bind].
  rewrite (proj2 (parse_canonical_u64_Some _ _) (conj (u32_u64 _ Hc) eq_refl)). cbn [mbind option_bind].
  rewrite (proj2 (Z.ltb_lt _ _) (proj2 Hc)). cbn [mbind option_bind]. f_equal.
  destruct i as [rid [g] k s p prev o fo mo fs ms c]. cbn in *. f_equal.
  destruct prev as [q|]; [|done]. destruct Hprev as [Hq _]. by destruct q.
Qed.

Lemma intent_of_fields_wf fields i :
  Forall field_ok fields → intent_of_fields fields = Some i → wf_intent i.
Proof.
  intros Hf H. do 13 (destruct fields as [|? fields]; try done). cbn [intent_of_fields] in H.
  repeat match goal with H : _ ≫= _ = Some _ |- _ => apply bind_Some in H as (? & ? & H) end.
  unfold LibraryRootGeneration_new in *.
  repeat match goal with
  | H : (if _ then None else Some _) = Some _ |- _ => destruct (_ =? _) eqn:? in H; [done|]
  | H : (if _ then Some _ else None) = Some _ |- _ => destruct (_ <? _) eqn:? in H; [|done]
  | H : parse_canonical_u64 _ = Some _ |- _ => apply parse_canonical_u64_Some in H as [? _]
  | H : parse_canonical_i64 _ = Some _ |- _ => apply parse_canonical_i64_Some in H as [? _]
  end. simplify_eq. rewrite !Forall_cons in Hf.
  split; cbn [in_root_id in_root_generation generation_value in_relative_path in_previous_relative_path
    in_first_observed_unix_ms in_most_recent_observed_unix_ms in_first_sequence
    in_most_recent_sequence in_coalesced_observation_count]; try tauto; try lia.
  - match goal with |- context [is_empty ?f] => destruct f eqn:? end; [done|]. split; [done|]. tauto.
  - unfold is_uint in *. lia.
Qed.

Lemma intent_entry_Some e i :
  persistent_journal_intent_from_payload_entry e = Some i ↔ wf_intent i ∧ canonical_intent i = e.
Proof.
  unfold persistent_journal_intent_from_payload_entry. split.
  - intros (j & Hj & H)%bind_Some. case_bool_decide; [|done]. simplify_eq. split; [|done].
    eapply intent_of_fields_wf; [|exact Hj]. apply split_on_free.
  - intros [Hi <-]. rewrite split_canonical_intent by done. cbn [mbind option_bind].
    by rewrite bool_decide_eq_true_2.
Qed.

(** ** Pending renames *)

(** What the types of the fields guarantee. *)
Record wf_pending_rename (p : PersistentJournalPendingRename) : Prop := {
  wfp_serial : is_u64 (vol_serial (pn_volume p));
  wfp_journal_id : wf_identifier (pn_journal_id p);
  wfp_reference : wf_reference (pn_file_reference p);
  wfp_usn : wf_usn (pn_old_usn p);
  wfp_generation : is_u64 (generation_value (pn_previous_root_generation p));
  wfp_generation_nonzero : generation_value (pn_previous_root_generation p) ≠ 0;
  wfp_enrolled : is_i64 (pn_enrolled_unix_ms p);
}.

Lemma identifier_field v n name u : journal_validate_identifier v n name = Ok u → field_ok v.
Proof.
  unfold journal_validate_identifier. destruct (is_empty _ || _) eqn:E1; [done|].
  destruct (contains 0 v) eqn:E; [done|]. intros _. by apply contains_false.
Qed.

Lemma path_field v u : journal_validate_relative_path v = Ok u → field_ok v ∧ v ≠ [].
Proof.
  unfold journal_validate_relative_path. destruct (is_empty v) eqn:E0; [done|]. cbn [orb].
  destruct (32767 <? str_len v); [done|]. cbn [orb]. destruct (contains 0 v) eqn:E; [done|]. intros _.
  split; [by apply contains_false|]. by destruct v.
Qed.

Lemma show_bit (b : bool) : show_uint (if b then 1 else 0) = if b then lit "1" else lit "0".
Proof. by destruct b. Qed.

Lemma field_bit (b : bool) : field_ok (show_uint (if b then 1 else 0)).
Proof. destruct b; by apply field_lit. Qed.
Lemma field_self : field_ok (lit "self").
Proof. by apply field_lit. Qed.
#[export] Hint Resolve field_bit field_self : entries.

Section Pending.
Context (blake3_hex : bytes → str).

Lemma pending_validate_fields p :
  PersistentJournalPendingRename_validate blake3_hex p = Ok () →
  field_ok (pn_carry_id p) ∧ field_ok (vol_guid (pn_volume p)) ∧ field_ok (pn_previous_root_id p) ∧
  field_ok (pn_previous_relative_path p) ∧ 0 ≤ pn_enrolled_unix_ms p ∧
  pn_carry_id p = persistent_journal_pending_rename_id blake3_hex p.
Proof.
  unfold PersistentJournalPendingRename_validate, PersistentJournalVolumeIdentity_validate. intros H.
  simplify_result. apply orb_false_iff in H as [He Hid].
  apply negb_false_iff, bool_decide_eq_true in Hid. apply Z.ltb_ge in He.
  repeat match goal with
  | H : journal_validate_identifier _ _ _ = Ok _ |- _ => apply identifier_field in H
  | H : journal_validate_relative_path _ = Ok _ |- _ => apply path_field in H as [? _]
  end. done.
Qed.

Lemma fields_canonical_pending p :
  field_ok (pn_carry_id p) → field_ok (vol_guid (pn_volume p)) → field_ok (pn_previous_root_id p) →
  field_ok (pn_previous_relative_path p) → 0 ≤ pn_enrolled_unix_ms p → wf_pending_rename p →
  pending_rename_of_fields (split_on 0 (canonical_pending_rename p)) (pn_source_range_id p) = Some p.
Proof.
  intros F0 F2 F7 F9 He [Hs Hj Hr Hu Hg Hg0 Hen]. unfold canonical_pending_rename.
  rewrite split_entry; [|done|].
  2: { destruct Hj as [Hj _], Hu as [Hu _]. repeat constructor; eauto with entries. }
  unfold pending_rename_of_fields. rewrite bool_decide_eq_true_2 by done. cbn [negb].
  rewrite (proj2 (parse_canonical_u64_Some _ _) (conj Hs eq_refl)). cbn [mbind option_bind].
  rewrite (proj2 (parse_canonical_u64_Some _ _) (conj Hg eq_refl)). cbn [mbind option_bind].
  unfold LibraryRootGeneration_new. rewrite (proj2 (Z.eqb_neq _ _) Hg0). cbn [mbind option_bind].
  assert ((if bool_decide (show_uint (if pn_is_directory p then 1 else 0) = lit "0") then Some false
           else if bool_decide (show_uint (if pn_is_directory p then 1 else 0) = lit "1") then Some true
           else None) = Some (pn_is_directory p)) as -> by (by destruct (pn_is_directory p)).
  cbn [mbind option_bind]. rewrite parse_i64_show by done. cbn [mbind option_bind].
  rewrite (proj2 (Z.ltb_ge _ _) He), bool_decide_eq_true_2 by done. cbn [orb negb].
  rewrite (proj2 (identifier_parse_Ok (show_uint _) (pn_journal_id p)) (conj Hj eq_refl)).
  rewrite (proj2 (reference_parse_Ok _ (pn_file_reference p)) (conj Hr eq_refl)).
  rewrite (proj2 (usn_parse_Ok (show_int _) (pn_old_usn p)) (conj Hu eq_refl)).
  by destruct p as [? ? [] ? ? ? ? [] ? ? ?].
Qed.

Lemma pending_of_fields_wf fields src p :
  pending_rename_of_fields fields src = Some p → wf_pending_rename p ∧ pn_source_range_id p = src.
Proof.
  intros H. do 13 (destruct fields as [|? fields]; try done). cbn [pending_rename_of_fields] in H.
  destruct (negb _) in H; [done|].
  apply bind_Some in H as (serial & Hs & H). apply bind_Some in H as (g & Hg & H).
  apply bind_Some in H as (gen & Hgen & H). apply bind_Some in H as (d & _ & H).
  apply bind_Some in H as (en & Hen & H). destruct (_ || _) in H; [done|].
  destruct (JournalIdentifier_parse_canonical _) as [j|] eqn:Ej; [|done].
  destruct (JournalFileReference_parse_canonical _) as [r|] eqn:Er; [|done].
  destruct (JournalUsn_parse_canonical _) as [u|] eqn:Eu; [|done].
  apply (inj Some) in H as <-. split; [|done].
  apply identifier_parse_Ok in Ej as [Hj _]. apply reference_parse_Ok in Er as [Hr _].
  apply usn_parse_Ok in Eu as [Hu _]. apply parse_canonical_u64_Some in Hs as [Hs _], Hg as [Hg _].
  apply parse_i64_Some in Hen. unfold LibraryRootGeneration_new in Hgen.
  destruct (g =? 0) eqn:E; [done|]. apply (inj Some) in Hgen as <-. split; try done. cbn. lia.
Qed.

Lemma pending_entry_Some e src p :
  persistent_journal_pending_rename_from_payload_entry blake3_hex e src = Some p ↔
  wf_pending_rename p ∧ PersistentJournalPendingRename_validate blake3_hex p = Ok () ∧
  pn_source_range_id p = src ∧ canonical_pending_rename p = e.
Proof.
  unfold persistent_journal_pending_rename_from_payload_entry. split.
  - intros (q & Hq & H)%bind_Some.
    destruct (PersistentJournalPendingRename_validate blake3_hex q) as [[]|] eqn:Ev; [|done].
    cbn [is_ok negb] in H. case_bool_decide; [|done]. simplify_eq.
    apply pending_of_fields_wf in Hq as [Hw Hs]. done.
  - intros (Hw & Hv & <- & <-).
    destruct (pending_validate_fields p Hv) as (F0 & F2 & F7 & F9 & He & _).
    rewrite fields_canonical_pending by done. cbn [mbind option_bind]. rewrite Hv. cbn [is_ok negb].
    by rewrite bool_decide_eq_true_2.
Qed.
End Pending.

(** Payload entries are exact, whatever the digest function: a stored entry is read as an intent, or as
    a pending rename of a given range, exactly when it is the canonical entry of that value and the
    value is well formed (for a pending rename: valid, so that its carry identifier is its digest). *)
Theorem payload_entries_exact blake3_hex e :
  (∀ i, persistent_journal_intent_from_payload_entry e = Some i ↔ wf_intent i ∧ canonical_intent i = e) ∧
  (∀ src p, persistent_journal_pending_rename_from_payload_entry blake3_hex e src = Some p ↔
     wf_pending_rename p ∧ PersistentJournalPendingRename_validate blake3_hex p = Ok () ∧
     pn_source_range_id p = src ∧ canonical_pending_rename p = e).
Proof. split; intros; [apply intent_entry_Some|apply pending_entry_Some]. Qed.

Definition sample_intent : LibraryChangeIntent :=
  {| in_root_id := lit "root-1"; in_root_generation := {| generation_value := 3 |};
     in_kind := RenameCandidate; in_scope := Path; in_relative_path := lit "b/x.png";
     in_previous_relative_path := Some (lit "a/x.png"); in_origin := StartupCatchUp;
     in_first_observed_unix_ms := 10; in_most_recent_observed_unix_ms := 20;
     in_first_sequence := 5; in_most_recent_sequence := 6; in_coalesced_observation_count := 2 |}.

Example payload_entry_example :
  persistent_journal_intent_from_payload_entry (canonical_intent sample_intent) = Some sample_intent.
Proof. vm_compute. reflexivity. Qed.

(** * Payloads *)

(** ** Representations *)

Definition u64_repr (z : Z) : bytes := le_bytes 8 z.
Definition i64_repr (z : Z) : bytes := le_bytes 8 (z mod 2 ^ 64).
Definition text_repr (s : str) : bytes := u64_repr (zlen (as_bytes s)) ++ as_bytes s.
Definition strings_repr (l : list str) : bytes := u64_repr (zlen l) ++ (l ≫= text_repr).

Lemma cp_text_repr p s : cp_text p s = p ++ text_repr s.
Proof. unfold cp_text, cp_bytes, cp_u64, text_repr, u64_repr. by rewrite (assoc_L (++)). Qed.

Lemma cp_strings_repr p l : cp_strings p l = p ++ strings_repr l.
Proof.
  unfold cp_strings, strings_repr, cp_u64. rewrite (assoc_L (++)). fold (u64_repr (zlen l)).
  generalize (p ++ u64_repr (zlen l)). induction l as [|s l IH]; intros q; [by rewrite app_nil_r|].
  cbn [foldl]. rewrite IH, cp_text_repr, bind_cons. by rewrite (assoc_L (++)).
Qed.

Definition range_repr (r : PersistentJournalSourceRange) : bytes :=
  text_repr (sr_root_id r)
  ++ u64_repr (generation_value (sr_root_generation r))
  ++ text_repr (vol_guid (sr_volume r))
  ++ u64_repr (vol_serial (sr_volume r))
  ++ u64_repr (journal_identifier_value (sr_journal_id r))
  ++ i64_repr (journal_usn_value (sr_requested_start_usn r))
  ++ i64_repr (journal_usn_value (sr_requested_end_usn r))
  ++ i64_repr (journal_usn_value (sr_covered_until_usn r))
  ++ [if sr_is_complete r then 1 else 0]
  ++ u64_repr (sr_protocol_version r)
  ++ u64_repr (sr_contract_version r)
  ++ i64_repr (sr_enrolled_unix_ms r).

Lemma append_source_range_repr p r : append_source_range_payload p r = p ++ range_repr r.
Proof.
  unfold append_source_range_payload, range_repr. cbv zeta.
  rewrite !cp_text_repr. unfold cp_u64, cp_i64, cp_bool, u64_repr, i64_repr.
  by rewrite <-!(assoc_L (++)).
Qed.

Definition tail_repr (b : PersistentJournalEnrollmentBatch) : bytes :=
  if is_empty (eb_directory_changes b) then []
  else text_repr DIRECTORY_NAMESPACE ++ strings_repr (directory_entries b).

Definition body_repr (b : PersistentJournalEnrollmentBatch) : bytes :=
  strings_repr (intent_entries b) ++ strings_repr (lineage_entries b)
  ++ strings_repr (pending_entries b) ++ strings_repr (consumed_entries b) ++ tail_repr b.

Lemma batch_payload_repr b : persistent_journal_batch_payload b = range_repr (eb_range b) ++ body_repr b.
Proof.
  unfold persistent_journal_batch_payload, body_repr, tail_repr. cbv zeta.
  rewrite append_source_range_repr, !cp_strings_repr, cp_text_repr. cbn [app].
  destruct (is_empty _); cbn [negb]; rewrite ?app_nil_r; by rewrite <-!(assoc_L (++)).
Qed.

(** ** Reading what was written *)

(** [m] reads [a] from the bytes [bs], wherever they are in a payload. *)
Definition preads {A : Type} (m : P A) (bs : bytes) (a : A) : Prop := ∀ pre post,
  zlen (pre ++ bs ++ post) ≤ USIZE_MAX →
  m {| pr_payload := pre ++ bs ++ post; pr_offset := zlen pre |} =
  Ok (a, {| pr_payload := pre ++ bs ++ post; pr_offset := zlen pre + zlen bs |}).

Lemma preads_ret {A : Type} (a : A) : preads (mret a) [] a.
Proof. intros pre post _. rewrite zlen_nil, Z.add_0_r. done. Qed.

Lemma preads_bind {A B : Type} (m : P A) (k : A → P B) a b ba bb :
  preads m ba a → preads (k a) bb b → preads (m ≫= k) (ba ++ bb) b.
Proof.
  intros Hm Hk pre post Hl. unfold mbind, st_bind.
  rewrite <-!(assoc_L (++)) in *. rewrite (Hm pre (bb ++ post)) by done.
  cbn [mbind result_bind]. specialize (Hk (pre ++ ba) post).
  rewrite <-!(assoc_L (++)), (zlen_app pre ba) in Hk. rewrite Hk by done.
  by rewrite (zlen_app ba bb), Z.add_assoc.
Qed.

Lemma preads_map {A B : Type} (m : P A) (f : A → B) a bs :
  preads m bs a → preads (m ≫= λ x, mret (f x)) bs (f a).
Proof. intros Hm. rewrite <-(app_nil_r bs). by eapply preads_bind; [|apply preads_ret]. Qed.

Lemma preads_fixed bs n : zlen bs = n → preads (p_fixed n) bs bs.
Proof.
  intros <- pre post Hl. unfold p_fixed, checked_add. cbn [pr_payload pr_offset].
  rewrite !zlen_app in Hl. pose proof (zlen_nonneg post).
  rewrite (proj2 (Z.leb_le _ _)) by lia. cbn [ok_or mbind result_bind].
  rewrite (slice_get_app pre bs post) by done. done.
Qed.

Lemma preads_u64 z : is_u64 z → preads p_u64 (u64_repr z) z.
Proof.
  intros Hz. unfold p_u64. replace z with (le_value (u64_repr z)) at 2.
  { apply preads_map, preads_fixed. unfold u64_repr. by rewrite zlen_le_bytes. }
  unfold u64_repr. rewrite le_value_bytes. apply Z.mod_small. exact Hz.
Qed.

Lemma preads_i64 z : is_i64 z → preads p_i64 (i64_repr z) z.
Proof.
  intros Hz. unfold p_i64. replace z with (to_signed 64 (le_value (i64_repr z))) at 2.
  { apply (preads_map (p_fixed 8) (λ b, to_signed 64 (le_value b))), preads_fixed.
    unfold i64_repr. by rewrite zlen_le_bytes. }
  unfold i64_repr. rewrite le_value_bytes. change (256 ^ Z.of_nat 8) with (2 ^ 64).
  rewrite Z.mod_mod by done. by apply to_signed_wrap.
Qed.

Lemma preads_bool (v : bool) : preads p_bool [if v then 1 else 0] v.
Proof.
  intros pre post _. unfold p_bool. cbn [pr_payload pr_offset].
  assert (Z.to_nat (zlen pre) = length pre) as -> by (unfold zlen; lia). rewrite lookup_app_r by lia.
  replace (length pre - length pre)%nat with O by lia.
  cbn [app lookup list_lookup ok_or mbind result_bind]. by destruct v.
Qed.

Lemma preads_short_text s : is_str s → is_u64 (zlen (as_bytes s)) → preads p_text (text_repr s) s.
Proof.
  intros Hs Hl. unfold p_text, p_bytes, text_repr.
  assert (preads (length ← p_u64; length ← st_lift (try_from_uint 64 length ()); p_fixed length)
            (u64_repr (zlen (as_bytes s)) ++ as_bytes s) (as_bytes s)) as Hb.
  { eapply preads_bind; [by apply preads_u64|]. change (as_bytes s) with ([] ++ as_bytes s) at 2.
    eapply preads_bind; [|by apply preads_fixed]. intros pre post _.
    unfold st_lift, try_from_uint. destruct Hl as [H0 H1].
    rewrite (proj2 (Z.leb_le _ _)) by done. rewrite (proj2 (Z.ltb_lt _ _)) by done.
    cbn. by rewrite zlen_nil, Z.add_0_r. }
  rewrite <-(app_nil_r (_ ++ as_bytes s)). eapply preads_bind; [exact Hb|].
  intros pre post _. rewrite from_utf8_as_bytes by done. unfold st_lift. cbn.
  by rewrite zlen_nil, Z.add_0_r.
Qed.

(** The bound on lengths follows from the size of the payload. *)
Lemma u64_bound n m : 0 ≤ n → n ≤ m → m ≤ USIZE_MAX → is_u64 n.
Proof. unfold is_uint, USIZE_MAX. change (2 ^ 64) with 18446744073709551616. lia. Qed.

Lemma preads_text s : is_str s → preads p_text (text_repr s) s.
Proof.
  intros Hs pre post Hl. apply preads_short_text; [done| |done].
  eapply u64_bound; [apply zlen_nonneg| |exact Hl]. unfold text_repr. len.
Qed.

Lemma preads_texts l : Forall is_str l → preads (p_texts (length l)) (l ≫= text_repr) l.
Proof.
  induction 1 as [|s l Hs _ IH]; [apply preads_ret|]. cbn [p_texts length]. rewrite bind_cons.
  eapply preads_bind; [by apply preads_text|]. by apply (preads_map _ (cons s)).
Qed.

Lemma zlen_texts l : zlen l ≤ zlen (l ≫= text_repr).
Proof.
  induction l as [|s l IH]; [done|]. rewrite bind_cons. unfold text_repr at 1, u64_repr. len.
Qed.

Lemma preads_strings l : Forall is_str l → preads p_strings (strings_repr l) l.
Proof.
  intros H pre post Hl. assert (is_u64 (zlen l)) as Hc.
  { eapply u64_bound; [apply zlen_nonneg| |exact Hl]. pose proof (zlen_texts l).
    unfold strings_repr. len. }
  revert pre post Hl. change (preads p_strings (strings_repr l) l). unfold p_strings, strings_repr.
  eapply preads_bind; [by apply preads_u64|]. change (l ≫= text_repr) with ([] ++ (l ≫= text_repr)).
  eapply preads_bind with (a := zlen l).
  - intros pre post _. unfold st_lift, try_from_uint. destruct Hc as [H0 H1].
    rewrite (proj2 (Z.leb_le _ _)) by done. rewrite (proj2 (Z.ltb_lt _ _)) by done.
    cbn. by rewrite zlen_nil, Z.add_0_r.
  - unfold zlen. rewrite Nat2Z.id. by apply preads_texts.
Qed.

(** ** A typed batch *)

Record typed_range (r : PersistentJournalSourceRange) : Prop := {
  tr_root_id : is_str (sr_root_id r);
  tr_generation : is_u64 (generation_value (sr_root_generation r));
  tr_guid : is_str (vol_guid (sr_volume r));
  tr_serial : is_u64 (vol_serial (sr_volume r));
  tr_journal_id : is_u64 (journal_identifier_value (sr_journal_id r));
  tr_start : is_i64 (journal_usn_value (sr_requested_start_usn r));
  tr_end : is_i64 (journal_usn_value (sr_requested_end_usn r));
  tr_covered : is_i64 (journal_usn_value (sr_covered_until_usn r));
  tr_protocol : is_u64 (sr_protocol_version r);
  tr_contract : is_u64 (sr_contract_version r);
  tr_enrolled : is_i64 (sr_enrolled_unix_ms r);
}.

(** [m] reads [a] from the bytes [bs] at the end of a payload. *)
Definition preads_end {A : Type} (m : P A) (bs : bytes) (a : A) : Prop := ∀ pre,
  zlen (pre ++ bs) ≤ USIZE_MAX →
  ∃ rd, m {| pr_payload := pre ++ bs; pr_offset := zlen pre |} = Ok (a, rd).

Lemma preads_end_bind {A B : Type} (m : P A) (k : A → P B) a b ba bb :
  preads m ba a → preads_end (k a) bb b → preads_end (m ≫= k) (ba ++ bb) b.
Proof.
  intros Hm Hk pre Hl. unfold mbind, st_bind. specialize (Hm pre bb). rewrite Hm by done.
  cbn [mbind result_bind]. specialize (Hk (pre ++ ba)).
  rewrite <-(assoc_L (++)) in Hk. rewrite <-(zlen_app pre ba). by apply Hk.
Qed.

Lemma preads_end_finished {B : Type} (k : bool → P B) b bs :
  preads_end (k (is_empty bs)) bs b → preads_end (p_is_finished ≫= k) bs b.
Proof.
  intros Hk pre Hl. unfold mbind, st_bind, p_is_finished. cbn [pr_payload pr_offset mbind result_bind].
  replace (zlen pre =? zlen (pre ++ bs)) with (is_empty bs); [by apply Hk|].
  rewrite zlen_app. destruct bs as [|x bs]; [rewrite zlen_nil; symmetry; apply Z.eqb_eq; lia|].
  rewrite zlen_cons. pose proof (zlen_nonneg bs). symmetry. apply Z.eqb_neq. lia.
Qed.

Lemma preads_end_ret {A : Type} (a : A) : preads_end (mret a) [] a.
Proof. intros pre _. by eexists. Qed.

(** The optional directory section and the check for trailing bytes. *)
Lemma preads_tail {B : Type} (b : B) batch :
  Forall is_str (directory_entries batch) → Forall (λ e, directory_entry_ok e = true) (directory_entries batch) →
  zlen (directory_entries batch) ≤ 256 →
  preads_end (finished ← p_is_finished;
    (if (finished : bool) then mret ()
     else
       namespace ← p_text;
       if negb (bool_decide (namespace = DIRECTORY_NAMESPACE)) then st_lift (Err ())
       else
         directories ← p_strings;
         if is_empty directories || (256 <? zlen directories) then st_lift (Err ())
         else if negb (forallb directory_entry_ok directories) then st_lift (Err ())
         else mret ());;
    finished ← p_is_finished;
    if (finished : bool) then mret b else st_lift (Err ())) (tail_repr batch) b.
Proof.
  intros Hs Hok Hl. apply preads_end_finished. unfold tail_repr.
  destruct (eb_directory_changes batch) as [|c cs] eqn:Ed; cbn [is_empty].
  { change (@nil Z) with (@nil Z ++ []). eapply (preads_end_bind _ _ tt); [apply preads_ret|].
    apply preads_end_finished. apply preads_end_ret. }
  assert (is_empty (text_repr DIRECTORY_NAMESPACE ++ strings_repr (directory_entries batch)) = false)
    as -> by done.
  assert (preads (namespace ← p_text;
    if negb (bool_decide (namespace = DIRECTORY_NAMESPACE)) then st_lift (Err ())
    else
      directories ← p_strings;
      if is_empty directories || (256 <? zlen directories) then st_lift (Err ())
      else if negb (forallb directory_entry_ok directories) then st_lift (Err ())
      else mret ()) (text_repr DIRECTORY_NAMESPACE ++ strings_repr (directory_entries batch)) tt) as Hd.
  { eapply preads_bind; [apply preads_text; apply (bool_decide_unpack _); vm_compute; exact I|].
    rewrite bool_decide_eq_true_2 by done. cbn [negb].
    rewrite <-(app_nil_r (strings_repr _)). eapply preads_bind; [by apply preads_strings|].
    assert (is_empty (directory_entries batch) = false) as ->.
    { unfold directory_entries. rewrite Ed. destruct (sort_by _ _) eqn:E; [|done].
      apply (f_equal length) in E. by rewrite sort_by_perm in E. }
    rewrite (proj2 (Z.ltb_ge _ _)) by done. rewrite (proj2 (forallb_Forall _ _)) by done. apply preads_ret. }
  rewrite <-(app_nil_r (_ ++ strings_repr _)). eapply preads_end_bind; [exact Hd|].
  apply preads_end_finished. apply preads_end_ret.
Qed.

Definition lists_of (b : PersistentJournalEnrollmentBatch) : PayloadLists :=
  {| pls_intents := intent_entries b; pls_lineage := lineage_entries b;
     pls_pending := pending_entries b; pls_consumed := consumed_entries b |}.

(** The entries a batch is written with are text, and its directory entries are admissible. *)
Record encodable (b : PersistentJournalEnrollmentBatch) : Prop := {
  enc_range : typed_range (eb_range b);
  enc_intents : Forall is_str (intent_entries b);
  enc_lineage : Forall is_str (lineage_entries b);
  enc_pending : Forall is_str (pending_entries b);
  enc_consumed : Forall is_str (consumed_entries b);
  enc_directories : Forall is_str (directory_entries b);
  enc_directories_ok : Forall (λ e, directory_entry_ok e = true) (directory_entries b);
  enc_directory_count : zlen (directory_entries b) ≤ 256;
}.

Lemma decode_batch_payload b :
  encodable b → zlen (persistent_journal_batch_payload b) ≤ USIZE_MAX →
  decode_persistent_journal_batch_payload (persistent_journal_batch_payload b) = Some (lists_of b).
Proof.
  intros [[] Hi Hl Hp Hc Hd Hdo Hdc] Hz. rewrite batch_payload_repr in *.
  assert (preads_end p_batch (range_repr (eb_range b) ++ body_repr b) (lists_of b)) as H.
  { unfold p_batch, range_repr, body_repr. rewrite <-!(assoc_L (++)).
    repeat (eapply preads_end_bind;
      [first [by apply preads_text|by apply preads_u64|by apply preads_i64|apply preads_bool
             |by apply preads_strings]|cbv beta]).
    by apply preads_tail. }
  destruct (H [] Hz) as [rd Hrd]. unfold decode_persistent_journal_batch_payload.
  change (zlen []) with 0 in Hrd. cbn [app] in Hrd. by rewrite Hrd.
Qed.
