(* ===== verification/JournalRecovery.v ===== *)
(** * Recovering a batch from its payload

    A valid batch whose intents and lineage entries are distinct is recovered from the payload it is
    stored as: intents and pending renames as values, lineage as entries. *)

From Stdlib Require Import Sorted.
From S2P Require Import Prelude Text LibraryChange Order Numerals JournalText JournalBatch JournalEntries.

(** ** Sorted entries *)

Lemma strictly_increasing_sorted l :
  StronglySorted (cmp_le lex_compare) l → NoDup l → strictly_increasing l = true.
Proof.
  induction 1 as [|x l Hl IH Hx]; [done|]. intros [Hnx Hnd]%NoDup_cons. destruct l as [|y l]; [done|].
  cbn [strictly_increasing]. apply Forall_cons in Hx as [Hxy _]. unfold cmp_le in Hxy.
  destruct (lex_compare x y) eqn:E; [|by apply IH|done].
  apply lex_compare_Eq in E as ->. exfalso. apply Hnx. by left.
Qed.

Lemma strictly_increasing_sort l : NoDup l → strictly_increasing (sort_by lex_compare l) = true.
Proof.
  intros H. apply strictly_increasing_sorted; [apply sort_by_sorted, _|]. by rewrite sort_by_perm.
Qed.

Lemma sort_by_fmap {A B : Type} (cmp : B → B → comparison) (f : A → B) l :
  sort_by cmp (f <$> l) = f <$> sort_by (compare_on cmp f) l.
Proof.
  induction l as [|x l IH]; [done|]. rewrite fmap_cons. cbn [sort_by foldr].
  fold (sort_by cmp (f <$> l)) (sort_by (compare_on cmp f) l). rewrite IH. clear IH.
  induction (sort_by (compare_on cmp f) l) as [|y k IHk]; [done|]. rewrite fmap_cons. cbn [insert_by].
  change (compare_on cmp f x y) with (cmp (f x) (f y)).
  destruct (cmp (f x) (f y)); [done|done|]. rewrite fmap_cons. f_equal. exact IHk.
Qed.

(** Reading back a list of entries that were written from [l]. *)
Lemma mapM_entries {A : Type} (g : str → option A) (f : A → str) l :
  Forall (λ x, g (f x) = Some x) l →
  ∃ k, k ≡ₚ l ∧ mapM g (sort_by lex_compare (f <$> l)) = Some k.
Proof.
  intros H. exists (sort_by (compare_on lex_compare f) l). split; [apply sort_by_perm|].
  rewrite sort_by_fmap. apply mapM_Some. rewrite Forall2_fmap_l. apply Forall2_same_length_lookup.
  split; [done|]. intros i x y Hx Hy. simplify_eq. rewrite Forall_forall in H. apply H.
  rewrite <-(sort_by_perm (compare_on lex_compare f) l). by eapply list_elem_of_lookup_2.
Qed.

Lemma Forall_sort {A : Type} (cmp : A → A → comparison) (Q : A → Prop) l : Forall Q (sort_by cmp l) ↔ Forall Q l.
Proof. by rewrite sort_by_perm. Qed.

(** ** Typed values *)

Record typed_intent (i : LibraryChangeIntent) : Prop := {
  ti_wf : wf_intent i;
  ti_root_id : is_str (in_root_id i);
  ti_path : is_str (in_relative_path i);
  ti_previous : is_str (default [] (in_previous_relative_path i));
}.

Record typed_lineage (l : PersistentJournalCrossRootLineage) : Prop := {
  tl_id : is_str (ln_lineage_id l);
  tl_owner : is_str (ln_owner_source_range_id l);
  tl_guid : is_str (vol_guid (ln_volume l));
  tl_serial : is_u64 (vol_serial (ln_volume l));
  tl_journal : wf_identifier (ln_journal_id l);
  tl_reference : wf_reference (ln_file_reference l);
  tl_old : from_option wf_usn True (ln_old_usn l);
  tl_new : from_option wf_usn True (ln_new_usn l);
  tl_carry : is_str (default [] (ln_previous_carry_id l));
  tl_previous_root : is_str (ln_previous_root_id l);
  tl_previous_generation : is_u64 (generation_value (ln_previous_root_generation l));
  tl_previous_path : is_str (ln_previous_relative_path l);
  tl_current_root : is_str (ln_current_root_id l);
  tl_current_generation : is_u64 (generation_value (ln_current_root_generation l));
  tl_current_path : is_str (ln_current_relative_path l);
}.

Record typed_pending (p : PersistentJournalPendingRename) : Prop := {
  tp_wf : wf_pending_rename p;
  tp_carry : is_str (pn_carry_id p);
  tp_guid : is_str (vol_guid (pn_volume p));
  tp_root : is_str (pn_previous_root_id p);
  tp_path : is_str (pn_previous_relative_path p);
}.

Record typed_directory (d : PersistentJournalDirectoryChange) : Prop := {
  td_scheme : is_str (fi_scheme (dc_identity d));
  td_value : is_str (fi_value (dc_identity d));
  td_previous : Forall is_str (dc_previous_relative_paths d);
  td_current : is_str (default [] (dc_current_relative_path d));
}.

(** What the types of a batch guarantee, and that the fields of an intent hold no NUL and an intent has
    no empty previous path, which planning guarantees. *)
Record typed_batch (b : PersistentJournalEnrollmentBatch) : Prop := {
  tb_range : typed_range (eb_range b);
  tb_intents : Forall typed_intent (eb_intents b);
  tb_lineage : Forall typed_lineage (eb_cross_root_lineage b ++ eb_carried_cross_root_lineage b);
  tb_pending : Forall typed_pending (eb_pending_renames b);
  tb_consumed : Forall is_str (eb_consumed_pending_rename_ids b);
  tb_directories : Forall typed_directory (eb_directory_changes b);
}.

Lemma is_str_ascii s : Forall is_ascii s → is_str s.
Proof. intros H. eapply Forall_impl; [exact H|]. unfold is_ascii, is_char. lia. Qed.
Lemma is_str_uint n : is_u64 n → is_str (show_uint n).
Proof.
  intros Hn. apply is_str_ascii, Forall_forall. intros c Hc. apply elem_of_show_uint in Hc; [|done].
  unfold is_ascii. lia.
Qed.
Lemma is_str_int n : is_i64 n → is_str (show_int n).
Proof.
  intros Hn. apply is_str_ascii, Forall_forall. intros c Hc. apply elem_of_show_int in Hc; [|done].
  unfold is_ascii. lia.
Qed.
Lemma is_str_lit (s : str) : bool_decide (is_str s) = true → is_str s.
Proof. apply bool_decide_eq_true. Qed.
Lemma is_str_lower_hex s : Forall (λ c, is_lower_hex c = true) s → is_str s.
Proof. intros H. apply is_str_ascii. eapply Forall_impl; [exact H|]. apply is_lower_hex_ascii. Qed.
Lemma is_str_reference r : wf_reference r → is_str (JournalFileReference_to_canonical_text r).
Proof.
  destruct r as [b|b]; intros [Hb _]; unfold JournalFileReference_to_canonical_text;
    rewrite !Forall_app; (split_and!; [by apply is_str_lit|by apply is_str_lit|]);
    by apply is_str_lower_hex, hex_text_lower.
Qed.
Lemma is_str_kind k : is_str (intent_kind_text k).
Proof. destruct k; by apply is_str_lit. Qed.
Lemma is_str_scope s : is_str (intent_scope_text s).
Proof. destruct s; by apply is_str_lit. Qed.
Lemma is_str_origin o : is_str (intent_origin_text o).
Proof. destruct o; by apply is_str_lit. Qed.
Lemma is_str_lineage_state s : is_str (lineage_state_text s).
Proof. destruct s; by apply is_str_lit. Qed.
Lemma is_str_self : is_str (lit "self").
Proof. by apply is_str_lit. Qed.
Lemma is_str_bit (b : bool) : is_str (show_uint (if b then 1 else 0)).
Proof. destruct b; by apply is_str_lit. Qed.
#[export] Hint Resolve is_str_uint is_str_int is_str_reference is_str_kind is_str_scope is_str_origin
  is_str_lineage_state is_str_self is_str_bit : entries.

Lemma is_str_entry fields : Forall is_str fields → is_str (entry_of fields).
Proof. intros H. apply is_str_join; [|done]. by apply is_str_lit. Qed.

Lemma is_str_canonical_intent i : typed_intent i → is_str (canonical_intent i).
Proof.
  intros [[] ? ? ?]. apply is_str_entry. repeat constructor; eauto with entries.
Qed.
Lemma is_str_canonical_pending p : typed_pending p → is_str (canonical_pending_rename p).
Proof.
  intros [[? [] ? [] ? ? ?] ? ? ? ?]. apply is_str_entry.
  do 12 (constructor; [by eauto with entries|]). constructor.
Qed.
Lemma is_str_canonical_lineage l id : typed_lineage l → is_str (canonical_lineage l id).
Proof.
  intros [? ? ? ? [] ? Ho Hn ? ? ? ? ? ? ?]. apply is_str_entry.
  assert (∀ o, from_option wf_usn True o → is_str (show_int (match o with Some u => journal_usn_value u | None => 0 end))) as Hu.
  { intros [u|] Hw; [destruct Hw; by apply is_str_int|by apply is_str_lit]. }
  constructor; [done|]. constructor; [case_bool_decide; by eauto with entries|].
  do 14 (constructor; [by eauto with entries|]). constructor.
Qed.
Lemma is_str_canonical_directory d : typed_directory d → is_str (canonical_directory d).
Proof.
  intros [? ? ? ?]. apply is_str_entry. do 3 (constructor; [done|]). constructor; [|constructor].
  apply is_str_join; [by apply is_str_lit|]. by apply Forall_sort.
Qed.

(** ** Directory entries *)

Lemma hex_padded_lower n z : Forall (λ c, is_lower_hex c = true) (hex_padded n z).
Proof.
  revert z. induction n as [|n IH]; intros z; [constructor|]. cbn [hex_padded].
  apply Forall_app. split; [apply IH|]. constructor; [|constructor].
  apply hex_digit_value. apply Z.mod_pos_bound. lia.
Qed.
Lemma length_hex_padded n z : length (hex_padded n z) = n.
Proof. revert z. induction n as [|n IH]; intros z; [done|]. cbn [hex_padded]. rewrite length_app, IH. simpl. lia. Qed.

(** The identity of a directory is hexadecimal digits around a colon. *)
Lemma directory_value_field value serial :
  starts_with_str (hex_padded 16 serial ++ [58]) value = true →
  forallb is_lower_hex (drop 17 (as_bytes value)) = true → field_ok value.
Proof.
  intros Hp Hd. unfold starts_with_str in Hp. apply bool_decide_eq_true in Hp as [r Hr].
  apply strip_prefix_Some in Hr as ->. set (p := hex_padded 16 serial ++ [58]) in *.
  assert (Forall is_ascii p) as Ha.
  { apply Forall_app. split; [|by constructor; [unfold is_ascii; lia|constructor]].
    eapply Forall_impl; [apply hex_padded_lower|]. apply is_lower_hex_ascii. }
  rewrite as_bytes_app, (as_bytes_ascii p Ha) in Hd.
  rewrite drop_app_length' in Hd by (unfold p; rewrite length_app, length_hex_padded; done).
  unfold field_ok. rewrite not_elem_of_app. split.
  - unfold p. rewrite not_elem_of_app. split; [apply field_lower_hex, hex_padded_lower|by apply field_lit].
  - apply field_lower_hex. by apply lower_hex_bytes.
Qed.

Lemma split_directory a b c ps :
  field_ok a → field_ok b → field_ok c → Forall field_ok ps →
  split_on 0 (entry_of [a; b; c; join [0] ps]) = [a; b; c] ++ (if is_empty ps then [[]] else ps).
Proof.
  intros Ha Hb Hc Hps. unfold entry_of. rewrite !join_cons by done.
  cbn [join app]. rewrite !split_on_app by done.
  destruct ps as [|p ps]; [done|]. by rewrite split_join.
Qed.

Lemma directory_validate_paths d volume :
  PersistentJournalDirectoryChange_validate d volume = Ok () →
  fi_scheme (dc_identity d) = DIRECTORY_IDENTITY_SCHEME ∧
  str_len (fi_value (dc_identity d)) = 49 ∧ field_ok (fi_value (dc_identity d)) ∧
  zlen (dc_previous_relative_paths d) ≤ 64 ∧
  Forall (λ p, journal_validate_relative_path p = Ok () ∧ p ≠ []) (directory_paths d).
Proof.
  unfold PersistentJournalDirectoryChange_validate. intros H. simplify_result.
  rename H0 into Hid. rewrite !orb_false_iff, !negb_false_iff, bool_decide_eq_true, Z.eqb_eq in Hid.
  destruct Hid as ((((Hs & Hl) & Hp) & Hh) & Hc). split_and!; [done|done| |by apply Z.ltb_ge|].
  - by eapply directory_value_field.
  - apply result_iter_Ok in H. eapply Forall_impl; [exact H|]. intros p Hp'. cbv beta in Hp'.
    simplify_result. destruct p; [done|]. split; [|done]. repeat match goal with u : () |- _ => destruct u end. done.
Qed.

Lemma directory_entry_valid d volume :
  PersistentJournalDirectoryChange_validate d volume = Ok () →
  directory_entry_ok (canonical_directory d) = true.
Proof.
  intros Hv. destruct (directory_validate_paths d volume Hv) as (Hs & Hl & Hf & Hc & Hp).
  unfold directory_paths in Hp. apply Forall_app in Hp as [Hprev Hcur].
  assert (field_ok (default [] (dc_current_relative_path d)) ∧
    (is_empty (default [] (dc_current_relative_path d))
     || is_ok (journal_validate_relative_path (default [] (dc_current_relative_path d)))) = true) as [Hcf Hco].
  { destruct (dc_current_relative_path d) as [p|]; [|split; [apply field_nil|done]].
    apply Forall_cons in Hcur as [[Hv' _] _]. cbn [from_option id]. rewrite Hv'. cbn [is_ok].
    split; [by apply path_field in Hv' as [? _]|]. by destruct (is_empty p). }
  unfold directory_entry_ok, canonical_directory. set (ps := sort_by _ _).
  assert (Forall (λ p, journal_validate_relative_path p = Ok () ∧ p ≠ []) ps) as Hps
    by (by apply Forall_sort).
  assert (zlen ps ≤ 64) as Hz by (unfold ps, zlen; rewrite sort_by_perm; done).
  rewrite split_directory; [|rewrite Hs; by apply field_lit|done|done|].
  2: { eapply Forall_impl; [exact Hps|]. intros p [Hp _]. by apply path_field in Hp as [? _]. }
  cbn [app lookup list_lookup drop]. rewrite Hs, Hl. rewrite bool_decide_eq_true_2 by done.
  cbn [forallb]. rewrite Hco. change (49 =? 49) with true. cbn [andb negb orb].
  rewrite !orb_false_r. apply andb_true_iff. split.
  - apply negb_true_iff, orb_false_iff. rewrite !zlen_cons.
    destruct ps as [|p ps']; cbn [is_empty]; rewrite zlen_cons in *.
    + rewrite zlen_nil. by vm_compute.
    + pose proof (zlen_nonneg ps'). split; apply Z.ltb_ge; lia.
  - destruct ps as [|p ps']; [done|]. cbn [is_empty]. apply forallb_Forall.
    eapply Forall_impl; [exact Hps|]. intros q [Hq _]. cbv beta. rewrite Hq. by destruct (is_empty q).
Qed.

(** ** Consequences of validation *)

Section Validated.
Context (blake3_hex : bytes → str).

(** The loops that thread a set of identifiers refuse repetitions. *)
Lemma foldl_distinct {A E : Type} (f : list str → A → Result E (list str)) (key : A → str) l s s' :
  (∀ s a s', f s a = Ok s' → key a ∉ s ∧ s' = key a :: s) →
  result_foldl f s l = Ok s' → NoDup (key <$> l) ∧ Forall (λ a, key a ∉ s) l.
Proof.
  intros Hf. revert s. induction l as [|a l IH]; intros s H; cbn [result_foldl] in H.
  { split; constructor. }
  apply result_bind_Ok in H as (s1 & Ha & H). apply Hf in Ha as [Hk ->].
  destruct (IH _ H) as [Hnd Hall]. rewrite fmap_cons. split.
  - apply NoDup_cons. split; [|done]. intros (b & Heq & Hb)%list_elem_of_fmap.
    rewrite Forall_forall in Hall. apply (Hall b Hb). rewrite <-Heq. by left.
  - constructor; [done|]. eapply Forall_impl; [exact Hall|]. cbv beta. intros b Hb Hin. apply Hb. by right.
Qed.

Record batch_facts (b : PersistentJournalEnrollmentBatch) : Prop := {
  bf_pending : Forall (λ p, PersistentJournalPendingRename_validate blake3_hex p = Ok () ∧
                            pn_source_range_id p = sr_batch_id (eb_range b)) (eb_pending_renames b);
  bf_pending_distinct : NoDup (pn_carry_id <$> eb_pending_renames b);
  bf_consumed_distinct : NoDup (eb_consumed_pending_rename_ids b);
  bf_directories : Forall (λ d, PersistentJournalDirectoryChange_validate d (sr_volume (eb_range b)) = Ok ())
                     (eb_directory_changes b);
  bf_directory_count : zlen (eb_directory_changes b) ≤ 256;
}.

Lemma validate_pending_step range ids p ids' :
  validate_batch_pending blake3_hex range ids p = Ok ids' →
  (pn_carry_id p ∉ ids ∧ ids' = pn_carry_id p :: ids) ∧
  PersistentJournalPendingRename_validate blake3_hex p = Ok () ∧ pn_source_range_id p = sr_batch_id range.
Proof.
  unfold validate_batch_pending. intros H. simplify_result.
  match goal with H : _ || _ = false |- _ => rename H into Hor end.
  rewrite !orb_false_iff, !negb_false_iff, !bool_decide_eq_true, bool_decide_eq_false in Hor.
  repeat match goal with u : () |- _ => destruct u end. tauto.
Qed.

Lemma validate_consumed_step pending ids c ids' :
  validate_consumed pending ids c = Ok ids' → c ∉ ids ∧ ids' = c :: ids.
Proof.
  unfold validate_consumed. intros H. simplify_result.
  match goal with H : _ || _ = false |- _ => rename H into Hor end.
  rewrite orb_false_iff, !bool_decide_eq_false in Hor. tauto.
Qed.

Lemma validate_batch_facts b :
  PersistentJournalEnrollmentBatch_validate blake3_hex b = Ok () → batch_facts b.
Proof.
  unfold PersistentJournalEnrollmentBatch_validate. cbv zeta. intros H. simplify_result.
  repeat match goal with H : result_iter _ _ = Ok _ |- _ => apply result_iter_Ok in H end.
  match goal with H : result_foldl (validate_batch_pending _ _) _ _ = _ |- _ => rename H into Hp end.
  match goal with H : result_foldl (validate_consumed _) _ _ = _ |- _ => rename H into Hc end.
  match goal with H : (256 <? _) = false |- _ => apply Z.ltb_ge in H; rename H into Hd end.
  split.
  - eapply result_foldl_Forall; [|exact Hp]. intros s p s' Hs. by apply validate_pending_step in Hs as [_ ?].
  - eapply (foldl_distinct _ pn_carry_id); [|exact Hp]. intros s p s' Hs. by apply validate_pending_step in Hs as [? _].
  - rewrite <-(list_fmap_id (eb_consumed_pending_rename_ids b)).
    eapply (foldl_distinct _ id); [|exact Hc]. intros s p s' Hs. by apply validate_consumed_step in Hs.
  - match goal with H : Forall (λ _, (_;; result_iter _ _) = Ok _) _ |- _ => rename H into Hdir end.
    eapply Forall_impl; [exact Hdir|]. cbv beta. intros d Hd'. simplify_result.
    repeat match goal with u : () |- _ => destruct u end. done.
  - done.
Qed.

Lemma typed_encodable b : typed_batch b → batch_facts b → encodable b.
Proof.
  intros [Hr Hi Hl Hp Hc Hd] [_ _ _ Hdv Hdc].
  split; [done|..]; unfold intent_entries, lineage_entries, pending_entries, consumed_entries, directory_entries;
    rewrite ?Forall_sort, ?Forall_fmap.
  - eapply Forall_impl; [exact Hi|]. apply is_str_canonical_intent.
  - eapply Forall_impl; [exact Hl|]. intros l Hl'. by apply is_str_canonical_lineage.
  - eapply Forall_impl; [exact Hp|]. apply is_str_canonical_pending.
  - done.
  - eapply Forall_impl; [exact Hd|]. apply is_str_canonical_directory.
  - eapply Forall_impl; [exact Hdv|]. intros d Hd'. exact (directory_entry_valid d _ Hd').
  - unfold zlen. rewrite sort_by_perm, length_fmap. exact Hdc.
Qed.

(** Every pending rename of a valid batch is read back from its entry. *)
Lemma pending_read_back b : typed_batch b → batch_facts b →
  Forall (λ p, persistent_journal_pending_rename_from_payload_entry blake3_hex
                 (canonical_pending_rename p) (sr_batch_id (eb_range b)) = Some p) (eb_pending_renames b).
Proof.
  intros Ht Hf. pose proof (tb_pending _ Ht) as Hp. pose proof (bf_pending _ Hf) as Hv.
  apply Forall_forall. intros p Hin. rewrite Forall_forall in Hp, Hv.
  destruct (Hv p Hin) as [Hval Hsrc]. apply pending_entry_Some. split; [apply Hp, Hin|]. done.
Qed.

Lemma intents_read_back b : typed_batch b →
  Forall (λ i, persistent_journal_intent_from_payload_entry (canonical_intent i) = Some i) (eb_intents b).
Proof.
  intros Ht. eapply Forall_impl; [apply tb_intents, Ht|]. intros i [Hi _ _ _]. by apply intent_entry_Some.
Qed.

(** Entries that are read back to their values are as distinct as the values. *)
Lemma NoDup_entries {A : Type} (g : str → option A) (f : A → str) l :
  Forall (λ x, g (f x) = Some x) l → NoDup l → NoDup (f <$> l).
Proof.
  intros Hg Hnd. apply NoDup_fmap_2_strong; [|done]. rewrite Forall_forall in Hg.
  intros x y Hx Hy Heq. apply Hg in Hx, Hy. congruence.
Qed.

End Validated.

(** C25: A stored batch can be recovered.  The payload of a valid batch whose intents and lineage entries
    are distinct decodes, and gives back every intent and every pending rename as the value it was,
    the lineage entries in order, and the consumed carry identifiers; nothing is added or lost. *)
Theorem batch_recoverable blake3_hex b :
  typed_batch b → PersistentJournalEnrollmentBatch_validate blake3_hex b = Ok () →
  NoDup (eb_intents b) → NoDup (lineage_entries b) →
  zlen (persistent_journal_batch_payload b) ≤ USIZE_MAX →
  ∃ children pending,
    persistent_journal_batch_payload_children (persistent_journal_batch_payload b) = Some children ∧
    ch_intents children ≡ₚ eb_intents b ∧
    ch_lineage children = lineage_entries b ∧
    mapM (λ e, persistent_journal_pending_rename_from_payload_entry blake3_hex e (sr_batch_id (eb_range b)))
      (ch_pending_renames children) = Some pending ∧
    pending ≡ₚ eb_pending_renames b ∧
    ch_consumed_pending_rename_ids children ≡ₚ eb_consumed_pending_rename_ids b.
Proof.
  intros Ht Hv Hni Hnl Hz. apply validate_batch_facts in Hv as Hf.
  pose proof (intents_read_back b Ht) as Hi. pose proof (pending_read_back blake3_hex b Ht Hf) as Hp.
  destruct (mapM_entries _ _ _ Hi) as (ki & Hki & Hmi).
  destruct (mapM_entries (λ e, persistent_journal_pending_rename_from_payload_entry blake3_hex e
    (sr_batch_id (eb_range b))) canonical_pending_rename _ Hp) as (kp & Hkp & Hmp).
  assert (existsb (λ entries, negb (strictly_increasing entries))
    [intent_entries b; lineage_entries b; pending_entries b; consumed_entries b] = false) as Hinc.
  { cbn [existsb]. rewrite !orb_false_iff, !negb_false_iff. split_and!; [..|done].
    - apply strictly_increasing_sort. by eapply NoDup_entries.
    - apply strictly_increasing_sort. unfold lineage_entries in Hnl. by rewrite sort_by_perm in Hnl.
    - apply strictly_increasing_sort. eapply (NoDup_entries (λ e, persistent_journal_pending_rename_from_payload_entry blake3_hex e
        (sr_batch_id (eb_range b)))); [exact Hp|].
      eapply NoDup_fmap_1. exact (bf_pending_distinct _ _ Hf).
    - apply strictly_increasing_sort. by eapply bf_consumed_distinct. }
  exists {| ch_intents := ki; ch_lineage := lineage_entries b; ch_pending_renames := pending_entries b;
            ch_consumed_pending_rename_ids := consumed_entries b |}, kp.
  split_and!; [|exact Hki|done|exact Hmp|done|].
  - unfold persistent_journal_batch_payload_children.
    rewrite decode_batch_payload; [|by apply (typed_encodable blake3_hex)|done].
    cbn [mbind option_bind lists_of pls_intents pls_lineage pls_pending pls_consumed]. rewrite Hinc.
    unfold intent_entries. rewrite Hmi. reflexivity.
  - cbn. apply sort_by_perm.
Qed.

Definition sample_blake3 (b : bytes) : str := replicate 64 97.

Definition sample_volume : PersistentJournalVolumeIdentity :=
  {| vol_guid := lit "volume-guid"; vol_serial := 77 |}.

Definition sample_pending_rename : PersistentJournalPendingRename :=
  {| pn_carry_id := replicate 64 97; pn_source_range_id := replicate 64 98; pn_volume := sample_volume;
     pn_journal_id := {| journal_identifier_value := 5 |};
     pn_file_reference := RefV2 (replicate 8 1); pn_old_usn := {| journal_usn_value := 120 |};
     pn_previous_root_id := lit "root-1"; pn_previous_root_generation := {| generation_value := 3 |};
     pn_previous_relative_path := lit "a/y.png"; pn_is_directory := false; pn_enrolled_unix_ms := 9 |}.

Definition sample_batch : PersistentJournalEnrollmentBatch :=
  {| eb_range :=
       {| sr_batch_id := replicate 64 98; sr_root_id := lit "root-1";
          sr_root_generation := {| generation_value := 3 |}; sr_volume := sample_volume;
          sr_journal_id := {| journal_identifier_value := 5 |};
          sr_requested_start_usn := {| journal_usn_value := 100 |};
          sr_requested_end_usn := {| journal_usn_value := 200 |};
          sr_covered_until_usn := {| journal_usn_value := 200 |}; sr_is_complete := true;
          sr_protocol_version := 5; sr_contract_version := 1; sr_state := RangeEnrolled;
          sr_enrolled_unix_ms := 9; sr_checkpointed_unix_ms := None |};
     eb_intents := [sample_intent];
     eb_cross_root_lineage := [];
     eb_carried_cross_root_lineage := [];
     eb_pending_renames := [sample_pending_rename];
     eb_consumed_pending_rename_ids := [lit "carry"];
     eb_directory_changes := [] |}.

Ltac decide_now := apply (bool_decide_unpack _); vm_compute; exact I.

Lemma sample_batch_typed : typed_batch sample_batch.
Proof.
  split.
  - split; decide_now.
  - constructor; [|constructor]. split; [split; unfold field_ok; try decide_now; try (split; decide_now); vm_compute; discriminate|decide_now..].
  - constructor.
  - constructor; [|constructor]. split; [|decide_now..].
    split; try decide_now; try (split; decide_now); vm_compute; discriminate.
  - decide_now.
  - constructor.
Defined.

Lemma batch_recoverable_witness :
  ∃ children pending,
    persistent_journal_batch_payload_children (persistent_journal_batch_payload sample_batch) = Some children ∧
    ch_intents children ≡ₚ [sample_intent] ∧ pending ≡ₚ [sample_pending_rename].
Proof.
  destruct (batch_recoverable sample_blake3 sample_batch) as (ch & pn & H1 & H2 & _ & _ & H5 & _).
  - exact sample_batch_typed.
  - vm_compute. reflexivity.
  - apply NoDup_singleton.
  - decide_now.
  - vm_compute. discriminate.
  - exists ch, pn. split; [exact H1|]. split; [exact H2|exact H5].
Defined.
