(* ===== verification/JournalIdentity.v ===== *)
(** * What a stored payload and a carry identifier identify

    The fields of the canonical payload are self-delimiting: no two different sequences of fields have
    the same bytes.  Two consequences matter to the catalog: a payload matches the range it was
    written for and no other, and the digest input of a pending rename determines the rename. *)

From S2P Require Import Prelude Text LibraryChange Order Numerals JournalText JournalBatch JournalEntries.
From S2P Require Import JournalRecovery.

(** [repr] is self-delimiting on the values that satisfy [wf]. *)
Definition prefix_free {A : Type} (wf : A → Prop) (repr : A → bytes) : Prop :=
  ∀ a b x y, wf a → wf b → repr a ++ x = repr b ++ y → a = b ∧ x = y.

Lemma prefix_free_u64 : prefix_free is_u64 u64_repr.
Proof.
  intros a b x y Ha Hb H. unfold u64_repr in H. apply app_inj_1 in H as [H ->]; [|by rewrite !length_le_bytes].
  split; [|done]. apply (f_equal le_value) in H. rewrite !le_value_bytes in H.
  change (256 ^ Z.of_nat 8) with (2 ^ 64) in H. by rewrite !Z.mod_small in H.
Qed.

Lemma prefix_free_i64 : prefix_free is_i64 i64_repr.
Proof.
  intros a b x y Ha Hb H. unfold i64_repr in H.
  assert (∀ z, is_u64 (z mod 2 ^ 64)) as Hu by (intros z; apply Z.mod_pos_bound; lia).
  apply (prefix_free_u64 _ _ x y (Hu a) (Hu b)) in H as [H ->]. split; [|done].
  apply (f_equal (to_signed 64)) in H. by rewrite !to_signed_wrap in H.
Qed.

Lemma prefix_free_bool : prefix_free (λ _, True) (λ v : bool, [if v then 1 else 0]).
Proof. intros [] [] x y _ _ [= H]; done. Qed.

Lemma as_bytes_inj s t : is_str s → is_str t → as_bytes s = as_bytes t → s = t.
Proof. intros Hs Ht H. apply from_utf8_as_bytes in Hs, Ht. congruence. Qed.

(** A text short enough for its length to be written exactly. *)
Definition short_text (s : str) : Prop := is_str s ∧ is_u64 (zlen (as_bytes s)).

Lemma prefix_free_text : prefix_free short_text text_repr.
Proof.
  intros a b x y [Ha Hla] [Hb Hlb] H. unfold text_repr in H. rewrite <-!(assoc_L (++)) in H.
  apply prefix_free_u64 in H as [Hl H]; [|done..].
  apply app_inj_1 in H as [H ->]; [|unfold zlen in Hl; lia]. split; [|done]. by apply as_bytes_inj.
Qed.

(** Peels the fields of two equal payloads one by one. *)
Ltac peel H :=
  rewrite <-?(assoc_L (++)) in H;
  repeat (first
    [ apply prefix_free_text in H as [? H]; [|by (done || split)..]
    | apply prefix_free_u64 in H as [? H]; [|done..]
    | apply prefix_free_i64 in H as [? H]; [|done..]
    | apply prefix_free_bool in H as [? H]; [|done..] ]).

(** ** Ranges *)

(** The fields of a range its payload records. *)
Definition same_range (r q : PersistentJournalSourceRange) : Prop :=
  sr_root_id r = sr_root_id q ∧ sr_root_generation r = sr_root_generation q ∧
  sr_volume r = sr_volume q ∧ sr_journal_id r = sr_journal_id q ∧
  sr_requested_start_usn r = sr_requested_start_usn q ∧
  sr_requested_end_usn r = sr_requested_end_usn q ∧
  sr_covered_until_usn r = sr_covered_until_usn q ∧ sr_is_complete r = sr_is_complete q ∧
  sr_protocol_version r = sr_protocol_version q ∧ sr_contract_version r = sr_contract_version q ∧
  sr_enrolled_unix_ms r = sr_enrolled_unix_ms q.

Definition short_range (r : PersistentJournalSourceRange) : Prop :=
  typed_range r ∧ is_u64 (zlen (as_bytes (sr_root_id r))) ∧ is_u64 (zlen (as_bytes (vol_guid (sr_volume r)))).

Lemma range_repr_inj r q x y :
  short_range r → short_range q → range_repr r ++ x = range_repr q ++ y → same_range r q ∧ x = y.
Proof.
  intros [[] [Hr1 Hr2]] [[] [Hq1 Hq2]] H. unfold range_repr in H. peel H.
  split; [|done]. unfold same_range. destruct r as [? ? [] [] [] [] [] [] ? ? ? ? ? ?],
    q as [? ? [] [] [] [] [] [] ? ? ? ? ? ?]. cbn in *. subst. done.
Qed.

Lemma same_range_repr r q : same_range r q → range_repr r = range_repr q.
Proof.
  intros (H1 & H2 & H3 & H4 & H5 & H6 & H7 & H8 & H9 & H10 & H11). unfold range_repr.
  by rewrite H1, H2, H3, H4, H5, H6, H7, H8, H9, H10, H11.
Qed.

Lemma starts_with_str_true p s : starts_with_str p s = true ↔ ∃ r, s = p ++ r.
Proof.
  unfold starts_with_str. rewrite bool_decide_eq_true. split.
  - intros [r Hr]. exists r. by apply strip_prefix_Some.
  - intros [r ->]. exists r. by apply strip_prefix_Some.
Qed.

(** The validated length bounds make every identifier short. *)
Lemma validated_short_range r :
  typed_range r → PersistentJournalSourceRange_validate r = Ok () → short_range r.
Proof.
  intros Ht. unfold PersistentJournalSourceRange_validate, PersistentJournalVolumeIdentity_validate.
  intros H. simplify_result. split; [done|].
  assert (∀ v n name u, n ≤ 512 → journal_validate_identifier v n name = Ok u → is_u64 (zlen (as_bytes v))) as Hs.
  { intros v n name u Hn. unfold journal_validate_identifier, str_len.
    destruct (is_empty (trim v)); [done|]. cbn [orb].
    destruct (Z.ltb_spec n (zlen (as_bytes v))) as [|Hle]; [done|]. intros _. pose proof (zlen_nonneg (as_bytes v)).
    unfold is_uint. change (2 ^ 64) with 18446744073709551616. lia. }
  split; (eapply Hs; [|eassumption]; lia).
Qed.

(** C39: A stored payload matches the range it was written for and no other: the test by prefix accepts a
    range exactly when the range agrees with the batch's own on every field the payload records. *)
Theorem payload_matches_range_iff batch range :
  typed_range (eb_range batch) → PersistentJournalSourceRange_validate (eb_range batch) = Ok () →
  typed_range range → PersistentJournalSourceRange_validate range = Ok () →
  persistent_journal_batch_payload_matches_source_range (persistent_journal_batch_payload batch) range = true ↔
  same_range (eb_range batch) range.
Proof.
  intros Ht Hv Htr Hvr. unfold persistent_journal_batch_payload_matches_source_range,
    persistent_journal_source_range_payload_prefix.
  rewrite starts_with_str_true, append_source_range_repr, batch_payload_repr. cbn [app]. split.
  - intros [rest H]. apply range_repr_inj in H as [H _]; [done|by apply validated_short_range..].
  - intros H. exists (body_repr batch). by rewrite (same_range_repr _ _ H).
Qed.

Lemma payload_matches_range_witness :
  persistent_journal_batch_payload_matches_source_range (persistent_journal_batch_payload sample_batch)
    (eb_range sample_batch) = true.
Proof.
  apply payload_matches_range_iff.
  - split; decide_now.
  - vm_compute. reflexivity.
  - split; decide_now.
  - vm_compute. reflexivity.
  - unfold same_range. split_and!; reflexivity.
Defined.

(** ** Carry identifiers *)

(** The fields that identify a pending rename. *)
Definition same_rename (p q : PersistentJournalPendingRename) : Prop :=
  pn_volume p = pn_volume q ∧ pn_journal_id p = pn_journal_id q ∧
  pn_file_reference p = pn_file_reference q ∧ pn_old_usn p = pn_old_usn q ∧
  pn_previous_root_id p = pn_previous_root_id q ∧
  pn_previous_root_generation p = pn_previous_root_generation q ∧
  pn_previous_relative_path p = pn_previous_relative_path q ∧ pn_is_directory p = pn_is_directory q.

Lemma reference_text_inj r q :
  wf_reference r → wf_reference q →
  JournalFileReference_to_canonical_text r = JournalFileReference_to_canonical_text q → r = q.
Proof.
  intros Hr Hq H. pose proof (proj2 (reference_parse_Ok _ r) (conj Hr eq_refl)) as H1.
  pose proof (proj2 (reference_parse_Ok _ q) (conj Hq eq_refl)) as H2. congruence.
Qed.

Lemma short_reference r : wf_reference r → short_text (JournalFileReference_to_canonical_text r).
Proof.
  intros Hr. split; [by apply is_str_reference|].
  rewrite as_bytes_ascii.
  - destruct r as [b|b]; destruct Hr as [Hb Hz]; unfold JournalFileReference_to_canonical_text;
      rewrite !zlen_app, zlen_hex_text, Hz; vm_compute; split; congruence.
  - assert (∀ b, Forall is_u8 b → Forall is_ascii (hex_text b)) as Hh.
    { intros b Hb. eapply Forall_impl; [by apply hex_text_lower|]. apply is_lower_hex_ascii. }
    destruct r as [b|b]; destruct Hr as [Hb Hz]; unfold JournalFileReference_to_canonical_text;
      rewrite !Forall_app; (split_and!; [repeat constructor; done|repeat constructor; done|by apply Hh]).
Qed.

Lemma validated_short v n name u : is_str v → 0 ≤ n ≤ 32767 →
  journal_validate_identifier v n name = Ok u → short_text v.
Proof.
  intros Hv Hn. unfold journal_validate_identifier, str_len. destruct (is_empty (trim v)); [done|].
  cbn [orb]. destruct (Z.ltb_spec n (zlen (as_bytes v))); [done|]. intros _. split; [done|].
  pose proof (zlen_nonneg (as_bytes v)). unfold is_uint. change (2 ^ 64) with 18446744073709551616. lia.
Qed.

Lemma validated_short_path v u : is_str v → journal_validate_relative_path v = Ok u → short_text v.
Proof.
  intros Hv. unfold journal_validate_relative_path, str_len. destruct (is_empty v); [done|].
  cbn [orb]. destruct (Z.ltb_spec 32767 (zlen (as_bytes v))); [done|]. intros _. split; [done|].
  pose proof (zlen_nonneg (as_bytes v)). unfold is_uint. change (2 ^ 64) with 18446744073709551616. lia.
Qed.

Lemma pending_digest_input_repr p :
  pending_rename_digest_input p =
  CanonicalDigest_new (lit "persistent-journal-pending-rename-v1")
  ++ text_repr (vol_guid (pn_volume p)) ++ u64_repr (vol_serial (pn_volume p))
  ++ u64_repr (journal_identifier_value (pn_journal_id p))
  ++ text_repr (JournalFileReference_to_canonical_text (pn_file_reference p))
  ++ i64_repr (journal_usn_value (pn_old_usn p)) ++ text_repr (pn_previous_root_id p)
  ++ u64_repr (generation_value (pn_previous_root_generation p))
  ++ text_repr (pn_previous_relative_path p) ++ [if pn_is_directory p then 1 else 0].
Proof.
  unfold pending_rename_digest_input. cbv zeta. rewrite !cp_text_repr.
  unfold cp_u64, cp_i64, cp_bool. unfold u64_repr, i64_repr. by rewrite <-!(assoc_L (++)).
Qed.

Lemma validated_pending_short blake3_hex p :
  typed_pending p → PersistentJournalPendingRename_validate blake3_hex p = Ok () →
  short_text (vol_guid (pn_volume p)) ∧ short_text (pn_previous_root_id p) ∧
  short_text (pn_previous_relative_path p).
Proof.
  intros []. unfold PersistentJournalPendingRename_validate, PersistentJournalVolumeIdentity_validate.
  intros H. simplify_result.
  split_and!; [eapply validated_short; [done| |eassumption]; lia..|by eapply validated_short_path].
Qed.

(** C40: A carry identifier identifies its rename: unless two digest inputs collide, valid pending renames
    with one carry identifier agree on the volume, the journal, the file reference, the position, the
    root and its generation, the path and the kind of the entry. *)
Theorem carry_id_identifies blake3_hex p q :
  typed_pending p → typed_pending q →
  PersistentJournalPendingRename_validate blake3_hex p = Ok () →
  PersistentJournalPendingRename_validate blake3_hex q = Ok () →
  (blake3_hex (pending_rename_digest_input p) = blake3_hex (pending_rename_digest_input q) →
   pending_rename_digest_input p = pending_rename_digest_input q) →
  pn_carry_id p = pn_carry_id q → same_rename p q.
Proof.
  intros Hp Hq Hvp Hvq Hcol Hid.
  destruct (pending_validate_fields _ _ Hvp) as (_ & _ & _ & _ & _ & Hip).
  destruct (pending_validate_fields _ _ Hvq) as (_ & _ & _ & _ & _ & Hiq).
  assert (pending_rename_digest_input p = pending_rename_digest_input q) as H
    by (apply Hcol; unfold persistent_journal_pending_rename_id, CanonicalDigest_finish in *; congruence).
  destruct (validated_pending_short _ _ Hp Hvp) as (? & ? & ?).
  destruct (validated_pending_short _ _ Hq Hvq) as (? & ? & ?).
  destruct Hp as [[? [] Hrp [] ? ? ?] ? ? ? ?], Hq as [[? [] Hrq [] ? ? ?] ? ? ? ?].
  pose proof (short_reference _ Hrp). pose proof (short_reference _ Hrq).
  rewrite !pending_digest_input_repr in H. apply app_inv_head in H. peel H.
  match goal with H : JournalFileReference_to_canonical_text _ = _ |- _ =>
    apply reference_text_inj in H; [|done..] end.
  unfold same_rename. destruct p as [? ? [] [] ? [] ? [] ? [] ?], q as [? ? [] [] ? [] ? [] ? [] ?];
    cbn in *; subst; done.
Qed.

Lemma carry_id_identifies_witness : same_rename sample_pending_rename sample_pending_rename.
Proof.
  apply (carry_id_identifies sample_blake3 sample_pending_rename sample_pending_rename).
  - apply (Forall_cons_1 _ _ _ (tb_pending _ sample_batch_typed)).
  - apply (Forall_cons_1 _ _ _ (tb_pending _ sample_batch_typed)).
  - vm_compute. reflexivity.
  - vm_compute. reflexivity.
  - reflexivity.
  - reflexivity.
Defined.
