(* ===== verification/ChangeQueue.v ===== *)
(** * The vocabulary of the durable change queue

    Models the types and bounds of [domain/library_change_queue.rs] and the evidence of
    [domain/library_change_catch_up.rs]: identifiers, statuses, the policy with its validation and the capacity it
    gives each lane, and the report of an enqueue. *)

From S2P Require Import Prelude Text LibraryChange.

#[export] Instance LibraryChangeLane_eq_dec : EqDecision LibraryChangeLane.
Proof. solve_decision. Defined.

(** [LibraryChangeId]: a nonzero [u64]. *)
Record LibraryChangeId := { change_id_value : Z }.
#[export] Instance LibraryChangeId_eq_dec : EqDecision LibraryChangeId.
Proof. solve_decision. Defined.

Definition LibraryChangeId_new (value : Z) : option LibraryChangeId :=
  if value =? 0 then None else Some {| change_id_value := value |}.

Inductive LibraryChangeQueueStatus := Pending | Leased | RetryWait | Completed | Superseded.
#[export] Instance LibraryChangeQueueStatus_eq_dec : EqDecision LibraryChangeQueueStatus.
Proof. solve_decision. Defined.

Record LibraryChangeFailure := { fl_code : str; fl_message : str }.

Record LibraryChangeCatchUpEvidence := { cue_source : str; cue_watermark : str }.
#[export] Instance LibraryChangeCatchUpEvidence_eq_dec : EqDecision LibraryChangeCatchUpEvidence.
Proof. solve_decision. Defined.

(** [LibraryChangeCapacityDeferral] has the one case [MetadataInventoryLane]. *)
Definition RESERVED_FAILURE_CODE_PREFIX : str := lit "live_gap_p2_capacity_".
Definition METADATA_INVENTORY_LANE_CODE : str := lit "live_gap_p2_capacity_deferred".
Definition METADATA_INVENTORY_LANE_MESSAGE : str :=
  lit "The P0 live gap is durably waiting for P2 metadata-inventory capacity".
Definition is_reserved_failure_code (code : str) : bool := starts_with_str RESERVED_FAILURE_CODE_PREFIX code.

Record LibraryChangeQueuePolicy := {
  qp_debounce_millis : Z;
  qp_max_unresolved_changes : Z;
  qp_max_lease_batch : Z;
  qp_lease_duration_millis : Z;
  qp_max_attempts : Z;
  qp_retry_initial_delay_millis : Z;
  qp_retry_maximum_delay_millis : Z;
  qp_terminal_retention_millis : Z;
  qp_cleanup_batch : Z;
}.

Definition MAX_DEBOUNCE_MILLIS : Z := 60000.
Definition MAX_UNRESOLVED_CHANGES : Z := 4096.
Definition MAX_LEASE_BATCH : Z := 128.
Definition MAX_LEASE_DURATION_MILLIS : Z := 15 * 60 * 1000.
Definition MAX_ATTEMPTS : Z := 32.
Definition MAX_RETRY_DELAY_MILLIS : Z := 60 * 60 * 1000.
Definition MAX_TERMINAL_RETENTION_MILLIS : Z := 365 * 24 * 60 * 60 * 1000.
Definition MAX_CLEANUP_BATCH : Z := 1024.

Definition LibraryChangeQueuePolicy_is_valid (self : LibraryChangeQueuePolicy) : bool :=
  (qp_debounce_millis self <=? MAX_DEBOUNCE_MILLIS)
  && (0 <? qp_max_unresolved_changes self)
  && (qp_max_unresolved_changes self <=? MAX_UNRESOLVED_CHANGES)
  && (0 <? qp_max_lease_batch self)
  && (qp_max_lease_batch self <=? MAX_LEASE_BATCH)
  && (qp_max_lease_batch self <=? qp_max_unresolved_changes self)
  && (0 <? qp_lease_duration_millis self)
  && (qp_lease_duration_millis self <=? MAX_LEASE_DURATION_MILLIS)
  && (0 <? qp_max_attempts self)
  && (qp_max_attempts self <=? MAX_ATTEMPTS)
  && (0 <? qp_retry_initial_delay_millis self)
  && (qp_retry_initial_delay_millis self <=? qp_retry_maximum_delay_millis self)
  && (qp_retry_maximum_delay_millis self <=? MAX_RETRY_DELAY_MILLIS)
  && (0 <? qp_terminal_retention_millis self)
  && (qp_terminal_retention_millis self <=? MAX_TERMINAL_RETENTION_MILLIS)
  && (0 <? qp_cleanup_batch self)
  && (qp_cleanup_batch self <=? MAX_CLEANUP_BATCH).

Definition LibraryChangeQueuePolicy_lane_capacity (self : LibraryChangeQueuePolicy) (lane : LibraryChangeLane) : Z :=
  let proportional_reserve := qp_max_unresolved_changes self / 8 in
  let priority_reserve := if proportional_reserve =? 0 then 1 else proportional_reserve in
  let journal_capacity := saturating_sub (qp_max_unresolved_changes self) priority_reserve in
  match lane with
  | LaneLive => qp_max_unresolved_changes self
  | LaneJournal => journal_capacity
  | LaneRecovery =>
    let journal_reserve :=
      if 1 <? journal_capacity then
        let available := journal_capacity - 1 in
        if priority_reserve <? available then priority_reserve else available
      else 0 in
    saturating_sub journal_capacity journal_reserve
  end.

Definition LibraryChangeQueuePolicy_default : LibraryChangeQueuePolicy :=
  {| qp_debounce_millis := 250;
     qp_max_unresolved_changes := MAX_UNRESOLVED_CHANGES;
     qp_max_lease_batch := 64;
     qp_lease_duration_millis := 30000;
     qp_max_attempts := 8;
     qp_retry_initial_delay_millis := 1000;
     qp_retry_maximum_delay_millis := 5 * 60 * 1000;
     qp_terminal_retention_millis := 7 * 24 * 60 * 60 * 1000;
     qp_cleanup_batch := 128 |}.

Record LibraryChangeEnqueueReport := {
  er_inserted_count : Z;
  er_coalesced_count : Z;
  er_superseded_count : Z;
  er_stale_generation_count : Z;
  er_capacity_degraded : bool;
  er_freshness_unknown_enqueued : bool;
}.

Definition LibraryChangeEnqueueReport_default : LibraryChangeEnqueueReport :=
  {| er_inserted_count := 0; er_coalesced_count := 0; er_superseded_count := 0;
     er_stale_generation_count := 0; er_capacity_degraded := false;
     er_freshness_unknown_enqueued := false |}.

(** ** Changes as workers see them *)

Record DurableLibraryChange := {
  dlc_id : LibraryChangeId;
  dlc_intent : LibraryChangeIntent;
  dlc_status : LibraryChangeQueueStatus;
  dlc_ready_unix_ms : Z;
  dlc_attempt_count : Z;
  dlc_next_retry_unix_ms : option Z;
  dlc_lease_generation : Z;
  dlc_lease_expires_unix_ms : option Z;
  dlc_last_failure : option LibraryChangeFailure;
  dlc_catalog_revision_at_enqueue : Z;
  dlc_catalog_revision_at_success : option Z;
  dlc_catch_up_source : option str;
  dlc_catch_up_watermark : option str;
  dlc_catch_up_lineage : list LibraryChangeCatchUpEvidence;
  dlc_superseded_by_change_id : option LibraryChangeId;
}.

Record LeasedLibraryChange := {
  llc_change : DurableLibraryChange;
  llc_lease_generation : Z;
  llc_lease_expires_unix_ms : Z;
}.

Record LibraryChangeLeaseIdentity := { li_change_id : LibraryChangeId; li_lease_generation : Z }.

(** [LibraryChangeLeaseUpdateOutcome] *)
Inductive LibraryChangeLeaseUpdateOutcome := Applied | OutcomeSuperseded | LeaseMismatch | Missing.
#[export] Instance LibraryChangeLeaseUpdateOutcome_eq_dec : EqDecision LibraryChangeLeaseUpdateOutcome.
Proof. solve_decision. Defined.
