(* ===== verification/JournalState.v ===== *)
(** * Capabilities, checkpoints, baselines and read windows of the persistent journal

    Models the remaining types of [domain/persistent_journal.rs] with their [validate] methods,
    [domain/persistent_journal/read_window.rs], [domain/persistent_journal/recovery_probe.rs], and the
    recovery types of [domain/library_metadata_inventory.rs] they refer to.  A catch-up reads a window
    of the journal whose end is fixed when the window is opened. *)

From S2P Require Import Prelude Text LibraryChange Numerals JournalText JournalBatch ChangeQueue.

(** ** Recovery *)

Inductive LibraryRecoveryAuthorityReason :=
| ExistingRootBaseline | FirstImportBoundary | JournalGap | ReasonJournalReset | ReasonJournalTrim
| ReasonJournalReconstructionFailure | ReasonContainmentFailure | ReasonBrokerAfterCurrentFailure
| WatcherUncoveredGap.

#[export] Instance LibraryRecoveryAuthorityReason_eq_dec : EqDecision LibraryRecoveryAuthorityReason.
Proof. solve_decision. Defined.

Definition requires_opening_boundary (self : LibraryRecoveryAuthorityReason) : bool :=
  match self with ExistingRootBaseline | FirstImportBoundary => true | _ => false end.

Definition is_journal_continuity_failure (self : LibraryRecoveryAuthorityReason) : bool :=
  match self with
  | JournalGap | ReasonJournalReset | ReasonJournalTrim | ReasonJournalReconstructionFailure
  | ReasonContainmentFailure | ReasonBrokerAfterCurrentFailure => true
  | _ => false
  end.

Record LibraryRecoveryOpeningBoundary := {
  lb_volume : PersistentJournalVolumeIdentity;
  lb_root_file_reference : JournalFileReference;
  lb_journal_id : JournalIdentifier;
  lb_next_usn : JournalUsn;
  lb_protocol_version : Z;
  lb_contract_version : Z;
}.

#[export] Instance LibraryRecoveryOpeningBoundary_eq_dec : EqDecision LibraryRecoveryOpeningBoundary.
Proof. solve_decision. Defined.

Definition LibraryRecoveryOpeningBoundary_validate (self : LibraryRecoveryOpeningBoundary)
    : ScanResult unit :=
  PersistentJournalVolumeIdentity_validate (lb_volume self);;
  fail_if ((lb_protocol_version self =? 0)
           || negb (lb_contract_version self =? PERSISTENT_JOURNAL_CONTRACT_VERSION))
          (ScanError_new "metadata_inventory_recovery_opening_boundary_invalid"
             "The recovery opening boundary identity is invalid").

(** ** Failures *)

Record PersistentJournalFailure := { jf_code : str; jf_message : str }.

#[export] Instance PersistentJournalFailure_eq_dec : EqDecision PersistentJournalFailure.
Proof. solve_decision. Defined.

Definition PersistentJournalFailure_validate (self : PersistentJournalFailure) : ScanResult unit :=
  journal_validate_identifier (jf_code self) 128 "journal failure code";;
  journal_validate_identifier (jf_message self) 4096 "journal failure message".

Inductive PersistentJournalRootFailureKind :=
| JournalReset | JournalTrim | JournalReconstructionFailure | ContainmentFailure
| BrokerAfterCurrentFailure
| AutomaticMetadataFallback (reason : LibraryRecoveryAuthorityReason)
| Transient | NonRecoverable | RootCancelled.

#[export] Instance PersistentJournalRootFailureKind_eq_dec : EqDecision PersistentJournalRootFailureKind.
Proof. solve_decision. Defined.

Definition recovery_reason (self : PersistentJournalRootFailureKind)
    : option LibraryRecoveryAuthorityReason :=
  match self with
  | JournalReset => Some ReasonJournalReset
  | JournalTrim => Some ReasonJournalTrim
  | JournalReconstructionFailure => Some ReasonJournalReconstructionFailure
  | ContainmentFailure => Some ReasonContainmentFailure
  | BrokerAfterCurrentFailure => Some ReasonBrokerAfterCurrentFailure
  | AutomaticMetadataFallback reason => Some reason
  | Transient | NonRecoverable | RootCancelled => None
  end.

Record PersistentJournalReadFailure := {
  rf_kind : PersistentJournalRootFailureKind;
  rf_failure : PersistentJournalFailure;
  rf_opening_boundary : option LibraryRecoveryOpeningBoundary;
}.

Definition PersistentJournalReadFailure_validate (self : PersistentJournalReadFailure)
    : ScanResult unit :=
  PersistentJournalFailure_validate (rf_failure self);;
  match rf_opening_boundary self with
  | Some boundary => LibraryRecoveryOpeningBoundary_validate boundary
  | None => Ok ()
  end.

Record PersistentJournalRootFailure := {
  rtf_root_id : str;
  rtf_root_generation : LibraryRootGeneration;
  rtf_kind : PersistentJournalRootFailureKind;
  rtf_failure : PersistentJournalFailure;
  rtf_opening_boundary : option LibraryRecoveryOpeningBoundary;
}.

Definition PersistentJournalRootFailure_validate (self : PersistentJournalRootFailure)
    : ScanResult unit :=
  journal_validate_identifier (rtf_root_id self) 256 "journal failure root ID";;
  PersistentJournalReadFailure_validate
    {| rf_kind := rtf_kind self; rf_failure := rtf_failure self;
       rf_opening_boundary := rtf_opening_boundary self |}.

(** ** Capabilities and checkpoints *)

Inductive PersistentJournalCapabilityState := CapUnknown | CapSupported | CapLiveOnly.

#[export] Instance PersistentJournalCapabilityState_eq_dec : EqDecision PersistentJournalCapabilityState.
Proof. solve_decision. Defined.

Inductive PersistentJournalContinuityState :=
| BaselineRequired | CatchingUp | Current | RecoveryRequired | ContLiveOnly | ContUnavailable.

#[export] Instance PersistentJournalContinuityState_eq_dec : EqDecision PersistentJournalContinuityState.
Proof. solve_decision. Defined.

Record PersistentJournalCapability := {
  cap_root_id : str;
  cap_root_generation : LibraryRootGeneration;
  cap_protocol_version : Z;
  cap_contract_version : Z;
  cap_state : PersistentJournalCapabilityState;
  cap_continuity : PersistentJournalContinuityState;
  cap_failure : option PersistentJournalFailure;
  cap_updated_unix_ms : Z;
}.

Definition validate_failure (failure : option PersistentJournalFailure) : ScanResult unit :=
  match failure with Some failure => PersistentJournalFailure_validate failure | None => Ok () end.

Definition PersistentJournalCapability_validate (self : PersistentJournalCapability)
    : ScanResult unit :=
  journal_validate_identifier (cap_root_id self) 256 "root ID";;
  fail_if (negb (cap_contract_version self =? PERSISTENT_JOURNAL_CONTRACT_VERSION)
           || (cap_updated_unix_ms self <? 0)
           || (bool_decide (cap_state self = CapUnknown) && negb (cap_protocol_version self =? 0))
           || (negb (bool_decide (cap_state self = CapUnknown)) && (cap_protocol_version self =? 0))
           || (bool_decide (cap_state self = CapSupported) && bool_decide (is_Some (cap_failure self)))
           || (bool_decide (cap_continuity self = Current)
               && negb (bool_decide (cap_state self = CapSupported))))
          (invalid_value "persistent journal capability");;
  validate_failure (cap_failure self).

Record PersistentJournalCheckpoint := {
  ck_root_id : str;
  ck_root_generation : LibraryRootGeneration;
  ck_volume : PersistentJournalVolumeIdentity;
  ck_root_file_reference : JournalFileReference;
  ck_journal_id : JournalIdentifier;
  ck_next_unread_usn : JournalUsn;
  ck_captured_exclusive_end : JournalUsn;
  ck_covered_catalog_revision : Z;
  ck_protocol_version : Z;
  ck_contract_version : Z;
  ck_continuity : PersistentJournalContinuityState;
  ck_failure : option PersistentJournalFailure;
  ck_updated_unix_ms : Z;
}.

Definition PersistentJournalCheckpoint_validate (self : PersistentJournalCheckpoint)
    : ScanResult unit :=
  journal_validate_identifier (ck_root_id self) 256 "root ID";;
  PersistentJournalVolumeIdentity_validate (ck_volume self);;
  fail_if (usn_ltb (ck_captured_exclusive_end self) (ck_next_unread_usn self)
           || (ck_protocol_version self =? 0)
           || negb (ck_contract_version self =? PERSISTENT_JOURNAL_CONTRACT_VERSION)
           || (ck_updated_unix_ms self <? 0)
           || (bool_decide (ck_continuity self = Current)
               && (negb (bool_decide (ck_next_unread_usn self = ck_captured_exclusive_end self))
                   || bool_decide (is_Some (ck_failure self)))))
          (invalid_value "persistent journal checkpoint");;
  validate_failure (ck_failure self).

(** ** Baselines *)

Inductive PersistentJournalBaselinePhase := PhaseInventory | PhaseReplay | PhaseAbsence | PhaseCompleted.

#[export] Instance PersistentJournalBaselinePhase_eq_dec : EqDecision PersistentJournalBaselinePhase.
Proof. solve_decision. Defined.

Record PersistentJournalBaseline := {
  bl_change_id : LibraryChangeId;
  bl_run_id : str;
  bl_root_id : str;
  bl_root_generation : LibraryRootGeneration;
  bl_volume : PersistentJournalVolumeIdentity;
  bl_root_file_reference : JournalFileReference;
  bl_journal_id : JournalIdentifier;
  bl_opening_next_usn : JournalUsn;
  bl_closing_next_usn : option JournalUsn;
  bl_protocol_version : Z;
  bl_contract_version : Z;
  bl_phase : PersistentJournalBaselinePhase;
  bl_authorized_unix_ms : Z;
  bl_updated_unix_ms : Z;
  bl_completed_unix_ms : option Z;
}.

(** [matches!(phase, Replay | Absence)]: the phases whose read window is open. *)
Definition is_open_phase (phase : PersistentJournalBaselinePhase) : bool :=
  match phase with PhaseReplay | PhaseAbsence => true | _ => false end.

Definition validate_replay_checkpoint (self : PersistentJournalBaseline)
    (checkpoint : PersistentJournalCheckpoint) : ScanResult unit :=
  let closing := bl_closing_next_usn self in
  fail_if (negb (is_open_phase (bl_phase self))
           || negb (bool_decide (bl_root_id self = ck_root_id checkpoint))
           || negb (bool_decide (bl_root_generation self = ck_root_generation checkpoint))
           || negb (bool_decide (bl_volume self = ck_volume checkpoint))
           || negb (bool_decide (bl_root_file_reference self = ck_root_file_reference checkpoint))
           || negb (bool_decide (bl_journal_id self = ck_journal_id checkpoint))
           || negb (bl_protocol_version self =? ck_protocol_version checkpoint)
           || negb (bl_contract_version self =? ck_contract_version checkpoint)
           || negb (bool_decide (closing = Some (ck_captured_exclusive_end checkpoint)))
           || match closing with
              | Some end_ => usn_ltb end_ (ck_next_unread_usn checkpoint)
              | None => true
              end)
          (ScanError_new "persistent_journal_baseline_read_window_invalid"
             "The journal checkpoint cannot extend an unfinished baseline window").

Definition PersistentJournalBaseline_validate (self : PersistentJournalBaseline) : ScanResult unit :=
  journal_validate_identifier (bl_run_id self) 512 "baseline run ID";;
  journal_validate_identifier (bl_root_id self) 256 "root ID";;
  PersistentJournalVolumeIdentity_validate (bl_volume self);;
  fail_if ((bl_protocol_version self =? 0)
           || negb (bl_contract_version self =? PERSISTENT_JOURNAL_CONTRACT_VERSION)
           || (bl_authorized_unix_ms self <? 0)
           || (bl_updated_unix_ms self <? bl_authorized_unix_ms self)
           || match bl_closing_next_usn self with
              | Some closing => usn_ltb closing (bl_opening_next_usn self)
              | None => false
              end
           || (bool_decide (bl_phase self = PhaseInventory)
               && bool_decide (is_Some (bl_closing_next_usn self)))
           || (negb (bool_decide (bl_phase self = PhaseInventory))
               && bool_decide (bl_closing_next_usn self = None))
           || negb (Bool.eqb (bool_decide (bl_phase self = PhaseCompleted))
                      (bool_decide (is_Some (bl_completed_unix_ms self))))
           || match bl_completed_unix_ms self with
              | Some completed => completed <? bl_updated_unix_ms self
              | None => false
              end)
          (invalid_value "persistent journal baseline").

Record PersistentJournalBaselineStartRequest := {
  bs_run_id : str;
  bs_root_id : str;
  bs_root_generation : LibraryRootGeneration;
  bs_authority_reason : LibraryRecoveryAuthorityReason;
  bs_volume : PersistentJournalVolumeIdentity;
  bs_root_file_reference : JournalFileReference;
  bs_journal_id : JournalIdentifier;
  bs_opening_next_usn : JournalUsn;
  bs_protocol_version : Z;
  bs_contract_version : Z;
  bs_authorized_unix_ms : Z;
}.

Definition PersistentJournalBaselineStartRequest_validate
    (self : PersistentJournalBaselineStartRequest) : ScanResult unit :=
  fail_if (match bs_authority_reason self with
           | ExistingRootBaseline | FirstImportBoundary => false
           | _ => true
           end)
          (invalid_value "persistent journal baseline authority");;
  PersistentJournalBaseline_validate
    {| bl_change_id := {| change_id_value := 1 |};
       bl_run_id := bs_run_id self;
       bl_root_id := bs_root_id self;
       bl_root_generation := bs_root_generation self;
       bl_volume := bs_volume self;
       bl_root_file_reference := bs_root_file_reference self;
       bl_journal_id := bs_journal_id self;
       bl_opening_next_usn := bs_opening_next_usn self;
       bl_closing_next_usn := None;
       bl_protocol_version := bs_protocol_version self;
       bl_contract_version := bs_contract_version self;
       bl_phase := PhaseInventory;
       bl_authorized_unix_ms := bs_authorized_unix_ms self;
       bl_updated_unix_ms := bs_authorized_unix_ms self;
       bl_completed_unix_ms := None |}.

Record PersistentJournalBaselineClosingBoundary := {
  cb_change_id : LibraryChangeId;
  cb_volume : PersistentJournalVolumeIdentity;
  cb_root_file_reference : JournalFileReference;
  cb_journal_id : JournalIdentifier;
  cb_closing_next_usn : JournalUsn;
  cb_protocol_version : Z;
  cb_captured_unix_ms : Z;
}.

Definition PersistentJournalBaselineClosingBoundary_validate
    (self : PersistentJournalBaselineClosingBoundary) : ScanResult unit :=
  PersistentJournalVolumeIdentity_validate (cb_volume self);;
  fail_if ((cb_protocol_version self =? 0) || (cb_captured_unix_ms self <? 0))
          (invalid_value "persistent journal baseline closing boundary").

(** ** Pages *)

Record PersistentJournalVolumePage := {
  vp_enrollment : PersistentJournalEnrollmentBatch;
  vp_checkpoint : PersistentJournalCheckpoint;
}.

Record PersistentJournalVolumeBatch := { vb_pages : list PersistentJournalVolumePage }.

Inductive PersistentJournalReadPage :=
| Enrolled (batch : PersistentJournalEnrollmentBatch) (checkpoint : PersistentJournalCheckpoint)
| EmptyReplay (checkpoint : PersistentJournalCheckpoint).

Definition as_enrolled (self : PersistentJournalReadPage)
    : option (PersistentJournalEnrollmentBatch * PersistentJournalCheckpoint) :=
  match self with Enrolled batch checkpoint => Some (batch, checkpoint) | EmptyReplay _ => None end.

Record PersistentJournalRootReadOutcome := {
  ro_root_id : str;
  ro_root_generation : LibraryRootGeneration;
  ro_opening_boundary : option LibraryRecoveryOpeningBoundary;
  ro_page : Result PersistentJournalReadFailure (option PersistentJournalReadPage);
}.

Record PersistentJournalEnrollmentReport := {
  er_enrolled_root_count : Z;
  er_failed_root_count : Z;
  er_observation_count : Z;
  er_advanced_checkpoint_count : Z;
  er_root_failures : list PersistentJournalRootFailure;
}.

(** The key of a root in maps and sets: its identifier and generation. *)
Definition RootKey : Type := str * LibraryRootGeneration.

#[export] Instance LibraryRootGeneration_countable : Countable LibraryRootGeneration.
Proof. apply (inj_countable' generation_value (λ v, {| generation_value := v |})). by intros []. Defined.

#[export] Instance RootKey_eq_dec : EqDecision RootKey := _.
#[export] Instance RootKey_countable : Countable RootKey := _.

Definition checkpoint_key (checkpoint : PersistentJournalCheckpoint) : RootKey :=
  (ck_root_id checkpoint, ck_root_generation checkpoint).
Definition range_key (range : PersistentJournalSourceRange) : RootKey :=
  (sr_root_id range, sr_root_generation range).
Definition baseline_key (baseline : PersistentJournalBaseline) : RootKey :=
  (bl_root_id baseline, bl_root_generation baseline).

Section Blake3.
Context (blake3_hex : bytes → str).

(** The loop body of [PersistentJournalVolumeBatch::validate]; the state is the set of roots seen. *)
Definition validate_volume_page (first : PersistentJournalSourceRange) (roots : gset RootKey)
    (page : PersistentJournalVolumePage) : ScanResult (gset RootKey) :=
  PersistentJournalEnrollmentBatch_validate blake3_hex (vp_enrollment page);;
  PersistentJournalCheckpoint_validate (vp_checkpoint page);;
  let range := eb_range (vp_enrollment page) in
  let checkpoint := vp_checkpoint page in
  fail_if (negb (bool_decide (sr_volume range = sr_volume first))
           || negb (bool_decide (sr_journal_id range = sr_journal_id first))
           || negb (bool_decide (sr_requested_end_usn range = sr_requested_end_usn first))
           || negb (bool_decide (ck_root_id checkpoint = sr_root_id range))
           || negb (bool_decide (ck_root_generation checkpoint = sr_root_generation range))
           || negb (bool_decide (ck_volume checkpoint = sr_volume range))
           || negb (bool_decide (ck_journal_id checkpoint = sr_journal_id range))
           || negb (bool_decide (ck_next_unread_usn checkpoint = sr_covered_until_usn range))
           || negb (bool_decide (ck_captured_exclusive_end checkpoint = sr_requested_end_usn range))
           || bool_decide (range_key range ∈ roots))
          (invalid_value "persistent journal volume page");;
  Ok ({[range_key range]} ∪ roots).

Definition PersistentJournalVolumeBatch_validate (self : PersistentJournalVolumeBatch)
    : ScanResult unit :=
  match vb_pages self with
  | [] => Err (invalid_value "persistent journal volume batch")
  | first :: _ =>
    fail_if (8 <? zlen (vb_pages self)) (invalid_value "persistent journal volume batch");;
    _ ← result_foldl (validate_volume_page (eb_range (vp_enrollment first))) ∅ (vb_pages self);
    Ok ()
  end.

End Blake3.

(** * Read windows *)

(** ** [JournalReadWindows] *)

Record JournalReadWindows := { rw_baselines : gmap RootKey PersistentJournalBaseline }.

Definition window_invalid : ScanError :=
  ScanError_new "persistent_journal_baseline_read_window_invalid"
    "The journal read cannot extend an unfinished baseline window".

(** The loop body of [JournalReadWindows::new]. *)
Definition admit_baseline (windows : JournalReadWindows) (baseline : PersistentJournalBaseline)
    : ScanResult JournalReadWindows :=
  PersistentJournalBaseline_validate baseline;;
  if is_open_phase (bl_phase baseline) then
    let key := baseline_key baseline in
    fail_if (bool_decide (is_Some (rw_baselines windows !! key))) window_invalid;;
    Ok {| rw_baselines := <[key := baseline]> (rw_baselines windows) |}
  else Ok windows.

Definition JournalReadWindows_new (baselines : list PersistentJournalBaseline)
    : ScanResult JournalReadWindows :=
  result_foldl admit_baseline {| rw_baselines := ∅ |} baselines.

Definition is_partial_catchup (checkpoint : PersistentJournalCheckpoint) : bool :=
  bool_decide (ck_continuity checkpoint = CatchingUp)
  && usn_ltb (ck_next_unread_usn checkpoint) (ck_captured_exclusive_end checkpoint).

Definition JournalReadWindows_end (self : JournalReadWindows)
    (checkpoint : PersistentJournalCheckpoint) (observed_end : Z) : ScanResult Z :=
  match rw_baselines self !! checkpoint_key checkpoint with
  | None =>
    if is_partial_catchup checkpoint then
      let captured := journal_usn_value (ck_captured_exclusive_end checkpoint) in
      if observed_end <? captured
      then Err (ScanError_new "persistent_journal_catchup_window_regressed"
                  "The journal regressed behind the unfinished catch-up window")
      else Ok captured
    else Ok observed_end
  | Some baseline =>
    closing ← ok_or (bl_closing_next_usn baseline) window_invalid;
    validate_replay_checkpoint baseline checkpoint;;
    if observed_end <? journal_usn_value closing then Err window_invalid
    else Ok (journal_usn_value closing)
  end.

Definition admits_shared_end (self : JournalReadWindows) (checkpoint : PersistentJournalCheckpoint)
    (end_ : Z) : bool :=
  match rw_baselines self !! checkpoint_key checkpoint with
  | Some baseline =>
    match bl_closing_next_usn baseline with
    | Some closing => journal_usn_value closing =? end_
    | None => false
    end
  | None =>
    negb (is_partial_catchup checkpoint)
    || (journal_usn_value (ck_captured_exclusive_end checkpoint) =? end_)
  end.

Definition requires_empty_replay (self : JournalReadWindows)
    (checkpoint : PersistentJournalCheckpoint) : bool :=
  match rw_baselines self !! checkpoint_key checkpoint with
  | Some baseline =>
    bool_decide (bl_phase baseline = PhaseReplay)
    && bool_decide (bl_closing_next_usn baseline = Some (bl_opening_next_usn baseline))
    && bool_decide (ck_next_unread_usn checkpoint = bl_opening_next_usn baseline)
  | None => false
  end.

Definition blocks_next_window (self : JournalReadWindows) (checkpoint : PersistentJournalCheckpoint)
    : bool :=
  match rw_baselines self !! checkpoint_key checkpoint with
  | Some baseline =>
    bool_decide (bl_closing_next_usn baseline = Some (ck_next_unread_usn checkpoint))
    && negb (requires_empty_replay self checkpoint)
  | None => false
  end.

(** ** Recovery probes *)

Definition can_reprobe_failure (failure : PersistentJournalFailure) : bool :=
  existsb (λ code, bool_decide (jf_code failure = lit code))
    ["identity_journal_hardlinks_not_supported"; "persistent_journal_request_invalid";
     "persistent_journal_read_stalled"]%string.

Definition can_reprobe_journal_failure (checkpoint : PersistentJournalCheckpoint) : bool :=
  bool_decide (ck_continuity checkpoint = RecoveryRequired)
  && match ck_failure checkpoint with Some failure => can_reprobe_failure failure | None => false end.

Definition reprobed_failure (checkpoint : PersistentJournalCheckpoint)
    (opening : LibraryRecoveryOpeningBoundary) : option PersistentJournalReadFailure :=
  if negb (can_reprobe_journal_failure checkpoint) then None
  else
    failure ← ck_failure checkpoint;
    Some {| rf_kind := JournalReconstructionFailure;
            rf_failure := failure;
            rf_opening_boundary := Some opening |}.
