(* ===== verification/UnionFind.v ===== *)
(** * The disjoint sets of [partition_atomic_volume_components]

    Models [find_component] and [union_components] of [application/persistent_journal_continuity.rs]
    on the vector of parents, and proves what they do to the sets the vector stands for.  [Err ()] is a
    panic (an index out of range) or a loop that ran out of fuel; neither happens on a forest. *)

From stdpp Require Import relations.
From S2P Require Import Prelude.

(** ** The code *)

(** [while parents[root] != root { root = parents[root]; }] *)
Fixpoint find_root (fuel : nat) (parents : list nat) (root : nat) : Result unit nat :=
  match fuel with
  | O => Err ()
  | S fuel =>
    parent ← ok_or (parents !! root) ();
    if bool_decide (parent = root) then Ok root else find_root fuel parents parent
  end.

(** [while parents[index] != index { let next = parents[index]; parents[index] = root; index = next; }] *)
Fixpoint compress_path (fuel : nat) (parents : list nat) (root index : nat) : Result unit (list nat) :=
  match fuel with
  | O => Err ()
  | S fuel =>
    next ← ok_or (parents !! index) ();
    if bool_decide (next = index) then Ok parents
    else compress_path fuel (<[index := root]> parents) root next
  end.

Definition find_component (parents : list nat) (index : nat) : Result unit (nat * list nat) :=
  root ← find_root (length parents) parents index;
  parents ← compress_path (length parents) parents root index;
  Ok (root, parents).

Definition union_components (parents : list nat) (left right : nat) : Result unit (list nat) :=
  '(left, parents) ← find_component parents left;
  '(right, parents) ← find_component parents right;
  if negb (bool_decide (left = right)) then Ok (<[right := left]> parents) else Ok parents.

(** ** Roots *)

(** [root_at parents d i r]: the representative of [i] is [r], [d] steps away. *)
Inductive root_at (parents : list nat) : nat → nat → nat → Prop :=
| root_here i : parents !! i = Some i → root_at parents 0 i i
| root_up d i j r : parents !! i = Some j → j ≠ i → root_at parents d j r → root_at parents (S d) i r.

Definition root_of (parents : list nat) (i r : nat) : Prop := ∃ d, root_at parents d i r.

(** A vector of parents is a forest when every index has a representative. *)
Definition forest (parents : list nat) : Prop :=
  ∀ i, (i < length parents)%nat → ∃ r, root_of parents i r.

Definition same_set (parents : list nat) (i j : nat) : Prop :=
  ∃ r, root_of parents i r ∧ root_of parents j r.

Lemma root_at_det parents d i r e s :
  root_at parents d i r → root_at parents e i s → d = e ∧ r = s.
Proof.
  intros H. revert e s. induction H as [i Hi|d i j r Hi Hj _ IH]; inversion 1; simplify_eq; [done|].
  naive_solver.
Qed.

Lemma root_of_det parents i r s : root_of parents i r → root_of parents i s → r = s.
Proof. intros [d Hd] [e He]. by destruct (root_at_det _ _ _ _ _ _ Hd He). Qed.

Lemma root_at_lt parents d i r : root_at parents d i r → (i < length parents)%nat.
Proof. intros H. inversion H; by eapply lookup_lt_Some. Qed.

Lemma root_at_root parents d i r : root_at parents d i r → parents !! r = Some r.
Proof. by induction 1. Qed.

(** The indices on the way to the representative are distinct, so the way is short. *)
Lemma root_at_path parents d i r :
  root_at parents d i r →
  ∃ path, length path = S d ∧ NoDup path ∧
          Forall (λ k, ∃ e, e ≤ d ∧ root_at parents e k r)%nat path.
Proof.
  induction 1 as [i Hi|d i j r Hi Hj Hr (path & Hl & Hnd & Hf)].
  { exists [i]. split_and!; [done|apply NoDup_singleton|]. constructor; [|done].
    exists 0%nat. split; [done|by constructor]. }
  exists (i :: path). split_and!; [by simpl; f_equal| |].
  - constructor; [|done]. intros Hin. rewrite Forall_forall in Hf. apply Hf in Hin as (e & He & Hk).
    assert (root_at parents (S d) i r) as Hi' by by econstructor.
    destruct (root_at_det _ _ _ _ _ _ Hi' Hk). lia.
  - constructor; [exists (S d); split; [done|by econstructor]|].
    eapply Forall_impl; [done|]. intros k (e & ? & ?). exists e. split; [lia|done].
Qed.

Lemma root_at_depth parents d i r : root_at parents d i r → (d < length parents)%nat.
Proof.
  intros (path & Hl & Hnd & Hf)%root_at_path.
  enough (length path ≤ length parents)%nat by lia.
  rewrite <-(length_seq (length parents) 0). apply submseteq_length, NoDup_submseteq; [done|].
  intros k. rewrite Forall_forall in Hf. intros (e & _ & He)%Hf. apply root_at_lt in He.
  apply elem_of_seq. lia.
Qed.

Lemma find_root_spec fuel parents d i r :
  root_at parents d i r → (d < fuel)%nat → find_root fuel parents i = Ok r.
Proof.
  intros H. revert fuel. induction H as [i Hi|d i j r Hi Hj _ IH]; intros fuel Hf;
    (destruct fuel as [|fuel]; [lia|]); cbn [find_root]; rewrite Hi; cbn [ok_or mbind result_bind].
  - by rewrite bool_decide_eq_true_2.
  - rewrite bool_decide_eq_false_2 by done. apply IH. lia.
Qed.

(** ** Path compression *)

(** A write strictly above [k] in the forest leaves the way of [k] alone. *)
Lemma root_at_insert_above parents d k r e i x s :
  root_at parents d k r → root_at parents e i s → (d < e)%nat →
  root_at (<[i := x]> parents) d k r.
Proof.
  intros H. induction H as [k Hk|d k j r Hk Hj Hr IH]; intros Hi Hlt.
  - constructor. rewrite list_lookup_insert_ne; [done|]. intros ->.
    assert (root_at parents 0 k k) as H0 by by constructor.
    destruct (root_at_det _ _ _ _ _ _ Hi H0). lia.
  - econstructor; [|exact Hj|apply IH; [done|lia]].
    rewrite list_lookup_insert_ne; [done|]. intros ->.
    assert (root_at parents (S d) k r) as H0 by by econstructor.
    destruct (root_at_det _ _ _ _ _ _ Hi H0). lia.
Qed.

(** Pointing an index at its own representative changes no representative. *)
Lemma root_of_shortcut parents i r k s :
  root_of parents i r → i ≠ r → root_of parents k s → root_of (<[i := r]> parents) k s.
Proof.
  intros [e Hi] Hne [d Hk]. assert (i < length parents)%nat as Hlt by by eapply root_at_lt.
  induction Hk as [k Hk|d k j s Hk Hj Hs [d' IH]].
  - destruct (decide (k = i)) as [->|Hki].
    + assert (root_at parents 0 i i) as H0 by by constructor.
      by destruct (root_at_det _ _ _ _ _ _ Hi H0).
    + exists 0%nat. constructor. by rewrite list_lookup_insert_ne.
  - destruct (decide (k = i)) as [->|Hki].
    + assert (root_at parents (S d) i s) as H0 by by econstructor.
      destruct (root_at_det _ _ _ _ _ _ Hi H0) as [_ ->]. exists 1%nat.
      econstructor; [by apply list_lookup_insert_eq|done|].
      constructor. rewrite list_lookup_insert_ne by done. by eapply root_at_root.
    + exists (S d'). econstructor; [by rewrite list_lookup_insert_ne|done|done].
Qed.

(** Two forests with the same representatives. *)
Definition same_roots (parents parents' : list nat) : Prop :=
  length parents' = length parents ∧ ∀ k r, root_of parents' k r ↔ root_of parents k r.

Lemma same_roots_refl parents : same_roots parents parents.
Proof. done. Qed.

Lemma same_roots_trans p1 p2 p3 : same_roots p1 p2 → same_roots p2 p3 → same_roots p1 p3.
Proof. intros [? H1] [? H2]. split; [congruence|]. intros. by rewrite H2, H1. Qed.

Lemma same_roots_intro parents parents' :
  forest parents → length parents' = length parents →
  (∀ k r, root_of parents k r → root_of parents' k r) → same_roots parents parents'.
Proof.
  intros Hf Hl Hin. split; [done|]. intros k r. split; [|apply Hin].
  intros Hk. destruct (Hf k) as [s Hs]; [destruct Hk as [? Hk%root_at_lt]; lia|].
  by rewrite (root_of_det _ _ _ _ Hk (Hin _ _ Hs)).
Qed.

Lemma same_roots_forest parents parents' : forest parents → same_roots parents parents' → forest parents'.
Proof. intros Hf [Hl Hr] i Hi. rewrite Hl in Hi. destruct (Hf i Hi) as [r ?]. exists r. by apply Hr. Qed.

Lemma compress_path_spec fuel parents d i r :
  forest parents → root_at parents d i r → (d < fuel)%nat →
  ∃ parents', compress_path fuel parents r i = Ok parents' ∧ same_roots parents parents'.
Proof.
  revert parents d i. induction fuel as [|fuel IH]; intros parents d i Hf Hi Hd; [lia|].
  cbn [compress_path]. inversion Hi as [? H1|? ? j ? H1 H2 H3]; subst; rewrite H1; cbn [ok_or mbind result_bind].
  { rewrite bool_decide_eq_true_2 by done. eexists. split; [done|apply same_roots_refl]. }
  rewrite bool_decide_eq_false_2 by done.
  assert (i ≠ r) as Hne.
  { intros ->. apply root_at_root in H3 as Hrr. congruence. }
  assert (same_roots parents (<[i := r]> parents)) as Hs.
  { apply same_roots_intro; [done|by rewrite length_insert|]. intros k s. apply root_of_shortcut; [by eexists|done]. }
  edestruct (IH (<[i := r]> parents)) as (parents' & -> & Hs').
  - by eapply same_roots_forest.
  - eapply root_at_insert_above; [exact H3|exact Hi|lia].
  - lia.
  - exists parents'. split; [done|by eapply same_roots_trans].
Qed.

Lemma find_component_spec parents i :
  forest parents → (i < length parents)%nat →
  ∃ r parents', find_component parents i = Ok (r, parents') ∧ root_of parents i r ∧ same_roots parents parents'.
Proof.
  intros Hf Hi. destruct (Hf i Hi) as [r [d Hd]]. pose proof (root_at_depth _ _ _ _ Hd).
  destruct (compress_path_spec (length parents) parents d i r) as (parents' & Hc & Hs); [done..|].
  exists r, parents'. unfold find_component. rewrite (find_root_spec _ _ d _ r) by done.
  cbn [mbind result_bind]. rewrite Hc. split; [done|]. split; [by exists d|done].
Qed.

(** ** Union *)

Lemma root_of_link parents l r k s :
  parents !! l = Some l → parents !! r = Some r → l ≠ r → root_of parents k s →
  root_of (<[r := l]> parents) k (if bool_decide (s = r) then l else s).
Proof.
  intros Hl Hr Hne [d Hk]. pose proof (lookup_lt_Some _ _ _ Hr).
  induction Hk as [k Hk|d k j s Hk Hj _ [e IH]].
  - destruct (decide (k = r)) as [->|Hkr].
    + rewrite bool_decide_eq_true_2 by done. exists 1%nat.
      econstructor; [by apply list_lookup_insert_eq|done|]. constructor.
      by rewrite list_lookup_insert_ne by done.
    + rewrite bool_decide_eq_false_2 by done. exists 0%nat. constructor. by rewrite list_lookup_insert_ne.
  - assert (k ≠ r) as Hkr by congruence. exists (S e).
    econstructor; [by rewrite list_lookup_insert_ne|done|done].
Qed.

(** Union merges the set of [left] with the set of [right] and nothing else. *)
Lemma union_components_spec parents left right :
  forest parents → (left < length parents)%nat → (right < length parents)%nat →
  ∃ parents', union_components parents left right = Ok parents' ∧
    length parents' = length parents ∧ forest parents' ∧
    ∀ i j, same_set parents' i j ↔
      same_set parents i j ∨ (same_set parents i left ∧ same_set parents right j) ∨
      (same_set parents i right ∧ same_set parents left j).
Proof.
  intros Hf Hl Hr. unfold union_components.
  destruct (find_component_spec parents left) as (l & p1 & -> & Hl1 & Hs1); [done..|].
  cbn [mbind result_bind]. pose proof (same_roots_forest _ _ Hf Hs1) as Hf1.
  destruct (find_component_spec p1 right) as (r & p2 & -> & Hr1 & Hs2); [done|destruct Hs1; lia|].
  cbn [mbind result_bind]. pose proof (same_roots_forest _ _ Hf1 Hs2) as Hf2.
  apply Hs1 in Hr1. pose proof (same_roots_trans _ _ _ Hs1 Hs2) as [Hlen Hroots].
  destruct (bool_decide_reflect (l = r)) as [->|Hne]; cbn [negb].
  { exists p2. split_and!; [done..|]. intros i j. unfold same_set. setoid_rewrite Hroots. split; [naive_solver|].
    intros [?|[[(s1 & H1 & H2) (s2 & H3 & H4)]|[(s1 & H1 & H2) (s2 & H3 & H4)]]]; [done|exists r..].
    - by rewrite <-(root_of_det _ _ _ _ H2 Hl1) at 1; rewrite <-(root_of_det _ _ _ _ H3 Hr1).
    - by rewrite <-(root_of_det _ _ _ _ H2 Hr1) at 1; rewrite <-(root_of_det _ _ _ _ H3 Hl1). }
  set (p3 := <[r := l]> p2). exists p3.
  assert (length p3 = length parents) as Hlen3 by by unfold p3; rewrite length_insert.
  assert (p2 !! l = Some l) as Hll by (apply Hroots in Hl1 as [? ?]; by eapply root_at_root).
  assert (p2 !! r = Some r) as Hrr by (apply Hroots in Hr1 as [? ?]; by eapply root_at_root).
  assert (∀ k s, root_of parents k s → root_of p3 k (if bool_decide (s = r) then l else s)) as Hlink.
  { intros k s Hk. apply root_of_link; [done..|by apply Hroots]. }
  assert (forest p3) as Hf3.
  { intros i Hi. rewrite Hlen3 in Hi. destruct (Hf i Hi) as [s Hs]. eexists. by apply Hlink. }
  split_and!; [done|done|done|]. intros i j.
  assert (∀ k s, root_of p3 k s → ∃ s', root_of parents k s' ∧ s = if bool_decide (s' = r) then l else s') as Hinv.
  { intros k s Hk. destruct (Hf k) as [s' Hs']; [destruct Hk as [? Hk%root_at_lt]; lia|].
    exists s'. split; [done|]. eapply root_of_det; [done|by apply Hlink]. }
  split.
  - intros (s & (si & Hi & ->)%Hinv & (sj & Hj & He)%Hinv).
    destruct (bool_decide_reflect (si = r)), (bool_decide_reflect (sj = r)); subst.
    + left. by exists r.
    + right; right. split; [by exists r|by exists sj].
    + right; left. split; [by exists l|by exists r].
    + left. by exists sj.
  - intros [(s & Hi & Hj)|[[(s & Hi & Hl2) (t & Hr2 & Hj)]|[(s & Hi & Hr2) (t & Hl2 & Hj)]]].
    + eexists. split; by apply Hlink.
    + rewrite (root_of_det _ _ _ _ Hl2 Hl1) in Hi. rewrite (root_of_det _ _ _ _ Hr2 Hr1) in Hj.
      apply Hlink in Hi, Hj. rewrite bool_decide_eq_false_2 in Hi by done.
      rewrite bool_decide_eq_true_2 in Hj by done. by exists l.
    + rewrite (root_of_det _ _ _ _ Hr2 Hr1) in Hi. rewrite (root_of_det _ _ _ _ Hl2 Hl1) in Hj.
      apply Hlink in Hi, Hj. rewrite bool_decide_eq_true_2 in Hi by done.
      rewrite bool_decide_eq_false_2 in Hj by done. by exists l.
Qed.
