(* ===== verification/VolumeComponents.v ===== *)
(** * Splitting a volume batch into atomic components

    Models [partition_atomic_volume_components] of [application/persistent_journal_continuity.rs].
    Pages that carry an end point of the same cross-root lineage must be published together; the code
    groups the pages by the connected components of that relation. *)

From stdpp Require Import relations.
From Stdlib Require Import Sorted.
From S2P Require Import Prelude Text LibraryChange JournalText JournalBatch JournalState UnionFind.

(** ** The code *)

(** [cross_root_lineage.iter().chain(&carried_cross_root_lineage)] *)
Definition page_endpoints (page : PersistentJournalVolumePage) : list PersistentJournalCrossRootLineage :=
  eb_cross_root_lineage (vp_enrollment page) ++ eb_carried_cross_root_lineage (vp_enrollment page).

(** The parents and the page that last named each lineage. *)
Definition LinkState : Type := list nat * gmap str nat.

(** The body of the inner loop: [if let Some(owner) = lineage_owner.insert(id, index) { union .. }] *)
Definition link_lineage (index : nat) (st : LinkState) (lineage_id : str) : Result unit LinkState :=
  let '(parents, lineage_owner) := st in
  parents ← (match lineage_owner !! lineage_id with
             | Some owner => union_components parents owner index
             | None => Ok parents
             end);
  Ok (parents, <[lineage_id := index]> lineage_owner).

Definition link_page (st : LinkState) (entry : nat * PersistentJournalVolumePage)
    : Result unit LinkState :=
  result_foldl (link_lineage entry.1) st (ln_lineage_id <$> page_endpoints entry.2).

(** [groups.iter_mut().find(..)]: push onto the group of [root], or open one at the end. *)
Fixpoint push_group {A : Type} (root : nat) (x : A) (groups : list (nat * list A)) : list (nat * list A) :=
  match groups with
  | [] => [(root, [x])]
  | (owner, xs) :: groups =>
    if bool_decide (owner = root) then (owner, xs ++ [x]) :: groups
    else (owner, xs) :: push_group root x groups
  end.

Definition group_page (st : list nat * list (nat * list PersistentJournalVolumePage))
    (entry : nat * PersistentJournalVolumePage)
    : Result unit (list nat * list (nat * list PersistentJournalVolumePage)) :=
  '(root, parents) ← find_component st.1 entry.1;
  Ok (parents, push_group root entry.2 st.2).

(** [pages.iter().enumerate()] *)
Definition enumerate {A : Type} (l : list A) : list (nat * A) := zip (seq 0 (length l)) l.

Definition partition_atomic_volume_components (batch : PersistentJournalVolumeBatch)
    : Result unit (list PersistentJournalVolumeBatch) :=
  let pages := vb_pages batch in
  linked ← result_foldl link_page ((seq 0 (length pages), ∅) : LinkState) (enumerate pages);
  grouped ← result_foldl group_page (linked.1, []) (enumerate pages);
  Ok (map (λ group, {| vb_pages := group.2 |}) grouped.2).

(** ** Linking *)

(** [mentions pages i id]: page [i] carries an end point of lineage [id]. *)
Definition mentions (pages : list PersistentJournalVolumePage) (i : nat) (id : str) : Prop :=
  ∃ page, pages !! i = Some page ∧ id ∈ (ln_lineage_id <$> page_endpoints page).

(** Two pages carry end points of the same lineage. *)
Definition shares_lineage (pages : list PersistentJournalVolumePage) (i j : nat) : Prop :=
  ∃ id, mentions pages i id ∧ mentions pages j id.

(** What the loop maintains, for the list [seen] of (page, lineage) pairs it has processed. *)
Definition seen_link (seen : list (nat * str)) (i j : nat) : Prop :=
  ∃ id, (i, id) ∈ seen ∧ (j, id) ∈ seen.

Record is_linked (n : nat) (seen : list (nat * str)) (st : LinkState) : Prop := {
  linked_length : length st.1 = n;
  linked_forest : forest st.1;
  linked_owner id : is_Some (st.2 !! id) ↔ ∃ i, (i, id) ∈ seen;
  linked_owner_seen id i : st.2 !! id = Some i → (i, id) ∈ seen;
  linked_range i id : (i, id) ∈ seen → (i < n)%nat;
  linked_sets i j : (i < n)%nat → (j < n)%nat → same_set st.1 i j ↔ rtsc (seen_link seen) i j;
}.

Lemma same_set_refl parents i : forest parents → (i < length parents)%nat → same_set parents i i.
Proof. intros Hf Hi. destruct (Hf i Hi) as [r ?]. by exists r. Qed.

Lemma same_set_sym parents i j : same_set parents i j → same_set parents j i.
Proof. intros (r & ? & ?). by exists r. Qed.

Lemma same_set_trans parents i j k : same_set parents i j → same_set parents j k → same_set parents i k.
Proof. intros (r & ? & Hj) (s & Hj' & ?). rewrite <-(root_of_det _ _ _ _ Hj Hj') in *. by exists r. Qed.

Lemma identity_forest n i r : root_of (seq 0 n) i r ↔ i = r ∧ (i < n)%nat.
Proof.
  split.
  - intros [d H]. inversion H as [? H1|? ? j ? H1 H2 H3]; subst.
    + apply lookup_lt_Some in H1 as Hlt. rewrite length_seq in Hlt. done.
    + apply lookup_seq in H1 as [? ?]. done.
  - intros [-> Hr]. exists 0%nat. constructor. apply lookup_seq. lia.
Qed.

Lemma linked_start n : is_linked n [] (seq 0 n, ∅).
Proof.
  split; cbn [fst snd].
  - apply length_seq.
  - intros i Hi. rewrite length_seq in Hi. exists i. by apply identity_forest.
  - intros id. rewrite lookup_empty. split; [by intros [? ?]|by intros [? ?%not_elem_of_nil]].
  - intros id i. by rewrite lookup_empty.
  - by intros i id ?%not_elem_of_nil.
  - intros i j Hi Hj. split.
    + intros (r & [-> _]%identity_forest & [-> _]%identity_forest). done.
    + intros H. assert (i = j) as ->; [|exists j; by rewrite identity_forest].
      induction H as [|i k j [(id & ?%not_elem_of_nil & _)|(id & ?%not_elem_of_nil & _)] _ _]; done.
Qed.

(** Representatives that agree along every link agree along every chain of links. *)
Lemma rtsc_same_set n parents seen i j :
  forest parents → length parents = n →
  (∀ a b, seen_link seen a b → (a < n)%nat ∧ (b < n)%nat ∧ same_set parents a b) →
  rtsc (seen_link seen) i j → (i < n)%nat → same_set parents i j.
Proof.
  intros Hf Hn Hl H. induction H as [i|i k j Hik _ IH]; intros Hi; [apply same_set_refl; [done|lia]|].
  assert (same_set parents i k ∧ (k < n)%nat) as [? ?].
  { destruct Hik as [H|H]; apply Hl in H as (? & ? & ?); [done|]. split; [by apply same_set_sym|done]. }
  eapply same_set_trans; [done|by apply IH].
Qed.

Lemma elem_of_snoc {A : Type} (x y : A) l : x ∈ l ++ [y] ↔ x ∈ l ∨ x = y.
Proof. by rewrite elem_of_app, list_elem_of_singleton. Qed.

Lemma seen_link_mono seen p i j : rtsc (seen_link seen) i j → rtsc (seen_link (seen ++ [p])) i j.
Proof.
  intros H. induction H as [|i k j Hik _ IH]; [done|]. eapply rtc_l; [|exact IH].
  destruct Hik as [(id & ? & ?)|(id & ? & ?)]; [left|right]; exists id; rewrite !elem_of_snoc; auto.
Qed.

Lemma seen_link_snoc seen index id i j :
  seen_link (seen ++ [(index, id)]) i j →
  seen_link seen i j ∨ (i, id) ∈ seen ++ [(index, id)] ∧ (j, id) ∈ seen ++ [(index, id)].
Proof.
  intros (id' & Hi & Hj). destruct (decide (id' = id)) as [->|Hne]; [by right|left].
  exists id'. rewrite !elem_of_snoc in *. naive_solver.
Qed.

(** A lineage seen before: its last page and this one are merged. *)
Lemma linked_union n seen parents owner index id o :
  is_linked n seen (parents, owner) → (index < n)%nat → owner !! id = Some o →
  ∃ parents', union_components parents o index = Ok parents' ∧ length parents' = n ∧ forest parents' ∧
    ∀ i j, (i < n)%nat → (j < n)%nat → same_set parents' i j ↔ rtsc (seen_link (seen ++ [(index, id)])) i j.
Proof.
  intros [Hlen Hf _ Hos Hr Hs] Hi Eo. cbn [fst snd] in *.
  pose proof (Hos _ _ Eo) as Hoin. pose proof (Hr _ _ Hoin) as Hon.
  destruct (union_components_spec parents o index) as (p' & Hu & Hl' & Hf' & Hss); [done|lia..|].
  exists p'. split_and!; [done|lia|done|]. intros i j Hin Hjn.
  assert (∀ a b, same_set parents a b → same_set p' a b) as Hkeep by (intros a b ?; apply Hss; by left).
  assert (same_set p' o index) as Hoi by (apply Hss; right; left; split; apply same_set_refl; [done|lia|done|lia]).
  assert (∀ a, (a, id) ∈ seen ++ [(index, id)] → (a < n)%nat ∧ same_set p' a o) as Hid.
  { intros a [Ha| [= ->]]%elem_of_snoc; [|split; [done|by apply same_set_sym]].
    pose proof (Hr _ _ Ha). split; [done|]. apply Hkeep, Hs; [done..|]. apply rtc_once. left. by exists id. }
  assert (sc (seen_link (seen ++ [(index, id)])) o index) as Hedge.
  { left. exists id. rewrite !elem_of_snoc. auto. }
  assert (∀ a b, (a < n)%nat → (b < n)%nat → same_set parents a b →
                 rtsc (seen_link (seen ++ [(index, id)])) a b) as Hup.
  { intros a b Ha Hb Hab. by apply seen_link_mono, Hs. }
  split.
  - rewrite Hss. intros [H|[[H1 H2]|[H1 H2]]]; [by apply Hup|apply Hup in H1, H2; [|done..]..];
      (etrans; [exact H1|]); (etrans; [apply rtc_once|exact H2]); [done|by symmetry].
  - intros H. eapply (rtsc_same_set n); [done|lia| |exact H|done]. intros a b [Hab|[Ha Hb]]%seen_link_snoc.
    + destruct Hab as (id' & Ha & Hb). pose proof (Hr _ _ Ha). pose proof (Hr _ _ Hb).
      split_and!; [done..|]. apply Hkeep, Hs; [done..|]. apply rtc_once. left. by exists id'.
    + apply Hid in Ha as [? ?], Hb as [? ?]. split_and!; [done..|].
      eapply same_set_trans; [done|by apply same_set_sym].
Qed.

(** A lineage not seen before links nothing yet. *)
Lemma linked_fresh n seen parents owner index id i j :
  is_linked n seen (parents, owner) → owner !! id = None → (i < n)%nat → (j < n)%nat →
  same_set parents i j ↔ rtsc (seen_link (seen ++ [(index, id)])) i j.
Proof.
  intros [Hlen Hf Ho _ Hr Hs] Eo Hi Hj. cbn [fst snd] in *. rewrite Hs by done. split; [apply seen_link_mono|].
  assert (∀ c, (c, id) ∈ seen ++ [(index, id)] → c = index) as Hc.
  { intros c [Hc| [= ->]]%elem_of_snoc; [|done]. assert (is_Some (owner !! id)) as [? ?] by (apply Ho; by exists c).
    congruence. }
  assert (∀ a b, seen_link (seen ++ [(index, id)]) a b → a = b ∨ seen_link seen a b) as Hl.
  { intros a b [?|[?%Hc ?%Hc]]%seen_link_snoc; [by right|left; congruence]. }
  intros H. clear Hi Hj. induction H as [|i k j Hik _ IH]; [done|].
  destruct Hik as [H|H]; apply Hl in H as [->|H]; [done| |done|]; (eapply rtc_l; [|exact IH]); [by left|by right].
Qed.

Lemma linked_step n seen st index id :
  is_linked n seen st → (index < n)%nat →
  ∃ st', link_lineage index st id = Ok st' ∧ is_linked n (seen ++ [(index, id)]) st'.
Proof.
  intros Hst Hi. destruct st as [parents owner]. unfold link_lineage.
  assert (∃ parents', match owner !! id with Some o => union_components parents o index | None => Ok parents end
            = Ok parents' ∧ length parents' = n ∧ forest parents' ∧
            ∀ i j, (i < n)%nat → (j < n)%nat → same_set parents' i j ↔ rtsc (seen_link (seen ++ [(index, id)])) i j)
    as (parents' & -> & Hlen' & Hf' & Hs').
  { destruct (owner !! id) as [o|] eqn:Eo; [by eapply linked_union|].
    exists parents. split_and!; [done|apply Hst..|]. intros. by eapply linked_fresh. }
  destruct Hst as [_ _ Ho Hos Hr _]. cbn [fst snd] in *.
  cbn [mbind result_bind]. eexists. split; [done|]. split; cbn [fst snd]; [done|done|..|done].
  - intros id'. setoid_rewrite elem_of_snoc. destruct (decide (id' = id)) as [->|Hne].
    + rewrite lookup_insert_eq. split; [|by eexists]. intros _. exists index. by right.
    + rewrite lookup_insert_ne, Ho by done. naive_solver.
  - intros id' i. rewrite elem_of_snoc. destruct (decide (id' = id)) as [->|Hne].
    + rewrite lookup_insert_eq. intros [= ->]. by right.
    + rewrite lookup_insert_ne by done. intros ?%Hos. by left.
  - intros i id' [?| [= -> ->]]%elem_of_snoc; [by eapply Hr|done].
Qed.

Lemma link_page_step n seen st index page :
  is_linked n seen st → (index < n)%nat →
  ∃ st', link_page st (index, page) = Ok st' ∧
    is_linked n (seen ++ ((index,.) <$> (ln_lineage_id <$> page_endpoints page))) st'.
Proof.
  intros Hst Hi. unfold link_page. cbn [fst snd].
  generalize (ln_lineage_id <$> page_endpoints page) as ids. intros ids. revert seen st Hst.
  induction ids as [|id ids IH]; intros seen st Hst; cbn [result_foldl].
  { exists st. by rewrite fmap_nil, app_nil_r. }
  destruct (linked_step _ _ _ index id Hst Hi) as (st' & -> & Hst'). cbn [mbind result_bind].
  destruct (IH _ _ Hst') as (st'' & -> & Hst''). exists st''. split; [done|].
  by rewrite fmap_cons, (cons_middle (index, id)), (assoc_L (++)).
Qed.

(** The (page, lineage) pairs of a list of numbered pages. *)
Definition mention_pairs (entries : list (nat * PersistentJournalVolumePage)) : list (nat * str) :=
  entries ≫= λ entry, (entry.1,.) <$> (ln_lineage_id <$> page_endpoints entry.2).

Lemma link_pages n seen st entries :
  is_linked n seen st → Forall (λ entry, entry.1 < n)%nat entries →
  ∃ st', result_foldl link_page st entries = Ok st' ∧ is_linked n (seen ++ mention_pairs entries) st'.
Proof.
  intros Hst Hr. revert seen st Hst. induction Hr as [|[i page] entries Hi _ IH]; intros seen st Hst.
  { exists st. split; [done|]. by rewrite app_nil_r. }
  cbn [result_foldl]. destruct (link_page_step _ _ _ i page Hst Hi) as (st' & -> & Hst').
  cbn [mbind result_bind]. destruct (IH _ _ Hst') as (st'' & -> & Hst''). exists st''. split; [done|].
  unfold mention_pairs. cbn [mbind list_bind]. by rewrite (assoc_L (++)).
Qed.

(** ** Numbered pages *)

Lemma enumerate_fst {A : Type} (l : list A) : (enumerate l).*1 = seq 0 (length l).
Proof. apply fst_zip. by rewrite length_seq. Qed.

Lemma elem_of_enumerate {A : Type} (l : list A) i x : (i, x) ∈ enumerate l ↔ l !! i = Some x.
Proof.
  unfold enumerate. rewrite list_elem_of_lookup. split.
  - intros (k & (j & y & [= <- <-] & Hj & Hy)%lookup_zip_with_Some). apply lookup_seq in Hj as [-> _]. done.
  - intros Hi. exists i. apply lookup_zip_with_Some. exists i, x. split_and!; [done| |done].
    apply lookup_seq. apply lookup_lt_Some in Hi. lia.
Qed.

Lemma elem_of_mention_pairs pages i id : (i, id) ∈ mention_pairs (enumerate pages) ↔ mentions pages i id.
Proof.
  unfold mention_pairs, mentions. rewrite list_elem_of_bind. split.
  - intros ([k page] & (id' & [= -> ->] & Hid)%list_elem_of_fmap & Hk%elem_of_enumerate). eauto.
  - intros (page & Hp & Hid). exists (i, page). split; [|by apply elem_of_enumerate].
    cbn [fst snd]. apply list_elem_of_fmap. eauto.
Qed.

Lemma seen_link_mentions pages i j :
  seen_link (mention_pairs (enumerate pages)) i j ↔ shares_lineage pages i j.
Proof. unfold seen_link, shares_lineage. by setoid_rewrite elem_of_mention_pairs. Qed.

Lemma rtsc_proper {A : Type} (R Q : A → A → Prop) i j :
  (∀ a b, R a b → Q a b) → rtsc R i j → rtsc Q i j.
Proof.
  intros H Hr. induction Hr as [|i k j [Hk|Hk] _ IH]; [done|..]; (eapply rtc_l; [|done]); [left|right]; auto.
Qed.

(** ** Grouping *)

Section Groups.
Context {A : Type} (rt : A → nat).

Definition group_all (l : list A) : list (nat * list A) :=
  foldl (λ groups x, push_group (rt x) x groups) [] l.

Lemma push_group_owners r (x : A) groups :
  (push_group r x groups).*1 = groups.*1 ++ (if bool_decide (r ∈ groups.*1) then [] else [r]).
Proof.
  induction groups as [|[o xs] groups IH]; [done|]. cbn [push_group].
  destruct (bool_decide_reflect (o = r)) as [->|Hne]; cbn [fmap list_fmap fst].
  - rewrite bool_decide_eq_true_2 by by left. by rewrite app_nil_r.
  - rewrite IH. cbn [app]. f_equal. f_equal. apply (f_equal (λ b : bool, if b then [] else [r])), bool_decide_ext.
    rewrite elem_of_cons. naive_solver.
Qed.

Lemma push_group_perm r (x : A) groups :
  concat (push_group r x groups).*2 ≡ₚ concat groups.*2 ++ [x].
Proof.
  induction groups as [|[o xs] groups IH]; [done|]. cbn [push_group].
  destruct (bool_decide_reflect (o = r)) as [->|Hne]; cbn [fmap list_fmap snd concat].
  - rewrite <-!(assoc_L (++)). apply Permutation_app_head, Permutation_app_comm.
  - by rewrite IH, (assoc_L (++)).
Qed.

Lemma elem_of_push_group r (x : A) groups o xs :
  NoDup groups.*1 → (o, xs) ∈ push_group r x groups →
  (o ≠ r ∧ (o, xs) ∈ groups) ∨
  (o = r ∧ ((r ∉ groups.*1 ∧ xs = [x]) ∨ ∃ ys, (r, ys) ∈ groups ∧ xs = ys ++ [x])).
Proof.
  induction groups as [|[o' ys] groups IH]; cbn [push_group fmap list_fmap fst].
  { intros _ [= -> ->]%list_elem_of_singleton. right. split; [done|left]. split; [by apply not_elem_of_nil|done]. }
  intros [Hni Hnd]%NoDup_cons. destruct (bool_decide_reflect (o' = r)) as [->|Hne].
  - intros [[= -> ->]|Hin]%elem_of_cons; [right; split; [done|right; exists ys; split; [by left|done]]|].
    left. split; [|by right]. intros ->. apply Hni, list_elem_of_fmap. by exists (r, xs).
  - intros [[= -> ->]|Hin]%elem_of_cons; [left; split; [done|by left]|].
    apply (IH Hnd) in Hin as [[? ?]|[-> [[Hn ->]|(zs & ? & ->)]]]; [left; split; [done|by right]|right..];
      (split; [done|]); [left|right].
    + split; [|done]. rewrite elem_of_cons. naive_solver.
    + exists zs. split; [by right|done].
Qed.

Lemma group_all_spec l :
  NoDup (group_all l).*1 ∧ concat (group_all l).*2 ≡ₚ l ∧
  (∀ r, r ∈ (group_all l).*1 ↔ ∃ x, x ∈ l ∧ rt x = r) ∧
  ∀ r xs, (r, xs) ∈ group_all l → xs = filter (λ x, rt x = r) l ∧ xs ≠ [].
Proof.
  unfold group_all. induction l as [|x l (Hnd & Hp & Ho & Hx)] using rev_ind.
  { split_and!; [apply NoDup_nil_2|done| |by intros ? ? ?%not_elem_of_nil].
    intros r. split; [by intros ?%not_elem_of_nil|by intros (? & ?%not_elem_of_nil & _)]. }
  rewrite foldl_app. cbn [foldl]. set (gs := foldl _ [] l) in *.
  rewrite push_group_owners, push_group_perm, Hp. split_and!; [| done| |].
  - destruct (bool_decide_reflect (rt x ∈ gs.*1)); [by rewrite app_nil_r|].
    apply NoDup_app. split_and!; [done| |apply NoDup_singleton]. by intros y Hy ->%list_elem_of_singleton.
  - intros r. rewrite elem_of_app, Ho. setoid_rewrite elem_of_app. setoid_rewrite list_elem_of_singleton.
    destruct (bool_decide_reflect (rt x ∈ gs.*1)) as [Hin|]; [|rewrite list_elem_of_singleton; naive_solver].
    apply Ho in Hin as (y & ? & ?). split; [intros [?|?%not_elem_of_nil]; naive_solver|].
    intros (z & [?| ->] & <-); left; eauto.
  - intros r xs [[Hne Hin]|[-> [[Hn ->]|(ys & Hin & ->)]]]%elem_of_push_group; [..|done]; rewrite filter_app.
    + destruct (Hx _ _ Hin) as [-> ?]. rewrite filter_cons_False by done. by rewrite filter_nil, app_nil_r.
    + rewrite filter_cons_True, filter_nil by done. split; [|done].
      assert (filter (λ y, rt y = rt x) l = []) as ->; [|done].
      apply elem_of_nil_inv. intros y [Heq Hy]%list_elem_of_filter. apply Hn, Ho. eauto.
    + destruct (Hx _ _ Hin) as [-> ?]. rewrite filter_cons_True, filter_nil by done.
      split; [done|]. by intros [_ ?]%app_nil.
Qed.

Lemma group_all_together l x y :
  x ∈ l → y ∈ l → (∃ r xs, (r, xs) ∈ group_all l ∧ x ∈ xs ∧ y ∈ xs) ↔ rt x = rt y.
Proof.
  intros Hxl Hyl. destruct (group_all_spec l) as (_ & _ & Ho & Hx). split.
  - intros (r & xs & [-> _]%Hx & [Hxr _]%list_elem_of_filter & [Hyr _]%list_elem_of_filter). congruence.
  - intros He. assert (rt x ∈ (group_all l).*1) as ([r xs] & Hr & Hg)%list_elem_of_fmap by (apply Ho; eauto).
    exists r, xs. cbn [fst] in Hr. destruct (Hx _ _ Hg) as [-> _].
    split; [done|]. split; apply list_elem_of_filter; [done|]. split; [congruence|done].
Qed.
End Groups.

(** ** Partition *)

Lemma group_pages_spec parents groups entries (rt : nat → nat) :
  forest parents → Forall (λ entry, entry.1 < length parents)%nat entries →
  (∀ i, (i < length parents)%nat → root_of parents i (rt i)) →
  ∃ parents', result_foldl group_page (parents, groups) entries =
    Ok (parents', foldl (λ groups entry, push_group (rt entry.1) entry.2 groups) groups entries).
Proof.
  intros Hf Hr. revert parents groups Hf Hr. induction entries as [|[i page] entries IH]; intros parents groups Hf Hr Hrt.
  { by exists parents. }
  apply Forall_cons in Hr as [Hi Hr]. cbn [fst snd] in *. cbn [result_foldl foldl].
  destruct (find_component_spec parents i) as (r & p1 & Hc & Hroot & [Hlen Hroots]); [done..|].
  assert (group_page (parents, groups) (i, page) = Ok (p1, push_group (rt i) page groups)) as ->.
  { unfold group_page. cbn [fst snd]. rewrite Hc. by rewrite (root_of_det _ _ _ _ Hroot (Hrt i Hi)). }
  cbn [mbind result_bind fst snd]. apply IH.
  - intros k Hk. rewrite Hlen in Hk. destruct (Hf k Hk) as [s ?]. exists s. by apply Hroots.
  - by rewrite Hlen.
  - intros k Hk. rewrite Hlen in Hk. by apply Hroots, Hrt.
Qed.

(** Grouping pages is grouping numbered pages and forgetting the numbers. *)
Definition relabel {A B : Type} (f : A → B) (group : nat * list A) : nat * list B := (group.1, f <$> group.2).

Lemma push_group_map {A B : Type} (f : A → B) r x (groups : list (nat * list A)) :
  push_group r (f x) (relabel f <$> groups) = relabel f <$> push_group r x groups.
Proof.
  induction groups as [|[o xs] groups IH]; [done|]. cbn [push_group fmap list_fmap]. unfold relabel at 1. cbn [fst snd].
  destruct (bool_decide (o = r)); cbn [fmap list_fmap]; [|by rewrite <-IH].
  f_equal. unfold relabel. cbn [fst snd]. by rewrite fmap_app.
Qed.

Lemma group_all_map {A : Type} (rt : nat → nat) (entries : list (nat * A)) :
  foldl (λ groups entry, push_group (rt entry.1) entry.2 groups) [] entries =
  relabel snd <$> group_all (λ entry, rt entry.1) entries.
Proof.
  unfold group_all. change (@nil (nat * list A)) with (relabel snd <$> (@nil (nat * list (nat * A)))) at 1.
  generalize (@nil (nat * list (nat * A))) as gs. induction entries as [|e entries IH]; intros gs; [done|].
  cbn [foldl]. by rewrite push_group_map, IH.
Qed.

Lemma omap_numbers {A : Type} (l : list A) (xs : list (nat * A)) :
  Forall (λ entry, l !! entry.1 = Some entry.2) xs → omap (l !!.) xs.*1 = xs.*2.
Proof.
  induction 1 as [|[i x] xs Hx _ IH]; [done|]. cbn [fmap list_fmap fst snd omap list_omap] in *. rewrite Hx. f_equal. apply IH.
Qed.

Lemma sorted_seq m n : StronglySorted lt (seq m n).
Proof.
  revert m. induction n as [|n IH]; intros m; cbn [seq]; constructor; [apply IH|].
  apply Forall_forall. intros k ?%elem_of_seq. lia.
Qed.

Lemma sorted_filter_fst {A : Type} (Q : nat * A → Prop) `{∀ x, Decision (Q x)} (xs : list (nat * A)) :
  StronglySorted lt xs.*1 → StronglySorted lt (filter Q xs).*1.
Proof.
  induction xs as [|x xs IH]; [constructor|]. cbn [fmap list_fmap]. intros [Hs Hx]%StronglySorted_inv.
  destruct (decide (Q x)); [|by rewrite filter_cons_False; auto].
  rewrite filter_cons_True by done. constructor; [by apply IH|]. rewrite Forall_forall in *.
  intros k (y & -> & [_ Hy]%list_elem_of_filter)%list_elem_of_fmap. apply Hx. by apply list_elem_of_fmap_2.
Qed.

(** A number determines its page. *)
Lemma elem_of_numbered {A : Type} (l : list A) (Q : nat * A → Prop) `{∀ x, Decision (Q x)} i x :
  (i, x) ∈ enumerate l → i ∈ (filter Q (enumerate l)).*1 → (i, x) ∈ filter Q (enumerate l).
Proof.
  intros Hi ([k y] & -> & Hk)%list_elem_of_fmap. cbn [fst] in *. pose proof Hk as [_ Hk']%list_elem_of_filter.
  apply elem_of_enumerate in Hi, Hk'. by simplify_eq.
Qed.

Lemma partition_spec batch :
  let pages := vb_pages batch in
  ∃ parts : list (list nat),
    partition_atomic_volume_components batch =
      Ok ((λ part, {| vb_pages := omap (pages !!.) part |}) <$> parts) ∧
    concat parts ≡ₚ seq 0 (length pages) ∧
    Forall (λ part, part ≠ [] ∧ StronglySorted lt part) parts ∧
    ∀ i j, (i < length pages)%nat → (j < length pages)%nat →
      (∃ part, part ∈ parts ∧ i ∈ part ∧ j ∈ part) ↔ rtsc (shares_lineage pages) i j.
Proof.
  intros pages. set (n := length pages). unfold partition_atomic_volume_components. fold pages. fold n.
  assert (Forall (λ entry, entry.1 < n)%nat (enumerate pages)) as Hr.
  { apply Forall_forall. intros [i page] Hi%elem_of_enumerate. by apply lookup_lt_Some in Hi. }
  destruct (link_pages n [] (seq 0 n, ∅) (enumerate pages)) as (st & -> & [Hlen Hf _ _ _ Hs]);
    [apply linked_start|done|]. cbn [mbind result_bind app] in *.
  assert (∃ rt : nat → nat, ∀ i, (i < length st.1)%nat → root_of st.1 i (rt i)) as [rt Hrt].
  { exists (λ i, match find_component st.1 i with Ok (r, _) => r | Err _ => 0%nat end). intros i Hi.
    by destruct (find_component_spec st.1 i) as (r & p & -> & ? & _). }
  destruct (group_pages_spec st.1 [] (enumerate pages) rt) as [p' ->]; [done|by rewrite Hlen|done|].
  cbn [mbind result_bind snd]. rewrite group_all_map.
  destruct (group_all_spec (λ entry : nat * PersistentJournalVolumePage, rt entry.1) (enumerate pages))
    as (Hnd & Hp & Ho & Hx).
  set (gs := group_all _ _) in *. exists ((λ g, g.2.*1) <$> gs). split_and!.
  - f_equal. rewrite <-!list_fmap_compose. apply list_fmap_ext. intros k [r xs] Hk. cbn.
    f_equal. symmetry. apply omap_numbers, Forall_forall. intros [i page] Hi.
    apply list_elem_of_lookup_2, Hx in Hk as [-> _]. apply list_elem_of_filter in Hi as [_ Hi].
    by apply elem_of_enumerate.
  - unfold n. rewrite <-enumerate_fst. rewrite <-Hp at 1. clear. induction gs as [|[r xs] gs IH]; [done|].
    cbn [fmap list_fmap concat snd]. by rewrite fmap_app, IH.
  - apply Forall_fmap, Forall_forall. intros [r xs] [Hxs Hne]%Hx. cbn. split; [by intros ?%fmap_nil_inv|].
    rewrite Hxs. apply sorted_filter_fst. rewrite enumerate_fst. apply sorted_seq.
  - intros i j Hi Hj. transitivity (same_set st.1 i j); [|rewrite Hs by done; split; apply rtsc_proper;
      intros a b; apply seen_link_mentions].
    destruct (lookup_lt_is_Some_2 pages i Hi) as [pi Hpi%elem_of_enumerate].
    destruct (lookup_lt_is_Some_2 pages j Hj) as [pj Hpj%elem_of_enumerate].
    rewrite Hlen in Hrt. transitivity (rt i = rt j).
    + rewrite <-(group_all_together (λ entry, rt entry.1) _ _ _ Hpi Hpj). fold gs. split.
      * intros (part & ([r xs] & -> & Hg)%list_elem_of_fmap & Hi' & Hj'). exists r, xs.
        split; [done|]. cbn [snd] in *. destruct (Hx _ _ Hg) as [-> _].
        split; by apply elem_of_numbered.
      * intros (r & xs & Hg & Hi' & Hj'). exists (xs.*1).
        split; [by apply (list_elem_of_fmap_2 (λ g, g.2.*1) gs (r, xs))|].
        split; [by apply (list_elem_of_fmap_2 fst _ (i, pi))|by apply (list_elem_of_fmap_2 fst _ (j, pj))].
    + split; [intros He; exists (rt i); split; [by apply Hrt|rewrite He; by apply Hrt]|].
      intros (r & Hri & Hrj). by rewrite <-(root_of_det _ _ _ _ Hri (Hrt i Hi)), <-(root_of_det _ _ _ _ Hrj (Hrt j Hj)).
Qed.

(** C10: A volume batch is split exactly along its hand-offs.  The split never fails (the loops over the
    parents stop and no index is out of range), every page is in exactly one component, a component
    keeps the order of its pages, and two pages are in one component exactly when a chain of pages
    joins them in which neighbours carry an end point of the same lineage.  So no component separates
    the two owners of a hand-off, and pages no hand-off joins are published independently. *)
Theorem partition_atomic_components batch :
  let pages := vb_pages batch in
  ∃ parts : list (list nat),
    partition_atomic_volume_components batch =
      Ok ((λ part, {| vb_pages := omap (pages !!.) part |}) <$> parts) ∧
    concat parts ≡ₚ seq 0 (length pages) ∧
    Forall (λ part, part ≠ [] ∧ StronglySorted lt part) parts ∧
    ∀ i j, (i < length pages)%nat → (j < length pages)%nat →
      (∃ part, part ∈ parts ∧ i ∈ part ∧ j ∈ part) ↔ rtsc (shares_lineage pages) i j.
Proof. apply partition_spec. Qed.
