(* ===== verification/Continuity.v ===== *)
(** * Validation of the pages of a volume read

    Models the checks of [application/persistent_journal_continuity.rs] on checkpoints, on one page and
    on the pages of a volume, and the choice of unfinished checkpoints of its [capture_window.rs].  The
    order in which a [HashMap] is iterated is a parameter. *)

From S2P Require Import Prelude Text LibraryChange JournalText JournalBatch ChangeQueue JournalState.
From S2P Require Import VolumeComponents.

Definition invalid_page (message : string) : ScanError :=
  ScanError_new "persistent_journal_volume_page_invalid" message.

Definition reconstruction_failure (code message : string) : PersistentJournalReadFailure :=
  {| rf_kind := JournalReconstructionFailure;
     rf_failure := {| jf_code := lit code; jf_message := lit message |};
     rf_opening_boundary := None |}.

Definition same_lineage (left right : PersistentJournalCrossRootLineage) : bool :=
  bool_decide (ln_lineage_id left = ln_lineage_id right)
  && bool_decide (ln_volume left = ln_volume right)
  && bool_decide (ln_journal_id left = ln_journal_id right)
  && bool_decide (ln_file_reference left = ln_file_reference right)
  && bool_decide (ln_old_usn left = ln_old_usn right)
  && bool_decide (ln_new_usn left = ln_new_usn right)
  && bool_decide (ln_previous_carry_id left = ln_previous_carry_id right)
  && bool_decide (ln_previous_root_id left = ln_previous_root_id right)
  && bool_decide (ln_previous_root_generation left = ln_previous_root_generation right)
  && bool_decide (ln_previous_relative_path left = ln_previous_relative_path right)
  && bool_decide (ln_current_root_id left = ln_current_root_id right)
  && bool_decide (ln_current_root_generation left = ln_current_root_generation right)
  && bool_decide (ln_current_relative_path left = ln_current_relative_path right)
  && bool_decide (ln_state left = ln_state right).

(** The loop body of [validate_checkpoint_set]. *)
Definition validate_set_checkpoint (first : PersistentJournalCheckpoint) (roots : gset RootKey)
    (checkpoint : PersistentJournalCheckpoint) : ScanResult (gset RootKey) :=
  PersistentJournalCheckpoint_validate checkpoint;;
  fail_if (negb (bool_decide (ck_volume checkpoint = ck_volume first))
           || negb (bool_decide (ck_journal_id checkpoint = ck_journal_id first))
           || bool_decide (checkpoint_key checkpoint ∈ roots))
          (invalid_page "A physical volume read must contain unique roots from one journal");;
  Ok ({[checkpoint_key checkpoint]} ∪ roots).

Definition validate_checkpoint_set (checkpoints : list PersistentJournalCheckpoint) : ScanResult unit :=
  match checkpoints with
  | [] => Err (invalid_page "A volume read requires at least one root checkpoint")
  | first :: _ => _ ← result_foldl (validate_set_checkpoint first) ∅ checkpoints; Ok ()
  end.

Section Blake3.
Context (blake3_hex : bytes → str).

Definition validate_page (previous : PersistentJournalCheckpoint)
    (batch : PersistentJournalEnrollmentBatch) (checkpoint : PersistentJournalCheckpoint)
    : ScanResult unit :=
  PersistentJournalEnrollmentBatch_validate blake3_hex batch;;
  PersistentJournalCheckpoint_validate checkpoint;;
  let range := eb_range batch in
  fail_if (negb (bool_decide (sr_root_id range = ck_root_id checkpoint))
           || negb (bool_decide (sr_root_generation range = ck_root_generation checkpoint))
           || negb (bool_decide (sr_volume range = ck_volume checkpoint))
           || negb (bool_decide (sr_journal_id range = ck_journal_id checkpoint))
           || negb (bool_decide (sr_requested_start_usn range = ck_next_unread_usn previous))
           || negb (bool_decide (sr_requested_end_usn range = ck_captured_exclusive_end checkpoint))
           || negb (bool_decide (sr_covered_until_usn range = ck_next_unread_usn checkpoint))
           || negb (bool_decide (ck_root_file_reference checkpoint = ck_root_file_reference previous))
           || negb (bool_decide (ck_volume checkpoint = ck_volume previous))
           || negb (bool_decide (ck_journal_id checkpoint = ck_journal_id previous))
           || negb (sr_protocol_version range =? ck_protocol_version previous)
           || negb (ck_protocol_version checkpoint =? ck_protocol_version previous)
           || negb (sr_contract_version range =? ck_contract_version previous)
           || negb (ck_contract_version checkpoint =? ck_contract_version previous)
           || usn_ltb (ck_next_unread_usn checkpoint) (ck_next_unread_usn previous))
          (invalid_page "The volume reader returned a root page with a gap or mismatched identity").

(** ** Hand-offs of a volume *)

(** [.collect::<HashMap<_, _>>()]: a later pair replaces an earlier one with its key. *)
Definition collect_map {A : Type} (pairs : list (str * A)) : gmap str A :=
  foldl (λ m pair, <[pair.1 := pair.2]> m) ∅ pairs.

Definition volume_ranges (batch : PersistentJournalVolumeBatch)
    : gmap str PersistentJournalSourceRange :=
  collect_map ((λ page, let range := eb_range (vp_enrollment page) in (sr_batch_id range, range))
                 <$> vb_pages batch).

Definition pending_by_carry (pending_renames : list PersistentJournalPendingRename)
    : gmap str PersistentJournalPendingRename :=
  collect_map ((λ carry, (pn_carry_id carry, carry)) <$> pending_renames).

(** The sets and maps the first loop of [validate_volume_batch] builds. *)
Record VolumeIndex := {
  vi_consumed : gset str;
  vi_lineage : gmap str (list PersistentJournalCrossRootLineage);
  vi_carried_owner_counts : gmap str Z;
}.

Definition index_consumed (pending : gmap str PersistentJournalPendingRename) (consumed : gset str)
    (carry_id : str) : ScanResult (gset str) :=
  fail_if (negb (bool_decide (is_Some (pending !! carry_id))) || bool_decide (carry_id ∈ consumed))
          (invalid_page "A pending rename carry was consumed without unique durable ownership");;
  Ok ({[carry_id]} ∪ consumed).

Definition index_endpoint (index : VolumeIndex) (endpoint : PersistentJournalCrossRootLineage)
    : VolumeIndex :=
  let counts := vi_carried_owner_counts index in
  let lineage := vi_lineage index in
  let id := ln_lineage_id endpoint in
  {| vi_consumed := vi_consumed index;
     vi_lineage := <[id := default [] (lineage !! id) ++ [endpoint]]> lineage;
     vi_carried_owner_counts :=
       match ln_previous_carry_id endpoint with
       | Some carry_id => <[carry_id := default 0 (counts !! carry_id) + 1]> counts
       | None => counts
       end |}.

Definition index_page (pending : gmap str PersistentJournalPendingRename) (index : VolumeIndex)
    (page : PersistentJournalVolumePage) : ScanResult VolumeIndex :=
  consumed ← result_foldl (index_consumed pending) (vi_consumed index)
               (eb_consumed_pending_rename_ids (vp_enrollment page));
  Ok (foldl index_endpoint
        {| vi_consumed := consumed; vi_lineage := vi_lineage index;
           vi_carried_owner_counts := vi_carried_owner_counts index |} (page_endpoints page)).

(** [iter.filter(p).count()] *)
Definition count_if {A : Type} (p : A → bool) (l : list A) : Z := zlen (List.filter p l).

(** The end point is the current root of a range of this batch that covers the new position. *)
Definition owns_current (ranges : gmap str PersistentJournalSourceRange) (new_usn : JournalUsn)
    (endpoint : PersistentJournalCrossRootLineage) : bool :=
  match ranges !! ln_owner_source_range_id endpoint with
  | Some range =>
    bool_decide (ln_current_root_id endpoint = sr_root_id range)
    && bool_decide (ln_current_root_generation endpoint = sr_root_generation range)
    && usn_leb (sr_requested_start_usn range) new_usn
    && usn_ltb new_usn (sr_covered_until_usn range)
  | None => false
  end.

(** The checks on a hand-off that was carried over from an earlier page. *)
Definition validate_carried (ranges : gmap str PersistentJournalSourceRange)
    (pending : gmap str PersistentJournalPendingRename) (consumed : gset str)
    (first second : PersistentJournalCrossRootLineage) (carry_id : str) : ScanResult unit :=
  carry ← ok_or (pending !! carry_id)
            (invalid_page "A carried handoff has no durable pending rename predecessor");
  fail_if (negb (bool_decide (carry_id ∈ consumed))
           || negb (bool_decide (ln_volume first = pn_volume carry))
           || negb (bool_decide (ln_journal_id first = pn_journal_id carry))
           || negb (bool_decide (ln_file_reference first = pn_file_reference carry))
           || negb (bool_decide (ln_old_usn first = Some (pn_old_usn carry)))
           || negb (bool_decide (ln_previous_root_id first = pn_previous_root_id carry))
           || negb (bool_decide (ln_previous_root_generation first = pn_previous_root_generation carry))
           || negb (bool_decide (ln_previous_relative_path first = pn_previous_relative_path carry)))
          (invalid_page "A consumed carry does not exactly match its carried handoff");;
  new_usn ← ok_or (ln_new_usn first) (invalid_page "A carried handoff is missing its NEW USN");
  let previous_owner_count :=
    count_if (λ endpoint, bool_decide (ln_owner_source_range_id endpoint = pn_source_range_id carry))
      [first; second] in
  let current_owner_count := count_if (owns_current ranges new_usn) [first; second] in
  fail_if (negb (previous_owner_count =? 1) || negb (current_owner_count =? 1))
          (invalid_page "A consumed carry must publish one exact previous and current owner").

(** The root whose durable range owns an end point. *)
Definition endpoint_owner (ranges : gmap str PersistentJournalSourceRange)
    (pending_renames : list PersistentJournalPendingRename)
    (endpoint : PersistentJournalCrossRootLineage) : option RootKey :=
  match ranges !! ln_owner_source_range_id endpoint with
  | Some range => Some (range_key range)
  | None =>
    (λ carry, (pn_previous_root_id carry, pn_previous_root_generation carry))
      <$> List.find (λ carry, bool_decide (pn_source_range_id carry = ln_owner_source_range_id endpoint))
            pending_renames
  end.

Definition validate_endpoint_owner (ranges : gmap str PersistentJournalSourceRange)
    (pending_renames : list PersistentJournalPendingRename)
    (endpoint : PersistentJournalCrossRootLineage) : ScanResult unit :=
  expected ← ok_or (endpoint_owner ranges pending_renames endpoint)
               (invalid_page "A handoff owner has no durable source range");
  let is_previous :=
    bool_decide (expected = (ln_previous_root_id endpoint, ln_previous_root_generation endpoint)) in
  let is_current :=
    bool_decide (expected = (ln_current_root_id endpoint, ln_current_root_generation endpoint)) in
  fail_if (negb is_previous && negb is_current)
          (invalid_page "A handoff owner does not match either endpoint authority").

(** The body of the loop over [lineage.values()]. *)
Definition validate_handoff (ranges : gmap str PersistentJournalSourceRange)
    (pending : gmap str PersistentJournalPendingRename)
    (pending_renames : list PersistentJournalPendingRename) (consumed : gset str)
    (endpoints : list PersistentJournalCrossRootLineage) : ScanResult unit :=
  match endpoints with
  | [first; second] =>
    fail_if (bool_decide (ln_owner_source_range_id first = ln_owner_source_range_id second)
             || negb (same_lineage first second))
            (invalid_page "A cross-root handoff contains mismatched or duplicated owners");;
    match ln_previous_carry_id first with
    | Some carry_id => validate_carried ranges pending consumed first second carry_id
    | None => Ok ()
    end;;
    result_iter (validate_endpoint_owner ranges pending_renames) [first; second]
  | _ => Err (invalid_page "A cross-root handoff must publish both durable owners together")
  end.

(** The iteration order of the map of lineages. *)
Definition LineageValues : Type :=
  gmap str (list PersistentJournalCrossRootLineage) → list (list PersistentJournalCrossRootLineage).

Definition validate_volume_batch (values : LineageValues) (batch : PersistentJournalVolumeBatch)
    (pending_renames : list PersistentJournalPendingRename) : ScanResult unit :=
  PersistentJournalVolumeBatch_validate blake3_hex batch;;
  let ranges := volume_ranges batch in
  let pending := pending_by_carry pending_renames in
  index ← result_foldl (index_page pending)
            {| vi_consumed := ∅; vi_lineage := ∅; vi_carried_owner_counts := ∅ |} (vb_pages batch);
  result_iter (validate_handoff ranges pending pending_renames (vi_consumed index))
    (values (vi_lineage index));;
  fail_if (negb (Z.of_nat (size (vi_carried_owner_counts index)) =? Z.of_nat (size (vi_consumed index)))
           || existsb (λ entry, negb (entry.2 =? 2) || negb (bool_decide (entry.1 ∈ vi_consumed index)))
                (map_to_list (vi_carried_owner_counts index)))
          (invalid_page "Consumed pending renames and carried owners are not one-to-one").

End Blake3.

(** ** Unfinished checkpoints *)

(** The test on one persisted checkpoint: [true] when it cannot continue the previous one. *)
Definition cannot_continue (previous checkpoint : PersistentJournalCheckpoint) : bool :=
  negb (bool_decide (ck_volume checkpoint = ck_volume previous))
  || negb (bool_decide (ck_journal_id checkpoint = ck_journal_id previous))
  || negb (bool_decide (ck_root_file_reference checkpoint = ck_root_file_reference previous))
  || negb (ck_protocol_version checkpoint =? ck_protocol_version previous)
  || negb (ck_contract_version checkpoint =? ck_contract_version previous)
  || negb (bool_decide (ck_continuity checkpoint = CatchingUp))
  || usn_leb (ck_next_unread_usn checkpoint) (ck_next_unread_usn previous)
  || usn_leb (ck_captured_exclusive_end checkpoint) (ck_next_unread_usn checkpoint)
  || (usn_ltb (ck_next_unread_usn previous) (ck_captured_exclusive_end previous)
      && negb (bool_decide (ck_captured_exclusive_end checkpoint = ck_captured_exclusive_end previous))).

Fixpoint unfinished_checkpoints (previous persisted : list PersistentJournalCheckpoint)
    : option (list PersistentJournalCheckpoint) :=
  match previous with
  | [] => Some []
  | prior :: previous =>
    checkpoint ← List.find (λ checkpoint,
      bool_decide (ck_root_id checkpoint = ck_root_id prior)
      && bool_decide (ck_root_generation checkpoint = ck_root_generation prior)) persisted;
    if cannot_continue prior checkpoint then None
    else next ← unfinished_checkpoints previous persisted; Some (checkpoint :: next)
  end.
