(* ===== verification/Handoffs.v ===== *)
(** * The hand-offs of a validated volume batch

    What [validate_volume_batch] guarantees: every lineage has its two owners in the batch, and the
    consumed carries and the carried hand-offs correspond one to one. *)

From stdpp Require Import relations.
From Stdlib Require Import Sorted.
From S2P Require Import Prelude Text LibraryChange JournalText JournalBatch ChangeQueue JournalState.
From S2P Require Import VolumeComponents Continuity.
From S2P Require Import JournalRecovery.

(** All end points of a batch, and all carries it consumes, in the order of its pages. *)
Definition volume_endpoints (pages : list PersistentJournalVolumePage) : list PersistentJournalCrossRootLineage :=
  pages ≫= page_endpoints.
Definition volume_consumed (pages : list PersistentJournalVolumePage) : list str :=
  pages ≫= λ page, eb_consumed_pending_rename_ids (vp_enrollment page).

(** The end points of one lineage, and those that continue one carry. *)
Definition endpoints_of (id : str) (endpoints : list PersistentJournalCrossRootLineage) :=
  filter (λ e, ln_lineage_id e = id) endpoints.
Definition endpoints_carrying (c : str) (endpoints : list PersistentJournalCrossRootLineage) :=
  filter (λ e, ln_previous_carry_id e = Some c) endpoints.

(** ** The index *)

Definition some_if_any {A : Type} (l : list A) : option (list A) :=
  match l with [] => None | _ => Some l end.

Record indexes (pending : gmap str PersistentJournalPendingRename)
    (endpoints : list PersistentJournalCrossRootLineage) (consumed : list str) (index : VolumeIndex) : Prop := {
  indexed_lineage id : vi_lineage index !! id = some_if_any (endpoints_of id endpoints);
  indexed_counts c : vi_carried_owner_counts index !! c = zlen <$> some_if_any (endpoints_carrying c endpoints);
  indexed_consumed : vi_consumed index = list_to_set consumed;
  indexed_distinct : NoDup consumed;
  indexed_pending : Forall (λ c, is_Some (pending !! c)) consumed;
}.

Lemma some_if_any_snoc {A : Type} (l : list A) x : some_if_any (l ++ [x]) = Some (l ++ [x]).
Proof. by destruct l. Qed.

Lemma default_some_if_any {A : Type} (l : list A) : default [] (some_if_any l) = l.
Proof. by destruct l. Qed.

Lemma index_endpoint_step pending endpoints consumed index e :
  indexes pending endpoints consumed index → indexes pending (endpoints ++ [e]) consumed (index_endpoint index e).
Proof.
  intros [Hl Hc Hs Hd Hp]. split; [..|done|done|done]; unfold index_endpoint; cbn.
  - intros id. unfold endpoints_of. rewrite filter_app. destruct (decide (ln_lineage_id e = id)) as [<-|Hne].
    + rewrite lookup_insert_eq, filter_cons_True, filter_nil, some_if_any_snoc by done.
      by rewrite Hl, default_some_if_any.
    + by rewrite lookup_insert_ne, Hl, filter_cons_False, filter_nil, app_nil_r.
  - intros c. unfold endpoints_carrying. rewrite filter_app.
    destruct (ln_previous_carry_id e) as [c'|] eqn:Ec.
    + destruct (decide (c' = c)) as [->|Hne].
      * rewrite lookup_insert_eq, filter_cons_True, filter_nil, some_if_any_snoc by done. cbn. f_equal.
        rewrite Hc. unfold endpoints_carrying. rewrite zlen_app.
        destruct (filter _ endpoints) eqn:E; cbn; unfold zlen; cbn; lia.
      * rewrite lookup_insert_ne, Hc, filter_cons_False, filter_nil, app_nil_r by (done || congruence). done.
    + rewrite Hc, filter_cons_False, filter_nil, app_nil_r by congruence. done.
Qed.

Lemma index_endpoints pending endpoints consumed index es :
  indexes pending endpoints consumed index →
  indexes pending (endpoints ++ es) consumed (foldl index_endpoint index es).
Proof.
  revert endpoints index. induction es as [|e es IH]; intros endpoints index H; [by rewrite app_nil_r|].
  cbn [foldl]. rewrite (cons_middle e), (assoc_L (++)). apply IH. by apply index_endpoint_step.
Qed.

Lemma index_consumed_loop pending ids consumed s :
  NoDup consumed → Forall (λ c, is_Some (pending !! c)) consumed →
  result_foldl (index_consumed pending) (list_to_set consumed) ids = Ok s →
  s = list_to_set (consumed ++ ids) ∧ NoDup (consumed ++ ids) ∧
  Forall (λ c, is_Some (pending !! c)) (consumed ++ ids).
Proof.
  revert consumed. induction ids as [|id ids IH]; intros consumed Hd Hp H; cbn [result_foldl] in H.
  { simplify_result. by rewrite app_nil_r. }
  apply result_bind_Ok in H as (x & H1 & H). unfold index_consumed in H1. simplify_result.
  match goal with H : _ || _ = false |- _ => apply orb_false_iff in H as [Hk%negb_false_iff%bool_decide_eq_true Hn%bool_decide_eq_false] end.
  rewrite elem_of_list_to_set in Hn.
  replace ({[id]} ∪ list_to_set consumed : gset str) with (list_to_set (consumed ++ [id]) : gset str) in H.
  2: { rewrite list_to_set_app_L. cbn. set_solver. }
  apply IH in H; [by rewrite <-(assoc_L (++)) in H|..].
  - apply NoDup_app. split_and!; [done| |apply NoDup_singleton]. by intros y Hy ->%list_elem_of_singleton.
  - apply Forall_app. auto.
Qed.

Lemma index_pages pending pages endpoints consumed index index' :
  indexes pending endpoints consumed index →
  result_foldl (index_page pending) index pages = Ok index' →
  indexes pending (endpoints ++ volume_endpoints pages) (consumed ++ volume_consumed pages) index'.
Proof.
  revert endpoints consumed index. induction pages as [|page pages IH]; intros endpoints consumed index Hi H;
    cbn [result_foldl] in H.
  { simplify_result. unfold volume_endpoints, volume_consumed. by rewrite !app_nil_r. }
  apply result_bind_Ok in H as (index1 & H1 & H). unfold index_page in H1.
  apply result_bind_Ok in H1 as (s & Hs & H1). apply (inj Ok) in H1 as <-.
  destruct Hi as [Hl Hc Hcons Hd Hp]. rewrite Hcons in Hs. apply index_consumed_loop in Hs as (-> & Hd' & Hp'); [|done..].
  unfold volume_endpoints, volume_consumed. cbn [mbind list_bind]. rewrite !(assoc_L (++)).
  eapply IH; [|exact H]. apply index_endpoints. by split.
Qed.

Lemma indexes_empty pending :
  indexes pending [] [] {| vi_consumed := ∅; vi_lineage := ∅; vi_carried_owner_counts := ∅ |}.
Proof. split; cbn; [done|done|done|apply NoDup_nil_2|constructor]. Qed.

(** ** Collected maps *)

Lemma collect_map_lookup {A : Type} (pairs : list (str * A)) k v :
  collect_map pairs !! k = Some v → (k, v) ∈ pairs.
Proof.
  unfold collect_map. induction pairs as [|[k' v'] pairs IH] using rev_ind; [by cbn [foldl]; rewrite lookup_empty|].
  rewrite foldl_app. cbn [foldl fst snd]. rewrite elem_of_snoc. destruct (decide (k' = k)) as [->|Hne].
  - rewrite lookup_insert_eq. intros [= ->]. by right.
  - rewrite lookup_insert_ne by done. auto.
Qed.

Lemma pending_by_carry_lookup pending c carry :
  pending_by_carry pending !! c = Some carry → carry ∈ pending ∧ pn_carry_id carry = c.
Proof.
  intros H%collect_map_lookup. apply list_elem_of_fmap in H as (carry' & [= -> ->] & ?). done.
Qed.

(** ** What validation establishes *)

(** A carried hand-off continues the pending rename it consumes. *)
Definition continues_carry (carry : PersistentJournalPendingRename)
    (e : PersistentJournalCrossRootLineage) : Prop :=
  ln_volume e = pn_volume carry ∧ ln_journal_id e = pn_journal_id carry ∧
  ln_file_reference e = pn_file_reference carry ∧ ln_old_usn e = Some (pn_old_usn carry) ∧
  ln_previous_root_id e = pn_previous_root_id carry ∧
  ln_previous_root_generation e = pn_previous_root_generation carry ∧
  ln_previous_relative_path e = pn_previous_relative_path carry.

(** Two end points agree on everything but their owner. *)
Definition handoff_pair (a b : PersistentJournalCrossRootLineage) : Prop :=
  ln_owner_source_range_id a ≠ ln_owner_source_range_id b ∧ same_lineage a b = true.

Ltac split_bools :=
  repeat match goal with
  | H : _ || _ = false |- _ => apply orb_false_iff in H as [? ?]
  | H : _ && _ = true |- _ => apply andb_true_iff in H as [? ?]
  | H : negb _ = false |- _ => apply negb_false_iff in H
  | H : negb _ = true |- _ => apply negb_true_iff in H
  | H : bool_decide _ = true |- _ => apply bool_decide_eq_true in H
  | H : bool_decide _ = false |- _ => apply bool_decide_eq_false in H
  | H : (_ =? _) = true |- _ => apply Z.eqb_eq in H
  end.

Lemma same_lineage_carry a b :
  same_lineage a b = true →
  ln_lineage_id a = ln_lineage_id b ∧ ln_previous_carry_id a = ln_previous_carry_id b.
Proof. unfold same_lineage. intros H. split_bools. done. Qed.

Lemma validate_handoff_Ok ranges pending renames consumed endpoints u :
  validate_handoff ranges pending renames consumed endpoints = Ok u →
  ∃ a b, endpoints = [a; b] ∧ handoff_pair a b ∧
    ∀ c, ln_previous_carry_id a = Some c →
      c ∈ consumed ∧ ∃ carry, pending !! c = Some carry ∧ continues_carry carry a.
Proof.
  unfold validate_handoff. destruct endpoints as [|a [|b [|]]]; intros H; try done.
  apply result_seq_Ok in H as [H1%fail_if_Ok H]. apply result_seq_Ok in H as [H2 _]. split_bools.
  exists a, b. split; [done|]. split; [done|]. intros c Hc. rewrite Hc in H2. unfold validate_carried in H2.
  apply result_bind_Ok in H2 as (carry & Hcarry%ok_or_Ok & H2). apply result_seq_Ok in H2 as [H2%fail_if_Ok _].
  split_bools. split; [done|]. exists carry. split; [done|]. by split_and!.
Qed.

Section Validated.
Context (blake3_hex : bytes → str) (values : LineageValues).
Context (values_perm : ∀ m, values m ≡ₚ (map_to_list m).*2).

Lemma validate_volume_batch_index batch pending u :
  validate_volume_batch blake3_hex values batch pending = Ok u →
  ∃ index, indexes (pending_by_carry pending) (volume_endpoints (vb_pages batch)) (volume_consumed (vb_pages batch)) index ∧
    (∀ id l, vi_lineage index !! id = Some l →
       validate_handoff (volume_ranges batch) (pending_by_carry pending) pending (vi_consumed index) l = Ok ()) ∧
    size (vi_carried_owner_counts index) = size (vi_consumed index) ∧
    ∀ c n, vi_carried_owner_counts index !! c = Some n → n = 2 ∧ c ∈ vi_consumed index.
Proof.
  unfold validate_volume_batch. intros H. apply result_seq_Ok in H as [_ H].
  apply result_bind_Ok in H as (index & Hi & H). apply result_seq_Ok in H as [Hv%result_iter_Ok Hf%fail_if_Ok].
  exists index. split; [exact (index_pages _ _ _ _ _ _ (indexes_empty _) Hi)|].
  apply orb_false_iff in Hf as [Hsz%negb_false_iff%Z.eqb_eq Hex]. split_and!; [| lia|].
  - intros id l Hl. rewrite values_perm, Forall_forall in Hv. apply Hv.
    apply (list_elem_of_fmap_2 snd _ (id, l)). by apply elem_of_map_to_list.
  - intros c n Hc%elem_of_map_to_list.
    assert (¬ (existsb (λ entry : str * Z, negb (entry.2 =? 2) || negb (bool_decide (entry.1 ∈ vi_consumed index)))
                 (map_to_list (vi_carried_owner_counts index)) = true)) as Hn by by rewrite Hex.
    rewrite existsb_exists in Hn. destruct (negb (n =? 2) || negb (bool_decide (c ∈ vi_consumed index))) eqn:E.
    + destruct Hn. exists (c, n). split; [by apply list_elem_of_In|done].
    + split_bools. done.
Qed.

Lemma some_if_any_ne {A : Type} (x : A) l : x ∈ l → some_if_any l = Some l.
Proof. destruct l; [by intros ?%not_elem_of_nil|done]. Qed.

(** Every end point of a validated batch has exactly one partner, with another owner. *)
Lemma validated_pair batch pending u e :
  validate_volume_batch blake3_hex values batch pending = Ok u →
  e ∈ volume_endpoints (vb_pages batch) →
  ∃ a b, endpoints_of (ln_lineage_id e) (volume_endpoints (vb_pages batch)) = [a; b] ∧ handoff_pair a b ∧
    (e = a ∨ e = b) ∧
    ∀ c, ln_previous_carry_id e = Some c →
      c ∈ volume_consumed (vb_pages batch) ∧
      ∃ carry, carry ∈ pending ∧ pn_carry_id carry = c ∧ continues_carry carry a.
Proof.
  intros (index & [Hl _ Hc _ _] & Hh & _ & _)%validate_volume_batch_index He.
  assert (e ∈ endpoints_of (ln_lineage_id e) (volume_endpoints (vb_pages batch))) as Hin by by apply list_elem_of_filter.
  specialize (Hl (ln_lineage_id e)). rewrite (some_if_any_ne _ _ Hin) in Hl.
  apply Hh, validate_handoff_Ok in Hl as (a & b & Hab & Hp & Hcarry). rewrite Hab in *.
  exists a, b. split; [done|]. split; [done|].
  assert (e = a ∨ e = b) as Heab by (apply elem_of_cons in Hin as [?|?%list_elem_of_singleton]; auto).
  split; [done|]. intros c Hec. destruct Hp as [_ Hs]. apply same_lineage_carry in Hs as [_ Hs].
  destruct (Hcarry c) as [Hin' (carry & Hk%pending_by_carry_lookup & ?)]; [destruct Heab as [->| ->]; congruence|].
  rewrite Hc, elem_of_list_to_set in Hin'. split; [done|]. exists carry. naive_solver.
Qed.

(** The end points that continue a carry are the two owners of one hand-off. *)
Lemma validated_carry batch pending u c :
  validate_volume_batch blake3_hex values batch pending = Ok u →
  c ∈ volume_consumed (vb_pages batch) →
  ∃ e, e ∈ volume_endpoints (vb_pages batch) ∧ ln_previous_carry_id e = Some c ∧
    length (endpoints_carrying c (volume_endpoints (vb_pages batch))) = 2%nat.
Proof.
  intros (index & [_ Hn Hc Hd _] & _ & Hsz & Hcount)%validate_volume_batch_index Hin.
  assert (dom (vi_carried_owner_counts index) = vi_consumed index) as Hdom.
  { apply set_subseteq_size_eq.
    - intros k (n & ?%Hcount)%elem_of_dom. naive_solver.
    - rewrite size_dom. lia. }
  assert (c ∈ dom (vi_carried_owner_counts index)) as (n & Hk)%elem_of_dom.
  { rewrite Hdom, Hc. by apply elem_of_list_to_set. }
  destruct (Hcount _ _ Hk) as [-> _]. rewrite Hn in Hk.
  destruct (endpoints_carrying c (volume_endpoints (vb_pages batch))) as [|e es] eqn:E; [done|].
  cbn in Hk. apply (inj Some) in Hk. assert (e ∈ e :: es) as He by by left. rewrite <-E in He.
  apply list_elem_of_filter in He as [? ?]. exists e. split_and!; [done..|]. unfold zlen in Hk. simpl in *. lia.
Qed.

End Validated.

(** ** Hand-offs of a validated batch *)

Lemma filter_length_le {A : Type} (P Q : A → Prop) `{∀ x, Decision (P x)} `{∀ x, Decision (Q x)} l :
  Forall (λ x, P x → Q x) l → (length (filter P l) ≤ length (filter Q l))%nat.
Proof.
  induction 1 as [|x l Hx _ IH]; [done|]. rewrite !filter_cons.
  destruct (decide (P x)), (decide (Q x)); simpl; naive_solver lia.
Qed.

Lemma filter_same_length {A : Type} (P Q : A → Prop) `{∀ x, Decision (P x)} `{∀ x, Decision (Q x)} l :
  Forall (λ x, P x → Q x) l → length (filter P l) = length (filter Q l) → filter P l = filter Q l.
Proof.
  induction 1 as [|x l Hx HPQ IH]; [done|]. pose proof (filter_length_le P Q l HPQ). rewrite !filter_cons.
  destruct (decide (P x)), (decide (Q x)); simpl; intros Heq; [f_equal; auto|naive_solver|lia|auto].
Qed.

(** C26: Hand-offs between roots are complete in a validated volume batch.  Whatever the iteration order
    of the lineage map, every end point in the batch has exactly one partner, which agrees with it on
    the rename and belongs to another range; a carry is consumed at most once, only when it is
    pending, and exactly when the two owners of one hand-off that continues that very rename are in
    the batch. *)
Theorem validated_handoffs_complete blake3_hex values batch pending :
  (∀ m, values m ≡ₚ (map_to_list m).*2) →
  validate_volume_batch blake3_hex values batch pending = Ok () →
  let es := volume_endpoints (vb_pages batch) in
  let cs := volume_consumed (vb_pages batch) in
  (∀ e, e ∈ es → ∃ a b, endpoints_of (ln_lineage_id e) es = [a; b] ∧ handoff_pair a b) ∧
  NoDup cs ∧
  (∀ e c, e ∈ es → ln_previous_carry_id e = Some c → c ∈ cs) ∧
  (∀ c, c ∈ cs → ∃ carry a b,
     carry ∈ pending ∧ pn_carry_id carry = c ∧ endpoints_carrying c es = [a; b] ∧
     handoff_pair a b ∧ continues_carry carry a).
Proof.
  intros Hperm Hv es cs. split_and!.
  - intros e He. destruct (validated_pair _ _ Hperm _ _ _ _ Hv He) as (a & b & ? & ? & _). eauto.
  - by destruct (validate_volume_batch_index _ _ Hperm _ _ _ Hv) as (index & [_ _ _ Hd _] & _).
  - intros e c He Hc. destruct (validated_pair _ _ Hperm _ _ _ _ Hv He) as (a & b & _ & _ & _ & Hcarry).
    by apply Hcarry.
  - intros c Hc. destruct (validated_carry _ _ Hperm _ _ _ _ Hv Hc) as (e & He & Hec & Hlen).
    destruct (validated_pair _ _ Hperm _ _ _ _ Hv He) as (a & b & Hab & Hp & Heab & Hcarry).
    destruct (Hcarry c Hec) as (_ & carry & ? & ? & ?). exists carry, a, b. split_and!; [done..| |done|done].
    fold es in Hab, Hlen. rewrite <-Hab. symmetry. apply filter_same_length; [|fold (endpoints_of (ln_lineage_id e) es)].
    + apply Forall_forall. intros x Hx Hid.
      assert (x ∈ [a; b]) as Hxab by (rewrite <-Hab; by apply list_elem_of_filter).
      destruct Hp as [_ Hs%same_lineage_carry]. apply elem_of_cons in Hxab as [->|Hxab%list_elem_of_singleton];
        destruct Heab as [->| ->]; naive_solver congruence.
    + rewrite Hab. by symmetry.
Qed.

(** A rename carried from an earlier page of the first root, completed under the second root. *)
Definition sample_range (batch root : Z) : PersistentJournalSourceRange :=
  {| sr_batch_id := replicate 64 batch; sr_root_id := lit "root-" ++ [root];
     sr_root_generation := {| generation_value := 3 |}; sr_volume := sample_volume;
     sr_journal_id := {| journal_identifier_value := 5 |};
     sr_requested_start_usn := {| journal_usn_value := 200 |};
     sr_requested_end_usn := {| journal_usn_value := 300 |};
     sr_covered_until_usn := {| journal_usn_value := 300 |}; sr_is_complete := true;
     sr_protocol_version := 5; sr_contract_version := 1; sr_state := RangeEnrolled;
     sr_enrolled_unix_ms := 9; sr_checkpointed_unix_ms := None |}.

Definition sample_endpoint (owner : Z) : PersistentJournalCrossRootLineage :=
  {| ln_lineage_id := lit "lineage"; ln_owner_source_range_id := replicate 64 owner;
     ln_volume := sample_volume; ln_journal_id := {| journal_identifier_value := 5 |};
     ln_file_reference := RefV2 (replicate 8 1);
     ln_old_usn := Some {| journal_usn_value := 120 |}; ln_new_usn := Some {| journal_usn_value := 250 |};
     ln_previous_carry_id := Some (replicate 64 97);
     ln_previous_root_id := lit "root-1"; ln_previous_root_generation := {| generation_value := 3 |};
     ln_previous_relative_path := lit "a/y.png";
     ln_current_root_id := lit "root-2"; ln_current_root_generation := {| generation_value := 3 |};
     ln_current_relative_path := lit "b/y.png"; ln_state := LineagePending |}.

Definition sample_handoff_page (batch root : Z) (own carried : list PersistentJournalCrossRootLineage)
    (consumed : list str) : PersistentJournalVolumePage :=
  {| vp_enrollment :=
       {| eb_range := sample_range batch root; eb_intents := []; eb_cross_root_lineage := own;
          eb_carried_cross_root_lineage := carried; eb_pending_renames := [];
          eb_consumed_pending_rename_ids := consumed; eb_directory_changes := [] |};
     vp_checkpoint :=
       {| ck_root_id := lit "root-" ++ [root]; ck_root_generation := {| generation_value := 3 |};
          ck_volume := sample_volume; ck_root_file_reference := RefV2 (replicate 8 2);
          ck_journal_id := {| journal_identifier_value := 5 |};
          ck_next_unread_usn := {| journal_usn_value := 300 |};
          ck_captured_exclusive_end := {| journal_usn_value := 300 |};
          ck_covered_catalog_revision := 1; ck_protocol_version := 5; ck_contract_version := 1;
          ck_continuity := CatchingUp; ck_failure := None; ck_updated_unix_ms := 9 |} |}.

Definition sample_handoff : PersistentJournalVolumeBatch :=
  {| vb_pages := [ sample_handoff_page 99 49 [] [sample_endpoint 98] [replicate 64 97];
                   sample_handoff_page 100 50 [sample_endpoint 100] [] [] ] |}.

(** One iteration order. *)
Definition map_values : LineageValues := λ m, (map_to_list m).*2.

Lemma validated_handoffs_complete_witness :
  ∃ carry a b, carry ∈ [sample_pending_rename] ∧
    endpoints_carrying (replicate 64 97) (volume_endpoints (vb_pages sample_handoff)) = [a; b] ∧
    handoff_pair a b ∧ continues_carry carry a.
Proof.
  assert (validate_volume_batch sample_blake3 map_values sample_handoff [sample_pending_rename] = Ok ()) as Hv
    by (vm_compute; reflexivity).
  destruct (validated_handoffs_complete sample_blake3 map_values sample_handoff [sample_pending_rename]
              (λ m, reflexivity _) Hv) as (_ & _ & _ & Hc).
  destruct (Hc (replicate 64 97)) as (carry & a & b & ? & _ & ? & ? & ?).
  - vm_compute. left.
  - exists carry, a, b. split_and!; assumption.
Defined.

(** ** Hand-offs of a component *)

Lemma part_bind {A B : Type} (f : A → list B) k l part :
  StronglySorted lt part → Forall (λ i, k ≤ i < k + length l)%nat part →
  (∀ i x, l !! i = Some x → (k + i)%nat ∉ part → f x = []) →
  omap (λ i, l !! (i - k)%nat) part ≫= f = l ≫= f.
Proof.
  revert k part. induction l as [|x l IH]; intros k part Hs Hr Hf.
  { destruct part as [|i part]; [done|]. apply Forall_cons in Hr as [Hr _]. simpl in Hr. lia. }
  assert (∀ part, Forall (λ i, S k ≤ i)%nat part →
            omap (λ i, (x :: l) !! (i - k)%nat) part = omap (λ i, l !! (i - S k)%nat) part) as Hshift.
  { intros part' Hp. induction Hp as [|i part' Hi _ IHp]; [done|]. cbn [omap list_omap].
    replace (i - k)%nat with (S (i - S k)) by lia. cbn [lookup list_lookup]. by rewrite IHp. }
  destruct (decide (k ∈ part)) as [Hk|Hk].
  - destruct part as [|i part]; [by apply not_elem_of_nil in Hk|].
    apply StronglySorted_inv in Hs as [Hs Hi]. apply Forall_cons in Hr as [Hri Hr].
    assert (i = k) as ->.
    { apply elem_of_cons in Hk as [?|Hk]; [done|]. rewrite Forall_forall in Hi. apply Hi in Hk. lia. }
    cbn [omap list_omap]. rewrite Nat.sub_diag. cbn [lookup list_lookup mbind list_bind]. f_equal.
    rewrite Hshift by (eapply Forall_impl; [exact Hi|intros j ?; simpl in *; lia]). apply IH; [done| |].
    + rewrite Forall_forall in *. intros j Hj. specialize (Hi _ Hj). specialize (Hr _ Hj). simpl in *. lia.
    + intros i y Hy Hn. apply (Hf (S i)); [done|]. rewrite elem_of_cons. intros [?|?]; [lia|].
      apply Hn. by replace (S k + i)%nat with (k + S i)%nat by lia.
  - assert (Forall (λ i, S k ≤ i < S k + length l)%nat part) as Hr'.
    { rewrite Forall_forall in *. intros j Hj. specialize (Hr _ Hj). simpl in *.
      assert (j ≠ k) by by intros ->. lia. }
    rewrite Hshift by (eapply Forall_impl; [exact Hr'|intros j ?; simpl in *; lia]). cbn [mbind list_bind].
    rewrite (Hf 0%nat x) by (done || by rewrite Nat.add_0_r). apply IH; [done..|].
    intros i y Hy Hn. apply (Hf (S i)); [done|]. by replace (k + S i)%nat with (S k + i)%nat by lia.
Qed.

Lemma endpoints_of_pages id pages :
  endpoints_of id (volume_endpoints pages) = pages ≫= λ page, endpoints_of id (page_endpoints page).
Proof.
  unfold volume_endpoints, endpoints_of. induction pages as [|page pages IH]; [done|].
  cbn [mbind list_bind]. by rewrite filter_app, IH.
Qed.

(** A part of the pages that holds every page of a lineage holds all its end points. *)
Lemma endpoints_of_part id pages part :
  StronglySorted lt part → Forall (λ i, i < length pages)%nat part →
  (∀ i, mentions pages i id → i ∈ part) →
  endpoints_of id (volume_endpoints (omap (pages !!.) part)) = endpoints_of id (volume_endpoints pages).
Proof.
  intros Hs Hr Hm. rewrite !endpoints_of_pages. rewrite <-(part_bind _ 0 pages part); [|done|..].
  - assert (omap (pages !!.) part = omap (λ i, pages !! (i - 0)%nat) part) as ->; [|done].
    clear. induction part as [|j part IH]; [done|]. cbn [omap list_omap]. by rewrite Nat.sub_0_r, IH.
  - eapply Forall_impl; [exact Hr|]. intros i. simpl. lia.
  - intros i page Hi Hn. apply elem_of_nil_inv. intros e [Hid He]%list_elem_of_filter. apply Hn, Hm.
    exists page. split; [done|]. apply list_elem_of_fmap. eauto.
Qed.

Lemma elem_of_concat {A : Type} (x : A) ls : x ∈ concat ls ↔ ∃ l, l ∈ ls ∧ x ∈ l.
Proof. setoid_rewrite list_elem_of_In. rewrite in_concat. naive_solver. Qed.

Lemma concat_disjoint {A : Type} (x : A) ls l k :
  NoDup (concat ls) → l ∈ ls → k ∈ ls → x ∈ l → x ∈ k → l = k.
Proof.
  induction ls as [|m ls IH]; cbn [concat]; [by intros _ ?%not_elem_of_nil|].
  intros (_ & Hd & Hnd)%NoDup_app. rewrite !elem_of_cons. intros [->|Hl] [->|Hk] Hx Hx'; [done|..|by apply IH];
    exfalso; eapply Hd; [exact Hx| |exact Hx'|]; apply elem_of_concat; eauto.
Qed.

(** Every component of the split of a validated batch is complete in itself. *)
Lemma component_handoffs blake3_hex values batch pending components component e :
  (∀ m, values m ≡ₚ (map_to_list m).*2) →
  validate_volume_batch blake3_hex values batch pending = Ok () →
  partition_atomic_volume_components batch = Ok components → component ∈ components →
  e ∈ volume_endpoints (vb_pages component) →
  ∃ a b, endpoints_of (ln_lineage_id e) (volume_endpoints (vb_pages component)) = [a; b] ∧ handoff_pair a b.
Proof.
  intros Hperm Hv Hc Hin He. destruct (partition_spec batch) as (parts & Hp & Hcat & Hs & Hsame).
  rewrite Hc in Hp. apply (inj Ok) in Hp as ->. apply list_elem_of_fmap in Hin as (part & -> & Hpart). cbn [vb_pages] in *.
  rewrite Forall_forall in Hs. destruct (Hs _ Hpart) as [_ Hsort].
  assert (∀ i, i ∈ part → i < length (vb_pages batch))%nat as Hr.
  { intros i Hi. enough (i ∈ seq 0 (length (vb_pages batch))) as ?%elem_of_seq by lia.
    rewrite <-Hcat. apply elem_of_concat. eauto. }
  apply list_elem_of_bind in He as (page & He & (i & Hi & Hpage)%list_elem_of_omap).
  assert (mentions (vb_pages batch) i (ln_lineage_id e)) as Hm.
  { exists page. split; [done|]. apply list_elem_of_fmap. eauto. }
  rewrite endpoints_of_part; [|done|by apply Forall_forall|].
  - destruct (validated_pair _ _ Hperm _ _ _ e Hv) as (a & b & ? & ? & _); [|eauto].
    apply list_elem_of_bind. exists page. split; [done|by eapply list_elem_of_lookup_2].
  - intros j Hj. assert (j < length (vb_pages batch))%nat as Hjn.
    { destruct Hj as (p & Hp & _). by eapply lookup_lt_Some. }
    destruct (proj2 (Hsame i j (Hr i Hi) Hjn)) as (part' & Hpart' & Hi' & Hj').
    { apply rtc_once. left. by exists (ln_lineage_id e). }
    rewrite (concat_disjoint i parts part part'); [done| |done..]. rewrite Hcat. apply NoDup_seq.
Qed.
