(* ===== verification/CatchUp.v ===== *)
(** * Catching up with the journal of a volume

    Models [catch_up_persistent_journal_volume] of [application/persistent_journal_continuity.rs], its
    [empty_replay.rs] and [capture_window.rs].  The repository, the volume reader, the cancellation flag
    and the clock are the ports of the application: a class of operations on a world [W], about which
    nothing is assumed.  An operation that fails still leaves its world behind. *)

From S2P Require Import Prelude Text Effects LibraryChange JournalText JournalBatch ChangeQueue JournalState.
From S2P Require Import VolumeComponents Continuity.

Abbreviation Eff := (Run ScanError).

(** ** Ports *)

(** The methods of [PersistentJournalRepository] and [PersistentJournalVolumeReader] that catching up
    calls, the cancellation flag and the clock. *)
Class JournalPorts (W : Type) := {
  load_persistent_journal_capabilities : W → ScanResult (list PersistentJournalCapability) * W;
  load_persistent_journal_pending_renames :
    PersistentJournalVolumeIdentity → JournalIdentifier →
    W → ScanResult (list PersistentJournalPendingRename) * W;
  load_persistent_journal_checkpoint :
    str → LibraryRootGeneration → W → ScanResult (option PersistentJournalCheckpoint) * W;
  record_persistent_journal_empty_replay :
    PersistentJournalCheckpoint → Z → W → ScanResult bool * W;
  persist_persistent_journal_root_failure :
    PersistentJournalRootFailure → Z → LibraryChangeQueuePolicy →
    W → ScanResult (option LibraryChangeId) * W;
  attach_persistent_journal_recovery_opening_boundary :
    str → LibraryRootGeneration → LibraryRecoveryOpeningBoundary → Z →
    W → ScanResult (option LibraryChangeId) * W;
  publish_persistent_journal_volume_batch :
    PersistentJournalVolumeBatch → Z → LibraryChangeQueuePolicy →
    W → ScanResult PersistentJournalEnrollmentReport * W;
  journal_capture_should_yield : Z → LibraryChangeQueuePolicy → W → ScanResult bool * W;
  read_volume :
    list PersistentJournalCheckpoint → list PersistentJournalPendingRename → Z →
    W → Result PersistentJournalReadFailure (list PersistentJournalRootReadOutcome) * W;
  load_cancelled : W → bool * W;
  clock_elapsed : W → Z * W;
  clock_observed_unix_ms : W → ScanResult Z * W;
}.

(** ** Reports *)

Definition empty_report : PersistentJournalEnrollmentReport :=
  {| er_enrolled_root_count := 0; er_failed_root_count := 0; er_observation_count := 0;
     er_advanced_checkpoint_count := 0; er_root_failures := [] |}.

(** [report.failed_root_count = report.failed_root_count.saturating_add(1)] *)
Definition count_failed (report : PersistentJournalEnrollmentReport) : PersistentJournalEnrollmentReport :=
  {| er_enrolled_root_count := er_enrolled_root_count report;
     er_failed_root_count := saturating_add U32_MAX (er_failed_root_count report) 1;
     er_observation_count := er_observation_count report;
     er_advanced_checkpoint_count := er_advanced_checkpoint_count report;
     er_root_failures := er_root_failures report |}.

Definition push_root_failure (report : PersistentJournalEnrollmentReport)
    (failure : PersistentJournalRootFailure) : PersistentJournalEnrollmentReport :=
  {| er_enrolled_root_count := er_enrolled_root_count report;
     er_failed_root_count := er_failed_root_count report;
     er_observation_count := er_observation_count report;
     er_advanced_checkpoint_count := er_advanced_checkpoint_count report;
     er_root_failures := er_root_failures report ++ [failure] |}.

(** The arm [Ok(publication)]: the counters of a publication are added. *)
Definition add_publication (report publication : PersistentJournalEnrollmentReport)
    : PersistentJournalEnrollmentReport :=
  {| er_enrolled_root_count :=
       saturating_add U32_MAX (er_enrolled_root_count report) (er_enrolled_root_count publication);
     er_failed_root_count := er_failed_root_count report;
     er_observation_count :=
       saturating_add U64_MAX (er_observation_count report) (er_observation_count publication);
     er_advanced_checkpoint_count :=
       saturating_add U32_MAX (er_advanced_checkpoint_count report)
         (er_advanced_checkpoint_count publication);
     er_root_failures := er_root_failures report |}.

Definition failure_of_error (kind : PersistentJournalRootFailureKind) (error : ScanError)
    : PersistentJournalReadFailure :=
  {| rf_kind := kind;
     rf_failure := {| jf_code := se_code error; jf_message := se_message error |};
     rf_opening_boundary := None |}.

(** What the loop over the outcomes keeps. *)
Record ReadState := {
  rs_seen_roots : gset RootKey;
  rs_report : PersistentJournalEnrollmentReport;
  rs_publishable : list PersistentJournalVolumePage;
}.

Definition with_report (st : ReadState) (report : PersistentJournalEnrollmentReport) : ReadState :=
  {| rs_seen_roots := rs_seen_roots st; rs_report := report; rs_publishable := rs_publishable st |}.

Section CatchUp.
Context {W : Type} `{JournalPorts W}.
Context (blake3_hex : bytes → str) (values : LineageValues).

Definition record_root_failure (report : PersistentJournalEnrollmentReport)
    (checkpoint : PersistentJournalCheckpoint) (failure : PersistentJournalReadFailure)
    (failed_unix_ms : Z) (policy : LibraryChangeQueuePolicy)
    : Eff W PersistentJournalEnrollmentReport :=
  check (PersistentJournalReadFailure_validate failure);;
  let failure :=
    {| rtf_root_id := ck_root_id checkpoint;
       rtf_root_generation := ck_root_generation checkpoint;
       rtf_kind := rf_kind failure;
       rtf_failure := rf_failure failure;
       rtf_opening_boundary := rf_opening_boundary failure |} in
  check (PersistentJournalRootFailure_validate failure);;
  (if negb (bool_decide (rtf_kind failure = RootCancelled))
   then call (persist_persistent_journal_root_failure failure failed_unix_ms policy);; mret ()
   else mret ());;
  mret (push_root_failure (count_failed report) failure).

(** [empty_replay::record] *)
Definition record_empty_replay (previous proof : PersistentJournalCheckpoint) (observed_unix_ms : Z)
    : W → Result PersistentJournalReadFailure unit * W := λ w,
  if negb (bool_decide (ck_root_id proof = ck_root_id previous))
     || negb (bool_decide (ck_root_generation proof = ck_root_generation previous))
     || negb (bool_decide (ck_volume proof = ck_volume previous))
     || negb (bool_decide (ck_root_file_reference proof = ck_root_file_reference previous))
     || negb (bool_decide (ck_journal_id proof = ck_journal_id previous))
     || negb (ck_protocol_version proof =? ck_protocol_version previous)
     || negb (ck_contract_version proof =? ck_contract_version previous)
     || negb (bool_decide (ck_next_unread_usn proof = ck_next_unread_usn previous))
     || negb (bool_decide (ck_captured_exclusive_end proof = ck_next_unread_usn proof))
  then (Err (reconstruction_failure "persistent_journal_empty_replay_invalid"
               "The empty replay does not prove the requested root and exact cursor"), w)
  else
    let '(recorded, w) := record_persistent_journal_empty_replay proof observed_unix_ms w in
    (match recorded with
     | Ok _ => Ok ()
     | Err error => Err (failure_of_error Transient error)
     end, w).

(** What happens to an enrolled page: it is kept for publication only when it continues the
    checkpoint of the root it was read for. *)
Definition admit_page (initial : gmap RootKey PersistentJournalCheckpoint) (observed_unix_ms : Z)
    (policy : LibraryChangeQueuePolicy) (outcome_key : RootKey) (st : ReadState)
    (batch : PersistentJournalEnrollmentBatch) (checkpoint : PersistentJournalCheckpoint)
    : Eff W ReadState :=
  let root_key := range_key (eb_range batch) in
  match initial !! root_key with
  | None => mret (with_report st (count_failed (rs_report st)))
  | Some previous =>
    if negb (bool_decide (root_key = outcome_key)) then
      report ← record_root_failure (rs_report st) previous
                 (reconstruction_failure "persistent_journal_reader_root_mismatch"
                    "The journal page owner does not match its requested root")
                 observed_unix_ms policy;
      mret (with_report st report)
    else
      match validate_page blake3_hex previous batch checkpoint with
      | Err error =>
        report ← record_root_failure (rs_report st) previous
                   (failure_of_error JournalReconstructionFailure error) observed_unix_ms policy;
        mret (with_report st report)
      | Ok _ =>
        mret {| rs_seen_roots := rs_seen_roots st; rs_report := rs_report st;
                rs_publishable := rs_publishable st
                  ++ [{| vp_enrollment := batch; vp_checkpoint := checkpoint |}] |}
      end
  end.

(** One outcome of the reader, after the test of the cancellation flag. *)
Definition process_outcome (initial : gmap RootKey PersistentJournalCheckpoint) (observed_unix_ms : Z)
    (policy : LibraryChangeQueuePolicy) (st : ReadState) (outcome : PersistentJournalRootReadOutcome)
    : Eff W ReadState :=
  let outcome_key : RootKey := (ro_root_id outcome, ro_root_generation outcome) in
  match initial !! outcome_key with
  | None => mret (with_report st (count_failed (rs_report st)))
  | Some previous =>
    if bool_decide (outcome_key ∈ rs_seen_roots st) then
      report ← record_root_failure (rs_report st) previous
                 (reconstruction_failure "persistent_journal_reader_duplicate_root"
                    "The journal reader returned a root more than once")
                 observed_unix_ms policy;
      mret (with_report st report)
    else
      let st := {| rs_seen_roots := {[outcome_key]} ∪ rs_seen_roots st;
                   rs_report := rs_report st; rs_publishable := rs_publishable st |} in
      (match ro_opening_boundary outcome with
       | Some boundary =>
         call (attach_persistent_journal_recovery_opening_boundary
                 (ro_root_id outcome) (ro_root_generation outcome) boundary observed_unix_ms);;
         mret ()
       | None => mret ()
       end);;
      match ro_page outcome with
      | Ok (Some (Enrolled batch checkpoint)) =>
        admit_page initial observed_unix_ms policy outcome_key st batch checkpoint
      | Ok (Some (EmptyReplay checkpoint)) =>
        recorded ← attempt (record_empty_replay previous checkpoint observed_unix_ms);
        match recorded with
        | Ok _ => mret st
        | Err failure =>
          report ← record_root_failure (rs_report st) previous failure observed_unix_ms policy;
          mret (with_report st report)
        end
      | Ok None => mret st
      | Err failure =>
        report ← record_root_failure (rs_report st) previous failure observed_unix_ms policy;
        mret (with_report st report)
      end
  end.

(** The loop over the outcomes; [inl report] is the early return on cancellation. *)
Fixpoint process_outcomes (initial : gmap RootKey PersistentJournalCheckpoint) (observed_unix_ms : Z)
    (policy : LibraryChangeQueuePolicy) (outcomes : list PersistentJournalRootReadOutcome)
    (st : ReadState) : Eff W (PersistentJournalEnrollmentReport + ReadState) :=
  match outcomes with
  | [] => mret (inr st)
  | outcome :: outcomes =>
    cancelled ← observe load_cancelled;
    if (cancelled : bool) then mret (inl (rs_report st))
    else
      st ← process_outcome initial observed_unix_ms policy st outcome;
      process_outcomes initial observed_unix_ms policy outcomes st
  end.

(** A loop that records one failure per element. *)
Fixpoint record_failures {A : Type} (owner : A → Eff W PersistentJournalCheckpoint)
    (failure : PersistentJournalReadFailure) (observed_unix_ms : Z)
    (policy : LibraryChangeQueuePolicy) (l : list A) (report : PersistentJournalEnrollmentReport)
    : Eff W PersistentJournalEnrollmentReport :=
  match l with
  | [] => mret report
  | x :: l =>
    previous ← owner x;
    report ← record_root_failure report previous failure observed_unix_ms policy;
    record_failures owner failure observed_unix_ms policy l report
  end.

(** [initial[&(page.checkpoint.root_id, page.checkpoint.root_generation)]] *)
Definition page_owner (initial : gmap RootKey PersistentJournalCheckpoint)
    (page : PersistentJournalVolumePage) : Eff W PersistentJournalCheckpoint :=
  expect (initial !! checkpoint_key (vp_checkpoint page)).

(** The roots the reader left out. *)
Definition omitted_roots (seen_roots : gset RootKey) (checkpoints : list PersistentJournalCheckpoint)
    : list PersistentJournalCheckpoint :=
  filter (λ checkpoint, checkpoint_key checkpoint ∉ seen_roots) checkpoints.

(** The kind of failure an error of the repository's publication stands for. *)
Definition publication_failure (error : ScanError) : PersistentJournalReadFailure :=
  failure_of_error
    (if bool_decide (se_code error = lit "persistent_journal_namespace_collision")
     then JournalReconstructionFailure else Transient) error.

Fixpoint publish_components (initial : gmap RootKey PersistentJournalCheckpoint)
    (observed_unix_ms : Z) (policy : LibraryChangeQueuePolicy)
    (components : list PersistentJournalVolumeBatch) (report : PersistentJournalEnrollmentReport)
    : Eff W PersistentJournalEnrollmentReport :=
  match components with
  | [] => mret report
  | component :: components =>
    cancelled ← observe load_cancelled;
    if (cancelled : bool) then mret report
    else
      published ← attempt (publish_persistent_journal_volume_batch component observed_unix_ms policy);
      report ← (match published with
                | Ok publication => mret (add_publication report publication)
                | Err error =>
                  record_failures (page_owner initial) (publication_failure error)
                    observed_unix_ms policy (vb_pages component) report
                end);
      publish_components initial observed_unix_ms policy components report
  end.

Definition publish_pages (initial : gmap RootKey PersistentJournalCheckpoint)
    (pending_renames : list PersistentJournalPendingRename) (observed_unix_ms : Z)
    (policy : LibraryChangeQueuePolicy) (publishable : list PersistentJournalVolumePage)
    (report : PersistentJournalEnrollmentReport) : Eff W PersistentJournalEnrollmentReport :=
  if is_empty publishable then mret report
  else
    let volume_batch := {| vb_pages := publishable |} in
    if negb (is_ok (validate_volume_batch blake3_hex values volume_batch pending_renames)) then
      record_failures (page_owner initial)
        (reconstruction_failure "persistent_journal_volume_reconstruction_invalid"
           "The shared journal volume page set could not be reconstructed")
        observed_unix_ms policy publishable report
    else
      components ← expect (match partition_atomic_volume_components volume_batch with
                           | Ok components => Some components
                           | Err _ => None
                           end);
      publish_components initial observed_unix_ms policy components report.

(** [checkpoints] by root; the keys are distinct once the set is validated. *)
Definition initial_checkpoints (checkpoints : list PersistentJournalCheckpoint)
    : gmap RootKey PersistentJournalCheckpoint :=
  foldl (λ m checkpoint, <[checkpoint_key checkpoint := checkpoint]> m) ∅ checkpoints.

Definition has_authority (capabilities : list PersistentJournalCapability)
    (checkpoint : PersistentJournalCheckpoint) : bool :=
  existsb (λ capability,
    bool_decide (cap_root_id capability = ck_root_id checkpoint)
    && bool_decide (cap_root_generation capability = ck_root_generation checkpoint)
    && bool_decide (cap_state capability = CapSupported)) capabilities.

Definition catch_up_persistent_journal_volume (checkpoints : list PersistentJournalCheckpoint)
    (observed_unix_ms : Z) (policy : LibraryChangeQueuePolicy)
    : Eff W PersistentJournalEnrollmentReport :=
  check (validate_checkpoint_set checkpoints);;
  capabilities ← call load_persistent_journal_capabilities;
  check (fail_if (existsb (λ checkpoint, negb (has_authority capabilities checkpoint)) checkpoints)
           (invalid_page "Every requested root must own supported persistent journal authority"));;
  let initial := initial_checkpoints checkpoints in
  first ← expect (head checkpoints);
  pending_renames ← call (load_persistent_journal_pending_renames (ck_volume first) (ck_journal_id first));
  pages ← attempt (read_volume checkpoints pending_renames observed_unix_ms);
  match pages with
  | Err failure =>
    record_failures mret failure observed_unix_ms policy checkpoints empty_report
  | Ok outcomes =>
    loop ← process_outcomes initial observed_unix_ms policy outcomes
             {| rs_seen_roots := ∅; rs_report := empty_report; rs_publishable := [] |};
    match loop with
    | inl report => mret report
    | inr st =>
      report ← record_failures mret
                 (reconstruction_failure "persistent_journal_reader_omitted_root"
                    "The journal reader omitted a requested root")
                 observed_unix_ms policy (omitted_roots (rs_seen_roots st) checkpoints) (rs_report st);
      publish_pages initial pending_renames observed_unix_ms policy (rs_publishable st) report
    end
  end.

(** ** Capture windows *)

Definition MAX_CAPTURE_PAGES : nat := 8.
(** A [Duration], in nanoseconds. *)
Definition CAPTURE_QUANTUM : Z := 200 * 1000000.

Record JournalCaptureWindowReport := {
  cw_pages : list PersistentJournalEnrollmentReport;
  cw_checked_roots : gmap str LibraryRootGeneration;
}.

(** [checked_roots.extend(..)] *)
Definition extend_checked (checked : gmap str LibraryRootGeneration)
    (checkpoints : list PersistentJournalCheckpoint) : gmap str LibraryRootGeneration :=
  foldl (λ m checkpoint, <[ck_root_id checkpoint := ck_root_generation checkpoint]> m) checked checkpoints.

(** [for checkpoint in &checkpoints { if let Some(..) = repository.load_..(..)? { persisted.push(..) } }] *)
Fixpoint load_persisted (checkpoints : list PersistentJournalCheckpoint)
    : Eff W (list PersistentJournalCheckpoint) :=
  match checkpoints with
  | [] => mret []
  | checkpoint :: checkpoints =>
    loaded ← call (load_persistent_journal_checkpoint (ck_root_id checkpoint)
                     (ck_root_generation checkpoint));
    persisted ← load_persisted checkpoints;
    mret (match loaded with Some checkpoint => checkpoint :: persisted | None => persisted end)
  end.

(** [a || b] of two effectful tests: the second runs only when the first is false. *)
Definition or_else (a b : Eff W bool) : Eff W bool :=
  x ← a; if (x : bool) then mret true else b.

(** [cancelled.load(..) || clock.elapsed() >= CAPTURE_QUANTUM] *)
Definition out_of_time : Eff W bool :=
  or_else (observe load_cancelled)
    (elapsed ← observe clock_elapsed; mret (CAPTURE_QUANTUM <=? elapsed)).

Fixpoint capture_pages (rounds : nat) (policy : LibraryChangeQueuePolicy)
    (checkpoints : list PersistentJournalCheckpoint) (observed_unix_ms : Z)
    (window : JournalCaptureWindowReport) : Eff W JournalCaptureWindowReport :=
  match rounds with
  | O => mret window
  | S rounds =>
    stop ← (if is_empty (cw_pages window) then mret false
            else or_else out_of_time (call (journal_capture_should_yield observed_unix_ms policy)));
    if (stop : bool) then mret window
    else
      page ← catch_up_persistent_journal_volume checkpoints observed_unix_ms policy;
      let may_continue :=
        (er_failed_root_count page =? 0) && (er_observation_count page =? 0)
        && (0 <? er_advanced_checkpoint_count page) in
      checked ← (if er_failed_root_count page =? 0
                 then cancelled ← observe load_cancelled;
                      mret (if (cancelled : bool) then cw_checked_roots window
                            else extend_checked (cw_checked_roots window) checkpoints)
                 else mret (cw_checked_roots window));
      let window := {| cw_pages := cw_pages window ++ [page]; cw_checked_roots := checked |} in
      stop ← or_else (mret (negb may_continue)) out_of_time;
      if (stop : bool) then mret window
      else
        persisted ← load_persisted checkpoints;
        match unfinished_checkpoints checkpoints persisted with
        | None => mret window
        | Some next =>
          observed_unix_ms ← call clock_observed_unix_ms;
          capture_pages rounds policy next observed_unix_ms window
        end
  end.

Definition capture_with_clock (checkpoints : list PersistentJournalCheckpoint) (observed_unix_ms : Z)
    (policy : LibraryChangeQueuePolicy) : Eff W JournalCaptureWindowReport :=
  capture_pages MAX_CAPTURE_PAGES policy checkpoints observed_unix_ms
    {| cw_pages := []; cw_checked_roots := ∅ |}.

End CatchUp.
