(* ===== verification/CatchUpTrace.v ===== *)
(** * What catching up does to its ports

    Proves, for every behaviour of the repository, the reader, the flag and the clock, which calls
    [catch_up_persistent_journal_volume] makes: the ports of an arbitrary world are wrapped so that they
    log the calls, and the code is specified by the calls it adds to the log. *)

From stdpp Require Import relations.
From S2P Require Import Prelude Text Effects LibraryChange JournalText JournalBatch ChangeQueue JournalState.
From S2P Require Import VolumeComponents Continuity Handoffs CatchUp.

(** ** Logged calls *)

Inductive PortCall :=
| CallRead (result : Result PersistentJournalReadFailure (list PersistentJournalRootReadOutcome))
| CallEmptyReplay (proof : PersistentJournalCheckpoint) (accepted : bool)
| CallPersistFailure (failure : PersistentJournalRootFailure)
| CallAttachBoundary (root_id : str) (boundary : LibraryRecoveryOpeningBoundary)
| CallPublish (batch : PersistentJournalVolumeBatch) (accepted : bool)
| CallCancelled (flag : bool)
| CallOther.

Definition logged {W A : Type} (event : A → PortCall) (m : W → A * W)
    : W * list PortCall → A * (W * list PortCall) := λ '(w, log),
  let '(a, w) := m w in (a, (w, log ++ [event a])).

(** The ports of [W], logging. *)
Definition logging {W : Type} (P : JournalPorts W) : JournalPorts (W * list PortCall) := {|
  load_persistent_journal_capabilities := logged (λ _, CallOther) load_persistent_journal_capabilities;
  load_persistent_journal_pending_renames volume journal :=
    logged (λ _, CallOther) (load_persistent_journal_pending_renames volume journal);
  load_persistent_journal_checkpoint root generation :=
    logged (λ _, CallOther) (load_persistent_journal_checkpoint root generation);
  record_persistent_journal_empty_replay proof now :=
    logged (λ r, CallEmptyReplay proof (is_ok r)) (record_persistent_journal_empty_replay proof now);
  persist_persistent_journal_root_failure failure now policy :=
    logged (λ _, CallPersistFailure failure) (persist_persistent_journal_root_failure failure now policy);
  attach_persistent_journal_recovery_opening_boundary root generation boundary now :=
    logged (λ _, CallAttachBoundary root boundary)
      (attach_persistent_journal_recovery_opening_boundary root generation boundary now);
  publish_persistent_journal_volume_batch batch now policy :=
    logged (λ r, CallPublish batch (is_ok r)) (publish_persistent_journal_volume_batch batch now policy);
  journal_capture_should_yield now policy :=
    logged (λ _, CallOther) (journal_capture_should_yield now policy);
  read_volume checkpoints pending now := logged CallRead (read_volume checkpoints pending now);
  load_cancelled := logged CallCancelled load_cancelled;
  clock_elapsed := logged (λ _, CallOther) clock_elapsed;
  clock_observed_unix_ms := logged (λ _, CallOther) clock_observed_unix_ms;
|}.

(** ** Specifications *)

Section Trace.
Context {W : Type} (P : JournalPorts W) (safe : PortCall → Prop).
Existing Instance logging.

(** [traces m post]: a run of [m] adds only safe calls to the log and does not panic; a result is
    described by [post], together with the calls it was obtained with. *)
Definition traces {A : Type} (m : Eff (W * list PortCall) A) (post : A → list PortCall → Prop) : Prop :=
  ∀ w log, ∃ calls, (m (w, log)).2.2 = log ++ calls ∧ Forall safe calls ∧
    match (m (w, log)).1 with Ok a => post a calls | Err h => h ≠ Panicked end.

Lemma traces_ret {A : Type} (a : A) (post : A → list PortCall → Prop) : post a [] → traces (mret a) post.
Proof. intros Hp w log. exists []. by rewrite app_nil_r. Qed.

Lemma traces_bind {A B : Type} (m : Eff (W * list PortCall) A) (f : A → Eff (W * list PortCall) B) mid post :
  traces m mid →
  (∀ a calls, mid a calls → traces (f a) (λ b more, post b (calls ++ more))) →
  traces (m ≫= f) post.
Proof.
  intros Hm Hf w log. destruct (Hm w log) as (c1 & Hl & Hs & Hr). unfold mbind, eff_bind.
  destruct (m (w, log)) as [[a|h] [w1 l1]]; cbn [fst snd] in *; subst l1.
  - destruct (Hf a c1 Hr w1 (log ++ c1)) as (c2 & -> & Hs2 & Hr2). exists (c1 ++ c2).
    split; [by rewrite (assoc_L (++))|]. split; [by apply Forall_app|done].
  - by exists c1.
Qed.

Lemma traces_mono {A : Type} (m : Eff (W * list PortCall) A) (post post' : A → list PortCall → Prop) :
  traces m post → (∀ a calls, post a calls → post' a calls) → traces m post'.
Proof.
  intros Hm Hp w log. destruct (Hm w log) as (c & ? & ? & Hr). exists c. split_and!; [done..|].
  destruct (m (w, log)) as [[a|h] ?]; cbn in *; auto.
Qed.

Lemma traces_check {A : Type} (r : Result ScanError A) :
  traces (check r) (λ a calls, r = Ok a ∧ calls = []).
Proof. intros w log. exists []. rewrite app_nil_r. split_and!; [done..|]. by destruct r. Qed.

Lemma traces_expect {A : Type} (o : option A) :
  is_Some o → traces (expect o) (λ a calls, o = Some a ∧ calls = []).
Proof. intros [a ->] w log. exists []. rewrite app_nil_r. by split_and!. Qed.

Lemma traces_call {A : Type} (event : ScanResult A → PortCall) (m : W → ScanResult A * W) :
  (∀ r, safe (event r)) → traces (call (logged event m)) (λ a calls, calls = [event (Ok a)]).
Proof.
  intros Hs w log. unfold call, logged. destruct (m w) as [r w1]. exists [event r]. split_and!; [done| |].
  - constructor; [apply Hs|done].
  - by destruct r.
Qed.

Lemma traces_attempt {A E : Type} (event : Result E A → PortCall) (m : W → Result E A * W) :
  (∀ r, safe (event r)) → traces (attempt (logged event m)) (λ r calls, calls = [event r]).
Proof.
  intros Hs w log. unfold attempt, logged. destruct (m w) as [r w1]. exists [event r]. split_and!; [done| |done].
  constructor; [apply Hs|done].
Qed.

Lemma traces_observe {A : Type} (event : A → PortCall) (m : W → A * W) :
  (∀ a, safe (event a)) → traces (observe (logged event m)) (λ a calls, calls = [event a]).
Proof.
  intros Hs w log. unfold observe, logged. destruct (m w) as [a w1]. exists [event a]. split_and!; [done| |done].
  constructor; [apply Hs|done].
Qed.

End Trace.

(** ** Failures are counted *)

(** The number of failures of a report never goes back to zero. *)
Definition fails_from (n m : Z) : Prop := 0 ≤ n → 0 ≤ m ∧ (m = 0 → n = 0).
Definition fails_past (n m : Z) : Prop := 0 ≤ n → 0 < m.

Section CatchUp.
Context {W : Type} (P : JournalPorts W) (safe : PortCall → Prop).
Context (blake3_hex : bytes → str) (values : LineageValues).
Existing Instance logging.
Context (safe_other : safe CallOther) (safe_flag : ∀ b, safe (CallCancelled b)).
Context (safe_read : ∀ r, safe (CallRead r)) (safe_replay : ∀ c b, safe (CallEmptyReplay c b)).
Context (safe_failure : ∀ f, safe (CallPersistFailure f)) (safe_attach : ∀ r b, safe (CallAttachBoundary r b)).

Abbreviation traces := (traces safe).

Lemma trace_record_root_failure report checkpoint failure now policy :
  traces (record_root_failure report checkpoint failure now policy)
    (λ report' _, fails_past (er_failed_root_count report) (er_failed_root_count report')).
Proof.
  unfold record_root_failure. eapply traces_bind; [apply traces_check|]. intros _ ? [_ ->]. cbn [app].
  eapply traces_bind; [apply traces_check|]. intros _ ? [_ ->]. cbn [app].
  eapply (traces_bind _ _ _ (λ _ _, True)).
  - destruct (bool_decide _); cbn [negb]; [by apply traces_ret|].
    eapply traces_bind; [by apply traces_call|]. intros. by apply traces_ret.
  - intros _ calls _. apply traces_ret. unfold fails_past. cbn. unfold saturating_add, U32_MAX. lia.
Qed.

Lemma trace_record_failures {A : Type} (owner : A → Eff (W * list PortCall) PersistentJournalCheckpoint) failure now policy l report :
  (∀ x, x ∈ l → traces (owner x) (λ _ _, True)) →
  traces (record_failures owner failure now policy l report)
    (λ report' _, fails_from (er_failed_root_count report) (er_failed_root_count report') ∧
       (l ≠ [] → fails_past (er_failed_root_count report) (er_failed_root_count report'))).
Proof.
  revert report. induction l as [|x l IH]; intros report Ho; cbn [record_failures].
  { apply traces_ret. split; [by intros ?; split|done]. }
  eapply traces_bind; [apply Ho; by left|]. intros previous ? _.
  eapply traces_bind; [apply trace_record_root_failure|]. intros report1 ? H1.
  eapply traces_mono; [apply IH; intros; apply Ho; by right|]. intros report2 ? [H2 _]. cbn beta in *.
  unfold fails_past, fails_from in *. split; intros; naive_solver lia.
Qed.

(** ** The outcomes of the reader *)

Context (initial : gmap RootKey PersistentJournalCheckpoint).

(** A page continues the checkpoint its root was asked for with. *)
Definition page_continues (page : PersistentJournalVolumePage) : Prop :=
  ∃ previous, initial !! checkpoint_key (vp_checkpoint page) = Some previous ∧
    validate_page blake3_hex previous (vp_enrollment page) (vp_checkpoint page) = Ok ().

Definition outcome_key (outcome : PersistentJournalRootReadOutcome) : RootKey :=
  (ro_root_id outcome, ro_root_generation outcome).

(** An outcome that was dealt with: nothing was new, the replay was recorded at the position asked for,
    or the page is in the list [pages]. *)
Definition accounted (calls : list PortCall) (pages : list PersistentJournalVolumePage)
    (outcome : PersistentJournalRootReadOutcome) : Prop :=
  match ro_page outcome with
  | Ok None => True
  | Ok (Some (EmptyReplay proof)) =>
    CallEmptyReplay proof true ∈ calls ∧ checkpoint_key proof = outcome_key outcome ∧
    ∃ previous, initial !! outcome_key outcome = Some previous ∧
      ck_next_unread_usn proof = ck_next_unread_usn previous
  | Ok (Some (Enrolled batch checkpoint)) =>
    {| vp_enrollment := batch; vp_checkpoint := checkpoint |} ∈ pages ∧
    checkpoint_key checkpoint = outcome_key outcome
  | Err _ => False
  end.

Lemma accounted_mono calls calls' pages pages' outcome :
  (∀ c, c ∈ calls → c ∈ calls') → (∀ p, p ∈ pages → p ∈ pages') →
  accounted calls pages outcome → accounted calls' pages' outcome.
Proof. unfold accounted. intros Hc Hp. destruct (ro_page outcome) as [[[]|]|]; naive_solver. Qed.

Abbreviation failed st := (er_failed_root_count (rs_report st)).

(** What one outcome does to the state of the loop. *)
Definition outcome_post (st : ReadState) (outcome : PersistentJournalRootReadOutcome)
    (st' : ReadState) (calls : list PortCall) : Prop :=
  fails_from (failed st) (failed st') ∧
  (Forall page_continues (rs_publishable st) → Forall page_continues (rs_publishable st')) ∧
  (∀ page, page ∈ rs_publishable st → page ∈ rs_publishable st') ∧
  (0 ≤ failed st → failed st' = 0 →
     rs_seen_roots st' = {[outcome_key outcome]} ∪ rs_seen_roots st ∧
     accounted calls (rs_publishable st') outcome).

(** A branch that counts a failure needs no account of the outcome. *)
Lemma outcome_post_failed st outcome report seen calls :
  fails_past (failed st) (er_failed_root_count report) →
  outcome_post st outcome
    (with_report {| rs_seen_roots := seen; rs_report := rs_report st; rs_publishable := rs_publishable st |} report) calls.
Proof. intros Hf. unfold fails_past, outcome_post, fails_from in *. cbn. split_and!; [naive_solver lia|done|done|lia]. Qed.

Lemma outcome_post_mono st outcome st' calls calls' :
  (∀ c, c ∈ calls → c ∈ calls') → outcome_post st outcome st' calls → outcome_post st outcome st' calls'.
Proof.
  intros Hc (? & ? & ? & Ha). split_and!; [done..|]. intros Hge Hz. destruct (Ha Hge Hz) as [? Hac].
  split; [done|]. by eapply (accounted_mono calls _ (rs_publishable st')).
Qed.

Lemma count_failed_past report : fails_past (er_failed_root_count report) (er_failed_root_count (count_failed report)).
Proof. unfold fails_past. cbn. unfold saturating_add, U32_MAX. lia. Qed.

Lemma with_report_same st : with_report st = with_report {| rs_seen_roots := rs_seen_roots st;
  rs_report := rs_report st; rs_publishable := rs_publishable st |}.
Proof. done. Qed.

Lemma validate_page_key previous batch checkpoint u :
  validate_page blake3_hex previous batch checkpoint = Ok u → range_key (eb_range batch) = checkpoint_key checkpoint.
Proof.
  unfold validate_page. intros H. simplify_result. split_bools. unfold range_key, checkpoint_key. congruence.
Qed.

Lemma trace_admit_page now policy outcome st batch checkpoint :
  ro_page outcome = Ok (Some (Enrolled batch checkpoint)) →
  traces (admit_page blake3_hex initial now policy (outcome_key outcome)
            {| rs_seen_roots := {[outcome_key outcome]} ∪ rs_seen_roots st; rs_report := rs_report st;
               rs_publishable := rs_publishable st |} batch checkpoint) (outcome_post st outcome).
Proof.
  intros Hp. unfold admit_page. destruct (initial !! range_key (eb_range batch)) as [previous|] eqn:Ei.
  2: { apply traces_ret, outcome_post_failed, count_failed_past. }
  destruct (bool_decide_reflect (range_key (eb_range batch) = outcome_key outcome)) as [Hk|Hk]; cbn [negb].
  2: { eapply traces_bind; [apply trace_record_root_failure|]. intros. apply traces_ret. by apply outcome_post_failed. }
  destruct (validate_page blake3_hex previous batch checkpoint) as [[]|error] eqn:Ev.
  2: { eapply traces_bind; [apply trace_record_root_failure|]. intros. apply traces_ret. by apply outcome_post_failed. }
  pose proof (validate_page_key _ _ _ _ Ev) as Hck.
  apply traces_ret. unfold outcome_post. cbn. split_and!.
  - intros ?. done.
  - intros Hf. apply Forall_app. split; [done|]. constructor; [|done]. exists previous. cbn. by rewrite <-Hck.
  - intros page Hin. apply elem_of_app. by left.
  - intros _ _. split; [done|]. unfold accounted. rewrite Hp. split; [|congruence].
    apply elem_of_app. right. by apply list_elem_of_singleton.
Qed.

Lemma trace_empty_replay previous proof now :
  traces (attempt (record_empty_replay previous proof now))
    (λ r calls, is_ok r = true → CallEmptyReplay proof true ∈ calls ∧
       checkpoint_key proof = checkpoint_key previous ∧ ck_next_unread_usn proof = ck_next_unread_usn previous).
Proof.
  unfold record_empty_replay. destruct (_ || _) eqn:E.
  - intros w log. exists []. rewrite app_nil_r. by split_and!.
  - split_bools. intros w log. unfold attempt, record_persistent_journal_empty_replay, logging, logged.
    destruct (CatchUp.record_persistent_journal_empty_replay proof now w) as [r w'].
    exists [CallEmptyReplay proof (is_ok r)]. split_and!; [done|by constructor|]. destruct r; [|done].
    intros _. split; [by apply list_elem_of_singleton|]. unfold checkpoint_key. split; congruence.
Qed.

Lemma trace_process_outcome now policy st outcome :
  (∀ key checkpoint, initial !! key = Some checkpoint → checkpoint_key checkpoint = key) →
  traces (process_outcome blake3_hex initial now policy st outcome) (outcome_post st outcome).
Proof.
  intros Hkeys. unfold process_outcome. fold (outcome_key outcome).
  destruct (initial !! outcome_key outcome) as [previous|] eqn:Ei.
  2: { apply traces_ret. rewrite with_report_same. apply outcome_post_failed, count_failed_past. }
  destruct (bool_decide (outcome_key outcome ∈ rs_seen_roots st)).
  { eapply traces_bind; [apply trace_record_root_failure|]. intros. apply traces_ret.
    rewrite with_report_same. by apply outcome_post_failed. }
  eapply (traces_bind _ _ _ (λ _ _, True)).
  { destruct (ro_opening_boundary outcome); [|by apply traces_ret].
    eapply traces_bind; [by apply traces_call|]. intros. by apply traces_ret. }
  intros _ calls _.
  assert (∀ failure, traces (report ← record_root_failure (rs_report st) previous failure now policy;
            mret (with_report {| rs_seen_roots := {[outcome_key outcome]} ∪ rs_seen_roots st;
                     rs_report := rs_report st; rs_publishable := rs_publishable st |} report))
            (λ st' more, outcome_post st outcome st' (calls ++ more))) as Hfail.
  { intros failure. eapply traces_bind; [apply trace_record_root_failure|]. intros. apply traces_ret.
    by apply outcome_post_failed. }
  assert (fails_from (failed st) (failed st)) as Hrefl by done.
  destruct (ro_page outcome) as [[[batch checkpoint|proof]|]|failure] eqn:Ep; [..|apply Hfail].
  - eapply traces_mono; [by apply trace_admit_page|]. intros st' more.
    apply outcome_post_mono. intros c ?. apply elem_of_app. by right.
  - eapply traces_bind; [apply trace_empty_replay|]. intros [[]|failure] more Hr; [|].
    + apply traces_ret. destruct (Hr eq_refl) as (Hin & Hk & Hn). unfold outcome_post. cbn. split_and!; [done..|].
      intros _ _. split; [done|]. unfold accounted. rewrite Ep. rewrite Hk, app_nil_r. split_and!.
      * apply elem_of_app. by right.
      * by apply Hkeys.
      * eauto.
    + eapply traces_mono; [apply Hfail|]. intros st' more'. apply outcome_post_mono.
      intros c. rewrite !elem_of_app. naive_solver.
  - apply traces_ret. unfold outcome_post. cbn. split_and!; [done..|]. intros _ _. split; [done|].
    unfold accounted. by rewrite Ep.
Qed.

(** The keys of [initial] are the keys of its checkpoints. *)
Context (initial_keys : ∀ key checkpoint, initial !! key = Some checkpoint → checkpoint_key checkpoint = key).

Definition outcomes_post (st : ReadState) (outcomes : list PersistentJournalRootReadOutcome)
    (r : PersistentJournalEnrollmentReport + ReadState) (calls : list PortCall) : Prop :=
  match r with
  | inl report => CallCancelled true ∈ calls ∧ fails_from (failed st) (er_failed_root_count report)
  | inr st' =>
    fails_from (failed st) (failed st') ∧
    (Forall page_continues (rs_publishable st) → Forall page_continues (rs_publishable st')) ∧
    (∀ page, page ∈ rs_publishable st → page ∈ rs_publishable st') ∧
    (0 ≤ failed st → failed st' = 0 → ∀ key, key ∈ rs_seen_roots st' →
       key ∈ rs_seen_roots st ∨
       ∃ outcome, outcome ∈ outcomes ∧ outcome_key outcome = key ∧ accounted calls (rs_publishable st') outcome)
  end.

Lemma trace_process_outcomes now policy outcomes st :
  traces (process_outcomes blake3_hex initial now policy outcomes st) (outcomes_post st outcomes).
Proof.
  revert st. induction outcomes as [|outcome outcomes IH]; intros st; cbn [process_outcomes].
  { apply traces_ret. unfold outcomes_post. split_and!; [done..|]. intros. by left. }
  eapply traces_bind; [by apply traces_observe|]. intros cancelled flag ->. destruct cancelled.
  { apply traces_ret. split; [by left|done]. }
  eapply traces_bind; [by apply trace_process_outcome|]. intros st1 c1 (Hf1 & Hc1 & Hp1 & Ha1).
  eapply traces_mono; [apply IH|]. intros [report|st2] c2; cbn [outcomes_post].
  { intros [Hin Hf2]. rewrite !elem_of_app. split; [auto|unfold fails_from in *; naive_solver]. }
  intros (Hf2 & Hc2 & Hp2 & Ha2). split_and!; [unfold fails_from in *; naive_solver|auto|auto|].
  intros H0 Hz key Hk. assert (0 ≤ failed st1 ∧ failed st1 = 0) as [H1 Hz1] by (unfold fails_from in *; naive_solver).
  destruct (Ha1 H0 Hz1) as [Hseen Hacc]. destruct (Ha2 H1 Hz key Hk) as [Hin|(o & Ho & Hok & Hoa)].
  - rewrite Hseen in Hin. apply elem_of_union in Hin as [->%elem_of_singleton|]; [right|by left].
    exists outcome. split_and!; [by left|done|].
    eapply accounted_mono; [|exact Hp2|exact Hacc]. intros c ?. rewrite !elem_of_app. auto.
  - right. exists o. split_and!; [by right|done|].
    eapply (accounted_mono c2 _ (rs_publishable st2)); [|done|done]. intros c ?. rewrite !elem_of_app. auto.
Qed.

(** ** Publication *)

Lemma trace_publish_components now policy components report :
  (∀ component, component ∈ components → vb_pages component ≠ [] ∧ Forall page_continues (vb_pages component) ∧
     ∀ accepted, safe (CallPublish component accepted)) →
  traces (publish_components initial now policy components report) (λ report' calls,
    fails_from (er_failed_root_count report) (er_failed_root_count report') ∧
    (0 ≤ er_failed_root_count report → er_failed_root_count report' = 0 →
       CallCancelled true ∈ calls ∨ ∀ component, component ∈ components → CallPublish component true ∈ calls)).
Proof.
  revert report. induction components as [|component components IH]; intros report Hc; cbn [publish_components].
  { apply traces_ret. split; [done|]. intros. right. by intros ? ?%not_elem_of_nil. }
  destruct (Hc component) as (Hne & Hpages & Hsafe); [by left|].
  eapply traces_bind; [by apply traces_observe|]. intros cancelled flag ->. destruct cancelled.
  { apply traces_ret. split; [done|]. intros. left. by left. }
  eapply traces_bind; [by apply traces_attempt|]. intros published ? ->.
  eapply (traces_bind _ _ _ (λ report1 _, fails_from (er_failed_root_count report) (er_failed_root_count report1) ∧
    (0 ≤ er_failed_root_count report → er_failed_root_count report1 = 0 → is_ok published = true))).
  { destruct published as [publication|error]; [by apply traces_ret|].
    eapply traces_mono.
    - apply trace_record_failures. intros page Hpage. rewrite Forall_forall in Hpages.
      destruct (Hpages _ Hpage) as (previous & Hi & _). eapply traces_mono; [apply traces_expect; by eexists|done].
    - intros report1 ? [H1 H2]. split; [done|]. specialize (H2 Hne). unfold fails_past in H2. intros ? ?. lia. }
  intros report1 c1 [Hf1 Hok]. eapply traces_mono; [apply IH; intros; apply Hc; by right|].
  intros report2 c2 [Hf2 Hall]. split; [unfold fails_from in *; naive_solver|]. intros H0 Hz.
  assert (0 ≤ er_failed_root_count report1 ∧ er_failed_root_count report1 = 0) as [H1 Hz1]
    by (unfold fails_from in *; naive_solver).
  rewrite (Hok H0 Hz1). destruct (Hall H1 Hz) as [?|Hcomp]; [left; rewrite !elem_of_app; auto|right].
  intros k [->|Hk]%elem_of_cons; rewrite !elem_of_app, ?list_elem_of_singleton; [auto|right; right; right; auto].
Qed.

End CatchUp.

(** ** Initial checkpoints and components *)

Lemma initial_lookup checkpoints key checkpoint :
  initial_checkpoints checkpoints !! key = Some checkpoint →
  checkpoint ∈ checkpoints ∧ checkpoint_key checkpoint = key.
Proof.
  unfold initial_checkpoints. induction checkpoints as [|c checkpoints IH] using rev_ind; [by cbn [foldl]; rewrite lookup_empty|].
  rewrite foldl_app. cbn [foldl]. rewrite elem_of_snoc. destruct (decide (checkpoint_key c = key)) as [<-|Hne].
  - rewrite lookup_insert_eq. intros [= ->]. auto.
  - rewrite lookup_insert_ne by done. naive_solver.
Qed.

(** A validated set has one checkpoint per root. *)
Lemma checkpoint_set_distinct checkpoints u :
  validate_checkpoint_set checkpoints = Ok u → NoDup (checkpoint_key <$> checkpoints).
Proof.
  unfold validate_checkpoint_set. destruct checkpoints as [|first rest]; [done|].
  intros H. apply result_bind_Ok in H as (roots & H & _). set (l := first :: rest) in *. clearbody l.
  assert (∀ seen, result_foldl (validate_set_checkpoint first) seen l = Ok roots →
            NoDup (checkpoint_key <$> l) ∧ ∀ c, c ∈ l → checkpoint_key c ∉ seen) as Hl; [|by eapply Hl].
  clear H. induction l as [|c l IH]; intros seen H; cbn [result_foldl] in H.
  { split; [apply NoDup_nil_2|by intros ? ?%not_elem_of_nil]. }
  apply result_bind_Ok in H as (seen' & Hc & H). unfold validate_set_checkpoint in Hc. simplify_result. split_bools.
  destruct (IH _ H) as [Hnd Hn]. rewrite fmap_cons. split.
  - constructor; [|done]. intros (c' & Hk & Hc')%list_elem_of_fmap. apply Hn in Hc'. apply Hc'.
    rewrite <-Hk. apply elem_of_union_l. by apply elem_of_singleton.
  - intros c' [->|Hc']%elem_of_cons; [done|]. intros Hs. apply (Hn _ Hc'). by apply elem_of_union_r.
Qed.

Lemma initial_exact checkpoints checkpoint :
  NoDup (checkpoint_key <$> checkpoints) → checkpoint ∈ checkpoints →
  initial_checkpoints checkpoints !! checkpoint_key checkpoint = Some checkpoint.
Proof.
  unfold initial_checkpoints. induction checkpoints as [|c checkpoints IH] using rev_ind; [by intros _ ?%not_elem_of_nil|].
  rewrite fmap_app, foldl_app. cbn [foldl]. intros (Hnd & Hd & _)%NoDup_app [Hin| ->]%elem_of_snoc.
  - rewrite lookup_insert_ne; [by apply IH|]. intros Hk. apply (Hd (checkpoint_key checkpoint)).
    + by apply list_elem_of_fmap_2.
    + apply list_elem_of_singleton. by symmetry.
  - by rewrite lookup_insert_eq.
Qed.

(** The components of a split hold the pages of the batch, and only those. *)
Lemma component_pages batch components :
  partition_atomic_volume_components batch = Ok components →
  (∀ component, component ∈ components →
     vb_pages component ≠ [] ∧ ∀ page, page ∈ vb_pages component → page ∈ vb_pages batch) ∧
  (∀ page, page ∈ vb_pages batch → ∃ component, component ∈ components ∧ page ∈ vb_pages component).
Proof.
  intros Hc. destruct (partition_spec batch) as (parts & Hp & Hcat & Hs & _). rewrite Hc in Hp. apply (inj Ok) in Hp as ->.
  assert (∀ part i, part ∈ parts → i ∈ part → is_Some (vb_pages batch !! i)) as Hr.
  { intros part i Hpart Hi. apply lookup_lt_is_Some. enough (i ∈ seq 0 (length (vb_pages batch))) as ?%elem_of_seq by lia.
    rewrite <-Hcat. apply elem_of_concat. eauto. }
  split.
  - intros component (part & -> & Hpart)%list_elem_of_fmap. cbn [vb_pages]. rewrite Forall_forall in Hs.
    destruct (Hs _ Hpart) as [Hne _]. split.
    + destruct part as [|i part]; [done|]. destruct (Hr _ i Hpart) as [page Hi]; [by left|].
      intros Hn. assert (page ∈ omap (vb_pages batch !!.) (i :: part)) as Hin.
      { apply list_elem_of_omap. exists i. split; [by left|done]. }
      rewrite Hn in Hin. by apply not_elem_of_nil in Hin.
    + intros page (i & _ & Hi)%list_elem_of_omap. by eapply list_elem_of_lookup_2.
  - intros page (i & Hi)%list_elem_of_lookup_1. assert (i ∈ concat parts) as (part & Hpart & Hin)%elem_of_concat.
    { rewrite Hcat. apply elem_of_seq. apply lookup_lt_Some in Hi. lia. }
    exists {| vb_pages := omap (vb_pages batch !!.) part |}.
    split; [by apply (list_elem_of_fmap_2 (λ part, {| vb_pages := omap (vb_pages batch !!.) part |}))|].
    apply list_elem_of_omap. eauto.
Qed.
