(* ===== verification/CatchUpSafety.v ===== *)
(** * Catching up loses nothing

    The properties of [catch_up_persistent_journal_volume] and of a capture window: what they publish,
    what a report without failures means, and that they never panic. *)

From stdpp Require Import relations.
From S2P Require Import Prelude Text Effects LibraryChange JournalText JournalBatch ChangeQueue JournalState.
From S2P Require Import VolumeComponents Continuity Handoffs CatchUp CatchUpTrace.
From S2P Require Import JournalEntries JournalRecovery.

(** A page that continues a checkpoint without a gap: it was read for the same root, volume, journal
    and root directory, from the position the checkpoint has reached, and it moves forward. *)
Definition advances (previous : PersistentJournalCheckpoint) (page : PersistentJournalVolumePage) : Prop :=
  let range := eb_range (vp_enrollment page) in
  let checkpoint := vp_checkpoint page in
  checkpoint_key checkpoint = range_key range ∧
  ck_volume checkpoint = ck_volume previous ∧ ck_journal_id checkpoint = ck_journal_id previous ∧
  ck_root_file_reference checkpoint = ck_root_file_reference previous ∧
  sr_requested_start_usn range = ck_next_unread_usn previous ∧
  sr_covered_until_usn range = ck_next_unread_usn checkpoint ∧
  journal_usn_value (ck_next_unread_usn previous) < journal_usn_value (ck_next_unread_usn checkpoint)
    ≤ journal_usn_value (ck_captured_exclusive_end checkpoint).

(** What is handed to the repository: pages that advance a requested root, with both owners of every
    hand-off they mention. *)
Definition publishes_soundly (checkpoints : list PersistentJournalCheckpoint)
    (batch : PersistentJournalVolumeBatch) : Prop :=
  vb_pages batch ≠ [] ∧
  (∀ page, page ∈ vb_pages batch → ∃ previous,
     previous ∈ checkpoints ∧ checkpoint_key previous = checkpoint_key (vp_checkpoint page) ∧
     advances previous page) ∧
  (∀ e, e ∈ volume_endpoints (vb_pages batch) →
     ∃ a b, endpoints_of (ln_lineage_id e) (volume_endpoints (vb_pages batch)) = [a; b] ∧ handoff_pair a b).

Lemma validate_page_advances blake3_hex previous batch checkpoint u :
  validate_page blake3_hex previous batch checkpoint = Ok u →
  advances previous {| vp_enrollment := batch; vp_checkpoint := checkpoint |}.
Proof.
  intros Hv. pose proof (validate_page_key _ _ _ _ _ Hv) as Hk. unfold validate_page in Hv.
  apply result_seq_Ok in Hv as [Hb Hv]. apply result_seq_Ok in Hv as [Hc Hv%fail_if_Ok].
  unfold PersistentJournalEnrollmentBatch_validate in Hb. apply result_seq_Ok in Hb as [Hr _].
  unfold PersistentJournalSourceRange_validate in Hr. unfold PersistentJournalCheckpoint_validate in Hc.
  simplify_result. split_bools. unfold advances. cbn.
  unfold usn_ltb, usn_leb in *.
  assert (∀ x y : JournalUsn, x = y → journal_usn_value x = journal_usn_value y) as Hf by congruence.
  split_and!; [done..| |];
    repeat match goal with H : _ = _ :> JournalUsn |- _ => apply Hf in H end; lia.
Qed.

Section Catch.
Context {W : Type} (P : JournalPorts W).
Existing Instance logging.
Context (blake3_hex : bytes → str) (values : LineageValues).
Context (values_perm : ∀ m, values m ≡ₚ (map_to_list m).*2).
Context (checkpoints : list PersistentJournalCheckpoint).

Definition safe_call (call : PortCall) : Prop :=
  match call with CallPublish batch _ => publishes_soundly checkpoints batch | _ => True end.

Abbreviation initial := (initial_checkpoints checkpoints).
Abbreviation traces := (traces safe_call).

Lemma page_continues_sound page :
  page_continues blake3_hex initial page → ∃ previous,
    previous ∈ checkpoints ∧ checkpoint_key previous = checkpoint_key (vp_checkpoint page) ∧ advances previous page.
Proof.
  intros (previous & [? ?]%initial_lookup & Hv%validate_page_advances). exists previous. by destruct page.
Qed.

(** Every page is published, unless the run is cancelled or a failure is counted. *)
Lemma trace_publish_pages pending now policy pages report :
  Forall (page_continues blake3_hex initial) pages →
  traces (publish_pages blake3_hex values initial pending now policy pages report) (λ report' calls,
    fails_from (er_failed_root_count report) (er_failed_root_count report') ∧
    (0 ≤ er_failed_root_count report → er_failed_root_count report' = 0 →
       CallCancelled true ∈ calls ∨
       ∀ page, page ∈ pages → ∃ batch, CallPublish batch true ∈ calls ∧ page ∈ vb_pages batch)).
Proof.
  intros Hp. unfold publish_pages. destruct (is_empty pages) eqn:Ee.
  { apply traces_ret. split; [done|]. intros _ _. right. destruct pages; [|done]. by intros ? ?%not_elem_of_nil. }
  destruct (validate_volume_batch blake3_hex values {| vb_pages := pages |} pending) as [[]|] eqn:Ev; cbn [is_ok negb].
  2: { eapply traces_mono.
    - apply trace_record_failures; [done|]. intros page Hin. rewrite Forall_forall in Hp.
      destruct (Hp _ Hin) as (previous & Hi & _). eapply traces_mono; [apply traces_expect; by eexists|done].
    - intros report' calls [H1 H2]. split; [done|]. unfold fails_past in H2. intros.
      assert (pages ≠ []) as Hne by by destruct pages. specialize (H2 Hne). lia. }
  destruct (partition_atomic_volume_components {| vb_pages := pages |}) as [components|] eqn:Ec.
  2: { destruct (partition_spec {| vb_pages := pages |}) as (? & Hp' & _). congruence. }
  destruct (component_pages _ _ Ec) as [Hsub Hcover]. cbn [vb_pages] in *.
  eapply traces_bind; [apply traces_expect; by eexists|]. intros ? ? [[= <-] ->]. cbn [app].
  eapply traces_mono.
  - eapply (trace_publish_components _ _ blake3_hex); [done..|]. intros component Hin.
    destruct (Hsub _ Hin) as [Hne Hin']. rewrite Forall_forall in Hp.
    split_and!; [done|by apply Forall_forall; auto|]. intros accepted. split_and!; [done| |].
    + intros page Hpage. apply page_continues_sound. auto.
    + intros e He. by eapply component_handoffs.
  - intros report' calls [H1 H2]. split; [done|]. intros H0 Hz.
    destruct (H2 H0 Hz) as [?|Hall]; [by left|right]. intros page (component & Hc & ?)%Hcover. eauto.
Qed.

(** ** The run as a whole *)

(** A requested root was dealt with: the reader had nothing new for it, its empty replay was recorded
    at its position, or the page read for it was published. *)
Definition dealt_with (calls : list PortCall) (checkpoint : PersistentJournalCheckpoint) : Prop :=
  ∃ outcomes outcome, CallRead (Ok outcomes) ∈ calls ∧ outcome ∈ outcomes ∧
    outcome_key outcome = checkpoint_key checkpoint ∧
    match ro_page outcome with
    | Ok None => True
    | Ok (Some (EmptyReplay proof)) =>
      CallEmptyReplay proof true ∈ calls ∧ checkpoint_key proof = checkpoint_key checkpoint ∧
      ck_next_unread_usn proof = ck_next_unread_usn checkpoint
    | Ok (Some (Enrolled batch advanced)) =>
      ∃ published, CallPublish published true ∈ calls ∧
        {| vp_enrollment := batch; vp_checkpoint := advanced |} ∈ vb_pages published
    | Err _ => False
    end.

Lemma trace_catch_up now policy :
  traces (catch_up_persistent_journal_volume blake3_hex values checkpoints now policy)
    (λ report calls, 0 ≤ er_failed_root_count report ∧
       (er_failed_root_count report = 0 → CallCancelled true ∉ calls →
          ∀ checkpoint, checkpoint ∈ checkpoints → dealt_with calls checkpoint)).
Proof.
  unfold catch_up_persistent_journal_volume.
  eapply traces_bind; [apply traces_check|]. intros [] ? [Hset ->]. cbn [app].
  eapply traces_bind; [by apply traces_call|]. intros capabilities ? ->.
  eapply traces_bind; [apply traces_check|]. intros [] ? [_ ->].
  assert (is_Some (head checkpoints)) as Hh by (destruct checkpoints; [done|by eexists]).
  eapply traces_bind; [by apply traces_expect|]. intros first ? [_ ->].
  eapply traces_bind; [by apply traces_call|]. intros pending ? ->.
  eapply traces_bind; [by apply traces_attempt|]. intros [outcomes|failure] ? ->.
  2: { eapply traces_mono.
    - apply trace_record_failures; [done|]. intros. by apply traces_ret.
    - intros report calls [H1 H2]. assert (checkpoints ≠ []) as Hne by (destruct checkpoints; [by destruct Hh|done]).
      specialize (H2 Hne). unfold fails_past, fails_from in *. cbn in *. naive_solver lia. }
  eapply traces_bind.
  { apply trace_process_outcomes; [done..|]. by intros ? ? [_ ?]%initial_lookup. }
  intros [report|st] c1 Hloop; cbn [outcomes_post] in Hloop.
  { destruct Hloop as [Hflag Hf]. apply traces_ret. split; [by apply Hf|]. intros _ Hn. destruct Hn.
    rewrite !elem_of_app. auto 10. }
  destruct Hloop as (Hf & Hpages & _ & Hacc). cbn in Hf, Hpages, Hacc.
  eapply traces_bind.
  { apply trace_record_failures; [done|]. intros. by apply traces_ret. }
  intros report1 c2 [Hf2 Hom]. eapply traces_mono; [apply trace_publish_pages; by apply Hpages|].
  intros report2 c3 [Hf3 Hpub]. assert (0 ≤ er_failed_root_count report1) as H1 by (unfold fails_from in *; naive_solver).
  split; [by apply Hf3|]. intros Hz Hn checkpoint Hck.
  assert (er_failed_root_count report1 = 0) as Hz1 by by apply Hf3.
  assert (er_failed_root_count (rs_report st) = 0) as Hz0 by (unfold fails_from in *; naive_solver).
  destruct (Hpub H1 Hz) as [Hflag|Hall]; [destruct Hn; rewrite !elem_of_app; auto 10|].
  assert (checkpoint_key checkpoint ∈ rs_seen_roots st) as Hseen.
  { destruct (decide (checkpoint_key checkpoint ∈ rs_seen_roots st)) as [|Hns]; [done|].
    assert (checkpoint ∈ omitted_roots (rs_seen_roots st) checkpoints) as Hin by by apply list_elem_of_filter.
    assert (omitted_roots (rs_seen_roots st) checkpoints ≠ []) as Hne by (intros E; rewrite E in Hin; by apply not_elem_of_nil in Hin).
    specialize (Hom Hne). unfold fails_past, fails_from in *. naive_solver lia. }
  destruct (Hacc ltac:(done) Hz0 _ Hseen) as [?%not_elem_of_empty|(outcome & Ho & Hk & Ha)]; [done|].
  exists outcomes, outcome. split_and!; [rewrite !elem_of_app, !list_elem_of_singleton; auto 10|done|done|].
  unfold accounted in Ha. destruct (ro_page outcome) as [[[batch advanced|proof]|]|]; [| |done|done].
  - destruct Ha as [Hin _]. destruct (Hall _ Hin) as (published & ? & ?). exists published.
    split; [rewrite !elem_of_app; auto 10|done].
  - destruct Ha as (Hin & Hpk & previous & Hi & Hnext). rewrite Hk in Hi, Hpk.
    rewrite (initial_exact checkpoints checkpoint) in Hi; [|by eapply checkpoint_set_distinct|done].
    apply (inj Some) in Hi as <-. split_and!; [rewrite !elem_of_app; auto 10|done..].
Qed.

End Catch.

(** ** Capture windows *)

Lemma dealt_with_mono calls calls' checkpoint :
  (∀ c, c ∈ calls → c ∈ calls') → dealt_with calls checkpoint → dealt_with calls' checkpoint.
Proof.
  intros Hc (outcomes & outcome & Hr & Ho & Hk & Hp). exists outcomes, outcome. split_and!; [auto..|].
  destruct (ro_page outcome) as [[[|]|]|]; [|destruct Hp as (? & ? & ?); auto|done|done].
  destruct Hp as (published & ? & ?). eauto.
Qed.

Lemma traces_weaken {W A : Type} (safe safe' : PortCall → Prop) (m : Eff (W * list PortCall) A) post :
  (∀ c, safe c → safe' c) → traces safe m post → traces safe' m post.
Proof.
  intros Hs Hm w log. destruct (Hm w log) as (calls & ? & Hf & ?). exists calls. split_and!; [done| |done].
  by eapply Forall_impl.
Qed.

(** The flag is set once: after it was read as set it is never read as clear. *)
Definition sticky (calls : list PortCall) : Prop :=
  ∀ before after, calls = before ++ CallCancelled true :: after → CallCancelled false ∉ after.

Lemma sticky_clear before middle after :
  sticky (before ++ middle ++ CallCancelled false :: after) → CallCancelled true ∉ middle.
Proof.
  intros Hs (l1 & l2 & ->)%list_elem_of_split. apply (Hs (before ++ l1) (l2 ++ CallCancelled false :: after)).
  - by rewrite <-!(assoc_L (++)).
  - rewrite elem_of_app. right. by left.
Qed.

Lemma extend_checked_lookup checked checkpoints root generation :
  extend_checked checked checkpoints !! root = Some generation →
  checked !! root = Some generation ∨
  ∃ checkpoint, checkpoint ∈ checkpoints ∧ checkpoint_key checkpoint = (root, generation).
Proof.
  unfold extend_checked. induction checkpoints as [|c checkpoints IH] using rev_ind; [by left|].
  rewrite foldl_app. cbn [foldl]. setoid_rewrite elem_of_snoc.
  destruct (decide (ck_root_id c = root)) as [<-|Hne]; [rewrite lookup_insert_eq; intros [= <-]|rewrite lookup_insert_ne by done].
  - right. exists c. split; [by right|done].
  - intros [?|(c' & ? & ?)]%IH; [by left|right]. exists c'. auto.
Qed.

Section Capture.
Context {W : Type} (P : JournalPorts W).
Existing Instance logging.
Context (blake3_hex : bytes → str) (values : LineageValues).
Context (values_perm : ∀ m, values m ≡ₚ (map_to_list m).*2).

Abbreviation traces := (traces (λ _, True)).

Lemma trace_or_else (a b : Eff (W * list PortCall) bool) :
  traces a (λ _ _, True) → traces b (λ _ _, True) → traces (or_else a b) (λ _ _, True).
Proof.
  intros Ha Hb. eapply traces_bind; [exact Ha|]. intros [] ? _; [by apply traces_ret|exact Hb].
Qed.

Lemma trace_out_of_time : traces out_of_time (λ _ _, True).
Proof.
  apply trace_or_else; [eapply traces_mono; [by apply traces_observe|done]|].
  eapply traces_bind; [by apply traces_observe|]. intros. by apply traces_ret.
Qed.

Lemma trace_load_persisted checkpoints : traces (load_persisted checkpoints) (λ _ _, True).
Proof.
  induction checkpoints as [|c checkpoints IH]; cbn [load_persisted]; [by apply traces_ret|].
  eapply traces_bind; [by apply traces_call|]. intros. eapply traces_bind; [exact IH|]. intros. by apply traces_ret.
Qed.

(** What the rounds of a window add to it. *)
Definition window_post (rounds : nat) (window window' : JournalCaptureWindowReport)
    (calls : list PortCall) : Prop :=
  (length (cw_pages window') ≤ length (cw_pages window) + rounds)%nat ∧
  (∀ before, sticky (before ++ calls) → ∀ root generation,
     cw_checked_roots window' !! root = Some generation →
     cw_checked_roots window !! root = Some generation ∨
     ∃ checkpoint, checkpoint_key checkpoint = (root, generation) ∧ dealt_with calls checkpoint).

Lemma window_post_refl rounds window calls : window_post rounds window window calls.
Proof. split; [lia|]. by left. Qed.

Lemma window_post_trans rounds window window1 window2 pre more :
  window_post 1 window window1 (pre ++ more) → window_post rounds window1 window2 more →
  window_post (S rounds) window window2 (pre ++ more).
Proof.
  intros [Hl1 H1] [Hl2 H2]. split; [lia|]. intros before Hs root generation Hr.
  destruct (H2 (before ++ pre) ltac:(by rewrite <-(assoc_L (++))) _ _ Hr) as [Hr1|(checkpoint & ? & Hd)].
  - by apply (H1 before).
  - right. exists checkpoint. split; [done|]. eapply dealt_with_mono; [|done]. intros c ?. apply elem_of_app. by right.
Qed.

Lemma trace_capture_pages rounds policy checkpoints now window :
  traces (capture_pages blake3_hex values rounds policy checkpoints now window) (window_post rounds window).
Proof.
  revert checkpoints now window. induction rounds as [|rounds IH]; intros checkpoints now window; cbn [capture_pages].
  { apply traces_ret, window_post_refl. }
  eapply (traces_bind _ _ _ (λ _ _, True)).
  { destruct (is_empty _); [by apply traces_ret|].
    apply trace_or_else; [apply trace_out_of_time|eapply traces_mono; [by apply traces_call|done]]. }
  intros [] c0 _; [apply traces_ret, window_post_refl|].
  eapply traces_bind; [eapply traces_weaken; [|by apply (trace_catch_up P blake3_hex values values_perm checkpoints)]; done|].
  intros page c1 [_ Hclean].
  eapply (traces_bind _ _ _ (λ checked c2,
    checked = cw_checked_roots window ∨
    er_failed_root_count page = 0 ∧ c2 = [CallCancelled false] ∧
    checked = extend_checked (cw_checked_roots window) checkpoints)).
  { destruct (Z.eqb_spec (er_failed_root_count page) 0); [|apply traces_ret; by left].
    eapply traces_bind; [by apply traces_observe|]. intros [] ? ->; apply traces_ret; [by left|by right]. }
  intros checked c2 Hchecked.
  set (window1 := {| cw_pages := cw_pages window ++ [page]; cw_checked_roots := checked |}).
  assert (∀ rest, window_post 1 window window1 (c0 ++ c1 ++ c2 ++ rest)) as H1.
  { intros rest. split; [cbn; rewrite length_app; simpl; lia|]. cbn [cw_checked_roots window1].
    intros before Hs root generation. destruct Hchecked as [->|(Hz & -> & ->)]; [by left|].
    intros [?|(checkpoint & Hin & Hk)]%extend_checked_lookup; [by left|right]. exists checkpoint. split; [done|].
    eapply dealt_with_mono; [|apply Hclean; [done| |exact Hin]].
    - intros c ?. rewrite !elem_of_app. auto.
    - apply (sticky_clear (before ++ c0) c1 rest). by rewrite <-!(assoc_L (++)). }
  assert (∀ rest, window_post (S rounds) window window1 (c0 ++ c1 ++ c2 ++ rest)) as Hstop.
  { intros rest. destruct (H1 rest) as [Hl Hc]. split; [lia|exact Hc]. }
  eapply traces_bind; [apply trace_or_else; [by apply traces_ret|apply trace_out_of_time]|].
  intros [] c3 _; [apply traces_ret, Hstop|].
  eapply traces_bind; [apply trace_load_persisted|]. intros persisted c4 _.
  destruct (unfinished_checkpoints checkpoints persisted) as [next|]; [|apply traces_ret, Hstop].
  eapply traces_bind; [by apply traces_call|]. intros now' c5 _.
  eapply traces_mono; [apply IH|]. intros window2 more H2.
  rewrite !(assoc_L (++)). eapply window_post_trans; [|exact H2].
  by rewrite <-!(assoc_L (++)).
Qed.
End Capture.

(** ** A sample volume *)

Definition sample_page_batch : PersistentJournalEnrollmentBatch :=
  {| eb_range := eb_range sample_batch; eb_intents := [sample_intent]; eb_cross_root_lineage := [];
     eb_carried_cross_root_lineage := []; eb_pending_renames := [sample_pending_rename];
     eb_consumed_pending_rename_ids := []; eb_directory_changes := [] |}.

Definition sample_checkpoint (next captured : Z) : PersistentJournalCheckpoint :=
  {| ck_root_id := lit "root-1"; ck_root_generation := {| generation_value := 3 |};
     ck_volume := sample_volume; ck_root_file_reference := RefV2 (replicate 8 2);
     ck_journal_id := {| journal_identifier_value := 5 |};
     ck_next_unread_usn := {| journal_usn_value := next |};
     ck_captured_exclusive_end := {| journal_usn_value := captured |};
     ck_covered_catalog_revision := 1; ck_protocol_version := 5; ck_contract_version := 1;
     ck_continuity := CatchingUp; ck_failure := None; ck_updated_unix_ms := 9 |}.

Definition sample_policy : LibraryChangeQueuePolicy :=
  {| qp_debounce_millis := 100; qp_max_unresolved_changes := 100; qp_max_lease_batch := 10;
     qp_lease_duration_millis := 1000; qp_max_attempts := 3; qp_retry_initial_delay_millis := 10;
     qp_retry_maximum_delay_millis := 100; qp_terminal_retention_millis := 1000; qp_cleanup_batch := 10 |}.

(** A reader with one page for the root, and a repository that accepts everything. *)
Definition sample_ports : JournalPorts unit := {|
  load_persistent_journal_capabilities w :=
    (Ok [{| cap_root_id := lit "root-1"; cap_root_generation := {| generation_value := 3 |};
            cap_protocol_version := 5; cap_contract_version := 1; cap_state := CapSupported;
            cap_continuity := CatchingUp; cap_failure := None; cap_updated_unix_ms := 9 |}], w);
  load_persistent_journal_pending_renames _ _ w := (Ok [], w);
  load_persistent_journal_checkpoint _ _ w := (Ok None, w);
  record_persistent_journal_empty_replay _ _ w := (Ok true, w);
  persist_persistent_journal_root_failure _ _ _ w := (Ok None, w);
  attach_persistent_journal_recovery_opening_boundary _ _ _ _ w := (Ok None, w);
  publish_persistent_journal_volume_batch batch _ _ w :=
    (Ok {| er_enrolled_root_count := zlen (vb_pages batch); er_failed_root_count := 0;
           er_observation_count := 1; er_advanced_checkpoint_count := zlen (vb_pages batch);
           er_root_failures := [] |}, w);
  journal_capture_should_yield _ _ w := (Ok false, w);
  read_volume _ _ _ w :=
    (Ok [{| ro_root_id := lit "root-1"; ro_root_generation := {| generation_value := 3 |};
            ro_opening_boundary := None;
            ro_page := Ok (Some (Enrolled sample_page_batch (sample_checkpoint 200 200))) |}], w);
  load_cancelled w := (false, w);
  clock_elapsed w := (0, w);
  clock_observed_unix_ms w := (Ok 10, w);
|}.

Definition sample_run :=
  catch_up_persistent_journal_volume (H := logging sample_ports) sample_blake3 map_values
    [sample_checkpoint 100 100] 10 sample_policy ((), []).

(** C3: Whatever the repository, the reader and the cancellation flag do, catching up with a volume never
    panics and hands the repository only sound batches: each is nonempty, each of its pages was read
    for a requested root from exactly the position its checkpoint has reached and moves it forward,
    within the same volume, journal and root directory, and both owners of every hand-off mentioned in
    the batch are in it. *)
Theorem catch_up_publishes_soundly W (P : JournalPorts W) blake3_hex values checkpoints now policy w r w' log :
  (∀ m, values m ≡ₚ (map_to_list m).*2) →
  catch_up_persistent_journal_volume (H := logging P) blake3_hex values checkpoints now policy (w, []) = (r, (w', log)) →
  r ≠ Err Panicked ∧
  ∀ batch accepted, CallPublish batch accepted ∈ log → publishes_soundly checkpoints batch.
Proof.
  intros Hperm Hrun.
  destruct (trace_catch_up P blake3_hex values Hperm checkpoints now policy w []) as (calls & Hl & Hs & Hr).
  rewrite Hrun in *. cbn [fst snd app] in *. subst log. split.
  - intros ->. by apply Hr.
  - intros batch accepted Hin. rewrite Forall_forall in Hs. exact (Hs _ Hin).
Qed.

Lemma catch_up_publishes_soundly_witness :
  ∃ batch, CallPublish batch true ∈ sample_run.2.2 ∧ publishes_soundly [sample_checkpoint 100 100] batch.
Proof.
  exists {| vb_pages := [{| vp_enrollment := sample_page_batch; vp_checkpoint := sample_checkpoint 200 200 |}] |}.
  assert (CallPublish {| vb_pages := [{| vp_enrollment := sample_page_batch; vp_checkpoint := sample_checkpoint 200 200 |}] |}
    true ∈ sample_run.2.2) as Hin.
  { vm_compute. do 5 right. left. }
  split; [exact Hin|].
  destruct sample_run as [r [w' log]] eqn:E. unfold sample_run in E.
  apply (proj2 (catch_up_publishes_soundly unit sample_ports sample_blake3 map_values [sample_checkpoint 100 100] 10
           sample_policy () r w' log (λ m, reflexivity _) E) _ true Hin).
Defined.

(** C16: A report without failures accounts for every requested root: unless the run was cancelled, the
    reader answered for the root, and either had nothing new, or its empty replay was recorded at the
    position of the checkpoint, or the page it returned was accepted for publication. *)
Theorem clean_report_covers_roots W (P : JournalPorts W) blake3_hex values checkpoints now policy w report w' log :
  (∀ m, values m ≡ₚ (map_to_list m).*2) →
  catch_up_persistent_journal_volume (H := logging P) blake3_hex values checkpoints now policy (w, []) =
    (Ok report, (w', log)) →
  er_failed_root_count report = 0 → CallCancelled true ∉ log →
  ∀ checkpoint, checkpoint ∈ checkpoints → dealt_with log checkpoint.
Proof.
  intros Hperm Hrun.
  destruct (trace_catch_up P blake3_hex values Hperm checkpoints now policy w []) as (calls & Hl & _ & Hr).
  rewrite Hrun in *. cbn [fst snd app] in *. subst log. by destruct Hr.
Qed.

Lemma clean_report_covers_roots_witness : dealt_with sample_run.2.2 (sample_checkpoint 100 100).
Proof.
  destruct sample_run as [[report|] [w' log]] eqn:E; unfold sample_run in E; [|by vm_compute in E].
  apply (clean_report_covers_roots unit sample_ports sample_blake3 map_values [sample_checkpoint 100 100] 10
           sample_policy () report w' log (λ m, reflexivity _) E); [| |by left].
  - vm_compute in E. injection E as <- <- <-. reflexivity.
  - vm_compute in E. injection E as <- <- <-. intros Hin. repeat (apply elem_of_cons in Hin as [Hin|Hin]; [discriminate|]).
    by apply not_elem_of_nil in Hin.
Defined.

(** A capture window reads at most eight pages, and a root it reports as checked was dealt with: when
    the cancellation flag, once set, stays set, every checked root was covered by a page of the window
    that had no failure and was not cancelled. *)
Theorem capture_window_sound W (P : JournalPorts W) blake3_hex values checkpoints now policy w window w' log :
  (∀ m, values m ≡ₚ (map_to_list m).*2) →
  capture_with_clock (H := logging P) blake3_hex values checkpoints now policy (w, []) = (Ok window, (w', log)) →
  (length (cw_pages window) ≤ 8)%nat ∧
  (sticky log → ∀ root generation, cw_checked_roots window !! root = Some generation →
     ∃ checkpoint, checkpoint_key checkpoint = (root, generation) ∧ dealt_with log checkpoint).
Proof.
  intros Hperm Hrun. unfold capture_with_clock in Hrun.
  destruct (trace_capture_pages P blake3_hex values Hperm MAX_CAPTURE_PAGES policy checkpoints now
              {| cw_pages := []; cw_checked_roots := ∅ |} w []) as (calls & Hl & _ & Hr).
  rewrite Hrun in *. cbn [fst snd app] in *. subst log. destruct Hr as [Hlen Hchecked].
  split; [exact Hlen|]. intros Hs root generation Hroot.
  destruct (Hchecked [] Hs _ _ Hroot) as [He|?]; [|done].
  cbn [cw_checked_roots] in He. by rewrite lookup_empty in He.
Qed.

Definition sample_capture :=
  capture_with_clock (H := logging sample_ports) sample_blake3 map_values
    [sample_checkpoint 100 100] 10 sample_policy ((), []).

Lemma capture_window_sound_witness :
  ∃ checkpoint, checkpoint_key checkpoint = (lit "root-1", {| generation_value := 3 |}) ∧
    dealt_with sample_capture.2.2 checkpoint.
Proof.
  destruct sample_capture as [[window|] [w' log]] eqn:E; unfold sample_capture in E; [|by vm_compute in E].
  apply (capture_window_sound unit sample_ports sample_blake3 map_values [sample_checkpoint 100 100] 10
           sample_policy () window w' log (λ m, reflexivity _) E).
  - vm_compute in E. injection E as <- <- <-. intros before after Heq Hin.
    assert (CallCancelled true ∈ before ++ CallCancelled true :: after) as Ht by (apply elem_of_app; right; by left).
    rewrite <-Heq in Ht. repeat (apply elem_of_cons in Ht as [Ht|Ht]; [discriminate|]). by apply not_elem_of_nil in Ht.
  - vm_compute in E. injection E as <- <- <-. vm_compute. reflexivity.
Defined.

(** ** A page of another root *)

Definition other_checkpoint : PersistentJournalCheckpoint :=
  {| ck_root_id := lit "root-2"; ck_root_generation := {| generation_value := 3 |};
     ck_volume := sample_volume; ck_root_file_reference := RefV2 (replicate 8 2);
     ck_journal_id := {| journal_identifier_value := 5 |};
     ck_next_unread_usn := {| journal_usn_value := 100 |};
     ck_captured_exclusive_end := {| journal_usn_value := 100 |};
     ck_covered_catalog_revision := 1; ck_protocol_version := 5; ck_contract_version := 1;
     ck_continuity := CatchingUp; ck_failure := None; ck_updated_unix_ms := 9 |}.

(** A reader that answers for the second root with a page of the first, and has nothing new for the
    first. *)
Definition confused_ports : JournalPorts unit := {|
  load_persistent_journal_capabilities w :=
    (Ok ((λ root, {| cap_root_id := lit "root-" ++ [root]; cap_root_generation := {| generation_value := 3 |};
            cap_protocol_version := 5; cap_contract_version := 1; cap_state := CapSupported;
            cap_continuity := CatchingUp; cap_failure := None; cap_updated_unix_ms := 9 |}) <$> [49; 50]), w);
  load_persistent_journal_pending_renames _ _ w := (Ok [], w);
  load_persistent_journal_checkpoint _ _ w := (Ok None, w);
  record_persistent_journal_empty_replay _ _ w := (Ok true, w);
  persist_persistent_journal_root_failure _ _ _ w := (Ok None, w);
  attach_persistent_journal_recovery_opening_boundary _ _ _ _ w := (Ok None, w);
  publish_persistent_journal_volume_batch _ _ _ w := (Ok empty_report, w);
  journal_capture_should_yield _ _ w := (Ok false, w);
  read_volume _ _ _ w :=
    (Ok [{| ro_root_id := lit "root-2"; ro_root_generation := {| generation_value := 3 |};
            ro_opening_boundary := None;
            ro_page := Ok (Some (Enrolled sample_page_batch (sample_checkpoint 200 200))) |};
         {| ro_root_id := lit "root-1"; ro_root_generation := {| generation_value := 3 |};
            ro_opening_boundary := None; ro_page := Ok None |}], w);
  load_cancelled w := (false, w);
  clock_elapsed w := (0, w);
  clock_observed_unix_ms w := (Ok 10, w);
|}.

(** The mismatch is recorded as a failure of the first root, whose own outcome was fine, and no failure
    is recorded for the second root, for which the page was requested. *)
Example mismatch_blames_the_page_owner :
  match (catch_up_persistent_journal_volume (H := logging confused_ports) sample_blake3 map_values
           [sample_checkpoint 100 100; other_checkpoint] 10 sample_policy ((), [])).1 with
  | Ok report => rtf_root_id <$> er_root_failures report = [lit "root-1"]
  | Err _ => False
  end.
Proof. vm_compute. reflexivity. Qed.
