(* ===== verification/WindowProgress.v ===== *)
(** * Read windows end

    The end of an open read window is fixed, and pages that are validated against it reach it. *)

From S2P Require Import Prelude Text Effects LibraryChange JournalText JournalBatch ChangeQueue JournalState.
From S2P Require Import VolumeComponents Continuity Handoffs CatchUp CatchUpTrace CatchUpSafety JournalRecovery.

Abbreviation next_of c := (journal_usn_value (ck_next_unread_usn c)).
Abbreviation end_of c := (journal_usn_value (ck_captured_exclusive_end c)).

(** A window is open for a root while its baseline is replayed or a catch-up is unfinished. *)
Definition window_open (windows : JournalReadWindows) (checkpoint : PersistentJournalCheckpoint) : Prop :=
  is_Some (rw_baselines windows !! checkpoint_key checkpoint) ∨ is_partial_catchup checkpoint = true.

Lemma partial_catchup_true checkpoint :
  is_partial_catchup checkpoint = true ↔ ck_continuity checkpoint = CatchingUp ∧ next_of checkpoint < end_of checkpoint.
Proof.
  unfold is_partial_catchup, usn_ltb. rewrite andb_true_iff, bool_decide_eq_true, Z.ltb_lt. done.
Qed.

(** The end of an open window is the one the checkpoint has captured, and no other end is admitted. *)
Lemma window_end_captured windows checkpoint observed e :
  window_open windows checkpoint → JournalReadWindows_end windows checkpoint observed = Ok e →
  e = end_of checkpoint ∧ next_of checkpoint ≤ e ≤ observed ∧
  ∀ e', admits_shared_end windows checkpoint e' = true ↔ e' = e.
Proof.
  intros Ho. unfold JournalReadWindows_end, admits_shared_end.
  destruct (rw_baselines windows !! checkpoint_key checkpoint) as [baseline|] eqn:Eb.
  - intros H. apply result_bind_Ok in H as (closing & Hc%ok_or_Ok & H). apply result_seq_Ok in H as [Hv H].
    unfold validate_replay_checkpoint in Hv. apply fail_if_Ok in Hv. split_bools. rewrite Hc in *. simplify_eq.
    destruct (Z.ltb_spec observed (end_of checkpoint)); [done|]. simplify_eq. unfold usn_ltb in *.
    split_and!; [done|lia|done|]. intros e'. rewrite Z.eqb_eq. lia.
  - destruct Ho as [[? ?]|Ho]; [congruence|]. rewrite Ho. cbn [negb orb].
    apply partial_catchup_true in Ho as [_ Hlt]. destruct (Z.ltb_spec observed (end_of checkpoint)); [done|].
    intros Hok. simplify_eq. split_and!; [done|lia|done|]. intros e'. rewrite Z.eqb_eq. lia.
Qed.

(** The windows are those of the baselines under replay, one per root. *)
Lemma admit_baselines windows baselines windows' :
  result_foldl admit_baseline windows baselines = Ok windows' →
  ∀ key, is_Some (rw_baselines windows' !! key) ↔
    is_Some (rw_baselines windows !! key) ∨
    ∃ b, b ∈ baselines ∧ is_open_phase (bl_phase b) = true ∧ baseline_key b = key.
Proof.
  revert windows. induction baselines as [|b baselines IH]; intros windows H key; cbn [result_foldl] in H.
  { simplify_result. split; [by left|]. intros [?|(? & ?%not_elem_of_nil & _)]; done. }
  apply result_bind_Ok in H as (windows1 & H1 & H). rewrite (IH _ H). unfold admit_baseline in H1.
  apply result_seq_Ok in H1 as [_ H1]. setoid_rewrite elem_of_cons.
  destruct (is_open_phase (bl_phase b)) eqn:Eo.
  - apply result_seq_Ok in H1 as [_ H1]. apply (inj Ok) in H1 as <-. cbn [rw_baselines].
    destruct (decide (baseline_key b = key)) as [<-|Hne].
    + rewrite lookup_insert_eq. split; [|by left; eexists]. intros _. right. exists b. auto.
    + rewrite lookup_insert_ne by done. naive_solver.
  - apply (inj Ok) in H1 as <-. naive_solver congruence.
Qed.

(** The root of the checkpoint has a baseline under replay, or its catch-up is unfinished. *)
Definition window_opened (baselines : list PersistentJournalBaseline)
    (checkpoint : PersistentJournalCheckpoint) : Prop :=
  (∃ b, b ∈ baselines ∧ is_open_phase (bl_phase b) = true ∧ baseline_key b = checkpoint_key checkpoint) ∨
  is_partial_catchup checkpoint = true.

Lemma window_opened_open baselines windows checkpoint :
  JournalReadWindows_new baselines = Ok windows →
  window_opened baselines checkpoint ↔ window_open windows checkpoint.
Proof.
  intros H. unfold window_opened, window_open. rewrite (admit_baselines _ _ _ H). cbn [rw_baselines].
  rewrite lookup_empty. split; [naive_solver|]. intros [[[? ?]|?]|?]; [done|by left|by right].
Qed.

(** The end of a read window is fixed when it is opened.  For windows built from any baselines, the
    end computed for a checkpoint never exceeds what the journal shows and is one at which the root takes
    part in a shared read; while the root has a baseline under replay or an unfinished catch-up, the end
    is the one the checkpoint has captured, not before its position, and the root takes part at no
    other end; only such a root can be refused. *)
Theorem read_window_end_fixed baselines windows checkpoint observed :
  JournalReadWindows_new baselines = Ok windows →
  match JournalReadWindows_end windows checkpoint observed with
  | Ok e =>
    e ≤ observed ∧ admits_shared_end windows checkpoint e = true ∧
    (window_opened baselines checkpoint →
       e = end_of checkpoint ∧ next_of checkpoint ≤ e ∧
       ∀ e', admits_shared_end windows checkpoint e' = true → e' = e)
  | Err _ => window_opened baselines checkpoint
  end.
Proof.
  intros Hnew. pose proof (window_opened_open _ _ checkpoint Hnew) as Hw.
  assert (Decision (window_open windows checkpoint)) as [Ho|Hn] by (unfold window_open; apply _).
  - destruct (JournalReadWindows_end windows checkpoint observed) as [e|] eqn:E; [|by apply Hw].
    destruct (window_end_captured _ _ _ _ Ho E) as (He & Hr & Ha).
    split; [lia|]. split; [by apply Ha|]. intros _. split_and!; [done|lia|]. intros e' ?. by apply Ha.
  - assert (rw_baselines windows !! checkpoint_key checkpoint = None) as Hb.
    { apply eq_None_not_Some. intros ?. apply Hn. by left. }
    assert (is_partial_catchup checkpoint = false) as Hp.
    { apply not_true_is_false. intros ?. apply Hn. by right. }
    unfold JournalReadWindows_end, admits_shared_end. rewrite Hb, Hp. split; [lia|]. split; [done|].
    intros Ho%Hw. by destruct Hn.
Qed.

Lemma read_window_end_fixed_witness :
  JournalReadWindows_end {| rw_baselines := ∅ |} (sample_checkpoint 150 200) 900 = Ok 200 ∧
  ∀ e', admits_shared_end {| rw_baselines := ∅ |} (sample_checkpoint 150 200) e' = true → e' = 200.
Proof.
  split; [reflexivity|].
  apply (proj2 (proj2 (read_window_end_fixed [] {| rw_baselines := ∅ |} (sample_checkpoint 150 200) 900 eq_refl))).
  right. reflexivity.
Defined.

(** ** Progress *)

Section Progress.
Context (blake3_hex : bytes → str) (windows : JournalReadWindows).

(** One page of an open window: the root is admitted with the end of its window, the page is requested up
    to that end and validated against the checkpoint, and an unfinished root is still catching up. *)
Definition window_read (previous next : PersistentJournalCheckpoint) : Prop :=
  ∃ observed e batch,
    JournalReadWindows_end windows previous observed = Ok e ∧
    admits_shared_end windows previous (journal_usn_value (sr_requested_end_usn (eb_range batch))) = true ∧
    validate_page blake3_hex previous batch next = Ok () ∧
    checkpoint_key next = checkpoint_key previous ∧
    (next_of next < end_of next → ck_continuity next = CatchingUp).

Lemma validate_page_end previous batch next u :
  validate_page blake3_hex previous batch next = Ok u →
  sr_requested_end_usn (eb_range batch) = ck_captured_exclusive_end next.
Proof. unfold validate_page. intros H. simplify_result. split_bools. done. Qed.

Lemma window_read_step previous next :
  window_open windows previous → window_read previous next →
  end_of next = end_of previous ∧ next_of previous < next_of next ≤ end_of next ∧
  (next_of next < end_of next → window_open windows next).
Proof.
  intros Ho (observed & e & batch & He & Ha & Hv & Hk & Hc).
  destruct (window_end_captured _ _ _ _ Ho He) as (-> & _ & Hadm). apply Hadm in Ha.
  rewrite (validate_page_end _ _ _ _ Hv) in Ha.
  destruct (validate_page_advances _ _ _ _ _ Hv) as (_ & _ & _ & _ & _ & _ & Hlt). cbn [vp_checkpoint] in Hlt.
  split; [done|]. split; [done|]. intros Hun. destruct Ho as [Hb|_]; [left; by rewrite Hk|right].
  apply partial_catchup_true. auto.
Qed.

Lemma window_progress n cps :
  (∀ k, next_of (cps k) < end_of (cps k) → window_read (cps k) (cps (S k))) →
  ∀ k, window_open windows (cps k) → next_of (cps k) ≤ end_of (cps k) →
  end_of (cps k) - next_of (cps k) ≤ Z.of_nat n →
  ∃ m, (m ≤ n)%nat ∧ next_of (cps (k + m)%nat) = end_of (cps k) ∧ end_of (cps (k + m)%nat) = end_of (cps k).
Proof.
  intros Hr. induction n as [|n IH]; intros k Ho Hle Hd.
  { exists 0%nat. rewrite Nat.add_0_r. split_and!; [done|lia|done]. }
  destruct (Z.eq_dec (next_of (cps k)) (end_of (cps k))) as [Heq|Hne].
  { exists 0%nat. rewrite Nat.add_0_r. split_and!; [lia|done|done]. }
  destruct (window_read_step _ _ Ho (Hr k ltac:(lia))) as (He & Hlt & Hopen).
  destruct (Z.eq_dec (next_of (cps (S k))) (end_of (cps (S k)))) as [Heq|Hne'].
  { exists 1%nat. rewrite Nat.add_1_r. split_and!; [lia|congruence|done]. }
  destruct (IH (S k)) as (m & Hm & H1 & H2); [apply Hopen; lia|lia|lia|].
  exists (S m). replace (k + S m)%nat with (S k + m)%nat by lia. split_and!; [lia|congruence|congruence].
Qed.
End Progress.

(** C34: An open read window is read to its end.  A sequence of pages, each requested up to the end of the
    window and validated against the checkpoint it continues, reaches the end the window was opened with
    after at most as many pages as there are positions left, whatever is written to the journal
    meanwhile. *)
Theorem read_window_reaches_end blake3_hex windows (cps : nat → PersistentJournalCheckpoint) :
  window_open windows (cps 0%nat) → next_of (cps 0%nat) ≤ end_of (cps 0%nat) →
  (∀ k, next_of (cps k) < end_of (cps k) → window_read blake3_hex windows (cps k) (cps (S k))) →
  ∃ m, Z.of_nat m ≤ end_of (cps 0%nat) - next_of (cps 0%nat) ∧
    next_of (cps m) = end_of (cps 0%nat) ∧ end_of (cps m) = end_of (cps 0%nat).
Proof.
  intros Ho Hle Hr.
  destruct (window_progress blake3_hex windows (Z.to_nat (end_of (cps 0%nat) - next_of (cps 0%nat))) cps Hr 0%nat)
    as (m & Hm & ? & ?); [done|done|lia|]. exists m. split; [lia|done].
Qed.

Lemma read_window_reaches_end_witness :
  ∃ m, Z.of_nat m ≤ 100 ∧ next_of ((λ k : nat, sample_checkpoint (if decide (k = 0%nat) then 100 else 200) 200) m) = 200.
Proof.
  destruct (read_window_reaches_end sample_blake3 {| rw_baselines := ∅ |}
              (λ k, sample_checkpoint (if decide (k = 0%nat) then 100 else 200) 200)) as (m & H1 & H2 & _).
  - right. reflexivity.
  - vm_compute. discriminate.
  - intros [|k] Hlt; [|vm_compute in Hlt; discriminate]. exists 900, 200, sample_page_batch.
    split_and!; vm_compute; reflexivity || (intros; discriminate).
  - exists m. split; [exact H1|exact H2].
Defined.
