(* ===== verification/Contracts.v ===== *)
(** * The contracts between the broker service, its authorizer and its backend

    Models [journal_broker/service/contracts.rs]: the facts of an authenticated connection, the proofs of
    authorisation, journal metadata, and the bounded page a backend fills.  The fields of these types are
    private to the service, so a backend or an authorizer builds them with the constructors below only:
    the [wf_*] predicates say what the constructors guarantee. *)

From S2P Require Import Prelude Text WireBase WirePath Wire.
Import WirePath(NameComparisonSemantics, NormalizedWindowsPath, component_count, normalize_backend_path).

(** ** Errors *)

Inductive AuthorizerError :=
| AuthCallerRejected | AuthRootUnauthorized | AuthRootIdentityMismatch | AuthUnsupportedFilesystem.

Inductive BackendError :=
| BackendRootUnavailable | BackendJournalUnavailable | BackendJournalDiscontinuous
| BackendVolumeMismatch | BackendRecordUnsupported | BackendEvidenceLimitExceeded
| BackendTimedOut | BackendCancelled | BackendErrorUnavailable.

Abbreviation AuthResult := (Result AuthorizerError).
Abbreviation BackendResult := (Result BackendError).

#[export] Instance BackendError_eq_dec : EqDecision BackendError.
Proof. solve_decision. Defined.

(** ** Connections and callers *)

Record AuthenticatedPipeFacts := {
  pf_opaque_token_binding : bytes;
  pf_client_process_identity : bytes;
  pf_process_id : Z;
  pf_session_id : Z;
  pf_token_type : Z;
  pf_impersonation_level : Z;
  pf_is_elevated : bool;
}.

Record AuthenticatedConnection := {
  ac_connection_id : bytes;
  ac_connection_generation : Z;
  ac_opaque_token_binding : bytes;
  ac_observed_client_process_identity : bytes;
  ac_observed_process_id : Z;
  ac_observed_session_id : Z;
  ac_observed_token_type : Z;
  ac_observed_impersonation_level : Z;
  ac_observed_is_elevated : bool;
}.

Definition AuthenticatedConnection_from_pipe_token (connection_id : bytes) (connection_generation : Z)
    (facts : AuthenticatedPipeFacts) : AuthResult AuthenticatedConnection :=
  if bool_decide (connection_id = replicate 16 0)
     || (connection_generation =? 0)
     || bool_decide (pf_opaque_token_binding facts = replicate 32 0)
     || bool_decide (pf_client_process_identity facts = replicate 32 0)
     || (pf_process_id facts =? 0)
     || negb (pf_token_type facts =? 2)
     || (pf_impersonation_level facts <? 2)
  then Err AuthCallerRejected
  else Ok {| ac_connection_id := connection_id;
             ac_connection_generation := connection_generation;
             ac_opaque_token_binding := pf_opaque_token_binding facts;
             ac_observed_client_process_identity := pf_client_process_identity facts;
             ac_observed_process_id := pf_process_id facts;
             ac_observed_session_id := pf_session_id facts;
             ac_observed_token_type := pf_token_type facts;
             ac_observed_impersonation_level := pf_impersonation_level facts;
             ac_observed_is_elevated := pf_is_elevated facts |}.

Record CallerAuthorization := {
  ca_connection_id : bytes;
  ca_connection_generation : Z;
  ca_client_instance : bytes;
  ca_opaque_namespace : bytes;
}.

Definition CallerAuthorization_from_verified_claim (authenticated : AuthenticatedConnection)
    (claim : CallerClaim) : AuthResult CallerAuthorization :=
  if negb (caller_process_id claim =? ac_observed_process_id authenticated)
     || negb (caller_session_id claim =? ac_observed_session_id authenticated)
     || bool_decide (caller_client_instance claim = replicate 16 0)
  then Err AuthCallerRejected
  else Ok {| ca_connection_id := ac_connection_id authenticated;
             ca_connection_generation := ac_connection_generation authenticated;
             ca_client_instance := caller_client_instance claim;
             ca_opaque_namespace := ac_opaque_token_binding authenticated |}.

(** ** Roots *)

#[export] Instance RootAuthorization_eq_dec : EqDecision RootAuthorization.
Proof. solve_decision. Defined.

Record DeclaredRootAuthorization := {
  dr_caller : CallerAuthorization;
  dr_root : RootAuthorization;
}.

Definition DeclaredRootAuthorization_after_access_check (caller : CallerAuthorization)
    (root : RootAuthorization) : AuthResult DeclaredRootAuthorization :=
  map_err (λ _, AuthRootUnauthorized) (RootAuthorization_validate root);;
  Ok {| dr_caller := caller; dr_root := root |}.

Record RootNameSemanticsProof := { ns_components : list NameComparisonSemantics }.

Definition RootNameSemanticsProof_from_pinned_directory_handles
    (components : list NameComparisonSemantics) : AuthResult RootNameSemanticsProof :=
  if MAX_PATH_DEPTH <? zlen components then Err AuthRootIdentityMismatch
  else Ok {| ns_components := components |}.

Record PinnedBrokerRoot := {
  pb_volume_id : str;
  pb_root_identity : bytes;
  pb_canonical_root_utf16 : list Z;
  pb_name_semantics : RootNameSemanticsProof;
}.

Definition PinnedBrokerRoot_from_caller_pinned_handle (volume_id : str) (root_identity : bytes)
    (canonical_root_utf16 : list Z) (name_semantics : RootNameSemanticsProof)
    : BackendResult PinnedBrokerRoot :=
  fail_if (is_empty volume_id || (MAX_VOLUME_ID_BYTES <? str_len volume_id)
           || negb (is_reference_len root_identity)) BackendRootUnavailable;;
  normalized ← map_err (λ _, BackendRootUnavailable) (normalize_backend_path canonical_root_utf16);
  fail_if (negb (component_count normalized =? zlen (ns_components name_semantics)))
          BackendRootUnavailable;;
  Ok {| pb_volume_id := volume_id; pb_root_identity := root_identity;
        pb_canonical_root_utf16 := canonical_root_utf16; pb_name_semantics := name_semantics |}.

Definition normalized_root (root : PinnedBrokerRoot) : BackendResult NormalizedWindowsPath :=
  map_err (λ _, BackendRootUnavailable) (normalize_backend_path (pb_canonical_root_utf16 root)).

Record AuthorizedPinnedRoot := {
  ap_caller : CallerAuthorization;
  ap_declared_root : RootAuthorization;
  ap_pinned_root : PinnedBrokerRoot;
}.

Definition AuthorizedPinnedRoot_after_identity_check (caller : CallerAuthorization)
    (declared : DeclaredRootAuthorization) (pinned_root : PinnedBrokerRoot)
    : AuthResult AuthorizedPinnedRoot :=
  if negb (bool_decide (ca_connection_id caller = ca_connection_id (dr_caller declared)))
     || negb (bool_decide (ca_client_instance caller = ca_client_instance (dr_caller declared)))
     || negb (bool_decide (ca_opaque_namespace caller = ca_opaque_namespace (dr_caller declared)))
  then Err AuthRootIdentityMismatch
  else Ok {| ap_caller := caller; ap_declared_root := dr_root declared; ap_pinned_root := pinned_root |}.

(** ** Journal metadata, ranges and limits *)

Record ExistingJournalMetadata := { jm_journal_id : Z; jm_first_usn : Z; jm_next_usn : Z }.

Definition ExistingJournalMetadata_validate (self : ExistingJournalMetadata)
    : BackendResult ExistingJournalMetadata :=
  if (jm_journal_id self =? 0) || (jm_first_usn self <? 0) || (jm_next_usn self <? jm_first_usn self)
  then Err BackendJournalDiscontinuous else Ok self.

Definition ExistingJournalMetadata_from_query (journal_id first_usn next_usn : Z)
    : BackendResult ExistingJournalMetadata :=
  ExistingJournalMetadata_validate
    {| jm_journal_id := journal_id; jm_first_usn := first_usn; jm_next_usn := next_usn |}.

Inductive ExistingJournalState := JournalSupported (metadata : ExistingJournalMetadata) | JournalLiveOnly.

Record JournalRange := { range_start_usn : Z; range_end_usn : Z }.

Definition JournalRange_new (start_usn end_usn : Z) : BackendResult JournalRange :=
  if (start_usn <? 0) || (end_usn <=? start_usn) then Err BackendJournalDiscontinuous
  else Ok {| range_start_usn := start_usn; range_end_usn := end_usn |}.

Record JournalReadLimits := { lim_max_records : Z; lim_max_evidence_bytes : Z }.

Definition JournalReadLimits_new (max_records max_evidence_bytes : Z) : BackendResult JournalReadLimits :=
  if negb (in_range 1 MAX_RECORDS max_records) || negb (in_range 1 MAX_EVIDENCE_BYTES max_evidence_bytes)
  then Err BackendEvidenceLimitExceeded
  else Ok {| lim_max_records := max_records; lim_max_evidence_bytes := max_evidence_bytes |}.

(** ** Candidates *)

Record BackendJournalCandidate := {
  bc_volume_id : str;
  bc_absolute_path_utf16 : list Z;
  bc_previous_absolute_path_utf16 : option (list Z);
  bc_file_reference : bytes;
  bc_usn : Z;
  bc_kind : CandidateKind;
  bc_is_directory : bool;
}.

Definition BackendJournalCandidate_copy_from_bounded (volume_id : str) (absolute_path_utf16 : list Z)
    (previous_absolute_path_utf16 : option (list Z)) (file_reference : bytes) (usn : Z)
    (kind : CandidateKind) (is_directory : bool) : BackendResult BackendJournalCandidate :=
  let has_previous := bool_decide (is_Some previous_absolute_path_utf16) in
  fail_if (is_empty volume_id
           || (MAX_VOLUME_ID_BYTES <? str_len volume_id)
           || (MAX_PATH_UTF16_UNITS <? zlen absolute_path_utf16)
           || match previous_absolute_path_utf16 with
              | Some path => MAX_PATH_UTF16_UNITS <? zlen path
              | None => false
              end
           || negb (is_reference_len file_reference)
           || (usn <? 0)
           || negb (Bool.eqb has_previous (bool_decide (kind = KindRename)))
           || (bool_decide (kind = KindSubtree) && negb is_directory)) BackendRecordUnsupported;;
  map_err (λ _, BackendRecordUnsupported) (normalize_backend_path absolute_path_utf16);;
  match previous_absolute_path_utf16 with
  | Some previous =>
    map_err (λ _, BackendRecordUnsupported) (normalize_backend_path previous);; Ok ()
  | None => Ok ()
  end;;
  Ok {| bc_volume_id := volume_id;
        bc_absolute_path_utf16 := absolute_path_utf16;
        bc_previous_absolute_path_utf16 := previous_absolute_path_utf16;
        bc_file_reference := file_reference;
        bc_usn := usn;
        bc_kind := kind;
        bc_is_directory := is_directory |}.

Definition BackendJournalCandidate_evidence_bytes (self : BackendJournalCandidate) : BackendResult Z :=
  ok_or (current ← checked_mul USIZE_MAX (zlen (bc_absolute_path_utf16 self)) 2;
         size ← match bc_previous_absolute_path_utf16 self with
                | None => Some current
                | Some previous =>
                  size ← checked_mul USIZE_MAX (zlen previous) 2;
                  checked_add USIZE_MAX current size
                end;
         checked_add USIZE_MAX size (zlen (bc_file_reference self)))
        BackendEvidenceLimitExceeded.

(** ** Bounded pages *)

Record JournalReadProof := {
  jp_covered_until_usn : Z;
  jp_is_complete : bool;
  jp_after : ExistingJournalMetadata;
}.

Definition JournalReadProof_after_read (covered_until_usn : Z) (is_complete : bool)
    (after : ExistingJournalMetadata) : BackendResult JournalReadProof :=
  ExistingJournalMetadata_validate after;;
  if covered_until_usn <? 0 then Err BackendJournalDiscontinuous
  else Ok {| jp_covered_until_usn := covered_until_usn; jp_is_complete := is_complete;
             jp_after := after |}.

Record BoundedJournalPage := {
  bp_candidates : list BackendJournalCandidate;
  bp_proof : JournalReadProof;
}.

Record BoundedJournalPageBuilder := {
  pg_range : JournalRange;
  pg_limits : JournalReadLimits;
  pg_evidence_bytes : Z;
  pg_candidates : list BackendJournalCandidate;
}.

Definition BoundedJournalPageBuilder_new (range : JournalRange) (limits : JournalReadLimits)
    : BoundedJournalPageBuilder :=
  {| pg_range := range; pg_limits := limits; pg_evidence_bytes := 0; pg_candidates := [] |}.

Definition BoundedJournalPageBuilder_push (self : BoundedJournalPageBuilder)
    (candidate : BackendJournalCandidate) : BackendResult BoundedJournalPageBuilder :=
  let limits := pg_limits self in
  let range := pg_range self in
  fail_if (lim_max_records limits <=? zlen (pg_candidates self)) BackendEvidenceLimitExceeded;;
  fail_if ((bc_usn candidate <? range_start_usn range) || (range_end_usn range <=? bc_usn candidate))
          BackendJournalDiscontinuous;;
  fail_if (match last (pg_candidates self) with
           | Some previous => bc_usn candidate <=? bc_usn previous
           | None => false
           end) BackendJournalDiscontinuous;;
  size ← BackendJournalCandidate_evidence_bytes candidate;
  next_size ← ok_or (checked_add USIZE_MAX (pg_evidence_bytes self) size) BackendEvidenceLimitExceeded;
  fail_if (lim_max_evidence_bytes limits <? next_size) BackendEvidenceLimitExceeded;;
  Ok {| pg_range := range; pg_limits := limits; pg_evidence_bytes := next_size;
        pg_candidates := pg_candidates self ++ [candidate] |}.

Definition BoundedJournalPageBuilder_finish (self : BoundedJournalPageBuilder)
    (before : ExistingJournalMetadata) (proof : JournalReadProof) : BackendResult BoundedJournalPage :=
  after ← ExistingJournalMetadata_validate (jp_after proof);
  let range := pg_range self in
  fail_if (negb (jm_journal_id after =? jm_journal_id before)
           || (range_start_usn range <? jm_first_usn after)
           || (jm_next_usn after <? range_end_usn range)
           || (jp_covered_until_usn proof <=? range_start_usn range)
           || (range_end_usn range <? jp_covered_until_usn proof)
           || negb (Bool.eqb (jp_is_complete proof) (jp_covered_until_usn proof =? range_end_usn range))
           || match last (pg_candidates self) with
              | Some candidate => jp_covered_until_usn proof <=? bc_usn candidate
              | None => false
              end) BackendJournalDiscontinuous;;
  Ok {| bp_candidates := pg_candidates self; bp_proof := proof |}.

(** ** Shared volume pages *)

Record BackendJournalHandoff := {
  bh_previous_root_index : option nat;
  bh_previous_pending_index : option nat;
  bh_current_root_index : nat;
  bh_previous_absolute_path_utf16 : list Z;
  bh_current_absolute_path_utf16 : list Z;
  bh_file_reference : bytes;
  bh_old_usn : Z;
  bh_usn : Z;
  bh_is_directory : bool;
}.

Record BackendPendingRenameCarry := {
  bpc_root : option AuthorizedPinnedRoot;
  bpc_read_root_index : option nat;
  bpc_file_reference : bytes;
  bpc_old_usn : Z;
  bpc_previous_relative_path : str;
  bpc_is_directory : bool;
}.

Record BackendPendingRename := {
  bpr_root_index : nat;
  bpr_previous_absolute_path_utf16 : list Z;
  bpr_file_reference : bytes;
  bpr_old_usn : Z;
  bpr_is_directory : bool;
}.

Record SharedBackendJournalPage := {
  sb_candidates_by_root : list (BackendResult (list BackendJournalCandidate));
  sb_handoffs : list BackendJournalHandoff;
  sb_pending_renames : list BackendPendingRename;
  sb_rename_barriers_by_root : list (option Z);
  sb_proof : option JournalReadProof;
}.

Record ExistingJournalVolumeRead := {
  ev_roots : list AuthorizedPinnedRoot;
  ev_root_start_usns : list Z;
  ev_pending_renames : list BackendPendingRenameCarry;
  ev_journal : ExistingJournalMetadata;
  ev_range : JournalRange;
  ev_limits : JournalReadLimits;
}.
