(* ===== verification/BrokerChecks.v ===== *)
(** * Checks and answers of the broker service

    Models the pure functions of [journal_broker/service.rs] and [service/shared_page_validation.rs]: how
    errors become failure codes, how a request that cannot be decoded is answered, what an authorised root
    must match, and how the candidates of a backend are reduced to what may be told about a root. *)

From S2P Require Import Prelude Text Framing WireBase WirePath Wire CodecPrim Responses ActiveRegistry Contracts.
Import WirePath(NormalizedWindowsPath, RootRelativeScope, Root, Relative, normalize_backend_path,
  validate_root_path, scope_under_root).

(** ** Failures *)

Abbreviation BrokerResult := (Result BrokerFailure).

Definition BrokerFailure_new (code : BrokerFailureCode) : BrokerFailure :=
  {| failure_failure_code := code |}.

Definition map_authorizer_failure (error : AuthorizerError) : BrokerFailure :=
  BrokerFailure_new match error with
  | AuthCallerRejected => CallerRejected
  | AuthRootUnauthorized => RootUnauthorized
  | AuthRootIdentityMismatch => RootIdentityMismatch
  | AuthUnsupportedFilesystem => JournalUnavailable
  end.

Definition map_backend_failure (error : BackendError) : BrokerFailure :=
  BrokerFailure_new match error with
  | BackendRootUnavailable => RootIdentityMismatch
  | BackendJournalUnavailable => JournalUnavailable
  | BackendJournalDiscontinuous => JournalDiscontinuous
  | BackendVolumeMismatch => VolumeMismatch
  | BackendRecordUnsupported => RecordUnsupported
  | BackendEvidenceLimitExceeded => EvidenceLimitExceeded
  | BackendTimedOut => TimedOut
  | BackendCancelled => Cancelled
  | BackendErrorUnavailable => BackendUnavailable
  end.

Definition map_active_failure (error : ActiveRequestError) : BrokerFailure :=
  BrokerFailure_new match error with
  | AlreadyActive | LimitExceeded => ActiveLimitExceeded
  | DeliveryBackpressure => TerminalDeliveryBackpressure
  | NotActive | ConnectionNotOpen | ConnectionGenerationMismatch => RequestNotActive
  | RequestCancelled => Cancelled
  | RequestTimedOut => TimedOut
  end.

Definition failure_response (request_id : Z) (client_instance : option bytes) (code : BrokerFailureCode)
    : BrokerResponse :=
  RespFailure request_id client_instance (BrokerFailure_new code).

Definition malformed_code (error : WireError) : BrokerFailureCode :=
  match error with
  | UnsupportedVersion _ => ProtocolMismatch
  | LengthExceeded | LengthOverflow => RequestTooLarge
  | _ => MalformedFrame
  end.

Definition malformed_response (payload : bytes) (error : WireError) : BrokerResponse :=
  failure_response
    match inspect_request_header payload with Ok header => header_request_id header | Err _ => 0 end
    None (malformed_code error).

(** [encode_response] and [encode_frame], as every answer of the service is sent. *)
Definition encode_answer (response : BrokerResponse) : BrokerResult bytes :=
  payload ← map_err (λ _, BrokerFailure_new Internal) (encode_response response);
  map_err (λ _, BrokerFailure_new Internal) (Framing.encode_frame payload).

Record TerminalFrame := { tf_request_id : Z; tf_frame : bytes }.

Definition terminal_code (terminal : RequestTerminal) : BrokerFailureCode :=
  match terminal with
  | TerminalCancelled => Cancelled
  | TerminalTimedOut => TimedOut
  | TerminalAborted => RequestNotActive
  | TerminalCompleted => Internal
  end.

Definition encode_recorded_terminal (terminal : RecordedTerminal) : BrokerResult TerminalFrame :=
  frame ← encode_answer (failure_response (key_request_id (rt_key terminal))
                           (Some (key_client_instance (rt_key terminal)))
                           (terminal_code (rt_terminal terminal)));
  Ok {| tf_request_id := key_request_id (rt_key terminal); tf_frame := frame |}.

(** ** Ranges and candidates *)

Definition validate_requested_range (request : ReadJournalRangeRequest)
    (metadata : ExistingJournalMetadata) : BrokerResult unit :=
  fail_if (negb (jm_journal_id metadata =? rd_journal_id request)
           || (rd_start_usn request <? jm_first_usn metadata)
           || (jm_next_usn metadata <? rd_end_usn request))
          (BrokerFailure_new JournalDiscontinuous).

Definition to_candidate_scope (scope : RootRelativeScope) : CandidateScope :=
  match scope with
  | Root => ScopeRoot
  | Relative path => ScopeRelativePath path
  end.

Definition isolated_candidate_kind (is_directory : bool) : CandidateKind :=
  if is_directory then KindSubtree else KindPath.

Section Comparison.
Context (CompareStringOrdinal : list Z → list Z → Z → Z).
Abbreviation scope_under_root := (scope_under_root CompareStringOrdinal).

Definition validate_pinned_root (declared : RootAuthorization) (pinned : PinnedBrokerRoot)
    : BrokerResult unit :=
  let mismatch {A : Type} : WireResult A → BrokerResult A :=
    map_err (λ _, BrokerFailure_new RootIdentityMismatch) in
  fail_if (negb (bool_decide (pb_volume_id pinned = root_volume_id declared)))
          (BrokerFailure_new VolumeMismatch);;
  fail_if (negb (bool_decide (pb_root_identity pinned = root_root_identity declared)))
          (BrokerFailure_new RootIdentityMismatch);;
  declared_path ← mismatch (validate_root_path (root_canonical_root_utf16 declared));
  pinned_path ← mismatch (validate_root_path (pb_canonical_root_utf16 pinned));
  let comparisons := ns_components (pb_name_semantics pinned) in
  forward ← mismatch (scope_under_root declared_path pinned_path comparisons);
  match forward with
  | Some Root =>
    backward ← mismatch (scope_under_root pinned_path declared_path comparisons);
    match backward with
    | Some Root => Ok ()
    | _ => Err (BrokerFailure_new RootIdentityMismatch)
    end
  | _ => Err (BrokerFailure_new RootIdentityMismatch)
  end.

Definition validate_authorized_root_facts (caller : CallerAuthorization) (root : RootAuthorization)
    (authorized : AuthorizedPinnedRoot) : BrokerResult unit :=
  let other := ap_caller authorized in
  fail_if (negb (bool_decide (ca_connection_id other = ca_connection_id caller))
           || negb (ca_connection_generation other =? ca_connection_generation caller)
           || negb (bool_decide (ca_client_instance other = ca_client_instance caller))
           || negb (bool_decide (ca_opaque_namespace other = ca_opaque_namespace caller))
           || negb (bool_decide (ap_declared_root authorized = root)))
          (BrokerFailure_new RootIdentityMismatch);;
  validate_pinned_root root (ap_pinned_root authorized).

(** The scope of a backend path below the pinned root. *)
Definition pinned_scope (root : AuthorizedPinnedRoot) (canonical_root path : NormalizedWindowsPath)
    : WireResult (option RootRelativeScope) :=
  scope_under_root path canonical_root (ns_components (pb_name_semantics (ap_pinned_root root))).

(** One iteration of the loop of [constrain_candidates]; [None] is its [continue]. *)
Definition constrain_candidate (root : AuthorizedPinnedRoot) (canonical_root : NormalizedWindowsPath)
    (candidate : BackendJournalCandidate) : BrokerResult (option BrokerCandidate) :=
  let unsupported {A : Type} : WireResult A → BrokerResult A :=
    map_err (λ _, BrokerFailure_new RecordUnsupported) in
  fail_if (negb (bool_decide (bc_volume_id candidate = pb_volume_id (ap_pinned_root root))))
          (BrokerFailure_new VolumeMismatch);;
  current ← unsupported (normalize_backend_path (bc_absolute_path_utf16 candidate));
  current_scope ← map_err (λ _, BrokerFailure_new RootIdentityMismatch)
                    (pinned_scope root canonical_root current);
  previous_scope ← match bc_previous_absolute_path_utf16 candidate with
                   | None => Ok None
                   | Some path =>
                     unsupported (path ← normalize_backend_path path;
                                  pinned_scope root canonical_root path)
                   end;
  match
    match current_scope, previous_scope with
    | None, None => None
    | Some current, Some previous =>
      Some (to_candidate_scope current, Some (to_candidate_scope previous), bc_kind candidate)
    | Some current, None =>
      Some (to_candidate_scope current, None, isolated_candidate_kind (bc_is_directory candidate))
    | None, Some previous =>
      Some (to_candidate_scope previous, None, isolated_candidate_kind (bc_is_directory candidate))
    end
  with
  | None => Ok None
  | Some (scope, previous_scope, kind) =>
    let '(kind, previous_scope) :=
      if is_root_scope scope
         || match previous_scope with Some previous => is_root_scope previous | None => false end
      then (KindSubtree, None) else (kind, previous_scope) in
    let normalized :=
      {| cand_scope := scope;
         cand_previous_scope := previous_scope;
         cand_file_reference := bc_file_reference candidate;
         cand_usn := bc_usn candidate;
         cand_kind := kind;
         cand_is_directory := bc_is_directory candidate |} in
    unsupported (BrokerCandidate_validate normalized);;
    Ok (Some normalized)
  end.

Fixpoint constrain_each (root : AuthorizedPinnedRoot) (canonical_root : NormalizedWindowsPath)
    (backend_candidates : list BackendJournalCandidate) : BrokerResult (list BrokerCandidate) :=
  match backend_candidates with
  | [] => Ok []
  | candidate :: backend_candidates =>
    normalized ← constrain_candidate root canonical_root candidate;
    candidates ← constrain_each root canonical_root backend_candidates;
    Ok match normalized with Some c => c :: candidates | None => candidates end
  end.

Definition constrain_candidates (root : AuthorizedPinnedRoot)
    (backend_candidates : list BackendJournalCandidate) : BrokerResult (list BrokerCandidate) :=
  canonical_root ← map_err map_backend_failure (normalized_root (ap_pinned_root root));
  constrain_each root canonical_root backend_candidates.

End Comparison.

(** * Shared pages *)

(** ** What a backend page must satisfy *)

(** [candidates_by_root[index].is_err()]; an index out of range was refused before. *)
Definition root_failed (page : SharedBackendJournalPage) (index : nat) : bool :=
  match sb_candidates_by_root page !! index with Some (Ok _) => false | _ => true end.

(** [index >= expected_roots] *)
Definition out_of_roots (expected_roots index : nat) : bool := Nat.leb expected_roots index.

Definition past_proof (page : SharedBackendJournalPage) (usn : Z) : bool :=
  is_none_or (λ proof, jp_covered_until_usn proof <=? usn) (sb_proof page).

Definition handoff_rejected (range : JournalRange) (page : SharedBackendJournalPage)
    (expected_roots : nat) (handoff : BackendJournalHandoff) : bool :=
  Bool.eqb (bool_decide (is_Some (bh_previous_root_index handoff)))
           (bool_decide (is_Some (bh_previous_pending_index handoff)))
  || match bh_previous_root_index handoff with
     | Some index => out_of_roots expected_roots index
     | None => false
     end
  || out_of_roots expected_roots (bh_current_root_index handoff)
  || bool_decide (bh_previous_root_index handoff = Some (bh_current_root_index handoff))
  || match bh_previous_root_index handoff with
     | Some index => root_failed page index
     | None => false
     end
  || root_failed page (bh_current_root_index handoff)
  || negb (is_reference_len (bh_file_reference handoff))
  || (bh_usn handoff <? range_start_usn range)
  || past_proof page (bh_usn handoff).

(** The closure over the candidates of one root: positions are covered and strictly increase. *)
Fixpoint candidates_rejected (range : JournalRange) (page : SharedBackendJournalPage) (last : option Z)
    (candidates : list BackendJournalCandidate) : bool :=
  match candidates with
  | [] => false
  | candidate :: candidates =>
    (bc_usn candidate <? range_start_usn range)
    || past_proof page (bc_usn candidate)
    || match last with Some previous => bc_usn candidate <=? previous | None => false end
    || candidates_rejected range page (Some (bc_usn candidate)) candidates
  end.

Definition page_rejected (range : JournalRange) (page : SharedBackendJournalPage)
    (expected_roots : nat) : bool :=
  negb (Nat.eqb (length (sb_candidates_by_root page)) expected_roots)
  || negb (Nat.eqb (length (sb_rename_barriers_by_root page)) expected_roots)
  || existsb (λ barrier, match barrier with
                         | Some usn => (usn <? range_start_usn range) || (range_end_usn range <=? usn)
                         | None => false
                         end) (sb_rename_barriers_by_root page)
  || (MAX_SHARED_HANDOFFS <? zlen (sb_handoffs page))
  || negb (Bool.eqb (existsb is_ok (sb_candidates_by_root page)) (bool_decide (is_Some (sb_proof page))))
  || (negb (bool_decide (is_Some (sb_proof page))) && negb (is_empty (sb_handoffs page)))
  || existsb (handoff_rejected range page expected_roots) (sb_handoffs page)
  || existsb (λ pending, out_of_roots expected_roots (bpr_root_index pending)
                         || root_failed page (bpr_root_index pending)) (sb_pending_renames page)
  || existsb (λ result, match result with
                        | Ok candidates => candidates_rejected range page None candidates
                        | Err _ => false
                        end) (sb_candidates_by_root page).

Definition validate_shared_backend_page (before : ExistingJournalMetadata) (range : JournalRange)
    (page : SharedBackendJournalPage) (expected_roots : nat) : BrokerResult unit :=
  interval ← ok_or (JournalReadInterval_new (range_start_usn range) (range_end_usn range))
                   (BrokerFailure_new JournalDiscontinuous);
  fail_if (page_rejected range page expected_roots) (BrokerFailure_new JournalDiscontinuous);;
  match sb_proof page with
  | None => Ok ()
  | Some proof =>
    after ← map_err map_backend_failure (ExistingJournalMetadata_validate (jp_after proof));
    fail_if (negb (jm_journal_id after =? jm_journal_id before)
             || (range_start_usn range <? jm_first_usn after)
             || (jm_next_usn after <? range_end_usn range)
             || negb (JournalReadInterval_admits_coverage interval (jp_covered_until_usn proof)
                        (jp_is_complete proof)))
            (BrokerFailure_new JournalDiscontinuous)
  end.

(** ** Answers *)

Definition shared_failure_outcome (caller : CallerClaim) (root : SharedJournalRootRequest)
    (code : BrokerFailureCode) : SharedJournalRootOutcome :=
  {| out_binding := ResponseBinding_from_request caller (sr_root root);
     out_requested_start_usn := sr_start_usn root;
     out_covered_until_usn := None;
     out_is_complete := false;
     out_candidates := [];
     out_failure := Some (BrokerFailure_new code) |}.

(** [*barrier = Some(barrier.map_or(candidate, |current| current.min(candidate)))] *)
Definition lower_translation_barrier (barrier : option Z) (candidate : Z) : option Z :=
  Some match barrier with None => candidate | Some current => Z.min current candidate end.

(** [match (left, right) { (Some(l), Some(r)) => Some(l.min(r)), (l, r) => l.or(r) }] *)
Definition min_barrier (left right : option Z) : option Z :=
  match left, right with
  | Some l, Some r => Some (Z.min l r)
  | Some l, None => Some l
  | None, r => r
  end.

(** The running totals of [validate_shared_response_limits]. *)
Definition count_evidence (t : Totals) (amount : option Z) : BrokerResult Totals :=
  records ← ok_or (checked_add USIZE_MAX (total_records t) 1) (BrokerFailure_new EvidenceLimitExceeded);
  amount ← ok_or amount (BrokerFailure_new EvidenceLimitExceeded);
  evidence ← ok_or (checked_add USIZE_MAX (total_evidence t) amount)
                   (BrokerFailure_new EvidenceLimitExceeded);
  Ok {| total_records := records; total_evidence := evidence |}.

Definition validate_shared_response_limits (outcomes : list SharedJournalRootOutcome)
    (handoffs : list SharedJournalHandoff) (pending_renames : list SharedJournalPendingRename)
    (maximum_records maximum_evidence_bytes : Z) : BrokerResult unit :=
  t ← result_foldl count_evidence {| total_records := 0; total_evidence := 0 |}
        (BrokerCandidate_evidence_bytes <$> (outcomes ≫= out_candidates));
  t ← result_foldl count_evidence t (SharedJournalHandoff_evidence_bytes <$> handoffs);
  t ← result_foldl count_evidence t (SharedJournalPendingRename_evidence_bytes <$> pending_renames);
  fail_if ((maximum_records <? total_records t) || (maximum_evidence_bytes <? total_evidence t))
          (BrokerFailure_new EvidenceLimitExceeded).
