(* ===== verification/AnswerSize.v ===== *)
(** * Sizes of encoded answers

    The limits of the protocol against the limit of a frame: an answer other than a volume page always fits
    into a frame, however long its paths are, and so the client decodes what the broker encoded. *)

From S2P Require Import Prelude Text Framing WireBase WirePath Wire CodecPrim Codec Responses.
From S2P Require Import ActiveRegistry Contracts BrokerChecks.

(** ** Sizes *)

Lemma byte_vec_size m b : is_byte_vec m b → zlen (byte_vec_repr b) ≤ 4 + m.
Proof. intros []. unfold byte_vec_repr. len. Qed.
Lemma string_size s : zlen (string_repr s) = 4 + str_len s.
Proof. unfold string_repr, byte_vec_repr, str_len. len. Qed.

Lemma binding_size b : binding_fits b → zlen (binding_repr b) ≤ 800.
Proof.
  intros ([_ ?] & [? Hr _] & ? & [? Hv _]). unfold binding_repr, MAX_ROOT_ID_BYTES, MAX_VOLUME_ID_BYTES in *.
  rewrite !zlen_app, !string_size. len.
Qed.

(** UTF-8 takes at most three bytes where UTF-16 takes two. *)
Lemma scope_size s e :
  scope_fits s → CandidateScope_evidence_bytes s = Some e → 2 * zlen (scope_repr s) ≤ 10 + 3 * e.
Proof.
  destruct s as [|p]; cbn [CandidateScope_evidence_bytes scope_repr scope_fits]; intros Hf H.
  - injection H as <-. unfold zlen. cbn. lia.
  - destruct Hf as [Hs _ _]. apply checked_mul_Some in H as ->. pose proof (str_len_utf16 p Hs).
    change (zlen ([1] ++ string_repr p)) with (zlen (1 :: string_repr p)).
    rewrite zlen_cons, string_size. lia.
Qed.

Lemma candidate_size c e :
  candidate_fits c → BrokerCandidate_evidence_bytes c = Some e → 2 * zlen (candidate_repr c) ≤ 50 + 3 * e.
Proof.
  intros (Hs & Hp & Hr & _) H. unfold BrokerCandidate_evidence_bytes in H.
  apply bind_Some in H as (p & Hep & H). apply bind_Some in H as (s & Hes & H).
  apply bind_Some in H as (t & Ht%checked_add_Some & H%checked_add_Some). subst.
  pose proof (scope_size _ _ Hs Hes).
  assert (2 * zlen (option_repr (cand_previous_scope c)) ≤ 12 + 3 * p) as Ho.
  { destruct (cand_previous_scope c) as [q|]; cbn [option_repr from_option] in *.
    - rewrite zlen_cons. change (fmt_repr q) with (scope_repr q). pose proof (scope_size _ _ Hp Hep). lia.
    - injection Hep as <-. unfold zlen. cbn. lia. }
  unfold candidate_repr, byte_vec_repr. rewrite !zlen_app. len.
Qed.

Lemma candidates_size cs total total' :
  Forall candidate_fits cs → result_foldl add_evidence total cs = Ok total' →
  2 * zlen (cs ≫= candidate_repr) ≤ 50 * zlen cs + 3 * (total' - total).
Proof.
  intros Hf. revert total. induction Hf as [|c cs Hc _ IH]; intros total H; cbn [result_foldl] in H.
  - apply (inj Ok) in H as <-. unfold zlen. cbn. lia.
  - apply result_bind_Ok in H as (t & Ht & H). apply add_amount_Ok in Ht as (a & Ha & -> & _).
    apply IH in H. pose proof (candidate_size _ _ Hc Ha). cbn [mbind list_bind].
    rewrite zlen_app, zlen_cons. lia.
Qed.

Definition is_volume_page (r : BrokerResponse) : bool :=
  match r with RespReadVolume _ _ _ _ _ _ _ _ _ _ => true | _ => false end.

Lemma option_size {A : Type} {enc : A → W unit} {dec : R A} `{F : !Format enc dec} (o : option A) n :
  (∀ a, o = Some a → zlen (fmt_repr a) ≤ n) → 0 ≤ n → zlen (option_repr o) ≤ 1 + n.
Proof. destruct o; cbn; intros H Hn; rewrite ?zlen_cons; [specialize (H _ eq_refl); lia|len]. Qed.

(** The evidence of 1024 records of at most 512 KiB takes at most 812 KB. *)
Lemma response_size r :
  response_fits r → is_volume_page r = false → zlen (response_repr r) ≤ 1000 * 1000.
Proof.
  intros Hf Hv. destruct r; try done; cbn [response_fits response_repr] in *; destruct_and?;
    repeat match goal with
    | H : binding_fits _ |- _ => apply binding_size in H
    | H : wf_capability _ |- _ => destruct H as [_ ?]
    | H : is_array _ _ |- _ => destruct H as [_ ?]
    | H : is_wire_str _ _ |- _ => destruct H as [_ ? _]
    end; unfold counted_repr; rewrite ?zlen_app, ?string_size; unfold MAX_VOLUME_ID_BYTES in *.
  1,3,4,6: len.
  - assert (zlen (option_repr (dec := r_u64) journal_id) ≤ 9) by (apply (option_size journal_id 8); [intros; cbn; len|lia]).
    assert (∀ o, zlen (option_repr (dec := r_i64) o) ≤ 9) as Hi by (intros; apply (option_size _ 8); [intros; cbn; len|lia]).
    pose proof (Hi first_usn). pose proof (Hi next_usn). len.
  - match goal with H : is_ok (result_foldl _ _ _) = true |- _ => apply meter_evidence_bounded in H as (e & He & Hm) end.
    match goal with H : Forall candidate_fits _ |- _ => pose proof (candidates_size _ _ _ H He) end.
    unfold MAX_RECORDS, MAX_EVIDENCE_BYTES in *. len.
  - assert (zlen (option_repr (dec := r_array_16) client_instance) ≤ 17).
    { apply (option_size client_instance 16); [|lia]. intros a ->. match goal with H : from_option _ _ _ |- _ => destruct H as [_ Hl] end.
      cbn. lia. }
    len.
Qed.

(** What a client reads from a frame. *)
Definition client_reads (frame : bytes) (response : BrokerResponse) : Prop :=
  ∃ payload, Framing.decode_frame frame = Ok payload ∧ decode_response payload = Ok response.

(** A valid answer that fits a frame is encoded, and the client reads the answer back. *)
Lemma encode_answer_total r :
  validate_response r = Ok () → wf_response r → evidence_bounded r →
  (is_volume_page r = true → zlen (response_repr r) ≤ 1000 * 1000) →
  ∃ frame, encode_answer r = Ok frame ∧ client_reads frame r.
Proof.
  intros Hv Hw Hev Hpage. destruct (proj2 (response_valid_fits r Hv) (conj Hw Hev)) as [Hid Hfit].
  assert (zlen (response_repr r) ≤ 1000 * 1000) as Hsize
    by (destruct (is_volume_page r) eqn:E; [auto|by apply response_size]).
  pose proof (zlen_header (response_kind r) (BrokerResponse_request_id r)) as Hh.
  pose proof (proj2 (encode_response_fits r _ Hfit) (conj Hv eq_refl)) as He.
  set (payload := header_repr (response_kind r) (BrokerResponse_request_id r) ++ response_repr r) in *.
  assert (zlen payload = 20 + zlen (response_repr r)) as Hl by (unfold payload; rewrite zlen_app, Hh; done).
  pose proof (zlen_nonneg (response_repr r)).
  assert (Forall is_u8 payload) as H8.
  { apply u8_app; [apply u8_header|by apply u8_response]. }
  assert (is_u8_frame : Framing.is_frame (le_bytes 4 (zlen payload) ++ payload) payload).
  { split; [done|]. unfold Framing.MAX_FRAME_BYTES. lia. }
  exists (le_bytes 4 (zlen payload) ++ payload). unfold encode_answer. rewrite He. cbn [map_err mbind result_bind].
  rewrite (proj2 (Framing.encode_frame_spec payload _) is_u8_frame). split; [done|]. exists payload. split.
  - apply Framing.decode_frame_spec; [|done]. apply u8_app; [apply le_bytes_u8|done].
  - apply decode_response_complete; try done. unfold USIZE_MAX. lia.
Qed.
