(* ===== verification/Service.v ===== *)
(** * The broker service

    Models [BrokerService] and [RequestContext] of [journal_broker/service.rs]: decoding a request,
    claiming it in the registry of active requests, asking the authorizer and the backend, and answering.
    The authorizer, the backend and the clock are ports on a world [W]; other connections run on other
    threads, so every port may also change the registry, and [others] stands for what they do before this
    thread gets the registry's mutex. *)

From S2P Require Import Prelude Text Effects Framing WireBase WirePath Wire CodecPrim Requests Responses.
From S2P Require Import ActiveRegistry Contracts BrokerChecks.

(** ** Ports *)

Record RequestContext := {
  ctx_deadline : Z;
  ctx_key : ActiveRequestKey;
  ctx_bounded_steps : Z;
}.

(** A call that gets [&mut RequestContext]. *)
Abbreviation ContextPort W A := (RequestContext * W → A * (RequestContext * W)).

Class BrokerPorts (W : Type) := {
  active_registry : W → RegistryState;
  set_active_registry : RegistryState → W → W;
  others : W → W;
  request_iter : RequestIter;
  compare_string_ordinal : list Z → list Z → Z → Z;
  instant_now : W → Z * W;
  instant_max : Z;
  authorizer_reap_expired : Z → W → W;
  verify_claim : AuthenticatedConnection → CallerClaim → W → AuthResult CallerAuthorization * W;
  authorizer_register_root :
    CallerAuthorization → RootAuthorization → Z → ContextPort W (AuthResult RootCapability);
  authorize_registered_root :
    CallerAuthorization → RootAuthorization → RootCapability →
    ContextPort W (AuthResult AuthorizedPinnedRoot);
  filter_disclosable_candidates :
    AuthorizedPinnedRoot → list BackendJournalCandidate →
    ContextPort W (AuthResult (list BackendJournalCandidate));
  query_existing_journal : AuthorizedPinnedRoot → ContextPort W (BackendResult ExistingJournalState);
  read_existing_journal_page :
    AuthorizedPinnedRoot → ExistingJournalMetadata → JournalRange → BoundedJournalPageBuilder →
    ContextPort W (BackendResult JournalReadProof * BoundedJournalPageBuilder);
  read_existing_journal_volume_page :
    ExistingJournalVolumeRead → ContextPort W (BackendResult SharedBackendJournalPage);
}.

(** ** Time and the registry *)

(** Durations and instants are in nanoseconds. *)
Definition MILLISECOND : Z := 1000000.
Definition MAX_BACKEND_STEP : Z := 250 * MILLISECOND.

Section Service.
Context {W : Type} `{BrokerPorts W}.

(** A method of the registry: the mutex is taken, the state changed, the mutex released. *)
Definition on_registry {A : Type} (f : RegistryState → A * RegistryState) : W → A * W := λ w,
  let w := others w in
  let '(a, state) := f (active_registry w) in
  (a, set_active_registry state w).

(** [register] reads the clock while it holds the mutex. *)
Definition on_registry_timed {A : Type} (f : Z → RegistryState → A * RegistryState) : W → A * W := λ w,
  let w := others w in
  let state := active_registry w in
  let '(now, w) := instant_now w in
  let '(a, state) := f now state in
  (a, set_active_registry state w).

Definition map_result {E F A : Type} (f : E → F) (m : W → Result E A * W) : W → Result F A * W := λ w,
  let '(r, w) := m w in (map_err f r, w).

(** A call of a port with the request's context, and one without. *)
Definition ask {E F A : Type} (f : E → F) (m : ContextPort W (Result E A))
    : Run F (RequestContext * W) A := λ cw,
  let '(r, cw) := m cw in (map_err (λ e, Failed (f e)) r, cw).

Definition deadline_from_timeout (timeout_ms : Z) : Run BrokerFailure W Z :=
  now ← observe instant_now;
  let deadline := now + timeout_ms * MILLISECOND in
  check (if deadline <=? instant_max then Ok deadline else Err (BrokerFailure_new TimedOut)).

(** ** Contexts *)

Definition service_context (key : ActiveRequestKey) (deadline : Z) : RequestContext :=
  {| ctx_deadline := deadline; ctx_key := key; ctx_bounded_steps := 0 |}.

Definition with_context {E A : Type} (context : RequestContext) (m : Run E (RequestContext * W) A)
    : Run E W A := λ w,
  let '(r, (_, w)) := m (context, w) in (r, w).

Definition context_check : ContextPort W (BackendResult unit) := λ '(context, w),
  let '(now, w) := instant_now w in
  let w := others w in
  (match check_request (active_registry w) (ctx_key context) now with
   | Ok _ => Ok ()
   | Err RequestTimedOut => Err BackendTimedOut
   | Err _ => Err BackendCancelled
   end, (context, w)).

Definition context_remaining : ContextPort W Z := λ '(context, w),
  let '(now, w) := instant_now w in (saturating_sub (ctx_deadline context) now, (context, w)).

Definition context_bounded_step : ContextPort W (BackendResult Z) := λ cw,
  match context_check cw with
  | (Err e, cw) => (Err e, cw)
  | (Ok _, (context, w)) =>
    match checked_add USIZE_MAX (ctx_bounded_steps context) 1 with
    | None => (Err BackendTimedOut, (context, w))
    | Some steps =>
      let context := {| ctx_deadline := ctx_deadline context; ctx_key := ctx_key context;
                        ctx_bounded_steps := steps |} in
      let '(remaining, cw) := context_remaining (context, w) in
      (Ok (Z.min remaining MAX_BACKEND_STEP), cw)
    end
  end.

(** ** Claiming a request *)

Definition active_key (request_id : Z) (caller : CallerAuthorization) : ActiveRequestKey :=
  {| key_connection_id := ca_connection_id caller;
     key_connection_generation := ca_connection_generation caller;
     key_authentication_namespace := ca_opaque_namespace caller;
     key_client_instance := ca_client_instance caller;
     key_request_id := request_id |}.

Definition verify (authenticated : AuthenticatedConnection) (claim : CallerClaim)
    : Run BrokerFailure W CallerAuthorization :=
  call (map_result map_authorizer_failure (verify_claim authenticated claim)).

(** [self.active.operation(..).map_err(map_active_failure)?] *)
Definition claim {A : Type} (f : RegistryState → Result ActiveRequestError A * RegistryState)
    : Run BrokerFailure W A :=
  call (map_result map_active_failure (on_registry f)).

Definition claim_timed {A : Type}
    (f : Z → RegistryState → Result ActiveRequestError A * RegistryState) : Run BrokerFailure W A :=
  call (map_result map_active_failure (on_registry_timed f)).

Definition begin_request (request_id : Z) (caller : CallerAuthorization) (timeout_ms : Z)
    : Run BrokerFailure W (ActiveRequestKey * Z) :=
  deadline ← deadline_from_timeout timeout_ms;
  let key := active_key request_id caller in
  claim_timed (λ now state, begin_query request_iter state key deadline now);;
  mret (key, deadline).

(** The match on [self.active.finish(..)] that ends a query and a registration. *)
Definition finish_request (key : ActiveRequestKey) (result : BrokerResult BrokerResponse)
    : Run BrokerFailure W BrokerResponse :=
  now ← observe instant_now;
  terminal ← attempt (on_registry (λ state, finish state key now));
  check match terminal with
        | Ok TerminalCompleted => result
        | Ok TerminalCancelled => Err (BrokerFailure_new Cancelled)
        | Ok TerminalTimedOut => Err (BrokerFailure_new TimedOut)
        | Ok TerminalAborted | Err _ => Err (BrokerFailure_new RequestNotActive)
        end.

(** ** Requests *)

Definition query_journal_answer (request_id : Z) (request : QueryJournalRequest)
    (caller : CallerAuthorization) : Run BrokerFailure (RequestContext * W) BrokerResponse :=
  root ← ask map_authorizer_failure
           (authorize_registered_root caller (qj_root request) (qj_root_capability request));
  check (validate_authorized_root_facts compare_string_ordinal caller (qj_root request) root);;
  ask map_backend_failure context_bounded_step;;
  journal ← ask map_backend_failure (query_existing_journal root);
  ask map_backend_failure context_check;;
  let binding := ResponseBinding_from_request (qj_caller request) (qj_root request) in
  match journal with
  | JournalSupported metadata =>
    metadata ← check (map_err map_backend_failure (ExistingJournalMetadata_validate metadata));
    mret (RespJournal request_id binding Supported (Some (jm_journal_id metadata))
            (Some (jm_first_usn metadata)) (Some (jm_next_usn metadata)))
  | JournalLiveOnly => mret (RespJournal request_id binding LiveOnly None None None)
  end.

Definition query_journal (request_id : Z) (request : QueryJournalRequest)
    (authenticated : AuthenticatedConnection) : Run BrokerFailure W BrokerResponse :=
  caller ← verify authenticated (qj_caller request);
  '(key, deadline) ← begin_request request_id caller (qj_timeout_ms request);
  result ← capture (with_context (service_context key deadline)
                      (query_journal_answer request_id request caller));
  finish_request key result.

Definition register_root_answer (request_id : Z) (request : RegisterRootRequest)
    (caller : CallerAuthorization) : Run BrokerFailure (RequestContext * W) BrokerResponse :=
  root_capability ← ask map_authorizer_failure
                      (authorizer_register_root caller (rr_root request) (rr_client_root_handle request));
  check (map_err (λ _, BrokerFailure_new RootUnauthorized) (RootCapability_validate root_capability));;
  ask map_backend_failure context_check;;
  mret (RespRootRegistered request_id
          (ResponseBinding_from_request (rr_caller request) (rr_root request)) root_capability).

Definition register_root (request_id : Z) (request : RegisterRootRequest)
    (authenticated : AuthenticatedConnection) : Run BrokerFailure W BrokerResponse :=
  caller ← verify authenticated (rr_caller request);
  '(key, deadline) ← begin_request request_id caller (rr_timeout_ms request);
  result ← capture (with_context (service_context key deadline)
                      (register_root_answer request_id request caller));
  finish_request key result.

Definition accept_read_range (request_id : Z) (request : ReadJournalRangeRequest)
    (authenticated : AuthenticatedConnection) : Run BrokerFailure W BrokerResponse :=
  caller ← verify authenticated (rd_caller request);
  let key := active_key request_id caller in
  deadline ← deadline_from_timeout (rd_timeout_ms request);
  claim_timed (λ now state, accept_read request_iter state key deadline request now);;
  mret (RespReadRangeAccepted request_id
          (ResponseBinding_from_request (rd_caller request) (rd_root request))
          (rd_journal_id request) (rd_start_usn request) (rd_end_usn request)
          (rd_max_records request) (rd_max_evidence_bytes request)).

Definition accept_read_volume (request_id : Z) (request : ReadJournalVolumeRequest)
    (authenticated : AuthenticatedConnection) : Run BrokerFailure W BrokerResponse :=
  caller ← verify authenticated (rv_caller request);
  let key := active_key request_id caller in
  deadline ← deadline_from_timeout (rv_timeout_ms request);
  claim_timed (λ now state, accept_volume_read request_iter state key deadline request now);;
  first ← expect (head (rv_roots request));
  start ← expect (minimum_start_usn request);
  mret (RespReadVolumeAccepted request_id (caller_client_instance (rv_caller request))
          (root_volume_id (sr_root first)) (rv_journal_id request) start (rv_end_usn request)
          (zlen (rv_roots request) mod 256) (rv_max_records request) (rv_max_evidence_bytes request)).

Definition service_cancel (request_id : Z) (caller : CallerClaim) (target_request_id : Z)
    (authenticated : AuthenticatedConnection) : Run BrokerFailure W BrokerResponse :=
  caller ← verify authenticated caller;
  claim (λ state, begin_control state (active_key request_id caller));;
  cancelled ← attempt (on_registry (λ state, cancel state (active_key target_request_id caller)));
  (* the guard [_control] is dropped *)
  observe (on_registry (λ state, ((), finish_control state (ca_connection_id caller)
                                        (ca_connection_generation caller))));;
  check (map_err map_active_failure cancelled);;
  mret (RespCancelled request_id (ca_client_instance caller) target_request_id).

(** [.unwrap_or_else(|failure| failure_response(..))] *)
Definition or_failure (request_id : Z) (client_instance : bytes) (m : Run BrokerFailure W BrokerResponse)
    : Run BrokerFailure W BrokerResponse :=
  result ← capture m;
  mret match result with
       | Ok response => response
       | Err failure =>
         failure_response request_id (Some client_instance) (failure_failure_code failure)
       end.

Definition handle_request (request : BrokerRequest) (authenticated : AuthenticatedConnection)
    : Run BrokerFailure W BrokerResponse :=
  match request with
  | ReqRegisterRoot request_id request =>
    or_failure request_id (caller_client_instance (rr_caller request))
      (register_root request_id request authenticated)
  | ReqQueryJournal request_id request =>
    or_failure request_id (caller_client_instance (qj_caller request))
      (query_journal request_id request authenticated)
  | ReqReadRange request_id request =>
    or_failure request_id (caller_client_instance (rd_caller request))
      (accept_read_range request_id request authenticated)
  | ReqReadVolume request_id request =>
    or_failure request_id (caller_client_instance (rv_caller request))
      (accept_read_volume request_id request authenticated)
  | ReqCancel request_id caller target_request_id =>
    or_failure request_id (caller_client_instance caller)
      (service_cancel request_id caller target_request_id authenticated)
  end.

Definition handle_frame (frame : bytes) (authenticated : AuthenticatedConnection)
    : Run BrokerFailure W bytes :=
  response ← match Framing.decode_frame frame with
             | Ok payload =>
               match decode_request payload with
               | Ok request => handle_request request authenticated
               | Err error => mret (malformed_response payload error)
               end
             | Err _ => mret (failure_response 0 None MalformedFrame)
             end;
  check (encode_answer response).

(** ** Executing an accepted read of one root *)

Definition read_supported_journal (root : AuthorizedPinnedRoot)
    : Run BrokerFailure (RequestContext * W) ExistingJournalMetadata :=
  state ← ask map_backend_failure (query_existing_journal root);
  check match state with
        | JournalSupported metadata => map_err map_backend_failure (ExistingJournalMetadata_validate metadata)
        | JournalLiveOnly => Err (BrokerFailure_new JournalUnavailable)
        end.

(** [read_existing_journal_page(.., &mut builder, ..).map_err(map_backend_failure)?] *)
Definition fill_page (root : AuthorizedPinnedRoot) (before : ExistingJournalMetadata) (range : JournalRange)
    (builder : BoundedJournalPageBuilder)
    : Run BrokerFailure (RequestContext * W) (JournalReadProof * BoundedJournalPageBuilder) :=
  '(proof, builder) ← observe (read_existing_journal_page root before range builder);
  proof ← check (map_err map_backend_failure proof);
  mret (proof, builder).

Definition read_range_answer (request_id : Z) (request : ReadJournalRangeRequest)
    (caller : CallerAuthorization) : Run BrokerFailure (RequestContext * W) BrokerResponse :=
  root ← ask map_authorizer_failure
           (authorize_registered_root caller (rd_root request) (rd_root_capability request));
  check (validate_authorized_root_facts compare_string_ordinal caller (rd_root request) root);;
  ask map_backend_failure context_bounded_step;;
  before ← read_supported_journal root;
  check (validate_requested_range request before);;
  let range := {| range_start_usn := rd_start_usn request; range_end_usn := rd_end_usn request |} in
  let builder := BoundedJournalPageBuilder_new range
                   {| lim_max_records := rd_max_records request;
                      lim_max_evidence_bytes := rd_max_evidence_bytes request |} in
  ask map_backend_failure context_bounded_step;;
  '(proof, builder) ← fill_page root before range builder;
  ask map_backend_failure context_check;;
  page ← check (map_err map_backend_failure (BoundedJournalPageBuilder_finish builder before proof));
  disclosable ← ask map_authorizer_failure (filter_disclosable_candidates root (bp_candidates page));
  ask map_backend_failure context_check;;
  candidates ← check (constrain_candidates compare_string_ordinal root disclosable);
  mret (RespReadRange request_id (ResponseBinding_from_request (rd_caller request) (rd_root request))
          (jm_journal_id before) (rd_start_usn request) (rd_end_usn request) (rd_max_records request)
          (rd_max_evidence_bytes request) (jp_covered_until_usn (bp_proof page))
          (jp_is_complete (bp_proof page)) candidates).

Definition execute_read_range (request_id : Z) (key : ActiveRequestKey) (request : ReadJournalRangeRequest)
    (deadline : Z) (authenticated : AuthenticatedConnection) : Run BrokerFailure W BrokerResponse :=
  caller ← verify authenticated (rd_caller request);
  check (fail_if (negb (bool_decide (key = active_key request_id caller))) (BrokerFailure_new CallerRejected));;
  with_context (service_context key deadline) (read_range_answer request_id request caller).

(** ** Connections and terminals *)

Record TerminalFrameBatch := { tb_frames : list TerminalFrame; tb_must_close : bool }.

Definition service_open_connection (authenticated : AuthenticatedConnection) : Run BrokerFailure W unit :=
  claim (λ state, open_connection state (ac_connection_id authenticated)
                    (ac_connection_generation authenticated)).

Definition service_disconnect (authenticated : AuthenticatedConnection) : W → W := λ w,
  (on_registry (λ state, ((), disconnect state (ac_connection_id authenticated)
                                (ac_connection_generation authenticated))) w).2.

Definition reap_authorizer (now : Z) : W → W := authorizer_reap_expired now.

Definition connection_key (request_id : Z) (client_instance : bytes) (authenticated : AuthenticatedConnection)
    : ActiveRequestKey :=
  {| key_connection_id := ac_connection_id authenticated;
     key_connection_generation := ac_connection_generation authenticated;
     key_authentication_namespace := ac_opaque_token_binding authenticated;
     key_client_instance := client_instance;
     key_request_id := request_id |}.

Definition abort_accepted_read (request_id : Z) (client_instance : bytes)
    (authenticated : AuthenticatedConnection) : Run BrokerFailure W TerminalFrame :=
  now ← observe instant_now;
  terminal ← claim (λ state, abort_accepted state (connection_key request_id client_instance authenticated) now);
  check (encode_recorded_terminal terminal).

(** [.map(encode_recorded_terminal).collect::<Result<_, _>>()?] *)
Fixpoint encode_terminals (terminals : list RecordedTerminal) : BrokerResult (list TerminalFrame) :=
  match terminals with
  | [] => Ok []
  | terminal :: terminals =>
    frame ← encode_recorded_terminal terminal;
    frames ← encode_terminals terminals;
    Ok (frame :: frames)
  end.

Definition reap_accepted_reads (authenticated : AuthenticatedConnection)
    : Run BrokerFailure W TerminalFrameBatch :=
  now ← observe instant_now;
  drain ← claim (λ state, reap_accepted request_iter state (ac_connection_id authenticated)
                            (ac_connection_generation authenticated) now);
  frames ← check (encode_terminals (drain_terminals drain));
  mret {| tb_frames := frames; tb_must_close := drain_must_close drain |}.

End Service.
