(* ===== verification/ServiceVolume.v ===== *)
(** * Reading the journal of a volume for several roots

    Models [execute_read_volume] of [journal_broker/service.rs], the translation of cross-root renames it
    calls, and [execute_accepted_read_frame].  One backend page serves all admitted roots; a root that
    fails on the way gets a failure outcome, and the renames it takes part in lower the position up to
    which the other roots are covered. *)

From S2P Require Import Prelude Text Effects Framing WireBase WirePath Wire CodecPrim Responses ActiveRegistry.
From S2P Require Import Contracts BrokerChecks Service.

(** [(usize, BrokerFailureCode)]: the index of an admitted root and why it failed. *)
Abbreviation RootFailures := (list (nat * BrokerFailureCode)).
Abbreviation AdmittedRoots := (list (nat * AuthorizedPinnedRoot)).
Abbreviation Outcomes := (list (option SharedJournalRootOutcome)).

Record PendingTranslation := {
  pt_pending_renames : list SharedJournalPendingRename;
  pt_failures : RootFailures;
  pt_barrier : option Z;
}.

Record HandoffTranslation := {
  ht_handoffs : list SharedJournalHandoff;
  ht_pending_renames : list SharedJournalPendingRename;
  ht_failures : RootFailures;
  ht_barrier : option Z;
}.

Definition pending_failure (st : PendingTranslation) (index : nat) (code : BrokerFailureCode)
    (barrier : Z) : PendingTranslation :=
  {| pt_pending_renames := pt_pending_renames st;
     pt_failures := pt_failures st ++ [(index, code)];
     pt_barrier := lower_translation_barrier (pt_barrier st) barrier |}.

(** [if let Some(index) = previous_root_index { failures.push((index, code)); }] and the barrier *)
Definition source_failure (st : HandoffTranslation) (index : option nat) (code : BrokerFailureCode)
    (barrier : Z) : HandoffTranslation :=
  {| ht_handoffs := ht_handoffs st;
     ht_pending_renames := ht_pending_renames st;
     ht_failures := ht_failures st ++ match index with Some index => [(index, code)] | None => [] end;
     ht_barrier := lower_translation_barrier (ht_barrier st) barrier |}.

Definition preserve_verified_handoff_source (st : HandoffTranslation) (previous_binding : ResponseBinding)
    (previous_carry_id : option str) (handoff : BackendJournalHandoff) (previous_relative_path : str)
    : HandoffTranslation :=
  {| ht_handoffs := ht_handoffs st;
     ht_pending_renames :=
       ht_pending_renames st ++
       match previous_carry_id with
       | None => [{| pr_binding := previous_binding;
                     pr_file_reference := bh_file_reference handoff;
                     pr_old_usn := bh_old_usn handoff;
                     pr_previous_relative_path := previous_relative_path;
                     pr_is_directory := bh_is_directory handoff |}]
       | Some _ => []
       end;
     ht_failures := ht_failures st;
     ht_barrier := lower_translation_barrier (ht_barrier st) (bh_usn handoff) |}.

(** What stopped a path from being told: the candidate was not built, or not disclosed. *)
Inductive Undisclosed := NotCopied (code : BrokerFailureCode) | NotDisclosed (code : BrokerFailureCode).

Definition undisclosed_code (u : Undisclosed) : BrokerFailureCode :=
  match u with NotCopied code | NotDisclosed code => code end.

(** [let [BrokerCandidate { scope: CandidateScope::RelativePath(path), .. }] = candidates] *)
Definition only_relative_path (candidates : list BrokerCandidate) : option str :=
  match candidates with
  | [candidate] => match cand_scope candidate with ScopeRelativePath path => Some path | ScopeRoot => None end
  | _ => None
  end.

Section Volume.
Context {W : Type} `{BrokerPorts W}.
Abbreviation Answer := (Run BrokerFailure (RequestContext * W)).

(** [copy_from_bounded], [filter_disclosable_candidates], [constrain_candidates] and the slice pattern, as
    every path of a rename is disclosed. *)
Definition disclose_path (root : AuthorizedPinnedRoot) (candidate : BackendResult BackendJournalCandidate)
    : Answer (Result Undisclosed str) :=
  match candidate with
  | Err error => mret (Err (NotCopied (failure_failure_code (map_backend_failure error))))
  | Ok candidate =>
    filtered ← attempt (filter_disclosable_candidates root [candidate]);
    mret match filtered with
         | Err error => Err (NotDisclosed (failure_failure_code (map_authorizer_failure error)))
         | Ok filtered =>
           match constrain_candidates compare_string_ordinal root filtered with
           | Err failure => Err (NotDisclosed (failure_failure_code failure))
           | Ok constrained => ok_or (only_relative_path constrained) (NotDisclosed RecordUnsupported)
           end
         end
  end.

Definition unsupported {A : Type} (o : option A) : Answer A :=
  check (ok_or o (BrokerFailure_new RecordUnsupported)).

(** ** Renames that are not finished *)

(** One iteration of [translate_shared_pending_renames]. *)
Definition translate_pending (caller : CallerClaim) (request : ReadJournalVolumeRequest)
    (admitted : AdmittedRoots) (covered_until_usn : Z) (st : PendingTranslation)
    (pending : BackendPendingRename) : Answer PendingTranslation :=
  '(request_index, root) ← unsupported (admitted !! bpr_root_index pending);
  minimum ← expect (minimum_start_usn request);
  requested ← expect (rv_roots request !! request_index);
  let old_usn := bpr_old_usn pending in
  let failure_barrier :=
    if (minimum <=? old_usn) && (old_usn <? covered_until_usn) then old_usn else minimum in
  if negb (is_reference_len (bpr_file_reference pending))
     || (old_usn <? sr_start_usn requested)
     || (covered_until_usn <=? old_usn)
  then mret (pending_failure st (bpr_root_index pending) RecordUnsupported failure_barrier)
  else
    disclosed ← disclose_path root
                  (BackendJournalCandidate_copy_from_bounded (root_volume_id (sr_root requested))
                     (bpr_previous_absolute_path_utf16 pending) None (bpr_file_reference pending) old_usn
                     (isolated_candidate_kind (bpr_is_directory pending)) (bpr_is_directory pending));
    mret match disclosed with
         | Err (NotCopied code) => pending_failure st (bpr_root_index pending) code failure_barrier
         | Err (NotDisclosed code) => pending_failure st (bpr_root_index pending) code old_usn
         | Ok previous_relative_path =>
           {| pt_pending_renames :=
                pt_pending_renames st ++
                [{| pr_binding := ResponseBinding_from_request caller (sr_root requested);
                    pr_file_reference := bpr_file_reference pending;
                    pr_old_usn := old_usn;
                    pr_previous_relative_path := previous_relative_path;
                    pr_is_directory := bpr_is_directory pending |}];
              pt_failures := pt_failures st;
              pt_barrier := pt_barrier st |}
         end.

Definition translate_shared_pending_renames (caller : CallerClaim) (request : ReadJournalVolumeRequest)
    (admitted : AdmittedRoots) (backend_pending : list BackendPendingRename) (covered_until_usn : Z)
    : Answer PendingTranslation :=
  run_foldl (translate_pending caller request admitted covered_until_usn)
    {| pt_pending_renames := []; pt_failures := []; pt_barrier := None |} backend_pending.

(** ** Renames from one root to another *)

(** The source of a hand-off: its root, binding, carry and the index of its admitted root. *)
Record HandoffSource := {
  hs_root : AuthorizedPinnedRoot;
  hs_binding : ResponseBinding;
  hs_carry_id : option str;
  hs_root_index : option nat;
}.

Definition handoff_source (caller : CallerClaim) (request : ReadJournalVolumeRequest) (admitted : AdmittedRoots)
    (pending_renames : list BackendPendingRenameCarry) (handoff : BackendJournalHandoff)
    : Answer HandoffSource :=
  match bh_previous_root_index handoff, bh_previous_pending_index handoff with
  | Some previous_root_index, None =>
    '(previous_request_index, previous_root) ← unsupported (admitted !! previous_root_index);
    requested ← expect (rv_roots request !! previous_request_index);
    mret {| hs_root := previous_root;
            hs_binding := ResponseBinding_from_request caller (sr_root requested);
            hs_carry_id := None;
            hs_root_index := Some previous_root_index |}
  | None, Some previous_pending_index =>
    pending ← unsupported (pending_renames !! previous_pending_index);
    previous_root ← unsupported (bpc_root pending);
    requested ← unsupported (rv_pending_renames request !! previous_pending_index);
    check (fail_if (negb (bool_decide (sp_file_reference requested = bh_file_reference handoff))
                    || negb (Bool.eqb (sp_is_directory requested) (bh_is_directory handoff))
                    || negb (sp_old_usn requested =? bh_old_usn handoff))
                   (BrokerFailure_new RecordUnsupported));;
    mret {| hs_root := previous_root;
            hs_binding := ResponseBinding_from_request caller (sp_root requested);
            hs_carry_id := Some (sp_carry_id requested);
            hs_root_index := bpc_read_root_index pending |}
  | _, _ => check (Err (BrokerFailure_new RecordUnsupported))
  end.

(** The disclosed name the source must still have when it was carried over from an earlier page. *)
Definition carried_name_matches (request : ReadJournalVolumeRequest) (handoff : BackendJournalHandoff)
    (previous_relative_path : str) : Answer bool :=
  match bh_previous_pending_index handoff with
  | None => mret true
  | Some previous_pending_index =>
    requested ← expect (rv_pending_renames request !! previous_pending_index);
    mret (bool_decide (sp_previous_relative_path requested = previous_relative_path))
  end.

Definition previous_request_start (request : ReadJournalVolumeRequest) (admitted : AdmittedRoots)
    (handoff : BackendJournalHandoff) : Answer Z :=
  match bh_previous_root_index handoff with
  | None => mret (bh_old_usn handoff)
  | Some index =>
    '(request_index, _) ← expect (admitted !! index);
    requested ← expect (rv_roots request !! request_index);
    mret (sr_start_usn requested)
  end.

(** One iteration of [translate_shared_handoffs]. *)
Definition translate_handoff (caller : CallerClaim) (request : ReadJournalVolumeRequest)
    (admitted : AdmittedRoots) (pending_renames : list BackendPendingRenameCarry) (covered_until_usn : Z)
    (st : HandoffTranslation) (handoff : BackendJournalHandoff) : Answer HandoffTranslation :=
  let current_root_index := bh_current_root_index handoff in
  '(current_request_index, current_root) ← unsupported (admitted !! current_root_index);
  source ← handoff_source caller request admitted pending_renames handoff;
  minimum ← expect (minimum_start_usn request);
  let old_usn := bh_old_usn handoff in
  let safe_old_barrier :=
    if (minimum <=? old_usn) && (old_usn <? bh_usn handoff) && (old_usn <? covered_until_usn)
    then old_usn else minimum in
  previous_start ← previous_request_start request admitted handoff;
  current_requested ← expect (rv_roots request !! current_request_index);
  if negb (is_reference_len (bh_file_reference handoff))
     || (old_usn <? previous_start)
     || (old_usn <? 0)
     || (bh_usn handoff <=? old_usn)
     || (bh_usn handoff <? sr_start_usn current_requested)
     || (covered_until_usn <=? bh_usn handoff)
  then
    mret {| ht_handoffs := ht_handoffs st;
            ht_pending_renames := ht_pending_renames st;
            ht_failures :=
              ht_failures st
              ++ match hs_root_index source with Some index => [(index, RecordUnsupported)] | None => [] end
              ++ [(current_root_index, RecordUnsupported)];
            ht_barrier := lower_translation_barrier (ht_barrier st) safe_old_barrier |}
  else
    let kind := isolated_candidate_kind (bh_is_directory handoff) in
    previous ← disclose_path (hs_root source)
                 (BackendJournalCandidate_copy_from_bounded (pb_volume_id (ap_pinned_root (hs_root source)))
                    (bh_previous_absolute_path_utf16 handoff) None (bh_file_reference handoff) old_usn
                    kind (bh_is_directory handoff));
    match previous with
    | Err u => mret (source_failure st (hs_root_index source) (undisclosed_code u) safe_old_barrier)
    | Ok previous_relative_path =>
      same_name ← carried_name_matches request handoff previous_relative_path;
      if negb same_name
      then mret (source_failure st (hs_root_index source) RecordUnsupported safe_old_barrier)
      else
        current ← disclose_path current_root
                    (BackendJournalCandidate_copy_from_bounded (root_volume_id (sr_root current_requested))
                       (bh_current_absolute_path_utf16 handoff) None (bh_file_reference handoff)
                       (bh_usn handoff) kind (bh_is_directory handoff));
        match current with
        | Err u =>
          mret (preserve_verified_handoff_source
                  {| ht_handoffs := ht_handoffs st;
                     ht_pending_renames := ht_pending_renames st;
                     ht_failures := ht_failures st ++ [(current_root_index, undisclosed_code u)];
                     ht_barrier := ht_barrier st |}
                  (hs_binding source) (hs_carry_id source) handoff previous_relative_path)
        | Ok current_relative_path =>
          mret {| ht_handoffs :=
                    ht_handoffs st ++
                    [{| ho_previous_binding := hs_binding source;
                        ho_current_binding := ResponseBinding_from_request caller (sr_root current_requested);
                        ho_file_reference := bh_file_reference handoff;
                        ho_usn := bh_usn handoff;
                        ho_previous_relative_path := previous_relative_path;
                        ho_current_relative_path := current_relative_path;
                        ho_is_directory := bh_is_directory handoff;
                        ho_previous_carry_id := hs_carry_id source |}];
                  ht_pending_renames := ht_pending_renames st;
                  ht_failures := ht_failures st;
                  ht_barrier := ht_barrier st |}
        end
    end.

Definition translate_shared_handoffs (caller : CallerClaim) (request : ReadJournalVolumeRequest)
    (admitted : AdmittedRoots) (pending_renames : list BackendPendingRenameCarry)
    (backend_handoffs : list BackendJournalHandoff) (covered_until_usn : Z) : Answer HandoffTranslation :=
  run_foldl (translate_handoff caller request admitted pending_renames covered_until_usn)
    {| ht_handoffs := []; ht_pending_renames := []; ht_failures := []; ht_barrier := None |}
    backend_handoffs.

(** ** Admitting the roots *)

Record Admission := {
  ad_outcomes : Outcomes;
  ad_admitted : AdmittedRoots;
  ad_before : option ExistingJournalMetadata;
}.

(** [outcomes[index] = Some(shared_failure_outcome(&request.caller, requested, code))] *)
Definition set_failure (request : ReadJournalVolumeRequest) (requested : SharedJournalRootRequest)
    (index : nat) (code : BrokerFailureCode) (outcomes : Outcomes) : Outcomes :=
  <[index := Some (shared_failure_outcome (rv_caller request) requested code)]> outcomes.

Definition refuse_root (request : ReadJournalVolumeRequest) (requested : SharedJournalRootRequest)
    (index : nat) (code : BrokerFailureCode) (st : Admission) : Admission :=
  {| ad_outcomes := set_failure request requested index code (ad_outcomes st);
     ad_admitted := ad_admitted st; ad_before := ad_before st |}.

(** One iteration of the first loop of [execute_read_volume]. *)
Definition admit_root (request : ReadJournalVolumeRequest) (caller : CallerAuthorization) (st : Admission)
    (indexed : nat * SharedJournalRootRequest) : Answer Admission :=
  let '(index, requested) := indexed in
  ask map_backend_failure context_check;;
  authorized ← attempt (authorize_registered_root caller (sr_root requested) (sr_root_capability requested));
  match authorized with
  | Err error =>
    mret (refuse_root request requested index (failure_failure_code (map_authorizer_failure error)) st)
  | Ok root =>
    match validate_authorized_root_facts compare_string_ordinal caller (sr_root requested) root with
    | Err failure => mret (refuse_root request requested index (failure_failure_code failure) st)
    | Ok _ =>
      ask map_backend_failure context_bounded_step;;
      journal ← attempt (query_existing_journal root);
      match journal with
      | Err error =>
        mret (refuse_root request requested index (failure_failure_code (map_backend_failure error)) st)
      | Ok JournalLiveOnly => mret (refuse_root request requested index JournalUnavailable st)
      | Ok (JournalSupported metadata) =>
        match ExistingJournalMetadata_validate metadata with
        | Err error =>
          mret (refuse_root request requested index (failure_failure_code (map_backend_failure error)) st)
        | Ok metadata =>
          if negb (jm_journal_id metadata =? rv_journal_id request)
             || (sr_start_usn requested <? jm_first_usn metadata)
             || (jm_next_usn metadata <? rv_end_usn request)
          then mret (refuse_root request requested index JournalDiscontinuous st)
          else
            mret {| ad_outcomes := <[index := None]> (ad_outcomes st);
                    ad_admitted := ad_admitted st ++ [(index, root)];
                    ad_before := match ad_before st with Some before => Some before | None => Some metadata end |}
        end
      end
    end
  end.

Definition enumerate {A : Type} (l : list A) : list (nat * A) := zip (seq 0 (length l)) l.

Definition admit_roots (request : ReadJournalVolumeRequest) (caller : CallerAuthorization)
    : Answer Admission :=
  run_foldl (admit_root request caller)
    {| ad_outcomes := (λ root, Some (shared_failure_outcome (rv_caller request) root Internal))
                        <$> rv_roots request;
       ad_admitted := []; ad_before := None |}
    (enumerate (rv_roots request)).

(** ** Renames carried over from earlier pages *)

(** [admitted.iter().position(|(i, _)| request.roots[*i].root == pending.root)] *)
Definition declared_admitted_index (request : ReadJournalVolumeRequest) (admitted : AdmittedRoots)
    (root : RootAuthorization) : option nat :=
  fst <$> list_find (λ '(request_index, _), sr_root <$> rv_roots request !! request_index = Some root)
            admitted.

(** One iteration of the loop over [request.pending_renames]. *)
Definition carry_pending (request : ReadJournalVolumeRequest) (caller : CallerAuthorization)
    (admitted : AdmittedRoots) (st : list BackendPendingRenameCarry * RootFailures)
    (pending : SharedJournalPendingRenameRequest)
    : Answer (list BackendPendingRenameCarry * RootFailures) :=
  let '(carries, failures) := st in
  let index := declared_admitted_index request admitted (sp_root pending) in
  let report code := match index with Some index => failures ++ [(index, code)] | None => failures end in
  '(root, failures) ←
    match sp_root_capability pending with
    | None => mret (None, failures)
    | Some capability =>
      authorized ← attempt (authorize_registered_root caller (sp_root pending) capability);
      mret match authorized with
           | Err error => (None, report (failure_failure_code (map_authorizer_failure error)))
           | Ok root =>
             match validate_authorized_root_facts compare_string_ordinal caller (sp_root pending) root with
             | Ok _ => (Some root, failures)
             | Err failure => (None, report (failure_failure_code failure))
             end
           end
    end;
  mret (carries ++ [{| bpc_root := root;
                       bpc_read_root_index := index;
                       bpc_file_reference := sp_file_reference pending;
                       bpc_old_usn := sp_old_usn pending;
                       bpc_previous_relative_path := sp_previous_relative_path pending;
                       bpc_is_directory := sp_is_directory pending |}], failures).

(** ** Answering each root *)

(** The outcomes so far and [failed_admitted]. *)
Record Answers := { an_outcomes : Outcomes; an_failed : gset nat }.

(** [failed_admitted.insert(..); outcomes[..] = Some(shared_failure_outcome(..))] *)
Definition fail_answer (request : ReadJournalVolumeRequest) (requested : SharedJournalRootRequest)
    (admitted_index request_index : nat) (code : BrokerFailureCode) (st : Answers) : Answers :=
  {| an_outcomes := set_failure request requested request_index code (an_outcomes st);
     an_failed := {[admitted_index]} ∪ an_failed st |}.

(** The loops over failures found elsewhere. *)
Definition fail_admitted (request : ReadJournalVolumeRequest) (admitted : AdmittedRoots) (st : Answers)
    (failure : nat * BrokerFailureCode) : Answer Answers :=
  let '(admitted_index, code) := failure in
  '(request_index, _) ← expect (admitted !! admitted_index);
  requested ← expect (rv_roots request !! request_index);
  mret (fail_answer request requested admitted_index request_index code st).

(** [JournalReadInterval::new(start, end).is_none_or(|i| !i.admits_coverage(..))] *)
Definition coverage_refused (start_usn end_usn : Z) (proof : JournalReadProof) : bool :=
  is_none_or (λ interval, negb (JournalReadInterval_admits_coverage interval
                                  (jp_covered_until_usn proof) (jp_is_complete proof)))
    (JournalReadInterval_new start_usn end_usn).

(** One iteration of the loop over the candidates of the admitted roots. *)
Definition answer_root (request : ReadJournalVolumeRequest) (proof : option JournalReadProof)
    (st : Answers)
    (entry : nat * (nat * AuthorizedPinnedRoot * BackendResult (list BackendJournalCandidate)))
    : Answer Answers :=
  let '(admitted_index, (index, root, candidates)) := entry in
  if bool_decide (admitted_index ∈ an_failed st) then mret st
  else
    requested ← expect (rv_roots request !! index);
    let failed code := mret (fail_answer request requested admitted_index index code st) in
    match candidates with
    | Err error => failed (failure_failure_code (map_backend_failure error))
    | Ok candidates =>
      proof ← check (ok_or proof (BrokerFailure_new Internal));
      if coverage_refused (sr_start_usn requested) (rv_end_usn request) proof
      then failed EvidenceLimitExceeded
      else
        let candidates := filter (λ candidate, sr_start_usn requested ≤ bc_usn candidate) candidates in
        disclosable ← attempt (filter_disclosable_candidates root candidates);
        match disclosable with
        | Err error => failed (failure_failure_code (map_authorizer_failure error))
        | Ok disclosable =>
          match constrain_candidates compare_string_ordinal root disclosable with
          | Err failure => failed (failure_failure_code failure)
          | Ok candidates =>
            mret {| an_outcomes :=
                      <[index := Some
                          {| out_binding := ResponseBinding_from_request (rv_caller request) (sr_root requested);
                             out_requested_start_usn := sr_start_usn requested;
                             out_covered_until_usn := Some (jp_covered_until_usn proof);
                             out_is_complete := jp_is_complete proof;
                             out_candidates := candidates;
                             out_failure := None |}]> (an_outcomes st);
                    an_failed := an_failed st |}
          end
        end
    end.

(** ** The barrier *)

(** [failed_admitted.iter().filter_map(|index| rename_barriers_by_root[*index]).min()] *)
Definition failed_root_barrier (failed : gset nat) (barriers : list (option Z)) : Answer (option Z) :=
  barriers ← expect (mapM (λ index, barriers !! index) (elements failed));
  mret (foldl min_barrier None barriers).

(** One iteration of the loop that holds the healthy roots below the barrier. *)
Definition hold_below (request : ReadJournalVolumeRequest) (barrier : Z) (failed : gset nat)
    (outcomes : Outcomes) (entry : nat * (nat * AuthorizedPinnedRoot)) : Answer Outcomes :=
  let '(admitted_index, (request_index, _)) := entry in
  if bool_decide (admitted_index ∈ failed) then mret outcomes
  else
    requested ← expect (rv_roots request !! request_index);
    outcome ← check (ok_or (mjoin (outcomes !! request_index)) (BrokerFailure_new Internal));
    mret (if barrier <=? sr_start_usn requested
          then set_failure request requested request_index EvidenceLimitExceeded outcomes
          else <[request_index := Some
                   {| out_binding := out_binding outcome;
                      out_requested_start_usn := out_requested_start_usn outcome;
                      out_covered_until_usn :=
                        Some match out_covered_until_usn outcome with
                             | None => barrier
                             | Some covered => Z.min covered barrier
                             end;
                      out_is_complete := false;
                      out_candidates := filter (λ candidate, cand_usn candidate < barrier)
                                          (out_candidates outcome);
                      out_failure := out_failure outcome |}]> outcomes).

(** ** The shared read *)

(** What the block [if !admitted.is_empty() { .. }] leaves behind. *)
Record SharedAnswer := {
  sa_outcomes : Outcomes;
  sa_handoffs : list SharedJournalHandoff;
  sa_pending_renames : list SharedJournalPendingRename;
}.

(** The block [if let Some(proof) = shared.proof { .. }]. *)
Definition translate_page (request : ReadJournalVolumeRequest) (admitted : AdmittedRoots)
    (carries : list BackendPendingRenameCarry) (shared : SharedBackendJournalPage) (st : Answers)
    : Answer (Answers * SharedAnswer * option Z) :=
  match sb_proof shared with
  | None => mret (st, {| sa_outcomes := an_outcomes st; sa_handoffs := []; sa_pending_renames := [] |}, None)
  | Some proof =>
    let covered := jp_covered_until_usn proof in
    h ← translate_shared_handoffs (rv_caller request) request admitted carries (sb_handoffs shared) covered;
    st ← run_foldl (fail_admitted request admitted) st (ht_failures h);
    p ← translate_shared_pending_renames (rv_caller request) request admitted
          (sb_pending_renames shared) covered;
    st ← run_foldl (fail_admitted request admitted) st (pt_failures p);
    mret (st, {| sa_outcomes := an_outcomes st; sa_handoffs := ht_handoffs h;
                 sa_pending_renames := ht_pending_renames h ++ pt_pending_renames p |},
          min_barrier (ht_barrier h) (pt_barrier p))
  end.

Definition apply_barrier (request : ReadJournalVolumeRequest) (admitted : AdmittedRoots) (barrier : option Z)
    (failed : gset nat) (answer : SharedAnswer) : Answer SharedAnswer :=
  match barrier with
  | None => mret answer
  | Some barrier =>
    outcomes ← run_foldl (hold_below request barrier failed) (sa_outcomes answer) (enumerate admitted);
    mret {| sa_outcomes := outcomes;
            sa_handoffs := filter (λ handoff, ho_usn handoff < barrier) (sa_handoffs answer);
            sa_pending_renames :=
              filter (λ pending, pr_old_usn pending < barrier) (sa_pending_renames answer) |}
  end.

(** The request a backend gets, and the failures found while it was assembled. *)
Definition shared_read (request : ReadJournalVolumeRequest) (caller : CallerAuthorization)
    (st : Admission) : Answer (ExistingJournalVolumeRead * RootFailures) :=
  let admitted := ad_admitted st in
  metadata ← check (ok_or (ad_before st) (BrokerFailure_new Internal));
  root_start_usns ← expect (mapM (λ '(index, _), sr_start_usn <$> rv_roots request !! index) admitted);
  start_usn ← check (ok_or match root_start_usns with
                           | [] => None
                           | usn :: usns => Some (foldl Z.min usn usns)
                           end (BrokerFailure_new Internal));
  '(carries, failures) ← run_foldl (carry_pending request caller admitted) ([], [])
                           (rv_pending_renames request);
  mret ({| ev_roots := admitted.*2;
           ev_root_start_usns := root_start_usns;
           ev_pending_renames := carries;
           ev_journal := metadata;
           ev_range := {| range_start_usn := start_usn; range_end_usn := rv_end_usn request |};
           ev_limits := {| lim_max_records := rv_max_records request;
                           lim_max_evidence_bytes := rv_max_evidence_bytes request |} |}, failures).

Definition read_admitted (request : ReadJournalVolumeRequest) (caller : CallerAuthorization)
    (st : Admission) : Answer SharedAnswer :=
  let admitted := ad_admitted st in
  '(read, authorization_failures) ← shared_read request caller st;
  ask map_backend_failure context_bounded_step;;
  shared ← ask map_backend_failure (read_existing_journal_volume_page read);
  check (validate_shared_backend_page (ev_journal read) (ev_range read) shared (length admitted));;
  answers ← run_foldl (fail_admitted request admitted)
              {| an_outcomes := ad_outcomes st; an_failed := ∅ |} authorization_failures;
  answers ← run_foldl (answer_root request (sb_proof shared)) answers
              (enumerate (zip admitted (sb_candidates_by_root shared)));
  '(answers, answer, translation_barrier) ←
    translate_page request admitted (ev_pending_renames read) shared answers;
  root_barrier ← failed_root_barrier (an_failed answers) (sb_rename_barriers_by_root shared);
  apply_barrier request admitted (min_barrier root_barrier translation_barrier) (an_failed answers) answer.

Definition read_volume_answer (request_id : Z) (request : ReadJournalVolumeRequest)
    (caller : CallerAuthorization) : Answer BrokerResponse :=
  st ← admit_roots request caller;
  answer ← (if is_empty (ad_admitted st)
            then mret {| sa_outcomes := ad_outcomes st; sa_handoffs := []; sa_pending_renames := [] |}
            else read_admitted request caller st);
  outcomes ← check (ok_or (mapM id (sa_outcomes answer)) (BrokerFailure_new Internal));
  check (validate_shared_response_limits outcomes (sa_handoffs answer) (sa_pending_renames answer)
           (rv_max_records request) (rv_max_evidence_bytes request));;
  ask map_backend_failure context_check;;
  first ← expect (head (rv_roots request));
  mret (RespReadVolume request_id (caller_client_instance (rv_caller request))
          (root_volume_id (sr_root first)) (rv_journal_id request) (rv_end_usn request)
          (rv_max_records request) (rv_max_evidence_bytes request) outcomes (sa_handoffs answer)
          (sa_pending_renames answer)).

Definition execute_read_volume (request_id : Z) (key : ActiveRequestKey) (request : ReadJournalVolumeRequest)
    (deadline : Z) (authenticated : AuthenticatedConnection) : Run BrokerFailure W BrokerResponse :=
  caller ← verify authenticated (rv_caller request);
  check (fail_if (negb (bool_decide (key = active_key request_id caller))) (BrokerFailure_new CallerRejected));;
  with_context (service_context key deadline) (read_volume_answer request_id request caller).

(** ** Accepted reads *)

Definition execute_accepted_read_frame (request_id : Z) (client_instance : bytes)
    (authenticated : AuthenticatedConnection) : Run BrokerFailure W bytes :=
  let key := connection_key request_id client_instance authenticated in
  let failed code := failure_response request_id (Some client_instance) code in
  now ← observe instant_now;
  accepted ← attempt (on_registry (λ state, begin_execution state key now));
  response ← match accepted with
             | Err error => mret (failed (failure_failure_code (map_active_failure error)))
             | Ok accepted =>
               result ← capture match ar_request accepted with
                                | ReadRoot request =>
                                  execute_read_range request_id key request (ar_deadline accepted) authenticated
                                | ReadVolume request =>
                                  execute_read_volume request_id key request (ar_deadline accepted) authenticated
                                end;
               now ← observe instant_now;
               terminal ← attempt (on_registry (λ state, finish state key now));
               mret match terminal with
                    | Ok TerminalCancelled => failed Cancelled
                    | Ok TerminalTimedOut => failed TimedOut
                    | Ok TerminalCompleted =>
                      match result with
                      | Ok response => response
                      | Err failure => failed (failure_failure_code failure)
                      end
                    | Ok TerminalAborted | Err _ => failed RequestNotActive
                    end
             end;
  check (encode_answer response).

End Volume.
