(* ===== verification/ServiceAnswers.v ===== *)
(** * Every frame is answered

    Proves that the broker service answers every frame it is sent, well-formed or not, with one frame the
    client decodes, for every behaviour of the authorizer, the backend, the clock and the other threads
    within the laws below. *)

From S2P Require Import Prelude Text Effects Framing WireBase WirePath Wire CodecPrim Codec Requests.
From S2P Require Import Responses ActiveRegistry Contracts BrokerChecks AnswerSize Service.

(** ** Laws of the ports *)

(** A candidate built with [copy_from_bounded] from values of their Rust types. *)
Definition wf_backend_candidate (c : BackendJournalCandidate) : Prop :=
  BackendJournalCandidate_copy_from_bounded (bc_volume_id c) (bc_absolute_path_utf16 c)
    (bc_previous_absolute_path_utf16 c) (bc_file_reference c) (bc_usn c) (bc_kind c) (bc_is_directory c)
  = Ok c ∧
  Forall is_u16 (bc_absolute_path_utf16 c) ∧
  from_option (Forall is_u16) True (bc_previous_absolute_path_utf16 c) ∧
  Forall is_u8 (bc_file_reference c) ∧ is_i64 (bc_usn c).

Lemma copy_wf volume path previous reference usn kind directory c :
  BackendJournalCandidate_copy_from_bounded volume path previous reference usn kind directory = Ok c →
  Forall is_u16 path → from_option (Forall is_u16) True previous → Forall is_u8 reference → is_i64 usn →
  wf_backend_candidate c.
Proof.
  intros Hc H16 Hp H8 Hi. assert (c = {| bc_volume_id := volume; bc_absolute_path_utf16 := path;
    bc_previous_absolute_path_utf16 := previous; bc_file_reference := reference; bc_usn := usn; bc_kind := kind;
    bc_is_directory := directory |}) as ->; [|by split_and!].
  unfold BackendJournalCandidate_copy_from_bounded in Hc. by simplify_result.
Qed.

Definition wf_metadata (m : ExistingJournalMetadata) : Prop :=
  is_u64 (jm_journal_id m) ∧ is_i64 (jm_first_usn m) ∧ is_i64 (jm_next_usn m).

(** What can be done with a page through its public methods. *)
Inductive pushes : BoundedJournalPageBuilder → BoundedJournalPageBuilder → Prop :=
| pushes_none b : pushes b b
| pushes_more b c b' b'' :
    wf_backend_candidate c → BoundedJournalPageBuilder_push b c = Ok b' → pushes b' b'' → pushes b b''.

(** The contract of the ports: results have their Rust types, values with private fields come from their
    constructors, a page is filled through [push], and disclosure only ever drops candidates. *)
Class BrokerPortLaws (W : Type) `{BrokerPorts W} : Prop := {
  verify_claim_law authenticated claim w caller :
    (verify_claim authenticated claim w).1 = Ok caller →
    CallerAuthorization_from_verified_claim authenticated claim = Ok caller;
  register_root_law caller root handle cw capability :
    (authorizer_register_root caller root handle cw).1 = Ok capability → wf_capability capability;
  query_existing_journal_law root cw metadata :
    (query_existing_journal root cw).1 = Ok (JournalSupported metadata) → wf_metadata metadata;
  read_existing_journal_page_law root journal range builder cw :
    pushes builder (read_existing_journal_page root journal range builder cw).1.2;
  filter_disclosable_candidates_law root candidates cw disclosable :
    (filter_disclosable_candidates root candidates cw).1 = Ok disclosable → disclosable `sublist_of` candidates;
}.

(** ** A service that runs

    Ports for concrete runs: a clock that stands still, and a journal with one record below [C:\Lib] and,
    when two roots are read, a move from the first root to the second. *)

Definition sample_backend_candidate : BackendJournalCandidate :=
  {| bc_volume_id := lit "v"; bc_absolute_path_utf16 := lit "C:\LIB\a.jpg";
     bc_previous_absolute_path_utf16 := None; bc_file_reference := replicate 8 9; bc_usn := 12;
     bc_kind := KindPath; bc_is_directory := false |}.

(** A file moved from the first root to the second. *)
Definition sample_handoff : BackendJournalHandoff :=
  {| bh_previous_root_index := Some 0%nat; bh_previous_pending_index := None; bh_current_root_index := 1;
     bh_previous_absolute_path_utf16 := lit "C:\Lib\b.jpg"; bh_current_absolute_path_utf16 := lit "C:\Pics\c.jpg";
     bh_file_reference := replicate 8 7; bh_old_usn := 13; bh_usn := 14; bh_is_directory := false |}.

Definition sample_metadata : ExistingJournalMetadata :=
  {| jm_journal_id := 3; jm_first_usn := 0; jm_next_usn := 100 |}.

Definition sample_proof (covered : Z) (range : JournalRange) : JournalReadProof :=
  {| jp_covered_until_usn := covered; jp_is_complete := covered =? range_end_usn range;
     jp_after := sample_metadata |}.

Definition sample_ports : BrokerPorts RegistryState := {|
  active_registry w := w;
  set_active_registry state _ := state;
  others w := w;
  request_iter := map_to_list;
  compare_string_ordinal := WirePath.ascii_compare;
  instant_now w := (0, w);
  instant_max := 2 ^ 63;
  authorizer_reap_expired _ w := w;
  verify_claim authenticated claim w := (CallerAuthorization_from_verified_claim authenticated claim, w);
  authorizer_register_root _ _ _ cw := (Ok {| capability_bytes := replicate 32 1 |}, cw);
  authorize_registered_root caller root _ cw :=
    (Ok {| ap_caller := caller; ap_declared_root := root;
           ap_pinned_root := {| pb_volume_id := root_volume_id root;
                                pb_root_identity := root_root_identity root;
                                pb_canonical_root_utf16 := root_canonical_root_utf16 root;
                                pb_name_semantics :=
                                  {| ns_components := [WirePath.WindowsOrdinalIgnoreCase] |} |} |}, cw);
  filter_disclosable_candidates _ candidates cw := (Ok candidates, cw);
  query_existing_journal _ cw := (Ok (JournalSupported sample_metadata), cw);
  read_existing_journal_page _ _ range builder cw :=
    match BoundedJournalPageBuilder_push builder sample_backend_candidate with
    | Ok builder => ((Ok (sample_proof (range_end_usn range) range), builder), cw)
    | Err error => ((Err error, builder), cw)
    end;
  read_existing_journal_volume_page read cw :=
    (Ok {| sb_candidates_by_root := (λ _, Ok [sample_backend_candidate]) <$> ev_roots read;
           sb_handoffs := match ev_roots read with [_; _] => [sample_handoff] | _ => [] end;
           sb_pending_renames := [];
           sb_rename_barriers_by_root := (λ _, Some (bh_old_usn sample_handoff)) <$> ev_roots read;
           sb_proof := Some (sample_proof (range_end_usn (ev_range read)) (ev_range read)) |}, cw);
|}.

Lemma sample_candidate_wf : wf_backend_candidate sample_backend_candidate.
Proof. split_and!; [by vm_compute|..]; apply (bool_decide_unpack _); by vm_compute. Qed.

Lemma sample_laws : BrokerPortLaws (H := sample_ports) RegistryState.
Proof.
  split; cbn.
  - done.
  - intros _ _ _ _ c [= <-]. apply (bool_decide_unpack _). by vm_compute.
  - intros _ _ m [= <-]. split_and!; apply (bool_decide_unpack _); by vm_compute.
  - intros _ _ range builder cw.
    destruct (BoundedJournalPageBuilder_push builder sample_backend_candidate) eqn:E; cbn; [|constructor].
    eapply pushes_more; [apply sample_candidate_wf|exact E|constructor].
  - intros _ cs _ ds [= <-]. done.
Qed.

(** ** Running with a context *)

Section Yields.
Context {W : Type} `{BrokerPorts W}.

Lemma yields_with_context {E A : Type} context (m : Run E (RequestContext * W) A) (P : A → Prop) :
  yields m P → yields (with_context context m) P.
Proof.
  intros Hm w. specialize (Hm (context, w)). unfold with_context.
  by destruct (m (context, w)) as [? [? ?]].
Qed.

Lemma yields_ask {E F A : Type} (f : E → F) (m : ContextPort W (Result E A)) (P : A → Prop) :
  (∀ cw a, (m cw).1 = Ok a → P a) → yields (ask f m) P.
Proof. intros Hm cw. specialize (Hm cw). unfold ask. destruct (m cw) as [[a|e] ?]; cbn in *; auto. Qed.

Lemma yields_step {E F A : Type} (f : E → F) (m : ContextPort W (Result E A)) : yields (ask f m) (λ _, True).
Proof. by apply yields_ask. Qed.

Lemma map_result_Ok {E F A : Type} (f : E → F) (m : W → Result E A * W) w a :
  (map_result f m w).1 = Ok a → (m w).1 = Ok a.
Proof. unfold map_result. destruct (m w) as [[?|?] ?]; cbn; [by intros [= ->]|done]. Qed.

Lemma returns_or_failure request_id client_instance (m : Run BrokerFailure W BrokerResponse) (P : BrokerResponse → Prop) :
  yields m P →
  returns (or_failure request_id client_instance m)
    (λ r, P r ∨ ∃ code, r = failure_response request_id (Some client_instance) code).
Proof.
  intros Hm. eapply returns_bind; [by apply returns_capture|]. intros [r|failure] Hr; apply returns_ret; eauto.
Qed.

Lemma yields_finish key (result : BrokerResult BrokerResponse) (P : BrokerResponse → Prop) :
  (∀ r, result = Ok r → P r) → yields (finish_request key result) P.
Proof.
  intros HP. eapply yields_bind; [by apply (yields_observe _ (λ _, True))|]. intros now _.
  eapply yields_bind; [by apply (yields_attempt _ (λ _, True))|]. intros t _.
  eapply yields_mono; [apply yields_check|]. intros r Hr. apply HP. by destruct t as [[]|].
Qed.

Lemma yields_finished key (m : Run BrokerFailure W BrokerResponse) (P : BrokerResponse → Prop) :
  yields m P → yields (result ← capture m; finish_request key result) P.
Proof.
  intros Hm. eapply yields_bind; [by apply yields_capture|]. intros result Hr. by apply yields_finish.
Qed.

Lemma yields_claim_timed {A : Type} (f : Z → RegistryState → Result ActiveRequestError A * RegistryState) :
  yields (claim_timed f) (λ _, True).
Proof. by apply yields_call. Qed.

Lemma yields_deadline timeout_ms : yields (deadline_from_timeout timeout_ms) (λ _, True).
Proof.
  eapply yields_bind; [by apply (yields_observe _ (λ _, True))|]. intros now _.
  by eapply yields_mono; [apply yields_check|].
Qed.

Lemma yields_begin request_id caller timeout_ms :
  yields (begin_request request_id caller timeout_ms) (λ _, True).
Proof.
  eapply yields_bind; [apply yields_deadline|]. intros deadline _.
  eapply yields_bind; [apply yields_claim_timed|]. intros _ _. by apply yields_ret.
Qed.
End Yields.

(** ** What may be sent *)

Definition sendable (r : BrokerResponse) : Prop :=
  validate_response r = Ok () ∧ wf_response r ∧ evidence_bounded r ∧ is_volume_page r = false.

Lemma sendable_encodes r : sendable r → ∃ frame, encode_answer r = Ok frame ∧ client_reads frame r.
Proof. intros (? & ? & ? & Hp). apply encode_answer_total; [done..|]. by rewrite Hp. Qed.

Lemma sendable_failure request_id client_instance code :
  is_u64 request_id → from_option (λ i, is_array 16 i ∧ all_zero i = false) True client_instance →
  sendable (failure_response request_id client_instance code).
Proof.
  intros Hid Hc. split_and!; [|split; [done|]|done|done].
  - unfold validate_response. cbn [BrokerResponse_request_id failure_response is_failure_response].
    rewrite andb_false_r. cbn. destruct client_instance as [i|]; [|done]. by destruct Hc as [_ ->].
  - destruct client_instance; [by destruct Hc|done].
Qed.

Lemma inspected_id_u64 payload header :
  Forall is_u8 payload → inspect_request_header payload = Ok header → is_u64 (header_request_id header).
Proof.
  intros H8 H. unfold inspect_request_header in H. simplify_result. case_match; [done|]. simplify_result.
  cbn [header_request_id]. unfold read_u64_at in *. simplify_result.
  match goal with H : slice_get _ 12 _ = Some _ |- _ => apply slice_u8 in H as [? Hl]; [|done] end.
  pose proof (le_value_range _ ltac:(eassumption)) as Hr. rewrite Hl in Hr. exact Hr.
Qed.

Lemma sendable_malformed payload error : Forall is_u8 payload → sendable (malformed_response payload error).
Proof.
  intros H8. apply sendable_failure; [|done].
  destruct (inspect_request_header payload) eqn:E; [by eapply inspected_id_u64|unfold is_uint; lia].
Qed.

(** The claims and roots of a valid request give valid bindings. *)
Lemma caller_valid caller : wf_caller caller → CallerClaim_validate caller = Ok () →
  is_array 16 (caller_client_instance caller) ∧ all_zero (caller_client_instance caller) = false.
Proof. intros (_ & _ & Ha) H. unfold CallerClaim_validate in H. simplify_result. by apply orb_false_iff in H as [_ ?]. Qed.

Lemma binding_valid caller root :
  wf_caller caller → wf_root root → CallerClaim_validate caller = Ok () → RootAuthorization_validate root = Ok () →
  let binding := ResponseBinding_from_request caller root in
  ResponseBinding_validate binding = Ok () ∧ wf_binding binding.
Proof.
  intros Hc (? & ? & ? & _) Hcv Hrv binding. destruct (caller_valid _ Hc Hcv) as [Ha Hz].
  unfold RootAuthorization_validate in Hrv. simplify_result. split; [|by split_and!].
  unfold ResponseBinding_validate, binding. cbn [binding_client_instance binding_root_generation ResponseBinding_from_request
    binding_root_id binding_volume_id].
  rewrite Hz. apply result_seq_Ok. split; [|by apply result_seq_Ok].
  apply fail_if_Ok. by match goal with Hb : _ || _ = false |- _ => apply orb_false_iff in Hb as [? _] end.
Qed.

(** The positive answer a request is owed. *)
Definition fulfils (request : BrokerRequest) (response : BrokerResponse) : Prop :=
  match request with
  | ReqRegisterRoot id q =>
    ∃ capability, response =
      RespRootRegistered id (ResponseBinding_from_request (rr_caller q) (rr_root q)) capability
  | ReqQueryJournal id q =>
    ∃ capability journal_id first_usn next_usn, response =
      RespJournal id (ResponseBinding_from_request (qj_caller q) (qj_root q)) capability journal_id
        first_usn next_usn
  | ReqReadRange id q =>
    response = RespReadRangeAccepted id (ResponseBinding_from_request (rd_caller q) (rd_root q))
                 (rd_journal_id q) (rd_start_usn q) (rd_end_usn q) (rd_max_records q)
                 (rd_max_evidence_bytes q)
  | ReqReadVolume id q =>
    ∃ first start_usn, head (rv_roots q) = Some first ∧ minimum_start_usn q = Some start_usn ∧
    response = RespReadVolumeAccepted id (caller_client_instance (rv_caller q))
                 (root_volume_id (sr_root first)) (rv_journal_id q) start_usn (rv_end_usn q)
                 (zlen (rv_roots q)) (rv_max_records q) (rv_max_evidence_bytes q)
  | ReqCancel id caller target => response = RespCancelled id (caller_client_instance caller) target
  end.

Definition request_caller (request : BrokerRequest) : CallerClaim :=
  match request with
  | ReqRegisterRoot _ q => rr_caller q
  | ReqQueryJournal _ q => qj_caller q
  | ReqReadRange _ q => rd_caller q
  | ReqReadVolume _ q => rv_caller q
  | ReqCancel _ caller _ => caller
  end.

(** A request is answered by what it asked for, or by a failure bound to its caller. *)
Definition answers (request : BrokerRequest) (response : BrokerResponse) : Prop :=
  fulfils request response ∨
  ∃ code, response = failure_response (BrokerRequest_request_id request)
                       (Some (caller_client_instance (request_caller request))) code.

Definition valid_request (request : BrokerRequest) : Prop :=
  wf_request request ∧ validate_request request = Ok () ∧ BrokerRequest_request_id request ≠ 0.

Lemma request_caller_valid request :
  valid_request request →
  wf_caller (request_caller request) ∧ CallerClaim_validate (request_caller request) = Ok ().
Proof.
  intros ((_ & Hw) & Hv & _). destruct request; cbn [validate_request request_caller] in *;
    destruct_and?; (split; [done|]);
    unfold RegisterRootRequest_validate, QueryJournalRequest_validate, ReadJournalRangeRequest_validate,
      ReadJournalVolumeRequest_validate in *; by simplify_result.
Qed.

Lemma response_id_valid r :
  BrokerResponse_request_id r ≠ 0 →
  fail_if ((BrokerResponse_request_id r =? 0) && negb (is_failure_response r)) (InvalidValue "request_id")
  = Ok ().
Proof. intros. by rewrite (proj2 (Z.eqb_neq _ _)). Qed.

(** *** What validation establishes of a volume request *)

Record valid_volume (q : ReadJournalVolumeRequest) (volume_id : str) : Prop := {
  vv_caller : CallerClaim_validate (rv_caller q) = Ok ();
  vv_journal : rv_journal_id q ≠ 0;
  vv_count : 1 ≤ zlen (rv_roots q) ≤ MAX_SHARED_ROOTS;
  vv_records : in_range 1 MAX_RECORDS (rv_max_records q) = true;
  vv_evidence : in_range 1 MAX_EVIDENCE_BYTES (rv_max_evidence_bytes q) = true;
  vv_first : ∃ first, head (rv_roots q) = Some first ∧ root_volume_id (sr_root first) = volume_id;
  vv_roots : Forall (λ root, SharedJournalRootRequest_validate root = Ok () ∧
                             root_volume_id (sr_root root) = volume_id ∧
                             0 ≤ sr_start_usn root ≤ rv_end_usn q) (rv_roots q);
  vv_pending : Forall (λ p, SharedJournalPendingRenameRequest_validate p volume_id (rv_journal_id q)
                              (rv_end_usn q) = Ok ()) (rv_pending_renames q);
}.

Lemma validated_volume q :
  ReadJournalVolumeRequest_validate q = Ok () → ∃ volume_id, valid_volume q volume_id.
Proof.
  unfold ReadJournalVolumeRequest_validate. intros H. simplify_result.
  repeat match goal with Hb : _ || _ = false |- _ => apply orb_false_iff in Hb as [Hb ?] end.
  rewrite !negb_false_iff in *.
  destruct (rv_roots q) as [|first roots] eqn:Hroots; [done|].
  exists (root_volume_id (sr_root first)).
  split; rewrite ?Hroots; try done.
  - by apply Z.eqb_neq.
  - by apply in_range_true.
  - by exists first.
  - eapply result_foldl_Forall; [|eassumption]. intros seen root seen' Hr. unfold validate_shared_root in Hr.
    simplify_result. destruct (set_insert _ _) as [is_new ids]. destruct (_ || _) eqn:E; [done|].
    repeat match goal with Hb : _ || _ = false |- _ => apply orb_false_iff in Hb as [Hb ?] end.
    rewrite !negb_false_iff, !bool_decide_eq_true in *. split_and!; [done|done|..];
      match goal with Hs : is_Some _ |- _ => destruct Hs as [i Hi%JournalReadInterval_new_Some]; lia end.
  - eapply result_foldl_Forall; [|eassumption]. intros seen p seen' Hp. unfold validate_shared_pending in Hp.
    by simplify_result.
Qed.

Lemma foldl_min_le (us : list Z) u : foldl Z.min u us ≤ u ∧ Forall (λ v, foldl Z.min u us ≤ v) us.
Proof.
  revert u. induction us as [|v us IH]; intros u; cbn [foldl]; [split; [lia|constructor]|].
  destruct (IH (Z.min u v)) as [? ?]. split; [lia|]. constructor; [lia|done].
Qed.

Lemma foldl_min_in (us : list Z) u : foldl Z.min u us ∈ u :: us.
Proof.
  revert u. induction us as [|v us IH]; intros u; cbn [foldl]; [by left|].
  specialize (IH (Z.min u v)). rewrite !elem_of_cons in *.
  destruct (Z.min_spec u v) as [[_ Hm]|[_ Hm]]; rewrite Hm in *; tauto.
Qed.

Lemma minimum_start_spec q u :
  minimum_start_usn q = Some u →
  (∃ root, root ∈ rv_roots q ∧ u = sr_start_usn root) ∧ Forall (λ root, u ≤ sr_start_usn root) (rv_roots q).
Proof.
  unfold minimum_start_usn. intros Hu.
  destruct (sr_start_usn <$> rv_roots q) as [|v us] eqn:E; [done|]. apply (inj Some) in Hu as <-. split.
  - pose proof (foldl_min_in us v) as Hin. rewrite <-E in Hin.
    apply list_elem_of_fmap in Hin as (root & -> & ?). by exists root.
  - apply (Forall_fmap sr_start_usn (λ u, foldl Z.min v us ≤ u)). rewrite E. destruct (foldl_min_le us v).
    by constructor.
Qed.

Lemma minimum_start_total q : rv_roots q ≠ [] → is_Some (minimum_start_usn q).
Proof. unfold minimum_start_usn. destruct (rv_roots q); [done|]. intros _. by eexists. Qed.

Section Handlers.
Context {W : Type} `{BrokerPortLaws W}.

Lemma yields_verify authenticated claim :
  yields (verify authenticated claim)
    (λ caller, CallerAuthorization_from_verified_claim authenticated claim = Ok caller).
Proof.
  apply yields_call. intros w caller Hc%map_result_Ok. by eapply verify_claim_law.
Qed.

Lemma register_root_sendable id q authenticated :
  valid_request (ReqRegisterRoot id q) →
  yields (register_root id q authenticated) (λ r, fulfils (ReqRegisterRoot id q) r ∧ sendable r).
Proof.
  intros ((Hid & Hc & Hr & _) & Hv & Hnz). cbn [validate_request BrokerRequest_request_id] in *.
  unfold RegisterRootRequest_validate in Hv. simplify_result.
  destruct (binding_valid (rr_caller q) (rr_root q)) as [Hbv Hbw]; [done..|].
  eapply yields_bind; [apply yields_verify|]. intros caller _.
  eapply yields_bind; [apply yields_begin|]. intros [key deadline] _.
  apply yields_finished, yields_with_context.
  eapply yields_bind; [apply yields_ask, register_root_law|]. intros capability Hcap.
  eapply yields_bind; [apply yields_check|]. intros [] Hcv.
  eapply yields_bind; [apply yields_step|]. intros _ _. apply yields_ret.
  split; [by eexists|]. split_and!; [|by split_and!|done|done].
  unfold validate_response. rewrite response_id_valid by done. cbn [mbind result_bind]. rewrite Hbv. cbn.
  by destruct (RootCapability_validate capability) as [[]|].
Qed.

Lemma query_journal_sendable id q authenticated :
  valid_request (ReqQueryJournal id q) →
  yields (query_journal id q authenticated) (λ r, fulfils (ReqQueryJournal id q) r ∧ sendable r).
Proof.
  intros ((Hid & Hc & Hr & _) & Hv & Hnz). cbn [validate_request BrokerRequest_request_id] in *.
  unfold QueryJournalRequest_validate in Hv. simplify_result.
  destruct (binding_valid (qj_caller q) (qj_root q)) as [Hbv Hbw]; [done..|].
  eapply yields_bind; [apply yields_verify|]. intros caller _.
  eapply yields_bind; [apply yields_begin|]. intros [key deadline] _.
  apply yields_finished, yields_with_context.
  eapply yields_bind; [apply yields_step|]. intros root _.
  eapply yields_bind; [apply yields_check|]. intros [] _.
  eapply yields_bind; [apply yields_step|]. intros _ _.
  eapply yields_bind; [apply (yields_ask _ _ (λ j, ∀ m, j = JournalSupported m → wf_metadata m));
    intros cw a Ha m ->; by eapply query_existing_journal_law|]. intros journal Hj.
  eapply yields_bind; [apply yields_step|]. intros _ _.
  destruct journal as [metadata|].
  - destruct (Hj _ eq_refl) as (? & ? & ?).
    eapply yields_bind; [apply yields_check|]. intros m' Hm.
    unfold ExistingJournalMetadata_validate in Hm. destruct (_ || _) eqn:E; [done|]. cbn in Hm. simplify_eq.
    apply yields_ret. split; [by eexists _, _, _, _|]. split_and!; [|by split_and!|done|done].
    unfold validate_response. rewrite response_id_valid by done. cbn [mbind result_bind]. rewrite Hbv. cbn.
    by rewrite E.
  - apply yields_ret. split; [by eexists _, _, _, _|]. split_and!; [|by split_and!|done|done].
    unfold validate_response. rewrite response_id_valid by done. cbn [mbind result_bind]. by rewrite Hbv.
Qed.

Lemma accept_read_range_sendable id q authenticated :
  valid_request (ReqReadRange id q) →
  yields (accept_read_range id q authenticated) (λ r, fulfils (ReqReadRange id q) r ∧ sendable r).
Proof.
  intros ((Hid & Hc & Hr & _ & Hw) & Hv & Hnz). cbn [validate_request BrokerRequest_request_id] in *.
  unfold ReadJournalRangeRequest_validate in Hv. simplify_result.
  destruct (binding_valid (rd_caller q) (rd_root q)) as [Hbv Hbw]; [done..|].
  eapply yields_bind; [apply yields_verify|]. intros caller _.
  eapply yields_bind; [apply yields_deadline|]. intros deadline _.
  eapply yields_bind; [apply yields_claim_timed|]. intros _ _.
  apply yields_ret. split; [done|]. split_and!; [|by split_and!|done|done].
  unfold validate_response. rewrite response_id_valid by done. cbn [mbind result_bind]. rewrite Hbv.
  cbn [mbind result_bind]. apply fail_if_Ok. by rewrite !orb_false_iff in *.
Qed.

Lemma accept_read_volume_sendable id q authenticated :
  valid_request (ReqReadVolume id q) →
  yields (accept_read_volume id q authenticated) (λ r, fulfils (ReqReadVolume id q) r ∧ sendable r).
Proof.
  intros ((Hid & Hc & Hroots & _ & Hw) & Hv & Hnz). cbn [validate_request BrokerRequest_request_id] in *.
  destruct (validated_volume q Hv) as (volume & [Hcv Hj Hcount Hrec Hev (first & Hf & Hvol) Hall _]).
  destruct (caller_valid _ Hc Hcv) as [Ha Hz].
  assert (rv_roots q ≠ []) as Hne by (by destruct (rv_roots q)).
  pose proof (proj2 (in_range_true _ _ _) Hcount) as Hcb.
  eapply yields_bind; [apply yields_verify|]. intros caller _.
  eapply yields_bind; [apply yields_deadline|]. intros deadline _.
  eapply yields_bind; [apply yields_claim_timed|]. intros _ _.
  eapply yields_bind; [by apply yields_expect|]. intros first' Hf'. rewrite Hf in Hf'. apply (inj Some) in Hf' as <-.
  eapply yields_bind; [by apply yields_expect, minimum_start_total|]. intros start Hstart.
  destruct (minimum_start_spec _ _ Hstart) as [(root & Hin & ->) _].
  rewrite Z.mod_small by (unfold MAX_SHARED_ROOTS in *; lia).
  assert (first ∈ rv_roots q) as Hfin by (destruct (rv_roots q); cbn in Hf; [done|simplify_eq; by left]).
  rewrite Forall_forall in Hall, Hroots.
  destruct (Hall _ Hin) as (_ & _ & Hrange), (Hall _ Hfin) as (Hfv & _ & _).
  destruct (Hroots _ Hin) as (_ & _ & ?), (Hroots _ Hfin) as ((_ & _ & ? & _) & _ & _).
  unfold SharedJournalRootRequest_validate, RootAuthorization_validate in Hfv. simplify_result.
  apply yields_ret. split; [by eexists first, _|]. split_and!; [|split; [done|]|done|done].
  - unfold validate_response. rewrite response_id_valid by done. cbn [mbind result_bind]. apply fail_if_Ok.
    rewrite Hz, Hrec, Hev, (proj2 (Z.eqb_neq _ _) Hj), Hcb.
    change validate_identifier_for_codec with validate_identifier.
    match goal with Hi : validate_identifier (root_volume_id _) _ = Ok _ |- _ => rewrite Hi end.
    rewrite bool_decide_true; [done|]. eexists. apply JournalReadInterval_new_Some. split; [done|lia].
  - destruct_and?. split_and!; try done. unfold is_uint, MAX_SHARED_ROOTS in *. lia.
Qed.

Lemma cancel_sendable id caller target authenticated :
  valid_request (ReqCancel id caller target) →
  yields (service_cancel id caller target authenticated) (λ r, fulfils (ReqCancel id caller target) r ∧ sendable r).
Proof.
  intros ((Hid & Hc & Ht) & Hv & Hnz). cbn [validate_request BrokerRequest_request_id] in *. simplify_result.
  destruct (caller_valid caller Hc) as [Ha Hz]; [done|].
  eapply yields_bind; [apply yields_verify|]. intros verified Hver.
  assert (ca_client_instance verified = caller_client_instance caller) as Hi.
  { unfold CallerAuthorization_from_verified_claim in Hver. case_match; [done|]. by simplify_result. }
  eapply yields_bind; [by apply (yields_call _ (λ _, True))|]. intros _ _.
  eapply yields_bind; [by apply (yields_attempt _ (λ _, True))|]. intros cancelled _.
  eapply yields_bind; [by apply (yields_observe _ (λ _, True))|]. intros _ _.
  eapply yields_bind; [apply yields_check|]. intros _ _.
  apply yields_ret. rewrite Hi. split; [done|]. split_and!; [|by split_and!|done|done].
  unfold validate_response. rewrite response_id_valid by done. cbn [mbind result_bind]. apply fail_if_Ok.
  by rewrite Hz.
Qed.

Lemma handle_request_answers request authenticated :
  valid_request request →
  returns (handle_request request authenticated) (λ r, answers request r ∧ sendable r).
Proof.
  intros Hv. destruct (request_caller_valid _ Hv) as [Hc Hcv]. pose proof (caller_valid _ Hc Hcv) as Hi.
  assert (∀ m : Run BrokerFailure W BrokerResponse, yields m (λ r, fulfils request r ∧ sendable r) →
    returns (or_failure (BrokerRequest_request_id request) (caller_client_instance (request_caller request)) m)
      (λ r, answers request r ∧ sendable r)) as Hor.
  { intros m Hm. eapply returns_mono; [by apply returns_or_failure|]. intros r [[Hf Hs]|[code ->]].
    - split; [by left|done].
    - split; [right; by eexists|]. apply sendable_failure; [apply Hv|done]. }
  destruct request; apply Hor.
  - by apply register_root_sendable.
  - by apply query_journal_sendable.
  - by apply accept_read_range_sendable.
  - by apply accept_read_volume_sendable.
  - by apply cancel_sendable.
Qed.
End Handlers.

Section Frames.
Context {W : Type} `{BrokerPortLaws W}.

(** C14: the service answers every frame.  Whatever bytes a client sends, and whatever the authorizer, the
    backend, the clock and the other connections do, the service returns one frame that the client
    decodes, and never the internal error of an answer it could not encode.  A broken frame is answered with
    [MalformedFrame] and no request; a payload that is no request is answered with the request id its
    header shows, if it shows one, and with the code of what is wrong with it; a request is answered with
    its own id, either by what it asked for, bound to its caller and root, or by a failure bound to its
    caller. *)
Theorem handle_frame_answers frame authenticated w :
  Forall is_u8 frame →
  ∃ answer response, (handle_frame frame authenticated w).1 = Ok answer ∧ client_reads answer response ∧
  match Framing.decode_frame frame with
  | Err _ => response = failure_response 0 None MalformedFrame
  | Ok payload =>
    match decode_request payload with
    | Err error => response = malformed_response payload error
    | Ok request => answers request response
    end
  end.
Proof.
  intros H8. enough (returns (handle_frame frame authenticated) (λ answer, ∃ response, client_reads answer response ∧
    match Framing.decode_frame frame with
    | Err _ => response = failure_response 0 None MalformedFrame
    | Ok payload =>
      match decode_request payload with
      | Err error => response = malformed_response payload error
      | Ok request => answers request response
      end
    end)) as Hret by (destruct (Hret w) as (a & Ha & r & Hr); by exists a, r).
  eapply (returns_bind _ _ (λ r, sendable r ∧ _)); [|intros r [Hs Hr];
    destruct (sendable_encodes r Hs) as (answer & He & Hc);
    eapply returns_mono; [by apply returns_check|]; intros ? ->; by exists r].
  destruct (Framing.decode_frame frame) as [payload|e] eqn:Hd.
  - apply Framing.decode_frame_spec in Hd as [-> [_ Hl]]; [|done]. apply Forall_app in H8 as [_ H8].
    destruct (decode_request payload) as [request|e] eqn:Hr.
    + apply decode_request_sound in Hr as [Hw [Hid Hv]%encode_request_valid]; [|done|].
      * eapply returns_mono; [by apply handle_request_answers|]. by intros r [].
      * unfold USIZE_MAX, Framing.MAX_FRAME_BYTES in *. lia.
    + apply returns_ret. split; [by apply sendable_malformed|done].
  - apply returns_ret. split; [|done]. apply sendable_failure; [unfold is_uint; lia|done].
Qed.
End Frames.

(** A cancellation over a connection that is open, of a request that is not active. *)
Definition sample_connection : AuthenticatedConnection :=
  {| ac_connection_id := sample_id; ac_connection_generation := 1;
     ac_opaque_token_binding := replicate 32 4; ac_observed_client_process_identity := replicate 32 6;
     ac_observed_process_id := 42; ac_observed_session_id := 1; ac_observed_token_type := 2;
     ac_observed_impersonation_level := 2; ac_observed_is_elevated := false |}.

Lemma handle_frame_answers_witness :
  ∃ answer response,
    (handle_frame (H := sample_ports) (le_bytes 4 (zlen sample_payload) ++ sample_payload) sample_connection
       sample_open).1 = Ok answer ∧
    client_reads answer response ∧ answers sample_request response.
Proof.
  set (frame := le_bytes 4 (zlen sample_payload) ++ sample_payload).
  assert (Forall is_u8 frame) as H8 by (apply (bool_decide_unpack _); vm_compute; exact I).
  assert (Framing.decode_frame frame = Ok sample_payload) as Hd by (vm_compute; reflexivity).
  assert (decode_request sample_payload = Ok sample_request) as Hr by (vm_compute; reflexivity).
  pose proof (handle_frame_answers (H := sample_ports) (H0 := sample_laws) frame sample_connection sample_open H8)
    as Hw.
  rewrite Hd, Hr in Hw. exact Hw.
Defined.
