(* ===== verification/Constrain.v ===== *)
(** * What is told about a root

    Proves of [constrain_candidates] of [journal_broker/service.rs] that a candidate that is told about a
    root is valid, lies at or below the root, keeps the position of the record it came from, and takes no
    more evidence than the record did. *)

From S2P Require Import Prelude Text Effects Framing WireBase WirePath Wire CodecPrim Codec Requests.
From S2P Require Import Responses ActiveRegistry Contracts BrokerChecks Service ServiceAnswers.
Import WirePath(NormalizedWindowsPath, RootRelativeScope, Root, Relative, components, drive_key, display,
  normalize_backend_path, scope_under_root, scope_under_root_spec, scope_under_root_root,
  component_matches, SLASH).

Section Constrain.
Context (compare : list Z → list Z → Z → Z).

(** The absolute path lies at or below the pinned root, and [scope] spells what is below it. *)
Definition below_root (root : AuthorizedPinnedRoot) (path : list Z) (scope : CandidateScope) : Prop :=
  ∃ np nr, normalize_backend_path path = Ok np ∧
    normalize_backend_path (pb_canonical_root_utf16 (ap_pinned_root root)) = Ok nr ∧
    drive_key np = drive_key nr ∧
    let root_components := zip (components nr) (ns_components (pb_name_semantics (ap_pinned_root root))) in
    match scope with
    | ScopeRoot => Forall2 (component_matches compare) (components np) root_components
    | ScopeRelativePath s =>
      ∃ above below, components np = above ++ below ∧ s = join [SLASH] (display <$> below) ∧
        Forall2 (component_matches compare) above root_components
    end.

(** [c] is what is told about [root] of the backend's candidate [b]. *)
Record tells (root : AuthorizedPinnedRoot) (b : BackendJournalCandidate) (c : BrokerCandidate) : Prop := {
  tl_volume : bc_volume_id b = pb_volume_id (ap_pinned_root root);
  tl_usn : cand_usn c = bc_usn b;
  tl_reference : cand_file_reference c = bc_file_reference b;
  tl_directory : cand_is_directory c = bc_is_directory b;
  tl_scope : ∃ path, (path = bc_absolute_path_utf16 b ∨ Some path = bc_previous_absolute_path_utf16 b) ∧
    below_root root path (cand_scope c);
  tl_previous : ∀ scope, cand_previous_scope c = Some scope →
    ∃ path, Some path = bc_previous_absolute_path_utf16 b ∧ below_root root path scope;
}.

(** What a scope below a root costs. *)
Definition scope_ok (scope : CandidateScope) (path : list Z) : Prop :=
  CandidateScope_validate scope = Ok () ∧ wf_scope scope ∧
  ∃ e, CandidateScope_evidence_bytes scope = Some e ∧ 0 ≤ e ≤ 2 * zlen path.

Lemma normalized_ne path np : normalize_backend_path path = Ok np → 1 ≤ zlen path ≤ MAX_PATH_UTF16_UNITS.
Proof.
  unfold normalize_backend_path, WirePath.normalize_absolute_path. intros Hn.
  destruct (_ || _) eqn:E in Hn; [done|]. apply orb_false_iff in E as [E1 E2].
  rewrite is_empty_zlen in E1. len.
Qed.

Lemma scope_below root path np nr scope :
  Forall is_u16 path → normalize_backend_path path = Ok np →
  normalize_backend_path (pb_canonical_root_utf16 (ap_pinned_root root)) = Ok nr →
  pinned_scope compare root nr np = Ok (Some scope) →
  below_root root path (to_candidate_scope scope) ∧ scope_ok (to_candidate_scope scope) path.
Proof.
  intros H16 Hp Hr Hs. unfold pinned_scope in Hs. pose proof (normalized_ne _ _ Hp) as Hlen.
  destruct scope as [|s]; cbn [to_candidate_scope].
  - apply scope_under_root_root in Hs as [Hd Hm]. split; [by exists np, nr|].
    split_and!; [done|done|]. exists 1. split; [done|lia].
  - apply scope_under_root_spec with (path := path) in Hs as ((Hv & Hstr & Hsize) & Hd & Hb); [|done..].
    split; [by exists np, nr|]. split_and!; [done|done|].
    unfold MAX_PATH_UTF16_UNITS in Hlen. cbn [CandidateScope_evidence_bytes]. unfold checked_mul, USIZE_MAX.
    rewrite (proj2 (Z.leb_le _ _)) by lia. eexists. split; [done|]. pose proof (zlen_nonneg (encode_utf16 s)). lia.
Qed.

(** The evidence of a candidate with bounded paths. *)
Definition evidence_of (b : BackendJournalCandidate) : Z :=
  2 * zlen (bc_absolute_path_utf16 b) +
  match bc_previous_absolute_path_utf16 b with Some path => 2 * zlen path | None => 0 end +
  zlen (bc_file_reference b).

Lemma evidence_of_bounded b :
  wf_backend_candidate b →
  BackendJournalCandidate_evidence_bytes b = Ok (evidence_of b) ∧
  is_reference_len (bc_file_reference b) = true.
Proof.
  intros [Hb _]. unfold BackendJournalCandidate_copy_from_bounded in Hb. simplify_result.
  repeat match goal with Hb : _ || _ = false |- _ => apply orb_false_iff in Hb as [Hb ?] end.
  rewrite negb_false_iff in *. split; [|done].
  match goal with Hr : is_reference_len _ = true |- _ => unfold is_reference_len in Hr end.
  unfold BackendJournalCandidate_evidence_bytes, evidence_of, checked_mul, checked_add, USIZE_MAX,
    MAX_PATH_UTF16_UNITS in *.
  rewrite (proj2 (Z.leb_le _ _)) by lia. cbn [mbind option_bind].
  pose proof (zlen_nonneg (bc_absolute_path_utf16 b)).
  destruct (bc_previous_absolute_path_utf16 b) as [previous|]; cbv beta iota in *;
    [pose proof (zlen_nonneg previous); rewrite (proj2 (Z.leb_le (zlen previous * 2) _)) by lia;
     cbn [mbind option_bind]; rewrite (proj2 (Z.leb_le (_ * 2 + _ * 2) _)) by lia|];
    cbn [mbind option_bind]; rewrite (proj2 (Z.leb_le _ _)) by lia; cbn [ok_or]; f_equal; lia.
Qed.

(** What was told is valid, well typed and no dearer than the record. *)
Definition sound_candidate (b : BackendJournalCandidate) (c : BrokerCandidate) : Prop :=
  BrokerCandidate_validate c = Ok () ∧ wf_candidate c ∧
  ∃ e, BrokerCandidate_evidence_bytes c = Some e ∧ 0 ≤ e ≤ evidence_of b.

Lemma candidate_evidence scope previous reference usn kind directory path previous_path :
  scope_ok scope path → from_option (λ s, scope_ok s previous_path) True previous →
  zlen path ≤ MAX_PATH_UTF16_UNITS → zlen previous_path ≤ MAX_PATH_UTF16_UNITS →
  is_reference_len reference = true →
  ∃ e, BrokerCandidate_evidence_bytes
         {| cand_scope := scope; cand_previous_scope := previous; cand_file_reference := reference;
            cand_usn := usn; cand_kind := kind; cand_is_directory := directory |} = Some e ∧
       0 ≤ e ≤ 2 * zlen path + match previous with Some _ => 2 * zlen previous_path | None => 0 end
               + zlen reference.
Proof.
  intros (_ & _ & e & He & Hle) Hp Hl Hl' Hr. unfold BrokerCandidate_evidence_bytes. cbn.
  unfold is_reference_len, MAX_PATH_UTF16_UNITS in *.
  assert (∃ p, match previous with Some s => CandidateScope_evidence_bytes s | None => Some 0 end = Some p ∧
            0 ≤ p ≤ match previous with Some _ => 2 * zlen previous_path | None => 0 end) as (p & Hpe & Hple).
  { destruct previous as [s|]; cbn in Hp; [|by exists 0]. destruct Hp as (_ & _ & p & ? & ?). by exists p. }
  rewrite Hpe, He. cbn [mbind option_bind]. unfold checked_add, USIZE_MAX.
  assert (match previous with Some _ => 2 * zlen previous_path | None => 0 end ≤ 2 * zlen previous_path)
    by (destruct previous; len).
  rewrite (proj2 (Z.leb_le _ _)) by lia. cbn [mbind option_bind].
  rewrite (proj2 (Z.leb_le _ _)) by lia. eexists. split; [done|]. lia.
Qed.

(** A candidate told under one scope, and one told under two. *)
Definition told (b : BackendJournalCandidate) (scope : CandidateScope) (previous : option CandidateScope)
    (kind : CandidateKind) : BrokerCandidate :=
  {| cand_scope := scope; cand_previous_scope := previous; cand_file_reference := bc_file_reference b;
     cand_usn := bc_usn b; cand_kind := kind; cand_is_directory := bc_is_directory b |}.

(** [path] is bounded and [scope] spells it below the root. *)
Definition located (root : AuthorizedPinnedRoot) (path : list Z) (scope : CandidateScope) : Prop :=
  zlen path ≤ MAX_PATH_UTF16_UNITS ∧ below_root root path scope ∧ scope_ok scope path.

Lemma told_sound root b scope previous kind path :
  wf_backend_candidate b → bc_volume_id b = pb_volume_id (ap_pinned_root root) →
  (path = bc_absolute_path_utf16 b ∨ previous = None ∧ Some path = bc_previous_absolute_path_utf16 b) →
  located root path scope →
  (∀ s, previous = Some s → ∃ q, Some q = bc_previous_absolute_path_utf16 b ∧ located root q s) →
  BrokerCandidate_validate (told b scope previous kind) = Ok () →
  tells root b (told b scope previous kind) ∧ sound_candidate b (told b scope previous kind).
Proof.
  intros Hwf Hvol Hpath (Hl & Hb & Hs) Hprev Hv. destruct (evidence_of_bounded b Hwf) as [_ Href].
  destruct Hwf as (_ & _ & _ & H8 & Hi). split.
  - split; try done.
    + exists path. split; [naive_solver|done].
    + intros s Hq. destruct (Hprev s Hq) as (q & ? & _ & ? & _). by exists q.
  - assert (from_option wf_scope True previous) as Hwp.
    { destruct previous as [s|]; [|done]. destruct (Hprev s eq_refl) as (q & _ & _ & _ & _ & ? & _). done. }
    split; [done|]. split; [by split_and!; try done; apply Hs|].
    assert (∃ q, zlen q ≤ MAX_PATH_UTF16_UNITS ∧ from_option (λ s, scope_ok s q) True previous ∧
      (previous = None ∨ Some q = bc_previous_absolute_path_utf16 b)) as (q & Hlq & Hsq & Hq).
    { destruct previous as [s|]; [|by exists path; auto]. destruct (Hprev s eq_refl) as (q & ? & ? & _ & ?).
      exists q. auto. }
    destruct (candidate_evidence scope previous (bc_file_reference b) (bc_usn b) kind (bc_is_directory b) path q)
      as (e & He & Hle); [done..|]. exists e. split; [done|]. unfold evidence_of.
    pose proof (zlen_nonneg (bc_absolute_path_utf16 b)).
    destruct (bc_previous_absolute_path_utf16 b) as [p|]; [pose proof (zlen_nonneg p)|];
      destruct previous; naive_solver lia.
Qed.

Lemma constrain_candidate_spec root nr b c :
  wf_backend_candidate b →
  normalize_backend_path (pb_canonical_root_utf16 (ap_pinned_root root)) = Ok nr →
  constrain_candidate compare root nr b = Ok (Some c) → tells root b c ∧ sound_candidate b c.
Proof.
  intros Hwf Hr Hc. pose proof Hwf as (_ & H16 & H16p & _). unfold constrain_candidate in Hc.
  apply result_seq_Ok in Hc as [Hvol%fail_if_Ok Hc]. rewrite negb_false_iff, bool_decide_eq_true in Hvol.
  apply result_bind_Ok in Hc as (current & Hcur%map_err_Ok & Hc).
  apply result_bind_Ok in Hc as (current_scope & Hcs%map_err_Ok & Hc).
  apply result_bind_Ok in Hc as (previous_scope & Hps & Hc).
  assert (∀ s, current_scope = Some s → located root (bc_absolute_path_utf16 b) (to_candidate_scope s)) as Hcurrent.
  { intros s ->. split; [by eapply normalized_ne|by eapply scope_below]. }
  assert (∀ s, previous_scope = Some s → ∃ q, Some q = bc_previous_absolute_path_utf16 b ∧
    located root q (to_candidate_scope s)) as Hprevious.
  { intros s ->. destruct (bc_previous_absolute_path_utf16 b) as [q|]; [|done]. exists q.
    apply map_err_Ok, result_bind_Ok in Hps as (nq & Hq & Hps). split; [done|].
    split; [by eapply normalized_ne|by eapply scope_below]. }
  clear Hcs Hps Hcur.
  assert (∀ scope previous kind path, located root path scope →
    (path = bc_absolute_path_utf16 b ∨ previous = None ∧ Some path = bc_previous_absolute_path_utf16 b) →
    (∀ s, previous = Some s → ∃ q, Some q = bc_previous_absolute_path_utf16 b ∧ located root q s) →
    (map_err (λ _, BrokerFailure_new RecordUnsupported) (BrokerCandidate_validate (told b scope previous kind));;
     Ok (Some (told b scope previous kind))) = Ok (Some c) → tells root b c ∧ sound_candidate b c) as Htold.
  { intros scope previous kind path ??? (Hv%map_err_Ok & Hc')%result_seq_Ok. apply (inj Ok), (inj Some) in Hc' as <-.
    by eapply told_sound. }
  destruct current_scope as [s|], previous_scope as [t|]; [| | |done].
  - destruct (is_root_scope _ || is_root_scope _) eqn:E in Hc.
    + refine (Htold _ None _ _ _ _ _ Hc); [by apply Hcurrent|by left|done].
    + refine (Htold _ (Some _) _ _ _ _ _ Hc); [by apply Hcurrent|by left|]. intros ? [= <-]. by apply Hprevious.
  - destruct (is_root_scope _ || false) eqn:E in Hc; (refine (Htold _ None _ _ _ _ _ Hc); [by apply Hcurrent|by left|done]).
  - destruct (Hprevious t eq_refl) as (q & Hq & Hloc).
    destruct (is_root_scope _ || false) eqn:E in Hc; (refine (Htold _ None _ _ _ _ _ Hc); [exact Hloc|by right|done]).
Qed.

Lemma constrain_each_spec root nr bs cs :
  Forall wf_backend_candidate bs →
  normalize_backend_path (pb_canonical_root_utf16 (ap_pinned_root root)) = Ok nr →
  constrain_each compare root nr bs = Ok cs →
  ∃ kept, kept `sublist_of` bs ∧ Forall2 (λ b c, tells root b c ∧ sound_candidate b c) kept cs.
Proof.
  intros Hwf Hr. revert cs. induction Hwf as [|b bs Hb _ IH]; intros cs Hc; cbn [constrain_each] in Hc.
  - apply (inj Ok) in Hc as <-. exists []. split; [done|constructor].
  - apply result_bind_Ok in Hc as (o & Ho & Hc). apply result_bind_Ok in Hc as (cs' & Hcs & Hc).
    apply (inj Ok) in Hc as <-. destruct (IH _ Hcs) as (kept & Hsub & Hall).
    destruct o as [c|]; [|exists kept; split; [by constructor|done]].
    exists (b :: kept). split; [by constructor|]. constructor; [|done]. by eapply constrain_candidate_spec.
Qed.

Lemma constrain_candidates_spec root bs cs :
  Forall wf_backend_candidate bs → constrain_candidates compare root bs = Ok cs →
  ∃ kept, kept `sublist_of` bs ∧ Forall2 (λ b c, tells root b c ∧ sound_candidate b c) kept cs.
Proof.
  intros Hwf Hc. unfold constrain_candidates in Hc. apply result_bind_Ok in Hc as (nr & Hn%map_err_Ok & Hc).
  unfold normalized_root in Hn. apply map_err_Ok in Hn. by eapply constrain_each_spec.
Qed.
End Constrain.
