(* ===== verification/RangeRead.v ===== *)
(** * Reading the journal of one root

    Proves of [BoundedJournalPageBuilder] of [service/contracts.rs] that a page never exceeds its limits,
    and of [execute_read_range] of [journal_broker/service.rs] that what it answers is confined to the
    root, ordered, within the limits of the request, and always encodes. *)

From stdpp Require Import sorting.
From S2P Require Import Prelude Text Effects Framing WireBase WirePath Wire CodecPrim Codec Requests.
From S2P Require Import Responses ActiveRegistry Contracts BrokerChecks AnswerSize Service ServiceAnswers Constrain.

(** ** Ascending positions *)

Abbreviation ascending := (StronglySorted Z.lt).

Lemma sublist_Forall {A} (P : A → Prop) l k : l `sublist_of` k → Forall P k → Forall P l.
Proof. induction 1; rewrite ?Forall_cons; naive_solver. Qed.

Lemma sublist_ascending l k : l `sublist_of` k → ascending k → ascending l.
Proof.
  induction 1 as [|x l k Hs IH|x l k Hs IH]; intros Ha; [done|..]; apply StronglySorted_inv in Ha as [Ha Hf];
    [|by apply IH]. constructor; [by apply IH|by eapply sublist_Forall].
Qed.

Lemma sublist_fmap_usn {A} (f : A → Z) l k : l `sublist_of` k → (f <$> l) `sublist_of` (f <$> k).
Proof. induction 1; cbn; by constructor. Qed.

Lemma sublist_zlen {A} (l k : list A) : l `sublist_of` k → zlen l ≤ zlen k.
Proof. intros Hs%sublist_length. unfold zlen. lia. Qed.

Lemma ascending_snoc us u : ascending us → (∀ v, last us = Some v → v < u) → ascending (us ++ [u]).
Proof.
  induction us as [|v us IH]; intros Ha Hl; [by repeat constructor|]. cbn.
  apply StronglySorted_inv in Ha as [Ha Hf]. constructor.
  - apply IH; [done|]. intros w Hw. apply Hl. by destruct us.
  - apply Forall_app. split; [done|]. repeat constructor.
    destruct us as [|w us]; [by apply Hl|]. destruct (last (w :: us)) as [z|] eqn:E; [|by apply last_None in E].
    assert (v < z); [|specialize (Hl z E); lia].
    apply last_Some in E as [l' E]. rewrite E in Hf. apply Forall_app in Hf as [_ Hf]. by inv Hf.
Qed.

Lemma ascending_last us u v : ascending us → last us = Some v → u ∈ us → u ≤ v.
Proof.
  intros Ha. induction Ha as [|w us Ha IH Hf]; [done|]. intros Hl [->|Hin]%elem_of_cons.
  - destruct us as [|z us]; [by injection Hl as <-; lia|]. change (last (z :: us) = Some v) in Hl.
    apply last_Some in Hl as [l' Hl]. rewrite Hl in Hf. apply Forall_app in Hf as [_ Hf]. inv Hf. lia.
  - apply IH; [|done]. destruct us; [by apply not_elem_of_nil in Hin|done].
Qed.

(** Ordered, valid candidates pass the validator of the wire. *)
Lemma validate_candidates_intro start covered cs u :
  Forall (λ c, BrokerCandidate_validate c = Ok () ∧ start ≤ cand_usn c < covered) cs →
  ascending (cand_usn <$> cs) → (∀ v, u = Some v → Forall (λ c, v < cand_usn c) cs) →
  validate_candidates start covered u cs = Ok ().
Proof.
  intros Hall. revert u. induction Hall as [|c cs [Hv Hr] _ IH]; intros u Ha Hu; [done|].
  cbn in Ha. apply StronglySorted_inv in Ha as [Ha Hf]. cbn [validate_candidates].
  apply result_seq_Ok. split; [done|]. apply result_seq_Ok. split.
  - apply fail_if_Ok. destruct u as [v|]; [specialize (Hu v eq_refl); inv Hu|]; lia.
  - apply IH; [done|]. intros v [= <-]. by rewrite Forall_fmap in Hf.
Qed.

(** ** The page *)

Definition evidence_total (bs : list BackendJournalCandidate) : Z := foldr (λ b e, evidence_of b + e) 0 bs.

Lemma evidence_nonneg b : 0 ≤ evidence_of b.
Proof. unfold evidence_of. destruct (bc_previous_absolute_path_utf16 b); len. Qed.

Lemma evidence_total_app bs cs : evidence_total (bs ++ cs) = evidence_total bs + evidence_total cs.
Proof. unfold evidence_total. induction bs as [|b bs IH]; cbn [app foldr]; lia. Qed.

Lemma sublist_evidence l k : l `sublist_of` k → evidence_total l ≤ evidence_total k.
Proof.
  unfold evidence_total. induction 1 as [|b l k _ IH|b l k _ IH]; cbn [foldr]; [lia|lia|].
  pose proof (evidence_nonneg b). lia.
Qed.

(** The invariant of a page under construction. *)
Record page_ok (b : BoundedJournalPageBuilder) : Prop := {
  po_records : zlen (pg_candidates b) ≤ Z.max 0 (lim_max_records (pg_limits b));
  po_evidence : evidence_total (pg_candidates b) = pg_evidence_bytes b;
  po_limit : pg_evidence_bytes b ≤ Z.max 0 (lim_max_evidence_bytes (pg_limits b));
  po_wf : Forall wf_backend_candidate (pg_candidates b);
  po_range : Forall (λ c, range_start_usn (pg_range b) ≤ bc_usn c < range_end_usn (pg_range b))
               (pg_candidates b);
  po_ascending : ascending (bc_usn <$> pg_candidates b);
}.

Lemma page_ok_new range limits : page_ok (BoundedJournalPageBuilder_new range limits).
Proof. split; cbn; try constructor; unfold zlen; cbn; lia. Qed.

Lemma push_ok b c b' :
  wf_backend_candidate c → page_ok b → BoundedJournalPageBuilder_push b c = Ok b' →
  page_ok b' ∧ pg_range b' = pg_range b ∧ pg_limits b' = pg_limits b.
Proof.
  intros Hwf [Hr He Hl Hw Hg Ha] Hp. unfold BoundedJournalPageBuilder_push in Hp.
  apply result_seq_Ok in Hp as [Hrec%fail_if_Ok Hp]. apply result_seq_Ok in Hp as [Hrange%fail_if_Ok Hp].
  apply result_seq_Ok in Hp as [Hlast%fail_if_Ok Hp]. apply result_bind_Ok in Hp as (size & Hsize & Hp).
  rewrite (proj1 (evidence_of_bounded c Hwf)) in Hsize. apply (inj Ok) in Hsize as <-.
  apply result_bind_Ok in Hp as (next & Hnext%ok_or_Ok%checked_add_Some & Hp).
  apply result_seq_Ok in Hp as [Hlim%fail_if_Ok Hp]. apply (inj Ok) in Hp as <-. split; [|done].
  split; cbn [pg_candidates pg_limits pg_range pg_evidence_bytes].
  - len.
  - rewrite evidence_total_app, He. cbn. lia.
  - lia.
  - apply Forall_app. auto.
  - apply Forall_app. split; [done|]. repeat constructor; lia.
  - rewrite fmap_app. apply ascending_snoc; [done|]. intros v Hv. rewrite fmap_last in Hv.
    destruct (last (pg_candidates b)); cbn in Hv; simplify_eq. lia.
Qed.

Lemma pushes_ok b b' :
  pushes b b' → page_ok b → page_ok b' ∧ pg_range b' = pg_range b ∧ pg_limits b' = pg_limits b.
Proof.
  induction 1 as [b|b c b1 b2 Hwf Hp _ IH]; intros Hok; [done|].
  destruct (push_ok _ _ _ Hwf Hok Hp) as (Hok' & <- & <-). by apply IH.
Qed.

(** ** What is told of a page *)

Section Told.
Context (compare : list Z → list Z → Z → Z).

Definition told_of (root : AuthorizedPinnedRoot) (b : BackendJournalCandidate) (c : BrokerCandidate) : Prop :=
  tells compare root b c ∧ sound_candidate b c.

Lemma told_usns root kept cs : Forall2 (told_of root) kept cs → cand_usn <$> cs = bc_usn <$> kept.
Proof. induction 1 as [|b c kept cs [Ht _] _ IH]; [done|]. cbn. rewrite IH. f_equal. apply Ht. Qed.

Lemma told_valid root kept cs :
  Forall2 (told_of root) kept cs → Forall (λ c, BrokerCandidate_validate c = Ok () ∧ wf_candidate c) cs.
Proof. induction 1 as [|b c kept cs [_ (? & ? & _)] _ IH]; by constructor. Qed.

Lemma told_sources root kept cs : Forall2 (told_of root) kept cs → Forall2 (tells compare root) kept cs.
Proof. intros Hf. eapply Forall2_impl; [exact Hf|]. by intros b c [? _]. Qed.

Lemma told_evidence root kept cs total :
  Forall2 (told_of root) kept cs → total + evidence_total kept ≤ USIZE_MAX →
  ∃ e, result_foldl add_evidence total cs = Ok e ∧ e ≤ total + evidence_total kept.
Proof.
  intros Hf. revert total. induction Hf as [|b c kept cs [_ (_ & _ & e & He & Hle)] _ IH]; intros total Hmax.
  { exists total. split; [done|cbn; lia]. }
  unfold evidence_total in *. cbn [foldr result_foldl] in *.
  assert (0 ≤ evidence_total kept) by (clear; unfold evidence_total; induction kept as [|b kept IH]; cbn [foldr];
    [lia|pose proof (evidence_nonneg b); lia]). unfold evidence_total in *.
  destruct (IH (total + e)) as (e' & He' & Hle'); [lia|]. exists e'. split; [|lia].
  assert (add_evidence total c = Ok (total + e)) as ->; [|done]. apply add_amount_Ok.
  exists e. split_and!; [done|done|lia].
Qed.

(** The answer a range read gives about [root]: it covers a part of the range asked for, says whether it
    is all of it, and tells candidates of that part, in order, within the limits of the request; each tells of one of the
    records that may be disclosed, in their order, at its place at or below the root. *)
Definition range_answer (request_id : Z) (q : ReadJournalRangeRequest) (root : AuthorizedPinnedRoot)
    (disclosable : list BackendJournalCandidate) (r : BrokerResponse) : Prop :=
  ∃ covered complete cs evidence,
    r = RespReadRange request_id (ResponseBinding_from_request (rd_caller q) (rd_root q)) (rd_journal_id q)
          (rd_start_usn q) (rd_end_usn q) (rd_max_records q) (rd_max_evidence_bytes q) covered complete cs ∧
    rd_start_usn q < covered ≤ rd_end_usn q ∧ complete = bool_decide (covered = rd_end_usn q) ∧
    zlen cs ≤ rd_max_records q ∧
    result_foldl add_evidence 0 cs = Ok evidence ∧ evidence ≤ rd_max_evidence_bytes q ∧
    ascending (cand_usn <$> cs) ∧
    Forall (λ c, BrokerCandidate_validate c = Ok () ∧ wf_candidate c) cs ∧
    Forall (λ c, rd_start_usn q ≤ cand_usn c < covered) cs ∧
    ∃ kept, kept `sublist_of` disclosable ∧ Forall2 (tells compare root) kept cs.
End Told.

(** A finished page that was disclosed and constrained is a range answer. *)
Lemma finished_page compare request_id q root builder before proof page disclosed cs :
  rd_journal_id q = jm_journal_id before →
  in_range 1 MAX_RECORDS (rd_max_records q) = true →
  in_range 1 MAX_EVIDENCE_BYTES (rd_max_evidence_bytes q) = true →
  pushes (BoundedJournalPageBuilder_new
            {| range_start_usn := rd_start_usn q; range_end_usn := rd_end_usn q |}
            {| lim_max_records := rd_max_records q; lim_max_evidence_bytes := rd_max_evidence_bytes q |})
         builder →
  BoundedJournalPageBuilder_finish builder before proof = Ok page →
  disclosed `sublist_of` bp_candidates page →
  constrain_candidates compare root disclosed = Ok cs →
  range_answer compare request_id q root disclosed
    (RespReadRange request_id (ResponseBinding_from_request (rd_caller q) (rd_root q)) (jm_journal_id before)
       (rd_start_usn q) (rd_end_usn q) (rd_max_records q) (rd_max_evidence_bytes q)
       (jp_covered_until_usn (bp_proof page)) (jp_is_complete (bp_proof page)) cs).
Proof.
  intros <- Hmr%in_range_true Hme%in_range_true Hpush Hfin Hsub Hcs.
  destruct (pushes_ok _ _ Hpush (page_ok_new _ _)) as ([Hr He Hl Hw Hg Ha] & Hrange & Hlim).
  rewrite Hrange, Hlim in *. cbn in Hr, Hl, Hg. clear Hpush.
  unfold BoundedJournalPageBuilder_finish in Hfin. apply result_bind_Ok in Hfin as (after & _ & Hfin).
  apply result_seq_Ok in Hfin as [Hf%fail_if_Ok Hfin]. apply (inj Ok) in Hfin as <-.
  rewrite Hrange in Hf. cbn [bp_candidates bp_proof BoundedJournalPageBuilder_new pg_range range_start_usn range_end_usn] in *.
  repeat match goal with Hb : _ || _ = false |- _ => apply orb_false_iff in Hb as [Hb ?] end.
  assert (Forall wf_backend_candidate disclosed) as Hwd by (by eapply sublist_Forall).
  destruct (constrain_candidates_spec _ _ _ _ Hwd Hcs) as (kept & Hkept & Htold).
  assert (kept `sublist_of` pg_candidates builder) as Hk by (by etrans).
  pose proof (sublist_evidence _ _ Hk) as Hke. pose proof (sublist_zlen _ _ Hk).
  unfold MAX_RECORDS, MAX_EVIDENCE_BYTES in *.
  destruct (told_evidence compare root kept cs 0 Htold) as (e & Hev & Hle); [unfold USIZE_MAX; lia|].
  pose proof (told_usns _ _ _ _ Htold) as Husn. pose proof (told_valid _ _ _ _ Htold) as Hvalid.
  assert (ascending (cand_usn <$> cs)) as Hasc.
  { rewrite Husn. eapply sublist_ascending; [by apply sublist_fmap_usn|done]. }
  assert (Forall (λ u, rd_start_usn q ≤ u < jp_covered_until_usn proof) (cand_usn <$> cs)) as Hcov.
  { rewrite Husn. eapply sublist_Forall; [by apply sublist_fmap_usn|]. apply Forall_forall. intros u Hu.
    destruct (last (pg_candidates builder)) as [z|] eqn:Hz;
      [|apply last_None in Hz; rewrite Hz in Hu; by apply not_elem_of_nil in Hu].
    pose proof (ascending_last _ u (bc_usn z) Ha) as Hle'. rewrite fmap_last, Hz in Hle'. specialize (Hle' eq_refl Hu).
    apply list_elem_of_fmap in Hu as (c & -> & Hc). rewrite Forall_forall in Hg. specialize (Hg _ Hc). lia. }
  exists (jp_covered_until_usn proof), (jp_is_complete proof), cs, e.
  assert (zlen cs = zlen kept) by (unfold zlen; f_equal; apply Forall2_length in Htold; lia).
  split_and!; try done; try lia.
  - match goal with Hc : negb (Bool.eqb _ _) = false |- _ => apply negb_false_iff, eqb_prop in Hc as -> end.
    by destruct (Z.eqb_spec (jp_covered_until_usn proof) (rd_end_usn q)); case_bool_decide.
  - by rewrite Forall_fmap in Hcov.
  - exists kept. split; [done|]. by apply told_sources.
Qed.

Lemma range_answer_sendable compare id q root disclosable r :
  valid_request (ReqReadRange id q) → range_answer compare id q root disclosable r → sendable r.
Proof.
  intros ((Hid & Hc & Hr & _ & Hj & Hs & He & Hmr & Hme & _) & Hv & Hnz).
  cbn [validate_request BrokerRequest_request_id] in *.
  unfold ReadJournalRangeRequest_validate in Hv. simplify_result. rewrite !negb_false_iff in *.
  destruct (binding_valid (rd_caller q) (rd_root q)) as [Hbv Hbw]; [done..|].
  intros (covered & complete & cs & e & -> & Hle & -> & Hlen & Hev & Hemax & Hasc & Hall & Hcov & _).
  assert (Forall wf_candidate cs) as Hwf by (by eapply Forall_impl; [exact Hall|intros ? []]).
  assert (is_i64 covered) by (unfold is_sint in *; lia).
  unfold in_range in *. split_and!; [|by split_and!|exists e; split; [done|lia]|done].
  unfold validate_response. rewrite response_id_valid by done. cbn [mbind result_bind].
  unfold validate_read_range. rewrite Hbv. cbn [mbind result_bind]. apply result_seq_Ok. split.
  - apply fail_if_Ok. unfold in_range, MAX_RECORDS in *. case_bool_decide; lia.
  - apply validate_candidates_intro; [|done|done]. apply Forall_and. split; [|done].
    by eapply Forall_impl; [exact Hall|intros ? []].
Qed.

(** An authorised root is the root the request declares, pinned on its volume, with its identity and at its path. *)
Record pinned_as (compare : list Z → list Z → Z → Z) (declared : RootAuthorization) (root : AuthorizedPinnedRoot) : Prop := {
  pn_declared : ap_declared_root root = declared;
  pn_volume : pb_volume_id (ap_pinned_root root) = root_volume_id declared;
  pn_identity : pb_root_identity (ap_pinned_root root) = root_root_identity declared;
  pn_path : ∃ declared_path pinned_path,
    WirePath.validate_root_path (root_canonical_root_utf16 declared) = Ok declared_path ∧
    WirePath.validate_root_path (pb_canonical_root_utf16 (ap_pinned_root root)) = Ok pinned_path ∧
    WirePath.drive_key pinned_path = WirePath.drive_key declared_path ∧
    Forall2 (WirePath.component_matches compare) (WirePath.components pinned_path)
      (zip (WirePath.components declared_path) (ns_components (pb_name_semantics (ap_pinned_root root))));
}.

Lemma facts_pin compare caller declared root :
  validate_authorized_root_facts compare caller declared root = Ok () → pinned_as compare declared root.
Proof.
  intros [Hf%fail_if_Ok Hp]%result_seq_Ok.
  repeat match goal with Hb : _ || _ = false |- _ => apply orb_false_iff in Hb as [Hb ?] end.
  unfold validate_pinned_root in Hp. apply result_seq_Ok in Hp as [Hv%fail_if_Ok Hp]. apply result_seq_Ok in Hp as [Hi%fail_if_Ok Hp].
  rewrite !negb_false_iff, !bool_decide_eq_true in *.
  apply result_bind_Ok in Hp as (nd & Hnd%map_err_Ok & Hp). apply result_bind_Ok in Hp as (np & Hnp%map_err_Ok & Hp).
  apply result_bind_Ok in Hp as (forward & _ & Hp). destruct forward as [[|]|]; [|done..].
  apply result_bind_Ok in Hp as (backward & Hb%map_err_Ok & Hp). destruct backward as [[|]|]; [|done..].
  apply WirePath.scope_under_root_root in Hb as [Hd Hm]. split; [done..|]. by exists nd, np.
Qed.

Lemma facts_declared compare caller declared root :
  validate_authorized_root_facts compare caller declared root = Ok () → ap_declared_root root = declared.
Proof. intros H%facts_pin. apply H. Qed.

Section Execute.
Context {W : Type} `{BrokerPortLaws W}.

Lemma yields_supported root :
  yields (read_supported_journal root)
    (λ m, wf_metadata m ∧ ExistingJournalMetadata_validate m = Ok m).
Proof.
  eapply yields_bind; [apply (yields_ask _ _ (λ j, ∀ m, j = JournalSupported m → wf_metadata m));
    intros cw a Ha m ->; by eapply query_existing_journal_law|]. intros journal Hj.
  eapply yields_mono; [apply yields_check|]. intros m Hm. destruct journal as [m'|]; [|done].
  apply map_err_Ok in Hm. assert (m' = m) as -> by (unfold ExistingJournalMetadata_validate in Hm;
    case_match; [done|by apply (inj Ok) in Hm]). split; [by apply Hj|done].
Qed.

Definition request_range (q : ReadJournalRangeRequest) : JournalRange :=
  {| range_start_usn := rd_start_usn q; range_end_usn := rd_end_usn q |}.
Definition empty_page (q : ReadJournalRangeRequest) : BoundedJournalPageBuilder :=
  BoundedJournalPageBuilder_new (request_range q)
    {| lim_max_records := rd_max_records q; lim_max_evidence_bytes := rd_max_evidence_bytes q |}.

(** Where an answer comes from: the registration of the root was granted to the caller under the capability of the
    request, the backend filled a page for the range of the request, and the host let [disclosable] of it through. *)
Record read_from (caller : CallerAuthorization) (q : ReadJournalRangeRequest) (root : AuthorizedPinnedRoot)
    (disclosable : list BackendJournalCandidate) : Prop := {
  rf_root : ∃ cw, (authorize_registered_root caller (rd_root q) (rd_root_capability q) cw).1 = Ok root;
  rf_page : ∃ before cw cw' proof page,
    (read_existing_journal_page root before (request_range q) (empty_page q) cw).1 = (Ok proof, page) ∧
    (filter_disclosable_candidates root (pg_candidates page) cw').1 = Ok disclosable;
}.

Lemma yields_fill_page root before range builder :
  yields (fill_page root before range builder)
    (λ '(proof, builder'), pushes builder builder' ∧
       ∃ cw, (read_existing_journal_page root before range builder cw).1 = (Ok proof, builder')).
Proof.
  eapply yields_bind.
  { apply (yields_observe _ (λ '(r, builder'), pushes builder builder' ∧
      ∃ cw, (read_existing_journal_page root before range builder cw).1 = (r, builder'))). intros cw.
    pose proof (read_existing_journal_page_law root before range builder cw) as Hlaw.
    destruct (read_existing_journal_page root before range builder cw) as [[p b] ?] eqn:E.
    split; [done|]. exists cw. by rewrite E. }
  intros [p builder'] [Hp (cw & Hcw)]. eapply yields_bind; [apply yields_check|]. intros proof ->%map_err_Ok. apply yields_ret.
  split; [done|]. by exists cw.
Qed.

Lemma yields_range id q caller :
  valid_request (ReqReadRange id q) →
  yields (read_range_answer id q caller)
    (λ r, ∃ root disclosable, pinned_as compare_string_ordinal (rd_root q) root ∧ read_from caller q root disclosable ∧
       range_answer compare_string_ordinal id q root disclosable r).
Proof.
  intros (_ & Hv & _). cbn [validate_request] in Hv.
  unfold ReadJournalRangeRequest_validate in Hv. simplify_result. rewrite !negb_false_iff in *.
  eapply yields_bind; [apply (yields_ask _ _ (λ root, ∃ cw, (authorize_registered_root caller (rd_root q) (rd_root_capability q) cw).1 = Ok root));
    intros cw a Ha; by exists cw|]. intros root Hroot.
  eapply yields_bind; [apply yields_check|]. intros [] Hfacts.
  eapply yields_bind; [apply yields_step|]. intros _ _.
  eapply yields_bind; [apply yields_supported|]. intros before _.
  eapply yields_bind; [apply yields_check|]. intros [] Hrange%fail_if_Ok.
  eapply yields_bind; [apply yields_step|]. intros _ _.
  eapply yields_bind; [apply yields_fill_page|]. intros [proof builder] [Hpush (cw & Hpage)].
  eapply yields_bind; [apply yields_step|]. intros _ _.
  eapply yields_bind; [apply yields_check|]. intros page Hfinish%map_err_Ok.
  assert (bp_candidates page = pg_candidates builder) as Hcand.
  { unfold BoundedJournalPageBuilder_finish in Hfinish. apply result_bind_Ok in Hfinish as (after & _ & Hfinish).
    apply result_seq_Ok in Hfinish as [_ Hfinish]. by apply (inj Ok) in Hfinish as <-. }
  eapply yields_bind; [apply (yields_ask _ _ (λ disclosed, disclosed `sublist_of` bp_candidates page ∧
    ∃ cw, (filter_disclosable_candidates root (bp_candidates page) cw).1 = Ok disclosed));
    intros cw0 a Ha; split; [by eapply filter_disclosable_candidates_law|by exists cw0]|]. intros disclosed [Hsub (cw' & Hdis)].
  eapply yields_bind; [apply yields_step|]. intros _ _.
  eapply yields_bind; [apply yields_check|]. intros cs Hcs. apply yields_ret.
  exists root, disclosed. split; [by eapply facts_pin|]. split.
  - split; [done|]. exists before, cw, cw', proof, builder. split; [exact Hpage|by rewrite <-Hcand].
  - eapply (finished_page _ id q root builder before proof page disclosed cs); try done. lia.
Qed.

(** C22: reading a range always gives an answer that can be sent.  For every behaviour of the ports within
    their contract, the execution of an accepted read does not panic, and when it succeeds its answer
    encodes into a frame that the client decodes to the same answer.  The answer covers a nonempty part of
    the range asked for, is complete exactly at the end of the range, carries at most the records and the
    evidence the request allows, in ascending order of position inside the covered part.  It tells only records of the page
    that the backend filled for that range and that the host let through, each at a place at or below the pinned root; that
    root was granted to the caller, whose claim was verified, under the capability of the request, and is pinned on the volume, with the identity and at
    the path that the request declares. *)
Theorem range_read_answers id key q deadline authenticated w :
  valid_request (ReqReadRange id q) →
  match (execute_read_range id key q deadline authenticated w).1 with
  | Err halt => halt ≠ Panicked
  | Ok r =>
    ∃ caller root disclosable,
      CallerAuthorization_from_verified_claim authenticated (rd_caller q) = Ok caller ∧ active_key id caller = key ∧
      pinned_as compare_string_ordinal (rd_root q) root ∧ read_from caller q root disclosable ∧
      range_answer compare_string_ordinal id q root disclosable r ∧
      ∃ frame, encode_answer r = Ok frame ∧ client_reads frame r
  end.
Proof.
  intros Hv. revert w. eapply yields_bind; [apply yields_verify|]. intros caller Hcaller.
  eapply yields_bind; [apply yields_check|]. intros [] Hkey%fail_if_Ok. rewrite negb_false_iff, bool_decide_eq_true in Hkey.
  apply yields_with_context. eapply yields_mono; [by apply yields_range|]. intros r (root & disclosable & Hp & Hf & Ha).
  exists caller, root, disclosable. split_and!; [done..|]. by eapply sendable_encodes, range_answer_sendable.
Qed.
End Execute.

(** A read of the range from 10 to 20 of a root at [C:\Lib]. *)
Definition sample_caller : CallerClaim :=
  {| caller_process_id := 42; caller_session_id := 1; caller_client_instance := replicate 16 5 |}.
Definition sample_root : RootAuthorization :=
  {| root_root_id := lit "r"; root_root_generation := 1; root_volume_id := lit "v";
     root_root_identity := replicate 16 3; root_canonical_root_utf16 := lit "C:\Lib" |}.
Definition sample_read : ReadJournalRangeRequest :=
  {| rd_caller := sample_caller; rd_root := sample_root;
     rd_root_capability := {| capability_bytes := replicate 32 1 |};
     rd_journal_id := 3; rd_start_usn := 10; rd_end_usn := 20; rd_max_records := 8;
     rd_max_evidence_bytes := 4096; rd_timeout_ms := 1000 |}.
Definition sample_read_key : ActiveRequestKey := connection_key 9 (replicate 16 5) sample_connection.
Definition sample_reading : RegistryState :=
  (begin_execution (accept_read map_to_list sample_open sample_read_key 100 sample_read 0).2 sample_read_key 0).2.

Lemma sample_read_valid : valid_request (ReqReadRange 9 sample_read).
Proof.
  split; [|split; [vm_compute; reflexivity|vm_compute; discriminate]].
  unfold wf_request, wf_caller, wf_root, wf_capability, is_array. cbn [BrokerRequest_request_id].
  apply (bool_decide_unpack _). vm_compute. exact I.
Qed.

Lemma range_read_answers_witness :
  ∃ r root disclosable frame,
    (execute_read_range (H := sample_ports) 9 sample_read_key sample_read 100 sample_connection sample_reading).1
    = Ok r ∧ pinned_as WirePath.ascii_compare sample_root root ∧
    range_answer WirePath.ascii_compare 9 sample_read root disclosable r ∧ client_reads frame r.
Proof.
  pose proof (range_read_answers (H := sample_ports) (H0 := sample_laws) 9 sample_read_key sample_read 100
    sample_connection sample_reading sample_read_valid) as Hw.
  destruct (execute_read_range _ _ _ _ _ _).1 as [r|h] eqn:E in Hw; [|exfalso; vm_compute in E; discriminate E].
  destruct Hw as (caller & root & disclosable & _ & _ & Hp & _ & Ha & frame & _ & Hc). exists r, root, disclosable, frame.
  split; [exact E|split; [exact Hp|split; [exact Ha|exact Hc]]].
Defined.
