(* ===== verification/VolumeSlots.v ===== *)
(** * The outcomes of a volume read

    The invariant of the loops of [execute_read_volume] of [journal_broker/service.rs]: there is one slot per
    requested root, in the order of the request; a slot holds an outcome bound to its root, a failure or an
    account of what was covered, or nothing while an admitted root waits for its answer. *)

From stdpp Require Import sorting.
From S2P Require Import Prelude Text Effects WireBase WirePath Wire Codec Requests Responses ActiveRegistry.
From S2P Require Import Contracts BrokerChecks Service ServiceAnswers Constrain RangeRead ServiceVolume.

(** ** The law of a volume page *)

(** The barrier a backend records for a root is not above a rename the root takes part in. *)
Definition barrier_at (page : SharedBackendJournalPage) (index : nat) (usn : Z) : Prop :=
  ∃ barrier, sb_rename_barriers_by_root page !! index = Some (Some barrier) ∧ barrier ≤ usn.

Definition root_identity_of (root : RootAuthorization) : str * Z := (root_root_id root, root_root_generation root).

Record lawful_handoff (read : ExistingJournalVolumeRead) (page : SharedBackendJournalPage)
    (h : BackendJournalHandoff) : Prop := {
  lh_types : Forall is_u16 (bh_previous_absolute_path_utf16 h) ∧ Forall is_u16 (bh_current_absolute_path_utf16 h) ∧
             Forall is_u8 (bh_file_reference h) ∧ is_i64 (bh_old_usn h) ∧ is_i64 (bh_usn h);
  lh_current : barrier_at page (bh_current_root_index h) (bh_usn h);
  lh_previous : ∀ index, bh_previous_root_index h = Some index → barrier_at page index (bh_old_usn h);
  (* a rename inside one root is a candidate of that root, not a hand-off *)
  lh_cross : ∀ index carry,
    bh_previous_pending_index h = Some index → ev_pending_renames read !! index = Some carry →
    bpc_read_root_index carry ≠ Some (bh_current_root_index h);
}.

Record lawful_pending (page : SharedBackendJournalPage) (p : BackendPendingRename) : Prop := {
  lp_types : Forall is_u16 (bpr_previous_absolute_path_utf16 p) ∧ Forall is_u8 (bpr_file_reference p) ∧
             is_i64 (bpr_old_usn p);
  lp_root : barrier_at page (bpr_root_index p) (bpr_old_usn p);
}.

Record lawful_page (read : ExistingJournalVolumeRead) (page : SharedBackendJournalPage) : Prop := {
  lw_candidates : Forall (λ r, match r with Ok cs => Forall wf_backend_candidate cs | Err _ => True end)
                    (sb_candidates_by_root page);
  lw_handoffs : Forall (lawful_handoff read page) (sb_handoffs page);
  lw_pending : Forall (lawful_pending page) (sb_pending_renames page);
}.

(** A read whose parts belong together, with values of their types. *)
Record typed_read (read : ExistingJournalVolumeRead) : Prop := {
  td_starts : length (ev_root_start_usns read) = length (ev_roots read);
  td_carries : Forall (λ carry, is_i64 (bpc_old_usn carry) ∧ is_str (bpc_previous_relative_path carry) ∧
                  ∀ index, bpc_read_root_index carry = Some index → (index < length (ev_roots read))%nat)
                (ev_pending_renames read);
  td_limits : 0 ≤ lim_max_records (ev_limits read) ∧ 0 ≤ lim_max_evidence_bytes (ev_limits read);
}.

Class VolumePortLaws (W : Type) `{BrokerPorts W} : Prop := {
  volume_page_law read cw page :
    typed_read read → (read_existing_journal_volume_page read cw).1 = Ok page → lawful_page read page;
}.

(** ** Slots *)

Section Slots.
Context (q : ReadJournalVolumeRequest) (admitted : AdmittedRoots).
Context (admitted_unique : NoDup admitted.*1).

Definition bound_outcome (root : SharedJournalRootRequest) (o : SharedJournalRootOutcome) : Prop :=
  out_binding o = ResponseBinding_from_request (rv_caller q) (sr_root root) ∧
  out_requested_start_usn o = sr_start_usn root.

Definition failed_outcome (o : SharedJournalRootOutcome) : Prop :=
  out_covered_until_usn o = None ∧ out_is_complete o = false ∧ out_candidates o = [] ∧ is_Some (out_failure o).

(** An outcome that accounts for the journal up to [covered]. *)
Record accounts (covered : Z) (complete : bool) (root : SharedJournalRootRequest)
    (o : SharedJournalRootOutcome) : Prop := {
  ac_failure : out_failure o = None;
  ac_covered : out_covered_until_usn o = Some covered;
  ac_complete : out_is_complete o = complete;
  ac_valid : Forall (λ c, BrokerCandidate_validate c = Ok () ∧ wf_candidate c) (out_candidates o);
  ac_range : Forall (λ c, sr_start_usn root ≤ cand_usn c < covered) (out_candidates o);
  ac_ascending : ascending (cand_usn <$> out_candidates o);
}.

(** Slot [i] when the admitted roots before [k] are answered, those in [failed] by a failure and the others
    by an outcome in [good]. *)
Definition slot (good : SharedJournalRootRequest → SharedJournalRootOutcome → Prop) (failed : gset nat)
    (k i : nat) (root : SharedJournalRootRequest) (oo : option SharedJournalRootOutcome) : Prop :=
  match oo with
  | None => ∃ a r, admitted !! a = Some (i, r) ∧ a ∉ failed ∧ (k ≤ a)%nat
  | Some o =>
    bound_outcome root o ∧
    ((∃ a r, admitted !! a = Some (i, r) ∧ a ∉ failed ∧ (a < k)%nat) ∧ good root o ∨
     (∀ a r, admitted !! a = Some (i, r) → a ∈ failed) ∧ failed_outcome o)
  end.

Definition slots (good : SharedJournalRootRequest → SharedJournalRootOutcome → Prop) (failed : gset nat)
    (k : nat) (outcomes : Outcomes) : Prop :=
  length outcomes = length (rv_roots q) ∧
  ∀ i root oo, rv_roots q !! i = Some root → outcomes !! i = Some oo → slot good failed k i root oo.

Lemma admitted_inj a b i r s : admitted !! a = Some (i, r) → admitted !! b = Some (i, s) → a = b.
Proof.
  intros Ha Hb. eapply (NoDup_lookup admitted.*1); [exact admitted_unique|..];
    by rewrite list_lookup_fmap, ?Ha, ?Hb.
Qed.

Lemma failure_bound root code :
  let o := shared_failure_outcome (rv_caller q) root code in bound_outcome root o ∧ failed_outcome o.
Proof. cbn. split; [done|]. split_and!; by try eexists. Qed.

Lemma slots_fail good failed k outcomes a i r root code :
  slots good failed k outcomes → admitted !! a = Some (i, r) → rv_roots q !! i = Some root →
  slots good ({[a]} ∪ failed) k (set_failure q root i code outcomes).
Proof.
  intros [Hlen Hs] Ha Hr. unfold set_failure. split; [by rewrite length_insert|].
  intros j root' oo Hj Ho. destruct (decide (i = j)) as [<-|Hne].
  - rewrite list_lookup_insert_eq in Ho by (rewrite Hlen; by eapply lookup_lt_Some). simplify_eq.
    destruct (failure_bound root code) as [? ?]. split; [done|]. right. split; [|done].
    intros b s Hb. rewrite (admitted_inj b a i s r) by done. set_solver.
  - rewrite list_lookup_insert_ne in Ho by done. specialize (Hs j root' oo Hj Ho).
    assert (∀ b s, admitted !! b = Some (j, s) → b ≠ a) as Hab by (intros b s Hb ->; simplify_eq).
    destruct oo as [o|]; cbn [slot] in *.
    + destruct Hs as (? & [[(b & s & Hb & Hn & ?) ?]|[Hall ?]]); (split; [done|]); [left|right]; (split; [|done]).
      * exists b, s. split_and!; [done| |done]. specialize (Hab _ _ Hb). set_solver.
      * intros b s Hb. specialize (Hall b s Hb). set_solver.
    + destruct Hs as (b & s & Hb & Hn & ?). exists b, s. split_and!; [done| |done]. specialize (Hab _ _ Hb). set_solver.
Qed.

Lemma slots_answer (good : SharedJournalRootRequest → SharedJournalRootOutcome → Prop) failed outcomes a i r root o :
  slots good failed a outcomes → admitted !! a = Some (i, r) → rv_roots q !! i = Some root →
  a ∉ failed → bound_outcome root o → good root o →
  slots good failed (S a) (<[i := Some o]> outcomes).
Proof.
  intros [Hlen Hs] Ha Hr Hf Hb Hg. split; [by rewrite length_insert|].
  intros j root' oo Hj Ho. destruct (decide (i = j)) as [<-|Hne].
  - rewrite list_lookup_insert_eq in Ho by (rewrite Hlen; by eapply lookup_lt_Some). simplify_eq.
    split; [done|]. left. split; [|done]. exists a, r. split_and!; [done|done|lia].
  - rewrite list_lookup_insert_ne in Ho by done. specialize (Hs j root' oo Hj Ho). destruct oo as [o'|]; cbn [slot] in *.
    + destruct Hs as (? & [[(b & s & ? & ? & ?) ?]|?]); (split; [done|]); [left|by right]. split; [|done].
      exists b, s. split_and!; [done|done|lia].
    + destruct Hs as (b & s & Hb' & ? & ?). exists b, s. split_and!; [done|done|].
      assert (b ≠ a) by (intros ->; simplify_eq). lia.
Qed.

Lemma slots_skip good failed outcomes a :
  slots good failed a outcomes → a ∈ failed → slots good failed (S a) outcomes.
Proof.
  intros [Hlen Hs] Hf. split; [done|]. intros i root oo Hi Ho. specialize (Hs i root oo Hi Ho).
  destruct oo as [o|]; cbn [slot] in *.
  - destruct Hs as (? & [[(b & s & ? & ? & ?) ?]|?]); (split; [done|]); [left|by right]. split; [|done].
    exists b, s. split_and!; [done|done|lia].
  - destruct Hs as (b & s & ? & ? & ?). exists b, s. split_and!; [done|done|].
    assert (b ≠ a) by (intros ->; done). lia.
Qed.
End Slots.

(** * Admission of a volume read *)

Lemma enumerate_lookup {A : Type} (l : list A) i x : enumerate l !! i = Some x ↔ x.1 = i ∧ l !! i = Some x.2.
Proof.
  unfold enumerate. rewrite lookup_zip_with_Some. split.
  - intros (j & y & -> & Hj & Hy). apply lookup_seq in Hj as [-> _]. done.
  - intros [<- Hx]. exists x.1, x.2. split_and!; [by destruct x| |done]. apply lookup_seq.
    split; [done|]. by eapply lookup_lt_Some.
Qed.

Lemma enumerate_prefix {A : Type} (l : list A) seen x :
  seen ++ [x] `prefix_of` enumerate l → x = (length seen, x.2) ∧ l !! length seen = Some x.2.
Proof.
  intros [rest Hp].
  assert (enumerate l !! length seen = Some x) as Hx.
  { rewrite Hp, <-app_assoc. by apply list_lookup_middle. }
  apply enumerate_lookup in Hx as [<- Hx]. split; [by destruct x|done].
Qed.

Section Admission.
Context (q : ReadJournalVolumeRequest).

Abbreviation nothing := (λ (_ : SharedJournalRootRequest) (_ : SharedJournalRootOutcome), False).

Lemma slots_refuse admitted outcomes i root code :
  slots q admitted nothing ∅ 0 outcomes → (∀ a r, admitted !! a ≠ Some (i, r)) → rv_roots q !! i = Some root →
  slots q admitted nothing ∅ 0 (set_failure q root i code outcomes).
Proof.
  intros [Hlen Hs] Hn Hr. split; [by unfold set_failure; rewrite length_insert|]. intros j root' oo Hj Ho.
  unfold set_failure in Ho. destruct (decide (i = j)) as [<-|Hne].
  - rewrite list_lookup_insert_eq in Ho by (rewrite Hlen; by eapply lookup_lt_Some). simplify_eq.
    destruct (failure_bound q root code). split; [done|]. right. split; [|done]. intros a r Ha. by destruct (Hn a r).
  - rewrite list_lookup_insert_ne in Ho by done. by apply Hs.
Qed.

Lemma slots_admit admitted outcomes i r :
  slots q admitted nothing ∅ 0 outcomes → (∀ a r, admitted !! a ≠ Some (i, r)) →
  slots q (admitted ++ [(i, r)]) nothing ∅ 0 (<[i := None]> outcomes).
Proof.
  intros [Hlen Hs] Hn. split; [by rewrite length_insert|]. intros j root oo Hj Ho.
  destruct (decide (i = j)) as [<-|Hne].
  - rewrite list_lookup_insert_eq in Ho by (rewrite Hlen; by eapply lookup_lt_Some). simplify_eq.
    exists (length admitted), r. split_and!; [by rewrite list_lookup_middle|set_solver|lia].
  - rewrite list_lookup_insert_ne in Ho by done. specialize (Hs j root oo Hj Ho). destruct oo as [o|]; cbn [slot] in *.
    + destruct Hs as (? & [[_ []]|[Hall ?]]). split; [done|]. right. split; [|done].
      intros a s Ha. apply (Hall a s). apply lookup_snoc_Some in Ha as [[_ ?]|[_ ?]]; [done|simplify_eq].
    + destruct Hs as (a & s & Ha & ? & ?). exists a, s. split_and!; [by apply lookup_app_l_Some|done|done].
Qed.

(** The state of the admission after the roots before [k]. *)
Record admission_ok (k : nat) (st : Admission) : Prop := {
  ao_slots : slots q (ad_admitted st) nothing ∅ 0 (ad_outcomes st);
  ao_roots : Forall (λ '(i, r), (i < k)%nat ∧ ∃ root, rv_roots q !! i = Some root ∧
                                 ap_declared_root r = sr_root root) (ad_admitted st);
  ao_unique : NoDup (ad_admitted st).*1;
  ao_before : ad_admitted st ≠ [] → is_Some (ad_before st);
}.

Lemma admission_fresh k st a r : admission_ok k st → ad_admitted st !! a ≠ Some (k, r).
Proof.
  intros [_ Hr _ _] Ha. eapply Forall_lookup_1 in Hr; [|exact Ha]. cbn in Hr. lia.
Qed.

Lemma admission_start :
  admission_ok 0 {| ad_outcomes := (λ root, Some (shared_failure_outcome (rv_caller q) root Internal)) <$> rv_roots q;
                    ad_admitted := []; ad_before := None |}.
Proof.
  split; cbn; [|constructor|constructor|done]. split; [by rewrite length_fmap|].
  intros i root oo Hi Ho. rewrite list_lookup_fmap, Hi in Ho. cbn in Ho. simplify_eq.
  destruct (failure_bound q root Internal). split; [done|]. right. split; [|done]. intros a r Ha. by rewrite lookup_nil in Ha.
Qed.

Lemma admission_refused k st root code :
  admission_ok k st → rv_roots q !! k = Some root → admission_ok (S k) (refuse_root q root k code st).
Proof.
  intros Hok Hk. pose proof Hok as [Hs Hr Hu Hb]. split; cbn; [|..|done|done].
  - apply slots_refuse; [done| |done]. intros a r. by eapply admission_fresh.
  - eapply Forall_impl; [exact Hr|]. intros [i r] [? ?]. split; [lia|done].
Qed.

Lemma admission_admitted k st root r metadata :
  admission_ok k st → rv_roots q !! k = Some root → ap_declared_root r = sr_root root →
  admission_ok (S k)
    {| ad_outcomes := <[k := None]> (ad_outcomes st);
       ad_admitted := ad_admitted st ++ [(k, r)];
       ad_before := match ad_before st with Some before => Some before | None => Some metadata end |}.
Proof.
  intros Hok Hk Hd. pose proof (admission_fresh k st) as Hf. pose proof Hok as [Hs Hr Hu Hb]. split; cbn.
  - apply slots_admit; [done|]. intros a s. by apply Hf.
  - apply Forall_app. split; [|apply Forall_singleton; split; [lia|by exists root]].
    eapply Forall_impl; [exact Hr|]. intros [i s] [? ?]. split; [lia|done].
  - rewrite fmap_app. apply NoDup_app. split_and!; [done| |apply NoDup_singleton].
    intros i Hi Hk'%list_elem_of_singleton. cbn in Hk'. subst. apply list_elem_of_fmap in Hi as ([i s] & -> & Hi).
    apply list_elem_of_lookup in Hi as [a Ha]. by destruct (Hf a s Hok).
  - intros _. by destruct (ad_before st).
Qed.
End Admission.

Section Loops.
Context {W : Type} `{BrokerPortLaws W} (q : ReadJournalVolumeRequest) (caller : CallerAuthorization).

Lemma yields_admit_root k st root :
  admission_ok q k st → rv_roots q !! k = Some root →
  yields (admit_root q caller st (k, root)) (admission_ok q (S k)).
Proof.
  intros Hok Hk. unfold admit_root.
  eapply yields_bind; [apply yields_step|]. intros _ _.
  eapply yields_bind; [by apply (yields_attempt _ (λ _, True))|]. intros [r|e] _;
    [|by apply yields_ret, admission_refused].
  destruct (validate_authorized_root_facts _ _ _ _) as [[]|failure] eqn:Hfacts;
    [|by apply yields_ret, admission_refused].
  eapply yields_bind; [apply yields_step|]. intros _ _.
  eapply yields_bind; [by apply (yields_attempt _ (λ _, True))|]. intros [[m|]|e] _;
    [|by apply yields_ret, admission_refused..].
  destruct (ExistingJournalMetadata_validate m) as [m'|e]; [|by apply yields_ret, admission_refused].
  destruct (_ || _); [by apply yields_ret, admission_refused|].
  apply yields_ret, admission_admitted with root; [done|done|]. by eapply facts_declared.
Qed.

Lemma yields_admit_roots : yields (admit_roots q caller) (admission_ok q (length (rv_roots q))).
Proof.
  eapply yields_mono; [apply (yields_foldl _ (λ seen st, admission_ok q (length seen) st)); [apply admission_start|]|].
  - intros seen st x [Hx Hl]%enumerate_prefix Hok. rewrite Hx. rewrite length_app, Nat.add_1_r.
    by apply yields_admit_root.
  - intros st Hst. unfold enumerate in Hst. by rewrite length_zip_with, length_seq, Nat.min_id in Hst.
Qed.

(** ** Renames carried over *)

Definition carry_ok (admitted : AdmittedRoots) (pending : SharedJournalPendingRenameRequest)
    (carry : BackendPendingRenameCarry) : Prop :=
  (∀ r, bpc_root carry = Some r → ap_declared_root r = sp_root pending) ∧
  bpc_read_root_index carry = declared_admitted_index q admitted (sp_root pending) ∧
  bpc_old_usn carry = sp_old_usn pending ∧ bpc_previous_relative_path carry = sp_previous_relative_path pending.

Definition failures_ok (admitted : AdmittedRoots) (failures : RootFailures) : Prop :=
  Forall (λ f, (f.1 < length admitted)%nat) failures.

Lemma declared_index_lt admitted root a :
  declared_admitted_index q admitted root = Some a → (a < length admitted)%nat.
Proof.
  unfold declared_admitted_index. intros ([a' x] & Hl & ->)%fmap_Some. cbn.
  apply list_find_Some in Hl as (Hl & _). by eapply lookup_lt_Some.
Qed.

Lemma yields_carry admitted seen carries failures pending :
  Forall2 (carry_ok admitted) seen carries → failures_ok admitted failures →
  yields (carry_pending q caller admitted (carries, failures) pending)
    (λ st, Forall2 (carry_ok admitted) (seen ++ [pending]) st.1 ∧ failures_ok admitted st.2).
Proof.
  intros Hc Hf. unfold carry_pending. set (index := declared_admitted_index _ _ _).
  assert (∀ code, failures_ok admitted
    match index with Some i => failures ++ [(i, code)] | None => failures end) as Hreport.
  { intros code. destruct index as [i|] eqn:E; [|done]. apply Forall_app. split; [done|].
    apply Forall_singleton. by eapply declared_index_lt. }
  eapply (yields_bind _ _ (λ rf, (∀ r, rf.1 = Some r → ap_declared_root r = sp_root pending) ∧
                                 failures_ok admitted rf.2)).
  - destruct (sp_root_capability pending) as [capability|]; [|by apply yields_ret].
    eapply yields_bind; [by apply (yields_attempt _ (λ _, True))|]. intros authorized _. apply yields_ret.
    destruct authorized as [r|e]; [|by split; [|apply Hreport]].
    destruct (validate_authorized_root_facts _ _ _ _) as [[]|failure] eqn:Hfacts; [|by split; [|apply Hreport]].
    split; [|done]. intros ? [= <-]. by eapply facts_declared.
  - intros [root failures'] [Hr Hf']. apply yields_ret. split; [|done]. cbn.
    apply Forall2_app; [done|]. constructor; [|constructor]. by split.
Qed.

Lemma yields_carries admitted :
  yields (run_foldl (carry_pending q caller admitted) ([], []) (rv_pending_renames q))
    (λ st, Forall2 (carry_ok admitted) (rv_pending_renames q) st.1 ∧ failures_ok admitted st.2).
Proof.
  apply (yields_foldl _ (λ seen st, Forall2 (carry_ok admitted) seen st.1 ∧ failures_ok admitted st.2)).
  - split; constructor.
  - intros seen [carries failures] pending _ [? ?]. by apply yields_carry.
Qed.

(** The request of the backend. *)
Record read_ok (st : Admission) (read : ExistingJournalVolumeRead) : Prop := {
  rk_roots : ev_roots read = (ad_admitted st).*2;
  rk_pending : Forall2 (carry_ok (ad_admitted st)) (rv_pending_renames q) (ev_pending_renames read);
  rk_start : ∀ i r root, (i, r) ∈ ad_admitted st → rv_roots q !! i = Some root →
             range_start_usn (ev_range read) ≤ sr_start_usn root;
  rk_end : range_end_usn (ev_range read) = rv_end_usn q;
  rk_starts : length (ev_root_start_usns read) = length (ad_admitted st);
  rk_limits : ev_limits read = {| lim_max_records := rv_max_records q;
                                  lim_max_evidence_bytes := rv_max_evidence_bytes q |};
}.

Lemma yields_shared_read k st :
  admission_ok q k st → ad_admitted st ≠ [] →
  yields (shared_read q caller st) (λ rf, read_ok st rf.1 ∧ failures_ok (ad_admitted st) rf.2).
Proof.
  intros [_ Hr _ Hb] Hne. unfold shared_read.
  eapply yields_bind; [apply yields_check|]. intros metadata _.
  eapply yields_bind.
  { apply yields_expect. apply mapM_is_Some_2. eapply Forall_impl; [exact Hr|].
    intros [i r] (_ & root & Hroot & _). cbn. rewrite Hroot. by eexists. }
  intros starts Hstarts%mapM_Some.
  eapply yields_bind; [apply yields_check|]. intros start Hstart%ok_or_Ok.
  eapply yields_bind; [apply yields_carries|]. intros [carries failures] [Hc Hf].
  apply yields_ret. split; [|done].
  split; cbn; [done|done| |done|symmetry; by eapply Forall2_length|done].
  intros i r root Hin Hroot. destruct starts as [|u us]; [done|]. apply (inj Some) in Hstart as <-.
  apply list_elem_of_lookup in Hin as [a Ha]. eapply Forall2_lookup_l in Hstarts as (v & Hv & Hroot'); [|exact Ha].
  cbn in Hroot'. rewrite Hroot in Hroot'. cbn in Hroot'. simplify_eq.
  destruct (foldl_min_le us u) as [Hu Hus]. apply list_elem_of_lookup_2 in Hv.
  apply elem_of_cons in Hv as [->|Hv]; [done|]. rewrite Forall_forall in Hus. by apply Hus.
Qed.

Lemma read_typed st read :
  read_ok st read → Forall wf_pending_request (rv_pending_renames q) →
  is_u32 (rv_max_records q) → is_u32 (rv_max_evidence_bytes q) → typed_read read.
Proof.
  intros [Hr Hp _ _ Hs Hl] Hwf Hm He. split.
  - by rewrite Hs, Hr, length_fmap.
  - rewrite Hr, length_fmap. apply Forall_lookup. intros i carry Hi.
    eapply Forall2_lookup_r in Hp as (pending & Hpending & _ & Hindex & -> & ->); [|exact Hi].
    pose proof (proj1 (Forall_lookup _ _) Hwf _ _ Hpending) as (_ & _ & _ & _ & _ & ? & ?). split_and!; [done|done|].
    intros a Ha. rewrite Hindex in Ha. by eapply declared_index_lt.
  - rewrite Hl. destruct Hm, He. cbn. lia.
Qed.
End Loops.
