(* ===== verification/VolumeAnswers.v ===== *)
(** * Answering the admitted roots

    Specifies the loops of [execute_read_volume] of [journal_broker/service.rs] that turn the candidates of a
    shared page into outcomes, and what [validate_shared_backend_page] establishes for them. *)

From stdpp Require Import sorting.
From S2P Require Import Prelude Text Effects WireBase WirePath Wire Codec Requests Responses ActiveRegistry.
From S2P Require Import Contracts BrokerChecks Service ServiceAnswers Constrain RangeRead ServiceVolume VolumeSlots.

(** ** What a validated page satisfies *)

Lemma existsb_false {A : Type} (f : A → bool) l : existsb f l = false ↔ Forall (λ x, f x = false) l.
Proof.
  induction l as [|x l IH]; cbn; [split; [constructor|done]|]. rewrite orb_false_iff, Forall_cons, IH. done.
Qed.

Lemma past_proof_false page usn :
  past_proof page usn = false ↔ ∃ proof, sb_proof page = Some proof ∧ usn < jp_covered_until_usn proof.
Proof.
  unfold past_proof. destruct (sb_proof page) as [proof|]; cbn; [|naive_solver]. rewrite Z.leb_gt.
  split; [by eexists|]. by intros (? & [= <-] & ?).
Qed.

Lemma candidates_not_rejected range page u cs :
  candidates_rejected range page u cs = false →
  ascending (bc_usn <$> cs) ∧ (∀ v, u = Some v → Forall (λ c, v < bc_usn c) cs) ∧
  Forall (λ c, range_start_usn range ≤ bc_usn c ∧
               ∃ proof, sb_proof page = Some proof ∧ bc_usn c < jp_covered_until_usn proof) cs.
Proof.
  revert u. induction cs as [|c cs IH]; intros u Hc; cbn [candidates_rejected] in Hc.
  { split_and!; [constructor|intros; constructor|constructor]. }
  rewrite !orb_false_iff in Hc. destruct Hc as [[[Hs Hp%past_proof_false] Hu] (Ha & Hn & Hall)%IH].
  specialize (Hn _ eq_refl). split_and!.
  - cbn. constructor; [done|]. by rewrite Forall_fmap.
  - intros v ->. constructor; [lia|]. eapply Forall_impl; [exact Hn|]. cbn. lia.
  - constructor; [split; [lia|done]|done].
Qed.

Record page_facts (range : JournalRange) (n : nat) (page : SharedBackendJournalPage) : Prop := {
  pf_candidates : length (sb_candidates_by_root page) = n;
  pf_barriers : length (sb_rename_barriers_by_root page) = n;
  pf_barrier_range : ∀ i b, sb_rename_barriers_by_root page !! i = Some (Some b) → b < range_end_usn range;
  pf_handoffs : Forall (λ h, handoff_rejected range page n h = false) (sb_handoffs page);
  pf_pending : Forall (λ p, (bpr_root_index p < n)%nat) (sb_pending_renames page);
  pf_healthy : ∀ i cs, sb_candidates_by_root page !! i = Some (Ok cs) →
    (∃ proof, sb_proof page = Some proof) ∧ ascending (bc_usn <$> cs) ∧
    Forall (λ c, ∃ proof, sb_proof page = Some proof ∧ bc_usn c < jp_covered_until_usn proof) cs;
  pf_proof : ∀ proof, sb_proof page = Some proof → jp_covered_until_usn proof ≤ range_end_usn range;
}.

Lemma validated_page before range page n :
  validate_shared_backend_page before range page n = Ok () → page_facts range n page.
Proof.
  unfold validate_shared_backend_page. intros Hv.
  apply result_bind_Ok in Hv as (interval & Hi%ok_or_Ok & Hv). apply result_seq_Ok in Hv as [Hr%fail_if_Ok Hv].
  unfold page_rejected in Hr. rewrite !orb_false_iff, !negb_false_iff, !existsb_false in Hr.
  destruct Hr as [[[[[[[[Hc Hb] Hbr] _] Hok] _] Hh] Hp] Hcs]. apply Nat.eqb_eq in Hc, Hb.
  split; [done|done|..].
  - intros i b Hib. eapply Forall_lookup_1 in Hbr; [|exact Hib]. cbn in Hbr. lia.
  - done.
  - eapply Forall_impl; [exact Hp|]. intros p Hlt. apply orb_false_iff in Hlt as [Hlt _].
    unfold out_of_roots in Hlt. by apply Nat.leb_gt in Hlt.
  - intros i cs Hi'. split.
    + apply eqb_prop in Hok. assert (existsb is_ok (sb_candidates_by_root page) = true) as Hex.
      { apply existsb_exists. exists (Ok cs). split; [|done]. apply list_elem_of_In. by eapply list_elem_of_lookup_2. }
      rewrite Hex in Hok. symmetry in Hok. by apply bool_decide_eq_true in Hok.
    + eapply Forall_lookup_1 in Hcs; [|exact Hi']. cbn in Hcs. apply candidates_not_rejected in Hcs as (? & _ & Hall).
      split; [done|]. eapply Forall_impl; [exact Hall|]. by intros ? [].
  - intros proof Hproof. rewrite Hproof in Hv. apply result_bind_Ok in Hv as (after & _ & Hv%fail_if_Ok).
    apply orb_false_iff in Hv as [_ Hadm%negb_false_iff].
    apply JournalReadInterval_new_Some in Hi as [-> _]. unfold JournalReadInterval_admits_coverage in Hadm.
    cbn in Hadm. destruct (_ || _) eqn:E in Hadm; [done|]. apply orb_false_iff in E as [_ E]. lia.
Qed.

(** ** Failures and answers *)

(** What the admission leaves of the admitted roots. *)
Definition admitted_ok (q : ReadJournalVolumeRequest) (admitted : AdmittedRoots) : Prop :=
  NoDup admitted.*1 ∧
  ∀ a i r, admitted !! a = Some (i, r) →
    ∃ root, rv_roots q !! i = Some root ∧ ap_declared_root r = sr_root root.

Lemma admission_admitted_ok q k st : admission_ok q k st → admitted_ok q (ad_admitted st).
Proof.
  intros [_ Hr Hu _]. split; [done|]. intros a i r Ha. eapply Forall_lookup_1 in Hr; [|exact Ha].
  by destruct Hr as [_ ?].
Qed.

Definition answers_ok (q : ReadJournalVolumeRequest) (admitted : AdmittedRoots)
    (good : SharedJournalRootRequest → SharedJournalRootOutcome → Prop) (k : nat) (st : Answers) : Prop :=
  slots q admitted good (an_failed st) k (an_outcomes st) ∧
  ∀ a, a ∈ an_failed st → (a < length admitted)%nat.

(** The account of the roots that did not fail. *)
Definition covered_account (q : ReadJournalVolumeRequest) (page : SharedBackendJournalPage)
    (root : SharedJournalRootRequest) (o : SharedJournalRootOutcome) : Prop :=
  ∃ proof, sb_proof page = Some proof ∧
    accounts (jp_covered_until_usn proof) (jp_is_complete proof) root o ∧
    coverage_refused (sr_start_usn root) (rv_end_usn q) proof = false.

Section Answers.
Context {W : Type} `{BrokerPortLaws W} (q : ReadJournalVolumeRequest) (admitted : AdmittedRoots).
Context (Hadmitted : admitted_ok q admitted).

Lemma fail_answer_ok good k st a i r root code :
  answers_ok q admitted good k st → admitted !! a = Some (i, r) → rv_roots q !! i = Some root →
  answers_ok q admitted good k (fail_answer q root a i code st).
Proof.
  intros [Hs Hf] Ha Hr. destruct Hadmitted as [Hu _]. split; cbn.
  - by eapply slots_fail.
  - intros b [->%elem_of_singleton|Hb]%elem_of_union; [by eapply lookup_lt_Some|by apply Hf].
Qed.

Lemma yields_fail_admitted good k failures st :
  failures_ok admitted failures → answers_ok q admitted good k st →
  yields (run_foldl (fail_admitted q admitted) st failures : Run BrokerFailure (RequestContext * W) _)
    (answers_ok q admitted good k).
Proof.
  intros Hf Hst. apply yields_foldl_inv; [done|]. intros st' [a code] Hin Hst'.
  unfold failures_ok in Hf. rewrite Forall_forall in Hf. specialize (Hf _ Hin). cbn in Hf.
  apply lookup_lt_is_Some_2 in Hf as [[i r] Ha]. destruct Hadmitted as [_ Hroots].
  destruct (Hroots _ _ _ Ha) as (root & Hroot & _). unfold fail_admitted.
  eapply yields_bind; [apply yields_expect; by eexists|]. intros [i' r'] Ha'. cbv beta in Ha'. simplify_eq.
  eapply yields_bind; [apply yields_expect; by eexists|]. intros root' Hroot'. cbv beta in Hroot'. simplify_eq.
  apply yields_ret. by eapply fail_answer_ok.
Qed.

(** The outcome of a root whose candidates were disclosed. *)
Lemma disclosed_account page range n root r candidates disclosed cs proof a i :
  page_facts range n page → sb_candidates_by_root page !! a = Some (Ok candidates) →
  Forall wf_backend_candidate candidates → sb_proof page = Some proof →
  coverage_refused (sr_start_usn root) (rv_end_usn q) proof = false →
  disclosed `sublist_of` filter (λ c, sr_start_usn root ≤ bc_usn c) candidates →
  constrain_candidates compare_string_ordinal r disclosed = Ok cs →
  admitted !! a = Some (i, r) → rv_roots q !! i = Some root →
  let o := {| out_binding := ResponseBinding_from_request (rv_caller q) (sr_root root);
              out_requested_start_usn := sr_start_usn root;
              out_covered_until_usn := Some (jp_covered_until_usn proof);
              out_is_complete := jp_is_complete proof;
              out_candidates := cs;
              out_failure := None |} in
  bound_outcome q root o ∧ covered_account q page root o.
Proof.
  intros [_ _ _ _ _ Hh _] Hcs Hwf Hproof Href Hsub Hcon Ha Hr o. split; [done|].
  exists proof. split_and!; [done| |done].
  assert (filter (λ c, sr_start_usn root ≤ bc_usn c) candidates `sublist_of` candidates) as Hfs by apply sublist_filter.
  assert (Forall wf_backend_candidate disclosed) as Hwd by (eapply sublist_Forall; [by etrans|done]).
  destruct (constrain_candidates_spec _ _ _ _ Hwd Hcon) as (kept & Hkept & Htold).
  pose proof (told_usns _ _ _ _ Htold) as Husn. pose proof (told_valid _ _ _ _ Htold) as Hvalid.
  assert (kept `sublist_of` filter (λ c, sr_start_usn root ≤ bc_usn c) candidates) as Hk by (by etrans).
  destruct (Hh _ _ Hcs) as (_ & Hasc & Hcov).
  split; cbn; [done|done|done|done|..].
  - apply (Forall_fmap cand_usn (λ u, sr_start_usn root ≤ u < jp_covered_until_usn proof)). rewrite Husn.
    eapply sublist_Forall; [by apply sublist_fmap_usn|]. apply Forall_fmap, Forall_forall. cbn.
    intros c [Hle Hin]%list_elem_of_filter. rewrite Forall_forall in Hcov.
    destruct (Hcov _ Hin) as (proof' & ? & ?). simplify_eq. done.
  - rewrite Husn. eapply sublist_ascending; [|exact Hasc]. apply sublist_fmap_usn. by etrans.
Qed.

Lemma yields_answer_root page range n st a i r candidates :
  page_facts range n page → admitted !! a = Some (i, r) → sb_candidates_by_root page !! a = Some candidates →
  match candidates with Ok cs => Forall wf_backend_candidate cs | Err _ => True end →
  answers_ok q admitted (covered_account q page) a st →
  yields (answer_root q (sb_proof page) st (a, ((i, r), candidates)))
    (answers_ok q admitted (covered_account q page) (S a)).
Proof.
  intros Hpage Ha Hc Hwf Hst. destruct Hadmitted as [Hu Hroots]. destruct (Hroots _ _ _ Ha) as (root & Hroot & _).
  assert (∀ st, answers_ok q admitted (covered_account q page) a st → a ∈ an_failed st →
    answers_ok q admitted (covered_account q page) (S a) st) as Hskip.
  { intros st' [Hs Hf] Hin. split; [by apply slots_skip|done]. }
  unfold answer_root. case_bool_decide as Hfail; [by apply yields_ret, Hskip|].
  eapply yields_bind; [apply yields_expect; by eexists|]. intros root' Hroot'. cbv beta in Hroot'. simplify_eq.
  assert (∀ code, yields (mret (fail_answer q root a i code st) : Run BrokerFailure (RequestContext * W) _)
    (answers_ok q admitted (covered_account q page) (S a))) as Hfailed.
  { intros code. apply yields_ret, Hskip; [by eapply fail_answer_ok|]. cbn. apply elem_of_union_l, elem_of_singleton_2. done. }
  destruct candidates as [candidates|e]; [|apply Hfailed].
  eapply yields_bind; [apply yields_check|]. intros proof Hproof%ok_or_Ok.
  destruct (coverage_refused _ _ _) eqn:Hcov; [apply Hfailed|].
  eapply yields_bind.
  { apply (yields_attempt _ (λ d, ∀ ds, d = Ok ds →
      ds `sublist_of` filter (λ c, sr_start_usn root ≤ bc_usn c) candidates)).
    intros cw ds Hds. by eapply filter_disclosable_candidates_law. }
  intros [disclosed|e] Hd; [|apply Hfailed]. specialize (Hd _ eq_refl).
  destruct (constrain_candidates _ _ _) as [cs|e] eqn:Hcs; [|apply Hfailed].
  destruct (disclosed_account page range n root r candidates disclosed cs proof a i) as [Hb Hg]; [done..|].
  destruct Hst as [Hs Hf]. apply yields_ret. split; [|done]. cbn [an_outcomes an_failed]. by eapply slots_answer.
Qed.

Lemma yields_answer_roots page range st :
  page_facts range (length admitted) page →
  Forall (λ r, match r with Ok cs => Forall wf_backend_candidate cs | Err _ => True end) (sb_candidates_by_root page) →
  answers_ok q admitted (covered_account q page) 0 st →
  yields (run_foldl (answer_root q (sb_proof page)) st (enumerate (zip admitted (sb_candidates_by_root page))))
    (answers_ok q admitted (covered_account q page) (length admitted)).
Proof.
  intros Hpage Hwf Hst. pose proof (pf_candidates _ _ _ Hpage) as Hlen.
  eapply yields_mono; [apply (yields_foldl _ (λ seen st, answers_ok q admitted (covered_account q page) (length seen) st));
    [done|]|].
  - intros seen st' x [-> Hl]%enumerate_prefix Hok. rewrite length_app, Nat.add_1_r.
    destruct x as [? [[i r] candidates]]. cbn [snd] in *.
    apply lookup_zip_with_Some in Hl as ([i' r'] & c' & Heq & Ha & Hc). simplify_eq.
    eapply yields_answer_root; try done. rewrite Forall_lookup in Hwf. by eapply Hwf.
  - intros st'. unfold enumerate. rewrite !length_zip_with, length_seq, Hlen, !Nat.min_id. done.
Qed.
End Answers.
