(* ===== verification/VolumeTranslation.v ===== *)
(** * Translating renames of a shared page

    Specifies [translate_shared_pending_renames] and [translate_shared_handoffs] of
    [journal_broker/service.rs]: what they tell is bound to admitted roots and lies in the covered range, and
    the barrier they lower is one the healthy roots can be held below. *)

From S2P Require Import Prelude Text Effects WireBase WirePath Wire Codec Requests Responses ActiveRegistry.
From S2P Require Import Contracts BrokerChecks Service ServiceAnswers Constrain RangeRead ServiceVolume VolumeSlots.
From S2P Require Import VolumeAnswers.
Import WirePath(validate_relative_path).

(** ** Disclosed paths *)

Definition good_path (path : str) : Prop := validate_relative_path path = Ok () ∧ is_str path.

Section Translation.
Context {W : Type} `{BrokerPortLaws W} (q : ReadJournalVolumeRequest) (admitted : AdmittedRoots).

Lemma yields_disclose root candidate :
  (∀ c, candidate = Ok c → wf_backend_candidate c) →
  yields (disclose_path root candidate) (λ d, ∀ path, d = Ok path → good_path path).
Proof.
  intros Hwf. unfold disclose_path. destruct candidate as [c|e]; [|by apply yields_ret].
  eapply yields_bind.
  { apply (yields_attempt _ (λ d, ∀ ds, d = Ok ds → ds `sublist_of` [c])).
    intros cw ds Hds. by eapply filter_disclosable_candidates_law. }
  intros [ds|e] Hds; apply yields_ret; [|done]. intros path Hp. specialize (Hds _ eq_refl).
  destruct (constrain_candidates _ _ _) as [cs|e] eqn:Hcs; [|done]. apply ok_or_Ok in Hp.
  assert (Forall wf_backend_candidate ds) as Hw.
  { eapply sublist_Forall; [exact Hds|]. apply Forall_singleton. auto. }
  destruct (constrain_candidates_spec _ _ _ _ Hw Hcs) as (kept & _ & Htold).
  unfold only_relative_path in Hp. destruct cs as [|x [|? ?]]; [done| |done].
  destruct (cand_scope x) as [|p] eqn:Hx; [done|]. apply (inj Some) in Hp as ->.
  pose proof (told_valid _ _ _ _ Htold) as Hv. apply Forall_singleton in Hv as [Hv Hwc].
  unfold BrokerCandidate_validate in Hv. rewrite Hx in Hv. simplify_result.
  destruct Hwc as (Hs & _). rewrite Hx in Hs. by split.
Qed.

(** ** What is told *)

Context (page : SharedBackendJournalPage) (covered : Z).

(** The admitted root [a] is told of position [usn]. *)
Definition endpoint (a : nat) (root : SharedJournalRootRequest) (binding : ResponseBinding) (usn : Z) : Prop :=
  ∃ i r, admitted !! a = Some (i, r) ∧ rv_roots q !! i = Some root ∧
    binding = ResponseBinding_from_request (rv_caller q) (sr_root root) ∧
    sr_start_usn root ≤ usn < covered ∧ barrier_at page a usn.

Definition good_reference (reference : bytes) : Prop :=
  is_reference_len reference = true ∧ Forall is_u8 reference.

Definition told_pending (p : SharedJournalPendingRename) : Prop :=
  (∃ a root, endpoint a root (pr_binding p) (pr_old_usn p)) ∧
  good_reference (pr_file_reference p) ∧ is_i64 (pr_old_usn p) ∧ 0 ≤ pr_old_usn p ∧
  good_path (pr_previous_relative_path p).

(** A hand-off continues a carried rename: it is of the same file or directory, under the name it was carried with, and
    comes after it. *)
Definition continues (pending : SharedJournalPendingRenameRequest) (h : SharedJournalHandoff) : Prop :=
  sp_file_reference pending = ho_file_reference h ∧ sp_is_directory pending = ho_is_directory h ∧
  sp_previous_relative_path pending = ho_previous_relative_path h ∧ sp_old_usn pending < ho_usn h.

Definition told_source (current : nat) (h : SharedJournalHandoff) : Prop :=
  match ho_previous_carry_id h with
  | None => ∃ a source, a ≠ current ∧ endpoint a source (ho_previous_binding h) (ho_usn h)
  | Some carry_id =>
    ∃ pending, pending ∈ rv_pending_renames q ∧ carry_id = sp_carry_id pending ∧
      ho_previous_binding h = ResponseBinding_from_request (rv_caller q) (sp_root pending) ∧ continues pending h ∧
      declared_admitted_index q admitted (sp_root pending) ≠ Some current
  end.

Definition told_handoff (h : SharedJournalHandoff) : Prop :=
  (∃ a root, endpoint a root (ho_current_binding h) (ho_usn h) ∧ told_source a h) ∧
  good_reference (ho_file_reference h) ∧ is_i64 (ho_usn h) ∧ 0 ≤ ho_usn h ∧
  good_path (ho_previous_relative_path h) ∧ good_path (ho_current_relative_path h).

(** A barrier that lies above the start of a root lies below the end of the range. *)
Definition barrier_fine (barrier : Z) : Prop :=
  Forall (λ root, sr_start_usn root < barrier → barrier < rv_end_usn q) (rv_roots q).

Lemma lower_fine barrier candidate :
  from_option barrier_fine True barrier → barrier_fine candidate →
  from_option barrier_fine True (lower_translation_barrier barrier candidate).
Proof.
  unfold lower_translation_barrier. destruct barrier as [b|]; cbn; [|done]. intros Hb Hc.
  unfold barrier_fine in *. rewrite Forall_forall in *. intros root Hr Hlt. specialize (Hb _ Hr). specialize (Hc _ Hr). lia.
Qed.

Lemma covered_fine usn : covered ≤ rv_end_usn q → usn < covered → barrier_fine usn.
Proof. intros ? ?. apply Forall_forall. lia. Qed.

Lemma minimum_fine minimum : minimum_start_usn q = Some minimum → barrier_fine minimum.
Proof. intros [_ Hm]%minimum_start_spec. eapply Forall_impl; [exact Hm|]. cbn. lia. Qed.

(** The fallback barrier of the two loops. *)
Lemma safe_fine (c : bool) minimum usn :
  covered ≤ rv_end_usn q → minimum_start_usn q = Some minimum → (c = true → usn < covered) →
  barrier_fine (if c then usn else minimum).
Proof. intros ? ? ?. destruct c; [apply covered_fine; auto|by apply minimum_fine]. Qed.
End Translation.

(** ** The loops *)

Section Loops.
Context {W : Type} `{BrokerPortLaws W} (q : ReadJournalVolumeRequest) (admitted : AdmittedRoots).
Context (read : ExistingJournalVolumeRead) (page : SharedBackendJournalPage) (covered : Z).
Context (carries : list BackendPendingRenameCarry).
Context (Hadmitted : admitted_ok q admitted) (Hroots : rv_roots q ≠ []).
Context (Hstart : Forall (λ root, 0 ≤ sr_start_usn root) (rv_roots q)) (Hcovered : covered ≤ rv_end_usn q).

Abbreviation fine := (from_option (barrier_fine q) True).

Record pending_ok (st : PendingTranslation) : Prop := {
  pk_pending : Forall (told_pending q admitted page covered) (pt_pending_renames st);
  pk_failures : failures_ok admitted (pt_failures st);
  pk_barrier : fine (pt_barrier st);
}.

Lemma start_nonneg i root : rv_roots q !! i = Some root → 0 ≤ sr_start_usn root.
Proof. intros Hi. rewrite Forall_lookup in Hstart. by eapply Hstart. Qed.

Lemma pending_failure_ok st a code barrier :
  pending_ok st → (a < length admitted)%nat → barrier_fine q barrier → pending_ok (pending_failure st a code barrier).
Proof.
  intros [Hp Hf Hb] Ha Hfine. split; cbn; [done| |by apply lower_fine].
  apply Forall_app. split; [done|by apply Forall_singleton].
Qed.

Lemma yields_translate_pending st p :
  pending_ok st → lawful_pending page p →
  yields (translate_pending (rv_caller q) q admitted covered st p) pending_ok.
Proof.
  intros Hst [(H16 & H8 & Hi) Hbar]. unfold translate_pending.
  eapply yields_bind; [apply yields_check|]. intros [i r] Ha%ok_or_Ok.
  destruct Hadmitted as [_ Hlook]. destruct (Hlook _ _ _ Ha) as (root & Hroot & _).
  pose proof (lookup_lt_Some _ _ _ Ha) as Hlt. pose proof (start_nonneg _ _ Hroot) as Hnn.
  eapply yields_bind; [by apply yields_expect, minimum_start_total|]. intros minimum Hmin.
  eapply yields_bind; [apply yields_expect; by eexists|]. intros root' Hroot'. cbv beta in Hroot'. simplify_eq.
  set (barrier := if _ && _ then _ else _).
  assert (barrier_fine q barrier) as Hfine by (eapply (safe_fine q covered); [done|done|lia]).
  destruct (_ || _) eqn:E; [by apply yields_ret, pending_failure_ok|].
  rewrite !orb_false_iff, negb_false_iff in E. destruct E as [[Href Hs] Hc].
  eapply yields_bind; [by apply yields_disclose; intros c Hcopy; eapply copy_wf|].
  intros [path|[code|code]] Hpath; apply yields_ret.
  - destruct Hst as [Hp Hf Hb]. split; cbn; [|done|done]. apply Forall_app. split; [done|]. apply Forall_singleton.
    split; [|split; [done|split; [done|split; [cbn; lia|by apply Hpath]]]].
    exists (bpr_root_index p), root, i, r. cbn. split_and!; [done|done|done|lia|lia|done].
  - by apply pending_failure_ok.
  - apply pending_failure_ok; [done|done|]. eapply (covered_fine q covered); [done|lia].
Qed.

Lemma yields_pending_renames ps :
  Forall (lawful_pending page) ps →
  yields (translate_shared_pending_renames (rv_caller q) q admitted ps covered) pending_ok.
Proof.
  intros Hlaw. apply yields_foldl_inv; [split; cbn; by constructor|].
  intros st p Hp Hst. rewrite Forall_forall in Hlaw. by apply yields_translate_pending; [|apply Hlaw].
Qed.

(** *** Hand-offs *)

Record handoffs_ok (st : HandoffTranslation) : Prop := {
  hk_handoffs : Forall (told_handoff q admitted page covered) (ht_handoffs st);
  hk_pending : Forall (told_pending q admitted page covered) (ht_pending_renames st);
  hk_failures : failures_ok admitted (ht_failures st);
  hk_barrier : fine (ht_barrier st);
}.

(** Where the source of a hand-off comes from. *)
Definition source_ok (h : BackendJournalHandoff) (s : HandoffSource) : Prop :=
  (∀ a, hs_root_index s = Some a → (a < length admitted)%nat) ∧
  match hs_carry_id s with
  | None => ∃ a i root,
      bh_previous_root_index h = Some a ∧ bh_previous_pending_index h = None ∧
      admitted !! a = Some (i, hs_root s) ∧ rv_roots q !! i = Some root ∧
      hs_binding s = ResponseBinding_from_request (rv_caller q) (sr_root root)
  | Some carry_id => ∃ p carry pending,
      bh_previous_root_index h = None ∧ bh_previous_pending_index h = Some p ∧
      carries !! p = Some carry ∧ bpc_root carry = Some (hs_root s) ∧
      rv_pending_renames q !! p = Some pending ∧ carry_id = sp_carry_id pending ∧
      hs_binding s = ResponseBinding_from_request (rv_caller q) (sp_root pending) ∧
      sp_file_reference pending = bh_file_reference h ∧ sp_is_directory pending = bh_is_directory h ∧
      sp_old_usn pending = bh_old_usn h
  end.

Lemma yields_source h :
  Forall2 (carry_ok q admitted) (rv_pending_renames q) carries →
  yields (handoff_source (W := W) (rv_caller q) q admitted carries h) (source_ok h).
Proof.
  intros Hcarries. unfold handoff_source.
  destruct (bh_previous_root_index h) as [a|] eqn:Ea, (bh_previous_pending_index h) as [p|] eqn:Ep.
  - by eapply yields_mono; [apply yields_check|].
  - eapply yields_bind; [apply yields_check|]. intros [i r] Ha%ok_or_Ok.
    destruct Hadmitted as [_ Hlook]. destruct (Hlook _ _ _ Ha) as (root & Hroot & _).
    eapply yields_bind; [apply yields_expect; by eexists|]. intros root' Hroot'. cbv beta in Hroot'. simplify_eq.
    apply yields_ret. split; cbn; [intros ? [= <-]; by eapply lookup_lt_Some|]. by exists a, i, root.
  - eapply yields_bind; [apply yields_check|]. intros carry Hc%ok_or_Ok.
    eapply yields_bind; [apply yields_check|]. intros r Hr%ok_or_Ok.
    eapply yields_bind; [apply yields_check|]. intros pending Hp%ok_or_Ok.
    eapply yields_bind; [apply yields_check|]. intros [] Hsame%fail_if_Ok. rewrite !orb_false_iff, !negb_false_iff in Hsame.
    destruct Hsame as [[Href%bool_decide_eq_true Hdir%eqb_prop] Hold%Z.eqb_eq]. apply yields_ret. split; cbn.
    + eapply Forall2_lookup_lr in Hcarries as (_ & -> & _); [|done..]. intros a. apply declared_index_lt.
    + by exists p, carry, pending.
  - by eapply yields_mono; [apply yields_check|].
Qed.

Lemma source_failure_ok st index code barrier :
  handoffs_ok st → (∀ a, index = Some a → (a < length admitted)%nat) → barrier_fine q barrier →
  handoffs_ok (source_failure st index code barrier).
Proof.
  intros [Hh Hp Hf Hb] Hi Hfine. split; cbn; [done|done| |by apply lower_fine].
  apply Forall_app. split; [done|]. destruct index; [apply Forall_singleton; by apply Hi|constructor].
Qed.

Lemma preserved_ok st h s root_index source path :
  handoffs_ok st → hs_carry_id s = None → endpoint q admitted page covered root_index source (hs_binding s) (bh_old_usn h) →
  good_reference (bh_file_reference h) → is_i64 (bh_old_usn h) → 0 ≤ bh_old_usn h → good_path path →
  bh_usn h < covered →
  handoffs_ok (preserve_verified_handoff_source st (hs_binding s) (hs_carry_id s) h path).
Proof.
  intros [Hh Hp Hf Hb] -> He Hr Hi Hn Hpath Hu. split; cbn; [done| |done|].
  - apply Forall_app. split; [done|]. apply Forall_singleton. split; [by exists root_index, source|done].
  - apply lower_fine; [done|]. by eapply (covered_fine q covered).
Qed.

Lemma yields_previous_start h s :
  source_ok h s →
  yields (previous_request_start (W := W) q admitted h)
    (λ start, hs_carry_id s = None → ∀ a i root, bh_previous_root_index h = Some a →
       admitted !! a = Some (i, hs_root s) → rv_roots q !! i = Some root → start = sr_start_usn root).
Proof.
  intros [_ Hs]. unfold previous_request_start. destruct (hs_carry_id s) as [c|].
  - destruct Hs as (p & carry & pending & -> & _). by apply yields_ret.
  - destruct Hs as (a & i & root & -> & _ & Ha & Hr & _).
    eapply yields_bind; [apply yields_expect; by eexists|]. intros [i' r'] Ha'. cbv beta in Ha'. simplify_eq.
    eapply yields_bind; [apply yields_expect; by eexists|]. intros root' Hr'. cbv beta in Hr'. simplify_eq.
    apply yields_ret. intros _ b j root'' [= <-] Hb Hr''. by simplify_eq.
Qed.

Lemma yields_carried_name h s path :
  source_ok h s →
  yields (carried_name_matches (W := W) q h path)
    (λ same, same = true → ∀ p pending, bh_previous_pending_index h = Some p → rv_pending_renames q !! p = Some pending →
       sp_previous_relative_path pending = path).
Proof.
  intros [_ Hs]. unfold carried_name_matches. destruct (hs_carry_id s).
  - destruct Hs as (p & carry & pending & _ & -> & _ & _ & Hp & _).
    eapply yields_bind; [apply yields_expect; by eexists|]. intros pending' Hp'. cbv beta in Hp'. simplify_eq. apply yields_ret.
    intros Hsame%bool_decide_eq_true p' pending'' [= <-] Hp''. by simplify_eq.
  - destruct Hs as (a & i & root & _ & -> & _). by apply yields_ret.
Qed.

(** The endpoint a hand-off between roots leaves, at any position from the old name's on. *)
Lemma source_endpoint h s start usn :
  lawful_handoff read page h → source_ok h s → hs_carry_id s = None →
  (hs_carry_id s = None → ∀ a i root, bh_previous_root_index h = Some a →
     admitted !! a = Some (i, hs_root s) → rv_roots q !! i = Some root → start = sr_start_usn root) →
  start ≤ bh_old_usn h ≤ usn → usn < covered →
  ∃ a source, bh_previous_root_index h = Some a ∧ endpoint q admitted page covered a source (hs_binding s) usn.
Proof.
  intros [_ _ Hprev _] [_ Hs] Hc Hst Hle Hcov. rewrite Hc in Hs. destruct Hs as (a & i & root & Ha & _ & Hl & Hr & Hb).
  rewrite (Hst Hc a i root Ha Hl Hr) in Hle. exists a, root. split; [done|]. exists i, (hs_root s).
  destruct (Hprev a Ha) as (b & Hlook & Hble). split_and!; [done|done|done|lia|lia|]. exists b. split; [done|lia].
Qed.

(** The arm in which the new name cannot be told: the root fails, the old name stays pending. *)
Lemma target_failure_ok st h s start code path :
  handoffs_ok st → lawful_handoff read page h → source_ok h s → (bh_current_root_index h < length admitted)%nat →
  (hs_carry_id s = None → ∀ a i root, bh_previous_root_index h = Some a →
     admitted !! a = Some (i, hs_root s) → rv_roots q !! i = Some root → start = sr_start_usn root) →
  good_reference (bh_file_reference h) → good_path path →
  start ≤ bh_old_usn h < bh_usn h → 0 ≤ bh_old_usn h → bh_usn h < covered →
  handoffs_ok (preserve_verified_handoff_source
    {| ht_handoffs := ht_handoffs st; ht_pending_renames := ht_pending_renames st;
       ht_failures := ht_failures st ++ [(bh_current_root_index h, code)]; ht_barrier := ht_barrier st |}
    (hs_binding s) (hs_carry_id s) h path).
Proof.
  intros [Hh Hp Hf Hb] Hlaw Hs Hlt Hst Hr Hpath Hle Hn Hu. pose proof (lh_types _ _ _ Hlaw) as (_ & _ & _ & Hi & _).
  assert (failures_ok admitted (ht_failures st ++ [(bh_current_root_index h, code)])) as Hf'
    by (apply Forall_app; split; [done|by apply Forall_singleton]).
  destruct (hs_carry_id s) as [c|] eqn:Hc.
  - split; cbn; [done|by rewrite app_nil_r|done|]. apply lower_fine; [done|]. by eapply (covered_fine q covered).
  - rewrite <-Hc. destruct (source_endpoint h s start (bh_old_usn h)) as (a & source & _ & He);
      [done|done|done|by rewrite Hc|lia|lia|]. by eapply preserved_ok.
Qed.

(** What a hand-off that is told satisfies of its source. *)
Lemma told_source_ok h s start current (o : SharedJournalHandoff) :
  lawful_handoff read page h → ev_pending_renames read = carries →
  Forall2 (carry_ok q admitted) (rv_pending_renames q) carries →
  bh_previous_root_index h ≠ Some current → bh_current_root_index h = current →
  source_ok h s →
  (hs_carry_id s = None → ∀ a i root, bh_previous_root_index h = Some a →
     admitted !! a = Some (i, hs_root s) → rv_roots q !! i = Some root → start = sr_start_usn root) →
  start ≤ bh_old_usn h < bh_usn h → bh_usn h < covered →
  (∀ p pending, bh_previous_pending_index h = Some p → rv_pending_renames q !! p = Some pending →
     sp_previous_relative_path pending = ho_previous_relative_path o) →
  ho_file_reference o = bh_file_reference h → ho_is_directory o = bh_is_directory h →
  ho_previous_binding o = hs_binding s → ho_previous_carry_id o = hs_carry_id s → ho_usn o = bh_usn h →
  told_source q admitted page covered current o.
Proof.
  intros Hlaw Hcar Hcarries Hne Hcur Hs Hst Hle Hcov Hname Hor Hod Hob Hoc Hou. unfold told_source, continues.
  rewrite Hob, Hoc, Hou, Hor, Hod.
  destruct (hs_carry_id s) as [c|] eqn:Hc.
  - destruct Hs as [_ Hs]. rewrite Hc in Hs. destruct Hs as (p & carry & pending & _ & Hp & Hl & Hroot & Hpend & -> & Hb & Href & Hdir & Hold).
    exists pending. split_and!; [by eapply list_elem_of_lookup_2|done|done|done|done|by eapply Hname|lia|].
    eapply Forall2_lookup_lr in Hcarries as (_ & <- & _); [|done..]. subst current.
    eapply (lh_cross _ _ _ Hlaw); [done|by rewrite Hcar].
  - destruct (source_endpoint h s start (bh_usn h)) as (a & source & Hpa & He); [done|done|done|by rewrite Hc|lia|lia|].
    exists a, source. split; [|done]. intros ->. done.
Qed.

Context (Hcar : ev_pending_renames read = carries).
Context (Hcarries : Forall2 (carry_ok q admitted) (rv_pending_renames q) carries).

Lemma yields_translate_handoff st h :
  handoffs_ok st → lawful_handoff read page h → bh_previous_root_index h ≠ Some (bh_current_root_index h) →
  yields (translate_handoff (rv_caller q) q admitted carries covered st h) handoffs_ok.
Proof.
  intros Hst Hlaw Hne. pose proof (lh_types _ _ _ Hlaw) as (H16 & H16' & H8 & Hio & Hiu). unfold translate_handoff.
  eapply yields_bind; [apply yields_check|]. intros [i r] Ha%ok_or_Ok.
  pose proof Hadmitted as [_ Hlook]. destruct (Hlook _ _ _ Ha) as (root & Hroot & Hd).
  pose proof (lookup_lt_Some _ _ _ Ha) as Hlt.
  eapply yields_bind; [by apply yields_source|]. intros s Hs.
  eapply yields_bind; [by apply yields_expect, minimum_start_total|]. intros minimum Hmin.
  eapply yields_bind; [by apply yields_previous_start|]. intros start Hps.
  eapply yields_bind; [apply yields_expect; by eexists|]. intros root' Hroot'. cbv beta in Hroot'. simplify_eq.
  set (barrier := if _ && _ then _ else _).
  assert (barrier_fine q barrier) as Hfine by (eapply (safe_fine q covered); [done|done|lia]).
  destruct (_ || _) eqn:E.
  { apply yields_ret. destruct Hst as [Hh Hp Hf Hb]. split; cbn; [done|done| |by apply lower_fine].
    apply Forall_app. split; [done|]. apply Forall_app. split; [|by apply Forall_singleton].
    destruct (hs_root_index s) eqn:Hi; [apply Forall_singleton; by apply Hs|constructor]. }
  rewrite !orb_false_iff, negb_false_iff in E. destruct E as [[[[[Href Hs1] Hs2] Hs3] Hs4] Hs5].
  assert (good_reference (bh_file_reference h)) as Hgr by done.
  eapply yields_bind; [by apply yields_disclose; intros c Hcopy; eapply copy_wf|].
  intros [previous|u] Hprevious; [|apply yields_ret, source_failure_ok; [done|apply Hs|done]].
  specialize (Hprevious _ eq_refl).
  eapply yields_bind; [by eapply yields_carried_name|]. intros same Hname.
  destruct same; cbn [negb]; [specialize (Hname eq_refl)|apply yields_ret, source_failure_ok; [done|apply Hs|done]].
  eapply yields_bind; [by apply yields_disclose; intros c Hcopy; eapply copy_wf|].
  intros [current|u] Hcurrent; apply yields_ret.
  - specialize (Hcurrent _ eq_refl). destruct Hst as [Hh Hp Hf Hb]. split; cbn; [|done|done|done].
    apply Forall_app. split; [done|]. apply Forall_singleton.
    split; [|split; [done|split; [done|split; [cbn; lia|by split]]]].
    exists (bh_current_root_index h), root. split.
    + exists i, r. cbn. split_and!; [done|done|done|lia|lia|apply Hlaw].
    + eapply (told_source_ok h s start (bh_current_root_index h)); try done; lia.
  - eapply (target_failure_ok st h s start); try done; lia.
Qed.

Lemma yields_handoffs hs :
  Forall (lawful_handoff read page) hs →
  Forall (λ h, bh_previous_root_index h ≠ Some (bh_current_root_index h)) hs →
  yields (translate_shared_handoffs (rv_caller q) q admitted carries hs covered) handoffs_ok.
Proof.
  intros Hlaw Hne. apply yields_foldl_inv; [split; cbn; by constructor|].
  intros st h Hh Hst. rewrite Forall_forall in Hlaw, Hne. apply yields_translate_handoff; auto.
Qed.
End Loops.
