(* ===== verification/VolumeBarrier.v ===== *)
(** * The rename barrier of a volume read

    Specifies the end of [execute_read_volume] of [journal_broker/service.rs]: the lowest position at which a
    rename of a failed root, or one that could not be told, begins, and how the healthy roots are held
    below it. *)

From stdpp Require Import sorting.
From S2P Require Import Prelude Text Effects WireBase WirePath Wire Codec Requests Responses ActiveRegistry.
From S2P Require Import Contracts BrokerChecks Service ServiceAnswers Constrain RangeRead ServiceVolume VolumeSlots.
From S2P Require Import VolumeAnswers VolumeTranslation.

(** ** Least barriers *)

(** [b] is at or below [usn]. *)
Definition below (b : option Z) (usn : Z) : Prop := ∃ v, b = Some v ∧ v ≤ usn.

Lemma min_barrier_below_l l r usn : below l usn → below (min_barrier l r) usn.
Proof. intros (v & -> & ?). destruct r as [w|]; cbn; eexists; (split; [done|lia]). Qed.
Lemma min_barrier_below_r l r usn : below r usn → below (min_barrier l r) usn.
Proof. intros (v & -> & ?). destruct l as [w|]; cbn; eexists; (split; [done|lia]). Qed.

Lemma foldl_min_barrier l b usn :
  below b usn ∨ (∃ v, Some v ∈ l ∧ v ≤ usn) → below (foldl min_barrier b l) usn.
Proof.
  revert b. induction l as [|x l IH]; intros b [Hb|(v & Hv & Hle)]; cbn [foldl].
  - done.
  - by apply not_elem_of_nil in Hv.
  - apply IH. left. by apply min_barrier_below_l.
  - apply IH. apply elem_of_cons in Hv as [<-|Hv]; [left; apply min_barrier_below_r; by exists v|right; by exists v].
Qed.

Section Fine.
Context (q : ReadJournalVolumeRequest).
Abbreviation fine := (from_option (barrier_fine q) True).

Lemma min_barrier_fine l r : fine l → fine r → fine (min_barrier l r).
Proof.
  destruct l as [l|], r as [r|]; cbn; try done. intros Hl Hr. unfold barrier_fine in *.
  rewrite Forall_forall in *. intros root Hin ?. specialize (Hl _ Hin). specialize (Hr _ Hin). lia.
Qed.

Lemma foldl_min_fine l b : fine b → Forall fine l → fine (foldl min_barrier b l).
Proof.
  intros Hb Hl. revert b Hb. induction Hl as [|x l Hx _ IH]; intros b Hb; cbn [foldl]; [done|].
  by apply IH, min_barrier_fine.
Qed.

Lemma yields_root_barrier {W : Type} `{BrokerPorts W} range page n failed :
  page_facts range n page → range_end_usn range = rv_end_usn q → (∀ a, a ∈ failed → (a < n)%nat) →
  yields (failed_root_barrier (W := W) failed (sb_rename_barriers_by_root page))
    (λ b, fine b ∧ ∀ a usn, a ∈ failed → barrier_at page a usn → below b usn).
Proof.
  intros [_ Hlen Hrange _ _ _ _] Hend Hlt. unfold failed_root_barrier. eapply yields_bind.
  { apply yields_expect, mapM_is_Some_2, Forall_forall. intros a Ha%elem_of_elements. apply lookup_lt_is_Some_2.
    rewrite Hlen. auto. }
  intros barriers Hb%mapM_Some. apply yields_ret. split.
  - apply foldl_min_fine; [done|]. apply Forall_lookup. intros j [b|] Hj; [|done]. cbn.
    eapply Forall2_lookup_r in Hb as (a & _ & Hl); [|exact Hj]. specialize (Hrange _ _ Hl).
    apply Forall_forall. lia.
  - intros a usn Ha (b & Hl & Hle). apply foldl_min_barrier. right. exists b. split; [|done].
    apply elem_of_elements, list_elem_of_lookup in Ha as [j Hj].
    eapply Forall2_lookup_l in Hb as (ob & Hob & Hl'); [|exact Hj]. simplify_eq. by eapply list_elem_of_lookup_2.
Qed.
End Fine.

(** ** Settled outcomes *)

Definition proof_covered (page : SharedBackendJournalPage) : Z :=
  match sb_proof page with Some proof => jp_covered_until_usn proof | None => 0 end.

Definition final_covered (page : SharedBackendJournalPage) (barrier : option Z) : Z :=
  match barrier with None => proof_covered page | Some b => Z.min (proof_covered page) b end.

(** The account of a root in the answer. *)
Definition settled (q : ReadJournalVolumeRequest) (covered : Z) (root : SharedJournalRootRequest)
    (o : SharedJournalRootOutcome) : Prop :=
  ∃ complete interval, accounts covered complete root o ∧
    JournalReadInterval_new (sr_start_usn root) (rv_end_usn q) = Some interval ∧
    JournalReadInterval_admits_coverage interval covered complete = true.

Lemma covered_settled q page root o :
  covered_account q page root o → settled q (proof_covered page) root o.
Proof.
  intros (proof & Hp & Ha & Hc). unfold settled, proof_covered. rewrite Hp.
  unfold coverage_refused, is_none_or in Hc. destruct (JournalReadInterval_new _ _) as [interval|] eqn:E; [|done].
  exists (jp_is_complete proof), interval. split_and!; [done|done|]. by apply negb_false_iff in Hc.
Qed.

(** What [hold_below] makes of an outcome. *)
Definition held (barrier : Z) (o : SharedJournalRootOutcome) : SharedJournalRootOutcome :=
  {| out_binding := out_binding o;
     out_requested_start_usn := out_requested_start_usn o;
     out_covered_until_usn :=
       Some match out_covered_until_usn o with None => barrier | Some covered => Z.min covered barrier end;
     out_is_complete := false;
     out_candidates := filter (λ candidate, cand_usn candidate < barrier) (out_candidates o);
     out_failure := out_failure o |}.

Lemma held_settled q page root o barrier :
  covered_account q page root o → root ∈ rv_roots q → barrier_fine q barrier → sr_start_usn root < barrier →
  settled q (final_covered page (Some barrier)) root (held barrier o).
Proof.
  intros Hacc Hin Hfine Hlt. unfold barrier_fine in Hfine. rewrite Forall_forall in Hfine.
  specialize (Hfine _ Hin Hlt). destruct (covered_settled _ _ _ _ Hacc) as (complete & interval & _ & Hi & Hadm).
  destruct Hacc as (proof & Hp & [Hf Hc Hcomp Hv Hr Ha] & _).
  unfold settled, final_covered. unfold proof_covered in *. rewrite Hp in *.
  apply JournalReadInterval_new_Some in Hi as Hi'. destruct Hi' as [-> Hse].
  exists false, {| interval_start_usn := sr_start_usn root; interval_end_usn := rv_end_usn q |}. split_and!; [|done|].
  - split; cbn; [done|by rewrite Hc|done|..].
    + eapply sublist_Forall; [apply sublist_filter|done].
    + apply Forall_forall. intros c [Hlb Hin']%list_elem_of_filter. rewrite Forall_forall in Hr. specialize (Hr _ Hin'). lia.
    + eapply sublist_ascending; [apply sublist_fmap_usn, sublist_filter|done].
  - unfold JournalReadInterval_admits_coverage, JournalReadInterval_is_empty in *. cbn in *.
    destruct (_ || _) eqn:E in Hadm; [done|]. apply orb_false_iff in E as [E1 E2].
    rewrite (proj2 (Z.eqb_neq (sr_start_usn root) (rv_end_usn q))) in * by lia.
    apply andb_true_iff in Hadm as [Hlow _]. rewrite (proj2 (orb_false_iff _ _)) by (split; lia).
    apply andb_true_iff. split; [lia|]. by rewrite (proj2 (Z.eqb_neq _ _)) by lia.
Qed.

(** ** Holding the healthy roots *)

(** The outcomes of an answer: each bound to its root, each a failure or an account, and the admitted roots
    that did not fail and start below the barrier are accounted for. *)
Definition final_outcomes (q : ReadJournalVolumeRequest) (admitted : AdmittedRoots) (failed : gset nat)
    (barrier : option Z) (covered : Z) (outcomes : Outcomes) : Prop :=
  length outcomes = length (rv_roots q) ∧
  ∀ i root, rv_roots q !! i = Some root → ∃ o, outcomes !! i = Some (Some o) ∧ bound_outcome q root o ∧
    (failed_outcome o ∨ settled q covered root o) ∧
    (∀ a r, admitted !! a = Some (i, r) → a ∉ failed → ¬ below barrier (sr_start_usn root) →
            settled q covered root o).

Section Hold.
Context {W : Type} `{BrokerPorts W} (q : ReadJournalVolumeRequest) (admitted : AdmittedRoots) (failed : gset nat).
Context (page : SharedBackendJournalPage) (Hadmitted : admitted_ok q admitted).

Lemma slots_complete outcomes i root :
  slots q admitted (covered_account q page) failed (length admitted) outcomes → rv_roots q !! i = Some root →
  ∃ o, outcomes !! i = Some (Some o) ∧ slot q admitted (covered_account q page) failed (length admitted) i root (Some o).
Proof.
  intros [Hlen Hs] Hi. pose proof (lookup_lt_Some _ _ _ Hi) as Hlt. rewrite <-Hlen in Hlt.
  apply lookup_lt_is_Some_2 in Hlt as [oo Ho]. specialize (Hs i root oo Hi Ho). destruct oo as [o|]; [by exists o|].
  destruct Hs as (a & r & Ha & _ & Hk). apply lookup_lt_Some in Ha. lia.
Qed.

Lemma final_unheld outcomes :
  slots q admitted (covered_account q page) failed (length admitted) outcomes →
  final_outcomes q admitted failed None (final_covered page None) outcomes.
Proof.
  intros Hs. split; [apply Hs|]. intros i root Hi. destruct (slots_complete _ _ _ Hs Hi) as (o & Ho & Hb & Hg).
  exists o. split_and!; [done|apply Hb..| |].
  - destruct Hg as [[_ Hg]|[_ Hg]]; [right; by apply covered_settled|by left].
  - intros a r Ha Hn _. destruct Hg as [[_ Hg]|[Hall _]]; [by apply covered_settled|]. by destruct Hn; eapply Hall.
Qed.

Context (barrier : Z) (Hfine : barrier_fine q barrier).

(** Slot [i] when the admitted roots before [k] are held. *)
Definition held_slot (k i : nat) (root : SharedJournalRootRequest) (o : SharedJournalRootOutcome) : Prop :=
  bound_outcome q root o ∧
  ((∃ a r, admitted !! a = Some (i, r) ∧ a ∉ failed ∧
     if Nat.ltb a k
     then if barrier <=? sr_start_usn root then failed_outcome o
          else settled q (final_covered page (Some barrier)) root o
     else covered_account q page root o) ∨
   (∀ a r, admitted !! a = Some (i, r) → a ∈ failed) ∧ failed_outcome o).

Definition held_slots (k : nat) (outcomes : Outcomes) : Prop :=
  length outcomes = length (rv_roots q) ∧
  ∀ i root, rv_roots q !! i = Some root → ∃ o, outcomes !! i = Some (Some o) ∧ held_slot k i root o.

Lemma held_next k i root o :
  held_slot k i root o → (∀ r, admitted !! k = Some (i, r) → k ∈ failed) → held_slot (S k) i root o.
Proof.
  intros [Hb Hs] Hk. split; [done|]. destruct Hs as [(a & r & Ha & Hn & Hs)|?]; [|by right]. left. exists a, r.
  split_and!; [done|done|]. assert (a ≠ k) by (intros ->; destruct Hn; by eapply Hk).
  replace (Nat.ltb a (S k)) with (Nat.ltb a k); [done|]. destruct (Nat.ltb_spec a k), (Nat.ltb_spec a (S k)); lia.
Qed.

Lemma yields_hold k outcomes i r :
  admitted !! k = Some (i, r) → held_slots k outcomes →
  yields (hold_below (W := W) q barrier failed outcomes (k, (i, r))) (held_slots (S k)).
Proof.
  intros Hk [Hlen Hs]. destruct Hadmitted as [Hu Hlook]. destruct (Hlook _ _ _ Hk) as (root & Hroot & _).
  unfold hold_below. case_bool_decide as Hf.
  { apply yields_ret. split; [done|]. intros j root' Hj. destruct (Hs j root' Hj) as (o & ? & Ho). exists o.
    split; [done|]. apply held_next; [done|]. done. }
  eapply yields_bind; [apply yields_expect; by eexists|]. intros root' Hroot'. cbv beta in Hroot'. simplify_eq.
  destruct (Hs i root Hroot) as (o & Ho & Hbound & Hslot). rewrite Ho. cbn [mjoin option_join ok_or].
  eapply yields_bind; [apply yields_check|]. intros o' [= <-]. apply yields_ret.
  assert (covered_account q page root o) as Hacc.
  { destruct Hslot as [(a & s & Ha & Hn & Hg)|[Hall _]]; [|by destruct Hf; eapply Hall].
    rewrite (admitted_inj _ Hu a k i s r Ha Hk) in Hg. by rewrite Nat.ltb_irrefl in Hg. }
  pose proof (list_elem_of_lookup_2 _ _ _ Hroot) as Hin.
  assert (∀ o', bound_outcome q root o' →
    (if barrier <=? sr_start_usn root then failed_outcome o'
     else settled q (final_covered page (Some barrier)) root o') →
    held_slots (S k) (<[i := Some o']> outcomes)) as Hset.
  { intros o' Hb' Ho'. split; [by rewrite length_insert|]. intros j root' Hj. destruct (decide (i = j)) as [<-|Hne].
    - simplify_eq. exists o'. rewrite list_lookup_insert_eq by (rewrite Hlen; by eapply lookup_lt_Some).
      split; [done|]. split; [done|]. left. exists k, r. split_and!; [done|done|].
      by rewrite (proj2 (Nat.ltb_lt k (S k))) by lia.
    - destruct (Hs j root' Hj) as (o'' & ? & ?). exists o''. rewrite list_lookup_insert_ne by done.
      split; [done|]. apply held_next; [done|]. intros s Hs'. simplify_eq. }
  destruct (barrier <=? sr_start_usn root) eqn:E.
  - by apply Hset; [apply failure_bound|apply failure_bound].
  - apply Hset; [done|]. apply held_settled; [done|done|done|lia].
Qed.

Lemma yields_hold_all outcomes :
  slots q admitted (covered_account q page) failed (length admitted) outcomes →
  yields (run_foldl (hold_below (W := W) q barrier failed) outcomes (enumerate admitted))
    (final_outcomes q admitted failed (Some barrier) (final_covered page (Some barrier))).
Proof.
  intros Hs. eapply yields_mono; [apply (yields_foldl _ (λ seen, held_slots (length seen)))|].
  - split; [apply Hs|]. intros i root Hi. destruct (slots_complete _ _ _ Hs Hi) as (o & Ho & Hb & Hg).
    exists o. split; [done|]. split; [done|]. destruct Hg as [[(a & r & ? & ? & ?) ?]|?]; [left; by exists a, r|by right].
  - intros seen outs x [-> Hl]%enumerate_prefix Hh. rewrite length_app, Nat.add_1_r. destruct x as [? [i r]].
    by apply yields_hold.
  - intros outs [Hlen Hh]. unfold enumerate in Hh. rewrite length_zip_with, length_seq, Nat.min_id in Hh.
    split; [done|]. intros i root Hi. destruct (Hh i root Hi) as (o & Ho & Hb & Hg). exists o.
    split_and!; [done|apply Hb..| |].
    + destruct Hg as [(a & r & Ha & _ & Hg)|[_ ?]]; [|by left].
      rewrite (proj2 (Nat.ltb_lt _ _) (lookup_lt_Some _ _ _ Ha)) in Hg. destruct (_ <=? _); [by left|by right].
    + intros a r Ha Hn Hnb. destruct Hg as [(b & s & Hb' & _ & Hg)|[Hall _]]; [|by destruct Hn; eapply Hall].
      rewrite (proj2 (Nat.ltb_lt _ _) (lookup_lt_Some _ _ _ Hb')) in Hg. destruct (_ <=? _) eqn:E; [|done].
      destruct Hnb. exists barrier. split; [done|lia].
Qed.
End Hold.

(** * Totals of an answer *)

Definition sum (l : list Z) : Z := foldr Z.add 0 l.

Lemma sum_app l k : sum (l ++ k) = sum l + sum k.
Proof. unfold sum. induction l as [|x l IH]; cbn [app foldr]; lia. Qed.

Lemma sum_nonneg l : Forall (λ x, 0 ≤ x) l → 0 ≤ sum l.
Proof. unfold sum. induction 1; cbn [foldr]; lia. Qed.

Lemma amounts_app {A : Type} (f : A → option Z) l k amounts :
  f <$> (l ++ k) = Some <$> amounts →
  ∃ a b, amounts = a ++ b ∧ f <$> l = Some <$> a ∧ f <$> k = Some <$> b.
Proof.
  intros H. rewrite fmap_app in H. exists (take (length l) amounts), (drop (length l) amounts).
  split; [by rewrite take_drop|]. rewrite fmap_take, fmap_drop, <-H.
  rewrite take_app_length', drop_app_length'; [done|by rewrite length_fmap..].
Qed.

(** ** The service's count *)

Definition plus (t : Totals) (amounts : list Z) : Totals :=
  {| total_records := total_records t + zlen amounts; total_evidence := total_evidence t + sum amounts |}.

Lemma count_evidence_Ok t l t' :
  result_foldl count_evidence t l = Ok t' → ∃ amounts, l = Some <$> amounts ∧ t' = plus t amounts.
Proof.
  revert t. induction l as [|amount l IH]; intros t Ht; cbn [result_foldl] in Ht.
  - apply (inj Ok) in Ht as <-. exists []. split; [done|]. unfold plus, sum, zlen. destruct t. cbn. f_equal; lia.
  - apply result_bind_Ok in Ht as (t1 & Ht1 & Ht). unfold count_evidence in Ht1.
    apply result_bind_Ok in Ht1 as (records & Hr%ok_or_Ok%checked_add_Some & Ht1).
    apply result_bind_Ok in Ht1 as (a & Ha%ok_or_Ok & Ht1).
    apply result_bind_Ok in Ht1 as (evidence & He%ok_or_Ok%checked_add_Some & Ht1).
    apply (inj Ok) in Ht1 as <-. destruct (IH _ Ht) as (amounts & -> & ->). exists (a :: amounts). subst.
    split; [done|]. unfold plus, sum. cbn. f_equal; [len|lia].
Qed.

Record limits_ok (os : list SharedJournalRootOutcome) (hs : list SharedJournalHandoff)
    (ps : list SharedJournalPendingRename) (max_records max_evidence : Z) : Prop := {
  lk_amounts : ∃ co ho po,
    BrokerCandidate_evidence_bytes <$> (os ≫= out_candidates) = Some <$> co ∧
    SharedJournalHandoff_evidence_bytes <$> hs = Some <$> ho ∧
    SharedJournalPendingRename_evidence_bytes <$> ps = Some <$> po ∧
    zlen co + zlen ho + zlen po ≤ max_records ∧ sum co + sum ho + sum po ≤ max_evidence;
}.

Lemma validated_limits os hs ps max_records max_evidence :
  validate_shared_response_limits os hs ps max_records max_evidence = Ok () →
  limits_ok os hs ps max_records max_evidence.
Proof.
  unfold validate_shared_response_limits. intros H.
  apply result_bind_Ok in H as (t1 & (co & Hco & ->)%count_evidence_Ok & H).
  apply result_bind_Ok in H as (t2 & (ho & Hho & ->)%count_evidence_Ok & H).
  apply result_bind_Ok in H as (t3 & (po & Hpo & ->)%count_evidence_Ok & H%fail_if_Ok).
  split. exists co, ho, po. unfold plus in H. cbn in H. split_and!; try done; lia.
Qed.

Lemma amounts_nonneg {A : Type} (f : A → option Z) l amounts :
  (∀ x e, f x = Some e → 0 ≤ e) → f <$> l = Some <$> amounts → 0 ≤ sum amounts.
Proof.
  intros Hf H. apply sum_nonneg, Forall_lookup. intros i e Hi.
  assert ((f <$> l) !! i = Some (Some e)) as Hl by (by rewrite H, list_lookup_fmap, Hi).
  rewrite list_lookup_fmap in Hl. apply fmap_Some in Hl as (x & _ & Hx). by eapply Hf.
Qed.

Lemma amounts_length {A : Type} (f : A → option Z) l amounts : f <$> l = Some <$> amounts → zlen amounts = zlen l.
Proof. intros H%(f_equal length). rewrite !length_fmap in H. unfold zlen. lia. Qed.

(** ** The wire's count *)

Lemma add_amount_intro total a : total + a ≤ USIZE_MAX → add_amount total (Some a) = Ok (total + a).
Proof. intros. apply add_amount_Ok. by exists a. Qed.

Lemma add_evidence_all cs amounts total :
  BrokerCandidate_evidence_bytes <$> cs = Some <$> amounts → total + sum amounts ≤ USIZE_MAX →
  result_foldl add_evidence total cs = Ok (total + sum amounts).
Proof.
  revert amounts total. induction cs as [|c cs IH]; intros amounts total Ha Hmax.
  { destruct amounts; [|done]. unfold sum. cbn. f_equal. lia. }
  destruct amounts as [|a amounts]; [done|]. cbn in Ha. injection Ha as Hc Ha.
  pose proof (amounts_nonneg _ _ _ candidate_size_nonneg Ha). change (sum (a :: amounts)) with (a + sum amounts) in *.
  cbn [result_foldl]. assert (add_evidence total c = Ok (total + a)) as ->.
  { unfold add_evidence. rewrite Hc. apply add_amount_intro. lia. }
  cbn [mbind result_bind]. rewrite (IH amounts) by (done || lia). f_equal. lia.
Qed.

Lemma count_outcome_all t o amounts :
  BrokerCandidate_evidence_bytes <$> out_candidates o = Some <$> amounts →
  total_records t + zlen amounts ≤ USIZE_MAX → total_evidence t + sum amounts ≤ USIZE_MAX →
  count_outcome t o = Ok (plus t amounts).
Proof.
  intros Ha Hr He. unfold count_outcome. rewrite <-(amounts_length _ _ _ Ha), add_amount_intro by done.
  cbn [mbind result_bind]. by rewrite (add_evidence_all _ _ _ Ha) by done.
Qed.
