(* ===== verification/VolumeResponse.v ===== *)
(** * The answer of a volume read

    Assembles the loops of [execute_read_volume] of [journal_broker/service.rs] and shows that what they
    leave passes [validate_response] of [wire/codec.rs]. *)

From stdpp Require Import sorting.
From S2P Require Import Prelude Text Effects WireBase WirePath Wire Codec Requests Responses ActiveRegistry.
From S2P Require Import Contracts BrokerChecks AnswerSize Service ServiceAnswers Constrain RangeRead ServiceVolume.
From S2P Require Import VolumeSlots VolumeAnswers VolumeTranslation VolumeBarrier.

(** ** What the shared read leaves *)

Section Shared.
Context (q : ReadJournalVolumeRequest) (outcomes : Outcomes) (covered : Z).

(** The root bound to [binding] is accounted for, and [usn] is in the part its account covers. *)
Definition accounted (binding : ResponseBinding) (usn : Z) : Prop :=
  ∃ i root o, rv_roots q !! i = Some root ∧ outcomes !! i = Some (Some o) ∧
    binding = ResponseBinding_from_request (rv_caller q) (sr_root root) ∧
    settled q covered root o ∧ sr_start_usn root ≤ usn < covered.

Definition answered_source (h : SharedJournalHandoff) : Prop :=
  match ho_previous_carry_id h with
  | None => accounted (ho_previous_binding h) (ho_usn h)
  | Some carry_id =>
    ∃ pending, pending ∈ rv_pending_renames q ∧ carry_id = sp_carry_id pending ∧
      ho_previous_binding h = ResponseBinding_from_request (rv_caller q) (sp_root pending) ∧ continues pending h
  end.

Definition binding_identity (b : ResponseBinding) : str * Z := (binding_root_id b, binding_root_generation b).

Record answered_handoff (h : SharedJournalHandoff) : Prop := {
  ah_current : accounted (ho_current_binding h) (ho_usn h);
  ah_source : answered_source h;
  ah_cross : binding_identity (ho_previous_binding h) ≠ binding_identity (ho_current_binding h);
  ah_reference : good_reference (ho_file_reference h);
  ah_usn : is_i64 (ho_usn h) ∧ 0 ≤ ho_usn h;
  ah_paths : good_path (ho_previous_relative_path h) ∧ good_path (ho_current_relative_path h);
}.

Record answered_pending (p : SharedJournalPendingRename) : Prop := {
  ap_accounted : accounted (pr_binding p) (pr_old_usn p);
  ap_reference : good_reference (pr_file_reference p);
  ap_usn : is_i64 (pr_old_usn p) ∧ 0 ≤ pr_old_usn p;
  ap_path : good_path (pr_previous_relative_path p);
}.
End Shared.

Record shared_answer (q : ReadJournalVolumeRequest) (answer : SharedAnswer) (covered : Z) : Prop := {
  sh_length : length (sa_outcomes answer) = length (rv_roots q);
  sh_outcomes : ∀ i root, rv_roots q !! i = Some root →
    ∃ o, sa_outcomes answer !! i = Some (Some o) ∧ bound_outcome q root o ∧
         (failed_outcome o ∨ settled q covered root o);
  sh_handoffs : Forall (answered_handoff q (sa_outcomes answer) covered) (sa_handoffs answer);
  sh_pending : Forall (answered_pending q (sa_outcomes answer) covered) (sa_pending_renames answer);
}.

(** The roots of a validated request have distinct identities. *)
Definition distinct_roots (q : ReadJournalVolumeRequest) : Prop :=
  NoDup ((λ root, root_identity_of (sr_root root)) <$> rv_roots q).

Lemma distinct_index q i j root root' :
  distinct_roots q → rv_roots q !! i = Some root → rv_roots q !! j = Some root' →
  root_identity_of (sr_root root) = root_identity_of (sr_root root') → i = j.
Proof.
  intros Hd Hi Hj Heq. eapply (NoDup_lookup _ i j); [exact Hd|..]; rewrite list_lookup_fmap, ?Hi, ?Hj; cbn; [done|].
  by rewrite Heq.
Qed.

(** A carried rename that names the identity of a requested root names that very root. *)
Definition consistent_roots (q : ReadJournalVolumeRequest) : Prop :=
  ∀ pending root, pending ∈ rv_pending_renames q → root ∈ rv_roots q →
    root_identity_of (sp_root pending) = root_identity_of (sr_root root) → sp_root pending = sr_root root.

Lemma declared_index_at q admitted a i r root :
  admitted_ok q admitted → distinct_roots q → admitted !! a = Some (i, r) → rv_roots q !! i = Some root →
  declared_admitted_index q admitted (sr_root root) = Some a.
Proof.
  intros [Hu _] Hd Ha Hr. unfold declared_admitted_index. apply fmap_Some. exists (a, (i, r)). split; [|done].
  apply list_find_Some. split_and!; [done|by rewrite Hr|].
  intros b [j s] Hb Hlt. destruct (rv_roots q !! j) as [root'|] eqn:Hj; [|done]. cbn. intros [= Heq].
  assert (j = i) as -> by (eapply (distinct_index q j i); [done..|by rewrite Heq]).
  pose proof (admitted_inj _ Hu _ _ _ _ _ Ha Hb). lia.
Qed.

Section Survive.
Context (q : ReadJournalVolumeRequest) (admitted : AdmittedRoots) (failed : gset nat) (page : SharedBackendJournalPage).
Context (barrier : option Z) (outcomes : Outcomes) (Hadmitted : admitted_ok q admitted) (Hdistinct : distinct_roots q).
Context (Hconsistent : consistent_roots q).
Context (Hfinal : final_outcomes q admitted failed barrier (final_covered page barrier) outcomes).
Context (Hfailed : ∀ a usn, a ∈ failed → barrier_at page a usn → below barrier usn).

Abbreviation kept usn := (∀ b, barrier = Some b → usn < b).

(** An endpoint below the barrier belongs to a root that is accounted for. *)
Lemma endpoint_accounted a root binding usn :
  endpoint q admitted page (proof_covered page) a root binding usn → kept usn →
  accounted q outcomes (final_covered page barrier) binding usn.
Proof.
  intros (i & r & Ha & Hr & -> & Hle & Hbar) Hk. destruct Hfinal as [_ Hall].
  destruct (Hall i root Hr) as (o & Ho & Hb & _ & Hs). exists i, root, o.
  assert (¬ below barrier usn) as Hnb by (intros (b & -> & ?); specialize (Hk b eq_refl); lia).
  split_and!; [done|done|done| |lia|].
  - apply (Hs a r Ha); [by intros Hf; apply Hnb, (Hfailed a)|]. intros (b & -> & ?). specialize (Hk b eq_refl). lia.
  - unfold final_covered. destruct barrier as [b|]; [specialize (Hk b eq_refl)|]; lia.
Qed.

Lemma endpoint_identity a a' root root' binding binding' usn usn' covered :
  endpoint q admitted page covered a root binding usn → endpoint q admitted page covered a' root' binding' usn' →
  a ≠ a' → binding_identity binding ≠ binding_identity binding'.
Proof.
  intros (i & r & Ha & Hr & -> & _) (i' & r' & Ha' & Hr' & -> & _) Hne Heq. apply Hne.
  assert (i = i') as <- by (by eapply distinct_index). destruct Hadmitted as [Hu _]. by eapply (admitted_inj _ Hu).
Qed.

Lemma handoff_answered h :
  told_handoff q admitted page (proof_covered page) h → kept (ho_usn h) →
  answered_handoff q outcomes (final_covered page barrier) h.
Proof.
  intros ((a & root & He & Hs) & Hr & Hi & Hn & Hp) Hk. unfold told_source in Hs.
  split; [by eapply endpoint_accounted| | |done|done|done].
  - unfold answered_source. destruct (ho_previous_carry_id h).
    + destruct Hs as (pending & ? & ? & ? & ? & _). by exists pending.
    + destruct Hs as (b & source & _ & Hb). by eapply endpoint_accounted.
  - destruct (ho_previous_carry_id h).
    + destruct Hs as (pending & Hin & _ & -> & _ & Hne). destruct He as (i & r & Ha & Hroot & -> & _). intros Heq.
      apply Hne. rewrite (Hconsistent _ _ Hin (list_elem_of_lookup_2 _ _ _ Hroot) Heq). by eapply declared_index_at.
    + destruct Hs as (b & source & Hne & Hb). by eapply endpoint_identity.
Qed.

Lemma pending_answered p :
  told_pending q admitted page (proof_covered page) p → kept (pr_old_usn p) →
  answered_pending q outcomes (final_covered page barrier) p.
Proof. intros ((a & root & He) & Hr & Hi & Hn & Hp) Hk. split; [by eapply endpoint_accounted|done..]. Qed.
End Survive.

(** ** The shared read *)

Section Read.
Context {W : Type} `{BrokerPortLaws W} (q : ReadJournalVolumeRequest) (admitted : AdmittedRoots).
Context (Hadmitted : admitted_ok q admitted) (Hdistinct : distinct_roots q) (Hroots : rv_roots q ≠ []).
Context (Hstart : Forall (λ root, 0 ≤ sr_start_usn root) (rv_roots q)).
Context (read : ExistingJournalVolumeRead) (page : SharedBackendJournalPage) (range : JournalRange).
Context (Hlaw : lawful_page read page) (Hfacts : page_facts range (length admitted) page).
Context (Hend : range_end_usn range = rv_end_usn q) (Hconsistent : consistent_roots q).
Context (Hcarries : Forall2 (carry_ok q admitted) (rv_pending_renames q) (ev_pending_renames read)).

Abbreviation told_all answer :=
  (Forall (told_handoff q admitted page (proof_covered page)) (sa_handoffs answer) ∧
   Forall (told_pending q admitted page (proof_covered page)) (sa_pending_renames answer)).

Lemma crossing_handoffs : Forall (λ h, bh_previous_root_index h ≠ Some (bh_current_root_index h)) (sb_handoffs page).
Proof.
  eapply Forall_impl; [apply Hfacts|]. intros h Hr. unfold handoff_rejected in Hr.
  repeat match goal with Hb : _ || _ = false |- _ => apply orb_false_iff in Hb as [Hb ?] end.
  by match goal with Hb : bool_decide (_ = Some (bh_current_root_index _)) = false |- _ =>
    apply bool_decide_eq_false in Hb end.
Qed.

Lemma yields_translate_page good k st :
  answers_ok q admitted good k st →
  yields (translate_page q admitted (ev_pending_renames read) page st)
    (λ '(st', answer, barrier), answers_ok q admitted good k st' ∧ sa_outcomes answer = an_outcomes st' ∧
       told_all answer ∧ from_option (barrier_fine q) True barrier).
Proof.
  intros Hst. unfold translate_page, proof_covered. pose proof (pf_proof _ _ _ Hfacts) as Hcov.
  destruct (sb_proof page) as [proof|]; [|by apply yields_ret; split; [done|split; [done|split; [split; apply Forall_nil|]]]].
  specialize (Hcov _ eq_refl). rewrite Hend in Hcov.
  eapply yields_bind; [eapply (yields_handoffs q admitted read page); try done; [apply Hlaw|apply crossing_handoffs]|].
  intros h [Hh Hhp Hhf Hhb].
  eapply yields_bind; [by eapply yields_fail_admitted|]. intros st1 Hst1.
  eapply yields_bind; [eapply (yields_pending_renames q admitted page); try done; apply Hlaw|].
  intros p [Hp Hpf Hpb].
  eapply yields_bind; [by eapply yields_fail_admitted|]. intros st2 Hst2. apply yields_ret.
  split; [done|]. split; [done|]. split; [|by apply min_barrier_fine]. split; cbn; [done|by apply Forall_app].
Qed.

Lemma yields_apply_barrier barrier failed answer :
  slots q admitted (covered_account q page) failed (length admitted) (sa_outcomes answer) → told_all answer →
  from_option (barrier_fine q) True barrier →
  (∀ a usn, a ∈ failed → barrier_at page a usn → below barrier usn) →
  yields (apply_barrier (W := W) q admitted barrier failed answer)
    (λ answer', shared_answer q answer' (final_covered page barrier)).
Proof.
  intros Hs [Hh Hp] Hb Hf. rewrite Forall_forall in Hh. rewrite Forall_forall in Hp.
  assert (∀ outcomes hs ps, final_outcomes q admitted failed barrier (final_covered page barrier) outcomes →
    Forall (λ h, h ∈ sa_handoffs answer ∧ ∀ b, barrier = Some b → ho_usn h < b) hs →
    Forall (λ p, p ∈ sa_pending_renames answer ∧ ∀ b, barrier = Some b → pr_old_usn p < b) ps →
    shared_answer q {| sa_outcomes := outcomes; sa_handoffs := hs; sa_pending_renames := ps |}
      (final_covered page barrier)) as Hfin.
  { intros outcomes hs ps Hfin Hhs Hps. split; cbn; [apply Hfin|..].
    - intros i root Hi. destruct Hfin as [_ Hall]. destruct (Hall i root Hi) as (o & ? & ? & ? & _). by exists o.
    - eapply Forall_impl; [exact Hhs|]. intros h [? ?]. eapply handoff_answered; try done. by apply Hh.
    - eapply Forall_impl; [exact Hps|]. intros p [? ?]. eapply pending_answered; try done. by apply Hp. }
  destruct barrier as [b|]; cbn [apply_barrier].
  - eapply yields_bind; [by apply (yields_hold_all q admitted failed page)|]. intros outcomes Ho. apply yields_ret.
    apply Hfin; [done|..]; apply Forall_forall; intros x [? ?]%list_elem_of_filter; (split; [done|]); by intros ? [= <-].
  - apply yields_ret. destruct answer. apply Hfin; [by apply final_unheld|..]; by apply Forall_forall.
Qed.
End Read.

Section Volume.
Context {W : Type} `{BrokerPortLaws W} `{!VolumePortLaws W} (q : ReadJournalVolumeRequest) (caller : CallerAuthorization).
Context (Hdistinct : distinct_roots q) (Hroots : rv_roots q ≠ []) (Hconsistent : consistent_roots q).
Context (Hstart : Forall (λ root, 0 ≤ sr_start_usn root) (rv_roots q)).
Context (Hpending : Forall wf_pending_request (rv_pending_renames q)).
Context (Hrecords : is_u32 (rv_max_records q)) (Hevidence : is_u32 (rv_max_evidence_bytes q)).

Lemma slots_begin k st good :
  admission_ok q k st →
  answers_ok q (ad_admitted st) good 0 {| an_outcomes := ad_outcomes st; an_failed := ∅ |}.
Proof.
  intros [[Hlen Hs] _ _ _]. split; [|set_solver]. split; [done|]. intros i root oo Hi Ho. specialize (Hs i root oo Hi Ho).
  destruct oo as [o|]; cbn [slot] in *; [|done]. destruct Hs as (? & [[_ []]|?]). split; [done|by right].
Qed.

Lemma yields_read_admitted k st :
  admission_ok q k st → ad_admitted st ≠ [] →
  yields (read_admitted q caller st) (λ answer, ∃ covered, shared_answer q answer covered).
Proof.
  intros Hok Hne. pose proof (admission_admitted_ok _ _ _ Hok) as Hadm. unfold read_admitted.
  eapply yields_bind; [by eapply yields_shared_read|]. intros [read failures] [Hread Hf]. cbn [fst snd] in *.
  pose proof (read_typed _ _ _ Hread Hpending Hrecords Hevidence) as Htyped. destruct Hread as [Hev Hcar Hrs Hre _ _].
  eapply yields_bind; [apply yields_step|]. intros _ _.
  eapply yields_bind; [apply yields_ask; intros cw page; by apply volume_page_law|]. intros page Hlaw.
  eapply yields_bind; [apply yields_check|]. intros [] Hfacts%validated_page.
  eapply yields_bind; [by eapply yields_fail_admitted, slots_begin|]. intros st1 Hst1.
  eapply yields_bind; [by eapply yields_answer_roots; [..|apply Hlaw|]|]. intros st2 Hst2.
  eapply yields_bind; [by eapply (yields_translate_page q (ad_admitted st)); eauto|].
  intros [[st3 answer] barrier] (Hst3 & Houts & Htold & Hfine). destruct Hst3 as [Hslots Hlt].
  eapply yields_bind; [by eapply (yields_root_barrier q)|]. intros root_barrier [Hfine' Hbelow].
  eapply yields_mono; [eapply (yields_apply_barrier q (ad_admitted st)); try done|by eexists].
  - by rewrite Houts.
  - by apply min_barrier_fine.
  - intros a usn Ha Hb. apply min_barrier_below_l. by eapply Hbelow.
Qed.

Lemma yields_shared st k :
  admission_ok q k st →
  yields (if is_empty (ad_admitted st)
          then mret {| sa_outcomes := ad_outcomes st; sa_handoffs := []; sa_pending_renames := [] |}
          else read_admitted q caller st)
    (λ answer, ∃ covered, shared_answer q answer covered).
Proof.
  intros Hok. destruct (ad_admitted st) as [|x l] eqn:E; [|by eapply yields_read_admitted; [|rewrite E]].
  apply yields_ret. exists 0. destruct Hok as [[Hlen Hs] _ _ _]. rewrite E in Hs. split; cbn; [done| |constructor..].
  intros i root Hi. pose proof (lookup_lt_Some _ _ _ Hi) as Hlt. rewrite <-Hlen in Hlt.
  apply lookup_lt_is_Some_2 in Hlt as [oo Ho]. specialize (Hs i root oo Hi Ho). destruct oo as [o|]; cbn [slot] in Hs.
  - exists o. destruct Hs as (? & [[_ []]|[_ ?]]). split_and!; [done|done..|by left].
  - by destruct Hs as (a & r & ? & _).
Qed.
End Volume.
