(* ===== verification/VolumeReply.v ===== *)
(** * Volume answers pass the wire's validation

    What [execute_read_volume] of [journal_broker/service.rs] assembles is accepted by [validate_response] of
    [wire/codec.rs], outcome by outcome, hand-off by hand-off and in its totals. *)

From stdpp Require Import sorting.
From S2P Require Import Prelude Text Effects WireBase WirePath Wire Codec Requests Responses ActiveRegistry.
From S2P Require Import Contracts BrokerChecks AnswerSize Service ServiceAnswers Constrain RangeRead ServiceVolume.
From S2P Require Import VolumeSlots VolumeAnswers VolumeTranslation VolumeBarrier VolumeResponse.

(** ** Sets of keys *)

Lemma set_insert_new {A : Type} `{EqDecision A} (seen : list A) key seen' :
  set_insert seen key = (true, seen') ↔ key ∉ seen ∧ seen' = key :: seen.
Proof. unfold set_insert. case_bool_decide; naive_solver. Qed.

(** A fold that inserts a key per element visits distinct keys. *)
Lemma inserted_distinct {E A K : Type} (f : list K → A → Result E (list K)) (key : A → K) l s s' :
  (∀ s x s', f s x = Ok s' → key x ∉ s ∧ s' = key x :: s) → result_foldl f s l = Ok s' →
  NoDup (key <$> l) ∧ Forall (λ x, key x ∉ s) l.
Proof.
  intros Hf. revert s. induction l as [|x l IH]; intros s Hs; [split; constructor|]. cbn [result_foldl] in Hs.
  apply result_bind_Ok in Hs as (s1 & [Hn ->]%Hf & [Hd Hall]%IH). split.
  - cbn. constructor; [|done]. intros (y & Hk & Hy)%list_elem_of_fmap. rewrite Forall_forall in Hall.
    specialize (Hall y Hy). set_solver.
  - constructor; [done|]. eapply Forall_impl; [exact Hall|]. cbn. set_solver.
Qed.

Lemma validated_distinct q : ReadJournalVolumeRequest_validate q = Ok () → distinct_roots q.
Proof.
  unfold ReadJournalVolumeRequest_validate. intros H. simplify_result. unfold distinct_roots.
  match goal with Hf : result_foldl (validate_shared_root _ _) _ _ = Ok _ |- _ =>
    apply (inserted_distinct _ (λ root, root_identity_of (sr_root root))) in Hf as [? _]; [done|] end.
  intros seen root seen' Hr. unfold validate_shared_root in Hr. simplify_result.
  destruct (set_insert _ _) as [is_new ids] eqn:Hi. destruct (_ || negb is_new) eqn:E; [done|]. apply (inj Ok) in Hr as <-.
  apply orb_false_iff in E as [_ ->%negb_false_iff]. by apply set_insert_new in Hi.
Qed.

(** ** The three loops *)

Section Loops.
Context (client : bytes) (volume : str) (end_usn max_records : Z).

Definition valid_outcome (o : SharedJournalRootOutcome) : Prop :=
  SharedJournalRootOutcome_validate o end_usn max_records = Ok () ∧
  binding_client_instance (out_binding o) = client ∧ binding_volume_id (out_binding o) = volume.

Lemma outcomes_validate os : ∀ bindings t amounts,
  Forall valid_outcome os → NoDup ((λ o, binding_identity (out_binding o)) <$> os) →
  Forall (λ o, binding_identity (out_binding o) ∉ bindings) os →
  BrokerCandidate_evidence_bytes <$> (os ≫= out_candidates) = Some <$> amounts →
  total_records t + zlen amounts ≤ USIZE_MAX → total_evidence t + sum amounts ≤ USIZE_MAX →
  ∃ bindings', result_foldl (validate_outcome_step client volume end_usn max_records) (bindings, t) os
               = Ok (bindings', plus t amounts).
Proof.
  induction os as [|o os IH]; intros bindings t amounts Hv Hd Hn Ha Hr He.
  { destruct amounts; [|done]. exists bindings. cbn. unfold plus, sum, zlen. destruct t. cbn. by rewrite !Z.add_0_r. }
  apply amounts_app in Ha as (a & b & -> & Ha & Hb). rewrite zlen_app, ?sum_app in *.
  pose proof (amounts_nonneg _ _ _ candidate_size_nonneg Hb). pose proof (zlen_nonneg b).
  apply Forall_cons in Hv as [(Hv & Hc & Hvol) Hvs], Hn as [Hn Hns]. cbn in Hd. apply NoDup_cons in Hd as [Hd Hds].
  destruct (IH (binding_identity (out_binding o) :: bindings) (plus t a) b) as (bindings' & Hf); try done.
  { apply Forall_forall. intros o' Ho' [Heq|Hin]%elem_of_cons.
    - apply Hd. rewrite <-Heq. apply list_elem_of_fmap. by exists o'.
    - rewrite Forall_forall in Hns. by apply (Hns o'). }
  { cbn. lia. } { cbn. lia. }
  exists bindings'. cbn [result_foldl].
  assert (validate_outcome_step client volume end_usn max_records (bindings, t) o
          = Ok (binding_identity (out_binding o) :: bindings, plus t a)) as ->.
  { unfold validate_outcome_step. rewrite Hv. cbn [mbind result_bind].
    change (binding_root_id (out_binding o), binding_root_generation (out_binding o))
      with (binding_identity (out_binding o)).
    rewrite (proj2 (set_insert_new _ _ _) (conj Hn eq_refl)), Hc, Hvol, !bool_decide_true by done. cbn [negb orb].
    by rewrite (count_outcome_all _ _ _ Ha) by lia. }
  cbn [mbind result_bind]. rewrite Hf. f_equal. f_equal. unfold plus. cbn. rewrite sum_app. f_equal; [len|lia].
Qed.

Context (os : list SharedJournalRootOutcome).

(** A pass that counts one record per element. *)
Lemma records_validate {A : Type} (size : A → option Z) step (l : list A) :
  (∀ x e, size x = Some e → 0 ≤ e) →
  ∀ t amounts,
  (∀ t x a, x ∈ l → size x = Some a → total_records t + 1 ≤ USIZE_MAX → total_evidence t + a ≤ USIZE_MAX →
            step t x = Ok (plus t [a])) →
  size <$> l = Some <$> amounts →
  total_records t + zlen amounts ≤ USIZE_MAX → total_evidence t + sum amounts ≤ USIZE_MAX →
  result_foldl (E := WireError) step t l = Ok (plus t amounts).
Proof.
  intros Hnn. induction l as [|x l IH]; intros t amounts Hstep Ha Hr He.
  { destruct amounts; [|done]. cbn. unfold plus, sum, zlen. destruct t. cbn. by rewrite !Z.add_0_r. }
  destruct amounts as [|a amounts]; [done|]. cbn in Ha. injection Ha as Hx Ha.
  pose proof (amounts_nonneg _ _ _ Hnn Ha). pose proof (zlen_nonneg amounts).
  change (sum (a :: amounts)) with (a + sum amounts) in He. rewrite zlen_cons in Hr.
  cbn [result_foldl]. rewrite (Hstep t x a) by (done || lia || by left). cbn [mbind result_bind].
  assert (plus t (a :: amounts) = plus (plus t [a]) amounts) as ->.
  { unfold plus, sum. cbn. f_equal; [len|lia]. }
  apply IH; [|done|..]; [intros t' y b Hy; apply Hstep; by right|unfold plus, sum in *; cbn in *; len..].
Qed.

Lemma handoff_step t h a :
  SharedJournalHandoff_validate h client volume end_usn = Ok () →
  (ho_previous_carry_id h = None → validate_endpoint os (ho_previous_binding h) (ho_usn h)
     (InvalidValue "shared_handoff_endpoint") (InvalidValue "shared_handoff_range") = Ok ()) →
  validate_endpoint os (ho_current_binding h) (ho_usn h)
     (InvalidValue "shared_handoff_endpoint") (InvalidValue "shared_handoff_range") = Ok () →
  SharedJournalHandoff_evidence_bytes h = Some a →
  total_records t + 1 ≤ USIZE_MAX → total_evidence t + a ≤ USIZE_MAX →
  validate_handoff_step client volume end_usn os t h = Ok (plus t [a]).
Proof.
  intros Hv Hp Hc Ha Hr He. unfold validate_handoff_step. rewrite (add_amount_intro _ 1) by done. cbn [mbind result_bind].
  rewrite Hv. cbn [mbind result_bind].
  assert (∀ l, l = (if bool_decide (is_Some (ho_previous_carry_id h)) then [ho_current_binding h]
                    else [ho_previous_binding h; ho_current_binding h]) →
    result_iter (λ endpoint, validate_endpoint os endpoint (ho_usn h) (InvalidValue "shared_handoff_endpoint")
      (InvalidValue "shared_handoff_range")) l = Ok ()) as Hiter.
  { intros l ->. destruct (ho_previous_carry_id h) as [c|]; cbn [is_Some bool_decide].
    - rewrite bool_decide_true by (by eexists). cbn. by rewrite Hc.
    - rewrite bool_decide_false by (by intros []). cbn. rewrite (Hp eq_refl). cbn. by rewrite Hc. }
  rewrite Hiter by done. cbn [mbind result_bind]. rewrite Ha, add_amount_intro by done. cbn [mbind result_bind].
  f_equal. unfold plus, sum. cbn. f_equal; lia.
Qed.

Lemma pending_step t p a :
  SharedJournalPendingRename_validate p client volume end_usn = Ok () →
  validate_endpoint os (pr_binding p) (pr_old_usn p)
     (InvalidValue "shared_pending_rename_endpoint") (InvalidValue "shared_pending_rename_range") = Ok () →
  SharedJournalPendingRename_evidence_bytes p = Some a →
  total_records t + 1 ≤ USIZE_MAX → total_evidence t + a ≤ USIZE_MAX →
  validate_pending_step client volume end_usn os t p = Ok (plus t [a]).
Proof.
  intros Hv Hc Ha Hr He. unfold validate_pending_step. rewrite Hv. cbn [mbind result_bind].
  rewrite Hc. cbn [mbind result_bind]. unfold count_pending. rewrite (add_amount_intro _ 1) by done.
  cbn [mbind result_bind]. rewrite Ha, add_amount_intro by done. cbn [mbind result_bind].
  f_equal. unfold plus, sum. cbn. f_equal; lia.
Qed.
End Loops.

(** ** Finding the outcome of a binding *)

Lemma find_at {A : Type} (f : A → bool) l i x :
  l !! i = Some x → f x = true → (∀ j y, l !! j = Some y → f y = true → j = i) → find f l = Some x.
Proof.
  revert i. induction l as [|y l IH]; intros i Hi Hx Hu; [done|]. cbn [find]. destruct (f y) eqn:Hy.
  - assert (0%nat = i) as <- by (by apply (Hu 0%nat y)). cbn in Hi. by simplify_eq.
  - destruct i as [|i]; [cbn in Hi; simplify_eq; congruence|]. apply (IH i); [done|done|].
    intros j z Hj Hz. specialize (Hu (S j) z Hj Hz). lia.
Qed.

(** ** A volume answer *)

(** What is answered of [q]: one outcome per root, in the order of the request, and hand-offs and pending
    renames at positions the outcomes account for. *)
Record volume_answer (q : ReadJournalVolumeRequest) (os : list SharedJournalRootOutcome)
    (hs : list SharedJournalHandoff) (ps : list SharedJournalPendingRename) (covered : Z) : Prop := {
  va_outcomes : Forall2 (λ root o, bound_outcome q root o ∧ (failed_outcome o ∨ settled q covered root o))
                  (rv_roots q) os;
  va_handoffs : Forall (answered_handoff q (Some <$> os) covered) hs;
  va_pending : Forall (answered_pending q (Some <$> os) covered) ps;
  va_limits : limits_ok os hs ps (rv_max_records q) (rv_max_evidence_bytes q);
}.

Lemma shared_volume q answer covered os :
  shared_answer q answer covered → mapM id (sa_outcomes answer) = Some os →
  validate_shared_response_limits os (sa_handoffs answer) (sa_pending_renames answer) (rv_max_records q)
    (rv_max_evidence_bytes q) = Ok () →
  volume_answer q os (sa_handoffs answer) (sa_pending_renames answer) covered.
Proof.
  intros [Hlen Ho Hh Hp] Hm Hl%validated_limits.
  assert (sa_outcomes answer = Some <$> os) as Heq.
  { apply mapM_Some in Hm. clear -Hm. induction Hm as [|oo o l os Hoo _ IH]; [done|]. cbn. by rewrite <-IH, <-Hoo. }
  rewrite Heq in *. split; [|done..]. apply Forall2_same_length_lookup. split; [by rewrite <-Hlen, length_fmap|].
  intros i root o Hr Hi. destruct (Ho i root Hr) as (o' & Ho' & ? & ?). rewrite list_lookup_fmap, Hi in Ho'. cbn in Ho'.
  by simplify_eq.
Qed.

Section Reply.
Context (id : Z) (q : ReadJournalVolumeRequest) (volume : str).
Context (Hvalid : valid_request (ReqReadVolume id q)) (Hq : valid_volume q volume) (Hdistinct : distinct_roots q).
Context (os : list SharedJournalRootOutcome) (hs : list SharedJournalHandoff) (ps : list SharedJournalPendingRename).
Context (covered : Z) (Ha : volume_answer q os hs ps covered).

Abbreviation client := (caller_client_instance (rv_caller q)).
Abbreviation bind root := (ResponseBinding_from_request (rv_caller q) root).

(** A binding the wire accepts. *)
Definition valid_binding (b : ResponseBinding) : Prop :=
  ResponseBinding_validate b = Ok () ∧ wf_binding b ∧
  binding_client_instance b = client ∧ binding_volume_id b = volume.

Lemma root_binding i root :
  rv_roots q !! i = Some root →
  valid_binding (bind (sr_root root)) ∧ is_i64 (sr_start_usn root) ∧ 0 ≤ sr_start_usn root ≤ rv_end_usn q.
Proof.
  intros Hi. destruct Hvalid as ((_ & Hc & Hroots & _) & _ & _). destruct Hq as [Hcv _ _ _ _ _ Hall _].
  rewrite Forall_lookup in Hroots, Hall. destruct (Hroots _ _ Hi) as (Hw & _ & Hs), (Hall _ _ Hi) as (Hv & Hvol & Hr).
  unfold SharedJournalRootRequest_validate in Hv. simplify_result.
  destruct (binding_valid (rv_caller q) (sr_root root)) as [? ?]; [done..|]. by split_and!.
Qed.

Lemma pending_binding p :
  p ∈ rv_pending_renames q →
  valid_binding (bind (sp_root p)) ∧ validate_identifier (sp_carry_id p) 512 = Ok () ∧ is_str (sp_carry_id p).
Proof.
  intros Hi. destruct Hvalid as ((_ & Hc & _ & Hp & _) & _ & _). destruct Hq as [Hcv _ _ _ _ _ _ Hall].
  rewrite Forall_forall in Hp, Hall. destruct (Hp _ Hi) as (Hs & _ & Hw & _). specialize (Hall _ Hi).
  unfold SharedJournalPendingRenameRequest_validate in Hall. simplify_result.
  destruct (binding_valid (rv_caller q) (sp_root p)) as [? ?]; [done..|]. split_and!; try done.
  match goal with Hb : _ || _ = false |- _ => rewrite !orb_false_iff, negb_false_iff, bool_decide_eq_true in Hb end.
  split_and!; [done|done|done|apply Hall].
Qed.

Lemma limits_records : zlen (os ≫= out_candidates) + zlen hs + zlen ps ≤ rv_max_records q.
Proof.
  destruct (lk_amounts _ _ _ _ _ (va_limits _ _ _ _ _ Ha)) as (co & ho & po & Hco & Hho & Hpo & Hr & _).
  by rewrite <-(amounts_length _ _ _ Hco), <-(amounts_length _ _ _ Hho), <-(amounts_length _ _ _ Hpo).
Qed.

Lemma candidates_bound o : o ∈ os → zlen (out_candidates o) ≤ rv_max_records q.
Proof.
  intros Hin. pose proof limits_records as Hl. pose proof (zlen_nonneg hs). pose proof (zlen_nonneg ps).
  assert (zlen (out_candidates o) ≤ zlen (os ≫= out_candidates)); [|lia].
  clear -Hin. induction Hin as [o os|o o' os _ IH]; cbn; rewrite zlen_app.
  - pose proof (zlen_nonneg (os ≫= out_candidates)). unfold mbind in *. lia.
  - pose proof (zlen_nonneg (out_candidates o')). unfold mbind in *. lia.
Qed.

Lemma outcome_valid_wf i root o :
  rv_roots q !! i = Some root → o ∈ os → bound_outcome q root o → failed_outcome o ∨ settled q covered root o →
  valid_outcome client volume (rv_end_usn q) (rv_max_records q) o ∧ wf_outcome o.
Proof.
  intros Hi Hin [Hb Hs] Hf. destruct (root_binding i root Hi) as ((Hbv & Hbw & Hcl & Hvol) & Hi64 & Hle).
  assert (JournalReadInterval_new (sr_start_usn root) (rv_end_usn q) =
    Some {| interval_start_usn := sr_start_usn root; interval_end_usn := rv_end_usn q |}) as Hint
    by (apply JournalReadInterval_new_Some; split; [done|lia]).
  unfold valid_outcome, wf_outcome, SharedJournalRootOutcome_validate. rewrite Hb, Hs, Hbv, Hint. cbn [mbind result_bind ok_or].
  destruct Hf as [(-> & -> & -> & [code ->])|(complete & interval & [-> -> -> Hcv Hr Hasc] & Hn & Hadm)].
  { split; [done|]. by split_and!; [| | |constructor]. }
  rewrite Hint in Hn. apply (inj Some) in Hn as <-. split.
  - split; [|done]. apply result_seq_Ok. split.
    + apply fail_if_Ok. rewrite Hadm. pose proof (candidates_bound o Hin). cbn. lia.
    + apply validate_candidates_intro; [|done|done]. apply Forall_and. split; [|done].
      by eapply Forall_impl; [exact Hcv|intros ? []].
  - destruct Hvalid as ((_ & _ & _ & _ & _ & He & _) & _ & _).
    unfold JournalReadInterval_admits_coverage in Hadm. cbn in Hadm. destruct (_ || _) eqn:E in Hadm; [done|].
    apply orb_false_iff in E as [? ?].
    split_and!; [done..|cbn; unfold is_sint in *; lia|]. by eapply Forall_impl; [exact Hcv|intros ? []].
Qed.

Lemma outcome_at i o : os !! i = Some o → ∃ root, rv_roots q !! i = Some root ∧ bound_outcome q root o ∧
  (failed_outcome o ∨ settled q covered root o).
Proof. intros Hi. eapply Forall2_lookup_r in Hi as (root & ? & ?); [|apply Ha]. by exists root. Qed.

Lemma outcomes_all :
  Forall (valid_outcome client volume (rv_end_usn q) (rv_max_records q)) os ∧ Forall wf_outcome os ∧
  NoDup ((λ o, binding_identity (out_binding o)) <$> os).
Proof.
  rewrite !Forall_lookup. split_and!.
  1,2: intros i o Hi; destruct (outcome_at i o Hi) as (root & Hr & Hb & Hf);
       eapply outcome_valid_wf; try done; by eapply list_elem_of_lookup_2.
  assert ((λ o, binding_identity (out_binding o)) <$> os = (λ root, root_identity_of (sr_root root)) <$> rv_roots q) as ->;
    [|done].
  pose proof (va_outcomes _ _ _ _ _ Ha) as Hf. clear -Hf. induction Hf as [|root o l os [[Hb _] _] _ IH]; [done|].
  cbn. rewrite IH, Hb. done.
Qed.

(** Every position that is accounted for passes the check of endpoints. *)
Lemma accounted_endpoint binding usn e1 e2 :
  accounted q (Some <$> os) covered binding usn →
  valid_binding binding ∧ validate_endpoint os binding usn e1 e2 = Ok () ∧ usn < rv_end_usn q.
Proof.
  intros (i & root & o & Hr & Ho & -> & (complete & interval & [Hf Hc _ _ _ _] & Hint & Hadm) & Hle).
  rewrite list_lookup_fmap in Ho. apply fmap_Some in Ho as (o' & Ho & [= <-]).
  destruct (root_binding i root Hr) as [Hb [_ Hend]]. split; [done|].
  destruct (outcome_at i o Ho) as (root' & Hr' & [Hbo Hst] & _). simplify_eq. split.
  - assert (find_outcome os (bind (sr_root root)) = Some o) as Hfind.
    { apply (find_at _ _ i); [done|rewrite Hbo, !bool_decide_true, Z.eqb_refl by done; done|].
      intros j y Hj Hy. destruct (outcome_at j y Hj) as (root' & Hr' & [Hbo' _] & _). rewrite Hbo' in Hy.
      rewrite !andb_true_iff, !bool_decide_eq_true, Z.eqb_eq in Hy. destruct Hy as [[[Hid Hgen] _] _].
      eapply distinct_index; [done..|]. unfold root_identity_of. cbn in Hid, Hgen. by rewrite Hid, Hgen. }
    unfold validate_endpoint. rewrite Hfind. cbn [mbind result_bind ok_or]. unfold covered_without_failure.
    rewrite Hf, Hc. cbn [mbind result_bind ok_or]. apply fail_if_Ok. rewrite Hst. lia.
  - apply JournalReadInterval_new_Some in Hint as [-> _]. unfold JournalReadInterval_admits_coverage in Hadm.
    cbn in Hadm. destruct (_ || _) eqn:E in Hadm; [done|]. apply orb_false_iff in E as [_ ?]. lia.
Qed.

Lemma handoff_valid h :
  answered_handoff q (Some <$> os) covered h →
  SharedJournalHandoff_validate h client volume (rv_end_usn q) = Ok () ∧ wf_handoff h.
Proof.
  intros [Hc Hs Hx [Hr Hr8] [Hi Hn] [[Hp Hps] [Hcp Hcps]]].
  destruct (accounted_endpoint _ _ LengthOverflow LengthOverflow Hc) as ((Hcv & Hcw & Hcc & Hcvol) & _ & Hend).
  assert (valid_binding (ho_previous_binding h) ∧
    match ho_previous_carry_id h with Some c => validate_identifier c 512 | None => Ok () end = Ok () ∧
    from_option is_str True (ho_previous_carry_id h)) as ((Hpv & Hpw & Hpc & Hpvol) & Hid & Hstr).
  { unfold answered_source in Hs. destruct (ho_previous_carry_id h) as [c|].
    - destruct Hs as (pending & Hin & -> & -> & _). by apply pending_binding.
    - by destruct (accounted_endpoint _ _ LengthOverflow LengthOverflow Hs) as (? & _ & _). }
  split; [|by split_and!]. unfold SharedJournalHandoff_validate.
  rewrite Hpv, Hcv, Hp, Hcp, Hid. cbn [mbind result_bind]. apply fail_if_Ok.
  rewrite Hpc, Hcc, Hpvol, Hcvol, Hr, !bool_decide_true by done.
  rewrite bool_decide_false by exact Hx. cbn. lia.
Qed.

Lemma pending_valid p :
  answered_pending q (Some <$> os) covered p →
  SharedJournalPendingRename_validate p client volume (rv_end_usn q) = Ok () ∧ wf_pending p.
Proof.
  intros [Hc [Hr Hr8] [Hi Hn] [Hp Hps]].
  destruct (accounted_endpoint _ _ LengthOverflow LengthOverflow Hc) as ((Hcv & Hcw & Hcc & Hcvol) & _ & Hend).
  split; [|by split_and!]. unfold SharedJournalPendingRename_validate. rewrite Hcv, Hp. cbn [mbind result_bind].
  apply fail_if_Ok. rewrite Hcc, Hcvol, Hr, !bool_decide_true by done. cbn. lia.
Qed.

(** The three loops accept the answer and count what the service counted. *)
Lemma loops_accept :
  ∃ bindings t1 t2 t3,
    result_foldl (validate_outcome_step client volume (rv_end_usn q) (rv_max_records q))
      ([], {| total_records := 0; total_evidence := 0 |}) os = Ok (bindings, t1) ∧
    result_foldl (validate_handoff_step client volume (rv_end_usn q) os) t1 hs = Ok t2 ∧
    result_foldl (validate_pending_step client volume (rv_end_usn q) os) t2 ps = Ok t3 ∧
    total_records t3 ≤ rv_max_records q ∧ total_evidence t3 ≤ rv_max_evidence_bytes q.
Proof.
  pose proof Ha as [_ Hhs Hps [(co & ho & po & Hco & Hho & Hpo & Hr & He)]]. destruct outcomes_all as (Hov & _ & Hnd).
  pose proof (amounts_nonneg _ _ _ candidate_size_nonneg Hco). pose proof (zlen_nonneg co).
  pose proof (amounts_nonneg _ _ _ handoff_size_nonneg Hho). pose proof (zlen_nonneg ho).
  pose proof (amounts_nonneg _ _ _ pending_size_nonneg Hpo). pose proof (zlen_nonneg po).
  pose proof (proj1 (in_range_true _ _ _) (vv_records _ _ Hq)). pose proof (proj1 (in_range_true _ _ _) (vv_evidence _ _ Hq)).
  assert (∀ x, x ≤ rv_max_records q → x ≤ USIZE_MAX) by (unfold MAX_RECORDS, USIZE_MAX in *; lia).
  assert (∀ x, x ≤ rv_max_evidence_bytes q → x ≤ USIZE_MAX) by (unfold MAX_EVIDENCE_BYTES, USIZE_MAX in *; lia).
  set (t0 := {| total_records := 0; total_evidence := 0 |}).
  destruct (outcomes_validate client volume (rv_end_usn q) (rv_max_records q) os [] t0 co) as (bindings & Hf);
    [done|done|by apply Forall_forall; set_solver|done|cbn; auto with lia..|].
  exists bindings, (plus t0 co), (plus (plus t0 co) ho), (plus (plus (plus t0 co) ho) po).
  split_and!; [done|..|cbn; lia|cbn; lia].
  - apply (records_validate SharedJournalHandoff_evidence_bytes); [exact handoff_size_nonneg| |done|cbn; auto with lia..].
    intros t h a Hin Hsz ??. rewrite Forall_forall in Hhs. specialize (Hhs _ Hin).
    apply handoff_step; try done; [by apply handoff_valid| |].
    + intros Hnone. pose proof (ah_source _ _ _ _ Hhs) as Hsrc. unfold answered_source in Hsrc. rewrite Hnone in Hsrc.
      by apply accounted_endpoint.
    + by eapply accounted_endpoint, ah_current.
  - apply (records_validate SharedJournalPendingRename_evidence_bytes); [exact pending_size_nonneg| |done|cbn; auto with lia..].
    intros t p a Hin Hsz ??. rewrite Forall_forall in Hps. specialize (Hps _ Hin).
    apply pending_step; try done; [by apply pending_valid|]. by eapply accounted_endpoint, ap_accounted.
Qed.
End Reply.
