(* ===== verification/VolumeRead.v ===== *)
(** * Reading a volume

    The correctness of [execute_read_volume] of [journal_broker/service.rs]. *)

From S2P Require Import Prelude Text Effects Framing WireBase WirePath Wire CodecPrim Codec Requests Responses.
From S2P Require Import ActiveRegistry Contracts BrokerChecks AnswerSize Service ServiceAnswers Constrain RangeRead.
From S2P Require Import ServiceVolume VolumeSlots VolumeResponse VolumeReply.

(** The answer of a volume read. *)
Definition volume_response (id : Z) (q : ReadJournalVolumeRequest) (volume : str)
    (os : list SharedJournalRootOutcome) (hs : list SharedJournalHandoff) (ps : list SharedJournalPendingRename)
    : BrokerResponse :=
  RespReadVolume id (caller_client_instance (rv_caller q)) volume (rv_journal_id q) (rv_end_usn q)
    (rv_max_records q) (rv_max_evidence_bytes q) os hs ps.

Lemma volume_reply_valid id q volume os hs ps covered :
  valid_request (ReqReadVolume id q) → valid_volume q volume → distinct_roots q →
  volume_answer q os hs ps covered →
  validate_response (volume_response id q volume os hs ps) = Ok () ∧ wf_response (volume_response id q volume os hs ps).
Proof.
  intros Hv Hq Hd Ha. pose proof Hv as ((Hid & Hc & Hroots & _ & Hw) & _ & Hnz). cbn [BrokerRequest_request_id] in *.
  destruct (outcomes_all id q volume Hv Hq Hd os hs ps covered Ha) as (_ & Hwo & _).
  destruct (loops_accept id q volume Hv Hq Hd os hs ps covered Ha) as (b & t1 & t2 & t3 & H1 & H2 & H3 & Hr & He).
  pose proof Ha as [Hos Hhs Hps _]. pose proof (limits_records q os hs ps covered Ha) as Hlim.
  pose proof Hq as [Hcv Hj Hcount Hrec Hev (first & Hf & Hvol) Hall _]. destruct (caller_valid _ Hc Hcv) as [Harr Hz].
  assert (first ∈ rv_roots q) as Hfin by (destruct (rv_roots q); cbn in Hf; [done|simplify_eq; by left]).
  rewrite Forall_forall in Hall, Hroots. destruct (Hall _ Hfin) as (Hfv & _ & Hle).
  destruct (Hroots _ Hfin) as ((_ & _ & Hstr & _) & _). rewrite Hvol in Hstr.
  assert (validate_identifier_for_codec volume MAX_VOLUME_ID_BYTES = Ok ()) as Hident.
  { unfold SharedJournalRootRequest_validate, RootAuthorization_validate in Hfv. simplify_result. by subst. }
  assert (zlen os = zlen (rv_roots q)) as Hlen by (unfold zlen; f_equal; symmetry; by apply Forall2_length in Hos).
  pose proof (proj2 (in_range_true _ _ _) Hcount) as Hcb. rewrite <-Hlen in Hcb.
  pose proof (proj1 (in_range_true _ _ _) Hrec) as Hmr. pose proof (zlen_nonneg (os ≫= out_candidates)).
  pose proof (zlen_nonneg hs). pose proof (zlen_nonneg ps). split.
  - unfold validate_response. rewrite response_id_valid by done. cbn [mbind result_bind volume_response].
    unfold validate_read_volume. apply result_seq_Ok. split.
    + apply fail_if_Ok. rewrite Hz, Hident, Hrec, Hev, Hcb, (proj2 (Z.eqb_neq _ _) Hj).
      unfold MAX_SHARED_HANDOFFS, MAX_SHARED_PENDING_RENAMES, MAX_RECORDS in *. cbn. lia.
    + rewrite H1. cbn [mbind result_bind snd]. rewrite H2. cbn [mbind result_bind]. rewrite H3. cbn [mbind result_bind].
      apply fail_if_Ok. lia.
  - destruct_and?. split; [done|]. cbn. split_and!; try done.
    + eapply Forall_impl; [exact Hhs|]. intros h Hh. by eapply (handoff_valid id q volume Hv Hq Hd os hs ps).
    + eapply Forall_impl; [exact Hps|]. intros p Hp. by eapply (pending_valid id q volume Hv Hq Hd os hs ps).
Qed.

Section Execute.
Context {W : Type} `{BrokerPortLaws W} `{!VolumePortLaws W}.

Lemma yields_volume id q caller :
  valid_request (ReqReadVolume id q) → consistent_roots q →
  yields (read_volume_answer id q caller)
    (λ r, ∃ volume os hs ps covered, r = volume_response id q volume os hs ps ∧ volume_answer q os hs ps covered ∧
       validate_response r = Ok () ∧ wf_response r).
Proof.
  intros Hv Hcons. pose proof Hv as (Hwf & Hvr & _). destruct Hwf as (_ & _ & _ & Hpending & _ & _ & Hrec & Hev & _). cbn [validate_request] in Hvr.
  destruct (validated_volume q Hvr) as (volume & Hq). pose proof (validated_distinct q Hvr) as Hd.
  pose proof (vv_first _ _ Hq) as (first & Hf & Hvol).
  assert (rv_roots q ≠ []) as Hne by (by destruct (rv_roots q)).
  assert (Forall (λ root, 0 ≤ sr_start_usn root) (rv_roots q)) as Hs.
  { eapply Forall_impl; [exact (vv_roots _ _ Hq)|]. intros root (_ & _ & ?). lia. }
  eapply yields_bind; [apply yields_admit_roots|]. intros st Hst.
  eapply yields_bind; [by eapply yields_shared|]. intros answer (covered & Hans).
  eapply yields_bind; [apply yields_check|]. intros os Hos%ok_or_Ok.
  eapply yields_bind; [apply yields_check|]. intros [] Hlim.
  eapply yields_bind; [apply yields_step|]. intros _ _.
  eapply yields_bind; [by apply yields_expect|]. intros first' Hf'. rewrite Hf in Hf'. apply (inj Some) in Hf' as <-.
  apply yields_ret. pose proof (shared_volume _ _ _ _ Hans Hos Hlim) as Ha. rewrite Hvol.
  exists volume, os, (sa_handoffs answer), (sa_pending_renames answer), covered. split; [done|]. split; [done|].
  by eapply volume_reply_valid.
Qed.

(** C6: reading a volume answers every root it was asked about, and the answer holds on the wire.  For every
    behaviour of the ports within their contract, and every valid request whose carried renames agree with
    its roots, the execution of an accepted volume read does not panic,
    and when it succeeds its answer has exactly one outcome per requested root, in the order of the
    request: a failure that tells nothing, or an account of candidates in ascending order inside a covered
    range that all accounted roots share.  Every pending rename lies at a position that the outcome of its root
    accounts for.  Every hand-off lies at a position that the outcome of the root of its new name accounts for, and so does the
    outcome of the root of its old name, unless the hand-off continues a rename that the request carried: then it names that
    request's carry and root, which need not be one of the roots read, and tells the same file under the same old name, later.
    The records and the evidence stay within the request's limits, the answer passes the validation
    of the codec, and whenever it fits a frame the client decodes it to the same answer. *)
Theorem volume_read_answers id key q deadline authenticated w :
  valid_request (ReqReadVolume id q) → consistent_roots q →
  match (execute_read_volume id key q deadline authenticated w).1 with
  | Err halt => halt ≠ Panicked
  | Ok r =>
    ∃ volume os hs ps covered,
      r = volume_response id q volume os hs ps ∧ volume_answer q os hs ps covered ∧
      validate_response r = Ok () ∧
      (zlen (response_repr r) ≤ 1000 * 1000 → ∃ frame, encode_answer r = Ok frame ∧ client_reads frame r)
  end.
Proof.
  intros Hv Hcons. revert w. eapply yields_bind; [apply yields_verify|]. intros caller _.
  eapply yields_bind; [apply yields_check|]. intros [] _. apply yields_with_context.
  eapply yields_mono; [by apply yields_volume|]. intros r (volume & os & hs & ps & covered & -> & Ha & Hval & Hwf).
  exists volume, os, hs, ps, covered. split; [done|]. split; [done|]. split; [done|].
  intros Hsize. apply encode_answer_total; [done..|]. by intros _.
Qed.
End Execute.

(** A read of two roots, with a move from the first to the second in the journal. *)
Definition sample_pictures : RootAuthorization :=
  {| root_root_id := lit "p"; root_root_generation := 1; root_volume_id := lit "v";
     root_root_identity := replicate 16 4; root_canonical_root_utf16 := lit "C:\Pics" |}.
Definition sample_volume_read : ReadJournalVolumeRequest :=
  {| rv_caller := sample_caller;
     rv_roots := [{| sr_root := sample_root; sr_root_capability := {| capability_bytes := replicate 32 1 |};
                     sr_start_usn := 10 |};
                  {| sr_root := sample_pictures; sr_root_capability := {| capability_bytes := replicate 32 2 |};
                     sr_start_usn := 11 |}];
     rv_pending_renames := [];
     rv_journal_id := 3; rv_end_usn := 20; rv_max_records := 8; rv_max_evidence_bytes := 4096;
     rv_timeout_ms := 1000 |}.
Definition sample_volume_reading : RegistryState :=
  (begin_execution (accept_volume_read map_to_list sample_open sample_read_key 100 sample_volume_read 0).2
     sample_read_key 0).2.

Lemma sample_volume_laws : VolumePortLaws (H := sample_ports) RegistryState.
Proof.
  split. cbn. intros read cw page _ Hpage. apply (inj Ok) in Hpage as <-. split; cbn.
  - apply Forall_fmap, Forall_true. intros r. cbn. apply Forall_singleton, sample_candidate_wf.
  - destruct (ev_roots read) as [|r1 [|r2 [|r3 rs]]] eqn:E; try constructor; [|constructor]. split; cbn.
    + apply (bool_decide_unpack _). by vm_compute.
    + by exists 13.
    + intros index [= <-]. by exists 13.
    + done.
  - constructor.
Qed.

Lemma sample_volume_valid : valid_request (ReqReadVolume 9 sample_volume_read).
Proof.
  split; [|split; [vm_compute; reflexivity|vm_compute; discriminate]].
  unfold wf_request, wf_caller, wf_shared_root, wf_root, wf_capability, is_array.
  change (rv_pending_renames sample_volume_read) with (@nil SharedJournalPendingRenameRequest). rewrite Forall_nil.
  cbn [BrokerRequest_request_id]. apply (bool_decide_unpack _). vm_compute. exact I.
Qed.

Lemma sample_volume_consistent : consistent_roots sample_volume_read.
Proof. intros pending root Hp. by apply not_elem_of_nil in Hp. Qed.

Lemma volume_read_answers_witness :
  ∃ volume os handoff covered,
    (execute_read_volume (H := sample_ports) 9 sample_read_key sample_volume_read 100 sample_connection
       sample_volume_reading).1 = Ok (volume_response 9 sample_volume_read volume os [handoff] []) ∧
    volume_answer sample_volume_read os [handoff] [] covered.
Proof.
  pose proof (volume_read_answers (H := sample_ports) (H0 := sample_laws) (VolumePortLaws0 := sample_volume_laws)
    9 sample_read_key sample_volume_read 100 sample_connection sample_volume_reading sample_volume_valid sample_volume_consistent) as Hw.
  destruct (execute_read_volume _ _ _ _ _ _).1 as [r|h] eqn:E in Hw; [|exfalso; vm_compute in E; discriminate E].
  destruct Hw as (volume & os & hs & ps & covered & -> & Ha & _).
  assert (length hs = 1%nat ∧ length ps = 0%nat) as [Hl Hp].
  { vm_compute in E. injection E as _ _ <- <-. done. }
  destruct hs as [|h [|? ?]]; [done| |done]. destruct ps; [|done].
  exists volume, os, h, covered. split; [exact E|exact Ha].
Defined.
