(* ===== verification/PinnedRoots.v ===== *)
(** * Pinned roots and native paths

    [PinnedRootState] of [journal_broker/service/windows_security.rs] and the functions of
    [journal_broker/windows/usn.rs] that relate native paths to it, then what the authorizer reads from the handle of a root.  Handles are opaque numbers. *)

From S2P Require Import Prelude Text Effects WireBase WirePath Wire Contracts Usn UsnPath ActiveRegistry Service.
Import WirePath(NameComparisonSemantics, normalize_backend_path, scope_under_root, ordinal_equals, BACKSLASH).

Record PinnedRootState := {
  ps_root_handle : Z;
  ps_volume_handle : option Z;
  ps_volume_id : str;
  ps_volume_open_path : str;
  ps_root_identity : bytes;
  ps_canonical_root_utf16 : list Z;
  ps_component_semantics : list NameComparisonSemantics;
}.

(** [root.volume_handle().map_err(|_| BackendError::RootUnavailable)] *)
Definition volume_handle (root : PinnedRootState) : BackendResult Z :=
  ok_or (ps_volume_handle root) BackendRootUnavailable.

(** [if !path.ends_with(&[b'\\' as u16]) { path.push(b'\\' as u16) }; path.extend(name.encode_utf16())] *)
Definition push_name (path : list Z) (name : str) : list Z :=
  (if bool_decide (last path = Some BACKSLASH) then path else path ++ [BACKSLASH]) ++ encode_utf16 name.

(** The closure that [resolve_reference_path] hands to [resolve_reference_path_with]. *)
Definition append_name (path : list Z) (name : str) : BackendResult (list Z) :=
  let path := push_name path name in
  if MAX_PATH_UTF16_UNITS <? zlen path then Err BackendRecordUnsupported else Ok path.

Definition join_root_relative (root : list Z) (relative : str) : BackendResult (list Z) :=
  let path := push_name root relative in
  fail_if (MAX_PATH_UTF16_UNITS <? zlen path) BackendRecordUnsupported;;
  map_err (λ _, BackendRecordUnsupported) (normalize_backend_path path);;
  Ok path.

Definition file_reference_from_bytes (b : bytes) : BackendResult FileReference :=
  if zlen b =? 8 then Ok (V2 b) else if zlen b =? 16 then Ok (V3 b) else Err BackendRecordUnsupported.

Section Paths.
Context (CompareStringOrdinal : list Z → list Z → Z → Z).

Definition path_is_inside (root : PinnedRootState) (path : list Z) : BackendResult bool :=
  path ← map_err (λ _, BackendRecordUnsupported) (normalize_backend_path path);
  root_path ← map_err (λ _, BackendRootUnavailable) (normalize_backend_path (ps_canonical_root_utf16 root));
  scope ← map_err (λ _, BackendRecordUnsupported)
            (scope_under_root CompareStringOrdinal path root_path (ps_component_semantics root));
  Ok (bool_decide (is_Some scope)).

Definition guid_path_to_dos (root : PinnedRootState) (guid_path : list Z) : BackendResult (list Z) :=
  let volume := encode_utf16 (ps_volume_open_path root) in
  is_volume ← (if zlen guid_path <? zlen volume then Ok false
               else map_err (λ _, BackendRecordUnsupported)
                      (ordinal_equals CompareStringOrdinal (take (length volume) guid_path) volume true));
  fail_if (negb is_volume) BackendVolumeMismatch;;
  let declared := ps_canonical_root_utf16 root in
  fail_if (zlen declared <? 3) BackendRootUnavailable;;
  Ok (take 3 declared ++ drop (length volume) guid_path).
End Paths.

(** * Handles of roots *)

Import WirePath(NameComparisonSemantics, OrdinalCaseSensitive, WindowsOrdinalIgnoreCase, NormalizedWindowsPath,
  Root, Relative, normalize_backend_path, component_count, scope_under_root, eq_ignore_ascii_case, ascii_lower,
  BACKSLASH, SLASH).

Inductive WindowsSecurityError :=
| SecCallerRejected | SecImpersonationFailed | SecTokenUnavailable | SecTokenMalformed
| SecTokenEvidenceRejected (reason : str) | SecRevertFailed | SecRootRejected | SecUnsupportedFilesystem
| SecPathMissing.

Abbreviation SecurityResult := (Result WindowsSecurityError).

Definition MAX_WIN32_PATH_UNITS : Z := 32767.
Definition INVALID_HANDLE_VALUE : Z := 2 ^ 64 - 1.
Definition ERROR_FILE_NOT_FOUND : Z := 2.
Definition ERROR_PATH_NOT_FOUND : Z := 3.
Definition FILE_ATTRIBUTE_REPARSE_POINT : Z := 0x400.
Definition FILE_CS_FLAG_CASE_SENSITIVE_DIR : Z := 1.

(** Which access [CreateFileW] is asked for: attributes of a file, or reading a volume. *)
Inductive OpenAccess := OpenAttributes | OpenVolume.
(** The flags of [GetFinalPathNameByHandleW]. *)
Inductive PathForm := DosForm | GuidForm.

Class HandlePorts (W : Type) := {
  (* [CreateFileW]: the raw handle, and the last error *)
  create_file : list Z → OpenAccess → W → (Z * Z) * W;
  (* [GetFileInformationByHandleEx], each class on its own: nothing when the call fails *)
  attribute_tag_info : Z → W → option Z * W;
  standard_info_directory : Z → W → option bool * W;
  file_id_info : Z → W → option bytes * W;
  case_sensitive_info : Z → W → option Z * W;
  (* [GetFinalPathNameByHandleW] with a buffer: the length it reports and the units it wrote *)
  final_path_name : Z → PathForm → Z → W → (Z * list Z) * W;
  (* [GetVolumeInformationByHandleW]: the name of the file system in its buffer, and the serial *)
  volume_information_by_handle : Z → W → option (list Z * Z) * W;
}.

(** ** Text *)

(** [value.trim_end_matches(c)] *)
Fixpoint drop_while (c : Z) (s : str) : str :=
  match s with d :: r => if d =? c then drop_while c r else s | [] => [] end.
Definition trim_end_matches (c : Z) (s : str) : str := reverse (drop_while c (reverse s)).

Definition normalize_volume_id (value : str) : str :=
  ascii_lower <$> trim_end_matches SLASH ((λ c, if c =? BACKSLASH then SLASH else c) <$> value).

Definition strip_extended_dos_prefix (path : list Z) : SecurityResult (list Z) :=
  ok_or (value ← strip_prefix (encode_utf16 (lit "\\?" ++ [BACKSLASH])) path;
         if is_empty value then None else Some value) SecRootRejected.

(** [s.find(pattern)] followed by [s.get(..position + pattern.len())]: the text up to the end of the first
    occurrence. *)
Fixpoint through_first (pattern s : str) : option str :=
  match strip_prefix pattern s with
  | Some _ => Some pattern
  | None => match s with c :: s => cons c <$> through_first pattern s | [] => None end
  end.

Definition split_guid_path (path : list Z) : SecurityResult (str * list Z) :=
  decoded ← ok_or (from_utf16 path) SecRootRejected;
  fail_if (negb (starts_with_str (lit "\\?\Volume{") decoded)) SecRootRejected;;
  volume ← ok_or (through_first (lit "}" ++ [BACKSLASH]) decoded) SecRootRejected;
  Ok (volume, path).

Definition nul_terminated_path (path : list Z) : SecurityResult (list Z) :=
  if is_empty path || (MAX_WIN32_PATH_UNITS <=? zlen path) || existsb (Z.eqb 0) path
  then Err SecRootRejected else Ok (path ++ [0]).

Definition is_reparse_attributes (attributes : Z) : bool :=
  negb (Z.land attributes FILE_ATTRIBUTE_REPARSE_POINT =? 0).

Definition root_identity_matches (declared actual : bytes) : bool := bool_decide (declared = actual).

(** [s.get(..count)] and [s.get(count..)] in bytes; nothing when a character is cut. *)
Fixpoint split_at_byte (count : Z) (s : str) : option (str * str) :=
  if count =? 0 then Some ([], s)
  else match s with
       | [] => None
       | c :: s =>
         let size := zlen (utf8_char c) in
         if count <? size then None
         else '(before, after) ← split_at_byte (count - size) s; Some (c :: before, after)
       end.

Section Handles.
Context {W : Type} `{BrokerPorts W} `{HandlePorts W}.
Abbreviation Secured := (Run WindowsSecurityError W).

(** ** Opening *)

Definition OwnedFileHandle_new (raw : Z) : SecurityResult Z :=
  if (raw =? 0) || (raw =? INVALID_HANDLE_VALUE) then Err SecRootRejected else Ok raw.

Definition reject_reparse_handle (handle : Z) : Secured unit :=
  attributes ← observe (attribute_tag_info handle);
  check match attributes with
        | None => Err SecRootRejected
        | Some attributes => fail_if (is_reparse_attributes attributes) SecRootRejected
        end.

Definition open_directory_handle (path : list Z) : Secured Z :=
  path ← check (nul_terminated_path path);
  '(raw, _) ← observe (create_file path OpenAttributes);
  handle ← check (OwnedFileHandle_new raw);
  reject_reparse_handle handle;;
  mret handle.

Definition open_metadata_handle (path : list Z) : Secured Z :=
  path ← check (nul_terminated_path path);
  '(raw, last_error) ← observe (create_file path OpenAttributes);
  check (fail_if ((raw =? 0) || (raw =? INVALID_HANDLE_VALUE))
           (if (last_error =? ERROR_FILE_NOT_FOUND) || (last_error =? ERROR_PATH_NOT_FOUND)
            then SecPathMissing else SecRootRejected));;
  handle ← check (OwnedFileHandle_new raw);
  reject_reparse_handle handle;;
  mret handle.

Definition open_volume_handle (path : str) : Secured Z :=
  let path := encode_utf16 (trim_end_matches BACKSLASH path) in
  path ← check (nul_terminated_path path);
  '(raw, _) ← observe (create_file path OpenVolume);
  check (OwnedFileHandle_new raw).

(** ** Facts *)

(** The buffer grows until the path fits or the limit is passed; [fuel] bounds the number of calls. *)
Fixpoint final_path_from (fuel : nat) (handle : Z) (form : PathForm) (capacity : Z) : Secured (list Z) :=
  match fuel with
  | O => expect None
  | S fuel =>
    if MAX_WIN32_PATH_UNITS <? capacity then check (Err SecRootRejected)
    else
      '(length, buffer) ← observe (final_path_name handle form capacity);
      if length =? 0 then check (Err SecRootRejected)
      else if length <? capacity then
        let buffer := take (Z.to_nat length) buffer in
        match from_utf16 buffer with
        | None => check (Err SecRootRejected)
        | Some _ => mret buffer
        end
      else final_path_from fuel handle form (length + 1)
  end.

Definition final_path (handle : Z) (form : PathForm) : Secured (list Z) :=
  final_path_from (Z.to_nat (MAX_WIN32_PATH_UNITS + 2 - 512)) handle form 512.

(** [buffer.iter().position(|unit| *unit == 0)] and the units before it *)
Fixpoint until_nul (buffer : list Z) : option (list Z) :=
  match buffer with
  | [] => None
  | unit_ :: rest => if unit_ =? 0 then Some [] else cons unit_ <$> until_nul rest
  end.

Definition volume_information (handle : Z) : Secured (str * Z) :=
  information ← observe (volume_information_by_handle handle);
  check (ok_or ('(filesystem, serial) ← information;
                name ← until_nul filesystem;
                decoded ← from_utf16 name;
                Some (decoded, serial)) SecRootRejected).

Definition file_identity (handle : Z) : Secured bytes :=
  identity ← observe (file_id_info handle);
  check (ok_or identity SecRootRejected).

(** The loop of [query_component_semantics]: [current] is the parent of the next component. *)
Fixpoint component_semantics_from (components : list str) (current : str) (semantics : list NameComparisonSemantics)
    : Secured (list NameComparisonSemantics) :=
  match components with
  | [] => mret semantics
  | component :: rest =>
    check (fail_if (is_empty component) SecRootRejected);;
    parent ← open_directory_handle (encode_utf16 current);
    flags ← observe (case_sensitive_info parent);
    flags ← check (ok_or flags SecRootRejected);
    let rule := if negb (Z.land flags FILE_CS_FLAG_CASE_SENSITIVE_DIR =? 0)
                then OrdinalCaseSensitive else WindowsOrdinalIgnoreCase in
    let current := (if ends_with BACKSLASH current then current else current ++ [BACKSLASH]) ++ component in
    (if is_empty rest then mret () else open_directory_handle (encode_utf16 current);; mret ());;
    component_semantics_from rest current (semantics ++ [rule])
  end.

Definition query_component_semantics (canonical_root : list Z) : Secured (list NameComparisonSemantics) :=
  root ← check (ok_or (from_utf16 canonical_root) SecRootRejected);
  '(drive, remainder) ← check (ok_or (split_at_byte 3 root) SecRootRejected);
  if is_empty remainder then mret [] else component_semantics_from (split_on BACKSLASH remainder) drive [].

(** ** Roots *)

Definition root_paths_equal_by_parent_semantics (actual declared : list Z)
    (semantics : list NameComparisonSemantics) : WireResult bool :=
  actual ← normalize_backend_path actual;
  declared ← normalize_backend_path declared;
  if negb (component_count actual =? component_count declared) then Ok false
  else
    scope ← scope_under_root compare_string_ordinal actual declared semantics;
    Ok match scope with Some Root => true | _ => false end.

Definition root_rejected {E A : Type} (r : Result E A) : SecurityResult A := map_err (λ _, SecRootRejected) r.

Definition pin_root_handle (root : RootAuthorization) (root_handle : Z) : Secured PinnedRootState :=
  directory ← observe (standard_info_directory root_handle);
  check (fail_if (negb (default false directory)) SecRootRejected);;
  reject_reparse_handle root_handle;;
  component_semantics ← query_component_semantics (root_canonical_root_utf16 root);
  final_dos ← final_path root_handle DosForm;
  final_dos ← check (strip_extended_dos_prefix final_dos);
  equal ← check (root_rejected (root_paths_equal_by_parent_semantics final_dos (root_canonical_root_utf16 root)
                                  component_semantics));
  check (fail_if (negb equal) SecRootRejected);;
  final_guid ← final_path root_handle GuidForm;
  '(volume_open_path, _) ← check (split_guid_path final_guid);
  check (fail_if (negb (bool_decide (normalize_volume_id volume_open_path
                                     = normalize_volume_id (root_volume_id root)))) SecRootRejected);;
  '(filesystem, _) ← volume_information root_handle;
  check (fail_if (negb (eq_ignore_ascii_case filesystem (lit "NTFS"))) SecUnsupportedFilesystem);;
  actual_identity ← file_identity root_handle;
  check (fail_if (negb (root_identity_matches (root_root_identity root) actual_identity)) SecRootRejected);;
  mret {| ps_root_handle := root_handle;
          ps_volume_handle := None;
          ps_volume_id := root_volume_id root;
          ps_volume_open_path := volume_open_path;
          ps_root_identity := root_root_identity root;
          ps_canonical_root_utf16 := root_canonical_root_utf16 root;
          ps_component_semantics := component_semantics |}.

Definition revalidate_identity (self : PinnedRootState) : Secured unit :=
  let handle := ps_root_handle self in
  reject_reparse_handle handle;;
  final_dos ← final_path handle DosForm;
  final_dos ← check (strip_extended_dos_prefix final_dos);
  equal ← check (root_rejected (root_paths_equal_by_parent_semantics final_dos (ps_canonical_root_utf16 self)
                                  (ps_component_semantics self)));
  same ← (if negb equal then mret false
          else identity ← file_identity handle; mret (bool_decide (identity = ps_root_identity self)));
  check (fail_if (negb same) SecRootRejected);;
  final_guid ← final_path handle GuidForm;
  '(volume_open_path, _) ← check (split_guid_path final_guid);
  '(filesystem, _) ← volume_information handle;
  check (fail_if (negb (bool_decide (normalize_volume_id volume_open_path = normalize_volume_id (ps_volume_id self)))
                  || negb (eq_ignore_ascii_case filesystem (lit "NTFS"))) SecRootRejected).

(** [describe_client_root]: the root, its handle, and the serial of its volume. *)
Definition describe_client_root (supplied : list Z) (root_id : str) (root_generation : Z)
    : Secured (RootAuthorization * Z * Z) :=
  root_handle ← open_directory_handle supplied;
  final_dos ← final_path root_handle DosForm;
  canonical_root_utf16 ← check (strip_extended_dos_prefix final_dos);
  final_guid ← final_path root_handle GuidForm;
  '(volume_id, _) ← check (split_guid_path final_guid);
  '(filesystem, volume_serial) ← volume_information root_handle;
  check (fail_if (negb (eq_ignore_ascii_case filesystem (lit "NTFS"))) SecUnsupportedFilesystem);;
  root_identity ← file_identity root_handle;
  let root := {| root_root_id := root_id;
                 root_root_generation := root_generation;
                 root_volume_id := volume_id;
                 root_root_identity := root_identity;
                 root_canonical_root_utf16 := canonical_root_utf16 |} in
  check (root_rejected (RootAuthorization_validate root));;
  mret (root, root_handle, volume_serial).

(** ** The operations return

    None of them panics: the buffer of [final_path] grows with every call until it passes the limit. *)

Lemma yields_final_from fuel handle form capacity :
  (Z.to_nat (MAX_WIN32_PATH_UNITS + 1 - capacity) < fuel)%nat → 0 ≤ capacity →
  yields (final_path_from fuel handle form capacity) (λ path, is_Some (from_utf16 path)).
Proof.
  revert capacity. induction fuel as [|fuel IH]; intros capacity Hfuel Hc; [lia|]. cbn [final_path_from].
  destruct (Z.ltb_spec MAX_WIN32_PATH_UNITS capacity) as [|Hle]; [by intros w|].
  eapply yields_bind; [by apply (yields_observe _ (λ _, True))|]. intros [length buffer] _.
  destruct (length =? 0); [by intros w|]. destruct (Z.ltb_spec length capacity) as [|Hge].
  - destruct (from_utf16 (take (Z.to_nat length) buffer)) eqn:E; [|by intros w]. apply yields_ret. by rewrite E.
  - apply IH; lia.
Qed.

Lemma yields_final_path handle form : yields (final_path handle form) (λ path, is_Some (from_utf16 path)).
Proof. apply yields_final_from; unfold MAX_WIN32_PATH_UNITS; lia. Qed.

Lemma yields_reparse handle : yields (reject_reparse_handle handle) (λ _, True).
Proof.
  eapply yields_bind; [by apply (yields_observe _ (λ _, True))|]. intros attributes _.
  eapply yields_mono; [apply yields_check|done].
Qed.

Lemma yields_directory path : yields (open_directory_handle path) (λ _, True).
Proof.
  eapply yields_bind; [apply yields_check|]. intros terminated _.
  eapply yields_bind; [by apply (yields_observe _ (λ _, True))|]. intros [raw ?] _.
  eapply yields_bind; [apply yields_check|]. intros handle _.
  eapply yields_bind; [apply yields_reparse|]. intros _ _. by apply yields_ret.
Qed.

Lemma yields_volume_information handle : yields (volume_information handle) (λ _, True).
Proof.
  eapply yields_bind; [by apply (yields_observe _ (λ _, True))|]. intros information _.
  eapply yields_mono; [apply yields_check|done].
Qed.

Lemma yields_identity handle : yields (file_identity handle) (λ _, True).
Proof.
  eapply yields_bind; [by apply (yields_observe _ (λ _, True))|]. intros identity _.
  eapply yields_mono; [apply yields_check|done].
Qed.

Lemma yields_revalidate root : yields (revalidate_identity root) (λ _, True).
Proof.
  unfold revalidate_identity. eapply yields_bind; [apply yields_reparse|]. intros _ _.
  eapply yields_bind; [apply yields_final_path|]. intros final _.
  eapply yields_bind; [apply yields_check|]. intros final_dos _.
  eapply yields_bind; [apply yields_check|]. intros equal _.
  eapply yields_bind with (P := λ _, True).
  { destruct (negb equal); [by apply yields_ret|]. eapply yields_bind; [apply yields_identity|]. intros identity _. by apply yields_ret. }
  intros same _. eapply yields_bind; [apply yields_check|]. intros _ _.
  eapply yields_bind; [apply yields_final_path|]. intros guid _.
  eapply yields_bind; [apply yields_check|]. intros [volume ?] _.
  eapply yields_bind; [apply yields_volume_information|]. intros [filesystem ?] _.
  eapply yields_mono; [apply yields_check|done].
Qed.

Lemma yields_semantics_from components current semantics :
  yields (component_semantics_from components current semantics)
    (λ rules, length rules = (length semantics + length components)%nat).
Proof.
  revert current semantics. induction components as [|component rest IH]; intros current semantics;
    cbn [component_semantics_from]; [apply yields_ret; cbn; lia|].
  eapply yields_bind; [apply yields_check|]. intros _ _.
  eapply yields_bind; [apply yields_directory|]. intros parent _.
  eapply yields_bind; [by apply (yields_observe _ (λ _, True))|]. intros flags _.
  eapply yields_bind; [apply yields_check|]. intros flags' _.
  eapply yields_bind with (P := λ _, True).
  { destruct (is_empty rest); [by apply yields_ret|]. eapply yields_bind; [apply yields_directory|]. intros _ _. by apply yields_ret. }
  intros _ _. eapply yields_mono; [apply IH|]. intros rules ->. rewrite length_app. cbn. lia.
Qed.

(** What pinning a root establishes: the facts of the root it was asked for. *)
Definition pins (root : RootAuthorization) (pinned : PinnedRootState) : Prop :=
  ps_volume_id pinned = root_volume_id root ∧ ps_root_identity pinned = root_root_identity root ∧
  ps_canonical_root_utf16 pinned = root_canonical_root_utf16 root ∧
  normalize_volume_id (ps_volume_open_path pinned) = normalize_volume_id (root_volume_id root).

Lemma yields_pin root handle :
  yields (pin_root_handle root handle) (λ pinned, pins root pinned ∧ ps_root_handle pinned = handle).
Proof.
  unfold pin_root_handle. eapply yields_bind; [by apply (yields_observe _ (λ _, True))|]. intros directory _.
  eapply yields_bind; [apply yields_check|]. intros _ _. eapply yields_bind; [apply yields_reparse|]. intros _ _.
  eapply yields_bind with (P := λ _, True).
  { eapply yields_bind; [apply yields_check|]. intros root' _. eapply yields_bind; [apply yields_check|]. intros [drive remainder] _.
    destruct (is_empty remainder); [by apply yields_ret|]. eapply yields_mono; [apply yields_semantics_from|done]. }
  intros semantics _. eapply yields_bind; [apply yields_final_path|]. intros final _.
  eapply yields_bind; [apply yields_check|]. intros final_dos _. eapply yields_bind; [apply yields_check|]. intros equal _.
  eapply yields_bind; [apply yields_check|]. intros _ _. eapply yields_bind; [apply yields_final_path|]. intros guid _.
  eapply yields_bind; [apply yields_check|]. intros [volume ?] _.
  eapply yields_bind; [apply yields_check|]. intros _ Hvolume%fail_if_Ok. apply negb_false_iff, bool_decide_eq_true in Hvolume.
  eapply yields_bind; [apply yields_volume_information|]. intros [filesystem ?] _.
  eapply yields_bind; [apply yields_check|]. intros _ _. eapply yields_bind; [apply yields_identity|]. intros identity _.
  eapply yields_bind; [apply yields_check|]. intros _ _. apply yields_ret. by split.
Qed.
End Handles.
