(* ===== verification/SemanticEvents.v ===== *)
(** * Semantic events of a native journal page

    Models [semantic_events], [apply_semantic_limits] and what they call in
    [journal_broker/windows/usn.rs]: raw records with resolved paths become events (candidates of roots,
    hand-offs between roots, renames whose new name is still to come), the roots for which containment
    could not be decided fail, and the page is cut where the limits of the request end. *)

From S2P Require Import Prelude Text Order Effects WireBase WirePath Wire Contracts BrokerChecks Usn UsnPath.
From S2P Require Import PinnedRoots.

Definition USN_REASON_RENAME_NEW_NAME : Z := 0x2000.

Record ResolvedRecord := {
  res_path : list Z;
  res_file_reference : FileReference;
  res_usn : Z;
  res_reason : Z;
  res_is_directory : bool;
}.

Record NativePendingRenameCarry := {
  np_root : option PinnedRootState;
  np_read_root_index : option nat;
  np_file_reference : bytes;
  np_old_usn : Z;
  np_previous_relative_path : str;
  np_is_directory : bool;
}.

(** [record.reason & flags != 0] *)
Definition has_reason (reason flags : Z) : bool := negb (Z.land reason flags =? 0).

(** ** Indexing *)

Abbreviation Native := (Result (Halt BackendError)).
Abbreviation CandidatesByRoot := (list (BackendResult (list BackendJournalCandidate))).

Definition failing {A : Type} (r : BackendResult A) : Native A := map_err Failed r.
(** [l[index]] and [l[index] = x]: a panic out of range. *)
Definition get_at {A : Type} (l : list A) (index : nat) : Native A := ok_or (l !! index) Panicked.
Definition set_at {A : Type} (l : list A) (index : nat) (x : A) : Native (list A) :=
  if decide (index < length l)%nat then Ok (<[index := x]> l) else Err Panicked.

(** ** Events *)

Record SemanticEvent := {
  se_usn : Z;
  se_candidates : list (nat * BackendJournalCandidate);
  se_handoff : option BackendJournalHandoff;
  se_pending : option BackendPendingRename;
}.

(** [SemanticEvent { usn, ..SemanticEvent::default() }] *)
Definition event_at (usn : Z) : SemanticEvent :=
  {| se_usn := usn; se_candidates := []; se_handoff := None; se_pending := None |}.

(** [value.checked_add(path.len().saturating_mul(2))] *)
Definition add_path (value : Z) (path : list Z) : option Z :=
  checked_add USIZE_MAX value (Z.min USIZE_MAX (zlen path * 2)).

(** The two [if let] blocks of [costs], each with its record and its evidence. *)
Definition count_handoff (totals : Z * Z) (handoff : BackendJournalHandoff) : BackendResult (Z * Z) :=
  records ← ok_or (checked_add USIZE_MAX totals.1 1) BackendEvidenceLimitExceeded;
  evidence ← ok_or (value ← add_path totals.2 (bh_previous_absolute_path_utf16 handoff);
                    value ← add_path value (bh_current_absolute_path_utf16 handoff);
                    checked_add USIZE_MAX value (zlen (bh_file_reference handoff)))
                   BackendEvidenceLimitExceeded;
  Ok (records, evidence).
Definition count_told_pending (totals : Z * Z) (pending : BackendPendingRename) : BackendResult (Z * Z) :=
  records ← ok_or (checked_add USIZE_MAX totals.1 1) BackendEvidenceLimitExceeded;
  evidence ← ok_or (value ← add_path totals.2 (bpr_previous_absolute_path_utf16 pending);
                    checked_add USIZE_MAX value (zlen (bpr_file_reference pending)))
                   BackendEvidenceLimitExceeded;
  Ok (records, evidence).

Definition count_candidate (evidence : Z) (entry : nat * BackendJournalCandidate) : BackendResult Z :=
  size ← BackendJournalCandidate_evidence_bytes entry.2;
  ok_or (checked_add USIZE_MAX evidence size) BackendEvidenceLimitExceeded.

Definition SemanticEvent_costs (self : SemanticEvent) : BackendResult (Z * Z) :=
  evidence ← result_foldl count_candidate 0 (se_candidates self);
  totals ← match se_handoff self with
           | Some handoff => count_handoff (zlen (se_candidates self), evidence) handoff
           | None => Ok (zlen (se_candidates self), evidence)
           end;
  match se_pending self with
  | Some pending => count_told_pending totals pending
  | None => Ok totals
  end.

Definition affected_roots (self : SemanticEvent) : gset nat :=
  list_to_set (se_candidates self).*1
  ∪ match se_handoff self with
    | Some handoff => match bh_previous_root_index handoff with Some index => {[index]} | None => ∅ end
                      ∪ {[bh_current_root_index handoff]}
    | None => ∅
    end
  ∪ match se_pending self with Some pending => {[bpr_root_index pending]} | None => ∅ end.

(** ** Roots that contain a path *)

Section Roots.
Context (is_inside : nat → list Z → BackendResult bool).

(** The loop over the roots: the roots that contain the path, and the roots that failed on it. *)
Fixpoint roots_for_path_from (root_start_usns : list Z) (path : list Z) (usn : Z) (indices : list nat)
    (candidates_by_root : CandidatesByRoot) (inside : list nat) : Native (list nat * CandidatesByRoot) :=
  match indices with
  | [] => Ok (inside, candidates_by_root)
  | index :: indices =>
    candidates ← get_at candidates_by_root index;
    skipped ← (if is_ok candidates then start ← get_at root_start_usns index; Ok (usn <? start) else Ok true);
    if (skipped : bool) then roots_for_path_from root_start_usns path usn indices candidates_by_root inside
    else
      match is_inside index path with
      | Ok true => roots_for_path_from root_start_usns path usn indices candidates_by_root (inside ++ [index])
      | Ok false => roots_for_path_from root_start_usns path usn indices candidates_by_root inside
      | Err error =>
        candidates_by_root ← set_at candidates_by_root index (Err error);
        roots_for_path_from root_start_usns path usn indices candidates_by_root inside
      end
  end.

Definition roots_for_path_with (root_count : nat) (root_start_usns : list Z) (candidates_by_root : CandidatesByRoot)
    (path : list Z) (usn : Z) : Native (list nat * CandidatesByRoot) :=
  roots_for_path_from root_start_usns path usn (seq 0 root_count) candidates_by_root [].

(** What the passes over the records change. *)
Record Semantics := {
  sm_candidates_by_root : CandidatesByRoot;
  sm_uncertainty_barrier : option Z;
  sm_rename_barriers_by_root : list (option Z);
  sm_events : list SemanticEvent;
}.

(** [barriers[index] = Some(barriers[index].map_or(usn, |old| old.min(usn)))] *)
Definition lower_root_barrier (usn : Z) (barriers : list (option Z)) (index : nat) : Native (list (option Z)) :=
  barrier ← get_at barriers index;
  set_at barriers index (lower_translation_barrier barrier usn).

(** One iteration of the second loop of [roots_for_rename_path_with]. *)
Definition note_uncertain (usn : Z) (st : Semantics * bool) (entry : nat * bool) : Native (Semantics * bool) :=
  let '(sm, uncertain) := st in
  let '(index, was_healthy) := entry in
  candidates ← get_at (sm_candidates_by_root sm) index;
  if was_healthy && negb (is_ok candidates) then
    barriers ← lower_root_barrier usn (sm_rename_barriers_by_root sm) index;
    Ok ({| sm_candidates_by_root := sm_candidates_by_root sm;
           sm_uncertainty_barrier := lower_translation_barrier (sm_uncertainty_barrier sm) usn;
           sm_rename_barriers_by_root := barriers;
           sm_events := sm_events sm |}, true)
  else Ok (sm, uncertain).

Definition roots_for_rename_path_with (root_count : nat) (root_start_usns : list Z) (path : list Z) (usn : Z)
    (sm : Semantics) : Native (list nat * bool * Semantics) :=
  let before := is_ok <$> sm_candidates_by_root sm in
  '(owners, candidates_by_root) ←
    roots_for_path_with root_count root_start_usns (sm_candidates_by_root sm) path usn;
  barriers ← result_foldl (lower_root_barrier usn) (sm_rename_barriers_by_root sm) owners;
  let sm := {| sm_candidates_by_root := candidates_by_root;
               sm_uncertainty_barrier := sm_uncertainty_barrier sm;
               sm_rename_barriers_by_root := barriers;
               sm_events := sm_events sm |} in
  '(sm, uncertain) ← result_foldl (note_uncertain usn) (sm, false) (imap pair before);
  Ok (owners, uncertain, sm).
End Roots.

(** ** Candidates *)

Definition scoped_candidate_from_parts (volume_id : str) (path : list Z) (file_reference : FileReference)
    (usn : Z) (is_directory : bool) : BackendResult BackendJournalCandidate :=
  BackendJournalCandidate_copy_from_bounded volume_id path None (FileReference_bytes file_reference) usn
    (if is_directory then KindSubtree else KindPath) is_directory.

Definition scoped_candidate (volume_id : str) (path : list Z) (record : ResolvedRecord)
    : BackendResult BackendJournalCandidate :=
  scoped_candidate_from_parts volume_id path (res_file_reference record) (res_usn record)
    (res_is_directory record).

(** [event.candidates.push((index, candidate))] *)
Definition push_candidate (event : SemanticEvent) (index : nat) (candidate : BackendJournalCandidate)
    : SemanticEvent :=
  {| se_usn := se_usn event; se_candidates := se_candidates event ++ [(index, candidate)];
     se_handoff := se_handoff event; se_pending := se_pending event |}.

Definition push_event (sm : Semantics) (event : SemanticEvent) : Semantics :=
  {| sm_candidates_by_root := sm_candidates_by_root sm;
     sm_uncertainty_barrier := sm_uncertainty_barrier sm;
     sm_rename_barriers_by_root := sm_rename_barriers_by_root sm;
     sm_events := sm_events sm ++ [event] |}.

(** The event of a rename whose new name is not known. *)
Definition pending_event (root_index : nat) (path : list Z) (file_reference : FileReference) (usn : Z)
    (is_directory : bool) : SemanticEvent :=
  {| se_usn := usn; se_candidates := []; se_handoff := None;
     se_pending := Some {| bpr_root_index := root_index;
                           bpr_previous_absolute_path_utf16 := path;
                           bpr_file_reference := FileReference_bytes file_reference;
                           bpr_old_usn := usn;
                           bpr_is_directory := is_directory |} |}.

(** ** Rename pairs *)

Record RenamePairEvent := {
  rp_previous_path : list Z;
  rp_previous_usn : Z;
  rp_previous_roots : list nat;
  rp_previous_pending_index : option nat;
  rp_current : ResolvedRecord;
}.

(** [for index in roots { if candidates_by_root[*index].is_ok() { event.candidates.push(..) } }] *)
Definition push_scoped (volume_ids : list str) (candidates_by_root : CandidatesByRoot) (path : list Z)
    (current : ResolvedRecord) (event : SemanticEvent) (index : nat) : Native SemanticEvent :=
  candidates ← get_at candidates_by_root index;
  if is_ok candidates then
    volume_id ← get_at volume_ids index;
    candidate ← failing (scoped_candidate volume_id path current);
    Ok (push_candidate event index candidate)
  else Ok event.

(** The hand-off of a rename into exactly one root. *)
Definition pair_handoff (pair : RenamePairEvent) (current_roots : list nat) : option BackendJournalHandoff :=
  match current_roots with
  | [current_root_index] =>
    let previous_root_index := head (rp_previous_roots pair) in
    let is_carried := bool_decide (is_Some (rp_previous_pending_index pair)) in
    let is_cross_root :=
      is_carried || match previous_root_index with
                    | Some index => negb (Nat.eqb index current_root_index)
                    | None => false
                    end in
    if is_cross_root && Nat.leb (length (rp_previous_roots pair)) 1 then
      Some {| bh_previous_root_index := if is_carried then None else previous_root_index;
              bh_previous_pending_index := rp_previous_pending_index pair;
              bh_current_root_index := current_root_index;
              bh_previous_absolute_path_utf16 := rp_previous_path pair;
              bh_current_absolute_path_utf16 := res_path (rp_current pair);
              bh_file_reference := FileReference_bytes (res_file_reference (rp_current pair));
              bh_old_usn := rp_previous_usn pair;
              bh_usn := res_usn (rp_current pair);
              bh_is_directory := res_is_directory (rp_current pair) |}
    else None
  | _ => None
  end.

Definition push_pair_event_with_current_roots (volume_ids : list str) (pair : RenamePairEvent)
    (current_roots : list nat) (current_uncertain : bool) (sm : Semantics) : Native Semantics :=
  let current := rp_current pair in
  let previous_roots := rp_previous_roots pair in
  if current_uncertain && bool_decide (rp_previous_pending_index pair = None) then
    Ok match previous_roots with
       | [root_index] => push_event sm (pending_event root_index (rp_previous_path pair)
                           (res_file_reference current) (rp_previous_usn pair) (res_is_directory current))
       | _ => sm
       end
  else
    event ←
      match previous_roots, current_roots with
      | [previous], [current_index] =>
        if Nat.eqb previous current_index then
          volume_id ← get_at volume_ids previous;
          candidate ← failing (BackendJournalCandidate_copy_from_bounded volume_id (res_path current)
                                 (Some (rp_previous_path pair))
                                 (FileReference_bytes (res_file_reference current)) (res_usn current)
                                 KindRename (res_is_directory current));
          Ok (Some (push_candidate (event_at (res_usn current)) previous candidate))
        else Ok None
      | _, _ => Ok None
      end;
    event ←
      match event with
      | Some event => Ok event
      | None =>
        event ← result_foldl (push_scoped volume_ids (sm_candidates_by_root sm) (rp_previous_path pair) current)
                  (event_at (res_usn current)) previous_roots;
        event ← result_foldl (push_scoped volume_ids (sm_candidates_by_root sm) (res_path current) current)
                  event current_roots;
        Ok {| se_usn := se_usn event; se_candidates := se_candidates event;
              se_handoff := pair_handoff pair current_roots; se_pending := se_pending event |}
      end;
    Ok (if negb (is_empty (se_candidates event)) || bool_decide (is_Some (se_handoff event))
        then push_event sm event else sm).

(** ** The passes over the records *)

Section Events.
Context (CompareStringOrdinal : list Z → list Z → Z → Z).
Context (roots : list PinnedRootState) (root_start_usns : list Z).

Definition volume_ids : list str := ps_volume_id <$> roots.

(** [path_is_inside(&roots[index], path)]; every index asked for is one of a root. *)
Definition inside_root (index : nat) (path : list Z) : BackendResult bool :=
  match roots !! index with
  | Some root => path_is_inside CompareStringOrdinal root path
  | None => Err BackendRootUnavailable
  end.

Definition roots_for_path (path : list Z) (usn : Z) (candidates_by_root : CandidatesByRoot)
    : Native (list nat * CandidatesByRoot) :=
  roots_for_path_with inside_root (length roots) root_start_usns candidates_by_root path usn.

Definition roots_for_rename_path (path : list Z) (usn : Z) (sm : Semantics)
    : Native (list nat * bool * Semantics) :=
  roots_for_rename_path_with inside_root (length roots) root_start_usns path usn sm.

Definition push_pair_event (pair : RenamePairEvent) (sm : Semantics) : Native Semantics :=
  '(current_roots, current_uncertain, sm) ←
    roots_for_rename_path (res_path (rp_current pair)) (res_usn (rp_current pair)) sm;
  push_pair_event_with_current_roots volume_ids pair current_roots current_uncertain sm.

(** [indices.filter(..).max_by_key(|index| pending_renames[*index].old_usn)]: the last of the latest. *)
Definition latest_carry (pending_renames : list NativePendingRenameCarry) (current : ResolvedRecord)
    (indices : list nat) : option (nat * NativePendingRenameCarry) :=
  foldl (λ best index,
    match pending_renames !! index with
    | Some pending =>
      if (np_old_usn pending <? res_usn current)
         && Bool.eqb (np_is_directory pending) (res_is_directory current)
         && match best with
            | Some (_, latest) => np_old_usn latest <=? np_old_usn pending
            | None => true
            end
      then Some (index, pending) else best
    | None => best
    end) None indices.

Definition pending_by_reference (pending_renames : list NativePendingRenameCarry)
    : BackendResult (gmap FileReference (list nat)) :=
  result_foldl (λ by_reference entry,
    reference ← file_reference_from_bytes (np_file_reference entry.2);
    Ok (<[reference := default [] (by_reference !! reference) ++ [entry.1]]> by_reference))
    ∅ (imap pair pending_renames).

(** The arm of a new name whose old name was carried over from an earlier page. *)
Definition carried_rename (pending_index : nat) (pending : NativePendingRenameCarry) (current : ResolvedRecord)
    (sm : Semantics) : Native Semantics :=
  '(current_roots, current_uncertain, sm) ← roots_for_rename_path (res_path current) (res_usn current) sm;
  match np_root pending with
  | None =>
    Ok {| sm_candidates_by_root := sm_candidates_by_root sm;
          sm_uncertainty_barrier := lower_translation_barrier (sm_uncertainty_barrier sm) (res_usn current);
          sm_rename_barriers_by_root := sm_rename_barriers_by_root sm;
          sm_events := sm_events sm |}
  | Some previous_root =>
    previous_path ← failing (join_root_relative (ps_canonical_root_utf16 previous_root)
                               (np_previous_relative_path pending));
    push_pair_event_with_current_roots volume_ids
      {| rp_previous_path := previous_path;
         rp_previous_usn := np_old_usn pending;
         rp_previous_roots := match np_read_root_index pending with Some index => [index] | None => [] end;
         rp_previous_pending_index := Some pending_index;
         rp_current := current |} current_roots current_uncertain sm
  end.

(** The end of the loop body: a record on its own. *)
Definition plain_event (current : ResolvedRecord) (sm : Semantics) : Native Semantics :=
  '(current_roots, candidates_by_root) ← roots_for_path (res_path current) (res_usn current)
                                           (sm_candidates_by_root sm);
  let sm := {| sm_candidates_by_root := candidates_by_root;
               sm_uncertainty_barrier := sm_uncertainty_barrier sm;
               sm_rename_barriers_by_root := sm_rename_barriers_by_root sm;
               sm_events := sm_events sm |} in
  event ← result_foldl (λ event index,
            volume_id ← get_at volume_ids index;
            candidate ← failing (scoped_candidate volume_id (res_path current) current);
            Ok (push_candidate event index candidate)) (event_at (res_usn current)) current_roots;
  Ok (if is_empty (se_candidates event) then sm else push_event sm event).

Abbreviation OldNames := (gmap FileReference ResolvedRecord).

(** One iteration over the records. *)
Definition record_event (pending_renames : list NativePendingRenameCarry)
    (by_reference : gmap FileReference (list nat)) (st : Semantics * OldNames) (current : ResolvedRecord)
    : Native (Semantics * OldNames) :=
  let '(sm, old_names) := st in
  let reference := res_file_reference current in
  if has_reason (res_reason current) USN_REASON_RENAME_OLD_NAME then Ok (sm, <[reference := current]> old_names)
  else if has_reason (res_reason current) USN_REASON_RENAME_NEW_NAME then
    match old_names !! reference with
    | Some previous =>
      '(previous_roots, _, sm) ← roots_for_rename_path (res_path previous) (res_usn previous) sm;
      sm ← push_pair_event {| rp_previous_path := res_path previous;
                              rp_previous_usn := res_usn previous;
                              rp_previous_roots := previous_roots;
                              rp_previous_pending_index := None;
                              rp_current := current |} sm;
      Ok (sm, delete reference old_names)
    | None =>
      match indices ← by_reference !! reference; latest_carry pending_renames current indices with
      | Some (pending_index, pending) =>
        sm ← carried_rename pending_index pending current sm; Ok (sm, old_names)
      | None => sm ← plain_event current sm; Ok (sm, old_names)
      end
    end
  else sm ← plain_event current sm; Ok (sm, old_names).

(** One iteration over the old names that are left. *)
Definition leftover_event (sm : Semantics) (previous : ResolvedRecord) : Native Semantics :=
  '(previous_roots, _, sm) ← roots_for_rename_path (res_path previous) (res_usn previous) sm;
  match previous_roots with
  | [] => Ok sm
  | [root_index] =>
    Ok (push_event sm (pending_event root_index (res_path previous) (res_file_reference previous)
                         (res_usn previous) (res_is_directory previous)))
  | indices =>
    candidates_by_root ← result_foldl (λ candidates index, set_at candidates index (Err BackendRootUnavailable))
                           (sm_candidates_by_root sm) indices;
    Ok {| sm_candidates_by_root := candidates_by_root;
          sm_uncertainty_barrier := sm_uncertainty_barrier sm;
          sm_rename_barriers_by_root := sm_rename_barriers_by_root sm;
          sm_events := sm_events sm |}
  end.

(** The order of [FileReference]: variants first, then bytes.  [BTreeMap] iterates in it. *)
Definition file_reference_compare (x y : FileReference) : comparison :=
  match x, y with
  | V2 x, V2 y | V3 x, V3 y => lex_compare x y
  | V2 _, V3 _ => Lt
  | V3 _, V2 _ => Gt
  end.
Definition old_names_in_order (old_names : OldNames) : list ResolvedRecord :=
  (sort_by (compare_on file_reference_compare fst) (map_to_list old_names)).*2.

Definition semantic_events (pending_renames : list NativePendingRenameCarry) (records : list ResolvedRecord)
    (sm : Semantics) : Native Semantics :=
  by_reference ← failing (pending_by_reference pending_renames);
  '(sm, old_names) ← result_foldl (record_event pending_renames by_reference) (sm, ∅) records;
  result_foldl leftover_event sm (old_names_in_order old_names).
End Events.

(** ** Limits *)

Definition healthy_at (candidates_by_root : CandidatesByRoot) (index : nat) : Native bool :=
  candidates ← get_at candidates_by_root index; Ok (is_ok candidates).

(** [candidates.retain(|(index, _)| candidates_by_root[*index].is_ok())] *)
Definition retain_healthy (candidates_by_root : CandidatesByRoot)
    (candidates : list (nat * BackendJournalCandidate)) : Native (list (nat * BackendJournalCandidate)) :=
  result_foldl (λ kept entry,
    healthy ← healthy_at candidates_by_root entry.1;
    Ok (if (healthy : bool) then kept ++ [entry] else kept)) [] candidates.

Definition retain_handoff (candidates_by_root : CandidatesByRoot) (handoff : option BackendJournalHandoff)
    : Native (option BackendJournalHandoff) :=
  match handoff with
  | None => Ok None
  | Some handoff =>
    current ← healthy_at candidates_by_root (bh_current_root_index handoff);
    previous ← match bh_previous_root_index handoff with
               | Some index => if (current : bool) then healthy_at candidates_by_root index else Ok false
               | None => Ok true
               end;
    Ok (if (current : bool) && (previous : bool) then Some handoff else None)
  end.

Definition retain_pending (candidates_by_root : CandidatesByRoot) (pending : option BackendPendingRename)
    : Native (option BackendPendingRename) :=
  match pending with
  | None => Ok None
  | Some pending =>
    healthy ← healthy_at candidates_by_root (bpr_root_index pending);
    Ok (if (healthy : bool) then Some pending else None)
  end.

(** The event as far as its roots are healthy. *)
Definition retain_event (candidates_by_root : CandidatesByRoot) (event : SemanticEvent) : Native SemanticEvent :=
  candidates ← retain_healthy candidates_by_root (se_candidates event);
  handoff ← retain_handoff candidates_by_root (se_handoff event);
  pending ← retain_pending candidates_by_root (se_pending event);
  Ok {| se_usn := se_usn event; se_candidates := candidates; se_handoff := handoff; se_pending := pending |}.

Definition event_is_empty (event : SemanticEvent) : bool :=
  is_empty (se_candidates event) && bool_decide (se_handoff event = None)
  && bool_decide (se_pending event = None).

(** The state of the loop over the events. *)
Record Limited := {
  lm_candidates_by_root : CandidatesByRoot;
  lm_total_records : Z;
  lm_total_evidence : Z;
  lm_covered_until_usn : Z;
  lm_handoffs : list BackendJournalHandoff;
  lm_pending_renames : list BackendPendingRename;
}.

(** [if let Ok(candidates) = &mut candidates_by_root[index] { candidates.push(candidate); }] *)
Definition store_candidate (candidates_by_root : CandidatesByRoot) (entry : nat * BackendJournalCandidate)
    : Native CandidatesByRoot :=
  let '(index, candidate) := entry in
  candidates ← get_at candidates_by_root index;
  match candidates with
  | Ok candidates => set_at candidates_by_root index (Ok (candidates ++ [candidate]))
  | Err _ => Ok candidates_by_root
  end.

(** The least start of the healthy roots. *)
Definition healthy_minimum_start (candidates_by_root : CandidatesByRoot) (root_start_usns : list Z)
    : Native Z :=
  starts ← result_foldl (λ starts entry,
             healthy ← healthy_at candidates_by_root entry.1;
             Ok (if (healthy : bool) then starts ++ [entry.2] else starts)) [] (imap pair root_start_usns);
  failing (ok_or match starts with [] => None | usn :: usns => Some (foldl Z.min usn usns) end
                 BackendRootUnavailable).

Definition exceeds (total amount maximum : Z) : bool :=
  match checked_add USIZE_MAX total amount with Some value => maximum <? value | None => true end.

(** An event within the limits is stored. *)
Definition store_event (st : Limited) (event : SemanticEvent) (records evidence : Z) : Native Limited :=
  candidates_by_root ← result_foldl store_candidate (lm_candidates_by_root st) (se_candidates event);
  Ok {| lm_candidates_by_root := candidates_by_root;
        lm_total_records := lm_total_records st + records;
        lm_total_evidence := lm_total_evidence st + evidence;
        lm_covered_until_usn := lm_covered_until_usn st;
        lm_handoffs := lm_handoffs st ++ option_list (se_handoff event);
        lm_pending_renames := lm_pending_renames st ++ option_list (se_pending event) |}.

(** [for index in event.affected_roots() { candidates_by_root[index] = Err(EvidenceLimitExceeded) }] *)
Definition fail_affected (st : Limited) (event : SemanticEvent) : Native Limited :=
  candidates_by_root ← result_foldl (λ candidates index, set_at candidates index (Err BackendEvidenceLimitExceeded))
                         (lm_candidates_by_root st) (elements (affected_roots event));
  Ok {| lm_candidates_by_root := candidates_by_root;
        lm_total_records := lm_total_records st;
        lm_total_evidence := lm_total_evidence st;
        lm_covered_until_usn := lm_covered_until_usn st;
        lm_handoffs := lm_handoffs st;
        lm_pending_renames := lm_pending_renames st |}.

Section Limits.
Context (raw_covered_until_usn : Z) (uncertainty_barrier : option Z) (root_start_usns : list Z).
Context (max_records max_evidence_bytes : Z).

(** [break] ends the loop with the state it has. *)
Fixpoint limit_events (st : Limited) (events : list SemanticEvent) : Native Limited :=
  match events with
  | [] => Ok st
  | event :: events =>
    if match uncertainty_barrier with Some barrier => barrier <=? se_usn event | None => false end then Ok st
    else
      event ← retain_event (lm_candidates_by_root st) event;
      if event_is_empty event then limit_events st events
      else
        '(records, evidence) ← failing (SemanticEvent_costs event);
        if exceeds (lm_total_records st) records max_records
           || exceeds (lm_total_evidence st) evidence max_evidence_bytes
        then
          minimum_start ← healthy_minimum_start (lm_candidates_by_root st) root_start_usns;
          if (lm_total_records st =? 0) && (se_usn event <=? minimum_start)
          then st ← fail_affected st event; limit_events st events
          else Ok {| lm_candidates_by_root := lm_candidates_by_root st;
                     lm_total_records := lm_total_records st;
                     lm_total_evidence := lm_total_evidence st;
                     lm_covered_until_usn := Z.min (se_usn event) raw_covered_until_usn;
                     lm_handoffs := lm_handoffs st;
                     lm_pending_renames := lm_pending_renames st |}
        else st ← store_event st event records evidence; limit_events st events
  end.

Definition apply_semantic_limits (candidates_by_root : CandidatesByRoot) (events : list SemanticEvent)
    : Native Limited :=
  limit_events {| lm_candidates_by_root := candidates_by_root;
                  lm_total_records := 0; lm_total_evidence := 0;
                  lm_covered_until_usn := match uncertainty_barrier with
                                          | None => raw_covered_until_usn
                                          | Some barrier => Z.min raw_covered_until_usn barrier
                                          end;
                  lm_handoffs := []; lm_pending_renames := [] |} events.
End Limits.
