(* ===== verification/NativeJournal.v ===== *)
(** * Reading the native journal

    Models the reads of [journal_broker/windows/usn.rs].  The class [NativePorts] holds what the operating system does beyond [HandlePorts]: the two control codes of the
    journal, and the paths that file references open to. *)

From S2P Require Import Prelude Text Order Effects WireBase WirePath Wire Contracts BrokerChecks Usn UsnPath.
From S2P Require Import ActiveRegistry Service PinnedRoots SemanticEvents.

Definition MAX_RAW_RECORDS_PER_PAGE : Z := 16 * 1024.
Definition JOURNAL_BUFFER_BYTES : Z := 256 * 1024.
Definition FILE_ATTRIBUTE_DIRECTORY : Z := 0x10.

(** [USN_JOURNAL_DATA_V2], the fields that are read, and the number of bytes the call returned. *)
Record UsnJournalData := {
  ud_bytes : Z;
  ud_journal_id : Z;
  ud_first_usn : Z;
  ud_next_usn : Z;
  ud_min_supported_major_version : Z;
  ud_max_supported_major_version : Z;
}.

Class NativePorts (W : Type) := {
  (* [FSCTL_READ_USN_JOURNAL] on a volume handle, with a journal and a start *)
  read_usn_journal : Z → Z → Z → ContextPort W (BackendResult bytes);
  (* [FSCTL_QUERY_USN_JOURNAL] on a volume handle *)
  query_usn_journal : Z → ContextPort W (BackendResult UsnJournalData);
  (* [open_reference_guid_path] on a volume handle; one resolution opens at most one reference *)
  open_references : W → (Z → FileReference → BackendResult (list Z)) * W;
  (* [size_of::<ParsedUsnRecord>()], which the compiler chooses *)
  parsed_usn_record_size : Z;
}.

Section Retain.
Context (record_size : Z).

Definition raw_record_bytes (record : ParsedUsnRecord) : BackendResult Z :=
  name ← ok_or (checked_mul USIZE_MAX (zlen (encode_utf16 (usn_name record))) 2) BackendEvidenceLimitExceeded;
  ok_or (checked_add USIZE_MAX record_size name) BackendEvidenceLimitExceeded.

Fixpoint retain_records (retained : list ParsedUsnRecord) (retained_bytes : Z) (records : list ParsedUsnRecord)
    (max_records max_evidence_bytes : Z) : BackendResult (option Z * list ParsedUsnRecord) :=
  match records with
  | [] => Ok (None, retained)
  | record :: records =>
    record_bytes ← raw_record_bytes record;
    next_bytes ← ok_or (checked_add USIZE_MAX retained_bytes record_bytes) BackendEvidenceLimitExceeded;
    if (max_records <=? zlen retained) || (max_evidence_bytes <? next_bytes)
    then Ok (Some (usn_usn record), retained)
    else retain_records (retained ++ [record]) next_bytes records max_records max_evidence_bytes
  end.

Definition retain_bounded_raw_records (records : list ParsedUsnRecord) (end_usn max_records max_evidence_bytes : Z)
    : BackendResult (option Z * list ParsedUsnRecord) :=
  retain_records [] 0 (filter (λ record, usn_usn record < end_usn) records) max_records max_evidence_bytes.
End Retain.

Definition first_rename_usn_at_or_after (records : list ParsedUsnRecord) (start_usn : Z) : option Z :=
  usn_usn <$> find (λ record, (start_usn <=? usn_usn record)
                 && has_reason (usn_reason record)
                      (Z.lor USN_REASON_RENAME_OLD_NAME USN_REASON_RENAME_NEW_NAME)) records.

Section Native.
Context {W : Type} `{BrokerPorts W} `{HandlePorts W} `{NativePorts W}.
Abbreviation Reading := (Run BackendError (RequestContext * W)).

Definition MAX_SINGLE_RAW_RECORD_EVIDENCE_BYTES : Z := parsed_usn_record_size + MAX_PATH_UTF16_UNITS * 2.
Definition MAX_RAW_PAGE_RETAINED_BYTES : Z :=
  JOURNAL_BUFFER_BYTES + MAX_RAW_RECORDS_PER_PAGE * parsed_usn_record_size.

(** An operation without the request's context: [operation().map_err(f)?] *)
Definition in_context {E A : Type} (f : E → BackendError) (m : Run E W A) : Reading A := λ '(context, w),
  let '(r, w) := m w in
  (match r with Ok a => Ok a | Err (Failed e) => Err (Failed (f e)) | Err Panicked => Err Panicked end, (context, w)).

(** A pure block that may fail or panic. *)
Definition settle {A : Type} (r : Native A) : Reading A := λ cw, (r, cw).

Definition bounded_step : Reading Z := call context_bounded_step.

(** ** Pages of raw records *)

Definition read_single_native_journal_buffer_with (start_usn end_usn max_records max_evidence_bytes : Z)
    (physical_read : Z → ContextPort W (BackendResult bytes)) : Reading (list ParsedUsnRecord * Z) :=
  interval ← check (ok_or (JournalReadInterval_new start_usn end_usn) BackendJournalDiscontinuous);
  output ← call (physical_read start_usn);
  parsed ← expect (parse_journal_buffer output);
  '(next_usn, batch) ← check (map_err (λ _, BackendRecordUnsupported) parsed);
  '(first_unretained_usn, raw_records) ←
    check (retain_bounded_raw_records parsed_usn_record_size batch end_usn
             (Z.min max_records MAX_RAW_RECORDS_PER_PAGE)
             (Z.max max_evidence_bytes MAX_SINGLE_RAW_RECORD_EVIDENCE_BYTES));
  let covered_until_usn := Z.min (default next_usn first_unretained_usn) end_usn in
  check (fail_if (negb (JournalReadInterval_admits_coverage interval covered_until_usn
                          (covered_until_usn =? end_usn))
                  || (JournalReadInterval_is_empty interval && negb (is_empty raw_records)))
                 BackendJournalDiscontinuous);;
  mret (raw_records, covered_until_usn).

Definition native_query_journal (handle : Z) : Reading ExistingJournalMetadata :=
  output ← call (query_usn_journal handle);
  check (fail_if ((ud_bytes output <? 56)
                  || (ud_first_usn output <? 0)
                  || (ud_next_usn output <? ud_first_usn output)
                  || (3 <? ud_min_supported_major_version output)
                  || (ud_max_supported_major_version output <? 2)) BackendJournalDiscontinuous);;
  check (ExistingJournalMetadata_from_query (ud_journal_id output) (ud_first_usn output) (ud_next_usn output)).

Record RawJournalPage := {
  rj_records : list ParsedUsnRecord;
  rj_proof : JournalReadProof;
}.

Definition read_raw_journal_page (handle : Z) (journal : ExistingJournalMetadata) (range : JournalRange)
    (max_records max_evidence_bytes : Z) : Reading RawJournalPage :=
  bounded_step;;
  '(raw_records, covered_until_usn) ←
    read_single_native_journal_buffer_with (range_start_usn range) (range_end_usn range) max_records
      max_evidence_bytes (read_usn_journal handle (jm_journal_id journal));
  bounded_step;;
  after ← native_query_journal handle;
  proof ← check (JournalReadProof_after_read covered_until_usn (covered_until_usn =? range_end_usn range) after);
  mret {| rj_records := raw_records; rj_proof := proof |}.

(** ** Resolved records *)

Definition require_live_root (root : PinnedRootState) : Reading unit :=
  in_context (λ _, BackendJournalDiscontinuous) (revalidate_identity root).

Definition resolution_error (error : ReferenceResolutionError BackendError) : BackendError :=
  match error with CycleOrDepth => BackendRecordUnsupported | Callback error => error end.

(** 257 nested calls are enough: the depth is limited to 256 references. *)
Definition native_reference_path (open_reference : FileReference → BackendResult (list Z))
    (reference : FileReference) (before_usn : Z) (records : list ParsedUsnRecord)
    (histories : ReferenceHistories) : Reading (list Z) :=
  resolved ← expect (resolve_reference_path_with records histories open_reference append_name 257 reference
                       before_usn ∅);
  check (map_err resolution_error resolved.1).

Definition resolve_record (root : PinnedRootState) (records : list ParsedUsnRecord)
    (histories : ReferenceHistories) (resolved : list ResolvedRecord) (record : ParsedUsnRecord)
    : Reading (list ResolvedRecord) :=
  bounded_step;;
  handle ← check (volume_handle root);
  opened ← observe (λ '(context, w), let '(opened, w) := open_references w in (opened, (context, w)));
  parent_guid ← native_reference_path (opened handle) (usn_parent_reference record) (usn_usn record) records
                  histories;
  parent ← check (guid_path_to_dos compare_string_ordinal root parent_guid);
  path ← check (append_name parent (usn_name record));
  mret (resolved ++ [{| res_path := path;
                        res_file_reference := usn_file_reference record;
                        res_usn := usn_usn record;
                        res_reason := usn_reason record;
                        res_is_directory := has_reason (usn_file_attributes record) FILE_ATTRIBUTE_DIRECTORY |}]).

Definition resolve_records (root : PinnedRootState) (records : list ParsedUsnRecord)
    : Reading (list ResolvedRecord) :=
  run_foldl (resolve_record root records (reference_histories records)) [] records.

(** ** One root *)

Definition push_scoped_path (volume_id : str) (is_inside : list Z → BackendResult bool)
    (output : list BackendJournalCandidate) (record : ResolvedRecord) : BackendResult (list BackendJournalCandidate) :=
  inside ← is_inside (res_path record);
  if negb inside then Ok output
  else candidate ← scoped_candidate volume_id (res_path record) record; Ok (output ++ [candidate]).

Definition push_rename_or_scoped_paths (volume_id : str) (is_inside : list Z → BackendResult bool)
    (output : list BackendJournalCandidate) (previous current : ResolvedRecord)
    : BackendResult (list BackendJournalCandidate) :=
  previous_inside ← is_inside (res_path previous);
  current_inside ← is_inside (res_path current);
  match previous_inside, current_inside with
  | true, true =>
    candidate ← BackendJournalCandidate_copy_from_bounded volume_id (res_path current) (Some (res_path previous))
                  (FileReference_bytes (res_file_reference current)) (res_usn current) KindRename
                  (res_is_directory current);
    Ok (output ++ [candidate])
  | true, false => push_scoped_path volume_id is_inside output previous
  | false, true => push_scoped_path volume_id is_inside output current
  | false, false => Ok output
  end.

(** One iteration of [root_scoped_candidates_with]. *)
Definition scope_record (volume_id : str) (is_inside : list Z → BackendResult bool)
    (st : list BackendJournalCandidate * gmap FileReference ResolvedRecord) (record : ResolvedRecord)
    : BackendResult (list BackendJournalCandidate * gmap FileReference ResolvedRecord) :=
  let '(candidates, old_names) := st in
  let reference := res_file_reference record in
  if has_reason (res_reason record) USN_REASON_RENAME_OLD_NAME then Ok (candidates, <[reference := record]> old_names)
  else if has_reason (res_reason record) USN_REASON_RENAME_NEW_NAME then
    match old_names !! reference with
    | Some previous =>
      candidates ← push_rename_or_scoped_paths volume_id is_inside candidates previous record;
      Ok (candidates, delete reference old_names)
    | None => candidates ← push_scoped_path volume_id is_inside candidates record; Ok (candidates, old_names)
    end
  else candidates ← push_scoped_path volume_id is_inside candidates record; Ok (candidates, old_names).

Definition root_scoped_candidates_with (volume_id : str) (is_inside : list Z → BackendResult bool)
    (records : list ResolvedRecord) : BackendResult (list BackendJournalCandidate) :=
  '(candidates, old_names) ← result_foldl (scope_record volume_id is_inside) ([], ∅) records;
  candidates ← result_foldl (push_scoped_path volume_id is_inside) candidates (old_names_in_order old_names);
  Ok (sort_by (compare_on Z.compare bc_usn) candidates).

Definition root_scoped_candidates (root : PinnedRootState) (records : list ResolvedRecord)
    : BackendResult (list BackendJournalCandidate) :=
  root_scoped_candidates_with (ps_volume_id root) (path_is_inside compare_string_ordinal root) records.

Definition native_query_existing_journal (root : PinnedRootState) : Reading ExistingJournalMetadata :=
  require_live_root root;;
  handle ← check (volume_handle root);
  metadata ← native_query_journal handle;
  require_live_root root;;
  mret metadata.

(** [for candidate in candidates { page.push(candidate)?; }]: the page keeps what was pushed. *)
Fixpoint push_all (page : BoundedJournalPageBuilder) (candidates : list BackendJournalCandidate)
    : BackendResult unit * BoundedJournalPageBuilder :=
  match candidates with
  | [] => (Ok (), page)
  | candidate :: candidates =>
    match BoundedJournalPageBuilder_push page candidate with
    | Ok page => push_all page candidates
    | Err error => (Err error, page)
    end
  end.

Definition native_read_existing_journal_page (root : PinnedRootState) (journal : ExistingJournalMetadata)
    (range : JournalRange) (page : BoundedJournalPageBuilder)
    : Reading (BackendResult JournalReadProof * BoundedJournalPageBuilder) :=
  read ← capture (
    require_live_root root;;
    let max_records := lim_max_records (pg_limits page) in
    handle ← check (volume_handle root);
    raw ← read_raw_journal_page handle journal range max_records (lim_max_evidence_bytes (pg_limits page));
    require_live_root root;;
    resolved ← resolve_records root (rj_records raw);
    candidates ← check (root_scoped_candidates root resolved);
    require_live_root root;;
    check (fail_if (max_records <? zlen candidates) BackendEvidenceLimitExceeded);;
    mret (candidates, rj_proof raw));
  mret match read with
       | Err error => (Err error, page)
       | Ok (candidates, proof) =>
         let '(pushed, page) := push_all page candidates in ((pushed;; Ok proof), page)
       end.

(** ** Several roots *)

(** The roots' candidates, the volume handles, and the two kinds of barrier. *)
Record SharedReading := {
  sg_candidates_by_root : CandidatesByRoot;
  sg_uncertainty_barrier : option Z;
  sg_rename_barriers_by_root : list (option Z);
}.

(** The first loop: which roots are live, and the handle of the first that is. *)
Definition open_root (st : CandidatesByRoot * option Z) (root : PinnedRootState)
    : Reading (CandidatesByRoot * option Z) :=
  let '(candidates_by_root, handle) := st in
  live ← capture (require_live_root root);
  mret match (live;; volume_handle root) with
       | Ok opened => (candidates_by_root ++ [Ok []], match handle with Some _ => handle | None => Some opened end)
       | Err error => (candidates_by_root ++ [Err error], handle)
       end.

(** [if let Some(usn) = first_rename_usn_at_or_after(..) { barrier[index] = Some(usn); .. }] *)
Definition hold_root (records : list ParsedUsnRecord) (root_start_usns : list Z) (index : nat) (st : SharedReading)
    : Native SharedReading :=
  start ← get_at root_start_usns index;
  match first_rename_usn_at_or_after records start with
  | None => Ok st
  | Some usn =>
    barriers ← set_at (sg_rename_barriers_by_root st) index (Some usn);
    Ok {| sg_candidates_by_root := sg_candidates_by_root st;
          sg_uncertainty_barrier := lower_translation_barrier (sg_uncertainty_barrier st) usn;
          sg_rename_barriers_by_root := barriers |}
  end.

(** [candidates_by_root[index] = Err(error)] and the barrier of the root *)
Definition fail_root (records : list ParsedUsnRecord) (root_start_usns : list Z) (index : nat)
    (error : BackendError) (st : SharedReading) : Native SharedReading :=
  candidates ← set_at (sg_candidates_by_root st) index (Err error);
  hold_root records root_start_usns index
    {| sg_candidates_by_root := candidates;
       sg_uncertainty_barrier := sg_uncertainty_barrier st;
       sg_rename_barriers_by_root := sg_rename_barriers_by_root st |}.

(** The loop that resolves the records with the first root that can. *)
Fixpoint resolve_with (records : list ParsedUsnRecord) (root_start_usns : list Z)
    (roots : list (nat * PinnedRootState)) (st : SharedReading) : Reading (option (list ResolvedRecord) * SharedReading) :=
  match roots with
  | [] => mret (None, st)
  | (index, root) :: roots =>
    healthy ← settle (healthy_at (sg_candidates_by_root st) index);
    if negb healthy then resolve_with records root_start_usns roots st
    else
      resolved ← capture (require_live_root root;; resolve_records root records);
      match resolved with
      | Ok resolved => mret (Some resolved, st)
      | Err error =>
        st ← settle (fail_root records root_start_usns index error st);
        resolve_with records root_start_usns roots st
      end
  end.

(** One iteration of the loop that checks the roots again. *)
Definition recheck_root (records : list ParsedUsnRecord) (root_start_usns : list Z) (st : SharedReading)
    (entry : nat * PinnedRootState) : Reading SharedReading :=
  let '(index, root) := entry in
  healthy ← settle (healthy_at (sg_candidates_by_root st) index);
  if negb healthy then mret st
  else
    live ← capture (require_live_root root);
    match live with
    | Ok _ => mret st
    | Err error => settle (fail_root records root_start_usns index error st)
    end.

(** The roots that were not live from the start. *)
Definition hold_unopened (records : list ParsedUsnRecord) (root_start_usns : list Z) (st : SharedReading)
    (index : nat) : Native SharedReading :=
  healthy ← healthy_at (sg_candidates_by_root st) index;
  if (healthy : bool) then Ok st else hold_root records root_start_usns index st.

(** The page when the records could not be read or resolved for any root. *)
Definition unread_page (st : SharedReading) : SharedBackendJournalPage :=
  {| sb_candidates_by_root := sg_candidates_by_root st; sb_handoffs := []; sb_pending_renames := [];
     sb_rename_barriers_by_root := sg_rename_barriers_by_root st; sb_proof := None |}.

Definition native_read_existing_journal_volume_page (roots : list PinnedRootState) (root_start_usns : list Z)
    (pending_renames : list NativePendingRenameCarry) (journal : ExistingJournalMetadata) (range : JournalRange)
    (limits : JournalReadLimits) : Reading SharedBackendJournalPage :=
  check (fail_if (is_empty roots || negb (Nat.eqb (length roots) (length root_start_usns))) BackendRootUnavailable);;
  '(candidates_by_root, handle) ← run_foldl open_root ([], None) roots;
  let st := {| sg_candidates_by_root := candidates_by_root; sg_uncertainty_barrier := None;
               sg_rename_barriers_by_root := replicate (length roots) None |} in
  match handle with
  | None => mret (unread_page st)
  | Some handle =>
    raw ← read_raw_journal_page handle journal range MAX_RAW_RECORDS_PER_PAGE MAX_RAW_PAGE_RETAINED_BYTES;
    let records := rj_records raw in
    st ← settle (result_foldl (hold_unopened records root_start_usns) st (seq 0 (length roots)));
    '(resolved, st) ← resolve_with records root_start_usns (imap pair roots) st;
    match resolved with
    | None => mret (unread_page st)
    | Some resolved =>
      st ← run_foldl (recheck_root records root_start_usns) st (imap pair roots);
      sm ← settle (semantic_events compare_string_ordinal roots root_start_usns pending_renames resolved
                     {| sm_candidates_by_root := sg_candidates_by_root st;
                        sm_uncertainty_barrier := sg_uncertainty_barrier st;
                        sm_rename_barriers_by_root := sg_rename_barriers_by_root st;
                        sm_events := [] |});
      limited ← settle (apply_semantic_limits (jp_covered_until_usn (rj_proof raw)) (sm_uncertainty_barrier sm)
                          root_start_usns (lim_max_records limits) (lim_max_evidence_bytes limits)
                          (sm_candidates_by_root sm) (sort_by (compare_on Z.compare se_usn) (sm_events sm)));
      proof ← (if existsb is_ok (lm_candidates_by_root limited)
               then proof ← check (JournalReadProof_after_read (lm_covered_until_usn limited)
                                     (lm_covered_until_usn limited =? range_end_usn range)
                                     (jp_after (rj_proof raw)));
                    mret (Some proof)
               else mret None);
      mret {| sb_candidates_by_root := lm_candidates_by_root limited;
              sb_handoffs := lm_handoffs limited;
              sb_pending_renames := lm_pending_renames limited;
              sb_rename_barriers_by_root := sm_rename_barriers_by_root sm;
              sb_proof := proof |}
    end
  end.
End Native.
