(* ===== verification/SemanticLaws.v ===== *)
(** * What the events of a page satisfy

    Specifies [semantic_events] and [apply_semantic_limits] of [journal_broker/windows/usn.rs]: they index
    within bounds, the values they build are well formed, and each rename they report is recorded in the
    barriers of the roots it takes part in. *)

From S2P Require Import Prelude Text Order Effects WireBase WirePath Wire Contracts BrokerChecks Usn UsnPath Service.
From S2P Require Import ServiceAnswers PinnedRoots SemanticEvents.

(** ** Indexing *)

Lemma settles_get {A : Type} (l : list A) i : (i < length l)%nat → settles (get_at l i) (λ x, l !! i = Some x).
Proof. intros [x Hx]%lookup_lt_is_Some_2. unfold get_at. by rewrite Hx. Qed.

Lemma settles_set {A : Type} (l : list A) i x :
  (i < length l)%nat → settles (set_at l i x) (λ l', l' = <[i := x]> l).
Proof. intros Hi. unfold set_at. by rewrite decide_True. Qed.

(** ** Barriers *)

(** The barrier of root [i] is not above [usn]. *)
Definition barrier_in (barriers : list (option Z)) (i : nat) (usn : Z) : Prop :=
  ∃ b, barriers !! i = Some (Some b) ∧ b ≤ usn.

(** [barriers'] is [barriers], lowered in places. *)
Definition lowers (barriers barriers' : list (option Z)) : Prop :=
  length barriers' = length barriers ∧ ∀ i usn, barrier_in barriers i usn → barrier_in barriers' i usn.

#[export] Instance lowers_preorder : PreOrder lowers.
Proof. split; [by split|]. intros x y z [? ?] [? ?]. split; [congruence|auto]. Qed.

Lemma settles_lower usn barriers i :
  (i < length barriers)%nat →
  settles (lower_root_barrier usn barriers i) (λ b', lowers barriers b' ∧ barrier_in b' i usn).
Proof.
  intros Hi. unfold lower_root_barrier. eapply settles_bind; [by apply settles_get|]. intros b Hb. cbv beta in Hb.
  eapply settles_mono; [by apply settles_set|]. intros ? ->.
  assert (barrier_in (<[i:=lower_translation_barrier b usn]> barriers) i usn) as Hin.
  { exists (match b with Some b => Z.min b usn | None => usn end). rewrite list_lookup_insert_eq by done.
    destruct b as [b|]; cbn; (split; [done|lia]). }
  split; [|done]. split; [by rewrite length_insert|]. intros j u (v & Hv & Hle). destruct (decide (i = j)) as [<-|Hne].
  - simplify_eq. eexists. rewrite list_lookup_insert_eq by done. split; [done|cbn; lia].
  - exists v. by rewrite list_lookup_insert_ne.
Qed.

Lemma settles_lower_all usn barriers l :
  Forall (λ i, (i < length barriers)%nat) l →
  settles (result_foldl (lower_root_barrier usn) barriers l)
    (λ b', lowers barriers b' ∧ ∀ i, i ∈ l → barrier_in b' i usn).
Proof.
  intros Hl. revert barriers Hl. induction l as [|i l IH]; intros barriers Hl; cbn [result_foldl].
  { split; [done|]. intros i Hi. by apply not_elem_of_nil in Hi. }
  apply Forall_cons in Hl as [Hi Hl]. eapply settles_bind; [by apply settles_lower|]. intros b1 [Hb1 Hin].
  eapply settles_mono; [apply IH; destruct Hb1 as [-> _]; done|]. intros b2 [Hb2 Hall]. split; [by etrans|].
  intros j [->|Hj]%elem_of_cons; [by apply Hb2|by apply Hall].
Qed.

(** ** Values *)

Definition wf_resolved (r : ResolvedRecord) : Prop :=
  Forall is_u16 (res_path r) ∧ Forall is_u8 (FileReference_bytes (res_file_reference r)) ∧ is_i64 (res_usn r).

(** The passes fill no candidates in: a healthy root has told nothing yet. *)
Definition untold (r : BackendResult (list BackendJournalCandidate)) : Prop := ∀ cs, r = Ok cs → cs = [].

(** The carries a read may be given: indices of roots, values of their types. *)
Definition wf_native_carry (n : nat) (p : NativePendingRenameCarry) : Prop :=
  (∀ i, np_read_root_index p = Some i → (i < n)%nat) ∧ is_i64 (np_old_usn p) ∧
  is_str (np_previous_relative_path p) ∧
  (∀ root, np_root p = Some root → Forall is_u16 (ps_canonical_root_utf16 root)).

Lemma scoped_wf volume path r c :
  scoped_candidate volume path r = Ok c → Forall is_u16 path → wf_resolved r → wf_backend_candidate c.
Proof. intros Hc Hp (_ & H8 & Hi). by eapply copy_wf. Qed.

(** ** Events *)

Section Events.
Context (n : nat) (pending_renames : list NativePendingRenameCarry).

Record handoff_ok (barriers : list (option Z)) (h : BackendJournalHandoff) : Prop := {
  hd_types : Forall is_u16 (bh_previous_absolute_path_utf16 h) ∧ Forall is_u16 (bh_current_absolute_path_utf16 h) ∧
             Forall is_u8 (bh_file_reference h) ∧ is_i64 (bh_old_usn h) ∧ is_i64 (bh_usn h);
  hd_index : (bh_current_root_index h < n)%nat ∧ ∀ i, bh_previous_root_index h = Some i → (i < n)%nat;
  hd_current : barrier_in barriers (bh_current_root_index h) (bh_usn h);
  hd_previous : ∀ i, bh_previous_root_index h = Some i → barrier_in barriers i (bh_old_usn h);
  hd_cross : ∀ i p, bh_previous_pending_index h = Some i → pending_renames !! i = Some p →
             np_read_root_index p ≠ Some (bh_current_root_index h);
}.

Record told_pending_ok (barriers : list (option Z)) (p : BackendPendingRename) : Prop := {
  pd_types : Forall is_u16 (bpr_previous_absolute_path_utf16 p) ∧ Forall is_u8 (bpr_file_reference p) ∧
             is_i64 (bpr_old_usn p);
  pd_index : (bpr_root_index p < n)%nat;
  pd_root : barrier_in barriers (bpr_root_index p) (bpr_old_usn p);
}.

Record event_ok (barriers : list (option Z)) (e : SemanticEvent) : Prop := {
  eo_candidates : Forall (λ entry, (entry.1 < n)%nat ∧ wf_backend_candidate entry.2) (se_candidates e);
  eo_handoff : ∀ h, se_handoff e = Some h → handoff_ok barriers h;
  eo_pending : ∀ p, se_pending e = Some p → told_pending_ok barriers p;
}.

Lemma event_lowers barriers barriers' e : lowers barriers barriers' → event_ok barriers e → event_ok barriers' e.
Proof.
  intros [_ Hl] [Hc Hh Hp]. split; [done|..].
  - intros h [Ht Hi Hcur Hprev Hx]%Hh. split; auto.
  - intros p [Ht Hi Hr]%Hp. split; auto.
Qed.

Lemma event_empty barriers usn : event_ok barriers (event_at usn).
Proof. split; cbn; [constructor|done|done]. Qed.

Lemma event_push barriers e i c :
  event_ok barriers e → (i < n)%nat → wf_backend_candidate c → event_ok barriers (push_candidate e i c).
Proof. intros [Hc Hh Hp] Hi Hw. split; cbn; [|done|done]. apply Forall_app. split; [done|]. by apply Forall_singleton. Qed.

(** The invariant of the passes. *)
Record semantics_ok (sm : Semantics) : Prop := {
  so_candidates : length (sm_candidates_by_root sm) = n;
  so_barriers : length (sm_rename_barriers_by_root sm) = n;
  so_wf : Forall untold (sm_candidates_by_root sm);
  so_events : Forall (event_ok (sm_rename_barriers_by_root sm)) (sm_events sm);
}.

Lemma semantics_push sm e :
  semantics_ok sm → event_ok (sm_rename_barriers_by_root sm) e → semantics_ok (push_event sm e).
Proof. intros [Hc Hb Hw He] Hok. split; cbn; [done..|]. apply Forall_app. split; [done|]. by apply Forall_singleton. Qed.

(** ** The roots of a path *)

Section Paths.
Context (is_inside : nat → list Z → BackendResult bool) (starts : list Z).
Context (Hstarts : length starts = n).

Definition found (r : list nat * CandidatesByRoot) : Prop :=
  Forall (λ i, (i < n)%nat) r.1 ∧ length r.2 = n ∧ Forall untold r.2.

Lemma settles_roots_from path usn indices cands inside :
  Forall (λ i, (i < n)%nat) indices → found (inside, cands) →
  settles (roots_for_path_from is_inside starts path usn indices cands inside) found.
Proof.
  intros Hi. revert cands inside. induction Hi as [|i indices Hi Hrest IH]; intros cands inside (Hin & Hlen & Hwf);
    cbn [roots_for_path_from]; [done|]. cbn [fst snd] in *.
  eapply settles_bind; [apply settles_get; lia|]. intros r _.
  eapply settles_bind with (P := λ _, True).
  { destruct (is_ok r); [|done]. eapply settles_bind; [apply settles_get; lia|]. done. }
  intros [] _; [by apply IH|]. destruct (is_inside i path) as [[]|error].
  - apply IH. split; [|done]. cbn. apply Forall_app. split; [done|]. by apply Forall_singleton.
  - by apply IH.
  - eapply settles_bind; [apply settles_set; lia|]. intros ? ->. apply IH. split; [done|]. cbn.
    rewrite length_insert. split; [done|]. by apply Forall_insert.
Qed.

Lemma settles_roots_for_path path usn cands :
  length cands = n → Forall untold cands →
  settles (roots_for_path_with is_inside n starts cands path usn) found.
Proof.
  intros Hlen Hwf. apply settles_roots_from; [|by split]. apply Forall_seq. lia.
Qed.

(** The two loops of a rename keep the invariant, lower the barriers, and record the rename for each root
    found. *)
Definition rename_found (sm : Semantics) (usn : Z) (r : list nat * bool * Semantics) : Prop :=
  Forall (λ i, (i < n)%nat) r.1.1 ∧ semantics_ok r.2 ∧
  lowers (sm_rename_barriers_by_root sm) (sm_rename_barriers_by_root r.2) ∧
  ∀ i, i ∈ r.1.1 → barrier_in (sm_rename_barriers_by_root r.2) i usn.

Lemma semantics_update sm cands uncertainty barriers :
  semantics_ok sm → length cands = n → Forall untold cands →
  lowers (sm_rename_barriers_by_root sm) barriers →
  semantics_ok {| sm_candidates_by_root := cands; sm_uncertainty_barrier := uncertainty;
                  sm_rename_barriers_by_root := barriers; sm_events := sm_events sm |}.
Proof.
  intros [Hc Hb Hw He] Hl Hwf Hlow. split; cbn; [done|destruct Hlow; congruence|done|].
  eapply Forall_impl; [exact He|]. intros e. by apply event_lowers.
Qed.

Lemma settles_note usn sm u i b :
  semantics_ok sm → (i < n)%nat →
  settles (note_uncertain usn (sm, u) (i, b))
    (λ st, semantics_ok st.1 ∧ lowers (sm_rename_barriers_by_root sm) (sm_rename_barriers_by_root st.1)).
Proof.
  intros Hsm Hi. pose proof Hsm as [Hc Hb Hw He]. unfold note_uncertain.
  eapply settles_bind; [apply settles_get; lia|]. intros r _. destruct (b && negb (is_ok r)); [|by split].
  eapply settles_bind; [apply settles_lower; lia|]. intros barriers [Hlow _]. split; [|done].
  by apply semantics_update.
Qed.

Lemma settles_roots_for_rename path usn sm :
  semantics_ok sm →
  settles (roots_for_rename_path_with is_inside n starts path usn sm) (rename_found sm usn).
Proof.
  intros Hsm. pose proof Hsm as [Hc Hb Hw He]. unfold roots_for_rename_path_with.
  eapply settles_bind; [by apply settles_roots_for_path|]. intros [owners cands] (Hin & Hlen & Hwf). cbn [fst snd] in *.
  eapply settles_bind; [apply settles_lower_all; by rewrite Hb|]. intros barriers [Hlow Hown].
  set (sm1 := {| sm_candidates_by_root := cands; sm_rename_barriers_by_root := barriers |}).
  assert (semantics_ok sm1) as Hsm1 by (by apply semantics_update).
  eapply settles_bind.
  { apply (settles_foldl _ (λ st, semantics_ok st.1 ∧ lowers barriers (sm_rename_barriers_by_root st.1))); [by split|].
    intros [sm2 u] [i b] (j & b' & Hj & Hlt)%elem_of_lookup_imap [Hs2 Hl2]. simplify_eq. cbn [fst] in *.
    eapply settles_mono; [apply settles_note; [done|]|].
    - apply lookup_lt_Some in Hlt. rewrite length_fmap in Hlt. lia.
    - intros st [? ?]. split; [done|]. by etrans. }
  intros [sm2 u] [Hs2 Hl2]. cbn [fst] in *. split; [done|]. split; [done|]. split; [by etrans|].
  intros i Hi. apply Hl2. by apply Hown.
Qed.
End Paths.

(** ** Rename pairs *)

(** A pair whose roots have their barriers: the new name's, and the old name's unless it was carried over. *)
Record pair_ok (barriers : list (option Z)) (pair : RenamePairEvent) (current_roots : list nat) : Prop := {
  po_current : wf_resolved (rp_current pair);
  po_previous : Forall is_u16 (rp_previous_path pair) ∧ is_i64 (rp_previous_usn pair);
  po_roots : Forall (λ i, (i < n)%nat) (rp_previous_roots pair) ∧ Forall (λ i, (i < n)%nat) current_roots;
  po_new : ∀ i, i ∈ current_roots → barrier_in barriers i (res_usn (rp_current pair));
  po_old : rp_previous_pending_index pair = None →
           ∀ i, i ∈ rp_previous_roots pair → barrier_in barriers i (rp_previous_usn pair);
  po_carried : ∀ k p, rp_previous_pending_index pair = Some k → pending_renames !! k = Some p →
               rp_previous_roots pair = option_list (np_read_root_index p);
}.

Lemma pair_handoff_ok barriers pair current_roots h :
  pair_ok barriers pair current_roots → pair_handoff pair current_roots = Some h →
  (∀ i, rp_previous_roots pair = [i] → current_roots ≠ [i]) → handoff_ok barriers h.
Proof.
  intros [(H16 & H8 & Hu) [Hp16 Hpu] [Hpr Hcr] Hnew Hold Hcar] Hh Hne. unfold pair_handoff in Hh.
  destruct current_roots as [|c [|? ?]]; [done| |done]. rewrite Forall_singleton in Hcr.
  destruct (_ && _); [|done]. apply (inj Some) in Hh as <-.
  assert (∀ i, bool_decide (is_Some (rp_previous_pending_index pair)) = false →
    head (rp_previous_roots pair) = Some i → (i < n)%nat ∧ barrier_in barriers i (rp_previous_usn pair)) as Hhead.
  { intros i Hnone%bool_decide_eq_false Hi. apply eq_None_not_Some in Hnone. apply head_Some_elem_of in Hi.
    rewrite Forall_forall in Hpr. auto. }
  split; cbn.
  - by split_and!.
  - split; [done|]. intros i Hi. destruct (bool_decide _) eqn:E; [done|]. by apply (Hhead i).
  - apply Hnew. by left.
  - intros i Hi. destruct (bool_decide _) eqn:E; [done|]. by apply (Hhead i).
  - intros k p Hk Hp Hr. specialize (Hcar k p Hk Hp). rewrite Hr in Hcar. by apply (Hne c).
Qed.

Context (volume_ids : list str) (Hvolumes : length volume_ids = n).

Lemma settles_push_scoped barriers cands path r event i :
  length cands = n → Forall is_u16 path → wf_resolved r → (i < n)%nat → event_ok barriers event →
  settles (push_scoped volume_ids cands path r event i) (event_ok barriers).
Proof.
  intros Hc H16 Hr Hi He. unfold push_scoped. eapply settles_bind; [apply settles_get; lia|]. intros cs _.
  destruct (is_ok cs); [|done]. eapply settles_bind; [apply settles_get; lia|]. intros v _.
  eapply settles_bind; [apply settles_failed|]. intros c Hcand; cbv beta in Hcand. apply event_push; [done..|]. by eapply scoped_wf.
Qed.

Lemma settles_push_scoped_all barriers cands path r event l :
  length cands = n → Forall is_u16 path → wf_resolved r → Forall (λ i, (i < n)%nat) l → event_ok barriers event →
  settles (result_foldl (push_scoped volume_ids cands path r) event l) (event_ok barriers).
Proof.
  intros Hc H16 Hr Hl He. apply settles_foldl; [done|]. intros e i Hi Hok. rewrite Forall_forall in Hl.
  apply settles_push_scoped; auto.
Qed.

Lemma pending_event_ok barriers i path reference usn directory :
  Forall is_u16 path → Forall is_u8 (FileReference_bytes reference) → is_i64 usn → (i < n)%nat →
  barrier_in barriers i usn → event_ok barriers (pending_event i path reference usn directory).
Proof. intros ? ? ? ? ?. split; cbn; [constructor|done|]. intros p [= <-]. by split; cbn. Qed.

(** The candidate of a rename inside one root. *)
Lemma settles_rename_event barriers pair i :
  wf_resolved (rp_current pair) → Forall is_u16 (rp_previous_path pair) → (i < n)%nat →
  settles
    (volume_id ← get_at volume_ids i;
     candidate ← failing (BackendJournalCandidate_copy_from_bounded volume_id (res_path (rp_current pair))
                            (Some (rp_previous_path pair))
                            (FileReference_bytes (res_file_reference (rp_current pair)))
                            (res_usn (rp_current pair)) KindRename (res_is_directory (rp_current pair)));
     Ok (Some (push_candidate (event_at (res_usn (rp_current pair))) i candidate)))
    (λ oe, ∃ e, oe = Some e ∧ event_ok barriers e).
Proof.
  intros (H16 & H8 & Hu) Hp Hi. eapply settles_bind; [apply settles_get; lia|]. intros v _.
  eapply settles_bind; [apply settles_failed|]. intros c Hc; cbv beta in Hc. eexists. split; [done|].
  apply event_push; [apply event_empty|done|]. by eapply copy_wf.
Qed.

Lemma settles_pair pair current_roots uncertain sm :
  semantics_ok sm → pair_ok (sm_rename_barriers_by_root sm) pair current_roots →
  settles (push_pair_event_with_current_roots volume_ids pair current_roots uncertain sm) semantics_ok.
Proof.
  intros Hsm Hok. pose proof Hok as [Hcur [Hp16 Hpu] [Hpr Hcr] Hnew Hold Hcar].
  unfold push_pair_event_with_current_roots.
  destruct (uncertain && bool_decide (rp_previous_pending_index pair = None)) eqn:Hunc.
  { apply andb_true_iff in Hunc as [_ Hnone%bool_decide_eq_true]. apply settles_ret.
    destruct (rp_previous_roots pair) as [|i [|? ?]]; [done| |done]. rewrite Forall_singleton in Hpr.
    destruct Hcur as (? & ? & ?). apply semantics_push, pending_event_ok; [done..|]. apply Hold; [done|]. by left. }
  eapply settles_bind with (P := λ oe, match oe with
    | Some e => event_ok (sm_rename_barriers_by_root sm) e
    | None => ∀ i, rp_previous_roots pair = [i] → current_roots ≠ [i] end).
  { destruct (rp_previous_roots pair) as [|i [|? ?]]; [done| |done]. destruct current_roots as [|c [|? ?]];
      [by apply settles_ret; intros ? _| |by apply settles_ret; intros ? _]. rewrite Forall_singleton in Hpr.
    destruct (Nat.eqb_spec i c) as [->|Hne]; [|by apply settles_ret; intros ? [= <-] [= ->]].
    eapply settles_mono; [by apply settles_rename_event|]. by intros ? (e & -> & ?). }
  intros oe Hoe. eapply settles_bind with (P := event_ok (sm_rename_barriers_by_root sm)).
  { destruct oe as [e|]; [done|]. destruct Hcur as (? & ? & ?). destruct Hsm as [? ? ? ?].
    eapply settles_bind; [by apply settles_push_scoped_all; [..|apply event_empty]|]. intros e1 He1.
    eapply settles_bind; [by apply settles_push_scoped_all|]. intros e2 [Hc2 Hh2 Hd2].
    split; cbn; [done| |done]. intros h Hh. by eapply pair_handoff_ok. }
  intros e He. apply settles_ret. destruct (_ || _); [by apply semantics_push|done].
Qed.
End Events.

(** ** The passes over the records *)

Lemma push_name_u16 path name : Forall is_u16 path → is_str name → Forall is_u16 (push_name path name).
Proof.
  intros Hp Hn. unfold push_name. apply Forall_app. split; [|by apply encode_utf16_u16].
  destruct (bool_decide _); [done|]. apply Forall_app. split; [done|]. apply Forall_singleton. by vm_compute.
Qed.

Lemma join_u16 root relative path :
  join_root_relative root relative = Ok path → Forall is_u16 root → is_str relative → Forall is_u16 path.
Proof. intros Hj Hr Hs. unfold join_root_relative in Hj. simplify_result. by apply push_name_u16. Qed.

Lemma foldl_keeps {A S : Type} (P : S → Prop) (f : S → A → S) s l :
  P s → (∀ s x, P s → P (f s x)) → P (foldl f s l).
Proof. intros Hs Hf. revert s Hs. induction l as [|x l IH]; intros s Hs; cbn; auto. Qed.

Lemma latest_carry_at pending_renames current indices k p :
  latest_carry pending_renames current indices = Some (k, p) → pending_renames !! k = Some p.
Proof.
  revert k p. unfold latest_carry.
  apply (foldl_keeps (λ best, ∀ k p, best = Some (k, p) → pending_renames !! k = Some p)); [done|].
  intros best i Hb k p E. destruct (pending_renames !! i) as [q|] eqn:Hq; [|by apply Hb].
  destruct (_ && _); [|by apply Hb]. by simplify_eq.
Qed.

Section Passes.
Context (CompareStringOrdinal : list Z → list Z → Z → Z).
Context (roots : list PinnedRootState) (starts : list Z) (pending_renames : list NativePendingRenameCarry).
Context (Hstarts : length starts = length roots).
Context (Hcarries : Forall (wf_native_carry (length roots)) pending_renames).

Abbreviation sem_ok := (semantics_ok (length roots) pending_renames).
Abbreviation OldNames := (gmap FileReference ResolvedRecord).

Lemma volume_ids_length : length (volume_ids roots) = length roots.
Proof. apply length_fmap. Qed.

Lemma settles_rename path usn sm :
  sem_ok sm →
  settles (roots_for_rename_path CompareStringOrdinal roots starts path usn sm)
    (rename_found (length roots) pending_renames sm usn).
Proof. intros Hsm. by apply settles_roots_for_rename. Qed.

(** The old and the new name of one page. *)
Lemma settles_paired previous current sm :
  sem_ok sm → wf_resolved previous → wf_resolved current →
  settles
    ('(previous_roots, _, sm) ← roots_for_rename_path CompareStringOrdinal roots starts (res_path previous)
                                   (res_usn previous) sm;
     push_pair_event CompareStringOrdinal roots starts
       {| rp_previous_path := res_path previous; rp_previous_usn := res_usn previous;
          rp_previous_roots := previous_roots; rp_previous_pending_index := None; rp_current := current |} sm)
    sem_ok.
Proof.
  intros Hsm Hp Hc. eapply settles_bind; [by apply settles_rename|].
  intros [[previous_roots u] sm1] (Hr1 & Hs1 & _ & Hb1). cbn [fst snd] in *.
  unfold push_pair_event. eapply settles_bind; [by apply settles_rename|].
  intros [[current_roots u2] sm2] (Hr2 & Hs2 & Hl2 & Hb2). cbn [fst snd] in *.
  apply settles_pair; [apply volume_ids_length|done|]. destruct Hp as (? & ? & ?).
  split; cbn; [done|done|done|done| |done]. intros _ i Hi. by apply Hl2, Hb1.
Qed.

Lemma settles_carried k p current sm :
  sem_ok sm → pending_renames !! k = Some p → wf_resolved current →
  settles (carried_rename CompareStringOrdinal roots starts k p current sm) sem_ok.
Proof.
  intros Hsm Hk Hc. unfold carried_rename. eapply settles_bind; [by apply settles_rename|].
  intros [[current_roots u2] sm2] (Hr2 & Hs2 & Hl2 & Hb2). cbn [fst snd] in *.
  pose proof (proj1 (Forall_lookup _ _) Hcarries _ _ Hk) as (Hidx & Hu & Hstr & Hroot).
  destruct (np_root p) as [root|] eqn:Hp; [|by destruct Hs2; split].
  eapply settles_bind; [apply settles_failed|]. intros path Hpath; cbv beta in Hpath.
  apply settles_pair; [apply volume_ids_length|done|].
  split; cbn; [done| | |done|done|].
  - split; [|done]. eapply join_u16; [done| |done]. by apply Hroot.
  - split; [|done]. destruct (np_read_root_index p) as [i|]; [|done]. apply Forall_singleton. by apply Hidx.
  - intros k' p' [= <-] Hp'. rewrite Hk in Hp'. simplify_eq. by destruct (np_read_root_index p').
Qed.

Lemma settles_plain current sm :
  sem_ok sm → wf_resolved current →
  settles (plain_event CompareStringOrdinal roots starts current sm) sem_ok.
Proof.
  intros Hsm Hc. pose proof Hsm as [Hlen Hbar Hwf Hev]. unfold plain_event.
  eapply settles_bind; [by apply settles_roots_for_path|]. intros [current_roots cands] (Hin & Hlc & Hwc).
  cbn [fst snd] in *. set (sm1 := {| sm_candidates_by_root := cands |}).
  assert (sem_ok sm1) as Hsm1 by (by apply semantics_update).
  eapply settles_bind with (P := event_ok (length roots) pending_renames (sm_rename_barriers_by_root sm)).
  - apply settles_foldl; [apply event_empty|]. intros e i Hi He. rewrite Forall_forall in Hin.
    eapply settles_bind; [apply settles_get; rewrite volume_ids_length; auto|]. intros v _.
    eapply settles_bind; [apply settles_failed|]. intros c Hcand; cbv beta in Hcand.
    apply event_push; [done|auto|]. eapply scoped_wf; [done| |done]. by destruct Hc as (? & _).
  - intros e He. apply settles_ret. destruct (is_empty _); [done|]. by apply semantics_push.
Qed.

(** The state of the loop over the records. *)
Definition pass_ok (st : Semantics * OldNames) : Prop :=
  sem_ok st.1 ∧ map_Forall (λ _ r, wf_resolved r) st.2.

Lemma settles_pass (r : Native Semantics) old_names :
  settles r sem_ok → map_Forall (λ _ r, wf_resolved r) old_names →
  settles (sm ← r; Ok (sm, old_names)) pass_ok.
Proof. intros Hr Hm. eapply settles_bind; [exact Hr|]. intros sm Hsm. by apply settles_ret. Qed.

Lemma settles_record by_reference st current :
  pass_ok st → wf_resolved current →
  settles (record_event CompareStringOrdinal roots starts pending_renames by_reference st current) pass_ok.
Proof.
  destruct st as [sm old_names]. intros [Hsm Hm] Hc. cbn [fst snd] in *. unfold record_event.
  destruct (has_reason _ _); [by split; [|apply map_Forall_insert_2]|].
  destruct (has_reason _ _); [|by apply settles_pass; [apply settles_plain|]].
  destruct (old_names !! _) as [previous|] eqn:Hprev.
  - assert (wf_resolved previous) as Hp by (by eapply map_Forall_lookup_1 in Hm).
    pose proof (settles_paired previous current sm Hsm Hp Hc) as Hs.
    destruct (roots_for_rename_path _ _ _ _ _ _) as [[[previous_roots u] sm1]|h]; [|done].
    eapply settles_pass; [exact Hs|]. by apply map_Forall_delete.
  - destruct (by_reference !! _ ≫= _) as [[k p]|] eqn:Hcarry.
    + apply bind_Some in Hcarry as (indices & _ & Hk). apply settles_pass; [|done].
      apply settles_carried; [done| |done]. by eapply latest_carry_at.
    + apply settles_pass; [by apply settles_plain|done].
Qed.

Lemma settles_leftover sm previous :
  sem_ok sm → wf_resolved previous →
  settles (leftover_event CompareStringOrdinal roots starts sm previous) sem_ok.
Proof.
  intros Hsm (? & ? & ?). unfold leftover_event. eapply settles_bind; [by apply settles_rename|].
  intros [[indices u] sm1] (Hr1 & Hs1 & _ & Hb1). cbn [fst snd] in *.
  destruct indices as [|i [|j l]]; [done| |].
  - rewrite Forall_singleton in Hr1. apply semantics_push; [done|]. apply pending_event_ok; [done..|].
    apply Hb1. by left.
  - eapply settles_bind with (P := λ cands, length cands = length roots ∧ Forall untold cands).
    + apply settles_foldl; [by destruct Hs1|]. intros cands k Hk [Hlen Hwf]. rewrite Forall_forall in Hr1.
      eapply settles_mono; [apply settles_set; rewrite Hlen; auto|]. intros ? ->. rewrite length_insert.
      split; [done|]. by apply Forall_insert.
    + intros cands [? ?]. by apply semantics_update.
Qed.

Lemma old_names_wf (old_names : OldNames) :
  map_Forall (λ _ r, wf_resolved r) old_names → Forall wf_resolved (old_names_in_order old_names).
Proof.
  intros Hm. unfold old_names_in_order. apply Forall_fmap, Forall_forall. intros [k r] Hr.
  rewrite sort_by_perm in Hr. apply elem_of_map_to_list in Hr. cbn. by eapply map_Forall_lookup_1 in Hm.
Qed.

Lemma settles_semantic_events records sm :
  sem_ok sm → Forall wf_resolved records →
  settles (semantic_events CompareStringOrdinal roots starts pending_renames records sm) sem_ok.
Proof.
  intros Hsm Hr. unfold semantic_events. eapply settles_bind; [apply settles_failed|]. intros by_reference _.
  eapply settles_bind with (P := pass_ok).
  - apply settles_foldl; [by split; [|apply map_Forall_empty]|]. intros st r Hin Hst. rewrite Forall_forall in Hr.
    apply settles_record; auto.
  - intros [sm1 old_names] [Hs1 Hm]. cbn [fst snd] in *. apply settles_foldl; [done|]. intros sm2 r Hin Hs2.
    apply old_names_wf in Hm. rewrite Forall_forall in Hm. apply settles_leftover; auto.
Qed.
End Passes.
