(* ===== verification/SemanticLimits.v ===== *)
(** * Cutting a page where its limits end

    Specifies [apply_semantic_limits] of [journal_broker/windows/usn.rs]: the page it leaves is a prefix of
    the events, without what belongs to roots that failed; everything left out lies at or above the covered
    position, and what is kept stays within the limits. *)

From stdpp Require Import sorting.
From S2P Require Import Prelude Text Order Effects WireBase WirePath Wire Contracts BrokerChecks Responses Usn.
From S2P Require Import UsnPath Service ServiceAnswers VolumeBarrier PinnedRoots SemanticEvents SemanticLaws.

(** ** What the events say about a root *)

Definition healthy (cands : CandidatesByRoot) (i : nat) : bool :=
  match cands !! i with Some (Ok _) => true | _ => false end.

Definition handoff_healthy (cands : CandidatesByRoot) (h : BackendJournalHandoff) : bool :=
  healthy cands (bh_current_root_index h)
  && match bh_previous_root_index h with Some i => healthy cands i | None => true end.

Definition pending_healthy (cands : CandidatesByRoot) (p : BackendPendingRename) : bool :=
  healthy cands (bpr_root_index p).

Definition at_root (i : nat) (entries : list (nat * BackendJournalCandidate)) : list BackendJournalCandidate :=
  (filter (λ entry, entry.1 = i) entries).*2.

(** The candidates of root [i] in the events, the hand-offs and the pending renames. *)
Definition root_candidates (i : nat) (events : list SemanticEvent) : list BackendJournalCandidate :=
  events ≫= λ e, at_root i (se_candidates e).
Definition event_handoffs (events : list SemanticEvent) : list BackendJournalHandoff :=
  events ≫= λ e, option_list (se_handoff e).
Definition event_pendings (events : list SemanticEvent) : list BackendPendingRename :=
  events ≫= λ e, option_list (se_pending e).

(** The event without what belongs to failed roots. *)
Definition retained (cands : CandidatesByRoot) (e : SemanticEvent) : SemanticEvent :=
  {| se_usn := se_usn e;
     se_candidates := filter (λ entry, healthy cands entry.1) (se_candidates e);
     se_handoff := h ← se_handoff e; if handoff_healthy cands h then Some h else None;
     se_pending := p ← se_pending e; if pending_healthy cands p then Some p else None |}.

(** Every root the event names is one of the [n] roots. *)
Definition within (n : nat) (e : SemanticEvent) : Prop := ∀ i, i ∈ affected_roots e → (i < n)%nat.

Lemma affected_candidate e entry : entry ∈ se_candidates e → entry.1 ∈ affected_roots e.
Proof. intros H. unfold affected_roots. apply elem_of_union_l, elem_of_union_l, elem_of_list_to_set, list_elem_of_fmap. eauto. Qed.

Lemma affected_handoff e h i :
  se_handoff e = Some h → i = bh_current_root_index h ∨ bh_previous_root_index h = Some i → i ∈ affected_roots e.
Proof.
  intros H Hi. unfold affected_roots. rewrite H. apply elem_of_union_l, elem_of_union_r.
  destruct Hi as [->| ->]; set_solver.
Qed.

Lemma affected_pending e p : se_pending e = Some p → bpr_root_index p ∈ affected_roots e.
Proof. intros H. unfold affected_roots. rewrite H. set_solver. Qed.

(** ** Retaining *)

Lemma healthy_at_Ok cands i : (i < length cands)%nat → healthy_at cands i = Ok (healthy cands i).
Proof. intros [r Hr]%lookup_lt_is_Some_2. unfold healthy_at, get_at, healthy. rewrite Hr. by destruct r. Qed.

Lemma retain_healthy_Ok cands entries :
  Forall (λ entry, (entry.1 < length cands)%nat) entries →
  retain_healthy cands entries = Ok (filter (λ entry, healthy cands entry.1) entries).
Proof.
  intros H. unfold retain_healthy. set (step := λ kept entry, _).
  assert (∀ acc, result_foldl step acc entries = Ok (acc ++ filter (λ entry, healthy cands entry.1) entries))
    as Hgen; [|exact (Hgen [])].
  induction H as [|entry entries He _ IH]; intros acc; cbn [result_foldl]; [by rewrite app_nil_r|].
  assert (step acc entry = Ok (if healthy cands entry.1 then acc ++ [entry] else acc)) as ->
    by (unfold step; by rewrite healthy_at_Ok).
  cbn [mbind result_bind]. rewrite IH, filter_cons.
  destruct (healthy cands entry.1); [|by rewrite decide_False by (by intros [])].
  by rewrite decide_True, <-app_assoc by done.
Qed.

Lemma retain_event_Ok cands e : within (length cands) e → retain_event cands e = Ok (retained cands e).
Proof.
  intros Hw. unfold retain_event. rewrite retain_healthy_Ok
    by (apply Forall_forall; intros entry He; by apply Hw, affected_candidate).
  cbn [mbind result_bind]. unfold retained.
  assert (retain_handoff cands (se_handoff e) =
    Ok (h ← se_handoff e; if handoff_healthy cands h then Some h else None)) as ->.
  { destruct (se_handoff e) as [h|] eqn:Hh; [|done]. unfold retain_handoff, handoff_healthy. cbn.
    rewrite healthy_at_Ok by (apply Hw; eapply affected_handoff; [done|by left]). cbn.
    destruct (bh_previous_root_index h) as [i|] eqn:Hi; cbn; [|by destruct (healthy _ _)].
    destruct (healthy _ _); [|done].
    rewrite healthy_at_Ok by (apply Hw; eapply affected_handoff; [done|by right]). by destruct (healthy _ _). }
  cbn [mbind result_bind].
  assert (retain_pending cands (se_pending e) =
    Ok (p ← se_pending e; if pending_healthy cands p then Some p else None)) as ->; [|done].
  destruct (se_pending e) as [p|] eqn:Hp; [|done]. unfold retain_pending, pending_healthy. cbn.
  rewrite healthy_at_Ok by (by apply Hw, affected_pending). by destruct (healthy _ _).
Qed.

(** ** Costs *)

Definition candidate_cost (c : BackendJournalCandidate) : Z :=
  zlen (bc_absolute_path_utf16 c) * 2 + from_option (λ p, zlen p * 2) 0 (bc_previous_absolute_path_utf16 c)
  + zlen (bc_file_reference c).
Definition path_cost (path : list Z) : Z := Z.min USIZE_MAX (zlen path * 2).
Definition handoff_cost (h : BackendJournalHandoff) : Z :=
  path_cost (bh_previous_absolute_path_utf16 h) + path_cost (bh_current_absolute_path_utf16 h)
  + zlen (bh_file_reference h).
Definition pending_cost (p : BackendPendingRename) : Z :=
  path_cost (bpr_previous_absolute_path_utf16 p) + zlen (bpr_file_reference p).

Definition event_records (e : SemanticEvent) : Z :=
  zlen (se_candidates e) + zlen (option_list (se_handoff e)) + zlen (option_list (se_pending e)).
Definition event_evidence (e : SemanticEvent) : Z :=
  sum ((λ entry, candidate_cost entry.2) <$> se_candidates e)
  + sum (handoff_cost <$> option_list (se_handoff e)) + sum (pending_cost <$> option_list (se_pending e)).

Lemma candidate_cost_nonneg c : 0 ≤ candidate_cost c.
Proof. unfold candidate_cost, zlen. destruct (bc_previous_absolute_path_utf16 c); cbn; lia. Qed.

Lemma path_cost_nonneg path : 0 ≤ path_cost path.
Proof. unfold path_cost. pose proof (zlen_nonneg path). unfold USIZE_MAX. lia. Qed.

(** Case analysis on each checked step of a count. *)
Ltac count_cases :=
  unfold add_path, checked_add, checked_mul; cbn [fst snd];
  repeat (match goal with |- context [?a <=? ?b] => destruct (Z.leb_spec a b) end;
          cbn [mbind option_bind result_bind ok_or fst snd andb]);
  first [done|exfalso; lia|f_equal; lia|f_equal; f_equal; lia].

(** Each count is the sum, as long as it fits the machine's integers. *)
Definition fits {A : Type} (bounded : bool) (a : A) : BackendResult A :=
  if bounded then Ok a else Err BackendEvidenceLimitExceeded.

Lemma candidate_count c :
  BackendJournalCandidate_evidence_bytes c = fits (candidate_cost c <=? USIZE_MAX) (candidate_cost c).
Proof.
  unfold BackendJournalCandidate_evidence_bytes, candidate_cost, fits.
  pose proof (zlen_nonneg (bc_absolute_path_utf16 c)). pose proof (zlen_nonneg (bc_file_reference c)).
  destruct (bc_previous_absolute_path_utf16 c) as [p|]; cbn [from_option]; [pose proof (zlen_nonneg p)|]; count_cases.
Qed.

Lemma candidates_count v entries :
  0 ≤ v ≤ USIZE_MAX →
  let total := v + sum ((λ entry, candidate_cost entry.2) <$> entries) in
  result_foldl count_candidate v entries = fits (total <=? USIZE_MAX) total.
Proof.
  revert v. induction entries as [|entry entries IH]; intros v Hv total; subst total; unfold sum in *;
    cbn [result_foldl fmap list_fmap foldr]; [unfold fits; count_cases|].
  pose proof (candidate_cost_nonneg entry.2).
  assert (0 ≤ foldr Z.add 0 ((λ entry, candidate_cost entry.2) <$> entries))
    by (apply sum_nonneg, Forall_fmap, Forall_true; intros; apply candidate_cost_nonneg).
  assert (count_candidate v entry = fits (v + candidate_cost entry.2 <=? USIZE_MAX) (v + candidate_cost entry.2)) as ->.
  { unfold count_candidate. rewrite candidate_count. unfold fits. count_cases. }
  unfold fits at 1. destruct (Z.leb_spec (v + candidate_cost entry.2) USIZE_MAX); cbn [mbind result_bind].
  - rewrite IH by lia. by rewrite Z.add_assoc.
  - unfold fits. count_cases.
Qed.

Lemma handoff_count r v h :
  count_handoff (r, v) h =
  fits ((r + 1 <=? USIZE_MAX) && (v + handoff_cost h <=? USIZE_MAX)) (r + 1, v + handoff_cost h).
Proof.
  unfold count_handoff, handoff_cost, fits. pose proof (zlen_nonneg (bh_file_reference h)).
  pose proof (path_cost_nonneg (bh_current_absolute_path_utf16 h)). unfold path_cost in *. count_cases.
Qed.

Lemma pending_count r v p :
  count_told_pending (r, v) p =
  fits ((r + 1 <=? USIZE_MAX) && (v + pending_cost p <=? USIZE_MAX)) (r + 1, v + pending_cost p).
Proof.
  unfold count_told_pending, pending_cost, fits. pose proof (zlen_nonneg (bpr_file_reference p)).
  unfold path_cost in *. count_cases.
Qed.
Lemma handoff_cost_nonneg h : 0 ≤ handoff_cost h.
Proof.
  unfold handoff_cost. pose proof (path_cost_nonneg (bh_previous_absolute_path_utf16 h)).
  pose proof (path_cost_nonneg (bh_current_absolute_path_utf16 h)). pose proof (zlen_nonneg (bh_file_reference h)). lia.
Qed.

Lemma pending_cost_nonneg p : 0 ≤ pending_cost p.
Proof.
  unfold pending_cost. pose proof (path_cost_nonneg (bpr_previous_absolute_path_utf16 p)).
  pose proof (zlen_nonneg (bpr_file_reference p)). lia.
Qed.

Lemma handoff_told r v o :
  r + zlen (option_list o) ≤ USIZE_MAX → v + sum (handoff_cost <$> option_list o) ≤ USIZE_MAX →
  match o with Some h => count_handoff (r, v) h | None => Ok (r, v) end =
  Ok (r + zlen (option_list o), v + sum (handoff_cost <$> option_list o)).
Proof.
  unfold sum, zlen. destruct o as [h|]; cbn; intros Hr Hv; [|f_equal; f_equal; lia].
  rewrite handoff_count. unfold fits. rewrite Z.add_0_r in *. by rewrite !(proj2 (Z.leb_le _ _)) by lia.
Qed.

Lemma pending_told r v o :
  r + zlen (option_list o) ≤ USIZE_MAX → v + sum (pending_cost <$> option_list o) ≤ USIZE_MAX →
  match o with Some p => count_told_pending (r, v) p | None => Ok (r, v) end =
  Ok (r + zlen (option_list o), v + sum (pending_cost <$> option_list o)).
Proof.
  unfold sum, zlen. destruct o as [p|]; cbn; intros Hr Hv; [|f_equal; f_equal; lia].
  rewrite pending_count. unfold fits. rewrite Z.add_0_r in *. by rewrite !(proj2 (Z.leb_le _ _)) by lia.
Qed.

Lemma event_counts_nonneg e :
  0 ≤ zlen (se_candidates e) ∧ 0 ≤ sum ((λ entry, candidate_cost entry.2) <$> se_candidates e) ∧
  0 ≤ sum (handoff_cost <$> option_list (se_handoff e)) ∧ 0 ≤ sum (pending_cost <$> option_list (se_pending e)).
Proof.
  split; [apply zlen_nonneg|]. split_and!; apply sum_nonneg, Forall_fmap, Forall_true; intros x; cbn;
    auto using candidate_cost_nonneg, handoff_cost_nonneg, pending_cost_nonneg.
Qed.

(** The counts of the event fit. *)
Definition countable (e : SemanticEvent) : Prop := event_records e ≤ USIZE_MAX ∧ event_evidence e ≤ USIZE_MAX.

Lemma fits_Ok {A : Type} bounded (a x : A) : fits bounded a = Ok x → x = a ∧ bounded = true.
Proof. by destruct bounded; cbn; intros [= <-]. Qed.

Lemma costs_Ok e records evidence :
  SemanticEvent_costs e = Ok (records, evidence) → records = event_records e ∧ evidence = event_evidence e.
Proof.
  unfold SemanticEvent_costs, event_records, event_evidence, sum, zlen. rewrite candidates_count by (unfold USIZE_MAX; lia).
  intros H. apply result_bind_Ok in H as (v & [-> _]%fits_Ok & H). apply result_bind_Ok in H as ([r1 v1] & H1 & H).
  unfold sum, zlen in *.
  destruct (se_handoff e) as [h|]; [rewrite handoff_count in H1; apply fits_Ok in H1 as [H1 _]|];
  (destruct (se_pending e) as [p|]; [rewrite pending_count in H; apply fits_Ok in H as [H _]|]);
  simplify_eq; cbn; lia.
Qed.

Lemma costs_countable e : countable e → SemanticEvent_costs e = Ok (event_records e, event_evidence e).
Proof.
  destruct (event_counts_nonneg e) as (Hn & Hc & Hh & Hp). unfold countable, event_records, event_evidence. intros [Hr Hv].
  unfold SemanticEvent_costs. rewrite candidates_count by (unfold USIZE_MAX; lia).
  unfold fits. rewrite (proj2 (Z.leb_le _ _)) by lia. cbn [mbind result_bind].
  pose proof (zlen_nonneg (option_list (se_pending e))).
  rewrite handoff_told by lia. cbn [mbind result_bind]. rewrite pending_told by lia. done.
Qed.

Lemma costs_Err e error :
  SemanticEvent_costs e = Err error → error = BackendEvidenceLimitExceeded ∧ ¬ countable e.
Proof.
  intros H. split; [|intros Hc; by rewrite costs_countable in H].
  unfold SemanticEvent_costs in H. rewrite candidates_count in H by (unfold USIZE_MAX; lia). unfold fits in H.
  destruct (_ <=? USIZE_MAX) in H; cbn [mbind result_bind] in H; [|by simplify_eq].
  destruct (se_handoff e) as [h|]; [rewrite handoff_count in H; unfold fits in H; destruct (_ && _) in H|];
    cbn [mbind result_bind] in H; try by simplify_eq.
  all: destruct (se_pending e) as [p|]; [rewrite pending_count in H; unfold fits in H; destruct (_ && _) in H|]; by simplify_eq.
Qed.

Lemma filter_option {A : Type} (P : A → bool) (o : option A) :
  option_list (x ← o; if P x then Some x else None) = filter P (option_list o).
Proof. destruct o as [x|]; [|done]. cbn -[filter]. rewrite filter_cons. by destruct (P x). Qed.

Lemma sum_filter_le {A : Type} (P : A → Prop) `{∀ x, Decision (P x)} (cost : A → Z) l :
  (∀ x, 0 ≤ cost x) → sum (cost <$> filter P l) ≤ sum (cost <$> l).
Proof.
  intros Hcost. unfold sum. induction l as [|x l IH]; [done|]. rewrite filter_cons. specialize (Hcost x).
  case_decide; cbn [fmap list_fmap foldr]; lia.
Qed.

Lemma zlen_filter_le {A : Type} (P : A → Prop) `{∀ x, Decision (P x)} l : zlen (filter P l) ≤ zlen l.
Proof. unfold zlen. apply inj_le, length_filter. Qed.

Lemma retained_countable cands e : countable e → countable (retained cands e).
Proof.
  unfold countable, event_records, event_evidence. cbn [retained se_candidates se_handoff se_pending]. intros [Hr Hv].
  rewrite !filter_option. pose proof (zlen_filter_le (λ entry, healthy cands entry.1) (se_candidates e)).
  pose proof (zlen_filter_le (handoff_healthy cands) (option_list (se_handoff e))).
  pose proof (zlen_filter_le (pending_healthy cands) (option_list (se_pending e))).
  pose proof (sum_filter_le (λ entry, healthy cands entry.1) _ (se_candidates e) (λ x, candidate_cost_nonneg x.2)).
  pose proof (sum_filter_le (handoff_healthy cands) _ (option_list (se_handoff e)) handoff_cost_nonneg).
  pose proof (sum_filter_le (pending_healthy cands) _ (option_list (se_pending e)) pending_cost_nonneg). lia.
Qed.

(** ** Storing and failing *)

Definition weight (cost : BackendJournalCandidate → Z) (r : BackendResult (list BackendJournalCandidate)) : Z :=
  match r with Ok cs => sum (cost <$> cs) | Err _ => 0 end.
Definition weights (cost : BackendJournalCandidate → Z) (cands : CandidatesByRoot) : Z := sum (weight cost <$> cands).

(** The candidates of the healthy roots extended by [entries]. *)
Definition appended (cands : CandidatesByRoot) (entries : list (nat * BackendJournalCandidate)) : CandidatesByRoot :=
  imap (λ i r, match r with Ok cs => Ok (cs ++ at_root i entries) | Err error => Err error end) cands.
(** The roots in [l] failed. *)
Definition failed_by (l : list nat) (error : BackendError) (cands : CandidatesByRoot) : CandidatesByRoot :=
  imap (λ i r, if decide (i ∈ l) then Err error else r) cands.

Lemma weights_insert cost cands i r r' :
  cands !! i = Some r → weights cost (<[i := r']> cands) = weights cost cands - weight cost r + weight cost r'.
Proof.
  unfold weights, sum. revert i. induction cands as [|x cands IH]; intros [|i] Hi; simplify_eq/=; [lia|].
  rewrite IH by done. lia.
Qed.

Lemma at_root_app i l k : at_root i (l ++ k) = at_root i l ++ at_root i k.
Proof. unfold at_root. by rewrite filter_app, fmap_app. Qed.

Lemma at_root_one i j c : at_root i [(j, c)] = if decide (j = i) then [c] else [].
Proof. unfold at_root. rewrite filter_cons, filter_nil. cbn. by destruct (decide (j = i)). Qed.

Lemma appended_nil cands : appended cands [] = cands.
Proof.
  apply list_eq. intros i. unfold appended. rewrite list_lookup_imap. destruct (cands !! i) as [[cs|e]|]; cbn; [|done..].
  by rewrite app_nil_r.
Qed.

Lemma appended_app cands l k : appended (appended cands l) k = appended cands (l ++ k).
Proof.
  apply list_eq. intros i. unfold appended. rewrite !list_lookup_imap. destruct (cands !! i) as [[cs|e]|]; cbn; [|done..].
  by rewrite at_root_app, app_assoc.
Qed.

Lemma appended_one cands i c :
  appended cands [(i, c)] =
  match cands !! i with Some (Ok cs) => <[i := Ok (cs ++ [c])]> cands | _ => cands end.
Proof.
  apply list_eq. intros j. unfold appended. rewrite list_lookup_imap, at_root_one.
  destruct (decide (i = j)) as [<-|Hne].
  - destruct (cands !! i) as [[cs|e]|] eqn:E; cbn; [|by rewrite E..].
    by rewrite list_lookup_insert_eq by (by eapply lookup_lt_Some).
  - assert (match cands !! i with Some (Ok cs) => <[i:=Ok (cs ++ [c])]> cands | _ => cands end !! j = cands !! j) as ->
      by (destruct (cands !! i) as [[cs|e]|]; [by rewrite list_lookup_insert_ne|done..]).
    destruct (cands !! j) as [[cs|e]|]; cbn; [|done..]. by rewrite app_nil_r.
Qed.

Lemma length_appended cands l : length (appended cands l) = length cands.
Proof. apply length_imap. Qed.

Lemma healthy_appended cands l i : healthy (appended cands l) i = healthy cands i.
Proof. unfold healthy, appended. rewrite list_lookup_imap. by destruct (cands !! i) as [[cs|e]|]. Qed.

Lemma store_all cands entries :
  Forall (λ entry, (entry.1 < length cands)%nat) entries →
  result_foldl store_candidate cands entries = Ok (appended cands entries).
Proof.
  intros H. revert cands H. induction entries as [|[i c] entries IH]; intros cands H; cbn [result_foldl].
  { by rewrite appended_nil. }
  apply Forall_cons in H as [Hi H]. cbn in Hi.
  assert (store_candidate cands (i, c) = Ok (appended cands [(i, c)])) as ->.
  { rewrite appended_one. unfold store_candidate, get_at, set_at. destruct (lookup_lt_is_Some_2 _ _ Hi) as [[cs|e] ->]; [|done].
    cbn. by rewrite decide_True. }
  cbn [mbind result_bind]. rewrite IH by (by rewrite length_appended). by rewrite appended_app.
Qed.

Lemma weights_appended cost cands entries :
  Forall (λ entry, healthy cands entry.1) entries →
  weights cost (appended cands entries) = weights cost cands + sum ((λ entry, cost entry.2) <$> entries).
Proof.
  revert cands. induction entries as [|[i c] entries IH]; intros cands H.
  { rewrite appended_nil. unfold sum. cbn. lia. }
  apply Forall_cons in H as [Hi H]. change ((i, c) :: entries) with ([(i, c)] ++ entries). rewrite <-appended_app.
  rewrite IH by (eapply Forall_impl; [exact H|]; intros entry; by rewrite healthy_appended).
  rewrite appended_one. cbn [fst] in Hi. unfold healthy in Hi. destruct (cands !! i) as [[cs|e]|] eqn:E; [|done..].
  rewrite (weights_insert cost cands i (Ok cs)) by done. cbn [weight]. rewrite fmap_app, sum_app. unfold sum. cbn. lia.
Qed.

Lemma healthy_failed l error cands i : healthy (failed_by l error cands) i = true → healthy cands i = true ∧ i ∉ l.
Proof.
  unfold healthy, failed_by. rewrite list_lookup_imap. destruct (cands !! i) as [[cs|e]|]; cbn; [|by destruct (decide _)|done].
  by destruct (decide _).
Qed.

Lemma failed_nil error cands : failed_by [] error cands = cands.
Proof.
  apply list_eq. intros j. unfold failed_by. rewrite list_lookup_imap. destruct (cands !! j); cbn; [|done].
  rewrite decide_False; [done|]. by apply not_elem_of_nil.
Qed.

Lemma failed_cons i l error cands :
  failed_by l error (<[i := Err error]> cands) = failed_by (i :: l) error cands.
Proof.
  apply list_eq. intros j. unfold failed_by. rewrite !list_lookup_imap. destruct (decide (i = j)) as [<-|Hne].
  - destruct (decide (i < length cands)%nat) as [Hlt|Hge].
    + rewrite list_lookup_insert_eq by done. destruct (lookup_lt_is_Some_2 _ _ Hlt) as [r ->]. cbn.
      rewrite (decide_True (P := i ∈ i :: l)) by (by left). by destruct (decide _).
    + by rewrite list_insert_ge by lia; rewrite lookup_ge_None_2 by lia.
  - rewrite list_lookup_insert_ne by done. destruct (cands !! j); cbn; [|done]. do 2 f_equal.
    destruct (decide (j ∈ l)), (decide (j ∈ i :: l)) as [Hin|Hin]; try done; exfalso; [apply Hin; by right|].
    apply elem_of_cons in Hin as [->|?]; done.
Qed.

Lemma fail_all l error cands :
  Forall (λ i, (i < length cands)%nat) l →
  result_foldl (λ cands i, set_at cands i (Err error)) cands l = Ok (failed_by l error cands).
Proof.
  intros H. revert cands H. induction l as [|i l IH]; intros cands H; cbn [result_foldl].
  - by rewrite failed_nil.
  - apply Forall_cons in H as [Hi H]. 
    assert (set_at cands i (Err error) = Ok (<[i := Err error]> cands)) as -> by (unfold set_at; by rewrite decide_True).
    cbn [mbind result_bind]. rewrite IH by (by rewrite length_insert). by rewrite failed_cons.
Qed.

Lemma weights_failed cost l error cands :
  (∀ c, 0 ≤ cost c) → weights cost (failed_by l error cands) ≤ weights cost cands.
Proof.
  intros Hcost. revert cands. induction l as [|i l IH]; intros cands; [by rewrite failed_nil|].
  rewrite <-failed_cons. etrans; [apply IH|]. destruct (cands !! i) as [r|] eqn:E.
  - rewrite (weights_insert cost cands i r) by done. assert (0 ≤ weight cost r); [|cbn; lia].
    destruct r as [cs|]; cbn; [|done]. by apply sum_nonneg, Forall_fmap, Forall_true.
  - by rewrite list_insert_ge by (by apply lookup_ge_None).
Qed.

Lemma weights_nonneg cost cands : (∀ c, 0 ≤ cost c) → 0 ≤ weights cost cands.
Proof.
  intros Hcost. apply sum_nonneg, Forall_fmap, Forall_true. intros [cs|]; cbn; [|done].
  by apply sum_nonneg, Forall_fmap, Forall_true.
Qed.

(** ** The least start *)

Lemma minimum_start_Ok cands starts :
  length starts = length cands → (∃ i, healthy cands i = true) →
  ∃ m i, healthy_minimum_start cands starts = Ok m ∧ healthy cands i = true ∧ starts !! i = Some m.
Proof.
  intros Hlen [i Hi]. unfold healthy_minimum_start. set (step := λ found entry, _).
  assert (∀ l acc, Forall (λ entry, (entry.1 < length cands)%nat) l →
    result_foldl step acc l = Ok (acc ++ (filter (λ entry, healthy cands entry.1) l).*2)) as Hgen.
  { induction l as [|entry l IH]; intros acc Hl; cbn [result_foldl]; [by rewrite app_nil_r|].
    apply Forall_cons in Hl as [He Hl].
    assert (step acc entry = Ok (if healthy cands entry.1 then acc ++ [entry.2] else acc)) as ->
      by (unfold step; by rewrite healthy_at_Ok).
    cbn [mbind result_bind]. rewrite IH, filter_cons by done. destruct (healthy cands entry.1); cbn; [by rewrite <-app_assoc|done]. }
  assert (is_Some (starts !! i)) as [m Hm].
  { apply lookup_lt_is_Some_2. rewrite Hlen. unfold healthy in Hi. destruct (cands !! i) eqn:E; [|done]. by eapply lookup_lt_Some. }
  rewrite Hgen by (apply Forall_forall; intros [j x] (? & ? & [= -> ->] & Hj)%elem_of_lookup_imap; rewrite <-Hlen; by eapply lookup_lt_Some).
  cbn [mbind result_bind app].
  assert ((i, m) ∈ filter (λ entry, healthy cands entry.1) (imap pair starts)) as Hin.
  { apply list_elem_of_filter. split; [cbn; by rewrite Hi|]. apply elem_of_lookup_imap. eauto. }
  destruct (filter _ _) as [|entry l] eqn:E; [by apply not_elem_of_nil in Hin|]. cbn [fmap list_fmap].
  pose proof (foldl_min_in l.*2 entry.2) as Hmin.
  change (entry.2 :: l.*2) with ((entry :: l).*2) in Hmin. rewrite <-E in Hmin.
  apply list_elem_of_fmap in Hmin as ([j x] & Hx & [Hj (? & ? & [= -> ->] & Hs)%elem_of_lookup_imap]%list_elem_of_filter).
  cbn in Hx. subst. eexists _, _. split; [done|]. split; [by apply Is_true_eq_true|done].
Qed.

(** ** The loop over the events *)

Section Cut.
Context (raw : Z) (barrier : option Z) (starts : list Z) (max_records max_evidence : Z).
Context (initial : CandidatesByRoot) (Hstarts : length starts = length initial).

(** What the events in [taken] leave of the page. *)
Record cut_ok (taken : list SemanticEvent) (st : Limited) : Prop := {
  ct_length : length (lm_candidates_by_root st) = length initial;
  ct_candidates : ∀ i cs, lm_candidates_by_root st !! i = Some (Ok cs) → cs = root_candidates i taken;
  ct_handoffs : lm_handoffs st = filter (handoff_healthy (lm_candidates_by_root st)) (event_handoffs taken);
  ct_pending : lm_pending_renames st = filter (pending_healthy (lm_candidates_by_root st)) (event_pendings taken);
  ct_failed : ∀ i error, lm_candidates_by_root st !! i = Some (Err error) →
              initial !! i = Some (Err error) ∨ error = BackendEvidenceLimitExceeded;
  ct_records : lm_total_records st = weights (λ _, 1) (lm_candidates_by_root st)
               + zlen (lm_handoffs st) + zlen (lm_pending_renames st);
  ct_limit : lm_total_records st ≤ max_records;
  ct_evidence : weights candidate_cost (lm_candidates_by_root st) + sum (handoff_cost <$> lm_handoffs st)
                + sum (pending_cost <$> lm_pending_renames st) ≤ lm_total_evidence st ≤ max_evidence;
}.

Lemma at_root_healthy cands i entries :
  healthy cands i = true → at_root i (filter (λ entry, healthy cands entry.1) entries) = at_root i entries.
Proof.
  intros Hi. unfold at_root. f_equal. rewrite list_filter_filter. apply list_filter_iff. intros [j c]. cbn.
  split; [by intros [-> _]|]. intros ->. rewrite Hi. done.
Qed.

Lemma events_app taken e :
  (∀ i, root_candidates i (taken ++ [e]) = root_candidates i taken ++ at_root i (se_candidates e)) ∧
  event_handoffs (taken ++ [e]) = event_handoffs taken ++ option_list (se_handoff e) ∧
  event_pendings (taken ++ [e]) = event_pendings taken ++ option_list (se_pending e).
Proof.
  unfold root_candidates, event_handoffs, event_pendings. split_and!; [intros i|..];
    by rewrite bind_app; cbn; rewrite ?app_nil_r.
Qed.

(** An event that has nothing for a healthy root. *)
Lemma cut_skip taken st e :
  cut_ok taken st → event_is_empty (retained (lm_candidates_by_root st) e) = true → cut_ok (taken ++ [e]) st.
Proof.
  intros [Hl Hc Hh Hp Hf Hr Hm He] [[Hec Hneh]%andb_true_iff Hnep]%andb_true_iff.
  destruct (events_app taken e) as (Ec & Eh & Ep).
  apply bool_decide_eq_true in Hneh, Hnep. cbn [retained se_candidates se_handoff se_pending] in *.
  split; [done| | | |done..].
  - intros i cs Hi. rewrite Ec, (Hc i cs Hi). rewrite <-(at_root_healthy (lm_candidates_by_root st))
      by (unfold healthy; by rewrite Hi). destruct (filter (λ entry, healthy _ entry.1) (se_candidates e)); [|done].
    by rewrite app_nil_r.
  - rewrite Eh, filter_app, <-filter_option, Hneh, app_nil_r. done.
  - rewrite Ep, filter_app, <-filter_option, Hnep, app_nil_r. done.
Qed.

Lemma exceeds_false total amount maximum : exceeds total amount maximum = false → total + amount ≤ maximum.
Proof. unfold exceeds, checked_add. destruct (_ <=? _); [|done]. lia. Qed.

Lemma retained_within cands e n :
  within n e → Forall (λ entry, (entry.1 < n)%nat) (se_candidates (retained cands e)).
Proof.
  intros Hw. apply Forall_forall. intros entry [_ Hin]%list_elem_of_filter. by apply Hw, affected_candidate.
Qed.

Lemma sum_ones {A : Type} (l : list A) : sum ((λ _, 1) <$> l) = zlen l.
Proof. induction l as [|x l IH]; [done|]. unfold sum, zlen in *. cbn [fmap list_fmap foldr length] in *. lia. Qed.

(** An event within the limits. *)
Lemma cut_store taken st e :
  let event := retained (lm_candidates_by_root st) e in
  cut_ok taken st → within (length initial) e →
  lm_total_records st + event_records event ≤ max_records →
  lm_total_evidence st + event_evidence event ≤ max_evidence →
  ∃ st', store_event st event (event_records event) (event_evidence event) = Ok st' ∧
    cut_ok (taken ++ [e]) st' ∧ lm_covered_until_usn st' = lm_covered_until_usn st.
Proof.
  cbn zeta. intros [Hl Hc Hh Hp Hf Hr Hm He] Hw Hmr Hme. unfold store_event.
  rewrite store_all by (rewrite Hl; by apply retained_within). cbn [mbind result_bind]. eexists. split; [done|]. split; [|done].
  destruct (events_app taken e) as (Ec & Eh & Ep). set (cands := lm_candidates_by_root st) in *.
  assert (∀ cost, weights cost (appended cands (se_candidates (retained cands e))) =
    weights cost cands + sum ((λ entry, cost entry.2) <$> se_candidates (retained cands e))) as Hweight.
  { intros cost. apply weights_appended, Forall_forall. by intros entry [? _]%list_elem_of_filter. }
  assert (∀ h, handoff_healthy (appended cands (se_candidates (retained cands e))) h = handoff_healthy cands h) as Hhh.
  { intros h. unfold handoff_healthy. rewrite healthy_appended. destruct (bh_previous_root_index h); [|done]. by rewrite healthy_appended. }
  split; cbn [lm_candidates_by_root lm_handoffs lm_pending_renames lm_total_records lm_total_evidence].
  - by rewrite length_appended.
  - intros i cs Hi. unfold appended in Hi. rewrite list_lookup_imap in Hi.
    destruct (cands !! i) as [[cs0|]|] eqn:E; cbn [fmap option_fmap option_map] in Hi; [|done..]. simplify_eq.
    rewrite Ec, (Hc i cs0 E). f_equal. apply at_root_healthy. unfold healthy. by rewrite E.
  - rewrite Eh, filter_app, Hh. f_equal; [|cbn [retained se_handoff]; rewrite filter_option];
      apply list_filter_iff; intros h; by rewrite Hhh.
  - rewrite Ep, filter_app, Hp. f_equal; [|cbn [retained se_pending]; rewrite filter_option];
      apply list_filter_iff; intros p; unfold pending_healthy; by rewrite healthy_appended.
  - intros i error Hi. unfold appended in Hi. rewrite list_lookup_imap in Hi. apply Hf.
    destruct (cands !! i) as [[cs0|]|]; cbn in Hi; [done| |done]. by simplify_eq.
  - rewrite Hweight, sum_ones, Hr. unfold event_records. rewrite !zlen_app. lia.
  - done.
  - rewrite Hweight, !fmap_app, !sum_app. unfold event_evidence in *. lia.
Qed.

Lemma filter_stronger {A : Type} (P Q : A → bool) l : (∀ x, Q x = true → P x = true) → filter P l = [] → filter Q l = [].
Proof.
  intros HPQ. induction l as [|x l IH]; [done|]. rewrite !filter_cons. specialize (HPQ x).
  destruct (P x), (Q x); cbn; auto; [done..|]. discriminate HPQ; done.
Qed.

Lemma at_root_unaffected e i : i ∉ affected_roots e → at_root i (se_candidates e) = [].
Proof.
  intros Hn. unfold at_root. destruct (filter _ _) as [|entry l] eqn:E; [done|]. exfalso. apply Hn.
  assert (entry ∈ filter (λ entry, entry.1 = i) (se_candidates e)) as [<- Hin]%list_elem_of_filter by (rewrite E; by left).
  by apply affected_candidate.
Qed.

Lemma handoff_healthy_failed l error cands h :
  handoff_healthy (failed_by l error cands) h = true →
  handoff_healthy cands h = true ∧ bh_current_root_index h ∉ l.
Proof.
  unfold handoff_healthy. intros [[-> ?]%healthy_failed Hprev]%andb_true_iff. split; [|done]. cbn.
  destruct (bh_previous_root_index h); [|done]. by apply healthy_failed in Hprev as [? _].
Qed.

Lemma affected_retained cands e i : i ∈ affected_roots (retained cands e) → i ∈ affected_roots e.
Proof.
  intros Hi. unfold affected_roots in *. cbn [retained se_candidates se_handoff se_pending] in Hi.
  rewrite !elem_of_union in *. destruct Hi as [[Hi|Hi]|Hi].
  - left; left. apply elem_of_list_to_set in Hi. apply elem_of_list_to_set.
    apply list_elem_of_fmap in Hi as (x & -> & [_ Hx]%list_elem_of_filter). apply list_elem_of_fmap. eauto.
  - left; right. destruct (se_handoff e) as [h|]; [|done]. cbn in Hi. by destruct (handoff_healthy cands h).
  - right. destruct (se_pending e) as [p|]; [|done]. cbn in Hi. by destruct (pending_healthy cands p).
Qed.

(** The roots an event affects are failed: it tells nothing for the others. *)
Lemma failed_tells_nothing cands e error :
  let cands' := failed_by (elements (affected_roots (retained cands e))) error cands in
  (∀ i, healthy cands' i = true → at_root i (se_candidates e) = []) ∧
  filter (handoff_healthy cands') (option_list (se_handoff e)) = [] ∧
  filter (pending_healthy cands') (option_list (se_pending e)) = [].
Proof.
  intros cands'. split_and!.
  - intros i [Hi Hn]%healthy_failed. rewrite <-(at_root_healthy cands) by done. rewrite elem_of_elements in Hn.
    by apply (at_root_unaffected (retained cands e)).
  - destruct (se_handoff e) as [h|] eqn:E; [|done]. cbn -[filter]. rewrite filter_cons. case_decide as Hd; [|done].
    apply Is_true_eq_true, handoff_healthy_failed in Hd as [Hh Hn]. exfalso. apply Hn, elem_of_elements.
    eapply affected_handoff; [|by left]. cbn [retained se_handoff]. rewrite E. cbn. by rewrite Hh.
  - destruct (se_pending e) as [p|] eqn:E; [|done]. cbn -[filter]. rewrite filter_cons. case_decide as Hd; [|done].
    apply Is_true_eq_true, healthy_failed in Hd as [Hh Hn]. exfalso. apply Hn, elem_of_elements.
    apply affected_pending. cbn [retained se_pending]. rewrite E. cbn. unfold pending_healthy. by rewrite Hh.
Qed.

(** The first event exceeds the limits on its own, and the roots it affects fail. *)
Lemma cut_fail taken st e :
  cut_ok taken st → within (length initial) e → lm_total_records st = 0 →
  ∃ st', fail_affected st (retained (lm_candidates_by_root st) e) = Ok st' ∧
    cut_ok (taken ++ [e]) st' ∧ lm_covered_until_usn st' = lm_covered_until_usn st.
Proof.
  intros [Hl Hc Hh Hp Hf Hr Hm He] Hw H0. unfold fail_affected. set (cands := lm_candidates_by_root st) in *.
  rewrite fail_all by (apply Forall_forall; intros i Hi%elem_of_elements%affected_retained; rewrite Hl; auto).
  cbn [mbind result_bind]. eexists. split; [done|]. split; [|done]. destruct (events_app taken e) as (Ec & Eh & Ep).
  destruct (failed_tells_nothing cands e BackendEvidenceLimitExceeded) as (Fc & Fh & Fp).
  set (l := elements _) in *. set (cands' := failed_by l _ cands) in *.
  assert (∀ cost, (∀ c, 0 ≤ cost c) → 0 ≤ weights cost cands' ≤ weights cost cands) as Hweights
    by (intros cost Hcost; split; [by apply weights_nonneg|by apply weights_failed]).
  pose proof (Hweights (λ _, 1) ltac:(done)) as [Hw0 Hw1].
  pose proof (zlen_nonneg (lm_handoffs st)). pose proof (zlen_nonneg (lm_pending_renames st)).
  assert (lm_handoffs st = []) as Hh0 by (apply zlen_zero; lia).
  assert (lm_pending_renames st = []) as Hp0 by (apply zlen_zero; lia).
  split; cbn [lm_candidates_by_root lm_handoffs lm_pending_renames lm_total_records lm_total_evidence].
  - unfold cands', failed_by. by rewrite length_imap.
  - intros i cs Hi. assert (healthy cands' i = true) as Hhi by (unfold healthy; by rewrite Hi).
    rewrite Ec, (Fc i Hhi), app_nil_r. unfold cands', failed_by in Hi. rewrite list_lookup_imap in Hi.
    destruct (cands !! i) as [r|] eqn:E; [|done]. cbn in Hi. destruct (decide _); simplify_eq. by apply Hc.
  - rewrite Hh0, Eh, filter_app, Fh, app_nil_r. symmetry. eapply filter_stronger; [|by rewrite <-Hh].
    intros h Hd. by apply handoff_healthy_failed in Hd as [? _].
  - rewrite Hp0, Ep, filter_app, Fp, app_nil_r. symmetry. eapply filter_stronger; [|by rewrite <-Hp].
    intros p Hd. by apply healthy_failed in Hd as [? _].
  - intros i error Hi. unfold cands', failed_by in Hi. rewrite list_lookup_imap in Hi.
    destruct (cands !! i) as [r|] eqn:E; [|done]. cbn in Hi. destruct (decide _); simplify_eq; [by right|by apply Hf].
  - lia.
  - done.
  - pose proof (Hweights candidate_cost candidate_cost_nonneg). lia.
Qed.

(** The position the page could cover at most. *)
Definition coverage_cap : Z := match barrier with None => raw | Some b => Z.min raw b end.

(** How far the page covers: as far as it could, or up to the first event [e] that is left out; then it
    tells something, or [e] lies above the start of a healthy root. *)
Definition reached (rest : list SemanticEvent) (page : Limited) : Prop :=
  lm_covered_until_usn page = coverage_cap ∨
  ∃ e, head rest = Some e ∧ lm_covered_until_usn page = Z.min (se_usn e) raw ∧ lm_covered_until_usn page ≤ coverage_cap ∧
    (0 < lm_total_records page ∨
     ∃ i start, healthy (lm_candidates_by_root page) i = true ∧ starts !! i = Some start ∧ start < se_usn e).

Definition in_order (events : list SemanticEvent) : Prop := StronglySorted (λ e e', se_usn e ≤ se_usn e') events.

Record limited_page (events : list SemanticEvent) (page : Limited) : Prop := {
  lp_split : ∃ taken rest, events = taken ++ rest ∧ cut_ok taken page ∧ reached rest page ∧
             Forall (λ e, lm_covered_until_usn page ≤ se_usn e) rest;
}.

Lemma head_least e events usn : in_order (e :: events) → usn ≤ se_usn e → Forall (λ e, usn ≤ se_usn e) (e :: events).
Proof.
  intros [_ Hall]%StronglySorted_inv Hu. constructor; [done|]. eapply Forall_impl; [exact Hall|]. cbn. lia.
Qed.

(** An event that tells something has a healthy root. *)
Lemma nonempty_healthy cands e :
  event_is_empty (retained cands e) = false → ∃ i, healthy cands i = true.
Proof.
  unfold event_is_empty. cbn [retained se_candidates se_handoff se_pending].
  destruct (filter _ _) as [|entry l] eqn:E.
  - destruct (se_handoff e) as [h|]; cbn; [destruct (handoff_healthy cands h) eqn:Hh|].
    + intros _. unfold handoff_healthy in Hh. apply andb_true_iff in Hh as [? _]. eauto.
    + destruct (se_pending e) as [p|]; cbn; [|done]. destruct (pending_healthy cands p) eqn:Hp; [eauto|done].
    + destruct (se_pending e) as [p|]; cbn; [|done]. destruct (pending_healthy cands p) eqn:Hp; [eauto|done].
  - intros _. exists entry.1. apply Is_true_eq_true.
    assert (entry ∈ filter (λ entry, healthy cands entry.1) (se_candidates e)) as [? _]%list_elem_of_filter by (rewrite E; by left).
    done.
Qed.

(** The run fails only when the counts of an event overflow, and does not panic. *)
Definition limited_run (all events : list SemanticEvent) (r : Native Limited) : Prop :=
  match r with
  | Ok page => limited_page all page
  | Err halt => halt = Failed BackendEvidenceLimitExceeded ∧ ¬ Forall countable events
  end.

Lemma limit_events_run taken st events :
  cut_ok taken st → lm_covered_until_usn st = coverage_cap →
  Forall (within (length initial)) events → in_order events →
  limited_run (taken ++ events) events (limit_events raw barrier starts max_records max_evidence st events).
Proof.
  revert taken st. induction events as [|e events IH]; intros taken st Hcut Hcov Hwithin Hord; cbn [limit_events].
  { split. exists taken, []. split_and!; [done|done|by left|constructor]. }
  apply Forall_cons in Hwithin as [Hw Hwithin]. pose proof Hord as [Hord' _]%StronglySorted_inv.
  pose proof (ct_length _ _ Hcut) as Hl.
  assert (∀ st', cut_ok (taken ++ [e]) st' ∧ lm_covered_until_usn st' = lm_covered_until_usn st →
    limited_run (taken ++ e :: events) (e :: events)
      (limit_events raw barrier starts max_records max_evidence st' events)) as Hnext.
  { intros st' [Hc' Hv']. specialize (IH (taken ++ [e]) st' Hc' ltac:(congruence) Hwithin Hord'). rewrite <-app_assoc in IH.
    destruct (limit_events _ _ _ _ _ st' events); [exact IH|]. destruct IH as [-> Hn]. split; [done|].
    by intros [_ ?]%Forall_cons. }
  destruct (match barrier with Some b => _ | None => false end) eqn:Hbar.
  { destruct barrier as [b|] eqn:Eb; [|done]. apply Z.leb_le in Hbar. split.
    exists taken, (e :: events). split_and!; [done|done|left; by rewrite Hcov|]. apply head_least; [done|].
    rewrite Hcov. unfold coverage_cap. rewrite Eb. lia. }
  rewrite retain_event_Ok by (by rewrite Hl). cbn [mbind result_bind].
  destruct (event_is_empty _) eqn:Hemp; [apply Hnext; split; [by apply cut_skip|done]|].
  destruct (SemanticEvent_costs _) as [[records evidence]|error] eqn:Hcosts; cbn [failing map_err mbind result_bind].
  2: { apply costs_Err in Hcosts as [-> Hn]. split; [done|]. intros [He _]%Forall_cons. by apply Hn, retained_countable. }
  apply costs_Ok in Hcosts as [-> ->]. destruct (_ || _) eqn:Hex.
  - destruct (minimum_start_Ok (lm_candidates_by_root st) starts) as (m & i & -> & Hi & Hm);
      [congruence|by eapply nonempty_healthy|]. cbn [mbind result_bind retained se_usn].
    destruct ((_ =? 0) && _) eqn:H0.
    + apply andb_true_iff in H0 as [H0%Z.eqb_eq _]. destruct (cut_fail taken st e) as (st' & -> & Hst'); [done..|]. by apply Hnext.
    + split. exists taken, (e :: events). split; [done|]. split; [by destruct Hcut; split|].
      split; [right|apply head_least; [done|]; cbn; lia].
      exists e. cbn [head lm_covered_until_usn lm_total_records lm_candidates_by_root]. split; [done|]. split; [done|]. split.
      * unfold coverage_cap. destruct barrier; [apply Z.leb_gt in Hbar|]; lia.
      * apply andb_false_iff in H0 as [H0%Z.eqb_neq|H0%Z.leb_gt]; [left|right; by exists i, m].
        rewrite (ct_records _ _ Hcut) in H0 |- *.
        pose proof (weights_nonneg (λ _, 1) (lm_candidates_by_root st) ltac:(done)).
        pose proof (zlen_nonneg (lm_handoffs st)). pose proof (zlen_nonneg (lm_pending_renames st)). lia.
  - apply orb_false_iff in Hex as [H1%exceeds_false H2%exceeds_false].
    destruct (cut_store taken st e) as (st' & -> & Hst'); [done..|]. by apply Hnext.
Qed.

Lemma weights_initial cost : Forall untold initial → weights cost initial = 0.
Proof.
  clear Hstarts. induction 1 as [|[cs|] cands Hr _ IH]; [done|..]; unfold weights, sum in *; cbn; rewrite IH; [|done].
  by rewrite (Hr cs eq_refl).
Qed.

Lemma semantic_limits_run events :
  Forall untold initial → 0 ≤ max_records → 0 ≤ max_evidence →
  Forall (within (length initial)) events → in_order events →
  limited_run events events (apply_semantic_limits raw barrier starts max_records max_evidence initial events).
Proof.
  intros Hinit Hr He Hw Ho. apply (limit_events_run []); [|done|done|done].
  split; cbn [lm_candidates_by_root lm_handoffs lm_pending_renames lm_total_records lm_total_evidence]; try done.
  - intros i cs Hi. rewrite Forall_lookup in Hinit. by eapply Hinit.
  - by left.
  - by rewrite weights_initial.
  - rewrite weights_initial by done. unfold sum. cbn. lia.
Qed.
End Cut.


(** C15: a page of the native journal is cut without losing or inventing anything.  Given roots that have
    told nothing yet and events in the order of the journal whose counts fit the machine's integers,
    [apply_semantic_limits] returns a page made of a prefix of the events: each root that is still healthy has
    exactly the candidates of that prefix, in order, and the hand-offs and pending renames are exactly those
    of the prefix whose roots are all healthy.  Every event that is left out lies at or above the covered
    position, so a reader that goes on from there misses nothing.  The page stays within the limits on
    records and on evidence, a root fails here only for exceeding them, and the covered position is as far as
    the read and the uncertainty barrier allow, or that of the first event left out if the read reached it; in that case the
    page tells a record or that event lies above the start of a healthy root. *)
Theorem apply_semantic_limits_cuts raw barrier starts max_records max_evidence cands events :
  length starts = length cands → Forall untold cands →
  0 ≤ max_records → 0 ≤ max_evidence →
  Forall (λ e, within (length cands) e ∧ countable e) events → in_order events →
  ∃ page, apply_semantic_limits raw barrier starts max_records max_evidence cands events = Ok page ∧
    limited_page raw barrier starts max_records max_evidence cands events page.
Proof.
  intros Hs Hc Hr He Hall Ho. apply Forall_and in Hall as [Hw Hcount].
  pose proof (semantic_limits_run raw barrier starts max_records max_evidence cands Hs events Hc Hr He Hw Ho) as H.
  destruct (apply_semantic_limits _ _ _ _ _ _ _) as [page|halt]; [by exists page|]. by destruct H as [_ []].
Qed.

(** Three changes at 10, 11 and 12 of two roots; the page has room for two records. *)
Definition sample_change (usn : Z) (root : nat) : SemanticEvent :=
  push_candidate (event_at usn) root
    {| bc_volume_id := lit "v"; bc_absolute_path_utf16 := lit "C:\Docs\a"; bc_previous_absolute_path_utf16 := None;
       bc_file_reference := replicate 16 7; bc_usn := usn; bc_kind := KindPath; bc_is_directory := false |}.
Definition sample_changes : list SemanticEvent := [sample_change 10 0; sample_change 11 1; sample_change 12 0].

Lemma apply_semantic_limits_cuts_witness :
  ∃ page, apply_semantic_limits 20 None [10; 11] 2 4096 [Ok []; Ok []] sample_changes = Ok page ∧
    lm_covered_until_usn page = 12 ∧
    limited_page 20 None [10; 11] 2 4096 [Ok []; Ok []] sample_changes page.
Proof.
  destruct (apply_semantic_limits_cuts 20 None [10; 11] 2 4096 [Ok []; Ok []] sample_changes) as (page & Hp & Hl).
  - done.
  - repeat (apply Forall_cons; split; [by intros cs [= <-]|]). constructor.
  - lia.
  - lia.
  - repeat (apply Forall_cons; split; [split; [|split; by vm_compute]|]); [..|constructor];
      intros i Hi; unfold affected_roots in Hi; cbn in Hi; set_unfold in Hi; cbn; lia.
  - unfold in_order. repeat (constructor; cbn); lia.
  - exists page. split; [exact Hp|]. split; [|exact Hl]. vm_compute in Hp. by apply (inj Ok) in Hp as <-.
Defined.
