(* ===== verification/NativeReads.v ===== *)
(** * What the native reads promise

    For every behaviour of the operating system within [NativePortLaws], the reads of
    [journal_broker/windows/usn.rs] do not panic, and the pages they return have values of their types,
    indices of the roots that were asked about, and a barrier for each rename that they tell. *)

From stdpp Require Import sorting.
From S2P Require Import Prelude Text Order Effects WireBase WirePath Wire Contracts BrokerChecks Usn UsnPath.
From S2P Require Import ActiveRegistry Service ServiceAnswers PinnedRoots SemanticEvents NativeJournal SemanticLaws.
From S2P Require Import SemanticLimits.

(** What the operating system returns has the types of its interface. *)
Class NativePortLaws (W : Type) `{NativePorts W} : Prop := {
  read_usn_journal_law handle journal start cw bytes :
    (read_usn_journal handle journal start cw).1 = Ok bytes → Forall is_u8 bytes;
  query_usn_journal_law handle cw data :
    (query_usn_journal handle cw).1 = Ok data →
    is_u64 (ud_journal_id data) ∧ is_i64 (ud_first_usn data) ∧ is_i64 (ud_next_usn data);
  open_references_law w handle reference path :
    (open_references w).1 handle reference = Ok path → Forall is_u16 path;
}.

(** ** Paths *)

Lemma append_u16 path name path' :
  append_name path name = Ok path' → Forall is_u16 path → is_str name → Forall is_u16 path'.
Proof. unfold append_name. destruct (_ <? _); [done|]. intros [= <-]. apply push_name_u16. Qed.

Lemma historical_in records reference before_usn r :
  historical records (reference_histories records) reference before_usn = Some r → r ∈ records.
Proof.
  rewrite historical_records_of. intros H.
  assert (∀ f l, find f l = Some r → r ∈ l) as Hfind.
  { intros f l (_ & l1 & l2 & -> & _)%find_Some_split. apply elem_of_app. right. by left. }
  destruct (find _ (reverse _)) as [r'|] eqn:E.
  - simplify_eq. apply Hfind in E. rewrite elem_of_reverse in E. by apply list_elem_of_filter in E as [_ ?].
  - apply Hfind in H. by apply list_elem_of_filter in H as [_ ?].
Qed.

Section Resolution.
Context (records : list ParsedUsnRecord) (Hrecords : Forall wf_usn_record records).
Context (open_reference : FileReference → BackendResult (list Z)).
Context (Hopen : ∀ reference path, open_reference reference = Ok path → Forall is_u16 path).

Lemma resolved_u16 fuel reference before_usn visiting path v :
  resolve_reference_path_with records (reference_histories records) open_reference append_name fuel reference
    before_usn visiting = Some (Ok path, v) → Forall is_u16 path.
Proof.
  revert reference before_usn visiting path v. induction fuel as [|fuel IH]; intros reference before_usn visiting path v H; [done|].
  cbn [resolve_reference_path_with] in H. destruct (_ || _) in H; [done|].
  destruct (historical _ _ _ _) as [r|] eqn:Eh.
  - apply bind_Some in H as ([[parent|e] v1] & Hr & H); [|done].
    destruct (append_name parent (usn_name r)) as [p|] eqn:Ea; simplify_eq/=.
    eapply append_u16; [exact Ea|by eapply IH|]. apply historical_in in Eh. rewrite Forall_forall in Hrecords.
    destruct (Hrecords _ Eh) as [_ _ _ _ _ [Hs _ _ _] _]. exact Hs.
  - destruct (open_reference reference) as [p|] eqn:Eo; simplify_eq/=. by eapply Hopen.
Qed.
End Resolution.

Section Reads.
Context {W : Type} `{BrokerPorts W} `{HandlePorts W} `{NativePortLaws W}.

Lemma yields_any {E S A : Type} (m : S → Result E A * S) : yields (call m) (λ _, True).
Proof. by apply yields_call. Qed.

Lemma yields_in_context {E A : Type} (f : E → BackendError) (m : Run E W A) (P : A → Prop) :
  yields m P → yields (in_context f m) P.
Proof. intros Hm [context w]. specialize (Hm w). cbn. by destruct (m w) as [[a|[e|]] ?]. Qed.

Lemma yields_live root : yields (require_live_root root) (λ _, True).
Proof. apply yields_in_context, yields_revalidate. Qed.

(** ** Raw pages *)

Lemma retain_records_prefix size retained bytes records max_records max_evidence first raw :
  retain_records size retained bytes records max_records max_evidence = Ok (first, raw) →
  ∃ taken rest, records = taken ++ rest ∧ raw = retained ++ taken ∧
    first = (usn_usn <$> head rest).
Proof.
  revert retained bytes. induction records as [|r records IH]; intros retained bytes Hr; cbn [retain_records] in Hr.
  { simplify_eq. exists [], []. split_and!; [done|by rewrite app_nil_r|done]. }
  apply result_bind_Ok in Hr as (x & _ & Hr). apply result_bind_Ok in Hr as (y & _ & Hr).
  destruct (_ || _) in Hr; [simplify_eq; exists [], (r :: records); split_and!; [done|by rewrite app_nil_r|done]|].
  apply IH in Hr as (taken & rest & -> & -> & ->). exists (r :: taken), rest.
  split_and!; [done|by rewrite <-app_assoc|done].
Qed.

Lemma yields_buffer start end_ max_records max_evidence handle journal :
  yields (read_single_native_journal_buffer_with start end_ max_records max_evidence (read_usn_journal handle journal))
    (λ r, Forall wf_usn_record r.1).
Proof.
  unfold read_single_native_journal_buffer_with.
  eapply yields_bind; [apply yields_check|]. intros interval _.
  eapply yields_bind; [apply yields_call; intros cw bytes; apply read_usn_journal_law|]. intros bytes H8; cbv beta in H8.
  eapply yields_bind; [apply yields_expect, parsing_total|]. intros parsed Hparsed; cbv beta in Hparsed.
  eapply yields_bind; [apply yields_check|]. intros [next batch] Hbatch.
  destruct parsed as [p|e]; [|done]. apply (inj Ok) in Hbatch as ->. apply parsed_wf in Hparsed; [|done].
  eapply yields_bind; [apply yields_check|]. intros [first raw] Hraw.
  apply retain_records_prefix in Hraw as (taken & rest & Hsplit & -> & _).
  eapply yields_bind; [apply yields_check|]. intros _ _. apply yields_ret. cbn.
  rewrite Forall_forall in *. intros r Hr. apply Hparsed.
  assert (r ∈ taken ++ rest) as Hin by (apply elem_of_app; by left). rewrite <-Hsplit in Hin.
  by apply list_elem_of_filter in Hin as [_ ?].
Qed.

Lemma yields_query handle : yields (native_query_journal handle) wf_metadata.
Proof.
  unfold native_query_journal. eapply yields_bind; [apply yields_call; intros cw data; apply query_usn_journal_law|].
  intros data (? & ? & ?). eapply yields_bind; [apply yields_check|]. intros _ _.
  eapply yields_mono; [apply yields_check|]. intros m Hm. unfold ExistingJournalMetadata_from_query in Hm.
  unfold ExistingJournalMetadata_validate in Hm. destruct (_ || _) in Hm; simplify_eq. by split_and!.
Qed.

Lemma yields_raw_page handle journal range max_records max_evidence :
  yields (read_raw_journal_page handle journal range max_records max_evidence)
    (λ raw, Forall wf_usn_record (rj_records raw)).
Proof.
  unfold read_raw_journal_page. eapply yields_bind; [apply yields_any|]. intros _ _.
  eapply yields_bind; [apply yields_buffer|]. intros [records covered] Hr.
  eapply yields_bind; [apply yields_any|]. intros _ _.
  eapply yields_bind; [apply yields_query|]. intros after _.
  eapply yields_bind; [apply yields_check|]. intros proof _. by apply yields_ret.
Qed.

(** ** Resolved records *)

Lemma reference_u8 r : wf_usn_record r → Forall is_u8 (FileReference_bytes (usn_file_reference r)).
Proof.
  intros [Hs _ _ _ _ _ _]. unfold same_version in Hs.
  destruct (usn_file_reference r), (usn_parent_reference r); try done; by destruct Hs as [[? ?] _].
Qed.

Lemma dos_u16 root guid path :
  guid_path_to_dos compare_string_ordinal root guid = Ok path → Forall is_u16 guid →
  Forall is_u16 (ps_canonical_root_utf16 root) → Forall is_u16 path.
Proof.
  intros Hd Hg Hr. unfold guid_path_to_dos in Hd. apply result_bind_Ok in Hd as (b & _ & Hd). simplify_result.
  apply Forall_app. split; [by apply Forall_take|by apply Forall_drop].
Qed.

Lemma yields_resolve_record root records resolved record :
  Forall wf_usn_record records → wf_usn_record record → Forall is_u16 (ps_canonical_root_utf16 root) →
  Forall wf_resolved resolved →
  yields (resolve_record root records (reference_histories records) resolved record) (Forall wf_resolved).
Proof.
  intros Hrs Hr Hroot Hres. unfold resolve_record. eapply yields_bind; [apply yields_any|]. intros _ _.
  eapply yields_bind; [apply yields_check|]. intros handle _.
  eapply yields_bind.
  { apply (yields_observe _ (λ opened, ∀ h reference path, opened h reference = Ok path → Forall is_u16 path)).
    intros [context w] h reference path. pose proof (open_references_law w h reference path) as Hlaw.
    by destruct (open_references w). }
  intros opened Hopened; cbv beta in Hopened.
  eapply yields_bind with (P := Forall is_u16).
  { unfold native_reference_path. eapply yields_bind; [apply yields_expect, resolve_fuel; lia|].
    intros [r v] Hv; cbv beta in Hv. eapply yields_mono; [apply yields_check|]. intros guid Hguid.
    cbn in Hguid. destruct r as [p|e]; [|done]. apply (inj Ok) in Hguid as ->. eapply resolved_u16; [exact Hrs| |exact Hv]. apply Hopened. }
  intros guid Hguid. eapply yields_bind; [apply yields_check|]. intros parent Hparent; cbv beta in Hparent.
  eapply yields_bind; [apply yields_check|]. intros path Hpath; cbv beta in Hpath. apply yields_ret.
  apply Forall_app. split; [done|]. apply Forall_singleton. split_and!; cbn.
  - eapply append_u16; [done|by eapply dos_u16|]. by destruct Hr as [_ _ _ _ _ [? _ _ _] _].
  - by apply reference_u8.
  - destruct Hr as [_ [? ?] _ _ _ _ _]. unfold is_i64, is_sint. lia.
Qed.

Lemma yields_resolve root records :
  Forall wf_usn_record records → Forall is_u16 (ps_canonical_root_utf16 root) →
  yields (resolve_records root records) (Forall wf_resolved).
Proof.
  intros Hrs Hroot. apply yields_foldl_inv; [constructor|]. intros resolved r Hin Hres.
  apply yields_resolve_record; try done. rewrite Forall_forall in Hrs. auto.
Qed.

(** ** The roots of a shared read *)

Lemma yields_settle {A : Type} (r : Native A) (P : A → Prop) : settles r P → yields (settle (W := W) r) P.
Proof. by intros Hr w. Qed.

Section Shared.
Context (roots : list PinnedRootState) (starts : list Z) (Hstarts : length starts = length roots).
Context (Hroots : Forall (λ root, Forall is_u16 (ps_canonical_root_utf16 root)) roots).

Record reading_ok (st : SharedReading) : Prop := {
  ro_candidates : length (sg_candidates_by_root st) = length roots;
  ro_barriers : length (sg_rename_barriers_by_root st) = length roots;
  ro_untold : Forall untold (sg_candidates_by_root st);
}.

Lemma yields_open :
  yields (run_foldl open_root ([], None) roots) (λ st, length st.1 = length roots ∧ Forall untold st.1).
Proof.
  apply (yields_foldl _ (λ seen st, length st.1 = length seen ∧ Forall untold st.1)); [by split|].
  intros seen [cands handle] root _ [Hlen Hun]. cbn [fst] in *.
  eapply yields_bind; [apply yields_capture, yields_live|]. intros live _. apply yields_ret.
  destruct (live;; volume_handle root); cbn; rewrite !length_app; (split; [cbn; lia|]); apply Forall_app; (split; [done|]);
    apply Forall_singleton; by intros cs [= <-].
Qed.

Lemma settles_hold records i st :
  reading_ok st → (i < length roots)%nat → settles (hold_root records starts i st) reading_ok.
Proof.
  intros [Hc Hb Hu] Hi. unfold hold_root. eapply settles_bind; [apply settles_get; lia|]. intros start _.
  destruct (first_rename_usn_at_or_after records start) as [usn|]; [|by split].
  eapply settles_bind; [apply settles_set; lia|]. intros barriers ->. split; cbn; [done|by rewrite length_insert|done].
Qed.

Lemma settles_fail_root records i error st :
  reading_ok st → (i < length roots)%nat → settles (fail_root records starts i error st) reading_ok.
Proof.
  intros [Hc Hb Hu] Hi. unfold fail_root. eapply settles_bind; [apply settles_set; lia|]. intros cands ->.
  apply settles_hold; [|done]. split; cbn; [by rewrite length_insert|done|]. by apply Forall_insert.
Qed.

Lemma settles_unopened records st i :
  reading_ok st → (i < length roots)%nat → settles (hold_unopened records starts st i) reading_ok.
Proof.
  intros Hst Hi. unfold hold_unopened. rewrite healthy_at_Ok by (by rewrite (ro_candidates _ Hst)).
  cbn [mbind result_bind]. destruct (healthy _ _); [done|]. by apply settles_hold.
Qed.

Lemma yields_healthy st i :
  reading_ok st → (i < length roots)%nat → yields (settle (W := W) (healthy_at (sg_candidates_by_root st) i)) (λ _, True).
Proof. intros Hst Hi. apply yields_settle. by rewrite healthy_at_Ok by (by rewrite (ro_candidates _ Hst)). Qed.

Lemma yields_resolve_with records entries st :
  Forall wf_usn_record records → reading_ok st → Forall (λ entry, roots !! entry.1 = Some entry.2) entries →
  yields (resolve_with records starts entries st)
    (λ r, from_option (Forall wf_resolved) True r.1 ∧ reading_ok r.2).
Proof.
  intros Hrs Hst He. revert st Hst. induction He as [|[i root] entries Hi _ IH]; intros st Hst; cbn [resolve_with].
  { by apply yields_ret. }
  cbn [fst snd] in Hi. pose proof (lookup_lt_Some _ _ _ Hi) as Hlt.
  eapply yields_bind; [by apply yields_healthy|]. intros [] _; [|by apply IH].
  eapply yields_bind.
  { apply yields_capture. eapply yields_bind; [apply yields_live|]. intros _ _. apply yields_resolve; [done|].
    by eapply (proj1 (Forall_lookup _ _) Hroots). }
  intros [resolved|error] Hres; cbv beta in Hres; [by apply yields_ret; split; [apply Hres|]|].
  eapply yields_bind; [by apply yields_settle, settles_fail_root|]. intros st' Hst'. by apply IH.
Qed.

Lemma yields_recheck records st entry :
  reading_ok st → roots !! entry.1 = Some entry.2 → yields (recheck_root records starts st entry) reading_ok.
Proof.
  destruct entry as [i root]. cbn [fst snd]. intros Hst Hi. pose proof (lookup_lt_Some _ _ _ Hi) as Hlt. unfold recheck_root.
  eapply yields_bind; [by apply yields_healthy|]. intros [] _; [|by apply yields_ret].
  eapply yields_bind; [apply yields_capture, yields_live|]. intros [?|error] _; [by apply yields_ret|].
  by apply yields_settle, settles_fail_root.
Qed.

Lemma entries_at : Forall (λ entry, roots !! entry.1 = Some entry.2) (imap pair roots).
Proof. apply Forall_forall. intros [i root] (j & x & [= -> ->] & Hj)%elem_of_lookup_imap. done. Qed.

(** ** The page *)

Section Page.
Context (pending_renames : list NativePendingRenameCarry) (Hcarries : Forall (wf_native_carry (length roots)) pending_renames).

Record native_lawful (page : SharedBackendJournalPage) : Prop := {
  nl_lengths : length (sb_candidates_by_root page) = length roots ∧
               length (sb_rename_barriers_by_root page) = length roots;
  nl_candidates : Forall (λ r, match r with Ok cs => Forall wf_backend_candidate cs | Err _ => True end)
                    (sb_candidates_by_root page);
  nl_handoffs : Forall (handoff_ok (length roots) pending_renames (sb_rename_barriers_by_root page)) (sb_handoffs page);
  nl_pending : Forall (told_pending_ok (length roots) (sb_rename_barriers_by_root page)) (sb_pending_renames page);
}.

Lemma unread_lawful st : reading_ok st → native_lawful (unread_page st).
Proof.
  intros [Hc Hb Hu]. split; cbn; [done| |constructor..]. eapply Forall_impl; [exact Hu|].
  intros [cs|e] Hr; [|done]. by rewrite (Hr cs eq_refl).
Qed.

Lemma event_within barriers e : event_ok (length roots) pending_renames barriers e → within (length roots) e.
Proof.
  intros [Hc Hh Hp] i. unfold affected_roots. rewrite !elem_of_union. intros [[Hi|Hi]|Hi].
  - apply elem_of_list_to_set, list_elem_of_fmap in Hi as (entry & -> & Hin). rewrite Forall_forall in Hc. by apply Hc.
  - destruct (se_handoff e) as [h|]; [|done]. destruct (Hh h eq_refl) as [_ [Hcur Hprev] _ _ _].
    apply elem_of_union in Hi as [Hi|Hi%elem_of_singleton]; [|by subst].
    destruct (bh_previous_root_index h) as [j|]; [|done]. apply elem_of_singleton in Hi as ->. by apply Hprev.
  - destruct (se_pending e) as [p|]; [|done]. apply elem_of_singleton in Hi as ->. by destruct (Hp p eq_refl).
Qed.

Lemma events_sorted l : in_order (sort_by (compare_on Z.compare se_usn) l).
Proof.
  unfold in_order. pose proof (sort_by_sorted (compare_on Z.compare se_usn) l) as Hs.
  induction Hs as [|x l' _ IH Hall]; constructor; [done|]. eapply Forall_impl; [exact Hall|]. intros y Hxy.
  unfold cmp_le, compare_on in Hxy. by destruct (Z.compare_spec (se_usn x) (se_usn y)); try lia.
Qed.

Lemma taken_lawful raw barrier max_records max_evidence cands events barriers limited proof :
  limited_page raw barrier starts max_records max_evidence cands events limited → length cands = length roots →
  length barriers = length roots →
  Forall (event_ok (length roots) pending_renames barriers) events →
  native_lawful {| sb_candidates_by_root := lm_candidates_by_root limited; sb_handoffs := lm_handoffs limited;
                   sb_pending_renames := lm_pending_renames limited; sb_rename_barriers_by_root := barriers;
                   sb_proof := proof |}.
Proof.
  intros [(taken & rest & -> & [Hl Hc Hh Hp _ _ _ _] & _)] Hlen Hb [Hev _]%Forall_app. rewrite Forall_forall in Hev.
  split; cbn.
  - split; [congruence|done].
  - apply Forall_lookup. intros i [cs|e] Hi; [|done]. rewrite (Hc i cs Hi). apply Forall_forall. intros c Hin.
    unfold root_candidates, at_root in Hin. apply list_elem_of_bind in Hin as (e & Hin & He).
    apply list_elem_of_fmap in Hin as (entry & -> & [_ Hentry]%list_elem_of_filter).
    destruct (Hev e He) as [Hec _ _]. rewrite Forall_forall in Hec. by apply Hec.
  - rewrite Hh. apply Forall_forall. intros h [_ Hin]%list_elem_of_filter.
    apply list_elem_of_bind in Hin as (e & Hin & He). destruct (se_handoff e) as [h'|] eqn:E; [|by apply not_elem_of_nil in Hin].
    apply list_elem_of_singleton in Hin as ->. by apply (Hev e He).
  - rewrite Hp. apply Forall_forall. intros p [_ Hin]%list_elem_of_filter.
    apply list_elem_of_bind in Hin as (e & Hin & He). destruct (se_pending e) as [p'|] eqn:E; [|by apply not_elem_of_nil in Hin].
    apply list_elem_of_singleton in Hin as ->. by apply (Hev e He).
Qed.

Lemma yields_native_volume journal range limits :
  0 ≤ lim_max_records limits → 0 ≤ lim_max_evidence_bytes limits →
  yields (native_read_existing_journal_volume_page roots starts pending_renames journal range limits) native_lawful.
Proof.
  intros Hmr Hme. unfold native_read_existing_journal_volume_page.
  eapply yields_bind; [apply yields_check|]. intros _ _.
  eapply yields_bind; [apply yields_open|]. intros [cands handle] [Hlen Hun]. cbn [fst] in *.
  set (st0 := {| sg_candidates_by_root := cands |}).
  assert (reading_ok st0) as Hst0 by (split; cbn; [done|apply length_replicate|done]).
  destruct handle as [handle|]; [|by apply yields_ret, unread_lawful].
  eapply yields_bind; [apply yields_raw_page|]. intros raw Hraw; cbv beta in Hraw.
  eapply yields_bind.
  { apply yields_settle, (settles_foldl _ reading_ok); [exact Hst0|]. intros st i Hi Hst.
    apply elem_of_seq in Hi. apply settles_unopened; [done|lia]. }
  intros st1 Hst1. eapply yields_bind; [by apply yields_resolve_with; [..|apply entries_at]|].
  intros [resolved st2] [Hres Hst2]. cbn [fst snd] in *. destruct resolved as [resolved|]; [|by apply yields_ret, unread_lawful].
  eapply yields_bind.
  { apply (yields_foldl_inv _ reading_ok); [exact Hst2|]. intros st entry Hin Hst.
    apply yields_recheck; [done|]. pose proof entries_at as He. rewrite Forall_forall in He. auto. }
  intros st3 [Hc3 Hb3 Hu3].
  eapply yields_bind.
  { apply yields_settle, settles_semantic_events; [done|done| |exact Hres]. by split. }
  intros sm [Hc4 Hb4 Hu4 Hev4]. set (events := sort_by _ _).
  assert (Forall (event_ok (length roots) pending_renames (sm_rename_barriers_by_root sm)) events) as Hev
    by (unfold events; by rewrite sort_by_perm).
  eapply yields_bind.
  { apply yields_settle.
    pose proof (semantic_limits_run (jp_covered_until_usn (rj_proof raw)) (sm_uncertainty_barrier sm) starts
      (lim_max_records limits) (lim_max_evidence_bytes limits) (sm_candidates_by_root sm) ltac:(congruence) events Hu4 Hmr Hme) as Hlim.
    eapply (settles_mono _ (limited_page _ _ _ _ _ _ events)); [|intros limited; exact id].
    unfold limited_run in Hlim. destruct (apply_semantic_limits _ _ _ _ _ _ _); cbn; [apply Hlim|destruct Hlim as [-> _]; [| |done]].
    - rewrite Hc4. eapply Forall_impl; [exact Hev|]. apply event_within.
    - apply events_sorted.
    - rewrite Hc4. eapply Forall_impl; [exact Hev|]. apply event_within.
    - apply events_sorted. }
  intros limited Hlimited. eapply yields_bind with (P := λ _, True).
  { destruct (existsb _ _); [|by apply yields_ret]. eapply yields_bind; [apply yields_check|]. intros proof _. by apply yields_ret. }
  intros proof _. apply yields_ret. by eapply taken_lawful.
Qed.
End Page.
End Shared.
End Reads.
