(* ===== verification/WindowsSecurity.v ===== *)
(** * The Windows authorizer

    Models [WindowsPipeAuthorizer] and [WindowsBrokerSecurity] of [journal_broker/service/windows_security.rs]
    with [windows_security/disclosure.rs]: the roots registered on a connection, the leases on them, the
    budget all connections share, what a caller may use a root for, and which paths may be disclosed. *)

From stdpp Require Import sorting.
From S2P Require Import Prelude Text Effects WireBase WirePath Wire Contracts ActiveRegistry Service PinnedRoots.
From S2P Require Import Order BrokerChecks Usn UsnPath ServiceAnswers ServiceVolume VolumeSlots SemanticEvents.
From S2P Require Import NativeJournal SemanticLaws SemanticLimits NativeReads.
Import WirePath(NameComparisonSemantics, NormalizedWindowsPath, RootRelativeScope, Root, Relative,
  normalize_backend_path, scope_under_root, BACKSLASH, SLASH).

Definition MAX_REGISTERED_ROOTS_PER_CONNECTION : Z := 8.
Definition MAX_REGISTERED_ROOTS_GLOBAL : Z := 16.
Definition ROOT_CAPABILITY_LIFETIME : Z := 120 * 1000 * MILLISECOND.

(** ** The budget *)

Record RootBudgetState := { bg_active : Z; bg_limit : Z }.

Definition RootBudget_with_limit (limit : Z) : RootBudgetState := {| bg_active := 0; bg_limit := limit |}.
Definition RootBudget_production : RootBudgetState := RootBudget_with_limit MAX_REGISTERED_ROOTS_GLOBAL.

Definition try_acquire (budget : RootBudgetState) : AuthResult RootBudgetState :=
  if bg_limit budget <=? bg_active budget then Err AuthRootUnauthorized
  else Ok {| bg_active := bg_active budget + 1; bg_limit := bg_limit budget |}.

(** [Drop for RootRegistrationPermit] *)
Definition drop_permit (budget : RootBudgetState) : RootBudgetState :=
  {| bg_active := saturating_sub (bg_active budget) 1; bg_limit := bg_limit budget |}.

(** ** Registrations *)

(** [RootKey]: the id and the generation of a root. *)
Abbreviation RootKey := (str * Z)%type.

#[export] Instance RootCapability_eq_dec : EqDecision RootCapability.
Proof. solve_decision. Defined.

Record RegisteredRoot := {
  rg_capability : RootCapability;
  rg_pinned : PinnedRootState;
  rg_expires_at : Z;
}.

Abbreviation Registrations := (gmap RootKey RegisteredRoot).

(** The registrations of a connection, each with a permit of the budget. *)
Record RootLedger := { ld_registrations : Registrations; ld_budget : RootBudgetState }.

Definition registration_is_current (expires_at now : Z) : bool := now <? expires_at.

Definition is_current (now : Z) (entry : RootKey * RegisteredRoot) : Prop :=
  registration_is_current (rg_expires_at entry.2) now = true.
#[export] Instance is_current_dec now entry : Decision (is_current now entry).
Proof. unfold is_current. apply _. Defined.

(** [registrations.retain(..)]: what is dropped gives its permit back. *)
Definition reap_registrations (now : Z) (ledger : RootLedger) : RootLedger :=
  let kept := filter (is_current now) (ld_registrations ledger) in
  {| ld_registrations := kept;
     ld_budget := Nat.iter (size (ld_registrations ledger) - size kept) drop_permit (ld_budget ledger) |}.

Definition registration_capacity_available (current : Z) (is_replacement : bool) : bool :=
  is_replacement || (current <? MAX_REGISTERED_ROOTS_PER_CONNECTION).

(** [insert_registration] under the lock, at the instant [now]; a replacement takes over the permit. *)
Definition insert_registration (instant_max now : Z) (key : RootKey) (capability : RootCapability)
    (pinned : PinnedRootState) (ledger : RootLedger) : AuthResult unit * RootLedger :=
  let ledger := reap_registrations now ledger in
  let is_replacement := bool_decide (is_Some (ld_registrations ledger !! key)) in
  if negb (registration_capacity_available (Z.of_nat (size (ld_registrations ledger))) is_replacement)
  then (Err AuthRootUnauthorized, ledger)
  else if instant_max <? now + ROOT_CAPABILITY_LIFETIME then (Err AuthRootUnauthorized, ledger)
  else
    match (if is_replacement then Ok (ld_budget ledger) else try_acquire (ld_budget ledger)) with
    | Err error => (Err error, ledger)
    | Ok budget =>
      (Ok (), {| ld_registrations :=
                   <[key := {| rg_capability := capability; rg_pinned := pinned;
                               rg_expires_at := now + ROOT_CAPABILITY_LIFETIME |}]> (ld_registrations ledger);
                 ld_budget := budget |})
    end.

(** ** Connections *)

Record ConnectionSecurity := {
  cs_namespace : bytes;
  cs_client_process_identity : bytes;
  cs_observed_process_id : Z;
  cs_observed_session_id : Z;
}.

Class SecurityPorts (W : Type) := {
  (* the registrations of the connection and the budget it shares, each behind a mutex *)
  root_ledger : W → RootLedger;
  set_root_ledger : RootLedger → W → W;
  (* [WaitForSingleObject(..) == WAIT_TIMEOUT] on the client's process *)
  process_alive : W → bool * W;
  (* [DuplicateHandle] out of the client's process *)
  duplicate_handle : Z → W → option Z * W;
  (* [ImpersonateLoggedOnUser] and [RevertToSelf] *)
  impersonate_user : W → bool * W;
  revert_to_self : W → bool * W;
  (* [NtCreateFile] on a held directory, for listing *)
  reopen_for_listing : Z → W → option Z * W;
  (* [blake3::Hasher::new_keyed(key)], updated and finalized *)
  blake3_keyed : bytes → bytes → bytes;
}.

Section Security.
Context {W : Type} `{BrokerPorts W} `{HandlePorts W} `{SecurityPorts W}.
Abbreviation Secured := (Run WindowsSecurityError W).
Abbreviation Authorized := (Run AuthorizerError (RequestContext * W)).

(** Calls into the operating system from an operation that has the request's context. *)
Definition authorized {E A : Type} (f : E → AuthorizerError) (m : Run E W A) : Authorized A := λ '(context, w),
  let '(r, w) := m w in
  (match r with Ok a => Ok a | Err (Failed e) => Err (Failed (f e)) | Err Panicked => Err Panicked end, (context, w)).

(** The registrations under their lock, reaped at the present instant. *)
Definition with_registrations {A : Type} (f : Z → RootLedger → A * RootLedger) : W → A * W := λ w,
  let w := others w in
  let '(now, w) := instant_now w in
  let '(a, ledger) := f now (root_ledger w) in
  (a, set_root_ledger ledger w).

(** ** The client's process *)

Definition ensure_alive : Secured unit :=
  alive ← observe process_alive; check (fail_if (negb alive) SecCallerRejected).

Definition duplicate_root_handle (client_handle : Z) : Secured Z :=
  check (fail_if ((client_handle =? 0) || (client_handle =? INVALID_HANDLE_VALUE)) SecRootRejected);;
  ensure_alive;;
  duplicate ← observe (duplicate_handle client_handle);
  duplicate ← check (ok_or duplicate SecRootRejected);
  check (OwnedFileHandle_new duplicate).

Definition OwnedToken_impersonate {A : Type} (operation : Secured A) : Secured A :=
  impersonated ← observe impersonate_user;
  check (fail_if (negb impersonated) SecImpersonationFailed);;
  result ← capture operation;
  reverted ← observe revert_to_self;
  check (fail_if (negb reverted) SecRevertFailed);;
  check result.

Definition ConnectionSecurity_impersonate {A : Type} (action : Secured A) : Secured A :=
  ensure_alive;;
  result ← capture (OwnedToken_impersonate action);
  ensure_alive;;
  check result.

(** ** Disclosure *)

Definition listable_directory (directory : Z) : Secured Z :=
  raw ← observe (reopen_for_listing directory);
  raw ← check (ok_or raw SecRootRejected);
  handle ← check (OwnedFileHandle_new raw);
  reject_reparse_handle handle;;
  mret handle.

Definition open_listable_directory (path : str) : Secured Z :=
  metadata ← open_directory_handle (encode_utf16 path);
  listable_directory metadata.

Definition verify_handle_under_root (handle : Z) (normalized_root : NormalizedWindowsPath)
    (root_comparisons : list NameComparisonSemantics) : Secured unit :=
  final ← final_path handle DosForm;
  final ← check (strip_extended_dos_prefix final);
  normalized ← check (root_rejected (normalize_backend_path final));
  scope ← check (root_rejected (scope_under_root compare_string_ordinal normalized normalized_root root_comparisons));
  check (fail_if (bool_decide (scope = None)) SecRootRejected).

Inductive CandidateProbe := ProbeAccessible | ProbeMissing.

Section Probe.
Context (probe_ancestor : str → Secured unit) (probe_candidate : str → Secured CandidateProbe).

(** The components above the last, each probed with the path so far. *)
Fixpoint probe_ancestors (current : str) (components : list str) : Secured str :=
  match components with
  | [] => mret current
  | component :: components =>
    let current := current ++ [BACKSLASH] ++ component in
    probe_ancestor current;;
    probe_ancestors current components
  end.

Definition probe_disclosable_scope_with (root_path : str) (scope : RootRelativeScope) : Secured bool :=
  probe_ancestor root_path;;
  match scope with
  | Root => mret true
  | Relative relative =>
    let components := split_on SLASH relative in
    check (fail_if (is_empty components || existsb is_empty components) SecRootRejected);;
    current ← probe_ancestors root_path (take (length components - 1) components);
    name ← check (ok_or (last components) SecRootRejected);
    probe ← probe_candidate (current ++ [BACKSLASH] ++ name);
    mret match probe with ProbeAccessible | ProbeMissing => true end
  end.
End Probe.

Definition probe_disclosable_scope (root_path : str) (normalized_root : NormalizedWindowsPath)
    (root_comparisons : list NameComparisonSemantics) (scope : RootRelativeScope) : Secured bool :=
  probe_disclosable_scope_with
    (λ path, handle ← open_listable_directory path; verify_handle_under_root handle normalized_root root_comparisons)
    (λ path,
      opened ← capture (open_metadata_handle (encode_utf16 path));
      match opened with
      | Ok handle => verify_handle_under_root handle normalized_root root_comparisons;; mret ProbeAccessible
      | Err SecPathMissing => mret ProbeMissing
      | Err error => check (Err error)
      end)
    root_path scope.

(** ** The authorizer *)

Section Authorizer.
Context (self : option ConnectionSecurity).

Definition windows_reap_expired (now : Z) (w : W) : W :=
  match self with
  | None => w
  | Some _ => let w := others w in set_root_ledger (reap_registrations now (root_ledger w)) w
  end.

Definition windows_verify_claim (authenticated : AuthenticatedConnection) (claim : CallerClaim)
    : Run AuthorizerError W CallerAuthorization :=
  security ← check (ok_or self AuthCallerRejected);
  alive ← capture ensure_alive;
  check (map_err (λ _, AuthCallerRejected) alive);;
  check (fail_if (negb (bool_decide (ac_opaque_token_binding authenticated = cs_namespace security))
                  || negb (bool_decide (ac_observed_client_process_identity authenticated
                                        = cs_client_process_identity security))
                  || negb (ac_observed_process_id authenticated =? cs_observed_process_id security)
                  || negb (ac_observed_session_id authenticated =? cs_observed_session_id security))
                 AuthCallerRejected);;
  check (CallerAuthorization_from_verified_claim authenticated claim).

Definition duplicate_and_pin_client_root (client_root_handle : Z) (root : RootAuthorization)
    : Secured PinnedRootState :=
  duplicated ← duplicate_root_handle client_root_handle;
  pinned ← pin_root_handle root duplicated;
  ConnectionSecurity_impersonate (listable_directory (ps_root_handle pinned));;
  mret pinned.

(** What the capability is a keyed hash of. *)
Definition capability_message (security : ConnectionSecurity) (caller : CallerAuthorization)
    (root : RootAuthorization) (client_root_handle : Z) : bytes :=
  as_bytes (lit "cedarflake-ame-root-capability-v1") ++ [0]
  ++ ca_connection_id caller ++ le_bytes 8 (ca_connection_generation caller)
  ++ ca_client_instance caller ++ cs_client_process_identity security
  ++ as_bytes (root_root_id root) ++ le_bytes 8 (root_root_generation root)
  ++ as_bytes (root_volume_id root) ++ root_root_identity root
  ++ le_bytes 8 client_root_handle.

Definition root_key (root : RootAuthorization) : RootKey := (root_root_id root, root_root_generation root).

Definition unauthorized {E A : Type} (m : ContextPort W (Result E A)) : Authorized A :=
  ask (λ _, AuthRootUnauthorized) m.

Definition windows_register_root (caller : CallerAuthorization) (root : RootAuthorization)
    (client_root_handle : Z) : Authorized RootCapability :=
  check (fail_if (client_root_handle =? 0) AuthRootUnauthorized);;
  security ← check (ok_or self AuthRootUnauthorized);
  check (fail_if (negb (bool_decide (ca_opaque_namespace caller = cs_namespace security))) AuthRootUnauthorized);;
  unauthorized context_bounded_step;;
  pinned ← authorized (λ error, match error with
                                | SecUnsupportedFilesystem => AuthUnsupportedFilesystem
                                | _ => AuthRootIdentityMismatch
                                end) (duplicate_and_pin_client_root client_root_handle root);
  volume ← authorized (λ _, AuthRootIdentityMismatch) (open_volume_handle (ps_volume_open_path pinned));
  let pinned := {| ps_root_handle := ps_root_handle pinned;
                   ps_volume_handle := Some volume;
                   ps_volume_id := ps_volume_id pinned;
                   ps_volume_open_path := ps_volume_open_path pinned;
                   ps_root_identity := ps_root_identity pinned;
                   ps_canonical_root_utf16 := ps_canonical_root_utf16 pinned;
                   ps_component_semantics := ps_component_semantics pinned |} in
  let capability := {| capability_bytes := blake3_keyed (cs_namespace security)
                         (capability_message security caller root client_root_handle) |} in
  authorized id (call (with_registrations (λ now,
    insert_registration instant_max now (root_key root) capability pinned)));;
  unauthorized context_check;;
  mret capability.

(** [registrations.get(&key).filter(..)] after reaping *)
Definition find_registration (key : RootKey) (accept : RegisteredRoot → bool) (now : Z) (ledger : RootLedger)
    : option PinnedRootState * RootLedger :=
  let ledger := reap_registrations now ledger in
  (registration ← ld_registrations ledger !! key;
   if accept registration then Some (rg_pinned registration) else None, ledger).

Definition windows_authorize_registered_root (caller : CallerAuthorization) (root : RootAuthorization)
    (capability : RootCapability) : Authorized AuthorizedPinnedRoot :=
  check (ok_or self AuthRootUnauthorized);;
  pinned ← authorized id (observe (with_registrations (find_registration (root_key root)
             (λ registration, bool_decide (rg_capability registration = capability)))));
  pinned ← check (ok_or pinned AuthRootUnauthorized);
  unauthorized context_bounded_step;;
  check (fail_if (negb (bool_decide (ps_volume_id pinned = root_volume_id root))
                  || negb (bool_decide (ps_root_identity pinned = root_root_identity root))
                  || negb (bool_decide (ps_canonical_root_utf16 pinned = root_canonical_root_utf16 root)))
                 AuthRootIdentityMismatch);;
  authorized (λ _, AuthRootIdentityMismatch) (revalidate_identity pinned);;
  semantics ← check (RootNameSemanticsProof_from_pinned_directory_handles (ps_component_semantics pinned));
  proof ← check (map_err (λ _, AuthRootIdentityMismatch)
            (PinnedBrokerRoot_from_caller_pinned_handle (ps_volume_id pinned) (ps_root_identity pinned)
               (ps_canonical_root_utf16 pinned) semantics));
  declared ← check (DeclaredRootAuthorization_after_access_check caller root);
  check (AuthorizedPinnedRoot_after_identity_check caller declared proof).

(** The scopes of the paths of a candidate below the root. *)
Definition candidate_scopes (normalized_root : NormalizedWindowsPath) (comparisons : list NameComparisonSemantics)
    (candidate : BackendJournalCandidate) : AuthResult (list RootRelativeScope) :=
  result_foldl (λ scopes path,
    normalized ← map_err (λ _, AuthRootIdentityMismatch) (normalize_backend_path path);
    scope ← map_err (λ _, AuthRootIdentityMismatch)
              (scope_under_root compare_string_ordinal normalized normalized_root comparisons);
    Ok (scopes ++ option_list scope)) []
    (bc_absolute_path_utf16 candidate :: option_list (bc_previous_absolute_path_utf16 candidate)).

(** [for scope in &scopes { if !probe_disclosable_scope(..)? { return Ok(false); } } Ok(true)] *)
Fixpoint all_disclosable (root_path : str) (normalized_root : NormalizedWindowsPath)
    (comparisons : list NameComparisonSemantics) (scopes : list RootRelativeScope) : Secured bool :=
  match scopes with
  | [] => mret true
  | scope :: scopes =>
    visible ← probe_disclosable_scope root_path normalized_root comparisons scope;
    if (visible : bool) then all_disclosable root_path normalized_root comparisons scopes else mret false
  end.

(** One iteration over the candidates. *)
Definition disclose_candidate (root : AuthorizedPinnedRoot) (normalized_root : NormalizedWindowsPath)
    (root_path : str) (disclosable : list BackendJournalCandidate) (candidate : BackendJournalCandidate)
    : Authorized (list BackendJournalCandidate) :=
  let comparisons := ns_components (pb_name_semantics (ap_pinned_root root)) in
  unauthorized context_bounded_step;;
  if negb (bool_decide (bc_volume_id candidate = pb_volume_id (ap_pinned_root root))) then mret disclosable
  else
    scopes ← check (candidate_scopes normalized_root comparisons candidate);
    if is_empty scopes then mret disclosable
    else
      visible ← authorized (λ _, AuthRootUnauthorized)
                  (ConnectionSecurity_impersonate (all_disclosable root_path normalized_root comparisons scopes));
      mret (if (visible : bool) then disclosable ++ [candidate] else disclosable).

Definition windows_filter_disclosable_candidates (root : AuthorizedPinnedRoot)
    (candidates : list BackendJournalCandidate) : Authorized (list BackendJournalCandidate) :=
  security ← check (ok_or self AuthRootUnauthorized);
  check (fail_if (negb (bool_decide (ca_opaque_namespace (ap_caller root) = cs_namespace security)))
                 AuthRootUnauthorized);;
  normalized_root ← check (map_err (λ _, AuthRootIdentityMismatch)
                             (normalize_backend_path (pb_canonical_root_utf16 (ap_pinned_root root))));
  root_path ← check (ok_or (from_utf16 (pb_canonical_root_utf16 (ap_pinned_root root))) AuthRootIdentityMismatch);
  run_foldl (disclose_candidate root normalized_root root_path) [] candidates.

End Authorizer.

(** [WindowsBrokerSecurity::pinned_root] *)
Definition pinned_root (self : ConnectionSecurity) (root : AuthorizedPinnedRoot) : Secured PinnedRootState :=
  let declared := ap_declared_root root in
  check (fail_if (negb (bool_decide (ca_opaque_namespace (ap_caller root) = cs_namespace self))
                  || negb (bool_decide (pb_volume_id (ap_pinned_root root) = root_volume_id declared))
                  || negb (bool_decide (pb_root_identity (ap_pinned_root root) = root_root_identity declared)))
                 SecRootRejected);;
  pinned ← observe (with_registrations (find_registration (root_key declared) (λ registration,
             let pinned := rg_pinned registration in
             bool_decide (ps_volume_id pinned = root_volume_id declared)
             && bool_decide (ps_root_identity pinned = root_root_identity declared)
             && bool_decide (ps_canonical_root_utf16 pinned = root_canonical_root_utf16 declared))));
  check (ok_or pinned SecRootRejected).
End Security.

(** * The journal backend *)

Section Backend.
Context {W : Type} `{BrokerPorts W} `{HandlePorts W} `{NativePorts W} `{SecurityPorts W}.
Context (security : ConnectionSecurity).
Abbreviation Reading := (Run BackendError (RequestContext * W)).

(** [self.security.pinned_root(root).map_err(|_| BackendError::RootUnavailable)?] *)
Definition backend_root (root : AuthorizedPinnedRoot) : Reading PinnedRootState :=
  in_context (λ _, BackendRootUnavailable) (pinned_root security root).

Definition windows_query_existing_journal (root : AuthorizedPinnedRoot) : Reading ExistingJournalState :=
  bounded_step;;
  root ← backend_root root;
  metadata ← native_query_existing_journal root;
  mret (JournalSupported metadata).

(** The page is only touched by the read itself. *)
Definition windows_read_existing_journal_page (root : AuthorizedPinnedRoot) (journal : ExistingJournalMetadata)
    (range : JournalRange) (page : BoundedJournalPageBuilder)
    : Reading (BackendResult JournalReadProof * BoundedJournalPageBuilder) :=
  opened ← capture (bounded_step;; backend_root root);
  match opened with
  | Err error => mret (Err error, page)
  | Ok root => native_read_existing_journal_page root journal range page
  end.

(** [pending.root.as_ref().and_then(|root| self.security.pinned_root(root).ok())] *)
Definition carried_root (root : option AuthorizedPinnedRoot) : Reading (option PinnedRootState) :=
  match root with
  | None => mret None
  | Some root =>
    pinned ← capture (backend_root root);
    mret match pinned with Ok pinned => Some pinned | Err _ => None end
  end.

Definition native_carry (carries : list NativePendingRenameCarry) (pending : BackendPendingRenameCarry)
    : Reading (list NativePendingRenameCarry) :=
  root ← carried_root (bpc_root pending);
  mret (carries ++ [{| np_root := root;
                       np_read_root_index := bpc_read_root_index pending;
                       np_file_reference := bpc_file_reference pending;
                       np_old_usn := bpc_old_usn pending;
                       np_previous_relative_path := bpc_previous_relative_path pending;
                       np_is_directory := bpc_is_directory pending |}]).

Definition windows_read_existing_journal_volume_page (request : ExistingJournalVolumeRead)
    : Reading SharedBackendJournalPage :=
  roots ← run_foldl (λ roots root, pinned ← backend_root root; mret (roots ++ [pinned])) [] (ev_roots request);
  pending_renames ← run_foldl native_carry [] (ev_pending_renames request);
  native_read_existing_journal_volume_page roots (ev_root_start_usns request) pending_renames (ev_journal request)
    (ev_range request) (ev_limits request).
End Backend.

(** ** The ports of the Windows host *)

(** A run as a port.  [unreached] stands for a panic, which the runs below are shown not to reach. *)
Definition port {E S A : Type} (unreached : E) (m : Run E S A) : S → Result E A * S := λ s,
  let '(r, s) := m s in
  (match r with Ok a => Ok a | Err (Failed e) => Err e | Err Panicked => Err unreached end, s).

Section Ports.
Context {W : Type} (base : BrokerPorts W) `{HandlePorts W} `{NativePorts W} `{SecurityPorts W}.
Context (security : ConnectionSecurity).

(** The registry and the clock are those of [base]; the authorizer and the backend are the Windows ones. *)
Definition windows_ports : BrokerPorts W := {|
  active_registry := @active_registry W base;
  set_active_registry := @set_active_registry W base;
  others := @others W base;
  request_iter := @request_iter W base;
  compare_string_ordinal := @compare_string_ordinal W base;
  instant_now := @instant_now W base;
  instant_max := @instant_max W base;
  authorizer_reap_expired := windows_reap_expired (Some security);
  verify_claim := λ authenticated claim,
    port AuthCallerRejected (windows_verify_claim (Some security) authenticated claim);
  authorizer_register_root := λ caller root handle,
    port AuthRootUnauthorized (windows_register_root (Some security) caller root handle);
  authorize_registered_root := λ caller root capability,
    port AuthRootUnauthorized (windows_authorize_registered_root (Some security) caller root capability);
  filter_disclosable_candidates := λ root candidates,
    port AuthRootUnauthorized (windows_filter_disclosable_candidates (Some security) root candidates);
  query_existing_journal := λ root, port BackendErrorUnavailable (windows_query_existing_journal security root);
  read_existing_journal_page := λ root journal range page cw,
    match port BackendErrorUnavailable (windows_read_existing_journal_page security root journal range page) cw with
    | (Ok answer, cw) => (answer, cw)
    | (Err error, cw) => ((Err error, page), cw)
    end;
  read_existing_journal_volume_page := λ request,
    port BackendErrorUnavailable (windows_read_existing_journal_volume_page security request);
|}.
End Ports.
