(* ===== verification/WindowsLaws.v ===== *)
(** * The Windows host keeps the contract of the service

    Shows that the operations of the Windows authorizer and backend do not panic, and that what they return
    satisfies [BrokerPortLaws] and [VolumePortLaws]. *)

From stdpp Require Import sorting.
From S2P Require Import Prelude Text Order Effects WireBase WirePath Wire Contracts BrokerChecks Usn UsnPath.
From S2P Require Import ActiveRegistry Service ServiceAnswers ServiceVolume VolumeSlots PinnedRoots SemanticEvents.
From S2P Require Import NativeJournal SemanticLaws SemanticLimits NativeReads WindowsSecurity.

(** The stored paths and the hash have their types. *)
Class SecurityPortLaws (W : Type) `{SecurityPorts W} : Prop := {
  root_ledger_law w key registration :
    ld_registrations (root_ledger w) !! key = Some registration →
    Forall is_u16 (ps_canonical_root_utf16 (rg_pinned registration));
  blake3_keyed_law key message : is_array 32 (blake3_keyed key message);
}.

Section Laws.
Context {W : Type} `{BrokerPorts W} `{HandlePorts W} `{NativePorts W} `{!NativePortLaws W} `{SecurityPorts W}.
Context `{!SecurityPortLaws W}.

(** ** Running *)

Lemma yields_sees {E S A : Type} (m : S → A * S) : yields (observe m : Run E S A) (λ _, True).
Proof. by apply yields_observe. Qed.

Lemma yields_checks {E S A : Type} (r : Result E A) : yields (check r : Run E S A) (λ _, True).
Proof. eapply yields_mono; [apply yields_check|done]. Qed.

Lemma yields_then {E S A B : Type} (m : Run E S A) (f : A → Run E S B) (P : B → Prop) :
  yields m (λ _, True) → (∀ a, yields (f a) P) → yields (m ≫= f) P.
Proof. intros Hm Hf. eapply yields_bind; [exact Hm|]. auto. Qed.

Lemma yields_authorized {E A : Type} (f : E → AuthorizerError) (m : Run E W A) (P : A → Prop) :
  yields m P → yields (authorized f m) P.
Proof. intros Hm [context w]. specialize (Hm w). cbn. by destruct (m w) as [[a|[e|]] ?]. Qed.

Lemma yields_unauthorized {E A : Type} (m : ContextPort W (Result E A)) : yields (unauthorized m) (λ _, True).
Proof. by apply yields_ask. Qed.

Lemma port_Ok {E S A : Type} (e : E) (m : Run E S A) (P : A → Prop) s a :
  yields m P → (port e m s).1 = Ok a → P a.
Proof. intros Hm. specialize (Hm s). unfold port. destruct (m s) as [[x|[?|]] ?]; cbn in *; [by intros [= <-]|done..]. Qed.

(** ** The authorizer *)

Lemma yields_alive : yields (ensure_alive (W := W)) (λ _, True).
Proof. eapply yields_then; [apply yields_sees|]. intros alive. apply yields_checks. Qed.

Lemma yields_impersonated {A : Type} (m : Run WindowsSecurityError W A) :
  yields m (λ _, True) → yields (ConnectionSecurity_impersonate m) (λ _, True).
Proof.
  intros Hm. eapply yields_then; [apply yields_alive|]. intros _. eapply yields_bind; [apply yields_capture|].
  - eapply yields_then; [apply yields_sees|]. intros impersonated. eapply yields_then; [apply yields_checks|]. intros _.
    eapply yields_bind; [by apply yields_capture|]. intros result _. eapply yields_then; [apply yields_sees|]. intros reverted.
    eapply yields_then; [apply yields_checks|]. intros _. apply yields_checks.
  - intros result _. eapply yields_then; [apply yields_alive|]. intros _. apply yields_checks.
Qed.

Lemma yields_listable directory : yields (listable_directory (W := W) directory) (λ _, True).
Proof.
  eapply yields_then; [apply yields_sees|]. intros raw. eapply yields_then; [apply yields_checks|]. intros handle.
  eapply yields_then; [apply yields_checks|]. intros owned. eapply yields_then; [apply yields_reparse|]. intros _.
  by apply yields_ret.
Qed.

Lemma yields_verify_claim security authenticated claim :
  yields (windows_verify_claim (W := W) (Some security) authenticated claim)
    (λ caller, CallerAuthorization_from_verified_claim authenticated claim = Ok caller).
Proof.
  eapply yields_bind; [apply yields_check|]. intros security' _.
  eapply yields_bind; [apply yields_capture, yields_alive|]. intros alive _.
  eapply yields_then; [apply yields_checks|]. intros _. eapply yields_then; [apply yields_checks|]. intros _. apply yields_check.
Qed.

Lemma yields_duplicate_and_pin handle root :
  yields (duplicate_and_pin_client_root (W := W) handle root) (pins root).
Proof.
  eapply yields_then.
  { eapply yields_then; [apply yields_checks|]. intros _. eapply yields_then; [apply yields_alive|]. intros _.
    eapply yields_then; [apply yields_sees|]. intros raw. eapply yields_then; [apply yields_checks|]. intros duplicate.
    apply yields_checks. }
  intros duplicated. eapply yields_bind; [apply yields_pin|]. intros pinned [Hp _].
  eapply yields_then; [apply yields_impersonated, yields_listable|]. intros _. by apply yields_ret.
Qed.

Lemma yields_register security caller root handle :
  yields (windows_register_root (W := W) (Some security) caller root handle) wf_capability.
Proof.
  unfold windows_register_root. eapply yields_then; [apply yields_checks|]. intros _.
  eapply yields_then; [apply yields_checks|]. intros security'. eapply yields_then; [apply yields_checks|]. intros _.
  eapply yields_then; [apply yields_unauthorized|]. intros _.
  eapply yields_bind; [apply yields_authorized, yields_duplicate_and_pin|]. intros pinned _.
  eapply yields_then.
  { apply yields_authorized. eapply yields_then; [apply yields_checks|]. intros path.
    eapply yields_then; [apply yields_sees|]. intros [raw ?]. apply yields_checks. }
  intros volume. eapply yields_then; [apply yields_authorized, yields_any|]. intros _.
  eapply yields_then; [apply yields_unauthorized|]. intros _. apply yields_ret. apply blake3_keyed_law.
Qed.

Lemma yields_find {E : Type} key accept :
  yields (observe (with_registrations (find_registration key accept)) : Run E W _)
    (λ found, ∀ pinned, found = Some pinned → Forall is_u16 (ps_canonical_root_utf16 pinned)).
Proof.
  apply yields_observe. intros w pinned. unfold with_registrations, find_registration.
  destruct (instant_now (others w)) as [now w1] eqn:E1. cbn [fst ld_registrations reap_registrations].
  intros (registration & Hr & Ha)%bind_Some. destruct (accept registration); [|done]. apply (inj Some) in Ha as <-.
  apply map_lookup_filter_Some in Hr as [Hr _]. by eapply root_ledger_law.
Qed.

Lemma yields_authorize security caller root capability :
  yields (windows_authorize_registered_root (W := W) (Some security) caller root capability) (λ _, True).
Proof.
  unfold windows_authorize_registered_root. eapply yields_then; [apply yields_checks|]. intros _.
  eapply yields_then; [apply yields_authorized, yields_sees|]. intros found.
  eapply yields_then; [apply yields_checks|]. intros pinned. eapply yields_then; [apply yields_unauthorized|]. intros _.
  eapply yields_then; [apply yields_checks|]. intros _. eapply yields_then; [apply yields_authorized, yields_revalidate|]. intros _.
  eapply yields_then; [apply yields_checks|]. intros semantics. eapply yields_then; [apply yields_checks|]. intros proof.
  eapply yields_then; [apply yields_checks|]. intros declared. apply yields_checks.
Qed.

(** ** Disclosure *)

Lemma yields_under_root handle root comparisons :
  yields (verify_handle_under_root (W := W) handle root comparisons) (λ _, True).
Proof.
  eapply yields_bind; [apply yields_final_path|]. intros final _. do 3 (eapply yields_then; [apply yields_checks|]; intros ?).
  apply yields_checks.
Qed.

Lemma yields_metadata path : yields (open_metadata_handle (W := W) path) (λ _, True).
Proof.
  eapply yields_then; [apply yields_checks|]. intros terminated. eapply yields_then; [apply yields_sees|]. intros [raw last].
  eapply yields_then; [apply yields_checks|]. intros _. eapply yields_then; [apply yields_checks|]. intros handle.
  eapply yields_then; [apply yields_reparse|]. intros _. by apply yields_ret.
Qed.

Lemma yields_probe_ancestors probe current components :
  (∀ path, yields (probe path : Run WindowsSecurityError W unit) (λ _, True)) →
  yields (probe_ancestors probe current components) (λ _, True).
Proof.
  intros Hp. revert current. induction components as [|component rest IH]; intros current; cbn [probe_ancestors].
  - by apply yields_ret.
  - eapply yields_then; [apply Hp|]. intros _. apply IH.
Qed.

Lemma yields_probe root_path normalized comparisons scope :
  yields (probe_disclosable_scope (W := W) root_path normalized comparisons scope) (λ _, True).
Proof.
  set (ancestor := λ path : str, handle ← open_listable_directory path; verify_handle_under_root handle normalized comparisons).
  assert (∀ path, yields (ancestor path : Run WindowsSecurityError W unit) (λ _, True)) as Ha.
  { intros path. eapply yields_then; [|intros handle; apply yields_under_root].
    eapply yields_then; [apply yields_directory|]. intros metadata. apply yields_listable. }
  unfold probe_disclosable_scope, probe_disclosable_scope_with. eapply yields_then; [apply Ha|]. intros _.
  destruct scope as [|relative]; [by apply yields_ret|]. eapply yields_then; [apply yields_checks|]. intros _.
  eapply yields_then; [by apply yields_probe_ancestors|]. intros current. eapply yields_then; [apply yields_checks|]. intros name.
  eapply yields_then; [|intros probe; by apply yields_ret].
  eapply yields_bind; [apply yields_capture, yields_metadata|]. intros [handle|error] _.
  - eapply yields_then; [apply yields_under_root|]. intros _. by apply yields_ret.
  - destruct error; first [by apply yields_ret|apply yields_checks].
Qed.

Lemma yields_all_disclosable root_path normalized comparisons scopes :
  yields (all_disclosable (W := W) root_path normalized comparisons scopes) (λ _, True).
Proof.
  induction scopes as [|scope scopes IH]; cbn [all_disclosable]; [by apply yields_ret|].
  eapply yields_then; [apply yields_probe|]. intros []; [done|]. by apply yields_ret.
Qed.

Lemma yields_windows_disclose root normalized root_path seen disclosable candidate :
  disclosable `sublist_of` seen →
  yields (disclose_candidate (W := W) root normalized root_path disclosable candidate)
    (λ kept, kept `sublist_of` (seen ++ [candidate])).
Proof.
  intros Hs. assert (disclosable `sublist_of` (seen ++ [candidate])) as Hskip by (by apply sublist_inserts_r).
  unfold disclose_candidate. eapply yields_then; [apply yields_unauthorized|]. intros _.
  destruct (negb _); [by apply yields_ret|]. eapply yields_then; [apply yields_checks|]. intros scopes.
  destruct (is_empty scopes); [by apply yields_ret|].
  eapply yields_then; [apply yields_authorized, yields_impersonated, yields_all_disclosable|]. intros visible.
  apply yields_ret. destruct visible; [|done]. by apply sublist_app.
Qed.

Lemma yields_filter security root candidates :
  yields (windows_filter_disclosable_candidates (W := W) (Some security) root candidates)
    (λ disclosable, disclosable `sublist_of` candidates).
Proof.
  unfold windows_filter_disclosable_candidates. do 4 (eapply yields_then; [apply yields_checks|]; intros ?).
  apply (yields_foldl _ (λ seen disclosable, disclosable `sublist_of` seen)); [done|].
  intros seen disclosable candidate _. apply yields_windows_disclose.
Qed.

(** ** The backend *)

Context (security : ConnectionSecurity).

Lemma yields_backend_root root :
  yields (backend_root security root) (λ pinned, Forall is_u16 (ps_canonical_root_utf16 pinned)).
Proof.
  apply yields_in_context. eapply yields_then; [apply yields_checks|]. intros _.
  eapply yields_bind; [apply yields_find|]. intros found Hfound; cbv beta in Hfound.
  eapply yields_mono; [apply yields_check|]. intros pinned Hp%ok_or_Ok. by apply Hfound.
Qed.

Lemma yields_native_query root : yields (native_query_existing_journal root) wf_metadata.
Proof.
  eapply yields_then; [apply yields_live|]. intros _. eapply yields_then; [apply yields_checks|]. intros handle.
  eapply yields_bind; [apply yields_query|]. intros metadata Hm.
  eapply yields_then; [apply yields_live|]. intros _. by apply yields_ret.
Qed.

Lemma yields_windows_query root :
  yields (windows_query_existing_journal security root) (λ state, ∀ metadata, state = JournalSupported metadata → wf_metadata metadata).
Proof.
  eapply yields_then; [apply yields_any|]. intros _. eapply yields_bind; [apply yields_backend_root|]. intros pinned _.
  eapply yields_bind; [apply yields_native_query|]. intros metadata Hm. apply yields_ret. by intros ? [= <-].
Qed.

Lemma yields_carried_root root :
  yields (carried_root security root) (λ pinned, ∀ p, pinned = Some p → Forall is_u16 (ps_canonical_root_utf16 p)).
Proof.
  destruct root as [root|]; [|by apply yields_ret]. eapply yields_bind; [apply yields_capture, yields_backend_root|].
  intros pinned Hp; cbv beta in Hp. apply yields_ret. destruct pinned as [p|]; [|done]. intros ? [= <-]. by apply Hp.
Qed.

(** ** Pages of one root *)

Lemma push_scoped_wf volume inside output r output' :
  push_scoped_path volume inside output r = Ok output' → Forall wf_backend_candidate output → wf_resolved r →
  Forall wf_backend_candidate output'.
Proof.
  unfold push_scoped_path. intros Ho Hw Hr. apply result_bind_Ok in Ho as (b & _ & Ho). destruct (negb b); [by simplify_eq|].
  apply result_bind_Ok in Ho as (c & Hc & Ho). simplify_eq. apply Forall_app. split; [done|]. apply Forall_singleton.
  eapply scoped_wf; [done| |done]. by destruct Hr.
Qed.

Lemma push_rename_wf volume inside output previous current output' :
  push_rename_or_scoped_paths volume inside output previous current = Ok output' → Forall wf_backend_candidate output →
  wf_resolved previous → wf_resolved current → Forall wf_backend_candidate output'.
Proof.
  unfold push_rename_or_scoped_paths. intros Ho Hw Hp Hc. apply result_bind_Ok in Ho as (b1 & _ & Ho).
  apply result_bind_Ok in Ho as (b2 & _ & Ho).
  destruct b1, b2; [|by eapply push_scoped_wf|by eapply push_scoped_wf|by simplify_eq].
  apply result_bind_Ok in Ho as (c & Hcopy & Ho). simplify_eq. apply Forall_app. split; [done|]. apply Forall_singleton.
  destruct Hp as (? & ? & ?), Hc as (? & ? & ?). by eapply copy_wf.
Qed.

Lemma foldl_Ok_keeps {E A S : Type} (f : S → A → Result E S) (I : S → Prop) l s s' :
  result_foldl f s l = Ok s' → I s → (∀ s x s', x ∈ l → I s → f s x = Ok s' → I s') → I s'.
Proof.
  revert s. induction l as [|x l IH]; intros s Hl Hi Hf; cbn [result_foldl] in Hl; [by simplify_eq|].
  apply result_bind_Ok in Hl as (s1 & Hs1 & Hl). eapply IH; [exact Hl|eapply Hf; [by left|done..]|].
  intros ? y ? Hy. apply Hf. by right.
Qed.

Lemma root_scoped_wf root records candidates :
  root_scoped_candidates (W := W) root records = Ok candidates → Forall wf_resolved records →
  Forall wf_backend_candidate candidates.
Proof.
  unfold root_scoped_candidates, root_scoped_candidates_with. intros Hc Hr. rewrite Forall_forall in Hr.
  apply result_bind_Ok in Hc as ([found old_names] & Hf & Hc).
  apply (foldl_Ok_keeps _ (λ st, Forall wf_backend_candidate st.1 ∧ map_Forall (λ _ r, wf_resolved r) st.2)) in Hf
    as [Hw Hm]; [|by split; [constructor|apply map_Forall_empty]|].
  - apply result_bind_Ok in Hc as (all & Ha & Hc). simplify_eq. rewrite sort_by_perm.
    eapply (foldl_Ok_keeps _ (Forall wf_backend_candidate)); [exact Ha|done|]. intros output r output' Hin Ho Hp.
    eapply push_scoped_wf; [done..|]. apply old_names_wf in Hm. rewrite Forall_forall in Hm. auto.
  - intros [output names] r st' Hin [Ho Hn] Hs. specialize (Hr r Hin). cbn [fst snd] in *. unfold scope_record in Hs.
    destruct (has_reason _ _); [simplify_eq; by split; [|apply map_Forall_insert_2]|].
    destruct (has_reason _ _); [destruct (names !! _) as [previous|] eqn:Hp|].
    + apply result_bind_Ok in Hs as (output' & Ho' & Hs). simplify_eq. split; [|by apply map_Forall_delete].
      eapply push_rename_wf; [done..| |done]. by eapply map_Forall_lookup_1 in Hn.
    + apply result_bind_Ok in Hs as (output' & Ho' & Hs). simplify_eq. split; [|done]. by eapply push_scoped_wf.
    + apply result_bind_Ok in Hs as (output' & Ho' & Hs). simplify_eq. split; [|done]. by eapply push_scoped_wf.
Qed.

Lemma push_all_pushes page candidates : Forall wf_backend_candidate candidates → pushes page (push_all page candidates).2.
Proof.
  intros Hc. revert page. induction Hc as [|c candidates Hc _ IH]; intros page; cbn [push_all]; [constructor|].
  destruct (BoundedJournalPageBuilder_push page c) as [page'|error] eqn:E; [|constructor].
  eapply pushes_more; [done|exact E|]. apply IH.
Qed.

Lemma yields_native_page root journal range page :
  Forall is_u16 (ps_canonical_root_utf16 root) →
  yields (native_read_existing_journal_page root journal range page) (λ r, pushes page r.2).
Proof.
  intros Hroot. unfold native_read_existing_journal_page. eapply yields_bind.
  { apply (yields_capture _ (λ r, Forall wf_backend_candidate r.1)).
    eapply yields_then; [apply yields_live|]. intros _. eapply yields_then; [apply yields_checks|]. intros handle.
    eapply yields_bind; [apply yields_raw_page|]. intros raw Hraw. eapply yields_then; [apply yields_live|]. intros _.
    eapply yields_bind; [by apply yields_resolve|]. intros resolved Hres.
    eapply yields_bind; [apply yields_check|]. intros candidates Hc; cbv beta in Hc.
    eapply yields_then; [apply yields_live|]. intros _. eapply yields_then; [apply yields_checks|]. intros _.
    apply yields_ret. by eapply root_scoped_wf. }
  intros [[candidates proof]|error] Hread; cbv beta in Hread; apply yields_ret; [|constructor].
  pose proof (push_all_pushes page candidates (Hread _ eq_refl)) as Hp. by destruct (push_all page candidates).
Qed.

Lemma yields_windows_page root journal range page :
  yields (windows_read_existing_journal_page security root journal range page) (λ r, pushes page r.2).
Proof.
  eapply yields_bind.
  { apply yields_capture. eapply yields_then; [apply yields_any|]. intros _. apply yields_backend_root. }
  intros [pinned|error] Hp; cbv beta in Hp; [by apply yields_native_page, Hp|]. apply yields_ret. constructor.
Qed.

(** ** Pages of a volume *)

Lemma yields_volume_roots roots :
  yields (run_foldl (λ pinned root, p ← backend_root security root; mret (pinned ++ [p])) [] roots)
    (λ pinned, length pinned = length roots ∧ Forall (λ p, Forall is_u16 (ps_canonical_root_utf16 p)) pinned).
Proof.
  apply (yields_foldl _ (λ seen pinned, length pinned = length seen ∧
    Forall (λ p, Forall is_u16 (ps_canonical_root_utf16 p)) pinned)); [by split|].
  intros seen pinned root _ [Hl Hp]. eapply yields_bind; [apply yields_backend_root|]. intros p H16. apply yields_ret.
  rewrite !length_app. split; [cbn; lia|]. apply Forall_app. split; [done|]. by apply Forall_singleton.
Qed.

Lemma yields_volume_carries n pending :
  Forall (λ carry, is_i64 (bpc_old_usn carry) ∧ is_str (bpc_previous_relative_path carry) ∧
            ∀ index, bpc_read_root_index carry = Some index → (index < n)%nat) pending →
  yields (run_foldl (native_carry security) [] pending)
    (λ carries, Forall2 (λ carry p, np_read_root_index p = bpc_read_root_index carry) pending carries ∧
                Forall (wf_native_carry n) carries).
Proof.
  intros Hp. apply (yields_foldl _ (λ seen carries,
    Forall2 (λ carry p, np_read_root_index p = bpc_read_root_index carry) seen carries ∧ Forall (wf_native_carry n) carries)).
  { split; constructor. }
  intros seen carries carry Hprefix [Hs Hw]. eapply yields_bind; [apply yields_carried_root|]. intros root Hroot; cbv beta in Hroot.
  apply yields_ret. split; [by apply Forall2_app; [|constructor]|]. apply Forall_app. split; [done|]. apply Forall_singleton.
  assert (carry ∈ pending) as Hin by (destruct Hprefix as [rest ->]; set_solver).
  rewrite Forall_forall in Hp. destruct (Hp carry Hin) as (? & ? & ?). by split_and!.
Qed.

Lemma native_lawful_page read roots carries page :
  native_lawful roots carries page →
  Forall2 (λ carry p, np_read_root_index p = bpc_read_root_index carry) (ev_pending_renames read) carries →
  lawful_page read page.
Proof.
  intros [_ Hc Hh Hp] Hcar. split; [done|..].
  - eapply Forall_impl; [exact Hh|]. intros h [Ht _ Hcur Hprev Hx]. split; [done|done|done|].
    intros index carry Hi Hcarry. eapply Forall2_lookup_l in Hcar as (p & Hpi & <-); [|exact Hcarry]. by eapply Hx.
  - eapply Forall_impl; [exact Hp|]. intros p [Ht _ Hr]. by split.
Qed.

Lemma yields_windows_volume read :
  typed_read read → yields (windows_read_existing_journal_volume_page security read) (lawful_page read).
Proof.
  intros [Hs Hc [Hr He]]. eapply yields_bind; [apply yields_volume_roots|]. intros roots [Hl Hroots].
  eapply yields_bind; [by apply (yields_volume_carries (length roots)); rewrite Hl|]. intros carries [Hcar Hwf].
  eapply yields_mono; [apply yields_native_volume; [congruence|done..]|]. intros page Hpage. by eapply native_lawful_page.
Qed.
End Laws.
