(* ===== verification/WindowsHost.v ===== *)
(** * The Windows host as a whole

    The correctness of the Windows host behind the service, and a host that runs. *)

From stdpp Require Import sorting.
From S2P Require Import Prelude Text Order Effects WireBase WirePath Wire Contracts BrokerChecks Usn UsnPath.
From S2P Require Import ActiveRegistry Service ServiceAnswers ServiceVolume RangeRead VolumeSlots PinnedRoots.
From S2P Require Import SemanticEvents NativeJournal SemanticLaws SemanticLimits NativeReads WindowsSecurity.
From S2P Require Import WindowsLaws.

(** C7: the Windows host keeps the contract the service is verified against.  Whatever the operating system
    does within the types of its functions (any journal bytes, any handles, paths and identities, failures
    at any call, other requests in between), the operations of the authorizer and of the journal backend do
    not panic; a verified caller is the one the pipe's token names; a capability is 32 bytes; the metadata
    and the candidates have their types; a page is only filled through its checked [push]; disclosure only
    drops candidates; and the page of a volume read has candidates of their types, hand-offs that cross
    roots, and for every hand-off and pending rename a barrier of each root it takes part in at or below
    it.  So every theorem about the service holds of the service that runs on Windows. *)
Theorem windows_host_lawful {W : Type} (base : BrokerPorts W) `{HandlePorts W} `{NativePorts W} `{!NativePortLaws W}
    `{SecurityPorts W} `{!SecurityPortLaws W} (security : ConnectionSecurity) :
  BrokerPortLaws (H := windows_ports base security) W ∧
  VolumePortLaws (H := windows_ports base security) W ∧
  (∀ authenticated claim, yields (windows_verify_claim (Some security) authenticated claim) (λ _, True)) ∧
  (∀ caller root handle, yields (windows_register_root (Some security) caller root handle) (λ _, True)) ∧
  (∀ caller root capability,
     yields (windows_authorize_registered_root (Some security) caller root capability) (λ _, True)) ∧
  (∀ root candidates, yields (windows_filter_disclosable_candidates (Some security) root candidates) (λ _, True)) ∧
  (∀ root, yields (windows_query_existing_journal security root) (λ _, True)) ∧
  (∀ root journal range page,
     yields (windows_read_existing_journal_page security root journal range page) (λ _, True)) ∧
  (∀ read, typed_read read → yields (windows_read_existing_journal_volume_page security read) (λ _, True)).
Proof.
  split_and!.
  - split.
    + intros authenticated claim w caller Hc. exact (port_Ok _ _ _ _ _ (yields_verify_claim security authenticated claim) Hc).
    + intros caller root handle cw capability Hc. exact (port_Ok _ _ _ _ _ (yields_register security caller root handle) Hc).
    + intros root cw metadata Hm. by apply (port_Ok _ _ _ _ _ (yields_windows_query security root) Hm).
    + intros root journal range builder cw. cbn.
      pose proof (yields_windows_page security root journal range builder cw) as Hp. unfold port.
      destruct (windows_read_existing_journal_page _ _ _ _ _ _) as [[[r page]|[e|]] cw']; cbn in *; [done|constructor|done].
    + intros root candidates cw disclosable Hd. exact (port_Ok _ _ _ _ _ (yields_filter security root candidates) Hd).
  - split. intros read cw page Hread Hp. exact (port_Ok _ _ _ _ _ (yields_windows_volume security read Hread) Hp).
  - intros. eapply yields_mono; [apply yields_verify_claim|done].
  - intros. eapply yields_mono; [apply yields_register|done].
  - intros. apply yields_authorize.
  - intros. eapply yields_mono; [apply yields_filter|done].
  - intros. eapply yields_mono; [apply yields_windows_query|done].
  - intros. eapply yields_mono; [apply yields_windows_page|done].
  - intros. eapply yields_mono; [by apply yields_windows_volume|done].
Qed.

(** ** A host that runs

    A volume with two roots, [C:\Lib] and [C:\Pics], and a journal that moves a file from one to the other. *)

Definition sample_volume_path : str := lit "\\?\Volume{1}" ++ [WirePath.BACKSLASH].
Definition host_root (id : str) (identity : Z) (path : str) : RootAuthorization :=
  {| root_root_id := id; root_root_generation := 1; root_volume_id := sample_volume_path;
     root_root_identity := replicate 16 identity; root_canonical_root_utf16 := path |}.
Definition host_lib : RootAuthorization := host_root (lit "r") 3 (lit "C:\Lib").
Definition host_pics : RootAuthorization := host_root (lit "p") 4 (lit "C:\Pics").

Definition host_security : ConnectionSecurity :=
  {| cs_namespace := replicate 32 4; cs_client_process_identity := replicate 32 6; cs_observed_process_id := 42;
     cs_observed_session_id := 1 |}.
Definition host_caller : CallerAuthorization :=
  {| ca_connection_id := replicate 16 9; ca_connection_generation := 1; ca_client_instance := replicate 16 5;
     ca_opaque_namespace := replicate 32 4 |}.

(** The handle of a root is the first byte of its identity. *)
Definition host_registration (root : RootAuthorization) (handle : Z) : RegisteredRoot :=
  {| rg_capability := {| capability_bytes := replicate 32 1 |};
     rg_pinned := {| ps_root_handle := handle; ps_volume_handle := Some 8; ps_volume_id := root_volume_id root;
                     ps_volume_open_path := root_volume_id root; ps_root_identity := root_root_identity root;
                     ps_canonical_root_utf16 := root_canonical_root_utf16 root;
                     ps_component_semantics := [WirePath.WindowsOrdinalIgnoreCase] |};
     rg_expires_at := 2 ^ 40 |}.
Definition host_ledger : RootLedger :=
  {| ld_registrations := <[(lit "r", 1) := host_registration host_lib 3]> {[(lit "p", 1) := host_registration host_pics 4]};
     ld_budget := {| bg_active := 2; bg_limit := 16 |} |}.

Definition host_path (handle : Z) : str := if handle =? 3 then lit "Lib" else lit "Pics".
Definition host_handles : HandlePorts RegistryState := {|
  create_file _ _ w := ((7, 0), w);
  attribute_tag_info _ w := (Some 0x10, w);
  standard_info_directory _ w := (Some true, w);
  file_id_info handle w := (Some (replicate 16 handle), w);
  case_sensitive_info _ w := (Some 0, w);
  final_path_name handle form _ w :=
    let path := match form with DosForm => lit "\\?\C:" ++ [WirePath.BACKSLASH] ++ host_path handle
                              | GuidForm => sample_volume_path ++ host_path handle end in
    ((zlen path, path), w);
  volume_information_by_handle _ w := (Some (lit "NTFS" ++ [0], 1), w);
|}.

(** Two records: the old name below [Lib], and the new one below [Pics]. *)
Definition host_record (parent usn reason : Z) (name : str) : ParsedUsnRecord :=
  {| usn_file_reference := V2 (replicate 8 1); usn_parent_reference := V2 (replicate 8 parent);
     usn_usn := usn; usn_timestamp_100ns := 0; usn_reason := reason; usn_file_attributes := 32; usn_name := name |}.
Definition host_journal : bytes :=
  encode_journal_buffer 200 [host_record 3 100 0x1000 (lit "a.png"); host_record 4 110 0x2000 (lit "b.png")].
Definition host_native : NativePorts RegistryState := {|
  read_usn_journal _ _ _ cw := (Ok host_journal, cw);
  query_usn_journal _ cw :=
    (Ok {| ud_bytes := 80; ud_journal_id := 3; ud_first_usn := 0; ud_next_usn := 500;
           ud_min_supported_major_version := 2; ud_max_supported_major_version := 4 |}, cw);
  open_references w := (λ _ reference, Ok (sample_volume_path ++ host_path (default 0 (head (FileReference_bytes reference)))), w);
  parsed_usn_record_size := 120;
|}.
Definition host_ports_security : SecurityPorts RegistryState := {|
  root_ledger _ := host_ledger;
  set_root_ledger _ w := w;
  process_alive w := (true, w);
  duplicate_handle _ w := (Some 3, w);
  impersonate_user w := (true, w);
  revert_to_self w := (true, w);
  reopen_for_listing _ w := (Some 9, w);
  blake3_keyed _ _ := replicate 32 1;
|}.

Definition host_authorized (root : RootAuthorization) : AuthorizedPinnedRoot :=
  {| ap_caller := host_caller; ap_declared_root := root;
     ap_pinned_root := {| pb_volume_id := root_volume_id root; pb_root_identity := root_root_identity root;
                          pb_canonical_root_utf16 := root_canonical_root_utf16 root;
                          pb_name_semantics := {| ns_components := [WirePath.WindowsOrdinalIgnoreCase] |} |} |}.
Definition host_read : ExistingJournalVolumeRead :=
  {| ev_roots := [host_authorized host_lib; host_authorized host_pics]; ev_root_start_usns := [90; 95];
     ev_pending_renames := [];
     ev_journal := {| jm_journal_id := 3; jm_first_usn := 0; jm_next_usn := 500 |};
     ev_range := {| range_start_usn := 90; range_end_usn := 200 |};
     ev_limits := {| lim_max_records := 8; lim_max_evidence_bytes := 4096 |} |}.

Lemma host_native_laws : NativePortLaws (H := host_native) RegistryState.
Proof.
  split.
  - intros handle journal start cw bytes [= <-]. apply (bool_decide_unpack _). by vm_compute.
  - intros handle cw data [= <-]. cbn. unfold is_uint, is_sint. lia.
  - intros w handle reference path [= <-]. unfold host_path.
    destruct (_ =? 3); apply (bool_decide_unpack _); by vm_compute.
Qed.

Lemma host_security_laws : SecurityPortLaws (H := host_ports_security) RegistryState.
Proof.
  split.
  - intros w key registration Hr. cbn in Hr. apply lookup_insert_Some in Hr as [[_ <-]|[_ [_ <-]%lookup_singleton_Some]];
      apply (bool_decide_unpack _); by vm_compute.
  - intros key message. unfold is_array. apply (bool_decide_unpack _). by vm_compute.
Qed.

Lemma host_read_typed : typed_read host_read.
Proof. split; [done|constructor|cbn; lia]. Qed.

(** The move is told once, as a hand-off from the first root to the second, in a page that keeps the contract. *)
Lemma windows_host_lawful_witness :
  ∃ page handoff,
    (@read_existing_journal_volume_page _ (@windows_ports _ sample_ports host_handles host_native host_ports_security
       host_security) host_read (service_context sample_read_key 100, sample_reading)).1 = Ok page ∧
    sb_handoffs page = [handoff] ∧ bh_old_usn handoff = 100 ∧ bh_usn handoff = 110 ∧ lawful_page host_read page.
Proof.
  destruct (@windows_host_lawful _ sample_ports host_handles host_native host_native_laws host_ports_security
    host_security_laws host_security) as (_ & Hvolume & _).
  eexists _, _. split; [vm_compute; reflexivity|]. split; [reflexivity|]. split; [reflexivity|]. split; [reflexivity|].
  apply (@volume_page_law _ _ Hvolume _ (service_context sample_read_key 100, sample_reading)); [exact host_read_typed|].
  vm_compute. reflexivity.
Defined.
