(* ===== verification/RootBudget.v ===== *)
(** * The budget of registered roots

    All connections of the broker share one budget of registered roots.  The states the broker reaches by
    opening and closing connections, registering roots and reaping expired leases keep the count of the
    budget equal to the number of registrations held, so that no permit is lost or given out twice.  A root
    can only be used on a current registration of it. *)

From S2P Require Import Prelude Text Effects WireBase WirePath Wire Contracts ActiveRegistry Service PinnedRoots.
From S2P Require Import WindowsSecurity ServiceAnswers RangeRead SemanticEvents NativeJournal WindowsLaws.
From S2P Require Import WindowsHost.

(** ** One connection *)

Lemma iter_drop k b :
  Z.of_nat k ≤ bg_active b →
  Nat.iter k drop_permit b = {| bg_active := bg_active b - Z.of_nat k; bg_limit := bg_limit b |}.
Proof.
  intros Hk. induction k as [|k IH]; cbn [Nat.iter nat_rect].
  - destruct b. cbn. f_equal. lia.
  - change (nat_rect _ b (λ _, drop_permit) k) with (Nat.iter k drop_permit b). rewrite IH by lia.
    unfold drop_permit, saturating_sub. cbn. f_equal. lia.
Qed.

Definition held_roots (ledger : RootLedger) : Z := Z.of_nat (size (ld_registrations ledger)).

(** A step of one ledger: the limit stays, and the count moves with the registrations. *)
Record ledger_step (ledger ledger' : RootLedger) : Prop := {
  ls_limit : bg_limit (ld_budget ledger') = bg_limit (ld_budget ledger);
  ls_moves : bg_active (ld_budget ledger') - held_roots ledger' = bg_active (ld_budget ledger) - held_roots ledger;
  ls_bound : bg_active (ld_budget ledger) ≤ bg_limit (ld_budget ledger) →
             bg_active (ld_budget ledger') ≤ bg_limit (ld_budget ledger');
  ls_own : held_roots ledger ≤ MAX_REGISTERED_ROOTS_PER_CONNECTION → held_roots ledger' ≤ MAX_REGISTERED_ROOTS_PER_CONNECTION;
}.

#[export] Instance ledger_step_trans : Transitive ledger_step.
Proof. intros x y z [? ? ? ?] [? ? ? ?]. split; [congruence|lia|auto|auto]. Qed.

Lemma size_kept (now : Z) (r : Registrations) : (size (filter (is_current now) r) ≤ size r)%nat.
Proof. apply map_subseteq_size, map_filter_subseteq. Qed.

Lemma reap_step now ledger :
  held_roots ledger ≤ bg_active (ld_budget ledger) → ledger_step ledger (reap_registrations now ledger).
Proof.
  unfold held_roots, reap_registrations. intros Hb. pose proof (size_kept now (ld_registrations ledger)).
  split; cbn [ld_budget ld_registrations]; unfold held_roots; cbn [ld_registrations];
    rewrite ?iter_drop by lia; cbn [bg_active bg_limit]; [done|lia|lia|lia].
Qed.

Lemma insert_step instant_max now key capability pinned ledger :
  held_roots ledger ≤ bg_active (ld_budget ledger) →
  ledger_step ledger (insert_registration instant_max now key capability pinned ledger).2.
Proof.
  intros Hb. pose proof (reap_step now ledger Hb) as Hr. unfold insert_registration.
  set (reaped := reap_registrations now ledger) in *.
  destruct (negb (registration_capacity_available _ _)) eqn:Hcap; [done|]. destruct (_ <? _); [done|].
  apply negb_false_iff in Hcap. unfold registration_capacity_available in Hcap.
  destruct (bool_decide (is_Some (ld_registrations reaped !! key))) eqn:Hrep.
  - apply bool_decide_eq_true in Hrep. etrans; [exact Hr|]. clearbody reaped.
    split; unfold held_roots; cbn [snd ld_budget ld_registrations]; rewrite ?map_size_insert_Some by done; auto.
  - apply bool_decide_eq_false in Hrep. cbn [orb] in Hcap. unfold try_acquire.
    destruct (Z.leb_spec (bg_limit (ld_budget reaped)) (bg_active (ld_budget reaped))); [done|].
    etrans; [exact Hr|]. clearbody reaped.
    split; unfold held_roots; cbn [snd ld_budget ld_registrations bg_active bg_limit];
      rewrite ?map_size_insert_None by (by apply eq_None_not_Some); unfold MAX_REGISTERED_ROOTS_PER_CONNECTION in *; lia.
Qed.

(** ** All connections *)

Record RootSystem := { sys_connections : gmap nat Registrations; sys_budget : RootBudgetState }.

(** The broker at its start. *)
Definition root_system_start : RootSystem := {| sys_connections := ∅; sys_budget := RootBudget_production |}.

Definition ledger_of (s : RootSystem) (registrations : Registrations) : RootLedger :=
  {| ld_registrations := registrations; ld_budget := sys_budget s |}.
Definition store_ledger (s : RootSystem) (connection : nat) (ledger : RootLedger) : RootSystem :=
  {| sys_connections := <[connection := ld_registrations ledger]> (sys_connections s); sys_budget := ld_budget ledger |}.

Inductive root_step (instant_max : Z) : RootSystem → RootSystem → Prop :=
| root_open s connection :
    sys_connections s !! connection = None →
    root_step instant_max s {| sys_connections := <[connection := ∅]> (sys_connections s); sys_budget := sys_budget s |}
| root_reap s connection registrations now :
    sys_connections s !! connection = Some registrations →
    root_step instant_max s (store_ledger s connection (reap_registrations now (ledger_of s registrations)))
| root_register s connection registrations now key capability pinned :
    sys_connections s !! connection = Some registrations →
    root_step instant_max s
      (store_ledger s connection (insert_registration instant_max now key capability pinned (ledger_of s registrations)).2)
| root_close s connection registrations :
    sys_connections s !! connection = Some registrations →
    root_step instant_max s {| sys_connections := delete connection (sys_connections s);
                               sys_budget := Nat.iter (size registrations) drop_permit (sys_budget s) |}.

(** The registrations of all connections. *)
Definition all_held (connections : gmap nat Registrations) : Z :=
  foldr (λ entry total, Z.of_nat (size entry.2) + total) 0 (map_to_list connections).

Lemma all_held_perm l k :
  l ≡ₚ k → foldr (λ (entry : nat * Registrations) total, Z.of_nat (size entry.2) + total) 0 l =
           foldr (λ entry total, Z.of_nat (size entry.2) + total) 0 k.
Proof. induction 1; cbn in *; lia. Qed.

Lemma all_held_insert (connections : gmap nat Registrations) (c : nat) (r : Registrations) :
  connections !! c = None → all_held (<[c := r]> connections) = Z.of_nat (size r) + all_held connections.
Proof. intros Hc. unfold all_held. by rewrite (all_held_perm _ _ (map_to_list_insert _ _ r Hc)). Qed.

Lemma all_held_delete (connections : gmap nat Registrations) (c : nat) (r : Registrations) :
  connections !! c = Some r → all_held connections = Z.of_nat (size r) + all_held (delete c connections).
Proof.
  intros Hc. rewrite <-(insert_delete_id connections c r Hc) at 1. apply all_held_insert, lookup_delete_eq.
Qed.

Lemma all_held_nonneg connections : 0 ≤ all_held connections.
Proof. unfold all_held. induction (map_to_list connections); cbn; lia. Qed.

Record root_system_ok (s : RootSystem) : Prop := {
  rs_limit : bg_limit (sys_budget s) = MAX_REGISTERED_ROOTS_GLOBAL;
  rs_active : bg_active (sys_budget s) = all_held (sys_connections s);
  rs_bound : all_held (sys_connections s) ≤ MAX_REGISTERED_ROOTS_GLOBAL;
  rs_own : map_Forall (λ _ (r : Registrations), Z.of_nat (size r) ≤ MAX_REGISTERED_ROOTS_PER_CONNECTION) (sys_connections s);
}.

Lemma store_ok (s : RootSystem) (c : nat) (r : Registrations) (ledger : RootLedger) :
  root_system_ok s → sys_connections s !! c = Some r → ledger_step (ledger_of s r) ledger →
  root_system_ok (store_ledger s c ledger).
Proof.
  intros [Hl Ha Hb Ho] Hc [Sl Sm Sb So]. pose proof (all_held_delete _ _ _ Hc) as Hd.
  assert (all_held (<[c := ld_registrations ledger]> (sys_connections s)) =
    Z.of_nat (size (ld_registrations ledger)) + all_held (delete c (sys_connections s))) as Hi.
  { rewrite <-insert_delete_eq. apply all_held_insert, lookup_delete_eq. }
  unfold held_roots, ledger_of in *. cbn in *. split; cbn; rewrite ?Hi; [congruence|lia|lia|].
  apply map_Forall_insert_2; [|done]. apply So. by eapply (map_Forall_lookup_1 _ _ _ _ Ho Hc).
Qed.

Lemma root_step_ok (instant_max : Z) s s' : root_system_ok s → root_step instant_max s s' → root_system_ok s'.
Proof.
  intros Hok Hs. destruct Hs as [s c Hc|s c r now Hc|s c r now key capability pinned Hc|s c r Hc];
    pose proof Hok as [Hl Ha Hb Ho].
  - split; cbn; rewrite ?all_held_insert, ?map_size_empty by done; [done|lia|lia|].
    apply map_Forall_insert_2; [|done]. by rewrite map_size_empty.
  - pose proof (all_held_delete _ _ _ Hc). pose proof (all_held_nonneg (delete c (sys_connections s))).
    eapply store_ok; [done..|]. apply reap_step. unfold held_roots, ledger_of. cbn. lia.
  - pose proof (all_held_delete _ _ _ Hc). pose proof (all_held_nonneg (delete c (sys_connections s))).
    eapply store_ok; [done..|]. apply insert_step. unfold held_roots, ledger_of. cbn. lia.
  - pose proof (all_held_delete _ _ _ Hc) as Hd. pose proof (all_held_nonneg (delete c (sys_connections s))).
    split; cbn; rewrite ?iter_drop by lia; cbn; [done|lia|lia|]. by apply map_Forall_delete.
Qed.

(** C23: the budget of registered roots counts exactly what is registered.  In every state the broker reaches
    from its start by opening connections, registering roots at any instant (new ones, replacements, and
    attempts that are refused after expired leases were reaped), reaping expired leases and closing
    connections, the count of the shared budget equals the number of registrations held by all open
    connections.  So no permit leaks and none is given back twice; at most 16 roots are registered in all,
    and at most 8 on any connection. *)
Theorem root_budget_exact instant_max s :
  rtc (root_step instant_max) root_system_start s →
  bg_active (sys_budget s) = all_held (sys_connections s) ∧
  all_held (sys_connections s) ≤ MAX_REGISTERED_ROOTS_GLOBAL ∧
  ∀ connection registrations, sys_connections s !! connection = Some registrations →
    Z.of_nat (size registrations) ≤ MAX_REGISTERED_ROOTS_PER_CONNECTION.
Proof.
  intros Hs. assert (root_system_ok s) as [_ Ha Hb Ho]; [|split; [done|split; [done|]]; intros c r Hc; exact (map_Forall_lookup_1 _ _ _ _ Ho Hc)].
  revert Hs. assert (root_system_ok root_system_start) as H0 by (split; [done|done|by vm_compute|apply map_Forall_empty]).
  revert H0. generalize root_system_start. intros s0 H0 Hs. induction Hs as [|x y z Hxy _ IH]; [done|].
  apply IH. by eapply root_step_ok.
Qed.

(** A connection that registers a root. *)
Definition sample_pinned : PinnedRootState :=
  {| ps_root_handle := 5; ps_volume_handle := Some 6; ps_volume_id := lit "v"; ps_volume_open_path := lit "v";
     ps_root_identity := replicate 16 4; ps_canonical_root_utf16 := lit "C:\Lib"; ps_component_semantics := [] |}.
Definition sample_registration (now : Z) (registrations : Registrations) (s : RootSystem) : RootSystem :=
  store_ledger s 0 (insert_registration (2 ^ 64) now (lit "r", 1) {| capability_bytes := replicate 32 1 |} sample_pinned
                      (ledger_of s registrations)).2.
Definition sample_opened : RootSystem :=
  {| sys_connections := {[0%nat := ∅]}; sys_budget := RootBudget_production |}.
Definition sample_registered : RootSystem := sample_registration 100 ∅ sample_opened.

Lemma root_budget_exact_witness :
  bg_active (sys_budget sample_registered) = 1 ∧ all_held (sys_connections sample_registered) = 1.
Proof.
  assert (rtc (root_step (2 ^ 64)) root_system_start sample_registered) as Hs.
  { eapply rtc_l; [by apply (root_open _ root_system_start 0)|].
    eapply rtc_l; [|apply rtc_refl]. exact (root_register (2 ^ 64) sample_opened 0 ∅ 100 _ _ _ eq_refl). }
  destruct (root_budget_exact (2 ^ 64) sample_registered Hs) as (Heq & _).
  split; [|rewrite <-Heq]; by vm_compute.
Defined.

(** * Authorized use of registered roots *)

(** ** Runs that succeed *)

Lemma run_bind_Ok {E S A B : Type} (m : Run E S A) (f : A → Run E S B) s b s' :
  (m ≫= f) s = (Ok b, s') → ∃ a s1, m s = (Ok a, s1) ∧ f a s1 = (Ok b, s').
Proof. unfold mbind, eff_bind. destruct (m s) as [[a|h] s1]; [eauto|done]. Qed.

Lemma run_check_Ok {E S A : Type} (r : Result E A) (s : S) a s' : check r s = (Ok a, s') → r = Ok a ∧ s' = s.
Proof. unfold check. destruct r; cbn; [by intros [= <- <-]|done]. Qed.

(** ** Leases *)

Section Leases.
Context (instant_max : Z).

(** A registration that was accepted at [now]. *)
Lemma registered_at now key capability pinned ledger ledger' :
  insert_registration instant_max now key capability pinned ledger = (Ok (), ledger') →
  ld_registrations ledger' !! key =
    Some {| rg_capability := capability; rg_pinned := pinned; rg_expires_at := now + ROOT_CAPABILITY_LIFETIME |}.
Proof.
  unfold insert_registration. destruct (negb _); [done|]. destruct (_ <? _); [done|].
  destruct (if bool_decide _ then _ else _); [|done]. intros [= <-]. cbn. apply lookup_insert_eq.
Qed.

Lemma found_registration key accept now ledger pinned :
  (find_registration key accept now ledger).1 = Some pinned ↔
  ∃ registration, ld_registrations ledger !! key = Some registration ∧ now < rg_expires_at registration ∧
    accept registration = true ∧ pinned = rg_pinned registration.
Proof.
  unfold find_registration. cbn [fst reap_registrations ld_registrations]. rewrite bind_Some. split.
  - intros (r & [Hr Hc]%map_lookup_filter_Some & Ha). exists r. unfold is_current, registration_is_current in Hc.
    destruct (accept r); [|done]. apply (inj Some) in Ha as <-. split_and!; [done|cbn in Hc; lia|done|done].
  - intros (r & Hr & Hc & Ha & ->). exists r. rewrite Ha. split; [|done]. apply map_lookup_filter_Some. split; [done|].
    unfold is_current, registration_is_current. cbn. lia.
Qed.

(** A lease on a root lasts 120 seconds and is bound to its capability.  When a root was registered at
    [now] with some capability, looking its key up with a presented capability at an instant [later] in the
    registrations this leaves finds the pinned root exactly when [later] is less than 120 seconds after
    [now] and the presented capability is the one that was handed out. *)
Theorem lease_honoured now later key capability pinned presented ledger ledger' :
  insert_registration instant_max now key capability pinned ledger = (Ok (), ledger') →
  (find_registration key (λ r, bool_decide (rg_capability r = presented)) later ledger').1 =
  (if (later <? now + ROOT_CAPABILITY_LIFETIME) && bool_decide (capability = presented) then Some pinned else None).
Proof.
  intros Hr%registered_at. destruct (_ && _) eqn:E.
  - apply andb_true_iff in E as [Hl Hc]. apply found_registration. eexists. split; [exact Hr|]. cbn. split_and!; [lia|done|done].
  - apply eq_None_not_Some. intros [p (r & Hr' & Hl & Hc & _)%found_registration]. rewrite Hr in Hr'. simplify_eq. cbn in *.
    apply andb_false_iff in E as [E|E]; [lia|congruence].
Qed.
End Leases.

(** ** Authorizations *)

Section Authorize.
Context {W : Type} `{BrokerPorts W} `{HandlePorts W} `{SecurityPorts W}.

Definition matches_root (pinned : PinnedRootState) (root : RootAuthorization) : Prop :=
  ps_volume_id pinned = root_volume_id root ∧ ps_root_identity pinned = root_root_identity root ∧
  ps_canonical_root_utf16 pinned = root_canonical_root_utf16 root.

Lemma authorized_Ok {E A : Type} (f : E → AuthorizerError) (m : Run E W A) context w a cw' :
  authorized f m (context, w) = (Ok a, cw') → ∃ w', m w = (Ok a, w') ∧ cw' = (context, w').
Proof. unfold authorized. destruct (m w) as [[x|[e|]] w']; [intros [= <- <-]; eauto|done|done]. Qed.

(** C24: the use of a root is only granted on a current registration of exactly that root.  When
    [authorize_registered_root] succeeds, the registrations of the connection held, at the instant it read
    under the lock, a registration of the root's id and generation whose lease had not run out and whose
    capability is the one presented; the volume, the identity and the path it pinned are those the caller
    declared; and the authorization names the caller, the declared root and the pinned facts. *)
Theorem authorize_registered_root_sound security caller root capability context w granted cw' :
  windows_authorize_registered_root (Some security) caller root capability (context, w) = (Ok granted, cw') →
  ∃ registration,
    let '(now, w1) := instant_now (others w) in
    ld_registrations (root_ledger w1) !! root_key root = Some registration ∧
    now < rg_expires_at registration ∧ rg_capability registration = capability ∧
    matches_root (rg_pinned registration) root ∧
    ap_caller granted = caller ∧ ap_declared_root granted = root ∧
    pb_volume_id (ap_pinned_root granted) = root_volume_id root ∧
    pb_root_identity (ap_pinned_root granted) = root_root_identity root ∧
    pb_canonical_root_utf16 (ap_pinned_root granted) = root_canonical_root_utf16 root ∧
    ns_components (pb_name_semantics (ap_pinned_root granted)) = ps_component_semantics (rg_pinned registration).
Proof.
  unfold windows_authorize_registered_root. intros Hrun.
  apply run_bind_Ok in Hrun as (_ & ? & [_ ->]%run_check_Ok & Hrun).
  apply run_bind_Ok in Hrun as (found & ? & (w2 & Hfound & ->)%authorized_Ok & Hrun).
  apply run_bind_Ok in Hrun as (pinned & ? & [Hp%ok_or_Ok ->]%run_check_Ok & Hrun).
  apply run_bind_Ok in Hrun as (_ & cw3 & _ & Hrun).
  apply run_bind_Ok in Hrun as (_ & ? & [Hfacts%fail_if_Ok ->]%run_check_Ok & Hrun).
  apply run_bind_Ok in Hrun as (_ & cw4 & _ & Hrun).
  apply run_bind_Ok in Hrun as (semantics & ? & [Hs ->]%run_check_Ok & Hrun).
  apply run_bind_Ok in Hrun as (proof & ? & [Hproof ->]%run_check_Ok & Hrun).
  apply run_bind_Ok in Hrun as (declared & ? & [Hd ->]%run_check_Ok & [Hg _]%run_check_Ok).
  rewrite !orb_false_iff, !negb_false_iff, !bool_decide_eq_true in Hfacts.
  unfold observe, with_registrations in Hfound. destruct (instant_now (others w)) as [now w1].
  destruct (find_registration _ _ _ _) as [found' ledger] eqn:E. injection Hfound as Hff _.
  apply (f_equal fst) in E. rewrite Hff, Hp in E. apply found_registration in E as (r & Hr & Hnow & Hc & ->). exists r.
  unfold RootNameSemanticsProof_from_pinned_directory_handles in Hs. destruct (_ <? _) in Hs; [done|]. simplify_eq.
  destruct (PinnedBrokerRoot_from_caller_pinned_handle _ _ _ _) as [p|] eqn:Ep in Hproof; [|done]. cbn in Hproof. simplify_eq.
  unfold PinnedBrokerRoot_from_caller_pinned_handle in Ep. simplify_result.
  unfold DeclaredRootAuthorization_after_access_check in Hd. simplify_result.
  unfold AuthorizedPinnedRoot_after_identity_check in Hg. destruct (_ || _) in Hg; [done|]. simplify_eq. cbn.
  apply bool_decide_eq_true in Hc. destruct_and?. by split_and!.
Qed.
End Authorize.

(** The host of the sample grants the use of [C:\Lib] to a caller with the capability. *)
Lemma authorize_registered_root_sound_witness :
  ∃ granted registration,
    (@windows_authorize_registered_root _ sample_ports host_handles host_ports_security (Some host_security) host_caller
       host_lib {| capability_bytes := replicate 32 1 |} (service_context sample_read_key 100, sample_reading)).1
      = Ok granted ∧
    0 < rg_expires_at registration ∧ matches_root (rg_pinned registration) host_lib ∧ ap_declared_root granted = host_lib.
Proof.
  destruct (@windows_authorize_registered_root _ sample_ports host_handles host_ports_security (Some host_security)
    host_caller host_lib {| capability_bytes := replicate 32 1 |} (service_context sample_read_key 100, sample_reading))
    as [[granted|h] cw] eqn:E; [|exfalso; vm_compute in E; discriminate E].
  destruct (authorize_registered_root_sound (H := sample_ports) (H0 := host_handles) (H1 := host_ports_security)
    host_security host_caller host_lib _ _ _ granted cw E) as (r & _ & He & _ & Hm & _ & Hd & _).
  exists granted, r. split; [reflexivity|]. split; [exact He|]. split; [exact Hm|exact Hd].
Defined.

Lemma lease_honoured_witness :
  let ledger := {| ld_registrations := ∅; ld_budget := RootBudget_production |} in
  let capability := {| capability_bytes := replicate 32 1 |} in
  let registered := (insert_registration (2 ^ 63) 5 (lit "r", 1) capability (rg_pinned (host_registration host_lib 3)) ledger).2 in
  (find_registration (lit "r", 1) (λ r, bool_decide (rg_capability r = capability)) 6 registered).1 =
    Some (rg_pinned (host_registration host_lib 3)) ∧
  (find_registration (lit "r", 1) (λ r, bool_decide (rg_capability r = capability)) (2 ^ 40) registered).1 = None.
Proof.
  intros ledger capability registered.
  assert (insert_registration (2 ^ 63) 5 (lit "r", 1) capability (rg_pinned (host_registration host_lib 3)) ledger
    = (Ok (), registered)) as H by (vm_compute; reflexivity).
  split; rewrite (lease_honoured (2 ^ 63) 5 _ (lit "r", 1) capability _ capability ledger registered H); vm_compute; reflexivity.
Defined.
