(* ===== verification/RawPages.v ===== *)
(** * Pages of raw records

    [read_single_native_journal_buffer_with] of [journal_broker/windows/usn.rs] keeps as many records of one
    buffer as the limits allow and claims coverage up to the first it left out.  The claim is exact, and a
    read of a journal in order always gets further.  The last section evaluates a page of nested roots that the
    service refuses. *)

From stdpp Require Import sorting.
From S2P Require Import Prelude Text Effects WireBase WirePath Wire Contracts Usn UsnPath ActiveRegistry Service.
From S2P Require Import ServiceAnswers Responses RangeRead VolumeBarrier PinnedRoots SemanticEvents NativeJournal.
From S2P Require Import SemanticLaws SemanticLimits NativeReads WindowsSecurity WindowsLaws WindowsHost BrokerChecks.

(** ** Counting the records *)

Lemma zlen_name_bytes name : zlen (name_bytes_of name) = 2 * zlen (encode_utf16 name).
Proof.
  unfold name_bytes_of. generalize (encode_utf16 name) as us. induction us as [|u us IH]; [done|].
  rewrite bind_cons, zlen_app, zlen_le_bytes, zlen_cons, IH. lia.
Qed.

Section Raw.
Context (size : Z) (Hsize : 0 ≤ size ≤ 2 ^ 16).

Lemma record_bytes_Ok r :
  wf_usn_record r → ∃ n, raw_record_bytes size r = Ok n ∧ 0 ≤ n ≤ size + MAX_PATH_UTF16_UNITS * 2.
Proof.
  intros [_ _ _ _ _ _ Hn]. rewrite zlen_name_bytes in Hn. unfold is_uint in Hn.
  pose proof (zlen_nonneg (encode_utf16 (usn_name r))). unfold MAX_PATH_UTF16_UNITS.
  unfold raw_record_bytes, checked_mul, checked_add, USIZE_MAX.
  rewrite (proj2 (Z.leb_le (zlen (encode_utf16 (usn_name r)) * 2) _)) by lia. cbn [ok_or mbind result_bind].
  rewrite (proj2 (Z.leb_le _ _)) by lia. eexists. split; [done|]. lia.
Qed.

Lemma retain_records_Ok retained bytes records max_records max_evidence :
  Forall wf_usn_record records → 0 ≤ bytes ≤ max_evidence → max_evidence ≤ 2 ^ 40 →
  ∃ first taken rest,
    retain_records size retained bytes records max_records max_evidence = Ok (first, retained ++ taken) ∧
    records = taken ++ rest ∧ first = (usn_usn <$> head rest) ∧
    (zlen retained < max_records → bytes = 0 → size + MAX_PATH_UTF16_UNITS * 2 ≤ max_evidence → records ≠ [] → taken ≠ []).
Proof.
  intros Hwf. revert retained bytes. induction Hwf as [|r records Hr _ IH]; intros retained bytes Hb Hm; cbn [retain_records].
  { exists None, [], []. by rewrite app_nil_r. }
  destruct (record_bytes_Ok r Hr) as (n & -> & Hn). cbn [mbind result_bind]. unfold checked_add at 1.
  unfold MAX_PATH_UTF16_UNITS, USIZE_MAX in *. rewrite (proj2 (Z.leb_le (bytes + n) _)) by lia. cbn [ok_or mbind result_bind].
  destruct (_ || _) eqn:E.
  - exists (Some (usn_usn r)), [], (r :: records). rewrite app_nil_r. split_and!; [done|done|done|].
    intros ? -> ? _. exfalso. lia.
  - destruct (IH (retained ++ [r]) (bytes + n)) as (first & taken & rest & -> & -> & -> & _); [lia|done|].
    exists (usn_usn <$> head rest), (r :: taken), rest. rewrite <-app_assoc. by split_and!.
Qed.
End Raw.

(** ** Exact coverage *)

Lemma filter_all {A : Type} (P : A → Prop) `{∀ x, Decision (P x)} l : Forall P l → filter P l = l.
Proof. induction 1 as [|x l Hx _ IH]; [done|]. rewrite filter_cons, decide_True by done. by rewrite IH. Qed.
Lemma filter_none {A : Type} (P : A → Prop) `{∀ x, Decision (P x)} l : Forall (λ x, ¬ P x) l → filter P l = [].
Proof. induction 1 as [|x l Hx _ IH]; [done|]. by rewrite filter_cons, decide_False by done. Qed.

Lemma filter_ordered_prefix taken rest (covered : Z) :
  journal_ordered (taken ++ rest) → (∀ r, head rest = Some r → usn_usn r = covered) →
  (rest = [] → Forall (λ r, usn_usn r < covered) taken) →
  filter (λ r, usn_usn r < covered) (taken ++ rest) = taken.
Proof.
  intros Ho Hh Hall. rewrite filter_app.
  assert (Forall (λ r, usn_usn r < covered) taken) as Ht.
  { destruct rest as [|r rest]; [by apply Hall|]. rewrite <-(Hh r eq_refl). apply Forall_forall. intros x Hx.
    exact (StronglySorted_app_1_elem_of _ _ _ _ _ Ho Hx ltac:(by left)). }
  assert (Forall (λ r, ¬ usn_usn r < covered) rest) as Hr.
  { destruct rest as [|r rest]; [done|]. specialize (Hh r eq_refl). apply StronglySorted_app_1_r in Ho.
    apply StronglySorted_inv in Ho as [_ Hs]. constructor; [lia|]. eapply Forall_impl; [exact Hs|]. cbn. lia. }
  rewrite (filter_none _ rest), app_nil_r by done. by apply filter_all.
Qed.

Section Buffer.
Context {W : Type} `{NativePorts W}.

(** A buffer of the journal from [start]: records in order, from [start] on, below the next position. *)
Record journal_batch (start next : Z) (batch : list ParsedUsnRecord) : Prop := {
  jb_ordered : journal_ordered batch;
  jb_range : Forall (λ r, start ≤ usn_usn r < next) batch;
  jb_next : start < next;
}.

Lemma ordered_below (end_ : Z) batch : journal_ordered batch → journal_ordered (filter (λ r, usn_usn r < end_) batch).
Proof.
  intros Ho. unfold journal_ordered in *. induction Ho as [|r batch _ IH Hall]; [constructor|]. rewrite filter_cons.
  case_decide; [|done]. constructor; [done|]. rewrite Forall_forall in *. intros x [_ Hx]%list_elem_of_filter. by apply Hall.
Qed.

(** What is retained of a batch, and the position that is claimed. *)
Lemma retained_exact start end_ next batch max_records max_evidence :
  0 ≤ parsed_usn_record_size ≤ 2 ^ 16 → start < end_ → journal_batch start next batch → Forall wf_usn_record batch →
  1 ≤ max_records → max_evidence ≤ 2 ^ 40 →
  ∃ first raw,
    retain_bounded_raw_records parsed_usn_record_size batch end_ (Z.min max_records MAX_RAW_RECORDS_PER_PAGE)
      (Z.max max_evidence MAX_SINGLE_RAW_RECORD_EVIDENCE_BYTES) = Ok (first, raw) ∧
    let covered := Z.min (default next first) end_ in
    start < covered ≤ end_ ∧ raw = filter (λ r, usn_usn r < covered) batch.
Proof.
  intros Hsize Hse [Ho Hrange Hnext] Hwf Hmr Hme. unfold retain_bounded_raw_records.
  set (below := filter (λ r, usn_usn r < end_) batch).
  set (limit := Z.max max_evidence MAX_SINGLE_RAW_RECORD_EVIDENCE_BYTES).
  assert (Forall wf_usn_record below) as Hwb.
  { rewrite Forall_forall in *. intros r [_ Hr]%list_elem_of_filter. auto. }
  assert (0 ≤ limit ≤ 2 ^ 40 ∧ parsed_usn_record_size + MAX_PATH_UTF16_UNITS * 2 ≤ limit) as [Hl Hsingle].
  { unfold limit, MAX_SINGLE_RAW_RECORD_EVIDENCE_BYTES, MAX_PATH_UTF16_UNITS. lia. }
  destruct (retain_records_Ok parsed_usn_record_size Hsize [] 0 below (Z.min max_records MAX_RAW_RECORDS_PER_PAGE) limit
    Hwb ltac:(lia) ltac:(lia)) as (first & taken & rest & -> & Hsplit & -> & Hprogress).
  pose proof (ordered_below end_ batch Ho) as Hob. fold below in Hob.
  assert (∀ r, r ∈ below → usn_usn r < end_ ∧ start ≤ usn_usn r < next) as Hin.
  { intros r [? Hr]%list_elem_of_filter. rewrite Forall_forall in Hrange. auto. }
  eexists _, _. split; [done|]. cbn zeta. rewrite app_nil_l.
  assert (∀ covered, covered ≤ end_ → filter (λ r, usn_usn r < covered) batch = filter (λ r, usn_usn r < covered) below) as Hbelow.
  { intros covered Hc. unfold below. rewrite list_filter_filter. apply list_filter_iff. intros r. lia. }
  destruct rest as [|r rest]; cbn [head fmap option_fmap option_map default].
  - rewrite app_nil_r in Hsplit. subst taken. split; [lia|]. rewrite Hbelow by lia. symmetry. apply filter_all, Forall_forall.
    intros x Hx. specialize (Hin x Hx). lia.
  - assert (r ∈ below) as Hr by (rewrite Hsplit; apply elem_of_app; right; by left). destruct (Hin r Hr) as [Hre Hrs].
    unfold id. rewrite Z.min_l by lia. split.
    + assert (taken ≠ []) as Hne.
      { apply Hprogress; [unfold MAX_RAW_RECORDS_PER_PAGE; change (zlen []) with 0; lia|done|done|]. intros Hn. rewrite Hn in Hr. by apply not_elem_of_nil in Hr. }
      destruct taken as [|x taken]; [done|]. rewrite Hsplit in Hob.
      assert (usn_usn x < usn_usn r) by (eapply (StronglySorted_app_1_elem_of _ _ _ _ _ Hob); by left).
      destruct (Hin x ltac:(rewrite Hsplit; by left)). lia.
    + rewrite Hbelow by lia. rewrite Hsplit in Hob |- *. symmetry. apply filter_ordered_prefix; [done|by intros ? [= <-]|done].
Qed.

(** C31: one raw read of the journal covers exactly what it says.  Given any physical read that returns a
    buffer of the journal from the start of a range on (records in order, below the next position it
    names), a record size of the program of at most 64 KiB, and limits that allow at least one record,
    reading the range succeeds: it covers a position above the start and not beyond the end, so a reader
    that continues from it gets further every time, and the records it returns are exactly those of the
    buffer below that position, however the limits cut it. *)
Theorem raw_read_exact (physical_read : Z → ContextPort W (BackendResult bytes)) start end_ next batch buffer
    max_records max_evidence cw :
  0 ≤ parsed_usn_record_size ≤ 2 ^ 16 → 0 ≤ start < end_ → 1 ≤ max_records → max_evidence ≤ 2 ^ 40 →
  (physical_read start cw).1 = Ok buffer → Forall is_u8 buffer →
  parse_journal_buffer buffer = Some (Ok (next, batch)) → journal_batch start next batch →
  ∃ covered,
    (read_single_native_journal_buffer_with start end_ max_records max_evidence physical_read cw).1 =
      Ok (filter (λ r, usn_usn r < covered) batch, covered) ∧
    start < covered ≤ end_.
Proof.
  intros Hsize Hse Hmr Hme Hread H8 Hparse Hbatch.
  destruct (retained_exact start end_ next batch max_records max_evidence Hsize ltac:(lia) Hbatch
    (parsed_wf _ _ _ H8 Hparse) Hmr Hme) as (first & raw & Hretain & Hcov & Hraw).
  exists (Z.min (default next first) end_). split; [|done].
  unfold read_single_native_journal_buffer_with, mbind, eff_bind, check, call, expect.
  rewrite (proj2 (JournalReadInterval_new_Some start end_ _)) by (split; [reflexivity|lia]). cbn [ok_or map_err].
  destruct (physical_read start cw) as [r cw1]. cbn in Hread. subst r. cbn [map_err]. rewrite Hparse. cbn [ok_or map_err].
  rewrite Hretain. cbn [map_err]. unfold JournalReadInterval_admits_coverage, JournalReadInterval_is_empty.
  cbn [interval_start_usn interval_end_usn]. set (covered := Z.min (default next first) end_) in *.
  rewrite (proj2 (Z.ltb_ge covered start)), (proj2 (Z.ltb_ge end_ covered)), (proj2 (Z.eqb_neq start end_)),
    (proj2 (Z.ltb_lt start covered)) by lia. cbn. rewrite Bool.eqb_reflx. cbn. by rewrite Hraw.
Qed.
End Buffer.

(** The journal of the sample host, read with room for one record. *)
Lemma raw_read_exact_witness :
  (read_single_native_journal_buffer_with (H1 := host_native) 90 200 1 4096 (λ _ cw, (Ok host_journal, cw))
     (service_context sample_read_key 100, sample_reading)).1 =
  Ok ([host_record 3 100 0x1000 (lit "a.png")], 110).
Proof.
  destruct (raw_read_exact (H := host_native) (λ _ cw, (Ok host_journal, cw)) 90 200 200
    [host_record 3 100 0x1000 (lit "a.png"); host_record 4 110 0x2000 (lit "b.png")] host_journal 1 4096
    (service_context sample_read_key 100, sample_reading)) as (covered & Hr & Hc).
  - cbn. lia.
  - lia.
  - lia.
  - lia.
  - reflexivity.
  - apply (bool_decide_unpack _). vm_compute. exact I.
  - vm_compute. reflexivity.
  - split; [unfold journal_ordered; repeat (constructor; cbn); lia| |lia]. repeat (constructor; cbn); lia.
  - rewrite Hr. vm_compute in Hr. injection Hr as _ Hcov. subst covered. vm_compute. reflexivity.
Defined.

(** * Roots inside one another *)

Definition nested_path (handle : Z) : str := if handle =? 3 then lit "Lib" else lit "Lib\Sub".
Definition nested_inner : RootAuthorization := host_root (lit "p") 4 (lit "C:\Lib\Sub").

Definition nested_semantics (count : nat) (r : RegisteredRoot) : RegisteredRoot :=
  {| rg_capability := rg_capability r;
     rg_pinned := {| ps_root_handle := ps_root_handle (rg_pinned r); ps_volume_handle := ps_volume_handle (rg_pinned r);
                     ps_volume_id := ps_volume_id (rg_pinned r); ps_volume_open_path := ps_volume_open_path (rg_pinned r);
                     ps_root_identity := ps_root_identity (rg_pinned r);
                     ps_canonical_root_utf16 := ps_canonical_root_utf16 (rg_pinned r);
                     ps_component_semantics := replicate count WirePath.WindowsOrdinalIgnoreCase |};
     rg_expires_at := rg_expires_at r |}.

Definition nested_handles : HandlePorts RegistryState := {|
  create_file := @create_file _ host_handles;
  attribute_tag_info := @attribute_tag_info _ host_handles;
  standard_info_directory := @standard_info_directory _ host_handles;
  file_id_info := @file_id_info _ host_handles;
  case_sensitive_info := @case_sensitive_info _ host_handles;
  final_path_name handle form _ w :=
    let path := match form with DosForm => lit "\\?\C:" ++ [WirePath.BACKSLASH] ++ nested_path handle
                              | GuidForm => sample_volume_path ++ nested_path handle end in
    ((zlen path, path), w);
  volume_information_by_handle := @volume_information_by_handle _ host_handles;
|}.
Definition nested_native : NativePorts RegistryState := {|
  read_usn_journal := @read_usn_journal _ host_native;
  query_usn_journal := @query_usn_journal _ host_native;
  open_references w :=
    (λ _ reference, Ok (sample_volume_path ++ nested_path (default 0 (head (FileReference_bytes reference)))), w);
  parsed_usn_record_size := 120;
|}.
Definition nested_security : SecurityPorts RegistryState := {|
  root_ledger _ :=
    {| ld_registrations := <[(lit "r", 1) := host_registration host_lib 3]>
                             {[(lit "p", 1) := nested_semantics 2 (host_registration nested_inner 4)]};
       ld_budget := {| bg_active := 2; bg_limit := 16 |} |};
  set_root_ledger := @set_root_ledger _ host_ports_security;
  process_alive := @process_alive _ host_ports_security;
  duplicate_handle := @duplicate_handle _ host_ports_security;
  impersonate_user := @impersonate_user _ host_ports_security;
  revert_to_self := @revert_to_self _ host_ports_security;
  reopen_for_listing := @reopen_for_listing _ host_ports_security;
  blake3_keyed := @blake3_keyed _ host_ports_security;
|}.
Definition nested_read : ExistingJournalVolumeRead :=
  {| ev_roots := [host_authorized host_lib; host_authorized nested_inner];
     ev_root_start_usns := ev_root_start_usns host_read; ev_pending_renames := [];
     ev_journal := ev_journal host_read; ev_range := ev_range host_read; ev_limits := ev_limits host_read |}.

(** The page tells root 0 about both names at position 110, and the service refuses it. *)
Lemma nested_rename_refused :
  ∃ page first second,
    (@windows_read_existing_journal_volume_page _ sample_ports nested_handles nested_native nested_security host_security
       nested_read (service_context sample_read_key 100, sample_reading)).1 = Ok page ∧
    head (sb_candidates_by_root page) = Some (Ok [first; second]) ∧ bc_usn first = 110 ∧ bc_usn second = 110 ∧
    validate_shared_backend_page (ev_journal nested_read) (ev_range nested_read) page 2 =
      Err (BrokerFailure_new JournalDiscontinuous).
Proof. eexists _, _, _. split; [vm_compute; reflexivity|]. split; [reflexivity|]. repeat (split; [reflexivity|]). vm_compute. reflexivity. Qed.
