(* ===== verification/Coalescing.v ===== *)
(** * Coalescing of library changes

    Models the check of a plan before it is queued ([application/library_change_queue.rs]), and the part of
    [adapters/sqlite_catalog/change_queue/coalescing.rs] that decides, without touching the database,
    which queued changes an intent covers, how intents are merged, how many changes each lane may hold,
    and how the intents of one journal batch are reduced. *)

From S2P Require Import Prelude Text LibraryChange Order Planning Numerals JournalText JournalBatch ChangeQueue.
From S2P Require Import PlanningCoverage.

(** ** Plans *)

(** The part of [validate_intent] that is about the shape of the intent. *)
Definition planned_shape_is_valid (intent : LibraryChangeIntent) : bool :=
  let has_path := negb (is_empty (in_relative_path intent)) in
  let has_previous_path :=
    match in_previous_relative_path intent with Some path => negb (is_empty path) | None => false end in
  match in_kind intent with
  | FreshnessUnknown =>
    bool_decide (in_scope intent = Root) && negb has_path && negb has_previous_path
  | RenameCandidate =>
    negb (bool_decide (in_scope intent = Root)) && has_path && has_previous_path
  | Reconcile =>
    match in_scope intent with
    | Root => negb has_path && negb has_previous_path
    | Path =>
      has_path && match in_previous_relative_path intent with
                  | None => true
                  | Some previous =>
                    negb (is_empty previous) && negb (bool_decide (previous = in_relative_path intent))
                  end
    | Subtree => has_path && negb has_previous_path
    end
  end.

(** [coalesced_observation_count == 0 || first > most recent], of times and of sequences. *)
Definition evidence_is_invalid (intent : LibraryChangeIntent) : bool :=
  (in_coalesced_observation_count intent =? 0)
  || (in_most_recent_observed_unix_ms intent <? in_first_observed_unix_ms intent)
  || (in_most_recent_sequence intent <? in_first_sequence intent).

Definition validate_planned_intent (plan : LibraryChangePlanningResult) (intent : LibraryChangeIntent)
    : ScanResult unit :=
  fail_if (negb (bool_decide (in_root_id intent = pl_root_id plan))
           || negb (bool_decide (in_root_generation intent = pl_root_generation plan)))
    (ScanError_new "change_queue_plan_mismatch"
       "Every durable change intent must belong to the planned root generation");;
  fail_if (evidence_is_invalid intent)
    (ScanError_new "change_queue_evidence_invalid"
       "Durable change evidence must contain a non-empty ordered observation range");;
  fail_if (negb (planned_shape_is_valid intent))
    (ScanError_new "change_queue_intent_invalid"
       "The durable change intent does not match its normalized kind and scope").

Definition validate_library_change_plan (plan : LibraryChangePlanningResult) (policy : LibraryChangeQueuePolicy)
    : ScanResult unit :=
  fail_if (negb (LibraryChangeQueuePolicy_is_valid policy))
    (ScanError_new "change_queue_policy_invalid"
       "The durable change queue policy must stay within its absolute bounds");;
  result_iter (validate_planned_intent plan) (pl_intents plan).

(** ** Lanes *)

Definition lane_priority (lane : LibraryChangeLane) : Z :=
  match lane with LaneLive => 0 | LaneJournal => 1 | LaneRecovery => 2 end.

Definition in_lane (intent : LibraryChangeIntent) : LibraryChangeLane := LibraryChangeOrigin_lane (in_origin intent).

Record ActiveLaneCounts := { ac_live : Z; ac_journal : Z; ac_recovery : Z }.

(** Replaces the count of one lane by [f] of it. *)
Definition at_lane (f : Z → Z) (self : ActiveLaneCounts) (lane : LibraryChangeLane) : ActiveLaneCounts :=
  match lane with
  | LaneLive => {| ac_live := f (ac_live self); ac_journal := ac_journal self; ac_recovery := ac_recovery self |}
  | LaneJournal => {| ac_live := ac_live self; ac_journal := f (ac_journal self); ac_recovery := ac_recovery self |}
  | LaneRecovery => {| ac_live := ac_live self; ac_journal := ac_journal self; ac_recovery := f (ac_recovery self) |}
  end.

Definition ActiveLaneCounts_replacing (self : ActiveLaneCounts) (lane : LibraryChangeLane) (absorbed_count : Z)
    : ActiveLaneCounts :=
  at_lane (λ count, saturating_add USIZE_MAX (saturating_sub count absorbed_count) 1) self lane.

Definition ActiveLaneCounts_adding (self : ActiveLaneCounts) (lane : LibraryChangeLane) (count : Z)
    : ActiveLaneCounts :=
  at_lane (λ lane_count, saturating_add USIZE_MAX lane_count count) self lane.

(** [active_lane_counts], of the intents of the changes. *)
Definition active_lane_counts (active : list LibraryChangeIntent) : ActiveLaneCounts :=
  foldl (λ counts intent, ActiveLaneCounts_adding counts (in_lane intent) 1)
    {| ac_live := 0; ac_journal := 0; ac_recovery := 0 |} active.

Definition lane_admission_allows (policy : LibraryChangeQueuePolicy) (incoming_lane : LibraryChangeLane)
    (counts : ActiveLaneCounts) : bool :=
  let total := saturating_add USIZE_MAX (saturating_add USIZE_MAX (ac_live counts) (ac_journal counts))
                 (ac_recovery counts) in
  if qp_max_unresolved_changes policy <? total then false
  else
    match incoming_lane with
    | LaneLive => true
    | LaneJournal =>
      saturating_add USIZE_MAX (ac_journal counts) (ac_recovery counts)
        <=? LibraryChangeQueuePolicy_lane_capacity policy LaneJournal
    | LaneRecovery =>
      (saturating_add USIZE_MAX (ac_journal counts) (ac_recovery counts)
         <=? LibraryChangeQueuePolicy_lane_capacity policy LaneJournal)
      && (ac_recovery counts <=? LibraryChangeQueuePolicy_lane_capacity policy LaneRecovery)
    end.

(** ** Validation of queued intents *)

Definition MAX_FAILURE_CODE_BYTES : Z := 128.
Definition MAX_FAILURE_MESSAGE_BYTES : Z := 2048.
Definition MAX_QUEUE_ROOT_ID_BYTES : Z := 1024.
Definition MAX_RELATIVE_PATH_BYTES : Z := 131072.

Definition validate_policy (policy : LibraryChangeQueuePolicy) : ScanResult unit :=
  fail_if (negb (LibraryChangeQueuePolicy_is_valid policy))
    (ScanError_new "change_queue_policy_invalid"
       "The durable change queue policy must stay within its absolute bounds").

Definition validate_root_id (root_id : str) : ScanResult unit :=
  fail_if (is_empty (trim root_id) || (MAX_QUEUE_ROOT_ID_BYTES <? str_len root_id) || contains 0 root_id)
    (ScanError_new "change_queue_root_id_invalid" "A durable change requires a valid library root identifier").

Definition valid_normalized_path (path : str) : bool :=
  negb (is_empty path)
  && (str_len path <=? MAX_RELATIVE_PATH_BYTES)
  && negb (contains 0 path || contains 92 path || contains 58 path)
  && negb (starts_with 47 path)
  && forallb (λ segment, negb (bool_decide (segment = [] ∨ segment = lit "." ∨ segment = lit "..")))
       (split_on 47 path).

Definition queued_shape_is_valid (intent : LibraryChangeIntent) : bool :=
  let has_path := valid_normalized_path (in_relative_path intent) in
  let has_previous_path :=
    match in_previous_relative_path intent with Some path => valid_normalized_path path | None => false end in
  match in_kind intent with
  | FreshnessUnknown =>
    bool_decide (in_scope intent = Root) && is_empty (in_relative_path intent)
    && bool_decide (in_previous_relative_path intent = None)
  | RenameCandidate =>
    negb (bool_decide (in_scope intent = Root)) && has_path && has_previous_path
    && negb (bool_decide (in_previous_relative_path intent = Some (in_relative_path intent)))
  | Reconcile =>
    match in_scope intent with
    | Root => is_empty (in_relative_path intent) && bool_decide (in_previous_relative_path intent = None)
    | Path =>
      has_path && match in_previous_relative_path intent with
                  | None => true
                  | Some previous => has_previous_path && negb (bool_decide (previous = in_relative_path intent))
                  end
    | Subtree => has_path && bool_decide (in_previous_relative_path intent = None)
    end
  end.

Definition validate_intent_shape (intent : LibraryChangeIntent) : ScanResult unit :=
  fail_if (negb (queued_shape_is_valid intent))
    (ScanError_new "change_queue_intent_invalid"
       "The durable change intent does not match its normalized kind and scope").

(** The loop body of [validate_intent_batch]. *)
Definition validate_batch_intent (first intent : LibraryChangeIntent) : ScanResult unit :=
  fail_if (negb (bool_decide (in_root_id intent = in_root_id first))
           || negb (bool_decide (in_root_generation intent = in_root_generation first)))
    (ScanError_new "change_queue_batch_mismatch" "One durable enqueue batch must belong to one root generation");;
  fail_if (evidence_is_invalid intent)
    (ScanError_new "change_queue_evidence_invalid"
       "Durable change evidence must contain a non-empty ordered observation range");;
  validate_intent_shape intent.

Definition validate_intent_batch (intents : list LibraryChangeIntent) (first : LibraryChangeIntent)
    : ScanResult unit :=
  validate_root_id (in_root_id first);;
  fail_if (MAX_UNRESOLVED_CHANGES <? zlen intents)
    (ScanError_new "change_queue_batch_limit_exceeded"
       "One durable enqueue batch exceeds the absolute unresolved-work bound");;
  result_iter (validate_batch_intent first) intents.

Definition validate_enqueue_batch (intents : list LibraryChangeIntent) : ScanResult unit :=
  match intents with [] => Ok () | first :: _ => validate_intent_batch intents first end.

Definition validate_failure_evidence (failure : LibraryChangeFailure) : ScanResult unit :=
  fail_if (is_reserved_failure_code (fl_code failure))
    (ScanError_new "change_queue_failure_code_reserved"
       "Capacity-deferral failure codes are reserved for the typed queue operation");;
  fail_if (is_empty (trim (fl_code failure)) || (MAX_FAILURE_CODE_BYTES <? str_len (fl_code failure))
           || contains 0 (fl_code failure) || (MAX_FAILURE_MESSAGE_BYTES <? str_len (fl_message failure))
           || contains 0 (fl_message failure))
    (ScanError_new "change_queue_failure_invalid"
       "Structured retry failure evidence exceeds its supported bounds").

Definition validate_catch_up_evidence (evidence : LibraryChangeCatchUpEvidence) : ScanResult unit :=
  fail_if (is_empty (trim (cue_source evidence)) || (128 <? str_len (cue_source evidence))
           || is_empty (trim (cue_watermark evidence)) || (1024 <? str_len (cue_watermark evidence)))
    (ScanError_new "library_change_catch_up_evidence_invalid"
       "Catch-up queue evidence exceeds its bounded storage contract").

(** ** Coverage *)

Definition is_unleased (status : LibraryChangeQueueStatus) : bool :=
  match status with Pending | RetryWait => true | _ => false end.

Definition queue_precise_dirty (intent : LibraryChangeIntent) : bool :=
  bool_decide (in_kind intent = Reconcile) && bool_decide (in_scope intent = Path)
  && match in_origin intent with LiveNotification | StartupCatchUp | MetadataInventory => true | _ => false end.

Definition affected_paths (intent : LibraryChangeIntent) : list str :=
  in_relative_path intent :: match in_previous_relative_path intent with Some p => [p] | None => [] end.

Definition queue_within_subtree (path subtree : str) : bool :=
  bool_decide (path = subtree)
  || match strip_prefix subtree path with Some suffix => starts_with 47 suffix | None => false end.

Definition rename_lineage_previous_path (intent : LibraryChangeIntent) : option str :=
  if bool_decide (in_kind intent = RenameCandidate)
     || (bool_decide (in_kind intent = Reconcile) && bool_decide (in_scope intent = Path))
  then in_previous_relative_path intent else None.

Definition path_rename_lineage_previous_path (intent : LibraryChangeIntent) : option str :=
  if bool_decide (in_scope intent = Path) then rename_lineage_previous_path intent else None.

Definition same_rename_lineage (left right : LibraryChangeIntent) : bool :=
  bool_decide (in_scope left = Path) && bool_decide (in_scope right = Path)
  && bool_decide (in_relative_path left = in_relative_path right)
  && bool_decide (is_Some (path_rename_lineage_previous_path left))
  && bool_decide (path_rename_lineage_previous_path left = path_rename_lineage_previous_path right).

Definition same_work_key (left right : LibraryChangeIntent) : bool :=
  (bool_decide (in_kind left = in_kind right) && bool_decide (in_scope left = in_scope right)
   && bool_decide (in_relative_path left = in_relative_path right)
   && bool_decide (in_previous_relative_path left = in_previous_relative_path right))
  || same_rename_lineage left right.

Definition intent_covers (covering candidate : LibraryChangeIntent) : bool :=
  if negb (bool_decide (in_scope covering = Path)) && queue_precise_dirty candidate then false
  else
    match in_scope covering with
    | Root => true
    | Subtree =>
      forallb (λ candidate_path,
        existsb (λ subtree_path, queue_within_subtree candidate_path subtree_path) (affected_paths covering))
        (affected_paths candidate)
    | Path =>
      same_work_key covering candidate
      || (bool_decide (is_Some (path_rename_lineage_previous_path covering))
          && bool_decide (in_kind candidate = Reconcile) && bool_decide (in_scope candidate = Path)
          && bool_decide (in_relative_path covering = in_relative_path candidate))
    end.

Definition affected_paths_overlap (left right : LibraryChangeIntent) : bool :=
  existsb (λ left_path,
    existsb (λ right_path,
      bool_decide (left_path = right_path)
      || (bool_decide (in_scope left = Subtree) && queue_within_subtree right_path left_path)
      || (bool_decide (in_scope right = Subtree) && queue_within_subtree left_path right_path))
      (affected_paths right)) (affected_paths left).

Definition stale_overlap (leased incoming : LibraryChangeIntent) : bool :=
  intent_covers leased incoming || intent_covers incoming leased || affected_paths_overlap leased incoming.

Definition exact_path_work_identity (left right : LibraryChangeIntent) : bool :=
  bool_decide (in_scope left = Path) && bool_decide (in_scope right = Path)
  && bool_decide (in_relative_path left = in_relative_path right)
  && bool_decide (in_previous_relative_path left = in_previous_relative_path right).

(** Two renames that touch each other's paths without being the same rename. *)
Definition renames_conflict (change incoming : LibraryChangeIntent) : bool :=
  bool_decide (is_Some (rename_lineage_previous_path change)) && negb (same_work_key change incoming)
  && affected_paths_overlap change incoming.

Definition intent_strength (intent : LibraryChangeIntent) : Z :=
  if bool_decide (in_kind intent = Reconcile) && bool_decide (is_Some (path_rename_lineage_previous_path intent))
  then 2
  else
    match in_kind intent, in_scope intent with
    | FreshnessUnknown, _ => 5
    | _, Root => 4
    | _, Subtree => 3
    | RenameCandidate, _ => 2
    | _, _ => 1
    end.

Definition preserves_inventory_control (incoming : LibraryChangeIntent) : bool :=
  negb (bool_decide (in_kind incoming = FreshnessUnknown))
  && match in_origin incoming with StartupCatchUp | ConsistencyAudit => false | _ => true end.

(** ** Merging *)

Definition set_rename (target : LibraryChangeIntent) (previous : str) : LibraryChangeIntent :=
  {| in_root_id := in_root_id target; in_root_generation := in_root_generation target;
     in_kind := Reconcile; in_scope := in_scope target; in_relative_path := in_relative_path target;
     in_previous_relative_path := Some previous; in_origin := in_origin target;
     in_first_observed_unix_ms := in_first_observed_unix_ms target;
     in_most_recent_observed_unix_ms := in_most_recent_observed_unix_ms target;
     in_first_sequence := in_first_sequence target; in_most_recent_sequence := in_most_recent_sequence target;
     in_coalesced_observation_count := in_coalesced_observation_count target |}.

Definition merge_dirty_rename_semantics (target evidence : LibraryChangeIntent) : LibraryChangeIntent :=
  if negb (bool_decide (in_scope target = Path)) || negb (bool_decide (in_scope evidence = Path))
     || negb (bool_decide (in_relative_path target = in_relative_path evidence))
  then target
  else
    let target_previous := path_rename_lineage_previous_path target in
    let evidence_previous := path_rename_lineage_previous_path evidence in
    if bool_decide (is_Some target_previous) && bool_decide (is_Some evidence_previous)
       && negb (bool_decide (target_previous = evidence_previous))
    then target
    else
      let previous :=
        if bool_decide (in_kind target = Reconcile) then evidence_previous
        else if bool_decide (in_kind evidence = Reconcile) then target_previous
        else None in
      match previous with
      | None => target
      | Some previous => set_rename target previous
      end.

Definition merge_evidence_range (target evidence : LibraryChangeIntent) : LibraryChangeIntent :=
  let target := merge_dirty_rename_semantics target evidence in
  {| in_root_id := in_root_id target; in_root_generation := in_root_generation target;
     in_kind := in_kind target; in_scope := in_scope target; in_relative_path := in_relative_path target;
     in_previous_relative_path := in_previous_relative_path target; in_origin := in_origin target;
     in_first_observed_unix_ms := Z.min (in_first_observed_unix_ms target) (in_first_observed_unix_ms evidence);
     in_most_recent_observed_unix_ms := in_most_recent_observed_unix_ms target;
     in_first_sequence := Z.min (in_first_sequence target) (in_first_sequence evidence);
     in_most_recent_sequence := in_most_recent_sequence target;
     in_coalesced_observation_count :=
       saturating_add U32_MAX (in_coalesced_observation_count target) (in_coalesced_observation_count evidence) |}.

Definition merge_newer_evidence (target evidence : LibraryChangeIntent) : LibraryChangeIntent :=
  let target := merge_evidence_range target evidence in
  {| in_root_id := in_root_id target; in_root_generation := in_root_generation target;
     in_kind := in_kind target; in_scope := in_scope target; in_relative_path := in_relative_path target;
     in_previous_relative_path := in_previous_relative_path target; in_origin := in_origin evidence;
     in_first_observed_unix_ms := in_first_observed_unix_ms target;
     in_most_recent_observed_unix_ms := in_most_recent_observed_unix_ms evidence;
     in_first_sequence := in_first_sequence target;
     in_most_recent_sequence := in_most_recent_sequence evidence;
     in_coalesced_observation_count := in_coalesced_observation_count target |}.

Definition merge_older_evidence (target evidence : LibraryChangeIntent) : LibraryChangeIntent :=
  merge_evidence_range target evidence.

(** [intent.kind = kind] *)
Definition set_kind (kind : LibraryChangeIntentKind) (target : LibraryChangeIntent) : LibraryChangeIntent :=
  {| in_root_id := in_root_id target; in_root_generation := in_root_generation target;
     in_kind := kind; in_scope := in_scope target; in_relative_path := in_relative_path target;
     in_previous_relative_path := in_previous_relative_path target; in_origin := in_origin target;
     in_first_observed_unix_ms := in_first_observed_unix_ms target;
     in_most_recent_observed_unix_ms := in_most_recent_observed_unix_ms target;
     in_first_sequence := in_first_sequence target; in_most_recent_sequence := in_most_recent_sequence target;
     in_coalesced_observation_count := in_coalesced_observation_count target |}.

(** The target that absorbs an incoming intent: newer evidence, and doubt about the root stays. *)
Definition absorb_incoming (target incoming : LibraryChangeIntent) : LibraryChangeIntent :=
  let merged := merge_newer_evidence target incoming in
  if bool_decide (in_kind incoming = FreshnessUnknown) then set_kind FreshnessUnknown merged else merged.

(** The incoming intent, about the whole root. *)
Definition whole_root (incoming : LibraryChangeIntent) : LibraryChangeIntent :=
  {| in_root_id := in_root_id incoming; in_root_generation := in_root_generation incoming;
     in_kind := FreshnessUnknown; in_scope := Root; in_relative_path := [];
     in_previous_relative_path := None; in_origin := in_origin incoming;
     in_first_observed_unix_ms := in_first_observed_unix_ms incoming;
     in_most_recent_observed_unix_ms := in_most_recent_observed_unix_ms incoming;
     in_first_sequence := in_first_sequence incoming; in_most_recent_sequence := in_most_recent_sequence incoming;
     in_coalesced_observation_count := in_coalesced_observation_count incoming |}.

(** [iter.max_by_key(key)]: the last of the greatest. *)
Definition max_by_key {A} (key : A → Z) (l : list A) : option A :=
  foldl (λ best x, match best with
                   | Some y => if key y <=? key x then Some x else best
                   | None => Some x
                   end) None l.

(** [iter.min_by_key(key)] over a key with a decidable strict order: the first of the least. *)
Definition min_by {A} (less : A → A → bool) (l : list A) : option A :=
  foldl (λ best x, match best with
                   | Some y => if less x y then Some x else best
                   | None => Some x
                   end) None l.

(** ** The intents of a journal batch *)

Definition normalize_persistent_journal_intent (active : list LibraryChangeIntent) (incoming : LibraryChangeIntent)
    : list LibraryChangeIntent :=
  if bool_decide (is_Some (rename_lineage_previous_path incoming))
     && existsb (λ change, renames_conflict change incoming) active
  then [foldl merge_older_evidence (whole_root incoming) active]
  else
    match list_find (λ change, intent_covers change incoming = true) active with
    | Some (target_index, target) =>
      let merged :=
        foldl (λ merged entry,
          if negb (Nat.eqb entry.1 target_index) && intent_covers merged entry.2
          then merge_older_evidence merged entry.2 else merged)
          (absorb_incoming target incoming) (imap pair active) in
      imap pair active ≫= λ entry : nat * LibraryChangeIntent,
        if Nat.eqb entry.1 target_index then [merged]
        else if negb (intent_covers merged entry.2) then [entry.2] else []
    | None =>
      let absorbed := filter (λ entry : nat * LibraryChangeIntent, intent_covers incoming entry.2 = true)
                        (imap pair active) in
      let stronger := max_by_key (λ entry, intent_strength entry.2) absorbed in
      let merged :=
        match stronger with
        | Some (_, change) => merge_newer_evidence change incoming
        | None => incoming
        end in
      let merged :=
        foldl (λ merged entry,
          if bool_decide (Some entry.1 = fst <$> stronger) then merged else merge_older_evidence merged entry.2)
          merged absorbed in
      (filter (λ change, intent_covers incoming change = false) active) ++ [merged]
    end.

Definition intent_order (left right : LibraryChangeIntent) : comparison :=
  then_with (compare_on Z.compare in_most_recent_sequence left right)
    (then_with (compare_on Z.compare in_first_sequence left right)
       (compare_on lex_compare canonical_intent left right)).

Definition normalize_persistent_journal_intents (intents : list LibraryChangeIntent)
    : ScanResult (list LibraryChangeIntent) :=
  match intents with
  | [] => Ok []
  | first :: _ =>
    validate_intent_batch intents first;;
    let ordered := sort_by intent_order intents in
    let normalized := foldl normalize_persistent_journal_intent [] ordered in
    Ok (sort_by (compare_on lex_compare canonical_intent) normalized)
  end.

(** * Laws of coalescing *)

(** Everything [b] asks to reconcile is reconciled by [a]. *)
Definition includes (a b : LibraryChangeIntent) : Prop := ∀ place, covers b place → covers a place.

#[export] Instance includes_preorder : PreOrder includes.
Proof. split; [by intros a place|]. intros a b c Hab Hbc place Hc. apply Hab, Hbc, Hc. Qed.

(** A path in the shape a queued intent has. *)
Lemma valid_path_ne path : valid_normalized_path path = true → path ≠ [].
Proof. destruct path; [done|]. by intros _. Qed.

(** What every queued intent satisfies: a valid shape, and evidence of at least one observation in order. *)
Record queued (i : LibraryChangeIntent) : Prop := {
  qd_shape : queued_shape_is_valid i = true;
  qd_count : 0 < in_coalesced_observation_count i;
  qd_times : in_first_observed_unix_ms i ≤ in_most_recent_observed_unix_ms i;
  qd_sequences : in_first_sequence i ≤ in_most_recent_sequence i;
}.
#[export] Hint Resolve qd_shape : core.

(** The shape of queued intents, case by case. *)
Inductive shape_view (i : LibraryChangeIntent) : Prop :=
| shape_root : in_scope i = Root → in_relative_path i = [] → in_previous_relative_path i = None →
    in_kind i ≠ RenameCandidate → shape_view i
| shape_subtree : in_scope i = Subtree → in_relative_path i ≠ [] → in_kind i ≠ FreshnessUnknown →
    (∀ p, in_previous_relative_path i = Some p → p ≠ [] ∧ p ≠ in_relative_path i ∧ in_kind i = RenameCandidate) →
    shape_view i
| shape_path : in_scope i = Path → in_relative_path i ≠ [] → in_kind i ≠ FreshnessUnknown →
    (∀ p, in_previous_relative_path i = Some p → p ≠ [] ∧ p ≠ in_relative_path i) →
    (in_kind i = RenameCandidate → is_Some (in_previous_relative_path i)) → shape_view i.

Lemma shape_of i : queued_shape_is_valid i = true → shape_view i.
Proof.
  destruct i as [root generation kind scope path previous origin t1 t2 s1 s2 n]. unfold queued_shape_is_valid. cbn.
  destruct kind, scope, previous as [p|]; cbn; rewrite ?andb_false_r, ?andb_true_r; try done; intros H;
    repeat match goal with
    | H : _ && _ = true |- _ => apply andb_true_iff in H as [? H]
    | H : negb _ = true |- _ => apply negb_true_iff in H
    | H : valid_normalized_path _ = true |- _ => apply valid_path_ne in H
    | H : bool_decide _ = false |- _ => apply bool_decide_eq_false in H
    | H : is_empty ?l = true |- _ => destruct l; [clear H|discriminate H]
    end.
  all: first
    [ by apply shape_root
    | apply shape_subtree; cbn; [done|done|done|intros ? [= <-]; split_and!; congruence]
    | apply shape_subtree; cbn; [done|done|done|done]
    | apply shape_path; cbn; [done|done|done|intros ? [= <-]; split; congruence|by eauto]
    | apply shape_path; cbn; [done|done|done|done|done] ].
Qed.

(** ** Paths *)

Lemma queue_within path subtree :
  subtree ≠ [] → queue_within_subtree path subtree = is_within_subtree path subtree.
Proof. intros Hne. unfold queue_within_subtree, is_within_subtree. by destruct subtree. Qed.

Lemma affected_intent_paths i : affected_paths i = intent_paths i.
Proof. done. Qed.

Lemma queued_paths_ne i p : queued_shape_is_valid i = true → in_scope i ≠ Root → p ∈ affected_paths i → p ≠ [].
Proof.
  intros Hi%shape_of Hs Hp. unfold affected_paths in Hp. apply elem_of_cons in Hp.
  destruct Hi as [?|? ? ? Hq|? ? ? Hq ?]; [done| |]; destruct Hp as [->|Hp]; try done;
    destruct (in_previous_relative_path i) as [q|]; apply list_elem_of_singleton in Hp || by apply elem_of_nil in Hp.
  all: subst; by destruct (Hq _ eq_refl).
Qed.

(** ** Lineages *)

(** The previous path of a rename that [a] and [b] both report for the same path is the same. *)
Definition lineage_agrees (a b : LibraryChangeIntent) : Prop :=
  in_scope a = Path → in_scope b = Path → in_relative_path a = in_relative_path b →
  ∀ p q, in_previous_relative_path a = Some p → in_previous_relative_path b = Some q → p = q.

Lemma lineage_agrees_sym a b : lineage_agrees a b → lineage_agrees b a.
Proof. intros H Hb Ha Hp p q Hbp Haq. symmetry. by eapply H. Qed.

Lemma lineage_refl a : lineage_agrees a a.
Proof. intros _ _ _ p q H1 H2. congruence. Qed.

Lemma path_lineage i :
  queued_shape_is_valid i = true →
  path_rename_lineage_previous_path i = if bool_decide (in_scope i = Path) then in_previous_relative_path i else None.
Proof.
  intros Hi%shape_of. unfold path_rename_lineage_previous_path, rename_lineage_previous_path.
  case_bool_decide as Hs; [|done]. destruct Hi as [?|?|_ _ Hk _ _]; [congruence|congruence|].
  destruct (in_kind i); [done|done|done].
Qed.

(** The same work has the same places. *)
Definition same_places (a b : LibraryChangeIntent) : Prop :=
  in_scope a = in_scope b ∧ in_relative_path a = in_relative_path b ∧
  in_previous_relative_path a = in_previous_relative_path b.

Lemma same_places_includes a b : same_places a b → includes a b.
Proof. intros (Hs & Hr & Hp) place. unfold covers, intent_paths. by rewrite Hs, Hr, Hp. Qed.

Lemma same_work_places a b :
  queued_shape_is_valid a = true → queued_shape_is_valid b = true → same_work_key a b = true → same_places a b.
Proof.
  intros Ha Hb. unfold same_work_key, same_rename_lineage. rewrite !path_lineage by done.
  rewrite orb_true_iff, !andb_true_iff, !bool_decide_eq_true.
  intros [(((_ & Hs) & Hr) & Hp)|((((Hs & Hs') & Hr) & _) & Hp)]; [done|].
  rewrite !bool_decide_eq_true_2 in Hp by done. split_and!; congruence.
Qed.

(** The whole of what a covering intent covers. *)
Lemma intent_covers_includes a b :
  queued_shape_is_valid a = true → queued_shape_is_valid b = true → lineage_agrees a b →
  intent_covers a b = true → includes a b.
Proof.
  intros Ha Hb Hl. unfold intent_covers. destruct (negb _ && _); [done|]. destruct (in_scope a) eqn:Hs.
  - rewrite orb_true_iff. intros [Hk|H]; [by apply same_places_includes, same_work_places|].
    rewrite path_lineage, Hs, (bool_decide_eq_true_2 (Path = Path)) in H by done.
    rewrite !andb_true_iff, !bool_decide_eq_true in H. destruct H as ((([p Hp] & _) & Hsb) & Hr).
    intros place [?|(Hne & q & Hq & Hplace)]; [congruence|]. right. split; [done|]. rewrite Hsb in Hplace.
    exists q. rewrite Hs. split; [|done]. unfold intent_paths in *. apply elem_of_cons in Hq as [Hq|Hq]; [rewrite Hq, <-Hr; by left|].
    destruct (in_previous_relative_path b) as [q'|] eqn:Eq; [|by apply elem_of_nil in Hq].
    apply list_elem_of_singleton in Hq as ->. rewrite Hp. right. by rewrite (Hl Hs Hsb Hr p q' Hp Eq), list_elem_of_singleton.
  - rewrite forallb_forall. intros H. assert (in_scope b ≠ Root) as Hbr.
    { intros Hbr. destruct (shape_of b Hb) as [_ Hrel _ _|?|?]; [|congruence|congruence].
      specialize (H (in_relative_path b) (or_introl eq_refl)). rewrite existsb_exists in H. destruct H as (t & Ht & Hw).
      assert (t ≠ []) as Hne by (apply (queued_paths_ne a); [done|congruence|by apply list_elem_of_In]).
      rewrite Hrel, queue_within, within_subtree_spec in Hw by done. destruct Hw as [?|[?|[r Hr]]]; [done|congruence|].
      by destruct t. }
    intros place [?|(Hne & p & Hp & Hplace)]; [done|]. right. split; [done|].
    specialize (H p ltac:(by apply list_elem_of_In)). rewrite existsb_exists in H. destruct H as (t & Ht & Hw).
    apply list_elem_of_In in Ht. exists t. split; [done|]. rewrite Hs.
    rewrite queue_within in Hw by (apply (queued_paths_ne a); [done|congruence|done]).
    destruct (in_scope b); [|by eapply within_subtree_trans|done]. by destruct Hplace as [_ ->].
  - intros _ place _. by apply covers_root.
Qed.

(** ** Merging *)

(** What merging changes of an intent's shape. *)
Lemma merged_dirty t e :
  queued_shape_is_valid t = true → queued_shape_is_valid e = true →
  merge_dirty_rename_semantics t e = t ∨
  ∃ p, merge_dirty_rename_semantics t e = set_rename t p ∧ in_scope t = Path ∧ in_scope e = Path ∧
    in_relative_path t = in_relative_path e ∧
    ((in_previous_relative_path t = Some p) ∨
     (in_previous_relative_path t = None ∧ in_previous_relative_path e = Some p)).
Proof.
  intros Ht He. unfold merge_dirty_rename_semantics. rewrite !path_lineage by done.
  destruct (bool_decide_reflect (in_scope t = Path)) as [Hst|]; [|by left].
  destruct (bool_decide_reflect (in_scope e = Path)) as [Hse|]; [|by left].
  destruct (bool_decide_reflect (in_relative_path t = in_relative_path e)) as [Hr|]; [|by left]. cbn [negb orb].
  destruct (in_previous_relative_path t) as [p|] eqn:Ep, (in_previous_relative_path e) as [q|] eqn:Eq; cbn [is_Some];
    rewrite ?(bool_decide_eq_true_2 (is_Some _)) by eauto;
    rewrite ?(bool_decide_eq_false_2 (is_Some None)) by (by intros []); cbn [andb].
  - case_bool_decide as Epq; [|by left]. simplify_eq. cbn [negb].
    case_bool_decide; [right; exists q; by split_and!; auto|].
    case_bool_decide; [right; exists q; by split_and!; auto|by left].
  - case_bool_decide; [by left|]. case_bool_decide; [right; exists p; by split_and!; auto|by left].
  - case_bool_decide; [right; exists q; by split_and!; auto|]. case_bool_decide; by left.
  - case_bool_decide; [by left|]. case_bool_decide; by left.
Qed.

(** [m] is [t] with its evidence extended and, for a path, perhaps the previous path of a rename added. *)
Record extends (t m : LibraryChangeIntent) : Prop := {
  ex_root_id : in_root_id m = in_root_id t;
  ex_generation : in_root_generation m = in_root_generation t;
  ex_scope : in_scope m = in_scope t;
  ex_path : in_relative_path m = in_relative_path t;
  ex_previous : in_previous_relative_path m = in_previous_relative_path t ∨ in_previous_relative_path t = None;
}.

#[export] Instance extends_preorder : PreOrder extends.
Proof.
  split; [by intros t; split; auto|]. intros a b c [H1 H2 H3 H4 H5] [K1 K2 K3 K4 K5]. split; try congruence.
  destruct H5 as [H5|H5]; [|by right]. rewrite <-H5. destruct K5; [by left; congruence|by right; congruence].
Qed.

Lemma extends_includes t m : extends t m → includes m t.
Proof.
  intros [_ _ Hs Hr Hp] place. unfold covers, intent_paths. rewrite Hs, Hr.
  intros [?|(Hne & p & Hin & H)]; [by left|]. right. split; [done|]. exists p. split; [|done].
  apply elem_of_cons in Hin as [->|Hin]; [by left|]. destruct Hp as [->|Hp]; [by right|].
  rewrite Hp in Hin. by apply elem_of_nil in Hin.
Qed.

Lemma set_rename_queued t e p :
  queued t → queued e → in_scope t = Path → in_scope e = Path → in_relative_path t = in_relative_path e →
  (in_previous_relative_path t = Some p ∨ in_previous_relative_path t = None ∧ in_previous_relative_path e = Some p) →
  queued (set_rename t p).
Proof.
  intros [Hshape ???] [Heshape ???] Hst Hse Hr Hp. split; [|done..].
  unfold queued_shape_is_valid in *. cbn [set_rename in_kind in_scope in_relative_path in_previous_relative_path].
  rewrite Hst in *. rewrite Hse in Heshape.
  assert (valid_normalized_path (in_relative_path t) = true ∧ valid_normalized_path p = true ∧ p ≠ in_relative_path t)
    as (-> & -> & Hne).
  { destruct Hp as [Hp|[_ Hp]].
    - rewrite Hp in Hshape. destruct (in_kind t); cbn in Hshape;
        rewrite ?andb_true_iff, ?negb_true_iff, ?bool_decide_eq_false in Hshape; naive_solver congruence.
    - rewrite Hr. rewrite Hp in Heshape. destruct (in_kind e); cbn in Heshape;
        rewrite ?andb_true_iff, ?negb_true_iff, ?bool_decide_eq_false in Heshape; naive_solver congruence. }
  cbn. by rewrite bool_decide_eq_false_2.
Qed.

Lemma merged_dirty_ok t e :
  queued t → queued e → extends t (merge_dirty_rename_semantics t e) ∧ queued (merge_dirty_rename_semantics t e).
Proof.
  intros Ht He. destruct (merged_dirty t e (qd_shape _ Ht) (qd_shape _ He)) as [->|(p & -> & Hst & Hse & Hr & Hp)]; [done|].
  split; [|by eapply set_rename_queued]. split; try done. cbn. destruct Hp as [->|[? _]]; [by left|by right].
Qed.

Lemma merged_range_ok t e :
  queued t → queued e → extends t (merge_evidence_range t e) ∧ queued (merge_evidence_range t e).
Proof.
  intros Ht He. destruct (merged_dirty_ok t e Ht He) as [[] [Hq ???]]. destruct He. split; [by split|].
  split; [exact Hq|cbn..]; unfold saturating_add, U32_MAX; lia.
Qed.

Lemma merge_older_ok t e :
  queued t → queued e → extends t (merge_older_evidence t e) ∧ queued (merge_older_evidence t e).
Proof. apply merged_range_ok. Qed.

Lemma merge_newer_ok t e :
  queued t → queued e → extends t (merge_newer_evidence t e) ∧ queued (merge_newer_evidence t e).
Proof.
  intros Ht He. destruct (merged_range_ok t e Ht He) as [[] [Hq ???]]. destruct He. split; [by split|].
  split; [exact Hq|done|cbn in *; lia..].
Qed.

Lemma merge_older_all t es :
  queued t → Forall queued es → extends t (foldl merge_older_evidence t es) ∧ queued (foldl merge_older_evidence t es).
Proof.
  intros Ht Hes. revert t Ht. induction Hes as [|e es He _ IH]; intros t Ht; [done|]. cbn.
  destruct (merge_older_ok t e Ht He) as [Hx Hq]. destruct (IH _ Hq) as [Hx' Hq']. split; [by etrans|done].
Qed.

(** A covering intent that absorbs another stays valid; it is marked as doubtful only as a whole root. *)
Lemma absorb_incoming_ok t incoming :
  queued t → queued incoming → intent_covers t incoming = true →
  extends t (absorb_incoming t incoming) ∧ queued (absorb_incoming t incoming).
Proof.
  intros Ht Hi Hcov. unfold absorb_incoming. destruct (merge_newer_ok t incoming Ht Hi) as [Hx Hq].
  case_bool_decide as Hk; [|done]. split; [by destruct Hx|]. destruct Hq. split; [|done..].
  assert (in_scope incoming = Root) as Hr by (destruct (shape_of incoming (qd_shape _ Hi)); congruence).
  assert (in_scope t = Root) as Hs.
  { assert (includes t incoming) as Hinc.
    { apply intent_covers_includes; [by destruct Ht|by destruct Hi| |done]. intros _ ?. congruence. }
    destruct (Hinc {| pc_scope := Root; pc_path := [] |}) as [?|[? _]]; [by apply covers_root|done|done]. }
  destruct (shape_of _ qd_shape0) as [Hs' Hrel Hprev _|Hs' ? _ _|Hs' ? _ _ _]; rewrite (ex_scope _ _ Hx) in Hs'; try congruence.
  unfold queued_shape_is_valid, set_kind. cbn [in_kind in_scope in_relative_path in_previous_relative_path].
  by rewrite (ex_scope _ _ Hx), Hs, Hrel, Hprev.
Qed.

Lemma whole_root_ok i : queued i → queued (whole_root i).
Proof. intros []. by split. Qed.

Lemma whole_root_includes i j : includes (whole_root i) j.
Proof. intros place _. by apply covers_root. Qed.
