(* ===== verification/JournalIntents.v ===== *)
(** * The intents of a journal batch

    Specifies [normalize_persistent_journal_intents] of
    [adapters/sqlite_catalog/change_queue/coalescing.rs], which reduces the intents of one journal batch
    before they are queued: what it keeps of them, and the batches of which it loses a part. *)

From Stdlib Require Import Sorted.
From S2P Require Import Prelude Text LibraryChange Order Planning PlanningCoverage Numerals JournalText JournalBatch.
From S2P Require Import ChangeQueue Coalescing.

(** ** Coverage and places *)

#[export] Instance same_places_equiv : Equivalence same_places.
Proof. split; [by intros a|intros a b (?&?&?)|intros a b c (?&?&?) (?&?&?)]; unfold same_places; split_and!; congruence. Qed.

Lemma same_places_agree a a' b : same_places a a' → lineage_agrees a b → lineage_agrees a' b.
Proof. intros (Hs & Hr & Hp) H. unfold lineage_agrees. by rewrite <-Hs, <-Hr, <-Hp. Qed.

(** A path intent that covers another is about the same path. *)
Lemma path_covers a b :
  queued a → queued b → in_scope a = Path → intent_covers a b = true →
  in_scope b = Path ∧ in_relative_path a = in_relative_path b ∧
  (same_places a b ∨ is_Some (in_previous_relative_path a) ∧ in_kind b = Reconcile).
Proof.
  intros [Ha _ _ _] [Hb _ _ _] Hs. unfold intent_covers. rewrite Hs. cbn [bool_decide negb andb].
  rewrite (bool_decide_eq_true_2 (Path = Path)) by done. cbn [negb andb].
  rewrite path_lineage, Hs, (bool_decide_eq_true_2 (Path = Path)) by done.
  rewrite orb_true_iff, !andb_true_iff, !bool_decide_eq_true.
  intros [Hk%same_work_places|(((Hp & Hk) & Hsb) & Hr)]; [|done|done|by auto].
  destruct Hk as (? & ? & ?). split_and!; [congruence|done|left; by split_and!].
Qed.

(** Merging what an intent covers leaves its places as they are. *)
Lemma merge_dirty_covered t e :
  queued t → queued e → lineage_agrees t e → intent_covers t e = true → same_places (merge_dirty_rename_semantics t e) t.
Proof.
  intros Ht He Hl Hc. destruct (merged_dirty t e (qd_shape _ Ht) (qd_shape _ He))
    as [->|(p & -> & Hst & Hse & Hr & [Hp|[Hn Hp]])]; [done|by split_and!|].
  destruct (path_covers t e Ht He Hst Hc) as (_ & _ & [(_ & _ & Hsame)|[[q Hq] _]]); congruence.
Qed.

Lemma merge_older_covered t e :
  queued t → queued e → lineage_agrees t e → intent_covers t e = true → same_places (merge_older_evidence t e) t.
Proof. intros. exact (merge_dirty_covered t e ltac:(done) ltac:(done) ltac:(done) ltac:(done)). Qed.

Lemma absorb_covered t e :
  queued t → queued e → lineage_agrees t e → intent_covers t e = true → same_places (absorb_incoming t e) t.
Proof.
  intros. unfold absorb_incoming. pose proof (merge_dirty_covered t e ltac:(done) ltac:(done) ltac:(done) ltac:(done)).
  by case_bool_decide.
Qed.

(** ** Where the elements come from *)

(** What [e] tells of the processed intents: a whole root, a subtree as one of them reported it, or a path
    with the origin of the newest of them. *)
Inductive stems_from (seen : list LibraryChangeIntent) (e : LibraryChangeIntent) : Prop :=
| stems_root : in_scope e = Root → stems_from seen e
| stems_subtree n : in_scope e = Subtree → n ∈ seen → same_places e n → stems_from seen e
| stems_path n : in_scope e = Path → n ∈ seen → in_scope n = Path → in_relative_path n = in_relative_path e →
    in_origin n = in_origin e →
    (in_previous_relative_path n = None ∨ in_previous_relative_path n = in_previous_relative_path e) →
    (in_kind e = RenameCandidate → in_kind n = RenameCandidate) → stems_from seen e.

Lemma stems_mono seen seen' e : seen ⊆ seen' → stems_from seen e → stems_from seen' e.
Proof.
  intros Hs [?|n ? Hn ?|n ? Hn ? ? ? ? ?]; [by apply stems_root|by eapply stems_subtree; eauto|].
  eapply stems_path; eauto.
Qed.

Lemma stems_self seen e : queued e → e ∈ seen → stems_from seen e.
Proof.
  intros Hq He. destruct (in_scope e) eqn:Hs; [|by eapply stems_subtree|by apply stems_root].
  eapply stems_path; eauto.
Qed.

(** A subtree or root that covers [e] covers a processed intent. *)
Lemma wide_covers_stem seen i e :
  queued e → in_scope i ≠ Path → intent_covers i e = true → stems_from seen e →
  in_scope e = Root ∨ ∃ n, n ∈ seen ∧ intent_covers i n = true ∧ (same_places i n → same_places i e).
Proof.
  intros Hq Hi Hc Hst. unfold intent_covers in *. rewrite (bool_decide_eq_false_2 (in_scope i = Path)) in * by done.
  cbn [negb andb] in *. destruct (queue_precise_dirty e) eqn:Hpe; [done|].
  destruct Hst as [?|n Hs Hn (Hsn & Hrn & Hpn)|n Hs Hn Hsn Hrn Ho Hpn Hk]; [by left| |]; right; exists n.
  - assert (queue_precise_dirty n = false) as ->.
    { unfold queue_precise_dirty. rewrite <-Hsn, Hs, (bool_decide_eq_false_2 (Subtree = Path)) by done.
      by rewrite andb_false_r. }
    split_and!; [done| |intros (? & ? & ?); split_and!; congruence].
    destruct (in_scope i); [done| |done]. unfold affected_paths in *. by rewrite <-Hrn, <-Hpn.
  - assert (queue_precise_dirty n = false) as ->.
    { unfold queue_precise_dirty in *. rewrite Ho, Hsn. rewrite Hs in Hpe.
      destruct (in_kind n) eqn:Hkn; [|done|done]. destruct (in_kind e) eqn:Hke; [exact Hpe|naive_solver|].
      destruct (shape_of e (qd_shape _ Hq)); congruence. }
    split_and!; [done| |intros (? & _); congruence]. destruct (in_scope i); [done| |done].
    rewrite forallb_forall in *. intros p Hp. apply Hc. unfold affected_paths in *. rewrite <-Hrn.
    destruct Hp as [<-|Hp]; [by left|]. right. destruct Hpn as [Hpn|Hpn]; rewrite Hpn in Hp; [done|exact Hp].
Qed.

(** ** Merging several intents *)

(** [m'] is [m] with more evidence: the same places and origin, and no rename where there was none. *)
Record refines (m m' : LibraryChangeIntent) : Prop := {
  rf_queued : queued m';
  rf_places : same_places m' m;
  rf_origin : in_origin m' = in_origin m;
  rf_kind : in_kind m' = RenameCandidate → in_kind m = RenameCandidate;
}.

Lemma refines_refl m : queued m → refines m m.
Proof. by split. Qed.

Lemma refines_trans a b c : refines a b → refines b c → refines a c.
Proof. intros [? Hp ? ?] [? Hp' ? ?]. split; [done|by etrans|congruence|auto]. Qed.

Lemma merge_older_refines t e :
  queued t → queued e → same_places (merge_dirty_rename_semantics t e) t → refines t (merge_older_evidence t e).
Proof.
  intros Ht He Hs. split; [by apply merge_older_ok|exact Hs| |];
    destruct (merged_dirty t e (qd_shape _ Ht) (qd_shape _ He)) as [Heq|(p & Heq & _)]; cbn; by rewrite Heq.
Qed.

Lemma merge_plain t e :
  queued t → queued e → in_previous_relative_path e = None → refines t (merge_older_evidence t e).
Proof.
  intros Ht He Hn. apply merge_older_refines; [done|done|].
  destruct (merged_dirty t e (qd_shape _ Ht) (qd_shape _ He)) as [->|(p & -> & _ & _ & _ & [Hp|[_ ?]])];
    [done|by split_and!|congruence].
Qed.

Lemma fold_refines {A} (f : LibraryChangeIntent → A → LibraryChangeIntent) m es :
  queued m → (∀ m' e, e ∈ es → refines m m' → refines m' (f m' e)) → refines m (foldl f m es).
Proof.
  intros Hm Hf. assert (∀ m', refines m m' → refines m (foldl f m' es)) as H; [|by apply H, refines_refl].
  induction es as [|e es IH]; intros m' Hm'; [done|]. cbn. apply IH.
  - intros m'' e' He'. apply Hf. by right.
  - eapply refines_trans; [exact Hm'|]. apply Hf; [by left|done].
Qed.

(** ** The step *)

Record normal_state (seen active : list LibraryChangeIntent) : Prop := {
  ns_queued : Forall queued active;
  ns_kept : ∀ i, i ∈ seen → ∃ m, m ∈ active ∧ includes m i;
  ns_stems : Forall (stems_from seen) active;
  ns_agree : ∀ a b, a ∈ active → b ∈ active → lineage_agrees a b;
  ns_short : (length active ≤ length seen)%nat;
}.

Lemma no_conflict incoming c :
  queued incoming → queued c →
  bool_decide (is_Some (rename_lineage_previous_path incoming)) && renames_conflict c incoming = false →
  lineage_agrees c incoming.
Proof.
  intros [Hi _ _ _] [Hc _ _ _] H Hsc Hsi Hr p q Hp Hq.
  pose proof (path_lineage c Hc) as Lc. pose proof (path_lineage incoming Hi) as Li.
  unfold path_rename_lineage_previous_path in Lc, Li. rewrite Hsc, bool_decide_eq_true_2 in Lc by done.
  rewrite Hsi, bool_decide_eq_true_2 in Li by done.
  unfold renames_conflict in H. rewrite Lc, Li, Hp, Hq in H. rewrite !bool_decide_eq_true_2 in H by eauto. cbn [andb] in H.
  destruct (same_work_key c incoming) eqn:Hk; [apply same_work_places in Hk as (_ & _ & ?); [congruence|done|done]|].
  exfalso. cbn [negb andb] in H. apply not_true_iff_false in H. apply H. unfold affected_paths_overlap, affected_paths.
  rewrite Hr. cbn. by rewrite bool_decide_eq_true_2.
Qed.

(** Both renames tell the same as their conflict-free union. *)
Lemma conflict_step seen active incoming :
  normal_state seen active → queued incoming →
  normal_state (seen ++ [incoming]) [foldl merge_older_evidence (whole_root incoming) active].
Proof.
  intros [Hq _ _ _ _] Hi. destruct (merge_older_all (whole_root incoming) active (whole_root_ok _ Hi) Hq) as [[_ _ Hs _ _] Hroot].
  split.
  - by rewrite Forall_singleton.
  - intros i _. eexists. split; [by left|]. intros place _. by apply covers_root.
  - rewrite Forall_singleton. by apply stems_root.
  - intros a b ->%list_elem_of_singleton ->%list_elem_of_singleton. apply lineage_refl.
  - rewrite length_app. cbn. lia.
Qed.

(** Replacing elements by [merged], when every element that goes is included in [merged] or in one that stays. *)
Lemma replace_step seen active active' incoming merged :
  normal_state seen active → queued merged → includes merged incoming → stems_from (seen ++ [incoming]) merged →
  (∀ c, c ∈ active → lineage_agrees merged c) →
  merged ∈ active' → (∀ c, c ∈ active' → c ∈ active ∨ c = merged) →
  (∀ c, c ∈ active → c ∈ active' ∨ includes merged c) → (length active' ≤ S (length active))%nat →
  normal_state (seen ++ [incoming]) active'.
Proof.
  intros [Hq Hkept Hst Hag Hlen] Hm Hinc Hstem Hagree Hin Hsub Hsup Hlen'. rewrite Forall_forall in Hq, Hst. split.
  - apply Forall_forall. intros c [Hc| ->]%Hsub; [by apply Hq|done].
  - intros i [Hi|Hi]%elem_of_app.
    + destruct (Hkept i Hi) as (m & Hma & Hmi). destruct (Hsup m Hma) as [?|Hmm]; [by exists m|].
      exists merged. split; [done|]. by transitivity m.
    + apply list_elem_of_singleton in Hi as ->. by exists merged.
  - apply Forall_forall. intros c [Hc| ->]%Hsub; [|done]. apply (stems_mono seen); [|by apply Hst]. set_solver.
  - intros a b [Ha| ->]%Hsub [Hb| ->]%Hsub; [by apply Hag|by apply lineage_agrees_sym, Hagree|by apply Hagree|apply lineage_refl].
  - rewrite length_app. cbn. lia.
Qed.

Lemma entry_of_active {A} (l : list A) k x : (k, x) ∈ imap pair l ↔ l !! k = Some x.
Proof.
  rewrite list_elem_of_lookup. setoid_rewrite list_lookup_imap. split.
  - intros [j Hj]. destruct (l !! j) eqn:E; cbn in Hj; by simplify_eq.
  - intros Hk. exists k. by rewrite Hk.
Qed.

Lemma length_bind_le {A B} (f : A → list B) l :
  (∀ x, (length (f x) ≤ 1)%nat) → (length (l ≫= f) ≤ length l)%nat.
Proof.
  intros Hf. induction l as [|x l IH]; [done|]. rewrite bind_cons, length_app. specialize (Hf x). cbn [length]. lia.
Qed.

Lemma absorb_origin t incoming :
  queued t → queued incoming → in_origin (absorb_incoming t incoming) = in_origin incoming.
Proof. intros _ _. unfold absorb_incoming. by case_bool_decide. Qed.

(** What absorbed a dirty path of its own is no longer only a rename. *)
Lemma absorb_kind t incoming :
  queued t → queued incoming → in_scope t = Path → intent_covers t incoming = true → lineage_agrees t incoming →
  in_kind (absorb_incoming t incoming) = RenameCandidate → in_kind incoming = RenameCandidate.
Proof.
  intros Ht Hi Hs Hc Hl. destruct (path_covers t incoming Ht Hi Hs Hc) as (Hsi & Hr & _).
  unfold absorb_incoming. case_bool_decide; [done|]. destruct (in_kind incoming) eqn:Hk; [|done|done].
  destruct (shape_of _ (qd_shape _ Ht)) as [?|?|_ _ Hkt _ Hren]; [congruence|congruence|].
  unfold merge_newer_evidence, merge_evidence_range. cbn. unfold merge_dirty_rename_semantics.
  rewrite (path_lineage t) by auto. rewrite (path_lineage incoming) by auto.
  rewrite Hs, Hsi, Hr, Hk. rewrite !(bool_decide_eq_true_2 (Path = Path)), (bool_decide_eq_true_2 (_ = in_relative_path incoming)) by done.
  cbn [negb orb]. destruct (in_kind t) eqn:Hkt'; [|destruct Hren as [p Hp]; [done|]; rewrite Hp|done].
  - destruct (_ && _); [by rewrite Hkt'|].
    rewrite (bool_decide_eq_true_2 (Reconcile = Reconcile)) by done.
    destruct (in_previous_relative_path incoming); cbn; [done|by rewrite Hkt'].
  - destruct (in_previous_relative_path incoming) as [q|] eqn:Hq.
    + rewrite (Hl Hs Hsi Hr p q Hp Hq). rewrite !(bool_decide_eq_true_2 (is_Some (Some q))) by eauto.
      by rewrite (bool_decide_eq_true_2 (Some q = Some q)).
    + by rewrite (bool_decide_eq_false_2 (is_Some None)), andb_false_r by (by intros []).
Qed.

Lemma covering_step seen active incoming k target :
  normal_state seen active → queued incoming → (∀ c, c ∈ active → lineage_agrees c incoming) →
  active !! k = Some target → intent_covers target incoming = true →
  let merged := foldl (λ merged entry, if negb (Nat.eqb entry.1 k) && intent_covers merged entry.2
                                       then merge_older_evidence merged entry.2 else merged)
                  (absorb_incoming target incoming) (imap pair active) in
  normal_state (seen ++ [incoming])
    (imap pair active ≫= λ entry : nat * LibraryChangeIntent,
       if Nat.eqb entry.1 k then [merged] else if negb (intent_covers merged entry.2) then [entry.2] else []).
Proof.
  intros Hns Hi Hl Hk Hcov merged. pose proof Hns as [Hq _ Hst Hag _]. rewrite Forall_forall in Hq, Hst.
  assert (target ∈ active) as Hta by (by eapply list_elem_of_lookup_2).
  pose proof (Hq target Hta) as Hqt. pose proof (absorb_covered _ _ Hqt Hi (Hl _ Hta) Hcov) as Hsp.
  assert (refines (absorb_incoming target incoming) merged) as [Hqm Hpm Hom Hkm].
  { apply fold_refines; [by apply absorb_incoming_ok|]. intros m' [j e] He%entry_of_active Hm'. cbn [fst snd].
    destruct (negb (j =? k)%nat && intent_covers m' e) eqn:E; [|by apply refines_refl; destruct Hm'].
    apply andb_true_iff in E as [_ E]. assert (e ∈ active) as Hea by (by eapply list_elem_of_lookup_2).
    destruct Hm' as [Hqm' Hpm' _ _]. apply merge_older_refines; [done|by apply Hq|]. apply merge_dirty_covered; [done|by apply Hq| |done].
    eapply same_places_agree; [|by apply (Hag target e)]. symmetry. by etrans. }
  assert (same_places merged target) as Hmt by (by etrans). rewrite absorb_origin in Hom by done.
  assert (∀ c, c ∈ active → lineage_agrees merged c) as Hagm.
  { intros c Hc. eapply same_places_agree; [symmetry; exact Hmt|]. by apply Hag. }
  apply (replace_step seen active _ incoming merged Hns Hqm).
  - transitivity target; [by apply same_places_includes|]. apply intent_covers_includes; auto.
  - destruct (Hst target Hta) as [Hs|n Hs Hn Hpn|n Hs _ _ _ _ _ _].
    + apply stems_root. destruct Hmt; congruence.
    + eapply (stems_subtree _ _ n); [destruct Hmt; congruence|set_solver|by etrans].
    + destruct (path_covers target incoming Hqt Hi Hs Hcov) as (Hsi & Hr & Hprev). destruct Hmt as (Hms & Hmr & Hmp).
      apply (stems_path _ _ incoming); [congruence|set_solver|done|congruence|done| |].
      * rewrite Hmp. destruct (in_previous_relative_path incoming) as [q|] eqn:Eq; [|by left]. right.
        destruct Hprev as [(_ & _ & ?)|[[p Hp] _]]; [congruence|]. rewrite Hp. by rewrite (Hl target Hta Hs Hsi Hr p q Hp Eq).
      * intros Hkind. apply (absorb_kind target incoming); auto.
  - done.
  - apply list_elem_of_bind. exists (k, target). cbn. rewrite Nat.eqb_refl. split; [by left|by apply entry_of_active].
  - intros c ([j e] & Hc & He%entry_of_active)%list_elem_of_bind. cbn in Hc.
    destruct (j =? k)%nat; [right; by apply list_elem_of_singleton in Hc|].
    destruct (negb _); [|by apply elem_of_nil in Hc]. apply list_elem_of_singleton in Hc as ->.
    left. by eapply list_elem_of_lookup_2.
  - intros c Hc. apply list_elem_of_lookup in Hc as [j Hj]. destruct (decide (j = k)) as [->|Hjk].
    { right. rewrite Hk in Hj. simplify_eq. by apply same_places_includes. }
    destruct (intent_covers merged c) eqn:E.
    + right. assert (c ∈ active) by (by eapply list_elem_of_lookup_2). apply intent_covers_includes; auto.
    + left. apply list_elem_of_bind. exists (j, c). cbn. apply Nat.eqb_neq in Hjk as ->. rewrite E. cbn.
      split; [by left|by apply entry_of_active].
  - etrans; [apply length_bind_le|]; [|rewrite length_imap; lia]. intros [j e]. cbn.
    destruct (j =? k)%nat; [done|]. destruct (negb _); cbn; lia.
Qed.

Lemma same_places_covers a b : queued a → queued b → same_places a b → intent_covers a b = true.
Proof.
  intros [Ha _ _ _] [Hb _ _ _] (Hs & Hr & Hp). unfold intent_covers. destruct (in_scope a) eqn:Hsa.
  - rewrite (bool_decide_eq_true_2 (Path = Path)) by done. cbn [negb andb]. apply orb_true_iff. left.
    unfold same_work_key, same_rename_lineage. rewrite !path_lineage by done. rewrite Hsa, <-Hs, Hr, Hp.
    rewrite !(bool_decide_eq_true_2 (Path = Path)), !(bool_decide_eq_true_2 (in_relative_path b = _)),
      !(bool_decide_eq_true_2 (in_previous_relative_path b = _)) by done.
    destruct (in_previous_relative_path b) as [p|] eqn:E.
    + rewrite (bool_decide_eq_true_2 (is_Some (Some p))) by eauto. apply orb_true_r.
    + rewrite bool_decide_eq_true_2; [done|].
      destruct (shape_of a Ha) as [?|?|_ _ ? _ Ka], (shape_of b Hb) as [?|?|_ _ ? _ Kb]; try congruence.
      destruct (in_kind a), (in_kind b); try done; rewrite ?Hp, ?E in *; by destruct (Ka eq_refl) || destruct (Kb eq_refl).
  - rewrite (bool_decide_eq_false_2 (Subtree = Path)) by done.
    assert (queue_precise_dirty b = false) as ->.
    { unfold queue_precise_dirty. by rewrite <-Hs, (bool_decide_eq_false_2 (Subtree = Path)), andb_false_r by done. }
    cbn [negb andb]. apply forallb_forall. intros p Hin. apply existsb_exists. exists p. unfold affected_paths in *.
    rewrite Hr, Hp. split; [done|]. unfold queue_within_subtree. by rewrite bool_decide_eq_true_2.
  - rewrite (bool_decide_eq_false_2 (Root = Path)) by done.
    assert (queue_precise_dirty b = false) as ->; [|done].
    unfold queue_precise_dirty. by rewrite <-Hs, (bool_decide_eq_false_2 (Root = Path)), andb_false_r by done.
Qed.

(** A new intent that nothing covers absorbs only dirty paths that a rename of theirs now reaches. *)
Lemma absorbed_dirty seen active incoming e :
  normal_state seen active → queued incoming → (∀ c, c ∈ active → lineage_agrees c incoming) →
  (∀ c, c ∈ active → intent_covers c incoming = false) →
  (∀ n, n ∈ seen → in_scope incoming ≠ Path → intent_covers incoming n = true → same_places incoming n) →
  e ∈ active → intent_covers incoming e = true →
  in_scope incoming = Path ∧ in_scope e = Path ∧ in_relative_path incoming = in_relative_path e ∧
  in_kind e = Reconcile ∧ in_previous_relative_path e = None ∧ is_Some (in_previous_relative_path incoming).
Proof.
  intros [Hq _ Hst Hag _] Hi Hl Hno Hfree He Hc. rewrite Forall_forall in Hq, Hst.
  assert (¬ same_places e incoming) as Hns.
  { intros Hs. pose proof (same_places_covers e incoming (Hq e He) Hi Hs). specialize (Hno e He). congruence. }
  destruct (decide (in_scope incoming = Path)) as [Hp|Hw].
  - destruct (path_covers incoming e Hi (Hq e He) Hp Hc) as (Hse & Hr & [Hs|[[p Hpi] Hk]]); [by destruct Hns|].
    split_and!; try done. destruct (in_previous_relative_path e) as [q|] eqn:Eq; [|done]. destruct Hns.
    split_and!; [congruence|done|]. rewrite Eq, Hpi. by rewrite (Hl e He Hse Hp (eq_sym Hr) q p Eq Hpi).
  - exfalso. destruct (wide_covers_stem seen incoming e (Hq e He) Hw Hc (Hst e He)) as [Hroot|(n & Hn & Hcn & Hsn)].
    + specialize (Hno e He). unfold intent_covers in Hno. rewrite Hroot in Hno.
      unfold queue_precise_dirty in Hno. rewrite (bool_decide_eq_false_2 (in_scope incoming = Path)), !andb_false_r in Hno by done.
      done.
    + apply Hns. symmetry. apply Hsn. by apply Hfree.
Qed.

Lemma max_by_key_elem {A} (key : A → Z) l :
  match max_by_key key l with Some x => x ∈ l | None => l = [] end.
Proof.
  unfold max_by_key. induction l as [|x l IH] using rev_ind; [done|]. rewrite foldl_app. cbn.
  destruct (foldl _ None l) as [y|]; [|by subst; left]. destruct (key y <=? key x); set_solver.
Qed.

(** A dirty path that a rename reaches becomes a dirty rename. *)
Lemma merge_rename e incoming :
  queued e → queued incoming → in_scope incoming = Path → in_scope e = Path →
  in_relative_path incoming = in_relative_path e → in_kind e = Reconcile → in_previous_relative_path e = None →
  is_Some (in_previous_relative_path incoming) →
  same_places (merge_newer_evidence e incoming) incoming ∧ in_kind (merge_newer_evidence e incoming) = Reconcile.
Proof.
  intros He Hi Hs Hse Hr Hk Hn [p Hp]. unfold same_places. cbn. unfold merge_dirty_rename_semantics.
  rewrite !path_lineage by auto. rewrite Hs, Hse, Hr, Hn, Hp, Hk.
  rewrite !(bool_decide_eq_true_2 (Path = Path)), (bool_decide_eq_true_2 (in_relative_path e = _)),
    (bool_decide_eq_true_2 (Reconcile = Reconcile)), (bool_decide_eq_false_2 (is_Some None)) by (by intros [] || done).
  cbn. by rewrite Hse.
Qed.

Lemma push_step seen active incoming :
  normal_state seen active → queued incoming → (∀ c, c ∈ active → lineage_agrees c incoming) →
  (∀ c, c ∈ active → intent_covers c incoming = false) →
  (∀ n, n ∈ seen → in_scope incoming ≠ Path → intent_covers incoming n = true → same_places incoming n) →
  let absorbed := filter (λ entry : nat * LibraryChangeIntent, intent_covers incoming entry.2 = true) (imap pair active) in
  let stronger := max_by_key (λ entry, intent_strength entry.2) absorbed in
  let merged := foldl (λ merged entry,
                  if bool_decide (Some entry.1 = fst <$> stronger) then merged else merge_older_evidence merged entry.2)
                  match stronger with Some (_, change) => merge_newer_evidence change incoming | None => incoming end
                  absorbed in
  normal_state (seen ++ [incoming]) (filter (λ change, intent_covers incoming change = false) active ++ [merged]).
Proof.
  intros Hns Hi Hl Hno Hfree absorbed stronger merged. pose proof Hns as [Hq _ _ _ _]. rewrite Forall_forall in Hq.
  assert (∀ e, e ∈ absorbed → e.2 ∈ active ∧ intent_covers incoming e.2 = true) as Habs.
  { intros [j e] [Hc He%entry_of_active]%list_elem_of_filter. split; [by eapply list_elem_of_lookup_2|done]. }
  set (start := match stronger with Some (_, change) => _ | None => incoming end) in *.
  assert (queued start ∧ same_places start incoming ∧ in_origin start = in_origin incoming ∧
    (in_kind start = RenameCandidate → in_kind incoming = RenameCandidate)) as (Hqs & Hps & Hos & Hks).
  { unfold start. pose proof (max_by_key_elem (λ entry, intent_strength entry.2) absorbed) as Hmax. fold stronger in Hmax.
    destruct stronger as [[j e]|]; [|done]. destruct (Habs _ Hmax) as [He Hc]. cbn [snd] in *.
    destruct (absorbed_dirty seen active incoming e Hns Hi Hl Hno Hfree He Hc) as (? & ? & ? & ? & ? & ?).
    destruct (merge_rename e incoming) as [? ?]; auto. split_and!; [by apply merge_newer_ok; auto|done|done|congruence]. }
  assert (refines start merged) as [Hqm Hpm Hom Hkm].
  { apply fold_refines; [done|]. intros m' e [He Hc]%Habs Hm'. case_bool_decide; [by apply refines_refl; destruct Hm'|].
    apply merge_plain; [by destruct Hm'|by apply Hq|]. by destruct (absorbed_dirty seen active incoming e.2) as (? & ? & ? & ? & ? & ?). }
  assert (same_places merged incoming) as Hmi by (by etrans).
  apply (replace_step seen active _ incoming merged Hns Hqm).
  - by apply same_places_includes.
  - destruct Hmi as (Hms & Hmr & Hmp). destruct (in_scope incoming) eqn:Hsi; [| |by apply stems_root].
    + apply (stems_path _ _ incoming); try congruence; [set_solver|by right|auto].
    + apply (stems_subtree _ _ incoming); [done|set_solver|by split_and!; congruence].
  - intros c Hc. eapply same_places_agree; [symmetry; exact Hmi|]. by apply lineage_agrees_sym, Hl.
  - set_solver.
  - intros c [Hc|Hc]%elem_of_app; [left; by apply list_elem_of_filter in Hc as [_ ?]|right; by apply list_elem_of_singleton in Hc].
  - intros c Hc. destruct (intent_covers incoming c) eqn:E.
    + right. transitivity incoming; [by apply same_places_includes|]. apply intent_covers_includes; auto.
      by apply lineage_agrees_sym, Hl.
    + left. apply elem_of_app. left. by apply list_elem_of_filter.
  - rewrite length_app. cbn. pose proof (length_filter (λ change, intent_covers incoming change = false) active). lia.
Qed.

Lemma normalize_step seen active incoming :
  normal_state seen active → queued incoming →
  (∀ n, n ∈ seen → in_scope incoming ≠ Path → intent_covers incoming n = true → same_places incoming n) →
  normal_state (seen ++ [incoming]) (normalize_persistent_journal_intent active incoming).
Proof.
  intros Hns Hi Hfree. unfold normalize_persistent_journal_intent.
  destruct (_ && existsb _ active) eqn:Econ; [by apply conflict_step|].
  assert (∀ c, c ∈ active → lineage_agrees c incoming) as Hl.
  { intros c Hc. apply no_conflict; [done|by destruct Hns as [Hq _ _ _ _]; rewrite Forall_forall in Hq; apply Hq|].
    destruct (bool_decide _); [|done]. apply not_true_iff_false. intros Hcon. apply not_true_iff_false in Econ.
    apply Econ. apply existsb_exists. exists c. split; [by apply list_elem_of_In|done]. }
  destruct (list_find _ active) as [[k target]|] eqn:Efind.
  - apply list_find_Some in Efind as (Hk & Hcov & _). by apply covering_step.
  - apply push_step; [done..| |done]. intros c Hc. rewrite list_find_None, Forall_forall in Efind.
    by apply not_true_iff_false, Efind.
Qed.

(** ** The batch *)

(** No subtree and no root of the batch covers another of its intents. *)
Definition flat_batch (intents : list LibraryChangeIntent) : Prop :=
  ∀ i j, i ∈ intents → j ∈ intents → in_scope i ≠ Path → intent_covers i j = true → same_places i j.

Lemma validated_queued intents first :
  Forall (λ i, is_u32 (in_coalesced_observation_count i)) intents → validate_intent_batch intents first = Ok () →
  Forall queued intents.
Proof.
  intros Hcount Hv. unfold validate_intent_batch in Hv. simplify_result. rewrite result_iter_Ok in Hv.
  rewrite Forall_forall in *. intros i Hi. specialize (Hv i Hi). specialize (Hcount i Hi).
  unfold validate_batch_intent, validate_intent_shape, evidence_is_invalid in Hv. simplify_result.
  rewrite negb_false_iff in Hv. unfold is_uint in Hcount. split; [done|lia..].
Qed.

Lemma normalize_all todo : ∀ seen active,
  normal_state seen active → Forall queued todo → flat_batch (seen ++ todo) →
  normal_state (seen ++ todo) (foldl normalize_persistent_journal_intent active todo).
Proof.
  induction todo as [|incoming todo IH]; intros seen active Hns Hq Hflat; [by rewrite app_nil_r|].
  apply Forall_cons in Hq as [Hi Hq]. cbn. rewrite (cons_middle incoming seen todo) in *.
  rewrite app_assoc in *. apply IH; [|done|done]. apply normalize_step; [done|done|].
  intros n Hn Hw Hc. apply Hflat; [set_solver|set_solver|done|done].
Qed.

(** C29: reducing the intents of a journal batch loses nothing of a flat batch.  For a valid batch in which no
    subtree or root covers another intent, [normalize_persistent_journal_intents] succeeds, and everything an
    intent of the batch asks to reconcile is reconciled by one of the intents it returns: dirty paths are
    merged with the renames that reach them, conflicting renames become one request for the whole root.
    What it returns are valid intents, at most as many as there were, in the order of their canonical
    entries. *)
Theorem journal_normalization_covers intents first :
  head intents = Some first → Forall (λ i, is_u32 (in_coalesced_observation_count i)) intents →
  validate_intent_batch intents first = Ok () → flat_batch intents →
  ∃ normalized, normalize_persistent_journal_intents intents = Ok normalized ∧
    (∀ i, i ∈ intents → ∃ m, m ∈ normalized ∧ includes m i) ∧
    Forall queued normalized ∧ (length normalized ≤ length intents)%nat ∧
    StronglySorted (cmp_le (compare_on lex_compare canonical_intent)) normalized.
Proof.
  destruct intents as [|i intents]; [done|]. intros [= ->] Hcount Hv Hflat. unfold normalize_persistent_journal_intents.
  rewrite Hv. cbn [mbind result_bind]. eexists. split; [reflexivity|].
  set (ordered := sort_by intent_order (first :: intents)).
  assert (ordered ≡ₚ first :: intents) as Hperm by apply sort_by_perm. clearbody ordered.
  destruct (normalize_all ordered [] []) as [Hq Hkept _ _ Hlen].
  - split; try done; [by intros i ?%elem_of_nil|by intros a b ?%elem_of_nil].
  - rewrite Hperm. by eapply validated_queued.
  - intros a b Ha Hb. rewrite app_nil_l, Hperm in Ha, Hb. by apply Hflat.
  - rewrite app_nil_l in *. set (normalized := foldl _ [] ordered) in *. split_and!.
    + intros a Ha. rewrite <-Hperm in Ha. destruct (Hkept a Ha) as (m & Hm & Hi). exists m. split; [|done].
      by rewrite sort_by_perm.
    + by rewrite sort_by_perm.
    + rewrite sort_by_perm, <-Hperm. done.
    + apply sort_by_sorted, compare_on_comparator, lex_comparator.
Qed.

(** A rename, a change of the renamed file, and a directory elsewhere that changed as a whole. *)
Definition journal_intent (kind : LibraryChangeIntentKind) (scope : LibraryChangeScope) (path : string)
    (previous : option str) (usn : Z) : LibraryChangeIntent :=
  {| in_root_id := lit "root"; in_root_generation := {| generation_value := 1 |}; in_kind := kind;
     in_scope := scope; in_relative_path := lit path; in_previous_relative_path := previous;
     in_origin := StartupCatchUp; in_first_observed_unix_ms := 1; in_most_recent_observed_unix_ms := 1;
     in_first_sequence := usn; in_most_recent_sequence := usn; in_coalesced_observation_count := 1 |}.
Definition sample_journal_batch : list LibraryChangeIntent :=
  [ journal_intent RenameCandidate Path "new/a" (Some (lit "old/a")) 10;
    journal_intent Reconcile Path "new/a" None 11;
    journal_intent Reconcile Subtree "dir" None 12 ].

#[export] Instance same_places_dec a b : Decision (same_places a b).
Proof. unfold same_places. apply _. Defined.

Lemma journal_normalization_covers_witness :
  ∃ normalized, normalize_persistent_journal_intents sample_journal_batch = Ok normalized ∧ length normalized = 2%nat ∧
    (∀ i, i ∈ sample_journal_batch → ∃ m, m ∈ normalized ∧ includes m i).
Proof.
  destruct (journal_normalization_covers sample_journal_batch (journal_intent RenameCandidate Path "new/a" (Some (lit "old/a")) 10))
    as (normalized & Hn & Hkept & _ & _ & _).
  - reflexivity.
  - apply (bool_decide_unpack _). vm_compute. exact I.
  - vm_compute. reflexivity.
  - assert (Forall (λ i, Forall (λ j, in_scope i ≠ Path → intent_covers i j = true → same_places i j) sample_journal_batch)
      sample_journal_batch) as Hf by (apply (bool_decide_unpack _); vm_compute; exact I).
    intros i j Hi Hj. rewrite Forall_forall in Hf. specialize (Hf i Hi). rewrite Forall_forall in Hf. exact (Hf j Hj).
  - exists normalized. split; [exact Hn|]. split; [|exact Hkept].
    assert (length <$> (match normalize_persistent_journal_intents sample_journal_batch with Ok l => Some l | Err _ => None end)
            = Some 2%nat) as H by (vm_compute; reflexivity).
    rewrite Hn in H. cbn in H. congruence.
Defined.

(** A directory and, later, its parent changed as a whole.  The batch is valid, but what is returned is the
    directory alone: the strongest of the absorbed intents replaces the wider one that absorbs them, and a
    file of the parent outside the directory is not reconciled. *)
Definition nested_batch : list LibraryChangeIntent :=
  [ journal_intent Reconcile Subtree "x/y" None 10; journal_intent Reconcile Subtree "x" None 11 ].

Lemma nested_subtree_lost :
  validate_enqueue_batch nested_batch = Ok () ∧
  ∃ m, normalize_persistent_journal_intents nested_batch = Ok [m] ∧
    covers (journal_intent Reconcile Subtree "x" None 11) {| pc_scope := Path; pc_path := lit "x/z" |} ∧
    ¬ covers m {| pc_scope := Path; pc_path := lit "x/z" |}.
Proof.
  split; [by vm_compute|]. eexists. split; [by vm_compute|]. split.
  - right. split; [done|]. exists (lit "x"). split; [left|by vm_compute].
  - intros [?|(_ & p & Hp & H)]; [done|]. apply list_elem_of_singleton in Hp as ->. by vm_compute in H.
Qed.
