(* ===== verification/QueueStore.v ===== *)
(** * The tables of the durable change queue

    Models the statements of [adapters/sqlite_catalog/change_queue/persistence.rs] that load, insert, update,
    supersede and hand on queued changes, with the tables they touch as finite maps.  Text columns hold text,
    as the code writes and reads them.

    Every statement may fail: [fault] gives the error of the n-th statement of a run, if it fails.  This also
    stands for the constraints and guard triggers of the schema, which only make a statement fail.  A failed
    statement ends the transaction, whose changes are dropped.  The table of lanes is kept by triggers as a
    function of the origin of a change ([lane_of_origin]). *)

From S2P Require Import Prelude Text LibraryChange Order Planning Numerals JournalText JournalBatch ChangeQueue.
From S2P Require Import Coalescing.

(** ** Rows *)

Record QueueRow := {
  qr_root_id : str;
  qr_root_generation : Z;
  qr_intent_kind : str;
  qr_scope : str;
  qr_relative_path : str;
  qr_previous_relative_path : option str;
  qr_origin : str;
  qr_first_observed_unix_ms : Z;
  qr_most_recent_observed_unix_ms : Z;
  qr_first_sequence : str;
  qr_most_recent_sequence : str;
  qr_coalesced_observation_count : Z;
  qr_status : str;
  qr_ready_unix_ms : Z;
  qr_attempt_count : Z;
  qr_next_retry_unix_ms : option Z;
  qr_lease_generation : Z;
  qr_lease_expires_unix_ms : option Z;
  qr_last_failure_code : option str;
  qr_last_failure_message : option str;
  qr_catalog_revision_at_enqueue : Z;
  qr_catalog_revision_at_success : option Z;
  qr_catch_up_source : option str;
  qr_catch_up_watermark : option str;
  qr_authoritative_scan_id : option str;
  qr_superseded_by_change_id : option Z;
  qr_created_unix_ms : Z;
  qr_updated_unix_ms : Z;
}.

(** A row of [library_metadata_inventory_candidate_owners], keyed by run and candidate. *)
Record CandidateOwner := {
  co_change_id : Z;
  co_relative_path : str;
  co_previous_relative_path : option str;
}.

Record QueueDb := {
  db_tick : nat;  (** the statements executed so far *)
  db_rows : gmap Z QueueRow;
  db_last_id : Z;  (** the sequence of [AUTOINCREMENT] *)
  db_catch_up_lineage : gmap (Z * str * str) Z;
  db_range_lineage : gmap (str * Z) Z;
  db_candidate_owners : gmap (str * str) CandidateOwner;
  db_live_gap_claims : gset Z;
}.

Definition set_rows (rows : gmap Z QueueRow) (db : QueueDb) : QueueDb :=
  {| db_tick := db_tick db; db_rows := rows; db_last_id := db_last_id db;
     db_catch_up_lineage := db_catch_up_lineage db; db_range_lineage := db_range_lineage db;
     db_candidate_owners := db_candidate_owners db; db_live_gap_claims := db_live_gap_claims db |}.
Definition set_last_id (id : Z) (db : QueueDb) : QueueDb :=
  {| db_tick := db_tick db; db_rows := db_rows db; db_last_id := id;
     db_catch_up_lineage := db_catch_up_lineage db; db_range_lineage := db_range_lineage db;
     db_candidate_owners := db_candidate_owners db; db_live_gap_claims := db_live_gap_claims db |}.
Definition set_catch_up_lineage (lineage : gmap (Z * str * str) Z) (db : QueueDb) : QueueDb :=
  {| db_tick := db_tick db; db_rows := db_rows db; db_last_id := db_last_id db;
     db_catch_up_lineage := lineage; db_range_lineage := db_range_lineage db;
     db_candidate_owners := db_candidate_owners db; db_live_gap_claims := db_live_gap_claims db |}.
Definition set_range_lineage (lineage : gmap (str * Z) Z) (db : QueueDb) : QueueDb :=
  {| db_tick := db_tick db; db_rows := db_rows db; db_last_id := db_last_id db;
     db_catch_up_lineage := db_catch_up_lineage db; db_range_lineage := lineage;
     db_candidate_owners := db_candidate_owners db; db_live_gap_claims := db_live_gap_claims db |}.
Definition set_candidate_owners (owners : gmap (str * str) CandidateOwner) (db : QueueDb) : QueueDb :=
  {| db_tick := db_tick db; db_rows := db_rows db; db_last_id := db_last_id db;
     db_catch_up_lineage := db_catch_up_lineage db; db_range_lineage := db_range_lineage db;
     db_candidate_owners := owners; db_live_gap_claims := db_live_gap_claims db |}.

(** ** Texts of the columns *)

Definition intent_kind_to_db (kind : LibraryChangeIntentKind) : str :=
  match kind with
  | Reconcile => lit "reconcile"
  | RenameCandidate => lit "rename_candidate"
  | FreshnessUnknown => lit "freshness_unknown"
  end.

Definition invalid_enum (field : string) (value : str) : ScanError :=
  {| se_code := lit "change_queue_value_invalid";
     se_message := lit ("The stored change queue " ++ field ++ " is invalid: ") ++ value;
     se_retry_details := None |}.

Definition intent_kind_from_db (value : str) : ScanResult LibraryChangeIntentKind :=
  if bool_decide (value = lit "reconcile") then Ok Reconcile
  else if bool_decide (value = lit "rename_candidate") then Ok RenameCandidate
  else if bool_decide (value = lit "freshness_unknown") then Ok FreshnessUnknown
  else Err (invalid_enum "intent kind" value).

Definition scope_to_db (scope : LibraryChangeScope) : str :=
  match scope with Path => lit "path" | Subtree => lit "subtree" | Root => lit "root" end.

Definition scope_from_db (value : str) : ScanResult LibraryChangeScope :=
  if bool_decide (value = lit "path") then Ok Path
  else if bool_decide (value = lit "subtree") then Ok Subtree
  else if bool_decide (value = lit "root") then Ok Root
  else Err (invalid_enum "scope" value).

Definition origin_to_db (origin : LibraryChangeOrigin) : str :=
  match origin with
  | LiveNotification => lit "live_notification"
  | MetadataInventory => lit "metadata_inventory"
  | StartupCatchUp => lit "startup_catch_up"
  | UserRefresh => lit "user_refresh"
  | ConsistencyAudit => lit "consistency_audit"
  end.

Definition origin_from_db (value : str) : ScanResult LibraryChangeOrigin :=
  if bool_decide (value = lit "live_notification") then Ok LiveNotification
  else if bool_decide (value = lit "metadata_inventory") then Ok MetadataInventory
  else if bool_decide (value = lit "startup_catch_up") then Ok StartupCatchUp
  else if bool_decide (value = lit "user_refresh") then Ok UserRefresh
  else if bool_decide (value = lit "consistency_audit") then Ok ConsistencyAudit
  else Err (invalid_enum "origin" value).

Definition status_from_db (value : str) : ScanResult LibraryChangeQueueStatus :=
  if bool_decide (value = lit "pending") then Ok Pending
  else if bool_decide (value = lit "leased") then Ok Leased
  else if bool_decide (value = lit "retry_wait") then Ok RetryWait
  else if bool_decide (value = lit "completed") then Ok Completed
  else if bool_decide (value = lit "superseded") then Ok Superseded
  else Err (invalid_enum "status" value).

(** [CASE origin WHEN 'live_notification' THEN 'p0_live' ..] of the triggers that keep the lanes. *)
Definition lane_of_origin (origin : str) : str :=
  if bool_decide (origin = lit "live_notification") then lit "p0_live"
  else if bool_decide (origin = lit "startup_catch_up") then lit "p1_journal"
  else lit "p2_recovery".

Definition I64_MAX : Z := 2 ^ 63 - 1.
Definition I64_MIN : Z := - 2 ^ 63.

Definition sqlite_integer (value : Z) (field : string) : ScanResult Z :=
  if value <=? I64_MAX then Ok value
  else Err (ScanError_new "catalog_integer_overflow" ("The " ++ field ++ " exceeds the SQLite integer range")).

Definition sqlite_unsigned (value : Z) (field : string) : ScanResult Z :=
  if 0 <=? value then Ok value
  else Err (ScanError_new "catalog_integer_invalid" ("The stored " ++ field ++ " is outside the supported range")).

Definition sqlite_u32 (value : Z) (field : string) : ScanResult Z :=
  if (0 <=? value) && (value <=? U32_MAX) then Ok value
  else Err (ScanError_new "catalog_integer_invalid" ("The stored " ++ field ++ " is outside the supported range")).

Definition change_id_from_sqlite (value : Z) : ScanResult LibraryChangeId :=
  value ← sqlite_unsigned value "change ID";
  ok_or (LibraryChangeId_new value)
    (ScanError_new "change_queue_id_invalid" "The stored durable change ID must be nonzero").

Definition parse_sequence (value : str) : ScanResult Z :=
  ok_or (parse_u64 value)
    (ScanError_new "change_queue_sequence_invalid" "The stored observation sequence is outside the supported range").

(** ** Active changes *)

Record ActiveChange := {
  ch_id : LibraryChangeId;
  ch_intent : LibraryChangeIntent;
  ch_status : LibraryChangeQueueStatus;
  ch_catalog_revision_at_enqueue : Z;
  ch_catch_up_evidence : option LibraryChangeCatchUpEvidence;
  ch_last_failure_code : option str;
}.

(** The columns [read_active_change_row] reads, decoded by [active_change_from_raw]. *)
Definition active_change_from_raw (root_id : str) (root_generation : LibraryRootGeneration) (id : Z) (raw : QueueRow)
    : ScanResult ActiveChange :=
  catch_up_evidence ←
    match qr_catch_up_source raw, qr_catch_up_watermark raw with
    | Some source, Some watermark => Ok (Some {| cue_source := source; cue_watermark := watermark |})
    | None, None => Ok None
    | _, _ => Err (ScanError_new "change_queue_catch_up_evidence_invalid" "The stored catch-up evidence is incomplete")
    end;
  id ← change_id_from_sqlite id;
  kind ← intent_kind_from_db (qr_intent_kind raw);
  scope ← scope_from_db (qr_scope raw);
  origin ← origin_from_db (qr_origin raw);
  first_sequence ← parse_sequence (qr_first_sequence raw);
  most_recent_sequence ← parse_sequence (qr_most_recent_sequence raw);
  count ← sqlite_u32 (qr_coalesced_observation_count raw) "coalesced observation count";
  status ← status_from_db (qr_status raw);
  catalog_revision ← sqlite_unsigned (qr_catalog_revision_at_enqueue raw) "enqueue catalog revision";
  Ok {| ch_id := id;
        ch_intent :=
          {| in_root_id := root_id; in_root_generation := root_generation; in_kind := kind; in_scope := scope;
             in_relative_path := qr_relative_path raw; in_previous_relative_path := qr_previous_relative_path raw;
             in_origin := origin; in_first_observed_unix_ms := qr_first_observed_unix_ms raw;
             in_most_recent_observed_unix_ms := qr_most_recent_observed_unix_ms raw;
             in_first_sequence := first_sequence; in_most_recent_sequence := most_recent_sequence;
             in_coalesced_observation_count := count |};
        ch_status := status;
        ch_catalog_revision_at_enqueue := catalog_revision;
        ch_catch_up_evidence := catch_up_evidence;
        ch_last_failure_code := qr_last_failure_code raw |}.

(** [status IN ('pending', 'leased', 'retry_wait')] *)
Definition is_unresolved (status : str) : bool :=
  bool_decide (status = lit "pending" ∨ status = lit "leased" ∨ status = lit "retry_wait").
(** [status IN ('pending', 'retry_wait')] *)
Definition is_waiting (status : str) : bool :=
  bool_decide (status = lit "pending" ∨ status = lit "retry_wait").

(** [i64::saturating_add] *)
Definition saturating_add_i64 (a b : Z) : Z := Z.max I64_MIN (Z.min I64_MAX (a + b)).

Definition stabilization_deadline (intent : LibraryChangeIntent) (enqueued_unix_ms : Z)
    (policy : LibraryChangeQueuePolicy) : Z :=
  saturating_add_i64 (Z.max enqueued_unix_ms (in_most_recent_observed_unix_ms intent))
    (Z.min I64_MAX (qp_debounce_millis policy)).

Definition MAX_CATCH_UP_LINEAGE_PER_CHANGE : Z := 64.
Definition PERSISTENT_JOURNAL_CATCH_UP_SOURCE : str := lit "persistent_journal_v1".

Section Store.
Context (fault : nat → option ScanError) (sqlite_full : ScanError).

Abbreviation Tx := (ST ScanError QueueDb).

(** One statement: it fails, or [f] is what it does and returns. *)
Definition statement {A : Type} (f : QueueDb → A * QueueDb) : Tx A := λ db,
  match fault (db_tick db) with
  | Some error => Err error
  | None =>
    Ok (f {| db_tick := S (db_tick db); db_rows := db_rows db; db_last_id := db_last_id db;
             db_catch_up_lineage := db_catch_up_lineage db; db_range_lineage := db_range_lineage db;
             db_candidate_owners := db_candidate_owners db; db_live_gap_claims := db_live_gap_claims db |})
  end.

(** [SELECT .. ORDER BY id]: the rows that satisfy [p], by id. *)
Definition select (p : Z → QueueRow → bool) (db : QueueDb) : list (Z * QueueRow) :=
  filter (λ entry : Z * QueueRow, p entry.1 entry.2 = true)
    (sort_by (compare_on Z.compare fst) (map_to_list (db_rows db))).

(** [UPDATE .. WHERE id = ? AND ..]: the number of rows changed, 0 or 1. *)
Definition update_row (id : Z) (p : QueueRow → bool) (f : QueueRow → QueueRow) (db : QueueDb) : Z * QueueDb :=
  match db_rows db !! id with
  | Some row => if p row then (1, set_rows (<[id := f row]> (db_rows db)) db) else (0, db)
  | None => (0, db)
  end.

Fixpoint result_map_list {E A B} (f : A → Result E B) (l : list A) : Result E (list B) :=
  match l with
  | [] => Ok []
  | x :: l => y ← f x; ys ← result_map_list f l; Ok (y :: ys)
  end.

Definition load_active_changes (root_id : str) (root_generation : LibraryRootGeneration) : Tx (list ActiveChange) :=
  generation ← st_lift (sqlite_integer (generation_value root_generation) "root generation");
  rows ← statement (λ db,
    (take (Z.to_nat (MAX_UNRESOLVED_CHANGES + 1))
       (select (λ _ row, bool_decide (qr_root_id row = root_id) && (qr_root_generation row =? generation)
                         && is_unresolved (qr_status row)) db), db));
  changes ← st_lift (result_map_list (λ entry, active_change_from_raw root_id root_generation entry.1 entry.2) rows);
  st_lift (fail_if (MAX_UNRESOLVED_CHANGES <? zlen changes)
    (ScanError_new "change_queue_capacity_corrupt"
       "The durable change queue exceeds its absolute unresolved-work bound"));;
  mret changes.

Definition load_leased_inventory_control_ids (root_id : str) (root_generation : LibraryRootGeneration)
    : Tx (list LibraryChangeId) :=
  generation ← st_lift (sqlite_integer (generation_value root_generation) "root generation");
  rows ← statement (λ db,
    (select (λ _ row,
       bool_decide (qr_root_id row = root_id) && (qr_root_generation row =? generation)
       && bool_decide (qr_status row = lit "leased") && bool_decide (qr_authoritative_scan_id row = None)
       && (bool_decide (qr_intent_kind row = lit "freshness_unknown")
           || bool_decide (qr_origin row = lit "startup_catch_up" ∨ qr_origin row = lit "consistency_audit")
           || bool_decide (qr_last_failure_code row = Some (lit "metadata_inventory_required")))) db, db));
  st_lift (result_map_list (λ entry, change_id_from_sqlite entry.1) rows).

(** ** Catch-up lineage *)

Definition validate_catch_up_lineage_bound (change_id : LibraryChangeId) : Tx unit :=
  id ← st_lift (sqlite_integer (change_id_value change_id) "change ID");
  count ← statement (λ db,
    (Z.of_nat (size (filter (λ entry : (Z * str * str) * Z, entry.1.1.1 = id) (db_catch_up_lineage db))), db));
  st_lift (fail_if (MAX_CATCH_UP_LINEAGE_PER_CHANGE <? count)
    (ScanError_new "change_queue_catch_up_lineage_limit_exceeded"
       "One durable change accumulated too many unresolved catch-up watermarks")).

Definition attach_catch_up_lineage (change_id : LibraryChangeId) (evidence : LibraryChangeCatchUpEvidence)
    (enrolled_unix_ms : Z) : Tx unit :=
  id ← st_lift (sqlite_integer (change_id_value change_id) "change ID");
  statement (λ db,
    ((), set_catch_up_lineage
           (db_catch_up_lineage db ∪ {[(id, cue_source evidence, cue_watermark evidence) := enrolled_unix_ms]}) db));;
  validate_catch_up_lineage_bound change_id.

(** Entries of [source], as entries of [target]. *)
Definition copied_catch_up (source target : Z) (lineage : gmap (Z * str * str) Z) : gmap (Z * str * str) Z :=
  list_to_map ((λ entry : (Z * str * str) * Z, ((target, entry.1.1.2, entry.1.2), entry.2)) <$>
    map_to_list (filter (λ entry : (Z * str * str) * Z, entry.1.1.1 = source) lineage)).
Definition copied_ranges (source target : Z) (lineage : gmap (str * Z) Z) : gmap (str * Z) Z :=
  list_to_map ((λ entry : (str * Z) * Z, ((entry.1.1, target), entry.2)) <$>
    map_to_list (filter (λ entry : (str * Z) * Z, entry.1.2 = source) lineage)).

Definition clear_catch_up (row : QueueRow) : QueueRow :=
  {| qr_root_id := qr_root_id row; qr_root_generation := qr_root_generation row;
     qr_intent_kind := qr_intent_kind row; qr_scope := qr_scope row; qr_relative_path := qr_relative_path row;
     qr_previous_relative_path := qr_previous_relative_path row; qr_origin := qr_origin row;
     qr_first_observed_unix_ms := qr_first_observed_unix_ms row;
     qr_most_recent_observed_unix_ms := qr_most_recent_observed_unix_ms row;
     qr_first_sequence := qr_first_sequence row; qr_most_recent_sequence := qr_most_recent_sequence row;
     qr_coalesced_observation_count := qr_coalesced_observation_count row; qr_status := qr_status row;
     qr_ready_unix_ms := qr_ready_unix_ms row; qr_attempt_count := qr_attempt_count row;
     qr_next_retry_unix_ms := qr_next_retry_unix_ms row; qr_lease_generation := qr_lease_generation row;
     qr_lease_expires_unix_ms := qr_lease_expires_unix_ms row; qr_last_failure_code := qr_last_failure_code row;
     qr_last_failure_message := qr_last_failure_message row;
     qr_catalog_revision_at_enqueue := qr_catalog_revision_at_enqueue row;
     qr_catalog_revision_at_success := qr_catalog_revision_at_success row;
     qr_catch_up_source := None; qr_catch_up_watermark := None;
     qr_authoritative_scan_id := qr_authoritative_scan_id row;
     qr_superseded_by_change_id := qr_superseded_by_change_id row;
     qr_created_unix_ms := qr_created_unix_ms row; qr_updated_unix_ms := qr_updated_unix_ms row |}.

(** The loop body of [transfer_catch_up_lineage]. *)
Definition transfer_source (target_id source_id : LibraryChangeId) : Tx unit :=
  if bool_decide (source_id = target_id) then mret ()
  else
    target ← st_lift (sqlite_integer (change_id_value target_id) "target change ID");
    source ← st_lift (sqlite_integer (change_id_value source_id) "source change ID");
    statement (λ db,
      ((), set_catch_up_lineage
             (db_catch_up_lineage db ∪ copied_catch_up source target (db_catch_up_lineage db)) db));;
    statement (λ db,
      ((), set_range_lineage
             (union_with (λ stored excluded, Some (Z.min stored excluded)) (db_range_lineage db)
                (copied_ranges source target (db_range_lineage db))) db));;
    statement (λ db,
      ((), set_range_lineage (filter (λ entry : (str * Z) * Z, entry.1.2 ≠ source) (db_range_lineage db)) db));;
    statement (λ db,
      ((), set_catch_up_lineage
             (filter (λ entry : (Z * str * str) * Z, entry.1.1.1 ≠ source) (db_catch_up_lineage db)) db));;
    statement (λ db, ((), (update_row source (λ _, true) clear_catch_up db).2)).

Fixpoint st_iter {A} (f : A → Tx unit) (l : list A) : Tx unit :=
  match l with
  | [] => mret ()
  | x :: l => f x;; st_iter f l
  end.

Definition transfer_catch_up_lineage (source_ids : list LibraryChangeId) (target_id : LibraryChangeId) : Tx unit :=
  st_iter (transfer_source target_id) source_ids;;
  validate_catch_up_lineage_bound target_id.

(** ** Changes *)

Definition insert_change (intent : LibraryChangeIntent) (enqueued_unix_ms catalog_revision : Z)
    (evidence : option LibraryChangeCatchUpEvidence) (policy : LibraryChangeQueuePolicy) : Tx LibraryChangeId :=
  let ready_unix_ms := stabilization_deadline intent enqueued_unix_ms policy in
  generation ← st_lift (sqlite_integer (generation_value (in_root_generation intent)) "root generation");
  catalog_revision ← st_lift (sqlite_integer catalog_revision "catalog revision");
  inserted ← statement (λ db,
    let id := db_last_id db + 1 in
    if I64_MAX <? id then (Err sqlite_full, db)
    else
      (Ok id,
       set_last_id id
         (set_rows
            (<[id :=
              {| qr_root_id := in_root_id intent; qr_root_generation := generation;
                 qr_intent_kind := intent_kind_to_db (in_kind intent); qr_scope := scope_to_db (in_scope intent);
                 qr_relative_path := in_relative_path intent;
                 qr_previous_relative_path := in_previous_relative_path intent;
                 qr_origin := origin_to_db (in_origin intent);
                 qr_first_observed_unix_ms := in_first_observed_unix_ms intent;
                 qr_most_recent_observed_unix_ms := in_most_recent_observed_unix_ms intent;
                 qr_first_sequence := show_uint (in_first_sequence intent);
                 qr_most_recent_sequence := show_uint (in_most_recent_sequence intent);
                 qr_coalesced_observation_count := in_coalesced_observation_count intent;
                 qr_status := lit "pending"; qr_ready_unix_ms := ready_unix_ms; qr_attempt_count := 0;
                 qr_next_retry_unix_ms := None; qr_lease_generation := 0; qr_lease_expires_unix_ms := None;
                 qr_last_failure_code := None; qr_last_failure_message := None;
                 qr_catalog_revision_at_enqueue := catalog_revision; qr_catalog_revision_at_success := None;
                 qr_catch_up_source := cue_source <$> evidence; qr_catch_up_watermark := cue_watermark <$> evidence;
                 qr_authoritative_scan_id := None; qr_superseded_by_change_id := None;
                 qr_created_unix_ms := enqueued_unix_ms; qr_updated_unix_ms := enqueued_unix_ms |}]>
              (db_rows db)) db)));
  rowid ← st_lift inserted;
  change_id ← st_lift (change_id_from_sqlite rowid);
  match evidence with
  | Some evidence => attach_catch_up_lineage change_id evidence enqueued_unix_ms
  | None => mret ()
  end;;
  mret change_id.

(** What [update_change] sets. *)
Definition updated_row (intent : LibraryChangeIntent) (evidence : option LibraryChangeCatchUpEvidence)
    (enqueued_unix_ms : Z) (policy : LibraryChangeQueuePolicy) (row : QueueRow) : QueueRow :=
  {| qr_root_id := qr_root_id row; qr_root_generation := qr_root_generation row;
     qr_intent_kind := intent_kind_to_db (in_kind intent); qr_scope := scope_to_db (in_scope intent);
     qr_relative_path := in_relative_path intent; qr_previous_relative_path := in_previous_relative_path intent;
     qr_origin := origin_to_db (in_origin intent);
     qr_first_observed_unix_ms := in_first_observed_unix_ms intent;
     qr_most_recent_observed_unix_ms := in_most_recent_observed_unix_ms intent;
     qr_first_sequence := show_uint (in_first_sequence intent);
     qr_most_recent_sequence := show_uint (in_most_recent_sequence intent);
     qr_coalesced_observation_count := in_coalesced_observation_count intent;
     qr_status := lit "pending"; qr_ready_unix_ms := stabilization_deadline intent enqueued_unix_ms policy;
     qr_attempt_count := 0; qr_next_retry_unix_ms := None; qr_lease_generation := qr_lease_generation row;
     qr_lease_expires_unix_ms := None; qr_last_failure_code := qr_last_failure_code row;
     qr_last_failure_message := qr_last_failure_message row;
     qr_catalog_revision_at_enqueue := qr_catalog_revision_at_enqueue row;
     qr_catalog_revision_at_success := qr_catalog_revision_at_success row;
     qr_catch_up_source := match cue_source <$> evidence with Some s => Some s | None => qr_catch_up_source row end;
     qr_catch_up_watermark :=
       match cue_watermark <$> evidence with Some s => Some s | None => qr_catch_up_watermark row end;
     qr_authoritative_scan_id := qr_authoritative_scan_id row; qr_superseded_by_change_id := None;
     qr_created_unix_ms := qr_created_unix_ms row; qr_updated_unix_ms := enqueued_unix_ms |}.

Definition update_change (change_id : LibraryChangeId) (intent : LibraryChangeIntent)
    (evidence : option LibraryChangeCatchUpEvidence) (enqueued_unix_ms : Z) (policy : LibraryChangeQueuePolicy)
    : Tx unit :=
  id ← st_lift (sqlite_integer (change_id_value change_id) "change ID");
  statement (λ db,
    ((), (update_row id (λ row, is_waiting (qr_status row)) (updated_row intent evidence enqueued_unix_ms policy) db).2));;
  match evidence with
  | Some evidence => attach_catch_up_lineage change_id evidence enqueued_unix_ms
  | None => mret ()
  end.

(** What [mark_superseded] sets. *)
Definition superseded_row (superseded_by : option Z) (now_unix_ms : Z) (row : QueueRow) : QueueRow :=
  {| qr_root_id := qr_root_id row; qr_root_generation := qr_root_generation row;
     qr_intent_kind := qr_intent_kind row; qr_scope := qr_scope row; qr_relative_path := qr_relative_path row;
     qr_previous_relative_path := qr_previous_relative_path row; qr_origin := qr_origin row;
     qr_first_observed_unix_ms := qr_first_observed_unix_ms row;
     qr_most_recent_observed_unix_ms := qr_most_recent_observed_unix_ms row;
     qr_first_sequence := qr_first_sequence row; qr_most_recent_sequence := qr_most_recent_sequence row;
     qr_coalesced_observation_count := qr_coalesced_observation_count row; qr_status := lit "superseded";
     qr_ready_unix_ms := qr_ready_unix_ms row; qr_attempt_count := qr_attempt_count row;
     qr_next_retry_unix_ms := None; qr_lease_generation := qr_lease_generation row;
     qr_lease_expires_unix_ms := None; qr_last_failure_code := qr_last_failure_code row;
     qr_last_failure_message := qr_last_failure_message row;
     qr_catalog_revision_at_enqueue := qr_catalog_revision_at_enqueue row;
     qr_catalog_revision_at_success := qr_catalog_revision_at_success row;
     qr_catch_up_source := qr_catch_up_source row; qr_catch_up_watermark := qr_catch_up_watermark row;
     qr_authoritative_scan_id := qr_authoritative_scan_id row; qr_superseded_by_change_id := superseded_by;
     qr_created_unix_ms := qr_created_unix_ms row; qr_updated_unix_ms := now_unix_ms |}.

(** The owners of a superseded candidate follow it to a change of the same path. *)
Definition move_owner (rows : gmap Z QueueRow) (target source : Z) (owner : CandidateOwner) : CandidateOwner :=
  if (co_change_id owner =? source)
     && match rows !! target with
        | Some row =>
          bool_decide (qr_scope row = lit "path") && bool_decide (qr_relative_path row = co_relative_path owner)
          && bool_decide (qr_previous_relative_path row = co_previous_relative_path owner)
        | None => false
        end
  then {| co_change_id := target; co_relative_path := co_relative_path owner;
          co_previous_relative_path := co_previous_relative_path owner |}
  else owner.

(** The loop body of [mark_superseded]. *)
Definition supersede_one (superseded_by : option LibraryChangeId) (now_unix_ms superseded_count : Z)
    (change_id : LibraryChangeId) : Tx Z :=
  if bool_decide (superseded_by = Some change_id) then mret superseded_count
  else
    by_id ← st_lift match superseded_by with
                    | Some id => Some <$> sqlite_integer (change_id_value id) "superseding change ID"
                    | None => Ok None
                    end;
    id ← st_lift (sqlite_integer (change_id_value change_id) "change ID");
    updated ← statement (update_row id (λ row, is_unresolved (qr_status row)) (superseded_row by_id now_unix_ms));
    match by_id with
    | Some target =>
      if updated =? 0 then mret ()
      else statement (λ db, ((), set_candidate_owners (move_owner (db_rows db) target id <$> db_candidate_owners db) db))
    | None => mret ()
    end;;
    mret (saturating_add U32_MAX superseded_count updated).

Fixpoint supersede_each (superseded_by : option LibraryChangeId) (now_unix_ms superseded_count : Z)
    (change_ids : list LibraryChangeId) : Tx Z :=
  match change_ids with
  | [] => mret superseded_count
  | change_id :: change_ids =>
    superseded_count ← supersede_one superseded_by now_unix_ms superseded_count change_id;
    supersede_each superseded_by now_unix_ms superseded_count change_ids
  end.

Definition mark_superseded (change_ids : list LibraryChangeId) (superseded_by : option LibraryChangeId)
    (now_unix_ms : Z) : Tx Z := supersede_each superseded_by now_unix_ms 0 change_ids.

(** [shape_predicate] of [change_queue/gap_promotion/capacity.rs] *)
Definition shape_predicate (db : QueueDb) (id : Z) (row : QueueRow) : bool :=
  bool_decide (qr_origin row = lit "live_notification") && bool_decide (qr_previous_relative_path row = None)
  && ((bool_decide (qr_intent_kind row = lit "freshness_unknown") && bool_decide (qr_scope row = lit "root")
       && is_empty (qr_relative_path row))
      || (bool_decide (qr_intent_kind row = lit "reconcile") && bool_decide (qr_scope row = lit "subtree")
          && negb (is_empty (qr_relative_path row))))
  && bool_decide (lane_of_origin (qr_origin row) = lit "p0_live")
  && negb (bool_decide (id ∈ db_live_gap_claims db)).

Definition is_typed_capacity_deferred_live_gap (change_id : LibraryChangeId) : Tx bool :=
  id ← st_lift (sqlite_integer (change_id_value change_id) "change ID");
  statement (λ db,
    (match db_rows db !! id with
     | Some row =>
       bool_decide (qr_status row = lit "leased" ∨ qr_status row = lit "retry_wait")
       && bool_decide (qr_last_failure_code row = Some METADATA_INVENTORY_LANE_CODE)
       && shape_predicate db id row
     | None => false
     end, db)).
End Store.
