(* ===== verification/Enqueue.v ===== *)
(** * Queueing library changes

    Models the transactional part of [adapters/sqlite_catalog/change_queue/coalescing.rs]: [enqueue_one] and
    what it calls, and the loop over a batch in [enqueue_intents_in_transaction] of
    [adapters/sqlite_catalog/change_queue.rs]. *)

From S2P Require Import Prelude Text LibraryChange Order Planning Numerals JournalText JournalBatch ChangeQueue.
From S2P Require Import Coalescing QueueStore.

Record EnqueueContext := {
  ec_enqueued_unix_ms : Z;
  ec_catalog_revision : Z;
  ec_policy : LibraryChangeQueuePolicy;
  ec_evidence : option LibraryChangeCatchUpEvidence;
  ec_protected_change_ids : list LibraryChangeId;
  ec_allow_scope_degradation : bool;
}.

Record DegradationContext := {
  dc_enqueued_unix_ms : Z;
  dc_catalog_revision : Z;
  dc_policy : LibraryChangeQueuePolicy;
  dc_capacity_degraded : bool;
  dc_evidence : option LibraryChangeCatchUpEvidence;
}.

Definition degradation (context : EnqueueContext) (capacity_degraded : bool) : DegradationContext :=
  {| dc_enqueued_unix_ms := ec_enqueued_unix_ms context; dc_catalog_revision := ec_catalog_revision context;
     dc_policy := ec_policy context; dc_capacity_degraded := capacity_degraded;
     dc_evidence := ec_evidence context |}.

(** ** Reports *)

Definition count_coalesced (report : LibraryChangeEnqueueReport) : LibraryChangeEnqueueReport :=
  {| er_inserted_count := er_inserted_count report;
     er_coalesced_count := saturating_add U32_MAX (er_coalesced_count report) 1;
     er_superseded_count := er_superseded_count report;
     er_stale_generation_count := er_stale_generation_count report;
     er_capacity_degraded := er_capacity_degraded report;
     er_freshness_unknown_enqueued := er_freshness_unknown_enqueued report |}.
Definition count_inserted (report : LibraryChangeEnqueueReport) : LibraryChangeEnqueueReport :=
  {| er_inserted_count := saturating_add U32_MAX (er_inserted_count report) 1;
     er_coalesced_count := er_coalesced_count report;
     er_superseded_count := er_superseded_count report;
     er_stale_generation_count := er_stale_generation_count report;
     er_capacity_degraded := er_capacity_degraded report;
     er_freshness_unknown_enqueued := er_freshness_unknown_enqueued report |}.
Definition count_superseded (superseded : Z) (report : LibraryChangeEnqueueReport) : LibraryChangeEnqueueReport :=
  {| er_inserted_count := er_inserted_count report;
     er_coalesced_count := er_coalesced_count report;
     er_superseded_count := saturating_add U32_MAX (er_superseded_count report) superseded;
     er_stale_generation_count := er_stale_generation_count report;
     er_capacity_degraded := er_capacity_degraded report;
     er_freshness_unknown_enqueued := er_freshness_unknown_enqueued report |}.
Definition note_freshness (unknown : bool) (report : LibraryChangeEnqueueReport) : LibraryChangeEnqueueReport :=
  {| er_inserted_count := er_inserted_count report;
     er_coalesced_count := er_coalesced_count report;
     er_superseded_count := er_superseded_count report;
     er_stale_generation_count := er_stale_generation_count report;
     er_capacity_degraded := er_capacity_degraded report;
     er_freshness_unknown_enqueued := er_freshness_unknown_enqueued report || unknown |}.
Definition note_degraded (degraded : bool) (report : LibraryChangeEnqueueReport) : LibraryChangeEnqueueReport :=
  {| er_inserted_count := er_inserted_count report;
     er_coalesced_count := er_coalesced_count report;
     er_superseded_count := er_superseded_count report;
     er_stale_generation_count := er_stale_generation_count report;
     er_capacity_degraded := er_capacity_degraded report || degraded;
     er_freshness_unknown_enqueued := er_freshness_unknown_enqueued report |}.

(** ** Conditions on active changes *)

Definition ch_lane (change : ActiveChange) : LibraryChangeLane := in_lane (ch_intent change).

Definition queue_backpressure : ScanError :=
  ScanError_new "change_queue_backpressure"
    "The durable path queue must drain before more live observations are retained".

Definition metadata_inventory_backpressure : ScanError :=
  ScanError_new "metadata_inventory_backpressure"
    "The durable path queue must drain before inventory comparison continues".

(** The watermark of evidence from the persistent journal. *)
Definition persistent_watermark (evidence : option LibraryChangeCatchUpEvidence) : option str :=
  match evidence with
  | Some value =>
    if bool_decide (cue_source value = PERSISTENT_JOURNAL_CATCH_UP_SOURCE) then Some (cue_watermark value) else None
  | None => None
  end.

(** The changes of the incoming lane that belong to the same journal batch, or to none. *)
Definition is_same_lane (incoming : LibraryChangeIntent) (evidence : option LibraryChangeCatchUpEvidence)
    (change : ActiveChange) : bool :=
  bool_decide (ch_lane change = in_lane incoming)
  && bool_decide (persistent_watermark (ch_catch_up_evidence change) = persistent_watermark evidence).

Definition capacity_deferred_gap_preserves_precise_work (change : ActiveChange) (incoming : LibraryChangeIntent)
    (capacity_deferred_gap_ids : list LibraryChangeId) : bool :=
  bool_decide (ch_id change ∈ capacity_deferred_gap_ids)
  && bool_decide (in_origin incoming = LiveNotification) && bool_decide (in_scope incoming = Path)
  && negb (bool_decide (in_kind incoming = FreshnessUnknown)).

Definition has_conflicting_rename (active : list ActiveChange) (incoming : LibraryChangeIntent) : bool :=
  bool_decide (is_Some (rename_lineage_previous_path incoming))
  && existsb (λ change, renames_conflict (ch_intent change) incoming) active.

Definition has_ambiguous_leased_overlap (active : list ActiveChange) (incoming : LibraryChangeIntent)
    (capacity_deferred_gap_ids : list LibraryChangeId) : bool :=
  existsb (λ change,
    bool_decide (ch_status change = Leased)
    && negb (capacity_deferred_gap_preserves_precise_work change incoming capacity_deferred_gap_ids)
    && affected_paths_overlap (ch_intent change) incoming
    && negb (intent_covers (ch_intent change) incoming)
    && negb (intent_covers incoming (ch_intent change))) active.

(** [evidence.or_else(|| changes.iter().rev().find_map(..))] *)
Definition retained_evidence (evidence : option LibraryChangeCatchUpEvidence) (changes : list ActiveChange)
    : option LibraryChangeCatchUpEvidence :=
  match evidence with
  | Some evidence => Some evidence
  | None => head (omap ch_catch_up_evidence (reverse changes))
  end.

Section Enqueue.
Context (fault : nat → option ScanError) (sqlite_full : ScanError).
Abbreviation Tx := (ST ScanError QueueDb).
Abbreviation Report := LibraryChangeEnqueueReport.

Definition supersede_recovery_candidates_covered_by_higher_lane (all_active : list ActiveChange)
    (incoming_lane : LibraryChangeLane) (target_id : LibraryChangeId) (target : LibraryChangeIntent)
    (enqueued_unix_ms : Z) (report : Report) : Tx Report :=
  if bool_decide (incoming_lane = LaneRecovery) || negb (bool_decide (in_scope target = Path)) then mret report
  else
    superseded ← mark_superseded fault
      (ch_id <$> filter (λ change : ActiveChange, bool_decide (ch_lane change = LaneRecovery)
                                   && exact_path_work_identity (ch_intent change) target = true) all_active)
      (Some target_id) enqueued_unix_ms;
    mret (count_superseded superseded report).

Definition degrade_to_root (active : list ActiveChange) (incoming : LibraryChangeIntent) (report : Report)
    (context : DegradationContext) : Tx (LibraryChangeId * Report) :=
  let root := foldl merge_older_evidence (whole_root incoming) (ch_intent <$> active) in
  let evidence := retained_evidence (dc_evidence context) active in
  let existing_root :=
    find (λ change : ActiveChange, is_unleased (ch_status change) && bool_decide (in_scope (ch_intent change) = Root)
                    && bool_decide (in_kind (ch_intent change) = FreshnessUnknown)) active in
  '(target_id, report) ←
    match existing_root with
    | Some existing_root =>
      update_change fault (ch_id existing_root) root evidence (dc_enqueued_unix_ms context) (dc_policy context);;
      mret (ch_id existing_root, count_coalesced report)
    | None =>
      id ← insert_change fault sqlite_full root (dc_enqueued_unix_ms context) (dc_catalog_revision context) evidence
             (dc_policy context);
      mret (id, count_inserted report)
    end;
  transfer_catch_up_lineage fault (ch_id <$> active) target_id;;
  superseded ← mark_superseded fault (ch_id <$> filter (λ change : ActiveChange, ch_id change ≠ target_id) active) (Some target_id)
                 (dc_enqueued_unix_ms context);
  mret (target_id, note_freshness true (note_degraded (dc_capacity_degraded context) (count_superseded superseded report))).

(** The gaps that wait for capacity, as the loop at the start of [enqueue_one] finds them. *)
Fixpoint load_capacity_deferred_gap_ids (changes : list ActiveChange) : Tx (list LibraryChangeId) :=
  match changes with
  | [] => mret []
  | change :: changes =>
    if bool_decide (ch_last_failure_code change = Some METADATA_INVENTORY_LANE_CODE) then
      deferred ← is_typed_capacity_deferred_live_gap fault (ch_id change);
      ids ← load_capacity_deferred_gap_ids changes;
      mret (if (deferred : bool) then ch_id change :: ids else ids)
    else load_capacity_deferred_gap_ids changes
  end.

(** What the change at [target_index] absorbs when it covers the incoming intent. *)
Definition coalesced_changes (active : list ActiveChange) (capacity_deferred_gap_ids : list LibraryChangeId)
    (target_index : nat) (merged incoming : LibraryChangeIntent) : list ActiveChange :=
  snd <$> filter (λ entry : nat * ActiveChange,
    negb (Nat.eqb entry.1 target_index)
    && ((is_unleased (ch_status entry.2) && intent_covers merged (ch_intent entry.2))
        || (bool_decide (ch_status entry.2 = Leased) && stale_overlap (ch_intent entry.2) incoming))
    && negb (capacity_deferred_gap_preserves_precise_work entry.2 incoming capacity_deferred_gap_ids) = true)
    (imap pair active).

(** The branch of [enqueue_one] for an incoming intent that the change at [target_index] covers. *)
Definition coalesce_into (all_active active : list ActiveChange) (capacity_deferred_gap_ids : list LibraryChangeId)
    (target_index : nat) (target : ActiveChange) (incoming : LibraryChangeIntent) (context : EnqueueContext)
    (report : Report) : Tx (LibraryChangeId * Report) :=
  let target_id := ch_id target in
  let merged := absorb_incoming (ch_intent target) incoming in
  let absorbed := coalesced_changes active capacity_deferred_gap_ids target_index merged incoming in
  let merged := foldl merge_older_evidence merged (ch_intent <$> absorbed) in
  update_change fault target_id merged (retained_evidence (ec_evidence context) absorbed)
    (ec_enqueued_unix_ms context) (ec_policy context);;
  transfer_catch_up_lineage fault (ch_id <$> absorbed) target_id;;
  superseded ← mark_superseded fault (ch_id <$> absorbed) (Some target_id) (ec_enqueued_unix_ms context);
  let report := note_freshness (bool_decide (in_kind merged = FreshnessUnknown))
                  (count_superseded superseded (count_coalesced report)) in
  report ← supersede_recovery_candidates_covered_by_higher_lane all_active (in_lane incoming) target_id merged
             (ec_enqueued_unix_ms context) report;
  mret (target_id, report).

(** What the last branch of [enqueue_one] absorbs. *)
Definition absorbed_changes (active : list ActiveChange) (incoming : LibraryChangeIntent)
    (capacity_deferred_gap_ids : list LibraryChangeId) : list ActiveChange :=
  filter (λ change : ActiveChange,
    (intent_covers incoming (ch_intent change)
     || (bool_decide (ch_status change = Leased) && stale_overlap (ch_intent change) incoming))
    && negb (capacity_deferred_gap_preserves_precise_work change incoming capacity_deferred_gap_ids) = true) active.

(** The intent the last branch of [enqueue_one] inserts. *)
Definition merged_intent (absorbed : list ActiveChange) (incoming : LibraryChangeIntent) : LibraryChangeIntent :=
  let stronger := max_by_key (λ change, intent_strength (ch_intent change))
                    (filter (λ change : ActiveChange, intent_covers (ch_intent change) incoming = true) absorbed) in
  let merged := match stronger with
                | Some stronger => merge_newer_evidence (ch_intent stronger) incoming
                | None => incoming
                end in
  foldl (λ merged change,
    if bool_decide (Some (ch_id change) = ch_id <$> stronger) then merged
    else merge_older_evidence merged (ch_intent change)) merged absorbed.

Definition insert_merged (all_active absorbed : list ActiveChange) (incoming : LibraryChangeIntent)
    (context : EnqueueContext) (report : Report) : Tx (LibraryChangeId * Report) :=
  let merged := merged_intent absorbed incoming in
  change_id ← insert_change fault sqlite_full merged (ec_enqueued_unix_ms context) (ec_catalog_revision context)
                (retained_evidence (ec_evidence context) absorbed) (ec_policy context);
  transfer_catch_up_lineage fault (ch_id <$> absorbed) change_id;;
  superseded ← mark_superseded fault (ch_id <$> absorbed) (Some change_id) (ec_enqueued_unix_ms context);
  let report := note_freshness (bool_decide (in_kind merged = FreshnessUnknown))
                  (count_superseded superseded (count_inserted report)) in
  report ← supersede_recovery_candidates_covered_by_higher_lane all_active (in_lane incoming) change_id merged
             (ec_enqueued_unix_ms context) report;
  mret (change_id, report).

(** The change of a higher lane that already does the work of a recovery path. *)
Definition higher_priority_change (all_active : list ActiveChange) (incoming : LibraryChangeIntent)
    : option ActiveChange :=
  min_by (λ x y,
    (lane_priority (ch_lane x) <? lane_priority (ch_lane y))
    || ((lane_priority (ch_lane x) =? lane_priority (ch_lane y))
        && (change_id_value (ch_id x) <? change_id_value (ch_id y))))
    (filter (λ change : ActiveChange, negb (bool_decide (ch_lane change = LaneRecovery))
                       && exact_path_work_identity (ch_intent change) incoming = true) all_active).

(** The error a model run out of [fuel] returns; two nested calls are enough. *)
Definition out_of_fuel : ScanError := ScanError_new "out_of_fuel" "".

Fixpoint enqueue_one_with (fuel : nat) (incoming : LibraryChangeIntent) (context : EnqueueContext) (report : Report)
    : Tx (LibraryChangeId * Report) :=
  match fuel with
  | O => st_lift (Err out_of_fuel)
  | S fuel =>
    all_active ← load_active_changes fault (in_root_id incoming) (in_root_generation incoming);
    let preserve_inventory_control := preserves_inventory_control incoming in
    let protected (change : ActiveChange) := bool_decide (ch_id change ∈ ec_protected_change_ids context) in
    capacity_deferred_gap_ids ← load_capacity_deferred_gap_ids all_active;
    let incoming_lane := in_lane incoming in
    if negb (bool_decide (incoming_lane = LaneLive))
       && (LibraryChangeQueuePolicy_lane_capacity (ec_policy context) incoming_lane =? 0)
    then st_lift (Err queue_backpressure)
    else
      match (if bool_decide (incoming_lane = LaneRecovery) then higher_priority_change all_active incoming else None) with
      | Some higher_priority => mret (ch_id higher_priority, count_coalesced report)
      | None =>
        let same_lane := filter (λ change : ActiveChange, is_same_lane incoming (ec_evidence context) change = true) all_active in
        let quota_active :=
          filter (λ change : ActiveChange, negb (bool_decide (ch_lane change = incoming_lane)) || negb (protected change) = true)
            all_active in
        let lane_counts := active_lane_counts (ch_intent <$> quota_active) in
        let active := filter (λ change : ActiveChange, negb preserve_inventory_control || negb (protected change) = true) same_lane in
        let protected_count :=
          saturating_add USIZE_MAX (saturating_sub (zlen all_active) (zlen active))
            (zlen (filter (λ id : LibraryChangeId, id ∉ ec_protected_change_ids context) capacity_deferred_gap_ids)) in
        if has_conflicting_rename active incoming then
          if negb (ec_allow_scope_degradation context) then st_lift (Err metadata_inventory_backpressure)
          else degrade_to_root same_lane incoming report (degradation context false)
        else if has_ambiguous_leased_overlap active incoming capacity_deferred_gap_ids then
          if negb (ec_allow_scope_degradation context) then st_lift (Err metadata_inventory_backpressure)
          else
            '(root_id, report) ← degrade_to_root same_lane incoming report (degradation context false);
            if queue_precise_dirty incoming then enqueue_one_with fuel incoming context report
            else mret (root_id, report)
        else
          match list_find (λ change : ActiveChange, is_unleased (ch_status change) && intent_covers (ch_intent change) incoming
                 && negb (capacity_deferred_gap_preserves_precise_work change incoming capacity_deferred_gap_ids) = true)
                 active with
          | Some (target_index, target) =>
            coalesce_into all_active active capacity_deferred_gap_ids target_index target incoming context report
          | None =>
            let absorbed := absorbed_changes active incoming capacity_deferred_gap_ids in
            let admitted_counts := ActiveLaneCounts_replacing lane_counts incoming_lane (zlen absorbed) in
            let absolute_count := saturating_add USIZE_MAX (saturating_sub (zlen all_active) (zlen absorbed)) 1 in
            if negb (lane_admission_allows (ec_policy context) incoming_lane admitted_counts)
               || (MAX_UNRESOLVED_CHANGES <? absolute_count)
            then
              if 0 <? protected_count then
                st_lift (Err (if ec_allow_scope_degradation context then queue_backpressure
                              else metadata_inventory_backpressure))
              else if negb (ec_allow_scope_degradation context) then st_lift (Err metadata_inventory_backpressure)
              else degrade_to_root active incoming report (degradation context true)
            else insert_merged all_active absorbed incoming context report
          end
      end
  end.

Definition enqueue_one : LibraryChangeIntent → EnqueueContext → Report → Tx (LibraryChangeId * Report) :=
  enqueue_one_with 2.

(** The loop of [enqueue_intents_in_transaction], once the generation of the root is established. *)
Fixpoint enqueue_each (intents : list LibraryChangeIntent) (context : EnqueueContext) (report : Report) : Tx Report :=
  match intents with
  | [] => mret report
  | intent :: intents =>
    '(_, report) ← enqueue_one intent context report;
    enqueue_each intents context report
  end.
End Enqueue.
