(* ===== verification/QueueView.v ===== *)
(** * The queue as a map of unresolved changes

    The statements of [adapters/sqlite_catalog/change_queue/persistence.rs] seen through what [load_active_changes]
    can read: the abstract queue [view], a map from ids to decoded changes.  Inserting adds an entry, updating
    replaces one, superseding removes entries, and everything that is stored can be read back. *)

From S2P Require Import Prelude Text LibraryChange Order Planning PlanningCoverage Numerals JournalText JournalBatch.
From S2P Require Import ChangeQueue Coalescing QueueStore.

(** ** The abstract queue *)

Definition row_change (id : Z) (row : QueueRow) : ScanResult ActiveChange :=
  active_change_from_raw (qr_root_id row) {| generation_value := qr_root_generation row |} id row.

Definition unresolved_change (id : Z) (row : QueueRow) : option ActiveChange :=
  if is_unresolved (qr_status row) then match row_change id row with Ok change => Some change | Err _ => None end
  else None.

Definition view (db : QueueDb) : gmap Z ActiveChange := map_imap unresolved_change (db_rows db).

(** An intent the queue can hold: valid, and within the types of its numbers. *)
Record storable (i : LibraryChangeIntent) : Prop := {
  so_queued : queued i;
  so_first : is_u64 (in_first_sequence i);
  so_most_recent : is_u64 (in_most_recent_sequence i);
  so_count : is_u32 (in_coalesced_observation_count i);
}.
#[export] Hint Resolve so_queued : core.

(** What every state of the queue satisfies: ids are drawn from the sequence, and every unresolved row decodes to
    a change with a valid intent. *)
Record queue_ok (db : QueueDb) : Prop := {
  qo_last : 0 ≤ db_last_id db ≤ I64_MAX;
  qo_ids : ∀ id row, db_rows db !! id = Some row → 1 ≤ id ≤ db_last_id db;
  qo_rows : ∀ id row, db_rows db !! id = Some row → is_unresolved (qr_status row) = true →
    ∃ change, row_change id row = Ok change ∧ storable (ch_intent change);
}.

Lemma lookup_view db id change :
  view db !! id = Some change ↔
  ∃ row, db_rows db !! id = Some row ∧ is_unresolved (qr_status row) = true ∧ row_change id row = Ok change.
Proof.
  unfold view. rewrite map_lookup_imap, bind_Some. unfold unresolved_change. split.
  - intros (row & Hr & H). exists row. split; [done|]. destruct (is_unresolved _); [|done].
    destruct (row_change id row); by simplify_eq.
  - intros (row & Hr & Hu & Hc). exists row. by rewrite Hu, Hc.
Qed.

Lemma raw_change_id root generation id row change :
  active_change_from_raw root generation id row = Ok change → ch_id change = {| change_id_value := id |}.
Proof.
  unfold active_change_from_raw, change_id_from_sqlite, sqlite_unsigned, LibraryChangeId_new. intros H.
  apply result_bind_Ok in H as (evidence & _ & H). apply result_bind_Ok in H as (cid & Hid & H).
  assert (cid = {| change_id_value := id |}) as ->.
  { apply result_bind_Ok in Hid as (v & Hv & Hid). apply ok_or_Ok in Hid. destruct (0 <=? id); [|done].
    injection Hv as <-. destruct (id =? 0); by simplify_eq. }
  simplify_result. done.
Qed.

Lemma row_change_id id row change : row_change id row = Ok change → ch_id change = {| change_id_value := id |}.
Proof. intros H. unfold row_change in H. exact (raw_change_id _ _ _ _ _ H). Qed.

Lemma view_change_id db id change : view db !! id = Some change → ch_id change = {| change_id_value := id |}.
Proof. intros (row & _ & _ & H)%lookup_view. by eapply row_change_id. Qed.

Lemma view_storable db id change : queue_ok db → view db !! id = Some change → storable (ch_intent change).
Proof.
  intros [_ _ Hrows] (row & Hr & Hu & Hc)%lookup_view. destruct (Hrows id row Hr Hu) as (change' & Hc' & Hs).
  congruence.
Qed.

Lemma view_id_range db id change : queue_ok db → view db !! id = Some change → 1 ≤ id ≤ db_last_id db.
Proof. intros Hok (row & Hr & _)%lookup_view. by eapply qo_ids. Qed.

(** ** Texts *)

Lemma intent_kind_roundtrip kind : intent_kind_from_db (intent_kind_to_db kind) = Ok kind.
Proof. by destruct kind. Qed.
Lemma scope_roundtrip scope : scope_from_db (scope_to_db scope) = Ok scope.
Proof. by destruct scope. Qed.
Lemma origin_roundtrip origin : origin_from_db (origin_to_db origin) = Ok origin.
Proof. by destruct origin. Qed.

(** What [change_id_from_sqlite] makes of a positive id. *)
Lemma change_id_positive id : 1 ≤ id → change_id_from_sqlite id = Ok {| change_id_value := id |}.
Proof.
  intros Hid. unfold change_id_from_sqlite, sqlite_unsigned, LibraryChangeId_new.
  rewrite (proj2 (Z.leb_le 0 id)) by lia. cbn. by rewrite (proj2 (Z.eqb_neq id 0)) by lia.
Qed.

(** The columns an intent is written to. *)
Record holds (row : QueueRow) (i : LibraryChangeIntent) : Prop := {
  ho_root : qr_root_id row = in_root_id i;
  ho_generation : qr_root_generation row = generation_value (in_root_generation i);
  ho_kind : qr_intent_kind row = intent_kind_to_db (in_kind i);
  ho_scope : qr_scope row = scope_to_db (in_scope i);
  ho_path : qr_relative_path row = in_relative_path i;
  ho_previous : qr_previous_relative_path row = in_previous_relative_path i;
  ho_origin : qr_origin row = origin_to_db (in_origin i);
  ho_first_time : qr_first_observed_unix_ms row = in_first_observed_unix_ms i;
  ho_last_time : qr_most_recent_observed_unix_ms row = in_most_recent_observed_unix_ms i;
  ho_first : qr_first_sequence row = show_uint (in_first_sequence i);
  ho_last : qr_most_recent_sequence row = show_uint (in_most_recent_sequence i);
  ho_count : qr_coalesced_observation_count row = in_coalesced_observation_count i;
}.

Lemma holds_change id row i evidence :
  holds row i → storable i → 1 ≤ id → qr_status row = lit "pending" → 0 ≤ qr_catalog_revision_at_enqueue row →
  qr_catch_up_source row = cue_source <$> evidence → qr_catch_up_watermark row = cue_watermark <$> evidence →
  row_change id row =
  Ok {| ch_id := {| change_id_value := id |}; ch_intent := i; ch_status := Pending;
        ch_catalog_revision_at_enqueue := qr_catalog_revision_at_enqueue row;
        ch_catch_up_evidence := evidence; ch_last_failure_code := qr_last_failure_code row |}.
Proof.
  intros [] [_ Hf Hm Hc] Hid Hst Hrev Hsource Hwater. unfold row_change, active_change_from_raw, parse_sequence, sqlite_u32.
  rewrite Hsource, Hwater, ho_kind0, ho_scope0, ho_origin0, ho_first0, ho_last0, ho_count0, Hst, change_id_positive by done.
  rewrite !intent_kind_roundtrip, !scope_roundtrip, !origin_roundtrip, !parse_u64_show by done.
  unfold sqlite_unsigned. rewrite (proj2 (Z.leb_le 0 (qr_catalog_revision_at_enqueue row))) by done.
  replace (_ && _) with true by (unfold is_uint in Hc; unfold U32_MAX; lia).
  rewrite ho_root0, ho_generation0, ho_path0, ho_previous0, ho_first_time0, ho_last_time0.
  destruct i as [? [?]], evidence as [[]|]; done.
Qed.

(** ** Statements *)

Abbreviation cid id := {| change_id_value := id |}.

Section View.
Context (fault : nat → option ScanError) (sqlite_full : ScanError).

Definition bump (db : QueueDb) : QueueDb :=
  {| db_tick := S (db_tick db); db_rows := db_rows db; db_last_id := db_last_id db;
     db_catch_up_lineage := db_catch_up_lineage db; db_range_lineage := db_range_lineage db;
     db_candidate_owners := db_candidate_owners db; db_live_gap_claims := db_live_gap_claims db |}.

Lemma statement_Ok {A} (f : QueueDb → A * QueueDb) db a db' :
  statement fault f db = Ok (a, db') → (a, db') = f (bump db).
Proof. unfold statement. destruct (fault _); [done|]. intros H. injection H as H. by rewrite <-H. Qed.

(** Statements on other tables leave the queue as it is. *)
Definition same_queue (db db' : QueueDb) : Prop := db_rows db' = db_rows db ∧ db_last_id db' = db_last_id db.

#[export] Instance same_queue_preorder : PreOrder same_queue.
Proof. split; [done|]. intros ??? [] []. split; congruence. Qed.

Lemma same_queue_view db db' : same_queue db db' → view db' = view db.
Proof. intros [Hr _]. unfold view. by rewrite Hr. Qed.

Lemma same_queue_ok db db' : same_queue db db' → queue_ok db → queue_ok db'.
Proof. intros [Hr Hl] []. split; rewrite ?Hr, ?Hl; done. Qed.

Lemma read_same {A} (f : QueueDb → A) db a db' :
  statement fault (λ db, (f db, db)) db = Ok (a, db') → a = f (bump db) ∧ same_queue db db'.
Proof. intros [= -> ->]%statement_Ok. done. Qed.

Lemma bound_same id db u db' : validate_catch_up_lineage_bound fault id db = Ok (u, db') → same_queue db db'.
Proof.
  unfold validate_catch_up_lineage_bound. intros H. apply st_bind_Ok in H as (? & ? & [_ ->]%st_lift_Ok & H).
  apply st_bind_Ok in H as (? & ? & [_ ?]%read_same & [_ ->]%st_lift_Ok). done.
Qed.

Lemma attach_same id evidence t db u db' : attach_catch_up_lineage fault id evidence t db = Ok (u, db') → same_queue db db'.
Proof.
  unfold attach_catch_up_lineage. intros H. apply st_bind_Ok in H as (? & ? & [_ ->]%st_lift_Ok & H).
  apply st_bind_Ok in H as (? & db1 & [= _ ->]%statement_Ok & H). by apply bound_same in H.
Qed.

Lemma evidence_same (evidence : option LibraryChangeCatchUpEvidence) id t db u db' :
  (match evidence with Some evidence => attach_catch_up_lineage fault id evidence t | None => mret () end) db = Ok (u, db') →
  same_queue db db'.
Proof. destruct evidence; [by apply attach_same|]. by intros [_ ->]%st_ret_Ok. Qed.

(** Writing an unresolved row. *)
Lemma insert_row_view db id row change rows :
  unresolved_change id row = Some change → rows = <[id := row]> (db_rows db) →
  map_imap unresolved_change rows = <[id := change]> (view db).
Proof. intros Hc ->. by apply map_imap_insert_Some. Qed.

Lemma insert_change_view intent t revision evidence policy db id db' :
  queue_ok db → storable intent → 0 ≤ revision →
  insert_change fault sqlite_full intent t revision evidence policy db = Ok (id, db') →
  id = {| change_id_value := db_last_id db + 1 |} ∧ queue_ok db' ∧
  ∃ change, view db' = <[db_last_id db + 1 := change]> (view db) ∧ view db !! (db_last_id db + 1) = None ∧
    ch_intent change = intent ∧ ch_status change = Pending ∧ ch_catch_up_evidence change = evidence.
Proof.
  intros Hok Hs Hrev H. unfold insert_change in H.
  apply st_bind_Ok in H as (generation & ? & [Hg ->]%st_lift_Ok & H).
  apply st_bind_Ok in H as (revision' & ? & [Hr ->]%st_lift_Ok & H).
  assert (generation = generation_value (in_root_generation intent)) as -> by (unfold sqlite_integer in Hg; destruct (_ <=? _); by simplify_eq).
  assert (revision' = revision) as -> by (unfold sqlite_integer in Hr; destruct (_ <=? _); by simplify_eq).
  apply st_bind_Ok in H as (inserted & db1 & Hst%statement_Ok & H). cbn [bump db_last_id db_rows] in Hst.
  pose proof (qo_last _ Hok). destruct (Z.ltb_spec I64_MAX (db_last_id db + 1)) as [|Hmax].
  { injection Hst as -> ->. by apply st_bind_Ok in H as (? & ? & [? _]%st_lift_Ok & _). }
  injection Hst as -> ->. apply st_bind_Ok in H as (rowid & ? & [[= <-] ->]%st_lift_Ok & H).
  apply st_bind_Ok in H as (cid & ? & [Hid ->]%st_lift_Ok & H). rewrite change_id_positive in Hid by lia. injection Hid as <-.
  apply st_bind_Ok in H as (u & db2 & Hsame%evidence_same & [-> ->]%st_ret_Ok).
  match type of Hsame with same_queue (set_last_id _ (set_rows (<[_ := ?r]> _) _)) _ => set (row := r) in * end.
  assert (row_change (db_last_id db + 1) row = Ok {| ch_id := {| change_id_value := db_last_id db + 1 |}; ch_intent := intent;
    ch_status := Pending; ch_catalog_revision_at_enqueue := revision; ch_catch_up_evidence := evidence;
    ch_last_failure_code := None |}) as Hrow by (apply (holds_change _ row); [by split|done|lia|done..]).
  split; [done|]. split.
  - eapply same_queue_ok; [exact Hsame|]. split; cbn.
    + lia.
    + intros id r [[<- <-]|[_ Hl]]%lookup_insert_Some; [lia|]. pose proof (qo_ids _ Hok id r Hl). lia.
    + intros id r [[<- <-]|[_ Hl]]%lookup_insert_Some Hu; [by eexists|]. by eapply qo_rows.
  - eexists. split; [|split].
    + rewrite (same_queue_view _ _ Hsame). unfold view. cbn [db_rows set_last_id set_rows]. eapply insert_row_view; [|reflexivity].
      unfold unresolved_change. by rewrite Hrow.
    + apply eq_None_not_Some. intros [c Hc]. apply view_id_range in Hc; [lia|done].
    + done.
Qed.

(** ** Updating *)

Lemma status_unleased row c id : row_change id row = Ok c → is_unleased (ch_status c) = is_waiting (qr_status row).
Proof.
  unfold row_change, active_change_from_raw. intros H. simplify_result. cbn.
  match goal with Hs : status_from_db _ = Ok _ |- _ => unfold status_from_db in Hs; revert Hs end.
  repeat (case_bool_decide as E; [intros [= <-]; rewrite E; reflexivity|clear E]). done.
Qed.

Lemma view_leased db id c : view db !! id = Some c → is_unleased (ch_status c) = false → ch_status c = Leased.
Proof.
  intros (row & _ & Hu & Hc)%lookup_view. unfold row_change, active_change_from_raw in Hc. simplify_result. cbn.
  match goal with Hs : status_from_db _ = Ok _ |- _ => unfold status_from_db in Hs; revert Hs end.
  revert Hu. repeat (case_bool_decide as E; [intros Hu [= <-]; rewrite E in Hu; by vm_compute in Hu || by vm_compute|clear E]).
  done.
Qed.

Lemma row_change_root id row c :
  row_change id row = Ok c →
  in_root_id (ch_intent c) = qr_root_id row ∧ generation_value (in_root_generation (ch_intent c)) = qr_root_generation row ∧
  0 ≤ qr_catalog_revision_at_enqueue row ∧
  qr_catch_up_source row = cue_source <$> ch_catch_up_evidence c ∧
  qr_catch_up_watermark row = cue_watermark <$> ch_catch_up_evidence c.
Proof.
  unfold row_change, active_change_from_raw. intros H. simplify_result. cbn.
  match goal with Hs : sqlite_unsigned (qr_catalog_revision_at_enqueue row) _ = Ok _ |- _ => unfold sqlite_unsigned in Hs; revert Hs end.
  destruct (Z.leb_spec 0 (qr_catalog_revision_at_enqueue row)); [|done]. intros _.
  destruct (qr_catch_up_source row), (qr_catch_up_watermark row); simplify_eq; done.
Qed.

Definition updated_change (c : ActiveChange) (intent : LibraryChangeIntent) (evidence : option LibraryChangeCatchUpEvidence)
    : ActiveChange :=
  {| ch_id := ch_id c; ch_intent := intent; ch_status := Pending;
     ch_catalog_revision_at_enqueue := ch_catalog_revision_at_enqueue c;
     ch_catch_up_evidence := match evidence with Some e => Some e | None => ch_catch_up_evidence c end;
     ch_last_failure_code := ch_last_failure_code c |}.

Lemma update_change_view intent t evidence policy db id c u db' :
  queue_ok db → view db !! id = Some c → is_unleased (ch_status c) = true → storable intent →
  in_root_id intent = in_root_id (ch_intent c) → in_root_generation intent = in_root_generation (ch_intent c) →
  update_change fault (ch_id c) intent evidence t policy db = Ok (u, db') →
  queue_ok db' ∧ db_last_id db' = db_last_id db ∧ ∃ c', view db' = <[id := c']> (view db) ∧ ch_intent c' = intent ∧ ch_status c' = Pending ∧
    ch_id c' = ch_id c ∧ ch_catch_up_evidence c' = match evidence with Some e => Some e | None => ch_catch_up_evidence c end.
Proof.
  intros Hok Hv Hun Hs Hroot Hgen H. pose proof (view_id_range _ _ _ Hok Hv) as Hid. pose proof (view_change_id _ _ _ Hv) as Hcid.
  apply lookup_view in Hv as (row & Hrow & Hu & Hc). rewrite (status_unleased _ _ _ Hc) in Hun.
  destruct (row_change_root _ _ _ Hc) as (Hr1 & Hr2 & Hrev & Hsource & Hwater).
  unfold update_change in H. rewrite Hcid in H. cbn [change_id_value] in H.
  apply st_bind_Ok in H as (id' & ? & [Hi ->]%st_lift_Ok & H).
  assert (id' = id) as -> by (unfold sqlite_integer in Hi; destruct (_ <=? _); by simplify_eq).
  apply st_bind_Ok in H as (? & db1 & Hst%statement_Ok & Hsame%evidence_same).
  unfold update_row in Hst. cbn [bump db_rows] in Hst. rewrite Hrow, Hun in Hst. cbn [snd] in Hst. injection Hst as -> ->.
  set (row' := updated_row intent evidence t policy row) in *.
  assert (row_change id row' = Ok {| ch_id := {| change_id_value := id |}; ch_intent := intent; ch_status := Pending;
     ch_catalog_revision_at_enqueue := qr_catalog_revision_at_enqueue row;
     ch_catch_up_evidence := match evidence with Some e => Some e | None => ch_catch_up_evidence c end;
     ch_last_failure_code := qr_last_failure_code row |}) as Hrow'.
  { apply (holds_change id row' intent (match evidence with Some e => Some e | None => ch_catch_up_evidence c end)); cbn;
      [split; cbn; congruence|done|lia|done|done|by destruct evidence|by destruct evidence]. }
  split_and!.
  - eapply same_queue_ok; [exact Hsame|]. split; cbn.
    + apply Hok.
    + intros id0 r [[<- <-]|[_ Hl]]%lookup_insert_Some; by eapply qo_ids.
    + intros id0 r [[<- <-]|[_ Hl]]%lookup_insert_Some Hu'; [by eexists|]. by eapply qo_rows.
  - by destruct Hsame as [_ ->].
  - eexists. split.
    + rewrite (same_queue_view _ _ Hsame). unfold view. cbn [db_rows set_rows]. eapply insert_row_view; [|reflexivity].
      unfold unresolved_change. by rewrite Hrow'.
    + done.
Qed.

(** ** Handing on lineage and superseding *)

Lemma sqlite_integer_Ok value field v : sqlite_integer value field = Ok v → v = value.
Proof. unfold sqlite_integer. destruct (_ <=? _); by intros; simplify_eq. Qed.

Lemma clear_change id row c :
  row_change id row = Ok c → ∃ c', row_change id (clear_catch_up row) = Ok c' ∧ ch_intent c' = ch_intent c.
Proof.
  unfold row_change, active_change_from_raw. intros H. apply result_bind_Ok in H as (evidence & _ & H).
  cbn [clear_catch_up qr_catch_up_source qr_catch_up_watermark mbind result_bind] in *. simplify_result.
  cbn. repeat match goal with Hx : _ = Ok _ |- _ => rewrite Hx; cbn; clear Hx end. eexists. split; reflexivity.
Qed.

(** A statement that rewrites one row, keeping it readable when it stays unresolved. *)
Lemma update_row_ok id p f db :
  queue_ok db →
  (∀ row c, db_rows db !! id = Some row → p row = true → is_unresolved (qr_status (f row)) = true →
     is_unresolved (qr_status row) = true ∧
     (row_change id row = Ok c → ∃ c', row_change id (f row) = Ok c' ∧ ch_intent c' = ch_intent c)) →
  queue_ok (update_row id p f db).2 ∧ db_last_id (update_row id p f db).2 = db_last_id db ∧
  ∀ id', id' ≠ id → view (update_row id p f db).2 !! id' = view db !! id'.
Proof.
  intros Hok Hf. unfold update_row. destruct (db_rows db !! id) as [row|] eqn:Hrow; [|done]. destruct (p row) eqn:Hp; [|done].
  cbn [snd]. split_and!.
  - split; cbn; [apply Hok|intros id0 r [[<- <-]|[_ Hl]]%lookup_insert_Some; by eapply qo_ids|].
    intros id0 r [[<- <-]|[_ Hl]]%lookup_insert_Some Hu; [|by eapply qo_rows].
    destruct (Hf row (Build_ActiveChange (cid 0) (Build_LibraryChangeIntent [] (Build_LibraryRootGeneration 0) Reconcile Path [] None
      LiveNotification 0 0 0 0 0) Pending 0 None None) eq_refl Hp Hu) as [Hu' _].
    destruct (qo_rows _ Hok id row Hrow Hu') as (c & Hc & Hs). destruct (Hf row c eq_refl Hp Hu) as [_ Hx].
    destruct (Hx Hc) as (c' & Hc' & Hi). exists c'. by rewrite Hi.
  - done.
  - intros id' Hne. unfold view. cbn. rewrite !map_lookup_imap. by rewrite lookup_insert_ne by done.
Qed.

Lemma transfer_source_view target source db u db' :
  queue_ok db → transfer_source fault target source db = Ok (u, db') →
  queue_ok db' ∧ db_last_id db' = db_last_id db ∧
  ∀ id, cid id ≠ source ∨ source = target → view db' !! id = view db !! id.
Proof.
  intros Hok. unfold transfer_source. case_bool_decide as Heq.
  { intros [_ ->]%st_ret_Ok. done. }
  intros H. apply st_bind_Ok in H as (tid & ? & [_ ->]%st_lift_Ok & H).
  apply st_bind_Ok in H as (sid & ? & [->%sqlite_integer_Ok ->]%st_lift_Ok & H).
  apply st_bind_Ok in H as (? & db1 & [= _ ->]%statement_Ok & H).
  apply st_bind_Ok in H as (? & db2 & [= _ ->]%statement_Ok & H).
  apply st_bind_Ok in H as (? & db3 & [= _ ->]%statement_Ok & H).
  apply st_bind_Ok in H as (? & db4 & [= _ ->]%statement_Ok & H).
  apply statement_Ok in H. injection H as _ ->.
  match goal with |- context [update_row ?i ?p ?f ?d] =>
    assert (same_queue db d) as Hsame by done; destruct (update_row_ok i p f d) as (Hok' & Hl & Hv) end.
  - eapply same_queue_ok; [exact Hsame|done].
  - intros row c _ _ Hu. split; [done|]. apply clear_change.
  - split_and!; [done|done|]. intros id [Hne|?]; [|done]. rewrite Hv; [by apply (f_equal (lookup id)), same_queue_view|].
    intros ->. by destruct source.
Qed.

Lemma transfer_view ids target db u db' :
  queue_ok db → transfer_catch_up_lineage fault ids target db = Ok (u, db') →
  queue_ok db' ∧ db_last_id db' = db_last_id db ∧
  ∀ id, cid id ∉ ids ∨ cid id = target → view db' !! id = view db !! id.
Proof.
  intros Hok H. unfold transfer_catch_up_lineage in H. apply st_bind_Ok in H as (? & db1 & H & Hsame%bound_same).
  assert (queue_ok db1 ∧ db_last_id db1 = db_last_id db ∧ ∀ id, cid id ∉ ids ∨ cid id = target → view db1 !! id = view db !! id)
    as (Hok1 & Hl1 & Hv1).
  { clear Hsame db'. revert db Hok H. induction ids as [|source ids IH]; intros db Hok H; [by apply st_ret_Ok in H as [_ ->]|].
    cbn in H. apply st_bind_Ok in H as (? & db0 & Hs & H). destruct (transfer_source_view _ _ _ _ _ Hok Hs) as (Hok0 & Hl0 & Hv0).
    destruct (IH db0 Hok0 H) as (Hok2 & Hl2 & Hv2). split_and!; [done|congruence|].
    intros id Hid. rewrite Hv2 by (rewrite not_elem_of_cons in Hid; tauto). apply Hv0.
    rewrite not_elem_of_cons in Hid. destruct (decide (cid id = source)) as [<-|]; [|by left]. right. by destruct Hid as [[]|?]. }
  split_and!; [by eapply same_queue_ok|destruct Hsame; congruence|]. intros id Hid. rewrite (same_queue_view _ _ Hsame). by apply Hv1.
Qed.

Lemma supersede_one_view target t n id0 db k db' :
  queue_ok db → supersede_one fault (Some target) t n id0 db = Ok (k, db') →
  queue_ok db' ∧ db_last_id db' = db_last_id db ∧
  ∀ id, view db' !! id = if decide (cid id = id0 ∧ cid id ≠ target) then None else view db !! id.
Proof.
  intros Hok. unfold supersede_one. case_bool_decide as Heq.
  { injection Heq as ->. intros [_ ->]%st_ret_Ok. split_and!; [done|done|]. intros id. by rewrite decide_False by (by intros [??]). }
  intros H. apply st_bind_Ok in H as (by_id & ? & [_ ->]%st_lift_Ok & H).
  apply st_bind_Ok in H as (id1 & ? & [->%sqlite_integer_Ok ->]%st_lift_Ok & H).
  apply st_bind_Ok in H as (updated & db1 & Hst%statement_Ok & H).
  assert (same_queue db1 db') as Hsame.
  { apply st_bind_Ok in H as (? & db2 & H & [_ ->]%st_ret_Ok).
    destruct by_id; [|by apply st_ret_Ok in H as [_ ->]]. destruct (updated =? 0); [by apply st_ret_Ok in H as [_ ->]|].
    apply statement_Ok in H. by injection H as _ ->. }
  set (p := λ row, is_unresolved (qr_status row)) in Hst. set (f := superseded_row by_id t) in Hst.
  assert (db1 = (update_row (change_id_value id0) p f (bump db)).2) as -> by (by rewrite <-Hst).
  destruct (update_row_ok (change_id_value id0) p f (bump db)) as (Hok1 & Hl1 & Hv1).
  { by apply (same_queue_ok db). }
  { intros row c _ _ Hu. by vm_compute in Hu. }
  split_and!; [by eapply same_queue_ok|destruct Hsame as [_ ->]; exact Hl1|].
  intros id. rewrite (same_queue_view _ _ Hsame). case_decide as Hd.
  - destruct Hd as [<- _]. cbn [change_id_value]. unfold update_row. unfold view. rewrite map_lookup_imap. cbn [bump db_rows].
    destruct (db_rows db !! id) as [row|] eqn:Hr; cbn [snd db_rows set_rows bump]; [|by rewrite Hr].
    destruct (p row) eqn:Hp; cbn [snd db_rows set_rows bump].
    + rewrite lookup_insert_eq. cbn. unfold unresolved_change. done.
    + rewrite Hr. cbn. unfold unresolved_change. unfold p in Hp. by rewrite Hp.
  - destruct (decide (id = change_id_value id0)) as [->|Hne]; [|by rewrite Hv1].
    exfalso. apply Hd. destruct id0 as [v]. cbn. split; [done|]. congruence.
Qed.

Lemma mark_view ids target t db k db' :
  queue_ok db → mark_superseded fault ids (Some target) t db = Ok (k, db') →
  queue_ok db' ∧ db_last_id db' = db_last_id db ∧
  ∀ id, view db' !! id = if decide (cid id ∈ ids ∧ cid id ≠ target) then None else view db !! id.
Proof.
  unfold mark_superseded. generalize 0. revert db. induction ids as [|id0 ids IH]; intros db n Hok H; cbn in H.
  { apply st_ret_Ok in H as [_ ->]. split_and!; [done|done|]. intros id. by rewrite decide_False by (rewrite elem_of_nil; tauto). }
  apply st_bind_Ok in H as (n' & db0 & Hs & H). destruct (supersede_one_view _ _ _ _ _ _ _ Hok Hs) as (Hok0 & Hl0 & Hv0).
  destruct (IH _ _ Hok0 H) as (Hok1 & Hl1 & Hv1). split_and!; [done|congruence|]. intros id. rewrite Hv1, Hv0.
  destruct (decide (cid id ∈ ids ∧ cid id ≠ target)) as [[Hin Hne]|Hno].
  { rewrite decide_True by (split; [by right|done]). done. }
  destruct (decide (cid id = id0 ∧ cid id ≠ target)) as [[-> Hne]|Hno'].
  - by rewrite decide_True by (split; [by left|done]).
  - rewrite decide_False; [done|]. intros [[?|?]%elem_of_cons ?]; [by apply Hno'|by apply Hno].
Qed.

(** ** Loading *)

Lemma elem_of_select p db id row :
  (id, row) ∈ select p db ↔ db_rows db !! id = Some row ∧ p id row = true.
Proof. unfold select. rewrite list_elem_of_filter, sort_by_perm, elem_of_map_to_list. cbn. tauto. Qed.

Lemma NoDup_select p db : NoDup (fst <$> select p db).
Proof.
  unfold select. eapply sublist_NoDup; [|apply fmap_sublist, sublist_filter].
  rewrite sort_by_perm. apply NoDup_fst_map_to_list.
Qed.

Lemma result_map_list_Ok {E A B} (f : A → Result E B) l ys :
  result_map_list f l = Ok ys → Forall2 (λ x y, f x = Ok y) l ys.
Proof.
  revert ys. induction l as [|x l IH]; intros ys H; cbn in H; simplify_result; constructor; [done|by apply IH].
Qed.

Lemma result_map_list_ext {E A B} (f g : A → Result E B) l :
  (∀ x, x ∈ l → f x = g x) → result_map_list f l = result_map_list g l.
Proof.
  induction l as [|x l IH]; intros Hfg; [done|]. cbn. rewrite (Hfg x) by (by left). rewrite IH; [done|].
  intros y Hy. apply Hfg. by right.
Qed.

(** The columns read, for a row of the root and generation that was asked for. *)
Lemma raw_change root generation id row :
  qr_root_id row = root → qr_root_generation row = generation_value generation →
  active_change_from_raw root generation id row = row_change id row.
Proof. intros <- Hg. unfold row_change. rewrite Hg. by destruct generation. Qed.

Definition of_root (root : str) (generation : LibraryRootGeneration) (c : ActiveChange) : Prop :=
  in_root_id (ch_intent c) = root ∧ in_root_generation (ch_intent c) = generation.

Lemma load_view root generation db changes db' :
  queue_ok db → load_active_changes fault root generation db = Ok (changes, db') →
  same_queue db db' ∧ NoDup (ch_id <$> changes) ∧ zlen changes ≤ MAX_UNRESOLVED_CHANGES ∧
  ∀ c, c ∈ changes ↔ of_root root generation c ∧ ∃ id, view db !! id = Some c.
Proof.
  intros Hok H. unfold load_active_changes in H. apply st_bind_Ok in H as (g & ? & [->%sqlite_integer_Ok ->]%st_lift_Ok & H).
  apply st_bind_Ok in H as (rows & db1 & [Hrows Hsame]%read_same & H).
  apply st_bind_Ok in H as (changes' & ? & [Hmap ->]%st_lift_Ok & H).
  apply st_bind_Ok in H as (? & ? & [Hlen%fail_if_Ok ->]%st_lift_Ok & [-> ->]%st_ret_Ok).
  set (p := λ (_ : Z) row, _) in Hrows. pose proof (Forall2_length _ _ _ (result_map_list_Ok _ _ _ Hmap)) as Hl.
  assert (rows = select p (bump db)) as ->.
  { rewrite Hrows in Hl |- *. rewrite length_take in Hl. rewrite take_ge; [done|]. unfold zlen, MAX_UNRESOLVED_CHANGES in *. lia. }
  assert (∀ id row, (id, row) ∈ select p (bump db) ↔ db_rows db !! id = Some row ∧ is_unresolved (qr_status row) = true ∧
    qr_root_id row = root ∧ qr_root_generation row = generation_value generation) as Hsel.
  { intros id row. rewrite elem_of_select. unfold p. rewrite !andb_true_iff, bool_decide_eq_true, Z.eqb_eq. cbn. tauto. }
  rewrite (result_map_list_ext _ (λ entry, row_change entry.1 entry.2)) in Hmap
    by (intros [id row] (_ & _ & ? & ?)%Hsel; by apply raw_change).
  apply result_map_list_Ok in Hmap.
  split_and!; [done| |unfold zlen, MAX_UNRESOLVED_CHANGES in *; lia|].
  - assert (ch_id <$> changes' = (λ e : Z * QueueRow, cid e.1) <$> select p (bump db)) as ->.
    { clear -Hmap. induction Hmap as [|[id row] c l l' Hc _ IH]; [done|]. cbn. by rewrite IH, (row_change_id _ _ _ Hc). }
    change (λ e : Z * QueueRow, cid e.1) with ((λ id : Z, cid id) ∘ (fst : Z * QueueRow → Z)). rewrite list_fmap_compose. apply NoDup_fmap_2; [by intros ?? [= ->]|]. apply NoDup_select.
  - intros c. split.
    + intros (k & Hk)%list_elem_of_lookup. destruct (Forall2_lookup_r _ _ _ _ _ Hmap Hk) as ([id row] & He & Hc).
      apply list_elem_of_lookup_2, Hsel in He as (Hr & Hu & Hroot & Hg). cbn in Hc. split.
      * destruct (row_change_root _ _ _ Hc) as (H1 & H2 & _). split; [congruence|].
        destruct generation, (in_root_generation (ch_intent c)); cbn in *; congruence.
      * exists id. apply lookup_view. by exists row.
    + intros [[Hroot Hg] (id & (row & Hr & Hu & Hc)%lookup_view)]. destruct (row_change_root _ _ _ Hc) as (H1 & H2 & _).
      assert ((id, row) ∈ select p (bump db)) as Hin by (apply Hsel; split_and!; congruence).
      apply list_elem_of_lookup in Hin as [k Hk]. destruct (Forall2_lookup_l _ _ _ _ _ Hmap Hk) as (c' & Hc' & Heq).
      cbn in Heq. rewrite Hc in Heq. injection Heq as ->. by eapply list_elem_of_lookup_2.
Qed.
End View.
