(* ===== verification/EnqueueLaws.v ===== *)
(** * Queueing loses no work

    [enqueue_one] of [adapters/sqlite_catalog/change_queue/coalescing.rs], through the abstract queue of
    [QueueView]: whatever an unresolved change asked to reconcile before the call is asked for by an
    unresolved change after it, and so is what the incoming intent asks for. *)

From S2P Require Import Prelude Text LibraryChange Order Planning PlanningCoverage Numerals JournalText JournalBatch.
From S2P Require Import ChangeQueue Coalescing QueueStore QueueView Enqueue JournalIntents.

(** ** Storable intents *)

Lemma merge_older_storable t e : storable t → storable e → storable (merge_older_evidence t e).
Proof.
  intros [Hq Hf Hm Hc] [Hq' Hf' Hm' Hc']. destruct (merge_older_ok t e Hq Hq') as [Hx Hqm].
  assert (∀ t', merge_dirty_rename_semantics t e = t' →
    in_first_sequence t' = in_first_sequence t ∧ in_most_recent_sequence t' = in_most_recent_sequence t ∧
    in_coalesced_observation_count t' = in_coalesced_observation_count t) as Hsame.
  { intros t' <-. destruct (merged_dirty t e (qd_shape _ Hq) (qd_shape _ Hq')) as [->|(p & -> & _)]; done. }
  destruct (Hsame _ eq_refl) as (H1 & H2 & H3). unfold is_uint in *.
  split; [done|cbn; rewrite ?H1, ?H2, ?H3; unfold is_uint, saturating_add, U32_MAX; lia..].
Qed.

Lemma merge_newer_storable t e : storable t → storable e → storable (merge_newer_evidence t e).
Proof.
  intros Ht He. pose proof (merge_older_storable t e Ht He) as [_ Hf _ Hc].
  split; [apply merge_newer_ok; auto|exact Hf|apply He|exact Hc].
Qed.

Lemma absorb_storable t e : storable t → storable e → intent_covers t e = true → storable (absorb_incoming t e).
Proof.
  intros Ht He Hc. destruct (absorb_incoming_ok t e) as [_ Hq]; auto. pose proof (merge_newer_storable t e Ht He) as [_ Hf Hm Hn].
  revert Hq. unfold absorb_incoming. case_bool_decide; intros Hq; by split.
Qed.

Lemma whole_root_storable i : storable i → storable (whole_root i).
Proof. intros []. split; [by apply whole_root_ok|done..]. Qed.

(** Folding evidence into an intent, of all or of some. *)
Lemma fold_storable {A} (f : A → LibraryChangeIntent) (skip : A → bool) t es :
  storable t → Forall (λ e, storable (f e)) es →
  let m := foldl (λ m e, if skip e then m else merge_older_evidence m (f e)) t es in extends t m ∧ storable m.
Proof.
  intros Ht Hes. revert t Ht. induction Hes as [|e es He _ IH]; intros t Ht; [done|]. cbn.
  destruct (skip e); [by apply IH|]. destruct (IH (merge_older_evidence t (f e))) as [Hx Hs]; [by apply merge_older_storable|].
  split; [|done]. etrans; [|exact Hx]. apply merge_older_ok; auto.
Qed.

Lemma fold_older_storable t es :
  storable t → Forall storable es → extends t (foldl merge_older_evidence t es) ∧ storable (foldl merge_older_evidence t es).
Proof. intros Ht Hes. exact (fold_storable id (λ _, false) t es Ht Hes). Qed.

(** ** Keeping work *)

(** [c'] asks for all that [i] asks for, of the same generation of the same root. *)
Definition does (c' : ActiveChange) (i : LibraryChangeIntent) : Prop :=
  of_root (in_root_id i) (in_root_generation i) c' ∧ includes (ch_intent c') i.

Definition keeps (v v' : gmap Z ActiveChange) : Prop :=
  ∀ id c, v !! id = Some c → ∃ id' c', v' !! id' = Some c' ∧ does c' (ch_intent c).

#[export] Instance keeps_preorder : PreOrder keeps.
Proof.
  split.
  - intros v id c Hc. exists id, c. split; [done|]. by split.
  - intros v1 v2 v3 H12 H23 id c Hc. destruct (H12 id c Hc) as (id2 & c2 & Hc2 & [Hr2 Hg2] & Hi2).
    destruct (H23 id2 c2 Hc2) as (id3 & c3 & Hc3 & [Hr3 Hg3] & Hi3). exists id3, c3. split; [done|].
    split; [split; congruence|]. by transitivity (ch_intent c2).
Qed.

(** The change at [id] does the work of [i]. *)
Definition answered_by (v : gmap Z ActiveChange) (id : LibraryChangeId) (i : LibraryChangeIntent) : Prop :=
  ∃ c, v !! change_id_value id = Some c ∧ does c i.

(** Replacing changes by one that does their work. *)
Lemma keeps_replace v v' target c' :
  v' !! target = Some c' →
  (∀ id c, v !! id = Some c → id ≠ target → v' !! id = Some c ∨ does c' (ch_intent c)) →
  (∀ c, v !! target = Some c → does c' (ch_intent c)) → keeps v v'.
Proof.
  intros Ht Hother Hself id c Hc. destruct (decide (id = target)) as [->|Hne]; [by exists target, c'; auto|].
  destruct (Hother id c Hc Hne) as [?|?]; [|by exists target, c']. exists id, c. split; [done|]. by split.
Qed.

Lemma does_refl c i : ch_intent c = i → does c i.
Proof. by intros <-. Qed.

Section Laws.
Context (fault : nat → option ScanError) (sqlite_full : ScanError).

(** Lineage is handed on and the sources are superseded. *)
Lemma settle_view ids ids' target t db (u : unit) db1 n db' :
  queue_ok db → transfer_catch_up_lineage fault ids target db = Ok (u, db1) →
  mark_superseded fault ids' (Some target) t db1 = Ok (n, db') →
  (∀ id, id ∈ ids → id ∈ ids' ∨ id = target) →
  queue_ok db' ∧ db_last_id db' = db_last_id db ∧
  ∀ id, view db' !! id = if decide (cid id ∈ ids' ∧ cid id ≠ target) then None else view db !! id.
Proof.
  intros Hok Ht Hm Hsub. destruct (transfer_view fault _ _ _ _ _ Hok Ht) as (Hok1 & Hl1 & Hv1).
  destruct (mark_view fault _ _ _ _ _ _ Hok1 Hm) as (Hok2 & Hl2 & Hv2). split_and!; [done|congruence|].
  intros id. rewrite Hv2. destruct (decide _) as [|Hno]; [done|]. apply Hv1.
  destruct (decide (cid id = target)) as [|Hne]; [by right|]. left. intros Hin.
  destruct (Hsub _ Hin) as [?|?]; [by apply Hno|done].
Qed.

(** Unresolved changes of a root, as [enqueue_one] loads them. *)
Record loaded (db : QueueDb) (root : str) (generation : LibraryRootGeneration) (changes : list ActiveChange) : Prop := {
  ld_view : ∀ c, c ∈ changes → view db !! change_id_value (ch_id c) = Some c ∧ of_root root generation c;
  ld_ids : NoDup (ch_id <$> changes);
}.

Lemma loaded_sub db root generation changes changes' :
  loaded db root generation changes → changes' `sublist_of` changes → loaded db root generation changes'.
Proof.
  intros [Hv Hn] Hs. split.
  - intros c Hc. apply Hv. by eapply elem_of_sublist.
  - eapply sublist_NoDup; [exact Hn|]. by apply fmap_sublist.
Qed.

Lemma loaded_storable db root generation changes :
  queue_ok db → loaded db root generation changes → Forall (λ c, storable (ch_intent c)) changes.
Proof. intros Hok [Hv _]. apply Forall_forall. intros c Hc. destruct (Hv c Hc) as [Hl _]. by eapply view_storable. Qed.

Lemma loaded_inj db root generation changes c d :
  loaded db root generation changes → c ∈ changes → d ∈ changes → ch_id c = ch_id d → c = d.
Proof. intros [Hv _] Hc Hd Heq. destruct (Hv c Hc) as [H1 _]. destruct (Hv d Hd) as [H2 _]. rewrite Heq in H1. congruence. Qed.

(** ** Falling back to the root *)

Lemma degrade_view active incoming report context db id report' db' :
  queue_ok db → storable incoming → 0 ≤ dc_catalog_revision context →
  loaded db (in_root_id incoming) (in_root_generation incoming) active →
  degrade_to_root fault sqlite_full active incoming report context db = Ok ((id, report'), db') →
  queue_ok db' ∧ ∃ c, view db' !! change_id_value id = Some c ∧ of_root (in_root_id incoming) (in_root_generation incoming) c ∧
    in_scope (ch_intent c) = Root ∧ ch_status c = Pending ∧
    (∀ c0, view db !! change_id_value id = Some c0 → id ∈ (ch_id <$> active)) ∧
    ∀ id0, id0 ≠ change_id_value id → view db' !! id0 = if decide (cid id0 ∈ (ch_id <$> active)) then None else view db !! id0.
Proof.
  intros Hok Hi Hrev Hload H. unfold degrade_to_root in H.
  set (root := foldl merge_older_evidence (whole_root incoming) (ch_intent <$> active)) in *.
  assert (extends (whole_root incoming) root ∧ storable root) as [[Hxr Hxg Hxs _ _] Hsr].
  { apply fold_older_storable; [by apply whole_root_storable|]. rewrite Forall_fmap. by eapply loaded_storable. }
  apply st_bind_Ok in H as ([tid rep] & db1 & Htarget & H).
  apply st_bind_Ok in H as (? & db2 & Htr & H). apply st_bind_Ok in H as (n & db3 & Hm & H).
  apply st_ret_Ok in H as [[= -> ->] ->].
  assert (queue_ok db1 ∧ ∃ c, view db1 = <[change_id_value tid := c]> (view db) ∧ ch_intent c = root ∧ ch_status c = Pending
    ∧ ∀ c0, view db !! change_id_value tid = Some c0 → tid ∈ (ch_id <$> active)) as (Hok1 & c & Hv1 & Hci & Hcs & Hold).
  { destruct (find _ active) as [existing|] eqn:Efind.
    - apply find_some in Efind as [Hin Hex]. apply list_elem_of_In in Hin.
      rewrite !andb_true_iff in Hex. destruct Hex as [[Hun _] _]. destruct (ld_view _ _ _ _ Hload existing Hin) as [Hve [Hr Hg]].
      apply st_bind_Ok in Htarget as (? & db0 & Hup & [[= -> ->] ->]%st_ret_Ok).
      assert (in_root_id root = in_root_id (ch_intent existing)) as Hre by (rewrite Hxr, Hr; done).
      assert (in_root_generation root = in_root_generation (ch_intent existing)) as Hge by (rewrite Hxg, Hg; done).
      destruct (update_change_view fault _ _ _ _ _ _ _ _ _ Hok Hve Hun Hsr Hre Hge Hup) as (? & _ & c & ? & ? & ? & _).
      split; [done|]. exists c. split_and!; [done|done|done|]. intros _ _. apply list_elem_of_fmap. by exists existing.
    - apply st_bind_Ok in Htarget as (id & db0 & Hins & [[= -> ->] ->]%st_ret_Ok).
      destruct (insert_change_view fault sqlite_full _ _ _ _ _ _ _ _ Hok Hsr Hrev Hins) as (-> & ? & c & ? & Hfresh & ? & ? & _).
      split; [done|]. exists c. split_and!; [done|done|done|]. cbn. intros c0. by rewrite Hfresh. }
  destruct (settle_view _ _ _ _ _ _ _ _ _ Hok1 Htr Hm) as (Hok' & _ & Hv').
  { intros id0 (c0 & -> & Hc0)%list_elem_of_fmap. destruct (decide (ch_id c0 = tid)) as [|Hne]; [by right|]. left.
    apply list_elem_of_fmap. exists c0. split; [done|]. by apply list_elem_of_filter. }
  split; [done|]. exists c. rewrite Hv'. split_and!.
  - rewrite decide_False by (destruct tid; by intros [_ ?]). by rewrite Hv1, lookup_insert_eq.
  - split; rewrite Hci; [by rewrite Hxr|by rewrite Hxg].
  - by rewrite Hci, Hxs.
  - done.
  - done.
  - intros id0 Hne. rewrite Hv', Hv1, lookup_insert_ne by done.
    assert (cid id0 ≠ tid) as Hne' by (intros <-; done).
    destruct (decide (cid id0 ∈ ch_id <$> active)) as [Hin|Hin].
    + rewrite decide_True; [done|]. split; [|done]. apply list_elem_of_fmap in Hin as (c0 & Heq & Hc0).
      apply list_elem_of_fmap. exists c0. split; [done|]. apply list_elem_of_filter. split; congruence.
    + rewrite decide_False; [done|]. intros [(c0 & Heq & [_ Hc0]%list_elem_of_filter)%list_elem_of_fmap _].
      apply Hin, list_elem_of_fmap. by exists c0.
Qed.

Lemma degrade_keeps active incoming db id c v' :
  loaded db (in_root_id incoming) (in_root_generation incoming) active →
  (∀ c0, view db !! id = Some c0 → cid id ∈ (ch_id <$> active)) →
  v' !! id = Some c → of_root (in_root_id incoming) (in_root_generation incoming) c → in_scope (ch_intent c) = Root →
  (∀ id0, id0 ≠ id → v' !! id0 = if decide (cid id0 ∈ (ch_id <$> active)) then None else view db !! id0) →
  keeps (view db) v' ∧ does c incoming.
Proof.
  intros Hload Hid Hc Hof Hroot Hv'. assert (∀ i, of_root (in_root_id i) (in_root_generation i) c → does c i) as Hdoes.
  { intros i Hi. split; [done|]. intros place _. by apply covers_root. }
  assert (∀ id0 c0, view db !! id0 = Some c0 → cid id0 ∈ (ch_id <$> active) → does c (ch_intent c0)) as Hact.
  { intros id0 c0 Hc0 (c1 & Heq & Hc1)%list_elem_of_fmap. destruct (ld_view _ _ _ _ Hload c1 Hc1) as [Hv1 [Hr Hg]].
    rewrite <-Heq in Hv1. cbn in Hv1. rewrite Hc0 in Hv1. simplify_eq. apply Hdoes. destruct Hof. split; congruence. }
  split; [|by apply Hdoes]. apply (keeps_replace _ _ id c Hc).
  - intros id0 c0 Hc0 Hne. rewrite Hv' by done. destruct (decide _) as [Hin|]; [right; by eapply Hact|by left].
  - intros c0 Hc0. eapply Hact; [exact Hc0|]. by eapply Hid.
Qed.

(** ** Replacing changes by one that does their work *)

Lemma exact_identity_places a b : exact_path_work_identity a b = true → same_places a b.
Proof.
  unfold exact_path_work_identity. rewrite !andb_true_iff, !bool_decide_eq_true. intros (((Hs & Hs') & Hr) & Hp).
  split_and!; congruence.
Qed.

Lemma exact_identity_does c c' :
  exact_path_work_identity (ch_intent c) (ch_intent c') = true →
  of_root (in_root_id (ch_intent c)) (in_root_generation (ch_intent c)) c' → does c' (ch_intent c).
Proof.
  intros (Hs & Hr & Hp)%exact_identity_places Hof. split; [done|]. apply same_places_includes. by split_and!.
Qed.

Lemma recovery_view all_active lane tid c' t report db report' db' :
  queue_ok db → view db !! change_id_value tid = Some c' →
  supersede_recovery_candidates_covered_by_higher_lane fault all_active lane tid (ch_intent c') t report db = Ok (report', db') →
  queue_ok db' ∧ view db' !! change_id_value tid = Some c' ∧
  ∀ id, view db' !! id = view db !! id ∨ view db' !! id = None ∧
    ∃ c, c ∈ all_active ∧ ch_id c = cid id ∧ exact_path_work_identity (ch_intent c) (ch_intent c') = true.
Proof.
  intros Hok Hc'. unfold supersede_recovery_candidates_covered_by_higher_lane.
  destruct (_ || _); [intros [_ ->]%st_ret_Ok; by auto|]. intros H. apply st_bind_Ok in H as (n & db1 & Hm & [-> ->]%st_ret_Ok).
  destruct (mark_view fault _ _ _ _ _ _ Hok Hm) as (Hok' & _ & Hv). split_and!; [done| |].
  - rewrite Hv, decide_False; [done|]. destruct tid. by intros [_ ?].
  - intros id. rewrite Hv. case_decide as Hd; [|by left]. right. split; [done|]. destruct Hd as [Hin _].
    apply list_elem_of_fmap in Hin as (c & Heq & [Hp Hc]%list_elem_of_filter). exists c.
    rewrite andb_true_iff in Hp. destruct Hp. by split_and!.
Qed.

Lemma replace_view all_active absorbed lane incoming tid c' t report db db1 (u : unit) db2 n db3 report' db' :
  queue_ok db1 → view db1 = <[change_id_value tid := c']> (view db) →
  loaded db (in_root_id incoming) (in_root_generation incoming) all_active →
  of_root (in_root_id incoming) (in_root_generation incoming) c' →
  (∀ c, c ∈ absorbed → c ∈ all_active ∧ does c' (ch_intent c)) →
  (∀ c, view db !! change_id_value tid = Some c → does c' (ch_intent c)) →
  transfer_catch_up_lineage fault (ch_id <$> absorbed) tid db1 = Ok (u, db2) →
  mark_superseded fault (ch_id <$> absorbed) (Some tid) t db2 = Ok (n, db3) →
  supersede_recovery_candidates_covered_by_higher_lane fault all_active lane tid (ch_intent c') t report db3 = Ok (report', db') →
  queue_ok db' ∧ keeps (view db) (view db') ∧ view db' !! change_id_value tid = Some c'.
Proof.
  intros Hok1 Hv1 Hload Hof Habs Hself Htr Hm Hrec.
  destruct (settle_view _ _ _ _ _ _ _ _ _ Hok1 Htr Hm) as (Hok3 & _ & Hv3); [by left|].
  assert (view db3 !! change_id_value tid = Some c') as Hc3.
  { rewrite Hv3, decide_False, Hv1 by (destruct tid; by intros [_ ?]). apply lookup_insert_eq. }
  destruct (recovery_view _ _ _ _ _ _ _ _ _ Hok3 Hc3 Hrec) as (Hok' & Hc & Hv').
  split_and!; [done| |done]. apply (keeps_replace _ _ (change_id_value tid) c' Hc); [|done].
  intros id c Hid Hne.
  assert (∀ c0, c0 ∈ all_active → ch_id c0 = cid id → c0 = c ∧ of_root (in_root_id (ch_intent c)) (in_root_generation (ch_intent c)) c')
    as Hsame.
  { intros c0 Hc0 Heq. destruct (ld_view _ _ _ _ Hload c0 Hc0) as [Hl [Hr Hg]]. rewrite Heq in Hl. cbn in Hl.
    rewrite Hid in Hl. simplify_eq. split; [done|]. destruct Hof. split; congruence. }
  destruct (Hv' id) as [->|(_ & c0 & Hc0 & Heq & Hex)].
  - rewrite Hv3, Hv1, lookup_insert_ne by done. case_decide as Hd; [|by left]. right. destruct Hd as [Hin _].
    apply list_elem_of_fmap in Hin as (c0 & Heq & Hc0). destruct (Habs c0 Hc0) as [Hall Hdoes].
    by destruct (Hsame c0 Hall (eq_sym Heq)) as [-> _].
  - right. destruct (Hsame c0 Hc0 Heq) as [-> Hof']. by apply exact_identity_does.
Qed.

(** Nothing is added by the replacement but the change it is for. *)
Lemma replace_subset all_active (absorbed : list ActiveChange) lane tid c' t report db db1 (u : unit) db2 n db3 report' db' :
  queue_ok db1 → view db1 = <[change_id_value tid := c']> (view db) →
  transfer_catch_up_lineage fault (ch_id <$> absorbed) tid db1 = Ok (u, db2) →
  mark_superseded fault (ch_id <$> absorbed) (Some tid) t db2 = Ok (n, db3) →
  supersede_recovery_candidates_covered_by_higher_lane fault all_active lane tid (ch_intent c') t report db3 = Ok (report', db') →
  queue_ok db' ∧ ∀ id c, view db' !! id = Some c →
    id = change_id_value tid ∨ view db !! id = Some c ∧ cid id ∉ (ch_id <$> absorbed).
Proof.
  intros Hok1 Hv1 Htr Hm Hrec. destruct (settle_view _ _ _ _ _ _ _ _ _ Hok1 Htr Hm) as (Hok3 & _ & Hv3); [by left|].
  assert (view db3 !! change_id_value tid = Some c') as Hc3.
  { rewrite Hv3, decide_False, Hv1 by (destruct tid; by intros [_ ?]). apply lookup_insert_eq. }
  destruct (recovery_view _ _ _ _ _ _ _ _ _ Hok3 Hc3 Hrec) as (Hok' & _ & Hv'). split; [done|]. intros id c Hc.
  destruct (decide (id = change_id_value tid)) as [|Hne]; [by left|right].
  destruct (Hv' id) as [Heq|[Heq _]]; rewrite Heq in Hc; [|done]. rewrite Hv3 in Hc. case_decide as Hd; [done|].
  rewrite Hv1, lookup_insert_ne in Hc by done. split; [done|]. intros Hin. apply Hd. split; [done|]. by intros <-.
Qed.

(** ** Coalescing *)

(** The changes an incoming intent is compared with: renames agree, a leased change that covers the incoming
    intent is the only one that does, and what overlaps a lease is covered one way or the other. *)
Record group (active : list ActiveChange) (incoming : LibraryChangeIntent) (gaps : list LibraryChangeId) : Prop := {
  gr_agree : ∀ c d, c ∈ active → d ∈ active → lineage_agrees (ch_intent c) (ch_intent d);
  gr_lease : ∀ c d, c ∈ active → d ∈ active → ch_status c = Leased → intent_covers (ch_intent c) incoming = true →
    intent_covers (ch_intent d) incoming = true → c = d;
  gr_incoming : ∀ c, c ∈ active → lineage_agrees (ch_intent c) incoming;
  gr_overlap : ∀ c, c ∈ active → ch_status c = Leased →
    capacity_deferred_gap_preserves_precise_work c incoming gaps = false → stale_overlap (ch_intent c) incoming = true →
    intent_covers (ch_intent c) incoming = true ∨ intent_covers incoming (ch_intent c) = true;
}.

Lemma group_of active incoming gaps :
  Forall (λ c, storable (ch_intent c)) active → storable incoming →
  (∀ c d, c ∈ active → d ∈ active → lineage_agrees (ch_intent c) (ch_intent d)) →
  (∀ c d, c ∈ active → d ∈ active → ch_status c = Leased → intent_covers (ch_intent c) incoming = true →
    intent_covers (ch_intent d) incoming = true → c = d) →
  has_conflicting_rename active incoming = false → has_ambiguous_leased_overlap active incoming gaps = false →
  group active incoming gaps.
Proof.
  intros Hst Hi Hag Hle Hcon Hamb. rewrite Forall_forall in Hst. split; [done|done| |].
  - intros c Hc. apply no_conflict; [auto|by apply so_queued, Hst|]. unfold has_conflicting_rename in Hcon.
    destruct (bool_decide _); [|done]. apply not_true_iff_false. intros H. apply not_true_iff_false in Hcon. apply Hcon.
    apply existsb_exists. exists c. split; [by apply list_elem_of_In|done].
  - intros c Hc Hl Hp Hs. destruct (intent_covers (ch_intent c) incoming) eqn:E1; [by left|].
    destruct (intent_covers incoming (ch_intent c)) eqn:E2; [by right|]. exfalso.
    unfold stale_overlap in Hs. rewrite E1, E2 in Hs. cbn [orb] in Hs. apply not_true_iff_false in Hamb. apply Hamb.
    apply existsb_exists. exists c. split; [by apply list_elem_of_In|]. rewrite Hp, Hs, E1, E2, Hl.
    by rewrite (bool_decide_eq_true_2 (Leased = Leased)).
Qed.

(** What the covering branch absorbs is included in what it stores. *)
Lemma coalesced_includes active incoming gaps k target e j :
  Forall (λ c, storable (ch_intent c)) active → storable incoming → group active incoming gaps →
  active !! k = Some target → NoDup (ch_id <$> active) → intent_covers (ch_intent target) incoming = true →
  is_unleased (ch_status target) = true → active !! j = Some e → j ≠ k →
  ((is_unleased (ch_status e) && intent_covers (absorb_incoming (ch_intent target) incoming) (ch_intent e))
   || (bool_decide (ch_status e = Leased) && stale_overlap (ch_intent e) incoming)) = true →
  capacity_deferred_gap_preserves_precise_work e incoming gaps = false →
  includes (ch_intent target) (ch_intent e).
Proof.
  intros Hst Hi [Hag Hle Hin Hov] Hk Hnd Hcov Hun Hj Hjk Hcase Hp. rewrite Forall_forall in Hst.
  assert (target ∈ active) as Ht by (by eapply list_elem_of_lookup_2). assert (e ∈ active) as He by (by eapply list_elem_of_lookup_2).
  pose proof (Hst target Ht) as Hsat. pose proof (Hst e He) as Hsae.
  rewrite orb_true_iff, !andb_true_iff, bool_decide_eq_true in Hcase. destruct Hcase as [[_ Hc]|[Hl Hs]].
  - pose proof (absorb_covered (ch_intent target) incoming) as Hsp.
    assert (same_places (absorb_incoming (ch_intent target) incoming) (ch_intent target)) as Hsp'
      by (apply Hsp; [auto|auto|by apply Hin|done]).
    transitivity (absorb_incoming (ch_intent target) incoming); [by apply same_places_includes; symmetry|].
    apply intent_covers_includes; [by apply qd_shape, so_queued, absorb_storable|auto| |done].
    eapply same_places_agree; [symmetry; exact Hsp'|]. by apply Hag.
  - destruct (Hov e He Hl Hp Hs) as [Hc|Hc].
    + rewrite (Hle e target He Ht Hl Hc Hcov) in Hl. by rewrite Hl in Hun.
    + transitivity incoming; apply intent_covers_includes; auto. by apply lineage_agrees_sym, Hin.
Qed.

(** The intent stored for the covering change, of whatever it absorbs. *)
Lemma coalesced_ok target incoming absorbed :
  storable target → storable incoming → intent_covers target incoming = true → Forall (λ c, storable (ch_intent c)) absorbed →
  let merged := foldl merge_older_evidence (absorb_incoming target incoming) (ch_intent <$> absorbed) in
  extends target merged ∧ storable merged.
Proof.
  intros Ht Hi Hcov Habs. destruct (absorb_incoming_ok target incoming) as [Hx _]; [auto|auto|done|].
  destruct (fold_older_storable (absorb_incoming target incoming) (ch_intent <$> absorbed)) as [Hx' Hs];
    [by apply absorb_storable|by rewrite Forall_fmap|]. split; [by etrans|done].
Qed.

Lemma elem_of_coalesced active gaps k merged incoming e :
  e ∈ coalesced_changes active gaps k merged incoming → ∃ j, active !! j = Some e ∧ j ≠ k ∧
  ((is_unleased (ch_status e) && intent_covers merged (ch_intent e))
   || (bool_decide (ch_status e = Leased) && stale_overlap (ch_intent e) incoming)) = true ∧
  capacity_deferred_gap_preserves_precise_work e incoming gaps = false.
Proof.
  intros ([j e'] & -> & [Hp He%entry_of_active]%list_elem_of_filter)%list_elem_of_fmap. cbn [fst snd] in *.
  rewrite !andb_true_iff, !negb_true_iff, Nat.eqb_neq in Hp. destruct Hp as [[Hjk Hc] Hp]. by exists j.
Qed.

Lemma coalesce_keeps all_active active gaps k target incoming context report db id report' db' :
  queue_ok db → storable incoming →
  loaded db (in_root_id incoming) (in_root_generation incoming) all_active → active `sublist_of` all_active →
  group active incoming gaps → active !! k = Some target → is_unleased (ch_status target) = true →
  intent_covers (ch_intent target) incoming = true →
  coalesce_into fault all_active active gaps k target incoming context report db = Ok ((id, report'), db') →
  queue_ok db' ∧ keeps (view db) (view db') ∧ answered_by (view db') id incoming.
Proof.
  intros Hok Hi Hload Hsub Hgr Hk Hun Hcov H. unfold coalesce_into in H.
  set (absorbed := coalesced_changes _ _ _ _ _) in H. set (merged := foldl merge_older_evidence _ _) in H.
  pose proof (loaded_sub _ _ _ _ _ Hload Hsub) as Hload'. pose proof (loaded_storable _ _ _ _ Hok Hload') as Hst.
  assert (target ∈ active) as Hta by (by eapply list_elem_of_lookup_2).
  destruct (ld_view _ _ _ _ Hload' target Hta) as [Hvt [Hrt Hgt]].
  assert (storable (ch_intent target)) as Hsat by (by eapply view_storable).
  assert (∀ e, e ∈ absorbed → e ∈ active ∧ includes (ch_intent target) (ch_intent e)) as Habs.
  { intros e (j & Hj & Hjk & Hc & Hp)%elem_of_coalesced. split; [by eapply list_elem_of_lookup_2|].
    by eapply (coalesced_includes active incoming gaps k target e j); auto; destruct Hload'. }
  assert (Forall (λ e, storable (ch_intent e)) absorbed) as Hsta.
  { apply Forall_forall. intros e [He _]%Habs. rewrite Forall_forall in Hst. by apply Hst. }
  destruct (coalesced_ok (ch_intent target) incoming absorbed Hsat Hi Hcov Hsta) as [Hxt Hsm]. fold merged in Hxt, Hsm.
  apply st_bind_Ok in H as (? & db1 & Hup & H). apply st_bind_Ok in H as (? & db2 & Htr & H).
  apply st_bind_Ok in H as (n & db3 & Hm & H). apply st_bind_Ok in H as (report1 & db4 & Hrec & [[= -> ->] ->]%st_ret_Ok).
  destruct (update_change_view fault _ _ _ _ _ _ _ _ _ Hok Hvt Hun Hsm (ex_root_id _ _ Hxt) (ex_generation _ _ Hxt) Hup)
    as (Hok1 & _ & c' & Hv1 & Hci & _ & _).
  rewrite <-Hci in Hrec. rewrite <-Hci in Hxt.
  assert (of_root (in_root_id incoming) (in_root_generation incoming) c') as Hof by (destruct Hxt; split; congruence).
  assert (∀ i, in_root_id i = in_root_id incoming → in_root_generation i = in_root_generation incoming →
    includes (ch_intent target) i → does c' i) as Hdoes.
  { intros i Hri Hgi Hinc. split; [by rewrite Hri, Hgi|]. transitivity (ch_intent target); [by apply extends_includes|done]. }
  assert (∀ e, e ∈ absorbed → e ∈ all_active ∧ does c' (ch_intent e)) as Habs'.
  { intros e He. destruct (Habs e He) as [Hea Hinc]. split; [by eapply elem_of_sublist|].
    destruct (ld_view _ _ _ _ Hload' e Hea) as [_ [? ?]]. by apply Hdoes. }
  assert (∀ c, view db !! change_id_value (ch_id target) = Some c → does c' (ch_intent c)) as Hself.
  { intros c Hc. assert (c = target) as -> by congruence. by apply Hdoes. }
  destruct (replace_view _ _ _ _ _ _ _ _ _ _ _ _ _ _ _ _ Hok1 Hv1 Hload Hof Habs' Hself Htr Hm Hrec) as (Hok' & Hkeep & Hc').
  split_and!; [done|done|]. exists c'. split; [done|]. apply Hdoes; [done|done|].
  apply intent_covers_includes; [auto|auto| |done]. by apply (gr_incoming _ _ _ Hgr).
Qed.

(** ** Inserting *)

Lemma elem_of_absorbed active incoming gaps e :
  e ∈ absorbed_changes active incoming gaps →
  e ∈ active ∧ capacity_deferred_gap_preserves_precise_work e incoming gaps = false ∧
  (intent_covers incoming (ch_intent e) = true ∨ (ch_status e = Leased ∧ stale_overlap (ch_intent e) incoming = true)).
Proof.
  intros [Hp He]%list_elem_of_filter. rewrite andb_true_iff, negb_true_iff, orb_true_iff, andb_true_iff, bool_decide_eq_true in Hp.
  by destruct Hp.
Qed.

(** Either the inserted intent starts from the one change that covers the incoming intent, or from that intent. *)
Lemma merged_base active incoming gaps :
  Forall (λ c, storable (ch_intent c)) active → storable incoming → group active incoming gaps →
  (∀ c, c ∈ active → capacity_deferred_gap_preserves_precise_work c incoming gaps = false →
     intent_covers (ch_intent c) incoming = true → ch_status c = Leased) →
  Forall (λ c, of_root (in_root_id incoming) (in_root_generation incoming) c) active →
  ∃ base, extends base (merged_intent (absorbed_changes active incoming gaps) incoming) ∧
    storable (merged_intent (absorbed_changes active incoming gaps) incoming) ∧
    in_root_id base = in_root_id incoming ∧ in_root_generation base = in_root_generation incoming ∧
    includes base incoming ∧ ∀ e, e ∈ absorbed_changes active incoming gaps → includes base (ch_intent e).
Proof.
  intros Hst Hi [Hag Hle Hin Hov] Hlease Hroots. rewrite Forall_forall in Hst, Hroots.
  set (absorbed := absorbed_changes active incoming gaps).
  assert (∀ e, e ∈ absorbed → e ∈ active) as Hsub by (intros e He; by apply elem_of_absorbed in He as [? _]).
  assert (Forall (λ e, storable (ch_intent e)) absorbed) as Hsta by (apply Forall_forall; auto).
  assert (∀ e, e ∈ absorbed → intent_covers (ch_intent e) incoming = true ∨ includes incoming (ch_intent e)) as Hcase.
  { intros e (He & Hp & Hc)%elem_of_absorbed. destruct (intent_covers (ch_intent e) incoming) eqn:Ec; [by left|right].
    apply intent_covers_includes; [auto|by apply qd_shape, so_queued, Hst|by apply lineage_agrees_sym, Hin|].
    destruct Hc as [?|[Hl Hs]]; [done|]. destruct (Hov e He Hl Hp Hs); congruence. }
  unfold merged_intent. set (covering := filter _ absorbed).
  pose proof (max_by_key_elem (λ change, intent_strength (ch_intent change)) covering) as Hmax.
  destruct (max_by_key _ covering) as [stronger|].
  - apply list_elem_of_filter in Hmax as [Hc Hs]. pose proof (Hsub _ Hs) as Hsa. pose proof (Hst _ Hsa) as Hss.
    destruct (merge_newer_ok (ch_intent stronger) incoming) as [Hx _]; [auto..|].
    destruct (fold_storable ch_intent (λ c, bool_decide (Some (ch_id c) = ch_id <$> Some stronger))
                (merge_newer_evidence (ch_intent stronger) incoming) absorbed) as [Hx' Hs'];
      [by apply merge_newer_storable|done|].
    destruct (Hroots _ Hsa). assert (includes (ch_intent stronger) incoming) as Hinc by (apply intent_covers_includes; auto).
    exists (ch_intent stronger). split_and!; [by etrans|done|done|done|done|]. intros e He.
    destruct (Hcase e He) as [Hce|]; [|by transitivity incoming].
    assert (stronger = e) as ->; [|done]. apply (Hle stronger e); auto.
    apply elem_of_absorbed in Hs as (? & ? & _). by apply Hlease.
  - destruct (fold_storable ch_intent (λ c, bool_decide (Some (ch_id c) = ch_id <$> None)) incoming absorbed) as [Hx' Hs']; [done..|].
    exists incoming. split_and!; [done|done|done|done|done|]. intros e He. destruct (Hcase e He) as [Hce|]; [|done].
    assert (e ∈ covering) as Hec by (by apply list_elem_of_filter). rewrite Hmax in Hec. by apply elem_of_nil in Hec.
Qed.

Lemma insert_keeps all_active active gaps incoming context report db id report' db' :
  queue_ok db → storable incoming → 0 ≤ ec_catalog_revision context →
  loaded db (in_root_id incoming) (in_root_generation incoming) all_active → active `sublist_of` all_active →
  group active incoming gaps →
  (∀ c, c ∈ active → capacity_deferred_gap_preserves_precise_work c incoming gaps = false →
     intent_covers (ch_intent c) incoming = true → ch_status c = Leased) →
  insert_merged fault sqlite_full all_active (absorbed_changes active incoming gaps) incoming context report db
    = Ok ((id, report'), db') →
  queue_ok db' ∧ keeps (view db) (view db') ∧ answered_by (view db') id incoming.
Proof.
  intros Hok Hi Hrev Hload Hsub Hgr Hlease H. unfold insert_merged in H.
  pose proof (loaded_sub _ _ _ _ _ Hload Hsub) as Hload'. pose proof (loaded_storable _ _ _ _ Hok Hload') as Hst.
  destruct (merged_base active incoming gaps Hst Hi Hgr Hlease) as (base & Hx & Hsm & Hrb & Hgb & Hbi & Hbe).
  { apply Forall_forall. intros c Hc. by apply (ld_view _ _ _ _ Hload'). }
  set (absorbed := absorbed_changes active incoming gaps) in *. set (merged := merged_intent absorbed incoming) in *.
  apply st_bind_Ok in H as (tid & db1 & Hins & H). apply st_bind_Ok in H as (? & db2 & Htr & H).
  apply st_bind_Ok in H as (n & db3 & Hm & H). apply st_bind_Ok in H as (report1 & db4 & Hrec & [[= -> ->] ->]%st_ret_Ok).
  destruct (insert_change_view fault sqlite_full _ _ _ _ _ _ _ _ Hok Hsm Hrev Hins) as (Htid & Hok1 & c' & Hv1 & Hfresh & Hci & _).
  rewrite <-Hci in Hrec. rewrite <-Hci in Hx.
  assert (∀ i, in_root_id i = in_root_id incoming → in_root_generation i = in_root_generation incoming →
    includes base i → does c' i) as Hdoes.
  { intros i Hri Hgi Hinc. split; [destruct Hx; split; congruence|]. transitivity base; [by apply extends_includes|done]. }
  assert (∀ e, e ∈ absorbed → e ∈ all_active ∧ does c' (ch_intent e)) as Habs.
  { intros e He. pose proof (Hbe e He) as Hinc. apply elem_of_absorbed in He as [He _]. split; [by eapply elem_of_sublist|].
    destruct (ld_view _ _ _ _ Hload' e He) as [_ [? ?]]. by apply Hdoes. }
  destruct (Hdoes incoming eq_refl eq_refl Hbi) as [Hof Hinc].
  assert (∀ c, view db !! change_id_value tid = Some c → does c' (ch_intent c)) as Hself.
  { subst tid. cbn [change_id_value]. intros c Hc. congruence. }
  replace (db_last_id db + 1) with (change_id_value tid) in Hv1 by (by subst).
  destruct (replace_view _ _ _ _ _ _ _ _ _ _ _ _ _ _ _ _ Hok1 Hv1 Hload Hof Habs Hself Htr Hm Hrec) as (Hok' & Hkeep & Hc').
  split_and!; [done|done|]. by exists c'.
Qed.
End Laws.
