(* ===== verification/EnqueueWork.v ===== *)
(** * The queue's promise

    [enqueue_one] as a whole: no queued work is lost, the change it answers with does the incoming work, and
    it calls itself at most once; the changes of a root stay within the bound that loading them insists on. *)

From S2P Require Import Prelude Text LibraryChange Order Planning PlanningCoverage Numerals JournalText JournalBatch.
From S2P Require Import ChangeQueue Coalescing QueueStore QueueView Enqueue JournalIntents EnqueueLaws.

(** An unresolved change that [enqueue_one] compares [incoming] with. *)
Definition in_group (db : QueueDb) (incoming : LibraryChangeIntent) (evidence : option LibraryChangeCatchUpEvidence)
    (c : ActiveChange) : Prop :=
  of_root (in_root_id incoming) (in_root_generation incoming) c ∧ is_same_lane incoming evidence c = true ∧
  ∃ id, view db !! id = Some c.

(** The renames queued in a lane agree on where a path came from, and a leased change that covers the incoming
    intent is the only one that does. *)
Record group_sound (db : QueueDb) (incoming : LibraryChangeIntent) (evidence : option LibraryChangeCatchUpEvidence)
    : Prop := {
  gs_agree : ∀ c d, in_group db incoming evidence c → in_group db incoming evidence d →
    lineage_agrees (ch_intent c) (ch_intent d);
  gs_lease : ∀ c d, in_group db incoming evidence c → in_group db incoming evidence d → ch_status c = Leased →
    intent_covers (ch_intent c) incoming = true → intent_covers (ch_intent d) incoming = true → c = d;
}.

Lemma root_not_covers c incoming : in_scope c = Root → queue_precise_dirty incoming = true → intent_covers c incoming = false.
Proof. intros Hs Hd. unfold intent_covers. by rewrite Hs, Hd. Qed.

Lemma min_by_elem {A} (less : A → A → bool) l :
  match min_by less l with Some x => x ∈ l | None => l = [] end.
Proof.
  unfold min_by. induction l as [|x l IH] using rev_ind; [done|]. rewrite foldl_app. cbn.
  destruct (foldl _ None l) as [y|]; [|by subst; left]. destruct (less x y); set_solver.
Qed.

Section Work.
Context (fault : nat → option ScanError) (sqlite_full : ScanError).

Lemma gap_ids_same changes : ∀ db ids db',
  load_capacity_deferred_gap_ids fault changes db = Ok (ids, db') → same_queue db db'.
Proof.
  induction changes as [|c changes IH]; intros db ids db' H; cbn in H; [by apply st_ret_Ok in H as [_ ->]|].
  case_bool_decide; [|by eapply IH]. apply st_bind_Ok in H as (deferred & db1 & H1 & H).
  apply st_bind_Ok in H as (ids' & db2 & H2 & [_ ->]%st_ret_Ok). apply st_bind_Ok in H1 as (id & ? & [_ ->]%st_lift_Ok & H1).
  apply read_same in H1 as [_ H1]. apply IH in H2. by etrans.
Qed.

(** What the first two steps of [enqueue_one] give. *)
Lemma load_all incoming db all_active db1 gaps db2 :
  queue_ok db → load_active_changes fault (in_root_id incoming) (in_root_generation incoming) db = Ok (all_active, db1) →
  load_capacity_deferred_gap_ids fault all_active db1 = Ok (gaps, db2) →
  queue_ok db2 ∧ view db2 = view db ∧ loaded db2 (in_root_id incoming) (in_root_generation incoming) all_active ∧
  ∀ evidence c, in_group db incoming evidence c ↔ c ∈ filter (λ change : ActiveChange, is_same_lane incoming evidence change = true) all_active.
Proof.
  intros Hok Hload Hgaps. destruct (load_view fault _ _ _ _ _ Hok Hload) as (Hs1 & Hnd & _ & Hmem).
  assert (same_queue db db2) as Hs by (etrans; [exact Hs1|by eapply gap_ids_same]).
  pose proof (same_queue_view _ _ Hs) as Hv. split_and!; [by eapply same_queue_ok|done| |].
  - split; [|done]. intros c [Hof [id Hid]]%Hmem. split; [|done]. rewrite Hv. by rewrite (view_change_id _ _ _ Hid).
  - intros evidence c. rewrite list_elem_of_filter. unfold in_group. rewrite Hmem. tauto.
Qed.

(** The group after falling back to the root: the root, unless it belongs to another batch, and nothing else. *)
Lemma degraded_group incoming evidence db (same_lane : list ActiveChange) db' id c :
  (∀ c, in_group db incoming evidence c ↔ c ∈ same_lane) → (∀ c, c ∈ same_lane → view db !! change_id_value (ch_id c) = Some c) →
  view db' !! id = Some c →
  (∀ id0, id0 ≠ id → view db' !! id0 = if decide (cid id0 ∈ (ch_id <$> same_lane)) then None else view db !! id0) →
  ∀ d, in_group db' incoming evidence d → d = c.
Proof.
  intros Hgr Hview Hc Hv' d (Hof & Hlane & id0 & Hd). destruct (decide (id0 = id)) as [->|Hne]; [congruence|].
  rewrite Hv' in Hd by done. destruct (decide _) as [|Hno]; [done|]. exfalso. apply Hno, list_elem_of_fmap. exists d.
  split; [symmetry; by eapply view_change_id|]. apply Hgr. split_and!; [done|done|by exists id0].
Qed.

Lemma degraded_sound db incoming evidence c :
  (∀ d, in_group db incoming evidence d → d = c) → in_scope (ch_intent c) = Root → group_sound db incoming evidence.
Proof.
  intros Hone Hroot. split.
  - intros d e ->%Hone ->%Hone Hs. congruence.
  - by intros d e ->%Hone ->%Hone.
Qed.

(** ** The ways a call can end *)

Abbreviation Report := LibraryChangeEnqueueReport.

Definition same_lane_of (incoming : LibraryChangeIntent) (context : EnqueueContext) (all_active : list ActiveChange) : list ActiveChange :=
  filter (λ change : ActiveChange, is_same_lane incoming (ec_evidence context) change = true) all_active.

(** A call that loaded the changes [all_active] and ended with the change [id]. *)
Inductive enqueued (fuel : nat) (incoming : LibraryChangeIntent) (context : EnqueueContext) (report : Report) (db : QueueDb)
    (all_active : list ActiveChange) (gaps : list LibraryChangeId) (id : LibraryChangeId) (report' : Report) (db' : QueueDb) : Prop :=
| enqueued_known higher :
    higher ∈ all_active → exact_path_work_identity (ch_intent higher) incoming = true → id = ch_id higher → db' = db →
    enqueued fuel incoming context report db all_active gaps id report' db'
| enqueued_root active capacity :
    active `sublist_of` all_active → zlen all_active - zlen active + 1 ≤ MAX_UNRESOLVED_CHANGES →
    degrade_to_root fault sqlite_full active incoming report (degradation context capacity) db = Ok ((id, report'), db') →
    enqueued fuel incoming context report db all_active gaps id report' db'
| enqueued_nested root_id report1 db1 :
    zlen all_active - zlen (same_lane_of incoming context all_active) + 1 ≤ MAX_UNRESOLVED_CHANGES →
    degrade_to_root fault sqlite_full (same_lane_of incoming context all_active) incoming report (degradation context false) db
      = Ok ((root_id, report1), db1) →
    enqueue_one_with fault sqlite_full fuel incoming context report1 db1 = Ok ((id, report'), db') →
    enqueued fuel incoming context report db all_active gaps id report' db'
| enqueued_coalesced active k target :
    active `sublist_of` same_lane_of incoming context all_active →
    has_conflicting_rename active incoming = false → has_ambiguous_leased_overlap active incoming gaps = false →
    active !! k = Some target → is_unleased (ch_status target) = true → intent_covers (ch_intent target) incoming = true →
    coalesce_into fault all_active active gaps k target incoming context report db = Ok ((id, report'), db') →
    enqueued fuel incoming context report db all_active gaps id report' db'
| enqueued_inserted active :
    active `sublist_of` same_lane_of incoming context all_active →
    has_conflicting_rename active incoming = false → has_ambiguous_leased_overlap active incoming gaps = false →
    (∀ c, c ∈ active → capacity_deferred_gap_preserves_precise_work c incoming gaps = false →
       intent_covers (ch_intent c) incoming = true → is_unleased (ch_status c) = false) →
    zlen all_active - zlen (absorbed_changes active incoming gaps) + 1 ≤ MAX_UNRESOLVED_CHANGES →
    insert_merged fault sqlite_full all_active (absorbed_changes active incoming gaps) incoming context report db
      = Ok ((id, report'), db') →
    enqueued fuel incoming context report db all_active gaps id report' db'.

Lemma nonempty_zlen {A} (x : A) l : x ∈ l → 1 ≤ zlen l.
Proof. unfold zlen. destruct l; [by intros ?%elem_of_nil|]. cbn [length]. lia. Qed.

Lemma enqueue_cases fuel incoming context report db id report' db' :
  queue_ok db → enqueue_one_with fault sqlite_full (S fuel) incoming context report db = Ok ((id, report'), db') →
  ∃ all_active db1 gaps db2,
    load_active_changes fault (in_root_id incoming) (in_root_generation incoming) db = Ok (all_active, db1) ∧
    load_capacity_deferred_gap_ids fault all_active db1 = Ok (gaps, db2) ∧
    enqueued fuel incoming context report db2 all_active gaps id report' db'.
Proof.
  intros Hok H. cbn [enqueue_one_with] in H. apply st_bind_Ok in H as (all_active & db1 & Hall & H).
  apply st_bind_Ok in H as (gaps & db2 & Hgaps & H). exists all_active, db1, gaps, db2. split_and!; [done|done|].
  destruct (load_view fault _ _ _ _ _ Hok Hall) as (_ & _ & Hlen & _). clear Hall Hgaps.
  destruct (_ && _); [by apply st_lift_Ok in H as []|].
  destruct (if bool_decide _ then _ else _) as [higher|] eqn:Ehigher.
  { apply st_ret_Ok in H as [[= -> ->] ->]. case_bool_decide; [|done]. unfold higher_priority_change in Ehigher.
    match type of Ehigher with min_by ?less ?l = _ => pose proof (min_by_elem less l) as Hm end.
    rewrite Ehigher in Hm. apply list_elem_of_filter in Hm as [[_ Hex]%andb_true_iff Hin]. by eapply enqueued_known. }
  fold (same_lane_of incoming context all_active) in H. set (same_lane := same_lane_of incoming context all_active) in H.
  set (active := filter _ same_lane) in H. assert (active `sublist_of` same_lane) as Hsub by apply sublist_filter.
  assert (same_lane `sublist_of` all_active) as Hsub' by apply sublist_filter.
  assert (∀ c, c ∈ active → zlen all_active - zlen same_lane + 1 ≤ MAX_UNRESOLVED_CHANGES) as Hsome.
  { intros c Hc. assert (c ∈ same_lane) as Hcs by (by eapply elem_of_sublist). pose proof (nonempty_zlen _ _ Hcs). lia. }
  destruct (has_conflicting_rename active incoming) eqn:Hcon.
  { destruct (negb (ec_allow_scope_degradation context)); [by apply st_lift_Ok in H as []|].
    apply andb_true_iff in Hcon as [_ (c & Hc%list_elem_of_In & _)%existsb_exists].
    eapply enqueued_root; [exact Hsub'|by eapply Hsome|exact H]. }
  destruct (has_ambiguous_leased_overlap active incoming gaps) eqn:Hamb.
  { destruct (negb (ec_allow_scope_degradation context)); [by apply st_lift_Ok in H as []|].
    apply existsb_exists in Hamb as (c & Hc%list_elem_of_In & _). apply st_bind_Ok in H as ([root_id report1] & db3 & Hdeg & H).
    destruct (queue_precise_dirty incoming); [by eapply enqueued_nested; [by eapply Hsome|exact Hdeg|exact H]|].
    apply st_ret_Ok in H as [[= -> ->] ->]. eapply enqueued_root; [exact Hsub'|by eapply Hsome|exact Hdeg]. }
  destruct (list_find _ active) as [[k target]|] eqn:Efind.
  { apply list_find_Some in Efind as (Hk & Hp & _). rewrite !andb_true_iff in Hp. destruct Hp as [[Hun Hcov] _].
    by eapply enqueued_coalesced. }
  destruct (_ || _) eqn:Efull.
  { destruct (0 <? _) eqn:Eprot; [by apply st_lift_Ok in H as []|].
    destruct (negb (ec_allow_scope_degradation context)); [by apply st_lift_Ok in H as []|].
    eapply (enqueued_root _ _ _ _ _ _ _ _ _ _ active true); [by etrans| |exact H]. apply Z.ltb_ge in Eprot.
    unfold saturating_add, saturating_sub, zlen, USIZE_MAX, MAX_UNRESOLVED_CHANGES in *. lia. }
  apply orb_false_iff in Efull as [_ Habs%Z.ltb_ge]. eapply enqueued_inserted; [exact Hsub|done|done| | |exact H].
  - intros c Hc Hp Hcov. apply list_find_None in Efind. rewrite Forall_forall in Efind. specialize (Efind c Hc).
    rewrite Hcov, Hp, !andb_true_r in Efind. by apply not_true_iff_false.
  - unfold saturating_add, saturating_sub, zlen, USIZE_MAX, MAX_UNRESOLVED_CHANGES in *. lia.
Qed.

(** ** No work is lost *)

Lemma degrade_promise same_lane incoming report context db id report' db' :
  queue_ok db → storable incoming → 0 ≤ dc_catalog_revision context →
  loaded db (in_root_id incoming) (in_root_generation incoming) same_lane →
  degrade_to_root fault sqlite_full same_lane incoming report context db = Ok ((id, report'), db') →
  queue_ok db' ∧ keeps (view db) (view db') ∧ answered_by (view db') id incoming.
Proof.
  intros Hok Hi Hrev Hload H.
  destruct (degrade_view fault sqlite_full _ _ _ _ _ _ _ _ Hok Hi Hrev Hload H) as (Hok' & c & Hc & Hof & Hroot & _ & Hold & Hv').
  destruct (degrade_keeps same_lane incoming db (change_id_value id) c (view db') Hload) as [Hk Hd]; [|done..|].
  - intros c0 Hc0. destruct id. by eapply Hold.
  - split_and!; [done|done|]. by exists c.
Qed.

Lemma sound_group active all_active incoming context gaps db db2 :
  queue_ok db2 → storable incoming → group_sound db incoming (ec_evidence context) →
  loaded db2 (in_root_id incoming) (in_root_generation incoming) active →
  (∀ c, c ∈ active → in_group db incoming (ec_evidence context) c) → active `sublist_of` all_active →
  has_conflicting_rename active incoming = false → has_ambiguous_leased_overlap active incoming gaps = false →
  group active incoming gaps.
Proof.
  intros Hok Hi Hgs Hload Hgr Hsub Hcon Hamb. apply group_of; [by eapply loaded_storable|done| | |done|done].
  - intros c d Hc Hd. apply (gs_agree _ _ _ Hgs); by apply Hgr.
  - intros c d Hc Hd. apply (gs_lease _ _ _ Hgs); by apply Hgr.
Qed.

Lemma enqueue_keeps_with fuel : ∀ incoming context report db id report' db',
  queue_ok db → storable incoming → 0 ≤ ec_catalog_revision context → group_sound db incoming (ec_evidence context) →
  enqueue_one_with fault sqlite_full fuel incoming context report db = Ok ((id, report'), db') →
  queue_ok db' ∧ keeps (view db) (view db') ∧ answered_by (view db') id incoming.
Proof.
  induction fuel as [|fuel IH]; intros incoming context report db id report' db' Hok Hi Hrev Hgs H; [done|].
  apply enqueue_cases in H as (all_active & db1 & gaps & db2 & Hall & Hgaps & H); [|done].
  destruct (load_all incoming db all_active db1 gaps db2 Hok Hall Hgaps) as (Hok2 & Hv2 & Hload & Hgr).
  rewrite <-Hv2. clear Hall Hgaps db1. specialize (Hgr (ec_evidence context)).
  set (same_lane := same_lane_of incoming context all_active) in *.
  assert (same_lane `sublist_of` all_active) as Hsub' by apply sublist_filter.
  pose proof (loaded_sub _ _ _ _ _ Hload Hsub') as Hload'.
  assert (∀ active, active `sublist_of` same_lane → has_conflicting_rename active incoming = false →
    has_ambiguous_leased_overlap active incoming gaps = false → active `sublist_of` all_active ∧ group active incoming gaps) as Hgroup.
  { intros active Hsub Hcon Hamb. split; [by etrans|]. eapply sound_group; [exact Hok2|done|exact Hgs|by eapply loaded_sub| |exact Hsub|done|done].
    intros c Hc. apply Hgr. by eapply elem_of_sublist. }
  destruct H as [higher Hin Hex -> ->|active capacity Hsub _ H|root_id report1 db3 _ Hdeg H
    |active k target Hsub0 Hcon Hamb Hk Hun Hcov H|active Hsub0 Hcon Hamb Hfree _ H].
  - split_and!; [done|done|]. destruct (ld_view _ _ _ _ Hload _ Hin) as [Hl Hof]. exists higher. split; [done|]. split; [done|].
    by apply same_places_includes, exact_identity_places.
  - pose proof (loaded_sub _ _ _ _ _ Hload Hsub). eapply (degrade_promise active); [done|done| |done|exact H]. exact Hrev.
  - destruct (degrade_promise _ _ _ (degradation context false) _ _ _ _ Hok2 Hi Hrev Hload' Hdeg) as (Hok3 & Hk3 & _).
    destruct (degrade_view fault sqlite_full _ _ _ (degradation context false) _ _ _ _ Hok2 Hi Hrev Hload' Hdeg)
      as (_ & c & Hc & _ & Hroot & _ & _ & Hv').
    destruct (IH incoming context report1 db3 id report' db' Hok3 Hi Hrev) as (Hok' & Hk' & Ha'); [|done|split_and!; [done|by etrans|done]].
    eapply degraded_sound; [|exact Hroot]. eapply degraded_group; [| |exact Hc|exact Hv'].
    + intros d. etrans; [|exact (Hgr d)]. unfold in_group. by rewrite Hv2.
    + intros d Hd. by apply (ld_view _ _ _ _ Hload').
  - destruct (Hgroup active Hsub0 Hcon Hamb) as [Hsub Hgrp].
    eapply coalesce_keeps; [exact Hok2|exact Hi|exact Hload|exact Hsub|exact Hgrp|exact Hk|exact Hun|exact Hcov|exact H].
  - destruct (Hgroup active Hsub0 Hcon Hamb) as [Hsub Hgrp].
    eapply insert_keeps; [exact Hok2|exact Hi|exact Hrev|exact Hload|exact Hsub|exact Hgrp| |exact H].
    intros c Hc Hp Hcov. eapply view_leased; [|by apply Hfree]. eapply (ld_view _ _ _ _ Hload). by eapply elem_of_sublist.
Qed.

(** ** One nested call *)

Lemma st_bind_ext {E S A B} (m : ST E S A) (f g : A → ST E S B) s :
  (∀ a s', m s = Ok (a, s') → f a s' = g a s') → (m ≫= f) s = (m ≫= g) s.
Proof. intros Hfg. unfold mbind, st_bind. destruct (m s) as [[a s']|e]; [by apply Hfg|done]. Qed.

Lemma no_lease_no_overlap active incoming gaps :
  (∀ c, c ∈ active → ch_status c ≠ Leased) → has_ambiguous_leased_overlap active incoming gaps = false.
Proof.
  intros Hno. apply not_true_iff_false. intros (c & Hc%list_elem_of_In & Hp)%existsb_exists.
  rewrite !andb_true_iff, bool_decide_eq_true in Hp. destruct Hp as [[[[Hl _] _] _] _]. by apply (Hno c Hc).
Qed.

Lemma enqueue_unleased n incoming context report db :
  queue_ok db → (∀ c, in_group db incoming (ec_evidence context) c → ch_status c ≠ Leased) →
  enqueue_one_with fault sqlite_full (S n) incoming context report db = enqueue_one_with fault sqlite_full 1 incoming context report db.
Proof.
  intros Hok Hno. cbn [enqueue_one_with]. apply st_bind_ext. intros all_active db1 Hall. apply st_bind_ext. intros gaps db2 Hgaps.
  destruct (load_all incoming db all_active db1 gaps db2 Hok Hall Hgaps) as (_ & _ & _ & Hgr).
  rewrite no_lease_no_overlap; [done|]. intros c [_ Hc]%list_elem_of_filter. apply Hno. by apply Hgr.
Qed.

Lemma enqueue_stable n incoming context report db :
  queue_ok db → storable incoming → 0 ≤ ec_catalog_revision context →
  enqueue_one_with fault sqlite_full (2 + n) incoming context report db = enqueue_one fault sqlite_full incoming context report db.
Proof.
  intros Hok Hi Hrev. unfold enqueue_one. change (2 + n)%nat with (S (S n)). pose proof (enqueue_unleased n incoming context) as Hrec.
  revert Hrec. generalize (S n), 1%nat. intros fuel fuel' Hrec. cbn [enqueue_one_with].
  apply st_bind_ext. intros all_active db1 Hall. apply st_bind_ext. intros gaps db2 Hgaps.
  destruct (load_all incoming db all_active db1 gaps db2 Hok Hall Hgaps) as (Hok2 & Hv2 & Hload & Hgr).
  destruct (_ && _); [done|]. destruct (if bool_decide _ then _ else _); [done|].
  set (same_lane := filter (λ change : ActiveChange, is_same_lane incoming (ec_evidence context) change = true) all_active) in *.
  destruct (has_conflicting_rename _ incoming); [done|].
  destruct (has_ambiguous_leased_overlap _ incoming gaps); [|done].
  destruct (negb (ec_allow_scope_degradation context)); [done|]. apply st_bind_ext. intros [root_id report1] db3 Hdeg.
  destruct (queue_precise_dirty incoming); [|done].
  assert (loaded db2 (in_root_id incoming) (in_root_generation incoming) same_lane) as Hload1
    by (eapply loaded_sub; [exact Hload|apply sublist_filter]).
  destruct (degrade_view fault sqlite_full _ _ _ (degradation context false) _ _ _ _ Hok2 Hi Hrev Hload1 Hdeg)
    as (Hok3 & c & Hc & _ & _ & Hpend & _ & Hv').
  apply Hrec; [done|]. intros d Hd. assert (d = c) as ->; [|by rewrite Hpend].
  eapply degraded_group; [| |exact Hc|exact Hv'|exact Hd].
  - intros e. etrans; [|exact (Hgr (ec_evidence context) e)]. unfold in_group. by rewrite Hv2.
  - intros e He. by apply (ld_view _ _ _ _ Hload1).
Qed.
End Work.

(** C2: Queueing an intent loses no work. Every unresolved change the queue held before [enqueue_one] is, after it, still
    covered by an unresolved change of the same root and generation, and the change whose id is returned covers everything
    the incoming intent asks to reconcile; the queue stays readable. It holds on every path that succeeds: coalescing into
    a queued change, replacing the changes the intent absorbs, falling back to the whole root, and answering with a change
    of a higher lane. The renames queued in the lane are assumed to agree on where a path came from, and a leased change
    that covers the intent to be the only one that does. *)
Theorem enqueue_keeps_work fault sqlite_full incoming context report db id report' db' :
  queue_ok db → storable incoming → 0 ≤ ec_catalog_revision context → group_sound db incoming (ec_evidence context) →
  enqueue_one fault sqlite_full incoming context report db = Ok ((id, report'), db') →
  queue_ok db' ∧ keeps (view db) (view db') ∧ answered_by (view db') id incoming.
Proof. apply enqueue_keeps_with. Qed.

(** [enqueue_one] calls itself at most once: allowing more nested calls than the one after falling back to the root
    changes nothing, because falling back leaves no leased change the intent could overlap. *)
Theorem enqueue_one_nests_once fault sqlite_full n incoming context report db :
  queue_ok db → storable incoming → 0 ≤ ec_catalog_revision context →
  enqueue_one_with fault sqlite_full (2 + n) incoming context report db = enqueue_one fault sqlite_full incoming context report db.
Proof. apply enqueue_stable. Qed.

(** ** A queue *)

Definition no_fault : nat → option ScanError := λ _, None.
Definition disk_full : ScanError := ScanError_new "sqlite" "full".
Definition empty_queue : QueueDb :=
  {| db_tick := 0; db_rows := ∅; db_last_id := 0; db_catch_up_lineage := ∅; db_range_lineage := ∅;
     db_candidate_owners := ∅; db_live_gap_claims := ∅ |}.
Definition live_intent (kind : LibraryChangeIntentKind) (scope : LibraryChangeScope) (path : string)
    (previous : option str) (sequence : Z) : LibraryChangeIntent :=
  {| in_root_id := lit "root"; in_root_generation := {| generation_value := 1 |}; in_kind := kind;
     in_scope := scope; in_relative_path := lit path; in_previous_relative_path := previous;
     in_origin := LiveNotification; in_first_observed_unix_ms := 1; in_most_recent_observed_unix_ms := 1;
     in_first_sequence := sequence; in_most_recent_sequence := sequence; in_coalesced_observation_count := 1 |}.
Definition live_context : EnqueueContext :=
  {| ec_enqueued_unix_ms := 5; ec_catalog_revision := 3; ec_policy := LibraryChangeQueuePolicy_default;
     ec_evidence := None; ec_protected_change_ids := []; ec_allow_scope_degradation := true |}.
Definition enqueue_sample (incoming : LibraryChangeIntent) (db : QueueDb) : QueueDb :=
  match enqueue_one no_fault disk_full incoming live_context LibraryChangeEnqueueReport_default db with
  | Ok (_, db') => db'
  | Err _ => db
  end.

(** A file that changed, then that it was renamed. *)
Definition dirty_file : LibraryChangeIntent := live_intent Reconcile Path "x/b" None 1.
Definition renamed_file : LibraryChangeIntent := live_intent RenameCandidate Path "x/b" (Some (lit "x/a")) 2.
Definition dirty_queue : QueueDb := enqueue_sample dirty_file empty_queue.

Lemma empty_queue_ok : queue_ok empty_queue.
Proof. split; [unfold I64_MAX; cbn; lia|done|done]. Qed.

Lemma live_storable kind scope path previous sequence :
  queued_shape_is_valid (live_intent kind scope path previous sequence) = true → is_u64 sequence →
  storable (live_intent kind scope path previous sequence).
Proof. intros Hs Hq. split; [split; [done|cbn; lia..]|done|done|]. unfold is_uint. cbn. lia. Qed.

Lemma dirty_file_storable : storable dirty_file.
Proof. apply live_storable; [by vm_compute|]. unfold is_uint. lia. Qed.
Lemma renamed_file_storable : storable renamed_file.
Proof. apply live_storable; [by vm_compute|]. unfold is_uint. lia. Qed.

(** A queue that holds one change. *)
Lemma one_change_sound db incoming evidence c :
  (∀ id d, view db !! id = Some d → d = c) → group_sound db incoming evidence.
Proof.
  intros Hone. assert (∀ d, in_group db incoming evidence d → d = c) as Hc by (intros d (_ & _ & id & Hd); by eapply Hone).
  split; [|by intros d e ->%Hc ->%Hc]. intros d e ->%Hc ->%Hc. apply lineage_refl.
Qed.

Lemma empty_queue_sound incoming evidence : group_sound empty_queue incoming evidence.
Proof. split; intros c d (_ & _ & id & Hc); by vm_compute in Hc. Qed.

Lemma dirty_queue_ok : queue_ok dirty_queue.
Proof.
  destruct (enqueue_one no_fault disk_full dirty_file live_context LibraryChangeEnqueueReport_default empty_queue)
    as [[[id report'] db']|e] eqn:E; [|by vm_compute in E].
  destruct (enqueue_keeps_with no_fault disk_full 2 dirty_file live_context LibraryChangeEnqueueReport_default empty_queue id report' db'
    empty_queue_ok dirty_file_storable) as [Hok _]; [cbn; lia|apply empty_queue_sound|exact E|].
  unfold dirty_queue, enqueue_sample. by rewrite E.
Qed.

Lemma dirty_queue_sound : group_sound dirty_queue renamed_file None.
Proof.
  assert (∃ c, view dirty_queue = {[ 1 := c ]}) as [c Hc] by (eexists; by vm_compute).
  apply (one_change_sound _ _ _ c). rewrite Hc. by intros id d [_ ->]%lookup_singleton_Some.
Qed.

Lemma enqueue_keeps_work_witness :
  ∃ id report' db', enqueue_one no_fault disk_full renamed_file live_context LibraryChangeEnqueueReport_default dirty_queue
      = Ok ((id, report'), db') ∧ keeps (view dirty_queue) (view db') ∧ answered_by (view db') id renamed_file.
Proof.
  destruct (enqueue_one no_fault disk_full renamed_file live_context LibraryChangeEnqueueReport_default dirty_queue)
    as [[[id report'] db']|e] eqn:E; [|by vm_compute in E].
  exists id, report', db'. split; [reflexivity|].
  apply (enqueue_keeps_work no_fault disk_full renamed_file live_context LibraryChangeEnqueueReport_default dirty_queue id report' db'
    dirty_queue_ok renamed_file_storable); [cbn; lia|apply dirty_queue_sound|exact E].
Defined.

Lemma enqueue_one_nests_once_witness :
  enqueue_one_with no_fault disk_full 5 renamed_file live_context LibraryChangeEnqueueReport_default dirty_queue
  = enqueue_one no_fault disk_full renamed_file live_context LibraryChangeEnqueueReport_default dirty_queue.
Proof. apply (enqueue_one_nests_once no_fault disk_full 3); [apply dirty_queue_ok|apply renamed_file_storable|cbn; lia]. Defined.

(** * The bound of a queued root *)

#[export] Instance of_root_dec root generation c : Decision (of_root root generation c).
Proof. unfold of_root. apply _. Defined.

(** How many unresolved changes the queue holds for a generation of a root. *)
Definition unresolved_count (db : QueueDb) (root : str) (generation : LibraryRootGeneration) : Z :=
  Z.of_nat (size (filter (λ entry : Z * ActiveChange, of_root root generation entry.2) (view db))).

(** The queue [v'] holds what [v] held, less the changes [absorbed], and perhaps a change at [tid]. *)
Definition replaces (v v' : gmap Z ActiveChange) (tid : Z) (absorbed : list ActiveChange) : Prop :=
  ∀ id c, v' !! id = Some c → id = tid ∨ v !! id = Some c ∧ cid id ∉ (ch_id <$> absorbed).

Lemma count_ids db root generation (ids : list Z) :
  (∀ id c, view db !! id = Some c → of_root root generation c → id ∈ ids) → unresolved_count db root generation ≤ zlen ids.
Proof.
  intros Hin. unfold unresolved_count, zlen. apply inj_le. rewrite <-size_dom. apply submseteq_length, NoDup_submseteq.
  - apply NoDup_elements.
  - intros id Hid%elem_of_elements. apply elem_of_dom in Hid as [c Hc]. apply map_lookup_filter_Some in Hc as [Hc Hof]. by eapply Hin.
Qed.

(** Unresolved changes of a root, all of them. *)
Definition exhaustive (db : QueueDb) (root : str) (generation : LibraryRootGeneration) (changes : list ActiveChange) : Prop :=
  ∀ id c, view db !! id = Some c → of_root root generation c → c ∈ changes.

Section Bound.
Context (db db' : QueueDb) (root : str) (generation : LibraryRootGeneration) (all_active absorbed : list ActiveChange) (tid : Z).
Hypothesis Hcomplete : exhaustive db root generation all_active.
Hypothesis Hreplaces : replaces (view db) (view db') tid absorbed.

Lemma replaced_known : tid ∈ (change_id_value ∘ ch_id <$> all_active) → unresolved_count db' root generation ≤ zlen all_active.
Proof.
  intros Ht. unfold zlen. rewrite <-(length_fmap (change_id_value ∘ ch_id) all_active). apply count_ids. intros id c Hc Hof.
  destruct (Hreplaces id c Hc) as [->|[Hv _]]; [done|]. apply list_elem_of_fmap. exists c. cbn.
  split; [by rewrite (view_change_id _ _ _ Hv)|by eapply Hcomplete].
Qed.

Lemma replaced_new : absorbed `sublist_of` all_active → unresolved_count db' root generation ≤ zlen all_active - zlen absorbed + 1.
Proof.
  intros Hsub. destruct (submseteq_Permutation _ _ (sublist_submseteq _ _ Hsub)) as [rest Hperm].
  assert (zlen all_active = zlen absorbed + zlen rest) as Hlen.
  { unfold zlen. rewrite Hperm, length_app. lia. }
  replace (zlen all_active - zlen absorbed + 1) with (zlen (tid :: (change_id_value ∘ ch_id <$> rest)))
    by (rewrite zlen_cons; unfold zlen in *; rewrite length_fmap; lia).
  apply count_ids. intros id c Hc Hof. destruct (Hreplaces id c Hc) as [->|[Hv Hno]]; [by left|]. right.
  pose proof (view_change_id _ _ _ Hv) as Hid. assert (c ∈ all_active) as Hall by (by eapply Hcomplete).
  rewrite Hperm, elem_of_app in Hall. destruct Hall as [Ha|Hr].
  - exfalso. apply Hno, list_elem_of_fmap. by exists c.
  - apply list_elem_of_fmap. exists c. cbn. by rewrite Hid.
Qed.
End Bound.

Section Capacity.
Context (fault : nat → option ScanError) (sqlite_full : ScanError).

Lemma load_complete incoming db all_active db1 gaps db2 :
  queue_ok db → load_active_changes fault (in_root_id incoming) (in_root_generation incoming) db = Ok (all_active, db1) →
  load_capacity_deferred_gap_ids fault all_active db1 = Ok (gaps, db2) →
  exhaustive db2 (in_root_id incoming) (in_root_generation incoming) all_active ∧ zlen all_active ≤ MAX_UNRESOLVED_CHANGES.
Proof.
  intros Hok Hload Hgaps. destruct (load_all fault _ _ _ _ _ _ Hok Hload Hgaps) as (_ & Hv & _).
  destruct (load_view fault _ _ _ _ _ Hok Hload) as (_ & _ & Hlen & Hmem). split; [|done].
  intros id c Hc Hof. apply Hmem. split; [done|]. exists id. by rewrite <-Hv.
Qed.

Lemma degrade_replaces active incoming report context db id report' db' :
  queue_ok db → storable incoming → 0 ≤ dc_catalog_revision context →
  loaded db (in_root_id incoming) (in_root_generation incoming) active →
  degrade_to_root fault sqlite_full active incoming report context db = Ok ((id, report'), db') →
  queue_ok db' ∧ replaces (view db) (view db') (change_id_value id) active.
Proof.
  intros Hok Hi Hrev Hload H.
  destruct (degrade_view fault sqlite_full _ _ _ _ _ _ _ _ Hok Hi Hrev Hload H) as (Hok' & _ & _ & _ & _ & _ & _ & Hv').
  split; [done|]. intros id0 c Hc. destruct (decide (id0 = change_id_value id)) as [|Hne]; [by left|right].
  rewrite Hv' in Hc by done. by destruct (decide _).
Qed.

Lemma coalesce_replaces all_active active gaps k target incoming context report db id report' db' :
  queue_ok db → storable incoming → loaded db (in_root_id incoming) (in_root_generation incoming) active →
  active !! k = Some target → is_unleased (ch_status target) = true → intent_covers (ch_intent target) incoming = true →
  coalesce_into fault all_active active gaps k target incoming context report db = Ok ((id, report'), db') →
  queue_ok db' ∧ id = ch_id target ∧ replaces (view db) (view db') (change_id_value id) [].
Proof.
  intros Hok Hi Hload Hk Hun Hcov H. unfold coalesce_into in H. set (absorbed := coalesced_changes _ _ _ _ _) in H.
  pose proof (loaded_storable _ _ _ _ Hok Hload) as Hst. rewrite Forall_forall in Hst.
  assert (target ∈ active) as Hta by (by eapply list_elem_of_lookup_2). destruct (ld_view _ _ _ _ Hload target Hta) as [Hvt _].
  assert (Forall (λ e, storable (ch_intent e)) absorbed) as Hsta.
  { apply Forall_forall. intros e (j & Hj & _)%elem_of_coalesced. by apply Hst, list_elem_of_lookup_2 with j. }
  destruct (coalesced_ok (ch_intent target) incoming absorbed) as [Hx Hsm]; [by apply Hst|done..|].
  apply st_bind_Ok in H as (? & db1 & Hup & H). apply st_bind_Ok in H as (? & db2 & Htr & H).
  apply st_bind_Ok in H as (n & db3 & Hm & H). apply st_bind_Ok in H as (report1 & db4 & Hrec & [[= -> ->] ->]%st_ret_Ok).
  destruct (update_change_view fault _ _ _ _ _ _ _ _ _ Hok Hvt Hun Hsm (ex_root_id _ _ Hx) (ex_generation _ _ Hx) Hup)
    as (Hok1 & _ & c' & Hv1 & Hci & _ & _). rewrite <-Hci in Hrec.
  destruct (replace_subset fault _ _ _ _ _ _ _ _ _ _ _ _ _ _ _ Hok1 Hv1 Htr Hm Hrec) as [Hok' Hsub].
  split_and!; [done|done|]. intros id c Hc. destruct (Hsub id c Hc) as [|[? _]]; [by left|]. right. split; [done|]. by apply not_elem_of_nil.
Qed.

Lemma insert_replaces all_active absorbed incoming context report db id report' db' :
  queue_ok db → storable incoming → 0 ≤ ec_catalog_revision context → Forall (λ c, storable (ch_intent c)) absorbed →
  insert_merged fault sqlite_full all_active absorbed incoming context report db = Ok ((id, report'), db') →
  queue_ok db' ∧ replaces (view db) (view db') (change_id_value id) absorbed.
Proof.
  intros Hok Hi Hrev Hst H. unfold insert_merged in H.
  assert (storable (merged_intent absorbed incoming)) as Hsm.
  { unfold merged_intent. set (stronger := max_by_key _ _).
    apply (fold_storable ch_intent (λ c, bool_decide (Some (ch_id c) = ch_id <$> stronger))); [|done].
    pose proof (max_by_key_elem (λ change, intent_strength (ch_intent change))
      (filter (λ change : ActiveChange, intent_covers (ch_intent change) incoming = true) absorbed)) as Hmax.
    unfold stronger. destruct (max_by_key _ _) as [c|]; [|done]. apply list_elem_of_filter in Hmax as [_ Hc].
    rewrite Forall_forall in Hst. by apply merge_newer_storable; [apply Hst|]. }
  apply st_bind_Ok in H as (tid & db1 & Hins & H). apply st_bind_Ok in H as (? & db2 & Htr & H).
  apply st_bind_Ok in H as (n & db3 & Hm & H). apply st_bind_Ok in H as (report1 & db4 & Hrec & [[= -> ->] ->]%st_ret_Ok).
  destruct (insert_change_view fault sqlite_full _ _ _ _ _ _ _ _ Hok Hsm Hrev Hins) as (Htid & Hok1 & c' & Hv1 & _ & Hci & _).
  rewrite <-Hci in Hrec. replace (db_last_id db + 1) with (change_id_value tid) in Hv1 by (by subst).
  exact (replace_subset fault _ _ _ _ _ _ _ _ _ _ _ _ _ _ _ Hok1 Hv1 Htr Hm Hrec).
Qed.

Lemma degrade_bound active all_active incoming report context db id report' db' :
  queue_ok db → storable incoming → 0 ≤ dc_catalog_revision context →
  loaded db (in_root_id incoming) (in_root_generation incoming) all_active → active `sublist_of` all_active →
  exhaustive db (in_root_id incoming) (in_root_generation incoming) all_active →
  zlen all_active - zlen active + 1 ≤ MAX_UNRESOLVED_CHANGES →
  degrade_to_root fault sqlite_full active incoming report context db = Ok ((id, report'), db') →
  queue_ok db' ∧ unresolved_count db' (in_root_id incoming) (in_root_generation incoming) ≤ MAX_UNRESOLVED_CHANGES.
Proof.
  intros Hok Hi Hrev Hload Hsub Hcom Hlen H. pose proof (loaded_sub _ _ _ _ _ Hload Hsub) as Hload'.
  destruct (degrade_replaces _ _ _ _ _ _ _ _ Hok Hi Hrev Hload' H) as [Hok' Hrep]. split; [done|].
  pose proof (replaced_new _ _ _ _ _ _ _ Hcom Hrep Hsub). lia.
Qed.

Lemma enqueue_bound_with fuel : ∀ incoming context report db id report' db',
  queue_ok db → storable incoming → 0 ≤ ec_catalog_revision context →
  enqueue_one_with fault sqlite_full fuel incoming context report db = Ok ((id, report'), db') →
  queue_ok db' ∧ unresolved_count db' (in_root_id incoming) (in_root_generation incoming) ≤ MAX_UNRESOLVED_CHANGES.
Proof.
  induction fuel as [|fuel IH]; intros incoming context report db id report' db' Hok Hi Hrev H; [done|].
  apply enqueue_cases in H as (all_active & db1 & gaps & db2 & Hall & Hgaps & H); [|done].
  destruct (load_all fault incoming db all_active db1 gaps db2 Hok Hall Hgaps) as (Hok2 & _ & Hload & _).
  destruct (load_complete incoming db all_active db1 gaps db2 Hok Hall Hgaps) as [Hcom Hlen]. clear Hall Hgaps db1.
  assert (same_lane_of incoming context all_active `sublist_of` all_active) as Hsame by apply sublist_filter.
  destruct H as [higher Hin _ -> ->|active capacity Hsub Hroom H|root_id report1 db3 Hroom Hdeg H
    |active k target Hsub _ _ Hk Hun Hcov H|active Hsub _ _ _ Hroom H].
  - split; [done|]. etrans; [|exact Hlen]. eapply (replaced_known db2 db2 _ _ all_active [] (change_id_value (ch_id higher))); [done| |].
    + intros id c Hc. right. split; [done|]. by apply not_elem_of_nil.
    + apply list_elem_of_fmap. by exists higher.
  - eapply (degrade_bound active); [exact Hok2|exact Hi| |exact Hload|exact Hsub|exact Hcom|exact Hroom|exact H]. exact Hrev.
  - eapply IH; [|exact Hi|exact Hrev|exact H].
    eapply (degrade_replaces _ _ _ (degradation context false)); [exact Hok2|exact Hi|exact Hrev| |exact Hdeg]. by eapply loaded_sub.
  - assert (active `sublist_of` all_active) as Hsub' by (by etrans). pose proof (loaded_sub _ _ _ _ _ Hload Hsub') as Hload'.
    destruct (coalesce_replaces _ _ _ _ _ _ _ _ _ _ _ _ Hok2 Hi Hload' Hk Hun Hcov H) as (Hok' & -> & Hrep). split; [done|].
    etrans; [|exact Hlen]. eapply replaced_known; [exact Hcom|exact Hrep|]. apply list_elem_of_fmap. exists target. split; [done|].
    eapply elem_of_sublist; [by eapply list_elem_of_lookup_2|done].
  - assert (absorbed_changes active incoming gaps `sublist_of` all_active) as Hsub'
      by (etrans; [apply sublist_filter|by etrans]).
    pose proof (loaded_storable _ _ _ _ Hok2 (loaded_sub _ _ _ _ _ Hload Hsub')) as Hst.
    destruct (insert_replaces _ _ _ _ _ _ _ _ _ Hok2 Hi Hrev Hst H) as [Hok' Hrep]. split; [done|].
    pose proof (replaced_new _ _ _ _ _ _ _ Hcom Hrep Hsub'). lia.
Qed.
End Capacity.

(** C30: Queueing keeps the unresolved changes of the intent's root and generation within [MAX_UNRESOLVED_CHANGES]: the
    next [load_active_changes] never finds the queue corrupt because of what this call stored. *)
Theorem enqueue_within_bound fault sqlite_full incoming context report db id report' db' :
  queue_ok db → storable incoming → 0 ≤ ec_catalog_revision context →
  enqueue_one fault sqlite_full incoming context report db = Ok ((id, report'), db') →
  unresolved_count db' (in_root_id incoming) (in_root_generation incoming) ≤ MAX_UNRESOLVED_CHANGES.
Proof. intros Hok Hi Hrev H. by eapply enqueue_bound_with. Qed.

Lemma enqueue_within_bound_witness :
  ∃ id report' db', enqueue_one no_fault disk_full renamed_file live_context LibraryChangeEnqueueReport_default dirty_queue
      = Ok ((id, report'), db') ∧ unresolved_count db' (lit "root") {| generation_value := 1 |} ≤ MAX_UNRESOLVED_CHANGES.
Proof.
  destruct (enqueue_one no_fault disk_full renamed_file live_context LibraryChangeEnqueueReport_default dirty_queue)
    as [[[id report'] db']|e] eqn:E; [|by vm_compute in E].
  exists id, report', db'. split; [reflexivity|].
  apply (enqueue_within_bound no_fault disk_full renamed_file live_context LibraryChangeEnqueueReport_default dirty_queue id report' db'
    dirty_queue_ok renamed_file_storable); [cbn; lia|exact E].
Defined.
