(* ===== verification/Leases.v ===== *)
(** * Leasing queued changes

    Models how a worker takes changes from the queue and gives them back: the selection and the update of
    [adapters/sqlite_catalog/change_queue/lease_matching.rs], the recovery of expired leases, the attempt limit,
    the deadlines and [classify_lease_update] of [change_queue/persistence.rs], and the operations that settle a
    lease in [change_queue/completion.rs], [change_queue/lease_deferral.rs],
    [change_queue/gap_promotion/capacity.rs] and [change_queue.rs].

    The queue tables are those of [QueueStore].  The other tables that the selection reads are the values of a
    record; none of the operations changes them. *)

From S2P Require Import Prelude Text LibraryChange Order Planning Numerals JournalText JournalBatch ChangeQueue.
From S2P Require Import Coalescing QueueStore.

(** ** Tables read by the selection *)

(** A row of [library_recovery_authorities], keyed by the change. *)
Record RecoveryAuthority := {
  ra_run_id : str;
  ra_root_id : str;
  ra_root_generation : Z;
  ra_reason : str;
  ra_retired_unix_ms : option Z;
}.

(** A row of [library_journal_scope_recoveries], keyed by the parent. *)
Record JournalScopeRecovery := { jr_current_change_id : Z; jr_previous_change_id : option Z }.

Record RecoveryTables := {
  rt_root_state : gmap str (Z * bool);  (** [library_change_root_state]: generation and [is_active] *)
  rt_authorities : gmap Z RecoveryAuthority;
  rt_scope_recoveries : gmap Z JournalScopeRecovery;
  rt_fallbacks : gset Z;  (** [library_metadata_fallbacks] *)
  rt_open_baselines : gset Z;  (** [library_persistent_journal_baselines] with [phase <> 'completed'] *)
  rt_pending_journal_claims : gset Z;  (** live gap claims with [consumer_kind = 'pending_journal'] *)
  rt_recovery_affinity : ScanResult (option Z);  (** [metadata_inventory_recovery_affinity_change_id] *)
  rt_blocks_unlineaged : ScanResult bool;  (** [blocks_unlineaged_live_changes] *)
}.

(** ** Deadlines *)

(** [u64::saturating_mul] *)
Definition saturating_mul_u64 (a b : Z) : Z := Z.min U64_MAX (a * b).

Definition next_retry_deadline (failed_unix_ms attempt_count : Z) (policy : LibraryChangeQueuePolicy) : option Z :=
  if qp_max_attempts policy <=? attempt_count then None
  else
    let exponent := Z.min (saturating_sub attempt_count 1) 63 in
    let multiplier := Z.shiftl 1 exponent in
    let delay := Z.min (saturating_mul_u64 (qp_retry_initial_delay_millis policy) multiplier)
                   (qp_retry_maximum_delay_millis policy) in
    Some (saturating_add_i64 failed_unix_ms (Z.min I64_MAX delay)).

Definition capacity_deferral_deadline (deferred_unix_ms : Z) (policy : LibraryChangeQueuePolicy) : Z :=
  saturating_add_i64 deferred_unix_ms (Z.min I64_MAX (qp_retry_initial_delay_millis policy)).

(** ** Rows *)

(** The columns of the life cycle of a change. *)
Definition set_cycle (status : str) (ready attempt : Z) (next_retry : option Z) (generation : Z) (expires : option Z)
    (code message : option str) (success : option Z) (updated : Z) (row : QueueRow) : QueueRow :=
  {| qr_root_id := qr_root_id row; qr_root_generation := qr_root_generation row; qr_intent_kind := qr_intent_kind row;
     qr_scope := qr_scope row; qr_relative_path := qr_relative_path row;
     qr_previous_relative_path := qr_previous_relative_path row; qr_origin := qr_origin row;
     qr_first_observed_unix_ms := qr_first_observed_unix_ms row;
     qr_most_recent_observed_unix_ms := qr_most_recent_observed_unix_ms row;
     qr_first_sequence := qr_first_sequence row; qr_most_recent_sequence := qr_most_recent_sequence row;
     qr_coalesced_observation_count := qr_coalesced_observation_count row; qr_status := status;
     qr_ready_unix_ms := ready; qr_attempt_count := attempt; qr_next_retry_unix_ms := next_retry;
     qr_lease_generation := generation; qr_lease_expires_unix_ms := expires; qr_last_failure_code := code;
     qr_last_failure_message := message; qr_catalog_revision_at_enqueue := qr_catalog_revision_at_enqueue row;
     qr_catalog_revision_at_success := success; qr_catch_up_source := qr_catch_up_source row;
     qr_catch_up_watermark := qr_catch_up_watermark row; qr_authoritative_scan_id := qr_authoritative_scan_id row;
     qr_superseded_by_change_id := qr_superseded_by_change_id row; qr_created_unix_ms := qr_created_unix_ms row;
     qr_updated_unix_ms := updated |}.

(** [CASE WHEN attempt_count > 0 THEN attempt_count - 1 ELSE 0 END] *)
Definition attempt_returned (row : QueueRow) : Z := if 0 <? qr_attempt_count row then qr_attempt_count row - 1 else 0.

Definition leased_row (now_unix_ms lease_expires_unix_ms : Z) (row : QueueRow) : QueueRow :=
  set_cycle (lit "leased") (qr_ready_unix_ms row) (qr_attempt_count row + 1) None (qr_lease_generation row + 1)
    (Some lease_expires_unix_ms) (qr_last_failure_code row) (qr_last_failure_message row)
    (qr_catalog_revision_at_success row) now_unix_ms row.

Definition retry_row (next_retry_unix_ms : option Z) (code message : str) (failed_unix_ms : Z) (row : QueueRow)
    : QueueRow :=
  set_cycle (lit "retry_wait") (qr_ready_unix_ms row) (qr_attempt_count row) next_retry_unix_ms
    (qr_lease_generation row) None (Some code) (Some message) (qr_catalog_revision_at_success row) failed_unix_ms row.

Definition capacity_deferred_row (next_retry_unix_ms deferred_unix_ms : Z) (row : QueueRow) : QueueRow :=
  set_cycle (lit "retry_wait") (qr_ready_unix_ms row) (attempt_returned row) (Some next_retry_unix_ms)
    (qr_lease_generation row) None (Some METADATA_INVENTORY_LANE_CODE) (Some METADATA_INVENTORY_LANE_MESSAGE)
    (qr_catalog_revision_at_success row) deferred_unix_ms row.

Definition deferred_row (deferred_unix_ms : Z) (row : QueueRow) : QueueRow :=
  set_cycle (lit "pending") deferred_unix_ms (attempt_returned row) None (qr_lease_generation row) None
    (qr_last_failure_code row) (qr_last_failure_message row) (qr_catalog_revision_at_success row) deferred_unix_ms row.

Definition completed_row (revision completed_unix_ms : Z) (row : QueueRow) : QueueRow :=
  set_cycle (lit "completed") (qr_ready_unix_ms row) (qr_attempt_count row) (qr_next_retry_unix_ms row)
    (qr_lease_generation row) None (qr_last_failure_code row) (qr_last_failure_message row) (Some revision)
    completed_unix_ms row.

(** [SET next_retry_unix_ms = ?, updated_unix_ms = ?] *)
Definition rescheduled_row (next_retry_unix_ms : option Z) (now_unix_ms : Z) (row : QueueRow) : QueueRow :=
  set_cycle (qr_status row) (qr_ready_unix_ms row) (qr_attempt_count row) next_retry_unix_ms
    (qr_lease_generation row) (qr_lease_expires_unix_ms row) (qr_last_failure_code row) (qr_last_failure_message row)
    (qr_catalog_revision_at_success row) now_unix_ms row.

(** [status = 'leased' AND lease_generation = ?] *)
Definition holds_lease (lease_generation : Z) (row : QueueRow) : bool :=
  bool_decide (qr_status row = lit "leased") && (qr_lease_generation row =? lease_generation).

(** [status = 'leased' AND lease_expires_unix_ms <= ?] *)
Definition is_expired (now_unix_ms : Z) (row : QueueRow) : bool :=
  bool_decide (qr_status row = lit "leased")
  && match qr_lease_expires_unix_ms row with Some expires => expires <=? now_unix_ms | None => false end.

(** ** Durable changes *)

Definition durable_change_from_raw (id : Z) (raw : QueueRow) (catch_up_lineage : list LibraryChangeCatchUpEvidence)
    : ScanResult DurableLibraryChange :=
  generation ← sqlite_unsigned (qr_root_generation raw) "root generation";
  root_generation ← ok_or (if generation =? 0 then None else Some {| generation_value := generation |})
    (ScanError_new "change_queue_generation_invalid" "The stored root generation must be nonzero");
  active ← active_change_from_raw (qr_root_id raw) root_generation id raw;
  last_failure ←
    match qr_last_failure_code raw, qr_last_failure_message raw with
    | Some code, Some message => Ok (Some {| fl_code := code; fl_message := message |})
    | None, None => Ok None
    | _, _ => Err (ScanError_new "change_queue_failure_invalid" "The stored change failure evidence is incomplete")
    end;
  primary_evidence ←
    match qr_catch_up_source raw, qr_catch_up_watermark raw with
    | Some source, Some watermark => Ok (Some {| cue_source := source; cue_watermark := watermark |})
    | None, None => Ok None
    | _, _ => Err (ScanError_new "change_queue_catch_up_evidence_invalid" "The stored catch-up evidence is incomplete")
    end;
  fail_if (match primary_evidence with
           | Some evidence => negb (bool_decide (evidence ∈ catch_up_lineage))
           | None => negb (is_empty catch_up_lineage)
           end)
    (ScanError_new "change_queue_catch_up_lineage_invalid"
       "The durable catch-up watermark lineage does not include its primary evidence");;
  attempt_count ← sqlite_u32 (qr_attempt_count raw) "change attempt count";
  lease_generation ← sqlite_unsigned (qr_lease_generation raw) "lease generation";
  success ← match qr_catalog_revision_at_success raw with
            | Some value => value ← sqlite_unsigned value "successful catalog revision"; Ok (Some value)
            | None => Ok None
            end;
  superseded_by ← match qr_superseded_by_change_id raw with
                  | Some value => value ← change_id_from_sqlite value; Ok (Some value)
                  | None => Ok None
                  end;
  Ok {| dlc_id := ch_id active; dlc_intent := ch_intent active; dlc_status := ch_status active;
        dlc_ready_unix_ms := qr_ready_unix_ms raw; dlc_attempt_count := attempt_count;
        dlc_next_retry_unix_ms := qr_next_retry_unix_ms raw; dlc_lease_generation := lease_generation;
        dlc_lease_expires_unix_ms := qr_lease_expires_unix_ms raw; dlc_last_failure := last_failure;
        dlc_catalog_revision_at_enqueue := ch_catalog_revision_at_enqueue active;
        dlc_catalog_revision_at_success := success; dlc_catch_up_source := qr_catch_up_source raw;
        dlc_catch_up_watermark := qr_catch_up_watermark raw; dlc_catch_up_lineage := catch_up_lineage;
        dlc_superseded_by_change_id := superseded_by |}.

(** ** Selections *)

Inductive LeaseSelection :=
| LeaseAll | LeasePath | Authoritative | PathLane (lane : LibraryChangeLane) | RecoveryAuthoritative
| RecoveryCandidates | LiveAuthoritative | JournalAuthoritative | UnownedRecoveryPaths.

Definition selection_sql_value (self : LeaseSelection) : Z :=
  match self with
  | LeaseAll => 0
  | LeasePath => 1
  | Authoritative => 2
  | PathLane LaneLive => 3
  | PathLane LaneJournal => 4
  | PathLane LaneRecovery => 5
  | RecoveryAuthoritative => 6
  | RecoveryCandidates => 7
  | LiveAuthoritative => 8
  | UnownedRecoveryPaths => 9
  | JournalAuthoritative => 10
  end.

Section Selection.
Context (tables : RecoveryTables).

(** [EXISTS(SELECT 1 FROM library_change_queue_lanes ..)]: the triggers keep the lane of the origin. *)
Definition has_lane (lane : string) (row : QueueRow) : bool := bool_decide (lane_of_origin (qr_origin row) = lit lane).

(** [scope = 'path' AND intent_kind <> 'freshness_unknown'] *)
Definition is_path_work (row : QueueRow) : bool :=
  bool_decide (qr_scope row = lit "path") && negb (bool_decide (qr_intent_kind row = lit "freshness_unknown")).

(** [scope <> 'path' OR intent_kind = 'freshness_unknown'] *)
Definition is_authoritative_work (row : QueueRow) : bool :=
  negb (bool_decide (qr_scope row = lit "path")) || bool_decide (qr_intent_kind row = lit "freshness_unknown").

(** [root_id = .. AND root_generation = .. AND retired_unix_ms IS NULL] of an authority and a change. *)
Definition governs (authority : RecoveryAuthority) (row : QueueRow) : bool :=
  bool_decide (ra_root_id authority = qr_root_id row) && (ra_root_generation authority =? qr_root_generation row)
  && bool_decide (ra_retired_unix_ms authority = None).

Definition recovery_of (id : Z) (recovery : JournalScopeRecovery) : bool :=
  (jr_current_change_id recovery =? id) || bool_decide (jr_previous_change_id recovery = Some id).

(** The condition on the authority of a change that [RecoveryAuthoritative] leases. *)
Definition authority_can_lease (id : Z) (authority : RecoveryAuthority) : bool :=
  negb (bool_decide (ra_reason authority = lit "first_import_boundary"))
  && negb (is_empty (ra_run_id authority))
  && (bool_decide (ra_reason authority = lit "watcher_uncovered_gap")
      || bool_decide (id ∈ rt_fallbacks tables)
      || (bool_decide (ra_reason authority = lit "journal_reconstruction_failure")
          && existsb (λ entry : Z * JournalScopeRecovery, recovery_of id entry.2) (map_to_list (rt_scope_recoveries tables)))
      || bool_decide (id ∈ rt_open_baselines tables)).

(** The condition on it when its expired lease is recovered. *)
Definition authority_can_recover (id : Z) (authority : RecoveryAuthority) : bool := negb (is_empty (ra_run_id authority)).

(** A candidate of a metadata inventory whose run has an authority. *)
Definition owned_by_run (db : QueueDb) (id : Z) (row : QueueRow) : bool :=
  existsb (λ owner : (str * str) * CandidateOwner,
    (co_change_id owner.2 =? id)
    && existsb (λ authority : Z * RecoveryAuthority,
         bool_decide (ra_run_id authority.2 = owner.1.1) && governs authority.2 row)
         (map_to_list (rt_authorities tables)))
    (map_to_list (db_candidate_owners db)).

Definition has_owner (db : QueueDb) (id : Z) : bool :=
  existsb (λ owner : (str * str) * CandidateOwner, co_change_id owner.2 =? id) (map_to_list (db_candidate_owners db)).

(** The disjunction over [?6] that both the lease and the recovery of leases use. *)
Definition selection_matches (admits : Z → RecoveryAuthority → bool) (selection : LeaseSelection) (db : QueueDb)
    (id : Z) (row : QueueRow) : bool :=
  match selection with
  | LeaseAll => true
  | LeasePath => is_path_work row
  | Authoritative => is_authoritative_work row
  | JournalAuthoritative => negb (bool_decide (qr_scope row = lit "path")) && has_lane "p1_journal" row
  | RecoveryAuthoritative =>
    is_authoritative_work row && has_lane "p2_recovery" row
    && match rt_authorities tables !! id with
       | Some authority => governs authority row && admits id authority
       | None => false
       end
  | RecoveryCandidates => is_path_work row && has_lane "p2_recovery" row && owned_by_run db id row
  | LiveAuthoritative =>
    is_authoritative_work row && has_lane "p0_live" row && negb (bool_decide (id ∈ rt_pending_journal_claims tables))
  | UnownedRecoveryPaths =>
    is_path_work row && has_lane "p2_recovery" row && negb (has_owner db id)
    && match rt_authorities tables !! id with
       | Some authority => negb (bool_decide (ra_retired_unix_ms authority = None))
       | None => true
       end
  | PathLane lane =>
    is_path_work row
    && has_lane (match lane with LaneLive => "p0_live" | LaneJournal => "p1_journal" | LaneRecovery => "p2_recovery" end) row
  end.

(** A change that waits and whose time has come. *)
Definition is_ready (now_unix_ms : Z) (row : QueueRow) : bool :=
  (bool_decide (qr_status row = lit "pending") && (qr_ready_unix_ms row <=? now_unix_ms))
  || (bool_decide (qr_status row = lit "retry_wait")
      && match qr_next_retry_unix_ms row with Some next_retry => next_retry <=? now_unix_ms | None => false end).

(** [CASE status WHEN 'retry_wait' THEN next_retry_unix_ms ELSE ready_unix_ms END]; a null sorts first. *)
Definition ready_order (row : QueueRow) : Z :=
  if bool_decide (qr_status row = lit "retry_wait") then
    match qr_next_retry_unix_ms row with Some next_retry => next_retry | None => I64_MIN end
  else qr_ready_unix_ms row.

(** The parent of a journal scope recovery waits until the child is completed. *)
Definition waits_for_child (db : QueueDb) (id : Z) : bool :=
  match rt_scope_recoveries tables !! id with
  | Some recovery =>
    match db_rows db !! default (jr_current_change_id recovery) (jr_previous_change_id recovery) with
    | Some child => negb (bool_decide (qr_status child = lit "completed"))
    | None => false
    end
  | None => false
  end.

Definition has_journal_lineage (db : QueueDb) (id : Z) : bool :=
  existsb (λ entry : (Z * str * str) * Z,
    (entry.1.1.1 =? id) && bool_decide (entry.1.1.2 = PERSISTENT_JOURNAL_CATCH_UP_SOURCE))
    (map_to_list (db_catch_up_lineage db)).

(** The rows the lease selects. *)
Definition is_leasable (root_id : str) (generation now_unix_ms : Z) (policy : LibraryChangeQueuePolicy)
    (selection : LeaseSelection) (affinity : option Z) (defer_unlineaged : bool) (db : QueueDb) (id : Z) (row : QueueRow)
    : bool :=
  bool_decide (qr_root_id row = root_id) && (qr_root_generation row =? generation)
  && (negb defer_unlineaged || negb (has_lane "p0_live" row) || has_journal_lineage db id)
  && negb (waits_for_child db id)
  && (qr_attempt_count row <? qp_max_attempts policy)
  && (negb (selection_sql_value selection =? 6) || match affinity with Some change_id => id =? change_id | None => true end)
  && selection_matches authority_can_lease selection db id row
  && is_ready now_unix_ms row.

Definition lease_order (left right : Z * QueueRow) : comparison :=
  then_with (compare_on Z.compare (λ entry, ready_order entry.2) left right)
    (then_with (compare_on Z.compare (λ entry, qr_first_observed_unix_ms entry.2) left right)
       (compare_on Z.compare fst left right)).

Definition lease_limit (selection : LeaseSelection) (policy : LibraryChangeQueuePolicy) : Z :=
  match selection with
  | Authoritative | RecoveryAuthoritative | LiveAuthoritative | JournalAuthoritative => 1
  | _ => qp_max_lease_batch policy
  end.
End Selection.

Section Leases.
Context (fault : nat → option ScanError) (no_rows : ScanError) (tables : RecoveryTables).
Abbreviation Tx := (ST ScanError QueueDb).

(** Beginning and committing a transaction; one that fails in between is rolled back. *)
Definition in_transaction {A} (body : Tx A) : Tx A :=
  statement fault (λ db, ((), db));;
  result ← body;
  statement fault (λ db, ((), db));;
  mret result.

(** [query_row]: a statement that must find its row. *)
Definition query_row {A} (query : QueueDb → option A) : Tx A :=
  found ← statement fault (λ db, (query db, db));
  st_lift (ok_or found no_rows).

Definition load_catch_up_lineage (change_id : Z) : Tx (list LibraryChangeCatchUpEvidence) :=
  rows ← statement fault (λ db,
    (take (Z.to_nat (MAX_CATCH_UP_LINEAGE_PER_CHANGE + 1))
       (sort_by (λ left right : (Z * str * str) * Z,
          then_with (compare_on Z.compare snd right left)
            (then_with (compare_on lex_compare (λ entry : (Z * str * str) * Z, entry.1.1.2) left right)
               (compare_on lex_compare (λ entry : (Z * str * str) * Z, entry.1.2) left right)))
          (filter (λ entry : (Z * str * str) * Z, entry.1.1.1 = change_id) (map_to_list (db_catch_up_lineage db)))), db));
  st_lift (fail_if (MAX_CATCH_UP_LINEAGE_PER_CHANGE <? zlen rows)
    (ScanError_new "change_queue_catch_up_lineage_limit_exceeded"
       "One durable change exceeds the bounded catch-up watermark lineage"));;
  mret ((λ entry : (Z * str * str) * Z, {| cue_source := entry.1.1.2; cue_watermark := entry.1.2 |}) <$> rows).

Definition load_change (change_id : Z) : Tx DurableLibraryChange :=
  raw ← query_row (λ db, db_rows db !! change_id);
  lineage ← load_catch_up_lineage change_id;
  st_lift (durable_change_from_raw change_id raw lineage).

Definition root_generation_is_current (root_id : str) (generation : LibraryRootGeneration) : Tx bool :=
  generation ← st_lift (sqlite_integer (generation_value generation) "root generation");
  statement fault (λ db,
    (match rt_root_state tables !! root_id with
     | Some (stored, is_active) => (stored =? generation) && is_active
     | None => false
     end, db)).

(** ** Expired leases and exhausted retries *)

(** The body of the loop of [recover_expired_leases]. *)
Definition recover_expired (now_unix_ms : Z) (policy : LibraryChangeQueuePolicy) (expired : Z * QueueRow) : Tx unit :=
  change_id ← st_lift (change_id_from_sqlite expired.1);
  deferred ←
    (if bool_decide (qr_last_failure_code expired.2 = Some METADATA_INVENTORY_LANE_CODE)
     then is_typed_capacity_deferred_live_gap fault change_id else mret false);
  if (deferred : bool) then
    id ← st_lift (sqlite_integer (change_id_value change_id) "change ID");
    statement fault (λ db,
      ((), (update_row id (is_expired now_unix_ms)
              (capacity_deferred_row (capacity_deferral_deadline now_unix_ms policy) now_unix_ms) db).2))
  else
    attempt_count ← st_lift (sqlite_u32 (qr_attempt_count expired.2) "change attempt count");
    id ← st_lift (sqlite_integer (change_id_value change_id) "change ID");
    statement fault (λ db,
      ((), (update_row id (is_expired now_unix_ms)
              (retry_row (next_retry_deadline now_unix_ms attempt_count policy) (lit "change_lease_expired")
                 (lit "The prior worker did not finish before its lease expired.") now_unix_ms) db).2)).

Definition expiry_order (left right : Z * QueueRow) : comparison :=
  then_with (compare_on Z.compare (λ entry, default I64_MIN (qr_lease_expires_unix_ms entry.2)) left right)
    (compare_on Z.compare fst left right).

Definition recover_expired_leases (root_id : str) (root_generation : LibraryRootGeneration) (now_unix_ms : Z)
    (policy : LibraryChangeQueuePolicy) (selection : LeaseSelection) : Tx unit :=
  generation ← st_lift (sqlite_integer (generation_value root_generation) "root generation");
  expired ← statement fault (λ db,
    (take (Z.to_nat MAX_UNRESOLVED_CHANGES)
       (sort_by expiry_order
          (select (λ id row,
             bool_decide (qr_root_id row = root_id) && (qr_root_generation row =? generation)
             && is_expired now_unix_ms row && selection_matches tables authority_can_recover selection db id row) db)), db));
  st_iter (recover_expired now_unix_ms policy) expired.

(** [status = 'retry_wait' AND attempt_count >= ? AND next_retry_unix_ms IS NOT NULL] *)
Definition is_exhausted (policy : LibraryChangeQueuePolicy) (row : QueueRow) : bool :=
  bool_decide (qr_status row = lit "retry_wait") && (qp_max_attempts policy <=? qr_attempt_count row)
  && bool_decide (is_Some (qr_next_retry_unix_ms row)).

Definition stop_retrying (now_unix_ms : Z) (policy : LibraryChangeQueuePolicy) (change_id : LibraryChangeId) : Tx unit :=
  deferred ← is_typed_capacity_deferred_live_gap fault change_id;
  if (deferred : bool) then mret ()
  else
    id ← st_lift (sqlite_integer (change_id_value change_id) "change ID");
    statement fault (λ db, ((), (update_row id (is_exhausted policy) (rescheduled_row None now_unix_ms) db).2)).

Definition enforce_retry_attempt_limit (root_id : str) (root_generation : LibraryRootGeneration) (now_unix_ms : Z)
    (policy : LibraryChangeQueuePolicy) : Tx unit :=
  generation ← st_lift (sqlite_integer (generation_value root_generation) "root generation");
  rows ← statement fault (λ db,
    (select (λ _ row, bool_decide (qr_root_id row = root_id) && (qr_root_generation row =? generation)
                      && is_exhausted policy row) db, db));
  candidates ← st_lift (result_map_list (λ entry, change_id_from_sqlite entry.1) rows);
  st_iter (stop_retrying now_unix_ms policy) candidates.

(** ** Taking leases *)

(** The body of the loop that leases the selected changes. *)
Definition lease_one (now_unix_ms lease_expires_unix_ms change_id : Z) : Tx (option LeasedLibraryChange) :=
  updated ← statement fault (update_row change_id (λ row, is_waiting (qr_status row))
                               (leased_row now_unix_ms lease_expires_unix_ms));
  if updated =? 0 then mret None
  else
    change ← load_change change_id;
    mret (Some {| llc_change := change; llc_lease_generation := dlc_lease_generation change;
                  llc_lease_expires_unix_ms := lease_expires_unix_ms |}).

Fixpoint lease_each (now_unix_ms lease_expires_unix_ms : Z) (change_ids : list Z) : Tx (list LeasedLibraryChange) :=
  match change_ids with
  | [] => mret []
  | change_id :: change_ids =>
    leased ← lease_one now_unix_ms lease_expires_unix_ms change_id;
    rest ← lease_each now_unix_ms lease_expires_unix_ms change_ids;
    mret (match leased with Some leased => leased :: rest | None => rest end)
  end.

Definition lease_matching_transaction (root_id : str) (root_generation : LibraryRootGeneration) (now_unix_ms : Z)
    (policy : LibraryChangeQueuePolicy) (selection : LeaseSelection) : Tx (list LeasedLibraryChange) :=
  current ← root_generation_is_current root_id root_generation;
  if negb current then mret []
  else
    recover_expired_leases root_id root_generation now_unix_ms policy selection;;
    enforce_retry_attempt_limit root_id root_generation now_unix_ms policy;;
    affinity ← match selection with
               | RecoveryAuthoritative => st_lift (rt_recovery_affinity tables)
               | _ => mret None
               end;
    defer_unlineaged ← st_lift (rt_blocks_unlineaged tables);
    generation ← st_lift (sqlite_integer (generation_value root_generation) "root generation");
    change_ids ← statement fault (λ db,
      (take (Z.to_nat (lease_limit selection policy))
         (fst <$> sort_by lease_order
            (select (is_leasable tables root_id generation now_unix_ms policy selection affinity defer_unlineaged db) db)),
       db));
    lease_each now_unix_ms
      (saturating_add_i64 now_unix_ms (Z.min I64_MAX (qp_lease_duration_millis policy))) change_ids.

(** ** Settling leases *)

Definition parse_admission_lane (lane : str) : ScanResult LibraryChangeLane :=
  if bool_decide (lane = lit "p0_live") then Ok LaneLive
  else if bool_decide (lane = lit "p1_journal") then Ok LaneJournal
  else if bool_decide (lane = lit "p2_recovery") then Ok LaneRecovery
  else Err (ScanError_new "change_queue_lane_invalid" "The durable change lane has an unsupported value").

Definition sqlite_write_priority (lane : LibraryChangeLane) : Z :=
  match lane with LaneLive => 1 | LaneJournal => 2 | LaneRecovery => 3 end.

Fixpoint admission_lane_from (admitted : LibraryChangeLane) (change_ids : list LibraryChangeId) : Tx LibraryChangeLane :=
  match change_ids with
  | [] => mret admitted
  | change_id :: change_ids =>
    id ← st_lift (sqlite_integer (change_id_value change_id) "change ID");
    row ← query_row (λ db, db_rows db !! id);
    lane ← st_lift (parse_admission_lane (lane_of_origin (qr_origin row)));
    admission_lane_from (if sqlite_write_priority lane <? sqlite_write_priority admitted then lane else admitted) change_ids
  end.
Definition admission_lane_for_change_ids : list LibraryChangeId → Tx LibraryChangeLane := admission_lane_from LaneRecovery.

Definition classify_lease_update (change_id : LibraryChangeId) (lease_generation : Z)
    (catalog_revision_at_success : option Z) : Tx LibraryChangeLeaseUpdateOutcome :=
  id ← st_lift (sqlite_integer (change_id_value change_id) "change ID");
  stored ← statement fault (λ db, (db_rows db !! id, db));
  match stored with
  | None => mret Missing
  | Some row =>
    if bool_decide (qr_status row = lit "superseded") then mret OutcomeSuperseded
    else
      matches ← (if bool_decide (qr_status row = lit "leased") then
                   stored_lease_generation ← st_lift (sqlite_unsigned (qr_lease_generation row) "lease generation");
                   mret (stored_lease_generation =? lease_generation)
                 else mret false);
      if negb matches then mret LeaseMismatch
      else
        match catalog_revision_at_success with
        | Some success_revision =>
          enqueue_revision ← st_lift (sqlite_unsigned (qr_catalog_revision_at_enqueue row) "enqueue catalog revision");
          st_lift (fail_if (success_revision <? enqueue_revision)
            (ScanError_new "change_queue_publication_revision_stale"
               "A completed change cannot publish an older catalog revision than it observed"));;
          mret Applied
        | None => mret Applied
        end
  end.

(** ** The operations of a worker *)

Definition retry_leased_change_in_transaction (change_id : LibraryChangeId) (lease_generation : Z)
    (failure : LibraryChangeFailure) (failed_unix_ms : Z) (policy : LibraryChangeQueuePolicy) : Tx unit :=
  st_lift (validate_failure_evidence failure);;
  id ← st_lift (sqlite_integer (change_id_value change_id) "change ID");
  row ← query_row (λ db, db_rows db !! id);
  attempt_count ← st_lift (sqlite_u32 (qr_attempt_count row) "change attempt count");
  generation ← st_lift (sqlite_integer lease_generation "lease generation");
  updated ← statement fault (update_row id (holds_lease generation)
    (retry_row (next_retry_deadline failed_unix_ms attempt_count policy) (fl_code failure) (fl_message failure) failed_unix_ms));
  st_lift (fail_if (negb (updated =? 1))
    (ScanError_new "change_queue_retry_raced" "The leased change changed before retry state could be persisted")).

Definition retry_library_change (change_id : LibraryChangeId) (lease_generation : Z) (failure : LibraryChangeFailure)
    (failed_unix_ms : Z) (policy : LibraryChangeQueuePolicy) : Tx LibraryChangeLeaseUpdateOutcome :=
  st_lift (validate_policy policy);;
  st_lift (validate_failure_evidence failure);;
  _ ← admission_lane_for_change_ids [change_id];
  in_transaction (
    outcome ← classify_lease_update change_id lease_generation None;
    (if bool_decide (outcome = Applied)
     then retry_leased_change_in_transaction change_id lease_generation failure failed_unix_ms policy
     else mret ());;
    mret outcome).

(** [UPDATE .. WHERE ..] on every row that satisfies [p]. *)
Definition update_rows (p : Z → QueueRow → bool) (f : QueueRow → QueueRow) (db : QueueDb) : Z * QueueDb :=
  (zlen (select p db), set_rows (map_imap (λ id row, Some (if p id row then f row else row)) (db_rows db)) db).

Definition wake_metadata_inventory_capacity_deferrals (root_id : str) (root_generation : LibraryRootGeneration)
    (released_unix_ms : Z) : Tx Z :=
  generation ← st_lift (sqlite_integer (generation_value root_generation) "root generation");
  updated ← statement fault (λ db, update_rows (λ id row,
    bool_decide (qr_root_id row = root_id) && (qr_root_generation row =? generation)
    && bool_decide (qr_status row = lit "retry_wait")
    && bool_decide (qr_last_failure_code row = Some METADATA_INVENTORY_LANE_CODE) && shape_predicate db id row
    && match qr_next_retry_unix_ms row with Some next_retry => released_unix_ms <? next_retry | None => true end)
    (rescheduled_row (Some released_unix_ms) released_unix_ms) db);
  st_lift (fail_if (U32_MAX <? updated)
    (ScanError_new "change_queue_capacity_wake_count_invalid"
       "The number of woken capacity deferrals exceeds the supported range"));;
  mret updated.

(** The evidence of the change is read, and its hand-offs are retired in tables that are not part of the queue. *)
Definition release_handoffs (change_id : LibraryChangeId) : Tx unit :=
  id ← st_lift (sqlite_integer (change_id_value change_id) "change ID");
  _ ← statement fault (λ db,
    ((λ entry : (Z * str * str) * Z, (entry.1.1.2, entry.1.2))
       <$> filter (λ entry : (Z * str * str) * Z, entry.1.1.1 = id) (map_to_list (db_catch_up_lineage db)), db));
  statement fault (λ db, ((), db)).

Definition complete (change_id : LibraryChangeId) (lease_generation catalog_revision_at_success completed_unix_ms : Z)
    : Tx LibraryChangeLeaseUpdateOutcome :=
  lane ← admission_lane_for_change_ids [change_id];
  in_transaction (
    outcome ← classify_lease_update change_id lease_generation (Some catalog_revision_at_success);
    (if bool_decide (outcome = Applied) then
       id ← st_lift (sqlite_integer (change_id_value change_id) "change ID");
       completed_change ← load_change id;
       revision ← st_lift (sqlite_integer catalog_revision_at_success "catalog revision");
       generation ← st_lift (sqlite_integer lease_generation "lease generation");
       statement fault (λ db,
         ((), (update_row id (holds_lease generation) (completed_row revision completed_unix_ms) db).2));;
       (match lane with
        | LaneJournal | LaneRecovery =>
          wake_metadata_inventory_capacity_deferrals (in_root_id (dlc_intent completed_change))
            (in_root_generation (dlc_intent completed_change)) completed_unix_ms;; mret ()
        | LaneLive => mret ()
        end);;
       release_handoffs change_id
     else mret ());;
    mret outcome).

(** ** Deferral *)

Fixpoint unique_leases (seen : list Z) (leases : list LibraryChangeLeaseIdentity) : bool :=
  match leases with
  | [] => true
  | lease :: leases =>
    negb (li_lease_generation lease =? 0)
    && negb (bool_decide (change_id_value (li_change_id lease) ∈ seen))
    && unique_leases (change_id_value (li_change_id lease) :: seen) leases
  end.

Fixpoint existing_ids (leases : list LibraryChangeLeaseIdentity) : Tx (list LibraryChangeId) :=
  match leases with
  | [] => mret []
  | lease :: leases =>
    _ ← st_lift (sqlite_integer (li_lease_generation lease) "lease generation");
    id ← st_lift (sqlite_integer (change_id_value (li_change_id lease)) "change ID");
    exists_ ← statement fault (λ db, (bool_decide (is_Some (db_rows db !! id)), db));
    ids ← existing_ids leases;
    mret (if (exists_ : bool) then li_change_id lease :: ids else ids)
  end.

Definition defer_one (deferred_unix_ms : Z) (lease : LibraryChangeLeaseIdentity) : Tx LibraryChangeLeaseUpdateOutcome :=
  outcome ← classify_lease_update (li_change_id lease) (li_lease_generation lease) None;
  (if bool_decide (outcome = Applied) then
     id ← st_lift (sqlite_integer (change_id_value (li_change_id lease)) "change ID");
     generation ← st_lift (sqlite_integer (li_lease_generation lease) "lease generation");
     statement fault (λ db, ((), (update_row id (holds_lease generation) (deferred_row deferred_unix_ms) db).2))
   else mret ());;
  mret outcome.

Fixpoint defer_each (deferred_unix_ms : Z) (leases : list LibraryChangeLeaseIdentity)
    : Tx (list LibraryChangeLeaseUpdateOutcome) :=
  match leases with
  | [] => mret []
  | lease :: leases =>
    outcome ← defer_one deferred_unix_ms lease;
    outcomes ← defer_each deferred_unix_ms leases;
    mret (outcome :: outcomes)
  end.

Definition defer (leases : list LibraryChangeLeaseIdentity) (deferred_unix_ms : Z)
    : Tx (list LibraryChangeLeaseUpdateOutcome) :=
  if is_empty leases then mret []
  else
    st_lift (fail_if ((MAX_LEASE_BATCH <? zlen leases) || negb (unique_leases [] leases))
      (ScanError_new "change_queue_deferral_batch_invalid"
         "Lease deferral requires one bounded batch of unique nonzero leases"));;
    ids ← existing_ids leases;
    _ ← admission_lane_for_change_ids ids;
    in_transaction (defer_each deferred_unix_ms leases).

Definition defer_for_capacity (change_id : LibraryChangeId) (lease_generation deferred_unix_ms : Z)
    (policy : LibraryChangeQueuePolicy) : Tx LibraryChangeLeaseUpdateOutcome :=
  st_lift (validate_policy policy);;
  in_transaction (
    outcome ← classify_lease_update change_id lease_generation None;
    if negb (bool_decide (outcome = Applied)) then mret outcome
    else
      id ← st_lift (sqlite_integer (change_id_value change_id) "change ID");
      is_bounded_live_gap ← query_row (λ db, shape_predicate db id <$> db_rows db !! id);
      st_lift (fail_if (negb is_bounded_live_gap)
        (ScanError_new "change_queue_capacity_deferral_invalid"
           "Only a leased P0 bounded live gap may wait for P2 metadata-inventory capacity"));;
      generation ← st_lift (sqlite_integer lease_generation "lease generation");
      updated ← statement fault (update_row id (holds_lease generation)
        (capacity_deferred_row (capacity_deferral_deadline deferred_unix_ms policy) deferred_unix_ms));
      st_lift (fail_if (negb (updated =? 1))
        (ScanError_new "change_queue_capacity_deferral_raced"
           "The leased live gap changed before capacity deferral could be persisted"));;
      mret Applied).
End Leases.
