(* ===== verification/LeaseLaws.v ===== *)
(** * A lease is settled once

    What every operation of the queue does to leases.  Statements that take no lease are tame: they keep the lease
    generation of a row and never make a row leased.  A run of operations is then a sequence of tame steps, of
    leases taken, which raise the generation, and of leases settled, after which the row is no longer leased. *)

From S2P Require Import Prelude Text LibraryChange Order Planning Numerals JournalText JournalBatch ChangeQueue.
From S2P Require Import Coalescing QueueStore QueueView Enqueue Leases.

(** ** Tame operations *)

Definition is_leased (row : QueueRow) : Prop := qr_status row = lit "leased".
#[export] Instance is_leased_dec row : Decision (is_leased row).
Proof. unfold is_leased. apply _. Defined.

(** [row'] has the lease of [row], or none. *)
Definition calmer (row row' : QueueRow) : Prop :=
  qr_lease_generation row' = qr_lease_generation row ∧ (is_leased row' → is_leased row).

Record tame (db db' : QueueDb) : Prop := {
  tm_last : db_last_id db ≤ db_last_id db';
  tm_rows : ∀ id row', db_rows db' !! id = Some row' →
    (∃ row, db_rows db !! id = Some row ∧ calmer row row') ∨ (db_last_id db < id ≤ db_last_id db' ∧ ¬ is_leased row');
}.

#[export] Instance tame_preorder : PreOrder tame.
Proof.
  split.
  - intros db. split; [done|]. intros id row Hrow. left. exists row. done.
  - intros db1 db2 db3 [Hl Hr] [Hl' Hr']. split; [lia|]. intros id row3 H3.
    destruct (Hr' id row3 H3) as [(row2 & H2 & Hg & Hs)|[Hid Hno]]; [|right; split; [lia|done]].
    destruct (Hr id row2 H2) as [(row1 & H1 & Hg' & Hs')|[Hid Hno]].
    + left. exists row1. split; [done|]. split; [congruence|auto].
    + right. split; [lia|auto].
Qed.

Lemma same_queue_tame db db' : same_queue db db' → tame db db'.
Proof. intros [Hr Hl]. split; [lia|]. intros id row. rewrite Hr. intros Hrow. left. by exists row. Qed.

Lemma update_row_tame id p f db : (∀ row, p row = true → calmer row (f row)) → tame db (update_row id p f db).2.
Proof.
  intros Hf. unfold update_row. destruct (db_rows db !! id) as [row|] eqn:Hrow; [|done]. destruct (p row) eqn:Hp; [|done].
  split; [done|]. intros id' row'. cbn. intros [[<- <-]|[_ Hl]]%lookup_insert_Some; left; [|by exists row'].
  exists row. auto.
Qed.

Definition tames {A} (m : ST ScanError QueueDb A) : Prop := ∀ db a db', m db = Ok (a, db') → tame db db'.

Lemma tames_ret {A} (a : A) : tames (mret a).
Proof. by intros db b db' [_ ->]%st_ret_Ok. Qed.

Lemma tames_lift {A} (r : ScanResult A) : tames (st_lift r).
Proof. by intros db b db' [_ ->]%st_lift_Ok. Qed.

Lemma tames_bind {A B} (m : ST ScanError QueueDb A) (k : A → ST ScanError QueueDb B) :
  tames m → (∀ a, tames (k a)) → tames (m ≫= k).
Proof. intros Hm Hk db b db' (a & db1 & H1 & H2)%st_bind_Ok. etrans; [by eapply Hm|by eapply Hk]. Qed.

Create HintDb tame.
#[export] Hint Resolve tames_ret tames_lift : tame.

(** Opens an operation into its statements. *)
Ltac tame_step :=
  match goal with
  | |- tames (_ ≫= _) => apply tames_bind; [|intros ?]
  | |- tames (if ?b then _ else _) => destruct b
  | |- tames (match ?x with _ => _ end) => destruct x
  | |- tames ((let '_ := ?x in _)) => destruct x
  | |- tames _ => solve [eauto with tame]
  end.
Ltac tame_all := repeat tame_step.

Section Tame.
Context (fault : nat → option ScanError) (sqlite_full no_rows : ScanError).

Lemma tames_statement {A} (f : QueueDb → A * QueueDb) : (∀ db, tame db (f db).2) → tames (statement fault f).
Proof.
  intros Hf db a db' H%statement_Ok. etrans; [by apply (same_queue_tame db (bump db))|].
  pose proof (Hf (bump db)) as Ht. by rewrite <-H in Ht.
Qed.

Lemma tames_read {A} (f : QueueDb → A) : tames (statement fault (λ db, (f db, db))).
Proof. by apply tames_statement. Qed.

Lemma tames_update id p f : (∀ row, p row = true → calmer row (f row)) → tames (statement fault (update_row id p f)).
Proof. intros Hf. apply tames_statement. intros db. by apply update_row_tame. Qed.

Lemma tames_update_unit id p f :
  (∀ row, p row = true → calmer row (f row)) → tames (statement fault (λ db, ((), (update_row id p f db).2))).
Proof. intros Hf. apply tames_statement. intros db. by apply update_row_tame. Qed.

Lemma tames_iter {A} (f : A → ST ScanError QueueDb unit) l : (∀ x, tames (f x)) → tames (st_iter f l).
Proof. intros Hf. induction l as [|x l IH]; cbn [st_iter]; tame_all. Qed.

(** Rows that are given another status than leased. *)
Lemma calmer_status status ready attempt next expires code message success updated row :
  lit status ≠ lit "leased" →
  calmer row (set_cycle (lit status) ready attempt next (qr_lease_generation row) expires code message success updated row).
Proof. intros Hne. split; [done|]. intros H. by destruct Hne. Qed.

Lemma tames_attach id evidence t : tames (attach_catch_up_lineage fault id evidence t).
Proof. intros db u db' H. by eapply same_queue_tame, (attach_same fault). Qed.
Hint Resolve tames_attach : tame.

Lemma tames_insert intent t revision evidence policy : tames (insert_change fault sqlite_full intent t revision evidence policy).
Proof.
  unfold insert_change. tame_all; try apply tames_ret. apply tames_statement. intros db. cbn zeta. destruct (I64_MAX <? _); [done|].
  split; [cbn; lia|]. intros id row'. cbn. intros [[<- <-]|[_ Hl]]%lookup_insert_Some; [right|left; by exists row'].
  split; [lia|]. intros H. by vm_compute in H.
Qed.

Lemma tames_update_change id intent evidence t policy : tames (update_change fault id intent evidence t policy).
Proof.
  unfold update_change. tame_all. apply tames_update_unit. intros row _. split; [done|]. intros H. by vm_compute in H.
Qed.

Lemma tames_bound id : tames (validate_catch_up_lineage_bound fault id).
Proof. intros db u db' H. by eapply same_queue_tame, (bound_same fault). Qed.
Hint Resolve tames_bound : tame.

Lemma tames_transfer ids target : tames (transfer_catch_up_lineage fault ids target).
Proof.
  unfold transfer_catch_up_lineage. tame_all. apply tames_iter. intros source. unfold transfer_source. tame_all.
  all: try (apply tames_statement; intros db; by apply same_queue_tame).
  apply tames_update_unit. by intros row _.
Qed.

Lemma tames_mark ids target t : tames (mark_superseded fault ids target t).
Proof.
  unfold mark_superseded. generalize 0. induction ids as [|id ids IH]; intros n; cbn [supersede_each]; [apply tames_ret|].
  apply tames_bind; [|intros n'; apply IH]. unfold supersede_one. tame_all.
  - apply tames_update. intros row _. split; [done|]. intros H. by vm_compute in H.
  - apply tames_statement. intros db. by apply same_queue_tame.
Qed.

Lemma tames_load root generation : tames (load_active_changes fault root generation).
Proof. unfold load_active_changes. tame_all. apply tames_read. Qed.

Lemma tames_gap id : tames (is_typed_capacity_deferred_live_gap fault id).
Proof. unfold is_typed_capacity_deferred_live_gap. tame_all. apply tames_read. Qed.
Hint Resolve tames_insert tames_update_change tames_transfer tames_mark tames_load tames_gap : tame.

Lemma tames_gap_ids changes : tames (load_capacity_deferred_gap_ids fault changes).
Proof. induction changes as [|c changes IH]; cbn [load_capacity_deferred_gap_ids]; tame_all. Qed.
Hint Resolve tames_gap_ids : tame.

Lemma tames_supersede all_active lane id target t report :
  tames (supersede_recovery_candidates_covered_by_higher_lane fault all_active lane id target t report).
Proof. unfold supersede_recovery_candidates_covered_by_higher_lane. tame_all. Qed.
Hint Resolve tames_supersede : tame.

Lemma tames_degrade active incoming report context : tames (degrade_to_root fault sqlite_full active incoming report context).
Proof. unfold degrade_to_root. cbn zeta. tame_all. Qed.

Lemma tames_coalesce all_active active gaps k target incoming context report :
  tames (coalesce_into fault all_active active gaps k target incoming context report).
Proof. unfold coalesce_into. cbn zeta. tame_all. Qed.

Lemma tames_insert_merged all_active absorbed incoming context report :
  tames (insert_merged fault sqlite_full all_active absorbed incoming context report).
Proof. unfold insert_merged. cbn zeta. tame_all. Qed.
Hint Resolve tames_degrade tames_coalesce tames_insert_merged : tame.

Lemma tames_enqueue fuel incoming context : ∀ report, tames (enqueue_one_with fault sqlite_full fuel incoming context report).
Proof.
  induction fuel as [|fuel IH]; intros report; cbn [enqueue_one_with]; [apply tames_lift|]. cbn zeta.
  apply tames_bind; [eauto with tame|intros all_active]. apply tames_bind; [eauto with tame|intros gaps].
  repeat match goal with |- tames (if ?b then _ else _) => destruct b | _ => tame_step end.
Qed.
End Tame.

(** ** Runs *)

(** A lease: the change and the generation it was taken with. *)
Abbreviation Lease := (Z * Z)%type.

Definition put_row (id : Z) (row : QueueRow) (db : QueueDb) : QueueDb := set_rows (<[id := row]> (db_rows db)) db.

(** What happens to leases from [db] to [db']: the leases taken and the leases settled, in order. *)
Inductive lease_run : QueueDb → list Lease → list Lease → QueueDb → Prop :=
| lr_tame db db' : tame db db' → lease_run db [] [] db'
| lr_take db id row row' :
    db_rows db !! id = Some row → qr_lease_generation row' = qr_lease_generation row + 1 →
    lease_run db [(id, qr_lease_generation row')] [] (put_row id row' db)
| lr_settle db id row row' :
    db_rows db !! id = Some row → is_leased row → calmer row row' → ¬ is_leased row' →
    lease_run db [] [(id, qr_lease_generation row)] (put_row id row' db)
| lr_trans db1 taken1 settled1 db2 taken2 settled2 db3 :
    lease_run db1 taken1 settled1 db2 → lease_run db2 taken2 settled2 db3 →
    lease_run db1 (taken1 ++ taken2) (settled1 ++ settled2) db3.

(** The fencing of leases by their generation. *)
Record fenced (db : QueueDb) (taken settled : list Lease) : Prop := {
  fe_ids : ∀ id row, db_rows db !! id = Some row → id ≤ db_last_id db;
  fe_generation : ∀ id g row, (id, g) ∈ taken → db_rows db !! id = Some row → g ≤ qr_lease_generation row;
  fe_known : ∀ id g, (id, g) ∈ taken → id ≤ db_last_id db;
  fe_leased : ∀ id row, db_rows db !! id = Some row → is_leased row →
    (id, qr_lease_generation row) ∈ taken ∧ (id, qr_lease_generation row) ∉ settled;
  fe_taken : NoDup taken;
  fe_settled : NoDup settled;
  fe_settled_taken : settled ⊆ taken;
}.

Lemma tame_fenced db db' taken settled : tame db db' → fenced db taken settled → fenced db' taken settled.
Proof.
  intros [Hl Hr] [Hids Hgen Hknown Hleased Ht Hs Hsub]. split; [| | | |done|done|done].
  - intros id row H. destruct (Hr id row H) as [(row0 & H0 & _)|[? _]]; [|lia]. pose proof (Hids id row0 H0). lia.
  - intros id g row Hin H. destruct (Hr id row H) as [(row0 & H0 & Hg & _)|[? _]]; [rewrite Hg; by eapply Hgen|].
    pose proof (Hknown id g Hin). lia.
  - intros id g Hin. pose proof (Hknown id g Hin). lia.
  - intros id row H Hle. destruct (Hr id row H) as [(row0 & H0 & Hg & Hc)|[_ ?]]; [|done]. rewrite Hg. by apply Hleased; [|apply Hc].
Qed.

Lemma take_fenced db id row row' taken settled :
  db_rows db !! id = Some row → qr_lease_generation row' = qr_lease_generation row + 1 →
  fenced db taken settled → fenced (put_row id row' db) (taken ++ [(id, qr_lease_generation row')]) settled.
Proof.
  intros Hrow Hg' [Hids Hgen Hknown Hleased Ht Hs Hsub]. assert ((id, qr_lease_generation row') ∉ taken) as Hfresh.
  { intros Hin. pose proof (Hgen id _ row Hin Hrow). lia. }
  split; cbn [put_row set_rows db_rows db_last_id]; [| | | | |done|set_solver].
  - intros id0 row0 [[<- <-]|[_ H]]%lookup_insert_Some; by eapply Hids.
  - intros id0 g row0 Hin [[<- <-]|[Hne H]]%lookup_insert_Some;
      (apply elem_of_app in Hin as [Hin|Hin]; [|by apply list_elem_of_singleton in Hin; simplify_eq]).
    + pose proof (Hgen _ _ _ Hin Hrow). lia.
    + by eapply Hgen.
  - intros id0 g Hin. apply elem_of_app in Hin as [Hin|Hin]; [by eapply Hknown|].
    apply list_elem_of_singleton in Hin. injection Hin as -> _. by eapply Hids.
  - intros id0 row0 [[<- <-]|[_ H]]%lookup_insert_Some Hle; [|destruct (Hleased _ _ H Hle); set_solver].
    split; [set_solver|]. intros Hin. apply Hfresh. by apply Hsub.
  - apply NoDup_app. split_and!; [done| |apply NoDup_singleton]. intros x Hx ->%list_elem_of_singleton. done.
Qed.

Lemma settle_fenced db id row row' taken settled :
  db_rows db !! id = Some row → is_leased row → calmer row row' → ¬ is_leased row' →
  fenced db taken settled → fenced (put_row id row' db) taken (settled ++ [(id, qr_lease_generation row)]).
Proof.
  intros Hrow Hle [Hg' _] Hno [Hids Hgen Hknown Hleased Ht Hs Hsub]. destruct (Hleased id row Hrow Hle) as [Hin Hnot].
  split; cbn [put_row set_rows db_rows db_last_id]; [| |done| |done| |set_solver].
  - intros id0 row0 [[<- <-]|[_ H]]%lookup_insert_Some; by eapply Hids.
  - intros id0 g row0 Hg [[<- <-]|[_ H]]%lookup_insert_Some; [rewrite Hg'|]; by eapply Hgen.
  - intros id0 row0 [[<- <-]|[Hne H]]%lookup_insert_Some Hle0; [done|]. destruct (Hleased id0 row0 H Hle0) as [Hin0 Hnot0].
    split; [done|]. intros [?|[= ? _]%list_elem_of_singleton]%elem_of_app; [done|congruence].
  - apply NoDup_app. split_and!; [done| |apply NoDup_singleton]. intros x Hx ->%list_elem_of_singleton. done.
Qed.

Lemma lease_run_fenced db taken settled db' :
  lease_run db taken settled db' → ∀ before done_, fenced db before done_ → fenced db' (before ++ taken) (done_ ++ settled).
Proof.
  induction 1 as [db db' Ht|db id row row' Hrow Hg|db id row row' Hrow Hle Hc Hno|db1 t1 s1 db2 t2 s2 db3 _ IH1 _ IH2];
    intros before done_ Hf.
  - rewrite !app_nil_r. by eapply tame_fenced.
  - rewrite app_nil_r. by eapply take_fenced.
  - rewrite app_nil_r. by eapply settle_fenced.
  - rewrite !app_assoc. apply IH2. by apply IH1.
Qed.

Lemma lr_after db0 db taken settled db' : tame db0 db → lease_run db taken settled db' → lease_run db0 taken settled db'.
Proof. intros Ht H. exact (lr_trans _ [] [] _ _ _ _ (lr_tame _ _ Ht) H). Qed.

Lemma lr_before db taken settled db' db'' : lease_run db taken settled db' → tame db' db'' → lease_run db taken settled db''.
Proof. intros H Ht. pose proof (lr_trans _ _ _ _ [] [] _ H (lr_tame _ _ Ht)) as Hr. by rewrite !app_nil_r in Hr. Qed.

(** An operation takes and settles the leases that its result tells. *)
Definition runs {A} (m : ST ScanError QueueDb A) (taken settled : A → list Lease) : Prop :=
  ∀ db a db', m db = Ok (a, db') → lease_run db (taken a) (settled a) db'.

Lemma runs_tames {A} (m : ST ScanError QueueDb A) : tames m → runs m (λ _, []) (λ _, []).
Proof. intros Hm db a db' H. by apply lr_tame, Hm with a. Qed.

Definition lease_of (leased : LeasedLibraryChange) : Lease :=
  (change_id_value (dlc_id (llc_change leased)), llc_lease_generation leased).

(** The lease that an outcome settles. *)
Definition settled_by (change_id : LibraryChangeId) (lease_generation : Z) (outcome : LibraryChangeLeaseUpdateOutcome)
    : list Lease :=
  if bool_decide (outcome = Applied) then [(change_id_value change_id, lease_generation)] else [].

Section Operations.
Context (fault : nat → option ScanError) (sqlite_full no_rows : ScanError) (tables : RecoveryTables).

Lemma tames_query {A} (query : QueueDb → option A) : tames (query_row fault no_rows query).
Proof. unfold query_row. tame_all. apply tames_read. Qed.
Hint Resolve tames_query tames_gap tames_read : tame.

Lemma tames_lineage id : tames (load_catch_up_lineage fault id).
Proof. unfold load_catch_up_lineage. tame_all. Qed.
Hint Resolve tames_lineage : tame.

Lemma tames_load_change id : tames (load_change fault no_rows id).
Proof. unfold load_change. tame_all. Qed.

Lemma tames_admission ids : ∀ lane, tames (admission_lane_from fault no_rows lane ids).
Proof. induction ids as [|id ids IH]; intros lane; cbn [admission_lane_from]; tame_all. Qed.

Lemma tames_admission_lane ids : tames (admission_lane_for_change_ids fault no_rows ids).
Proof. apply tames_admission. Qed.

Lemma tames_classify id g revision : tames (classify_lease_update fault id g revision).
Proof. unfold classify_lease_update. tame_all. Qed.

Lemma tames_current root generation : tames (root_generation_is_current fault tables root generation).
Proof. unfold root_generation_is_current. tame_all. Qed.
Hint Resolve tames_load_change tames_admission_lane tames_classify tames_current : tame.

Lemma tames_recover root generation now policy selection :
  tames (recover_expired_leases fault tables root generation now policy selection).
Proof.
  unfold recover_expired_leases. tame_all. apply tames_iter. intros expired. unfold recover_expired. tame_all.
  all: apply tames_update_unit; intros row _; by apply calmer_status.
Qed.

Lemma tames_enforce root generation now policy : tames (enforce_retry_attempt_limit fault root generation now policy).
Proof.
  unfold enforce_retry_attempt_limit. tame_all. apply tames_iter. intros id. unfold stop_retrying. tame_all.
  apply tames_update_unit. by intros row _.
Qed.
Hint Resolve tames_recover tames_enforce : tame.

Lemma tames_wake root generation t : tames (wake_metadata_inventory_capacity_deferrals fault root generation t).
Proof.
  unfold wake_metadata_inventory_capacity_deferrals. tame_all. apply tames_statement. intros db. split; [done|]. cbn.
  intros id row'. rewrite map_lookup_imap. intros (row & Hrow & [= <-])%bind_Some. left. exists row. split; [done|].
  by destruct (_ && _).
Qed.

Lemma tames_release id : tames (release_handoffs fault id).
Proof. unfold release_handoffs. tame_all. Qed.
Hint Resolve tames_wake tames_release : tame.

Lemma runs_transaction {A} (m : ST ScanError QueueDb A) taken settled : runs m taken settled → runs (in_transaction fault m) taken settled.
Proof.
  intros Hm db a db' H. unfold in_transaction in H. apply st_bind_Ok in H as (? & db1 & [_ H1]%read_same & H).
  apply st_bind_Ok in H as (b & db2 & Hb & H). apply st_bind_Ok in H as (? & db3 & [_ H3]%read_same & [-> ->]%st_ret_Ok).
  eapply lr_after; [by apply same_queue_tame|]. eapply lr_before; [by apply Hm|by apply same_queue_tame].
Qed.

(** *** Taking *)

Lemma load_change_lease id db change db' :
  load_change fault no_rows id db = Ok (change, db') →
  ∃ row, db_rows db !! id = Some row ∧ change_id_value (dlc_id change) = id ∧ dlc_lease_generation change = qr_lease_generation row.
Proof.
  unfold load_change, query_row. intros H. apply st_bind_Ok in H as (row & db1 & Hq & H).
  apply st_bind_Ok in H as (lineage & db2 & _ & [Hraw _]%st_lift_Ok).
  apply st_bind_Ok in Hq as (found & db0 & [-> _]%read_same & [Hf%ok_or_Ok _]%st_lift_Ok). exists row. split; [exact Hf|].
  unfold durable_change_from_raw in Hraw. apply result_bind_Ok in Hraw as (g & _ & Hraw).
  apply result_bind_Ok in Hraw as (generation & _ & Hraw). apply result_bind_Ok in Hraw as (active & Hactive & Hraw).
  apply raw_change_id in Hactive. simplify_result. cbn. split; [by rewrite Hactive|].
  match goal with Hg : sqlite_unsigned (qr_lease_generation row) _ = Ok _ |- _ => revert Hg end.
  unfold sqlite_unsigned. destruct (0 <=? qr_lease_generation row); by intros; simplify_eq.
Qed.

Lemma runs_lease_one now expires id : runs (lease_one fault no_rows now expires id) (λ leased, lease_of <$> option_list leased) (λ _, []).
Proof.
  intros db leased db' H. unfold lease_one in H. apply st_bind_Ok in H as (updated & db1 & Hst%statement_Ok & H).
  eapply lr_after; [by apply (same_queue_tame db (bump db))|]. unfold update_row in Hst.
  destruct (db_rows (bump db) !! id) as [row|] eqn:Hrow; [destruct (is_waiting (qr_status row))|]; injection Hst as -> ->;
    cbn [Z.eqb] in H; try by apply st_ret_Ok in H as [-> ->]; apply lr_tame.
  apply st_bind_Ok in H as (change & db2 & Hload & [-> ->]%st_ret_Ok).
  pose proof (tames_load_change id _ _ _ Hload) as Ht. apply load_change_lease in Hload as (row' & Hrow' & Hid & Hg).
  cbn in Hrow'. rewrite lookup_insert_eq in Hrow'. injection Hrow' as <-. cbn. unfold lease_of. cbn.
  rewrite Hid, Hg. eapply lr_before; [|exact Ht]. by eapply lr_take.
Qed.

Lemma runs_lease_each now expires ids : runs (lease_each fault no_rows now expires ids) (fmap lease_of) (λ _, []).
Proof.
  induction ids as [|id ids IH]; intros db leased db' H; cbn [lease_each] in H; [by apply st_ret_Ok in H as [-> ->]; apply lr_tame|].
  apply st_bind_Ok in H as (one & db1 & H1 & H). apply st_bind_Ok in H as (rest & db2 & H2 & [-> ->]%st_ret_Ok).
  pose proof (lr_trans _ _ _ _ _ _ _ (runs_lease_one _ _ _ _ _ _ H1) (IH _ _ _ H2)) as Hr. by destruct one.
Qed.

Lemma runs_lease root generation now policy selection :
  runs (lease_matching_transaction fault no_rows tables root generation now policy selection) (fmap lease_of) (λ _, []).
Proof.
  intros db leased db' H. unfold lease_matching_transaction in H. apply st_bind_Ok in H as (current & db1 & H1%tames_current & H).
  eapply lr_after; [exact H1|]. destruct (negb current); [by apply st_ret_Ok in H as [-> ->]; apply lr_tame|].
  apply st_bind_Ok in H as (? & db2 & H2%tames_recover & H). apply st_bind_Ok in H as (? & db3 & H3%tames_enforce & H).
  apply st_bind_Ok in H as (affinity & db4 & H4 & H). apply st_bind_Ok in H as (defer_unlineaged & db5 & [_ ->]%st_lift_Ok & H).
  apply st_bind_Ok in H as (g & db6 & [_ ->]%st_lift_Ok & H). apply st_bind_Ok in H as (ids & db7 & [_ H7]%read_same & H).
  assert (tame db3 db4) as H4' by (destruct selection; first [apply st_lift_Ok in H4 as [_ ->]|apply st_ret_Ok in H4 as [_ ->]]; done).
  do 3 (eapply lr_after; [eassumption|]). eapply lr_after; [by apply same_queue_tame|]. by apply runs_lease_each in H.
Qed.

(** *** Settling *)

Lemma classify_applied id g revision db db' :
  classify_lease_update fault id g revision db = Ok (Applied, db') →
  same_queue db db' ∧ ∃ row, db_rows db !! change_id_value id = Some row ∧ holds_lease g row = true.
Proof.
  unfold classify_lease_update. intros H. apply st_bind_Ok in H as (i & ? & [->%sqlite_integer_Ok ->]%st_lift_Ok & H).
  apply st_bind_Ok in H as (stored & db1 & [-> Hs]%read_same & H). cbn [bump db_rows] in H.
  destruct (db_rows db !! change_id_value id) as [row|]; [|by apply st_ret_Ok in H as []].
  destruct (bool_decide _); [by apply st_ret_Ok in H as []|]. apply st_bind_Ok in H as (matches & db2 & Hm & H).
  destruct matches; [|by apply st_ret_Ok in H as []].
  assert (db2 = db1 ∧ holds_lease g row = true) as [-> Hl].
  { unfold holds_lease. case_bool_decide; [|by apply st_ret_Ok in Hm as []].
    apply st_bind_Ok in Hm as (sg & ? & [Hsg ->]%st_lift_Ok & [Heq ->]%st_ret_Ok). split; [done|].
    unfold sqlite_unsigned in Hsg. destruct (0 <=? _); by simplify_eq. }
  split; [|by exists row]. cbn [negb] in H. destruct revision as [r|]; [|by apply st_ret_Ok in H as [_ ->]].
  apply st_bind_Ok in H as (? & ? & [_ ->]%st_lift_Ok & H). apply st_bind_Ok in H as (? & ? & [_ ->]%st_lift_Ok & [_ ->]%st_ret_Ok).
  done.
Qed.

(** A row that is settled keeps its generation and is no longer leased. *)
Definition settling (f : QueueRow → QueueRow) : Prop := ∀ row, calmer row (f row) ∧ ¬ is_leased (f row).

Lemma settle_update id g f db row :
  settling f → db_rows db !! id = Some row → holds_lease g row = true →
  lease_run db [] [(id, g)] (update_row id (holds_lease g) f db).2.
Proof.
  intros Hf Hrow Hl. unfold update_row. rewrite Hrow, Hl. unfold holds_lease in Hl.
  apply andb_true_iff in Hl as [Hle%bool_decide_eq_true <-%Z.eqb_eq]. destruct (Hf row). by eapply lr_settle.
Qed.

(** A statement that settles, and returns nothing or the number of rows. *)
Lemma settle_statement {A} id g f (result : Z * QueueDb → A * QueueDb) db0 db row a db' :
  settling f → same_queue db0 db → db_rows db0 !! id = Some row → holds_lease g row = true →
  (∀ r, (result r).2 = r.2) → statement fault (λ db, result (update_row id (holds_lease g) f db)) db = Ok (a, db') →
  lease_run db [] [(id, g)] db'.
Proof.
  intros Hf Hs Hrow Hl Hres H%statement_Ok. eapply lr_after; [by apply (same_queue_tame db (bump db))|].
  assert (db_rows (bump db) !! id = Some row) as Hrow' by (destruct Hs as [Hr _]; cbn; by rewrite Hr).
  pose proof (settle_update id g f (bump db) row Hf Hrow' Hl) as Hrun. by rewrite <-Hres, <-H in Hrun.
Qed.

Lemma settling_status status ready attempt next code message success updated :
  lit status ≠ lit "leased" →
  settling (λ row, set_cycle (lit status) (ready row) (attempt row) (next row) (qr_lease_generation row) None (code row)
    (message row) (success row) updated row).
Proof. intros Hne row. split; [by apply calmer_status|]. intros H. by destruct Hne. Qed.

Lemma runs_settle (change_id : LibraryChangeId) (g : Z) revision
    (update : LibraryChangeLeaseUpdateOutcome → ST ScanError QueueDb unit) :
  (∀ outcome, outcome ≠ Applied → tames (update outcome)) →
  (∀ db row db', db_rows db !! change_id_value change_id = Some row → holds_lease g row = true →
     update Applied db = Ok ((), db') → lease_run db [] [(change_id_value change_id, g)] db') →
  runs (outcome ← classify_lease_update fault change_id g revision; update outcome;; mret outcome) (λ _, []) (settled_by change_id g).
Proof.
  intros Htame Hsettle db outcome db' H. apply st_bind_Ok in H as (outcome' & db1 & Hc & H).
  apply st_bind_Ok in H as ([] & db2 & Hu & [-> ->]%st_ret_Ok). unfold settled_by. case_bool_decide as Ho.
  - subst outcome'. destruct (classify_applied _ _ _ _ _ Hc) as (Hs & row & Hrow & Hl). eapply lr_after; [by apply same_queue_tame|].
    eapply Hsettle; [|exact Hl|exact Hu]. by destruct Hs as [-> _].
  - apply lr_tame. etrans; [by eapply tames_classify|by eapply Htame].
Qed.
End Operations.
