(* ===== verification/LeaseRuns.v ===== *)
(** * Runs of the queue

    The operations of workers on leased changes, and any sequence of them with leases and enqueues in between: every
    lease handed out is settled at most once, whatever expires, is superseded or is retried meanwhile.
    A lease hands out the changes that are due, and a failed change returns after a delay that doubles. *)

From Stdlib Require Import Sorted.
From stdpp Require Import sorting.
From S2P Require Import Prelude Text LibraryChange Order Planning Numerals JournalText JournalBatch ChangeQueue.
From S2P Require Import Coalescing QueueStore QueueView Enqueue EnqueueWork Leases LeaseLaws PlanningCoverage.

Section Workers.
Context (fault : nat → option ScanError) (sqlite_full no_rows : ScanError) (tables : RecoveryTables).
#[local] Hint Resolve tames_query tames_read tames_load_change tames_admission_lane tames_classify tames_wake tames_release : tame.

Lemma query_same {A} (query : QueueDb → option A) db a db' :
  query_row fault no_rows query db = Ok (a, db') → same_queue db db'.
Proof.
  unfold query_row. intros H. apply st_bind_Ok in H as (found & db1 & [_ Hs]%read_same & [_ ->]%st_lift_Ok). done.
Qed.

Lemma load_change_same id db change db' : load_change fault no_rows id db = Ok (change, db') → same_queue db db'.
Proof.
  unfold load_change, load_catch_up_lineage. intros H. apply st_bind_Ok in H as (row & db1 & H1%query_same & H).
  apply st_bind_Ok in H as (lineage & db2 & H2 & [_ ->]%st_lift_Ok). apply st_bind_Ok in H2 as (rows & db3 & [_ H3]%read_same & H2).
  apply st_bind_Ok in H2 as (? & ? & [_ ->]%st_lift_Ok & [_ ->]%st_ret_Ok). by etrans.
Qed.

Lemma retry_settling next code message t : settling (retry_row next code message t).
Proof. by apply (settling_status "retry_wait" qr_ready_unix_ms qr_attempt_count (λ _, next) (λ _, Some code) (λ _, Some message)). Qed.

Lemma capacity_settling next t : settling (capacity_deferred_row next t).
Proof.
  by apply (settling_status "retry_wait" qr_ready_unix_ms attempt_returned (λ _, Some next)
    (λ _, Some METADATA_INVENTORY_LANE_CODE) (λ _, Some METADATA_INVENTORY_LANE_MESSAGE)).
Qed.

Lemma deferred_settling t : settling (deferred_row t).
Proof. by apply (settling_status "pending" (λ _, t) attempt_returned (λ _, None) qr_last_failure_code qr_last_failure_message). Qed.

Lemma completed_settling revision t : settling (completed_row revision t).
Proof.
  by apply (settling_status "completed" qr_ready_unix_ms qr_attempt_count qr_next_retry_unix_ms qr_last_failure_code
    qr_last_failure_message (λ _, Some revision)).
Qed.

Lemma runs_retry change_id g failure t policy :
  runs (retry_library_change fault no_rows change_id g failure t policy) (λ _, []) (settled_by change_id g).
Proof.
  intros db outcome db' H. unfold retry_library_change in H. apply st_bind_Ok in H as (? & ? & [_ ->]%st_lift_Ok & H).
  apply st_bind_Ok in H as (? & ? & [_ ->]%st_lift_Ok & H). apply st_bind_Ok in H as (? & db1 & H1%tames_admission_lane & H).
  eapply lr_after; [exact H1|]. eapply (runs_transaction fault _ (λ _, []) (settled_by change_id g)); [|exact H]. clear H.
  apply (runs_settle _ _ _ _ (λ outcome, if bool_decide (outcome = Applied) then _ else mret ())).
  { intros o Ho. rewrite bool_decide_eq_false_2 by done. apply tames_ret. }
  clear. intros db row db' Hrow Hl H. rewrite bool_decide_eq_true_2 in H by done. unfold retry_leased_change_in_transaction in H.
  apply st_bind_Ok in H as (? & ? & [_ ->]%st_lift_Ok & H). apply st_bind_Ok in H as (i & ? & [->%sqlite_integer_Ok ->]%st_lift_Ok & H).
  apply st_bind_Ok in H as (row' & db1 & Hs%query_same & H). apply st_bind_Ok in H as (attempts & ? & [_ ->]%st_lift_Ok & H).
  apply st_bind_Ok in H as (g' & ? & [->%sqlite_integer_Ok ->]%st_lift_Ok & H).
  apply st_bind_Ok in H as (updated & db2 & Hu & [_ ->]%st_lift_Ok). eapply lr_after; [by apply same_queue_tame|].
  by eapply (settle_statement fault _ _ _ id); [apply retry_settling|..|exact Hu].
Qed.

Lemma runs_complete change_id g revision t :
  runs (complete fault no_rows change_id g revision t) (λ _, []) (settled_by change_id g).
Proof.
  intros db outcome db' H. unfold complete in H. apply st_bind_Ok in H as (lane & db1 & H1%tames_admission_lane & H).
  eapply lr_after; [exact H1|]. eapply (runs_transaction fault _ (λ _, []) (settled_by change_id g)); [|exact H]. clear H.
  apply (runs_settle _ _ _ _ (λ outcome, if bool_decide (outcome = Applied) then _ else mret ())).
  { intros o Ho. rewrite bool_decide_eq_false_2 by done. apply tames_ret. }
  clear. intros db row db' Hrow Hl H. rewrite bool_decide_eq_true_2 in H by done.
  apply st_bind_Ok in H as (i & ? & [->%sqlite_integer_Ok ->]%st_lift_Ok & H).
  apply st_bind_Ok in H as (change & db1 & Hs%load_change_same & H). apply st_bind_Ok in H as (r & ? & [_ ->]%st_lift_Ok & H).
  apply st_bind_Ok in H as (g' & ? & [->%sqlite_integer_Ok ->]%st_lift_Ok & H).
  apply st_bind_Ok in H as (? & db2 & Hu & H). apply st_bind_Ok in H as (? & db3 & Hw & Hr%tames_release).
  eapply lr_after; [by apply same_queue_tame|]. eapply lr_before; [|exact Hr]. eapply lr_before.
  - by eapply (settle_statement fault _ _ _ (λ r, ((), r.2))); [apply completed_settling|..|exact Hu].
  - destruct lane; [by apply st_ret_Ok in Hw as [_ ->]|..];
      apply st_bind_Ok in Hw as (? & ? & Hw%tames_wake & [_ ->]%st_ret_Ok); exact Hw.
Qed.

Lemma runs_capacity change_id g t policy :
  runs (defer_for_capacity fault no_rows change_id g t policy) (λ _, []) (settled_by change_id g).
Proof.
  intros db outcome db' H. unfold defer_for_capacity in H. apply st_bind_Ok in H as (? & ? & [_ ->]%st_lift_Ok & H).
  eapply (runs_transaction fault _ (λ _, []) (settled_by change_id g)); [|exact H]. clear. intros db outcome db' H. apply st_bind_Ok in H as (o & db1 & Hc & H).
  destruct (bool_decide_reflect (o = Applied)) as [->|Ho]; cbn [negb] in H.
  - destruct (classify_applied _ _ _ _ _ _ Hc) as (Hs & row & Hrow & Hl).
    apply st_bind_Ok in H as (i & ? & [->%sqlite_integer_Ok ->]%st_lift_Ok & H).
    apply st_bind_Ok in H as (gap & db2 & Hq%query_same & H). apply st_bind_Ok in H as (? & ? & [_ ->]%st_lift_Ok & H).
    apply st_bind_Ok in H as (g' & ? & [->%sqlite_integer_Ok ->]%st_lift_Ok & H).
    apply st_bind_Ok in H as (updated & db3 & Hu & H). apply st_bind_Ok in H as (? & ? & [_ ->]%st_lift_Ok & [-> ->]%st_ret_Ok).
    assert (same_queue db db2) as Hs2 by (by etrans). eapply lr_after; [by apply same_queue_tame|].
    by eapply (settle_statement fault _ _ _ id); [apply capacity_settling|..|exact Hu].
  - apply st_ret_Ok in H as [-> ->]. unfold settled_by. rewrite bool_decide_eq_false_2 by done. apply lr_tame.
    exact (tames_classify fault _ _ _ _ _ _ Hc).
Qed.

(** The leases a batch of deferrals settles. *)
Definition settles_all (leases : list LibraryChangeLeaseIdentity) (outcomes : list LibraryChangeLeaseUpdateOutcome) : list Lease :=
  concat (zip_with (λ lease outcome, settled_by (li_change_id lease) (li_lease_generation lease) outcome) leases outcomes).

Lemma runs_defer_one t lease :
  runs (defer_one fault t lease) (λ _, []) (settled_by (li_change_id lease) (li_lease_generation lease)).
Proof.
  unfold defer_one. apply (runs_settle _ _ _ _ (λ outcome, if bool_decide (outcome = Applied) then _ else mret ())).
  { intros o Ho. rewrite bool_decide_eq_false_2 by done. apply tames_ret. }
  intros db row db' Hrow Hl H. rewrite bool_decide_eq_true_2 in H by done.
  apply st_bind_Ok in H as (i & ? & [->%sqlite_integer_Ok ->]%st_lift_Ok & H).
  apply st_bind_Ok in H as (g' & ? & [->%sqlite_integer_Ok ->]%st_lift_Ok & Hu).
  by eapply (settle_statement fault _ _ _ (λ r, ((), r.2))); [apply deferred_settling|..|exact Hu].
Qed.

Lemma runs_defer_each t leases : runs (defer_each fault t leases) (λ _, []) (settles_all leases).
Proof.
  induction leases as [|lease leases IH]; intros db outcomes db' H; cbn [defer_each] in H.
  { apply st_ret_Ok in H as [-> ->]. by apply lr_tame. }
  apply st_bind_Ok in H as (o & db1 & H1 & H). apply st_bind_Ok in H as (os & db2 & H2 & [-> ->]%st_ret_Ok).
  exact (lr_trans _ _ _ _ _ _ _ (runs_defer_one _ _ _ _ _ H1) (IH _ _ _ H2)).
Qed.

Lemma tames_existing leases : tames (existing_ids fault leases).
Proof. induction leases as [|lease leases IH]; cbn [existing_ids]; tame_all. Qed.

Lemma runs_defer leases t : runs (defer fault no_rows leases t) (λ _, []) (settles_all leases).
Proof.
  intros db outcomes db' H. unfold defer in H. destruct leases as [|lease leases]; cbn [is_empty] in H.
  { apply st_ret_Ok in H as [-> ->]. by apply lr_tame. }
  apply st_bind_Ok in H as (? & ? & [_ ->]%st_lift_Ok & H). apply st_bind_Ok in H as (ids & db1 & H1%tames_existing & H).
  apply st_bind_Ok in H as (? & db2 & H2%tames_admission_lane & H). do 2 (eapply lr_after; [eassumption|]).
  eapply (runs_transaction fault _ (λ _, [])); [apply runs_defer_each|exact H].
Qed.
End Workers.

(** ** The queue as a machine *)

(** One operation that succeeds, with the leases it hands out and the leases it settles; one that fails is rolled
    back.  The database may fail at any statement, differently at each operation, and the tables that a lease
    reads may have changed since the last one. *)
Inductive queue_step : QueueDb → list Lease → list Lease → QueueDb → Prop :=
| step_enqueue fault sqlite_full incoming context report result db db' :
    enqueue_one fault sqlite_full incoming context report db = Ok (result, db') → queue_step db [] [] db'
| step_lease fault no_rows tables root generation now policy selection leased db db' :
    in_transaction fault (lease_matching_transaction fault no_rows tables root generation now policy selection) db
      = Ok (leased, db') →
    queue_step db (lease_of <$> leased) [] db'
| step_complete fault no_rows change_id g revision now outcome db db' :
    complete fault no_rows change_id g revision now db = Ok (outcome, db') →
    queue_step db [] (settled_by change_id g outcome) db'
| step_retry fault no_rows change_id g failure now policy outcome db db' :
    retry_library_change fault no_rows change_id g failure now policy db = Ok (outcome, db') →
    queue_step db [] (settled_by change_id g outcome) db'
| step_defer fault no_rows leases now outcomes db db' :
    defer fault no_rows leases now db = Ok (outcomes, db') → queue_step db [] (settles_all leases outcomes) db'
| step_capacity fault no_rows change_id g now policy outcome db db' :
    defer_for_capacity fault no_rows change_id g now policy db = Ok (outcome, db') →
    queue_step db [] (settled_by change_id g outcome) db'.

Inductive queue_run : QueueDb → list Lease → list Lease → QueueDb → Prop :=
| run_start db : queue_run db [] [] db
| run_next db taken settled db1 taken1 settled1 db2 :
    queue_run db taken settled db1 → queue_step db1 taken1 settled1 db2 →
    queue_run db (taken ++ taken1) (settled ++ settled1) db2.

Lemma queue_step_leases db taken settled db' : queue_step db taken settled db' → lease_run db taken settled db'.
Proof.
  destruct 1; match goal with H : _ = Ok _ |- _ => rename H into Hop end.
  - apply lr_tame. by eapply (tames_enqueue fault sqlite_full 2).
  - by eapply (runs_transaction fault _ (fmap lease_of) (λ _, [])); [apply runs_lease|exact Hop].
  - by eapply runs_complete in Hop.
  - by eapply runs_retry in Hop.
  - by eapply runs_defer in Hop.
  - by eapply runs_capacity in Hop.
Qed.

Lemma queue_run_leases db taken settled db' : queue_run db taken settled db' → lease_run db taken settled db'.
Proof. induction 1 as [db|db t s db1 t1 s1 db2 _ IH Hstep]; [by apply lr_tame|]. eapply lr_trans; [exact IH|by apply queue_step_leases]. Qed.

(** A queue without leases, whose ids were drawn from the sequence. *)
Definition unleased_queue (db : QueueDb) : Prop :=
  ∀ id row, db_rows db !! id = Some row → id ≤ db_last_id db ∧ ¬ is_leased row.

Lemma unleased_fenced db : unleased_queue db → fenced db [] [].
Proof.
  intros Hdb. split; [| | | |apply NoDup_nil_2|apply NoDup_nil_2|done].
  - intros id row Hrow. by apply (Hdb id row).
  - intros id g row Hin. by apply elem_of_nil in Hin.
  - intros id g Hin. by apply elem_of_nil in Hin.
  - intros id row Hrow Hle. by destruct (Hdb id row Hrow).
Qed.

(** C4: However operations on the queue follow each other, the generation of a lease fences it. No lease is handed out
    twice; a lease is settled (completed, retried or deferred) at most once and only if it was handed out; and every
    change that is still leased is so under a lease that was handed out and not settled yet. A worker that lost its
    lease, because it expired or because the change was superseded, can therefore not settle it any more. *)
Theorem leases_settled_once db taken settled db' :
  unleased_queue db → queue_run db taken settled db' →
  NoDup taken ∧ NoDup settled ∧ settled ⊆ taken ∧
  ∀ id row, db_rows db' !! id = Some row → is_leased row →
    (id, qr_lease_generation row) ∈ taken ∧ (id, qr_lease_generation row) ∉ settled.
Proof.
  intros Hdb Hrun%queue_run_leases. destruct (lease_run_fenced _ _ _ _ Hrun [] [] (unleased_fenced db Hdb)). done.
Qed.

(** ** A worker *)

Definition live_tables : RecoveryTables :=
  {| rt_root_state := {[ lit "root" := (1, true) ]}; rt_authorities := ∅; rt_scope_recoveries := ∅; rt_fallbacks := ∅;
     rt_open_baselines := ∅; rt_pending_journal_claims := ∅; rt_recovery_affinity := Ok None;
     rt_blocks_unlineaged := Ok false |}.
Definition row_missing : ScanError := ScanError_new "catalog_database" "no rows".

Definition lease_sample (selection : LeaseSelection) (db : QueueDb) : ScanResult (list LeasedLibraryChange * QueueDb) :=
  in_transaction no_fault (lease_matching_transaction no_fault row_missing live_tables (lit "root") {| generation_value := 1 |}
    1000 LibraryChangeQueuePolicy_default selection) db.

(** The queue after a successful operation. *)
Definition after {A} (result : ScanResult (A * QueueDb)) : QueueDb :=
  match result with Ok (_, db) => db | Err _ => empty_queue end.

(** A change is queued, leased and completed; a second report for the same lease comes too late. *)
Definition worker_queue : QueueDb := after (lease_sample LeasePath dirty_queue).
Definition first_report := complete no_fault row_missing {| change_id_value := 1 |} 1 3 1100.
Definition late_report := retry_library_change no_fault row_missing {| change_id_value := 1 |} 1
  {| fl_code := lit "io"; fl_message := lit "failed" |} 1200 LibraryChangeQueuePolicy_default.

Lemma leases_settled_once_witness :
  ∃ db', queue_run empty_queue [(1, 1)] [(1, 1)] db' ∧ NoDup [(1, 1)] ∧
    late_report (after (first_report worker_queue)) = Ok (LeaseMismatch, db').
Proof.
  destruct (enqueue_one no_fault disk_full dirty_file live_context LibraryChangeEnqueueReport_default empty_queue)
    as [[result db1]|e] eqn:E1; [|by vm_compute in E1].
  destruct (lease_sample LeasePath db1) as [[leased db2]|e] eqn:E2; [|vm_compute in E1; injection E1 as _ <-; by vm_compute in E2].
  destruct (first_report db2) as [[o3 db3]|e] eqn:E3;
    [|vm_compute in E1; injection E1 as _ <-; vm_compute in E2; injection E2 as _ <-; by vm_compute in E3].
  destruct (late_report db3) as [[o4 db4]|e] eqn:E4;
    [|vm_compute in E1; injection E1 as _ <-; vm_compute in E2; injection E2 as _ <-; vm_compute in E3;
      injection E3 as _ <-; by vm_compute in E4].
  assert (lease_of <$> leased = [(1, 1)] ∧ o3 = Applied ∧ o4 = LeaseMismatch ∧ db3 = after (first_report worker_queue)) as (Hl & -> & -> & Hdb).
  { vm_compute in E1. injection E1 as _ <-. vm_compute in E2. injection E2 as <- <-. vm_compute in E3. injection E3 as <- <-.
    vm_compute in E4. injection E4 as <- <-. split_and!; by vm_compute. }
  assert (queue_run empty_queue [(1, 1)] [(1, 1)] db4) as Hrun.
  { apply (run_next _ [(1, 1)] [(1, 1)] db3 [] []); [|by eapply step_retry in E4].
    apply (run_next _ [(1, 1)] [] db2 [] [(1, 1)]); [|by eapply step_complete in E3].
    apply (run_next _ [] [] db1 [(1, 1)] []); [|by eapply step_lease in E2; rewrite Hl in E2].
    apply (run_next _ [] [] empty_queue [] []); [apply run_start|by eapply step_enqueue in E1]. }
  exists db4. split; [exact Hrun|]. split; [|by rewrite <-Hdb].
  apply (leases_settled_once empty_queue [(1, 1)] [(1, 1)] db4); [by intros id row Hrow|exact Hrun].
Defined.

(** ** A lease that loses its work *)

(** A renamed file that changed is queued, then its directory; the directory is leased. *)
Definition leased_queue : QueueDb :=
  after (lease_sample Authoritative
    (enqueue_sample (live_intent Reconcile Subtree "x" None 3) (enqueue_sample renamed_file dirty_queue))).

(** The rename is seen again.  The leased directory is superseded by the change of the one file: a file elsewhere in the
    directory is asked for before, and by no change after. *)
Lemma leased_subtree_lost :
  let place := {| pc_scope := Path; pc_path := lit "x/z" |} in
  (∃ c, view leased_queue !! 3 = Some c ∧ ch_status c = Leased ∧ covers (ch_intent c) place) ∧
  ∃ c, view (enqueue_sample renamed_file leased_queue) = {[ 2 := c ]} ∧ ¬ covers (ch_intent c) place.
Proof.
  cbn zeta. split.
  - eexists. split; [by vm_compute|]. split; [done|]. right. split; [done|]. exists (lit "x"). split; [left|by vm_compute].
  - eexists. split; [by vm_compute|]. intros [?|(_ & p & Hp & H)]; [done|].
    destruct H as [_ H]. apply elem_of_cons in Hp as [->|Hp]; [by vm_compute in H|].
    apply list_elem_of_singleton in Hp as ->. by vm_compute in H.
Qed.

(** * What a lease hands out and when a failed change returns *)

(** ** What a selection asks for *)

(** Work on one path whose state is known; any other work is authoritative. *)
Definition path_work (row : QueueRow) : Prop := qr_scope row = lit "path" ∧ qr_intent_kind row ≠ lit "freshness_unknown".
Definition of_lane (lane : string) (row : QueueRow) : Prop := lane_of_origin (qr_origin row) = lit lane.

Definition governed (row : QueueRow) (authority : RecoveryAuthority) : Prop :=
  ra_root_id authority = qr_root_id row ∧ ra_root_generation authority = qr_root_generation row ∧
  ra_retired_unix_ms authority = None.

(** Why an authority lets its change be leased: a gap of the watcher, a fallback, a reconstruction that failed or a
    baseline that is open. *)
Definition lease_cause (tables : RecoveryTables) (id : Z) (authority : RecoveryAuthority) : Prop :=
  ra_reason authority ≠ lit "first_import_boundary" ∧ ra_run_id authority ≠ [] ∧
  (ra_reason authority = lit "watcher_uncovered_gap" ∨ id ∈ rt_fallbacks tables ∨
   (ra_reason authority = lit "journal_reconstruction_failure" ∧
    ∃ parent recovery, rt_scope_recoveries tables !! parent = Some recovery ∧
      (jr_current_change_id recovery = id ∨ jr_previous_change_id recovery = Some id)) ∨
   id ∈ rt_open_baselines tables).

(** The changes of a selection; [cause] is what it asks of a recovery authority. *)
Definition selected (tables : RecoveryTables) (cause : Z → RecoveryAuthority → Prop) (selection : LeaseSelection)
    (db : QueueDb) (id : Z) (row : QueueRow) : Prop :=
  match selection with
  | LeaseAll => True
  | LeasePath => path_work row
  | Authoritative => ¬ path_work row
  | PathLane LaneLive => path_work row ∧ of_lane "p0_live" row
  | PathLane LaneJournal => path_work row ∧ of_lane "p1_journal" row
  | PathLane LaneRecovery => path_work row ∧ of_lane "p2_recovery" row
  | JournalAuthoritative => qr_scope row ≠ lit "path" ∧ of_lane "p1_journal" row
  | LiveAuthoritative => ¬ path_work row ∧ of_lane "p0_live" row ∧ id ∉ rt_pending_journal_claims tables
  | RecoveryAuthoritative =>
    ¬ path_work row ∧ of_lane "p2_recovery" row ∧
    ∃ authority, rt_authorities tables !! id = Some authority ∧ governed row authority ∧ cause id authority
  | RecoveryCandidates =>
    path_work row ∧ of_lane "p2_recovery" row ∧
    ∃ run owner inventory change authority, db_candidate_owners db !! (run, inventory) = Some owner ∧ co_change_id owner = id ∧
      rt_authorities tables !! change = Some authority ∧ ra_run_id authority = run ∧ governed row authority
  | UnownedRecoveryPaths =>
    path_work row ∧ of_lane "p2_recovery" row ∧
    (∀ key owner, db_candidate_owners db !! key = Some owner → co_change_id owner ≠ id) ∧
    ∀ authority, rt_authorities tables !! id = Some authority → is_Some (ra_retired_unix_ms authority)
  end.

Lemma path_work_spec row : is_path_work row = true ↔ path_work row.
Proof. unfold is_path_work, path_work. by rewrite andb_true_iff, negb_true_iff, bool_decide_eq_true, bool_decide_eq_false. Qed.

Lemma authoritative_spec row : is_authoritative_work row = true ↔ ¬ path_work row.
Proof.
  rewrite <-path_work_spec. unfold is_authoritative_work, is_path_work.
  do 2 case_bool_decide; cbn; split; congruence.
Qed.

Lemma lane_spec lane row : has_lane lane row = true ↔ of_lane lane row.
Proof. apply bool_decide_eq_true. Qed.

Lemma governs_spec authority row : governs authority row = true ↔ governed row authority.
Proof. unfold governs, governed. rewrite !andb_true_iff, !bool_decide_eq_true, Z.eqb_eq. tauto. Qed.

Lemma exists_entry {K V} `{Countable K} (p : K * V → bool) (m : gmap K V) :
  existsb p (map_to_list m) = true ↔ ∃ k v, m !! k = Some v ∧ p (k, v) = true.
Proof.
  rewrite existsb_exists. split.
  - intros ([k v] & Hin%list_elem_of_In%elem_of_map_to_list & Hp). by exists k, v.
  - intros (k & v & Hk & Hp). exists (k, v). split; [|done]. by apply list_elem_of_In, elem_of_map_to_list.
Qed.

Lemma nonempty_spec (s : str) : negb (is_empty s) = true ↔ s ≠ [].
Proof. by destruct s. Qed.

Lemma can_lease_spec tables id authority : authority_can_lease tables id authority = true ↔ lease_cause tables id authority.
Proof.
  unfold authority_can_lease, lease_cause.
  rewrite !andb_true_iff, !orb_true_iff, !andb_true_iff, nonempty_spec, negb_true_iff, bool_decide_eq_false, !bool_decide_eq_true, exists_entry.
  unfold recovery_of. setoid_rewrite orb_true_iff. setoid_rewrite Z.eqb_eq. setoid_rewrite bool_decide_eq_true. cbn. tauto.
Qed.

Lemma owned_spec tables db id row :
  owned_by_run tables db id row = true ↔
  ∃ run owner inventory change authority, db_candidate_owners db !! (run, inventory) = Some owner ∧ co_change_id owner = id ∧
      rt_authorities tables !! change = Some authority ∧ ra_run_id authority = run ∧ governed row authority.
Proof.
  unfold owned_by_run. rewrite exists_entry. split.
  - intros ([run inventory] & owner & Hown & H). rewrite andb_true_iff, Z.eqb_eq, exists_entry in H.
    destruct H as (Hid & change & authority & Ha & H). rewrite andb_true_iff, bool_decide_eq_true, governs_spec in H.
    by exists run, owner, inventory, change, authority.
  - intros (run & owner & inventory & change & authority & Hown & Hid & Ha & Hrun & Hgov). exists (run, inventory), owner. split; [done|].
    rewrite andb_true_iff, Z.eqb_eq, exists_entry. split; [done|]. exists change, authority. split; [done|].
    by rewrite andb_true_iff, bool_decide_eq_true, governs_spec.
Qed.

Lemma unowned_spec db id :
  negb (has_owner db id) = true ↔ ∀ key owner, db_candidate_owners db !! key = Some owner → co_change_id owner ≠ id.
Proof.
  unfold has_owner. rewrite negb_true_iff, <-not_true_iff_false, exists_entry. setoid_rewrite Z.eqb_eq. naive_solver.
Qed.

Lemma selection_spec tables grants cause selection db id row :
  (∀ authority, grants id authority = true ↔ cause id authority) →
  selection_matches tables grants selection db id row = true ↔ selected tables cause selection db id row.
Proof.
  intros Hcause. unfold selection_matches, selected.
  destruct selection as [| | |[]| | | | |]; rewrite ?andb_true_iff, ?path_work_spec, ?authoritative_spec, ?lane_spec, ?owned_spec, ?unowned_spec,
    ?negb_true_iff, ?bool_decide_eq_false; try tauto.
  - split.
    + intros [[Hw Hl] H]. split; [done|]. split; [done|]. destruct (rt_authorities tables !! id) as [a|]; [|done]. exists a.
      by rewrite andb_true_iff, governs_spec, Hcause in H.
    + intros (? & ? & a & -> & Hg & Hc). split; [done|]. by rewrite andb_true_iff, governs_spec, Hcause.
  - destruct (rt_authorities tables !! id) as [a|]; [rewrite negb_true_iff, bool_decide_eq_false|].
    + pose proof (not_eq_None_Some (ra_retired_unix_ms a)). naive_solver.
    + naive_solver.
Qed.

(** ** What is due *)

(** When a waiting change may be taken. *)
Inductive due_at (row : QueueRow) : Z → Prop :=
| due_pending : qr_status row = lit "pending" → due_at row (qr_ready_unix_ms row)
| due_retry next_retry : qr_status row = lit "retry_wait" → qr_next_retry_unix_ms row = Some next_retry → due_at row next_retry.

Record due (tables : RecoveryTables) (root : str) (generation now : Z) (policy : LibraryChangeQueuePolicy)
    (selection : LeaseSelection) (db : QueueDb) (id : Z) (row : QueueRow) : Prop := {
  du_root : qr_root_id row = root;
  du_generation : qr_root_generation row = generation;
  du_time : ∃ t, due_at row t ∧ t ≤ now;
  du_attempts : qr_attempt_count row < qp_max_attempts policy;
  du_selected : selected tables (lease_cause tables) selection db id row;
  du_affinity : ∀ change, selection = RecoveryAuthoritative → rt_recovery_affinity tables = Ok (Some change) → id = change;
  du_child : ∀ recovery child, rt_scope_recoveries tables !! id = Some recovery →
    db_rows db !! default (jr_current_change_id recovery) (jr_previous_change_id recovery) = Some child →
    qr_status child = lit "completed";
  du_lineage : rt_blocks_unlineaged tables = Ok true → of_lane "p0_live" row →
    ∃ watermark n, db_catch_up_lineage db !! (id, PERSISTENT_JOURNAL_CATCH_UP_SOURCE, watermark) = Some n;
}.

(** Which of two due changes is taken first. *)
Definition sooner (left right : Z * QueueRow) : Prop :=
  ∃ t t', due_at left.2 t ∧ due_at right.2 t' ∧
    (t < t' ∨ t = t' ∧ (qr_first_observed_unix_ms left.2 < qr_first_observed_unix_ms right.2 ∨
       qr_first_observed_unix_ms left.2 = qr_first_observed_unix_ms right.2 ∧ left.1 < right.1)).

Lemma ready_spec now row : is_ready now row = true ↔ ∃ t, due_at row t ∧ t ≤ now.
Proof.
  unfold is_ready. rewrite orb_true_iff, !andb_true_iff, !bool_decide_eq_true, Z.leb_le. split.
  - intros [[Hs Ht]|[Hs Ht]]; [eexists; by split; [apply due_pending|]|].
    destruct (qr_next_retry_unix_ms row) as [t|] eqn:E; [|done]. exists t. split; [by apply due_retry|]. by apply Z.leb_le.
  - intros (t & [Hs|? Hs Hn] & Ht); [by left|right]. split; [done|]. rewrite Hn. by apply Z.leb_le.
Qed.

Lemma child_spec tables db id :
  negb (waits_for_child tables db id) = true ↔
  ∀ recovery child, rt_scope_recoveries tables !! id = Some recovery →
    db_rows db !! default (jr_current_change_id recovery) (jr_previous_change_id recovery) = Some child →
    qr_status child = lit "completed".
Proof.
  unfold waits_for_child. destruct (rt_scope_recoveries tables !! id) as [recovery|]; [|naive_solver].
  destruct (db_rows db !! _) as [child|] eqn:E; [|naive_solver]. rewrite negb_involutive, bool_decide_eq_true. naive_solver.
Qed.

Lemma lineage_spec db id :
  has_journal_lineage db id = true ↔
  ∃ watermark n, db_catch_up_lineage db !! (id, PERSISTENT_JOURNAL_CATCH_UP_SOURCE, watermark) = Some n.
Proof.
  unfold has_journal_lineage. rewrite exists_entry. split.
  - intros ([[i source] watermark] & n & Hl & H). cbn in H. rewrite andb_true_iff, Z.eqb_eq, bool_decide_eq_true in H.
    destruct H as [-> ->]. by exists watermark, n.
  - intros (watermark & n & Hl). eexists _, n. split; [exact Hl|]. cbn. by rewrite andb_true_iff, Z.eqb_eq, bool_decide_eq_true.
Qed.

(** The query finds what is due, for the affinity and the deferral that the code computes. *)
Lemma leasable_spec tables root generation now policy selection affinity defer_unlineaged db id row :
  rt_blocks_unlineaged tables = Ok defer_unlineaged →
  match selection with RecoveryAuthoritative => rt_recovery_affinity tables = Ok affinity | _ => affinity = None end →
  is_leasable tables root generation now policy selection affinity defer_unlineaged db id row = true ↔
  due tables root generation now policy selection db id row.
Proof.
  intros Hdefer Haff. unfold is_leasable.
  rewrite !andb_true_iff, bool_decide_eq_true, Z.eqb_eq, Z.ltb_lt, child_spec, ready_spec.
  rewrite (selection_spec tables _ (lease_cause tables)) by (intros; apply can_lease_spec).
  assert ((negb defer_unlineaged || negb (has_lane "p0_live" row) || has_journal_lineage db id = true) ↔
    (rt_blocks_unlineaged tables = Ok true → of_lane "p0_live" row →
    ∃ watermark n, db_catch_up_lineage db !! (id, PERSISTENT_JOURNAL_CATCH_UP_SOURCE, watermark) = Some n)) as ->.
  { rewrite Hdefer, <-lineage_spec, <-lane_spec. destruct defer_unlineaged, (has_lane _ _), (has_journal_lineage _ _); cbn; naive_solver. }
  assert ((negb (selection_sql_value selection =? 6) || match affinity with Some change_id => id =? change_id | None => true end = true) ↔
    (∀ change, selection = RecoveryAuthoritative → rt_recovery_affinity tables = Ok (Some change) → id = change)) as ->.
  { destruct selection as [| | |[]| | | | |]; cbn; try naive_solver. rewrite Haff.
    destruct affinity as [change|]; [rewrite Z.eqb_eq|]; naive_solver. }
  split; [intros H; split; tauto|]. intros []. tauto.
Qed.

(** ** The order of a lease *)

Lemma due_at_order row t : due_at row t → ready_order row = t.
Proof. intros [Hs|next Hs Hn]; unfold ready_order; rewrite Hs; [done|]. by rewrite Hn. Qed.

#[export] Instance lease_comparator : Comparator lease_order.
Proof. unfold lease_order. apply _. Qed.

Lemma order_sooner (x y : Z * QueueRow) :
  (∃ t, due_at x.2 t) → (∃ t, due_at y.2 t) → x.1 ≠ y.1 → cmp_le lease_order x y → sooner x y.
Proof.
  intros (t & Ht) (t' & Ht') Hne Hle. exists t, t'. split; [done|]. split; [done|]. unfold cmp_le, lease_order, compare_on in Hle.
  rewrite (due_at_order _ _ Ht), (due_at_order _ _ Ht') in Hle.
  destruct (Z.compare_spec t t'); cbn in Hle; [|by left|done].
  destruct (Z.compare_spec (qr_first_observed_unix_ms x.2) (qr_first_observed_unix_ms y.2)); cbn in Hle; [|lia|done].
  destruct (Z.compare_spec x.1 y.1); [done|lia|done].
Qed.

Lemma sorted_sooner (l : list (Z * QueueRow)) :
  NoDup (fst <$> l) → Forall (λ e, ∃ t, due_at e.2 t) l → StronglySorted (cmp_le lease_order) l → StronglySorted sooner l.
Proof.
  induction l as [|x l IH]; [constructor|]. rewrite fmap_cons, NoDup_cons, Forall_cons. intros [Hni Hnd] [Hx Hl] [Hs Hle]%StronglySorted_inv.
  constructor; [by apply IH|]. rewrite Forall_forall in *. intros y Hy. apply order_sooner; [done|by apply Hl| |by apply Hle].
  intros Heq. apply Hni. rewrite Heq. by apply list_elem_of_fmap_2.
Qed.

(** A prefix of a sorted list: what is left out comes after all of it, and it is full. *)
Lemma sorted_take {A} (R : A → A → Prop) n (l : list A) x :
  StronglySorted R l → x ∈ l → x ∉ take n l → length (take n l) = n ∧ Forall (λ y, R y x) (take n l).
Proof.
  revert n. induction l as [|y l IH]; intros n Hs Hin Hni; [by apply not_elem_of_nil in Hin|].
  destruct n as [|n]; [done|]. cbn in *. apply StronglySorted_inv in Hs as [Hs Hy]. rewrite not_elem_of_cons in Hni. destruct Hni as [Hne Hni].
  apply elem_of_cons in Hin as [?|Hin]; [done|]. destruct (IH n Hs Hin Hni) as [Hl Hall]. split; [lia|]. constructor; [|done].
  rewrite Forall_forall in Hy. by apply Hy.
Qed.

Lemma sorted_take_sorted {A} (R : A → A → Prop) n (l : list A) : StronglySorted R l → StronglySorted R (take n l).
Proof.
  revert n. induction l as [|y l IH]; intros [|n] Hs; cbn; [constructor..|]. apply StronglySorted_inv in Hs as [Hs Hy].
  constructor; [by apply IH|]. by apply Forall_take.
Qed.

(** The changes that a query takes: due ones, soonest first, as many as the limit lets, none of which is passed over. *)
Record takes (P : Z → QueueRow → Prop) (limit : nat) (db : QueueDb) (taken : list (Z * QueueRow)) : Prop := {
  tk_due : Forall (λ e, db_rows db !! e.1 = Some e.2 ∧ P e.1 e.2) taken;
  tk_order : StronglySorted sooner taken;
  tk_limit : (length taken ≤ limit)%nat;
  tk_rest : ∀ id row, db_rows db !! id = Some row → P id row → (id, row) ∉ taken →
    length taken = limit ∧ Forall (λ e, sooner e (id, row)) taken;
}.

Lemma query_takes (P : Z → QueueRow → Prop) p limit db :
  (∀ id row, p id row = true ↔ P id row) → (∀ id row, P id row → ∃ t, due_at row t) →
  takes P limit db (take limit (sort_by lease_order (select p db))).
Proof.
  intros Hp Hdue. set (l := sort_by lease_order (select p db)).
  assert (∀ id row, (id, row) ∈ l ↔ db_rows db !! id = Some row ∧ P id row) as Hl.
  { intros id row. unfold l. by rewrite sort_by_perm, elem_of_select, Hp. }
  assert (StronglySorted sooner l) as Hs.
  { apply sorted_sooner; [|apply Forall_forall; intros [id row] [_ ?]%Hl; by eapply Hdue|apply sort_by_sorted; apply _].
    unfold l. rewrite sort_by_perm. apply NoDup_select. }
  split.
  - apply Forall_take, Forall_forall. intros [id row]. apply Hl.
  - by apply sorted_take_sorted.
  - rewrite length_take. lia.
  - intros id row Hrow HP Hni. apply sorted_take; [done| |done]. by apply Hl.
Qed.

(** ** What a lease recovers first *)

(** A live gap that waits for capacity keeps its attempts. *)
Definition gap_deferred (db : QueueDb) (id : Z) (row : QueueRow) : bool :=
  bool_decide (qr_last_failure_code row = Some METADATA_INVENTORY_LANE_CODE) && shape_predicate db id row.

(** A lease of the selection that has expired. *)
Definition lapsed (tables : RecoveryTables) (root : str) (generation now : Z) (selection : LeaseSelection) (db : QueueDb)
    (id : Z) (row : QueueRow) : Prop :=
  qr_root_id row = root ∧ qr_root_generation row = generation ∧ is_leased row ∧
  (∃ expires, qr_lease_expires_unix_ms row = Some expires ∧ expires ≤ now) ∧
  selected tables (λ _ authority, ra_run_id authority ≠ []) selection db id row.

Definition recovered_row (now : Z) (policy : LibraryChangeQueuePolicy) (db : QueueDb) (id : Z) (row : QueueRow) : QueueRow :=
  if gap_deferred db id row then capacity_deferred_row (capacity_deferral_deadline now policy) now row
  else retry_row (next_retry_deadline now (qr_attempt_count row) policy) (lit "change_lease_expired")
         (lit "The prior worker did not finish before its lease expired.") now row.

(** A change that waits for a retry without attempts left is retried no more. *)
Definition stopped_row (root : str) (generation now : Z) (policy : LibraryChangeQueuePolicy) (db : QueueDb) (id : Z)
    (row : QueueRow) : QueueRow :=
  if bool_decide (qr_root_id row = root) && (qr_root_generation row =? generation) && is_exhausted policy row
     && negb (gap_deferred db id row)
  then rescheduled_row None now row else row.

(** The tables beside the queue. *)
Definition others (db : QueueDb) := (db_catch_up_lineage db, db_range_lineage db, db_candidate_owners db, db_live_gap_claims db).

(** [db'] is [db] with its expired leases recovered, up to the bound, and its exhausted retries stopped. *)
Definition reopened (tables : RecoveryTables) (root : str) (generation now : Z) (policy : LibraryChangeQueuePolicy)
    (selection : LeaseSelection) (db db' : QueueDb) : Prop :=
  ∃ expired : list Z, NoDup expired ∧
    (∀ id, id ∈ expired → ∃ row, db_rows db !! id = Some row ∧ lapsed tables root generation now selection db id row) ∧
    (∀ id row, db_rows db !! id = Some row → lapsed tables root generation now selection db id row → id ∉ expired →
       zlen expired = MAX_UNRESOLVED_CHANGES) ∧
    others db' = others db ∧
    ∀ id, db_rows db' !! id =
      stopped_row root generation now policy db id <$>
        ((λ row, if decide (id ∈ expired) then recovered_row now policy db id row else row) <$> db_rows db !! id).

Lemma gap_deferred_others db db' id row : others db = others db' → gap_deferred db id row = gap_deferred db' id row.
Proof. intros [= _ _ _ Hc]. unfold gap_deferred, shape_predicate. by rewrite Hc. Qed.

Section Reopen.
Context (fault : nat → option ScanError) (tables : RecoveryTables) (now : Z) (policy : LibraryChangeQueuePolicy).

(** One change of a row and nothing else. *)
Definition changes_row (id : Z) (f : QueueRow → QueueRow) (db db' : QueueDb) : Prop :=
  others db' = others db ∧ ∀ i, db_rows db' !! i = if decide (i = id) then f <$> db_rows db !! i else db_rows db !! i.

Lemma update_changes id p f db u db' :
  statement fault (λ db, ((), (update_row id p f db).2)) db = Ok (u, db') →
  changes_row id (λ row, if p row then f row else row) db db'.
Proof.
  intros [= _ ->]%statement_Ok. unfold update_row, changes_row. cbn [bump db_rows].
  destruct (db_rows db !! id) as [row|] eqn:E; [destruct (p row) eqn:Hp|]; cbn; (split; [done|]); intros i;
    (destruct (decide (i = id)) as [->|Hne]; [|by rewrite ?lookup_insert_ne]); rewrite ?lookup_insert_eq, ?E; cbn; by rewrite ?Hp.
Qed.

Lemma gap_spec id db deferred db' row :
  is_typed_capacity_deferred_live_gap fault id db = Ok (deferred, db') → db_rows db !! change_id_value id = Some row →
  qr_status row = lit "leased" ∨ qr_status row = lit "retry_wait" →
  deferred = gap_deferred db (change_id_value id) row ∧ others db' = others db ∧ db_rows db' = db_rows db.
Proof.
  unfold is_typed_capacity_deferred_live_gap. intros H Hrow Hst. apply st_bind_Ok in H as (i & ? & [->%sqlite_integer_Ok ->]%st_lift_Ok & H).
  apply statement_Ok in H. cbn [bump db_rows] in H. rewrite Hrow in H. injection H as -> ->. split; [|done].
  by rewrite bool_decide_eq_true_2 by done.
Qed.

Lemma change_id_Ok id v : change_id_from_sqlite id = Ok v → change_id_value v = id.
Proof.
  unfold change_id_from_sqlite, sqlite_unsigned, LibraryChangeId_new. intros H.
  destruct (0 <=? id); [|done]. cbn in H. destruct (id =? 0); [done|]. by injection H as <-.
Qed.

Lemma u32_Ok value field v : sqlite_u32 value field = Ok v → v = value.
Proof. unfold sqlite_u32. intros H. by repeat case_match; simplify_eq. Qed.

Lemma recover_expired_changes id row db u db' :
  db_rows db !! id = Some row → is_expired now row = true → recover_expired fault now policy (id, row) db = Ok (u, db') →
  changes_row id (recovered_row now policy db id) db db'.
Proof.
  intros Hrow Hexp H. unfold recover_expired in H. cbn [fst snd] in H.
  apply st_bind_Ok in H as (cid & ? & [Hid%change_id_Ok ->]%st_lift_Ok & H). subst id.
  assert (qr_status row = lit "leased") as Hst by (by apply andb_true_iff in Hexp as [?%bool_decide_eq_true _]).
  apply st_bind_Ok in H as (deferred & db1 & H1 & H).
  assert (deferred = gap_deferred db (change_id_value cid) row ∧ others db1 = others db ∧ db_rows db1 = db_rows db) as (Hd & Ho & Hr).
  { destruct (bool_decide _) eqn:Hc in H1.
    - eapply gap_spec in H1 as (-> & ? & ?); [done|done|by left].
    - apply st_ret_Ok in H1 as [-> ->]. unfold gap_deferred. by rewrite Hc. }
  assert (∀ f, (λ r, if is_expired now r then f r else r) <$> db_rows db1 !! change_id_value cid = Some (f row)) as Hf
    by (intros f; rewrite Hr, Hrow; cbn; by rewrite Hexp).
  destruct deferred.
  - apply st_bind_Ok in H as (i & ? & [->%sqlite_integer_Ok ->]%st_lift_Ok & H). apply update_changes in H as [Ho' Hr'].
    split; [congruence|]. intros i. rewrite Hr'. destruct (decide (i = change_id_value cid)) as [->|Hne]; [|by rewrite Hr]. rewrite Hf, Hrow. cbn [fmap option_fmap option_map]. unfold recovered_row. by rewrite <-Hd.
  - apply st_bind_Ok in H as (n & ? & [->%u32_Ok ->]%st_lift_Ok & H).
    apply st_bind_Ok in H as (i & ? & [->%sqlite_integer_Ok ->]%st_lift_Ok & H). apply update_changes in H as [Ho' Hr'].
    split; [congruence|]. intros i. rewrite Hr'. destruct (decide (i = change_id_value cid)) as [->|Hne]; [|by rewrite Hr]. rewrite Hf, Hrow. cbn [fmap option_fmap option_map]. unfold recovered_row. by rewrite <-Hd.
Qed.

Lemma stop_retrying_changes id row db u db' :
  db_rows db !! change_id_value id = Some row → is_exhausted policy row = true → stop_retrying fault now policy id db = Ok (u, db') →
  changes_row (change_id_value id) (λ row, if gap_deferred db (change_id_value id) row then row else rescheduled_row None now row) db db'.
Proof.
  intros Hrow Hex H. unfold stop_retrying in H.
  assert (qr_status row = lit "retry_wait") as Hst by (by apply andb_true_iff in Hex as [[?%bool_decide_eq_true _]%andb_true_iff _]).
  apply st_bind_Ok in H as (deferred & db1 & H1 & H). eapply gap_spec in H1 as (Hd & Ho & Hr); [|done|by right]. destruct deferred.
  - apply st_ret_Ok in H as [_ ->]. split; [done|]. intros i. destruct (decide (i = change_id_value id)) as [->|Hne]; [|by rewrite Hr]. rewrite Hr, Hrow. cbn [fmap option_fmap option_map]. by rewrite <-Hd.
  - apply st_bind_Ok in H as (i & ? & [->%sqlite_integer_Ok ->]%st_lift_Ok & H). apply update_changes in H as [Ho' Hr'].
    split; [congruence|]. intros i. rewrite Hr'. destruct (decide (i = change_id_value id)) as [->|Hne]; [|by rewrite Hr]. rewrite Hr, Hrow. cbn [fmap option_fmap option_map]. by rewrite Hex, <-Hd.
Qed.

(** A loop over distinct rows, each of which it changes as it was at the start. *)
Lemma iter_changes {A} (f : A → ST ScanError QueueDb unit) (key : A → Z) (g : Z → QueueRow → QueueRow) db0 l :
  NoDup (key <$> l) →
  (∀ x db u db', x ∈ l → others db = others db0 → db_rows db !! key x = db_rows db0 !! key x → f x db = Ok (u, db') →
     changes_row (key x) (g (key x)) db db') →
  ∀ db u db', others db = others db0 → (∀ i, i ∈ key <$> l → db_rows db !! i = db_rows db0 !! i) → st_iter f l db = Ok (u, db') →
  others db' = others db0 ∧ ∀ i, db_rows db' !! i = (λ row, if decide (i ∈ key <$> l) then g i row else row) <$> db_rows db !! i.
Proof.
  induction l as [|x l IH]; intros Hnd Hf db u db' Ho Hr H; cbn [st_iter] in H.
  { apply st_ret_Ok in H as [_ ->]. split; [done|]. intros i. by destruct (db_rows db !! i). }
  rewrite fmap_cons, NoDup_cons in Hnd. destruct Hnd as [Hni Hnd]. apply st_bind_Ok in H as (? & db1 & H1 & H).
  apply Hf in H1 as [Ho1 Hr1]; [|by left|done|apply Hr; by left]. apply IH in H as [Ho' Hr']; [|done|by intros; eapply Hf; [right|..]|congruence|].
  - split; [done|]. intros i. rewrite Hr', Hr1, fmap_cons. destruct (decide (i = key x)) as [->|Hne].
    + rewrite <-option_fmap_compose. apply option_fmap_ext. intros row. cbn. rewrite decide_False by done. by rewrite decide_True by left.
    + apply option_fmap_ext. intros row. destruct (decide (i ∈ key <$> l)); [rewrite decide_True by (by right)|rewrite decide_False by (by rewrite not_elem_of_cons)]; done.
  - intros i Hi. rewrite Hr1, decide_False by (by intros ->). apply Hr. by right.
Qed.

Lemma take_full {A} n (l : list A) x : x ∈ l → x ∉ take n l → length (take n l) = n.
Proof. intros Hin Hni. destruct (decide (length l ≤ n)%nat); [by rewrite take_ge in Hni|]. rewrite length_take. lia. Qed.

Lemma recover_exact root generation selection db u db' :
  recover_expired_leases fault tables root generation now policy selection db = Ok (u, db') →
  ∃ expired : list Z, NoDup expired ∧
    (∀ id, id ∈ expired → ∃ row, db_rows db !! id = Some row ∧ lapsed tables root (generation_value generation) now selection db id row) ∧
    (∀ id row, db_rows db !! id = Some row → lapsed tables root (generation_value generation) now selection db id row → id ∉ expired →
       zlen expired = MAX_UNRESOLVED_CHANGES) ∧
    others db' = others db ∧
    ∀ id, db_rows db' !! id = (λ row, if decide (id ∈ expired) then recovered_row now policy db id row else row) <$> db_rows db !! id.
Proof.
  unfold recover_expired_leases. intros H. apply st_bind_Ok in H as (g & ? & [->%sqlite_integer_Ok ->]%st_lift_Ok & H).
  apply st_bind_Ok in H as (rows & db1 & [= Hrows ->]%statement_Ok & H). set (p := λ id row, _) in Hrows.
  assert (∀ id row, p id row = true ↔ lapsed tables root (generation_value generation) now selection db id row) as Hp.
  { intros id row. unfold p, lapsed, is_expired, is_leased.
    rewrite !andb_true_iff, !bool_decide_eq_true, Z.eqb_eq, (selection_spec tables _ (λ _ authority, ra_run_id authority ≠ []))
      by (intros; apply nonempty_spec).
    assert (match qr_lease_expires_unix_ms row with Some expires => expires <=? now | None => false end = true ↔
      ∃ expires, qr_lease_expires_unix_ms row = Some expires ∧ expires ≤ now) as ->.
    { destruct (qr_lease_expires_unix_ms row); [rewrite Z.leb_le|]; naive_solver. }
    change (selected tables ?c selection (bump db) id row) with (selected tables c selection db id row). tauto. }
  assert (∀ id row, (id, row) ∈ sort_by expiry_order (select p (bump db)) ↔ db_rows db !! id = Some row ∧ p id row = true) as Hl
    by (intros; by rewrite sort_by_perm, elem_of_select).
  assert (NoDup (fst <$> rows)) as Hnd.
  { rewrite Hrows. eapply sublist_NoDup; [|apply fmap_sublist, sublist_take]. rewrite sort_by_perm. apply NoDup_select. }
  assert (∀ id row, (id, row) ∈ rows → db_rows db !! id = Some row ∧ p id row = true) as Hin.
  { intros id row Hrow. apply Hl. rewrite Hrows in Hrow. by eapply elem_of_sublist; [|apply sublist_take]. }
  exists (fst <$> rows). split; [done|]. split.
  { intros id ([id' row] & -> & Hr)%list_elem_of_fmap. exists row. rewrite <-Hp. by apply Hin. }
  split.
  { intros id row Hrow Hlap Hni. unfold zlen. rewrite length_fmap. rewrite Hrows.
    rewrite (take_full _ _ (id, row)); [done|by apply Hl; rewrite Hp|]. rewrite <-Hrows. contradict Hni. by apply (list_elem_of_fmap_2 fst) in Hni. }
  eapply (iter_changes _ fst (recovered_row now policy db) db) in H; [|done| |done|done]; [exact H|].
  intros [id row] db0 v db2 [Hr Hpr]%Hin Ho0 Hr0 H0. cbn [fst] in *. apply recover_expired_changes in H0.
  - destruct H0 as [Ho' Hr']. split; [done|]. intros i. rewrite Hr'. destruct (decide (i = id)) as [->|]; [|done].
    apply option_fmap_ext. intros r. unfold recovered_row. by rewrite (gap_deferred_others db0 db).
  - congruence.
  - unfold p in Hpr. rewrite !andb_true_iff in Hpr. apply Hpr.
Qed.

Lemma ids_of_rows (rows : list (Z * QueueRow)) : ∀ ids,
  result_map_list (λ entry, change_id_from_sqlite entry.1) rows = Ok ids → change_id_value <$> ids = fst <$> rows.
Proof.
  induction rows as [|e rows IH]; intros ids H; cbn [result_map_list] in H; [by simplify_eq|].
  apply result_bind_Ok in H as (id & Hid%change_id_Ok & H). apply result_bind_Ok in H as (rest & Hrest & H).
  injection H as <-. by rewrite !fmap_cons, Hid, (IH rest).
Qed.

Lemma enforce_exact root generation db u db' :
  enforce_retry_attempt_limit fault root generation now policy db = Ok (u, db') →
  others db' = others db ∧
  ∀ id, db_rows db' !! id = stopped_row root (generation_value generation) now policy db id <$> db_rows db !! id.
Proof.
  unfold enforce_retry_attempt_limit. intros H. apply st_bind_Ok in H as (g & ? & [->%sqlite_integer_Ok ->]%st_lift_Ok & H).
  apply st_bind_Ok in H as (rows & db1 & [= Hrows ->]%statement_Ok & H). set (p := λ _ row, _) in Hrows.
  apply st_bind_Ok in H as (ids & ? & [Hids%ids_of_rows ->]%st_lift_Ok & H).
  assert (∀ id, id ∈ change_id_value <$> ids ↔ ∃ row, db_rows db !! id = Some row ∧ p id row = true) as Hin.
  { intros id. rewrite Hids, Hrows, list_elem_of_fmap. split.
    - intros ([id' row] & -> & Hrow%elem_of_select). by exists row.
    - intros (row & Hrow). exists (id, row). split; [done|]. by apply elem_of_select. }
  eapply (iter_changes _ change_id_value (λ i row, if gap_deferred db i row then row else rescheduled_row None now row) db) in H; [| | |done|done].
  - destruct H as [Ho Hr]. split; [done|]. intros id. rewrite Hr. cbn [bump db_rows]. destruct (db_rows db !! id) as [row|] eqn:E; [|done].
    cbn [fmap option_fmap option_map]. f_equal. unfold stopped_row. destruct (decide (id ∈ change_id_value <$> ids)) as [Hid|Hid].
    + apply Hin in Hid as (row' & Hrow & Hp). unfold p in Hp. simplify_eq. rewrite Hp. by destruct (gap_deferred db id row).
    + destruct (_ && _) eqn:Hp; [|done]. destruct Hid. apply Hin. exists row. split; [done|]. by apply andb_true_iff in Hp as [? _].
  - rewrite Hids, Hrows. apply NoDup_select.
  - intros id db0 v db2 Hid Ho0 Hr0 H0. apply (list_elem_of_fmap_2 change_id_value) in Hid as (row & Hrow & Hp)%Hin.
    eapply stop_retrying_changes in H0; [|by rewrite Hr0|unfold p in Hp; by apply andb_true_iff in Hp as [_ ?]].
    destruct H0 as [Ho' Hr']. split; [done|]. intros i. rewrite Hr'. destruct (decide (i = change_id_value id)) as [->|]; [|done].
    apply option_fmap_ext. intros r. by rewrite (gap_deferred_others db0 db).
Qed.
End Reopen.

(** ** Taking leases *)

Section Grants.
Context (fault : nat → option ScanError) (no_rows : ScanError).

Lemma lease_one_exact now expires id db row leased db' :
  db_rows db !! id = Some row → is_waiting (qr_status row) = true →
  lease_one fault no_rows now expires id db = Ok (leased, db') →
  db_rows db' = <[id := leased_row now expires row]> (db_rows db) ∧
  ∃ change, leased = Some {| llc_change := change; llc_lease_generation := dlc_lease_generation change;
                             llc_lease_expires_unix_ms := expires |} ∧ change_id_value (dlc_id change) = id.
Proof.
  intros Hrow Hw H. unfold lease_one in H. apply st_bind_Ok in H as (updated & db1 & Hst%statement_Ok & H).
  unfold update_row in Hst. cbn [bump db_rows] in Hst. rewrite Hrow, Hw in Hst. injection Hst as -> ->. cbn [Z.eqb] in H.
  apply st_bind_Ok in H as (change & db2 & Hload & [-> ->]%st_ret_Ok). destruct (load_change_same _ _ _ _ _ _ Hload) as [-> _].
  apply load_change_lease in Hload as (? & _ & Hid & _). split; [done|]. by exists change.
Qed.

Lemma lease_each_exact now expires ids : ∀ db leased db',
  NoDup ids → (∀ id, id ∈ ids → ∃ row, db_rows db !! id = Some row ∧ is_waiting (qr_status row) = true) →
  lease_each fault no_rows now expires ids db = Ok (leased, db') →
  (λ l, change_id_value (dlc_id (llc_change l))) <$> leased = ids ∧
  Forall (λ l, llc_lease_expires_unix_ms l = expires) leased ∧
  ∀ id, db_rows db' !! id = if decide (id ∈ ids) then leased_row now expires <$> db_rows db !! id else db_rows db !! id.
Proof.
  induction ids as [|id ids IH]; intros db leased db' Hnd Hall H; cbn [lease_each] in H.
  { apply st_ret_Ok in H as [-> ->]. split_and!; [done|done|]. intros id. by rewrite decide_False by apply not_elem_of_nil. }
  apply NoDup_cons in Hnd as [Hni Hnd]. destruct (Hall id) as (row & Hrow & Hw); [by left|].
  apply st_bind_Ok in H as (one & db1 & H1 & H). apply st_bind_Ok in H as (rest & db2 & H2 & [-> ->]%st_ret_Ok).
  destruct (lease_one_exact _ _ _ _ _ _ _ Hrow Hw H1) as (Hrows & change & -> & Hid).
  destruct (IH db1 rest db2 Hnd) as (Hids & Hexp & Hget); [|done|].
  { intros id0 Hin. rewrite Hrows, lookup_insert_ne by congruence. apply Hall. by right. }
  split_and!; [cbn; by rewrite Hid, Hids|by constructor|]. intros id0. rewrite Hget, Hrows.
  destruct (decide (id0 = id)) as [->|Hne].
  - rewrite decide_False, decide_True by (done || by left). by rewrite lookup_insert_eq, Hrow.
  - rewrite lookup_insert_ne by done. destruct (decide (id0 ∈ ids)) as [Hin|Hin].
    + by rewrite decide_True by (by right).
    + by rewrite decide_False by (by rewrite not_elem_of_cons).
Qed.

Lemma current_exact tables root generation db current db' :
  root_generation_is_current fault tables root generation db = Ok (current, db') →
  db' = bump db ∧ (current = true ↔ rt_root_state tables !! root = Some (generation_value generation, true)).
Proof.
  unfold root_generation_is_current. intros H. apply st_bind_Ok in H as (g & ? & [->%sqlite_integer_Ok ->]%st_lift_Ok & H).
  apply statement_Ok in H. injection H as -> ->. split; [done|].
  destruct (rt_root_state tables !! root) as [[stored active]|]; [|done]. rewrite andb_true_iff, Z.eqb_eq. naive_solver.
Qed.

Lemma lease_exact tables root generation now policy selection db leased db' :
  lease_matching_transaction fault no_rows tables root generation now policy selection db = Ok (leased, db') →
  let current := Some (generation_value generation, true) in
  let expires := saturating_add_i64 now (Z.min I64_MAX (qp_lease_duration_millis policy)) in
  (rt_root_state tables !! root ≠ current → leased = [] ∧ same_queue db db') ∧
  (rt_root_state tables !! root = current → ∃ db1 taken,
     reopened tables root (generation_value generation) now policy selection db db1 ∧
     takes (due tables root (generation_value generation) now policy selection db1)
       (Z.to_nat (lease_limit selection policy)) db1 taken ∧
     (λ l, change_id_value (dlc_id (llc_change l))) <$> leased = fst <$> taken ∧
     Forall (λ l, llc_lease_expires_unix_ms l = expires) leased ∧
     ∀ id, db_rows db' !! id =
       if decide (id ∈ fst <$> taken) then leased_row now expires <$> db_rows db1 !! id else db_rows db1 !! id).
Proof.
  cbn zeta. intros H. unfold lease_matching_transaction in H. apply st_bind_Ok in H as (current & db0 & [-> Hc]%current_exact & H).
  destruct current; cbn [negb] in H; [|apply st_ret_Ok in H as [-> ->]; split; [done|intros Hr; by apply Hc in Hr]].
  split; [intros Hr; destruct Hr; by apply Hc|intros _].
  apply st_bind_Ok in H as (? & db2 & (expired & Hnd & Hlapsed & Hmax & Ho2 & Hr2)%recover_exact & H).
  apply st_bind_Ok in H as (? & db3 & [Ho3 Hr3]%enforce_exact & H). apply st_bind_Ok in H as (affinity & db4 & H4 & H).
  apply st_bind_Ok in H as (defer_unlineaged & db5 & [Hdefer ->]%st_lift_Ok & H).
  apply st_bind_Ok in H as (g & db6 & [->%sqlite_integer_Ok ->]%st_lift_Ok & H).
  assert (db4 = db3 ∧ match selection with RecoveryAuthoritative => rt_recovery_affinity tables = Ok affinity | _ => affinity = None end) as [-> Haff]
    by (destruct selection; first [by apply st_lift_Ok in H4 as [? ->]|by apply st_ret_Ok in H4 as [-> ->]]).
  apply st_bind_Ok in H as (ids & db7 & [= Hids ->]%statement_Ok & H).
  rewrite <-fmap_take in Hids. set (taken := take _ _) in Hids.
  assert (takes (due tables root (generation_value generation) now policy selection (bump db3))
    (Z.to_nat (lease_limit selection policy)) (bump db3) taken) as Htakes.
  { apply query_takes; [intros; by apply leasable_spec|]. intros id row Hdue. destruct (du_time _ _ _ _ _ _ _ _ _ Hdue) as (t & ? & _). by exists t. }
  exists (bump db3), taken. split; [|split; [done|]].
  - exists expired. split_and!; [done|exact Hlapsed|exact Hmax|exact (eq_trans Ho3 Ho2)|]. intros id. cbn [bump db_rows]. rewrite Hr3, Hr2.
    apply option_fmap_ext. intros row. unfold stopped_row. by rewrite (gap_deferred_others db2 db).
  - subst ids. apply lease_each_exact in H; [exact H| |].
    + eapply sublist_NoDup; [|apply fmap_sublist, sublist_take]. rewrite sort_by_perm. apply NoDup_select.
    + intros id ([id' row] & -> & Hin)%list_elem_of_fmap. exists row.
      pose proof (tk_due _ _ _ _ Htakes) as Hall. rewrite Forall_forall in Hall. destruct (Hall _ Hin) as [Hrow Hdue]. split; [exact Hrow|].
      destruct (du_time _ _ _ _ _ _ _ _ _ Hdue) as (t & [Hs|? Hs _] & _); unfold is_waiting; apply bool_decide_eq_true; [by left|by right].
Qed.
End Grants.

(** C17: A lease hands out exactly the changes that are due. When the generation of the root is not its current one, nothing
    is leased and the queue stays as it is. Otherwise the expired leases of the selection are recovered first, at most 4096
    of them, and the retries of the root without attempts left are stopped ([reopened] says what becomes of every row); then
    the leased changes are the due ones, of the root, the generation and the selection, waiting since a time that has come,
    with attempts left, and not held back by a child, an affinity or a first import. They are taken soonest first, by
    their time, then by the first observation, then by id, up to the limit of the selection: a due change that is not leased
    comes after all that are, and the batch is full. Exactly the leased rows become leased, until the time that each lease
    tells; every other row stays. *)
Theorem lease_hands_out_due fault no_rows tables root generation now policy selection db leased db' :
  lease_matching_transaction fault no_rows tables root generation now policy selection db = Ok (leased, db') →
  let current := Some (generation_value generation, true) in
  let expires := saturating_add_i64 now (Z.min I64_MAX (qp_lease_duration_millis policy)) in
  (rt_root_state tables !! root ≠ current → leased = [] ∧ same_queue db db') ∧
  (rt_root_state tables !! root = current → ∃ db1 taken,
     reopened tables root (generation_value generation) now policy selection db db1 ∧
     takes (due tables root (generation_value generation) now policy selection db1)
       (Z.to_nat (lease_limit selection policy)) db1 taken ∧
     (λ l, change_id_value (dlc_id (llc_change l))) <$> leased = fst <$> taken ∧
     Forall (λ l, llc_lease_expires_unix_ms l = expires) leased ∧
     ∀ id, db_rows db' !! id =
       if decide (id ∈ fst <$> taken) then leased_row now expires <$> db_rows db1 !! id else db_rows db1 !! id).
Proof. apply lease_exact. Qed.

Lemma lease_hands_out_due_witness :
  ∃ leased db', lease_matching_transaction no_fault row_missing live_tables (lit "root") {| generation_value := 1 |} 1000
      LibraryChangeQueuePolicy_default LeasePath dirty_queue = Ok (leased, db') ∧ length leased = 1%nat ∧
    ∃ db1 taken, reopened live_tables (lit "root") 1 1000 LibraryChangeQueuePolicy_default LeasePath dirty_queue db1 ∧
      takes (due live_tables (lit "root") 1 1000 LibraryChangeQueuePolicy_default LeasePath db1) 64 db1 taken ∧
      (λ l, change_id_value (dlc_id (llc_change l))) <$> leased = fst <$> taken.
Proof.
  destruct (lease_matching_transaction no_fault row_missing live_tables (lit "root") {| generation_value := 1 |} 1000
    LibraryChangeQueuePolicy_default LeasePath dirty_queue) as [[leased db']|e] eqn:E; [|by vm_compute in E].
  exists leased, db'. split; [reflexivity|]. split.
  - vm_compute in E. injection E as <- _. reflexivity.
  - destruct (lease_hands_out_due no_fault row_missing live_tables (lit "root") {| generation_value := 1 |} 1000
      LibraryChangeQueuePolicy_default LeasePath dirty_queue leased db' E) as [_ H].
    destruct H as (db1 & taken & Hr & Ht & Hl & _); [reflexivity|].
    exists db1, taken. split; [exact Hr|]. split; [exact Ht|exact Hl].
Defined.

(** ** Retries *)

(** A failed change is tried again after a delay that doubles with each attempt. Under a valid policy, the [n]th
    attempt is followed by the initial delay times two to the power [n - 1], cut at the maximum delay, and no arithmetic
    saturates on the way; after the last attempt there is no retry. *)
Theorem retry_delay_doubles policy failed attempt :
  LibraryChangeQueuePolicy_is_valid policy = true → 1 ≤ attempt → I64_MIN ≤ failed ≤ I64_MAX - MAX_RETRY_DELAY_MILLIS →
  next_retry_deadline failed attempt policy =
    (if qp_max_attempts policy <=? attempt then None
     else Some (failed + Z.min (qp_retry_initial_delay_millis policy * 2 ^ (attempt - 1)) (qp_retry_maximum_delay_millis policy))) ∧
  ∀ deadline, next_retry_deadline failed attempt policy = Some deadline →
    failed + qp_retry_initial_delay_millis policy ≤ deadline ≤ failed + qp_retry_maximum_delay_millis policy.
Proof.
  intros Hvalid Hattempt Hfailed. unfold LibraryChangeQueuePolicy_is_valid in Hvalid.
  rewrite !andb_true_iff, !Z.leb_le, !Z.ltb_lt in Hvalid.
  destruct Hvalid as [[[[[[[[_ Hmax] Hinit] Hle] Hcap] _] _] _] _].
  assert (qp_max_attempts policy ≤ 32) as Hmax' by (exact Hmax).
  unfold next_retry_deadline. destruct (Z.leb_spec (qp_max_attempts policy) attempt) as [|Hlt]; [done|].
  assert (Z.min (saturating_sub attempt 1) 63 = attempt - 1) as -> by (unfold saturating_sub; lia).
  rewrite Z.shiftl_1_l. pose proof (Z.pow_pos_nonneg 2 (attempt - 1)) as Hpos.
  assert (2 ^ (attempt - 1) ≤ 2 ^ 31) as Hpow by (apply Z.pow_le_mono_r; lia).
  unfold MAX_RETRY_DELAY_MILLIS, saturating_mul_u64, saturating_add_i64, U64_MAX, I64_MAX, I64_MIN in *.
  set (initial := qp_retry_initial_delay_millis policy) in *. set (power := 2 ^ (attempt - 1)) in *.
  assert (initial ≤ initial * power ≤ 3600000 * 2 ^ 31) as Hdelay by nia.
  split; [f_equal; lia|]. intros deadline [= <-]. lia.
Qed.

Lemma retry_delay_doubles_witness :
  next_retry_deadline 1000 3 LibraryChangeQueuePolicy_default = Some 5000 ∧
  ∀ deadline, next_retry_deadline 1000 3 LibraryChangeQueuePolicy_default = Some deadline → 2000 ≤ deadline ≤ 301000.
Proof.
  split; [vm_compute; reflexivity|].
  apply (retry_delay_doubles LibraryChangeQueuePolicy_default 1000 3); [reflexivity|lia|].
  unfold I64_MIN, I64_MAX, MAX_RETRY_DELAY_MILLIS. lia.
Defined.
