(* ===== verification/SimilarImages.v ===== *)
(** * Similar images

    Models [domain/similar_images.rs] with its [matching.rs] and [analysis.rs], and the part of
    [adapters/sqlite_catalog/similar_images.rs] that publishes perceptual hashes, groups them and keeps the runs:
    [evidence.rs], [matching.rs], [matching/cursor.rs], [matching/postings.rs] and [runs.rs]; then the matching
    loop of [application/similar_images/execution.rs] and its [matching.rs].

    The tables are finite maps, text columns hold text.  A transaction is a program over the number of
    effects so far and the tables; [fault] gives the error of a statement that fails, [cancelled] the value the
    flag has when it is loaded and [clock] the time.  A statement that violates a key, a [UNIQUE] or a
    [REFERENCES] constraint fails with [constraint_failed], one that finds no row with [no_rows].  Whether the
    source of a fingerprint is still current ([sources::verify]) is decided by other tables of the catalog and is
    a parameter, and so is the digest BLAKE3. *)

From S2P Require Import Prelude Text Numerals Order JournalText QueueStore.

(** ** Perceptual hashes *)

Definition SIMILARITY_SCHEME : str := lit "ame-perceptual-gradient64-256-v1".
Definition SIMILARITY_MAX_DISTANCE : Z := 10.
Definition MAX_FINGERPRINT_SOURCE_BYTES : Z := 256 * 1024 * 1024.
Definition EXACT_FINGERPRINT_SCHEME : str := lit "blake3-256-full-v1".
Definition EXACT_FINGERPRINT_ENGINE : str := lit "blake3".
Definition EXACT_FINGERPRINT_VERSION : str := lit "1.8.6".
Definition EXACT_FINGERPRINT_PARAMETERS : str := lit "full-file;output=256".
Definition SIMILARITY_PARAMETERS : str :=
  lit "normalization=ame-visual-sample-v1;gradient=8x8+16x16;confirmation=44;resample=lanczos3;transforms=d4;decoder=image-0.25.10".

(** [[u16; 4]] and [[u8; 32]] *)
Record SimilarVariant := {
  sv_candidate : list Z;
  sv_confirmation : bytes;
}.

#[export] Instance SimilarVariant_eq_dec : EqDecision SimilarVariant.
Proof. solve_decision. Defined.

(** [z.count_ones()] of a value of width [w]. *)
Definition count_ones (w : nat) (z : Z) : Z :=
  zlen (filter (λ i : nat, Z.testbit z (Z.of_nat i) = true) (seq 0 w)).

(** The bits in which two sequences of words of width [w] differ. *)
Definition differing (w : nat) (left right : list Z) : Z :=
  foldr Z.add 0 (zip_with (λ l r, count_ones w (Z.lxor l r)) left right).

Definition hash_distance (left right : list Z) : Z := differing 16 left right.

Definition confirmed_distance (left right : SimilarVariant) : option Z :=
  let candidate := hash_distance (sv_candidate left) (sv_candidate right) in
  if SIMILARITY_MAX_DISTANCE <? candidate then None
  else
    let confirmation := differing 8 (sv_confirmation left) (sv_confirmation right) in
    if confirmation <=? 44 then Some candidate else None.

Definition band_neighbors (word : Z) : list Z :=
  sort_by Z.compare
    (word :: (seq 0 16 ≫= λ first,
       Z.lxor word (Z.shiftl 1 (Z.of_nat first)) ::
       ((λ second, Z.lxor (Z.lxor word (Z.shiftl 1 (Z.of_nat first))) (Z.shiftl 1 (Z.of_nat second))) <$>
          seq (S first) (15 - first)))).

Inductive MatchPhase := References | Peer | Members | MatchComplete.

#[export] Instance MatchPhase_eq_dec : EqDecision MatchPhase.
Proof. solve_decision. Defined.

Definition exhausted (self : MatchPhase) (found_reference : bool) : MatchPhase :=
  match self with
  | References => if negb found_reference then Peer else MatchComplete
  | _ => MatchComplete
  end.

(** ** Contents and evidence *)

Record SimilarContentKey := {
  sk_scheme : str;
  sk_digest : str;
  sk_byte_length : Z;
}.

#[export] Instance SimilarContentKey_eq_dec : EqDecision SimilarContentKey.
Proof. solve_decision. Defined.

Definition is_ascii_alphanumeric (c : Z) : bool := in_range 48 57 c || in_range 65 90 c || in_range 97 122 c.

Definition valid_scheme (value : str) : bool :=
  negb (is_empty value) && (str_len value <=? 128)
  && forallb (λ b, is_ascii_alphanumeric b || bool_decide (b ∈ [45; 95; 46])) (as_bytes value).

Definition invalid_identity : ScanError :=
  ScanError_new "similarity_identity_invalid" "Similarity requires canonical versioned content identities".

Definition SimilarContentKey_validate (self : SimilarContentKey) : ScanResult unit :=
  fail_if
    (negb (valid_scheme (sk_scheme self)) || negb (str_len (sk_digest self) =? 64)
     || negb (forallb (λ b, in_range 48 57 b || in_range 97 102 b) (as_bytes (sk_digest self)))
     || (sk_byte_length self =? 0) || (MAX_FINGERPRINT_SOURCE_BYTES <? sk_byte_length self))
    invalid_identity.

Inductive SimilarEvidence :=
| Ready (variants : list SimilarVariant)
| InsufficientStructure
| DecodeFailed (issue_code : str).

(** The elements before each index: [variants.iter().enumerate().all(|(index, value)| ..)]. *)
Fixpoint distinct_from (seen variants : list SimilarVariant) : bool :=
  match variants with
  | [] => true
  | value :: variants => negb (bool_decide (value ∈ seen)) && distinct_from (seen ++ [value]) variants
  end.

Definition SimilarEvidence_validate (self : SimilarEvidence) : ScanResult unit :=
  fail_if
    (negb match self with
          | Ready variants =>
            in_range 1 8 (zlen variants)
            && existsb (λ value, negb (bool_decide (sv_candidate value = replicate 4 0))
                                 && negb (bool_decide (sv_candidate value = replicate 4 (2 ^ 16 - 1)))) variants
            && distinct_from [] variants
          | InsufficientStructure => true
          | DecodeFailed issue_code => negb (is_empty issue_code) && (str_len issue_code <=? 128)
          end)
    (ScanError_new "similarity_evidence_invalid"
       "Similarity evidence must contain bounded distinct variants or a terminal disposition").

(** ** Tables *)

Record EvidenceRow := {
  ev_run_id : str;
  ev_scheme : str;
  ev_content : SimilarContentKey;
  ev_disposition : str;
  ev_issue_code : option str;
}.

(** The columns [word0] .. [word3] and [confirmation] of a stored hash. *)
Record HashRow := {
  hr_words : list Z;
  hr_confirmation : option bytes;
}.

Record GroupRow := {
  gr_scheme : str;
  gr_reference : SimilarContentKey;
}.

#[export] Instance GroupRow_eq_dec : EqDecision GroupRow.
Proof. solve_decision. Defined.

Record MemberRow := {
  mb_distance : Z;
  mb_run_id : str;
}.

Record WorkRow := {
  wr_phase : str;
  wr_reference_revision : Z;
  wr_query_variant : Z;
  wr_band : Z;
  wr_neighbor : Z;
  wr_after_evidence_id : Z;
  wr_after_group_id : str;
  wr_after_variant : Z;
  wr_found_reference : bool;
}.

Record RunRow := {
  rn_source_run_id : str;
  rn_scheme : str;
  rn_engine_id : str;
  rn_engine_version : str;
  rn_parameters : str;
  rn_started_unix_ms : Z;
}.

Record OutcomeRow := {
  oc_phase : str;
  oc_checked_sources : Z;
  oc_analyzed_contents : Z;
  oc_skipped_sources : Z;
  oc_issue_code : option str;
  oc_finished_unix_ms : Z;
}.

Record ExactRunRow := {
  er_scheme : str;
  er_engine_id : str;
  er_engine_version : str;
  er_parameters : str;
  er_started_unix_ms : Z;
}.

Record ExactOutcomeRow := {
  eo_phase : str;
  eo_checked_files : Z;
  eo_fingerprinted_files : Z;
  eo_skipped_files : Z;
  eo_bytes_read : Z;
  eo_issue_code : option str;
  eo_finished_unix_ms : Z;
}.

(** The tables of runs, other than [similarity_runs]. *)
Record RunLedger := {
  lg_outcomes : gmap str OutcomeRow;
  lg_exact_runs : gmap str ExactRunRow;
  lg_exact_outcomes : gmap str ExactOutcomeRow;
}.

Record SimilarDb := {
  sd_evidence : gmap Z EvidenceRow;
  sd_variants : gmap (Z * Z) HashRow;
  sd_groups : gmap str GroupRow;
  sd_references : gmap str Z;
  sd_reference_variants : gmap (str * Z) HashRow;
  sd_members : gmap (str * Z) MemberRow;
  sd_work : gmap Z WorkRow;
  sd_runs : gmap str RunRow;
  sd_active : option (str * Z);  (** [active_run_id] and [lease_until_unix_ms] of [similarity_dispatch] *)
  sd_reference_revision : Z;  (** [reference_revision] of [similarity_dispatch] *)
  sd_ledger : RunLedger;
}.

Definition set_evidence rows db : SimilarDb :=
  {| sd_evidence := rows; sd_variants := sd_variants db; sd_groups := sd_groups db; sd_references := sd_references db;
     sd_reference_variants := sd_reference_variants db; sd_members := sd_members db; sd_work := sd_work db;
     sd_runs := sd_runs db; sd_active := sd_active db; sd_reference_revision := sd_reference_revision db;
     sd_ledger := sd_ledger db |}.
Definition set_variants rows db : SimilarDb :=
  {| sd_evidence := sd_evidence db; sd_variants := rows; sd_groups := sd_groups db; sd_references := sd_references db;
     sd_reference_variants := sd_reference_variants db; sd_members := sd_members db; sd_work := sd_work db;
     sd_runs := sd_runs db; sd_active := sd_active db; sd_reference_revision := sd_reference_revision db;
     sd_ledger := sd_ledger db |}.
Definition set_groups rows db : SimilarDb :=
  {| sd_evidence := sd_evidence db; sd_variants := sd_variants db; sd_groups := rows; sd_references := sd_references db;
     sd_reference_variants := sd_reference_variants db; sd_members := sd_members db; sd_work := sd_work db;
     sd_runs := sd_runs db; sd_active := sd_active db; sd_reference_revision := sd_reference_revision db;
     sd_ledger := sd_ledger db |}.
Definition set_references references variants revision db : SimilarDb :=
  {| sd_evidence := sd_evidence db; sd_variants := sd_variants db; sd_groups := sd_groups db; sd_references := references;
     sd_reference_variants := variants; sd_members := sd_members db; sd_work := sd_work db;
     sd_runs := sd_runs db; sd_active := sd_active db; sd_reference_revision := revision;
     sd_ledger := sd_ledger db |}.
Definition set_members rows db : SimilarDb :=
  {| sd_evidence := sd_evidence db; sd_variants := sd_variants db; sd_groups := sd_groups db;
     sd_references := sd_references db; sd_reference_variants := sd_reference_variants db; sd_members := rows;
     sd_work := sd_work db; sd_runs := sd_runs db; sd_active := sd_active db;
     sd_reference_revision := sd_reference_revision db;
     sd_ledger := sd_ledger db |}.
Definition set_work rows db : SimilarDb :=
  {| sd_evidence := sd_evidence db; sd_variants := sd_variants db; sd_groups := sd_groups db;
     sd_references := sd_references db; sd_reference_variants := sd_reference_variants db;
     sd_members := sd_members db; sd_work := rows; sd_runs := sd_runs db; sd_active := sd_active db;
     sd_reference_revision := sd_reference_revision db;
     sd_ledger := sd_ledger db |}.
Definition set_dispatch runs active ledger db : SimilarDb :=
  {| sd_evidence := sd_evidence db; sd_variants := sd_variants db; sd_groups := sd_groups db;
     sd_references := sd_references db; sd_reference_variants := sd_reference_variants db;
     sd_members := sd_members db; sd_work := sd_work db; sd_runs := runs; sd_active := active;
     sd_reference_revision := sd_reference_revision db;
     sd_ledger := ledger |}.

(** ** The cursor of a match *)

Record MatchWork := {
  mw_evidence_id : Z;
  mw_phase : MatchPhase;
  mw_reference_revision : Z;
  mw_query_variant : Z;
  mw_band : Z;
  mw_neighbor : Z;
  mw_after_evidence_id : Z;
  mw_after_group_id : str;
  mw_after_variant : Z;
  mw_found_reference : bool;
}.

Definition reset_posting (self : MatchWork) : MatchWork :=
  {| mw_evidence_id := mw_evidence_id self; mw_phase := mw_phase self;
     mw_reference_revision := mw_reference_revision self; mw_query_variant := mw_query_variant self;
     mw_band := mw_band self; mw_neighbor := 0; mw_after_evidence_id := 0; mw_after_group_id := [];
     mw_after_variant := -1; mw_found_reference := mw_found_reference self |}.

Definition at_band (query_variant band : Z) (self : MatchWork) : MatchWork :=
  {| mw_evidence_id := mw_evidence_id self; mw_phase := mw_phase self;
     mw_reference_revision := mw_reference_revision self; mw_query_variant := query_variant; mw_band := band;
     mw_neighbor := mw_neighbor self; mw_after_evidence_id := mw_after_evidence_id self;
     mw_after_group_id := mw_after_group_id self; mw_after_variant := mw_after_variant self;
     mw_found_reference := mw_found_reference self |}.

Definition in_phase (phase : MatchPhase) (self : MatchWork) : MatchWork :=
  {| mw_evidence_id := mw_evidence_id self; mw_phase := phase;
     mw_reference_revision := mw_reference_revision self; mw_query_variant := mw_query_variant self;
     mw_band := mw_band self; mw_neighbor := mw_neighbor self; mw_after_evidence_id := mw_after_evidence_id self;
     mw_after_group_id := mw_after_group_id self; mw_after_variant := mw_after_variant self;
     mw_found_reference := mw_found_reference self |}.

(** [work.reference_revision = ..; work.found_reference = ..] *)
Definition with_reference (revision : Z) (found : bool) (self : MatchWork) : MatchWork :=
  {| mw_evidence_id := mw_evidence_id self; mw_phase := mw_phase self;
     mw_reference_revision := revision; mw_query_variant := mw_query_variant self;
     mw_band := mw_band self; mw_neighbor := mw_neighbor self; mw_after_evidence_id := mw_after_evidence_id self;
     mw_after_group_id := mw_after_group_id self; mw_after_variant := mw_after_variant self;
     mw_found_reference := found |}.

Definition restart (phase : MatchPhase) (self : MatchWork) : MatchWork :=
  reset_posting (at_band 0 0 (in_phase phase self)).

(** The returned flag is [true] while there is another band to scan. *)
Definition next_band (variants : Z) (self : MatchWork) : bool * MatchWork :=
  let self := reset_posting self in
  if mw_band self <? 3 then (true, at_band (mw_query_variant self) (mw_band self + 1) self)
  else
    let self := at_band (mw_query_variant self) 0 self in
    if mw_query_variant self + 1 <? variants then (true, at_band (mw_query_variant self + 1) (mw_band self) self)
    else (false, self).

Definition WINDOW_SIZE : nat := 128.

(** After a window of [rows] rows: the next window of the band, the next band, or the next phase. *)
Definition finish_window (rows : nat) (variants : Z) (work : MatchWork) : MatchWork :=
  if (rows <? WINDOW_SIZE)%nat then
    let (more, work) := next_band variants work in
    if more : bool then work else restart (exhausted (mw_phase work) (mw_found_reference work)) work
  else work.

Definition phase_to_db (phase : MatchPhase) : str :=
  match phase with
  | References => lit "references"
  | Peer => lit "peer"
  | Members => lit "members"
  | MatchComplete => lit "complete"
  end.

Record Posting := {
  po_evidence_id : Z;
  po_group_id : str;
  po_variant : Z;
  po_hash : SimilarVariant;
}.

#[export] Instance Posting_eq_dec : EqDecision Posting.
Proof. solve_decision. Defined.

(** What a posting is ordered by: its word in the band, its identity and its variant. *)
Record Position := {
  ps_word : Z;
  ps_evidence_id : Z;
  ps_group_id : str;
  ps_variant : Z;
}.

(** [ORDER BY {word}, {identity}, variant], where the identity is the group of a reference, and the evidence of
    any other hash. *)
Definition position_compare (references : bool) (p q : Position) : comparison :=
  then_with (ps_word p ?= ps_word q)
    (then_with
       (if references then lex_compare (ps_group_id p) (ps_group_id q) else ps_evidence_id p ?= ps_evidence_id q)
       (ps_variant p ?= ps_variant q)).

(** [row.hash.candidate[band]]; the four bands exist. *)
Definition band_word (band : Z) (hash : SimilarVariant) : Z := nth (Z.to_nat band) (sv_candidate hash) 0.

Definition posting_position (band : Z) (p : Posting) : Position :=
  {| ps_word := band_word band (po_hash p); ps_evidence_id := po_evidence_id p; ps_group_id := po_group_id p;
     ps_variant := po_variant p |}.

(** [read_hash] of a row with [confirmation IS NOT NULL]. *)
Definition read_hash (row : HashRow) : option SimilarVariant :=
  (λ confirmation, {| sv_candidate := hr_words row; sv_confirmation := confirmation |}) <$> hr_confirmation row.

Definition evidence_postings (db : SimilarDb) : list Posting :=
  omap (λ entry : Z * Z * HashRow,
    (λ hash, {| po_evidence_id := entry.1.1; po_group_id := []; po_variant := entry.1.2; po_hash := hash |})
      <$> read_hash entry.2) (map_to_list (sd_variants db)).

Definition reference_postings (db : SimilarDb) : list Posting :=
  omap (λ entry : str * Z * HashRow,
    (λ hash, {| po_evidence_id := 0; po_group_id := entry.1.1; po_variant := entry.1.2; po_hash := hash |})
      <$> read_hash entry.2) (map_to_list (sd_reference_variants db)).

Definition similarity_cursor_invalid : ScanError :=
  ScanError_new "similarity_cursor_invalid" "Similarity matching requires a valid bounded continuation".

(** [slice.binary_search(&x)] of a sorted slice without repetitions. *)
Definition binary_search (l : list Z) (x : Z) : option Z :=
  Z.of_nat <$> (fst <$> list_find (λ y, y = x) l).

Record SimilarAnalysisRun := {
  sr_run_id : str;
  sr_source_run_id : str;
  sr_started_unix_ms : Z;
}.

Inductive SimilarAnalysisPhase := Running | Completed | Cancelled | Failed.

Record SimilarAnalysisProgress := {
  sp_run_id : str;
  sp_phase : SimilarAnalysisPhase;
  sp_checked_sources : Z;
  sp_analyzed_contents : Z;
  sp_skipped_sources : Z;
  sp_current_path : option str;
  sp_issue_code : option str;
}.

(** ** Transactions *)

Section Transactions.
Context (fault : nat → option ScanError) (cancelled : nat → bool) (clock : nat → Z).
Context (verify : nat → ScanResult bool).
Context (constraint_failed no_rows bad_column sqlite_full : ScanError).
Context (blake3_hex : bytes → str).

Abbreviation Tx := (ST ScanError (nat * SimilarDb)).

(** One statement: it fails, or does [f]. *)
Definition sql {A : Type} (f : SimilarDb → ScanResult (A * SimilarDb)) : Tx A := λ s,
  match fault s.1 with
  | Some error => Err error
  | None => match f s.2 with Ok (a, db) => Ok (a, (S s.1, db)) | Err error => Err error end
  end.

Definition sql_read {A : Type} (f : SimilarDb → A) : Tx A := sql (λ db, Ok (f db, db)).

(** [query_row]: no row is an error. *)
Definition sql_row {A : Type} (f : SimilarDb → option A) : Tx A := sql (λ db, a ← ok_or (f db) no_rows; Ok (a, db)).

(** A statement that changes the tables if its constraints hold. *)
Definition sql_write (allowed : SimilarDb → bool) (f : SimilarDb → SimilarDb) : Tx unit :=
  sql (λ db, if allowed db then Ok ((), f db) else Err constraint_failed).

(** [cancelled.load(Ordering::Acquire)] *)
Definition load_cancelled : Tx bool := λ s, Ok (cancelled s.1, (S s.1, s.2)).

(** [unix_time_ms()] *)
Definition unix_time_ms : Tx Z := λ s, Ok (clock s.1, (S s.1, s.2)).

Fixpoint tx_iter {A} (f : A → Tx unit) (l : list A) : Tx unit :=
  match l with
  | [] => mret ()
  | x :: l => f x;; tx_iter f l
  end.

(** [begin_write] and [commit] *)
Definition begin_write : Tx unit := sql_read (λ _, ()).
Definition commit : Tx unit := sql_read (λ _, ()).

(** A transaction, which is dropped when its body returns without [commit]. *)
Definition similarity_transaction {A : Type} (body : Tx (bool * A)) : Tx A := λ s,
  match (begin_write;; body) s with
  | Ok (true, a, s') => (commit;; mret a) s'
  | Ok (false, a, s') => Ok (a, (s'.1, s.2))
  | Err error => Err error
  end.

Definition stable_id (namespace value : str) : str := blake3_hex (as_bytes namespace ++ [0] ++ as_bytes value).

Definition group_text (scheme : str) (reference : SimilarContentKey) : str :=
  scheme ++ [0] ++ sk_scheme reference ++ [0] ++ sk_digest reference ++ [0] ++ show_uint (sk_byte_length reference).

Definition group_id (scheme : str) (reference : SimilarContentKey) : ScanResult str :=
  SimilarContentKey_validate reference;;
  fail_if (negb (valid_scheme scheme)) invalid_identity;;
  Ok (stable_id (lit "similarity-group-v1") (group_text scheme reference)).

(** ** Evidence *)

Definition run_retired : ScanError :=
  ScanError_new "similarity_run_retired" "The similarity analysis no longer owns publication".

Definition require_owner (run : SimilarAnalysisRun) : Tx unit :=
  now ← unix_time_ms;
  active ← sql_read (λ db,
    match sd_active db with
    | Some (active_run_id, lease_until) =>
      match sd_runs db !! active_run_id with
      | Some row =>
        bool_decide (active_run_id = sr_run_id run) && bool_decide (rn_source_run_id row = sr_source_run_id run)
        && (now <? lease_until) && bool_decide (rn_scheme row = SIMILARITY_SCHEME)
      | None => false
      end
    | None => false
    end);
  st_lift (fail_if (negb active) run_retired).

Definition evidence_exists (scheme : str) (content : SimilarContentKey) (db : SimilarDb) : bool :=
  existsb (λ entry : Z * EvidenceRow,
    bool_decide (ev_scheme entry.2 = scheme) && bool_decide (ev_content entry.2 = content))
    (map_to_list (sd_evidence db)).

Definition evidence_contains (content : SimilarContentKey) : Tx bool :=
  st_lift (sqlite_integer (sk_byte_length content) "content length");;
  sql_read (evidence_exists SIMILARITY_SCHEME content).

(** The rowid of a new row of a table without [AUTOINCREMENT]. *)
Definition next_rowid {A} (rows : gmap Z A) : Z := 1 + foldr Z.max 0 (fst <$> map_to_list rows).

(** The rows of [similarity_variants] of one evidence, as rows of its group. *)
Definition copied_variants (evidence_id : Z) (group : str) (db : SimilarDb) : gmap (str * Z) HashRow :=
  list_to_map ((λ entry : Z * Z * HashRow, ((group, entry.1.2), entry.2)) <$>
    map_to_list (filter (λ entry : Z * Z * HashRow, entry.1.1 = evidence_id) (sd_variants db))).

Definition admit_reference (evidence_id : Z) (group : str) : Tx unit :=
  sql_write
    (λ db, negb (bool_decide (is_Some (sd_references db !! group)))
           && bool_decide (is_Some (sd_groups db !! group)) && bool_decide (is_Some (sd_evidence db !! evidence_id))
           && forallb (λ entry : str * Z, negb (entry.2 =? evidence_id)) (map_to_list (sd_references db)))
    (λ db, set_references (<[group := evidence_id]> (sd_references db)) (sd_reference_variants db)
             (sd_reference_revision db) db);;
  sql_write
    (λ db, forallb (λ entry : str * Z * HashRow, negb (bool_decide (is_Some (sd_reference_variants db !! entry.1))))
             (map_to_list (copied_variants evidence_id group db)))
    (λ db, set_references (sd_references db) (copied_variants evidence_id group db ∪ sd_reference_variants db)
             (sd_reference_revision db) db);;
  sql_write (λ _, true)
    (λ db, set_references (sd_references db) (sd_reference_variants db) (sd_reference_revision db + 1) db).

Definition disposition_to_db (evidence : SimilarEvidence) : str * option str :=
  match evidence with
  | Ready _ => (lit "ready", None)
  | InsufficientStructure => (lit "insufficient_structure", None)
  | DecodeFailed issue_code => (lit "decode_failed", Some issue_code)
  end.

Definition insert_variant (id : Z) (entry : nat * SimilarVariant) : Tx unit :=
  let key := (id, Z.of_nat entry.1) in
  let row := {| hr_words := sv_candidate entry.2; hr_confirmation := Some (sv_confirmation entry.2) |} in
  sql_write
    (λ db, negb (bool_decide (is_Some (sd_variants db !! key)))
           && forallb (λ stored : Z * Z * HashRow, negb ((stored.1.1 =? id)
                && bool_decide (hr_words stored.2 = hr_words row)
                && bool_decide (hr_confirmation stored.2 = hr_confirmation row))) (map_to_list (sd_variants db)))
    (λ db, set_variants (<[key := row]> (sd_variants db)) db).

Definition evidence_publish (run : SimilarAnalysisRun) (content : SimilarContentKey) (evidence : SimilarEvidence)
    : Tx bool :=
  let (disposition, issue) := disposition_to_db evidence in
  byte_length ← st_lift (sqlite_integer (sk_byte_length content) "content length");
  id ← sql (λ db,
    if evidence_exists SIMILARITY_SCHEME content db then Ok (None, db)
    else
      let id := next_rowid (sd_evidence db) in
      if I64_MAX <? id then Err sqlite_full
      else if negb (bool_decide (is_Some (sd_runs db !! sr_run_id run))) then Err constraint_failed
      else
        Ok (Some id, set_evidence (<[id := {| ev_run_id := sr_run_id run; ev_scheme := SIMILARITY_SCHEME;
                                             ev_content := content; ev_disposition := disposition;
                                             ev_issue_code := issue |}]> (sd_evidence db)) db));
  match id with
  | None => mret false
  | Some id =>
    match evidence with
    | Ready variants =>
      tx_iter (insert_variant id) (imap pair variants);;
      group ← st_lift (group_id SIMILARITY_SCHEME content);
      restored ← sql_read (λ db, bool_decide (is_Some (sd_groups db !! group)));
      (if restored : bool then admit_reference id group else mret ());;
      sql_write (λ db, negb (bool_decide (is_Some (sd_work db !! id))))
        (λ db, set_work (<[id := {| wr_phase := if restored : bool then lit "members" else lit "references";
                                   wr_reference_revision := sd_reference_revision db; wr_query_variant := 0;
                                   wr_band := 0; wr_neighbor := 0; wr_after_evidence_id := 0; wr_after_group_id := [];
                                   wr_after_variant := -1; wr_found_reference := false |}]> (sd_work db)) db);;
      mret true
    | _ => mret true
    end
  end.

(** ** Matching *)

Definition is_pending (db : SimilarDb) (id : Z) : bool :=
  match sd_work db !! id, sd_evidence db !! id with
  | Some row, Some evidence =>
    bool_decide (wr_phase row ∈ [lit "references"; lit "peer"; lit "members"])
    && bool_decide (ev_scheme evidence = SIMILARITY_SCHEME)
  | _, _ => false
  end.

(** [SELECT MIN(id) ..]: the first evidence of the current scheme whose match is unfinished. *)
Definition pending_works (db : SimilarDb) : list Z :=
  filter (λ id : Z, is_pending db id = true) (sort_by Z.compare (fst <$> map_to_list (sd_work db))).

(** [row.get::<_, u8>(..)] *)
Definition column_u8 (value : Z) : ScanResult Z := try_from_uint 8 value bad_column.

Definition phase_from_db (value : str) : ScanResult MatchPhase :=
  if bool_decide (value = lit "references") then Ok References
  else if bool_decide (value = lit "peer") then Ok Peer
  else if bool_decide (value = lit "members") then Ok Members
  else Err similarity_cursor_invalid.

Definition cursor_load : Tx (option MatchWork) :=
  row ← sql (λ db,
    match head (pending_works db) with
    | Some id =>
      match sd_work db !! id with
      | Some row =>
        query_variant ← column_u8 (wr_query_variant row);
        band ← column_u8 (wr_band row);
        neighbor ← column_u8 (wr_neighbor row);
        Ok (Some (wr_phase row,
          {| mw_evidence_id := id; mw_phase := MatchComplete; mw_reference_revision := wr_reference_revision row;
             mw_query_variant := query_variant; mw_band := band; mw_neighbor := neighbor;
             mw_after_evidence_id := wr_after_evidence_id row; mw_after_group_id := wr_after_group_id row;
             mw_after_variant := wr_after_variant row; mw_found_reference := wr_found_reference row |}), db)
      | None => Ok (None, db)
      end
    | None => Ok (None, db)
    end);
  match row with
  | None => mret None
  | Some (phase, work) =>
    phase ← st_lift (phase_from_db phase);
    st_lift (fail_if ((3 <? mw_band work) || (7 <? mw_query_variant work) || (136 <? mw_neighbor work))
      similarity_cursor_invalid);;
    mret (Some (in_phase phase work))
  end.

Definition work_row (work : MatchWork) : WorkRow :=
  {| wr_phase := phase_to_db (mw_phase work); wr_reference_revision := mw_reference_revision work;
     wr_query_variant := mw_query_variant work; wr_band := mw_band work; wr_neighbor := mw_neighbor work;
     wr_after_evidence_id := mw_after_evidence_id work; wr_after_group_id := mw_after_group_id work;
     wr_after_variant := mw_after_variant work; wr_found_reference := mw_found_reference work |}.

(** [UPDATE .. WHERE evidence_id = ?1] *)
Definition cursor_save (work : MatchWork) : Tx unit :=
  sql_write (λ _, true)
    (λ db, set_work (alter (λ _, work_row work) (mw_evidence_id work) (sd_work db)) db).

Definition stored_variants (id : Z) (db : SimilarDb) : list SimilarVariant :=
  take 8 (po_hash <$> sort_by (compare_on Z.compare po_variant)
    (filter (λ p : Posting, po_evidence_id p = id) (evidence_postings db))).

Definition postings_load (work : MatchWork) (neighbors : list Z) : Tx (list Posting) :=
  after_word ← st_lift (ok_or (neighbors !! Z.to_nat (mw_neighbor work)) similarity_cursor_invalid);
  let references := bool_decide (mw_phase work = References) in
  let after := {| ps_word := after_word; ps_evidence_id := mw_after_evidence_id work;
                  ps_group_id := mw_after_group_id work; ps_variant := mw_after_variant work |} in
  sql_read (λ db,
    take WINDOW_SIZE
      (sort_by (compare_on (position_compare references) (posting_position (mw_band work)))
         (filter (λ p : Posting, band_word (mw_band work) (po_hash p) ∈ neighbors ∧
                    position_compare references after (posting_position (mw_band work) p) = Lt)
            (if references then reference_postings db else evidence_postings db)))).

Definition establish_reference (work : MatchWork) : Tx str :=
  content ← sql_row (λ db, ev_content <$> sd_evidence db !! mw_evidence_id work);
  group ← st_lift (group_id SIMILARITY_SCHEME content);
  sql_write
    (λ db, negb (bool_decide (is_Some (sd_groups db !! group)))
           && forallb (λ entry : str * GroupRow,
                negb (bool_decide (entry.2 = {| gr_scheme := SIMILARITY_SCHEME; gr_reference := content |})))
                (map_to_list (sd_groups db)))
    (λ db, set_groups (<[group := {| gr_scheme := SIMILARITY_SCHEME; gr_reference := content |}]> (sd_groups db)) db);;
  admit_reference (mw_evidence_id work) group;;
  mret group.

Definition publish_member (run : SimilarAnalysisRun) (group : str) (evidence_id distance : Z) : Tx unit :=
  sql_write
    (λ db, bool_decide (is_Some (sd_references db !! group)) && bool_decide (is_Some (sd_evidence db !! evidence_id))
           && bool_decide (is_Some (sd_runs db !! sr_run_id run)) && in_range 0 10 distance)
    (λ db, set_members (<[(group, evidence_id) :=
       {| mb_distance := match sd_members db !! (group, evidence_id) with
                         | Some row => Z.min (mb_distance row) distance
                         | None => distance
                         end;
          mb_run_id := sr_run_id run |}]> (sd_members db)) db).

(** How the loop over the rows of a window ends. *)
Inductive ScanEnd :=
| ScanCancelled
| ScanEstablished
| Scanned (work : MatchWork).

(** [work.neighbor = ..; work.after_evidence_id = ..; ..] *)
Definition move_to (neighbor : Z) (row : Posting) (self : MatchWork) : MatchWork :=
  {| mw_evidence_id := mw_evidence_id self; mw_phase := mw_phase self;
     mw_reference_revision := mw_reference_revision self; mw_query_variant := mw_query_variant self;
     mw_band := mw_band self; mw_neighbor := neighbor; mw_after_evidence_id := po_evidence_id row;
     mw_after_group_id := po_group_id row; mw_after_variant := po_variant row;
     mw_found_reference := mw_found_reference self |}.

Fixpoint scan_rows (run : SimilarAnalysisRun) (query : SimilarVariant) (neighbors : list Z) (reference : option str)
    (rows : list Posting) (work : MatchWork) : Tx ScanEnd :=
  match rows with
  | [] => mret (Scanned work)
  | row :: rows =>
    stop ← load_cancelled;
    if stop : bool then mret ScanCancelled else
    let move work :=
      neighbor ← st_lift (ok_or (binary_search neighbors (band_word (mw_band work) (po_hash row)))
                            similarity_cursor_invalid);
      scan_rows run query neighbors reference rows (move_to neighbor row work) in
    match confirmed_distance query (po_hash row) with
    | None => move work
    | Some separation =>
      match mw_phase work with
      | References =>
        publish_member run (po_group_id row) (mw_evidence_id work) separation;;
        move (with_reference (mw_reference_revision work) true work)
      | Peer =>
        if negb (po_evidence_id row =? mw_evidence_id work) then
          group ← establish_reference work;
          publish_member run group (mw_evidence_id work) 0;;
          cursor_save (restart Members work);;
          mret ScanEstablished
        else move work
      | Members =>
        group ← st_lift (ok_or reference similarity_cursor_invalid);
        publish_member run group (po_evidence_id row) separation;;
        move work
      | MatchComplete => move work
      end
    end
  end.

Definition reference_group (evidence_id : Z) (db : SimilarDb) : option str :=
  fst <$> head (filter (λ entry : str * Z, entry.2 = evidence_id) (map_to_list (sd_references db))).

Definition match_advance (run : SimilarAnalysisRun) : Tx bool :=
  work ← cursor_load;
  match work with
  | None => mret false
  | Some work =>
    revision ← sql_read sd_reference_revision;
    let work :=
      if negb (bool_decide (mw_phase work = Members)) && negb (mw_reference_revision work =? revision)
      then with_reference revision false (restart References work) else work in
    variants ← sql_read (stored_variants (mw_evidence_id work));
    query ← st_lift (ok_or (variants !! Z.to_nat (mw_query_variant work)) similarity_cursor_invalid);
    let neighbors := band_neighbors (band_word (mw_band work) query) in
    rows ← postings_load work neighbors;
    reference ← (if bool_decide (mw_phase work = Members)
                 then group ← sql_row (reference_group (mw_evidence_id work)); mret (Some group)
                 else mret None);
    outcome ← scan_rows run query neighbors reference rows work;
    match outcome with
    | ScanCancelled => mret false
    | ScanEstablished => mret true
    | Scanned work =>
      cursor_save (finish_window (length rows) (zlen variants) work);;
      mret true
    end
  end.

(** ** The operations of the repository *)

Definition match_similarity_window (run : SimilarAnalysisRun) : Tx bool :=
  similarity_transaction (
    require_owner run;;
    stop ← load_cancelled;
    if stop : bool then mret (false, false) else
    worked ← match_advance run;
    stop ← load_cancelled;
    if stop : bool then mret (false, false) else mret (true, worked)).

Definition publish_similarity (run : SimilarAnalysisRun) (content : SimilarContentKey) (value : SimilarEvidence)
    : Tx bool :=
  st_lift (SimilarContentKey_validate content);;
  st_lift (SimilarEvidence_validate value);;
  st_lift (fail_if (negb (bool_decide (sk_scheme content = EXACT_FINGERPRINT_SCHEME)))
    (ScanError_new "similarity_source_rejected" "Similarity publication requires the verified fingerprint scheme"));;
  similarity_transaction (
    require_owner run;;
    stop ← load_cancelled;
    if stop : bool then mret (false, false) else
    current ← (λ s, match verify s.1 with Ok b => Ok (b, (S s.1, s.2)) | Err e => Err e end);
    if negb current then mret (false, false) else
    inserted ← evidence_publish run content value;
    stop ← load_cancelled;
    if stop : bool then mret (false, false) else mret (true, inserted)).

Definition LEASE_MILLIS : Z := 60000.

Definition renew_lease (run : SimilarAnalysisRun) : Tx unit :=
  require_owner run;;
  now ← unix_time_ms;
  sql_write (λ _, true)
    (λ db, match sd_active db with
           | Some (active_run_id, _) =>
             if bool_decide (active_run_id = sr_run_id run)
             then set_dispatch (sd_runs db) (Some (active_run_id, now + LEASE_MILLIS)) (sd_ledger db) db else db
           | None => db
           end).

Definition add_outcome (id : str) (row : OutcomeRow) (ledger : RunLedger) : RunLedger :=
  {| lg_outcomes := <[id := row]> (lg_outcomes ledger); lg_exact_runs := lg_exact_runs ledger;
     lg_exact_outcomes := lg_exact_outcomes ledger |}.
Definition add_exact_run (id : str) (row : ExactRunRow) (ledger : RunLedger) : RunLedger :=
  {| lg_outcomes := lg_outcomes ledger; lg_exact_runs := <[id := row]> (lg_exact_runs ledger);
     lg_exact_outcomes := lg_exact_outcomes ledger |}.
Definition add_exact_outcome (id : str) (row : ExactOutcomeRow) (ledger : RunLedger) : RunLedger :=
  {| lg_outcomes := lg_outcomes ledger; lg_exact_runs := lg_exact_runs ledger;
     lg_exact_outcomes := <[id := row]> (lg_exact_outcomes ledger) |}.

(** [INSERT INTO similarity_outcomes] *)
Definition insert_outcome (id : str) (row : OutcomeRow) : Tx unit :=
  sql_write
    (λ db, negb (bool_decide (is_Some (lg_outcomes (sd_ledger db) !! id))) && bool_decide (is_Some (sd_runs db !! id)))
    (λ db, set_dispatch (sd_runs db) (sd_active db) (add_outcome id row (sd_ledger db)) db).

(** [INSERT INTO exact_analysis_outcomes] *)
Definition insert_exact_outcome (id : str) (row : ExactOutcomeRow) : Tx unit :=
  sql_write
    (λ db, negb (bool_decide (is_Some (lg_exact_outcomes (sd_ledger db) !! id)))
           && bool_decide (is_Some (lg_exact_runs (sd_ledger db) !! id)))
    (λ db, set_dispatch (sd_runs db) (sd_active db) (add_exact_outcome id row (sd_ledger db)) db).

(** The run that owns the dispatch, with its source run, the end of its lease and its scheme. *)
Definition active_run (db : SimilarDb) : option (str * str * Z * str) :=
  match sd_active db with
  | Some (id, until) => (λ row, (id, rn_source_run_id row, until, rn_scheme row)) <$> sd_runs db !! id
  | None => None
  end.

(** A run that still owns the dispatch is recorded as failed if its scheme is retired or its lease has expired. *)
Definition retire_run (now : Z) (active : option (str * str * Z * str)) : Tx unit :=
  match active with
  | Some (id, source_run_id, until, scheme) =>
    reason ← st_lift
      (if negb (bool_decide (scheme = SIMILARITY_SCHEME)) then Ok (lit "similarity_scheme_retired")
       else if now <? until then
         Err (ScanError_new "similarity_analysis_busy" "A similarity analysis already owns the catalog")
       else Ok (lit "similarity_lease_expired"));
    insert_outcome id
      {| oc_phase := lit "failed"; oc_checked_sources := 0; oc_analyzed_contents := 0; oc_skipped_sources := 0;
         oc_issue_code := Some reason; oc_finished_unix_ms := now |};;
    insert_exact_outcome source_run_id
      {| eo_phase := lit "failed"; eo_checked_files := 0; eo_fingerprinted_files := 0; eo_skipped_files := 0;
         eo_bytes_read := 0; eo_issue_code := Some reason; eo_finished_unix_ms := now |}
  | None => mret ()
  end.

Definition begin_run (run : SimilarAnalysisRun) : Tx unit :=
  now ← unix_time_ms;
  active ← sql_read active_run;
  retire_run now active;;
  sql_write (λ db, negb (bool_decide (is_Some (lg_exact_runs (sd_ledger db) !! sr_source_run_id run))))
    (λ db, set_dispatch (sd_runs db) (sd_active db)
       (add_exact_run (sr_source_run_id run)
          {| er_scheme := EXACT_FINGERPRINT_SCHEME; er_engine_id := EXACT_FINGERPRINT_ENGINE;
             er_engine_version := EXACT_FINGERPRINT_VERSION; er_parameters := EXACT_FINGERPRINT_PARAMETERS;
             er_started_unix_ms := sr_started_unix_ms run |} (sd_ledger db)) db);;
  sql_write
    (λ db, negb (bool_decide (is_Some (sd_runs db !! sr_run_id run)))
           && bool_decide (is_Some (lg_exact_runs (sd_ledger db) !! sr_source_run_id run)))
    (λ db, set_dispatch
       (<[sr_run_id run :=
          {| rn_source_run_id := sr_source_run_id run; rn_scheme := SIMILARITY_SCHEME; rn_engine_id := lit "image_hasher";
             rn_engine_version := lit "3.1.1"; rn_parameters := SIMILARITY_PARAMETERS;
             rn_started_unix_ms := sr_started_unix_ms run |}]> (sd_runs db)) (sd_active db) (sd_ledger db) db);;
  sql_write (λ _, true)
    (λ db, set_dispatch (sd_runs db) (Some (sr_run_id run, now + LEASE_MILLIS)) (sd_ledger db) db).

Definition begin_similarity (run : SimilarAnalysisRun) : Tx unit :=
  similarity_transaction (begin_run run;; mret (true, ())).

Definition terminal_phase (phase : SimilarAnalysisPhase) : ScanResult str :=
  match phase with
  | Completed => Ok (lit "completed")
  | Cancelled => Ok (lit "cancelled")
  | Failed => Ok (lit "failed")
  | Running => Err (ScanError_new "similarity_not_finished" "A running analysis has no terminal outcome")
  end.

(** [fingerprint_totals] gives the number of the fingerprints a source run stored, and the sum of their lengths. *)
Context (fingerprint_totals : str → Z * Z).

Definition finish_run (run : SimilarAnalysisRun) (progress : SimilarAnalysisProgress) : Tx unit :=
  require_owner run;;
  phase ← st_lift (terminal_phase (sp_phase progress));
  now ← unix_time_ms;
  checked ← st_lift (sqlite_integer (sp_checked_sources progress) "checked sources");
  analyzed ← st_lift (sqlite_integer (sp_analyzed_contents progress) "analyzed contents");
  skipped ← st_lift (sqlite_integer (sp_skipped_sources progress) "skipped sources");
  insert_outcome (sr_run_id run)
    {| oc_phase := phase; oc_checked_sources := checked; oc_analyzed_contents := analyzed;
       oc_skipped_sources := skipped; oc_issue_code := sp_issue_code progress; oc_finished_unix_ms := now |};;
  insert_exact_outcome (sr_source_run_id run)
    {| eo_phase := phase; eo_checked_files := checked;
       eo_fingerprinted_files := (fingerprint_totals (sr_source_run_id run)).1; eo_skipped_files := skipped;
       eo_bytes_read := (fingerprint_totals (sr_source_run_id run)).2; eo_issue_code := sp_issue_code progress;
       eo_finished_unix_ms := now |};;
  sql_write (λ _, true)
    (λ db, match sd_active db with
           | Some (active_run_id, _) =>
             if bool_decide (active_run_id = sr_run_id run)
             then set_dispatch (sd_runs db) None (sd_ledger db) db else db
           | None => db
           end).

Definition finish_similarity (run : SimilarAnalysisRun) (progress : SimilarAnalysisProgress) : Tx unit :=
  similarity_transaction (finish_run run progress;; mret (true, ())).

Definition renew_similarity (run : SimilarAnalysisRun) : Tx unit :=
  similarity_transaction (renew_lease run;; mret (true, ())).

(** ** The loop of the analysis *)

(** [suspended] is the value of the flag when it is loaded, [instant] the monotonic clock in nanoseconds. *)
Context (suspended : nat → bool) (instant : nat → Z).

(** [control.suspended.load(Ordering::Acquire)] *)
Definition load_suspended : Tx bool := λ s, Ok (suspended s.1, (S s.1, s.2)).

(** [Instant::now()] *)
Definition instant_now : Tx Z := λ s, Ok (instant s.1, (S s.1, s.2)).

(** [since.elapsed()] *)
Definition elapsed (since : Z) : Tx Z := now ← instant_now; mret (Z.max 0 (now - since)).

Definition RENEWAL_INTERVAL : Z := 5 * 10 ^ 9.
Definition MAX_WINDOWS : nat := 128.
Definition TIME_BUDGET : Z := 100 * 10 ^ 6.

(** [None] when [waits] passes of the loop have been suspended.  The instant of the last renewal is returned. *)
Fixpoint await_admission (waits : nat) (run : SimilarAnalysisRun) (renewal : Z) : Tx (option (bool * Z)) :=
  match waits with
  | O => mret None
  | S waits =>
    stop ← load_cancelled;
    if stop : bool then mret (Some (false, renewal)) else
    waited ← elapsed renewal;
    renewal ← (if RENEWAL_INTERVAL <=? waited then renew_similarity run;; instant_now else mret renewal);
    held ← load_suspended;
    if negb held then mret (Some (true, renewal)) else await_admission waits run renewal
  end.

Fixpoint advance_windows (waits windows : nat) (run : SimilarAnalysisRun) (started renewal : Z)
    : Tx (option (bool * Z)) :=
  match windows with
  | O => mret (Some (true, renewal))
  | S windows =>
    granted ← await_admission waits run renewal;
    match granted with
    | None => mret None
    | Some (false, renewal) => mret (Some (false, renewal))
    | Some (true, renewal) =>
      worked ← match_similarity_window run;
      if negb worked then mret (Some (false, renewal)) else
      spent ← elapsed started;
      if TIME_BUDGET <=? spent then mret (Some (true, renewal))
      else advance_windows waits windows run started renewal
    end
  end.

Definition matching_advance (waits : nat) (run : SimilarAnalysisRun) (renewal : Z) : Tx (option (bool * Z)) :=
  started ← instant_now;
  advance_windows waits MAX_WINDOWS run started renewal.

(** [while matching::advance(..)? { .. }] after the last source; [None] when [rounds] have not been enough. *)
Fixpoint match_remaining (waits rounds : nat) (run : SimilarAnalysisRun) (renewal : Z) : Tx (option unit) :=
  match rounds with
  | O => mret None
  | S rounds =>
    advanced ← matching_advance waits run renewal;
    match advanced with
    | None => mret None
    | Some (false, _) => mret (Some ())
    | Some (true, renewal) => match_remaining waits rounds run renewal
    end
  end.

End Transactions.
