(* ===== verification/SimilarLaws.v ===== *)
(** * Bands of perceptual hashes

    Two hashes that differ in at most 10 of their 64 bits differ in at most 2 of the 16 bits of one of their four
    words.  The neighbours of a word are exactly the words within 2 bits of it, so the scan of the postings
    of the neighbours of all four words misses no match.  The second part shows that the windows of a scan
    cover the postings in order. *)

From stdpp Require Import sorting.
From S2P Require Import Prelude Text Numerals Order JournalText QueueStore SimilarImages.

(** ** Words that differ in few bits *)

Lemma count_ones_nonneg w z : 0 ≤ count_ones w z.
Proof. apply zlen_nonneg. Qed.

Lemma u16_testbit z i : is_u16 z → 16 ≤ i → Z.testbit z i = false.
Proof.
  intros [H0 H1] Hi. destruct (decide (z = 0)) as [->|]; [apply Z.testbit_0_l|]. apply Z.bits_above_log2; [lia|].
  apply Z.log2_lt_pow2; [lia|]. eapply Z.lt_le_trans; [exact H1|]. apply Z.pow_le_mono_r; lia.
Qed.

Lemma u16_of_bits z : 0 ≤ z → (∀ i, 16 ≤ i → Z.testbit z i = false) → is_u16 z.
Proof.
  intros H0 H. split; [done|]. destruct (Z.ltb_spec z (2 ^ 16)); [done|].
  assert (0 < z) as Hz by lia. pose proof (Z.bit_log2 z Hz) as Hb.
  rewrite H in Hb; [done|]. apply Z.log2_le_pow2; lia.
Qed.

Lemma u16_lxor a b : is_u16 a → is_u16 b → is_u16 (Z.lxor a b).
Proof.
  intros Ha Hb. apply u16_of_bits.
  - apply Z.lxor_nonneg. unfold is_uint in *. lia.
  - intros i Hi. by rewrite Z.lxor_spec, !u16_testbit.
Qed.

Lemma u16_shift i : (i < 16)%nat → is_u16 (Z.shiftl 1 (Z.of_nat i)).
Proof.
  intros Hi. rewrite Z.shiftl_1_l. split; [apply Z.pow_nonneg; lia|]. apply Z.pow_lt_mono_r; lia.
Qed.

(** The masks with at most two bits. *)
Definition masks : list Z :=
  0 :: (seq 0 16 ≫= λ first,
    Z.shiftl 1 (Z.of_nat first) ::
    ((λ second, Z.lxor (Z.shiftl 1 (Z.of_nat first)) (Z.shiftl 1 (Z.of_nat second))) <$> seq (S first) (15 - first))).

Lemma elem_of_masks m :
  m ∈ masks ↔ m = 0 ∨ (∃ i : nat, (i < 16)%nat ∧ m = Z.shiftl 1 (Z.of_nat i)) ∨
    ∃ i j : nat, (i < j < 16)%nat ∧ m = Z.lxor (Z.shiftl 1 (Z.of_nat i)) (Z.shiftl 1 (Z.of_nat j)).
Proof.
  unfold masks. rewrite elem_of_cons, list_elem_of_bind. split.
  - intros [->|(i & Hm & Hi%elem_of_seq)]; [by left|]. apply elem_of_cons in Hm as [->|Hm].
    + right; left. exists i. split; [lia|done].
    + apply list_elem_of_fmap in Hm as (j & -> & Hj%elem_of_seq). right; right. exists i, j. split; [lia|done].
  - intros [->|[(i & Hi & ->)|(i & j & Hij & ->)]]; [by left|right..].
    + exists i. split; [apply elem_of_cons; by left|]. apply elem_of_seq. lia.
    + exists i. split; [apply elem_of_cons; right|apply elem_of_seq; lia].
      apply list_elem_of_fmap. exists j. split; [done|]. apply elem_of_seq. lia.
Qed.

Lemma elem_of_neighbors w v : v ∈ band_neighbors w ↔ Z.lxor w v ∈ masks.
Proof.
  unfold band_neighbors. rewrite sort_by_perm.
  assert (∀ m, (v = Z.lxor w m ↔ Z.lxor w v = m)) as Hx.
  { intros m. split; intros H; [rewrite H|rewrite <-H]; by rewrite <-Z.lxor_assoc, Z.lxor_nilpotent, Z.lxor_0_l. }
  rewrite elem_of_masks, elem_of_cons, list_elem_of_bind. split.
  - intros [->|(i & Hm & Hi%elem_of_seq)]; [left; apply Z.lxor_nilpotent|]. apply elem_of_cons in Hm as [Hm|Hm].
    + right; left. exists i. split; [lia|]. by apply Hx.
    + apply list_elem_of_fmap in Hm as (j & Hm & Hj%elem_of_seq). right; right. exists i, j. split; [lia|].
      apply Hx. by rewrite <-Z.lxor_assoc.
  - intros [H|[(i & Hi & H)|(i & j & Hij & H)]]; apply Hx in H; [left; by rewrite Z.lxor_0_r in H|right..].
    + exists i. split; [apply elem_of_cons; by left|]. apply elem_of_seq. lia.
    + exists i. split; [apply elem_of_cons; right|apply elem_of_seq; lia].
      apply list_elem_of_fmap. exists j. split; [by rewrite Z.lxor_assoc|]. apply elem_of_seq. lia.
Qed.

Lemma testbit_shift i j : Z.testbit (Z.shiftl 1 (Z.of_nat i)) (Z.of_nat j) = bool_decide (i = j).
Proof.
  rewrite Z.shiftl_1_l. case_bool_decide as E; [subst; apply Z.pow2_bits_true; lia|]. apply Z.pow2_bits_false. lia.
Qed.

(** A 16-bit value is determined by the list of its bits. *)
Lemma bits_determine a b :
  is_u16 a → is_u16 b → (∀ i : nat, (i < 16)%nat → Z.testbit a (Z.of_nat i) = Z.testbit b (Z.of_nat i)) → a = b.
Proof.
  intros Ha Hb H. apply Z.bits_inj'. intros n Hn. destruct (Z.ltb_spec n 16).
  - replace n with (Z.of_nat (Z.to_nat n)) by lia. apply H. lia.
  - by rewrite !u16_testbit.
Qed.

Definition ones (z : Z) : list nat := filter (λ i : nat, Z.testbit z (Z.of_nat i) = true) (seq 0 16).

Lemma elem_of_ones z i : i ∈ ones z ↔ (i < 16)%nat ∧ Z.testbit z (Z.of_nat i) = true.
Proof. unfold ones. rewrite list_elem_of_filter, elem_of_seq. naive_solver lia. Qed.

Lemma ones_sorted z : StronglySorted lt (ones z).
Proof.
  unfold ones. generalize 0%nat 16%nat. intros s n. revert s. induction n as [|n IH]; intros s; simpl; [constructor|].
  rewrite filter_cons. case_decide; [|done]. constructor; [apply IH|]. rewrite Forall_forall.
  intros j [_ Hj%elem_of_seq]%list_elem_of_filter. lia.
Qed.

Lemma masks_count m : is_u16 m → m ∈ masks ↔ count_ones 16 m ≤ 2.
Proof.
  intros Hm. change (count_ones 16 m) with (zlen (ones m)). rewrite elem_of_masks. split.
  - intros H. assert (∃ l, (length l ≤ 2)%nat ∧ ∀ i, i ∈ ones m → i ∈ l) as (l & Hl & Hsub).
    { destruct H as [->|[(i & Hi & ->)|(i & j & Hij & ->)]].
      - exists []. split; [simpl; lia|]. intros k [_ Hk]%elem_of_ones. by rewrite Z.testbit_0_l in Hk.
      - exists [i]. split; [simpl; lia|]. intros k [_ Hk]%elem_of_ones. rewrite testbit_shift in Hk.
        apply bool_decide_eq_true in Hk as ->. set_solver.
      - exists [i; j]. split; [simpl; lia|]. intros k [_ Hk]%elem_of_ones.
        rewrite Z.lxor_spec, !testbit_shift in Hk. repeat case_bool_decide; set_solver. }
    assert (NoDup (ones m)) as Hnd by apply NoDup_filter, NoDup_seq.
    pose proof (submseteq_length (ones m) l (NoDup_submseteq _ _ Hnd Hsub)). unfold zlen. lia.
  - intros Hc. pose proof (ones_sorted m) as Hs. pose proof (elem_of_ones m) as He.
    destruct (ones m) as [|i [|j [|k r]]]; [| | |unfold zlen in Hc; simpl in Hc; lia].
    + left. apply bits_determine; [done|unfold is_uint; lia|]. intros n Hn. rewrite Z.testbit_0_l.
      specialize (He n). destruct (Z.testbit m (Z.of_nat n)); set_solver.
    + right; left. assert ((i < 16)%nat) as Hi by (apply He; set_solver). exists i. split; [done|].
      apply bits_determine; [done|by apply u16_shift|]. intros n Hn. rewrite testbit_shift.
      specialize (He n). destruct (Z.testbit m (Z.of_nat n)); case_bool_decide; set_solver.
    + right; right. assert ((i < 16)%nat) as Hi by (apply He; set_solver).
      assert ((j < 16)%nat) as Hj by (apply He; set_solver).
      assert ((i < j)%nat) as Hij. { inversion Hs as [|??? Hf]; subst. by inversion Hf. }
      exists i, j. split; [done|]. apply bits_determine; [done|apply u16_lxor; by apply u16_shift|].
      intros n Hn. rewrite Z.lxor_spec, !testbit_shift. specialize (He n).
      destruct (Z.testbit m (Z.of_nat n)); repeat case_bool_decide; subst; simpl; try lia; set_solver.
Qed.

(** The neighbours of a word are the words within two bits of it. *)
Lemma band_neighbors_exact w v : is_u16 w → is_u16 v → v ∈ band_neighbors w ↔ count_ones 16 (Z.lxor w v) ≤ 2.
Proof. intros Hw Hv. rewrite elem_of_neighbors. apply masks_count, u16_lxor; done. Qed.

Lemma band_neighbors_length w : length (band_neighbors w) = 137%nat.
Proof. unfold band_neighbors. by rewrite sort_by_perm. Qed.

Lemma masks_distinct : NoDup masks.
Proof. apply (bool_decide_unpack _). vm_compute. exact I. Qed.

Lemma band_neighbors_distinct w : NoDup (band_neighbors w).
Proof.
  assert (band_neighbors w ≡ₚ Z.lxor w <$> masks) as ->; [|apply NoDup_fmap_2, masks_distinct].
  - unfold band_neighbors. rewrite sort_by_perm. unfold masks. rewrite fmap_cons, Z.lxor_0_r. constructor.
    generalize (seq 0 16) as l. induction l as [|i l IH]; [done|]. rewrite !bind_cons, fmap_app, <-IH.
    apply Permutation_app_tail. rewrite fmap_cons. constructor. rewrite <-list_fmap_compose. apply reflexive_eq.
    apply list_fmap_ext. intros _ j _. simpl. by rewrite Z.lxor_assoc.
  - intros a b H. rewrite <-(Z.lxor_0_l a), <-(Z.lxor_0_l b), <-(Z.lxor_nilpotent w), !Z.lxor_assoc. by rewrite H.
Qed.

Lemma first_neighbor w v n : v ∈ band_neighbors w → band_neighbors w !! 0%nat = Some n → n ≤ v.
Proof.
  intros Hv Hn. pose proof (sort_by_sorted Z.compare) as Hs. unfold band_neighbors in *.
  set (l := _ :: _) in *. specialize (Hs l). destruct (sort_by Z.compare l) as [|a r]; [done|].
  injection Hn as ->. apply elem_of_cons in Hv as [->|Hv]; [lia|].
  inversion Hs as [|??? Hf]; subst. rewrite Forall_forall in Hf. specialize (Hf v Hv). unfold cmp_le in Hf.
  by apply Z.compare_le_iff in Hf.
Qed.

Lemma binary_search_Some l x i : binary_search l x = Some i ↔ ∃ n : nat, i = Z.of_nat n ∧ l !! n = Some x ∧
  ∀ m, (m < n)%nat → l !! m ≠ Some x.
Proof.
  unfold binary_search. destruct (list_find (λ y, y = x) l) as [[n y]|] eqn:E; simpl.
  - apply list_find_Some in E as (E1 & -> & E2). split.
    + intros [= <-]. exists n. split_and!; [done|done|]. intros m Hm Hl. by eapply (E2 m x).
    + intros (n' & -> & H1 & H2). do 2 f_equal. destruct (lt_eq_lt_dec n n') as [[?|?]|?]; [|done|].
      * by destruct (H2 n).
      * by destruct (E2 n' x).
  - split; [done|]. intros (n & -> & H1 & _). apply list_find_None in E. rewrite Forall_forall in E.
    exfalso. apply (E x); [|done]. by eapply list_elem_of_lookup_2.
Qed.

Lemma binary_search_elem l x : x ∈ l → ∃ i, binary_search l x = Some i.
Proof.
  intros Hx. unfold binary_search. destruct (list_find (λ y, y = x) l) as [[n y]|] eqn:E; [by eexists|].
  apply list_find_None in E. rewrite Forall_forall in E. by destruct (E x).
Qed.

(** A hash has the types of the arrays it is stored in. *)
Record variant_typed (v : SimilarVariant) : Prop := {
  vt_words : length (sv_candidate v) = 4%nat;
  vt_u16 : Forall is_u16 (sv_candidate v);
  vt_confirmation : length (sv_confirmation v) = 32%nat;
  vt_u8 : Forall is_u8 (sv_confirmation v);
}.

Lemma band_word_u16 b v : variant_typed v → is_u16 (band_word b v).
Proof.
  intros Hv. unfold band_word. destruct (nth_lookup_or_length (sv_candidate v) (Z.to_nat b) 0) as [H|H].
  - eapply Forall_lookup_1; [apply (vt_u16 v Hv)|done].
  - rewrite nth_overflow; [unfold is_uint; lia|done].
Qed.

Lemma confirmed_sym v v' : confirmed_distance v v' = confirmed_distance v' v.
Proof.
  assert (∀ w l r, differing w l r = differing w r l) as Hs.
  { intros w l. unfold differing. induction l as [|a l IH]; intros [|b r]; [done..|]. simpl.
    by rewrite IH, Z.lxor_comm. }
  unfold confirmed_distance, hash_distance. by rewrite !(Hs _ (sv_candidate v)), !(Hs _ (sv_confirmation v)).
Qed.

Lemma differing_self w l : differing w l l = 0.
Proof.
  unfold differing. induction l as [|a l IH]; simpl; [done|]. rewrite IH, Z.lxor_nilpotent.
  unfold count_ones. destruct (filter _ _) as [|i t] eqn:E; [done|].
  assert (i ∈ i :: t) as Hi by set_solver. rewrite <-E in Hi. apply list_elem_of_filter in Hi as [Hi _].
  by rewrite Z.testbit_0_l in Hi.
Qed.

Lemma confirmed_self v : confirmed_distance v v = Some 0.
Proof. unfold confirmed_distance, hash_distance. by rewrite !differing_self. Qed.

Lemma differing_nonneg w l r : 0 ≤ differing w l r.
Proof.
  unfold differing. revert r. induction l as [|a l IH]; intros [|b r]; simpl; [lia..|].
  pose proof (count_ones_nonneg w (Z.lxor a b)). specialize (IH r). lia.
Qed.

Lemma confirmed_range v v' d : confirmed_distance v v' = Some d → 0 ≤ d ≤ 10.
Proof.
  unfold confirmed_distance, SIMILARITY_MAX_DISTANCE. pose proof (differing_nonneg 16 (sv_candidate v) (sv_candidate v')).
  unfold hash_distance. case (Z.ltb_spec); [done|]. intros. destruct (_ <=? 44); naive_solver lia.
Qed.

(** The pigeonhole: a match is a neighbour in one of the bands. *)
Lemma confirmed_band v v' d :
  variant_typed v → variant_typed v' → confirmed_distance v v' = Some d →
  ∃ b, 0 ≤ b ≤ 3 ∧ band_word b v' ∈ band_neighbors (band_word b v).
Proof.
  intros Hv Hv' H. unfold confirmed_distance, SIMILARITY_MAX_DISTANCE in H.
  destruct (Z.ltb_spec 10 (hash_distance (sv_candidate v) (sv_candidate v'))) as [|Hd]; [done|clear H].
  pose proof (λ b, band_neighbors_exact _ _ (band_word_u16 b v Hv) (band_word_u16 b v' Hv')) as Hn.
  setoid_rewrite Hn. clear Hn. unfold band_word. destruct Hv as [Hl _ _ _], Hv' as [Hl' _ _ _].
  destruct (sv_candidate v) as [|a0 [|a1 [|a2 [|a3 [|??]]]]]; try done.
  destruct (sv_candidate v') as [|b0 [|b1 [|b2 [|b3 [|??]]]]]; try done.
  unfold hash_distance, differing in Hd. cbn [zip_with foldr] in Hd.
  destruct (Z.leb_spec (count_ones 16 (Z.lxor a0 b0)) 2); [by exists 0|].
  destruct (Z.leb_spec (count_ones 16 (Z.lxor a1 b1)) 2); [by exists 1|].
  destruct (Z.leb_spec (count_ones 16 (Z.lxor a2 b2)) 2); [by exists 2|].
  destruct (Z.leb_spec (count_ones 16 (Z.lxor a3 b3)) 2); [by exists 3|]. lia.
Qed.

#[global] Arguments band_neighbors : simpl never.
#[global] Arguments confirmed_distance : simpl never.

(** ** Windows of postings *)

#[export] Instance position_comparator references : Comparator (position_compare references).
Proof.
  unfold position_compare. apply (then_with_comparator (compare_on Z.compare ps_word)); [apply _|].
  destruct references.
  - apply (then_with_comparator (compare_on lex_compare ps_group_id) (compare_on Z.compare ps_variant)); apply _.
  - apply (then_with_comparator (compare_on Z.compare ps_evidence_id) (compare_on Z.compare ps_variant)); apply _.
Qed.

Lemma then_with_equal a b : then_with a b = Eq ↔ a = Eq ∧ b = Eq.
Proof. destruct a; naive_solver. Qed.

Lemma position_Eq references p q :
  position_compare references p q = Eq →
  ps_word p = ps_word q ∧ ps_variant p = ps_variant q ∧
  if references : bool then ps_group_id p = ps_group_id q else ps_evidence_id p = ps_evidence_id q.
Proof.
  unfold position_compare. rewrite !then_with_equal, !Z.compare_eq_iff. intros (H1 & H2 & H3). split_and!; [done..|].
  destruct references; [by apply lex_compare_Eq|by apply Z.compare_eq].
Qed.

Definition in_references (w : MatchWork) : bool := bool_decide (mw_phase w = References).

(** The position up to which the current band has been scanned. *)
Definition cursor_after (q : SimilarVariant) (w : MatchWork) : option Position :=
  (λ word, {| ps_word := word; ps_evidence_id := mw_after_evidence_id w; ps_group_id := mw_after_group_id w;
              ps_variant := mw_after_variant w |}) <$>
  band_neighbors (band_word (mw_band w) q) !! Z.to_nat (mw_neighbor w).

(** The posting [p] is still to be compared with the variant [q], of index [i], of the work. *)
Definition ahead (w : MatchWork) (i : Z) (q : SimilarVariant) (p : Posting) : Prop :=
  ∃ b, 0 ≤ b ≤ 3 ∧ band_word b (po_hash p) ∈ band_neighbors (band_word b q) ∧
    (mw_query_variant w < i ∨ mw_query_variant w = i ∧ mw_band w < b ∨
     mw_query_variant w = i ∧ mw_band w = b ∧
     ∃ after, cursor_after q w = Some after ∧
       position_compare (in_references w) after (posting_position b p) = Lt).

(** The window of the postings [table] that follow [after]. *)
Definition window (references : bool) (band : Z) (neighbors : list Z) (after : Position) (table : list Posting)
    : list Posting :=
  take WINDOW_SIZE
    (sort_by (compare_on (position_compare references) (posting_position band))
       (filter (λ p : Posting, band_word band (po_hash p) ∈ neighbors ∧
                  position_compare references after (posting_position band p) = Lt) table)).

Lemma elem_of_window references band neighbors after table p :
  p ∈ window references band neighbors after table →
  p ∈ table ∧ band_word band (po_hash p) ∈ neighbors ∧ position_compare references after (posting_position band p) = Lt.
Proof.
  intros H. unfold window in H. apply elem_of_take in H as (i & H & _). apply list_elem_of_lookup_2 in H.
  rewrite sort_by_perm in H. apply list_elem_of_filter in H. tauto.
Qed.

Lemma StronglySorted_split {A} (R : A → A → Prop) l n x :
  StronglySorted R l → x ∈ drop (S n) l → ∃ y, last (take (S n) l) = Some y ∧ R y x.
Proof.
  intros Hs Hx. rewrite <-(take_drop (S n) l) in Hs. destruct (last (take (S n) l)) as [y|] eqn:E.
  - exists y. split; [done|]. apply last_Some in E as [t E]. rewrite E, <-app_assoc in Hs.
    apply StronglySorted_app in Hs as (_ & _ & Hs). simpl in Hs. inversion Hs as [|??? Hf]; subst.
    rewrite Forall_forall in Hf. by apply Hf.
  - apply last_None in E. destruct l; [by apply not_elem_of_nil in Hx|done].
Qed.

(** Postings with the same position are the same. *)
Definition positioned (references : bool) (band : Z) (table : list Posting) : Prop :=
  ∀ p q, p ∈ table → q ∈ table →
    position_compare references (posting_position band p) (posting_position band q) = Eq → p = q.

(** What follows the cursor is in the window, or the window is full and it follows the last row. *)
Lemma window_covers references band neighbors after table p :
  positioned references band table → p ∈ table → band_word band (po_hash p) ∈ neighbors →
  position_compare references after (posting_position band p) = Lt →
  p ∈ window references band neighbors after table ∨
  length (window references band neighbors after table) = WINDOW_SIZE ∧
  ∃ row, last (window references band neighbors after table) = Some row ∧
    position_compare references (posting_position band row) (posting_position band p) = Lt.
Proof.
  intros Hpos Hp Hw Ha. unfold window.
  set (l := sort_by _ _). assert (p ∈ l) as Hl.
  { unfold l. rewrite sort_by_perm. by apply list_elem_of_filter. }
  destruct (decide (p ∈ take WINDOW_SIZE l)) as [|Hn]; [by left|right].
  rewrite <-(take_drop WINDOW_SIZE l), elem_of_app in Hl. destruct Hl as [|Hl]; [done|].
  assert (StronglySorted (cmp_le (compare_on (position_compare references) (posting_position band))) l) as Hs
    by apply (sort_by_sorted _ _).
  destruct (StronglySorted_split _ _ _ _ Hs Hl) as (row & Hlast & Hle). split.
  - rewrite length_take. apply list_elem_of_lookup_1 in Hl as [k Hk]. apply lookup_lt_Some in Hk.
    rewrite length_drop in Hk. lia.
  - exists row. split; [done|]. unfold cmp_le, compare_on in Hle.
    destruct (position_compare references (posting_position band row) (posting_position band p)) eqn:E; [|done|done].
    exfalso. apply Hn. assert (row ∈ take WINDOW_SIZE l) as Hr by by eapply last_Some_elem_of.
    replace p with row; [done|]. apply Hpos; [|done|done].
    apply (elem_of_window references band neighbors after table). done.
Qed.

(** [w'] is [w] after the rows of a window. *)
Record moved (q : SimilarVariant) (rows : list Posting) (w w' : MatchWork) : Prop := {
  mv_evidence_id : mw_evidence_id w' = mw_evidence_id w;
  mv_phase : mw_phase w' = mw_phase w;
  mv_revision : mw_reference_revision w' = mw_reference_revision w;
  mv_query_variant : mw_query_variant w' = mw_query_variant w;
  mv_band : mw_band w' = mw_band w;
  mv_neighbor : 0 ≤ mw_neighbor w ≤ 136 → 0 ≤ mw_neighbor w' ≤ 136;
  mv_after : cursor_after q w' =
    match last rows with Some row => Some (posting_position (mw_band w) row) | None => cursor_after q w end;
}.

(** A posting in a band not yet begun is ahead. *)
Lemma ahead_reset w i q p b :
  0 ≤ po_evidence_id p → 0 ≤ po_variant p → 0 ≤ b ≤ 3 → band_word b (po_hash p) ∈ band_neighbors (band_word b q) →
  mw_query_variant w < i ∨ mw_query_variant w = i ∧ mw_band w ≤ b →
  ahead (reset_posting w) i q p.
Proof.
  intros He Hv Hb Hn Hw. exists b. split_and!; [lia..|done|]. cbn.
  destruct (decide (mw_query_variant w = i ∧ mw_band w = b)) as [[Hi <-]|]; [right; right|lia]. split_and!; [done..|].
  unfold cursor_after. cbn.
  destruct (band_neighbors (band_word (mw_band w) q)) as [|n l] eqn:E; [by apply not_elem_of_nil in Hn|].
  eexists. split; [done|]. rewrite <-E in Hn. assert (n ≤ band_word (mw_band w) (po_hash p)) as Hle.
  { eapply first_neighbor; [exact Hn|by rewrite E]. }
  unfold position_compare. cbn. destruct (Z.compare_spec n (band_word (mw_band w) (po_hash p))); [|done|lia]. cbn.
  destruct (po_variant p); [| |lia]; destruct (in_references _); destruct (po_group_id p), (po_evidence_id p); done || lia.
Qed.

Lemma ahead_start phase w i q p :
  0 ≤ i → 0 ≤ po_evidence_id p → 0 ≤ po_variant p →
  (∃ b, 0 ≤ b ≤ 3 ∧ band_word b (po_hash p) ∈ band_neighbors (band_word b q)) →
  ahead (restart phase w) i q p.
Proof. intros Hi He Hv (b & Hb & Hn). apply (ahead_reset _ _ _ _ b); [done..|]. cbn. lia. Qed.

(** The next band keeps what is ahead in a later one. *)
Lemma ahead_next w i q p b nv :
  0 ≤ po_evidence_id p → 0 ≤ po_variant p → 0 ≤ b ≤ 3 → band_word b (po_hash p) ∈ band_neighbors (band_word b q) →
  0 ≤ mw_band w ≤ 3 → i < nv → mw_query_variant w < i ∨ mw_query_variant w = i ∧ mw_band w < b →
  (next_band nv w).1 = true ∧ ahead (next_band nv w).2 i q p ∧ mw_phase (next_band nv w).2 = mw_phase w.
Proof.
  intros He Hv Hb Hn Hband Hi Hw. unfold next_band. cbn. destruct (Z.ltb_spec (mw_band w) 3); cbn.
  - split_and!; [done| |done].
    apply (ahead_reset (at_band (mw_query_variant w) (mw_band w + 1) w) _ _ _ b); [done..|]. cbn. lia.
  - destruct (Z.ltb_spec (mw_query_variant w + 1) nv); cbn; [|lia]. split_and!; [done| |done].
    apply (ahead_reset (at_band (mw_query_variant w + 1) 0 w) _ _ _ b); [done..|]. cbn. lia.
Qed.

(** A posting ahead of the cursor is in the window or still ahead after it. *)
Lemma ahead_step w w' i q query p after table nv :
  ahead w i q p → (i = mw_query_variant w → q = query) → i < nv → 0 ≤ mw_band w ≤ 3 →
  0 ≤ po_evidence_id p → 0 ≤ po_variant p →
  p ∈ table → positioned (in_references w) (mw_band w) table →
  cursor_after query w = Some after →
  let rows := window (in_references w) (mw_band w) (band_neighbors (band_word (mw_band w) query)) after table in
  moved query rows w w' →
  i = mw_query_variant w ∧ p ∈ rows ∨
  ahead (finish_window (length rows) nv w') i q p ∧ mw_phase (finish_window (length rows) nv w') = mw_phase w.
Proof.
  intros (b & Hb & Hn & Hw) Hq Hi Hband He Hv Hp Hpos Ha rows [M1 M2 M3 M4 M5 M6 M7]. unfold finish_window.
  destruct (decide (mw_query_variant w < i ∨ mw_query_variant w = i ∧ mw_band w < b)) as [Hl|Hl].
  - right. destruct (Nat.ltb_spec (length rows) WINDOW_SIZE) as [Hlt|Hge].
    + destruct (ahead_next w' i q p b nv He Hv Hb Hn) as (E & Ha' & Hph); [lia..|].
      destruct (next_band nv w') as [more w'']. cbn in *. subst more. split; [done|congruence].
    + split; [|done]. exists b. split_and!; [lia..|done|]. rewrite M4, M5. lia.
  - destruct Hw as [|[|(Eq & Eb & after' & Ha' & Hlt)]]; [tauto..|].
    specialize (Hq (eq_sym Eq)) as ->. rewrite Ha in Ha'. injection Ha' as <-. subst b.
    destruct (window_covers (in_references w) (mw_band w) (band_neighbors (band_word (mw_band w) query)) after table p)
      as [|(Hfull & row & Hlast & Hrow)]; [done..|by left|]. fold rows in Hfull, Hlast.
    right. rewrite Hlast in M7. rewrite Hfull, Nat.ltb_irrefl. split; [|done].
    exists (mw_band w). split_and!; [lia..|done|]. right; right. split_and!; [congruence..|].
    eexists. split; [exact M7|]. unfold in_references. by rewrite M2.
Qed.

(** * What matching keeps *)

(** ** Views of the tables *)

Definition variant (db : SimilarDb) (e i : Z) (v : SimilarVariant) : Prop :=
  ∃ row, sd_variants db !! (e, i) = Some row ∧ read_hash row = Some v.

Definition evidence_posting (e i : Z) (v : SimilarVariant) : Posting :=
  {| po_evidence_id := e; po_group_id := []; po_variant := i; po_hash := v |}.
Definition reference_posting (g : str) (i : Z) (v : SimilarVariant) : Posting :=
  {| po_evidence_id := 0; po_group_id := g; po_variant := i; po_hash := v |}.

Definition work_at (db : SimilarDb) (e : Z) (w : MatchWork) : Prop :=
  sd_work db !! e = Some (work_row w) ∧ mw_evidence_id w = e.

Definition joined (db : SimilarDb) (g : str) (e d : Z) : Prop :=
  ∃ row, sd_members db !! (g, e) = Some row ∧ mb_distance row ≤ d.
Definition grouped (db : SimilarDb) (e : Z) : Prop := ∃ g d, joined db g e d.
Definition is_reference (db : SimilarDb) (e : Z) : Prop := ∃ g, sd_references db !! g = Some e.

(** The reference of [g] and the content [e] have hashes that match at distance [d]. *)
Definition matching (db : SimilarDb) (g : str) (e d : Z) : Prop :=
  ∃ r i j v v', sd_references db !! g = Some r ∧ variant db r i v ∧ variant db e j v' ∧
    confirmed_distance v v' = Some d.

Definition postings (db : SimilarDb) (w : MatchWork) : list Posting :=
  if in_references w then reference_postings db else evidence_postings db.

Definition ref_variants_ok (db : SimilarDb) : Prop :=
  ∀ g i, sd_reference_variants db !! (g, i) = sd_references db !! g ≫= λ r, sd_variants db !! (r, i).

Lemma variant_functional db e i v v' : variant db e i v → variant db e i v' → v = v'.
Proof. intros (row & H1 & H2) (row' & H3 & H4). congruence. Qed.

Lemma elem_of_evidence_postings db p :
  p ∈ evidence_postings db ↔ ∃ e i v, p = evidence_posting e i v ∧ variant db e i v.
Proof.
  unfold evidence_postings. rewrite list_elem_of_omap. split.
  - intros ([[e i] row] & Hin & H). apply elem_of_map_to_list in Hin. cbn in H.
    apply fmap_Some in H as (v & H & ->). exists e, i, v. split; [done|]. by exists row.
  - intros (e & i & v & -> & row & H1 & H2). exists (e, i, row). rewrite elem_of_map_to_list. split; [done|].
    cbn. by rewrite H2.
Qed.

Lemma elem_of_reference_postings db p :
  ref_variants_ok db →
  p ∈ reference_postings db ↔ ∃ g r i v, p = reference_posting g i v ∧ sd_references db !! g = Some r ∧ variant db r i v.
Proof.
  intros Hr. unfold reference_postings. rewrite list_elem_of_omap. split.
  - intros ([[g i] row] & Hin & H). apply elem_of_map_to_list in Hin. cbn in H.
    apply fmap_Some in H as (v & H & ->). rewrite Hr in Hin. apply bind_Some in Hin as (r & H1 & H2).
    exists g, r, i, v. split_and!; [done..|]. by exists row.
  - intros (g & r & i & v & -> & H0 & row & H1 & H2). exists (g, i, row). rewrite elem_of_map_to_list, Hr, H0.
    split; [done|]. cbn. by rewrite H2.
Qed.

Lemma postings_positioned db w band : ref_variants_ok db → positioned (in_references w) band (postings db w).
Proof.
  intros Hr p q Hp Hq Heq. apply position_Eq in Heq as (_ & Hv & Hid). unfold postings in Hp, Hq.
  destruct (in_references w).
  - apply elem_of_reference_postings in Hp as (g & r & i & v & -> & H1 & H2); [|done].
    apply elem_of_reference_postings in Hq as (g' & r' & i' & v' & -> & H3 & H4); [|done]. cbn in *. subst.
    assert (r = r') as -> by congruence. by rewrite (variant_functional _ _ _ _ _ H2 H4).
  - apply elem_of_evidence_postings in Hp as (e & i & v & -> & H2).
    apply elem_of_evidence_postings in Hq as (e' & i' & v' & -> & H4). cbn in *. subst.
    by rewrite (variant_functional _ _ _ _ _ H2 H4).
Qed.

Lemma phase_to_db_inj p q : phase_to_db p = phase_to_db q → p = q.
Proof. destruct p, q; try done; intros H; vm_compute in H; discriminate H. Qed.

Lemma work_at_functional db e w w' : work_at db e w → work_at db e w' → w = w'.
Proof.
  intros [H1 H2] [H3 H4]. rewrite H1 in H3. injection H3 as Hp ????????. apply phase_to_db_inj in Hp.
  destruct w, w'; cbn in *. by subst.
Qed.

(** The tables with the work [w] saved. *)
Definition put (w : MatchWork) (db : SimilarDb) : SimilarDb :=
  set_work (<[mw_evidence_id w := work_row w]> (sd_work db)) db.

Lemma work_at_put w db e w' :
  work_at (put w db) e w' ↔ e = mw_evidence_id w ∧ w' = w ∨ e ≠ mw_evidence_id w ∧ work_at db e w'.
Proof.
  split.
  - intros H. destruct (decide (e = mw_evidence_id w)) as [->|Hne].
    + left. split; [done|]. eapply (work_at_functional (put w db)); [exact H|]. split; [|done]. apply lookup_insert_eq.
    + right. split; [done|]. destruct H as [H ?]. split; [|done]. cbn in H. by rewrite lookup_insert_ne in H.
  - intros [[-> ->]|[Hne [H ?]]].
    + split; [apply lookup_insert_eq|done].
    + split; [|done]. cbn. by rewrite lookup_insert_ne.
Qed.

Lemma put_put w w' db : mw_evidence_id w = mw_evidence_id w' → put w (put w' db) = put w db.
Proof. intros H. unfold put. cbn. unfold set_work. cbn. by rewrite H, insert_insert_eq. Qed.

(** ** The invariant *)

(** The work of [e], if it compares with references, has not seen the reference posting [p]. *)
Definition reference_ahead (db : SimilarDb) (e j : Z) (v : SimilarVariant) (p : Posting) : Prop :=
  ∃ w, work_at db e w ∧
    ((mw_phase w = References ∨ mw_phase w = Peer) ∧ mw_reference_revision w ≠ sd_reference_revision db ∨
     mw_phase w = References ∧ ahead w j v p).

(** The work of [r] collects the members of its group and has not seen [p]. *)
Definition member_ahead (db : SimilarDb) (r i : Z) (v : SimilarVariant) (p : Posting) : Prop :=
  ∃ w, work_at db r w ∧ mw_phase w = Members ∧ ahead w i v p.

(** [e] is in a group, or its work may still find the reference of one. *)
Definition covered (db : SimilarDb) (e : Z) : Prop :=
  grouped db e ∨ is_reference db e ∨
  ∃ w, work_at db e w ∧ (mw_phase w = References ∨
    mw_phase w = Peer ∧ mw_reference_revision w ≠ sd_reference_revision db).

(** [e] is covered, or its work looks for a peer and has not seen [p]. *)
Definition cared (db : SimilarDb) (e i : Z) (v : SimilarVariant) (p : Posting) : Prop :=
  covered db e ∨ ∃ w, work_at db e w ∧ mw_phase w = Peer ∧ ahead w i v p.

Record work_ok (db : SimilarDb) (w : MatchWork) : Prop := {
  wo_band : 0 ≤ mw_band w ≤ 3;
  wo_variant : ∃ v, variant db (mw_evidence_id w) (mw_query_variant w) v;
  wo_neighbor : 0 ≤ mw_neighbor w ≤ 136;
  wo_revision : mw_reference_revision w ≤ sd_reference_revision db;
  wo_members : mw_phase w = Members → is_reference db (mw_evidence_id w);
  wo_others : mw_phase w = References ∨ mw_phase w = Peer → ~ is_reference db (mw_evidence_id w);
  wo_peer : mw_phase w = Peer → mw_found_reference w = false;
  wo_found : mw_found_reference w = true → grouped db (mw_evidence_id w);
}.

Record Inv (db : SimilarDb) : Prop := {
  inv_ids : ∀ e row, sd_evidence db !! e = Some row → 0 < e;
  inv_contents : ∀ e e' row row', sd_evidence db !! e = Some row → sd_evidence db !! e' = Some row' →
    ev_content row = ev_content row' → e = e';
  inv_rows : ∀ e row, sd_evidence db !! e = Some row →
    ev_scheme row = SIMILARITY_SCHEME ∧ SimilarContentKey_validate (ev_content row) = Ok () ∧
    0 ≤ sk_byte_length (ev_content row);
  inv_variants : ∀ e i row, sd_variants db !! (e, i) = Some row →
    is_Some (sd_evidence db !! e) ∧ is_Some (sd_work db !! e) ∧ 0 ≤ i ∧ ∃ v, read_hash row = Some v ∧ variant_typed v;
  inv_listed : ∀ e, is_Some (sd_work db !! e) → is_Some (sd_evidence db !! e) ∧
    ∃ vs, 1 ≤ zlen vs ≤ 8 ∧ ∀ i v, variant db e i v ↔ 0 ≤ i ∧ vs !! Z.to_nat i = Some v;
  inv_work : ∀ e row, sd_work db !! e = Some row → ∃ w, work_at db e w ∧ work_ok db w;
  inv_groups : ∀ g row, sd_groups db !! g = Some row → ∃ r evidence,
    sd_references db !! g = Some r ∧ sd_evidence db !! r = Some evidence ∧
    row = {| gr_scheme := SIMILARITY_SCHEME; gr_reference := ev_content evidence |};
  inv_references : ∀ g r, sd_references db !! g = Some r → is_Some (sd_groups db !! g) ∧ is_Some (sd_work db !! r);
  inv_reference_inj : ∀ g g' r, sd_references db !! g = Some r → sd_references db !! g' = Some r → g = g';
  inv_reference_variants : ref_variants_ok db;
  inv_members : ∀ g e row, sd_members db !! (g, e) = Some row → matching db g e (mb_distance row);
  inv_joined : ∀ g r i v e j v' d,
    sd_references db !! g = Some r → variant db r i v → variant db e j v' → confirmed_distance v v' = Some d →
    joined db g e d ∨ member_ahead db r i v (evidence_posting e j v') ∨
    reference_ahead db e j v' (reference_posting g i v);
  inv_paired : ∀ e i v e' j v' d,
    e ≠ e' → variant db e i v → variant db e' j v' → confirmed_distance v v' = Some d →
    cared db e i v (evidence_posting e' j v') ∨ cared db e' j v' (evidence_posting e i v);
  inv_unmatched : ∀ g r i v e w j v' d,
    sd_references db !! g = Some r → variant db r i v → variant db e j v' → confirmed_distance v v' = Some d →
    work_at db e w → mw_reference_revision w = sd_reference_revision db →
    (mw_phase w = References → mw_found_reference w = true ∨ ahead w j v' (reference_posting g i v)) ∧
    mw_phase w ≠ Peer;
  inv_apart : ∀ g g' r r' i j v v',
    sd_references db !! g = Some r → sd_references db !! g' = Some r' → variant db r i v → variant db r' j v' →
    is_Some (confirmed_distance v v') → g = g';
}.

Lemma confirmed_ahead phase w i q p :
  0 ≤ i → 0 ≤ po_evidence_id p → 0 ≤ po_variant p → variant_typed q → variant_typed (po_hash p) →
  is_Some (confirmed_distance q (po_hash p)) → ahead (restart phase w) i q p.
Proof. intros Hi He Hv Hq Hp [d Hd]. apply ahead_start; [done..|]. by eapply confirmed_band. Qed.

Section Facts.
Context (db : SimilarDb) (HI : Inv db).

Lemma variant_facts e i v : variant db e i v → variant_typed v ∧ 0 ≤ i ∧ 0 < e ∧ is_Some (sd_work db !! e).
Proof.
  intros (row & H1 & H2). destruct (inv_variants db HI _ _ _ H1) as ([ev He] & Hw & Hi & v' & Hv & Ht).
  rewrite H2 in Hv. injection Hv as <-. split_and!; [done..| |done]. by eapply inv_ids.
Qed.

Lemma work_at_ok e w : work_at db e w → work_ok db w ∧ mw_evidence_id w = e.
Proof.
  intros Hw. split; [|apply Hw]. destruct (inv_work db HI e (work_row w)) as (w' & Hw' & Hok); [apply Hw|].
  by rewrite (work_at_functional _ _ _ _ Hw Hw').
Qed.

End Facts.

(** The stored variants of a content, in the order of their index. *)
Lemma evidence_postings_distinct db : NoDup (evidence_postings db).
Proof.
  unfold evidence_postings. generalize (NoDup_map_to_list (sd_variants db)) as Hnd.
  assert (∀ k r r', (k, r) ∈ map_to_list (sd_variants db) → (k, r') ∈ map_to_list (sd_variants db) → r = r') as Hf.
  { intros k r r'. rewrite !elem_of_map_to_list. congruence. }
  revert Hf. generalize (map_to_list (sd_variants db)) as l. intros l Hf.
  induction l as [|[[e i] row] l IH]; intros Hnd; cbn; [constructor|].
  apply NoDup_cons in Hnd as [Hni Hnd]. assert (NoDup (omap (λ entry : Z * Z * HashRow,
    (λ hash, {| po_evidence_id := entry.1.1; po_group_id := []; po_variant := entry.1.2; po_hash := hash |})
      <$> read_hash entry.2) l)) as Hrest.
  { apply IH; [|done]. intros k r r' H1 H2. eapply Hf; by apply elem_of_cons; right. }
  destruct (read_hash row) as [v|]; cbn; [|done]. constructor; [|done].
  intros ([[e' i'] row'] & Hin & H)%list_elem_of_omap. cbn in H. apply fmap_Some in H as (v' & _ & [= -> -> _]).
  apply Hni. replace row with row'; [done|]. eapply (Hf (e', i')); [by apply elem_of_cons; right|by apply elem_of_cons; left].
Qed.

Lemma imap_postings_sorted e n vs :
  StronglySorted (cmp_le (compare_on Z.compare po_variant))
    (imap (λ k v, evidence_posting e (Z.of_nat (n + k)) v) vs).
Proof.
  revert n. induction vs as [|v vs IH]; intros n; cbn; [constructor|]. constructor.
  - eapply eq_ind; [apply (IH (S n))|]. apply imap_ext. intros k v' _. cbn. do 2 f_equal. lia.
  - rewrite Forall_forall. intros p (k & Hk)%list_elem_of_lookup. rewrite list_lookup_imap in Hk.
    apply fmap_Some in Hk as (v' & _ & ->). unfold cmp_le, compare_on. cbn. rewrite Z.compare_le_iff. lia.
Qed.

Lemma stored_variants_eq db e vs :
  zlen vs ≤ 8 → (∀ i v, variant db e i v ↔ 0 ≤ i ∧ vs !! Z.to_nat i = Some v) → stored_variants e db = vs.
Proof.
  intros Hlen Hvs. set (ps := imap (λ k v, evidence_posting e (Z.of_nat k) v) vs).
  assert (filter (λ p : Posting, po_evidence_id p = e) (evidence_postings db) ≡ₚ ps) as Hperm.
  { apply NoDup_Permutation; [apply NoDup_filter, evidence_postings_distinct| |].
    - apply NoDup_alt. intros k k' p. unfold ps. rewrite !list_lookup_imap. intros H1 H2.
      apply fmap_Some in H1 as (? & _ & ->). apply fmap_Some in H2 as (? & _ & H2). injection H2 as H2 _. lia.
    - intros p. rewrite list_elem_of_filter, elem_of_evidence_postings. unfold ps. rewrite list_elem_of_lookup.
      setoid_rewrite list_lookup_imap. setoid_rewrite fmap_Some. split.
      + intros (He & e' & i & v & -> & Hv). cbn in He. subst e'. apply Hvs in Hv as [Hi Hv].
        exists (Z.to_nat i), v. split; [done|]. by rewrite Z2Nat.id.
      + intros (k & v & Hv & ->). split; [done|]. exists e, (Z.of_nat k), v. split; [done|]. apply Hvs.
        split; [lia|]. by rewrite Nat2Z.id. }
  unfold stored_variants. assert (sort_by (compare_on Z.compare po_variant)
    (filter (λ p : Posting, po_evidence_id p = e) (evidence_postings db)) = ps) as ->.
  { eapply (StronglySorted_unique_strong (cmp_le (compare_on Z.compare po_variant)));
      [|by apply (sort_by_sorted _ _)| |by rewrite sort_by_perm].
    - intros p q Hp Hq Hpq Hqp. rewrite sort_by_perm, Hperm in Hp. unfold ps in Hp, Hq.
      apply list_elem_of_lookup in Hp as [k Hp]. apply list_elem_of_lookup in Hq as [k' Hq].
      rewrite list_lookup_imap in Hp, Hq. apply fmap_Some in Hp as (v & Hp & ->). apply fmap_Some in Hq as (v' & Hq & ->).
      unfold cmp_le, compare_on in Hpq, Hqp. cbn in Hpq, Hqp. rewrite Z.compare_le_iff in Hpq, Hqp.
      assert (k = k') as <- by lia. congruence.
    - apply (imap_postings_sorted e 0). }
  unfold ps. assert (po_hash <$> imap (λ k v, evidence_posting e (Z.of_nat k) v) vs = vs) as ->.
  { apply list_eq. intros k. rewrite list_lookup_fmap, list_lookup_imap. by destruct (vs !! k). }
  apply take_ge. unfold zlen in Hlen. lia.
Qed.

Section Stored.
Context (db : SimilarDb) (HI : Inv db).

Lemma stored_variants_listed e : is_Some (sd_work db !! e) →
  1 ≤ zlen (stored_variants e db) ≤ 8 ∧
  ∀ i v, variant db e i v ↔ 0 ≤ i ∧ stored_variants e db !! Z.to_nat i = Some v.
Proof.
  intros He. destruct (inv_listed db HI e He) as (_ & vs & Hlen & Hvs).
  rewrite (stored_variants_eq db e vs); [done|lia|done].
Qed.

Lemma variant_index e i v : variant db e i v → 0 ≤ i < zlen (stored_variants e db).
Proof.
  intros Hv. destruct (variant_facts db HI e i v Hv) as (_ & _ & _ & Hw).
  apply (stored_variants_listed e Hw) in Hv as [Hi Hv]. apply lookup_lt_Some in Hv. unfold zlen. lia.
Qed.

Lemma index_variant e i :
  is_Some (sd_work db !! e) → 0 ≤ i < zlen (stored_variants e db) → ∃ v, variant db e i v.
Proof.
  intros He Hi. destruct (stored_variants_listed e He) as [_ Hl].
  destruct (lookup_lt_is_Some_2 (stored_variants e db) (Z.to_nat i)) as [v Hv]; [unfold zlen in Hi; lia|].
  exists v. apply Hl. split; [lia|done].
Qed.
End Stored.

(** ** Recording matches *)

(** [db'] records more matches than [db] and is otherwise the same. *)
Record grows (db db' : SimilarDb) : Prop := {
  gw_same : db' = set_members (sd_members db') db;
  gw_kept : ∀ g e d, joined db g e d → joined db' g e d;
  gw_sound : ∀ g e row, sd_members db' !! (g, e) = Some row →
    (∃ row', sd_members db !! (g, e) = Some row' ∧ mb_distance row' = mb_distance row) ∨
    matching db g e (mb_distance row);
}.

Lemma grows_refl db : grows db db.
Proof. split; [by destruct db|done|]. intros g e row H. left. by exists row. Qed.

Lemma grows_trans db1 db2 db3 : grows db1 db2 → grows db2 db3 → grows db1 db3.
Proof.
  intros [E1 K1 S1] [E2 K2 S2]. split; [rewrite E2, E1; done|auto|].
  intros g e row H. destruct (S2 g e row H) as [(row' & H' & Hd)|Hm].
  - destruct (S1 g e row' H') as [(row'' & H'' & Hd')|Hm]; [left; exists row''; split; [done|congruence]|].
    right. by rewrite <-Hd.
  - right. rewrite E1 in Hm. exact Hm.
Qed.

Lemma grouped_grows db db' e : grows db db' → grouped db e → grouped db' e.
Proof. intros HG (g & d & H). exists g, d. by eapply gw_kept. Qed.

Lemma grows_work_ok db db' w : grows db db' → work_ok db w → work_ok db' w.
Proof.
  intros HG [H1 H2 H3 H4 H5 H6 H7 H8]. assert (mw_found_reference w = true → grouped db' (mw_evidence_id w)) as H9.
  { intros Hf. eapply grouped_grows; [done|auto]. }
  destruct HG as [E _ _]. revert H9. rewrite E. intros H9. split; done.
Qed.

Lemma inv_grow db db' : Inv db → grows db db' → Inv db'.
Proof.
  intros HI HG. pose proof HG as [E HK HS].
  assert (∀ e, covered db e → covered db' e) as Hcov.
  { intros e [H|[H|H]]; [left; by eapply grouped_grows|right; left; rewrite E; exact H|right; right; rewrite E; exact H]. }
  split.
  1-5, 7-10, 14-15: rewrite E; apply HI.
  - intros e row H. assert (sd_work db !! e = Some row) as H0 by (by rewrite E in H).
    destruct (inv_work db HI e row H0) as (w & Hw & Hok). exists w. split; [rewrite E; exact Hw|by eapply grows_work_ok].
  - intros g e row H. destruct (HS g e row H) as [(row' & H' & Hd)|Hm]; [rewrite <-Hd|]; rewrite E; [|exact Hm].
    apply (inv_members db HI _ _ _ H').
  - intros g r i v e j v' d H1 H2 H3 H4. rewrite E in H1, H2, H3.
    destruct (inv_joined db HI g r i v e j v' d H1 H2 H3 H4) as [H|[H|H]]; [left; by apply HK|right..];
      rewrite E; [by left|by right].
  - intros e i v e' j v' d Hne H1 H2 H3. rewrite E in H1, H2.
    destruct (inv_paired db HI e i v e' j v' d Hne H1 H2 H3) as [[H|H]|[H|H]];
      [left; left; by apply Hcov|left; right; rewrite E; exact H|right; left; by apply Hcov|right; right; rewrite E; exact H].
Qed.

(** ** Saving a cursor *)

Lemma work_ok_put db w w' : work_ok db w' → work_ok (put w db) w'.
Proof. by intros [H1 H2 H3 H4 H5 H6 H7 H8]. Qed.

Section Put.
Context (db : SimilarDb) (HI : Inv db) (w w' : MatchWork) (e : Z).
Context (He : mw_evidence_id w' = e) (Hw : work_at db e w) (Hok : work_ok db w').

Lemma inv_put :
  (∀ g i v x j v' d, sd_references db !! g = Some e → variant db e i v → variant db x j v' →
     confirmed_distance v v' = Some d → mw_phase w = Members → ahead w i v (evidence_posting x j v') →
     joined db g x d ∨ mw_phase w' = Members ∧ ahead w' i v (evidence_posting x j v')) →
  (∀ g r i v j v' d, sd_references db !! g = Some r → variant db r i v → variant db e j v' →
     confirmed_distance v v' = Some d →
     (mw_phase w = References ∨ mw_phase w = Peer) ∧ mw_reference_revision w ≠ sd_reference_revision db ∨
       mw_phase w = References ∧ ahead w j v' (reference_posting g i v) →
     joined db g e d ∨
       (mw_phase w' = References ∨ mw_phase w' = Peer) ∧ mw_reference_revision w' ≠ sd_reference_revision db ∨
       mw_phase w' = References ∧ ahead w' j v' (reference_posting g i v)) →
  (∀ i v x j v' d, e ≠ x → variant db e i v → variant db x j v' → confirmed_distance v v' = Some d →
     mw_phase w = References ∨ mw_phase w = Peer ∧ mw_reference_revision w ≠ sd_reference_revision db ∨
       mw_phase w = Peer ∧ ahead w i v (evidence_posting x j v') →
     grouped db e ∨
     mw_phase w' = References ∨ mw_phase w' = Peer ∧ mw_reference_revision w' ≠ sd_reference_revision db ∨
       mw_phase w' = Peer ∧ ahead w' i v (evidence_posting x j v')) →
  (∀ g r i v j v' d, sd_references db !! g = Some r → variant db r i v → variant db e j v' →
     confirmed_distance v v' = Some d → mw_reference_revision w' = sd_reference_revision db →
     (mw_phase w' = References → mw_found_reference w' = true ∨ ahead w' j v' (reference_posting g i v)) ∧
     mw_phase w' ≠ Peer) →
  Inv (put w' db).
Proof.
  intros T1 T2 T3 T4.
  assert (∀ x, is_Some (sd_work (put w' db) !! x) ↔ is_Some (sd_work db !! x)) as Hpresent.
  { intros x. cbn. rewrite He. destruct (decide (x = e)) as [->|].
    - rewrite lookup_insert_eq. destruct Hw as [Hw0 _]. rewrite Hw0. by split; intros _; eexists.
    - by rewrite lookup_insert_ne. }
  assert (∀ x w0, work_at db x w0 → x ≠ e → work_at (put w' db) x w0) as Hother.
  { intros x w0 Hx Hne. apply work_at_put. right. by rewrite He. }
  assert (work_at (put w' db) e w') as Hself by (apply work_at_put; by left).
  assert (∀ i v x j v' d, e ≠ x → variant db e i v → variant db x j v' → confirmed_distance v v' = Some d →
    cared db e i v (evidence_posting x j v') → cared (put w' db) e i v (evidence_posting x j v')) as Hcared.
  { intros i v x j v' d Hne H1 H2 H3 H.
    destruct (decide (mw_phase w = References ∨ mw_phase w = Peer)) as [Hp|Hp].
    - assert (grouped db e ∨ is_reference db e ∨ mw_phase w = References ∨
        mw_phase w = Peer ∧ mw_reference_revision w ≠ sd_reference_revision db ∨
        mw_phase w = Peer ∧ ahead w i v (evidence_posting x j v')) as Hc.
      { destruct H as [[H|[H|(w0 & Hw0 & H)]]|(w0 & Hw0 & H)]; [tauto..| |];
          rewrite (work_at_functional _ _ _ _ Hw0 Hw) in H; tauto. }
      destruct Hc as [Hc|[Hc|Hc]]; [left; by left|left; by right; left|].
      destruct (T3 i v x j v' d Hne H1 H2 H3 Hc) as [Hg|[Hg|[Hg|Hg]]];
        [left; by left|left; right; right; exists w'; tauto..|right; exists w'; tauto].
    - destruct H as [[H|[H|(w0 & Hw0 & H)]]|(w0 & Hw0 & H)]; [left; by left|left; by right; left|..];
        rewrite (work_at_functional _ _ _ _ Hw0 Hw) in H; tauto. }
  assert (∀ x i v p, x ≠ e → cared db x i v p → cared (put w' db) x i v p) as Hcared'.
  { intros x i v p Hne [[H|[H|(w0 & Hw0 & H)]]|(w0 & Hw0 & H)];
      [left; by left|left; by right; left|left; right; right|right]; exists w0; auto. }
  split.
  - apply (inv_ids db HI).
  - apply (inv_contents db HI).
  - apply (inv_rows db HI).
  - intros x i row H. destruct (inv_variants db HI x i row H) as (H1 & H2 & H3). split; [done|].
    split; [by apply Hpresent|done].
  - intros x Hx. apply (inv_listed db HI). by apply Hpresent.
  - intros x row H. cbn in H. destruct (decide (x = e)) as [->|Hne].
    + exists w'. split; [done|by apply work_ok_put].
    + rewrite lookup_insert_ne in H by congruence. destruct (inv_work db HI x row H) as (w0 & Hw0 & Hok0).
      exists w0. split; [by apply Hother|by apply work_ok_put].
  - apply (inv_groups db HI).
  - intros g r H. destruct (inv_references db HI g r H) as [H1 H2]. split; [done|]. by apply Hpresent.
  - apply (inv_reference_inj db HI).
  - apply (inv_reference_variants db HI).
  - apply (inv_members db HI).
  - intros g r i v x j v' d H1 H2 H3 H4.
    destruct (inv_joined db HI g r i v x j v' d H1 H2 H3 H4) as [H|[(w0 & Hw0 & Hp & Ha)|(w0 & Hw0 & H)]]; [by left|..].
    + destruct (decide (r = e)) as [->|Hne]; [|right; left; exists w0; auto].
      rewrite (work_at_functional _ _ _ _ Hw0 Hw) in Hp, Ha.
      destruct (T1 g i v x j v' d H1 H2 H3 H4 Hp Ha) as [|]; [by left|right; left; exists w'; tauto].
    + destruct (decide (x = e)) as [->|Hne]; [|right; right; exists w0; auto].
      rewrite (work_at_functional _ _ _ _ Hw0 Hw) in H.
      destruct (T2 g r i v j v' d H1 H2 H3 H4 H) as [|]; [by left|right; right; exists w'; tauto].
  - intros x i v x' j v' d Hne H1 H2 H3.
    pose proof H3 as H3'. rewrite confirmed_sym in H3'.
    destruct (inv_paired db HI x i v x' j v' d Hne H1 H2 H3) as [H|H]; [left|right].
    + destruct (decide (x = e)) as [->|]; [by eapply Hcared|by apply Hcared'].
    + destruct (decide (x' = e)) as [->|]; [by eapply Hcared|by apply Hcared'].
  - intros g r i v x w0 j v' d H1 H2 H3 H4 [[-> ->]|[Hne Hw0]]%work_at_put Hr.
    + rewrite He in H3. by eapply T4.
    + by eapply (inv_unmatched db HI).
  - apply (inv_apart db HI).
Qed.
End Put.

(** What has become of a matching row of a window. *)
Definition handled (db : SimilarDb) (w w' : MatchWork) (p : Posting) (d : Z) : Prop :=
  match mw_phase w with
  | References => joined db (po_group_id p) (mw_evidence_id w) d ∧ mw_found_reference w' = true
  | Peer => po_evidence_id p = mw_evidence_id w
  | Members => ∃ g, sd_references db !! g = Some (mw_evidence_id w) ∧ joined db g (po_evidence_id p) d
  | MatchComplete => True
  end.

Lemma finish_window_facts rows nv w :
  0 ≤ mw_band w ≤ 3 → 0 ≤ mw_query_variant w < nv → 0 ≤ mw_neighbor w ≤ 136 →
  let w' := finish_window rows nv w in
  mw_evidence_id w' = mw_evidence_id w ∧ mw_reference_revision w' = mw_reference_revision w ∧
  mw_found_reference w' = mw_found_reference w ∧ 0 ≤ mw_band w' ≤ 3 ∧ 0 ≤ mw_query_variant w' < nv ∧
  0 ≤ mw_neighbor w' ≤ 136 ∧
  (mw_phase w' = mw_phase w ∨ ∃ w0, w' = restart (exhausted (mw_phase w) (mw_found_reference w)) w0).
Proof.
  intros Hb Hv Hn w'. unfold w', finish_window. destruct (rows <? WINDOW_SIZE)%nat; [|split_and!; try lia; auto].
  unfold next_band. cbn.
  destruct (Z.ltb_spec (mw_band w) 3); [cbn; split_and!; try lia; auto|].
  destruct (Z.ltb_spec (mw_query_variant w + 1) nv); [cbn; split_and!; try lia; auto|].
  cbn. split_and!; try lia; try done. right. by eexists (at_band _ _ (reset_posting w)).
Qed.

Lemma in_references_true w : mw_phase w = References → in_references w = true.
Proof. intros H. unfold in_references. by rewrite H. Qed.
Lemma in_references_false w : mw_phase w ≠ References → in_references w = false.
Proof. intros H. unfold in_references. by apply bool_decide_eq_false. Qed.

Section Window.
Context (db : SimilarDb) (HI : Inv db) (w : MatchWork) (e : Z) (Hw : work_at db e w).

Lemma work_index v : variant db e (mw_query_variant w) v → 0 ≤ mw_query_variant w < zlen (stored_variants e db).
Proof. apply (variant_index db HI). Qed.

(** A work whose references have changed starts over. *)
Lemma inv_restart :
  mw_phase w = References ∨ mw_phase w = Peer → mw_reference_revision w ≠ sd_reference_revision db →
  Inv (put (with_reference (sd_reference_revision db) false (restart References w)) db).
Proof.
  intros Hp Hr. destruct (work_at_ok db HI e w Hw) as [Hok He].
  assert (is_Some (sd_work db !! e)) as Hs by (destruct Hw; by eexists).
  assert (∀ g r i v j v' d, sd_references db !! g = Some r → variant db r i v → variant db e j v' →
    confirmed_distance v v' = Some d →
    ahead (with_reference (sd_reference_revision db) false (restart References w)) j v' (reference_posting g i v)) as Hahead.
  { intros g r i v j v' d H1 H2 H3 H4.
    destruct (variant_facts db HI _ _ _ H2) as (? & ? & _), (variant_facts db HI _ _ _ H3) as (? & ? & _).
    apply (confirmed_ahead References (with_reference (sd_reference_revision db) false w)); [done|done|done..|].
    cbn. rewrite confirmed_sym. by eexists. }
  eapply (inv_put db HI w _ e); [done|done| | | | |].
  - split; cbn; [lia| |lia|lia|done| |done|done].
    + rewrite He. apply (index_variant db HI); [done|]. pose proof (stored_variants_listed db HI e Hs). lia.
    + intros _. by apply (wo_others db w Hok).
  - intros g i v x j v' d _ _ _ _ H. destruct Hp; congruence.
  - intros g r i v j v' d H1 H2 H3 H4 _. right; right. split; [done|]. by eapply Hahead.
  - intros. right; by left.
  - intros g r i v j v' d H1 H2 H3 H4 _. split; [intros _; right; by eapply Hahead|done].
Qed.

Context (query : SimilarVariant) (Hq : variant db e (mw_query_variant w) query).
Context (after : Position) (Hafter : cursor_after query w = Some after).
Context (w1 : MatchWork).

Let rows := window (in_references w) (mw_band w) (band_neighbors (band_word (mw_band w) query)) after (postings db w).
Let w2 := finish_window (length rows) (zlen (stored_variants e db)) w1.

Context (Hm : moved query rows w w1).
Context (Hphase : mw_phase w ≠ MatchComplete).
Context (Hrev : mw_phase w = Members ∨ mw_reference_revision w = sd_reference_revision db).
Context (Hrows : ∀ p d, p ∈ rows → confirmed_distance query (po_hash p) = Some d → handled db w w1 p d).
Context (Hkeep : mw_found_reference w = true → mw_found_reference w1 = true).
Context (Hfound : mw_found_reference w1 = true → grouped db e).
Context (Hfound' : mw_phase w ≠ References → mw_found_reference w1 = mw_found_reference w).

(** A posting that was ahead has been handled or still is. *)
Lemma window_step i q p d :
  variant db e i q → p ∈ postings db w → confirmed_distance q (po_hash p) = Some d → ahead w i q p →
  handled db w w1 p d ∨ ahead w2 i q p ∧ mw_phase w2 = mw_phase w.
Proof.
  intros Hi Hp Hd Ha. destruct (work_at_ok db HI e w Hw) as [Hok He].
  assert (0 ≤ po_evidence_id p ∧ 0 ≤ po_variant p) as [Hp1 Hp2].
  { unfold postings in Hp. destruct (in_references w).
    - apply elem_of_reference_postings in Hp as (g & r & i' & v' & -> & _ & Hv); [|apply HI].
      apply (variant_facts db HI) in Hv. cbn. naive_solver lia.
    - apply elem_of_evidence_postings in Hp as (e' & i' & v' & -> & Hv). apply (variant_facts db HI) in Hv.
      cbn. naive_solver lia. }
  destruct (ahead_step w w1 i q query p after (postings db w) (zlen (stored_variants e db))) as [[Hqi Hin]|H]; try done.
  - intros ->. by eapply variant_functional.
  - apply (variant_index db HI) in Hi. lia.
  - apply (wo_band db w Hok).
  - apply postings_positioned, HI.
  - left. apply Hrows; [done|]. subst i. by rewrite (variant_functional _ _ _ _ _ Hq Hi).
  - by right.
Qed.

Lemma inv_finish : Inv (put w2 db).
Proof.
  destruct (work_at_ok db HI e w Hw) as [Hok He]. pose proof (work_index query Hq) as Hqi.
  assert (is_Some (sd_work db !! e)) as Hs by (destruct Hw; by eexists).
  destruct (finish_window_facts (length rows) (zlen (stored_variants e db)) w1)
    as (F1 & F2 & F3 & F4 & F5 & F6 & F7).
  { rewrite (mv_band _ _ _ _ Hm). apply Hok. }
  { by rewrite (mv_query_variant _ _ _ _ Hm). }
  { apply (mv_neighbor _ _ _ _ Hm), Hok. }
  fold w2 in F1, F2, F3, F4, F5, F6, F7. rewrite (mv_evidence_id _ _ _ _ Hm), He in F1.
  rewrite (mv_revision _ _ _ _ Hm) in F2. rewrite (mv_phase _ _ _ _ Hm) in F7.
  assert (mw_phase w = References → mw_found_reference w1 = false → mw_phase w2 = References ∨ ∃ w0, w2 = restart Peer w0) as Fr.
  { intros Hr Hf. destruct F7 as [->|[w0 ->]]; [by left|right]. exists w0. by rewrite Hr, Hf. }
  assert (mw_phase w = Peer ∨ mw_phase w = Members → mw_phase w2 = mw_phase w ∨ mw_phase w2 = MatchComplete) as Fo.
  { intros Hr. destruct F7 as [->|[w0 ->]]; [by left|right]. by destruct Hr as [-> | ->]. }
  assert (mw_phase w = References → mw_phase w2 = References ∨
    mw_phase w2 = Peer ∧ mw_found_reference w1 = false ∨ mw_phase w2 = MatchComplete ∧ mw_found_reference w1 = true) as Fp.
  { intros Hr. destruct F7 as [->|[w0 ->]]; [by left|right]. rewrite Hr. cbn. destruct (mw_found_reference w1); tauto. }
  assert (∀ g r i v j v' d, sd_references db !! g = Some r → variant db r i v → variant db e j v' →
    confirmed_distance v v' = Some d → mw_phase w = References → ahead w j v' (reference_posting g i v) →
    joined db g e d ∧ mw_found_reference w1 = true ∨ ahead w2 j v' (reference_posting g i v) ∧ mw_phase w2 = References)
    as Href.
  { intros g r i v j v' d H1 H2 H3 H4 Hr Ha.
    destruct (window_step j v' (reference_posting g i v) d H3) as [H|H]; [| |done|left|right].
    - unfold postings. rewrite in_references_true by done. apply elem_of_reference_postings; [apply HI|].
      by exists g, r, i, v.
    - cbn. by rewrite confirmed_sym.
    - unfold handled in H. rewrite Hr, He in H. exact H.
    - by rewrite Hr in H. }
  eapply (inv_put db HI w w2 e); [done|done|split|..].
  - done.
  - rewrite F1. by apply (index_variant db HI).
  - done.
  - rewrite F2. apply Hok.
  - rewrite F1, <-He. intros Hp. apply (wo_members db w Hok). destruct F7 as [<-|[w0 E]]; [done|].
    rewrite E in Hp. by destruct (mw_phase w), (mw_found_reference w1).
  - rewrite F1, <-He. intros Hp. apply (wo_others db w Hok). destruct F7 as [<-|[w0 E]]; [done|].
    rewrite E in Hp. cbn in Hp. destruct (mw_phase w), (mw_found_reference w1); cbn in Hp; tauto || by destruct Hp.
  - rewrite F3. intros Hp. destruct (mw_phase w) eqn:E; [|..|done].
    + destruct (Fp eq_refl) as [|[[_ ?]|[? _]]]; congruence.
    + rewrite Hfound' by congruence. by apply (wo_peer db w Hok).
    + destruct (Fo (or_intror eq_refl)); congruence.
  - rewrite F3, F1. done.
  - intros g i v x j v' d H1 H2 H3 H4 Hp Ha.
    destruct (window_step i v (evidence_posting x j v') d H2) as [H|[H ?]]; [|done|done| |right; split; [congruence|done]].
    + unfold postings. rewrite in_references_false by congruence. apply elem_of_evidence_postings. by exists x, j, v'.
    + left. unfold handled in H. rewrite Hp, He in H. destruct H as (g' & Hg & Hj).
      by rewrite (inv_reference_inj db HI g g' e H1 Hg).
  - intros g r i v j v' d H1 H2 H3 H4 [[Hp Hne]|[Hp Ha]]; [destruct Hrev; [naive_solver congruence|done]|].
    destruct (Href g r i v j v' d H1 H2 H3 H4 Hp Ha) as [[? _]|[? ?]]; [by left|right; by right].
  - intros i v x j v' d Hne H1 H2 H3 [Hp|[[Hp Hr]|[Hp Ha]]].
    + destruct (mw_found_reference w1) eqn:Ef; [left; by apply Hfound|]. right.
      destruct (Fr Hp eq_refl) as [|[w0 E]]; [by left|right; right]. rewrite E. split; [done|].
      destruct (variant_facts db HI _ _ _ H1) as (? & ? & _), (variant_facts db HI _ _ _ H2) as (? & ? & ? & _).
      apply confirmed_ahead; cbn; [done|lia|done..|]. by eexists.
    + destruct Hrev; [congruence|done].
    + destruct (window_step i v (evidence_posting x j v') d H1) as [H|[H Hsame]]; [|done|done| |].
      * unfold postings. rewrite in_references_false by congruence. apply elem_of_evidence_postings. by exists x, j, v'.
      * unfold handled in H. rewrite Hp, He in H. cbn in H. congruence.
      * right; right; right. split; [congruence|done].
  - intros g r i v j v' d H1 H2 H3 H4 Hr. rewrite F2 in Hr.
    pose proof (inv_unmatched db HI g r i v e w j v' d H1 H2 H3 H4 Hw Hr) as [Hu Hnp].
    destruct (mw_phase w) eqn:E; [|done|..|done].
    + specialize (Hu eq_refl). assert (mw_found_reference w1 = true ∨
        ahead w2 j v' (reference_posting g i v) ∧ mw_phase w2 = References) as Hu'.
      { destruct Hu as [Hu|Hu]; [left; auto|]. destruct (Href g r i v j v' d H1 H2 H3 H4 eq_refl Hu) as [[_ ?]|?]; tauto. }
      split; [intros _; rewrite F3; tauto|]. intros Hp2.
      destruct (Fp eq_refl) as [|[[_ Hf]|[? _]]]; [congruence| |congruence].
      destruct Hu' as [?|[_ ?]]; congruence.
    + destruct (Fo (or_intror eq_refl)) as [Hp2|Hp2]; rewrite Hp2; split; done.
Qed.
End Window.

(** ** A new reference *)

Lemma copied_variants_lookup db e g g' i :
  copied_variants e g db !! (g', i) = if bool_decide (g' = g) then sd_variants db !! (e, i) else None.
Proof.
  unfold copied_variants.
  set (l := map_to_list (filter (λ entry : Z * Z * HashRow, entry.1.1 = e) (sd_variants db))).
  assert (∀ k row, (k, row) ∈ l ↔ sd_variants db !! k = Some row ∧ k.1 = e) as Hl.
  { intros k row. unfold l. by rewrite elem_of_map_to_list, map_lookup_filter_Some. }
  assert (NoDup (((λ entry : Z * Z * HashRow, ((g, entry.1.2), entry.2)) <$> l).*1)) as Hnd.
  { rewrite <-list_fmap_compose. apply NoDup_fmap_2_strong; [|apply NoDup_map_to_list].
    intros [[e1 i1] r1] [[e2 i2] r2] [H1 ?]%Hl [H2 ?]%Hl. cbn in *. intros [= ->]. subst. congruence. }
  apply option_eq. intros row. rewrite <-elem_of_list_to_map by done. rewrite list_elem_of_fmap. split.
  - intros ([[e1 i1] r1] & [= -> -> ->] & [H1 ?]%Hl). cbn in *. subst. by rewrite bool_decide_eq_true_2.
  - case_bool_decide as E; [|done]. intros H. subst. exists (e, i, row). split; [done|]. by apply Hl.
Qed.

(** [e] becomes the reference of the group [g], its first member, and collects the others. *)
Definition established (g : str) (content : SimilarContentKey) (run_id : str) (w : MatchWork) (db : SimilarDb)
    : SimilarDb :=
  let e := mw_evidence_id w in
  put (restart Members w)
    (set_members (<[(g, e) := {| mb_distance := 0; mb_run_id := run_id |}]> (sd_members db))
      (set_references (<[g := e]> (sd_references db)) (copied_variants e g db ∪ sd_reference_variants db)
         (sd_reference_revision db + 1)
         (set_groups (<[g := {| gr_scheme := SIMILARITY_SCHEME; gr_reference := content |}]> (sd_groups db)) db))).

Section Establish.
Context (db : SimilarDb) (HI : Inv db) (w : MatchWork) (e : Z) (Hw : work_at db e w).
Context (Hphase : mw_phase w = Peer) (Hrev : mw_reference_revision w = sd_reference_revision db).
Context (g : str) (evidence : EvidenceRow) (run_id : str).
Context (Hevidence : sd_evidence db !! e = Some evidence) (Hg : sd_groups db !! g = None).

Let db' := established g (ev_content evidence) run_id w db.

Lemma established_group_new : sd_references db !! g = None.
Proof.
  destruct (sd_references db !! g) eqn:E; [|done]. destruct (inv_references db HI _ _ E) as [[? H] _]. congruence.
Qed.

Lemma established_references g' r :
  sd_references db' !! g' = Some r ↔ g' = g ∧ r = e ∨ g' ≠ g ∧ sd_references db !! g' = Some r.
Proof.
  pose proof (proj2 (work_at_ok db HI e w Hw)) as He. unfold db', established. cbn. rewrite He.
  rewrite lookup_insert_Some. naive_solver.
Qed.

Lemma established_is_reference x : is_reference db' x ↔ x = e ∨ is_reference db x.
Proof.
  unfold is_reference. setoid_rewrite established_references. split; [naive_solver|].
  intros [->|[g' H]]; [by exists g; left|]. exists g'. right. split; [|done]. intros ->. by rewrite established_group_new in H.
Qed.

Lemma established_joined g' x d : joined db g' x d → joined db' g' x d.
Proof.
  intros (row & H & Hd). exists row. split; [|done]. unfold db', established. cbn.
  rewrite lookup_insert_ne; [done|]. intros [= <- <-].
  destruct (inv_members db HI _ _ _ H) as (r & ? & ? & ? & ? & Hr & _). by rewrite established_group_new in Hr.
Qed.

Lemma established_work x w0 :
  work_at db' x w0 ↔ x = e ∧ w0 = restart Members w ∨ x ≠ e ∧ work_at db x w0.
Proof.
  pose proof (proj2 (work_at_ok db HI e w Hw)) as He.
  unfold db', established. rewrite work_at_put. cbn. by rewrite He.
Qed.

Lemma established_present x : is_Some (sd_work db' !! x) ↔ is_Some (sd_work db !! x).
Proof.
  pose proof (proj2 (work_at_ok db HI e w Hw)) as He. unfold db', established. cbn. rewrite He.
  destruct (decide (x = e)) as [->|]; [|by rewrite lookup_insert_ne].
  rewrite lookup_insert_eq. destruct Hw as [Hw0 _]. rewrite Hw0. by split; intros _; eexists.
Qed.

(** In its last phase before, the work has seen that no reference matches it. *)
Lemma established_unmatched g' r i v j v' :
  sd_references db !! g' = Some r → variant db r i v → variant db e j v' → ~ is_Some (confirmed_distance v v').
Proof.
  intros H1 H2 H3 [d Hd]. destruct (inv_unmatched db HI g' r i v e w j v' d H1 H2 H3 Hd Hw Hrev) as [_ H]. by apply H.
Qed.

Lemma established_cared x i v p : cared db x i v p → cared db' x i v p.
Proof.
  destruct (decide (x = e)) as [->|Hne].
  { intros _. left. right; left. apply established_is_reference. by left. }
  intros [[(g' & d & H)|[H|(w0 & Hw0 & H)]]|(w0 & Hw0 & H)].
  - left. left. exists g', d. by apply established_joined.
  - left. right; left. apply established_is_reference. by right.
  - left. right; right. exists w0. split; [apply established_work; by right|].
    destruct (work_at_ok db HI x w0 Hw0) as [Hok _]. pose proof (wo_revision db w0 Hok).
    destruct H as [|[? _]]; [by left|right]. split; [done|]. cbn. lia.
  - right. exists w0. split; [apply established_work; by right|done].
Qed.

Lemma inv_established_joined g' r i v x j v' d :
  sd_references db' !! g' = Some r → variant db' r i v → variant db' x j v' → confirmed_distance v v' = Some d →
  joined db' g' x d ∨ member_ahead db' r i v (evidence_posting x j v') ∨
  reference_ahead db' x j v' (reference_posting g' i v).
Proof.
  intros H1 H2 H3 H4. change (variant db r i v) in H2. change (variant db x j v') in H3.
  apply established_references in H1 as [[-> ->]|[Hne H1]].
  - right; left. exists (restart Members w). split; [apply established_work; by left|]. split; [done|].
    destruct (variant_facts db HI _ _ _ H2) as (? & ? & _), (variant_facts db HI _ _ _ H3) as (? & ? & ? & _).
    apply confirmed_ahead; cbn; [done|lia|done..|]. by eexists.
  - destruct (inv_joined db HI g' r i v x j v' d H1 H2 H3 H4) as [H|[(w0 & Hw0 & Hp & Ha)|(w0 & Hw0 & H)]].
    + left. by apply established_joined.
    + right; left. exists w0. split; [|done]. apply established_work. right. split; [|done].
      intros ->. rewrite (work_at_functional _ _ _ _ Hw0 Hw) in Hp. congruence.
    + destruct (decide (x = e)) as [->|Hx].
      { rewrite (work_at_functional _ _ _ _ Hw0 Hw) in H. destruct H as [[_ ?]|[? _]]; congruence. }
      right; right. exists w0. split; [apply established_work; by right|].
      destruct (work_at_ok db HI x w0 Hw0) as [Hok _]. pose proof (wo_revision db w0 Hok).
      destruct H as [[? _]|?]; [left|by right]. split; [done|]. cbn. lia.
Qed.

Lemma inv_established_work x w0 : work_at db' x w0 → work_ok db' w0.
Proof.
  intros [[-> ->]|[Hne Hw0]]%established_work.
  - destruct (work_at_ok db HI e w Hw) as [Hok He]. split; cbn; [lia| |lia| | |by intros [|]|done|].
    + assert (is_Some (sd_work db !! e)) as Hs by (destruct Hw; by eexists). rewrite He.
      apply (index_variant db HI); [done|]. pose proof (stored_variants_listed db HI e Hs). lia.
    + pose proof (wo_revision db w Hok). lia.
    + intros _. rewrite He. apply established_is_reference. by left.
    + rewrite (wo_peer db w Hok Hphase). done.
  - destruct (work_at_ok db HI x w0 Hw0) as [[W1 W2 W3 W4 W5 W6 W7 W8] Hx].
    split; [done|exact W2|done|cbn; lia| | |done|].
    + intros Hp. apply established_is_reference. right. auto.
    + intros Hp [Hr|Hr]%established_is_reference; [congruence|by apply W6].
    + intros Hf. destruct (W8 Hf) as (g' & d & Hj). exists g', d. by apply established_joined.
Qed.

Lemma inv_establish : Inv db'.
Proof.
  pose proof (work_at_ok db HI e w Hw) as [Hok He]. split.
  - apply (inv_ids db HI).
  - apply (inv_contents db HI).
  - apply (inv_rows db HI).
  - intros x i row H. destruct (inv_variants db HI x i row H) as (H1 & H2 & H3). split; [done|].
    split; [by apply established_present|done].
  - intros x Hx. apply (inv_listed db HI). by apply established_present.
  - intros x row H. assert (is_Some (sd_work db !! x)) as [row' H'] by (apply established_present; by eexists).
    destruct (decide (x = e)) as [->|Hne].
    + exists (restart Members w). assert (work_at db' e (restart Members w)) as Hw' by (apply established_work; by left).
      split; [done|by eapply inv_established_work].
    + destruct (inv_work db HI x row' H') as (w0 & Hw0 & _). exists w0.
      assert (work_at db' x w0) as Hw' by (apply established_work; by right). split; [done|by eapply inv_established_work].
  - intros g' row H. cbn in H. apply lookup_insert_Some in H as [[<- <-]|[Hne H]].
    + exists e, evidence. split_and!; [|done..]. apply established_references. by left.
    + destruct (inv_groups db HI g' row H) as (r & ev & H1 & H2 & H3). exists r, ev. split_and!; [|done..].
      apply established_references. by right.
  - intros g' r [[-> ->]|[Hne H]]%established_references.
    + split; [cbn; rewrite lookup_insert_eq; by eexists|]. apply established_present. destruct Hw; by eexists.
    + destruct (inv_references db HI g' r H) as [H1 H2]. split; [|by apply established_present].
      cbn. rewrite lookup_insert_ne by done. done.
  - assert (~ is_reference db e) as Hnr by (rewrite <-He; apply (wo_others db w Hok); by right).
    intros g1 g2 r [[-> ->]|[N1 H1]]%established_references [[-> E]|[N2 H2]]%established_references; [done|..].
    + destruct Hnr. by exists g2.
    + subst r. destruct Hnr. by exists g1.
    + by eapply (inv_reference_inj db HI).
  - intros g' i. apply option_eq. intros row. unfold db', established. cbn. rewrite He.
    rewrite lookup_union_Some_raw, copied_variants_lookup, (inv_reference_variants db HI g' i).
    destruct (decide (g' = g)) as [->|Hne].
    + rewrite bool_decide_eq_true_2, lookup_insert_eq, established_group_new by done. cbn. naive_solver.
    + rewrite bool_decide_eq_false_2, lookup_insert_ne by done. naive_solver.
  - intros g' x row H. unfold db', established in H. cbn in H. rewrite He in H.
    apply lookup_insert_Some in H as [[[= <- <-] <-]|[Hne H]].
    + destruct (wo_variant db w Hok) as [v Hv]. rewrite He in Hv.
      exists e, (mw_query_variant w), (mw_query_variant w), v, v. split_and!; [|exact Hv..|apply confirmed_self].
      apply established_references. by left.
    + destruct (inv_members db HI g' x row H) as (r & i & j & v & v' & H1 & H2 & H3 & H4).
      exists r, i, j, v, v'. split_and!; [|done..]. apply established_references. right. split; [|done].
      intros ->. by rewrite established_group_new in H1.
  - apply inv_established_joined.
  - intros x i v x' j v' d Hne H1 H2 H3. change (variant db x i v) in H1. change (variant db x' j v') in H2.
    destruct (inv_paired db HI x i v x' j v' d Hne H1 H2 H3) as [H|H]; [left|right]; by apply established_cared.
  - intros g' r i v x w0 j v' d _ _ _ _ [[-> ->]|[Hne Hw0]]%established_work Hr.
    + done.
    + destruct (work_at_ok db HI x w0 Hw0) as [Hok0 _]. pose proof (wo_revision db w0 Hok0). cbn in Hr. lia.
  - intros g1 g2 r1 r2 i j v v' H1 H2 H3 H4 Hc. change (variant db r1 i v) in H3. change (variant db r2 j v') in H4.
    apply established_references in H1 as [[-> ->]|[N1 H1]], H2 as [[-> ->]|[N2 H2]]; [done|..].
    + exfalso. eapply established_unmatched; [exact H2|exact H4|exact H3|]. by rewrite confirmed_sym.
    + exfalso. by eapply established_unmatched.
    + by eapply (inv_apart db HI g1 g2 r1 r2 i j v v').
Qed.
End Establish.

(** ** New evidence *)

Lemma inv_add_evidence db id row :
  Inv db → sd_evidence db !! id = None → 0 < id → ev_scheme row = SIMILARITY_SCHEME →
  SimilarContentKey_validate (ev_content row) = Ok () → 0 ≤ sk_byte_length (ev_content row) →
  (∀ e row', sd_evidence db !! e = Some row' → ev_content row' ≠ ev_content row) →
  Inv (set_evidence (<[id := row]> (sd_evidence db)) db).
Proof.
  intros HI Hnew Hid Hs Hv Hb Hc.
  assert (∀ e row', sd_evidence db !! e = Some row' → <[id := row]> (sd_evidence db) !! e = Some row') as Hkeep.
  { intros e row' H. rewrite lookup_insert_ne; [done|]. intros ->. congruence. }
  destruct HI as [I1 I2 I3 I4 I5 I6 I7 I8 I9 I10 I11 I12 I13 I14 I15]. split; try done.
  - intros e r. cbn. rewrite lookup_insert_Some. intros [[<- _]|[_ H]]; [done|by eapply I1].
  - intros e e' r r'. cbn. rewrite !lookup_insert_Some. intros [[<- <-]|[N1 H1]] [[<- <-]|[N2 H2]] E; [done|..].
    + by destruct (Hc e' r').
    + by destruct (Hc e r).
    + by eapply I2.
  - intros e r. cbn. rewrite lookup_insert_Some. intros [[<- <-]|[_ H]]; [done|by eapply I3].
  - intros e i r H. destruct (I4 e i r H) as ([ev He] & H'). split; [|done]. exists ev. by apply Hkeep.
  - intros e H. destruct (I5 e H) as ([ev He] & H'). split; [|done]. exists ev. by apply Hkeep.
  - intros e r H. destruct (I6 e r H) as (w & Hw & [W1 W2 W3 W4 W5 W6 W7 W8]). exists w. done.
  - intros g r H. destruct (I7 g r H) as (rr & ev & H1 & H2 & H3). exists rr, ev. split_and!; [done|by apply Hkeep|done].
Qed.

(** The work of new evidence. *)
Definition new_work (id revision : Z) : MatchWork :=
  {| mw_evidence_id := id; mw_phase := References; mw_reference_revision := revision; mw_query_variant := 0;
     mw_band := 0; mw_neighbor := 0; mw_after_evidence_id := 0; mw_after_group_id := []; mw_after_variant := -1;
     mw_found_reference := false |}.

Section NewWork.
Context (db : SimilarDb) (HI : Inv db) (id : Z) (vs : list SimilarVariant) (rows : gmap (Z * Z) HashRow).
Context (Hid : is_Some (sd_evidence db !! id)) (Hnone : sd_work db !! id = None).
Context (Hlen : 1 ≤ zlen vs ≤ 8) (Htyped : Forall variant_typed vs).
Context (Hrows : ∀ e i row, rows !! (e, i) = Some row ↔
  (e = id ∧ 0 ≤ i ∧ ∃ v, vs !! Z.to_nat i = Some v ∧
     row = {| hr_words := sv_candidate v; hr_confirmation := Some (sv_confirmation v) |}) ∨
  sd_variants db !! (e, i) = Some row).

Let w := new_work id (sd_reference_revision db).
Let db' := put w (set_variants rows db).

Lemma unused_variants i row : sd_variants db !! (id, i) ≠ Some row.
Proof. intros H. destruct (inv_variants db HI id i row H) as (_ & [? H'] & _). congruence. Qed.

Lemma new_variant e i v : variant db' e i v ↔ e = id ∧ 0 ≤ i ∧ vs !! Z.to_nat i = Some v ∨ e ≠ id ∧ variant db e i v.
Proof.
  unfold variant, db'. cbn. setoid_rewrite Hrows. split.
  - intros (row & [(-> & Hi & v' & Hv & ->)|H] & Hr).
    + left. split_and!; [done..|]. cbn in Hr. destruct v'; cbn in *. congruence.
    + right. split; [|by exists row]. intros ->. by eapply unused_variants.
  - intros [(-> & Hi & Hv)|[_ (row & H & Hr)]].
    + eexists. split; [left; split_and!; [done..|]; by exists v|]. by destruct v.
    + exists row. split; [by right|done].
Qed.

Lemma new_work_at x w0 : work_at db' x w0 ↔ x = id ∧ w0 = w ∨ x ≠ id ∧ work_at db x w0.
Proof. unfold db'. by rewrite work_at_put. Qed.

Lemma reference_used g r : sd_references db !! g = Some r → r ≠ id.
Proof. intros H ->. destruct (inv_references db HI g id H) as [_ [? H']]. congruence. Qed.

Lemma new_present x : is_Some (sd_work db' !! x) ↔ x = id ∨ is_Some (sd_work db !! x).
Proof.
  unfold db'. cbn. destruct (decide (x = id)) as [->|Hne].
  - rewrite lookup_insert_eq. split; [by left|by eexists].
  - rewrite lookup_insert_ne by done. naive_solver.
Qed.

Lemma new_ahead e i v p : variant db' e i v → e = id → variant_typed (po_hash p) → 0 ≤ po_evidence_id p → 0 ≤ po_variant p →
  is_Some (confirmed_distance v (po_hash p)) → ahead w i v p.
Proof.
  intros [(_ & Hi & Hv)|[? _]]%new_variant He Hp H1 H2 Hc; [|done].
  apply (confirmed_ahead References w); [done..| |done|done]. eapply Forall_lookup_1; [exact Htyped|exact Hv].
Qed.

Lemma old_cared x i v p : cared db x i v p → cared db' x i v p.
Proof.
  assert (∀ w0, work_at db x w0 → work_at db' x w0) as Hold.
  { intros w0 Hw0. apply new_work_at. right. split; [|done]. intros ->. destruct Hw0. congruence. }
  intros [[H|[H|(w0 & Hw0 & H)]]|(w0 & Hw0 & H)]; [left; by left|left; by right; left|left; right; right|right];
    exists w0; auto.
Qed.

Lemma inv_add_work : Inv db'.
Proof.
  split.
  - apply (inv_ids db HI).
  - apply (inv_contents db HI).
  - apply (inv_rows db HI).
  - intros e i row H. unfold db' in H. cbn in H. apply Hrows in H as [(-> & Hi & v & Hv & ->)|H].
    + split_and!; [done|by apply new_present; left|done|]. exists v. split; [by destruct v|].
      eapply Forall_lookup_1; [exact Htyped|exact Hv].
    + destruct (inv_variants db HI e i row H) as (H1 & H2 & H3). split; [done|]. split; [|done].
      apply new_present. by right.
  - intros e [->|He]%new_present.
    + split; [done|]. exists vs. split; [done|]. intros i v. rewrite new_variant. naive_solver.
    + destruct (inv_listed db HI e He) as (H1 & ws & Hl & Hws). split; [done|]. exists ws. split; [done|].
      intros i v. rewrite new_variant, <-Hws. assert (e ≠ id) by (intros ->; destruct He; congruence). naive_solver.
  - intros e row H. assert (is_Some (sd_work db' !! e)) as [->|[row' He]]%new_present by by eexists.
    + exists w. split; [apply new_work_at; by left|]. split; cbn; [lia| |lia|lia|done| |done|done].
      * destruct (lookup_lt_is_Some_2 vs 0) as [v Hv]; [unfold zlen in Hlen; lia|]. exists v.
        apply new_variant. by left.
      * intros _ [g Hg]. by apply (reference_used g id Hg).
    + destruct (inv_work db HI e row' He) as (w0 & Hw0 & Hok). exists w0. assert (e ≠ id) by (intros ->; congruence).
      split; [apply new_work_at; by right|]. destruct Hok as [W1 W2 W3 W4 W5 W6 W7 W8]. split; try done.
      destruct W2 as [v Hv]. exists v. apply new_variant. right. split; [|done]. destruct Hw0. congruence.
  - apply (inv_groups db HI).
  - intros g r H. destruct (inv_references db HI g r H) as [H1 H2]. split; [done|]. apply new_present. by right.
  - apply (inv_reference_inj db HI).
  - intros g i. unfold db'. cbn. rewrite (inv_reference_variants db HI g i).
    destruct (sd_references db !! g) as [r|] eqn:Hg; [|done]. cbn. apply option_eq. intros row. rewrite Hrows.
    apply reference_used in Hg. naive_solver.
  - intros g e row H. destruct (inv_members db HI g e row H) as (r & i & j & v & v' & H1 & H2 & H3 & H4).
    exists r, i, j, v, v'. split_and!; [done| | |done]; apply new_variant; right; (split; [|done]).
    + by eapply reference_used.
    + intros ->. destruct H3 as (hr & H3 & _). by eapply unused_variants.
  - intros g r i v e j v' d H1 H2 H3 H4. pose proof (reference_used g r H1) as Hr.
    apply new_variant in H2 as [[? _]|[_ H2]]; [done|]. destruct (decide (e = id)) as [->|He].
    + right; right. exists w. split; [apply new_work_at; by left|]. right. split; [done|].
      destruct (variant_facts db HI _ _ _ H2) as (? & ? & _).
      apply (new_ahead id); cbn; [done..|]. rewrite confirmed_sym. by eexists.
    + apply new_variant in H3 as [[? _]|[_ H3]]; [done|].
      destruct (inv_joined db HI g r i v e j v' d H1 H2 H3 H4) as [H|[(w0 & Hw0 & H)|(w0 & Hw0 & H)]]; [by left|..].
      * right; left. exists w0. split; [apply new_work_at; by right|done].
      * right; right. exists w0. split; [apply new_work_at; by right|done].
  - assert (∀ i v p, cared db' id i v p) as Hnew.
    { intros i v p. left. right; right. exists w. split; [apply new_work_at; by left|by left]. }
    intros e i v e' j v' d Hne H1 H2 H3.
    destruct (decide (e = id)) as [->|He]; [by left|]. destruct (decide (e' = id)) as [->|He']; [by right|].
    apply new_variant in H1 as [[? _]|[_ H1]]; [done|]. apply new_variant in H2 as [[? _]|[_ H2]]; [done|].
    destruct (inv_paired db HI e i v e' j v' d Hne H1 H2 H3) as [H|H]; [left|right]; by apply old_cared.
  - intros g r i v x w0 j v' d H1 H2 H3 H4 Hw0 Hrev. pose proof (reference_used g r H1) as Hr.
    apply new_variant in H2 as [[? _]|[_ H2]]; [done|].
    apply new_work_at in Hw0 as [[-> ->]|[Hx Hw0]].
    + split; [|done]. intros _. right. destruct (variant_facts db HI _ _ _ H2) as (? & ? & _).
      apply (new_ahead id); cbn; [done..|]. rewrite confirmed_sym. by eexists.
    + apply new_variant in H3 as [[? _]|[_ H3]]; [done|]. by eapply (inv_unmatched db HI).
  - intros g g' r r' i j v v' H1 H2 H3 H4 Hc. pose proof (reference_used g r H1). pose proof (reference_used g' r' H2).
    apply new_variant in H3 as [[? _]|[_ H3]]; [done|]. apply new_variant in H4 as [[? _]|[_ H4]]; [done|].
    by eapply (inv_apart db HI g g' r r' i j v v').
Qed.
End NewWork.
