(* ===== verification/SimilarGroups.v ===== *)
(** * Groups of similar images

    The operations of the repository keep the invariant of matching, whatever statement fails and whenever
    the run is cancelled.  When no work is left, the groups are exactly the matches of their references, and
    windows that are not interrupted leave no work. *)

From stdpp Require Import sorting.
From S2P Require Import Prelude Text Numerals Order JournalText QueueStore SimilarImages SimilarLaws.

Section Steps.
Context (fault : nat → option ScanError) (cancelled : nat → bool) (clock : nat → Z).
Context (verify : nat → ScanResult bool).
Context (constraint_failed no_rows bad_column sqlite_full : ScanError).
Context (blake3_hex : bytes → str).

(** ** Statements *)

Lemma sql_Ok {A} (f : SimilarDb → ScanResult (A * SimilarDb)) s a s' :
  sql fault f s = Ok (a, s') → f s.2 = Ok (a, s'.2).
Proof. unfold sql. destruct (fault s.1); [done|]. destruct (f s.2) as [[b db]|]; [|done]. by intros [= <- <-]. Qed.

Lemma sql_read_Ok {A} (f : SimilarDb → A) s a s' : sql_read fault f s = Ok (a, s') → a = f s.2 ∧ s'.2 = s.2.
Proof. intros H%sql_Ok. naive_solver. Qed.

Lemma sql_row_Ok {A} (f : SimilarDb → option A) s a s' :
  sql_row fault no_rows f s = Ok (a, s') → f s.2 = Some a ∧ s'.2 = s.2.
Proof. intros H%sql_Ok. destruct (f s.2); naive_solver. Qed.

Lemma sql_write_Ok allowed f s u s' :
  sql_write fault constraint_failed allowed f s = Ok (u, s') → allowed s.2 = true ∧ s'.2 = f s.2.
Proof. intros H%sql_Ok. destruct (allowed s.2); naive_solver. Qed.

Lemma load_cancelled_Ok s b s' : load_cancelled cancelled s = Ok (b, s') → s'.2 = s.2.
Proof. unfold load_cancelled. by intros [= _ <-]. Qed.

Lemma publish_member_Ok run g e d s u s' :
  publish_member fault constraint_failed run g e d s = Ok (u, s') →
  0 ≤ d ≤ 10 ∧ s'.2 = set_members (<[(g, e) := {| mb_distance :=
    match sd_members s.2 !! (g, e) with Some row => Z.min (mb_distance row) d | None => d end;
    mb_run_id := sr_run_id run |}]> (sd_members s.2)) s.2.
Proof.
  intros [Ha ->]%sql_write_Ok. split; [|done]. apply andb_true_iff in Ha as [_ Hd]. by apply in_range_true.
Qed.

Lemma publish_member_grows run g e d s u s' :
  publish_member fault constraint_failed run g e d s = Ok (u, s') → matching s.2 g e d →
  grows s.2 s'.2 ∧ joined s'.2 g e d.
Proof.
  intros [_ E]%publish_member_Ok Hm.
  assert (joined s'.2 g e d) as Hj.
  { rewrite E. eexists. cbn. rewrite lookup_insert_eq. split; [done|]. cbn.
    destruct (sd_members s.2 !! (g, e)); lia. }
  split; [|done]. split.
  - by rewrite E.
  - intros g' e' d' (row & H & Hd). rewrite E. unfold joined. cbn.
    destruct (decide ((g', e') = (g, e))) as [[= -> ->]|Hne].
    + rewrite lookup_insert_eq, H. eexists. split; [done|]. cbn. lia.
    + rewrite lookup_insert_ne by done. by exists row.
  - intros g' e' row. rewrite E. cbn. rewrite lookup_insert_Some. intros [[[= <- <-] <-]|[_ H]].
    + cbn. destruct (sd_members s.2 !! (g, e)) as [row'|] eqn:Er; [|by right].
      destruct (Z.min_spec (mb_distance row') d) as [[_ Hmin]|[_ Hmin]]; rewrite Hmin; [left; by exists row'|by right].
    + left. by exists row.
Qed.

(** ** The rows of a window *)

Lemma cursor_after_move q nb row w :
  binary_search (band_neighbors (band_word (mw_band w) q)) (band_word (mw_band w) (po_hash row)) = Some nb →
  cursor_after q (move_to nb row w) = Some (posting_position (mw_band w) row) ∧ 0 ≤ nb ≤ 136.
Proof.
  intros (n & -> & Hn & _)%binary_search_Some. unfold cursor_after. cbn. rewrite Nat2Z.id, Hn. split; [done|].
  apply lookup_lt_Some in Hn. rewrite band_neighbors_length in Hn. lia.
Qed.

Lemma moved_move q nb row rows w w' :
  binary_search (band_neighbors (band_word (mw_band w) q)) (band_word (mw_band w) (po_hash row)) = Some nb →
  moved q rows (move_to nb row w) w' → moved q (row :: rows) w w'.
Proof.
  intros [Hc Hnb]%cursor_after_move [M1 M2 M3 M4 M5 M6 M7]. cbn in *. split; try done.
  - intros _. apply M6. lia.
  - rewrite M7, last_cons. destruct (last rows); [done|]. exact Hc.
Qed.

(** How a scan of rows changes the tables. *)
Definition scan_post (run : SimilarAnalysisRun) (query : SimilarVariant) (rows : list Posting) (w : MatchWork)
    (db : SimilarDb) (outcome : ScanEnd) (db' : SimilarDb) : Prop :=
  match outcome with
  | ScanCancelled => grows db db'
  | Scanned w' =>
    grows db db' ∧ moved query rows w w' ∧ (mw_found_reference w = true → mw_found_reference w' = true) ∧
    (mw_found_reference w' = true → mw_found_reference w = true ∨ grouped db' (mw_evidence_id w)) ∧
    (mw_phase w ≠ References → mw_found_reference w' = mw_found_reference w) ∧
    ∀ p d, p ∈ rows → confirmed_distance query (po_hash p) = Some d → handled db' w w' p d
  | ScanEstablished =>
    mw_phase w = Peer ∧ ∃ group evidence, sd_evidence db !! mw_evidence_id w = Some evidence ∧
      group_id blake3_hex SIMILARITY_SCHEME (ev_content evidence) = Ok group ∧ sd_groups db !! group = None ∧
      sd_references db !! group = None ∧ db' = established group (ev_content evidence) (sr_run_id run) w db
  end.

Lemma moved_same q w w' : cursor_after q w' = cursor_after q w → mw_evidence_id w' = mw_evidence_id w →
  mw_phase w' = mw_phase w → mw_reference_revision w' = mw_reference_revision w →
  mw_query_variant w' = mw_query_variant w → mw_band w' = mw_band w → mw_neighbor w' = mw_neighbor w → moved q [] w w'.
Proof. intros. split; try done. congruence. Qed.

(** One row has been compared, with [db1] and [w1] after it; the others follow. *)
Lemma scan_post_cons run query row rows w w1 nb db db1 outcome db2 :
  grows db db1 → binary_search (band_neighbors (band_word (mw_band w) query)) (band_word (mw_band w) (po_hash row)) = Some nb →
  (w1 = w ∨ w1 = with_reference (mw_reference_revision w) true w ∧ mw_phase w = References ∧ grouped db1 (mw_evidence_id w)) →
  (∀ d, confirmed_distance query (po_hash row) = Some d → handled db1 w w1 row d) → (db1 = db ∨ mw_phase w ≠ Peer) →
  scan_post run query rows (move_to nb row w1) db1 outcome db2 →
  scan_post run query (row :: rows) w db outcome db2.
Proof.
  intros HG Hnb Hw1 Hrow Hpeer Hp.
  assert (mw_evidence_id w1 = mw_evidence_id w ∧ mw_phase w1 = mw_phase w ∧ mw_band w1 = mw_band w) as (E1 & E2 & E3).
  { by destruct Hw1 as [->|[-> _]]. }
  assert (∀ db' w' p d, grows db1 db' → handled db' (move_to nb row w1) w' p d → handled db' w w' p d) as Hh.
  { intros db' w' p d _ H. unfold handled in *. cbn in H. by rewrite E1, E2 in H. }
  destruct outcome as [| |w']; cbn in *; [by eapply grows_trans| |].
  - destruct Hp as (Hph & group & evidence & H1 & Hn & H2 & H3 & ->). rewrite E2 in Hph. split; [done|].
    destruct Hpeer as [->|]; [|done]. destruct Hw1 as [->|(_ & ? & _)]; [|congruence]. by exists group, evidence.
  - destruct Hp as (HG' & Hm & Hk & Hf & Hs & Hall). split_and!.
    + by eapply grows_trans.
    + apply (moved_move _ nb); [done|]. destruct Hm as [M1 M2 M3 M4 M5 M6 M7]. cbn in *.
      destruct Hw1 as [->|[-> _]]; by split.
    + intros Hfw. apply Hk. by destruct Hw1 as [->|[-> _]].
    + intros Hfw. destruct (Hf Hfw) as [Hfw1|Hg]; [|right; congruence].
      destruct Hw1 as [->|(-> & _ & Hg)]; [by left|right]. by eapply grouped_grows.
    + intros Hph. rewrite Hs by congruence. destruct Hw1 as [->|(_ & ? & _)]; [done|congruence].
    + intros p d [->|Hin]%elem_of_cons Hd; [|eapply Hh; [done|by apply Hall]].
      specialize (Hrow d Hd). unfold handled in *. destruct (mw_phase w) eqn:Eph.
      * destruct Hrow as [Hj Hfr]. split; [by eapply gw_kept|by apply Hk].
      * done.
      * destruct Hrow as (g & Hg & Hj). exists g. split; [by destruct HG' as [-> _ _]|by eapply gw_kept].
      * done.
Qed.

(** ** Establishing a reference *)

Lemma admit_reference_Ok e g s u s' :
  admit_reference fault constraint_failed e g s = Ok (u, s') →
  sd_references s.2 !! g = None ∧
  s'.2 = set_references (<[g := e]> (sd_references s.2)) (copied_variants e g s.2 ∪ sd_reference_variants s.2)
           (sd_reference_revision s.2 + 1) s.2.
Proof.
  unfold admit_reference. intros H. apply st_bind_Ok in H as ([] & s1 & [Ha1 E1]%sql_write_Ok & H).
  apply st_bind_Ok in H as ([] & s2 & [_ E2]%sql_write_Ok & [_ E3]%sql_write_Ok).
  split; [|rewrite E3, E2, E1; done]. rewrite !andb_true_iff in Ha1. destruct Ha1 as [[[Ha1 _] _] _].
  apply negb_true_iff, bool_decide_eq_false in Ha1. by apply eq_None_not_Some.
Qed.

Lemma establish_reference_Ok w s g s' :
  establish_reference fault constraint_failed no_rows blake3_hex w s = Ok (g, s') →
  ∃ evidence, sd_evidence s.2 !! mw_evidence_id w = Some evidence ∧
    group_id blake3_hex SIMILARITY_SCHEME (ev_content evidence) = Ok g ∧ sd_groups s.2 !! g = None ∧ sd_references s.2 !! g = None ∧
    s'.2 = set_references (<[g := mw_evidence_id w]> (sd_references s.2))
             (copied_variants (mw_evidence_id w) g s.2 ∪ sd_reference_variants s.2) (sd_reference_revision s.2 + 1)
             (set_groups (<[g := {| gr_scheme := SIMILARITY_SCHEME; gr_reference := ev_content evidence |}]>
                            (sd_groups s.2)) s.2).
Proof.
  unfold establish_reference. intros H. apply st_bind_Ok in H as (content & s1 & [Hc E1]%sql_row_Ok & H).
  apply fmap_Some in Hc as (evidence & Hev & ->). apply st_bind_Ok in H as (group & s2 & [Hn ->]%st_lift_Ok & H).
  apply st_bind_Ok in H as ([] & s3 & [Ha E3]%sql_write_Ok & H).
  apply st_bind_Ok in H as ([] & s4 & [Hr E4]%admit_reference_Ok & [-> ->]%st_ret_Ok).
  exists evidence. rewrite E1 in *. rewrite E3 in E4, Hr. cbn in E4, Hr. split_and!; [done|done| |done|exact E4].
  apply andb_true_iff in Ha as [Ha _]. apply negb_true_iff, bool_decide_eq_false in Ha. by apply eq_None_not_Some.
Qed.

Lemma cursor_save_Ok w s u s' :
  cursor_save fault constraint_failed w s = Ok (u, s') → is_Some (sd_work s.2 !! mw_evidence_id w) → s'.2 = put w s.2.
Proof.
  intros [_ ->]%sql_write_Ok [row Hrow]. unfold put. f_equal. apply map_eq. intros k.
  destruct (decide (k = mw_evidence_id w)) as [->|].
  - by rewrite lookup_alter_eq, Hrow, lookup_insert_eq.
  - by rewrite lookup_alter_ne, lookup_insert_ne.
Qed.

Definition members_matching (db : SimilarDb) : Prop :=
  ∀ g e row, sd_members db !! (g, e) = Some row → matching db g e (mb_distance row).

Lemma grows_members db db' : grows db db' → members_matching db → members_matching db'.
Proof.
  intros [E _ HS] Hm g e row H. rewrite E. destruct (HS g e row H) as [(row' & H' & <-)|H']; [apply (Hm g e row' H')|exact H'].
Qed.

(** What a scan needs to know of the tables. *)
Record scannable (query : SimilarVariant) (reference : option str) (w : MatchWork) (db : SimilarDb) : Prop := {
  sc_query : variant db (mw_evidence_id w) (mw_query_variant w) query;
  sc_references : ref_variants_ok db;
  sc_members : members_matching db;
  sc_work : is_Some (sd_work db !! mw_evidence_id w);
  sc_group : mw_phase w = Members → ∀ g, reference = Some g → sd_references db !! g = Some (mw_evidence_id w);
}.

Lemma scannable_grows query reference w w' db db' :
  grows db db' → mw_evidence_id w' = mw_evidence_id w → mw_query_variant w' = mw_query_variant w →
  mw_phase w' = mw_phase w → scannable query reference w db → scannable query reference w' db'.
Proof.
  intros HG E1 E2 E3 [S1 S2 S3 S4 S5]. pose proof (grows_members _ _ HG S3) as S3'. destruct HG as [E _ _].
  rewrite E in *. split; rewrite ?E1, ?E2, ?E3; done.
Qed.

Lemma postings_grows db db' w w' : grows db db' → mw_phase w' = mw_phase w → postings db' w' = postings db w.
Proof. intros [E _ _] Hp. unfold postings, in_references. by rewrite E, Hp. Qed.

Lemma scan_rows_Ok run query reference rows w s outcome s' :
  scannable query reference w s.2 → (∀ p, p ∈ rows → p ∈ postings s.2 w) →
  scan_rows fault cancelled constraint_failed no_rows blake3_hex run query
    (band_neighbors (band_word (mw_band w) query)) reference rows w s = Ok (outcome, s') →
  scan_post run query rows w s.2 outcome s'.2.
Proof.
  revert w s. induction rows as [|row rows IH]; intros w s HS Hin H; cbn [scan_rows] in H.
  { apply st_ret_Ok in H as [-> ->]. cbn. split_and!; [apply grows_refl|by apply moved_same|tauto..|done|].
    intros p d Hp. by apply not_elem_of_nil in Hp. }
  apply st_bind_Ok in H as (stop & s1 & E1%load_cancelled_Ok & H). rewrite <-E1 in *.
  destruct stop; [apply st_ret_Ok in H as [-> ->]; apply grows_refl|].
  assert (row ∈ postings s1.2 w) as Hrow by (apply Hin, elem_of_cons; by left).
  assert (∀ p, p ∈ rows → p ∈ postings s1.2 w) as Hin' by (intros; apply Hin, elem_of_cons; by right).
  assert (∀ w1 s2, grows s1.2 s2.2 →
    (w1 = w ∨ w1 = with_reference (mw_reference_revision w) true w ∧ mw_phase w = References ∧
       grouped s2.2 (mw_evidence_id w)) →
    (∀ d, confirmed_distance query (po_hash row) = Some d → handled s2.2 w w1 row d) → s2.2 = s1.2 ∨ mw_phase w ≠ Peer →
    (neighbor ← st_lift (ok_or (binary_search (band_neighbors (band_word (mw_band w) query))
        (band_word (mw_band w1) (po_hash row))) similarity_cursor_invalid);
     scan_rows fault cancelled constraint_failed no_rows blake3_hex run query
       (band_neighbors (band_word (mw_band w) query)) reference rows (move_to neighbor row w1)) s2 = Ok (outcome, s') →
    scan_post run query (row :: rows) w s1.2 outcome s'.2) as Hmove.
  { intros w1 s2 HG Hw1 Hh Hpeer Hrun.
    assert (mw_band w1 = mw_band w ∧ mw_evidence_id w1 = mw_evidence_id w ∧ mw_query_variant w1 = mw_query_variant w ∧
      mw_phase w1 = mw_phase w) as (B1 & B2 & B3 & B4) by by destruct Hw1 as [->|[-> _]].
    apply st_bind_Ok in Hrun as (nb & s3 & [Hnb ->]%st_lift_Ok & Hrun). rewrite B1 in Hnb. apply ok_or_Ok in Hnb.
    eapply (scan_post_cons _ _ _ _ w w1 nb); [done..|]. apply IH; cbn.
    - eapply scannable_grows; [exact HG|..|exact HS]; done.
    - intros p Hp. rewrite (postings_grows _ _ w _ HG); [by apply Hin'|done].
    - by rewrite B1. }
  destruct (confirmed_distance query (po_hash row)) as [d|] eqn:Hd; [|eapply Hmove; [apply grows_refl|by left|done|by left|exact H]].
  destruct (mw_phase w) eqn:Hph.
  - apply st_bind_Ok in H as ([] & s2 & Hpub & H).
    unfold postings in Hrow. rewrite in_references_true in Hrow by done.
    apply elem_of_reference_postings in Hrow as (g & r & i & v & -> & Hg & Hv); [|apply HS].
    apply publish_member_grows in Hpub as [HG Hj]; [|exists r, i, (mw_query_variant w), v, query; cbn in Hd |- *;
      split_and!; [done|done|apply HS|by rewrite confirmed_sym]].
    eapply Hmove; [exact HG| | |by right|exact H].
    + right. split_and!; [done..|]. by exists g, d.
    + intros d' [= <-]. unfold handled. by rewrite Hph.
  - destruct (negb (po_evidence_id row =? mw_evidence_id w)) eqn:Hne.
    + apply st_bind_Ok in H as (g & s2 & (evidence & H1 & Hn & H2 & H3 & E2)%establish_reference_Ok & H).
      apply st_bind_Ok in H as ([] & s3 & [_ E3]%publish_member_Ok & H).
      apply st_bind_Ok in H as ([] & s4 & Hsave & [-> ->]%st_ret_Ok).
      apply cursor_save_Ok in Hsave; [|rewrite E3, E2; apply HS]. cbn. split; [done|]. exists g, evidence.
      split_and!; [done..|]. rewrite Hsave, E3. unfold established. rewrite E2. cbn.
      destruct (sd_members s1.2 !! (g, mw_evidence_id w)) as [m|] eqn:Em; [|done].
      destruct (sc_members _ _ _ _ HS _ _ _ Em) as (r & ? & ? & ? & ? & Hr & _). congruence.
    + apply negb_false_iff, Z.eqb_eq in Hne. eapply Hmove; [apply grows_refl|by left| |by left|exact H].
      intros d' _. unfold handled. by rewrite Hph.
  - apply st_bind_Ok in H as (g & s2 & [Hg ->]%st_lift_Ok & H). apply ok_or_Ok in Hg.
    apply st_bind_Ok in H as ([] & s3 & Hpub & H).
    unfold postings in Hrow. rewrite in_references_false in Hrow by congruence.
    apply elem_of_evidence_postings in Hrow as (x & j & v & -> & Hv).
    pose proof (sc_group _ _ _ _ HS Hph g Hg) as Hgr.
    apply publish_member_grows in Hpub as [HG Hj]; [|exists (mw_evidence_id w), (mw_query_variant w), j, query, v;
      split_and!; [done|apply HS|done|done]].
    eapply Hmove; [exact HG|by left| |by right|exact H].
    intros d' [= <-]. unfold handled. rewrite Hph. exists g. split; [by destruct HG as [-> _ _]|done].
  - eapply Hmove; [apply grows_refl|by left| |by left|exact H]. intros d' _. unfold handled. by rewrite Hph.
Qed.

Lemma scan_rows_cancelled run query neighbors reference rows w s outcome s' :
  scan_rows fault cancelled constraint_failed no_rows blake3_hex run query neighbors reference rows w s = Ok (outcome, s') →
  match outcome with ScanCancelled => ∃ n, cancelled n = true | _ => True end.
Proof.
  revert w s. induction rows as [|row rows IH]; intros w s H; cbn [scan_rows] in H; [by apply st_ret_Ok in H as [-> _]|].
  apply st_bind_Ok in H as (stop & s1 & H1 & H). destruct stop.
  { apply st_ret_Ok in H as [-> _]. injection H1 as H1 _. by eexists. }
  assert (∀ w1 s2, (neighbor ← st_lift (ok_or (binary_search neighbors (band_word (mw_band w1) (po_hash row)))
     similarity_cursor_invalid); scan_rows fault cancelled constraint_failed no_rows blake3_hex run query neighbors reference
       rows (move_to neighbor row w1)) s2 = Ok (outcome, s') →
    match outcome with ScanCancelled => ∃ n, cancelled n = true | _ => True end) as Hmove.
  { intros w1 s2 Hrun. apply st_bind_Ok in Hrun as (nb & s3 & _ & Hrun). by eapply IH. }
  destruct (confirmed_distance query (po_hash row)); [|by eapply Hmove]. destruct (mw_phase w); [| | |by eapply Hmove].
  - apply st_bind_Ok in H as ([] & s2 & _ & H). by eapply Hmove.
  - destruct (negb _); [|by eapply Hmove]. apply st_bind_Ok in H as (? & s2 & _ & H).
    apply st_bind_Ok in H as (? & s3 & _ & H). apply st_bind_Ok in H as (? & s4 & _ & [-> _]%st_ret_Ok). done.
  - apply st_bind_Ok in H as (? & s2 & _ & H). apply st_bind_Ok in H as ([] & s3 & _ & H). by eapply Hmove.
Qed.

(** ** A window *)

#[local] Arguments lit : simpl never.
#[local] Arguments phase_to_db : simpl never.

Lemma elem_of_pending db e : e ∈ pending_works db ↔ is_pending db e = true.
Proof.
  unfold pending_works. rewrite list_elem_of_filter, sort_by_perm, list_elem_of_fmap. split; [tauto|].
  intros H. split; [done|]. unfold is_pending in H. destruct (sd_work db !! e) as [row|] eqn:E; [|done].
  exists (e, row). split; [done|]. by apply elem_of_map_to_list.
Qed.

Lemma is_pending_phase db e w : Inv db → work_at db e w → is_pending db e = true ↔ mw_phase w ≠ MatchComplete.
Proof.
  intros HI Hw. assert (is_Some (sd_work db !! e)) as Hs by (destruct Hw; by eexists).
  destruct (inv_listed db HI e Hs) as ([ev Hev] & _). destruct (inv_rows db HI e ev Hev) as (Hscheme & _).
  unfold is_pending. destruct Hw as [-> _]. rewrite Hev, (bool_decide_eq_true_2 _ Hscheme), andb_true_r. cbn.
  rewrite bool_decide_eq_true. change (lit "references") with (phase_to_db References).
  change (lit "peer") with (phase_to_db Peer). change (lit "members") with (phase_to_db Members). split.
  - cbn. intros H E. rewrite E in H. rewrite !elem_of_cons in H.
    destruct H as [H|[H|[H|H]]]; [by apply phase_to_db_inj in H..|by apply not_elem_of_nil in H].
  - cbn. rewrite !elem_of_cons. destruct (mw_phase w); tauto.
Qed.

Lemma cursor_load_Ok s r s' :
  Inv s.2 → cursor_load fault bad_column s = Ok (r, s') → s'.2 = s.2 ∧
  match r with
  | None => pending_works s.2 = []
  | Some w => ∃ e, work_at s.2 e w ∧ mw_phase w ≠ MatchComplete ∧ head (pending_works s.2) = Some e
  end.
Proof.
  intros HI H. unfold cursor_load in H. apply st_bind_Ok in H as (row & s1 & H1%sql_Ok & H).
  destruct (head (pending_works s.2)) as [e|] eqn:Eh.
  - assert (e ∈ pending_works s.2) as He by (destruct (pending_works s.2); [done|injection Eh as ->; apply elem_of_cons; by left]).
    apply elem_of_pending in He. unfold is_pending in He.
    destruct (sd_work s.2 !! e) as [wr|] eqn:Ew; [|done]. destruct (inv_work s.2 HI e wr Ew) as (w & Hw & Hok).
    assert (wr = work_row w) as -> by (destruct Hw; congruence).
    assert (mw_phase w ≠ MatchComplete) as Hph.
    { apply (is_pending_phase s.2 e w HI Hw). unfold is_pending. by rewrite Ew. }
    clear He. cbn in H1. apply result_bind_Ok in H1 as (qv & Hqv & H1). apply result_bind_Ok in H1 as (b & Hb & H1).
    apply result_bind_Ok in H1 as (nb & Hnb & H1). injection H1 as <- E1.
    apply st_bind_Ok in H as (phase & s2 & [Hphase ->]%st_lift_Ok & H).
    apply st_bind_Ok in H as ([] & s3 & [_ ->]%st_lift_Ok & [-> ->]%st_ret_Ok). split; [done|].
    assert (∀ z a, column_u8 bad_column z = Ok a → a = z) as Hcol.
    { intros z a. unfold column_u8, try_from_uint. destruct (_ && _); naive_solver. }
    apply Hcol in Hqv as ->. apply Hcol in Hb as ->. apply Hcol in Hnb as ->. cbn in Hphase.
    assert (phase = mw_phase w) as ->.
    { destruct (mw_phase w); [vm_compute in Hphase; by injection Hphase..|done]. }
    match goal with |- context [in_phase ?p ?x] => assert (in_phase p x = w) as -> end; [|by exists e].
    destruct Hw as [_ <-]. by destruct w.
  - injection H1 as <- E1. apply st_ret_Ok in H as [-> ->]. split; [done|]. by destruct (pending_works s.2).
Qed.

Lemma postings_load_Ok w query s rows s' :
  postings_load fault w (band_neighbors (band_word (mw_band w) query)) s = Ok (rows, s') →
  s'.2 = s.2 ∧ ∃ after, cursor_after query w = Some after ∧
    rows = window (in_references w) (mw_band w) (band_neighbors (band_word (mw_band w) query)) after (postings s.2 w).
Proof.
  unfold postings_load. intros H. apply st_bind_Ok in H as (word & s1 & [Hw ->]%st_lift_Ok & [-> E]%sql_read_Ok).
  apply ok_or_Ok in Hw. split; [done|]. eexists. unfold cursor_after. rewrite Hw. by split.
Qed.

Lemma put_same db e w : work_at db e w → put w db = db.
Proof. intros [H <-]. unfold put. rewrite insert_id by done. by destruct db. Qed.

Lemma grows_put db db' w : grows db db' → grows (put w db) (put w db').
Proof. intros [E K S]. split; [by rewrite E|exact K|exact S]. Qed.

Lemma finish_window_id rows nv w : mw_evidence_id (finish_window rows nv w) = mw_evidence_id w.
Proof.
  unfold finish_window. destruct (rows <? WINDOW_SIZE)%nat; [|done]. unfold next_band. cbn.
  destruct (_ <? 3); [done|]. cbn. by destruct (_ <? nv).
Qed.

(** The work as [match_advance] continues it. *)
Definition restarted (revision : Z) (w : MatchWork) : MatchWork :=
  if negb (bool_decide (mw_phase w = Members)) && negb (mw_reference_revision w =? revision)
  then with_reference revision false (restart References w) else w.

Lemma inv_restarted db e w :
  Inv db → work_at db e w → mw_phase w ≠ MatchComplete →
  let w1 := restarted (sd_reference_revision db) w in
  Inv (put w1 db) ∧ mw_evidence_id w1 = e ∧ mw_phase w1 ≠ MatchComplete ∧
  (mw_phase w1 = Members ∨ mw_reference_revision w1 = sd_reference_revision db).
Proof.
  intros HI Hw Hph w1. pose proof (proj2 Hw) as He. unfold w1, restarted. case_bool_decide as Em; cbn.
  { rewrite (put_same db e w Hw). tauto. }
  destruct (Z.eqb_spec (mw_reference_revision w) (sd_reference_revision db)) as [Er|Er]; cbn.
  { rewrite (put_same db e w Hw). tauto. }
  split_and!; [|done|done|by right]. apply (inv_restart db HI w e Hw); [|done]. destruct (mw_phase w); tauto.
Qed.

(** What one call of [match_advance] does, as a relation on the tables. *)
Inductive advanced (run : SimilarAnalysisRun) (db : SimilarDb) : bool → SimilarDb → Prop :=
| advanced_idle : pending_works db = [] → advanced run db false db
| advanced_cancelled n db' : cancelled n = true → grows db db' → advanced run db false db'
| advanced_established e w g evidence :
    head (pending_works db) = Some e → work_at db e w → mw_phase w = Peer →
    mw_reference_revision w = sd_reference_revision db → sd_evidence db !! e = Some evidence →
    group_id blake3_hex SIMILARITY_SCHEME (ev_content evidence) = Ok g → sd_groups db !! g = None →
    advanced run db true (established g (ev_content evidence) (sr_run_id run) w db)
| advanced_window e w w1 query after rows w' db' :
    head (pending_works db) = Some e → work_at db e w → mw_phase w ≠ MatchComplete →
    w1 = restarted (sd_reference_revision db) w → variant db e (mw_query_variant w1) query →
    cursor_after query w1 = Some after →
    rows = window (in_references w1) (mw_band w1) (band_neighbors (band_word (mw_band w1) query)) after (postings db w1) →
    scan_post run query rows w1 db (Scanned w') db' →
    advanced run db true (put (finish_window (length rows) (zlen (stored_variants e db)) w') db').

Lemma restarted_peer revision w : mw_phase (restarted revision w) = Peer →
  restarted revision w = w ∧ (mw_reference_revision w = revision).
Proof.
  unfold restarted. case_bool_decide as E; cbn; [congruence|].
  destruct (Z.eqb_spec (mw_reference_revision w) revision); cbn; [done|]. done.
Qed.

Lemma reference_group_Some db e g : reference_group e db = Some g → sd_references db !! g = Some e.
Proof.
  unfold reference_group. intros ([g' r] & Hg & ->)%fmap_Some.
  apply head_Some_elem_of, list_elem_of_filter in Hg as [Hr Hg]. cbn in *. subst r. by apply elem_of_map_to_list in Hg.
Qed.

Lemma match_advance_advanced run s b s' :
  Inv s.2 → match_advance fault cancelled constraint_failed no_rows bad_column blake3_hex run s = Ok (b, s') →
  advanced run s.2 b s'.2.
Proof.
  intros HI H. unfold match_advance in H. apply st_bind_Ok in H as (work & s1 & [E1 Hload]%cursor_load_Ok & H); [|done].
  rewrite <-E1 in *. clear s E1. destruct work as [w|]; [|apply st_ret_Ok in H as [-> ->]; by constructor].
  destruct Hload as (e & Hw & Hph & Hhead).
  apply st_bind_Ok in H as (revision & s2 & [-> E2]%sql_read_Ok & H). rewrite <-E2 in *. clear s1 E2.
  fold (restarted (sd_reference_revision s2.2) w) in H.
  destruct (inv_restarted s2.2 e w HI Hw Hph) as (HI1 & He & Hph1 & Hrev).
  remember (restarted (sd_reference_revision s2.2) w) as w1 eqn:Ew1.
  assert (is_Some (sd_work s2.2 !! e)) as Hs by (destruct Hw; by eexists).
  apply st_bind_Ok in H as (variants & s3 & [-> E3]%sql_read_Ok & H). rewrite <-E3 in *. clear s2 E3.
  apply st_bind_Ok in H as (query & s4 & [Hquery ->]%st_lift_Ok & H). apply ok_or_Ok in Hquery. rewrite He in Hquery, H.
  apply st_bind_Ok in H as (rows & s5 & [E5 (after & Hafter & Erows)]%postings_load_Ok & H). rewrite <-E5 in *. clear s3 E5.
  assert (variant s5.2 e (mw_query_variant w1) query) as Hq.
  { destruct (work_at_ok _ HI1 e w1) as [Hok _]; [apply work_at_put; by left|].
    destruct (wo_variant _ _ Hok) as [v Hv]. apply (variant_facts _ HI1) in Hv as (_ & Hi & _).
    by apply (stored_variants_listed s5.2 HI e Hs). }
  apply st_bind_Ok in H as (reference & s6 & Href & H).
  assert (s6.2 = s5.2 ∧ (mw_phase w1 = Members → ∀ g, reference = Some g → sd_references s5.2 !! g = Some e)) as [E6 Hgroup].
  { case_bool_decide as Em; [|apply st_ret_Ok in Href as [-> ->]; by split].
    apply st_bind_Ok in Href as (group & s7 & [Hg%reference_group_Some E7]%sql_row_Ok & [-> ->]%st_ret_Ok).
    split; [done|]. intros _ g [= <-]. done. }
  rewrite <-E6 in *. clear s5 E6 Href.
  apply st_bind_Ok in H as (outcome & s8 & Hscan & H).
  pose proof (scan_rows_cancelled _ _ _ _ _ _ _ _ _ Hscan) as Hstop.
  apply scan_rows_Ok in Hscan.
  - destruct outcome as [| |w'].
    + apply st_ret_Ok in H as [-> ->]. destruct Hstop as [n Hn]. by apply (advanced_cancelled _ _ n).
    + apply st_ret_Ok in H as [-> ->]. destruct Hscan as (Hp & g & evidence & H1 & Hn & H2 & _ & ->). rewrite He in H1.
      subst w1. destruct (restarted_peer _ _ Hp) as [E Er]. rewrite E in Hp |- *.
      by apply (advanced_established _ _ e w).
    + apply st_bind_Ok in H as ([] & s9 & Hsave & [-> ->]%st_ret_Ok). destruct Hscan as (HG & Hm & Hrest).
      apply cursor_save_Ok in Hsave.
      * rewrite Hsave. by eapply (advanced_window _ _ e w w1 query after).
      * rewrite finish_window_id, (mv_evidence_id _ _ _ _ Hm), He. destruct HG as [E _ _]. by rewrite E.
  - split; rewrite ?He; [done|apply (inv_reference_variants _ HI)|exact (inv_members _ HI)|done|done].
  - intros p. rewrite Erows. intros Hp%elem_of_window. tauto.
Qed.

Lemma established_put g content run_id w db : established g content run_id w (put w db) = established g content run_id w db.
Proof.
  unfold established. change (put (restart Members w)) with
    (λ db, set_work (<[mw_evidence_id w := work_row (restart Members w)]> (sd_work db)) db). cbn.
  unfold set_work. cbn. by rewrite insert_insert_eq.
Qed.

Lemma advanced_inv run db b db' : Inv db → advanced run db b db' → Inv db'.
Proof.
  intros HI [H|n db1 _ HG|e w g evidence Hhead Hw Hp Hr Hev Hn Hg|e w w1 query after rows w' db1 Hhead Hw Hph Ew1 Hq Hafter Erows Hscan].
  - done.
  - by apply (inv_grow _ _ HI).
  - by apply (inv_establish db HI w e).
  - destruct (inv_restarted db e w HI Hw Hph) as (HI1 & He & Hph1 & Hrev). rewrite <-Ew1 in *.
    destruct Hscan as (HG & Hm & Hk & Hf & Hf' & Hall).
    assert (HI' : Inv (put w1 db1)) by (eapply inv_grow; [exact HI1|by apply grows_put]).
    assert (put w1 db1 = set_members (sd_members db1) (put w1 db)) as Esame by (destruct HG as [E _ _]; by rewrite E).
    assert (stored_variants e db = stored_variants e (put w1 db1)) as -> by by rewrite Esame.
    assert (postings db w1 = postings (put w1 db1) w1) as Epost by by rewrite Esame.
    rewrite Epost in Erows. pose proof (mv_evidence_id _ _ _ _ Hm) as Em. rewrite <-(put_put _ w1) by by rewrite finish_window_id.
    subst rows. apply (inv_finish (put w1 db1) HI' w1 e) with (query := query); try done.
    + by apply work_at_put; left.
    + rewrite Esame. exact Hq.
    + rewrite Esame. exact Hrev.
    + intros Hfw. destruct (Hf Hfw) as [Hfw1|Hg]; [|by rewrite He in Hg].
      destruct (work_at_ok _ HI' e w1) as [Hok' _]; [by apply work_at_put; left|].
      rewrite <-He. by apply (wo_found _ _ Hok').
Qed.

(** ** Publication *)

Lemma insert_variants_Ok id vs n s u s' :
  tx_iter (insert_variant fault constraint_failed id) (imap (λ k v, ((n + k)%nat, v)) vs) s = Ok (u, s') →
  s'.2 = set_variants (sd_variants s'.2) s.2 ∧
  ∀ e i row, sd_variants s'.2 !! (e, i) = Some row ↔
    (e = id ∧ Z.of_nat n ≤ i ∧ ∃ v, vs !! (Z.to_nat i - n)%nat = Some v ∧
       row = {| hr_words := sv_candidate v; hr_confirmation := Some (sv_confirmation v) |}) ∨
    sd_variants s.2 !! (e, i) = Some row.
Proof.
  revert n s. induction vs as [|v vs IH]; intros n s H; cbn [imap tx_iter] in H.
  { apply st_ret_Ok in H as [_ ->]. split; [by destruct s as [? []]|]. intros e i row. set_solver. }
  apply st_bind_Ok in H as ([] & s1 & [Ha E1]%sql_write_Ok & H).
  replace (imap _ vs) with (imap (λ k v, ((S n + k)%nat, v)) vs) in H.
  2:{ apply imap_ext. intros k x _. cbn. do 2 f_equal. lia. }
  apply IH in H as [E2 H]. split; [by rewrite E2, E1|]. intros e i row. rewrite H, E1. cbn.
  rewrite Nat.add_0_r in *. apply andb_true_iff in Ha as [Ha _]. apply negb_true_iff, bool_decide_eq_false in Ha. cbn in Ha.
  rewrite lookup_insert_Some. split.
  - intros [(-> & Hi & v' & Hv & ->)|[[[= <- <-] <-]|[_ Ho]]]; [left|left|by right].
    + split_and!; [done|lia|]. exists v'. split; [|done]. replace (Z.to_nat i - n)%nat with (S (Z.to_nat i - S n)) by lia. done.
    + split_and!; [done|lia|]. exists v. split; [|done]. by replace (Z.to_nat (Z.of_nat n) - n)%nat with 0%nat by lia.
  - intros [(-> & Hi & v' & Hv & ->)|Ho].
    + destruct (decide (i = Z.of_nat n)) as [->|Hne].
      * right; left. replace (Z.to_nat (Z.of_nat n) - n)%nat with 0%nat in Hv by lia. injection Hv as ->. done.
      * left. split_and!; [done|lia|]. exists v'. split; [|done].
        replace (Z.to_nat i - n)%nat with (S (Z.to_nat i - S n)) in Hv by lia. done.
    + right; right. split; [|done]. intros [= <- <-]. apply Ha. by eexists.
Qed.

Lemma next_rowid_fresh {A} (rows : gmap Z A) : rows !! next_rowid rows = None ∧ 0 < next_rowid rows.
Proof.
  unfold next_rowid. assert (∀ l, 0 ≤ foldr Z.max 0 l ∧ ∀ x : Z, x ∈ l → x ≤ foldr Z.max 0 l) as Hmax.
  { induction l as [|y l [IH1 IH2]]; [split; [done|set_solver]|]. cbn. split; [lia|].
    intros x [->|Hx]%elem_of_cons; [lia|]. specialize (IH2 x Hx). lia. }
  destruct (Hmax (fst <$> map_to_list rows)) as [H0 H1]. split; [|lia].
  destruct (rows !! (1 + _)) as [row|] eqn:E; [|done]. exfalso. set (k := 1 + _) in E.
  specialize (H1 k). assert (k ≤ foldr Z.max 0 (fst <$> map_to_list rows)); [|unfold k in *; lia]. apply H1.
  apply list_elem_of_fmap. exists (k, row). split; [done|]. by apply elem_of_map_to_list.
Qed.

(** The hashes of evidence have the types of the code. *)
Definition evidence_typed (value : SimilarEvidence) : Prop :=
  match value with Ready variants => Forall variant_typed variants | _ => True end.

Lemma evidence_publish_Ok run content value s b s' :
  Inv s.2 → SimilarContentKey_validate content = Ok () → SimilarEvidence_validate value = Ok () →
  0 ≤ sk_byte_length content → evidence_typed value →
  evidence_publish fault constraint_failed sqlite_full blake3_hex run content value s = Ok (b, s') →
  Inv s'.2 ∧ sd_groups s'.2 = sd_groups s.2.
Proof.
  intros HI Hc Hv Hb Ht H. unfold evidence_publish in H. destruct (disposition_to_db value) as [disposition issue].
  apply st_bind_Ok in H as (len & s1 & [_ ->]%st_lift_Ok & H).
  apply st_bind_Ok in H as (id & s2 & Hid%sql_Ok & H).
  destruct (evidence_exists SIMILARITY_SCHEME content s.2) eqn:Eex.
  { injection Hid as <- E2. apply st_ret_Ok in H as [_ ->]. by rewrite <-E2. }
  destruct (I64_MAX <? next_rowid (sd_evidence s.2)); [done|].
  destruct (negb _); [done|]. injection Hid as <- E2.
  destruct (next_rowid_fresh (sd_evidence s.2)) as [Hfresh Hpos].
  set (id := next_rowid (sd_evidence s.2)) in *. set (row := {| ev_run_id := _ |}) in E2.
  assert (Inv s2.2) as HI2.
  { rewrite <-E2. apply inv_add_evidence; try done. intros e r Hr Eq.
    assert (evidence_exists SIMILARITY_SCHEME content s.2 = true) as He; [|congruence].
    apply existsb_exists. exists (e, r). split; [by apply list_elem_of_In, elem_of_map_to_list|].
    destruct (inv_rows s.2 HI e r Hr) as (Hs & _). cbn. rewrite !bool_decide_eq_true_2; done. }
  destruct value as [variants| |]; [|apply st_ret_Ok in H as [_ ->]; split; [done|by rewrite <-E2]..].
  assert (1 ≤ zlen variants ≤ 8) as Hlen.
  { unfold SimilarEvidence_validate in Hv. apply fail_if_Ok, negb_false_iff in Hv. rewrite !andb_true_iff in Hv.
    by destruct Hv as [[Hv%in_range_true _] _]. }
  apply st_bind_Ok in H as ([] & s3 & [E3 H3]%(insert_variants_Ok id variants 0) & H).
  apply st_bind_Ok in H as (group & s4 & [_ ->]%st_lift_Ok & H).
  apply st_bind_Ok in H as (restored & s5 & [-> E5]%sql_read_Ok & H).
  apply st_bind_Ok in H as ([] & s6 & Hadmit & H).
  case_bool_decide as Hres.
  { exfalso. apply admit_reference_Ok in Hadmit as [Hnone _]. rewrite E5 in Hnone. destruct Hres as [grow Hg].
    rewrite E3 in Hg, Hnone. destruct (inv_groups s2.2 HI2 group grow Hg) as (r & ev & Hr & _).
    cbn in Hnone. congruence. }
  apply st_ret_Ok in Hadmit as [_ ->]. apply st_bind_Ok in H as ([] & s7 & [_ E7]%sql_write_Ok & [_ ->]%st_ret_Ok).
  split; [|rewrite E7, E5, E3, <-E2; done]. rewrite E7, E5, E3. change (set_work _ _) with
    (put (new_work id (sd_reference_revision s2.2)) (set_variants (sd_variants s3.2) s2.2)).
  assert (is_Some (sd_evidence s2.2 !! id)) as Hev by (rewrite <-E2; cbn; rewrite lookup_insert_eq; by eexists).
  apply (inv_add_work s2.2 HI2 id variants); [done| |done|done|].
  - rewrite <-E2. cbn. destruct (sd_work s.2 !! id) eqn:Ew; [|done].
    destruct (inv_listed s.2 HI id) as ([? He] & _); [by eexists|congruence].
  - intros e i r. rewrite H3. by rewrite Nat.sub_0_r.
Qed.

(** ** Transactions *)

(** The invariant, and that groups are named after the content of their reference. *)
Definition matches_sound (db : SimilarDb) : Prop :=
  Inv db ∧ ∀ g row, sd_groups db !! g = Some row → group_id blake3_hex SIMILARITY_SCHEME (gr_reference row) = Ok g.

Lemma advanced_sound run db b db' : matches_sound db → advanced run db b db' → matches_sound db'.
Proof.
  intros [HI Hn] Ha. split; [by eapply advanced_inv|].
  destruct Ha as [H|n db1 _ [E _ _]|e w g evidence Hhead Hw Hp Hr Hev Hg Hnew
    |e w w1 query after rows w' db1 Hhead Hw Hph Ew1 Hq Hafter Erows [[E _ _] _]]; [done|by rewrite E| |].
  - intros g' row. cbn. rewrite lookup_insert_Some. intros [[<- <-]|[_ H]]; [done|by apply Hn].
  - intros g row. cbn. rewrite E. apply Hn.
Qed.

Lemma similarity_transaction_Ok {A} (body : ST ScanError (nat * SimilarDb) (bool * A)) s a s' :
  similarity_transaction fault body s = Ok (a, s') →
  s'.2 = s.2 ∨ ∃ s0 s1, s0.2 = s.2 ∧ body s0 = Ok ((true, a), s1) ∧ s'.2 = s1.2.
Proof.
  unfold similarity_transaction. destruct ((begin_write fault;; body) s) as [[[[] b] s1]|] eqn:E; [| |done].
  - intros H. apply st_bind_Ok in H as (u & s2 & [_ E2]%sql_read_Ok & [-> ->]%st_ret_Ok). right.
    apply st_bind_Ok in E as (u' & s0 & [_ E0]%sql_read_Ok & Hb). by exists s0, s1.
  - intros [= <- <-]. by left.
Qed.

Lemma require_owner_Ok run s u s' : require_owner fault clock run s = Ok (u, s') → s'.2 = s.2.
Proof.
  unfold require_owner. intros H. apply st_bind_Ok in H as (now & s1 & H1 & H). injection H1 as _ <-.
  apply st_bind_Ok in H as (active & s2 & [_ E2]%sql_read_Ok & [_ ->]%st_lift_Ok). done.
Qed.

Lemma match_similarity_window_Ok run s b s' :
  matches_sound s.2 →
  match_similarity_window fault cancelled clock constraint_failed no_rows bad_column blake3_hex run s = Ok (b, s') →
  matches_sound s'.2.
Proof.
  intros HI [->|(s0 & s1 & E0 & H & ->)]%similarity_transaction_Ok; [done|]. rewrite <-E0 in HI.
  apply st_bind_Ok in H as ([] & s2 & E2%require_owner_Ok & H).
  apply st_bind_Ok in H as (stop & s3 & E3%load_cancelled_Ok & H).
  destruct stop; [by apply st_ret_Ok in H as [? _]|].
  apply st_bind_Ok in H as (worked & s4 & Hadv & H).
  assert (matches_sound s3.2) as HS by by rewrite E3, E2. apply match_advance_advanced in Hadv; [|apply HS].
  apply (advanced_sound _ _ _ _ HS) in Hadv.
  apply st_bind_Ok in H as (stop & s5 & E5%load_cancelled_Ok & H).
  destruct stop; [by apply st_ret_Ok in H as [? _]|]. apply st_ret_Ok in H as [_ ->]. by rewrite E5.
Qed.

Lemma publish_similarity_Ok run content value s b s' :
  matches_sound s.2 → 0 ≤ sk_byte_length content → evidence_typed value →
  publish_similarity fault cancelled clock verify constraint_failed sqlite_full blake3_hex run content value s = Ok (b, s') →
  matches_sound s'.2.
Proof.
  intros HI Hb Ht H. unfold publish_similarity in H.
  apply st_bind_Ok in H as ([] & s1 & [Hc ->]%st_lift_Ok & H). apply st_bind_Ok in H as ([] & s2 & [Hv ->]%st_lift_Ok & H).
  apply st_bind_Ok in H as ([] & s3 & [_ ->]%st_lift_Ok & H).
  apply similarity_transaction_Ok in H as [->|(s0 & s4 & E0 & H & ->)]; [done|]. rewrite <-E0 in HI.
  apply st_bind_Ok in H as ([] & s5 & E5%require_owner_Ok & H).
  apply st_bind_Ok in H as (stop & s6 & E6%load_cancelled_Ok & H). destruct stop; [by apply st_ret_Ok in H as [? _]|].
  apply st_bind_Ok in H as (current & s7 & H7 & H).
  assert (s7.2 = s6.2) as E7 by (destruct (verify s6.1); [by injection H7 as _ <-|done]).
  destruct current; [|by apply st_ret_Ok in H as [? _]].
  apply st_bind_Ok in H as (inserted & s8 & Hpub & H).
  assert (matches_sound s7.2) as [HI7 Hn7] by by rewrite E7, E6, E5.
  apply evidence_publish_Ok in Hpub as [HI8 Eg]; [|done..].
  apply st_bind_Ok in H as (stop & s9 & E9%load_cancelled_Ok & H).
  destruct stop; [by apply st_ret_Ok in H as [? _]|]. apply st_ret_Ok in H as [_ ->]. rewrite E9.
  split; [done|]. rewrite Eg. exact Hn7.
Qed.

(** *** The run that owns the dispatch *)

(** Tables that differ in their runs only. *)
Definition same_matches (db db' : SimilarDb) : Prop :=
  db' = set_dispatch (sd_runs db') (sd_active db') (sd_ledger db') db.

Lemma same_matches_refl db : same_matches db db.
Proof. by destruct db. Qed.

Lemma same_matches_trans db1 db2 db3 : same_matches db1 db2 → same_matches db2 db3 → same_matches db1 db3.
Proof. unfold same_matches. intros E1 E2. rewrite E2, E1. done. Qed.

Lemma same_matches_set runs active ledger db : same_matches db (set_dispatch runs active ledger db).
Proof. done. Qed.

Lemma same_matches_sound db db' : same_matches db db' → matches_sound db → matches_sound db'.
Proof.
  intros -> [[I1 I2 I3 I4 I5 I6 I7 I8 I9 I10 I11 I12 I13 I14 I15] Hn]. split; [|done]. split; try done.
  intros e row H. destruct (I6 e row H) as (w & Hw & [W1 W2 W3 W4 W5 W6 W7 W8]). exists w. done.
Qed.

Lemma retire_run_Ok now active s u s' :
  retire_run fault constraint_failed now active s = Ok (u, s') → same_matches s.2 s'.2.
Proof.
  unfold retire_run. destruct active as [[[[id source] until] scheme]|]; [|intros [_ ->]%st_ret_Ok; apply same_matches_refl].
  intros H. apply st_bind_Ok in H as (reason & s1 & [_ ->]%st_lift_Ok & H).
  apply st_bind_Ok in H as ([] & s2 & [_ E2]%sql_write_Ok & [_ E3]%sql_write_Ok). by rewrite E3, E2.
Qed.

Lemma begin_similarity_Ok run s u s' :
  begin_similarity fault clock constraint_failed run s = Ok (u, s') → same_matches s.2 s'.2.
Proof.
  intros [->|(s0 & s1 & E0 & H & ->)]%similarity_transaction_Ok; [apply same_matches_refl|]. rewrite <-E0.
  apply st_bind_Ok in H as ([] & s2 & H & [_ ->]%st_ret_Ok). unfold begin_run in H.
  apply st_bind_Ok in H as (now & s3 & H3 & H). injection H3 as _ <-.
  apply st_bind_Ok in H as (active & s4 & [-> E4]%sql_read_Ok & H).
  apply st_bind_Ok in H as ([] & s5 & H5%retire_run_Ok & H). rewrite E4 in H5.
  apply st_bind_Ok in H as ([] & s6 & [_ E6]%sql_write_Ok & H).
  apply st_bind_Ok in H as ([] & s7 & [_ E7]%sql_write_Ok & [_ E8]%sql_write_Ok).
  eapply same_matches_trans; [exact H5|]. by rewrite E8, E7, E6.
Qed.

Lemma renew_similarity_Ok run s u s' :
  renew_similarity fault clock constraint_failed run s = Ok (u, s') → same_matches s.2 s'.2.
Proof.
  intros [->|(s0 & s1 & E0 & H & ->)]%similarity_transaction_Ok; [apply same_matches_refl|]. rewrite <-E0.
  apply st_bind_Ok in H as ([] & s2 & H & [_ ->]%st_ret_Ok).
  apply st_bind_Ok in H as ([] & s3 & E3%require_owner_Ok & H). apply st_bind_Ok in H as (now & s4 & H4 & H).
  injection H4 as _ <-. apply sql_write_Ok in H as [_ ->]. cbn. rewrite E3.
  destruct (sd_active s0.2) as [[id until]|]; [|apply same_matches_refl]. case_bool_decide; [done|apply same_matches_refl].
Qed.

Lemma finish_similarity_Ok totals run progress s u s' :
  finish_similarity fault clock constraint_failed totals run progress s = Ok (u, s') → same_matches s.2 s'.2.
Proof.
  intros [->|(s0 & s1 & E0 & H & ->)]%similarity_transaction_Ok; [apply same_matches_refl|]. rewrite <-E0.
  apply st_bind_Ok in H as ([] & s2 & H & [_ ->]%st_ret_Ok).
  apply st_bind_Ok in H as ([] & s3 & E3%require_owner_Ok & H).
  apply st_bind_Ok in H as (phase & s4 & [_ ->]%st_lift_Ok & H). apply st_bind_Ok in H as (now & s4 & H4 & H).
  injection H4 as _ <-. do 3 (apply st_bind_Ok in H as (? & ? & [_ ->]%st_lift_Ok & H)).
  apply st_bind_Ok in H as ([] & s5 & [_ E5]%sql_write_Ok & H).
  apply st_bind_Ok in H as ([] & s6 & [_ E6]%sql_write_Ok & [_ ->]%sql_write_Ok). cbn in E5. rewrite E3 in E5.
  assert (same_matches s0.2 s6.2) as Hm by by rewrite E6, E5.
  destruct (sd_active s6.2) as [[id until]|]; [|done]. case_bool_decide; [|done]. eapply same_matches_trans; [exact Hm|done].
Qed.
End Steps.

(** ** Runs of the repository *)

(** The operations that change the tables of similarity: windows of a match and publications, with any
    statements failing and any cancellation, and the beginning, the renewal and the end of an analysis. *)
Inductive similar_step (blake3_hex : bytes → str) : SimilarDb → SimilarDb → Prop :=
| step_window fault cancelled clock constraint_failed no_rows bad_column run n db b n' db' :
    match_similarity_window fault cancelled clock constraint_failed no_rows bad_column blake3_hex run (n, db)
      = Ok (b, (n', db')) →
    similar_step blake3_hex db db'
| step_publish fault cancelled clock verify constraint_failed sqlite_full run content value n db b n' db' :
    0 ≤ sk_byte_length content → evidence_typed value →
    publish_similarity fault cancelled clock verify constraint_failed sqlite_full blake3_hex run content value (n, db)
      = Ok (b, (n', db')) →
    similar_step blake3_hex db db'
| step_begin fault clock constraint_failed run n db n' db' :
    begin_similarity fault clock constraint_failed run (n, db) = Ok ((), (n', db')) → similar_step blake3_hex db db'
| step_renew fault clock constraint_failed run n db n' db' :
    renew_similarity fault clock constraint_failed run (n, db) = Ok ((), (n', db')) → similar_step blake3_hex db db'
| step_finish fault clock constraint_failed totals run progress n db n' db' :
    finish_similarity fault clock constraint_failed totals run progress (n, db) = Ok ((), (n', db')) →
    similar_step blake3_hex db db'.

Definition similar_fresh : SimilarDb :=
  {| sd_evidence := ∅; sd_variants := ∅; sd_groups := ∅; sd_references := ∅; sd_reference_variants := ∅;
     sd_members := ∅; sd_work := ∅; sd_runs := ∅; sd_active := None; sd_reference_revision := 0;
     sd_ledger := {| lg_outcomes := ∅; lg_exact_runs := ∅; lg_exact_outcomes := ∅ |} |}.

Lemma inv_fresh : Inv similar_fresh.
Proof. split; intros *; cbn; try done; try (intros [? H]; done); try (intros ? (? & ? & _); done). Qed.

Lemma similar_step_sound blake3_hex db db' : similar_step blake3_hex db db' → matches_sound blake3_hex db → matches_sound blake3_hex db'.
Proof.
  intros [fault cancelled clock constraint_failed no_rows bad_column run n db1 b n' db2 H
    |fault cancelled clock verify constraint_failed sqlite_full run content value n db1 b n' db2 Hb Ht H
    |fault clock constraint_failed run n db1 n' db2 H|fault clock constraint_failed run n db1 n' db2 H
    |fault clock constraint_failed totals run progress n db1 n' db2 H] HI.
  - by apply (match_similarity_window_Ok _ _ _ _ _ _ _ _ (n, db1) _ (n', db2)) in H.
  - by apply (publish_similarity_Ok _ _ _ _ _ _ _ _ _ _ (n, db1) _ (n', db2)) in H.
  - apply (begin_similarity_Ok _ _ _ _ (n, db1) _ (n', db2)) in H. by eapply same_matches_sound.
  - apply (renew_similarity_Ok _ _ _ _ (n, db1) _ (n', db2)) in H. by eapply same_matches_sound.
  - apply (finish_similarity_Ok _ _ _ _ _ _ (n, db1) _ (n', db2)) in H. by eapply same_matches_sound.
Qed.

Lemma similar_run_sound blake3_hex db : rtc (similar_step blake3_hex) similar_fresh db → matches_sound blake3_hex db.
Proof.
  intros H. assert (∀ db0, rtc (similar_step blake3_hex) db0 db → matches_sound blake3_hex db0 → matches_sound blake3_hex db) as Hrun.
  { clear. induction 1 as [|x y z Hs _ IH]; [done|]. intros HI. apply IH. by eapply similar_step_sound. }
  apply (Hrun similar_fresh); [done|]. split; [apply inv_fresh|done].
Qed.

(** Two contents have hashes that match. *)
Definition similar (db : SimilarDb) (e e' : Z) : Prop :=
  ∃ i j v v', variant db e i v ∧ variant db e' j v' ∧ is_Some (confirmed_distance v v').

(** [d] is the least distance of a match of the reference of [g] with [e]. *)
Definition least_match (db : SimilarDb) (g : str) (e d : Z) : Prop :=
  matching db g e d ∧ ∀ d', matching db g e d' → d ≤ d'.

Lemma settled_complete db e w : Inv db → pending_works db = [] → work_at db e w → mw_phase w = MatchComplete.
Proof.
  intros HI Hp Hw. destruct (decide (mw_phase w = MatchComplete)) as [|Hne]; [done|].
  apply (is_pending_phase db e w HI Hw), elem_of_pending in Hne. rewrite Hp in Hne. by apply not_elem_of_nil in Hne.
Qed.

Lemma settled_joined db g r i v e j v' d :
  Inv db → pending_works db = [] → sd_references db !! g = Some r → variant db r i v → variant db e j v' →
  confirmed_distance v v' = Some d → joined db g e d.
Proof.
  intros HI Hp H1 H2 H3 H4.
  destruct (inv_joined db HI g r i v e j v' d H1 H2 H3 H4) as [H|[(w & Hw & Hph & _)|(w & Hw & H)]]; [done|..];
    rewrite (settled_complete db _ w HI Hp Hw) in *; naive_solver.
Qed.

(** C5: In every state the repository reaches from empty tables, whatever fails or is cancelled, once no work is left the
    members of a group are exactly the contents whose hashes match its reference, each at its least distance; of two
    contents that match at least one is in a group; and the references of two groups never match. *)
Theorem similar_groups_exact blake3_hex db :
  rtc (similar_step blake3_hex) similar_fresh db → pending_works db = [] →
  (∀ g e d, (∃ row, sd_members db !! (g, e) = Some row ∧ mb_distance row = d) ↔ least_match db g e d) ∧
  (∀ e e', e ≠ e' → similar db e e' → grouped db e ∨ grouped db e') ∧
  (∀ g g' r r', sd_references db !! g = Some r → sd_references db !! g' = Some r' → similar db r r' → g = g').
Proof.
  intros Hrun Hp. pose proof (similar_run_sound _ _ Hrun) as [HI _]. split_and!.
  - assert (∀ g e d, matching db g e d → joined db g e d) as Hall.
    { intros g e d (r & i & j & v & v' & H1 & H2 & H3 & H4). by eapply (settled_joined db g r i v e j v' d). }
    intros g e d. split.
    + intros (row & H & <-). split; [by apply (inv_members db HI)|]. intros d' (row' & H' & Hle)%Hall. congruence.
    + intros [Hm Hleast]. destruct (Hall g e d Hm) as (row & H & Hle). exists row. split; [done|].
      specialize (Hleast _ (inv_members db HI g e row H)). lia.
  - assert (∀ e i v p, variant db e i v → cared db e i v p → grouped db e) as Hcared.
    { intros e i v p Hv [[H|[[g Hg]|(w & Hw & H)]]|(w & Hw & H & _)]; [done|..];
        [|rewrite (settled_complete db _ w HI Hp Hw) in *; naive_solver..].
      exists g, 0. eapply (settled_joined db g e i v e i v 0); [done..|apply confirmed_self]. }
    intros e e' Hne (i & j & v & v' & H1 & H2 & [d Hd]).
    destruct (inv_paired db HI e i v e' j v' d Hne H1 H2 Hd) as [H|H]; [left|right]; by eapply Hcared.
  - intros g g' r r' Hg Hg' (i & j & v & v' & H1 & H2 & H3). by eapply (inv_apart db HI g g' r r' i j v v').
Qed.

(** ** An example *)

(** The tables after an operation, unchanged if it fails. *)
Definition tables_after {A} (r : ScanResult (A * (nat * SimilarDb))) (db : SimilarDb) : SimilarDb :=
  match r with Ok (_, s) => s.2 | Err _ => db end.

Definition example_run : SimilarAnalysisRun := {| sr_run_id := lit "r"; sr_source_run_id := lit "s"; sr_started_unix_ms := 1 |}.

Definition example_content (n : Z) : SimilarContentKey :=
  {| sk_scheme := EXACT_FINGERPRINT_SCHEME; sk_digest := replicate 64 (48 + n); sk_byte_length := 5 |}.

Definition example_evidence (word : Z) : SimilarEvidence :=
  Ready [{| sv_candidate := [word; 2; 3; 4]; sv_confirmation := replicate 32 7 |}].

(** A run that has begun publishes the content [n] with a hash, and matches one window. *)
Definition example_publish (n word : Z) (db : SimilarDb) : SimilarDb :=
  tables_after (publish_similarity (λ _, None) (λ _, false) (λ _, 5) (λ _, Ok true) run_retired run_retired (λ b, b)
    example_run (example_content n) (example_evidence word) (0%nat, db)) db.

Definition example_window (db : SimilarDb) : SimilarDb :=
  tables_after (match_similarity_window (λ _, None) (λ _, false) (λ _, 5) run_retired run_retired run_retired (λ b, b)
    example_run (0%nat, db)) db.

(** Three contents that match. *)
Definition example_published : SimilarDb :=
  example_publish 2 60000 (example_publish 1 3 (example_publish 0 1
    (tables_after (begin_similarity (λ _, None) (λ _, 5) run_retired example_run (0%nat, similar_fresh)) similar_fresh))).

Definition example_settled : SimilarDb := Nat.iter 64 example_window example_published.

Lemma example_publish_step n word db : 0 ≤ word < 2 ^ 16 →
  rtc (similar_step (λ b, b)) db (example_publish n word db).
Proof.
  intros Hw. unfold example_publish, tables_after. destruct (publish_similarity _ _ _ _ _ _ _ _ _ _ _) as [[b [n' db']]|] eqn:E; [|done].
  apply rtc_once. eapply step_publish; [| |exact E]; [done|]. repeat constructor; cbn; lia.
Qed.

Lemma example_window_step db : rtc (similar_step (λ b, b)) db (example_window db).
Proof.
  unfold example_window, tables_after. destruct (match_similarity_window _ _ _ _ _ _ _ _ _) as [[b [n' db']]|] eqn:E; [|done].
  apply rtc_once. by eapply step_window.
Qed.

Lemma example_published_run : rtc (similar_step (λ b, b)) similar_fresh example_published.
Proof.
  unfold example_published. etrans; [|by apply example_publish_step]. etrans; [|by apply example_publish_step].
  etrans; [|by apply example_publish_step]. unfold tables_after.
  destruct (begin_similarity _ _ _ _ _) as [[[] [n' db']]|] eqn:E; [|done]. apply rtc_once. by eapply step_begin.
Qed.

Lemma example_settled_run : rtc (similar_step (λ b, b)) similar_fresh example_settled.
Proof.
  unfold example_settled. generalize 64%nat. intros k. induction k as [|k IH]; [apply example_published_run|]. cbn. etrans; [exact IH|apply example_window_step].
Qed.

Lemma similar_groups_exact_witness :
  pending_works example_settled = [] ∧
  ∃ g row, sd_members example_settled !! (g, 2) = Some row ∧ least_match example_settled g 2 1.
Proof.
  assert (pending_works example_settled = []) as Hp by (vm_compute; reflexivity). split; [exact Hp|].
  destruct (similar_groups_exact (λ b, b) example_settled example_settled_run Hp) as [Hm _].
  exists (from_option id [] (reference_group 1 example_settled)), {| mb_distance := 1; mb_run_id := lit "r" |}.
  assert (sd_members example_settled !! (from_option id [] (reference_group 1 example_settled), 2) =
    Some {| mb_distance := 1; mb_run_id := lit "r" |}) as E by (vm_compute; reflexivity).
  split; [exact E|]. apply Hm. eexists. split; [exact E|reflexivity].
Defined.
