(* ===== verification/SimilarProgress.v ===== *)
(** * Similarity matching comes to an end

    Windows that are not cancelled and whose statements do not fail succeed, and bring the first unfinished work
    further: a finite number of them leaves no work, so that the groups are exact. *)

From stdpp Require Import sorting.
From S2P Require Import Prelude Text Numerals Order JournalText QueueStore SimilarImages SimilarLaws SimilarGroups.

(** ** Names of groups *)

Lemma as_bytes_below_128 s : Forall (λ c, c < 128) s → as_bytes s = s.
Proof.
  induction 1 as [|c s Hc _ IH]; [done|]. rewrite as_bytes_cons, IH. unfold utf8_char.
  by rewrite (proj2 (Z.ltb_lt c 128) Hc).
Qed.

(** A text whose bytes satisfy a test for ASCII consists of these bytes. *)
Lemma ascii_test (f : Z → bool) s :
  (∀ b, f b = true → 0 < b < 128) → forallb f (as_bytes s) = true → as_bytes s = s ∧ Forall (λ c, 0 < c < 128) s.
Proof.
  intros Hf. induction s as [|c s IH]; [done|]. rewrite as_bytes_cons, forallb_app, andb_true_iff.
  intros [Hc Hs]. destruct (IH Hs) as [-> Hp].
  assert (utf8_char c = [c] ∧ 0 < c < 128) as [-> Hcp]; [|split; [done|by constructor]].
  unfold utf8_char in *. destruct (Z.ltb_spec c 128).
  - cbn in Hc. rewrite andb_true_r in Hc. split; [done|by apply Hf].
  - exfalso. assert (∀ a l, forallb f (a :: l) = true → a < 128) as Hb.
    { intros a l [Ha _]%andb_true_iff. apply Hf in Ha. lia. }
    destruct (c <? 0x800); [|destruct (c <? 0x10000)]; apply Hb in Hc; pose proof (Z.div_pos c 64);
      pose proof (Z.div_pos c 4096); pose proof (Z.div_pos c 262144); lia.
Qed.

Lemma valid_scheme_ascii s : valid_scheme s = true → Forall (λ c, 0 < c < 128) s.
Proof.
  unfold valid_scheme. rewrite !andb_true_iff. intros [_ H].
  eapply ascii_test; [|exact H]. intros b. unfold is_ascii_alphanumeric, in_range.
  case_bool_decide as E; [intros _|]; [|lia]. rewrite !elem_of_cons in E.
  destruct E as [->|[->|[->|E]]]; [lia..|by apply not_elem_of_nil in E].
Qed.

Lemma validated_key k : SimilarContentKey_validate k = Ok () →
  Forall (λ c, 0 < c < 128) (sk_scheme k) ∧ Forall (λ c, 0 < c < 128) (sk_digest k) ∧ sk_byte_length k ≤ 256 * 1024 * 1024.
Proof.
  unfold SimilarContentKey_validate. intros H%fail_if_Ok. rewrite !orb_false_iff, !negb_false_iff in H.
  destruct H as ((((H1 & _) & H2) & _) & H3%Z.ltb_ge). split_and!; [by apply valid_scheme_ascii| |done].
  eapply ascii_test; [|exact H2]. intros b. unfold in_range. lia.
Qed.

Lemma app_zero_inj (a a' : str) x x' :
  Forall (λ c, 0 < c < 128) a → Forall (λ c, 0 < c < 128) a' → a ++ 0 :: x = a' ++ 0 :: x' → a = a' ∧ x = x'.
Proof.
  intros Ha. revert a'. induction Ha as [|c a Hc _ IH]; intros [|c' a'] Ha' E; cbn in E.
  - by injection E.
  - injection E as <- _. inversion Ha'; subst. lia.
  - injection E as -> _. lia.
  - injection E as -> E. inversion Ha'; subst. destruct (IH a') as [-> ->]; done.
Qed.

Section Names.
Context (blake3_hex : bytes → str).

(** What [stable_id] digests for the group of a content. *)
Definition group_preimage (k : SimilarContentKey) : bytes :=
  as_bytes (lit "similarity-group-v1") ++ [0] ++ as_bytes (group_text SIMILARITY_SCHEME k).

(** Different contents have different groups, as far as the digest does not collide. *)
Lemma group_id_inj k k' g :
  (blake3_hex (group_preimage k) = blake3_hex (group_preimage k') → group_preimage k = group_preimage k') →
  0 ≤ sk_byte_length k → 0 ≤ sk_byte_length k' →
  group_id blake3_hex SIMILARITY_SCHEME k = Ok g → group_id blake3_hex SIMILARITY_SCHEME k' = Ok g → k = k'.
Proof.
  intros Hinj L L' H H'. unfold group_id in *. simplify_result. repeat match goal with u : () |- _ => destruct u end.
  match goal with H1 : SimilarContentKey_validate k = _, H2 : SimilarContentKey_validate k' = _ |- _ =>
    destruct (validated_key k H1) as (S1 & D1 & B1), (validated_key k' H2) as (S2 & D2 & B2) end.
  match goal with H : stable_id _ _ _ = stable_id _ _ _ |- _ => rename H into E end.
  apply Hinj in E. unfold group_preimage in E. do 2 apply app_inv_head in E.
  destruct (show_uint_spec (sk_byte_length k)) as (N1 & _ & P1); [lia|].
  destruct (show_uint_spec (sk_byte_length k')) as (N2 & _ & P2); [lia|].
  assert (∀ k0, Forall (λ c, 0 < c < 128) (sk_scheme k0) → Forall (λ c, 0 < c < 128) (sk_digest k0) →
    Forall is_digit (show_uint (sk_byte_length k0)) →
    as_bytes (group_text SIMILARITY_SCHEME k0) = group_text SIMILARITY_SCHEME k0) as Hb.
  { intros k0 A B C. apply as_bytes_below_128. unfold group_text. rewrite !Forall_app.
    assert (Forall (λ c, c < 128) SIMILARITY_SCHEME) by (apply (bool_decide_unpack _); vm_compute; exact I).
    split_and!; try done; try (repeat constructor; lia); (eapply Forall_impl; [eassumption|]); unfold is_digit; lia. }
  rewrite !Hb in E by done. unfold group_text in E. do 2 apply app_inv_head in E.
  apply app_zero_inj in E as [Es E]; [|done..]. apply app_zero_inj in E as [Ed E]; [|done..].
  rewrite E, P2 in P1. injection P1 as P1. destruct k, k'; cbn in *. by subst.
Qed.

(** The digest does not collide on the stored contents. *)
Definition digests_distinct (evidence : gmap Z EvidenceRow) : Prop :=
  ∀ e e' row row', evidence !! e = Some row → evidence !! e' = Some row' →
    blake3_hex (group_preimage (ev_content row)) = blake3_hex (group_preimage (ev_content row')) →
    group_preimage (ev_content row) = group_preimage (ev_content row').

(** The states in which matching goes on. *)
Definition ready (db : SimilarDb) : Prop := matches_sound blake3_hex db ∧ digests_distinct (sd_evidence db).
End Names.

(** ** Windows succeed *)

Section Progress.
Context (fault : nat → option ScanError) (cancelled : nat → bool) (clock : nat → Z).
Context (constraint_failed no_rows bad_column : ScanError).
Context (blake3_hex : bytes → str).

Abbreviation Tx := (ST ScanError (nat * SimilarDb)).

(** The errors that matching may return: that of a failing statement, and the loss of the lease. *)
Definition expected_error (error : ScanError) : Prop := error = run_retired ∨ ∃ n, fault n = Some error.

(** A program ends with a result that satisfies [Q], or with an expected error. *)
Definition ends {A} (m : Tx A) (s : nat * SimilarDb) (Q : A → nat * SimilarDb → Prop) : Prop :=
  match m s with
  | Ok (a, s') => Q a s'
  | Err error => expected_error error
  end.

Definition succeeds {A} (m : Tx A) (s : nat * SimilarDb) : Prop := ends m s (λ _ _, True).

Lemma ends_mono {A} (m : Tx A) s (Q Q' : A → nat * SimilarDb → Prop) :
  ends m s Q → (∀ a s', m s = Ok (a, s') → Q a s' → Q' a s') → ends m s Q'.
Proof. unfold ends. destruct (m s) as [[a s']|]; [|done]. intros H HQ. by apply HQ. Qed.

Lemma ends_bind {A B} (m : Tx A) (f : A → Tx B) s P Q :
  ends m s P → (∀ a s', P a s' → ends (f a) s' Q) → ends (m ≫= f) s Q.
Proof. unfold ends, mbind, st_bind. destruct (m s) as [[a s']|]; [|done]. intros H Hf. by apply Hf. Qed.

Lemma ends_assoc {A B C} (m : Tx A) (f : A → Tx B) (g : B → Tx C) s Q :
  ends (a ← m; b ← f a; g b) s Q → ends (b ← (a ← m; f a); g b) s Q.
Proof. unfold ends, mbind, st_bind. by destruct (m s) as [[a s']|]. Qed.

Lemma succeeds_bind {A B} (m : Tx A) (f : A → Tx B) s :
  succeeds m s → (∀ a s', m s = Ok (a, s') → succeeds (f a) s') → succeeds (m ≫= f) s.
Proof.
  intros Hm Hf. eapply (ends_bind _ _ _ (λ a s', m s = Ok (a, s'))); [|exact Hf]. by eapply ends_mono.
Qed.

Lemma succeeds_ret {A} (a : A) s : succeeds (mret a) s.
Proof. done. Qed.

Lemma succeeds_lift {A} (r : ScanResult A) a s : r = Ok a → succeeds (st_lift r) s.
Proof. by intros ->. Qed.

Lemma succeeds_sql {A} (f : SimilarDb → ScanResult (A * SimilarDb)) r s : f s.2 = Ok r → succeeds (sql fault f) s.
Proof.
  intros H. unfold succeeds, ends, sql. destruct (fault s.1) eqn:E; [right; by eexists|]. rewrite H. by destruct r.
Qed.

Lemma succeeds_read {A} (f : SimilarDb → A) s : succeeds (sql_read fault f) s.
Proof. by eapply succeeds_sql. Qed.

Lemma succeeds_row {A} (f : SimilarDb → option A) a s : f s.2 = Some a → succeeds (sql_row fault no_rows f) s.
Proof. intros H. eapply succeeds_sql. rewrite H. done. Qed.

Lemma succeeds_write allowed f s : allowed s.2 = true → succeeds (sql_write fault constraint_failed allowed f) s.
Proof. intros H. eapply succeeds_sql. by rewrite H. Qed.

Lemma succeeds_save w s : succeeds (cursor_save fault constraint_failed w) s.
Proof. by apply succeeds_write. Qed.

Lemma succeeds_member run g e d s :
  is_Some (sd_references s.2 !! g) → is_Some (sd_evidence s.2 !! e) → is_Some (sd_runs s.2 !! sr_run_id run) → 0 ≤ d ≤ 10 →
  succeeds (publish_member fault constraint_failed run g e d) s.
Proof.
  intros Hg He Hr Hd. apply succeeds_write. rewrite !bool_decide_eq_true_2 by done. by apply in_range_true.
Qed.

Lemma forallb_map {K A} `{Countable K} (f : K * A → bool) (m : gmap K A) :
  (∀ k a, m !! k = Some a → f (k, a) = true) → forallb f (map_to_list m) = true.
Proof. intros Hf. apply forallb_forall. intros [k a] Hin%list_elem_of_In. apply Hf. by apply elem_of_map_to_list. Qed.

Lemma succeeds_establish db e w s :
  ready blake3_hex db → work_at db e w → mw_phase w = Peer → s.2 = db →
  succeeds (establish_reference fault constraint_failed no_rows blake3_hex w) s.
Proof.
  intros [[HI Hn] Hinj] Hw Hp <-. destruct (work_at_ok _ HI e w Hw) as [Hok He].
  assert (~ is_reference s.2 e) as Hnr by (rewrite <-He; apply (wo_others _ _ Hok); by right).
  assert (is_Some (sd_work s.2 !! e)) as Hs by (destruct Hw; by eexists).
  destruct (inv_listed _ HI e Hs) as ([evidence Hev] & _). destruct (inv_rows _ HI e evidence Hev) as (_ & Hvalid & Hb).
  apply succeeds_bind; [eapply succeeds_row; by rewrite He, Hev|]. intros content s1 [Hc E1]%sql_row_Ok.
  rewrite He, Hev in Hc. injection Hc as <-.
  assert (∃ g, group_id blake3_hex SIMILARITY_SCHEME (ev_content evidence) = Ok g) as [g Hg].
  { unfold group_id. rewrite Hvalid. by eexists. }
  apply succeeds_bind; [by eapply succeeds_lift|]. intros g' s2 [Hg' ->]%st_lift_Ok.
  rewrite Hg in Hg'. injection Hg' as <-.
  assert (∀ h row, sd_groups s.2 !! h = Some row →
    h ≠ g ∧ row ≠ {| gr_scheme := SIMILARITY_SCHEME; gr_reference := ev_content evidence |}) as Hgroups.
  { intros h row Hrow. destruct (inv_groups _ HI h row Hrow) as (r & ev & Hr & Hrev & ->).
    assert (r ≠ e) as Hne by (intros ->; apply Hnr; by exists h).
    assert (ev_content ev ≠ ev_content evidence) as Hcne by (intros E; apply Hne; by eapply (inv_contents _ HI)).
    split; [|congruence]. intros ->. apply Hcne. specialize (Hn g _ Hrow). cbn in Hn.
    destruct (inv_rows _ HI r ev Hrev) as (_ & _ & Hb'). eapply (group_id_inj blake3_hex); [by eapply Hinj|done..]. }
  assert (sd_groups s.2 !! g = None) as Hgnone.
  { destruct (sd_groups s.2 !! g) as [row|] eqn:Eg; [|done]. by destruct (Hgroups g row Eg). }
  assert (sd_references s.2 !! g = None) as Hrnone.
  { destruct (sd_references s.2 !! g) as [r|] eqn:Er; [|done]. destruct (inv_references _ HI g r Er) as [[? ?] _]. congruence. }
  apply succeeds_bind.
  { apply succeeds_write. rewrite E1, Hgnone. cbn. apply forallb_map. intros h row Hrow. cbn.
    rewrite bool_decide_eq_false_2; [done|]. by apply (Hgroups h row). }
  intros [] s3 [_ E3]%sql_write_Ok. rewrite E1 in E3. apply succeeds_bind; [|intros; apply succeeds_ret].
  unfold admit_reference. apply succeeds_bind.
  { apply succeeds_write. rewrite E3. cbn. rewrite Hrnone, He, Hev, lookup_insert_eq. cbn.
    apply forallb_map. intros h r Hr. cbn. rewrite negb_true_iff, Z.eqb_neq. intros ->. apply Hnr. by exists h. }
  intros [] s4 [_ E4]%sql_write_Ok. apply succeeds_bind; [|intros; by apply succeeds_write].
  apply succeeds_write. rewrite E4, E3, He. cbn. apply forallb_map. intros [h i] row Hrow. cbn.
  change (copied_variants e g _) with (copied_variants e g s.2) in Hrow.
  rewrite copied_variants_lookup in Hrow. case_bool_decide as Eh; [|done]. subst h.
  rewrite (inv_reference_variants _ HI g i), Hrnone. done.
Qed.

Lemma establish_id w w' : mw_evidence_id w' = mw_evidence_id w →
  establish_reference fault constraint_failed no_rows blake3_hex w' =
  establish_reference fault constraint_failed no_rows blake3_hex w.
Proof. intros E. unfold establish_reference. by rewrite E. Qed.

Section Scan.
Context (db : SimilarDb) (HS : matches_sound blake3_hex db) (run : SimilarAnalysisRun) (query : SimilarVariant) (e : Z).
Context (Hrun : is_Some (sd_runs db !! sr_run_id run)) (He : is_Some (sd_evidence db !! e)) (i : Z) (Hq : variant db e i query).
Context (neighbors : list Z) (reference : option str).

Lemma succeeds_scan rows w s :
  grows db s.2 → mw_evidence_id w = e → neighbors = band_neighbors (band_word (mw_band w) query) →
  (mw_phase w = Members → ∃ g, reference = Some g ∧ sd_references db !! g = Some e) →
  (mw_phase w = Peer → s.2 = db ∧ ∀ s0 w0, s0.2 = db → mw_evidence_id w0 = e →
     succeeds (establish_reference fault constraint_failed no_rows blake3_hex w0) s0) →
  (∀ p, p ∈ rows → p ∈ postings db w ∧ band_word (mw_band w) (po_hash p) ∈ neighbors) →
  succeeds (scan_rows fault cancelled constraint_failed no_rows blake3_hex run query neighbors reference rows w) s.
Proof.
  destruct HS as [HI _]. revert w s. induction rows as [|row rows IH]; intros w s HG Hw Hn Hm Hpeer Hrows;
    cbn [scan_rows]; [apply succeeds_ret|].
  apply succeeds_bind; [done|]. intros stop s1 H1. injection H1 as <- <-. destruct (cancelled s.1); [apply succeeds_ret|].
  destruct (Hrows row) as [Hrow Hword]; [apply elem_of_cons; by left|].
  assert (∀ w1 s2, grows db s2.2 → (mw_phase w = Peer → s2.2 = db) →
    mw_evidence_id w1 = e → mw_band w1 = mw_band w → mw_phase w1 = mw_phase w →
    succeeds (neighbor ← st_lift (ok_or (binary_search neighbors (band_word (mw_band w1) (po_hash row)))
       similarity_cursor_invalid); scan_rows fault cancelled constraint_failed no_rows blake3_hex run query neighbors reference
         rows (move_to neighbor row w1)) s2) as Hmove.
  { intros w1 s2 HG2 Hp2 B1 B2 B3. destruct (binary_search_elem neighbors (band_word (mw_band w) (po_hash row)) Hword) as [nb Hnb].
    apply succeeds_bind; [eapply (succeeds_lift _ nb); by rewrite B2, Hnb|]. intros nb' s3 [_ ->]%st_lift_Ok.
    apply IH; cbn; [done|done|by rewrite B2|by rewrite B3|rewrite B3|].
    - intros Hp. split; [by apply Hp2|by apply Hpeer].
    - intros p Hp. destruct (Hrows p) as [H1 H2]; [apply elem_of_cons; by right|]. rewrite B2. split; [|done].
      unfold postings, in_references in *. cbn. by rewrite B3. }
  destruct (confirmed_distance query (po_hash row)) as [d|] eqn:Hd; [|apply Hmove; try done; apply Hpeer].
  pose proof (confirmed_range _ _ _ Hd) as Hr. pose proof HG as [E _ _]. cbn [fst snd]. unfold postings in Hrow.
  destruct (mw_phase w) eqn:Hph.
  - rewrite in_references_true in Hrow by done.
    apply elem_of_reference_postings in Hrow as (g & r & j & v & -> & Hg & Hv); [|apply HI]. cbn in Hd.
    apply succeeds_bind.
    + apply succeeds_member; [|by rewrite Hw, E|by rewrite E|done]. cbn. rewrite E. cbn. by rewrite Hg.
    + intros [] s2 Hpub. apply publish_member_grows in Hpub as [HG2 _].
      * apply Hmove; try done. by eapply grows_trans.
      * cbn. rewrite Hw, E. exists r, j, i, v, query. split_and!; [done..|]. by rewrite confirmed_sym.
  - destruct (Hpeer eq_refl) as [Es Hest]. destruct (negb _); [|apply Hmove; done].
    apply succeeds_bind; [by apply Hest|]. intros g s2 (evidence & H1 & _ & _ & _ & E2)%establish_reference_Ok.
    apply succeeds_bind; [|intros [] s3 _; apply succeeds_bind; [apply succeeds_save|intros; apply succeeds_ret]].
    apply succeeds_member; [|rewrite E2; cbn in *; by rewrite H1|by rewrite E2, Es|lia]. rewrite E2. cbn. rewrite lookup_insert_eq. by eexists.
  - rewrite in_references_false in Hrow by congruence. apply elem_of_evidence_postings in Hrow as (x & j & v & -> & Hv).
    destruct (Hm eq_refl) as (g & -> & Hg). apply succeeds_bind; [by eapply succeeds_lift|].
    intros g' s2 [[= <-] ->]%st_lift_Ok. apply succeeds_bind.
    + apply succeeds_member; [cbn; rewrite E; cbn; by rewrite Hg|cbn; rewrite E; cbn|by rewrite E|done].
      destruct Hv as (hr & Hv & _). by destruct (inv_variants _ HI x j hr Hv).
    + intros [] s2 Hpub. apply publish_member_grows in Hpub as [HG2 _].
      * apply Hmove; try done. by eapply grows_trans.
      * cbn. rewrite E. by exists e, i, j, query, v.
  - apply Hmove; done.
Qed.
End Scan.

Lemma column_u8_Ok z : 0 ≤ z < 256 → column_u8 bad_column z = Ok z.
Proof. intros Hz. unfold column_u8, try_from_uint. change (2 ^ 8) with 256. by replace (_ && _) with true by lia. Qed.

Lemma succeeds_load s : matches_sound blake3_hex s.2 → succeeds (cursor_load fault bad_column) s.
Proof.
  intros [HI _]. unfold cursor_load. destruct (head (pending_works s.2)) as [e|] eqn:Eh.
  - assert (is_pending s.2 e = true) as He.
    { apply elem_of_pending. destruct (pending_works s.2); [done|]. injection Eh as ->. apply elem_of_cons. by left. }
    assert (∃ row, sd_work s.2 !! e = Some row) as [row Hrow].
    { unfold is_pending in He. destruct (sd_work s.2 !! e); [by eexists|done]. }
    destruct (inv_work _ HI e row Hrow) as (w & Hw & Hok).
    assert (mw_phase w ≠ MatchComplete) as Hph by by apply (is_pending_phase _ e w HI Hw).
    assert (row = work_row w) as -> by (destruct Hw; congruence). pose proof (proj2 Hw) as Hid.
    destruct (wo_variant _ _ Hok) as [v Hv]. rewrite Hid in Hv. apply (variant_index _ HI) in Hv.
    destruct (stored_variants_listed _ HI e) as [Hlen _]; [by eexists|].
    pose proof (wo_band _ _ Hok). pose proof (wo_neighbor _ _ Hok).
    apply succeeds_bind.
    + eapply succeeds_sql. rewrite Eh, Hrow. cbn -[pending_works]. by rewrite !column_u8_Ok by lia.
    + intros r s1 Hr%sql_Ok. rewrite Eh, Hrow in Hr. cbn -[pending_works] in Hr. rewrite !column_u8_Ok in Hr by lia.
      injection Hr as <- _. cbn. apply succeeds_bind.
      * eapply (succeeds_lift _ (mw_phase w)). by destruct (mw_phase w).
      * intros ph s2 _. apply succeeds_bind; [|intros; apply succeeds_ret]. apply (succeeds_lift _ ()).
        apply fail_if_Ok. cbn. rewrite !orb_false_iff, !Z.ltb_ge. lia.
  - apply succeeds_bind.
    + eapply succeeds_sql. by rewrite Eh.
    + intros r s1 H%sql_Ok. rewrite Eh in H. injection H as <- _. apply succeeds_ret.
Qed.

Lemma reference_group_is db e : is_reference db e → ∃ g, reference_group e db = Some g.
Proof.
  intros [g Hg]. unfold reference_group. destruct (filter _ _) as [|[g' r] l] eqn:E; [|by exists g'].
  assert ((g, e) ∈ filter (λ entry : str * Z, entry.2 = e) (map_to_list (sd_references db))) as Hin.
  { apply list_elem_of_filter. split; [done|]. by apply elem_of_map_to_list. }
  rewrite E in Hin. by apply not_elem_of_nil in Hin.
Qed.

Lemma succeeds_advance run s :
  ready blake3_hex s.2 → is_Some (sd_runs s.2 !! sr_run_id run) →
  succeeds (match_advance fault cancelled constraint_failed no_rows bad_column blake3_hex run) s.
Proof.
  intros HR Hrun. pose proof HR as [HS _]. pose proof HS as [HI Hn]. unfold match_advance. apply succeeds_bind; [by apply succeeds_load|].
  intros work s1 [E1 Hload]%cursor_load_Ok; [|done]. destruct work as [w|]; [|apply succeeds_ret].
  rewrite <-E1 in *. destruct Hload as (e & Hw & Hph & Hhead).
  apply succeeds_bind; [apply succeeds_read|]. intros revision s2 [-> E2]%sql_read_Ok. rewrite <-E2 in *.
  fold (restarted (sd_reference_revision s2.2) w).
  destruct (inv_restarted _ e w HI Hw Hph) as (HI1 & He & Hph1 & Hrev).
  remember (restarted (sd_reference_revision s2.2) w) as w1 eqn:Ew1.
  assert (is_Some (sd_work s2.2 !! e)) as Hs by (destruct Hw; by eexists).
  destruct (work_at_ok _ HI1 e w1) as [Hok _]; [apply work_at_put; by left|].
  destruct (wo_variant _ _ Hok) as [query Hq]. rewrite He in Hq.
  assert (variant s2.2 e (mw_query_variant w1) query) as Hq' by exact Hq.
  pose proof Hq' as Hl. apply (stored_variants_listed _ HI e Hs) in Hl as [_ Hl].
  apply succeeds_bind; [apply succeeds_read|]. intros variants s3 [-> E3]%sql_read_Ok. rewrite He.
  apply succeeds_bind; [eapply (succeeds_lift _ query); by rewrite Hl|]. intros q s4 [Hq4 ->]%st_lift_Ok.
  rewrite Hl in Hq4. injection Hq4 as <-. rewrite <-E3 in *.
  apply succeeds_bind.
  { unfold postings_load. apply succeeds_bind; [|intros; apply succeeds_read].
    destruct (lookup_lt_is_Some_2 (band_neighbors (band_word (mw_band w1) query)) (Z.to_nat (mw_neighbor w1))) as [x Hx].
    - rewrite band_neighbors_length. pose proof (wo_neighbor _ _ Hok). lia.
    - eapply (succeeds_lift _ x). by rewrite Hx. }
  intros rows s5 [E5 (after & Hafter & Erows)]%postings_load_Ok. rewrite <-E5 in *.
  assert (is_Some (sd_evidence s5.2 !! e)) as Hev by (destruct (inv_listed _ HI e Hs); done).
  apply succeeds_bind.
  { case_bool_decide as Em; [|apply succeeds_ret]. destruct (reference_group_is s5.2 e) as [g Hg].
    - rewrite <-He. exact (wo_members _ _ Hok Em).
    - apply succeeds_bind; [by apply (succeeds_row _ g)|intros; apply succeeds_ret]. }
  intros reference s6 Href.
  assert (s6.2 = s5.2 ∧ (mw_phase w1 = Members → ∃ g, reference = Some g ∧ sd_references s5.2 !! g = Some e)) as [E6 Hgroup].
  { case_bool_decide as Em; [|apply st_ret_Ok in Href as [-> ->]; by split].
    apply st_bind_Ok in Href as (g & s7 & [Hg%reference_group_Some E7]%sql_row_Ok & [-> ->]%st_ret_Ok).
    split; [done|]. intros _. by exists g. }
  apply succeeds_bind.
  - apply (succeeds_scan s5.2 HS run query e Hrun Hev (mw_query_variant w1)); try done.
    + rewrite E6. apply grows_refl.
    + intros Hp. split; [done|]. intros s0 w0 Es Hw0. rewrite Ew1 in Hp. destruct (restarted_peer _ _ Hp) as [Ew _].
      rewrite (establish_id w); [|destruct Hw; congruence]. rewrite Ew in Hp. by eapply (succeeds_establish s5.2 e).
    + intros p. rewrite Erows. intros Hp%elem_of_window. tauto.
  - intros outcome s7 _. destruct outcome; [apply succeeds_ret..|].
    apply succeeds_bind; [apply succeeds_save|intros; apply succeeds_ret].
Qed.
End Progress.

(** ** Windows make progress *)

(** The bands left to scan, and the postings left in the current one. *)
Definition bands_left (nv : Z) (w : MatchWork) : nat := Z.to_nat (4 * (nv - mw_query_variant w) - mw_band w).

Definition rows_left (db : SimilarDb) (w : MatchWork) (query : SimilarVariant) : nat :=
  match cursor_after query w with
  | Some after =>
    length (filter (λ p : Posting, band_word (mw_band w) (po_hash p) ∈ band_neighbors (band_word (mw_band w) query) ∧
      position_compare (in_references w) after (posting_position (mw_band w) p) = Lt) (postings db w))
  | None => 0
  end.

Definition scan_cost (db : SimilarDb) (e : Z) (w : MatchWork) : nat :=
  bands_left (zlen (stored_variants e db)) w * S (length (postings db w)) +
  from_option (rows_left db w) 0%nat (stored_variants e db !! Z.to_nat (mw_query_variant w)).

(** The phases left to a work. *)
Definition phases_left (revision : Z) (w : MatchWork) : nat :=
  match mw_phase w with
  | References => if mw_reference_revision w =? revision then 3 else 4
  | Peer => if mw_reference_revision w =? revision then 2 else 4
  | Members => 1
  | MatchComplete => 0
  end.

Lemma filter_length_lt {A} (P Q : A → Prop) `{∀ x, Decision (P x), ∀ x, Decision (Q x)} l x :
  (∀ y, Q y → P y) → x ∈ l → P x → ~ Q x → (length (filter Q l) < length (filter P l))%nat.
Proof.
  intros HQP. assert (∀ l, (length (filter Q l) ≤ length (filter P l))%nat) as Hle.
  { intros k. induction k as [|y k IH]; [done|]. rewrite !filter_cons. repeat case_decide; cbn; try lia. naive_solver. }
  induction l as [|y l IH]; intros Hin HP HnQ; [by apply not_elem_of_nil in Hin|].
  rewrite !filter_cons. apply elem_of_cons in Hin as [->|Hin].
  - rewrite decide_False, decide_True by done. cbn. specialize (Hle l). lia.
  - specialize (IH Hin HP HnQ). repeat case_decide; cbn; try lia. naive_solver.
Qed.

Lemma rows_left_le db w query : (rows_left db w query ≤ length (postings db w))%nat.
Proof. unfold rows_left. destruct (cursor_after query w); [apply length_filter|lia]. Qed.

(** A full window leaves fewer rows of the band. *)
Lemma rows_left_window db w w' query after :
  cursor_after query w = Some after →
  let rows := window (in_references w) (mw_band w) (band_neighbors (band_word (mw_band w) query)) after (postings db w) in
  moved query rows w w' → length rows = WINDOW_SIZE → (rows_left db w' query < rows_left db w query)%nat.
Proof.
  intros Ha rows [_ M2 _ _ M5 _ M7] Hlen. unfold rows_left. rewrite M7, Ha, M5. unfold postings, in_references. rewrite M2.
  fold (in_references w). fold (postings db w).
  destruct (last rows) as [row|] eqn:El; [|apply last_None in El; by rewrite El in Hlen].
  apply last_Some_elem_of in El. apply elem_of_window in El as (Hin & Hw & Hlt).
  apply (filter_length_lt _ _ _ row); [|done|done|].
  - intros p [H1 H2]. split; [done|]. eapply cmp_lt_le_trans; [apply _|exact Hlt|]. unfold cmp_le. congruence.
  - intros [_ H]. rewrite (cmp_refl (position_compare _)) in H. done.
Qed.

Section Cost.
Context (db : SimilarDb) (e : Z) (w w' : MatchWork) (query : SimilarVariant) (after : Position).
Let nv := zlen (stored_variants e db).
Context (Hq : stored_variants e db !! Z.to_nat (mw_query_variant w) = Some query).
Context (Hband : 0 ≤ mw_band w ≤ 3) (Hvar : 0 ≤ mw_query_variant w < nv) (Hphase : mw_phase w ≠ MatchComplete).
Context (Hafter : cursor_after query w = Some after).
Let rows := window (in_references w) (mw_band w) (band_neighbors (band_word (mw_band w) query)) after (postings db w).
Context (Hm : moved query rows w w').
Let w2 := finish_window (length rows) nv w'.

Lemma postings_phase v v' : mw_phase v' = mw_phase v → postings db v' = postings db v.
Proof. intros E. unfold postings, in_references. by rewrite E. Qed.

Lemma scan_cost_le v : mw_phase v = mw_phase w →
  (scan_cost db e v ≤ bands_left nv v * S (length (postings db w)) + length (postings db w))%nat.
Proof.
  intros E. unfold scan_cost. rewrite (postings_phase w v E). fold nv.
  apply Nat.add_le_mono_l. destruct (stored_variants e db !! Z.to_nat (mw_query_variant v)) as [q|]; cbn [from_option]; [|lia].
  pose proof (rows_left_le db v q) as H. by rewrite (postings_phase w v E) in H.
Qed.

(** A window that stays in its phase leaves less to scan. *)
Lemma window_cost : mw_phase w2 = mw_phase w → (scan_cost db e w2 < scan_cost db e w)%nat.
Proof.
  intros Hp. pose proof Hm as [_ M2 _ M4 M5 _ _]. unfold w2, finish_window in *.
  destruct (Nat.ltb_spec (length rows) WINDOW_SIZE) as [Hlt|Hge].
  - assert (bands_left nv (next_band nv w').2 + 1 = bands_left nv w ∨ (next_band nv w').1 = false)%nat as Hb.
    { unfold next_band, bands_left. cbn -[Z.mul Z.sub Z.add Z.to_nat].
      destruct (Z.ltb_spec (mw_band w') 3); cbn -[Z.mul Z.sub Z.add Z.to_nat]; [left; lia|].
      destruct (Z.ltb_spec (mw_query_variant w' + 1) nv); cbn -[Z.mul Z.sub Z.add Z.to_nat]; [left; lia|by right]. }
    destruct (next_band nv w') as [more w3] eqn:En. cbn in Hb. destruct more.
    + destruct Hb as [Hb|]; [|done]. pose proof (scan_cost_le w3 Hp) as Hle.
      assert (bands_left nv w * S (length (postings db w)) ≤ scan_cost db e w)%nat by (unfold scan_cost; fold nv; lia).
      nia.
    + exfalso. assert (mw_phase w3 = mw_phase w) as E3.
      { unfold next_band in En. destruct (_ <? 3); [done|]. destruct (_ <? nv); [done|]. by injection En as <-. }
      cbn in Hp. rewrite E3 in Hp. by destruct (mw_phase w), (mw_found_reference w3).
  - assert (length rows = WINDOW_SIZE) as Hfull.
    { apply Nat.le_antisymm; [|done]. unfold rows, window. rewrite length_take. lia. }
    pose proof (rows_left_window db w w' query after Hafter Hm Hfull) as Hr.
    unfold scan_cost, bands_left. rewrite M4, M5, Hq, (postings_phase w w' M2). cbn [from_option]. lia.
Qed.
End Cost.

Section Settling.
Context (cancelled : nat → bool) (blake3_hex : bytes → str).

Lemma finish_window_phase rows nv w :
  mw_phase (finish_window rows nv w) = mw_phase w ∨
  mw_phase (finish_window rows nv w) = exhausted (mw_phase w) (mw_found_reference w).
Proof.
  unfold finish_window. destruct (rows <? WINDOW_SIZE)%nat; [|by left]. unfold next_band. cbn.
  destruct (_ <? 3); [by left|]. cbn. destruct (_ <? nv); [by left|by right].
Qed.

Lemma finish_window_revision rows nv w : mw_reference_revision (finish_window rows nv w) = mw_reference_revision w.
Proof.
  unfold finish_window. destruct (rows <? WINDOW_SIZE)%nat; [|done]. unfold next_band. cbn.
  destruct (_ <? 3); [done|]. cbn. by destruct (_ <? nv).
Qed.

(** Work that is not interrupted comes closer to its end, and only the first one changes. *)
Lemma advanced_progress run db db' :
  Inv db → advanced cancelled blake3_hex run db true db' →
  ∃ e w w2, head (pending_works db) = Some e ∧ work_at db e w ∧ work_at db' e w2 ∧
    (∀ x w0, x ≠ e → work_at db' x w0 ↔ work_at db x w0) ∧
    ((phases_left (sd_reference_revision db') w2 < phases_left (sd_reference_revision db) w)%nat ∨
     phases_left (sd_reference_revision db') w2 = phases_left (sd_reference_revision db) w ∧
     (scan_cost db' e w2 < scan_cost db e w)%nat).
Proof.
  intros HI Ha. inversion Ha as [|n db1 Hc|e w g evidence Hhead Hw Hp Hr Hev Hn Hg
    |e w w1 query after rows w' db1 Hhead Hw Hph Ew1 Hq Hafter Erows (HG & Hm & _)]; subst db'.
  - exists e, w, (restart Members w). pose proof (proj2 Hw) as He. split_and!; [done..| | |].
    + by apply (established_work db HI w e Hw); left.
    + intros x w0 Hx. rewrite (established_work db HI w e Hw). naive_solver.
    + left. unfold phases_left. cbn. rewrite Hp, Hr, Z.eqb_refl. lia.
  - set (w2 := finish_window (length rows) (zlen (stored_variants e db)) w').
    destruct (inv_restarted db e w HI Hw Hph) as (HI1 & He & Hph1 & Hrev). rewrite <-Ew1 in *.
    pose proof (mv_evidence_id _ _ _ _ Hm) as Em.
    assert (mw_evidence_id w2 = e) as He2 by (unfold w2; rewrite finish_window_id; congruence).
    pose proof HG as [E _ _].
    assert (work_at (put w2 db1) e w2) as Hw2 by (apply work_at_put; by left).
    exists e, w, w2. split_and!; [done..| |].
    { intros x w0 Hx. rewrite work_at_put, E. naive_solver. }
    assert (sd_reference_revision (put w2 db1) = sd_reference_revision db) as -> by by rewrite E.
    assert (mw_reference_revision w2 = mw_reference_revision w1) as Er2.
    { unfold w2. rewrite finish_window_revision. apply (mv_revision _ _ _ _ Hm). }
    assert (mw_phase w2 = mw_phase w1 ∨ mw_phase w2 = exhausted (mw_phase w1) (mw_found_reference w')) as Hp2.
    { rewrite <-(mv_phase _ _ _ _ Hm). apply finish_window_phase. }
    assert (w1 = w ∨ mw_phase w1 = References ∧ mw_reference_revision w1 = sd_reference_revision db ∧
      phases_left (sd_reference_revision db) w = 4%nat) as Hstale.
    { rewrite Ew1. unfold restarted, phases_left. case_bool_decide as Emm; cbn; [by left|].
      destruct (Z.eqb_spec (mw_reference_revision w) (sd_reference_revision db)) as [Err|Err]; cbn; [by left|right].
      split_and!; [done..|]. destruct (mw_phase w); done. }
    destruct Hstale as [E1|(E1 & E2 & E3)].
    + destruct Hp2 as [Hp2|Hp2].
      * right. rewrite E1 in *. split; [unfold phases_left; by rewrite Hp2, Er2|].
        assert (is_Some (sd_work db !! e)) as Hs by (destruct Hw; by eexists).
        assert (scan_cost (put w2 db1) e w2 = scan_cost db e w2) as -> by (rewrite E; done).
        destruct (work_at_ok db HI e w Hw) as [Hok _]. pose proof Hq as Hq'.
        apply (stored_variants_listed db HI e Hs) in Hq' as [_ Hq']. unfold w2. rewrite Erows in *.
        apply (window_cost db e w w' query after); try done; [apply Hok| |by rewrite <-Erows].
        apply (variant_index db HI) in Hq. apply lookup_lt_Some in Hq'. unfold zlen. lia.
      * left. rewrite E1 in *. unfold phases_left. rewrite Hp2, Er2.
        destruct Hrev as [Hrev|Hrev]; [rewrite Hrev; cbn; lia|].
        rewrite Hrev, Z.eqb_refl. destruct (mw_phase w); cbn; [destruct (mw_found_reference w'); cbn; lia|lia..|done].
    + left. rewrite E3. unfold phases_left. rewrite Er2, E2, Z.eqb_refl, E1 in *. destruct Hp2 as [-> | ->]; cbn; [lia|].
      destruct (mw_found_reference w'); cbn; lia.
Qed.

(** *** How much is left to do *)

(** The work of a row. *)
Definition decoded (e : Z) (row : WorkRow) : MatchWork :=
  {| mw_evidence_id := e; mw_phase := match phase_from_db (wr_phase row) with Ok phase => phase | Err _ => MatchComplete end;
     mw_reference_revision := wr_reference_revision row; mw_query_variant := wr_query_variant row; mw_band := wr_band row;
     mw_neighbor := wr_neighbor row; mw_after_evidence_id := wr_after_evidence_id row;
     mw_after_group_id := wr_after_group_id row; mw_after_variant := wr_after_variant row;
     mw_found_reference := wr_found_reference row |}.

Definition first_work (db : SimilarDb) : option MatchWork :=
  e ← head (pending_works db); decoded e <$> sd_work db !! e.

Lemma first_work_Some db e w : head (pending_works db) = Some e → work_at db e w → first_work db = Some w.
Proof.
  intros He [Hw <-]. unfold first_work. rewrite He. cbn. rewrite Hw. cbn. f_equal. destruct w as [? phase]. by destruct phase.
Qed.

(** Fewer works are left, or the first one has fewer phases left, or less to scan. *)
Definition left_to_do (db : SimilarDb) : nat * nat * nat :=
  (length (pending_works db), from_option (phases_left (sd_reference_revision db)) 0%nat (first_work db),
   from_option (λ w, scan_cost db (mw_evidence_id w) w) 0%nat (first_work db)).

Definition fewer (a b : nat * nat * nat) : Prop :=
  (a.1.1 < b.1.1 ∨ a.1.1 = b.1.1 ∧ (a.1.2 < b.1.2 ∨ a.1.2 = b.1.2 ∧ a.2 < b.2))%nat.

Lemma fewer_wf : well_founded fewer.
Proof.
  intros [[x y] z]. revert y z. induction (lt_wf x) as [x _ IHx]. intros y.
  induction (lt_wf y) as [y _ IHy]. intros z. induction (lt_wf z) as [z _ IHz].
  constructor. intros [[x' y'] z'] [H|[E [H|[E' H]]]]; cbn in *; subst; [by apply IHx|by apply IHy|by apply IHz].
Qed.

Lemma fewer_trans a b c : fewer a b → fewer b c → fewer a c.
Proof. unfold fewer. lia. Qed.

Lemma pending_sorted db : StronglySorted Z.le (pending_works db) ∧ NoDup (pending_works db).
Proof.
  split.
  - apply StronglySorted_filter. set (l := sort_by _ _).
    assert (StronglySorted (cmp_le Z.compare) l) as H by apply (sort_by_sorted Z.compare).
    induction H as [|x k _ IH Hx]; constructor; [done|]. eapply Forall_impl; [exact Hx|].
    intros y. unfold cmp_le. by rewrite Z.compare_le_iff.
  - apply NoDup_filter. rewrite sort_by_perm. apply NoDup_fst_map_to_list.
Qed.

(** The works that are left, and so their number, are given by the rows. *)
Lemma pending_ext db db' : (∀ x, is_pending db' x = is_pending db x) → pending_works db' = pending_works db.
Proof.
  intros H. destruct (pending_sorted db) as [S N], (pending_sorted db') as [S' N'].
  apply (StronglySorted_unique Z.le); [done..|]. apply NoDup_Permutation; [done..|]. intros x. by rewrite !elem_of_pending, H.
Qed.

Lemma pending_fewer db db' e :
  is_pending db e = true → is_pending db' e = false → (∀ x, x ≠ e → is_pending db' x = is_pending db x) →
  (length (pending_works db') < length (pending_works db))%nat.
Proof.
  intros He He' H. destruct (pending_sorted db) as [_ N], (pending_sorted db') as [_ N'].
  apply Nat.lt_le_trans with (length (e :: pending_works db')); [cbn; lia|]. apply submseteq_length, NoDup_submseteq.
  - constructor; [|done]. by rewrite elem_of_pending, He'.
  - intros x [->|Hx]%elem_of_cons; apply elem_of_pending; [done|]. apply elem_of_pending in Hx.
    rewrite <-H; [done|]. intros ->. congruence.
Qed.

Lemma advanced_fewer run db db' :
  Inv db → Inv db' → advanced cancelled blake3_hex run db true db' → fewer (left_to_do db') (left_to_do db).
Proof.
  intros HI HI' (e & w & w2 & Hhead & Hw & Hw2 & Hother & Hless)%advanced_progress; [|done].
  assert (is_pending db e = true) as He.
  { apply elem_of_pending. destruct (pending_works db); [done|]. injection Hhead as ->. apply elem_of_cons. by left. }
  assert (∀ x, x ≠ e → is_pending db' x = is_pending db x) as Hsame.
  { intros x Hx. apply eq_true_iff_eq. split; intros Hp.
    - destruct (sd_work db' !! x) as [row|] eqn:E; [|unfold is_pending in Hp; by rewrite E in Hp].
      destruct (inv_work _ HI' x row E) as (w0 & Hw0 & _). pose proof (proj1 (Hother x w0 Hx) Hw0) as Hw0'.
      apply (is_pending_phase db x w0 HI Hw0'). by apply (is_pending_phase db' x w0 HI' Hw0).
    - destruct (sd_work db !! x) as [row|] eqn:E; [|unfold is_pending in Hp; by rewrite E in Hp].
      destruct (inv_work _ HI x row E) as (w0 & Hw0 & _). pose proof (proj2 (Hother x w0 Hx) Hw0) as Hw0'.
      apply (is_pending_phase db' x w0 HI' Hw0'). by apply (is_pending_phase db x w0 HI Hw0). }
  destruct (is_pending db' e) eqn:He'; [|left; by eapply pending_fewer].
  assert (pending_works db' = pending_works db) as Ep.
  { apply pending_ext. intros x. destruct (decide (x = e)) as [->|Hx]; [congruence|by apply Hsame]. }
  assert (mw_evidence_id w = e ∧ mw_evidence_id w2 = e) as [E1 E2] by (split; [apply Hw|apply Hw2]).
  right. unfold left_to_do. rewrite (first_work_Some db e w), (first_work_Some db' e w2) by (rewrite ?Ep; done).
  cbn [fst snd from_option]. rewrite Ep, E1, E2. split; [done|]. exact Hless.
Qed.
End Settling.

(** ** The loop ends *)

Section Loop.
Context (fault : nat → option ScanError) (cancelled : nat → bool) (clock : nat → Z).
Context (constraint_failed no_rows bad_column : ScanError).
Context (blake3_hex : bytes → str).
Context (suspended : nat → bool) (instant : nat → Z).

(** The repository has been going on from [db] to [db'], and less is left to do, if [strictly]. *)
Record onward (strictly : bool) (db db' : SimilarDb) : Prop := {
  on_run : rtc (similar_step blake3_hex) db db';
  on_ready : ready blake3_hex db';
  on_less : fewer (left_to_do db') (left_to_do db) ∨ strictly = false ∧ left_to_do db' = left_to_do db;
}.

Lemma onward_refl db : ready blake3_hex db → onward false db db.
Proof. intros H. split; [done|done|by right]. Qed.

Lemma onward_trans b b' db1 db2 db3 : onward b db1 db2 → onward b' db2 db3 → onward (b || b') db1 db3.
Proof.
  intros [R1 _ L1] [R2 S2 L2]. split; [by etrans|done|]. destruct L1 as [L1|[-> E1]], L2 as [L2|[-> E2]].
  - left. by eapply fewer_trans.
  - left. by rewrite E2.
  - left. by rewrite <-E1.
  - right. split; [done|congruence].
Qed.

Definition matching_settled (db : SimilarDb) : Prop := pending_works db = [] ∨ ∃ n, cancelled n = true.

Lemma ends_transaction {A} (body : ST ScanError (nat * SimilarDb) (bool * A)) s Q :
  (∀ s0, s0.2 = s.2 → (s.1 ≤ s0.1)%nat → ends fault body s0
     (λ r s1, ∀ n, (s1.1 ≤ n)%nat → Q r.2 (n, if r.1 : bool then s1.2 else s.2))) →
  ends fault (similarity_transaction fault body) s Q.
Proof.
  intros Hb. unfold ends, similarity_transaction, mbind, st_bind, begin_write, commit, sql_read, sql.
  destruct (fault s.1) eqn:Ef; [right; by eexists|]. specialize (Hb (S s.1, s.2) eq_refl). unfold ends in Hb. cbn in *.
  assert (s.1 ≤ S s.1)%nat as Hn by lia.
  destruct (body (S s.1, s.2)) as [[[[] a] s1]|]; [|by apply Hb|by apply Hb].
  destruct (fault s1.1) eqn:Ef1; [right; by eexists|]. apply Hb; [done|cbn; lia].
Qed.

Lemma ends_effect {A} (g : nat → A) s :
  ends fault (λ s, Ok (g s.1, (S s.1, s.2))) s (λ a s', a = g s.1 ∧ s' = (S s.1, s.2)).
Proof. done. Qed.

Lemma ends_elapsed since s : ends fault (elapsed instant since) s (λ _ s', s' = (S s.1, s.2)).
Proof. done. Qed.

Lemma ends_write allowed f s : allowed s.2 = true →
  ends fault (sql_write fault constraint_failed allowed f) s (λ _ s', s' = (S s.1, f s.2)).
Proof. intros H. unfold ends, sql_write, sql. destruct (fault s.1) eqn:E; [right; by eexists|]. by rewrite H. Qed.

Lemma ends_require_owner run s :
  ends fault (require_owner fault clock run) s
    (λ _ s', (s.1 ≤ s'.1)%nat ∧ s'.2 = s.2 ∧ is_Some (sd_runs s.2 !! sr_run_id run)).
Proof.
  unfold ends, require_owner, unix_time_ms, sql_read, sql, mbind, st_bind, st_lift. cbn.
  destruct (fault _) eqn:Ef; [right; by eexists|]. destruct (sd_active s.2) as [[id until]|]; cbn; [|by left].
  destruct (sd_runs s.2 !! id) as [row|] eqn:Er; cbn; [|by left].
  case_bool_decide as Ei; cbn; [|by left]. subst id.
  destruct (_ && _); cbn; [|by left]. split_and!; [lia|done|by eexists].
Qed.

Lemma ends_advance run s : ready blake3_hex s.2 → is_Some (sd_runs s.2 !! sr_run_id run) →
  ends fault (match_advance fault cancelled constraint_failed no_rows bad_column blake3_hex run) s
    (λ worked s', advanced cancelled blake3_hex run s.2 worked s'.2).
Proof.
  intros HS Hr. eapply ends_mono; [by apply succeeds_advance|]. intros worked s' H _.
  destruct HS as [[HI _] _]. by apply match_advance_advanced in H.
Qed.

Lemma advanced_evidence run db b db' : advanced cancelled blake3_hex run db b db' → sd_evidence db' = sd_evidence db.
Proof. intros [|n db1 _ [-> _ _]| |e w w1 query after rows w' db1 _ _ _ _ _ _ _ [[-> _ _] _]]; done. Qed.

Lemma left_to_do_dispatch db db' : same_matches db db' → left_to_do db' = left_to_do db ∧ sd_evidence db' = sd_evidence db.
Proof. by intros ->. Qed.

Lemma ends_renew run s : ready blake3_hex s.2 →
  ends fault (renew_similarity fault clock constraint_failed run) s (λ _ s', (s.1 ≤ s'.1)%nat ∧ onward false s.2 s'.2).
Proof.
  intros [HS Hd]. apply (ends_mono _ _ _ (λ _ s', (s.1 ≤ s'.1)%nat)).
  - apply ends_transaction. intros s0 E0 Hn0. unfold renew_lease. apply ends_assoc. eapply ends_bind; [apply ends_require_owner|].
    intros [] s1 (Hn1 & E1 & _). apply ends_assoc. eapply ends_bind; [apply (ends_effect clock)|]. intros now s2 [_ ->].
    eapply ends_bind; [by apply ends_write|]. intros [] s3 ->. intros n Hn. cbn in *. lia.
  - intros [] s' H Hn. split; [done|]. pose proof H as Hm. apply renew_similarity_Ok in Hm.
    assert (similar_step blake3_hex s.2 s'.2) as Hs by (destruct s, s'; by eapply step_renew).
    destruct (left_to_do_dispatch _ _ Hm) as [E1 E2].
    split; [by apply rtc_once|split; [by eapply similar_step_sound|by rewrite E2]|by right].
Qed.

Lemma ends_window run s : ready blake3_hex s.2 →
  ends fault (match_similarity_window fault cancelled clock constraint_failed no_rows bad_column blake3_hex run) s
    (λ worked s', if worked : bool then onward true s.2 s'.2 else onward false s.2 s'.2 ∧ matching_settled s'.2).
Proof.
  intros HS. apply (ends_mono _ _ _ (λ worked s', sd_evidence s'.2 = sd_evidence s.2 ∧
    if worked : bool then fewer (left_to_do s'.2) (left_to_do s.2) else left_to_do s'.2 = left_to_do s.2 ∧ matching_settled s'.2)).
  - apply ends_transaction. intros s0 E0 _. eapply ends_bind; [apply ends_require_owner|]. intros [] s1 (_ & E1 & Hr).
    eapply ends_bind; [apply (ends_effect cancelled)|]. intros stop s2 [-> ->].
    destruct (cancelled s1.1) eqn:Ec; [intros n _; split; [done|split; [done|right; by eexists]]|].
    eapply ends_bind; [apply ends_advance; cbn; [by rewrite E1, E0|by rewrite E1]|]. cbn [snd]. rewrite E1, E0. intros worked s3 Ha.
    eapply ends_bind; [apply (ends_effect cancelled)|]. intros stop s4 [-> ->].
    destruct (cancelled s3.1) eqn:Ec3; [intros n _; split; [done|split; [done|right; by eexists]]|]. intros n _. cbn.
    split; [by eapply advanced_evidence|]. destruct HS as [[HI _] _].
    destruct worked; [apply (advanced_fewer cancelled blake3_hex run); [done|by eapply advanced_inv|done]|].
    inversion Ha as [Hp|m db' Hm [E _ _]| |]; subst; [split; [done|by left]|]. split; [by rewrite E|right; by eexists].
  - intros worked s' H [Ev HQ]. destruct HS as [HS Hd].
    assert (similar_step blake3_hex s.2 s'.2) as Hstep by (destruct s, s'; by eapply step_window).
    assert (ready blake3_hex s'.2) as HS' by (split; [by eapply similar_step_sound|by rewrite Ev]).
    apply rtc_once in Hstep.
    destruct worked; [split; [done..|by left]|]. destruct HQ as [E Hset]. split; [split; [done..|by right]|done].
Qed.

(** What an admission, a slice of windows and the whole loop come to, when they are not suspended for ever. *)
Context (N : nat) (Hresumed : ∀ n, (N ≤ n)%nat → suspended n = false).

Lemma ends_admit waits run renewal s :
  ready blake3_hex s.2 → (0 < waits)%nat → (N < waits + s.1)%nat →
  ends fault (await_admission fault cancelled clock constraint_failed suspended instant waits run renewal) s
    (λ r s', onward false s.2 s'.2 ∧
       match r with Some (true, _) => True | Some (false, _) => matching_settled s'.2 | None => False end).
Proof.
  revert renewal s. induction waits as [|waits IH]; intros renewal s HS Hw HN; [lia|]. cbn [await_admission].
  eapply ends_bind; [apply (ends_effect cancelled)|]. intros stop s1 [-> ->].
  destruct (cancelled s.1) eqn:Ec; [split; [by apply onward_refl|right; by eexists]|].
  eapply ends_bind; [apply ends_elapsed|]. intros waited s1 ->.
  apply (ends_bind _ _ _ _ (λ _ s', (S (S s.1) ≤ s'.1)%nat ∧ onward false s.2 s'.2)).
  - destruct (_ <=? waited); [|split; [done|by apply onward_refl]]. eapply ends_bind; [by apply ends_renew|].
    intros [] s2 [Hn Ho]. cbn in *. split; [lia|done].
  - intros renewal' s2 [Hn Ho]. eapply ends_bind; [apply (ends_effect suspended)|]. intros held s3 [-> ->].
    destruct (suspended s2.1) eqn:Eh; cbn [negb]; [|done].
    assert (s2.1 < N)%nat by (destruct (decide (N ≤ s2.1)%nat) as [H|]; [apply Hresumed in H; congruence|lia]).
    eapply ends_mono; [apply IH; [apply Ho|lia|cbn; lia]|]. intros r s4 _ [Ho' Hr]. split; [|done].
    exact (onward_trans false false _ _ _ Ho Ho').
Qed.

Lemma ends_windows waits windows run started renewal s :
  ready blake3_hex s.2 → (N < waits)%nat →
  ends fault (advance_windows fault cancelled clock constraint_failed no_rows bad_column blake3_hex suspended instant
      waits windows run started renewal) s
    (λ r s', match r with
             | Some (true, _) => onward (negb (windows =? 0)%nat) s.2 s'.2
             | Some (false, _) => onward false s.2 s'.2 ∧ matching_settled s'.2
             | None => False
             end).
Proof.
  intros HS HN. revert renewal s HS. induction windows as [|windows IH]; intros renewal s HS; cbn [advance_windows];
    [by apply onward_refl|].
  eapply ends_bind; [apply ends_admit; [done|lia..]|]. intros [[[] renewal']|] s1 [Ho Hr]; [|done..].
  eapply ends_bind; [apply ends_window; apply Ho|]. intros [] s2 Hw; cbn [negb].
  - pose proof (onward_trans _ _ _ _ _ Ho Hw) as Ho2. cbn in Ho2.
    eapply ends_bind; [apply ends_elapsed|]. intros spent s3 ->. destruct (_ <=? spent); [done|].
    eapply ends_mono; [apply IH, Ho2|]. intros [[[] ?]|] s4 _ H; cbn in *; [|destruct H as [H Hs]; split; [|done]|done].
    + exact (onward_trans _ _ _ _ _ Ho2 H).
    + destruct (onward_trans _ _ _ _ _ Ho2 H) as [R S [L|[? _]]]; [|done]. split; [done..|by left].
  - destruct Hw as [Hw Hs]. split; [|done]. exact (onward_trans _ _ _ _ _ Ho Hw).
Qed.

Lemma ends_remaining waits run : (N < waits)%nat → ∀ s renewal, ready blake3_hex s.2 →
  ∃ rounds, ends fault (match_remaining fault cancelled clock constraint_failed no_rows bad_column blake3_hex suspended
      instant waits rounds run renewal) s
    (λ r s', r = Some () ∧ onward false s.2 s'.2 ∧ matching_settled s'.2).
Proof.
  intros HN s. remember (left_to_do s.2) as m eqn:Em. revert s Em.
  induction (fewer_wf m) as [m _ IH]; intros s -> renewal HS.
  set (step := matching_advance fault cancelled clock constraint_failed no_rows bad_column blake3_hex suspended
    instant waits run renewal).
  assert (ends fault step s (λ r s', match r with
    | Some (true, _) => onward true s.2 s'.2
    | Some (false, _) => onward false s.2 s'.2 ∧ matching_settled s'.2 | None => False end)) as Hstep.
  { eapply ends_bind; [apply (ends_effect instant)|]. intros started s1 [_ ->]. exact (ends_windows waits MAX_WINDOWS run started renewal (S s.1, s.2) HS HN). }
  unfold ends in Hstep. destruct (step s) as [[[[[] renewal']|] s']|error] eqn:E; [| |done|].
  - destruct (IH (left_to_do s'.2)) with (s := s') (renewal := renewal') as [rounds Hrounds]; [|done|apply Hstep|].
    { destruct Hstep as [_ _ [L|[? _]]]; [done|discriminate]. }
    exists (S rounds). cbn [match_remaining]. fold step. unfold ends, mbind, st_bind in *. rewrite E.
    destruct (match_remaining _ _ _ _ _ _ _ _ _ _ rounds run renewal' s') as [[r s2]|]; [|done].
    destruct Hrounds as (-> & Ho & Hs). split_and!; [done| |done].
    destruct (onward_trans _ _ _ _ _ Hstep Ho) as [R S [L|[? _]]]; [|done]. split; [done..|by left].
  - exists 1%nat. cbn [match_remaining]. fold step. unfold ends, mbind, st_bind. by rewrite E.
  - exists 1%nat. cbn [match_remaining]. fold step. unfold ends, mbind, st_bind. by rewrite E.
Qed.
End Loop.

(** C8: Once the sources are analysed, the matching loop comes to an end, whatever the clocks, the renewals of the lease
    and the failures of statements are, as long as the user does not suspend it for ever and the digest does not collide
    on the stored contents.  It returns an error only if a statement fails or the lease is lost: no statement
    violates a key or a reference, and no cursor is invalid.  Otherwise no work is left, unless it was cancelled. *)
Theorem matching_ends fault cancelled clock constraint_failed no_rows bad_column blake3_hex suspended instant run renewal n db :
  rtc (similar_step blake3_hex) similar_fresh db → digests_distinct blake3_hex (sd_evidence db) →
  (∃ N, ∀ m, (N ≤ m)%nat → suspended m = false) →
  ∃ waits rounds,
    match match_remaining fault cancelled clock constraint_failed no_rows bad_column blake3_hex suspended instant
            waits rounds run renewal (n, db) with
    | Ok (r, (_, db')) =>
      r = Some () ∧ rtc (similar_step blake3_hex) similar_fresh db' ∧
      (pending_works db' = [] ∨ ∃ m, cancelled m = true)
    | Err error => error = run_retired ∨ ∃ m, fault m = Some error
    end.
Proof.
  intros Hrun Hd [N HN]. pose proof (similar_run_sound _ _ Hrun) as HS.
  destruct (ends_remaining fault cancelled clock constraint_failed no_rows bad_column blake3_hex suspended instant N HN
    (S N) run (Nat.lt_succ_diag_r N) (n, db) renewal) as [rounds H]; [by split|].
  exists (S N), rounds. unfold ends in H. destruct (match_remaining _ _ _ _ _ _ _ _ _ _ _ _ _ _) as [[r [n' db']]|]; [|done].
  destruct H as (-> & [Ho _ _] & Hs). split_and!; [done|by etrans|done].
Qed.

(** The loop on the contents of the example, with a flag that suspends it at first, and a statement that fails later. *)
Lemma matching_ends_witness :
  ∃ waits rounds,
    match match_remaining (λ n, if (n =? 900)%nat then Some invalid_identity else None) (λ _, false) (λ _, 5) run_retired
            run_retired run_retired (λ b, b) (λ n, (n <? 10)%nat) Z.of_nat waits rounds example_run 0 (0%nat, example_published) with
    | Ok (r, (_, db')) =>
      r = Some () ∧ rtc (similar_step (λ b, b)) similar_fresh db' ∧ (pending_works db' = [] ∨ ∃ m : nat, (λ _, false) m = true)
    | Err error => error = run_retired ∨ ∃ m : nat, (if (m =? 900)%nat then Some invalid_identity else None) = Some error
    end.
Proof.
  apply (matching_ends (λ n, if (n =? 900)%nat then Some invalid_identity else None) (λ _, false)).
  - apply example_published_run.
  - intros e e' row row' _ _ H. exact H.
  - exists 10%nat. intros m Hm. by apply Nat.ltb_ge.
Defined.
