(* ===== verification/SimilarRuns.v ===== *)
(** * The life of a similarity analysis

    Whatever fails, is cancelled or expires, an analysis is the one that owns the dispatch, or has one outcome that
    never changes, together with the outcome of the fingerprint run it was started with. *)

From S2P Require Import Prelude Text Numerals Order JournalText QueueStore SimilarImages SimilarLaws SimilarGroups.

(** ** Matching leaves the runs alone *)

Definition runs_of (db : SimilarDb) : gmap str RunRow * option (str * Z) * RunLedger :=
  (sd_runs db, sd_active db, sd_ledger db).

Section Keeps.
Context (fault : nat → option ScanError) (cancelled : nat → bool) (clock : nat → Z).
Context (verify : nat → ScanResult bool).
Context (constraint_failed no_rows bad_column sqlite_full : ScanError).
Context (blake3_hex : bytes → str).

Abbreviation Tx := (ST ScanError (nat * SimilarDb)).

Definition keeps_runs {A} (m : Tx A) : Prop := ∀ s a s', m s = Ok (a, s') → runs_of s'.2 = runs_of s.2.

Lemma keeps_bind {A B} (m : Tx A) (f : A → Tx B) : keeps_runs m → (∀ a, keeps_runs (f a)) → keeps_runs (m ≫= f).
Proof. intros Hm Hf s b s' H. apply st_bind_Ok in H as (a & s1 & H1 & H2). apply Hf in H2. apply Hm in H1. congruence. Qed.

Lemma keeps_ret {A} (a : A) : keeps_runs (mret a).
Proof. by intros s b s' [_ ->]%st_ret_Ok. Qed.

Lemma keeps_lift {A} (r : ScanResult A) : keeps_runs (st_lift r).
Proof. by intros s b s' [_ ->]%st_lift_Ok. Qed.

Lemma keeps_effect {A} (g : nat → A) : keeps_runs (λ s, Ok (g s.1, (S s.1, s.2))).
Proof. by intros s a s' [= _ <-]. Qed.

Lemma keeps_sql {A} (f : SimilarDb → ScanResult (A * SimilarDb)) :
  (∀ db a db', f db = Ok (a, db') → runs_of db' = runs_of db) → keeps_runs (sql fault f).
Proof. intros Hf s a s' H%sql_Ok. by eapply Hf. Qed.

Lemma keeps_read {A} (f : SimilarDb → A) : keeps_runs (sql_read fault f).
Proof. apply keeps_sql. by intros db a db' [= _ <-]. Qed.

Lemma keeps_row {A} (f : SimilarDb → option A) : keeps_runs (sql_row fault no_rows f).
Proof. intros s a s' [_ ->]%sql_row_Ok. done. Qed.

Lemma keeps_write allowed f : (∀ db, runs_of (f db) = runs_of db) → keeps_runs (sql_write fault constraint_failed allowed f).
Proof. intros Hf s a s' [_ ->]%sql_write_Ok. apply Hf. Qed.
End Keeps.

Create HintDb keeps.
#[export] Hint Resolve keeps_ret keeps_lift keeps_read keeps_row : keeps.

(** Goes through a program statement by statement. *)
Ltac keeps_program :=
  repeat first
    [ solve [eauto with keeps]
    | apply keeps_bind; [|intros ?]
    | apply keeps_write; intros ?; done
    | apply keeps_effect
    | case_match
    | progress intros ].

Section Unchanged.
Context (fault : nat → option ScanError) (cancelled : nat → bool) (clock : nat → Z).
Context (verify : nat → ScanResult bool).
Context (constraint_failed no_rows bad_column sqlite_full : ScanError).
Context (blake3_hex : bytes → str).

Lemma keeps_publish_member run g e d : keeps_runs (publish_member fault constraint_failed run g e d).
Proof. by apply keeps_write. Qed.

Lemma keeps_save w : keeps_runs (cursor_save fault constraint_failed w).
Proof. by apply keeps_write. Qed.

Lemma keeps_admit e g : keeps_runs (admit_reference fault constraint_failed e g).
Proof. unfold admit_reference. keeps_program. Qed.

Lemma keeps_establish w : keeps_runs (establish_reference fault constraint_failed no_rows blake3_hex w).
Proof. pose proof keeps_admit. unfold establish_reference. keeps_program. Qed.

Lemma keeps_owner run : keeps_runs (require_owner fault clock run).
Proof. unfold require_owner. keeps_program. Qed.

Lemma keeps_scan run query neighbors reference rows w :
  keeps_runs (scan_rows fault cancelled constraint_failed no_rows blake3_hex run query neighbors reference rows w).
Proof.
  pose proof keeps_publish_member. pose proof keeps_save. pose proof keeps_establish.
  revert w. induction rows as [|row rows IH]; intros w; cbn [scan_rows]; keeps_program.
Qed.

Lemma keeps_load : keeps_runs (cursor_load fault bad_column).
Proof.
  unfold cursor_load. apply keeps_bind; [|keeps_program]. apply keeps_sql. intros db a db' H.
  destruct (head (pending_works db)); [|by injection H as _ <-]. destruct (sd_work db !! _); [|by injection H as _ <-].
  do 3 (apply result_bind_Ok in H as (? & _ & H)). by injection H as _ <-.
Qed.

Lemma keeps_advance run :
  keeps_runs (match_advance fault cancelled constraint_failed no_rows bad_column blake3_hex run).
Proof.
  pose proof keeps_load. pose proof keeps_scan. pose proof keeps_save. unfold match_advance, postings_load. keeps_program.
Qed.

Lemma keeps_tx_iter {A} (f : A → ST ScanError (nat * SimilarDb) unit) l : (∀ x, keeps_runs (f x)) → keeps_runs (tx_iter f l).
Proof. intros Hf. induction l as [|x l IH]; cbn [tx_iter]; keeps_program. Qed.

Lemma keeps_publish run content value :
  keeps_runs (evidence_publish fault constraint_failed sqlite_full blake3_hex run content value).
Proof.
  pose proof keeps_admit. assert (∀ id l, keeps_runs (tx_iter (insert_variant fault constraint_failed id) l)) as Hv.
  { intros id l. apply keeps_tx_iter. intros x. by apply keeps_write. }
  unfold evidence_publish. destruct (disposition_to_db value). apply keeps_bind; [apply keeps_lift|intros len].
  apply keeps_bind; [|keeps_program]. apply keeps_sql. intros db a db' Hdb.
  destruct (evidence_exists _ _ _); [by injection Hdb as _ <-|]. destruct (I64_MAX <? _); [done|].
  destruct (negb _); [done|]. by injection Hdb as _ <-.
Qed.

Lemma keeps_transaction {A} (body : ST ScanError (nat * SimilarDb) (bool * A)) :
  keeps_runs body → keeps_runs (similarity_transaction fault body).
Proof.
  intros Hb s a s' [->|(s0 & s1 & E0 & H & ->)]%similarity_transaction_Ok; [done|]. rewrite <-E0. by apply Hb in H.
Qed.

Lemma keeps_window run :
  keeps_runs (match_similarity_window fault cancelled clock constraint_failed no_rows bad_column blake3_hex run).
Proof. pose proof keeps_owner. pose proof keeps_advance. apply keeps_transaction. keeps_program. Qed.

Lemma keeps_publish_similarity run content value :
  keeps_runs (publish_similarity fault cancelled clock verify constraint_failed sqlite_full blake3_hex run content value).
Proof.
  pose proof keeps_owner. pose proof keeps_publish. unfold publish_similarity.
  do 3 (apply keeps_bind; [apply keeps_lift|intros _]). apply keeps_transaction.
  apply keeps_bind; [eauto|intros _]. apply keeps_bind; [apply keeps_effect|intros stop]. destruct stop; [apply keeps_ret|].
  apply keeps_bind; [|keeps_program]. intros s a s' H1. destruct (verify s.1); [|done]. by injection H1 as _ <-.
Qed.
End Unchanged.

(** ** The invariant of runs *)

Definition owner (db : SimilarDb) : option str := fst <$> sd_active db.

(** Every run but the one that owns the dispatch has its two outcomes. *)
Record runs_ok (db : SimilarDb) : Prop := {
  ro_active : ∀ id, owner db = Some id → is_Some (sd_runs db !! id);
  ro_exact : ∀ id row, sd_runs db !! id = Some row → is_Some (lg_exact_runs (sd_ledger db) !! rn_source_run_id row);
  ro_sources : ∀ id id' row row', sd_runs db !! id = Some row → sd_runs db !! id' = Some row' →
    rn_source_run_id row = rn_source_run_id row' → id = id';
  ro_outcomes : ∀ id, is_Some (lg_outcomes (sd_ledger db) !! id) ↔ is_Some (sd_runs db !! id) ∧ owner db ≠ Some id;
  ro_exact_outcomes : ∀ id row, sd_runs db !! id = Some row →
    is_Some (lg_exact_outcomes (sd_ledger db) !! rn_source_run_id row) ↔ owner db ≠ Some id;
  ro_exact_refs : ∀ id, is_Some (lg_exact_outcomes (sd_ledger db) !! id) → is_Some (lg_exact_runs (sd_ledger db) !! id);
}.

(** Rows of runs and outcomes stay. *)
Record records_kept (db db' : SimilarDb) : Prop := {
  rk_runs : sd_runs db ⊆ sd_runs db';
  rk_outcomes : lg_outcomes (sd_ledger db) ⊆ lg_outcomes (sd_ledger db');
  rk_exact_runs : lg_exact_runs (sd_ledger db) ⊆ lg_exact_runs (sd_ledger db');
  rk_exact_outcomes : lg_exact_outcomes (sd_ledger db) ⊆ lg_exact_outcomes (sd_ledger db');
}.

#[export] Instance records_kept_preorder : PreOrder records_kept.
Proof. split; [by split|]. intros db1 db2 db3 [K1 K2 K3 K4] [L1 L2 L3 L4]. split; by etrans. Qed.

Lemma records_kept_same db db' : runs_of db' = runs_of db → records_kept db db'.
Proof. unfold runs_of. intros [= E1 E2 E3]. split; by rewrite ?E1, ?E3. Qed.

Lemma runs_ok_same db db' : runs_of db' = runs_of db → runs_ok db → runs_ok db'.
Proof.
  unfold runs_of. intros [= E1 E2 E3] [R1 R2 R3 R4 R5 R6]. unfold owner in *. split; unfold owner; rewrite ?E1, ?E2, ?E3; done.
Qed.

Lemma is_Some_insert {A} (m : gmap str A) k x i : is_Some (<[k := x]> m !! i) ↔ i = k ∨ is_Some (m !! i).
Proof. rewrite lookup_insert_is_Some'. split; [intros [->|H]; [by left|by right]|intros [->|H]; [by left|by right]]. Qed.

Lemma absent_None {A} (o : option A) : negb (bool_decide (is_Some o)) = true → o = None.
Proof. rewrite negb_true_iff, bool_decide_eq_false. apply eq_None_not_Some. Qed.

#[local] Arguments lit : simpl never.

Section Ledger.
Context (fault : nat → option ScanError) (clock : nat → Z) (constraint_failed : ScanError).

(** A statement that adds an outcome finds none, and one of a run that exists. *)
Lemma insert_outcome_Ok id row s u s' : insert_outcome fault constraint_failed id row s = Ok (u, s') →
  lg_outcomes (sd_ledger s.2) !! id = None ∧ is_Some (sd_runs s.2 !! id) ∧
  s'.2 = set_dispatch (sd_runs s.2) (sd_active s.2) (add_outcome id row (sd_ledger s.2)) s.2.
Proof.
  intros [Ha E]%sql_write_Ok. apply andb_true_iff in Ha as [H1%absent_None H2%bool_decide_eq_true]. done.
Qed.

Lemma insert_exact_outcome_Ok id row s u s' : insert_exact_outcome fault constraint_failed id row s = Ok (u, s') →
  lg_exact_outcomes (sd_ledger s.2) !! id = None ∧ is_Some (lg_exact_runs (sd_ledger s.2) !! id) ∧
  s'.2 = set_dispatch (sd_runs s.2) (sd_active s.2) (add_exact_outcome id row (sd_ledger s.2)) s.2.
Proof.
  intros [Ha E]%sql_write_Ok. apply andb_true_iff in Ha as [H1%absent_None H2%bool_decide_eq_true]. done.
Qed.

Lemma kept_outcomes db id row source row' active :
  lg_outcomes (sd_ledger db) !! id = None → lg_exact_outcomes (sd_ledger db) !! source = None →
  records_kept db (set_dispatch (sd_runs db) active (add_exact_outcome source row' (add_outcome id row (sd_ledger db))) db).
Proof. intros H1 H2. split; cbn; [done|by apply insert_subseteq|done|by apply insert_subseteq]. Qed.

(** The two outcomes of the owner settle every run. *)
Lemma settle_owner db id row source orow erow :
  runs_ok db → owner db = Some id → sd_runs db !! id = Some row → source = rn_source_run_id row →
  runs_ok (set_dispatch (sd_runs db) None (add_exact_outcome source erow (add_outcome id orow (sd_ledger db))) db).
Proof.
  intros [R1 R2 R3 R4 R5 R6] Ho Hrow ->. split; unfold owner in *; cbn.
  - done.
  - exact R2.
  - exact R3.
  - intros i. rewrite is_Some_insert, R4, Ho. split.
    + intros [->|[H _]]; [split; [by eexists|done]|done].
    + intros [H _]. destruct (decide (i = id)) as [->|Hne]; [by left|right]. split; [done|congruence].
  - intros i r Hr. rewrite is_Some_insert, (R5 i r Hr), Ho. split; [done|]. intros _.
    destruct (decide (i = id)) as [->|Hne]; [left; congruence|right; congruence].
  - intros i. rewrite is_Some_insert. intros [->|H]; [by apply (R2 id)|by apply R6].
Qed.

Lemma retire_run_runs now s u s' :
  retire_run fault constraint_failed now (active_run s.2) s = Ok (u, s') → runs_ok s.2 →
  records_kept s.2 s'.2 ∧ sd_runs s'.2 = sd_runs s.2 ∧
  runs_ok (set_dispatch (sd_runs s'.2) None (sd_ledger s'.2) s'.2).
Proof.
  unfold retire_run, active_run. intros H Hok. destruct (sd_active s.2) as [[id until]|] eqn:Ea.
  - assert (owner s.2 = Some id) as Ho by (unfold owner; by rewrite Ea).
    destruct (ro_active _ Hok id Ho) as [row Hrow]. rewrite Hrow in H. cbn in H.
    apply st_bind_Ok in H as (reason & s1 & [_ ->]%st_lift_Ok & H).
    apply st_bind_Ok in H as ([] & s2 & (H1 & _ & E2)%insert_outcome_Ok & (H3 & _ & E3)%insert_exact_outcome_Ok).
    rewrite E2 in E3, H3. rewrite E3. split_and!; [exact (kept_outcomes s.2 id _ _ _ _ H1 H3)|done|].
    exact (settle_owner s.2 id row _ _ _ Hok Ho Hrow eq_refl).
  - apply st_ret_Ok in H as [_ ->]. split_and!; [done|done|]. apply (runs_ok_same s.2); [|done].
    unfold runs_of. cbn. by rewrite Ea.
Qed.

Lemma begin_similarity_runs run s u s' :
  begin_similarity fault clock constraint_failed run s = Ok (u, s') → runs_ok s.2 → records_kept s.2 s'.2 ∧ runs_ok s'.2.
Proof.
  intros [->|(s0 & s1 & E0 & H & ->)]%similarity_transaction_Ok Hok; [done|]. rewrite <-E0 in *. clear s E0.
  apply st_bind_Ok in H as ([] & s2 & H & [_ ->]%st_ret_Ok). unfold begin_run in H.
  apply st_bind_Ok in H as (now & s3 & H3 & H). injection H3 as _ <-.
  apply st_bind_Ok in H as (active & s4 & [-> E4]%sql_read_Ok & H). cbn in E4. cbn [snd] in H. rewrite <-E4 in *. clear s0 E4.
  apply st_bind_Ok in H as ([] & s5 & H5%retire_run_runs & H); [|done]. destruct H5 as (Hk & Er & [R1 R2 R3 R4 R5 R6]).
  apply st_bind_Ok in H as ([] & s6 & [H6%absent_None E6]%sql_write_Ok & H).
  apply st_bind_Ok in H as ([] & s7 & [H7 E7]%sql_write_Ok & [_ E8]%sql_write_Ok).
  apply andb_true_iff in H7 as [H7%absent_None _]. rewrite E6 in H7. cbn in H7. unfold owner in *. cbn in *.
  assert (lg_outcomes (sd_ledger s5.2) !! sr_run_id run = None) as Hout.
  { apply eq_None_not_Some. rewrite R4, H7. intros [[? ?] _]. done. }
  rewrite E8, E7, E6. split.
  - etrans; [exact Hk|]. split; cbn; [by apply insert_subseteq|done|by apply insert_subseteq|done].
  - split; unfold owner; cbn.
    + intros id [= <-]. rewrite lookup_insert_eq. by eexists.
    + intros id row. rewrite lookup_insert_Some, is_Some_insert. intros [[_ <-]|[_ H]]; [by left|right; by eapply R2].
    + intros id id' row row'. rewrite !lookup_insert_Some. intros [[<- <-]|[_ H]] [[<- <-]|[_ H']]; cbn; [done|..].
      * intros E. destruct (R2 _ _ H') as [? Hr]. rewrite <-E in Hr. congruence.
      * intros E. destruct (R2 _ _ H) as [? Hr]. rewrite E in Hr. congruence.
      * by apply R3.
    + intros id. rewrite R4, is_Some_insert. split.
      * intros [H _]. split; [by right|]. intros [= <-]. rewrite H7 in H. by destruct H.
      * intros [[->|H] Hne]; [done|]. done.
    + intros id row. rewrite lookup_insert_Some. intros [[<- <-]|[Hne H]]; cbn.
      * split; [|done]. intros Hs%R6. rewrite H6 in Hs. by destruct Hs.
      * rewrite (R5 _ _ H). split; [congruence|done].
    + intros id H. rewrite is_Some_insert. right. by apply R6.
Qed.

Lemma require_owner_owner run s u s' : require_owner fault clock run s = Ok (u, s') →
  s'.2 = s.2 ∧ owner s.2 = Some (sr_run_id run) ∧
  ∃ row, sd_runs s.2 !! sr_run_id run = Some row ∧ rn_source_run_id row = sr_source_run_id run.
Proof.
  intros H. split; [by eapply require_owner_Ok|]. unfold require_owner in H.
  apply st_bind_Ok in H as (now & s1 & H1 & H). injection H1 as _ <-.
  apply st_bind_Ok in H as (active & s2 & [-> _]%sql_read_Ok & [H%fail_if_Ok _]%st_lift_Ok).
  apply negb_false_iff in H. cbn in H. unfold owner. destruct (sd_active s.2) as [[id until]|]; [|done].
  destruct (sd_runs s.2 !! id) as [row|] eqn:Er; [|done]. rewrite !andb_true_iff, !bool_decide_eq_true in H.
  destruct H as [[[-> Hs] _] _]. split; [done|]. by exists row.
Qed.

Lemma finish_similarity_runs totals run progress s u s' :
  finish_similarity fault clock constraint_failed totals run progress s = Ok (u, s') → runs_ok s.2 →
  records_kept s.2 s'.2 ∧ runs_ok s'.2.
Proof.
  intros [->|(s0 & s1 & E0 & H & ->)]%similarity_transaction_Ok Hok; [done|]. rewrite <-E0 in *. clear s E0.
  apply st_bind_Ok in H as ([] & s2 & H & [_ ->]%st_ret_Ok).
  apply st_bind_Ok in H as ([] & s3 & (E3 & Ho & row & Hrow & Hs)%require_owner_owner & H).
  apply st_bind_Ok in H as (phase & s4 & [_ ->]%st_lift_Ok & H). apply st_bind_Ok in H as (now & s4 & H4 & H).
  injection H4 as _ <-. do 3 (apply st_bind_Ok in H as (? & ? & [_ ->]%st_lift_Ok & H)).
  apply st_bind_Ok in H as ([] & s5 & (H5 & _ & E5)%insert_outcome_Ok & H). cbn in E5, H5. rewrite E3 in E5, H5.
  apply st_bind_Ok in H as ([] & s6 & (H6 & _ & E6)%insert_exact_outcome_Ok & [_ E7]%sql_write_Ok).
  rewrite E5 in E6, H6. cbn in E6, H6. rewrite E6 in E7. cbn in E7. unfold owner in Ho.
  destruct (sd_active s0.2) as [[id until]|] eqn:Ea; [|done]. injection Ho as ->.
  rewrite bool_decide_eq_true_2 in E7 by done. rewrite E7. split; [exact (kept_outcomes s0.2 _ _ _ _ _ H5 H6)|].
  eapply (settle_owner s0.2); [done| |exact Hrow|done]. unfold owner. by rewrite Ea.
Qed.

Lemma renew_similarity_runs run s u s' :
  renew_similarity fault clock constraint_failed run s = Ok (u, s') → runs_ok s.2 → records_kept s.2 s'.2 ∧ runs_ok s'.2.
Proof.
  intros [->|(s0 & s1 & E0 & H & ->)]%similarity_transaction_Ok Hok; [done|]. rewrite <-E0 in *. clear s E0.
  apply st_bind_Ok in H as ([] & s2 & H & [_ ->]%st_ret_Ok).
  apply st_bind_Ok in H as ([] & s3 & E3%require_owner_Ok & H). apply st_bind_Ok in H as (now & s4 & H4 & H).
  injection H4 as _ <-. apply sql_write_Ok in H as [_ ->]. cbn. rewrite E3.
  destruct (sd_active s0.2) as [[id until]|] eqn:Ea; [|done]. case_bool_decide; [|done]. split; [by split|].
  destruct Hok as [R1 R2 R3 R4 R5 R6]. unfold owner in *. rewrite Ea in *. by split.
Qed.
End Ledger.

Lemma similar_step_runs blake3_hex db db' :
  similar_step blake3_hex db db' → runs_ok db → records_kept db db' ∧ runs_ok db'.
Proof.
  intros [fault cancelled clock constraint_failed no_rows bad_column run n db1 b n' db2 H
    |fault cancelled clock verify constraint_failed sqlite_full run content value n db1 b n' db2 Hb Ht H
    |fault clock constraint_failed run n db1 n' db2 H|fault clock constraint_failed run n db1 n' db2 H
    |fault clock constraint_failed totals run progress n db1 n' db2 H] HI.
  - apply keeps_window in H. split; [by apply records_kept_same|by apply (runs_ok_same db1)].
  - apply keeps_publish_similarity in H. split; [by apply records_kept_same|by apply (runs_ok_same db1)].
  - by apply (begin_similarity_runs _ _ _ _ (n, db1) _ (n', db2)) in H.
  - by apply (renew_similarity_runs _ _ _ _ (n, db1) _ (n', db2)) in H.
  - by apply (finish_similarity_runs _ _ _ _ _ _ (n, db1) _ (n', db2)) in H.
Qed.

Lemma similar_run_runs blake3_hex db db' :
  rtc (similar_step blake3_hex) db db' → runs_ok db → records_kept db db' ∧ runs_ok db'.
Proof.
  induction 1 as [|db1 db2 db3 Hs _ IH]; [done|]. intros Hok. destruct (similar_step_runs _ _ _ Hs Hok) as [K1 R1].
  destruct (IH R1) as [K2 R2]. split; [by etrans|done].
Qed.

Lemma runs_ok_fresh : runs_ok similar_fresh.
Proof. split; intros *; cbn; try done; [split; [intros [? H]|intros [[? H] _]]; done|intros [? H]; done]. Qed.

(** C20: In every state the repository reaches, an analysis is the one that owns the dispatch and has no outcome, or it has
    an outcome, and so has its fingerprint run; an outcome belongs to an analysis, different analyses have different
    fingerprint runs, and from then on no outcome is changed or removed. *)
Theorem runs_settled_once blake3_hex db :
  rtc (similar_step blake3_hex) similar_fresh db →
  (∀ id, is_Some (lg_outcomes (sd_ledger db) !! id) ↔ is_Some (sd_runs db !! id) ∧ owner db ≠ Some id) ∧
  (∀ id row, sd_runs db !! id = Some row →
     is_Some (lg_exact_outcomes (sd_ledger db) !! rn_source_run_id row) ↔ owner db ≠ Some id) ∧
  (∀ id id' row row', sd_runs db !! id = Some row → sd_runs db !! id' = Some row' →
     rn_source_run_id row = rn_source_run_id row' → id = id') ∧
  (∀ db' id outcome, rtc (similar_step blake3_hex) db db' →
     lg_outcomes (sd_ledger db) !! id = Some outcome → lg_outcomes (sd_ledger db') !! id = Some outcome).
Proof.
  intros H. destruct (similar_run_runs _ _ _ H runs_ok_fresh) as [_ Hok]. split_and!.
  - apply Hok.
  - apply Hok.
  - apply Hok.
  - intros db' id outcome H' Ho. destruct (similar_run_runs _ _ _ H' Hok) as [[_ K _ _] _]. by eapply lookup_weaken.
Qed.

(** A run that finishes, and a second one that is begun. *)
Definition example_second : SimilarDb :=
  let finished := tables_after (finish_similarity (λ _, None) (λ _, 5) run_retired (λ _, (3, 15)) example_run
    {| sp_run_id := lit "r"; sp_phase := Completed; sp_checked_sources := 3; sp_analyzed_contents := 3;
       sp_skipped_sources := 0; sp_current_path := None; sp_issue_code := None |} (0%nat, example_settled)) example_settled in
  tables_after (begin_similarity (λ _, None) (λ _, 9) run_retired
    {| sr_run_id := lit "r2"; sr_source_run_id := lit "s2"; sr_started_unix_ms := 8 |} (0%nat, finished)) finished.

Lemma example_second_run : rtc (similar_step (λ b, b)) similar_fresh example_second.
Proof.
  unfold example_second. set (finished := tables_after (finish_similarity _ _ _ _ _ _ _) _).
  assert (rtc (similar_step (λ b, b)) similar_fresh finished) as Hf.
  { etrans; [apply example_settled_run|]. unfold finished, tables_after.
    destruct (finish_similarity _ _ _ _ _ _ _) as [[[] [n' db']]|] eqn:E; [|done]. apply rtc_once. by eapply step_finish. }
  clearbody finished. etrans; [exact Hf|]. unfold tables_after.
  destruct (begin_similarity _ _ _ _ _) as [[[] [n' db']]|] eqn:E; [|done]. apply rtc_once. by eapply step_begin.
Qed.

Lemma runs_settled_once_witness :
  owner example_second = Some (lit "r2") ∧ is_Some (lg_outcomes (sd_ledger example_second) !! lit "r").
Proof.
  assert (owner example_second = Some (lit "r2")) as Ho by (vm_compute; reflexivity). split; [exact Ho|].
  destruct (runs_settled_once (λ b, b) example_second example_second_run) as [H _]. apply H. rewrite Ho. split; [|discriminate].
  apply (bool_decide_unpack _). vm_compute. exact I.
Defined.
