(* ===== verification/Reclamation.v ===== *)
(** * Catalog reclamation

    Models the registry of reclamation workers ([application/catalog_reclamation/operation_registry.rs]), the control of
    an attempt ([CatalogMaintenanceControl] of [ports.rs]), the calls of [application/catalog_reclamation.rs] that
    schedule, run and cancel workers, and the thresholds of [policy.rs].

    A mutex makes each method of the registry one step.  An [Arc] is its address, a number that is never used
    again; the flag of a token is a member of [rg_cancelled].  The entry of a catalog is never removed, so the [Arc]
    of an entry is the catalog's key.  Poisoned mutexes and the callback that interrupts a running statement
    are left out.  The worker's closures are the values of [SnapshotUpdate]. *)

From S2P Require Import Prelude Text JournalText.

(** ** Snapshots *)

Inductive CatalogReclamationPhase :=
| Idle | Queued | Inspecting | WaitingForIdle | CheckingCapacity | Converting | Reclaiming
| Completed | Cancelled | Failed.

#[export] Instance CatalogReclamationPhase_eq_dec : EqDecision CatalogReclamationPhase.
Proof. solve_decision. Defined.

Record CatalogReclamationSnapshot := {
  cs_operation_id : option str;
  cs_phase : CatalogReclamationPhase;
  cs_catalog_file_bytes : Z;
  cs_live_bytes : Z;
  cs_reclaimable_bytes : Z;
  cs_reclaimed_bytes : Z;
  cs_required_temporary_bytes : option Z;
  cs_available_temporary_bytes : option Z;
  cs_error_code : option str;
  cs_error_message : option str;
}.

Definition snapshot_idle : CatalogReclamationSnapshot :=
  {| cs_operation_id := None; cs_phase := Idle; cs_catalog_file_bytes := 0; cs_live_bytes := 0;
     cs_reclaimable_bytes := 0; cs_reclaimed_bytes := 0; cs_required_temporary_bytes := None;
     cs_available_temporary_bytes := None; cs_error_code := None; cs_error_message := None |}.

Definition snapshot_is_active (self : CatalogReclamationSnapshot) : bool :=
  bool_decide (cs_phase self ∈ [Queued; Inspecting; WaitingForIdle; CheckingCapacity; Converting; Reclaiming]).

Definition with_phase (phase : CatalogReclamationPhase) (s : CatalogReclamationSnapshot) : CatalogReclamationSnapshot :=
  {| cs_operation_id := cs_operation_id s; cs_phase := phase; cs_catalog_file_bytes := cs_catalog_file_bytes s;
     cs_live_bytes := cs_live_bytes s; cs_reclaimable_bytes := cs_reclaimable_bytes s;
     cs_reclaimed_bytes := cs_reclaimed_bytes s; cs_required_temporary_bytes := cs_required_temporary_bytes s;
     cs_available_temporary_bytes := cs_available_temporary_bytes s; cs_error_code := cs_error_code s;
     cs_error_message := cs_error_message s |}.

Definition for_operation (operation_id : str) (s : CatalogReclamationSnapshot) : CatalogReclamationSnapshot :=
  {| cs_operation_id := Some operation_id; cs_phase := cs_phase s; cs_catalog_file_bytes := cs_catalog_file_bytes s;
     cs_live_bytes := cs_live_bytes s; cs_reclaimable_bytes := cs_reclaimable_bytes s;
     cs_reclaimed_bytes := cs_reclaimed_bytes s; cs_required_temporary_bytes := cs_required_temporary_bytes s;
     cs_available_temporary_bytes := cs_available_temporary_bytes s; cs_error_code := cs_error_code s;
     cs_error_message := cs_error_message s |}.

Definition with_error (code message : option str) (s : CatalogReclamationSnapshot) : CatalogReclamationSnapshot :=
  {| cs_operation_id := cs_operation_id s; cs_phase := cs_phase s; cs_catalog_file_bytes := cs_catalog_file_bytes s;
     cs_live_bytes := cs_live_bytes s; cs_reclaimable_bytes := cs_reclaimable_bytes s;
     cs_reclaimed_bytes := cs_reclaimed_bytes s; cs_required_temporary_bytes := cs_required_temporary_bytes s;
     cs_available_temporary_bytes := cs_available_temporary_bytes s; cs_error_code := code; cs_error_message := message |}.

Definition with_capacity (required available : option Z) (s : CatalogReclamationSnapshot) : CatalogReclamationSnapshot :=
  {| cs_operation_id := cs_operation_id s; cs_phase := cs_phase s; cs_catalog_file_bytes := cs_catalog_file_bytes s;
     cs_live_bytes := cs_live_bytes s; cs_reclaimable_bytes := cs_reclaimable_bytes s;
     cs_reclaimed_bytes := cs_reclaimed_bytes s; cs_required_temporary_bytes := required;
     cs_available_temporary_bytes := available; cs_error_code := cs_error_code s; cs_error_message := cs_error_message s |}.

Definition publish_failure (error : ScanError) (s : CatalogReclamationSnapshot) : CatalogReclamationSnapshot :=
  with_error (Some (se_code error)) (Some (se_message error)) (with_phase Failed s).

(** ** Space *)

Inductive CatalogAutoVacuumMode := VacuumNone | VacuumFull | VacuumIncremental.

#[export] Instance CatalogAutoVacuumMode_eq_dec : EqDecision CatalogAutoVacuumMode.
Proof. solve_decision. Defined.

Record CatalogSpaceUsage := {
  su_page_size : Z;
  su_page_count : Z;
  su_freelist_count : Z;
  su_auto_vacuum : CatalogAutoVacuumMode;
}.

Definition saturating_mul (max a b : Z) : Z := Z.min max (a * b).

Definition catalog_file_bytes (self : CatalogSpaceUsage) : Z :=
  saturating_mul U64_MAX (su_page_count self) (su_page_size self).

Definition reclaimable_bytes (self : CatalogSpaceUsage) : Z :=
  saturating_mul U64_MAX (su_freelist_count self) (su_page_size self).

Definition live_bytes (self : CatalogSpaceUsage) : Z :=
  saturating_sub (catalog_file_bytes self) (reclaimable_bytes self).

Definition apply_usage (usage : CatalogSpaceUsage) (s : CatalogReclamationSnapshot) : CatalogReclamationSnapshot :=
  let previous_total := saturating_add U64_MAX (cs_reclaimed_bytes s) (cs_reclaimable_bytes s) in
  let total := Z.max previous_total (reclaimable_bytes usage) in
  {| cs_operation_id := cs_operation_id s; cs_phase := cs_phase s; cs_catalog_file_bytes := catalog_file_bytes usage;
     cs_live_bytes := live_bytes usage; cs_reclaimable_bytes := reclaimable_bytes usage;
     cs_reclaimed_bytes := saturating_sub total (reclaimable_bytes usage);
     cs_required_temporary_bytes := cs_required_temporary_bytes s;
     cs_available_temporary_bytes := cs_available_temporary_bytes s; cs_error_code := cs_error_code s;
     cs_error_message := cs_error_message s |}.

Definition INCREMENTAL_START_BYTES : Z := 16 * 1024 * 1024.
Definition INCREMENTAL_START_PERCENT : Z := 20.
Definition CONVERSION_START_BYTES : Z := 64 * 1024 * 1024.
Definition CONVERSION_START_PERCENT : Z := 25.
Definition TARGET_BYTES : Z := 8 * 1024 * 1024.
Definition TARGET_PERCENT : Z := 5.

Definition should_start_reclamation (usage : CatalogSpaceUsage) : bool :=
  let (minimum_bytes, minimum_percent) :=
    match su_auto_vacuum usage with
    | VacuumIncremental => (INCREMENTAL_START_BYTES, INCREMENTAL_START_PERCENT)
    | VacuumNone | VacuumFull => (CONVERSION_START_BYTES, CONVERSION_START_PERCENT)
    end in
  (minimum_bytes <=? reclaimable_bytes usage) && negb (su_page_count usage =? 0)
  && (su_page_count usage * minimum_percent <=? su_freelist_count usage * 100).

Definition reclamation_target_reached (usage : CatalogSpaceUsage) : bool :=
  (su_freelist_count usage =? 0) || (reclaimable_bytes usage <=? TARGET_BYTES)
  || (negb (su_page_count usage =? 0) && (su_freelist_count usage * 100 <=? su_page_count usage * TARGET_PERCENT)).

(** ** The registry *)

Definition Token := nat.

(** [CatalogMaintenanceControl]: the token whose flag it shares, and the address of its own flag [preempted]. *)
Record MaintenanceControl := {
  mc_token : Token;
  mc_preempted : nat;
}.

Record EntryState := {
  es_snapshot : CatalogReclamationSnapshot;
  es_run : option Token;
  es_pending_operation_id : option str;
  es_active_control : option MaintenanceControl;
}.

Record CatalogReclamationRegistry := {
  rg_entries : gmap str EntryState;
  rg_next : nat;  (** the next address *)
  rg_cancelled : gset Token;
  rg_preempted : gset nat;
}.

Definition registry_default : CatalogReclamationRegistry :=
  {| rg_entries := ∅; rg_next := 0; rg_cancelled := ∅; rg_preempted := ∅ |}.

Definition set_entry (key : str) (state : EntryState) (r : CatalogReclamationRegistry) : CatalogReclamationRegistry :=
  {| rg_entries := <[key := state]> (rg_entries r); rg_next := rg_next r; rg_cancelled := rg_cancelled r;
     rg_preempted := rg_preempted r |}.

(** A fresh address. *)
Definition allocate (r : CatalogReclamationRegistry) : nat * CatalogReclamationRegistry :=
  (rg_next r, {| rg_entries := rg_entries r; rg_next := S (rg_next r); rg_cancelled := rg_cancelled r;
                 rg_preempted := rg_preempted r |}).

(** [CatalogReclamationOperation] *)
Record Operation := {
  op_entry : str;
  op_token : Token;
}.

#[export] Instance Operation_eq_dec : EqDecision Operation.
Proof. solve_decision. Defined.

Definition empty_entry : EntryState :=
  {| es_snapshot := snapshot_idle; es_run := None; es_pending_operation_id := None; es_active_control := None |}.

Definition start (key operation_id : str) (pending : option str) (r : CatalogReclamationRegistry)
    : Operation * CatalogReclamationRegistry :=
  let (token, r) := allocate r in
  ({| op_entry := key; op_token := token |},
   set_entry key {| es_snapshot := with_phase Queued (for_operation operation_id snapshot_idle); es_run := Some token;
                    es_pending_operation_id := pending; es_active_control := None |} r).

Definition owns (state : EntryState) (token : Token) : bool := bool_decide (es_run state = Some token).

(** The snapshot of the admission, and the worker that the caller has to run. *)
Definition registry_admit (key operation_id : str) (replace_terminal : bool) (r : CatalogReclamationRegistry)
    : CatalogReclamationSnapshot * option Operation * CatalogReclamationRegistry :=
  let is_new := negb (bool_decide (is_Some (rg_entries r !! key))) in
  let state := default empty_entry (rg_entries r !! key) in
  let r := set_entry key state r in
  match es_run state with
  | Some run =>
    let state :=
      if replace_terminal then
        {| es_snapshot := es_snapshot state; es_run := Some run; es_pending_operation_id := Some operation_id;
           es_active_control := es_active_control state |}
      else state in
    (es_snapshot state, None, set_entry key state r)
  | None =>
    if is_new || replace_terminal then
      let (worker, r) := start key operation_id (es_pending_operation_id state) r in
      (with_phase Queued (for_operation operation_id snapshot_idle), Some worker, r)
    else (es_snapshot state, None, r)
  end.

Definition registry_snapshot (key : str) (r : CatalogReclamationRegistry) : option CatalogReclamationSnapshot :=
  es_snapshot <$> rg_entries r !! key.

Definition preempt_control (control : MaintenanceControl) (r : CatalogReclamationRegistry) : CatalogReclamationRegistry :=
  {| rg_entries := rg_entries r; rg_next := rg_next r; rg_cancelled := rg_cancelled r;
     rg_preempted := {[mc_preempted control]} ∪ rg_preempted r |}.

Definition registry_preempt (key : str) (r : CatalogReclamationRegistry) : CatalogReclamationRegistry :=
  match rg_entries r !! key ≫= es_active_control with
  | Some control => preempt_control control r
  | None => r
  end.

Definition cancel_token (token : Token) (r : CatalogReclamationRegistry) : CatalogReclamationRegistry :=
  {| rg_entries := rg_entries r; rg_next := rg_next r; rg_cancelled := {[token]} ∪ rg_cancelled r;
     rg_preempted := rg_preempted r |}.

(** The first of [states] that runs the operation, with its token and its control. *)
Definition running_operation (operation_id : str) (states : list EntryState)
    : option (Token * option MaintenanceControl) :=
  head (omap (λ state : EntryState,
    if bool_decide (cs_operation_id (es_snapshot state) = Some operation_id)
    then (λ run, (run, es_active_control state)) <$> es_run state else None) states).

(** [values] is [entries.values()] in the order the map has them. *)
Definition registry_cancel (values : list EntryState) (operation_id : str) (r : CatalogReclamationRegistry)
    : bool * CatalogReclamationRegistry :=
  match running_operation operation_id values with
  | Some (run, control) =>
    let r := cancel_token run r in
    (true, match control with Some control => cancel_token (mc_token control) r | None => r end)
  | None => (false, r)
  end.

(** What the worker writes to its snapshot. *)
Inductive SnapshotUpdate :=
| UpdateInspecting
| UpdatePhase (phase : CatalogReclamationPhase)
| UpdateUsage (usage : CatalogSpaceUsage)
| UpdateCapacity (required available : Z).

Definition apply_update (update : SnapshotUpdate) (s : CatalogReclamationSnapshot) : CatalogReclamationSnapshot :=
  match update with
  | UpdateInspecting => with_capacity None None (with_error None None (with_phase Inspecting s))
  | UpdatePhase phase => with_phase phase s
  | UpdateUsage usage => apply_usage usage s
  | UpdateCapacity required available => with_capacity (Some required) (Some available) s
  end.

Definition operation_update (self : Operation) (update : SnapshotUpdate) (r : CatalogReclamationRegistry)
    : CatalogReclamationRegistry :=
  match rg_entries r !! op_entry self with
  | Some state =>
    if owns state (op_token self) then
      set_entry (op_entry self)
        {| es_snapshot := apply_update update (es_snapshot state); es_run := es_run state;
           es_pending_operation_id := es_pending_operation_id state; es_active_control := es_active_control state |} r
    else r
  | None => r
  end.

Definition operation_is_cancelled (self : Operation) (r : CatalogReclamationRegistry) : bool :=
  bool_decide (op_token self ∈ rg_cancelled r).

Definition stale_run_error : ScanError :=
  ScanError_new "catalog_reclamation_run_superseded" "The catalog reclamation worker no longer owns this request".

Definition control_new (token : Token) (r : CatalogReclamationRegistry) : MaintenanceControl * CatalogReclamationRegistry :=
  let (address, r) := allocate r in ({| mc_token := token; mc_preempted := address |}, r).

Definition control_is_interrupted (self : MaintenanceControl) (r : CatalogReclamationRegistry) : bool :=
  bool_decide (mc_token self ∈ rg_cancelled r) || bool_decide (mc_preempted self ∈ rg_preempted r).

Definition with_control (control : option MaintenanceControl) (state : EntryState) : EntryState :=
  {| es_snapshot := es_snapshot state; es_run := es_run state; es_pending_operation_id := es_pending_operation_id state;
     es_active_control := control |}.

Definition begin_attempt (self : Operation) (r : CatalogReclamationRegistry)
    : ScanResult MaintenanceControl * CatalogReclamationRegistry :=
  match rg_entries r !! op_entry self with
  | Some state =>
    if owns state (op_token self) then
      let (control, r) := control_new (op_token self) r in
      (Ok control, set_entry (op_entry self) (with_control (Some control) state) r)
    else (Err stale_run_error, r)
  | None => (Err stale_run_error, r)
  end.

Definition finish_attempt (self : Operation) (r : CatalogReclamationRegistry) : CatalogReclamationRegistry :=
  match rg_entries r !! op_entry self with
  | Some state => if owns state (op_token self) then set_entry (op_entry self) (with_control None state) r else r
  | None => r
  end.

Inductive ReclamationCompletion := RunCompleted | RunCancelled.

(** The worker goes on with the operation that is returned. *)
Definition operation_finish (self : Operation) (result : ScanResult ReclamationCompletion)
    (r : CatalogReclamationRegistry) : ScanResult (option Operation) * CatalogReclamationRegistry :=
  match rg_entries r !! op_entry self with
  | Some state =>
    if owns state (op_token self) then
      match es_pending_operation_id state with
      | Some operation_id =>
        let (next, r) := start (op_entry self) operation_id None r in (Ok (Some next), r)
      | None =>
        let snapshot :=
          match result with
          | Ok RunCompleted => with_phase Completed (es_snapshot state)
          | Ok RunCancelled => with_phase Cancelled (es_snapshot state)
          | Err error => publish_failure error (es_snapshot state)
          end in
        (Ok None, set_entry (op_entry self) {| es_snapshot := snapshot; es_run := None; es_pending_operation_id := None;
                                              es_active_control := None |} r)
      end
    else (Err stale_run_error, r)
  | None => (Err stale_run_error, r)
  end.

Definition worker_unavailable (self : Operation) (error : ScanError) (r : CatalogReclamationRegistry)
    : CatalogReclamationRegistry :=
  match rg_entries r !! op_entry self with
  | Some state =>
    if owns state (op_token self) then
      let snapshot :=
        match es_pending_operation_id state with
        | Some operation_id => for_operation operation_id snapshot_idle
        | None => es_snapshot state
        end in
      set_entry (op_entry self)
        {| es_snapshot := publish_failure error snapshot; es_run := None; es_pending_operation_id := None;
           es_active_control := None |} r
    else r
  | None => r
  end.

(** ** Scheduling and workers *)

(** The registry, the operations that some thread works on, and the last request accepted for each catalog. *)
Record ReclamationSystem := {
  ry_registry : CatalogReclamationRegistry;
  ry_workers : list Operation;
  ry_requests : gmap str str;
}.

Definition system_default : ReclamationSystem :=
  {| ry_registry := registry_default; ry_workers := []; ry_requests := ∅ |}.

(** The phases a worker displays while it works. *)
Definition working_update (update : SnapshotUpdate) : Prop :=
  match update with
  | UpdatePhase phase => phase ∈ [WaitingForIdle; CheckingCapacity; Converting; Reclaiming]
  | _ => True
  end.

(** What threads do: [schedule] admits a request, for which a new worker is started unless one runs; a worker updates
    its snapshot, begins and finishes attempts and, when it has finished, goes on with the request that waits, if
    any; a worker that cannot be started, or is superseded, gives up its operation; users cancel and the catalog
    preempts.  The order of the steps is arbitrary. *)
Inductive system_step : ReclamationSystem → ReclamationSystem → Prop :=
| step_schedule key operation_id replace snapshot worker r workers requests r' :
    registry_admit key operation_id replace r = (snapshot, worker, r') →
    system_step {| ry_registry := r; ry_workers := workers; ry_requests := requests |}
      {| ry_registry := r'; ry_workers := option_list worker ++ workers;
         ry_requests := if replace || bool_decide (is_Some worker) then <[key := operation_id]> requests else requests |}
| step_update operation update r workers requests :
    operation ∈ workers → working_update update →
    system_step {| ry_registry := r; ry_workers := workers; ry_requests := requests |}
      {| ry_registry := operation_update operation update r; ry_workers := workers; ry_requests := requests |}
| step_begin_attempt operation control r workers requests r' :
    operation ∈ workers → begin_attempt operation r = (control, r') →
    system_step {| ry_registry := r; ry_workers := workers; ry_requests := requests |}
      {| ry_registry := r'; ry_workers := workers; ry_requests := requests |}
| step_finish_attempt operation r workers requests :
    operation ∈ workers →
    system_step {| ry_registry := r; ry_workers := workers; ry_requests := requests |}
      {| ry_registry := finish_attempt operation r; ry_workers := workers; ry_requests := requests |}
| step_run_finished operation result next r before after requests r' :
    operation_finish operation result r = (Ok next, r') →
    system_step {| ry_registry := r; ry_workers := before ++ operation :: after; ry_requests := requests |}
      {| ry_registry := r'; ry_workers := before ++ option_list next ++ after; ry_requests := requests |}
| step_run_superseded operation result error r before after requests r' :
    operation_finish operation result r = (Err error, r') →
    system_step {| ry_registry := r; ry_workers := before ++ operation :: after; ry_requests := requests |}
      {| ry_registry := worker_unavailable operation error r'; ry_workers := before ++ after; ry_requests := requests |}
| step_worker_unavailable operation error r before after requests :
    system_step {| ry_registry := r; ry_workers := before ++ operation :: after; ry_requests := requests |}
      {| ry_registry := worker_unavailable operation error r; ry_workers := before ++ after; ry_requests := requests |}
| step_cancel_operation values operation_id found r workers requests r' :
    values ≡ₚ (map_to_list (rg_entries r)).*2 → registry_cancel values operation_id r = (found, r') →
    system_step {| ry_registry := r; ry_workers := workers; ry_requests := requests |}
      {| ry_registry := r'; ry_workers := workers; ry_requests := requests |}
| step_preempt key r workers requests :
    system_step {| ry_registry := r; ry_workers := workers; ry_requests := requests |}
      {| ry_registry := registry_preempt key r; ry_workers := workers; ry_requests := requests |}.

(** *** The invariant *)

Record registration_ok (next : nat) (workers : list Operation) (request : option str) (key : str) (state : EntryState) : Prop := {
  eo_run : ∀ token, es_run state = Some token ↔ {| op_entry := key; op_token := token |} ∈ workers;
  eo_active : snapshot_is_active (es_snapshot state) = true ↔ is_Some (es_run state);
  eo_pending : is_Some (es_pending_operation_id state) → is_Some (es_run state);
  eo_control : ∀ control, es_active_control state = Some control → es_run state = Some (mc_token control);
  eo_request : request = match es_pending_operation_id state with
                         | Some id => Some id | None => cs_operation_id (es_snapshot state) end;
  eo_fresh : ∀ token, es_run state = Some token → (token < next)%nat;
}.

Record system_ok (s : ReclamationSystem) : Prop := {
  so_entries : ∀ key state, rg_entries (ry_registry s) !! key = Some state →
    registration_ok (rg_next (ry_registry s)) (ry_workers s) (ry_requests s !! key) key state;
  so_known : ∀ operation, operation ∈ ry_workers s → is_Some (rg_entries (ry_registry s) !! op_entry operation);
  so_requests : ∀ key, is_Some (ry_requests s !! key) → is_Some (rg_entries (ry_registry s) !! key);
  so_workers : NoDup (op_entry <$> ry_workers s);
  so_cancelled : ∀ token, token ∈ rg_cancelled (ry_registry s) → (token < rg_next (ry_registry s))%nat;
}.

Lemma entry_ok_next next next' workers request key state :
  (next ≤ next')%nat → registration_ok next workers request key state → registration_ok next' workers request key state.
Proof. intros Hn [E1 E2 E3 E4 E5 E6]. split; try done. intros token H. specialize (E6 token H). lia. Qed.

(** A step at one catalog. *)
Lemma system_ok_set s r' workers' requests' key state :
  system_ok s → rg_entries r' = <[key := state]> (rg_entries (ry_registry s)) →
  (rg_next (ry_registry s) ≤ rg_next r')%nat → rg_cancelled r' = rg_cancelled (ry_registry s) →
  (∀ o, op_entry o ≠ key → o ∈ workers' ↔ o ∈ ry_workers s) → (∀ k, k ≠ key → requests' !! k = ry_requests s !! k) →
  NoDup (op_entry <$> workers') → registration_ok (rg_next r') workers' (requests' !! key) key state →
  system_ok {| ry_registry := r'; ry_workers := workers'; ry_requests := requests' |}.
Proof.
  intros [S1 S2 S3 S4 S5] He Hn Hc Hw Hr Hnd Hok. split; cbn; rewrite ?He, ?Hc.
  - intros k st. rewrite lookup_insert_Some. intros [[<- <-]|[Hne Hst]]; [done|]. specialize (S1 k st Hst).
    rewrite Hr by done. apply (entry_ok_next _ _ _ _ _ _ Hn). destruct S1 as [E1 E2 E3 E4 E5 E6]. split; try done.
    intros token. rewrite E1. symmetry. by apply Hw.
  - intros o Ho. rewrite lookup_insert_is_Some'. destruct (decide (key = op_entry o)) as [|Hne]; [by left|right].
    apply S2. by apply Hw.
  - intros k Hk. rewrite lookup_insert_is_Some'. destruct (decide (key = k)) as [|Hne]; [by left|right].
    apply S3. by rewrite <-Hr.
  - done.
  - intros token Ht. specialize (S5 token Ht). lia.
Qed.

Lemma owns_true state token : owns state token = true ↔ es_run state = Some token.
Proof. unfold owns. by rewrite bool_decide_eq_true. Qed.

(** A worker is the owner of its catalog. *)
Lemma worker_owns s operation : system_ok s → operation ∈ ry_workers s →
  ∃ state, rg_entries (ry_registry s) !! op_entry operation = Some state ∧ es_run state = Some (op_token operation).
Proof.
  intros HS Ho. destruct (so_known _ HS operation Ho) as [state Hst]. exists state. split; [done|].
  apply (eo_run _ _ _ _ _ (so_entries _ HS _ _ Hst)). by destruct operation.
Qed.

Lemma apply_update_kept update s : working_update update → snapshot_is_active s = true →
  cs_operation_id (apply_update update s) = cs_operation_id s ∧ snapshot_is_active (apply_update update s) = true.
Proof.
  unfold snapshot_is_active. rewrite !bool_decide_eq_true. destruct update as [|phase|usage|]; cbn; intros Hu Ha; split; try done.
  - set_solver.
  - set_solver.
Qed.

Lemma workers_split (before after : list Operation) operation :
  NoDup (op_entry <$> before ++ operation :: after) →
  NoDup (op_entry <$> before ++ after) ∧
  (∀ o, o ∈ before ++ after → op_entry o ≠ op_entry operation) ∧
  (∀ o, op_entry o ≠ op_entry operation → o ∈ before ++ operation :: after ↔ o ∈ before ++ after).
Proof.
  rewrite !fmap_app, fmap_cons. intros H. rewrite <-Permutation_middle in H. apply NoDup_cons in H as [Hn H].
  split_and!; [done| |].
  - intros o Ho E. apply Hn. rewrite <-fmap_app. apply list_elem_of_fmap. by exists o.
  - intros o Ho. rewrite <-Permutation_middle, elem_of_cons. naive_solver.
Qed.

(** A catalog without a running worker has no worker. *)
Lemma idle_no_worker s key : system_ok s → es_run (default empty_entry (rg_entries (ry_registry s) !! key)) = None →
  ∀ o, o ∈ ry_workers s → op_entry o ≠ key.
Proof.
  intros HS Hrun o Ho <-. destruct (worker_owns s o HS Ho) as (state & Hst & Hr). rewrite Hst in Hrun. cbn in Hrun. congruence.
Qed.

Lemma started_ok next workers request key id :
  (∀ o, o ∈ workers → op_entry o ≠ key) → request = Some id →
  registration_ok (S next) ({| op_entry := key; op_token := next |} :: workers) request key
    {| es_snapshot := with_phase Queued (for_operation id snapshot_idle); es_run := Some next;
       es_pending_operation_id := None; es_active_control := None |}.
Proof.
  intros Hw ->. split; cbn; try done.
  - intros token. rewrite elem_of_cons. split; [intros [= <-]; by left|]. intros [[= ->]|H]; [done|]. by apply Hw in H.
  - intros token [= <-]. lia.
Qed.

Lemma schedule_ok s key id replace snapshot worker r' :
  system_ok s → registry_admit key id replace (ry_registry s) = (snapshot, worker, r') →
  system_ok {| ry_registry := r'; ry_workers := option_list worker ++ ry_workers s;
    ry_requests := if replace || bool_decide (is_Some worker) then <[key := id]> (ry_requests s) else ry_requests s |}.
Proof.
  intros HS H. unfold registry_admit in H. pose proof (idle_no_worker s key HS) as Hidle.
  set (state := default empty_entry (rg_entries (ry_registry s) !! key)) in *.
  destruct (es_run state) as [run|] eqn:Hrun.
  - injection H as <- <- <-. assert (rg_entries (ry_registry s) !! key = Some state) as Hst.
    { unfold state in *. by destruct (rg_entries (ry_registry s) !! key). }
    pose proof (so_entries _ HS key state Hst) as [E1 E2 E3 E4 E5 E6]. cbn. rewrite orb_false_r.
    eapply system_ok_set; [exact HS|apply insert_insert_eq|done|done|done| |apply HS|]; cbn.
    + intros k Hk. destruct replace; [|done]. by rewrite lookup_insert_ne.
    + destruct replace; cbn; [|done]. rewrite lookup_insert_eq, <-Hrun. by split.
  - specialize (Hidle eq_refl). assert (es_pending_operation_id state = None) as Hp.
    { unfold state in *. destruct (rg_entries (ry_registry s) !! key) as [st|] eqn:Hst; [|done]. cbn in *.
      pose proof (eo_pending _ _ _ _ _ (so_entries _ HS key st Hst)) as E3. destruct (es_pending_operation_id st); [|done].
      rewrite Hrun in E3. destruct E3 as [? ?]; [by eexists|done]. }
    destruct (_ || replace) eqn:Hgo.
    + injection H as <- <- <-. cbn. rewrite Hp, orb_true_r.
      eapply system_ok_set; [exact HS|apply insert_insert_eq|cbn; lia|done| | |cbn|]; cbn.
      * intros o Ho. rewrite elem_of_cons. split; [|by right]. intros [->|]; [done|done].
      * intros k Hk. by rewrite lookup_insert_ne.
      * apply NoDup_cons. split; [|apply HS]. rewrite list_elem_of_fmap. intros (o & -> & Ho). by apply (Hidle o).
      * apply started_ok; [done|]. by rewrite lookup_insert_eq.
    + apply orb_false_iff in Hgo as [Hnew ->]. injection H as <- <- <-. apply negb_false_iff, bool_decide_eq_true in Hnew as [st Hst].
      assert (state = st) as -> by (unfold state; by rewrite Hst). cbn.
      eapply system_ok_set; [exact HS|done|done|done|done|done|apply HS|]. cbn. by apply HS.
Qed.

Lemma update_ok s operation update :
  system_ok s → operation ∈ ry_workers s → working_update update →
  system_ok {| ry_registry := operation_update operation update (ry_registry s); ry_workers := ry_workers s;
               ry_requests := ry_requests s |}.
Proof.
  intros HS Ho Hu. destruct (worker_owns s operation HS Ho) as (state & Hst & Hrun). unfold operation_update.
  rewrite Hst, (proj2 (owns_true _ _) Hrun). pose proof (so_entries _ HS _ _ Hst) as [E1 E2 E3 E4 E5 E6].
  destruct (apply_update_kept update (es_snapshot state) Hu) as [U1 U2]; [apply E2; by eexists|].
  eapply system_ok_set; [exact HS|done|done|done|done|done|apply HS|]. split; cbn; try done. by rewrite U1.
Qed.

Lemma control_ok s operation control r' :
  system_ok s → operation ∈ ry_workers s → (∀ c, control = Some c → mc_token c = op_token operation) →
  (rg_next (ry_registry s) ≤ rg_next r')%nat → rg_cancelled r' = rg_cancelled (ry_registry s) →
  (∀ state, rg_entries (ry_registry s) !! op_entry operation = Some state →
     rg_entries r' = <[op_entry operation := with_control control state]> (rg_entries (ry_registry s))) →
  system_ok {| ry_registry := r'; ry_workers := ry_workers s; ry_requests := ry_requests s |}.
Proof.
  intros HS Ho Hc Hn Hcan He. destruct (worker_owns s operation HS Ho) as (state & Hst & Hrun).
  pose proof (so_entries _ HS _ _ Hst) as Hok. eapply system_ok_set; [exact HS|by apply He|done|done|done|done|apply HS|].
  apply (entry_ok_next _ _ _ _ _ _ Hn). destruct Hok as [E1 E2 E3 E4 E5 E6]. split; cbn; try done.
  intros c Hc'. by rewrite Hrun, (Hc c Hc').
Qed.

(** The worker gives its catalog up with an inactive snapshot. *)
Lemma release_ok r before after requests operation state snapshot :
  system_ok {| ry_registry := r; ry_workers := before ++ operation :: after; ry_requests := requests |} →
  rg_entries r !! op_entry operation = Some state → snapshot_is_active snapshot = false →
  cs_operation_id snapshot =
    match es_pending_operation_id state with Some id => Some id | None => cs_operation_id (es_snapshot state) end →
  system_ok {| ry_registry := set_entry (op_entry operation) {| es_snapshot := snapshot; es_run := None;
                 es_pending_operation_id := None; es_active_control := None |} r;
               ry_workers := before ++ after; ry_requests := requests |}.
Proof.
  intros HS Hst Ha Hid. destruct (workers_split before after operation) as (Hnd & Hne & Hw); [apply HS|].
  pose proof (so_entries _ HS _ _ Hst) as [E1 E2 E3 E4 E5 E6]. cbn in *.
  eapply system_ok_set; [exact HS|done|done|done| |done|done|]; cbn.
  - intros o Ho. symmetry. by apply Hw.
  - split; cbn; try done.
    + intros token. split; [done|]. intros H. by apply Hne in H.
    + rewrite Ha. split; [done|]. by intros [? ?].
    + by rewrite E5, Hid.
Qed.

Lemma finish_ok operation result next r before after requests r' :
  system_ok {| ry_registry := r; ry_workers := before ++ operation :: after; ry_requests := requests |} →
  operation_finish operation result r = (Ok next, r') →
  system_ok {| ry_registry := r'; ry_workers := before ++ option_list next ++ after; ry_requests := requests |}.
Proof.
  intros HS H. destruct (worker_owns _ operation HS) as (state & Hst & Hrun); [cbn; set_solver|]. cbn in Hst.
  unfold operation_finish in H. rewrite Hst, (proj2 (owns_true _ _) Hrun) in H.
  destruct (es_pending_operation_id state) as [id|] eqn:Hp.
  - injection H as <- <-. destruct (workers_split before after operation) as (Hnd & Hne & Hw); [apply HS|].
    pose proof (so_entries _ HS _ _ Hst) as [E1 E2 E3 E4 E5 E6]. cbn in *.
    set (new := {| op_entry := op_entry operation; op_token := rg_next r |}).
    assert (∀ l : list Operation, l = before ++ new :: after → l ≡ₚ new :: before ++ after) as Hperm.
    { intros l ->. by rewrite <-Permutation_middle. }
    eapply system_ok_set; [exact HS|done|cbn; lia|done| |done| |]; cbn.
    + intros o Ho. rewrite (Hperm _ eq_refl), Hw, elem_of_cons by done. split; [|by right]. intros [->|]; done.
    + rewrite (Hperm _ eq_refl). cbn. apply NoDup_cons. split; [|done]. rewrite list_elem_of_fmap. intros (o & E & Ho).
      by apply (Hne o Ho).
    + rewrite E5, Hp. pose proof (started_ok (rg_next r) (before ++ after) (Some id) (op_entry operation) id Hne eq_refl)
        as [F1 F2 F3 F4 F5 F6]. split; try done. intros token. rewrite F1. by rewrite (Hperm _ eq_refl).
  - injection H as <- <-. cbn. apply (release_ok r before after requests operation state); [done|done| |rewrite Hp].
    + by destruct result as [[]|].
    + by destruct result as [[]|].
Qed.

Lemma unavailable_ok operation error r before after requests :
  system_ok {| ry_registry := r; ry_workers := before ++ operation :: after; ry_requests := requests |} →
  system_ok {| ry_registry := worker_unavailable operation error r; ry_workers := before ++ after; ry_requests := requests |}.
Proof.
  intros HS. destruct (worker_owns _ operation HS) as (state & Hst & Hrun); [cbn; set_solver|]. cbn in Hst.
  unfold worker_unavailable. rewrite Hst, (proj2 (owns_true _ _) Hrun).
  apply (release_ok r before after requests operation state); [done|done|done|]. by destruct (es_pending_operation_id state).
Qed.

(** A worker is never superseded. *)
Lemma finish_succeeds s operation result : system_ok s → operation ∈ ry_workers s →
  ∃ next r', operation_finish operation result (ry_registry s) = (Ok next, r').
Proof.
  intros HS Ho. destruct (worker_owns s operation HS Ho) as (state & Hst & Hrun). unfold operation_finish.
  rewrite Hst, (proj2 (owns_true _ _) Hrun). destruct (es_pending_operation_id state); by eexists _, _.
Qed.

Lemma running_operation_Some id states run control :
  running_operation id states = Some (run, control) → ∃ state, state ∈ states ∧ es_run state = Some run ∧
    es_active_control state = control ∧ cs_operation_id (es_snapshot state) = Some id.
Proof.
  intros H%head_Some_elem_of. apply list_elem_of_omap in H as (state & Hst & H). exists state.
  case_bool_decide; [|done]. destruct (es_run state); naive_solver.
Qed.

Lemma cancel_token_ok s token : system_ok s → (token < rg_next (ry_registry s))%nat →
  system_ok {| ry_registry := cancel_token token (ry_registry s); ry_workers := ry_workers s; ry_requests := ry_requests s |}.
Proof. intros [S1 S2 S3 S4 S5] Ht. split; cbn; try done. set_solver. Qed.

Lemma cancel_ok s values id found r' :
  system_ok s → values ≡ₚ (map_to_list (rg_entries (ry_registry s))).*2 →
  registry_cancel values id (ry_registry s) = (found, r') →
  system_ok {| ry_registry := r'; ry_workers := ry_workers s; ry_requests := ry_requests s |}.
Proof.
  intros HS Hv H. unfold registry_cancel in H. destruct (running_operation id values) as [[run control]|] eqn:E;
    [|injection H as _ <-; by destruct s]. injection H as _ <-.
  apply running_operation_Some in E as (state & Hin & Hrun & Hc & _). rewrite Hv in Hin.
  apply list_elem_of_fmap in Hin as ([key st] & -> & Hin%elem_of_map_to_list).
  pose proof (so_entries _ HS _ _ Hin) as [E1 E2 E3 E4 E5 E6]. pose proof (E6 run Hrun) as Hlt. cbn in *.
  pose proof (cancel_token_ok s run HS Hlt) as HS1. destruct control as [control|]; [|done].
  apply (cancel_token_ok _ (mc_token control) HS1). cbn. specialize (E4 control Hc). apply E6. congruence.
Qed.

Lemma system_step_ok s s' : system_step s s' → system_ok s → system_ok s'.
Proof.
  intros [key id replace snapshot worker r workers requests r' H|operation update r workers requests Ho Hu
    |operation control r workers requests r' Ho H|operation r workers requests Ho
    |operation result next r before after requests r' H|operation result error r before after requests r' H
    |operation error r before after requests|values id found r workers requests r' Hv H|key r workers requests] HS.
  - exact (schedule_ok _ _ _ _ _ _ _ HS H).
  - exact (update_ok _ _ _ HS Ho Hu).
  - pose proof Ho as Ho'. apply (worker_owns _ _ HS) in Ho' as (state & Hst & Hrun). cbn in Hst. unfold begin_attempt in H.
    rewrite Hst, (proj2 (owns_true _ _) Hrun) in H. injection H as <- <-.
    eapply (control_ok _ operation (Some {| mc_token := op_token operation; mc_preempted := rg_next r |}) _ HS); [done| |cbn; lia|done|cbn].
    + by intros c [= <-].
    + intros st Hst'. by simplify_eq.
  - pose proof Ho as Ho'. apply (worker_owns _ _ HS) in Ho' as (state & Hst & Hrun). cbn in Hst. unfold finish_attempt.
    rewrite Hst, (proj2 (owns_true _ _) Hrun). eapply (control_ok _ operation None _ HS); [done|done|done|done|cbn].
    intros st Hst'. by simplify_eq.
  - by eapply finish_ok.
  - exfalso. destruct (finish_succeeds _ operation result HS) as (next & r0 & E); [cbn; set_solver|]. cbn in E. congruence.
  - by apply unavailable_ok.
  - exact (cancel_ok _ _ _ _ _ HS Hv H).
  - unfold registry_preempt. destruct (_ ≫= es_active_control); [|done]. by destruct HS as [S1 S2 S3 S4 S5].
Qed.

Lemma system_run_ok s : rtc system_step system_default s → system_ok s.
Proof.
  assert (∀ s0, rtc system_step s0 s → system_ok s0 → system_ok s) as Hrun.
  { induction 1 as [|x y z Hs _ IH]; [done|]. intros HI. apply IH. by eapply system_step_ok. }
  intros H. apply (Hrun _ H). split; cbn.
  - intros key state Hst. by apply lookup_empty_Some in Hst.
  - intros o Ho. by apply not_elem_of_nil in Ho.
  - intros key [? Hk]. by apply lookup_empty_Some in Hk.
  - constructor.
  - intros token Ht. set_solver.
Qed.

Lemma inactive_terminal s : snapshot_is_active s = false → cs_phase s ∈ [Idle; Completed; Cancelled; Failed].
Proof.
  unfold snapshot_is_active. rewrite bool_decide_eq_false, !elem_of_cons. destruct (cs_phase s); tauto.
Qed.

(** C18: However threads interleave, at most one worker runs for a catalog; it is the one its registry entry names, the
    catalog is displayed as active exactly while it runs, and finishing it never fails as superseded.  No request is
    lost: the last one accepted for a catalog waits for the worker that runs, or is the operation displayed; it waits
    only while a worker runs, and once none does it is the one displayed as completed, cancelled or failed. *)
Theorem reclamation_serialized s :
  rtc system_step system_default s →
  NoDup (op_entry <$> ry_workers s) ∧
  (∀ key state, rg_entries (ry_registry s) !! key = Some state →
     (∀ token, es_run state = Some token ↔ {| op_entry := key; op_token := token |} ∈ ry_workers s) ∧
     (snapshot_is_active (es_snapshot state) = true ↔ is_Some (es_run state)) ∧
     (is_Some (es_pending_operation_id state) → is_Some (es_run state)) ∧
     (∀ id, ry_requests s !! key = Some id →
        es_pending_operation_id state = Some id ∨ cs_operation_id (es_snapshot state) = Some id) ∧
     (es_run state = None → cs_operation_id (es_snapshot state) = ry_requests s !! key ∧
        cs_phase (es_snapshot state) ∈ [Idle; Completed; Cancelled; Failed])) ∧
  (∀ operation result, operation ∈ ry_workers s →
     ∃ next r', operation_finish operation result (ry_registry s) = (Ok next, r')).
Proof.
  intros HS%system_run_ok. split_and!; [apply HS| |].
  - intros key state Hst. destruct (so_entries _ HS _ _ Hst) as [E1 E2 E3 E4 E5 E6]. split_and!; [done..| |].
    + intros id Hid. rewrite E5 in Hid. destruct (es_pending_operation_id state); [by left|by right].
    + intros Hr. rewrite Hr in E2, E3. split.
      * rewrite E5. destruct (es_pending_operation_id state); [|done]. destruct E3 as [? ?]; [by eexists|done].
      * apply inactive_terminal, not_true_iff_false. rewrite E2. by intros [].
  - intros operation result Ho. by apply finish_succeeds.
Qed.

(** Two requests for a catalog: the worker of the first goes on with the second. *)
Definition example_admitted (id : str) (r : CatalogReclamationRegistry) : CatalogReclamationRegistry :=
  (registry_admit (lit "catalog") id true r).2.

Definition example_worker (token : Token) : Operation := {| op_entry := lit "catalog"; op_token := token |}.

Definition example_waiting : CatalogReclamationRegistry :=
  example_admitted (lit "second") (example_admitted (lit "first") registry_default).

Definition example_going_on : ReclamationSystem :=
  {| ry_registry := (operation_finish (example_worker 0%nat) (Ok RunCompleted) example_waiting).2;
     ry_workers := [example_worker 1%nat]; ry_requests := {[lit "catalog" := lit "second"]} |}.

Lemma example_going_on_run : rtc system_step system_default example_going_on.
Proof.
  eapply rtc_l; [eapply (step_schedule (lit "catalog") (lit "first") true); vm_compute; reflexivity|].
  eapply rtc_l; [eapply (step_schedule (lit "catalog") (lit "second") true); vm_compute; reflexivity|].
  eapply rtc_l; [eapply (step_run_finished (example_worker 0%nat) (Ok RunCompleted) _ _ []); vm_compute; reflexivity|].
  vm_compute. apply rtc_refl.
Qed.

Lemma reclamation_serialized_witness :
  ∃ state, rg_entries (ry_registry example_going_on) !! lit "catalog" = Some state ∧ es_run state = Some 1%nat ∧
    cs_operation_id (es_snapshot state) = Some (lit "second").
Proof.
  destruct (reclamation_serialized example_going_on example_going_on_run) as (_ & H & _).
  destruct (rg_entries (ry_registry example_going_on) !! lit "catalog") as [state|] eqn:E; [|vm_compute in E; discriminate].
  exists state. destruct (H (lit "catalog") state E) as (Hrun & _ & _ & Hreq & _).
  assert (es_run state = Some 1%nat) as Hr by (apply Hrun; apply list_elem_of_singleton; reflexivity).
  split; [reflexivity|]. split; [exact Hr|]. destruct (Hreq (lit "second")) as [Hp|Hi]; [vm_compute; reflexivity| |exact Hi].
  exfalso. vm_compute in E. injection E as <-. discriminate.
Defined.

(** ** Thresholds *)

(** A catalog that has been brought down to its target is not reclaimed again at once: when reclamation starts, there are
    at least twice the bytes and four times the fraction of the target to reclaim. *)
Lemma reclamation_hysteresis usage :
  0 ≤ su_page_size usage → 0 ≤ su_page_count usage → 0 ≤ su_freelist_count usage →
  should_start_reclamation usage = true →
  reclamation_target_reached usage = false ∧ 2 * TARGET_BYTES ≤ reclaimable_bytes usage ≤ U64_MAX ∧
  4 * TARGET_PERCENT * su_page_count usage ≤ 100 * su_freelist_count usage.
Proof.
  intros H1 H2 H3 Hs. unfold should_start_reclamation in Hs. unfold reclamation_target_reached.
  assert (reclaimable_bytes usage ≤ U64_MAX) as Hmax by (unfold reclaimable_bytes, saturating_mul; lia).
  assert (INCREMENTAL_START_BYTES ≤ reclaimable_bytes usage ∧ su_page_count usage ≠ 0 ∧
    su_page_count usage * INCREMENTAL_START_PERCENT ≤ su_freelist_count usage * 100) as (Hb & Hp & Hf).
  { unfold INCREMENTAL_START_BYTES, INCREMENTAL_START_PERCENT, CONVERSION_START_BYTES, CONVERSION_START_PERCENT in *.
    destruct (su_auto_vacuum usage); rewrite !andb_true_iff, negb_true_iff, Z.eqb_neq, !Z.leb_le in Hs; lia. }
  unfold INCREMENTAL_START_BYTES, INCREMENTAL_START_PERCENT, TARGET_BYTES, TARGET_PERCENT in *.
  split; [|lia]. rewrite !orb_false_iff, andb_false_iff, negb_false_iff, Z.eqb_neq, Z.leb_gt. split; [split|]; [|lia|right; lia].
  intros E. unfold reclaimable_bytes, saturating_mul in Hb. rewrite E in Hb. lia.
Qed.
