(* ===== verification/Classification.v ===== *)
(** * Classification decisions

    Models what a person decides about the category of an image group: [domain/classification/decisions.rs] and
    [decision_policy.rs], and how decisions are stored, read and undone: [decisions] of
    [adapters/sqlite_catalog/classification/observations.rs], [codec.rs], [writes.rs], [operations.rs] and [undo.rs].

    The tables of decisions and of operations are finite maps; statements do not fail for other reasons than their
    constraints.  What other tables say is given as values: the records of a group, whether materializing a
    group merged it, the current prediction, the groups of a record and whether a location of a record is
    current, and the digest of a request.  Choices are stored as JSON; [serde_json], [json_extract] and BLAKE3 are
    parameters.

    An invariant follows an operation through its groups ([tracks]): its changes remember what the rows were before,
    and fields without a change are as they were; from it an undo gives the rows back ([restores]). *)

From S2P Require Import Prelude Text Numerals JournalText QueueStore QueueView SimilarImages.

(** ** Decisions *)

Definition ClassificationRevision := bytes.
Definition CategoryId := str.
Definition ClassificationRecordId := str.

Record ClassificationContent := {
  cc_scheme : ClassificationRecordId;
  cc_digest : bytes;
  cc_byte_length : Z;
}.

#[export] Instance ClassificationContent_eq_dec : EqDecision ClassificationContent.
Proof. solve_decision. Defined.

Record PredictionReference := {
  pr_prediction_id : ClassificationRecordId;
  pr_run_id : ClassificationRecordId;
  pr_configuration : ClassificationRevision;
  pr_primary_rules : ClassificationRevision;
  pr_content : ClassificationContent;
  pr_category : CategoryId;
}.

#[export] Instance PredictionReference_eq_dec : EqDecision PredictionReference.
Proof. solve_decision. Defined.

Inductive ReviewRecommendation := Uncalibrated | LowSeparation | RoutineSampling.

#[export] Instance ReviewRecommendation_eq_dec : EqDecision ReviewRecommendation.
Proof. solve_decision. Defined.

Record ClassificationProposal := {
  cp_evidence : PredictionReference;
  cp_review : ReviewRecommendation;
}.

#[export] Instance ClassificationProposal_eq_dec : EqDecision ClassificationProposal.
Proof. solve_decision. Defined.

Inductive HumanCategoryChoice :=
| ChoiceConfirmed (evidence : PredictionReference)
| ChoiceCorrected (category : CategoryId) (rules : ClassificationRevision).

#[export] Instance HumanCategoryChoice_eq_dec : EqDecision HumanCategoryChoice.
Proof. solve_decision. Defined.

Definition choice_category (self : HumanCategoryChoice) : CategoryId :=
  match self with
  | ChoiceConfirmed evidence => pr_category evidence
  | ChoiceCorrected category _ => category
  end.

Inductive HumanDecisionOrigin := Local | Restored.

#[export] Instance HumanDecisionOrigin_eq_dec : EqDecision HumanDecisionOrigin.
Proof. solve_decision. Defined.

Inductive HumanClassification :=
| Unreviewed
| Chosen (category : CategoryId) (origin : HumanDecisionOrigin)
| Conflict.

#[export] Instance HumanClassification_eq_dec : EqDecision HumanClassification.
Proof. solve_decision. Defined.

Inductive ChoiceAgreement :=
| AgreementUnreviewed
| AgreementChosen (category : CategoryId)
| AgreementConflict.

Definition agreement_include (self : ChoiceAgreement) (category : CategoryId) : ChoiceAgreement :=
  match self with
  | AgreementUnreviewed => AgreementChosen category
  | AgreementChosen previous => if bool_decide (previous = category) then self else AgreementConflict
  | AgreementConflict => self
  end.

Definition agreement_resolve (self : ChoiceAgreement) (origin : HumanDecisionOrigin) : HumanClassification :=
  match self with
  | AgreementUnreviewed => Unreviewed
  | AgreementChosen category => Chosen category origin
  | AgreementConflict => Conflict
  end.

Record HumanClassificationConsensus := {
  hc_local : ChoiceAgreement;
  hc_restored : ChoiceAgreement;
}.

Definition consensus_default : HumanClassificationConsensus :=
  {| hc_local := AgreementUnreviewed; hc_restored := AgreementUnreviewed |}.

Definition consensus_include (self : HumanClassificationConsensus) (choice : HumanCategoryChoice)
    (origin : HumanDecisionOrigin) : HumanClassificationConsensus :=
  match origin with
  | Local => {| hc_local := agreement_include (hc_local self) (choice_category choice); hc_restored := hc_restored self |}
  | Restored => {| hc_local := hc_local self; hc_restored := agreement_include (hc_restored self) (choice_category choice) |}
  end.

Definition consensus_resolve (self : HumanClassificationConsensus) : HumanClassification :=
  match hc_local self with
  | AgreementUnreviewed => agreement_resolve (hc_restored self) Restored
  | local => agreement_resolve local Local
  end.

Inductive ClassificationSubject :=
| SubjectExact (content : ClassificationContent)
| SubjectProvisional (asset_id : str) (source_generation : Z).

#[export] Instance ClassificationSubject_eq_dec : EqDecision ClassificationSubject.
Proof. solve_decision. Defined.

Record ClassificationTarget := {
  tg_subject : ClassificationSubject;
  tg_membership : ClassificationRevision;
}.

#[export] Instance ClassificationTarget_eq_dec : EqDecision ClassificationTarget.
Proof. solve_decision. Defined.

Record ClassificationFieldAuthority := {
  fa_category : ClassificationRevision;
  fa_review : ClassificationRevision;
}.

#[export] Instance ClassificationFieldAuthority_eq_dec : EqDecision ClassificationFieldAuthority.
Proof. solve_decision. Defined.

Record ClassificationObservation := {
  ob_target : ClassificationTarget;
  ob_authority : ClassificationFieldAuthority;
  ob_rules : ClassificationRevision;
  ob_configuration : option ClassificationRevision;
  ob_human : HumanClassification;
  ob_deferred : bool;
  ob_prediction : option ClassificationProposal;
}.

Definition compatible_prediction (self : ClassificationObservation) : option ClassificationProposal :=
  prediction ← ob_prediction self;
  let evidence := cp_evidence prediction in
  if negb (bool_decide (ob_configuration self = Some (pr_configuration evidence)))
     || negb (bool_decide (ob_rules self = pr_primary_rules evidence)) then None
  else
    match tg_subject (ob_target self) with
    | SubjectExact content => if bool_decide (content = pr_content evidence) then Some prediction else None
    | SubjectProvisional _ _ => None
    end.

Inductive ClassificationReview := Unclassified | Suggested | NeedsReview | ReviewDeferred | Confirmed | ReviewConflict.

Record EffectiveClassification := {
  ef_category : option CategoryId;
  ef_review : ClassificationReview;
}.

Definition effective (self : ClassificationObservation) : EffectiveClassification :=
  match ob_human self with
  | Chosen category _ => {| ef_category := Some category; ef_review := Confirmed |}
  | Conflict => {| ef_category := None; ef_review := ReviewConflict |}
  | Unreviewed =>
    let prediction := compatible_prediction self in
    let review :=
      if ob_deferred self then ReviewDeferred
      else
        match cp_review <$> prediction with
        | None => Unclassified
        | Some RoutineSampling => Suggested
        | Some (Uncalibrated | LowSeparation) => NeedsReview
        end in
    {| ef_category := (λ value, pr_category (cp_evidence value)) <$> prediction; ef_review := review |}
  end.

Inductive ClassificationAction := ActionConfirm | ActionCorrect (category : CategoryId) | ActionDefer.

Inductive ClassificationChange := ChangeChoose (choice : HumanCategoryChoice) | ChangeDefer | ChangeUnchanged.

#[export] Instance ClassificationChange_eq_dec : EqDecision ClassificationChange.
Proof. solve_decision. Defined.

(** ** Planning a change *)

(** The errors of a plan. *)
Inductive ClassificationError :=
| ClassificationTargetChanged
| ClassificationRulesChanged
| ClassificationPredictionChanged
| NoCompatiblePrediction
| ClassificationConflictUnresolved
| HumanChoiceRequiresCorrection
| CategoryRetired.

(** What a plan reads of the active scheme: the identifiers of its categories, and its revision. *)
Record Taxonomy := {
  tx_categories : list CategoryId;
  tx_revision : ClassificationRevision;
}.

Definition require_current_rules (observed current : ClassificationObservation) (taxonomy : Taxonomy)
    : Result ClassificationError unit :=
  if negb (bool_decide (ob_rules observed = ob_rules current)) || negb (bool_decide (ob_rules current = tx_revision taxonomy))
  then Err ClassificationRulesChanged else Ok ().

Definition require_category (taxonomy : Taxonomy) (category : CategoryId) : Result ClassificationError unit :=
  if existsb (λ id, bool_decide (id = category)) (tx_categories taxonomy) then Ok () else Err CategoryRetired.

Definition confirm_prediction (observed current : ClassificationObservation) (taxonomy : Taxonomy)
    : Result ClassificationError ClassificationChange :=
  if bool_decide (ob_human current = Conflict) then Err ClassificationConflictUnresolved
  else
    displayed ← ok_or (compatible_prediction observed) NoCompatiblePrediction;
    available ← ok_or (compatible_prediction current) NoCompatiblePrediction;
    if negb (bool_decide (displayed = available)) then Err ClassificationPredictionChanged
    else
      require_category taxonomy (pr_category (cp_evidence available));;
      let choose := Ok (ChangeChoose (ChoiceConfirmed (cp_evidence available))) in
      match ob_human current with
      | Chosen category origin =>
        if negb (bool_decide (category = pr_category (cp_evidence available))) then Err HumanChoiceRequiresCorrection
        else if bool_decide (origin = Local) then Ok ChangeUnchanged else choose
      | _ => choose
      end.

Definition plan_classification_change (observed current : ClassificationObservation) (action : ClassificationAction)
    (taxonomy : Taxonomy) : Result ClassificationError ClassificationChange :=
  if negb (bool_decide (ob_target observed = ob_target current))
     || negb (bool_decide (ob_authority observed = ob_authority current)) then Err ClassificationTargetChanged
  else
    match action with
    | ActionConfirm => require_current_rules observed current taxonomy;; confirm_prediction observed current taxonomy
    | ActionCorrect category =>
      require_current_rules observed current taxonomy;;
      require_category taxonomy category;;
      if bool_decide (ob_human current = Chosen category Local) && negb (ob_deferred current) then Ok ChangeUnchanged
      else Ok (ChangeChoose (ChoiceCorrected category (tx_revision taxonomy)))
    | ActionDefer =>
      if ob_deferred current || match ob_human current with Chosen _ _ => true | _ => false end then Ok ChangeUnchanged
      else Ok ChangeDefer
    end.

(** ** Stored decisions *)

Record DecisionRow := {
  dr_category_id : option str;
  dr_choice : option str;
  dr_choice_revision : Z;
  dr_choice_restored : bool;
  dr_deferred : bool;
  dr_review_revision : Z;
  dr_review_restored : bool;
}.

Inductive ChangeField := FieldCategory | FieldReview.

#[export] Instance ChangeField_eq_dec : EqDecision ChangeField.
Proof. solve_decision. Defined.
#[export] Instance ChangeField_countable : Countable ChangeField.
Proof.
  apply (inj_countable' (λ f, match f with FieldCategory => true | FieldReview => false end)
    (λ b, if b : bool then FieldCategory else FieldReview)). by intros [].
Defined.

Record ChangeRow := {
  ch_previous_payload : option str;
  ch_previous_revision : Z;
  ch_previous_restored : bool;
  ch_applied_revision : Z;
}.

Record OperationRow := {
  or_request_digest : str;
  or_operation_kind : str;
  or_revision : Z;
  or_changed_groups : Z;
  or_created_unix_ms : Z;
  or_restored : bool;
}.

Record ClassificationDb := {
  cd_decisions : gmap str DecisionRow;
  cd_operations : gmap str OperationRow;
  cd_changes : gmap (str * str * ChangeField) ChangeRow;  (** by operation, record and field *)
  cd_targets : gset (str * str * ChangeField);
  cd_revision : Z;  (** [classification_state] *)
  cd_catalog_revision : Z;  (** [catalog_state] *)
}.

Definition set_decisions rows db : ClassificationDb :=
  {| cd_decisions := rows; cd_operations := cd_operations db; cd_changes := cd_changes db; cd_targets := cd_targets db;
     cd_revision := cd_revision db; cd_catalog_revision := cd_catalog_revision db |}.
Definition set_changes rows db : ClassificationDb :=
  {| cd_decisions := cd_decisions db; cd_operations := cd_operations db; cd_changes := rows; cd_targets := cd_targets db;
     cd_revision := cd_revision db; cd_catalog_revision := cd_catalog_revision db |}.
Definition set_operations rows db : ClassificationDb :=
  {| cd_decisions := cd_decisions db; cd_operations := rows; cd_changes := cd_changes db; cd_targets := cd_targets db;
     cd_revision := cd_revision db; cd_catalog_revision := cd_catalog_revision db |}.
Definition set_published targets revision catalog_revision db : ClassificationDb :=
  {| cd_decisions := cd_decisions db; cd_operations := cd_operations db; cd_changes := cd_changes db; cd_targets := targets;
     cd_revision := revision; cd_catalog_revision := catalog_revision |}.

Definition classification_changed : ScanError :=
  ScanError_new "classification_changed" "Classification changed; refresh the current selection before saving".

Definition invalid_classification_record : ScanError :=
  ScanError_new "classification_record_invalid" "The saved classification record is incomplete or incompatible".

Definition undo_unavailable : ScanError :=
  ScanError_new "classification_undo_unavailable"
    "The affected classification or content changed; refresh before choosing another action".

(** ** The codec of choices *)

Definition identifier_byte (byte : Z) : bool := is_ascii_alphanumeric byte || bool_decide (byte ∈ [45; 95; 46]).

(** What [ClassificationRecordId::new] and [CategoryId::new] accept. *)
Definition record_id_valid (value : str) : bool :=
  negb (is_empty value || (128 <? str_len value) || negb (forallb identifier_byte (as_bytes value))).

Definition category_id_valid (value : str) : bool :=
  negb (is_empty value || (64 <? str_len value) || negb (forallb identifier_byte (as_bytes value))).

Definition choice_identifier (value : str) : ScanResult ClassificationRecordId :=
  if record_id_valid value then Ok value else Err invalid_classification_record.

Definition choice_category_id (value : str) : ScanResult CategoryId :=
  if category_id_valid value then Ok value else Err invalid_classification_record.

Record ContentRecord := {
  ct_scheme : str;
  ct_digest : bytes;
  ct_byte_length : Z;
}.

Definition content_record (value : ClassificationContent) : ContentRecord :=
  {| ct_scheme := cc_scheme value; ct_digest := cc_digest value; ct_byte_length := cc_byte_length value |}.

Definition content_admitted (self : ContentRecord) : ScanResult ClassificationContent :=
  fail_if (I64_MAX <? ct_byte_length self) invalid_classification_record;;
  scheme ← choice_identifier (ct_scheme self);
  Ok {| cc_scheme := scheme; cc_digest := ct_digest self; cc_byte_length := ct_byte_length self |}.

Inductive ChoiceRecord :=
| RecordConfirmed (prediction_id run_id : str) (configuration primary_rules : bytes) (content : ContentRecord) (category : str)
| RecordCorrected (category : str) (rules : bytes).

Record VersionedChoice := {
  vc_version : Z;
  vc_choice : ChoiceRecord;
}.

(** [serde_json] on the records of choices: the text of a record, and the record of a text. *)
Section Codec.
Context (to_json : VersionedChoice → option str) (from_json : str → option VersionedChoice).

Definition encode_choice (choice : HumanCategoryChoice) : ScanResult str :=
  let choice :=
    match choice with
    | ChoiceConfirmed reference =>
      RecordConfirmed (pr_prediction_id reference) (pr_run_id reference) (pr_configuration reference)
        (pr_primary_rules reference) (content_record (pr_content reference)) (pr_category reference)
    | ChoiceCorrected category rules => RecordCorrected category rules
    end in
  payload ← ok_or (to_json {| vc_version := 1; vc_choice := choice |}) invalid_classification_record;
  fail_if (4096 <? str_len payload) invalid_classification_record;;
  Ok payload.

Definition decode_choice (value : str) : ScanResult HumanCategoryChoice :=
  fail_if (4096 <? str_len value) invalid_classification_record;;
  record ← ok_or (from_json value) invalid_classification_record;
  fail_if (negb (vc_version record =? 1)) invalid_classification_record;;
  match vc_choice record with
  | RecordConfirmed prediction_id run_id configuration primary_rules content category =>
    prediction_id ← choice_identifier prediction_id;
    run_id ← choice_identifier run_id;
    content ← content_admitted content;
    category ← choice_category_id category;
    Ok (ChoiceConfirmed {| pr_prediction_id := prediction_id; pr_run_id := run_id; pr_configuration := configuration;
      pr_primary_rules := primary_rules; pr_content := content; pr_category := category |})
  | RecordCorrected category rules => category ← choice_category_id category; Ok (ChoiceCorrected category rules)
  end.
End Codec.

(** A plan's error as the caller gets it, with the text of the error. *)
Definition plan_error (error : ClassificationError) : ScanError :=
  ScanError_new "classification_changed"
    match error with
    | ClassificationTargetChanged => "The image group or its classification decision changed; refresh before saving"
    | ClassificationRulesChanged => "Category definitions changed; refresh before saving"
    | ClassificationPredictionChanged => "The displayed prediction changed; refresh before confirming"
    | NoCompatiblePrediction => "The selected group has no current compatible prediction to confirm"
    | ClassificationConflictUnresolved => "Choose a category to resolve the group's conflicting human decisions"
    | HumanChoiceRequiresCorrection => "Use an explicit category correction to replace the saved human choice"
    | CategoryRetired => "The selected category is no longer active"
    end.

Section Storage.
Context (derive_key : str → bytes → bytes).
Context (to_json : VersionedChoice → option str) (from_json : str → option VersionedChoice).
Context (payload_category : str → str).
Context (constraint_failed : ScanError).

(** [operations::field]: what is added to the digest. *)
Definition hashed_field (value : bytes) : bytes := le_bytes 8 (zlen value) ++ value.

Definition flag (b : bool) : Z := if b then 1 else 0.

(** What reading the rows of a group accumulates. *)
Record DecisionsRead := {
  rd_category_input : bytes;
  rd_review_input : bytes;
  rd_consensus : HumanClassificationConsensus;
  rd_local_review : option bool;
  rd_restored_deferred : bool;
}.

Definition read_decision (acc : DecisionsRead) (entry : str * DecisionRow) : ScanResult DecisionsRead :=
  let (record_id, row) := entry in
  let category_input :=
    if 0 <? dr_choice_revision row then
      rd_category_input acc ++ hashed_field (as_bytes record_id) ++ hashed_field (le_bytes 8 (dr_choice_revision row))
      ++ hashed_field [flag (dr_choice_restored row)] ++ hashed_field (as_bytes (default [] (dr_choice row)))
    else rd_category_input acc in
  consensus ← match dr_choice row with
              | Some choice =>
                choice ← decode_choice from_json choice;
                Ok (consensus_include (rd_consensus acc) choice (if dr_choice_restored row then Restored else Local))
              | None => Ok (rd_consensus acc)
              end;
  let reviewed := 0 <? dr_review_revision row in
  Ok {| rd_category_input := category_input;
        rd_review_input :=
          if reviewed then
            rd_review_input acc ++ hashed_field (as_bytes record_id) ++ hashed_field (le_bytes 8 (dr_review_revision row))
            ++ hashed_field [flag (dr_review_restored row); flag (dr_deferred row)]
          else rd_review_input acc;
        rd_consensus := consensus;
        rd_local_review :=
          if reviewed && negb (dr_review_restored row)
          then Some (default false (rd_local_review acc) || dr_deferred row) else rd_local_review acc;
        rd_restored_deferred :=
          if reviewed && dr_review_restored row then rd_restored_deferred acc || dr_deferred row
          else rd_restored_deferred acc |}.

Definition read_nothing : DecisionsRead :=
  {| rd_category_input := []; rd_review_input := []; rd_consensus := consensus_default; rd_local_review := None;
     rd_restored_deferred := false |}.

(** The rows of the records of a group, in the order of the records. *)
Definition decision_rows (records : list str) (db : ClassificationDb) : list (str * DecisionRow) :=
  omap (λ record, pair record <$> cd_decisions db !! record) records.

Definition decisions (records : list str) (db : ClassificationDb)
    : ScanResult (ClassificationFieldAuthority * HumanClassification * bool) :=
  read ← result_foldl read_decision read_nothing (decision_rows records db);
  Ok ({| fa_category := derive_key (lit "ame.classification.category.authority.v1") (rd_category_input read);
         fa_review := derive_key (lit "ame.classification.review.authority.v1") (rd_review_input read) |},
      consensus_resolve (rd_consensus read), default (rd_restored_deferred read) (rd_local_review read)).

(** *** Operations *)

Record ClassificationWriteReceipt := {
  wc_operation_id : str;
  wc_revision : Z;
  wc_changed_groups : Z;
}.

Definition operation_replay (id digest : str) (db : ClassificationDb) : ScanResult (option ClassificationWriteReceipt) :=
  match cd_operations db !! id with
  | None => Ok None
  | Some saved =>
    if negb (bool_decide (or_request_digest saved = digest)) then
      Err (ScanError_new "classification_operation_conflict"
             "The operation identifier was already used for a different request")
    else Ok (Some {| wc_operation_id := id; wc_revision := or_revision saved; wc_changed_groups := or_changed_groups saved |})
  end.

Definition operation_begin (id digest kind : str) (now : Z) (db : ClassificationDb) : ScanResult (Z * ClassificationDb) :=
  revision ← ok_or (checked_add I64_MAX (cd_revision db) 1) invalid_classification_record;
  match cd_operations db !! id with
  | Some _ => Err constraint_failed
  | None =>
    Ok (revision, set_operations (<[id := {| or_request_digest := digest; or_operation_kind := kind;
      or_revision := revision - 1; or_changed_groups := 0; or_created_unix_ms := now; or_restored := false |}]>
      (cd_operations db)) db)
  end.

Definition operation_changes (id : str) (db : ClassificationDb) : gset (str * str * ChangeField) :=
  filter (λ key, key.1.1 = id) (dom (cd_changes db)).

Definition operation_end (id : str) (revision changed_groups : Z) (metadata_changed : bool) (db : ClassificationDb)
    : ScanResult (ClassificationWriteReceipt * ClassificationDb) :=
  let publishes := (0 <? changed_groups) || metadata_changed in
  next ← (if publishes then ok_or (checked_add I64_MAX (cd_catalog_revision db) 1) invalid_classification_record
          else Ok (cd_catalog_revision db));
  let published_revision := if publishes then revision else revision - 1 in
  let new_targets := operation_changes id db in
  if negb (bool_decide (new_targets ∩ cd_targets db = ∅)) then Err constraint_failed
  else
    changed ← sqlite_integer changed_groups "changed classification groups";
    let db := set_published (new_targets ∪ cd_targets db) (if publishes then revision else cd_revision db) next db in
    Ok ({| wc_operation_id := id; wc_revision := published_revision; wc_changed_groups := changed_groups |},
        set_operations (alter (λ row, {| or_request_digest := or_request_digest row;
          or_operation_kind := or_operation_kind row; or_revision := published_revision; or_changed_groups := changed;
          or_created_unix_ms := or_created_unix_ms row; or_restored := or_restored row |}) id (cd_operations db)) db).

(** *** Writing a change *)

Definition no_decision : DecisionRow :=
  {| dr_category_id := None; dr_choice := None; dr_choice_revision := 0; dr_choice_restored := false;
     dr_deferred := false; dr_review_revision := 0; dr_review_restored := false |}.

(** [INSERT OR IGNORE INTO classification_decisions ..] for the records of the group *)
Definition insert_missing (records : list str) (db : ClassificationDb) : ClassificationDb :=
  set_decisions (cd_decisions db ∪ list_to_map ((λ record, (record, no_decision)) <$> records)) db.

Definition review_payload (deferred : bool) : str := if deferred then lit "true" else lit "false".

(** The row that remembers a field of a decision. *)
Definition remembered (field : ChangeField) (revision : Z) (row : DecisionRow) : ChangeRow :=
  match field with
  | FieldCategory =>
    {| ch_previous_payload := dr_choice row; ch_previous_revision := dr_choice_revision row;
       ch_previous_restored := dr_choice_restored row; ch_applied_revision := revision |}
  | FieldReview =>
    {| ch_previous_payload := Some (review_payload (dr_deferred row)); ch_previous_revision := dr_review_revision row;
       ch_previous_restored := dr_review_restored row; ch_applied_revision := revision |}
  end.

(** Inserts rows; a key that is already there is a violation. *)
Definition insert_changes (rows : gmap (str * str * ChangeField) ChangeRow) (db : ClassificationDb)
    : ScanResult ClassificationDb :=
  if bool_decide (dom rows ∩ dom (cd_changes db) = ∅) then Ok (set_changes (rows ∪ cd_changes db) db) else Err constraint_failed.

Definition remember (id : str) (field : ChangeField) (revision : Z) (records : list str) (db : ClassificationDb)
    : ScanResult ClassificationDb :=
  insert_changes
    (list_to_map ((λ entry : str * DecisionRow, ((id, entry.1, field), remembered field revision entry.2)) <$>
       decision_rows records db)) db.

(** [UPDATE classification_decisions SET .. WHERE record_id IN (..)] *)
Definition update_decisions (f : DecisionRow → DecisionRow) (records : list str) (db : ClassificationDb)
    : ClassificationDb :=
  set_decisions (map_imap (λ record row, Some (if bool_decide (record ∈ records) then f row else row)) (cd_decisions db)) db.

Definition chosen_row (category choice : str) (revision : Z) (row : DecisionRow) : DecisionRow :=
  {| dr_category_id := Some category; dr_choice := Some choice; dr_choice_revision := revision;
     dr_choice_restored := false; dr_deferred := false; dr_review_revision := revision; dr_review_restored := false |}.

Definition deferral_row (revision : Z) (row : DecisionRow) : DecisionRow :=
  {| dr_category_id := dr_category_id row; dr_choice := dr_choice row; dr_choice_revision := dr_choice_revision row;
     dr_choice_restored := dr_choice_restored row; dr_deferred := true; dr_review_revision := revision;
     dr_review_restored := false |}.

(** [merged] and [records] are what materializing the group gives. *)
Definition apply_group (id : str) (revision : Z) (merged : bool) (records : list str) (change : ClassificationChange)
    (db : ClassificationDb) : ScanResult (bool * ClassificationDb) :=
  match change with
  | ChangeUnchanged => Ok (false, db)
  | _ =>
    if merged then Err classification_changed
    else
      let db := insert_missing records db in
      match change with
      | ChangeChoose choice =>
        db ← remember id FieldCategory revision records db;
        db ← remember id FieldReview revision records db;
        text ← encode_choice to_json choice;
        Ok (true, update_decisions (chosen_row (choice_category choice) text revision) records db)
      | ChangeDefer =>
        db ← remember id FieldReview revision records db;
        Ok (true, update_decisions (deferral_row revision) records db)
      | ChangeUnchanged => Ok (false, db)
      end
  end.

(** A group as it is now, with what materializing it gives. *)
Record CurrentGroup := {
  cg_observation : ClassificationObservation;
  cg_merged : bool;
  cg_records : list str;
}.

Definition apply_groups (id : str) (revision : Z) (groups : list (CurrentGroup * ClassificationChange))
    (db : ClassificationDb) : ScanResult (Z * ClassificationDb) :=
  result_foldl (λ '(changed_groups, db) '(group, change),
    '(changed, db) ← apply_group id revision (cg_merged group) (cg_records group) change db;
    Ok (changed_groups + flag changed, db)) (0, db) groups.

Definition classification_write (id digest : str) (prepared : list ClassificationObservation) (current : list CurrentGroup)
    (taxonomy : option Taxonomy) (action : ClassificationAction) (now : Z) (db : ClassificationDb)
    : ScanResult (ClassificationWriteReceipt * ClassificationDb) :=
  replayed ← operation_replay id digest db;
  match replayed with
  | Some receipt => Ok (receipt, db)
  | None =>
    fail_if (negb (length current =? length prepared)%nat) classification_changed;;
    taxonomy ← ok_or taxonomy classification_changed;
    plans ← result_map_list (λ '(observed, group), map_err plan_error
      (plan_classification_change observed (cg_observation group) action taxonomy)) (zip prepared current);
    let kind := match action with ActionDefer => lit "defer" | _ => lit "category" end in
    '(revision, db) ← operation_begin id digest kind now db;
    '(changed_groups, db) ← apply_groups id revision (zip current plans) db;
    operation_end id revision changed_groups false db
  end.

(** *** Undo *)

(** The rows that remember the present values of what [original] changed. *)
Definition undo_changes (id original : str) (revision : Z) (db : ClassificationDb)
    : gmap (str * str * ChangeField) ChangeRow :=
  list_to_map (omap (λ entry : str * str * ChangeField * ChangeRow,
    let '(operation, record, field) := entry.1 in
    if bool_decide (operation = original) then
      (λ row, ((id, record, field), remembered field revision row)) <$> cd_decisions db !! record
    else None) (map_to_list (cd_changes db))).

Definition undone_row (original record : str) (revision : Z) (db : ClassificationDb) (row : DecisionRow) : DecisionRow :=
  let row :=
    match cd_changes db !! (original, record, FieldCategory) with
    | Some change =>
      {| dr_category_id := payload_category <$> ch_previous_payload change; dr_choice := ch_previous_payload change;
         dr_choice_revision := revision; dr_choice_restored := ch_previous_restored change; dr_deferred := dr_deferred row;
         dr_review_revision := dr_review_revision row; dr_review_restored := dr_review_restored row |}
    | None => row
    end in
  match cd_changes db !! (original, record, FieldReview) with
  | Some change =>
    {| dr_category_id := dr_category_id row; dr_choice := dr_choice row; dr_choice_revision := dr_choice_revision row;
       dr_choice_restored := dr_choice_restored row;
       dr_deferred := bool_decide (ch_previous_payload change = Some (lit "true")); dr_review_revision := revision;
       dr_review_restored := ch_previous_restored change |}
  | None => row
  end.

(** The payloads of categories that [original] remembers. *)
Definition category_payloads (original : str) (db : ClassificationDb) : list str :=
  omap (λ entry : str * str * ChangeField * ChangeRow,
    let '(operation, _, field) := entry.1 in
    if bool_decide (operation = original) && bool_decide (field = FieldCategory) then ch_previous_payload entry.2 else None)
    (map_to_list (cd_changes db)).

Definition undo_restore (id original : str) (revision : Z) (db : ClassificationDb) : ScanResult ClassificationDb :=
  result_iter (λ payload, decode_choice from_json payload;; Ok ()) (category_payloads original db);;
  db ← insert_changes (undo_changes id original revision db) db;
  Ok (set_decisions (map_imap (λ record row, Some (undone_row original record revision db row)) (cd_decisions db)) db).

(** The revision of a field of a decision. *)
Definition field_revision (field : ChangeField) (row : DecisionRow) : Z :=
  match field with FieldCategory => dr_choice_revision row | FieldReview => dr_review_revision row end.

(** [members] gives the records in a group with a record, [located] whether a current location has its evidence. *)
Definition target_valid (members : str → list str) (located : str → bool) (original : str) (db : ClassificationDb)
    (key : str * str * ChangeField) : bool :=
  let '(operation, record, field) := key in
  negb (bool_decide (operation = original))
  || match cd_decisions db !! record, cd_changes db !! key with
     | Some row, Some change =>
       (ch_applied_revision change =? field_revision field row)
       && forallb (λ member,
            match cd_decisions db !! member with
            | Some added => negb (0 <? field_revision field added) || bool_decide ((original, member, field) ∈ cd_targets db)
            | None => true
            end) (members record)
       && located record
     | _, _ => false
     end.

Definition classification_undo (members : str → list str) (located : str → bool) (groups : gset str → Z)
    (id digest original : str) (now : Z) (db : ClassificationDb) : ScanResult (ClassificationWriteReceipt * ClassificationDb) :=
  replayed ← operation_replay id digest db;
  match replayed with
  | Some receipt => Ok (receipt, db)
  | None =>
    saved ← ok_or (cd_operations db !! original) undo_unavailable;
    fail_if (bool_decide (original = id) || or_restored saved) undo_unavailable;;
    fail_if (negb (bool_decide (or_operation_kind saved ∈ [lit "category"; lit "defer"; lit "undo"]))) undo_unavailable;;
    fail_if (negb (forallb (target_valid members located original db) (elements (cd_targets db)))) undo_unavailable;;
    let changed_groups := groups (set_map (λ key : str * str * ChangeField, key.1.2) (operation_changes original db)) in
    fail_if ((0 <? or_changed_groups saved) && (changed_groups =? 0)) undo_unavailable;;
    '(revision, db) ← operation_begin id digest (lit "undo") now db;
    db ← undo_restore id original revision db;
    operation_end id revision changed_groups false db
  end.
End Storage.

(** ** What the rows say *)

(** The stored choices of a group, with whether they were restored, and its reviews: restored or not, deferred or not. *)
Definition choices (rows : list (str * DecisionRow)) : list (str * bool) :=
  omap (λ entry, (λ choice, (choice, dr_choice_restored entry.2)) <$> dr_choice entry.2) rows.

Definition reviews (rows : list (str * DecisionRow)) : list (bool * bool) :=
  omap (λ entry, if 0 <? dr_review_revision entry.2 then Some (dr_review_restored entry.2, dr_deferred entry.2) else None) rows.

(** Local reviews count before restored ones. *)
Definition deferred_by (l : list (bool * bool)) : bool :=
  if existsb (λ r, negb r.1) l then existsb (λ r, negb r.1 && r.2) l else existsb (λ r, r.1 && r.2) l.

Section Laws.
Context (derive_key : str → bytes → bytes).
Context (to_json : VersionedChoice → option str) (from_json : str → option VersionedChoice).
Context (payload_category : str → str) (constraint_failed : ScanError).

Definition include_choice (acc : HumanClassificationConsensus) (entry : str * bool) : ScanResult HumanClassificationConsensus :=
  choice ← decode_choice from_json entry.1; Ok (consensus_include acc choice (if entry.2 : bool then Restored else Local)).

Lemma read_decision_step acc record row :
  ∃ category review, read_decision from_json acc (record, row) =
    (consensus ← result_foldl include_choice (rd_consensus acc) (choices [(record, row)]);
     Ok {| rd_category_input := category; rd_review_input := review; rd_consensus := consensus;
           rd_local_review := if existsb (λ r, negb r.1) (reviews [(record, row)])
             then Some (default false (rd_local_review acc) || existsb (λ r, negb r.1 && r.2) (reviews [(record, row)]))
             else rd_local_review acc;
           rd_restored_deferred := rd_restored_deferred acc || existsb (λ r, r.1 && r.2) (reviews [(record, row)]) |}).
Proof.
  assert (∀ (l : option bool) (d : bool),
    (if existsb (λ r, negb r.1) (reviews [(record, row)])
     then Some (default false l || existsb (λ r, negb r.1 && r.2) (reviews [(record, row)])) else l) =
    (if (0 <? dr_review_revision row) && negb (dr_review_restored row) then Some (default false l || dr_deferred row) else l) ∧
    d || existsb (λ r, r.1 && r.2) (reviews [(record, row)]) =
    (if (0 <? dr_review_revision row) && dr_review_restored row then d || dr_deferred row else d)) as Hreview.
  { intros l d. unfold reviews. cbn [omap list_omap snd fst]. destruct (0 <? dr_review_revision row); cbn; [|by rewrite orb_false_r].
    by destruct (dr_review_restored row), (dr_deferred row), d, l as [[]|]. }
  destruct (Hreview (rd_local_review acc) (rd_restored_deferred acc)) as [-> ->]. unfold read_decision, choices.
  cbn [omap list_omap snd fst]. destruct (dr_choice row) as [choice|]; [|eexists _, _; reflexivity].
  unfold include_choice. cbn. destruct (decode_choice from_json choice); [eexists _, _; reflexivity|by exists [], []].
Qed.

Lemma choices_cons entry rows : choices (entry :: rows) = choices [entry] ++ choices rows.
Proof. unfold choices. cbn. by destruct (dr_choice entry.2). Qed.

Lemma reviews_cons entry rows : reviews (entry :: rows) = reviews [entry] ++ reviews rows.
Proof. unfold reviews. cbn. by destruct (0 <? dr_review_revision entry.2). Qed.

Lemma local_deferral (l : list (bool * bool)) :
  existsb (λ r, negb r.1 && r.2) l = true → existsb (λ r, negb r.1) l = true.
Proof. rewrite !existsb_exists. intros (r & Hin & [? _]%andb_prop). eauto. Qed.

Lemma result_foldl_app {E A S} (f : S → A → Result E S) s l1 l2 :
  result_foldl f s (l1 ++ l2) = (s' ← result_foldl f s l1; result_foldl f s' l2).
Proof. revert s. induction l1 as [|x l1 IH]; intros s; cbn; [done|]. destruct (f s x); cbn; [apply IH|done]. Qed.

Lemma read_decisions_spec rows acc :
  ∃ category review, result_foldl (read_decision from_json) acc rows =
    (consensus ← result_foldl include_choice (rd_consensus acc) (choices rows);
     Ok {| rd_category_input := category; rd_review_input := review; rd_consensus := consensus;
           rd_local_review := if existsb (λ r, negb r.1) (reviews rows)
             then Some (default false (rd_local_review acc) || existsb (λ r, negb r.1 && r.2) (reviews rows))
             else rd_local_review acc;
           rd_restored_deferred := rd_restored_deferred acc || existsb (λ r, r.1 && r.2) (reviews rows) |}).
Proof.
  revert acc. induction rows as [|[record row] rows IH]; intros acc; cbn [result_foldl].
  { exists (rd_category_input acc), (rd_review_input acc). cbn. rewrite orb_false_r. by destruct acc. }
  destruct (read_decision_step acc record row) as (c1 & r1 & ->).
  rewrite (choices_cons (record, row) rows), (reviews_cons (record, row) rows), result_foldl_app.
  destruct (result_foldl include_choice _ (choices [_])) as [consensus|e]; cbn [mbind result_bind]; [|by exists [], []].
  match goal with |- context [result_foldl _ ?a rows] => destruct (IH a) as (c & r & ->) end.
  exists c, r. cbn [rd_consensus rd_local_review rd_restored_deferred]. f_equal. rewrite !existsb_app.
  generalize (reviews rows); intros l. unfold reviews. cbn [omap list_omap snd fst]. destruct (0 <? dr_review_revision row); cbn;
    [|by rewrite orb_false_r].
  destruct (dr_review_restored row), (dr_deferred row), (rd_restored_deferred acc), (rd_local_review acc) as [[]|],
      (existsb (λ r, negb r.1) l) eqn:E1, (existsb (λ r, negb r.1 && r.2) l) eqn:E2, (existsb (λ r, r.1 && r.2) l); try done;
    apply local_deferral in E2; congruence.
Qed.

Lemma decisions_spec records db :
  ∃ authority, decisions derive_key from_json records db =
    (consensus ← result_foldl include_choice consensus_default (choices (decision_rows records db));
     Ok (authority, consensus_resolve consensus, deferred_by (reviews (decision_rows records db)))).
Proof.
  destruct (read_decisions_spec (decision_rows records db) read_nothing) as (c & r & E). unfold decisions. rewrite E.
  exists {| fa_category := derive_key (lit "ame.classification.category.authority.v1") c;
            fa_review := derive_key (lit "ame.classification.review.authority.v1") r |}.
  cbn [rd_consensus read_nothing]. destruct (result_foldl include_choice _ _); [|done]. cbn. do 2 f_equal. unfold deferred_by.
  by destruct (existsb (λ r, negb r.1) _).
Qed.

(** *** What an operation leaves of the rows *)

(** The row of a record, as materializing its group leaves it. *)
Definition row_of (db : ClassificationDb) (record : str) : DecisionRow := default no_decision (cd_decisions db !! record).

Lemma choices_rows records db :
  choices (decision_rows records db) =
  omap (λ r, (λ choice, (choice, dr_choice_restored (row_of db r))) <$> dr_choice (row_of db r)) records.
Proof.
  unfold choices, decision_rows, row_of. induction records as [|r records IH]; [done|]. cbn in *.
  destruct (cd_decisions db !! r) as [row|]; cbn; [|exact IH]. rewrite <- IH. by destruct (dr_choice row).
Qed.

Lemma reviews_rows records db :
  reviews (decision_rows records db) =
  omap (λ r, if 0 <? dr_review_revision (row_of db r)
    then Some (dr_review_restored (row_of db r), dr_deferred (row_of db r)) else None) records.
Proof.
  unfold reviews, decision_rows, row_of. induction records as [|r records IH]; [done|]. cbn in *.
  destruct (cd_decisions db !! r) as [row|]; cbn; [|exact IH]. rewrite <- IH. by destruct (0 <? dr_review_revision row).
Qed.

Lemma insert_missing_lookup records db r :
  cd_decisions (insert_missing records db) !! r =
  if bool_decide (r ∈ records) then Some (row_of db r) else cd_decisions db !! r.
Proof.
  unfold insert_missing, row_of. cbn. rewrite lookup_union. case_bool_decide as Hr.
  - rewrite (elem_of_list_to_map_1' _ r no_decision).
    + by destruct (cd_decisions db !! r).
    + intros y Hy. apply list_elem_of_fmap in Hy as (? & [= -> ->] & _). done.
    + apply list_elem_of_fmap. eauto.
  - rewrite (not_elem_of_list_to_map_1 _ r); [by destruct (cd_decisions db !! r)|].
    rewrite <- list_fmap_compose. rewrite list_elem_of_fmap. intros (? & -> & ?). done.
Qed.

Lemma insert_missing_row records db r : row_of (insert_missing records db) r = row_of db r.
Proof. unfold row_of at 1. rewrite insert_missing_lookup. by case_bool_decide. Qed.

Lemma update_decisions_lookup f records db r :
  cd_decisions (update_decisions f records db) !! r =
  (λ row, if bool_decide (r ∈ records) then f row else row) <$> cd_decisions db !! r.
Proof. unfold update_decisions. cbn. rewrite map_lookup_imap. by destruct (cd_decisions db !! r). Qed.

(** Remembering a field of rows that are there. *)
Lemma remember_ok id field revision records db db' :
  remember constraint_failed id field revision records db = Ok db' →
  (∀ r, r ∈ records → cd_decisions db !! r = Some (row_of db r)) →
  cd_decisions db' = cd_decisions db ∧
  (∀ r, r ∈ records → cd_changes db !! (id, r, field) = None) ∧
  ∀ k, cd_changes db' !! k =
    if bool_decide (k.1.1 = id ∧ k.2 = field ∧ k.1.2 ∈ records) then Some (remembered field revision (row_of db k.1.2))
    else cd_changes db !! k.
Proof.
  intros H Hrows. unfold remember, insert_changes in H.
  set (m := list_to_map _ : gmap (str * str * ChangeField) ChangeRow) in H.
  destruct (bool_decide (dom m ∩ dom (cd_changes db) = ∅)) eqn:Hdis; [|done]. apply bool_decide_eq_true in Hdis. injection H as <-.
  assert (∀ k, m !! k = if bool_decide (k.1.1 = id ∧ k.2 = field ∧ k.1.2 ∈ records)
    then Some (remembered field revision (row_of db k.1.2)) else None) as Hm.
  { intros k. assert (∀ ch, (k, ch) ∈ ((λ entry : str * DecisionRow, ((id, entry.1, field), remembered field revision entry.2)) <$>
       decision_rows records db) ↔ (k.1.1 = id ∧ k.2 = field ∧ k.1.2 ∈ records) ∧ ch = remembered field revision (row_of db k.1.2)) as Hin.
    { intros ch. rewrite list_elem_of_fmap. unfold decision_rows. setoid_rewrite list_elem_of_omap. split.
      - intros ([r row] & [= -> ->] & r' & Hr & E). rewrite (Hrows r' Hr) in E. injection E as <- <-. done.
      - intros [(E1 & E2 & E3) ->]. destruct k as [[op r] fl]. cbn in *. subst.
        exists (r, row_of db r). split; [done|]. exists r. by rewrite (Hrows r E3). }
    case_bool_decide as Hk.
    - apply elem_of_list_to_map_1'; [|by apply Hin]. intros y Hy. by apply Hin in Hy as [_ ->].
    - apply not_elem_of_list_to_map_1. rewrite list_elem_of_fmap. intros ([k' ch] & -> & Hy). apply Hin in Hy. naive_solver. }
  cbn. split_and!; [done| |].
  - intros r Hr. apply eq_None_not_Some. intros Hs.
    apply (not_elem_of_empty (C := gset (str * str * ChangeField)) (id, r, field)). rewrite <- Hdis. apply elem_of_intersection.
    rewrite !elem_of_dom. split; [|done]. rewrite Hm. rewrite bool_decide_eq_true_2 by done. eauto.
  - intros k. rewrite lookup_union, Hm. case_bool_decide; by destruct (cd_changes db !! k).
Qed.

(** What a change writes: the fields it sets, and the row it leaves. *)
Definition writes_field (change : ClassificationChange) (field : ChangeField) : bool :=
  match change with
  | ChangeChoose _ => true
  | ChangeDefer => bool_decide (field = FieldReview)
  | ChangeUnchanged => false
  end.

Definition written_row (change : ClassificationChange) (text : str) (revision : Z) (row : DecisionRow) : DecisionRow :=
  match change with
  | ChangeChoose choice => chosen_row (choice_category choice) text revision row
  | ChangeDefer => deferral_row revision row
  | ChangeUnchanged => row
  end.

Lemma apply_group_rows id revision merged records change db b db' :
  apply_group to_json constraint_failed id revision merged records change db = Ok (b, db') →
  ∃ text, (∀ choice, change = ChangeChoose choice → encode_choice to_json choice = Ok text) ∧
  b = negb (bool_decide (change = ChangeUnchanged)) ∧
  (∀ r, row_of db' r = if bool_decide (r ∈ records) then written_row change text revision (row_of db r) else row_of db r) ∧
  (∀ r, cd_decisions db !! r = Some (row_of db r) → cd_decisions db' !! r = Some (row_of db' r)) ∧
  (∀ r f, r ∈ records → writes_field change f = true →
     cd_changes db !! (id, r, f) = None ∧ cd_decisions db' !! r = Some (row_of db' r)) ∧
  ∀ op r f, cd_changes db' !! (op, r, f) =
    if bool_decide (op = id ∧ r ∈ records) && writes_field change f then Some (remembered f revision (row_of db r))
    else cd_changes db !! (op, r, f).
Proof.
  intros H. unfold apply_group in H.
  assert (∀ r, r ∈ records → cd_decisions (insert_missing records db) !! r = Some (row_of (insert_missing records db) r)) as Hin.
  { intros r Hr. by rewrite insert_missing_row, insert_missing_lookup, bool_decide_eq_true_2. }
  assert (∀ f db2 r, cd_decisions db2 = cd_decisions (insert_missing records db) →
    row_of (update_decisions f records db2) r = (if bool_decide (r ∈ records) then f (row_of db r) else row_of db r) ∧
    (cd_decisions db !! r = Some (row_of db r) ∨ r ∈ records →
     cd_decisions (update_decisions f records db2) !! r = Some (row_of (update_decisions f records db2) r))) as Hupd.
  { intros f db2 r E. assert (cd_decisions (update_decisions f records db2) !! r =
      if bool_decide (r ∈ records) then Some (f (row_of db r)) else cd_decisions db !! r) as Hl.
    { rewrite update_decisions_lookup, E, insert_missing_lookup. case_bool_decide; [done|]. by destruct (cd_decisions db !! r). }
    unfold row_of at 1 5. rewrite Hl. case_bool_decide; [done|]. cbn. split; [done|]. by intros [Hr|]. }
  destruct change as [choice| |].
  - destruct merged; [done|]. apply result_bind_Ok in H as (db1 & H1 & H). apply result_bind_Ok in H as (db2 & H2 & H).
    apply result_bind_Ok in H as (text & Ht & H). injection H as <- <-. exists text.
    apply remember_ok in H1 as (D1 & N1 & C1); [|done].
    assert (∀ r, row_of db1 r = row_of db r) as R1 by (intros r; unfold row_of at 1; rewrite D1; apply insert_missing_row).
    apply remember_ok in H2 as (D2 & N2 & C2); [|intros r Hr; unfold row_of; rewrite D1; by apply Hin].
    rewrite D1 in D2. split_and!; [naive_solver|done|intros r; by apply Hupd|intros r Hr; apply Hupd; [done|by left]| |].
    + intros r f Hr _. split; [|apply Hupd; [done|by right]]. destruct f; [by apply (N1 r)|].
      specialize (N2 r Hr). rewrite C1 in N2. cbn in N2. rewrite bool_decide_eq_false_2 in N2 by naive_solver. done.
    + intros op r f. cbn. rewrite C2. cbn. rewrite C1. cbn. rewrite R1, insert_missing_row, andb_true_r.
      destruct f; repeat case_bool_decide; naive_solver.
  - destruct merged; [done|]. apply result_bind_Ok in H as (db1 & H1 & H). injection H as <- <-. exists [].
    apply remember_ok in H1 as (D1 & N1 & C1); [|done].
    split_and!; [done|done|intros r; by apply Hupd|intros r Hr; apply Hupd; [done|by left]| |].
    + intros r f Hr Hf. split; [|apply Hupd; [done|by right]]. apply bool_decide_eq_true in Hf as ->. by apply (N1 r).
    + intros op r f. cbn. rewrite C1. cbn. rewrite insert_missing_row. repeat case_bool_decide; naive_solver.
  - injection H as <- <-. exists []. split_and!; try done; [intros r; by case_bool_decide|].
    intros op r f. by rewrite andb_false_r.
Qed.

(** *** Tracking an operation *)

(** The operation's changes remember the fields of [db0]; the fields without a change are those of [db0]. *)
Definition tracks (id : str) (revision : Z) (db0 db : ClassificationDb) : Prop :=
  ∀ r f, match cd_changes db !! (id, r, f) with
         | Some change => change = remembered f revision (row_of db0 r) ∧ cd_decisions db !! r = Some (row_of db r)
         | None => remembered f revision (row_of db r) = remembered f revision (row_of db0 r)
         end.

Lemma written_unwritten change text revision row f :
  writes_field change f = false → remembered f revision (written_row change text revision row) = remembered f revision row.
Proof. destruct change, f; cbn; try done. Qed.

Lemma apply_group_tracks id revision merged records change db0 db b db' :
  tracks id revision db0 db →
  apply_group to_json constraint_failed id revision merged records change db = Ok (b, db') →
  tracks id revision db0 db'.
Proof.
  intros Ht (text & _ & _ & Hrow & Hkeep & Hw & Hch)%apply_group_rows r f. rewrite Hch. specialize (Ht r f).
  destruct (bool_decide (id = id ∧ r ∈ records) && writes_field change f) eqn:E.
  - apply andb_prop in E as [[_ Hr]%bool_decide_eq_true Hf]. destruct (Hw r f Hr Hf) as [Hnone Hpresent].
    rewrite Hnone in Ht. by rewrite Ht.
  - rewrite Hrow. destruct (cd_changes db !! (id, r, f)) as [ch|].
    + destruct Ht as [-> Hd]. split; [done|]. rewrite <- Hrow. auto.
    + rewrite <- Ht. destruct (decide (r ∈ records)) as [Hr|Hr]; [|by rewrite bool_decide_eq_false_2].
      rewrite bool_decide_eq_true_2 by done. rewrite bool_decide_eq_true_2 in E by done.
      by apply written_unwritten.
Qed.

Lemma apply_groups_tracks id revision groups db0 db changed changed' db' :
  tracks id revision db0 db →
  result_foldl (λ '(changed_groups, db) '(group, change),
    '(changed, db) ← apply_group to_json constraint_failed id revision (cg_merged group) (cg_records group) change db;
    Ok (changed_groups + flag changed, db)) (changed, db) groups = Ok (changed', db') →
  tracks id revision db0 db'.
Proof.
  revert changed db. induction groups as [|[group change] groups IH]; intros changed db Ht H; cbn in H; [by injection H as _ <-|].
  apply result_bind_Ok in H as ([c1 db1] & H1 & H). apply result_bind_Ok in H1 as ([c2 db2] & H2 & H1). injection H1 as <- <-.
  eauto using apply_group_tracks.
Qed.

(** *** Undoing *)

Lemma insert_changes_ok rows db db' op r f :
  insert_changes constraint_failed rows db = Ok db' → rows !! (op, r, f) = None →
  cd_decisions db' = cd_decisions db ∧ cd_changes db' !! (op, r, f) = cd_changes db !! (op, r, f).
Proof.
  unfold insert_changes. destruct (bool_decide _); [|done]. intros [= <-] E. cbn. rewrite lookup_union, E. by destruct (cd_changes db !! _).
Qed.

Lemma undo_changes_other id original revision db op r f :
  op ≠ id → undo_changes id original revision db !! (op, r, f) = None.
Proof.
  intros Hop. apply not_elem_of_list_to_map_1. rewrite list_elem_of_fmap. intros ([k ch] & Hk & Hin). cbn in Hk. subst k.
  apply list_elem_of_omap in Hin as ([[[op' r'] f'] ch'] & _ & E). cbn in E. destruct (bool_decide (op' = original)); [|done].
  destruct (cd_decisions db !! r') as [row|]; [|done]. injection E as <- <- <- <-. done.
Qed.

(** The fields of [db0], with the revision of the undo where it set them. *)
Definition restores (revision : Z) (db0 db : ClassificationDb) : Prop :=
  ∀ r, dr_choice (row_of db r) = dr_choice (row_of db0 r) ∧
    dr_choice_restored (row_of db r) = dr_choice_restored (row_of db0 r) ∧
    dr_deferred (row_of db r) = dr_deferred (row_of db0 r) ∧
    dr_review_restored (row_of db r) = dr_review_restored (row_of db0 r) ∧
    (dr_review_revision (row_of db r) = dr_review_revision (row_of db0 r) ∨ dr_review_revision (row_of db r) = revision).

Lemma review_payload_inj d d' : review_payload d = review_payload d' → d = d'.
Proof. by destruct d, d'. Qed.

Lemma review_payload_true d : bool_decide (Some (review_payload d) = Some (lit "true")) = d.
Proof. by destruct d. Qed.

Lemma undo_restore_restores id original revision revision0 db0 db db' :
  id ≠ original → tracks original revision0 db0 db →
  undo_restore from_json payload_category constraint_failed id original revision db = Ok db' →
  restores revision db0 db'.
Proof.
  intros Hid Ht H r. unfold undo_restore in H. apply result_seq_Ok in H as [_ H].
  apply result_bind_Ok in H as (db1 & H1 & H). injection H as <-.
  assert (∀ f, cd_decisions db1 = cd_decisions db ∧ cd_changes db1 !! (original, r, f) = cd_changes db !! (original, r, f)) as Hdb1.
  { intros f. eapply insert_changes_ok; [done|]. by apply undo_changes_other. }
  destruct (Hdb1 FieldCategory) as [Hd Hc]. destruct (Hdb1 FieldReview) as [_ Hr].
  pose proof (Ht r FieldCategory) as Tc. pose proof (Ht r FieldReview) as Tr.
  set (db' := set_decisions _ db1).
  assert (row_of db' r = if cd_decisions db !! r then undone_row payload_category original r revision db1 (row_of db r)
    else row_of db r) as ->.
  { unfold row_of. cbn. rewrite map_lookup_imap, Hd. by destruct (cd_decisions db !! r). }
  unfold undone_row. rewrite Hc, Hr. clear db' Hdb1 Hd Hc Hr.
  destruct (cd_changes db !! (original, r, FieldCategory)) as [c1|], (cd_changes db !! (original, r, FieldReview)) as [c2|];
    repeat match goal with
    | H : _ = remembered _ _ _ ∧ _ |- _ => destruct H as [-> ?]
    | H : remembered FieldCategory _ _ = _ |- _ => injection H as ? ? ?
    | H : remembered FieldReview _ _ = _ |- _ => injection H as ?%review_payload_inj ? ?
    end; destruct (cd_decisions db !! r); cbn; rewrite ?review_payload_true; try discriminate; auto 10.
Qed.

(** *** Operations *)

Lemma operation_begin_ok id digest kind now db revision db' :
  operation_begin constraint_failed id digest kind now db = Ok (revision, db') →
  revision = cd_revision db + 1 ∧ cd_decisions db' = cd_decisions db ∧ cd_changes db' = cd_changes db ∧
  cd_revision db' = cd_revision db.
Proof.
  unfold operation_begin. intros H. apply result_bind_Ok in H as (rev & Hrev & H). apply ok_or_Ok in Hrev.
  destruct (cd_operations db !! id); [done|]. injection H as <- <-.
  unfold checked_add in Hrev. destruct (_ <=? _); naive_solver.
Qed.

Lemma operation_end_ok id revision changed_groups metadata_changed db receipt db' :
  operation_end constraint_failed id revision changed_groups metadata_changed db = Ok (receipt, db') →
  cd_decisions db' = cd_decisions db ∧ cd_changes db' = cd_changes db ∧
  (cd_revision db' = revision ∨ cd_revision db' = cd_revision db).
Proof.
  unfold operation_end. intros H. apply result_bind_Ok in H as (next & _ & H). destruct (negb _); [done|].
  apply result_bind_Ok in H as (changed & _ & H). injection H as <- <-. cbn. split_and!; [done..|].
  destruct (_ || _); auto.
Qed.

(** What a write that is not a replay does: it plans every group, and applies the plans. *)
Lemma classification_write_ok id digest prepared current taxonomy action now db receipt db' :
  classification_write to_json constraint_failed id digest prepared current taxonomy action now db
    = Ok (receipt, db') → cd_operations db !! id = None →
  ∃ tx plans db1 changed db2, taxonomy = Some tx ∧ length current = length prepared ∧
    Forall2 (λ '(observed, group) change, plan_classification_change observed (cg_observation group) action tx = Ok change)
      (zip prepared current) plans ∧
    cd_decisions db1 = cd_decisions db ∧ cd_changes db1 = cd_changes db ∧ cd_revision db1 = cd_revision db ∧
    apply_groups to_json constraint_failed id (cd_revision db + 1) (zip current plans) db1 = Ok (changed, db2) ∧
    cd_decisions db' = cd_decisions db2 ∧ cd_changes db' = cd_changes db2 ∧
    (cd_revision db' = cd_revision db + 1 ∨ cd_revision db' = cd_revision db2).
Proof.
  intros H Hid. unfold classification_write, operation_replay in H. rewrite Hid in H. cbn in H.
  apply result_seq_Ok in H as [Hlen H]. apply fail_if_Ok in Hlen. apply negb_false_iff, Nat.eqb_eq in Hlen.
  apply result_bind_Ok in H as (tx & Htx & H). apply ok_or_Ok in Htx.
  apply result_bind_Ok in H as (plans & Hplans & H). apply result_bind_Ok in H as ([revision db1] & Hb & H).
  apply result_bind_Ok in H as ([changed db2] & Hg & He).
  apply operation_begin_ok in Hb as (-> & Hd1 & Hc1 & Hr1). apply operation_end_ok in He as (Hd2 & Hc2 & Hr2).
  exists tx, plans, db1, changed, db2. split_and!; try done.
  apply result_map_list_Ok in Hplans. eapply Forall2_impl; [exact Hplans|].
  intros [observed group] change E. by apply map_err_Ok in E.
Qed.

Lemma remember_revision id field revision records db db' :
  remember constraint_failed id field revision records db = Ok db' → cd_revision db' = cd_revision db.
Proof. unfold remember, insert_changes. destruct (bool_decide _); [|done]. by intros [= <-]. Qed.

Lemma apply_group_revision id revision merged records change db b db' :
  apply_group to_json constraint_failed id revision merged records change db = Ok (b, db') →
  cd_revision db' = cd_revision db.
Proof.
  unfold apply_group. intros H. destruct change as [choice| |], merged; try done; try by injection H as _ <-.
  - apply result_bind_Ok in H as (db1 & H1%remember_revision & H). apply result_bind_Ok in H as (db2 & H2%remember_revision & H).
    apply result_bind_Ok in H as (text & _ & H). injection H as _ <-. cbn in *. congruence.
  - apply result_bind_Ok in H as (db1 & H1%remember_revision & H). injection H as _ <-. done.
Qed.

Lemma apply_groups_revision id revision groups db changed changed' db' :
  result_foldl (λ '(changed_groups, db) '(group, change),
    '(changed, db) ← apply_group to_json constraint_failed id revision (cg_merged group) (cg_records group) change db;
    Ok (changed_groups + flag changed, db)) (changed, db) groups = Ok (changed', db') →
  cd_revision db' = cd_revision db.
Proof.
  revert changed db. induction groups as [|[group change] groups IH]; intros changed db H; cbn in H; [by injection H as _ <-|].
  apply result_bind_Ok in H as ([c1 db1] & H1 & H). apply result_bind_Ok in H1 as ([c2 db2] & H2 & H1). injection H1 as <- <-.
  apply IH in H. apply apply_group_revision in H2. congruence.
Qed.

(** *** Reading again what was restored *)

Lemma choices_ext records db0 db :
  (∀ r, r ∈ records → dr_choice (row_of db r) = dr_choice (row_of db0 r) ∧
     dr_choice_restored (row_of db r) = dr_choice_restored (row_of db0 r)) →
  choices (decision_rows records db) = choices (decision_rows records db0).
Proof.
  intros H. rewrite !choices_rows. induction records as [|r records IH]; [done|]. cbn.
  destruct (H r) as [-> ->]; [left|]. rewrite IH; [done|]. intros r' Hr'. apply H. by right.
Qed.

Lemma reviews_ext records db0 db :
  (∀ r, r ∈ records → row_of db r = row_of db0 r) → reviews (decision_rows records db) = reviews (decision_rows records db0).
Proof.
  intros H. rewrite !reviews_rows. induction records as [|r records IH]; [done|]. cbn.
  rewrite (H r) by left. rewrite IH; [done|]. intros r' Hr'. apply H. by right.
Qed.

Lemma choices_restored revision db0 db records :
  restores revision db0 db → choices (decision_rows records db) = choices (decision_rows records db0).
Proof. intros Hr. apply choices_ext. intros r _. destruct (Hr r) as (-> & -> & _). done. Qed.

Lemma deferred_by_local (l : list (bool * bool)) :
  existsb (λ r, r.1 && r.2) l = false → deferred_by l = existsb (λ r, negb r.1 && r.2) l.
Proof.
  intros E. unfold deferred_by. rewrite E. destruct (existsb (λ r, negb r.1) l) eqn:E1; [done|].
  symmetry. apply not_true_is_false. intros H%local_deferral. congruence.
Qed.

(** Deferred rows have a revision, as the schema checks. *)
Definition reviews_stored (db : ClassificationDb) : Prop :=
  ∀ r row, cd_decisions db !! r = Some row → dr_deferred row = true → 0 < dr_review_revision row.

Lemma existsb_reviews_restored revision db0 db records (test : bool → bool) :
  0 < revision → reviews_stored db0 → restores revision db0 db →
  existsb (λ r, test r.1 && r.2) (reviews (decision_rows records db)) =
  existsb (λ r, test r.1 && r.2) (reviews (decision_rows records db0)).
Proof.
  intros Hrev Hst Hr. rewrite !reviews_rows. induction records as [|r records IH]; [done|]. cbn.
  assert (dr_deferred (row_of db0 r) = true → 0 < dr_review_revision (row_of db0 r)) as Hd.
  { unfold row_of. destruct (cd_decisions db0 !! r) as [row|] eqn:E; [|done]. exact (Hst r row E). }
  destruct (Hr r) as (_ & _ & -> & -> & Hrevs).
  destruct (0 <? dr_review_revision (row_of db0 r)) eqn:E0, (0 <? dr_review_revision (row_of db r)) eqn:E1; cbn;
    rewrite ?IH; try done; [lia|]. destruct (dr_deferred (row_of db0 r)); [lia|]. by rewrite andb_false_r.
Qed.

Lemma deferred_restored revision db0 db records :
  0 < revision → reviews_stored db0 → restores revision db0 db →
  (∀ r, r ∈ records → 0 < dr_review_revision (row_of db0 r)) ∨
  (∀ r, r ∈ records → dr_review_restored (row_of db0 r) && dr_deferred (row_of db0 r) = false) →
  deferred_by (reviews (decision_rows records db)) = deferred_by (reviews (decision_rows records db0)).
Proof.
  intros Hrev Hst Hr [Hall|Hnone].
  - f_equal. rewrite !reviews_rows. induction records as [|r records IH]; [done|]. cbn.
    destruct (Hr r) as (_ & _ & -> & -> & Hrevs). pose proof (Hall r ltac:(left)).
    destruct (0 <? dr_review_revision (row_of db0 r)) eqn:E0, (0 <? dr_review_revision (row_of db r)) eqn:E1; try lia.
    rewrite IH; [done|]. intros r' Hr'. apply Hall. by right.
  - assert (existsb (λ r, r.1 && r.2) (reviews (decision_rows records db0)) = false) as E0.
    { apply not_true_is_false. intros ([a b] & Hin & Hab)%existsb_exists. apply list_elem_of_In in Hin.
      rewrite reviews_rows in Hin. apply list_elem_of_omap in Hin as (r & Hin & E). specialize (Hnone r Hin).
      destruct (0 <? dr_review_revision _); [|done]. injection E as <- <-. cbn in Hab. congruence. }
    pose proof (existsb_reviews_restored revision db0 db records id Hrev Hst Hr) as E1. cbn in E1.
    rewrite !deferred_by_local by (rewrite ?E1; done). by apply (existsb_reviews_restored revision).
Qed.

(** Operations have their changes: a change belongs to a stored operation. *)
Definition changes_owned (db : ClassificationDb) : Prop :=
  ∀ op r f, is_Some (cd_changes db !! (op, r, f)) → is_Some (cd_operations db !! op).

Lemma written_tracks id digest prepared current taxonomy action now db receipt db' :
  cd_operations db !! id = None → changes_owned db →
  classification_write to_json constraint_failed id digest prepared current taxonomy action now db
    = Ok (receipt, db') →
  tracks id (cd_revision db + 1) db db' ∧ (cd_revision db ≤ cd_revision db').
Proof.
  intros Hid Hown H. apply classification_write_ok in H as (tx & plans & db1 & changed & db2 & _ & _ & _ & Hd1 & Hc1 & Hr1 & Hg & Hd2 & Hc2 & Hr); [|done].
  assert (tracks id (cd_revision db + 1) db db1) as Ht.
  { intros r f. rewrite Hc1. unfold row_of. rewrite Hd1. destruct (cd_changes db !! (id, r, f)) eqn:E; [|done].
    destruct (Hown id r f ltac:(eauto)) as [? ?]. congruence. }
  unfold apply_groups in Hg. pose proof (apply_groups_revision _ _ _ _ _ _ _ Hg) as Hr2.
  apply (apply_groups_tracks _ _ _ db) in Hg; [|done]. split; [|lia].
  intros r f. unfold row_of. rewrite Hc2, Hd2. apply Hg.
Qed.

Lemma classification_undo_restores members located groups id digest original now revision0 db0 db receipt db' :
  cd_operations db !! id = None → tracks original revision0 db0 db →
  classification_undo from_json payload_category constraint_failed members located groups id digest original now db
    = Ok (receipt, db') →
  restores (cd_revision db + 1) db0 db'.
Proof.
  intros Hid Ht H. unfold classification_undo, operation_replay in H. rewrite Hid in H. cbn in H.
  apply result_bind_Ok in H as (saved & _ & H). apply result_seq_Ok in H as [Hne H]. apply fail_if_Ok in Hne.
  apply orb_false_iff in Hne as [Hne%bool_decide_eq_false _].
  do 3 apply result_seq_Ok in H as [_ H]. apply result_bind_Ok in H as ([revision db1] & Hb & H).
  apply result_bind_Ok in H as (db2 & Hu & He).
  apply operation_begin_ok in Hb as (-> & Hd1 & Hc1 & _). apply operation_end_ok in He as (Hd2 & _ & _).
  apply (undo_restore_restores _ _ _ revision0 db0) in Hu; [|done|].
  - intros r. unfold row_of. rewrite Hd2. apply Hu.
  - intros r f. unfold row_of. rewrite Hc1, Hd1. apply Ht.
Qed.

(** C19: A decision is undone as a whole: after a write of any action over any groups, and an undo of it, every group reads
    the human classification it had before the write, decoding errors included; and it reads the same deferral
    when every record of it had a review, or none a restored deferral. *)
Theorem undo_restores members located groups id digest prepared current taxonomy action now db receipt db1
    id' digest' now' receipt' db2 records :
  cd_operations db !! id = None → changes_owned db → reviews_stored db → 0 ≤ cd_revision db →
  classification_write to_json constraint_failed id digest prepared current taxonomy action now db
    = Ok (receipt, db1) →
  cd_operations db1 !! id' = None →
  classification_undo from_json payload_category constraint_failed members located groups id' digest' id now' db1
    = Ok (receipt', db2) →
  (λ read, read.1.2) <$> decisions derive_key from_json records db2 =
  (λ read, read.1.2) <$> decisions derive_key from_json records db ∧
  ((∀ r, r ∈ records → 0 < dr_review_revision (row_of db r)) ∨
   (∀ r, r ∈ records → dr_review_restored (row_of db r) && dr_deferred (row_of db r) = false) →
   snd <$> decisions derive_key from_json records db2 = snd <$> decisions derive_key from_json records db).
Proof.
  intros Hid Hown Hst Hrev0 H1 Hid' H2. apply written_tracks in H1 as [Ht Hrev]; [|done..].
  pose proof (classification_undo_restores _ _ _ _ _ _ _ _ _ _ _ _ Hid' Ht H2) as Hr.
  destruct (decisions_spec records db) as (a0 & ->), (decisions_spec records db2) as (a2 & ->).
  rewrite (choices_restored _ _ _ _ Hr). destruct (result_foldl _ _ _) as [consensus|e]; [|done]. cbn. split; [done|].
  intros Hdef. f_equal. eapply deferred_restored; [|done..]. lia.
Qed.

(** *** Reading a decision again *)

(** Identifiers are valid, and lengths fit, as the types of the values and of the columns they come from have it. *)
Definition reference_valid (p : PredictionReference) : bool :=
  record_id_valid (pr_prediction_id p) && record_id_valid (pr_run_id p) && record_id_valid (cc_scheme (pr_content p))
  && (cc_byte_length (pr_content p) <=? I64_MAX) && category_id_valid (pr_category p).

Definition choice_valid (choice : HumanCategoryChoice) : bool :=
  match choice with
  | ChoiceConfirmed evidence => reference_valid evidence
  | ChoiceCorrected category _ => category_id_valid category
  end.

Lemma choice_roundtrip choice text :
  (∀ v t, to_json v = Some t → from_json t = Some v) →
  choice_valid choice = true → encode_choice to_json choice = Ok text → decode_choice from_json text = Ok choice.
Proof.
  intros Hjson Hv H. unfold encode_choice in H. apply result_bind_Ok in H as (payload & Hp & H). apply ok_or_Ok in Hp.
  apply result_seq_Ok in H as [Hlen H]. apply fail_if_Ok in Hlen. injection H as <-. apply Hjson in Hp.
  unfold decode_choice. rewrite Hlen. cbn [fail_if mbind result_bind]. rewrite Hp. cbn.
  destruct choice as [[pid rid conf rules [scheme digest len] cat]|cat rules]; cbn in *.
  - unfold reference_valid in Hv. cbn in Hv. apply andb_prop in Hv as [[[[H1 H2]%andb_prop H3]%andb_prop H4]%andb_prop H5].
    unfold choice_identifier, choice_category_id, content_admitted, choice_identifier. cbn. rewrite H1, H2, H3, H5. cbn.
    rewrite (proj2 (Z.ltb_ge _ _)) by lia. done.
  - unfold choice_category_id. by rewrite Hv.
Qed.

(** Records all of which carry the same local choice agree on it. *)
Lemma consensus_same records text choice category :
  decode_choice from_json text = Ok choice → choice_category choice = category →
  (∀ acc, hc_local acc = AgreementUnreviewed ∨ hc_local acc = AgreementChosen category →
   ∃ acc', result_foldl include_choice acc ((λ _ : str, (text, false)) <$> records) = Ok acc' ∧
     (records ≠ [] ∨ hc_local acc = AgreementChosen category → hc_local acc' = AgreementChosen category)).
Proof.
  intros Hdec Hcat. induction records as [|r records IH]; intros acc Hacc; cbn [fmap list_fmap result_foldl]; [naive_solver|].
  assert (include_choice acc (text, false) = Ok (consensus_include acc choice Local)) as ->
    by (unfold include_choice; cbn [fst snd]; by rewrite Hdec).
  cbn [mbind result_bind].
  destruct (IH (consensus_include acc choice Local)) as (acc' & -> & Hacc'); cbn; rewrite ?Hcat.
  - right. destruct Hacc as [->| ->]; cbn; [done|]. by rewrite bool_decide_eq_true_2.
  - exists acc'. split; [done|]. intros _. apply Hacc'. right. cbn. rewrite Hcat.
    destruct Hacc as [->| ->]; cbn; [done|]. by rewrite bool_decide_eq_true_2.
Qed.

Lemma choices_written records db db' text choice revision :
  (∀ r, r ∈ records → row_of db' r = chosen_row (choice_category choice) text revision (row_of db r)) →
  choices (decision_rows records db') = (λ _, (text, false)) <$> records.
Proof.
  intros H. rewrite choices_rows. induction records as [|r records IH]; [done|]. cbn. rewrite (H r) by left. cbn.
  f_equal. apply IH. intros r' Hr'. apply H. by right.
Qed.

Lemma reviews_written records db' revision deferred :
  0 < revision →
  (∀ r, r ∈ records → dr_review_revision (row_of db' r) = revision ∧ dr_review_restored (row_of db' r) = false ∧
     dr_deferred (row_of db' r) = deferred) →
  reviews (decision_rows records db') = (λ _, (false, deferred)) <$> records.
Proof.
  intros Hrev H. rewrite reviews_rows. induction records as [|r records IH]; [done|]. cbn.
  destruct (H r) as (-> & -> & ->); [left|]. rewrite (proj2 (Z.ltb_lt _ _)) by done. f_equal. apply IH. intros r' Hr'. apply H. by right.
Qed.

Lemma deferred_by_same {A} (records : list A) deferred :
  records ≠ [] → deferred_by ((λ _, (false, deferred)) <$> records) = deferred.
Proof.
  intros H. unfold deferred_by. destruct records as [|r records]; [done|]. cbn.
  destruct deferred; [done|]. clear H. induction records; [done|]. cbn. done.
Qed.

(** The decisions of a group after a change of it. *)
Lemma decisions_written records change text revision db db' authority human deferred :
  (∀ v t, to_json v = Some t → from_json t = Some v) → 0 < revision → records ≠ [] →
  decisions derive_key from_json records db = Ok (authority, human, deferred) →
  (∀ choice, change = ChangeChoose choice → choice_valid choice = true ∧ encode_choice to_json choice = Ok text) →
  (∀ r, r ∈ records → row_of db' r = written_row change text revision (row_of db r)) →
  ∃ authority', decisions derive_key from_json records db' = Ok
    (authority', match change with ChangeChoose choice => Chosen (choice_category choice) Local | _ => human end,
     match change with ChangeChoose _ => false | ChangeDefer => true | ChangeUnchanged => deferred end).
Proof.
  intros Hjson Hrev Hne Hd Hch Hrows. destruct (decisions_spec records db) as (a & Hs). rewrite Hs in Hd.
  destruct (decisions_spec records db') as (a' & ->). exists a'. destruct change as [choice| |]; cbn in Hrows.
  - destruct (Hch choice eq_refl) as [Hv He]. rewrite (choices_written _ db _ text choice revision) by done.
    rewrite (reviews_written _ _ revision false); [|done|intros r Hr; by rewrite Hrows].
    destruct (consensus_same records text choice (choice_category choice)) with (acc := consensus_default)
      as (acc & -> & Hacc); [by apply choice_roundtrip|done|by left|]. cbn.
    unfold consensus_resolve. rewrite Hacc by auto. cbn. by rewrite deferred_by_same.
  - rewrite (reviews_written _ _ revision true); [|done|intros r Hr; by rewrite Hrows].
    assert (choices (decision_rows records db') = choices (decision_rows records db)) as ->.
    { apply choices_ext. intros r Hr. by rewrite Hrows. }
    destruct (result_foldl _ _ _) as [consensus|]; [|done]. cbn in *. injection Hd as _ <- _. by rewrite deferred_by_same.
  - rewrite (choices_ext records db), (reviews_ext records db) by (intros r Hr; by rewrite Hrows).
    destruct (result_foldl _ _ _); [|done]. cbn in *. by injection Hd as _ <- <-.
Qed.

(** *** Applying the plans of groups that share no record *)

Definition apply_step (id : str) (revision : Z) : Z * ClassificationDb → CurrentGroup * ClassificationChange →
    ScanResult (Z * ClassificationDb) :=
  λ '(changed_groups, db) '(group, change),
    '(changed, db) ← apply_group to_json constraint_failed id revision (cg_merged group) (cg_records group) change db;
    Ok (changed_groups + flag changed, db).

Lemma apply_groups_rows id revision groups db changed changed' db' :
  NoDup (mjoin ((λ entry, cg_records entry.1) <$> groups)) →
  result_foldl (apply_step id revision) (changed, db) groups = Ok (changed', db') →
  (∀ r, r ∉ mjoin ((λ entry, cg_records entry.1) <$> groups) → row_of db' r = row_of db r) ∧
  ∀ group change, (group, change) ∈ groups →
    ∃ text, (∀ choice, change = ChangeChoose choice → encode_choice to_json choice = Ok text) ∧
      ∀ r, r ∈ cg_records group → row_of db' r = written_row change text revision (row_of db r).
Proof.
  revert changed db. induction groups as [|[group change] groups IH]; intros changed db Hnd H; cbn in H.
  { injection H as _ <-. split; [done|]. by intros ? ? ?%elem_of_nil. }
  cbn in Hnd. apply NoDup_app in Hnd as (_ & Hdis & Hnd).
  apply result_bind_Ok in H as ([c1 db1] & H1 & H). apply result_bind_Ok in H1 as ([c2 db2] & H2 & H1). injection H1 as <- <-.
  apply apply_group_rows in H2 as (text & Htext & _ & Hrow & _). destruct (IH _ _ Hnd H) as [Hother Hgroups]. split.
  - intros r Hr. cbn in Hr. rewrite elem_of_app in Hr. rewrite Hother, Hrow, bool_decide_eq_false_2; naive_solver.
  - intros group' change' [[= -> ->]|Hin]%elem_of_cons.
    + exists text. split; [done|]. intros r Hr. rewrite Hother by auto. by rewrite Hrow, bool_decide_eq_true_2.
    + destruct (Hgroups _ _ Hin) as (text' & Htext' & Hrows). exists text'. split; [done|]. intros r Hr.
      assert (r ∉ cg_records group) as Hr'.
      { intros Hr'. apply (Hdis r Hr'), list_elem_of_join. exists (cg_records group'). split; [done|].
        apply list_elem_of_fmap. by exists (group', change'). }
      by rewrite Hrows, Hrow, bool_decide_eq_false_2.
Qed.
End Laws.

(** ** What an action promises *)

(** An observation of a group with its decisions read again. *)
Definition reread (self : ClassificationObservation) (authority : ClassificationFieldAuthority) (human : HumanClassification)
    (deferred : bool) : ClassificationObservation :=
  {| ob_target := ob_target self; ob_authority := authority; ob_rules := ob_rules self;
     ob_configuration := ob_configuration self; ob_human := human; ob_deferred := deferred;
     ob_prediction := ob_prediction self |}.

Definition action_answered (action : ClassificationAction) (before : ClassificationObservation) (human : HumanClassification)
    (deferred : bool) : Prop :=
  match action with
  | ActionCorrect category => human = Chosen category Local ∧ deferred = false
  | ActionConfirm => ∃ p, compatible_prediction before = Some p ∧ human = Chosen (pr_category (cp_evidence p)) Local
  | ActionDefer => human = ob_human before ∧ (deferred = true ∨ ∃ category origin, human = Chosen category origin)
  end.

(** What a change makes of the decisions of a group. *)
Definition human_after (change : ClassificationChange) (human : HumanClassification) : HumanClassification :=
  match change with ChangeChoose choice => Chosen (choice_category choice) Local | _ => human end.
Definition deferred_after (change : ClassificationChange) (deferred : bool) : bool :=
  match change with ChangeChoose _ => false | ChangeDefer => true | ChangeUnchanged => deferred end.

(** The categories of a scheme, and the reference of a prediction, are values of their types. *)
Definition observation_valid (o : ClassificationObservation) : bool :=
  match ob_prediction o with Some p => reference_valid (cp_evidence p) | None => true end.

Lemma compatible_prediction_valid o p :
  observation_valid o = true → compatible_prediction o = Some p → reference_valid (cp_evidence p) = true.
Proof.
  unfold observation_valid, compatible_prediction. destruct (ob_prediction o) as [q|]; [|done]. cbn.
  destruct (_ || _); [done|]. destruct (tg_subject _); [|done]. case_bool_decide; [|done]. by intros ? [= ->].
Qed.

Lemma require_current_rules_again observed current tx authority human deferred :
  require_current_rules observed current tx = Ok () →
  require_current_rules (reread current authority human deferred) (reread current authority human deferred) tx = Ok ().
Proof.
  unfold require_current_rules. cbn. destruct (_ || _) eqn:E; [done|]. apply orb_false_iff in E as [_ ->].
  by rewrite bool_decide_eq_true_2.
Qed.

Lemma require_category_valid tx category :
  forallb category_id_valid (tx_categories tx) = true → require_category tx category = Ok () → category_id_valid category = true.
Proof.
  unfold require_category. intros Hall. destruct (existsb _ _) eqn:E; [|done]. apply existsb_exists in E as (c & Hin & ->%bool_decide_eq_true).
  intros _. exact (proj1 (forallb_forall _ _) Hall _ Hin).
Qed.

Lemma confirm_answers observed current tx change authority :
  confirm_prediction observed current tx = Ok change → observation_valid current = true →
  let human := human_after change (ob_human current) in
  let again := reread current authority human (deferred_after change (ob_deferred current)) in
  action_answered ActionConfirm current human (deferred_after change (ob_deferred current)) ∧
  confirm_prediction again again tx = Ok ChangeUnchanged ∧ (∀ choice, change = ChangeChoose choice → choice_valid choice = true).
Proof.
  unfold confirm_prediction. intros H Hobs. destruct (bool_decide (ob_human current = Conflict)); [done|].
  apply result_bind_Ok in H as (displayed & _ & H). apply result_bind_Ok in H as (p & Hp & H). apply ok_or_Ok in Hp.
  destruct (negb (bool_decide (displayed = p))); [done|]. apply result_seq_Ok in H as [Hcat H].
  assert ((change = ChangeUnchanged ∧ ob_human current = Chosen (pr_category (cp_evidence p)) Local) ∨
    change = ChangeChoose (ChoiceConfirmed (cp_evidence p))) as Hc.
  { destruct (ob_human current) as [|category origin|]; [naive_solver| |naive_solver].
    destruct (bool_decide (category = _)) eqn:E1; [|done]. apply bool_decide_eq_true in E1 as ->. cbn in H.
    destruct (bool_decide (origin = Local)) eqn:E2; [apply bool_decide_eq_true in E2 as ->|]; naive_solver. }
  cbn zeta. assert (human_after change (ob_human current) = Chosen (pr_category (cp_evidence p)) Local) as Hh by naive_solver.
  cbn [ob_human reread]. rewrite Hh. split_and!.
  - by exists p.
  - assert (∀ a h d, compatible_prediction (reread current a h d) = Some p) as Hp' by (intros; exact Hp).
    rewrite bool_decide_eq_false_2 by done. rewrite Hp'. cbn [ok_or mbind result_bind]. rewrite bool_decide_eq_true_2 by done.
    cbn [negb]. rewrite Hcat. cbn. by rewrite bool_decide_eq_true_2.
  - intros choice ->. destruct Hc as [[? _]|[= ->]]; [done|]. exact (compatible_prediction_valid _ _ Hobs Hp).
Qed.

Lemma plan_answers observed current action tx change authority :
  plan_classification_change observed current action tx = Ok change →
  forallb category_id_valid (tx_categories tx) = true → observation_valid current = true →
  let human := human_after change (ob_human current) in
  let deferred := deferred_after change (ob_deferred current) in
  let again := reread current authority human deferred in
  action_answered action current human deferred ∧ plan_classification_change again again action tx = Ok ChangeUnchanged ∧
  (∀ choice, change = ChangeChoose choice → choice_valid choice = true).
Proof.
  intros H Htx Hobs. cbn zeta. unfold plan_classification_change in *. destruct (negb _ || negb _); [done|].
  rewrite !bool_decide_eq_true_2 by done. cbn [negb orb]. destruct action as [|category|].
  - apply result_seq_Ok in H as [Hrules H]. destruct (confirm_answers _ _ _ _ authority H Hobs) as (H1 & H2 & H3).
    by erewrite require_current_rules_again.
  - apply result_seq_Ok in H as [Hrules H]. apply result_seq_Ok in H as [Hcat H].
    erewrite require_current_rules_again by done. cbn [mbind result_bind]. rewrite Hcat. cbn.
    pose proof (require_category_valid _ _ Htx Hcat) as Hv.
    destruct (bool_decide (ob_human current = Chosen category Local) && negb (ob_deferred current)) eqn:E.
    + injection H as <-. apply andb_prop in E as [E1%bool_decide_eq_true E2%negb_true_iff]. cbn. rewrite E1, E2.
      by rewrite bool_decide_eq_true_2.
    + injection H as <-. cbn. rewrite bool_decide_eq_true_2 by done. naive_solver.
  - destruct (ob_deferred current) eqn:E1; cbn in H; [injection H as <-; cbn; naive_solver|].
    destruct (ob_human current) eqn:E2; injection H as <-; cbn; rewrite ?E1, ?E2; naive_solver.
Qed.

(** The groups as the database has them: their records are theirs alone, their decisions are those stored. *)
Definition groups_current (derive_key : str → bytes → bytes) (from_json : str → option VersionedChoice)
    (current : list CurrentGroup) (db : ClassificationDb) : Prop :=
  NoDup (mjoin (cg_records <$> current)) ∧
  ∀ group, group ∈ current → cg_records group ≠ [] ∧ observation_valid (cg_observation group) = true ∧
    decisions derive_key from_json (cg_records group) db = Ok (ob_authority (cg_observation group),
      ob_human (cg_observation group), ob_deferred (cg_observation group)).

(** C9: A decision takes effect on every group it was made for: after a write, each group reads the corrected category, or
    the category of the prediction it had, as a local choice; or its classification unchanged and its review deferred,
    unless it had a category.  The same action on what is read then changes nothing. *)
Theorem decision_takes_effect (derive_key : str → bytes → bytes) (to_json : VersionedChoice → option str)
    (from_json : str → option VersionedChoice) constraint_failed id digest prepared current taxonomy action now
    db receipt db' :
  (∀ v t, to_json v = Some t → from_json t = Some v) →
  cd_operations db !! id = None → 0 ≤ cd_revision db → forallb category_id_valid (tx_categories taxonomy) = true →
  groups_current derive_key from_json current db →
  classification_write to_json constraint_failed id digest prepared current (Some taxonomy) action now db
    = Ok (receipt, db') →
  ∀ group, group ∈ current → ∃ authority human deferred,
    decisions derive_key from_json (cg_records group) db' = Ok (authority, human, deferred) ∧
    action_answered action (cg_observation group) human deferred ∧
    let again := reread (cg_observation group) authority human deferred in
    plan_classification_change again again action taxonomy = Ok ChangeUnchanged.
Proof.
  intros Hjson Hid Hrev Htx [Hnd Hgroups] H group Hin.
  eapply (classification_write_ok derive_key to_json from_json (λ t, t)) in H; [|exact Hid].
  destruct H as (tx & plans & db1 & changed & db2 & [= <-] & Hlen & Hplans & Hd1 & _ & _ & Hg & Hd2 & _ & _).
  pose proof (Forall2_length _ _ _ Hplans) as Hpl. rewrite length_zip in Hpl.
  apply (apply_groups_rows derive_key to_json from_json (λ t, t)) in Hg as [_ Hrows].
  2:{ rewrite <- (fst_zip current plans) in Hnd by lia. by rewrite <- list_fmap_compose in Hnd. }
  apply list_elem_of_lookup in Hin as [i Hi]. destruct (lookup_lt_is_Some_2 prepared i) as [observed Ho];
    [rewrite <- Hlen; by eapply lookup_lt_Some|].
  destruct (Forall2_lookup_l _ _ _ i (observed, group) Hplans) as (change & Hc & Hplan);
    [by rewrite lookup_zip_with, Ho; cbn; rewrite Hi|].
  destruct (Hgroups group) as (Hne & Hv & Hdec); [by eapply list_elem_of_lookup_2|].
  destruct (Hrows group change) as (text & Htext & Hrow).
  { apply (list_elem_of_lookup_2 _ i). by rewrite lookup_zip_with, Hi; cbn; rewrite Hc. }
  assert (∀ r, r ∈ cg_records group → row_of db' r = written_row change text (cd_revision db + 1) (row_of db r)) as Hrow'.
  { intros r Hr. specialize (Hrow r Hr). unfold row_of in *. by rewrite Hd2, <- Hd1. }
  destruct (decisions_written derive_key to_json from_json (λ t, t) (cg_records group) change text (cd_revision db + 1) db db' _ _ _
    Hjson ltac:(lia) Hne Hdec) as (authority & Hread); [|done|].
  { intros choice Ec. split; [|by apply Htext]. by eapply (plan_answers _ _ _ _ _ (ob_authority observed)). }
  destruct (plan_answers _ _ _ _ _ authority Hplan Htx Hv) as (Hans & Hagain & _).
  exists authority, (human_after change (ob_human (cg_observation group))), (deferred_after change (ob_deferred (cg_observation group))).
  split_and!; [exact Hread|exact Hans|exact Hagain].
Qed.

(** ** Examples *)

(** A text for corrections that carry no rules. *)
Definition sample_to_json (v : VersionedChoice) : option str :=
  match v with {| vc_version := 1; vc_choice := RecordCorrected category [] |} => Some category | _ => None end.
Definition sample_from_json (t : str) : option VersionedChoice :=
  Some {| vc_version := 1; vc_choice := RecordCorrected t [] |}.
Definition sample_derive_key (context : str) (input : bytes) : bytes := input.
Definition sample_failure : ScanError := ScanError_new "catalog_failure" "constraint failed".

Definition sample_records : list str := [lit "a"; lit "b"].

(** Record [a] has a restored deferral, record [b] no decision. *)
Definition sample_decisions_db : ClassificationDb :=
  {| cd_decisions := {[ lit "a" := {| dr_category_id := None; dr_choice := None; dr_choice_revision := 0;
       dr_choice_restored := false; dr_deferred := true; dr_review_revision := 3; dr_review_restored := true |} ]};
     cd_operations := ∅; cd_changes := ∅; cd_targets := ∅; cd_revision := 3; cd_catalog_revision := 7 |}.

Definition sample_decisions_read records db := decisions sample_derive_key sample_from_json records db.

Definition sample_group_observed : ClassificationObservation :=
  {| ob_target := {| tg_subject := SubjectProvisional (lit "asset") 1; tg_membership := [] |};
     ob_authority := {| fa_category := []; fa_review := match sample_decisions_read sample_records sample_decisions_db with
       Ok (a, _, _) => fa_review a | Err _ => [] end |};
     ob_rules := []; ob_configuration := None; ob_human := Unreviewed; ob_deferred := true; ob_prediction := None |}.

Definition sample_group : CurrentGroup :=
  {| cg_observation := sample_group_observed; cg_merged := false; cg_records := sample_records |}.

Definition sample_taxonomy : Taxonomy := {| tx_categories := [lit "night"; lit "sea"]; tx_revision := [] |}.

Definition sample_write : ScanResult (ClassificationWriteReceipt * ClassificationDb) :=
  classification_write sample_to_json sample_failure (lit "op1") (lit "d1") [sample_group_observed]
    [sample_group] (Some sample_taxonomy) (ActionCorrect (lit "sea")) 100 sample_decisions_db.

Definition sample_written : ClassificationDb :=
  match sample_write with Ok (_, db) => db | Err _ => sample_decisions_db end.

Definition sample_undo : ScanResult (ClassificationWriteReceipt * ClassificationDb) :=
  classification_undo sample_from_json (λ t, t) sample_failure (λ _, sample_records) (λ _, true) (λ s, Z.of_nat (size s))
    (lit "op2") (lit "d2") (lit "op1") 200 sample_written.

Definition sample_undone : ClassificationDb := match sample_undo with Ok (_, db) => db | Err _ => sample_written end.

Lemma sample_json v t : sample_to_json v = Some t → sample_from_json t = Some v.
Proof.
  destruct v as [version [? ? ? ? ? ?|category [|? ?]]]; unfold sample_to_json; cbn; try by destruct version as [|[]|].
  destruct version as [|[]|]; try done. by intros [= ->].
Qed.

Lemma sample_reviews_stored : reviews_stored sample_decisions_db.
Proof. intros r row. cbn. intros [<- <-]%lookup_singleton_Some _. cbn. lia. Qed.

Lemma decision_takes_effect_witness : ∃ authority human deferred,
  decisions sample_derive_key sample_from_json sample_records sample_written = Ok (authority, human, deferred) ∧
  action_answered (ActionCorrect (lit "sea")) sample_group_observed human deferred ∧
  let again := reread sample_group_observed authority human deferred in
  plan_classification_change again again (ActionCorrect (lit "sea")) sample_taxonomy = Ok ChangeUnchanged.
Proof.
  eapply (decision_takes_effect sample_derive_key sample_to_json sample_from_json sample_failure
    (lit "op1") (lit "d1") [sample_group_observed] [sample_group] sample_taxonomy (ActionCorrect (lit "sea")) 100
    sample_decisions_db _ sample_written sample_json) with (group := sample_group).
  - reflexivity.
  - vm_compute. discriminate.
  - vm_compute. reflexivity.
  - split; [eapply bool_decide_unpack; vm_compute; exact I|]. intros group ->%list_elem_of_singleton.
    split; [done|]. split; vm_compute; reflexivity.
  - vm_compute. reflexivity.
  - left.
Defined.

Lemma undo_restores_witness :
  (λ read, read.1.2) <$> decisions sample_derive_key sample_from_json [lit "a"] sample_undone =
  (λ read, read.1.2) <$> decisions sample_derive_key sample_from_json [lit "a"] sample_decisions_db ∧
  snd <$> decisions sample_derive_key sample_from_json [lit "a"] sample_undone =
  snd <$> decisions sample_derive_key sample_from_json [lit "a"] sample_decisions_db.
Proof.
  destruct (undo_restores sample_derive_key sample_to_json sample_from_json (λ t, t) sample_failure
    (λ _, sample_records) (λ _, true) (λ s, Z.of_nat (size s)) (lit "op1") (lit "d1") [sample_group_observed] [sample_group]
    (Some sample_taxonomy) (ActionCorrect (lit "sea")) 100 sample_decisions_db
    match sample_write with Ok (r, _) => r | Err _ => {| wc_operation_id := []; wc_revision := 0; wc_changed_groups := 0 |} end
    sample_written (lit "op2") (lit "d2") 200
    match sample_undo with Ok (r, _) => r | Err _ => {| wc_operation_id := []; wc_revision := 0; wc_changed_groups := 0 |} end
    sample_undone [lit "a"]) as [H1 H2].
  - reflexivity.
  - intros op r f [? H]. discriminate H.
  - exact sample_reviews_stored.
  - vm_compute. discriminate.
  - vm_compute. reflexivity.
  - vm_compute. reflexivity.
  - vm_compute. reflexivity.
  - split; [exact H1|]. apply H2. left. intros r ->%list_elem_of_singleton. vm_compute. reflexivity.
Defined.

(** Undoing a correction of the group of both records loses the deferral that was restored with record [a]: the undo gives
    record [b] a local review it never had, and local reviews count before restored ones. *)
Lemma undo_loses_restored_deferral :
  snd <$> decisions sample_derive_key sample_from_json sample_records sample_decisions_db = Ok true ∧
  is_ok sample_write = true ∧ is_ok sample_undo = true ∧
  snd <$> decisions sample_derive_key sample_from_json sample_records sample_undone = Ok false.
Proof. split_and!; vm_compute; reflexivity. Qed.
